(* ===== verification/_CoqProject ===== *)
-Q . S2P
Prelude.v
Identity.v
Lease.v
Ledger.v
Events.v
RuntimeTypes.v
Runtime.v
RuntimeInvariant.v
RuntimeSimulation.v
RuntimeProperties.v
RuntimeRotation.v
RuntimeLiveness.v
RuntimeShutdown.v
RuntimeContract.v
RuntimeWitness.v
Geometry.v
Keys.v
OwnedInput.v
Binary64.v
Motion.v
Actions.v
RateLimit.v
WireInteger.v
WindowTypes.v
Windows.v
WindowPlacement.v
Orderings.v
WindowSelectors.v
WindowQueries.v
NamedKeys.v
InputBackend.v
InputOutcome.v
KeyboardActions.v
Engine.v
EnginePointer.v
EngineKeyboard.v
EngineControl.v
Recorder.v
Coverage.v
EngineInvariant.v
EngineBatch.v
EnginePointerSafety.v
EngineKeyboardSafety.v
EngineMappingSafety.v
EngineControlSafety.v
EngineExecutionSafety.v
EngineAccounting.v
EngineGuarantees.v
EngineEvidence.v
EngineReports.v
EngineWitness.v
AccessibilityTypes.v
Accessibility.v
AccessibilityIdentity.v
AccessibilityGraph.v
AccessibilityViews.v
AccessibilityQueries.v
AccessibilityViewFacts.v
AccessibilityQueryFacts.v
AccessibilityPages.v
AccessibilityAnswers.v
AccessibilityWaits.v
AccessibilityGuarantees.v
AccessibilityWitness.v
AccessibilityCorrelation.v
CorrelationFacts.v
ElementClick.v
ClickGuarantees.v
AtspiCache.v
AtspiCacheFacts.v
AtspiGuarantees.v
AtspiContract.v
PlaneTypes.v
CursorGuarantees.v
AccessibilityIngest.v
IngestFacts.v
IngestGuarantees.v
IngestPublication.v
PlaneWitness.v
