(* ===== verification/Prelude.v ===== *)
(** * Xenoteer: a verification library of the desktop-control core

    Xenoteer controls an X11 desktop on behalf of remote clients.  A client takes the
    control lease, submits commands that are executed once, watches their records and
    the event stream, and asks what windows and what accessible elements there are.  The
    library models the parts of the program that decide: the coordinator, the ownership
    of synthetic input, the plans and the engine that executes them, the window and
    accessibility models with their queries, and the rate limits of the server; and
    proves what makes each of them correct.

    ** The parts and their files

    Shared: this file has the result type, the state-and-error monad [M] of a method on
    [&mut self] (the [?] operator keeps the mutations made before the error), ordered
    maps, reachability and the automation; [Orderings] has the comparisons that sorts
    use; [Binary64] the [f64] operations, over the Standard Library's [spec_float].

    The coordinator (src/crates/xenoteer-core/src/coordinator/):
    - [Identity]: identifiers, principals, clock readings, generation tokens and the
      fence ([mod.rs], [time.rs], [generation.rs], the protocol's [ids.rs]).  The class
      [Fenced] with its laws [FencedLaws] is what the three components below promise to
      the coordinator: [rotate_generation] accepts exactly the newer tokens of their
      desktop, and a refused rotation changes nothing.
    - [Lease]: the control lease and its four phases ([lease.rs]).
    - [Ledger]: the idempotency ledger of commands ([ledger.rs]).
    - [Events]: the bounded event hub and its replay ([event_hub.rs]).
    - [RuntimeTypes], [Runtime]: the actor ([runtime.rs]).  [CoordinatorTask.t] is the
      state of the task; [turn] is one iteration of its [select!] loop, over whichever
      of its sources is ready.  The mailbox is the choice of the next message, a
      [JoinSet] the list of tasks in flight, a oneshot or watch sender the entry its
      value makes in [outputs], the broadcast channel the sequence of events sent.
      [Instant::now] is a function [clock] of the number of readings so far, assumed
      monotone and nothing else.
    - [RuntimeInvariant] to [RuntimeContract]: the invariant of the actor and its
      properties; [RuntimeWitness] instantiates them at concrete runs.

    Input (src/crates/xenoteer-core/src/input/ and domain/):
    - [Geometry]: checked points and rectangles of the root window ([domain/geometry.rs]
      and the protocol's [geometry.rs]); [Keys]: chords and button mappings
      ([keyboard_plan.rs], first part of [action.rs]); [Motion]: pointer paths
      ([interpolation.rs]); [Actions]: clicks, drags, scrolls and key presses
      ([action.rs]).
    - [OwnedInput]: the journal of effects, what the daemon holds down, its health and
      the cleanup of a reset ([effect.rs], [state.rs], [cleanup.rs]).

    The input engine (src/crates/xenoteer-x11/src/input/ and keyboard.rs), the only
    caller of the X server's input requests:
    - [NamedKeys]: the key vocabulary of [keyboard.rs]; [InputBackend]: the two traits
      the engine works through, as classes over the type [W] of the outside world
      ([backend.rs], [keyboard_model.rs]); [InputOutcome]: outcomes, failures and the
      redaction of their evidence ([outcome.rs]); [KeyboardActions]: keyboard requests
      ([keyboard_action.rs]).
    - [Engine], [EnginePointer], [EngineKeyboard], [EngineControl]: [InputEngine] of
      [execute.rs]: batches and the cleanup plan, pointer actions, keyboard actions with
      the temporary mapping of a scalar, and reset, probe, emergency cleanup and
      [execute_operation].
    - [Recorder] wraps any outside world with the sequence of calls made to it, and a
      monitor of what may be held down after them; it has the triples of methods.
      [Coverage] and [EngineInvariant] state that the engine remembers whatever may be
      held or rewritten; [EngineBatch] to [EngineExecutionSafety] prove it of every
      method, [EngineAccounting] and [EngineEvidence] relate the counts and the evidence
      to the calls.  [EngineGuarantees], [EngineReports] have the theorems,
      [EngineWitness] a concrete desktop.

    Windows (xenoteer-core/src/window*.rs with the payloads of xenoteer-protocol):
    - [WindowTypes]: references, snapshots and their validation ([window.rs] and the
      process references of [process.rs] of the protocol); [Windows]: the model of live
      windows and tombstones ([window.rs] of the core).
    - [WindowPlacement]: moves, resizes and window-local points ([window_geometry.rs]).
    - [WindowSelectors], [WindowQueries]: the selector language, requests, pages,
      resolution and waits ([window_selector.rs] of the protocol, [window_query.rs] of
      the core).  [Windows.snapshot_query_records] yields the records a view is made of.

    Accessibility (accessibility.rs of xenoteer-core and of xenoteer-protocol):
    - [AccessibilityTypes]: references, elements, selectors, requests, results and
      events with their validation (the protocol).
    - [Accessibility]: the cache of the elements of one AT-SPI connection: births and
      refreshes, applications and their restarts, removals with tombstones, and the
      barriers that invalidate every reference; [AccessibilityIdentity]: its invariant
      and the theorems on references and revisions.
    - [AccessibilityGraph]: the worklist loops over an index graph; [AccessibilityViews]:
      the immutable view of one revision with its diagnostics and traversals, and the
      compiled selectors; [AccessibilityQueries]: scopes, budgets, orders, pages,
      resolution, waits and the registry of waits.
    - [AccessibilityViewFacts] to [AccessibilityWaits]: what the loops compute;
      [AccessibilityGuarantees] has the theorems, [AccessibilityWitness] applies them to
      a concrete cache.
    - [AccessibilityCorrelation], with [CorrelationFacts]: which
      window an element belongs to: the normalization of texts, the signals and their
      scores, and the choice among the candidates ([accessibility_correlation.rs]).
      [ElementClick]: a click on an element, admitted and revalidated at the head of the
      input queue ([accessibility_click.rs], the policies of the protocol's
      [accessibility_action.rs]); [ClickGuarantees]: the theorems.

    The AT-SPI cache (xenoteer-atspi/src/cache.rs):
    - [AtspiCache]: what the adapter accepts of the two signatures of a cache item,
      byte accounting and bounds, and the operations of [BoundedCache]; the identity
      fingerprint of [semantic.rs].  [AtspiCacheFacts],
      [AtspiGuarantees]: what the operations do, the invariant, the mutations as
      instructions to a mirror, the pages; [AtspiContract]: the theorems.

    The accessibility plane of the daemon (xenoteerd/src/accessibility_plane.rs), which
    mirrors the AT-SPI cache of the actor and publishes it through the cache of the core:
    - [PlaneTypes]: the configuration of the plane, its error type, its page cursors, and
      the maps from AT-SPI numbers and names to the vocabulary of the protocol;
      [CursorGuarantees]: what the cursors promise.
    - [AccessibilityIngest]: the state of the plane and what it does under its lock:
      pages of a bootstrap, mutations, resynchronizations, action targets, window
      correlations.
    - [IngestFacts]: what each call does to the mirror; [IngestGuarantees]: the system of
      the actor of [AtspiCache], everything it emitted, and a plane that any of it may
      reach at any time; [IngestPublication]: the link between the mirror and the cache of
      the core ([Accessibility]); [PlaneWitness]: a concrete run.

    The server and the wire: [RateLimit] (xenoteer-server/src/abuse.rs) and
    [WireInteger] (xenoteer-protocol/src/wire_integer.rs).

    ** What the theorems show

    - Commands: every command goes through its states in order and is executed at most
      once; a terminal result never changes; a repeated submission starts nothing; the
      records of the ledger and the active commands agree; the outcome of an execution
      reaches its watchers; a full ledger forgets only finished commands.
    - Control: the lease is exclusive, ends at its deadline, and passes on only after a
      completed reset; a rotation of the generation happens in every component or in
      none; a shutdown admits nothing and ends.
    - Events: the bounded hub refines an unbounded log; a replay is complete or refused;
      a subscriber misses nothing between its replay and the live events.
    - Input: what may be held down is always owned; a reset releases all of it; poison is
      final; the journal holds every action with its cleanup; motion plans end at their
      target at exactly their duration and never repeat a point.
    - Engine: after any sequence of operations, whatever the server does, each button
      and key the server may hold is in the cleanup plan; a reset that succeeds leaves
      nothing held and every keyboard row as it was found; an unhealthy engine sends
      nothing; the events reported are those the server accepted; what was typed is in
      no evidence.
    - Windows: a destroyed reference never resolves again, however long ago and even
      when its XID is reused; the bounded model answers as a registry that forgets
      nothing; pages show every match once, whatever order the windows were captured in;
      a move lands where it was asked, or as near as the bounds policy allows.
    - Accessibility: an element reference that stopped resolving never resolves again;
      equal revisions mean equal elements; nothing of a protected element leaves the
      cache; every traversal visits each element once, even of a malformed graph, and is
      the recursive one when it is a forest; a query within its budgets answers, and its
      pages are the matches in order; a wait is satisfied exactly when its predicate
      holds, and fails when the cache was invalidated since it was prepared.
    - Correlations and clicks: the choice of a window does not depend on the order of the
      candidates and is the unique best one; what authorizes a physical effect has fresh,
      anchored and uncontradicted evidence; a click that passes its revalidation is at
      the admitted point, of a live and showing element, and not covered.
    - AT-SPI cache: it stays within its limits and its byte count is exact; applying a
      mutation's detail to a mirror gives the new cache; a removal takes exactly the
      subtree; the pages read at one revision are, together, the cache of that revision;
      a fingerprint stands for one identity.
    - Plane: however the messages of the actor are lost, repeated, delayed or reordered,
      a ready plane mirrors exactly one state that the actor's cache had, and publishes
      each mirrored node, and nothing else, under one current reference; nothing
      protected is published; a page cursor is redeemed at most once, by its principal,
      for its request, in time.
    - Limits: no principal exceeds its rate, except through the shared overflow bucket,
      which has a rate of its own; wire integers have one representation.
    Theorems with a hypothesis are instantiated at concrete inputs in the [..._witness]
    lemmas.

    ** Recursion and fuel

    Everything is executable and structurally recursive, with these exceptions.
    [drive_pending], the coordinator's loop over its queue, has the fuel [drive_fuel],
    one more than the length of the queue: every iteration shortens the queue, and a
    theorem of [RuntimeContract] shows that the loop ends before the fuel does.  The
    worklist loops of [AccessibilityGraph] and [AccessibilityQueries] have as fuel the
    roots and edges of the graph (the postorder, which pops every node twice, one more
    per node): an index is pushed as a root or as the child of an index visited for the
    first time, so the worklist is empty before the fuel is; the climb to the window of an element ends in as many steps as there are
    elements.  The worklist of
    [AtspiCache] that marks a subtree has as fuel two more than the nodes: each is pushed
    once, as the child of its only parent.  The climbs of [AccessibilityIngest] have the
    same fuel: they stop at an address seen before, and all but the first and the last
    address are nodes.  The decimal printer of [WireInteger] has fuel 20, the digits of the
    largest [u64].  The pages of a query are followed by an inductive relation, so that
    its existence is the termination of the client's loop.

    ** Parameters

    The backend that executes commands (any outcome, in any order, or none), the X server
    and the keyboard model behind the engine (any answer to any call), the clock,
    [f64::hypot], the regular expression engine, the JSON encoding and the fingerprint of
    a selector, the Unicode lower-casing, SHA-256, the sizes of the Rust types that the
    byte accounting uses, the fresh tokens of the cursors and the event mapper are
    parameters: the theorems hold for all of them.  Where a theorem needs more it is a hypothesis of its
    statement.

    ** Not modelled

    Serialization (serde, JSON schemas) and the redacted debug output; the configuration
    file; the capacity of the tokio channels; drawing and parsing UUIDs; a panic inside
    an operation of the engine (the emergency cleanup after one is modelled from any
    state); the window events and the remaining window-control payloads of the protocol;
    the X11 requests themselves and the xkbcommon keymaps; the D-Bus part of the AT-SPI
    backend and the task around its cache; the process backend; the daemon's planes
    except the ingestion of the accessibility plane (its asynchronous reads and waits,
    its polling and its correlation coordinator are left out, while the queries they
    answer are modelled); the HTTP and WebSocket server, the client SDK and the command
    line.  These are input and output around the parts modelled here. *)

From stdpp Require Import base numbers list option gmap strings sorting.
From Stdlib Require Import Lia.

(** ** Results

    Rust's [Result<A, E>]. *)
Inductive result (A E : Type) : Type :=
  | Ok (a : A)
  | Err (e : E).
Arguments Ok {A E} a.
Arguments Err {A E} e.

#[export] Instance result_eq_dec {A E} `{EqDecision A, EqDecision E} :
  EqDecision (result A E).
Proof. solve_decision. Defined.

(** [Result::map_err], used by the [From] conversions of the [?] operator. *)
Definition map_err {A E F} (f : E -> F) (r : result A E) : result A F :=
  match r with
  | Ok a => Ok a
  | Err e => Err (f e)
  end.

(** [Option::ok_or]. *)
Definition ok_or {A E} (o : option A) (e : E) : result A E :=
  match o with
  | Some a => Ok a
  | None => Err e
  end.

Definition is_ok {A E} (r : result A E) : bool :=
  match r with
  | Ok _ => true
  | Err _ => false
  end.

(** [r?] in a function that returns a [Result] and has no receiver to mutate. *)
Definition and_then {A B E} (r : result A E) (k : A -> result B E) : result B E :=
  match r with
  | Ok a => k a
  | Err e => Err e
  end.

(** [if c { return Err(e); }] in such a function. *)
Definition ensure {E} (P : Prop) `{Decision P} (e : E) : result unit E :=
  if decide P then Err e else Ok tt.

(** [l.iter().map(f).collect::<Result<_, _>>()]: the first error ends the traversal. *)
Fixpoint collect {A B E} (f : A -> result B E) (l : list A) : result (list B) E :=
  match l with
  | [] => Ok []
  | x :: l => and_then (f x) (fun y => and_then (collect f l) (fun ys => Ok (y :: ys)))
  end.

(** [l.try_for_each(f)], or [for x in l { f(x)?; }] without a receiver. *)
Fixpoint try_each {A E} (f : A -> result unit E) (l : list A) : result unit E :=
  match l with
  | [] => Ok tt
  | x :: l => and_then (f x) (fun _ => try_each f l)
  end.

(** [l.try_fold(init, f)]. *)
Fixpoint try_fold {A B E} (f : B -> A -> result B E) (init : B) (l : list A) : result B E :=
  match l with
  | [] => Ok init
  | x :: l => and_then (f init x) (fun acc => try_fold f acc l)
  end.

Lemma and_then_Ok {A B E} (r : result A E) (k : A -> result B E) b :
  and_then r k = Ok b <-> exists a, r = Ok a /\ k a = Ok b.
Proof. destruct r; simpl; naive_solver. Qed.

Lemma and_then_Err {A B E} (r : result A E) (k : A -> result B E) e :
  and_then r k = Err e <-> r = Err e \/ exists a, r = Ok a /\ k a = Err e.
Proof. destruct r; simpl; naive_solver. Qed.

Lemma ensure_Ok {E} (P : Prop) `{Decision P} (e : E) (u : unit) :
  ensure P e = Ok u <-> ~ P.
Proof. unfold ensure. destruct u. case_decide; naive_solver. Qed.

Lemma ensure_pass {E} (P : Prop) `{Decision P} (e : E) : ~ P -> ensure P e = Ok tt.
Proof. intros HP. by apply ensure_Ok. Qed.

Lemma ensure_reject {E} (P : Prop) `{Decision P} (e : E) : P -> ensure P e = Err e.
Proof. intros HP. unfold ensure. by rewrite decide_True by done. Qed.

Lemma ensure_Err {E} (P : Prop) `{Decision P} (e e' : E) :
  ensure P e = Err e' <-> P /\ e' = e.
Proof. unfold ensure. case_decide; naive_solver. Qed.

Lemma try_each_Ok {A E} (f : A -> result unit E) l u :
  try_each f l = Ok u <-> Forall (fun x => f x = Ok tt) l.
Proof.
  destruct u. induction l as [| x l IH]; simpl; [by split |].
  rewrite Forall_cons, and_then_Ok, <- IH. split; [intros ([] & ? & ?) | intros [? ?]]; eauto.
Qed.

Lemma map_err_Ok {A E F} (f : E -> F) (r : result A E) a : map_err f r = Ok a <-> r = Ok a.
Proof. destruct r; simpl; split; congruence. Qed.

Lemma ok_or_Ok {A E} (o : option A) (e : E) a : ok_or o e = Ok a <-> o = Some a.
Proof. destruct o; simpl; split; congruence. Qed.

(** A fold that ends early: an invariant of the processed prefix holds at the end, or
    where the error arose. *)
Lemma try_fold_cases {A B E} (f : B -> A -> result B E) (P : list A -> B -> Prop) init l :
  P [] init ->
  (forall done x rest acc acc', l = done ++ x :: rest -> P done acc -> f acc x = Ok acc' ->
     P (done ++ [x]) acc') ->
  match try_fold f init l with
  | Ok r => P l r
  | Err e => exists done x rest acc, l = done ++ x :: rest /\ P done acc /\ f acc x = Err e
  end.
Proof.
  intros Hinit Hstep.
  assert (forall rest done acc, l = done ++ rest -> P done acc ->
    match try_fold f acc rest with
    | Ok r => P l r
    | Err e => exists done x rest acc, l = done ++ x :: rest /\ P done acc /\ f acc x = Err e
    end) as Hgen; [| by apply (Hgen l [])].
  induction rest as [| x rest IH]; intros done acc Hl HP; simpl.
  - by rewrite Hl, app_nil_r.
  - destruct (f acc x) as [acc' | e] eqn:Hf; simpl; [| by exists done, x, rest, acc].
    apply (IH (done ++ [x])); [by rewrite <- app_assoc | by eapply Hstep].
Qed.

Lemma collect_Ok {A B E} (f : A -> result B E) l ys :
  collect f l = Ok ys <-> Forall2 (fun x y => f x = Ok y) l ys.
Proof.
  revert ys. induction l as [| x l IH]; intros ys; simpl.
  - split; [intros [= <-]; constructor | by inversion 1].
  - rewrite and_then_Ok. split.
    + intros (y & Hy & H). apply and_then_Ok in H as (ys' & H & [= <-]).
      constructor; [done | by apply IH].
    + inversion 1 as [| ? y ? ys' Hy Hys]; subst. exists y. split; [done |].
      apply and_then_Ok. exists ys'. by rewrite IH.
Qed.

(** ** Methods on [&mut self]

    A method [fn op(&mut self, ..) -> Result<A, E>] is a function from the
    receiver's state to the new state and the result.  The [?] operator leaves
    the method with the error and keeps every mutation made before it, so the
    state is threaded through the error branch too. *)
Definition M (S E A : Type) : Type := S -> S * result A E.

Definition ret {S E A} (a : A) : M S E A := fun s => (s, Ok a).
Definition fail {S E A} (e : E) : M S E A := fun s => (s, Err e).
Definition bind {S E A B} (m : M S E A) (k : A -> M S E B) : M S E B :=
  fun s =>
    match m s with
    | (s', Ok a) => k a s'
    | (s', Err e) => (s', Err e)
    end.
Definition get {S E} : M S E S := fun s => (s, Ok s).
Definition modify {S E} (f : S -> S) : M S E unit := fun s => (f s, Ok tt).
(** A pure fallible call, followed by [?]. *)
Definition lift {S E A} (r : result A E) : M S E A := fun s => (s, r).
(** [if c { return Err(e); }] *)
Definition reject_if {S E} (P : Prop) `{Decision P} (e : E) : M S E unit :=
  if decide P then fail e else ret tt.

(** [for x in l { f(x)?; }] *)
Fixpoint for_each {S E X} (f : X -> M S E unit) (l : list X) : M S E unit :=
  match l with
  | [] => ret tt
  | x :: l => bind (f x) (fun _ => for_each f l)
  end.
(** [let _ = m;]: the result is ignored, the mutations stay. *)
Definition ignore {S E A} (m : M S E A) (s : S) : S := fst (m s).

Arguments ret {S E A} a s /.
Arguments fail {S E A} e s /.
Arguments bind {S E A B} m k s /.
Arguments get {S E} s /.
Arguments modify {S E} f s /.
Arguments lift {S E A} r s /.
Arguments reject_if {S E} P {_} e /.

Declare Scope xeno_scope.
Delimit Scope xeno_scope with xeno.
Notation "x <- m ;; k" := (bind m (fun x => k))
  (at level 62, m at next level, right associativity) : xeno_scope.
Notation "m ;;; k" := (bind m (fun _ => k))
  (at level 62, right associativity) : xeno_scope.
Notation "'let?' x ':=' r 'in' k" := (and_then r (fun x => k))
  (at level 10, x name, r at level 100, k at level 200) : xeno_scope.
Notation "'try!' r 'in' k" := (and_then r (fun _ => k))
  (at level 10, r at level 100, k at level 200) : xeno_scope.
#[global] Open Scope xeno_scope.

(** Running a method on one component of a larger state, mapping its error. *)
Definition zoom {S T E F A} (proj : S -> T) (upd : T -> S -> S) (conv : E -> F)
    (m : M T E A) : M S F A :=
  fun s => let '(t, r) := m (proj s) in (upd t s, map_err conv r).
Arguments zoom {S T E F A} proj upd conv m s /.

(** ** Machine integers

    [u64], [u32] and [usize] values are [N]; the operations of the source are
    the checked and saturating ones, written out here. *)
Definition u64_max : N := 18446744073709551615.

Definition checked_add_u64 (a b : N) : option N :=
  if decide (a + b <= u64_max)%N then Some (a + b)%N else None.

Definition checked_sub_u64 (a b : N) : option N :=
  if decide (b <= a)%N then Some (a - b)%N else None.

(** [Vec::len] and [BTreeMap::len], as a [usize]. *)
Definition len {A} (l : list A) : N := N.of_nat (length l).

Lemma checked_add_u64_Some (a b c : N) :
  checked_add_u64 a b = Some c <-> c = (a + b)%N /\ (c <= u64_max)%N.
Proof. unfold checked_add_u64. case_decide; naive_solver. Qed.

Lemma checked_add_u64_None (a b : N) :
  checked_add_u64 a b = None <-> (u64_max < a + b)%N.
Proof. unfold checked_add_u64. case_decide; naive_solver lia. Qed.

Lemma checked_sub_u64_Some (a b c : N) :
  checked_sub_u64 a b = Some c <-> (b <= a)%N /\ c = (a - b)%N.
Proof. unfold checked_sub_u64. case_decide; naive_solver. Qed.

Lemma len_nil {A} : len (@nil A) = 0%N.
Proof. done. Qed.

Lemma len_cons {A} (x : A) l : len (x :: l) = (len l + 1)%N.
Proof. unfold len. simpl. lia. Qed.

Lemma len_app {A} (l k : list A) : len (l ++ k) = (len l + len k)%N.
Proof. unfold len. rewrite length_app. lia. Qed.

Lemma len_zero_iff {A} (l : list A) : len l = 0%N <-> l = [].
Proof. unfold len. destruct l; simpl; split; intros; simplify_eq/=; done || lia. Qed.

Lemma filter_all {A} (P : A -> Prop) `{!forall x, Decision (P x)} (l : list A) :
  (forall x, x ∈ l -> P x) -> filter P l = l.
Proof.
  induction l as [| x l IH]; intros HP; [done |].
  rewrite filter_cons_True by (apply HP; by left). f_equal. apply IH. intros y Hy. apply HP. by right.
Qed.

Lemma filter_none {A} (P : A -> Prop) `{!forall x, Decision (P x)} (l : list A) :
  (forall x, x ∈ l -> ~ P x) -> filter P l = [].
Proof.
  induction l as [| x l IH]; intros Hl; [done |]. rewrite filter_cons_False by (apply Hl; left).
  apply IH. intros y Hy. apply Hl. by right.
Qed.

Lemma Forall_filter_keep {A} (P Q : A -> Prop) `{!forall x, Decision (Q x)} (l : list A) :
  Forall P l -> Forall P (filter Q l).
Proof.
  intros Hl. apply Forall_forall. intros x [_ Hx]%list_elem_of_filter.
  by apply (proj1 (Forall_forall _ _) Hl).
Qed.

Lemma filter_filter_and {A} (P Q : A -> Prop) `{!forall x, Decision (P x), !forall x, Decision (Q x)}
    (l : list A) :
  filter P (filter Q l) = filter (fun x => Q x /\ P x) l.
Proof.
  induction l as [| x l IH]; [done |]. rewrite !filter_cons.
  destruct (decide (Q x)).
  - rewrite filter_cons. repeat case_decide; tauto || by rewrite IH.
  - rewrite (decide_False (P := Q x /\ P x)) by tauto. done.
Qed.

(** A stable partition is a permutation. *)
Lemma filter_partition {A} (P : A -> Prop) `{!forall x, Decision (P x)} (l : list A) :
  filter P l ++ filter (fun x => ~ P x) l ≡ₚ l.
Proof.
  induction l as [| x l IH]; [done |]. rewrite !filter_cons. destruct (decide (P x)).
  - rewrite decide_False by auto. simpl. by rewrite IH.
  - rewrite decide_True by done. by rewrite <- Permutation_middle, IH.
Qed.

Lemma filter_ext {A} (P Q : A -> Prop) `{!forall x, Decision (P x), !forall x, Decision (Q x)}
    (l : list A) :
  (forall x, x ∈ l -> P x <-> Q x) -> filter P l = filter Q l.
Proof.
  induction l as [| x l IH]; intros HPQ; [done |]. rewrite !filter_cons.
  rewrite IH by (intros y Hy; apply HPQ; by right).
  destruct (HPQ x); [by left |]. repeat case_decide; tauto.
Qed.

(** ** Orderings

    The derived [Ord] of a struct compares its fields in order, as
    [Ordering::then_with] does. *)
Definition then_with (c d : comparison) : comparison :=
  match c with
  | Eq => d
  | _ => c
  end.

Definition ordering_le (c : comparison) : Prop := c <> Gt.
#[export] Instance ordering_le_dec c : Decision (ordering_le c).
Proof. unfold ordering_le. solve_decision. Defined.

(** ** Sums of sizes *)
Definition sum_N (l : list N) : N := fold_right N.add 0%N l.

Lemma sum_N_app l k : sum_N (l ++ k) = (sum_N l + sum_N k)%N.
Proof. induction l as [|x l IH]; simpl; lia. Qed.

(** ** Numbered lists

    [numbered f base l]: the [i]-th element of [l] carries the number
    [base + i]: a contiguous, strictly increasing sequence. *)
Definition numbered {A} (f : A -> N) (base : N) (l : list A) : Prop :=
  forall i x, l !! i = Some x -> f x = (base + N.of_nat i)%N.

Section Numbered.
  Context {A : Type} (f : A -> N).
  Implicit Types (l : list A).

Lemma numbered_nil base : numbered f base [].
Proof. intros i x. by rewrite lookup_nil. Qed.

Lemma numbered_cons base x l :
  numbered f base (x :: l) <-> f x = base /\ numbered f (base + 1)%N l.
Proof.
  split.
  - intros H. split.
    + rewrite (H 0%nat x eq_refl). lia.
    + intros i y Hi. rewrite (H (S i) y Hi). lia.
  - intros [Hx H] [|i] y Hi; simplify_eq/=; [lia |].
    rewrite (H _ _ Hi). lia.
Qed.

Lemma numbered_snoc base l x :
  numbered f base l -> f x = (base + len l)%N -> numbered f base (l ++ [x]).
Proof.
  intros H Hx i y Hi.
  apply lookup_app_Some in Hi as [Hi | [Hle Hi]]; [by apply H |].
  apply list_lookup_singleton_Some in Hi as [Hi <-].
  rewrite Hx. unfold len. lia.
Qed.

Lemma numbered_drop base l k :
  numbered f base l -> numbered f (base + N.of_nat k)%N (drop k l).
Proof. intros H i x. rewrite lookup_drop. intros Hi. rewrite (H _ _ Hi). lia. Qed.

(** Selecting the numbers above a bound keeps exactly a suffix. *)
Lemma numbered_filter_gt base l since :
  numbered f base l ->
  filter (fun x => (since < f x)%N) l = drop (N.to_nat (since + 1 - base)) l.
Proof.
  revert base. induction l as [|x l IH]; intros base H; [by rewrite drop_nil |].
  apply numbered_cons in H as [Hx H].
  destruct (decide (since < f x)%N) as [Hlt | Hge].
  - rewrite filter_cons_True by done. rewrite (IH _ H).
    replace (N.to_nat (since + 1 - base)) with 0%nat by lia.
    replace (N.to_nat (since + 1 - (base + 1))) with 0%nat by lia. done.
  - rewrite filter_cons_False by done. rewrite (IH _ H).
    replace (N.to_nat (since + 1 - base))
      with (S (N.to_nat (since + 1 - (base + 1)))) by lia. done.
Qed.

End Numbered.

Create HintDb xeno discriminated.
#[export] Hint Resolve numbered_nil : xeno.

(** ** Reachability

    The reflexive transitive closure of a step relation, and rule induction in
    the form every invariant of the development uses. *)
Section Reach.
  Context {State : Type} (step : State -> State -> Prop).

Inductive steps : State -> State -> Prop :=
  | steps_refl s : steps s s
  | steps_trans s t u : steps s t -> step t u -> steps s u.

Lemma steps_app s t u : steps s t -> steps t u -> steps s u.
Proof. intros Hst Htu. induction Htu; eauto using steps_trans. Qed.

Lemma steps_invariant (P : State -> Prop) s t :
  (forall a b, P a -> step a b -> P b) -> steps s t -> P s -> P t.
Proof. intros HP Hst. induction Hst; eauto. Qed.

Lemma steps_relation (R : State -> State -> Prop) `{!PreOrder R}
    (P : State -> Prop) s t :
  (forall a b, P a -> step a b -> P b /\ R a b) ->
  steps s t -> P s -> P t /\ R s t.
Proof.
  intros HP Hst Hs. induction Hst as [s | s t u Hst IH Htu]; [done |].
  destruct (IH Hs) as [Ht HR]. destruct (HP _ _ Ht Htu) as [Hu HR'].
  split; [done | by etrans].
Qed.

End Reach.
Arguments steps_refl {State step} s.
Arguments steps_trans {State step} s t u.

(** ** [BTreeMap]

    A [BTreeMap] is a [gmap] whose iteration visits the keys in their order;
    [cmp] is the key's derived [Ord]. *)
Section BTree.
  Context `{Countable K} (cmp : K -> K -> comparison) {A : Type}.
  Implicit Types (m : gmap K A).

#[local] Instance entry_le_dec (a b : K * A) : Decision (ordering_le (cmp a.1 b.1)) := _.

Definition btree_iter (m : gmap K A) : list (K * A) :=
  merge_sort (fun a b : K * A => ordering_le (cmp a.1 b.1)) (map_to_list m).

Definition btree_keys (m : gmap K A) : list K := (btree_iter m).*1.

Lemma btree_iter_Permutation m : btree_iter m ≡ₚ map_to_list m.
Proof. apply merge_sort_Permutation. Qed.

Lemma elem_of_btree_iter m k x : (k, x) ∈ btree_iter m <-> m !! k = Some x.
Proof. by rewrite btree_iter_Permutation, elem_of_map_to_list. Qed.

Lemma elem_of_btree_keys m k : k ∈ btree_keys m <-> is_Some (m !! k).
Proof.
  unfold btree_keys. rewrite list_elem_of_fmap. split.
  - intros ([k' x] & -> & Hx%elem_of_btree_iter). by exists x.
  - intros [x Hx%elem_of_btree_iter]. by exists (k, x).
Qed.

Lemma NoDup_btree_keys m : NoDup (btree_keys m).
Proof.
  unfold btree_keys. rewrite btree_iter_Permutation. apply NoDup_fst_map_to_list.
Qed.

(** Counting keys, as [m.keys().filter(P).count()] does. *)
Section Count.
  Context (P : K -> Prop) `{!forall k, Decision (P k)}.

Definition btree_count (m : gmap K A) : N := len (filter P (btree_keys m)).

Lemma btree_count_entries m : btree_count m = len (filter P (map_to_list m).*1).
Proof. unfold btree_count, btree_keys, len. by rewrite btree_iter_Permutation. Qed.

Lemma btree_count_insert_new m k x :
  m !! k = None ->
  btree_count (<[k := x]> m) = (btree_count m + if decide (P k) then 1 else 0)%N.
Proof.
  intros Hk. rewrite !btree_count_entries. unfold len.
  rewrite (map_to_list_insert m k x Hk), fmap_cons, filter_cons. simpl.
  case_decide; simpl; lia.
Qed.

Lemma btree_count_delete m k x :
  m !! k = Some x ->
  btree_count m = (btree_count (delete k m) + if decide (P k) then 1 else 0)%N.
Proof.
  intros Hk. rewrite <- (insert_delete_id m k x Hk) at 1.
  apply btree_count_insert_new. apply lookup_delete_eq.
Qed.

Lemma btree_count_insert_old m k x :
  is_Some (m !! k) -> btree_count (<[k := x]> m) = btree_count m.
Proof.
  intros [y Hk]. rewrite (btree_count_delete m k y Hk).
  rewrite (btree_count_delete (<[k := x]> m) k x) by apply lookup_insert_eq.
  by rewrite delete_insert_eq.
Qed.

End Count.

End BTree.

(** [get_mut] followed by a mutation. *)
Lemma lookup_alter_if `{Countable K} {A} (f : A -> A) (m : gmap K A) i j :
  alter f i m !! j = (if decide (i = j) then f else id) <$> m !! j.
Proof.
  case_decide as Hd; [subst; apply lookup_alter_eq |].
  rewrite lookup_alter_ne by done. by destruct (m !! j).
Qed.

(** [Iterator::min_by]: the first element no other is smaller than. *)
Definition min_by {A} (cmp : A -> A -> comparison) (l : list A) : option A :=
  match l with
  | [] => None
  | x :: l =>
      Some (fold_left (fun acc y => match cmp acc y with Gt => y | _ => acc end) l x)
  end.

Section MinBy.
  Context {A : Type} (cmp : A -> A -> comparison) (f : A -> N).
  Context (cmp_measure : forall x y,
    match cmp x y with Gt => (f y <= f x)%N | _ => (f x <= f y)%N end).

Lemma min_by_None l : min_by cmp l = None <-> l = [].
Proof. by destruct l. Qed.

Lemma min_by_Some l x :
  min_by cmp l = Some x -> x ∈ l /\ forall y, y ∈ l -> (f x <= f y)%N.
Proof.
  destruct l as [|a l]; [done |]. simpl. intros [= <-]. revert a.
  induction l as [|b l IH]; intros a; simpl.
  { split; [set_solver |]. intros y ->%list_elem_of_singleton. lia. }
  pose proof (cmp_measure a b) as Hab.
  destruct (IH (match cmp a b with Gt => b | _ => a end)) as [Hin Hle].
  assert (f (match cmp a b with Gt => b | _ => a end) <= f a)%N as Ha
    by (destruct (cmp a b); lia).
  assert (f (match cmp a b with Gt => b | _ => a end) <= f b)%N as Hb
    by (destruct (cmp a b); lia).
  split.
  - destruct (cmp a b); set_solver.
  - intros y [-> | [-> | Hy]%elem_of_cons]%elem_of_cons.
    + etrans; [apply Hle; left | done].
    + etrans; [apply Hle; left | done].
    + apply Hle. by right.
Qed.

End MinBy.

(** ** Automation

    [crush] runs the case analysis of a method body: every [match] and every
    [decide] on the way, then equalities and linear arithmetic. *)
Ltac case_step :=
  match goal with
  | _ => progress simplify_eq/=
  | _ => case_decide
  | _ => case_match
  end.

Ltac crush := repeat case_step; try done; try lia; eauto with xeno.

(** Case analysis in a hypothesis that equates a method's run with an outcome. *)
Ltac run_case H :=
  repeat (simplify_eq/=;
    match type of H with
    | context [decide ?P] => destruct (decide P)
    | context [match ?x with _ => _ end] => destruct x eqn:?
    end); simplify_eq/=.
