(* ===== verification/Identity.v ===== *)
(** * Identities, monotonic time and the desktop-generation fence

    Models [xenoteer-protocol/src/ids.rs] (the identifier newtypes),
    [xenoteer-core/src/coordinator/time.rs], the principal identifier of
    [coordinator/mod.rs] and [coordinator/generation.rs].  The class [Fenced]
    states what the generation-fenced components (lease machine, command ledger,
    event hub) promise to the coordinator that owns them. *)

From stdpp Require Import base numbers list option gmap strings sorting.
From Stdlib Require Import Lia.
From S2P Require Import Prelude.

Local Open Scope N_scope.

(** ** Identifiers: newtypes over a 128-bit UUID *)
Record DesktopId := mkDesktopId { desktop_uuid : N }.
Record DesktopGeneration := mkDesktopGeneration { generation_uuid : N }.
Record CommandId := mkCommandId { command_uuid : N }.
Record ControlLeaseId := mkControlLeaseId { lease_uuid : N }.

#[export] Instance DesktopId_eq_dec : EqDecision DesktopId.
Proof. solve_decision. Defined.
#[export] Instance DesktopGeneration_eq_dec : EqDecision DesktopGeneration.
Proof. solve_decision. Defined.
#[export] Instance CommandId_eq_dec : EqDecision CommandId.
Proof. solve_decision. Defined.
#[export] Instance ControlLeaseId_eq_dec : EqDecision ControlLeaseId.
Proof. solve_decision. Defined.

#[export] Instance DesktopId_countable : Countable DesktopId.
Proof. by apply (inj_countable' desktop_uuid mkDesktopId); intros []. Defined.
#[export] Instance DesktopGeneration_countable : Countable DesktopGeneration.
Proof. by apply (inj_countable' generation_uuid mkDesktopGeneration); intros []. Defined.
#[export] Instance CommandId_countable : Countable CommandId.
Proof. by apply (inj_countable' command_uuid mkCommandId); intros []. Defined.

(** ** [MonotonicMillis]: a [u64] clock reading *)
Module MonotonicMillis.

Abbreviation t := N (only parsing).

Definition new (value : N) : t := value.

Definition get (self : t) : N := self.

(** [checked_add]: adds a duration without wrapping. *)
Definition checked_add (self duration_ms : N) : option t :=
  match checked_add_u64 self duration_ms with
  | Some value => Some value
  | None => None
  end.

(** [elapsed_since]: [None] when [earlier] is in the future. *)
Definition elapsed_since (self earlier : t) : option N := checked_sub_u64 self earlier.

Lemma checked_add_Some (a b c : N) :
  checked_add a b = Some c <-> c = a + b /\ c <= u64_max.
Proof.
  rewrite <- checked_add_u64_Some. unfold checked_add.
  by destruct (checked_add_u64 a b).
Qed.

End MonotonicMillis.

(** ** [PrincipalId] *)
Module PrincipalId.

Definition MAX_PRINCIPAL_ID_BYTES : N := 128.

(** [PrincipalId(String)]: the bytes of the identifier. *)
Record t := mk { as_str : string }.

#[export] Instance eq_dec : EqDecision t.
Proof. solve_decision. Defined.
#[export] Instance countable : Countable t.
Proof. by apply (inj_countable' as_str mk); intros []. Defined.

Inductive PrincipalIdError :=
  | Empty
  | TooLong (maximum actual : N)
  | InvalidCharacter.

(** [u8::is_ascii_graphic]: '!' to '~'. *)
Definition is_ascii_graphic (byte : Ascii.ascii) : bool :=
  let n := Ascii.N_of_ascii byte in bool_decide (33 <= n) && bool_decide (n <= 126).

(** [PrincipalId::new]. *)
Definition new (value : string) : result t PrincipalIdError :=
  let length := N.of_nat (String.length value) in
  if decide (length = 0) then Err Empty
  else if decide (MAX_PRINCIPAL_ID_BYTES < length) then
    Err (TooLong MAX_PRINCIPAL_ID_BYTES length)
  else if forallb is_ascii_graphic (String.list_ascii_of_string value) then
    Ok (mk value)
  else Err InvalidCharacter.

(** The derived [Ord]: byte-wise, as [str] is ordered. *)
Definition cmp (a b : t) : comparison := String.compare (as_str a) (as_str b).

(** What a principal identifier has to look like. *)
Definition well_formed (value : string) : Prop :=
  1 <= N.of_nat (String.length value) <= MAX_PRINCIPAL_ID_BYTES /\
  Forall (fun c => 33 <= Ascii.N_of_ascii c <= 126) (String.list_ascii_of_string value).

Lemma is_ascii_graphic_spec c :
  is_ascii_graphic c = true <-> 33 <= Ascii.N_of_ascii c <= 126.
Proof.
  unfold is_ascii_graphic. rewrite andb_true_iff, !bool_decide_eq_true. lia.
Qed.

(** [PrincipalId::new] accepts exactly the well-formed strings and returns them
    unchanged. *)
Lemma new_Ok value p : new value = Ok p <-> p = mk value /\ well_formed value.
Proof.
  unfold new, well_formed.
  rewrite Forall_forall. setoid_rewrite <- is_ascii_graphic_spec.
  setoid_rewrite list_elem_of_In. rewrite <- forallb_forall.
  repeat case_decide; repeat case_match; naive_solver lia.
Qed.

End PrincipalId.
Export (hints) PrincipalId.

(** ** [GenerationToken] and [GenerationFence] *)
Module GenerationToken.

Record t := mk {
  desktop_id : DesktopId;
  generation : DesktopGeneration;
  epoch : N
}.

#[export] Instance eq_dec : EqDecision t.
Proof. solve_decision. Defined.
#[export] Instance countable : Countable t.
Proof.
  by apply (inj_countable' (fun g => (desktop_id g, generation g, epoch g))
    (fun '(d, g, e) => mk d g e)); intros [].
Defined.

(** The derived [Ord]: the fields in declaration order. *)
Definition cmp (a b : t) : comparison :=
  then_with (N.compare (desktop_uuid (desktop_id a)) (desktop_uuid (desktop_id b)))
    (then_with
      (N.compare (generation_uuid (generation a)) (generation_uuid (generation b)))
      (N.compare (epoch a) (epoch b))).

End GenerationToken.
Export (hints) GenerationToken.

Inductive GenerationFenceError :=
  | FenceWrongDesktop
  | FenceStale (expected supplied : GenerationToken.t)
  | FenceReusedGeneration
  | FenceEpochExhausted.

Module GenerationFence.
Import GenerationToken.

Record t := mkFence { current : GenerationToken.t }.

(** [GenerationFence::new]: the first process-local epoch. *)
Definition new (desktop : DesktopId) (generation : DesktopGeneration) : t :=
  mkFence (GenerationToken.mk desktop generation 1).

(** [GenerationFence::capture]. *)
Definition capture (self : t) : GenerationToken.t := current self.

(** [GenerationFence::validate]. *)
Definition validate (self : t) (supplied : GenerationToken.t) :
    result unit GenerationFenceError :=
  if decide (desktop_id supplied <> desktop_id (current self)) then
    Err FenceWrongDesktop
  else if decide (supplied <> current self) then
    Err (FenceStale (current self) supplied)
  else Ok tt.

(** [GenerationFence::rotate]. *)
Definition rotate (generation : DesktopGeneration) :
    M t GenerationFenceError GenerationToken.t :=
  self <- get ;;
  reject_if (generation = GenerationToken.generation (current self))
    FenceReusedGeneration ;;;
  epoch <- lift (ok_or (checked_add_u64 (epoch (current self)) 1) FenceEpochExhausted) ;;
  let token := GenerationToken.mk (desktop_id (current self)) generation epoch in
  modify (fun _ => mkFence token) ;;;
  ret token.

Lemma validate_Ok self g : validate self g = Ok tt <-> g = capture self.
Proof. unfold validate, capture. repeat case_decide; naive_solver. Qed.

Lemma fence_rotate_cases g self :
  (exists e, rotate g self = (self, Err e)) \/
  (exists token, rotate g self = (mkFence token, Ok token) /\
    g <> generation (current self) /\ generation token = g /\
    desktop_id token = desktop_id (current self) /\
    epoch token = epoch (current self) + 1 /\ epoch token <= u64_max).
Proof.
  unfold rotate. simpl. case_decide as Hg; simpl; [eauto |].
  destruct (checked_add_u64 _ _) as [e |] eqn:He; simpl; [| eauto].
  apply checked_add_u64_Some in He as [-> ?]. right. eauto 10.
Qed.

(** One call of [rotate], whatever its outcome. *)
Definition rotate_step (s s' : t) : Prop := exists g, s' = fst (rotate g s).

Lemma rotate_step_order s s' :
  rotate_step s s' ->
  s' = s \/ (epoch (capture s) < epoch (capture s')).
Proof.
  intros [g ->].
  destruct (fence_rotate_cases g s) as [[e ->] | (token & -> & ? & ? & ? & ? & ?)]; [by left |].
  right. unfold capture. simpl. lia.
Qed.

Lemma rotate_steps_order s s' :
  steps rotate_step s s' ->
  s' = s \/ (epoch (capture s) < epoch (capture s')).
Proof.
  induction 1 as [s | s t u _ IH Htu]; [by left |].
  apply rotate_step_order in Htu as [-> | ?]; [done |].
  destruct IH as [-> | ?]; right; [done | lia].
Qed.

End GenerationFence.

(** ** The interface of a generation-fenced component

    [fenced_rotate] is the component's [rotate_generation].  A component is bound
    to one desktop; it accepts exactly the tokens of that desktop with a newer
    epoch and another generation, and a refused rotation changes nothing. *)
Class Fenced (S E A : Type) := {
  fenced_desktop : S -> DesktopId;
  fenced_token : S -> GenerationToken.t;
  fenced_rotate : GenerationToken.t -> M S E A;
}.
Arguments fenced_desktop {S E A _} s.
Arguments fenced_token {S E A _} s.
Arguments fenced_rotate {S E A _} g s.

Definition rotation_allowed (desktop : DesktopId) (old new : GenerationToken.t) : Prop :=
  GenerationToken.desktop_id new = desktop /\
  GenerationToken.epoch old < GenerationToken.epoch new /\
  GenerationToken.generation new <> GenerationToken.generation old.

Class FencedLaws (S E A : Type) `{Fenced S E A} := {
  fenced_rotate_Ok s g :
    rotation_allowed (fenced_desktop s) (fenced_token s) g ->
    exists s' a, fenced_rotate g s = (s', Ok a) /\
      fenced_token s' = g /\ fenced_desktop s' = fenced_desktop s;
  fenced_rotate_Err s g :
    ~ rotation_allowed (fenced_desktop s) (fenced_token s) g ->
    exists e, fenced_rotate g s = (s, Err e);
}.

(** Every token the fence hands out by a rotation is acceptable to a component
    that followed the fence so far. *)
Lemma rotate_allowed (f f' : GenerationFence.t) g token :
  GenerationFence.rotate g f = (f', Ok token) ->
  rotation_allowed (GenerationToken.desktop_id (GenerationFence.capture f))
    (GenerationFence.capture f) token /\ GenerationFence.capture f' = token.
Proof.
  intros H. destruct (GenerationFence.fence_rotate_cases g f)
    as [[e He] | (tk & He & Hne & Hg & Hd & Hep & _)]; rewrite H in He; simplify_eq.
  unfold rotation_allowed, GenerationFence.capture. simpl. split; [| done].
  split; [done |]. split; [lia |]. congruence.
Qed.

(** ** Properties *)

(** Fencing is permanent.  Once a rotation succeeded, the token that was current
    before it is rejected for good: it does not validate after any further sequence
    of rotations, refused ones included, and whatever generations they are given. *)
Theorem fence_permanently_fences_prior_tokens
    (f f' : GenerationFence.t) (g : DesktopGeneration) (token : GenerationToken.t)
    (f'' : GenerationFence.t) :
  GenerationFence.rotate g f = (f', Ok token) ->
  steps GenerationFence.rotate_step f' f'' ->
  GenerationFence.validate f'' (GenerationFence.capture f) <> Ok tt.
Proof.
  intros Hrot Hst. rewrite GenerationFence.validate_Ok.
  destruct (rotate_allowed _ _ _ _ Hrot) as [(_ & He & _) <-].
  apply GenerationFence.rotate_steps_order in Hst as [-> | Hlt].
  all: intros Heq; rewrite Heq in *; lia.
Qed.

Lemma fence_permanently_fences_prior_tokens_witness :
  let f := GenerationFence.new (mkDesktopId 7) (mkDesktopGeneration 1) in
  let f' := fst (GenerationFence.rotate (mkDesktopGeneration 2) f) in
  GenerationFence.validate (fst (GenerationFence.rotate (mkDesktopGeneration 1) f'))
    (GenerationFence.capture f) <> Ok tt.
Proof.
  intros f f'.
  apply (fence_permanently_fences_prior_tokens f f' (mkDesktopGeneration 2)
    (GenerationToken.mk (mkDesktopId 7) (mkDesktopGeneration 2) 2)).
  - vm_compute. reflexivity.
  - eapply steps_trans; [apply steps_refl | by exists (mkDesktopGeneration 1)].
Defined.
