(* ===== verification/Lease.v ===== *)
(** * The exclusive physical-input lease

    Models [xenoteer-core/src/coordinator/lease.rs]: the lease policy, the lease
    machine with every operation, its invariant, and the theorems that make
    control exclusive, bounded in time and followed by a mandatory input reset. *)

From stdpp Require Import base numbers list option gmap strings sorting.
From Stdlib Require Import Lia.
From S2P Require Import Prelude.
From S2P Require Import Identity.

Local Open Scope N_scope.

(** [RevocationReason]: why an active lease stopped accepting input. *)
Inductive RevocationReason :=
  | Released
  | Expired
  | Revoked
  | GenerationChanged
  | Shutdown.

(** [LeasePhase]. *)
Inductive LeasePhase := PhaseVacant | PhaseHeld | PhaseRevoking | PhaseResetting.

#[export] Instance RevocationReason_eq_dec : EqDecision RevocationReason.
Proof. solve_decision. Defined.
#[export] Instance LeasePhase_eq_dec : EqDecision LeasePhase.
Proof. solve_decision. Defined.

(** [LeaseError]; the operation name of [InvalidTransition] is kept. *)
Inductive LeaseError :=
  | LeaseInvalidPolicy
  | LeaseTtlOutOfRange (maximum_ms supplied_ms : N)
  | LeaseOccupied (expires_at : MonotonicMillis.t)
  | LeaseWrongOwner
  | LeaseWrongLease
  | LeaseNotHeld
  | LeaseExpired
  | LeaseResetRequired
  | LeaseWrongDesktop
  | LeaseStaleGeneration
  | LeaseClockRegressed
  | LeaseTimeOverflow
  | LeaseInvalidTransition (from : LeasePhase) (operation : string).

(** ** [LeasePolicy] *)
Module LeasePolicy.

Record t := mk { default_ttl_ms : N; maximum_ttl_ms : N }.

(** [LeasePolicy::new]. *)
Definition new (default_ttl_ms maximum_ttl_ms : N) : result t LeaseError :=
  if decide (default_ttl_ms = 0 \/ maximum_ttl_ms = 0 \/
             maximum_ttl_ms < default_ttl_ms) then
    Err LeaseInvalidPolicy
  else Ok (mk default_ttl_ms maximum_ttl_ms).

(** [LeasePolicy::default]. *)
Definition default : t := mk 60000 60000.

(** [LeasePolicy::resolve_ttl]. *)
Definition resolve_ttl (self : t) (requested_ttl_ms : option N) : result N LeaseError :=
  let ttl_ms := match requested_ttl_ms with
                | Some v => v
                | None => default_ttl_ms self
                end in
  if decide (ttl_ms = 0 \/ maximum_ttl_ms self < ttl_ms) then
    Err (LeaseTtlOutOfRange (maximum_ttl_ms self) ttl_ms)
  else Ok ttl_ms.

Lemma resolve_ttl_Ok self requested ttl :
  resolve_ttl self requested = Ok ttl ->
  ttl = from_option id (default_ttl_ms self) requested /\
  1 <= ttl <= maximum_ttl_ms self.
Proof.
  unfold resolve_ttl. intros H. destruct requested; simpl in *; run_case H; lia.
Qed.

End LeasePolicy.

(** ** [LeaseGrant] *)
Module LeaseGrant.

Record t := mk {
  lease_id : ControlLeaseId;
  owner : PrincipalId.t;
  generation : GenerationToken.t;
  expires_at : MonotonicMillis.t;
  last_activity_at : MonotonicMillis.t
}.

#[export] Instance eq_dec : EqDecision t.
Proof. solve_decision. Defined.

(** [lease.expires_at = v; lease.last_activity_at = w]. *)
Definition set_expires_at (v : N) (l : t) : t :=
  mk (lease_id l) (owner l) (generation l) v (last_activity_at l).
Definition set_last_activity_at (v : N) (l : t) : t :=
  mk (lease_id l) (owner l) (generation l) (expires_at l) v.

End LeaseGrant.
Export (hints) LeaseGrant.

(** [LeaseSnapshot]. *)
Inductive LeaseSnapshot :=
  | SnapshotVacant (generation : GenerationToken.t)
  | SnapshotHeld (lease : LeaseGrant.t)
  | SnapshotRevoking (lease : LeaseGrant.t) (reason : RevocationReason)
  | SnapshotResetting (lease : LeaseGrant.t) (reason : RevocationReason).

(** [LeaseState], private to the machine. *)
Inductive LeaseState :=
  | Vacant
  | Held (lease : LeaseGrant.t)
  | Revoking (lease : LeaseGrant.t) (reason : RevocationReason)
  | Resetting (lease : LeaseGrant.t) (reason : RevocationReason).

(** ** [LeaseMachine] *)
Module LeaseMachine.

Record t := mk {
  desktop_id : DesktopId;
  generation : GenerationToken.t;
  policy : LeasePolicy.t;
  last_observed_at : option MonotonicMillis.t;
  state : LeaseState
}.

Definition set_generation (g : GenerationToken.t) (m : t) : t :=
  mk (desktop_id m) g (policy m) (last_observed_at m) (state m).
Definition set_last_observed_at (v : option N) (m : t) : t :=
  mk (desktop_id m) (generation m) (policy m) v (state m).
Definition set_state (v : LeaseState) (m : t) : t :=
  mk (desktop_id m) (generation m) (policy m) (last_observed_at m) v.

Arguments set_generation g m /.
Arguments set_last_observed_at v m /.
Arguments set_state v m /.

(** [LeaseMachine::new]. *)
Definition new (desktop : DesktopId) (generation : GenerationToken.t)
    (policy : LeasePolicy.t) : result t LeaseError :=
  if decide (GenerationToken.desktop_id generation <> desktop) then
    Err LeaseWrongDesktop
  else Ok (mk desktop generation policy None Vacant).

(** [LeaseMachine::phase]. *)
Definition phase (self : t) : LeasePhase :=
  match state self with
  | Vacant => PhaseVacant
  | Held _ => PhaseHeld
  | Revoking _ _ => PhaseRevoking
  | Resetting _ _ => PhaseResetting
  end.

(** [LeaseMachine::snapshot]. *)
Definition snapshot (self : t) : LeaseSnapshot :=
  match state self with
  | Vacant => SnapshotVacant (generation self)
  | Held lease => SnapshotHeld lease
  | Revoking lease reason => SnapshotRevoking lease reason
  | Resetting lease reason => SnapshotResetting lease reason
  end.

(** [LeaseMachine::validate_generation]. *)
Definition validate_generation (supplied : GenerationToken.t) : M t LeaseError unit :=
  self <- get ;;
  reject_if (GenerationToken.desktop_id supplied <> desktop_id self) LeaseWrongDesktop ;;;
  reject_if (supplied <> generation self) LeaseStaleGeneration.

(** [LeaseMachine::observe]. *)
Definition observe (now : N) : M t LeaseError unit :=
  self <- get ;;
  match last_observed_at self with
  | Some previous => reject_if (now < previous) LeaseClockRegressed
  | None => ret tt
  end ;;;
  modify (set_last_observed_at (Some now)).

(** [LeaseMachine::expire_if_due]: whether a held lease just expired. *)
Definition expire_if_due (now : N) : M t LeaseError bool :=
  self <- get ;;
  match state self with
  | Held lease =>
      if decide (now < LeaseGrant.expires_at lease) then ret false
      else
        modify (set_state (Revoking lease Expired)) ;;;
        ret true
  | _ => ret false
  end.

(** [LeaseMachine::validate_capability]. *)
Definition validate_capability (lease : LeaseGrant.t) (owner : PrincipalId.t)
    (lease_id : ControlLeaseId) : result unit LeaseError :=
  if decide (LeaseGrant.owner lease <> owner) then Err LeaseWrongOwner
  else if decide (LeaseGrant.lease_id lease <> lease_id) then Err LeaseWrongLease
  else Ok tt.

(** The [let lease = match &self.state ...] of [renew], [authorize], [release]. *)
Definition held_lease : M t LeaseError LeaseGrant.t :=
  self <- get ;;
  match state self with
  | Held lease => ret lease
  | Vacant => fail LeaseNotHeld
  | Revoking _ _ | Resetting _ _ => fail LeaseResetRequired
  end.

(** [LeaseMachine::acquire]. *)
Definition acquire (owner : PrincipalId.t) (lease_id : ControlLeaseId)
    (requested_ttl_ms : option N) (now : N) (supplied : GenerationToken.t) :
    M t LeaseError LeaseGrant.t :=
  validate_generation supplied ;;;
  observe now ;;;
  expire_if_due now ;;;
  self <- get ;;
  match state self with
  | Held lease => fail (LeaseOccupied (LeaseGrant.expires_at lease))
  | Revoking _ _ | Resetting _ _ => fail LeaseResetRequired
  | Vacant => ret tt
  end ;;;
  ttl_ms <- lift (LeasePolicy.resolve_ttl (policy self) requested_ttl_ms) ;;
  expires_at <- lift (ok_or (MonotonicMillis.checked_add now ttl_ms) LeaseTimeOverflow) ;;
  let grant := LeaseGrant.mk lease_id owner supplied expires_at now in
  modify (set_state (Held grant)) ;;;
  ret grant.

(** [LeaseMachine::renew]. *)
Definition renew (owner : PrincipalId.t) (lease_id : ControlLeaseId)
    (requested_ttl_ms : option N) (now : N) (supplied : GenerationToken.t) :
    M t LeaseError LeaseGrant.t :=
  validate_generation supplied ;;;
  observe now ;;;
  expired <- expire_if_due now ;;
  reject_if (expired = true) LeaseExpired ;;;
  self <- get ;;
  ttl_ms <- lift (LeasePolicy.resolve_ttl (policy self) requested_ttl_ms) ;;
  expires_at <- lift (ok_or (MonotonicMillis.checked_add now ttl_ms) LeaseTimeOverflow) ;;
  lease <- held_lease ;;
  lift (validate_capability lease owner lease_id) ;;;
  let lease := LeaseGrant.set_last_activity_at now
                 (LeaseGrant.set_expires_at expires_at lease) in
  modify (set_state (Held lease)) ;;;
  ret lease.

(** [LeaseMachine::authorize]. *)
Definition authorize (owner : PrincipalId.t) (lease_id : ControlLeaseId)
    (now : N) (supplied : GenerationToken.t) : M t LeaseError LeaseGrant.t :=
  validate_generation supplied ;;;
  observe now ;;;
  expired <- expire_if_due now ;;
  reject_if (expired = true) LeaseExpired ;;;
  lease <- held_lease ;;
  lift (validate_capability lease owner lease_id) ;;;
  let lease := LeaseGrant.set_last_activity_at now lease in
  modify (set_state (Held lease)) ;;;
  ret lease.

(** [LeaseMachine::release]. *)
Definition release (owner : PrincipalId.t) (lease_id : ControlLeaseId)
    (now : N) (supplied : GenerationToken.t) : M t LeaseError unit :=
  validate_generation supplied ;;;
  observe now ;;;
  expired <- expire_if_due now ;;
  reject_if (expired = true) LeaseExpired ;;;
  lease <- held_lease ;;
  lift (validate_capability lease owner lease_id) ;;;
  modify (set_state (Revoking lease Released)).

(** [LeaseMachine::revoke]: [true] when an active lease entered [Revoking]. *)
Definition revoke (reason : RevocationReason) (self : t) : t * bool :=
  match state self with
  | Held lease => (set_state (Revoking lease reason) self, true)
  | _ => (self, false)
  end.

(** [LeaseMachine::advance_time]. *)
Definition advance_time (now : N) : M t LeaseError bool :=
  observe now ;;;
  expire_if_due now.

(** [LeaseMachine::begin_reset]. *)
Definition begin_reset : M t LeaseError unit :=
  self <- get ;;
  match state self with
  | Revoking lease reason => modify (set_state (Resetting lease reason))
  | _ => fail (LeaseInvalidTransition (phase self) "begin_reset")
  end.

(** [LeaseMachine::finish_reset]. *)
Definition finish_reset : M t LeaseError unit :=
  self <- get ;;
  match state self with
  | Resetting _ _ => modify (set_state Vacant)
  | _ => fail (LeaseInvalidTransition (phase self) "finish_reset")
  end.

(** [LeaseMachine::rotate_generation]. *)
Definition rotate_generation (g : GenerationToken.t) : M t LeaseError unit :=
  self <- get ;;
  reject_if (GenerationToken.desktop_id g <> desktop_id self) LeaseWrongDesktop ;;;
  reject_if (GenerationToken.epoch g <= GenerationToken.epoch (generation self) \/
             GenerationToken.generation g = GenerationToken.generation (generation self))
    LeaseStaleGeneration ;;;
  modify (set_generation g) ;;;
  modify (fun self => fst (revoke GenerationChanged self)).

End LeaseMachine.

(** ** Traces of the machine

    One constructor per public operation; [apply] is its effect on the state,
    [run] a sequence of calls made by the owning coordinator. *)
Module LeaseTrace.
Import LeaseMachine.

Inductive op :=
  | Acquire (owner : PrincipalId.t) (id : ControlLeaseId) (ttl : option N) (now : N)
      (g : GenerationToken.t)
  | Renew (owner : PrincipalId.t) (id : ControlLeaseId) (ttl : option N) (now : N)
      (g : GenerationToken.t)
  | Authorize (owner : PrincipalId.t) (id : ControlLeaseId) (now : N)
      (g : GenerationToken.t)
  | Release (owner : PrincipalId.t) (id : ControlLeaseId) (now : N)
      (g : GenerationToken.t)
  | Revoke (reason : RevocationReason)
  | AdvanceTime (now : N)
  | BeginReset
  | FinishReset
  | Rotate (g : GenerationToken.t).

Definition apply (o : op) (m : t) : t :=
  match o with
  | Acquire owner id ttl now g => fst (acquire owner id ttl now g m)
  | Renew owner id ttl now g => fst (renew owner id ttl now g m)
  | Authorize owner id now g => fst (authorize owner id now g m)
  | Release owner id now g => fst (release owner id now g m)
  | Revoke reason => fst (revoke reason m)
  | AdvanceTime now => fst (advance_time now m)
  | BeginReset => fst (begin_reset m)
  | FinishReset => fst (finish_reset m)
  | Rotate g => fst (rotate_generation g m)
  end.

Definition run (ops : list op) (m : t) : t := fold_left (fun m o => apply o m) ops m.

Definition is_acquire (o : op) : bool :=
  match o with Acquire _ _ _ _ _ => true | _ => false end.
Definition is_renew (o : op) : bool :=
  match o with Renew _ _ _ _ _ => true | _ => false end.

(** The same capability: a renewal or an activity stamp keeps all three. *)
Definition same_capability (l l' : LeaseGrant.t) : Prop :=
  LeaseGrant.lease_id l' = LeaseGrant.lease_id l /\
  LeaseGrant.owner l' = LeaseGrant.owner l /\
  LeaseGrant.generation l' = LeaseGrant.generation l.

(** The only moves the lease transaction can make in one operation. *)
Inductive transition (o : op) : LeaseState -> LeaseState -> Prop :=
  | t_same s : transition o s s
  | t_acquire l : is_acquire o = true -> transition o Vacant (Held l)
  | t_renew l l' : is_renew o = true -> same_capability l l' ->
      transition o (Held l) (Held l')
  | t_activity l l' : same_capability l l' ->
      LeaseGrant.expires_at l' = LeaseGrant.expires_at l ->
      transition o (Held l) (Held l')
  | t_revoke l reason : transition o (Held l) (Revoking l reason)
  | t_begin l reason : o = BeginReset ->
      transition o (Revoking l reason) (Resetting l reason)
  | t_finish l reason : o = FinishReset ->
      transition o (Resetting l reason) Vacant.

Lemma same_capability_refl l : same_capability l l.
Proof. done. Qed.

Lemma same_capability_activity v l :
  same_capability l (LeaseGrant.set_last_activity_at v l).
Proof. done. Qed.

Lemma same_capability_renewed v w l :
  same_capability l (LeaseGrant.set_last_activity_at v (LeaseGrant.set_expires_at w l)).
Proof. done. Qed.

#[local] Hint Constructors transition : xeno.
#[local] Hint Resolve same_capability_refl same_capability_activity
  same_capability_renewed : xeno.

Ltac unfold_lease :=
  unfold acquire, renew, authorize, release, revoke, advance_time, begin_reset,
    finish_reset, rotate_generation, revoke, validate_generation, observe,
    expire_if_due, held_lease in *; simpl in *.

(** Every operation, on every branch (errors included), makes one of the moves. *)
Lemma apply_transition o m : transition o (state m) (state (apply o m)).
Proof.
  destruct m as [d g p last st].
  destruct o; unfold apply; unfold_lease;
    destruct st; repeat (case_step || rewrite decide_True by done); eauto with xeno.
Qed.

(** The clock reading an operation is given. *)
Definition op_time (o : op) : option N :=
  match o with
  | Acquire _ _ _ now _ | Renew _ _ _ now _ | Authorize _ _ now _ | Release _ _ now _
  | AdvanceTime now => Some now
  | _ => None
  end.

(** What an operation other than a rotation leaves alone. *)
Lemma apply_frame o m :
  match o with Rotate _ => False | _ => True end ->
  generation (apply o m) = generation m /\
  (last_observed_at (apply o m) = last_observed_at m \/
   last_observed_at (apply o m) = op_time o).
Proof.
  destruct m as [d g p last st].
  destruct o; unfold apply, op_time; unfold_lease; intros Ho;
    destruct st; repeat (case_step || rewrite decide_True by done); try done; auto.
Qed.

Lemma lease_run_cons o ops m : run (o :: ops) m = run ops (apply o m).
Proof. done. Qed.

Lemma transition_vacant o s :
  transition o Vacant s -> s = Vacant \/ (is_acquire o = true /\ exists l, s = Held l).
Proof. inversion 1; eauto. Qed.

Lemma transition_resetting o l reason s :
  transition o (Resetting l reason) s ->
  s = Resetting l reason \/ (o = FinishReset /\ s = Vacant).
Proof. inversion 1; auto. Qed.

Lemma transition_revoking o l reason s :
  transition o (Revoking l reason) s ->
  s = Revoking l reason \/ (o = BeginReset /\ s = Resetting l reason).
Proof. inversion 1; auto. Qed.

Lemma transition_held o l s :
  transition o (Held l) s ->
  (exists reason, s = Revoking l reason) \/
  exists l', s = Held l' /\ same_capability l l' /\
    (is_renew o = true \/ LeaseGrant.expires_at l' = LeaseGrant.expires_at l).
Proof. inversion 1; eauto 10 with xeno. Qed.

(** The calls a handover consists of, in order: [BeginReset], [FinishReset], and an
    acquisition.  [acquisition_in], [reset_finished_in] and [reset_in] say that a
    trace contains the last one, the last two, all three. *)
Definition acquisition_in (ops : list op) : Prop :=
  exists a o b, ops = a ++ o :: b /\ is_acquire o = true.
Definition reset_finished_in (ops : list op) : Prop :=
  exists a b, ops = a ++ FinishReset :: b /\ acquisition_in b.
Definition reset_in (ops : list op) : Prop :=
  exists a b, ops = a ++ BeginReset :: b /\ reset_finished_in b.

Lemma acquisition_in_cons o ops : acquisition_in ops -> acquisition_in (o :: ops).
Proof. intros (a & o' & b & -> & ?). by exists (o :: a), o', b. Qed.
Lemma reset_finished_in_cons o ops : reset_finished_in ops -> reset_finished_in (o :: ops).
Proof. intros (a & b & -> & ?). by exists (o :: a), b. Qed.
Lemma reset_in_cons o ops : reset_in ops -> reset_in (o :: ops).
Proof. intros (a & b & -> & ?). by exists (o :: a), b. Qed.
#[local] Hint Resolve acquisition_in_cons reset_finished_in_cons reset_in_cons : xeno.

Lemma held_after_vacant ops m l' :
  state m = Vacant -> state (run ops m) = Held l' -> acquisition_in ops.
Proof.
  revert m. induction ops as [|o ops IH]; intros m Hm Hl; [simpl in Hl; congruence |].
  rewrite lease_run_cons in Hl. pose proof (apply_transition o m) as Ht. rewrite Hm in Ht.
  apply transition_vacant in Ht as [Hv | [Ho _]]; [eauto with xeno |].
  by exists [], o, ops.
Qed.

Lemma held_after_resetting ops m l reason l' :
  state m = Resetting l reason -> state (run ops m) = Held l' -> reset_finished_in ops.
Proof.
  revert m. induction ops as [|o ops IH]; intros m Hm Hl; [simpl in Hl; congruence |].
  rewrite lease_run_cons in Hl. pose proof (apply_transition o m) as Ht. rewrite Hm in Ht.
  apply transition_resetting in Ht as [Hv | [-> Hv]]; [eauto with xeno |].
  exists [], ops. eauto using held_after_vacant.
Qed.

Lemma held_after_revoking ops m l reason l' :
  state m = Revoking l reason -> state (run ops m) = Held l' -> reset_in ops.
Proof.
  revert m. induction ops as [|o ops IH]; intros m Hm Hl; [simpl in Hl; congruence |].
  rewrite lease_run_cons in Hl. pose proof (apply_transition o m) as Ht. rewrite Hm in Ht.
  apply transition_revoking in Ht as [Hv | [-> Hv]]; [eauto with xeno |].
  exists [], ops. eauto using held_after_resetting.
Qed.

(** The capability held at the start survives, or the run contains a reset
    transaction followed by a new acquisition. *)
Lemma held_to_held ops m l l' :
  state m = Held l -> state (run ops m) = Held l' ->
  same_capability l l' \/ reset_in ops.
Proof.
  revert m l. induction ops as [|o ops IH]; intros m l Hm Hl.
  { simpl in Hl. left. rewrite Hm in Hl. by simplify_eq. }
  rewrite lease_run_cons in Hl. pose proof (apply_transition o m) as Ht. rewrite Hm in Ht.
  apply transition_held in Ht as [[reason Hr] | (l1 & Hl1 & Hc & _)].
  - right. eauto using held_after_revoking with xeno.
  - destruct (IH _ _ Hl1 Hl) as [? | ?]; [left | eauto with xeno].
    unfold same_capability in *. intuition congruence.
Qed.

(** Calls other than acquisitions and renewals never move the deadline: a lease
    that is not held cannot become held, a held one keeps its expiry. *)
Definition deadline_is (d : N) (s : LeaseState) : Prop :=
  match s with
  | Held l => LeaseGrant.expires_at l = d
  | _ => True
  end.

Lemma deadline_kept ops m d :
  Forall (fun o => is_acquire o = false /\ is_renew o = false) ops ->
  deadline_is d (state m) -> deadline_is d (state (run ops m)).
Proof.
  intros Hops. revert m. induction Hops as [|o ops [Ha Hr] _ IH]; intros m Hm; [done |].
  rewrite lease_run_cons. apply IH. pose proof (apply_transition o m) as Ht.
  destruct Ht; simplify_eq/=; first [done | congruence].
Qed.

End LeaseTrace.

(** ** The machine's invariant *)
Module LeaseInvariant.
Import LeaseMachine.

Definition policy_ok (p : LeasePolicy.t) : Prop :=
  1 <= LeasePolicy.default_ttl_ms p <= LeasePolicy.maximum_ttl_ms p.

(** A held lease belongs to the current generation and expires strictly after the
    last clock reading, but at most one maximal TTL after it; a lease being reset
    belongs to this desktop and is not from the future. *)
Definition state_ok (m : t) : Prop :=
  match state m with
  | Vacant => True
  | Held l =>
      LeaseGrant.generation l = generation m /\
      exists now, last_observed_at m = Some now /\
        LeaseGrant.last_activity_at l <= now < LeaseGrant.expires_at l /\
        LeaseGrant.expires_at l <= now + LeasePolicy.maximum_ttl_ms (policy m) /\
        LeaseGrant.expires_at l <= u64_max
  | Revoking l _ | Resetting l _ =>
      GenerationToken.desktop_id (LeaseGrant.generation l) = desktop_id m /\
      GenerationToken.epoch (LeaseGrant.generation l) <=
        GenerationToken.epoch (generation m)
  end.

Definition wf (m : t) : Prop :=
  GenerationToken.desktop_id (generation m) = desktop_id m /\
  policy_ok (policy m) /\ state_ok m.

Lemma lease_new_wf d g p m :
  LeaseMachine.new d g p = Ok m -> policy_ok p -> wf m.
Proof.
  unfold LeaseMachine.new, wf, state_ok. intros H Hp. run_case H.
  split_and!; [by apply dec_stable | done | done].
Qed.

(** [observe] refuses to go back and otherwise records the reading. *)
Lemma observe_cases now m :
  (observe now m = (m, Err LeaseClockRegressed) /\
    exists prev, last_observed_at m = Some prev /\ now < prev) \/
  (observe now m = (set_last_observed_at (Some now) m, Ok tt) /\
    forall prev, last_observed_at m = Some prev -> prev <= now).
Proof.
  unfold observe. simpl. destruct (last_observed_at m) as [prev |] eqn:Hl; simpl.
  - case_decide; simpl; [left; eauto | right; split; [done |]].
    intros ? [= <-]. lia.
  - right. by split.
Qed.

Lemma validate_generation_cases g m :
  (exists e, validate_generation g m = (m, Err e) /\
    (e = LeaseWrongDesktop \/ e = LeaseStaleGeneration)) \/
  (validate_generation g m = (m, Ok tt) /\
    GenerationToken.desktop_id g = desktop_id m /\ g = generation m).
Proof.
  unfold validate_generation. simpl.
  case_decide as Hd; simpl; [eauto 10 |].
  case_decide as Hg; simpl; [eauto 10 |].
  right. split_and!; done.
Qed.

(** Facts the branches of the operations leave in the context, made arithmetic. *)
Ltac lease_facts :=
  repeat match goal with
  | H : ~ (_ <> _) |- _ => apply dec_stable in H
  | H : ok_or ?o _ = Ok _ |- _ => destruct o eqn:?; simplify_eq/=
  | H : MonotonicMillis.checked_add _ _ = Some _ |- _ =>
      apply MonotonicMillis.checked_add_Some in H as [-> H]
  | H : LeasePolicy.resolve_ttl _ _ = Ok _ |- _ =>
      apply LeasePolicy.resolve_ttl_Ok in H as [_ H]
  | H : _ /\ _ |- _ => destruct H
  | H : exists _, _ |- _ => destruct H
  | _ => progress simplify_eq/=
  end.

Ltac solve_wf :=
  unfold wf, state_ok in *; simpl in *; lease_facts; split_and!;
  try done; try lia; eauto;
  try (eexists; split; [reflexivity | lia]).

Lemma lease_apply_wf o m : wf m -> wf (LeaseTrace.apply o m).
Proof.
  intros Hm. destruct m as [d g p last st].
  destruct o; unfold LeaseTrace.apply; LeaseTrace.unfold_lease;
    destruct st; repeat case_step; try done; solve_wf.
Qed.

Lemma lease_run_wf ops m : wf m -> wf (LeaseTrace.run ops m).
Proof.
  revert m. induction ops as [|o ops IH]; intros m Hm; [done |].
  rewrite LeaseTrace.lease_run_cons. by apply IH, lease_apply_wf.
Qed.

End LeaseInvariant.

(** ** The lease machine as a generation-fenced component *)
#[export] Instance lease_fenced : Fenced LeaseMachine.t LeaseError unit := {
  fenced_desktop := LeaseMachine.desktop_id;
  fenced_token := LeaseMachine.generation;
  fenced_rotate := LeaseMachine.rotate_generation;
}.

#[export] Instance lease_fenced_laws : FencedLaws LeaseMachine.t LeaseError unit.
Proof.
  constructor; intros m g; unfold rotation_allowed; simpl; intros H;
    unfold LeaseMachine.rotate_generation, LeaseMachine.revoke; simpl.
  - destruct H as (Hd & He & Hg).
    rewrite decide_False by auto. simpl.
    rewrite decide_False by (intros [? | ?]; [lia | done]). simpl.
    by destruct (LeaseMachine.state m); do 2 eexists.
  - case_decide as Hd; simpl; [by eexists |].
    case_decide as Hg; simpl; [by eexists |].
    destruct H. split; [done |]. split; [| tauto].
    destruct (decide (GenerationToken.epoch (LeaseMachine.generation m)
      < GenerationToken.epoch g)); [done |]. destruct Hg. left. lia.
Qed.

(** ** Properties *)
Section LeaseProperties.
Import LeaseMachine LeaseTrace LeaseInvariant.

(** Authorization is exact.  [authorize] succeeds if and only if the presented
    token is the authoritative one, the clock did not go back, a lease is held by
    exactly this owner under exactly this identifier, and it has not expired; it
    then stamps the activity time and changes nothing else of the lease (in
    particular not its expiry). *)
Theorem authorize_exact (owner : PrincipalId.t) (id : ControlLeaseId) (now : N)
    (g : GenerationToken.t) (m m' : LeaseMachine.t) (grant : LeaseGrant.t) :
  authorize owner id now g m = (m', Ok grant) <->
  exists l, state m = Held l /\
    GenerationToken.desktop_id g = desktop_id m /\ g = generation m /\
    (forall prev, last_observed_at m = Some prev -> prev <= now) /\
    now < LeaseGrant.expires_at l /\
    LeaseGrant.owner l = owner /\ LeaseGrant.lease_id l = id /\
    grant = LeaseGrant.set_last_activity_at now l /\
    m' = set_state (Held grant) (set_last_observed_at (Some now) m).
Proof.
  unfold authorize, reject_if.
  destruct (validate_generation_cases g m) as [(e & Hv & _) | (Hv & Hd & Hg)];
    simpl; rewrite Hv; simpl.
  { split; [done |]. intros (l & _ & Hd & Hg & _).
    revert Hv. unfold validate_generation. simpl.
    rewrite !decide_False by tauto. done. }
  destruct (observe_cases now m) as [(Ho & prev & Hp & Hlt) | [Ho Hprev]];
    rewrite Ho; simpl.
  { split; [done |]. intros (l & _ & _ & _ & Hc & _). specialize (Hc _ Hp). lia. }
  unfold expire_if_due, held_lease, validate_capability. simpl.
  destruct (state m) as [| l | l r | l r] eqn:Hst; simpl; rewrite ?Hst; simpl;
    try (split; [done | intros (? & ? & _); done]).
  repeat (case_decide; simpl; rewrite ?Hst; simpl).
  all: try (split; [done |]; intros (? & [= <-] & ?); intuition (lia || done)).
  lease_facts. split; [intros [= <- <-] | intros (? & [= <-] & ?)].
  - exists l. by split_and!.
  - destruct_and?. by simplify_eq.
Qed.

(** C18: a change of holder is preceded by an input reset.  If a lease is held at
    the start and at the end of any sequence of operations, then either it is the
    same capability (identifier, owner and generation), or the sequence contains
    [begin_reset], after it [finish_reset], and only after that an [acquire]. *)
Theorem handover_requires_reset (ops : list op) (m : LeaseMachine.t) (l l' : LeaseGrant.t) :
  state m = Held l -> state (run ops m) = Held l' ->
  same_capability l l' \/ reset_in ops.
Proof. apply held_to_held. Qed.

(** Activity never extends a lease.  From a held lease, after any operations
    other than [acquire] and [renew], at any time from its expiry on, no
    authorization succeeds, whoever asks and with whatever token. *)
Theorem lease_ends_at_its_deadline (ops : list op) (m : LeaseMachine.t) (l : LeaseGrant.t)
    (owner : PrincipalId.t) (id : ControlLeaseId) (now : N) (g : GenerationToken.t) :
  state m = Held l ->
  Forall (fun o => is_acquire o = false /\ is_renew o = false) ops ->
  LeaseGrant.expires_at l <= now ->
  is_ok (snd (authorize owner id now g (run ops m))) = false.
Proof.
  intros Hm Hops Hnow.
  assert (deadline_is (LeaseGrant.expires_at l) (state (run ops m))) as Hd.
  { apply deadline_kept; [done |]. by rewrite Hm. }
  destruct (authorize owner id now g (run ops m)) as [m' [grant | e]] eqn:Ha; [| done].
  exfalso. revert Ha. unfold authorize, reject_if.
  destruct (validate_generation_cases g (run ops m)) as [(e & Hv & _) | (Hv & _)];
    simpl; rewrite Hv; simpl; [done |].
  destruct (observe_cases now (run ops m)) as [(Ho & _) | [Ho _]]; rewrite Ho; simpl; [done |].
  unfold expire_if_due, held_lease. simpl.
  destruct (state (run ops m)) eqn:Hst; simpl in *; rewrite ?Hst; simpl; try done.
  rewrite Hd. rewrite decide_False by lia. done.
Qed.

(** The lease invariant.  From construction with a validated policy, after any
    sequence of operations: a held lease carries the machine's generation, was last
    observed strictly before its expiry, and expires at most one maximal TTL after
    the last observation, within [u64]; a lease under cleanup belongs to this
    desktop and to no later generation. *)
Theorem lease_invariant (default_ttl maximum_ttl : N) (p : LeasePolicy.t)
    (d : DesktopId) (g : GenerationToken.t) (m : LeaseMachine.t) (ops : list op) :
  LeasePolicy.new default_ttl maximum_ttl = Ok p ->
  LeaseMachine.new d g p = Ok m ->
  wf (run ops m).
Proof.
  intros Hp Hm. apply lease_run_wf, (lease_new_wf d g p m Hm).
  unfold LeasePolicy.new in Hp. unfold policy_ok. run_case Hp. lia.
Qed.

End LeaseProperties.

(** ** Witnesses *)
Module LeaseWitness.
Import LeaseMachine LeaseTrace.

Definition desktop : DesktopId := mkDesktopId 7.
Definition token : GenerationToken.t :=
  GenerationToken.mk desktop (mkDesktopGeneration 1) 1.
Definition alice : PrincipalId.t := PrincipalId.mk "alice".
Definition bob : PrincipalId.t := PrincipalId.mk "bob".
Definition machine : LeaseMachine.t := mk desktop token LeasePolicy.default None Vacant.
Definition held : LeaseMachine.t :=
  run [Acquire alice (mkControlLeaseId 1) None 100 token] machine.
Definition grant : LeaseGrant.t :=
  LeaseGrant.mk (mkControlLeaseId 1) alice token 60100 100.
Definition handover : list op :=
  [AdvanceTime 60100; BeginReset; FinishReset;
   Acquire bob (mkControlLeaseId 2) None 60200 token].

Lemma handover_requires_reset_witness :
  exists l', state (run handover held) = Held l' /\
    (same_capability grant l' \/ reset_in handover).
Proof.
  exists (LeaseGrant.mk (mkControlLeaseId 2) bob token 120200 60200). split; [done |].
  by apply (handover_requires_reset handover held grant).
Defined.

Lemma lease_ends_at_its_deadline_witness :
  is_ok (snd (authorize alice (mkControlLeaseId 1) 60100 token
    (run [Authorize alice (mkControlLeaseId 1) 59999 token] held))) = false.
Proof.
  apply (lease_ends_at_its_deadline _ held grant); [done | repeat constructor | done].
Defined.

Lemma lease_invariant_witness : LeaseInvariant.wf (run handover held).
Proof.
  apply (lease_invariant 60000 60000 LeasePolicy.default desktop token machine
    (Acquire alice (mkControlLeaseId 1) None 100 token :: handover));
    vm_compute; reflexivity.
Defined.

End LeaseWitness.
