(* ===== verification/Ledger.v ===== *)
(** * The command idempotency ledger

    Models [xenoteer-core/src/coordinator/ledger.rs]: a bounded, generation-fenced
    map from a principal's command identifiers to their lifecycle, with time-based
    purging and least-recently-used eviction of terminal records only.  The
    theorems show that in-flight commands are never forgotten, so a command is
    admitted for execution at most once, and that terminal results are immutable. *)

From stdpp Require Import base numbers list option gmap strings sorting.
From Stdlib Require Import Lia.
From S2P Require Import Prelude.
From S2P Require Import Identity.

Local Open Scope N_scope.

#[export] Instance byte_eq_dec : EqDecision Byte.byte := Byte.byte_eq_dec.

(** [CanonicalCommandHash([u8; 32])]. *)
Record CanonicalCommandHash := mkCanonicalCommandHash { as_bytes : list Byte.byte }.
#[export] Instance CanonicalCommandHash_eq_dec : EqDecision CanonicalCommandHash.
Proof. solve_decision. Defined.

Inductive CommandLedgerError :=
  | LedgerInvalidLimits
  | LedgerWrongDesktop
  | LedgerStaleGeneration
  | LedgerCommandIdConflict
  | LedgerCapacityExhausted
  | LedgerUnknownCommand
  | LedgerInvalidTransition
  | LedgerTerminalImmutable
  | LedgerClockRegressed
  | LedgerAccessCounterExhausted
  | LedgerInvariantViolation.

(** ** [CommandLedgerLimits] *)
Module CommandLedgerLimits.

Record t := mk { maximum_entries : N; terminal_ttl_ms : N }.

(** [CommandLedgerLimits::new]. *)
Definition new (maximum_entries terminal_ttl_ms : N) : result t CommandLedgerError :=
  if decide (maximum_entries = 0 \/ terminal_ttl_ms = 0) then Err LedgerInvalidLimits
  else Ok (mk maximum_entries terminal_ttl_ms).

End CommandLedgerLimits.

(** ** Records *)

(** [CommandKey], with its derived [Ord]. *)
Module CommandKey.

Record t := mk { principal : PrincipalId.t; command_id : CommandId }.

#[export] Instance eq_dec : EqDecision t.
Proof. solve_decision. Defined.
#[export] Instance countable : Countable t.
Proof.
  by apply (inj_countable' (fun k => (principal k, command_id k))
    (fun '(p, c) => mk p c)); intros [].
Defined.

Definition cmp (a b : t) : comparison :=
  then_with (PrincipalId.cmp (principal a) (principal b))
    (N.compare (command_uuid (command_id a)) (command_uuid (command_id b))).

End CommandKey.
Export (hints) CommandKey.

(** [CommandRecordState<R>]. *)
Inductive CommandRecordState (R : Type) :=
  | Accepted
  | Running
  | Terminal (r : R).
Arguments Accepted {R}.
Arguments Running {R}.
Arguments Terminal {R} r.

(** [CommandRecordState::is_terminal]. *)
Definition is_terminal {R} (s : CommandRecordState R) : bool :=
  match s with Terminal _ => true | _ => false end.

(** [CommandRecord<R>]. *)
Module CommandRecord.
Section Record.
  Context {R : Type}.

Record t := mk {
  principal : PrincipalId.t;
  command_id : CommandId;
  generation : GenerationToken.t;
  request_hash : CanonicalCommandHash;
  state : CommandRecordState R;
  accepted_at : MonotonicMillis.t;
  updated_at : MonotonicMillis.t
}.

(** [record.state = v; record.updated_at = now]. *)
Definition set_state (v : CommandRecordState R) (now : N) (r : t) : t :=
  mk (principal r) (command_id r) (generation r) (request_hash r) v (accepted_at r) now.

End Record.
Arguments t R : clear implicits.
End CommandRecord.

(** [StoredCommand<R>]. *)
Module StoredCommand.
Section Stored.
  Context {R : Type}.

Record t := mk {
  record : CommandRecord.t R;
  terminal_at : option MonotonicMillis.t;
  access_ordinal : N
}.

Definition set_record (v : CommandRecord.t R) (s : t) : t :=
  mk v (terminal_at s) (access_ordinal s).
Definition set_terminal_at (v : option N) (s : t) : t :=
  mk (record s) v (access_ordinal s).
Definition set_access_ordinal (v : N) (s : t) : t :=
  mk (record s) (terminal_at s) v.

End Stored.
Arguments t R : clear implicits.
Arguments set_record {R} v s /.
Arguments set_terminal_at {R} v s /.
Arguments set_access_ordinal {R} v s /.
End StoredCommand.

(** [IdempotencyDecision<R>]. *)
Inductive IdempotencyDecision (R : Type) :=
  | AdmittedNew (record : CommandRecord.t R)
  | Existing (record : CommandRecord.t R).
Arguments AdmittedNew {R} record.
Arguments Existing {R} record.

(** ** [CommandLedger] *)
Module CommandLedger.
Section Ledger.
  Context {R : Type}.

Record t := mk {
  desktop_id : DesktopId;
  generation : GenerationToken.t;
  limits : CommandLedgerLimits.t;
  records : gmap CommandKey.t (StoredCommand.t R);
  next_access_ordinal : N;
  last_observed_at : option MonotonicMillis.t
}.

Definition set_generation (v : GenerationToken.t) (l : t) : t :=
  mk (desktop_id l) v (limits l) (records l) (next_access_ordinal l) (last_observed_at l).
Definition set_records (v : gmap CommandKey.t (StoredCommand.t R)) (l : t) : t :=
  mk (desktop_id l) (generation l) (limits l) v (next_access_ordinal l) (last_observed_at l).
Definition set_next_access_ordinal (v : N) (l : t) : t :=
  mk (desktop_id l) (generation l) (limits l) (records l) v (last_observed_at l).
Definition set_last_observed_at (v : option N) (l : t) : t :=
  mk (desktop_id l) (generation l) (limits l) (records l) (next_access_ordinal l) v.

Arguments set_generation v l /.
Arguments set_records v l /.
Arguments set_next_access_ordinal v l /.
Arguments set_last_observed_at v l /.

(** [BTreeMap::len] of the records, as [usize]. *)
Definition records_len (self : t) : N := N.of_nat (size (records self)).

(** [CommandLedger::new]. *)
Definition new (desktop : DesktopId) (generation : GenerationToken.t)
    (limits : CommandLedgerLimits.t) : result t CommandLedgerError :=
  if decide (GenerationToken.desktop_id generation <> desktop) then Err LedgerWrongDesktop
  else Ok (mk desktop generation limits ∅ 1 None).

(** [CommandLedger::validate_generation]. *)
Definition validate_generation (supplied : GenerationToken.t) :
    M t CommandLedgerError unit :=
  self <- get ;;
  reject_if (GenerationToken.desktop_id supplied <> desktop_id self) LedgerWrongDesktop ;;;
  reject_if (supplied <> generation self) LedgerStaleGeneration.

(** [CommandLedger::observe]. *)
Definition observe (now : N) : M t CommandLedgerError unit :=
  self <- get ;;
  match last_observed_at self with
  | Some previous => reject_if (now < previous) LedgerClockRegressed
  | None => ret tt
  end ;;;
  modify (set_last_observed_at (Some now)).

(** [CommandLedger::take_access_ordinal]. *)
Definition take_access_ordinal : M t CommandLedgerError N :=
  self <- get ;;
  let current := next_access_ordinal self in
  next <- lift (ok_or (checked_add_u64 current 1) LedgerAccessCounterExhausted) ;;
  modify (set_next_access_ordinal next) ;;;
  ret current.

(** The predicate of [purge_expired_terminal]'s [retain]: records that are not
    terminal stay, terminal ones while they are younger than the retention. *)
Definition retained (now ttl : N) (stored : StoredCommand.t R) : Prop :=
  match StoredCommand.terminal_at stored with
  | None => True
  | Some terminal_at =>
      match MonotonicMillis.elapsed_since now terminal_at with
      | Some age_ms => age_ms < ttl
      | None => True
      end
  end.

#[export] Instance retained_dec now ttl stored : Decision (retained now ttl stored).
Proof. unfold retained. repeat case_match; apply _. Defined.

(** [CommandLedger::purge_expired_terminal]; the number of purged records. *)
Definition purge_expired_terminal (now : N) (self : t) : t * N :=
  let before := records_len self in
  let ttl := CommandLedgerLimits.terminal_ttl_ms (limits self) in
  let self := set_records
    (filter (fun kv : CommandKey.t * StoredCommand.t R => retained now ttl kv.2)
       (records self)) self in
  (self, before - records_len self).

(** The comparison of [evict_lru_terminal]: the access ordinal, then the key. *)
Definition lru_cmp (left right : CommandKey.t * StoredCommand.t R) : comparison :=
  then_with
    (N.compare (StoredCommand.access_ordinal left.2) (StoredCommand.access_ordinal right.2))
    (CommandKey.cmp left.1 right.1).

(** [CommandLedger::evict_lru_terminal]. *)
Definition evict_lru_terminal : M t CommandLedgerError unit :=
  self <- get ;;
  let candidates :=
    filter (fun kv : CommandKey.t * StoredCommand.t R =>
        is_terminal (CommandRecord.state (StoredCommand.record kv.2)) = true)
      (btree_iter CommandKey.cmp (records self)) in
  victim <- lift (ok_or (fst <$> min_by lru_cmp candidates) LedgerCapacityExhausted) ;;
  modify (set_records (delete victim (records self))).

(** [self.records.get_mut(&key).ok_or(InvariantViolation)?] followed by a mutation
    [f] of the entry; the mutated entry. *)
Definition update_stored (key : CommandKey.t)
    (f : StoredCommand.t R -> StoredCommand.t R) :
    M t CommandLedgerError (StoredCommand.t R) :=
  self <- get ;;
  stored <- lift (ok_or (records self !! key) LedgerInvariantViolation) ;;
  modify (set_records (<[key := f stored]> (records self))) ;;;
  ret (f stored).

(** [CommandLedger::admit]. *)
Definition admit_command (principal : PrincipalId.t) (command_id : CommandId)
    (request_hash : CanonicalCommandHash) (now : N) (supplied : GenerationToken.t) :
    M t CommandLedgerError (IdempotencyDecision R) :=
  validate_generation supplied ;;;
  observe now ;;;
  modify (fun self => fst (purge_expired_terminal now self)) ;;;
  let key := CommandKey.mk principal command_id in
  self <- get ;;
  match records self !! key with
  | Some existing =>
      reject_if (CommandRecord.request_hash (StoredCommand.record existing) <> request_hash)
        LedgerCommandIdConflict ;;;
      access_ordinal <- take_access_ordinal ;;
      existing <- update_stored key (StoredCommand.set_access_ordinal access_ordinal) ;;
      ret (Existing (StoredCommand.record existing))
  | None =>
      access_ordinal <- take_access_ordinal ;;
      (if decide (CommandLedgerLimits.maximum_entries (limits self) <= records_len self)
       then evict_lru_terminal
       else ret tt) ;;;
      let record := CommandRecord.mk principal command_id supplied request_hash
                      Accepted now now in
      modify (fun self => set_records
        (<[key := StoredCommand.mk record None access_ordinal]> (records self)) self) ;;;
      ret (AdmittedNew record)
  end.

(** [CommandLedger::lookup]. *)
Definition lookup_command (principal : PrincipalId.t) (command_id : CommandId)
    (now : N) (supplied : GenerationToken.t) :
    M t CommandLedgerError (option (CommandRecord.t R)) :=
  validate_generation supplied ;;;
  observe now ;;;
  modify (fun self => fst (purge_expired_terminal now self)) ;;;
  let key := CommandKey.mk principal command_id in
  self <- get ;;
  if decide (records self !! key = None) then ret None
  else
    access_ordinal <- take_access_ordinal ;;
    stored <- update_stored key (StoredCommand.set_access_ordinal access_ordinal) ;;
    ret (Some (StoredCommand.record stored)).

(** [CommandLedger::mark_running]. *)
Definition mark_running (principal : PrincipalId.t) (command_id : CommandId)
    (now : N) (supplied : GenerationToken.t) :
    M t CommandLedgerError (CommandRecord.t R) :=
  validate_generation supplied ;;;
  observe now ;;;
  let key := CommandKey.mk principal command_id in
  self <- get ;;
  existing <- lift (ok_or (records self !! key) LedgerUnknownCommand) ;;
  match CommandRecord.state (StoredCommand.record existing) with
  | Accepted => ret tt
  | _ => fail LedgerInvalidTransition
  end ;;;
  access_ordinal <- take_access_ordinal ;;
  stored <- update_stored key (fun stored =>
    StoredCommand.set_access_ordinal access_ordinal
      (StoredCommand.set_record
         (CommandRecord.set_state Running now (StoredCommand.record stored)) stored)) ;;
  ret (StoredCommand.record stored).

(** [CommandLedger::complete]. *)
Definition complete (principal : PrincipalId.t) (command_id : CommandId) (result : R)
    (now : N) (supplied : GenerationToken.t) :
    M t CommandLedgerError (CommandRecord.t R) :=
  validate_generation supplied ;;;
  observe now ;;;
  let key := CommandKey.mk principal command_id in
  self <- get ;;
  existing <- lift (ok_or (records self !! key) LedgerUnknownCommand) ;;
  reject_if (is_terminal (CommandRecord.state (StoredCommand.record existing)) = true)
    LedgerTerminalImmutable ;;;
  access_ordinal <- take_access_ordinal ;;
  stored <- update_stored key (fun stored =>
    StoredCommand.set_access_ordinal access_ordinal
      (StoredCommand.set_terminal_at (Some now)
        (StoredCommand.set_record
           (CommandRecord.set_state (Terminal result) now (StoredCommand.record stored))
           stored))) ;;
  ret (StoredCommand.record stored).

(** [CommandLedger::rotate_generation]; the number of invalidated records. *)
Definition rotate_generation (g : GenerationToken.t) : M t CommandLedgerError N :=
  self <- get ;;
  reject_if (GenerationToken.desktop_id g <> desktop_id self) LedgerWrongDesktop ;;;
  reject_if (GenerationToken.epoch g <= GenerationToken.epoch (generation self) \/
             GenerationToken.generation g = GenerationToken.generation (generation self))
    LedgerStaleGeneration ;;;
  let invalidated := records_len self in
  modify (fun self => mk (desktop_id self) g (limits self) ∅ 1 None) ;;;
  ret invalidated.

End Ledger.
Arguments t R : clear implicits.
End CommandLedger.

(** ** The ledger's invariant *)
Module LedgerInvariant.
Import CommandLedger.
Section Invariant.
  Context {R : Type}.
  Implicit Types (l : CommandLedger.t R) (s : StoredCommand.t R) (k : CommandKey.t).

Definition stored_state s : CommandRecordState R :=
  CommandRecord.state (StoredCommand.record s).

(** One entry: filed under its own identity and the ledger's generation; its
    terminal time is the time it became terminal; times are ordered and observed;
    its access ordinal was handed out. *)
Definition entry_ok l k s : Prop :=
  let r := StoredCommand.record s in
  CommandRecord.principal r = CommandKey.principal k /\
  CommandRecord.command_id r = CommandKey.command_id k /\
  CommandRecord.generation r = generation l /\
  StoredCommand.terminal_at s =
    (if is_terminal (CommandRecord.state r) then Some (CommandRecord.updated_at r)
     else None) /\
  CommandRecord.accepted_at r <= CommandRecord.updated_at r /\
  CommandRecord.updated_at r <= default 0 (last_observed_at l) /\
  1 <= StoredCommand.access_ordinal s < next_access_ordinal l.

Definition ordinals_unique (m : gmap CommandKey.t (StoredCommand.t R)) : Prop :=
  forall k1 k2 s1 s2, m !! k1 = Some s1 -> m !! k2 = Some s2 ->
    StoredCommand.access_ordinal s1 = StoredCommand.access_ordinal s2 -> k1 = k2.

Definition wf l : Prop :=
  GenerationToken.desktop_id (generation l) = desktop_id l /\
  1 <= CommandLedgerLimits.maximum_entries (limits l) /\
  1 <= CommandLedgerLimits.terminal_ttl_ms (limits l) /\
  records_len l <= CommandLedgerLimits.maximum_entries (limits l) /\
  1 <= next_access_ordinal l <= u64_max /\
  (forall k s, records l !! k = Some s -> entry_ok l k s) /\
  ordinals_unique (records l).

Lemma ledger_new_wf d g lim l :
  CommandLedger.new d g lim = Ok l ->
  1 <= CommandLedgerLimits.maximum_entries lim ->
  1 <= CommandLedgerLimits.terminal_ttl_ms lim -> wf l.
Proof.
  unfold CommandLedger.new. case_decide as Hd; intros; simplify_eq.
  unfold wf, records_len, ordinals_unique. simpl. rewrite map_size_empty.
  split_and!; try done; try lia; set_solver.
Qed.

(** ** The primitive steps *)

(** The first two calls of every client operation. *)
Lemma head_cases {A} g now (K : M (CommandLedger.t R) CommandLedgerError A) l :
  (exists e, (validate_generation g ;;; observe now ;;; K) l = (l, Err e) /\
    e <> LedgerInvariantViolation /\
    (g = generation l -> GenerationToken.desktop_id g = desktop_id l ->
     exists prev, last_observed_at l = Some prev /\ now < prev)) \/
  ((validate_generation g ;;; observe now ;;; K) l = K (set_last_observed_at (Some now) l) /\
    g = generation l /\ GenerationToken.desktop_id g = desktop_id l /\
    forall prev, last_observed_at l = Some prev -> prev <= now).
Proof.
  unfold validate_generation, observe. simpl.
  case_decide as Hd; simpl; [left; eexists; split_and!; done |].
  case_decide as Hg; simpl; [left; eexists; split_and!; done |].
  destruct (last_observed_at l) as [prev |] eqn:Hl; simpl.
  - case_decide; simpl.
    + left. eexists. split_and!; eauto; done.
    + right. split_and!; try done. intros ? [= <-]. lia.
  - right. by split_and!.
Qed.

Lemma observe_wf now l :
  wf l -> (forall prev, last_observed_at l = Some prev -> prev <= now) ->
  wf (set_last_observed_at (Some now) l).
Proof.
  intros (? & ? & ? & ? & ? & He & Hu) Hp. unfold wf, records_len in *. simpl.
  split_and!; try done; try lia.
  intros k s Hs. specialize (He k s Hs). unfold entry_ok in *. simpl in *.
  destruct He as (? & ? & ? & ? & ? & Hup & ?). split_and!; try done; try lia.
  destruct (last_observed_at l) as [prev |]; simpl in *; [| lia].
  specialize (Hp _ eq_refl). lia.
Qed.

(** Shrinking the map keeps the invariant. *)
Lemma subset_wf m l : wf l -> m ⊆ records l -> wf (set_records m l).
Proof.
  intros (? & ? & ? & ? & ? & He & Hu) Hm. unfold wf, records_len in *. simpl.
  pose proof (map_subseteq_size _ _ Hm).
  split_and!; try done; try lia.
  - intros k s Hs. exact (He k s (lookup_weaken _ _ _ _ Hs Hm)).
  - intros k1 k2 s1 s2 Hk1 Hk2. apply Hu; by eapply lookup_weaken.
Qed.

Lemma purge_wf now l : wf l -> wf (fst (purge_expired_terminal now l)).
Proof. intros Hl. apply subset_wf; [done | apply map_filter_subseteq]. Qed.

Lemma take_access_ordinal_cases l :
  (take_access_ordinal l = (l, Err LedgerAccessCounterExhausted) /\
    next_access_ordinal l + 1 > u64_max) \/
  (take_access_ordinal l =
     (set_next_access_ordinal (next_access_ordinal l + 1) l, Ok (next_access_ordinal l)) /\
   next_access_ordinal l + 1 <= u64_max).
Proof.
  unfold take_access_ordinal. simpl.
  destruct (checked_add_u64 _ _) as [n |] eqn:Hn; simpl.
  - apply checked_add_u64_Some in Hn as [-> ?]. by right.
  - apply checked_add_u64_None in Hn. left. split; [done | lia].
Qed.

(** Filing an entry with a fresh ordinal under [k]. *)
Lemma insert_wf k s l :
  wf l -> next_access_ordinal l + 1 <= u64_max ->
  StoredCommand.access_ordinal s = next_access_ordinal l ->
  entry_ok (set_next_access_ordinal (next_access_ordinal l + 1) l) k s ->
  (is_Some (records l !! k) \/
   records_len l < CommandLedgerLimits.maximum_entries (limits l)) ->
  wf (set_records (<[k := s]> (records l))
       (set_next_access_ordinal (next_access_ordinal l + 1) l)).
Proof.
  intros (? & ? & ? & ? & ? & He & Hu) Hmax Hord Hk Hroom.
  unfold wf, records_len in *. simpl in *. rewrite map_size_insert.
  split_and!; try done; try lia.
  - destruct (records l !! k) eqn:Hlk; simpl; [done |].
    destruct Hroom as [[? ?] | ?]; [done | lia].
  - intros k' s' Hs'. apply lookup_insert_Some in Hs' as [[<- <-] | [Hne Hs']]; [done |].
    specialize (He k' s' Hs'). unfold entry_ok in *. simpl in *. intuition lia.
  - intros k1 k2 s1 s2 Hk1 Hk2 Heq.
    apply lookup_insert_Some in Hk1 as [[<- <-] | [Hne1 Hk1]];
      apply lookup_insert_Some in Hk2 as [[<- <-] | [Hne2 Hk2]]; try done.
    + apply He in Hk2. unfold entry_ok in Hk2. simpl in Hk2. lia.
    + apply He in Hk1. unfold entry_ok in Hk1. simpl in Hk1. lia.
    + by eapply Hu.
Qed.

(** ** Eviction *)
Lemma lru_cmp_measure (x y : CommandKey.t * StoredCommand.t R) :
  match lru_cmp x y with
  | Gt => StoredCommand.access_ordinal y.2 <= StoredCommand.access_ordinal x.2
  | _ => StoredCommand.access_ordinal x.2 <= StoredCommand.access_ordinal y.2
  end.
Proof.
  unfold lru_cmp, then_with.
  destruct (N.compare_spec (StoredCommand.access_ordinal x.2)
    (StoredCommand.access_ordinal y.2)); try lia.
  destruct (CommandKey.cmp _ _); lia.
Qed.

Lemma evict_cases l :
  (evict_lru_terminal l = (l, Err LedgerCapacityExhausted) /\
    forall k s, records l !! k = Some s -> is_terminal (stored_state s) = false) \/
  (exists victim s, evict_lru_terminal l = (set_records (delete victim (records l)) l, Ok tt) /\
    records l !! victim = Some s /\ is_terminal (stored_state s) = true /\
    forall k' s', records l !! k' = Some s' -> is_terminal (stored_state s') = true ->
      StoredCommand.access_ordinal s <= StoredCommand.access_ordinal s').
Proof.
  unfold evict_lru_terminal. simpl.
  set (cs := filter _ _). destruct (min_by lru_cmp cs) as [[v s] |] eqn:Hmin; simpl.
  - right. apply (min_by_Some lru_cmp (fun kv => StoredCommand.access_ordinal kv.2)
      lru_cmp_measure) in Hmin as [Hin Hle].
    apply list_elem_of_filter in Hin as [Ht Hin%elem_of_btree_iter].
    exists v, s. split_and!; try done. intros k' s' Hs' Ht'.
    apply (Hle (k', s')). apply list_elem_of_filter. split; [done |].
    by apply elem_of_btree_iter.
  - left. split; [done |]. apply min_by_None in Hmin. intros k s Hs.
    destruct (is_terminal (stored_state s)) eqn:Ht; [| done]. exfalso.
    assert ((k, s) ∈ cs) as Hin; [| rewrite Hmin in Hin; by apply not_elem_of_nil in Hin].
    apply list_elem_of_filter. split; [done |]. by apply elem_of_btree_iter.
Qed.

Lemma evict_room l l' :
  evict_lru_terminal l = (l', Ok tt) -> wf l ->
  wf l' /\ records_len l' < CommandLedgerLimits.maximum_entries (limits l').
Proof.
  intros Hev Hl. destruct (evict_cases l) as [[He _] | (v & s & He & Hv & _)];
    rewrite He in Hev; simplify_eq.
  split; [apply subset_wf; [done | apply delete_subseteq] |].
  destruct Hl as (_ & ? & _ & Hlen & _). unfold records_len in *. simpl.
  rewrite map_size_delete, Hv. pose proof (map_size_ne_0_lookup_2 (records l) v). simpl.
  assert (size (records l) <> 0%nat) by eauto. lia.
Qed.

End Invariant.
End LedgerInvariant.

(** ** The outcomes of the operations

    Each lemma lists every branch of one operation: the final state and the
    returned value. *)
Module LedgerOutcomes.
Import CommandLedger LedgerInvariant.
Section Outcomes.
  Context {R : Type}.
  Implicit Types (l : CommandLedger.t R) (s : StoredCommand.t R) (k : CommandKey.t).

(** The ledger after [observe] (and [purge_expired_terminal]). *)
Definition observed (now : N) l : CommandLedger.t R := set_last_observed_at (Some now) l.
Definition opened (now : N) l : CommandLedger.t R :=
  fst (purge_expired_terminal now (observed now l)).

(** Filing [s] under [k] with the next access ordinal. *)
Definition file k (s : N -> StoredCommand.t R) l : CommandLedger.t R :=
  set_records (<[k := s (next_access_ordinal l)]> (records l))
    (set_next_access_ordinal (next_access_ordinal l + 1) l).

Definition head_ok (now : N) (g : GenerationToken.t) l : Prop :=
  g = generation l /\ GenerationToken.desktop_id g = desktop_id l /\
  forall prev, last_observed_at l = Some prev -> prev <= now.

Definition ordinal_left l : Prop := next_access_ordinal l + 1 <= u64_max.
#[export] Instance ordinal_left_dec l : Decision (ordinal_left l).
Proof. unfold ordinal_left. apply _. Defined.

Lemma observed_wf now g l : wf l -> head_ok now g l -> wf (observed now l).
Proof. intros Hl (_ & _ & Hp). by apply observe_wf. Qed.

Lemma opened_wf now g l : wf l -> head_ok now g l -> wf (opened now l).
Proof. intros Hl Hh. apply purge_wf. by eapply observed_wf. Qed.

Ltac leaf := simpl; right; split; [done |].

Ltac take_ordinal l :=
  let H := fresh "Htake" in
  destruct (take_access_ordinal_cases l) as [[H ?] | [H ?]];
  simpl; rewrite H; simpl.

Lemma lookup_cases p c now g l :
  let k := CommandKey.mk p c in
  let l1 := opened now l in
  let '(l', r) := lookup_command p c now g l in
  (l' = l /\ exists e, r = Err e /\ e <> LedgerInvariantViolation /\
     (g = generation l -> GenerationToken.desktop_id g = desktop_id l ->
      exists prev, last_observed_at l = Some prev /\ now < prev)) \/
  (head_ok now g l /\
   ((l' = l1 /\ records l1 !! k = None /\ r = Ok None) \/
    (exists s, records l1 !! k = Some s /\
      ((l' = l1 /\ ~ ordinal_left l1 /\ r = Err LedgerAccessCounterExhausted) \/
       (l' = file k (fun a => StoredCommand.set_access_ordinal a s) l1 /\ ordinal_left l1 /\
        r = Ok (Some (StoredCommand.record s))))))).
Proof.
  intros k l1. unfold lookup_command.
  match goal with |- context [validate_generation g ;;; observe now ;;; ?K] =>
    destruct (head_cases g now K l) as [(e & -> & He) | (-> & Hh)] end.
  { simpl. left. eauto. }
  unfold update_stored, ordinal_left. cbv zeta. fold k.
  change (set_last_observed_at (Some now) l) with (observed now l).
  unfold bind at 1, modify at 1. fold (opened now l). fold l1.
  clearbody k l1. simpl.
  case_decide as Hk; simpl; [leaf; by left |].
  destruct (records l1 !! k) as [s |] eqn:Hs; [| done].
  take_ordinal l1; [| rewrite Hs; simpl]; leaf; right; exists s;
    (split; [done |]).
  - left. split_and!; [done | lia | done].
  - right. by split_and!.
Qed.

Lemma admit_cases p c h now g l :
  let k := CommandKey.mk p c in
  let l1 := opened now l in
  let record := CommandRecord.mk p c g h Accepted now now in
  let '(l', r) := admit_command p c h now g l in
  (l' = l /\ exists e, r = Err e /\ e <> LedgerInvariantViolation) \/
  (head_ok now g l /\
   ((exists s, records l1 !! k = Some s /\
      ((l' = l1 /\ CommandRecord.request_hash (StoredCommand.record s) <> h /\
        r = Err LedgerCommandIdConflict) \/
       (l' = l1 /\ ~ ordinal_left l1 /\ r = Err LedgerAccessCounterExhausted) \/
       (l' = file k (fun a => StoredCommand.set_access_ordinal a s) l1 /\ ordinal_left l1 /\
        CommandRecord.request_hash (StoredCommand.record s) = h /\
        r = Ok (Existing (StoredCommand.record s))))) \/
    (records l1 !! k = None /\
      ((l' = l1 /\ ~ ordinal_left l1 /\ r = Err LedgerAccessCounterExhausted) \/
       (l' = set_next_access_ordinal (next_access_ordinal l1 + 1) l1 /\ ordinal_left l1 /\
        CommandLedgerLimits.maximum_entries (limits l1) <= records_len l1 /\
        (forall k' s, records l1 !! k' = Some s -> is_terminal (stored_state s) = false) /\
        r = Err LedgerCapacityExhausted) \/
       (exists l2, ordinal_left l1 /\
        ((l2 = l1 /\ records_len l1 < CommandLedgerLimits.maximum_entries (limits l1)) \/
         (CommandLedgerLimits.maximum_entries (limits l1) <= records_len l1 /\
          evict_lru_terminal l1 = (l2, Ok tt))) /\
        l' = file k (fun a => StoredCommand.mk record None a) l2 /\
        r = Ok (AdmittedNew record)))))).
Proof.
  intros k l1 record. unfold admit_command.
  match goal with |- context [validate_generation g ;;; observe now ;;; ?K] =>
    destruct (head_cases g now K l) as [(e & -> & He & _) | (-> & Hh)] end.
  { simpl. left. eauto. }
  unfold update_stored, ordinal_left. cbv zeta. fold k.
  change (set_last_observed_at (Some now) l) with (observed now l).
  unfold bind at 1, modify at 1. fold (opened now l). fold l1.
  clearbody k l1. simpl.
  destruct (records l1 !! k) as [s |] eqn:Hs; simpl.
  - case_decide as Hh'; simpl;
      [| take_ordinal l1; [| rewrite Hs; simpl]];
      leaf; left; exists s; (split; [done |]).
    + by left.
    + right. left. split_and!; [done | lia | done].
    + right. right. by split_and!.
  - take_ordinal l1; [leaf; right; split; [done |]; left; split_and!; [done | lia | done] |].
    case_decide as Hfull; simpl.
    + destruct (evict_cases l1) as [[Hev Hall] | (v & sv & Hev & Hv & _)].
      * destruct (evict_cases (set_next_access_ordinal (next_access_ordinal l1 + 1) l1))
          as [[Hev' _] | (v & sv & _ & Hv & Ht & _)].
        -- simpl in Hev'. rewrite Hev'. leaf. right. split; [done |].
           right. left. by split_and!.
        -- simpl in Hv. by rewrite (Hall v sv Hv) in Ht.
      * unfold evict_lru_terminal in *. simpl in *.
        destruct (fst <$> min_by _ _) as [w |]; simpl in *; simplify_eq.
        leaf. right. split; [done |].
        right. right. eexists. split; [done |]. split; [right; by split |].
        by split.
    + leaf. right. split; [done |]. right. right. exists l1. split; [done |]. split; [left; split; [done | lia] |].
      by split.
Qed.

Lemma mark_running_cases p c now g l :
  let k := CommandKey.mk p c in
  let l1 := observed now l in
  let '(l', r) := mark_running p c now g l in
  (l' = l /\ exists e, r = Err e /\ e <> LedgerInvariantViolation /\
     (g = generation l -> GenerationToken.desktop_id g = desktop_id l ->
      exists prev, last_observed_at l = Some prev /\ now < prev)) \/
  (head_ok now g l /\
   ((l' = l1 /\ records l !! k = None /\ r = Err LedgerUnknownCommand) \/
    (exists s, records l !! k = Some s /\
      ((l' = l1 /\ stored_state s <> Accepted /\ r = Err LedgerInvalidTransition) \/
       (l' = l1 /\ ~ ordinal_left l /\ r = Err LedgerAccessCounterExhausted) \/
       (stored_state s = Accepted /\ ordinal_left l /\
        l' = file k (fun a => StoredCommand.set_access_ordinal a
               (StoredCommand.set_record
                  (CommandRecord.set_state Running now (StoredCommand.record s)) s)) l1 /\
        r = Ok (CommandRecord.set_state Running now (StoredCommand.record s))))))).
Proof.
  intros k l1. unfold mark_running.
  match goal with |- context [validate_generation g ;;; observe now ;;; ?K] =>
    destruct (head_cases g now K l) as [(e & -> & He) | (-> & Hh)] end.
  { simpl. left. eauto. }
  unfold update_stored, ordinal_left. cbv zeta. fold k.
  change (set_last_observed_at (Some now) l) with l1.
  change (records l !! k) with (records l1 !! k).
  change (next_access_ordinal l) with (next_access_ordinal l1).
  clearbody k l1. simpl.
  destruct (records l1 !! k) as [s |] eqn:Hs; simpl; [| leaf; by left].
  destruct (CommandRecord.state (StoredCommand.record s)) eqn:Hst; simpl;
    [take_ordinal l1; [| rewrite Hs; simpl] | | ];
    leaf; right; exists s; (split; [done |]); unfold stored_state; rewrite Hst.
  - right. left. split_and!; [done | simpl in *; lia | done].
  - right. right. by split_and!.
  - left. by split_and!.
  - left. by split_and!.
Qed.

Lemma complete_cases p c (out : R) now g l :
  let k := CommandKey.mk p c in
  let l1 := observed now l in
  let '(l', r) := complete p c out now g l in
  (l' = l /\ exists e, r = Err e /\ e <> LedgerInvariantViolation /\
     (g = generation l -> GenerationToken.desktop_id g = desktop_id l ->
      exists prev, last_observed_at l = Some prev /\ now < prev)) \/
  (head_ok now g l /\
   ((l' = l1 /\ records l !! k = None /\ r = Err LedgerUnknownCommand) \/
    (exists s, records l !! k = Some s /\
      ((l' = l1 /\ is_terminal (stored_state s) = true /\ r = Err LedgerTerminalImmutable) \/
       (l' = l1 /\ ~ ordinal_left l /\ r = Err LedgerAccessCounterExhausted) \/
       (is_terminal (stored_state s) = false /\ ordinal_left l /\
        l' = file k (fun a => StoredCommand.set_access_ordinal a
               (StoredCommand.set_terminal_at (Some now)
                 (StoredCommand.set_record
                   (CommandRecord.set_state (Terminal out) now (StoredCommand.record s)) s)))
               l1 /\
        r = Ok (CommandRecord.set_state (Terminal out) now (StoredCommand.record s))))))).
Proof.
  intros k l1. unfold complete.
  match goal with |- context [validate_generation g ;;; observe now ;;; ?K] =>
    destruct (head_cases g now K l) as [(e & -> & He) | (-> & Hh)] end.
  { simpl. left. eauto. }
  unfold update_stored, ordinal_left. cbv zeta. fold k.
  change (set_last_observed_at (Some now) l) with l1.
  change (records l !! k) with (records l1 !! k).
  change (next_access_ordinal l) with (next_access_ordinal l1).
  clearbody k l1. simpl.
  destruct (records l1 !! k) as [s |] eqn:Hs; simpl; [| leaf; by left].
  case_decide as Ht; simpl; [| take_ordinal l1; [| rewrite Hs; simpl]];
    leaf; right; exists s; (split; [done |]); unfold stored_state;
    try apply not_true_is_false in Ht.
  - left. by split_and!.
  - right. left. split_and!; [done | simpl in *; lia | done].
  - right. right. by split_and!.
Qed.

End Outcomes.
End LedgerOutcomes.

(** ** Sequences of operations *)
Module LedgerTrace.
Import CommandLedger LedgerInvariant LedgerOutcomes.
Section Trace.
  Context {R : Type}.
  Implicit Types (l : CommandLedger.t R) (s : StoredCommand.t R) (k : CommandKey.t).

Inductive op :=
  | Admit (p : PrincipalId.t) (c : CommandId) (h : CanonicalCommandHash) (now : N)
      (g : GenerationToken.t)
  | Lookup (p : PrincipalId.t) (c : CommandId) (now : N) (g : GenerationToken.t)
  | MarkRunning (p : PrincipalId.t) (c : CommandId) (now : N) (g : GenerationToken.t)
  | Complete (p : PrincipalId.t) (c : CommandId) (out : R) (now : N) (g : GenerationToken.t)
  | Rotate (g : GenerationToken.t).

Definition apply (o : op) l : CommandLedger.t R :=
  match o with
  | Admit p c h now g => fst (admit_command p c h now g l)
  | Lookup p c now g => fst (lookup_command p c now g l)
  | MarkRunning p c now g => fst (mark_running p c now g l)
  | Complete p c out now g => fst (complete p c out now g l)
  | Rotate g => fst (rotate_generation g l)
  end.

Definition run (ops : list op) l : CommandLedger.t R := fold_left (fun l o => apply o l) ops l.

Definition admits k (o : op) : bool :=
  match o with Admit p c _ _ _ => bool_decide (CommandKey.mk p c = k) | _ => false end.
Definition completes k (o : op) : bool :=
  match o with Complete p c _ _ _ => bool_decide (CommandKey.mk p c = k) | _ => false end.

(** What one operation may do to the entry of [k]. *)
Inductive evolves k (o : op) :
    option (StoredCommand.t R) -> option (StoredCommand.t R) -> Prop :=
  | ev_same x : evolves k o x x
  | ev_touch s a : evolves k o (Some s) (Some (StoredCommand.set_access_ordinal a s))
  | ev_forget s : is_terminal (stored_state s) = true -> evolves k o (Some s) None
  | ev_admit x s : admits k o = true ->
      match x with Some s0 => is_terminal (stored_state s0) = true | None => True end ->
      stored_state s = Accepted -> evolves k o x (Some s)
  | ev_run s s' : stored_state s = Accepted -> stored_state s' = Running ->
      evolves k o (Some s) (Some s')
  | ev_complete s s' : completes k o = true ->
      is_terminal (stored_state s) = false -> is_terminal (stored_state s') = true ->
      evolves k o (Some s) (Some s').

Lemma opened_lookup k now l :
  records (opened now l) !! k = records l !! k \/
  (records (opened now l) !! k = None /\
    exists s t, records l !! k = Some s /\ StoredCommand.terminal_at s = Some t).
Proof.
  unfold opened, purge_expired_terminal. simpl.
  rewrite map_lookup_filter. destruct (records l !! k) as [s |] eqn:Hs; simpl; [| by left].
  case_guard as Hr; simpl; [by left |]. right. split; [done |].
  exists s. unfold retained in Hr. simpl in Hr.
  destruct (StoredCommand.terminal_at s) as [t |]; [eauto | done].
Qed.

Lemma opened_lookup_evolves k o now l :
  wf l -> evolves k o (records l !! k) (records (opened now l) !! k).
Proof.
  intros (_ & _ & _ & _ & _ & He & _).
  destruct (opened_lookup k now l) as [-> | (-> & s & t & Hs & Ht)]; [apply ev_same |].
  rewrite Hs. apply ev_forget. apply He in Hs as (_ & _ & _ & Hs & _).
  unfold stored_state. by destruct (is_terminal _); simplify_eq.
Qed.

Lemma file_lookup k k' f l :
  records (file k f l) !! k' =
    if decide (k = k') then Some (f (next_access_ordinal l)) else records l !! k'.
Proof.
  unfold file. simpl. case_decide as Hk; [subst; by rewrite lookup_insert_eq |].
  by rewrite lookup_insert_ne.
Qed.

(** *** The invariant *)
Lemma file_wf k (f : N -> StoredCommand.t R) l :
  wf l -> ordinal_left l ->
  (forall a, StoredCommand.access_ordinal (f a) = a) ->
  (forall a, 1 <= a < next_access_ordinal l + 1 ->
    entry_ok (set_next_access_ordinal (next_access_ordinal l + 1) l) k (f a)) ->
  (is_Some (records l !! k) \/
   records_len l < CommandLedgerLimits.maximum_entries (limits l)) ->
  wf (file k f l).
Proof.
  intros Hl Ho Ha He Hroom. apply insert_wf; auto.
  apply He. destruct Hl as (_ & _ & _ & _ & ? & _). lia.
Qed.

(** Refiling an entry that is there, keeping its identity. *)
Lemma refile_wf k (f : N -> StoredCommand.t R) s l :
  wf l -> ordinal_left l -> records l !! k = Some s ->
  (forall a, StoredCommand.access_ordinal (f a) = a) ->
  (forall a, let r := StoredCommand.record s in let r' := StoredCommand.record (f a) in
    CommandRecord.principal r' = CommandRecord.principal r /\
    CommandRecord.command_id r' = CommandRecord.command_id r /\
    CommandRecord.generation r' = CommandRecord.generation r /\
    CommandRecord.accepted_at r' = CommandRecord.accepted_at r /\
    CommandRecord.updated_at r <= CommandRecord.updated_at r' <= default 0 (last_observed_at l) /\
    StoredCommand.terminal_at (f a) =
      if is_terminal (CommandRecord.state r') then Some (CommandRecord.updated_at r')
      else None) ->
  wf (file k f l).
Proof.
  intros Hl Ho Hs Ha Hf. apply file_wf; eauto.
  intros a Hn. pose proof Hl as (_ & _ & _ & _ & _ & He & _). apply He in Hs.
  specialize (Hf a). unfold entry_ok in *. simpl in *. rewrite Ha.
  destruct Hs as (? & ? & ? & ? & ? & ? & ?), Hf as (? & ? & ? & ? & ? & ?).
  split_and!; congruence || lia.
Qed.

Lemma touch_wf k s l :
  wf l -> ordinal_left l -> records l !! k = Some s ->
  wf (file k (fun a => StoredCommand.set_access_ordinal a s) l).
Proof.
  intros Hl Ho Hs. eapply refile_wf; eauto. intros a. simpl.
  destruct Hl as (_ & _ & _ & _ & _ & He & _).
  apply He in Hs as (? & ? & ? & ? & ? & ? & ?). by split_and!.
Qed.

Lemma lookup_wf p c now g l : wf l -> wf (fst (lookup_command p c now g l)).
Proof.
  intros Hl. pose proof (lookup_cases p c now g l) as H.
  destruct (lookup_command p c now g l) as [l' r]. simpl in *.
  destruct H as [(-> & _) | (Hh & H)]; [done |].
  pose proof (opened_wf _ _ _ Hl Hh).
  destruct H as [(-> & _) | (s & Hs & [(-> & _) | (-> & Ho & _)])]; [done | done |].
  by apply touch_wf.
Qed.

Lemma fresh_ordinal_wf l :
  wf l -> ordinal_left l -> wf (set_next_access_ordinal (next_access_ordinal l + 1) l).
Proof.
  intros (? & ? & ? & ? & ? & He & Hu) Ho. unfold wf, records_len, ordinal_left in *. simpl.
  split_and!; try done; try lia.
  intros k s Hs. apply He in Hs. unfold entry_ok in *. simpl in *. intuition lia.
Qed.

Lemma evict_keeps l l' :
  evict_lru_terminal l = (l', Ok tt) ->
  next_access_ordinal l' = next_access_ordinal l /\ generation l' = generation l /\
  last_observed_at l' = last_observed_at l /\ desktop_id l' = desktop_id l.
Proof. unfold evict_lru_terminal. simpl. intros H. by run_case H. Qed.

Lemma admit_wf p c h now g l : wf l -> wf (fst (admit_command p c h now g l)).
Proof.
  intros Hl. pose proof (admit_cases p c h now g l) as H.
  destruct (admit_command p c h now g l) as [l' r]. simpl in *.
  destruct H as [(-> & _) | (Hh & H)]; [done |].
  pose proof (opened_wf _ _ _ Hl Hh) as Hl1.
  destruct H as [(s & Hs & [(-> & _) | [(-> & _) | (-> & Ho & _)]]) |
    (Hs & [(-> & _) | [(-> & Ho & _) | (l2 & Ho & Hl2 & -> & _)]])]; try done.
  - by apply touch_wf.
  - exact (fresh_ordinal_wf _ Hl1 Ho).
  - destruct Hh as (-> & Hd & _).
    assert (wf l2 /\ records_len l2 < CommandLedgerLimits.maximum_entries (limits l2) /\
      next_access_ordinal l2 = next_access_ordinal (opened now l) /\
      generation l2 = generation l /\ last_observed_at l2 = Some now)
      as (Hwf2 & Hroom & Hn & Hg & Hlast).
    { destruct Hl2 as [(-> & Hroom) | (_ & Hev)]; [by split_and! |].
      destruct (evict_keeps _ _ Hev) as (? & ? & ? & ?).
      destruct (evict_room _ _ Hev Hl1). by split_and!. }
    unfold ordinal_left in *.
    apply file_wf; [done | unfold ordinal_left; by rewrite Hn | done | | by right].
    intros a Ha. unfold entry_ok. simpl. rewrite Hlast. simpl. split_and!; done || lia.
Qed.

Lemma mark_running_wf p c now g l : wf l -> wf (fst (mark_running p c now g l)).
Proof.
  intros Hl. pose proof (mark_running_cases p c now g l) as H.
  destruct (mark_running p c now g l) as [l' r]. simpl in *.
  destruct H as [(-> & _) | (Hh & H)]; [done |].
  pose proof (observed_wf _ _ _ Hl Hh) as Hl1.
  destruct H as [(-> & _) | (s & Hs & [(-> & _) | [(-> & _) | (Hst & Ho & -> & _)]])];
    try done.
  eapply refile_wf; eauto. intros a. simpl.
  pose proof Hl1 as (_ & _ & _ & _ & _ & He & _).
  apply He in Hs as (? & ? & ? & Ht & ? & Hup & ?).
  unfold stored_state in Hst. rewrite Hst in Ht. simpl in *. split_and!; done || lia.
Qed.

Lemma complete_wf p c (out : R) now g l : wf l -> wf (fst (complete p c out now g l)).
Proof.
  intros Hl. pose proof (complete_cases p c out now g l) as H.
  destruct (complete p c out now g l) as [l' r]. simpl in *.
  destruct H as [(-> & _) | (Hh & H)]; [done |].
  pose proof (observed_wf _ _ _ Hl Hh) as Hl1.
  destruct H as [(-> & _) | (s & Hs & [(-> & _) | [(-> & _) | (Hst & Ho & -> & _)]])];
    try done.
  eapply refile_wf; eauto. intros a. simpl.
  pose proof Hl1 as (_ & _ & _ & _ & _ & He & _).
  apply He in Hs as (? & ? & ? & Ht & ? & Hup & ?). simpl in *. split_and!; done || lia.
Qed.

Lemma ledger_rotate_cases g l :
  (exists e, rotate_generation g l = (l, Err e) /\ e <> LedgerInvariantViolation /\
    ~ rotation_allowed (desktop_id l) (generation l) g) \/
  (rotate_generation g l = (mk (desktop_id l) g (limits l) ∅ 1 None, Ok (records_len l)) /\
    rotation_allowed (desktop_id l) (generation l) g).
Proof.
  unfold rotate_generation, rotation_allowed. simpl.
  case_decide as Hd; simpl; [left; eexists; split_and!; naive_solver |].
  case_decide as Hg; simpl.
  - left. eexists. split_and!; [done | done |]. intros (_ & ? & ?). destruct Hg; [lia | done].
  - right. split; [done |].
    split; [done |]. split; [| tauto].
    destruct (decide (GenerationToken.epoch (generation l) < GenerationToken.epoch g));
      [done |]. destruct Hg. left. lia.
Qed.

Lemma rotate_wf g l : wf l -> wf (fst (rotate_generation g l)).
Proof.
  intros Hl. destruct (ledger_rotate_cases g l) as [(e & -> & _) | (-> & Hd & _)]; simpl; [done |].
  destruct Hl as (? & ? & ? & ? & ? & _). unfold wf, records_len, ordinals_unique. simpl.
  rewrite map_size_empty. split_and!; try done; try lia; set_solver.
Qed.

Lemma ledger_apply_wf o l : wf l -> wf (apply o l).
Proof.
  destruct o; simpl;
    auto using admit_wf, lookup_wf, mark_running_wf, complete_wf, rotate_wf.
Qed.

Lemma ledger_run_wf ops l : wf l -> wf (run ops l).
Proof. revert l. induction ops as [|o ops IH]; intros l Hl; [done |]. by apply IH, ledger_apply_wf. Qed.

(** *** The life of one entry *)
Lemma evolves_forget_trans k o x y z :
  evolves k o x y -> (y = x \/ y = None) ->
  (z = y \/ (exists s a, y = Some s /\ z = Some (StoredCommand.set_access_ordinal a s)) \/
   (y = None /\ exists s, z = Some s /\ admits k o = true /\ stored_state s = Accepted)) ->
  evolves k o x z.
Proof.
  intros Hxy Hy [-> | [(s & a & -> & ->) | (-> & s & -> & Ha & Hs)]]; [done | |].
  - destruct Hy as [<- | ?]; [apply ev_touch | done].
  - apply ev_admit; [done | | done].
    inversion Hxy; subst; done || by destruct Hy.
Qed.

Lemma evict_lookup l l' k :
  evict_lru_terminal l = (l', Ok tt) ->
  records l' !! k = records l !! k \/
  (records l' !! k = None /\ exists s, records l !! k = Some s /\
    is_terminal (stored_state s) = true).
Proof.
  intros Hev. destruct (evict_cases l) as [[He _] | (v & s & He & Hv & Ht & _)];
    rewrite He in Hev; simplify_eq. simpl.
  destruct (decide (v = k)) as [<- | Hne].
  - right. rewrite lookup_delete_eq. eauto.
  - left. by rewrite lookup_delete_ne.
Qed.

Lemma apply_evolves k o l :
  wf l ->
  (exists g, o = Rotate g /\ generation (apply o l) = g /\
    GenerationToken.epoch (generation l) < GenerationToken.epoch g /\
    records (apply o l) = ∅) \/
  (generation (apply o l) = generation l /\
   evolves k o (records l !! k) (records (apply o l) !! k)).
Proof.
  intros Hl. destruct o as [p c h now g | p c now g | p c now g | p c out now g | g]; simpl.
  - right. pose proof (admit_cases p c h now g l) as H.
    pose proof (opened_lookup_evolves k (Admit p c h now g) now l Hl) as Hop.
    assert (records (opened now l) !! k = records l !! k \/
            records (opened now l) !! k = None) as Hop'
      by (destruct (opened_lookup k now l) as [? | [? _]]; auto).
    destruct (admit_command p c h now g l) as [l' r]. cbv zeta in H. cbn [fst].
    destruct H as [(-> & _) | (Hh & H)]; [split; [done | apply ev_same] |].
    destruct H as [(s & Hs & [(-> & _) | [(-> & _) | (-> & Ho & _)]]) |
      (Hs & [(-> & _) | [(-> & Ho & _) | (l2 & Ho & Hl2 & -> & _)]])];
      (split; [try done |]).
    + done.
    + done.
    + rewrite file_lookup. case_decide as Hk; [| done].
      eapply evolves_forget_trans; [done | done |]. right. left. subst k. eauto.
    + done.
    + done.
    + destruct Hl2 as [(-> & _) | (_ & Hev)]; [done |].
      by destruct (evict_keeps _ _ Hev) as (_ & ? & _).
    + rewrite file_lookup. case_decide as Hk.
      { apply (evolves_forget_trans _ _ _ _ _ Hop Hop'). right. right. subst k.
        split; [done |]. eexists. split; [done |]. simpl. by rewrite bool_decide_true. }
      destruct Hl2 as [(-> & _) | (_ & Hev)]; [done |].
      destruct (evict_lookup _ _ k Hev) as [-> | (-> & s & Hks & Ht)]; [done |].
      destruct Hop' as [Heq | Heq]; rewrite Heq in Hks; [| done].
      rewrite Hks. by apply ev_forget.
  - right. pose proof (lookup_cases p c now g l) as H.
    pose proof (opened_lookup_evolves k (Lookup p c now g) now l Hl) as Hop.
    assert (records (opened now l) !! k = records l !! k \/
            records (opened now l) !! k = None) as Hop'
      by (destruct (opened_lookup k now l) as [? | [? _]]; auto).
    destruct (lookup_command p c now g l) as [l' r]. cbv zeta in H. cbn [fst].
    destruct H as [(-> & _) | (Hh & H)]; [split; [done | apply ev_same] |].
    destruct H as [(-> & _) | (s & Hs & [(-> & _) | (-> & Ho & _)])]; [done | done |].
    split; [done |]. rewrite file_lookup. case_decide as Hk; [| done].
    eapply evolves_forget_trans; [done | done |]. right. left. subst k. eauto.
  - right. pose proof (mark_running_cases p c now g l) as H.
    destruct (mark_running p c now g l) as [l' r]. cbv zeta in H. cbn [fst].
    destruct H as [(-> & _) | (Hh & [(-> & _) | (s & Hs & [(-> & _) | [(-> & _) | (Hst & Ho & -> & _)]])])];
      (split; [done |]); try apply ev_same.
    rewrite file_lookup. case_decide as Hk; [subst k; rewrite Hs; by apply ev_run | apply ev_same].
  - right. pose proof (complete_cases p c out now g l) as H.
    destruct (complete p c out now g l) as [l' r]. cbv zeta in H. cbn [fst].
    destruct H as [(-> & _) | (Hh & [(-> & _) | (s & Hs & [(-> & _) | [(-> & _) | (Hst & Ho & -> & _)]])])];
      (split; [done |]); try apply ev_same.
    rewrite file_lookup. case_decide as Hk; [| apply ev_same].
    subst k. rewrite Hs. apply ev_complete; [| done | done]. simpl. by rewrite bool_decide_true.
  - destruct (ledger_rotate_cases g l) as [(e & -> & _) | (-> & _ & ? & _)]; simpl;
      [right; split; [done | apply ev_same] | left; by exists g].
Qed.

Lemma ledger_run_cons o ops l : run (o :: ops) l = run ops (apply o l).
Proof. done. Qed.

Lemma run_epoch ops l :
  wf l ->
  generation (run ops l) = generation l \/
  GenerationToken.epoch (generation l) < GenerationToken.epoch (generation (run ops l)).
Proof.
  revert l. induction ops as [|o ops IH]; intros l Hl; [by left |]. rewrite ledger_run_cons.
  pose proof (IH _ (ledger_apply_wf o l Hl)) as IH'.
  destruct (apply_evolves (CommandKey.mk (PrincipalId.mk "") (mkCommandId 0)) o l Hl)
    as [(g & _ & Hg & Hlt & _) | [Hg _]]; rewrite Hg in IH'; [| done].
  right. destruct IH' as [-> | ?]; lia.
Qed.

(** The generation at the end is that of the start only if it never changed. *)
Lemma run_same_generation o ops l :
  wf l -> generation (run (o :: ops) l) = generation l ->
  generation (apply o l) = generation l /\
  generation (run ops (apply o l)) = generation (apply o l).
Proof.
  intros Hl. rewrite ledger_run_cons. intros Hgen.
  destruct (run_epoch ops (apply o l) (ledger_apply_wf o l Hl)) as [Heq | Hlt]; [split; congruence |].
  destruct (run_epoch [o] l Hl) as [Heq | Hlt']; [split; simpl in *; congruence |].
  simpl in Hlt'. rewrite Hgen in Hlt. lia.
Qed.

Definition in_flight k l : Prop :=
  exists s, records l !! k = Some s /\ is_terminal (stored_state s) = false.

Lemma run_in_flight k ops l :
  wf l -> in_flight k l ->
  Forall (fun o => completes k o = false) ops ->
  generation (run ops l) = generation l ->
  in_flight k (run ops l).
Proof.
  intros Hl Hin Hops. revert l Hl Hin.
  induction Hops as [|o ops Ho _ IH]; intros l Hl Hin Hgen; [done |].
  destruct (run_same_generation _ _ _ Hl Hgen) as [Hg1 Hg2]. rewrite ledger_run_cons.
  apply IH; [by apply ledger_apply_wf | | done].
  destruct (apply_evolves k o l Hl) as [(g & _ & Hg & Hlt & _) | [_ Hev]].
  { rewrite Hg in Hg1. subst g. lia. }
  destruct Hin as (s & Hs & Ht). rewrite Hs in Hev. unfold in_flight.
  inversion Hev as [x E1 E2 | s1 a E1 E2 | s1 Ht1 E1 E2 | x s1 Ha Hx Hst E1 E2
    | s1 s2 Hst1 Hst2 E1 E2 | s1 s2 Hc]; subst.
  - eauto.
  - eauto.
  - congruence.
  - eexists. split; [done |]. by rewrite Hst.
  - eexists. split; [done |]. by rewrite Hst2.
  - congruence.
Qed.

(** A record keeps its content, or the command is forgotten, until it is admitted
    again. *)
Lemma run_terminal k ops l (r : CommandRecord.t R) :
  wf l -> is_terminal (CommandRecord.state r) = true ->
  (forall s, records l !! k = Some s -> StoredCommand.record s = r) ->
  Forall (fun o => admits k o = false) ops ->
  forall s, records (run ops l) !! k = Some s -> StoredCommand.record s = r.
Proof.
  intros Hl Ht Hr Hops. revert l Hl Hr.
  induction Hops as [|o ops Ho _ IH]; intros l Hl Hr; [done |].
  rewrite ledger_run_cons. apply IH; [by apply ledger_apply_wf |].
  intros s Hs. destruct (apply_evolves k o l Hl) as [(g & _ & _ & _ & He) | [_ Hev]].
  { by rewrite He in Hs. }
  rewrite Hs in Hev. unfold stored_state in *.
  destruct (records l !! k) as [s0 |]; [pose proof (Hr s0 eq_refl) as Hr0 |];
    inversion Hev; subst; simpl; try congruence.
  all: unfold stored_state in *;
    destruct (CommandRecord.state (StoredCommand.record s0)); by simplify_eq.
Qed.

End Trace.
Arguments op R : clear implicits.
End LedgerTrace.

(** ** The ledger as its clients see it

    [record_of] is the map from commands to records, without access ordinals.  An
    operation that answers an error, or looks a command up, is [quiet]: it may only
    forget terminal records. *)
Module LedgerView.
Import CommandLedger LedgerInvariant LedgerOutcomes LedgerTrace.
Section View.
  Context {R : Type}.
  Implicit Types (l : CommandLedger.t R) (k : CommandKey.t) (r : CommandRecord.t R).

Definition record_of l k : option (CommandRecord.t R) := StoredCommand.record <$> records l !! k.

Definition same_frame (now : N) l l' : Prop :=
  generation l' = generation l /\ desktop_id l' = desktop_id l /\ limits l' = limits l /\
  (last_observed_at l' = last_observed_at l \/ last_observed_at l' = Some now).

Definition quiet (now : N) l l' : Prop :=
  wf l' /\ same_frame now l l' /\
  forall k, record_of l' k = record_of l k \/
    (record_of l' k = None /\
     exists r, record_of l k = Some r /\ is_terminal (CommandRecord.state r) = true).

(** [l'] is [l] with the record of [k] replaced. *)
Definition records_update (now : N) k r l l' : Prop :=
  wf l' /\ same_frame now l l' /\ record_of l' k = Some r /\
  forall k', k' <> k -> record_of l' k' = record_of l k' \/
    (record_of l' k' = None /\
     exists r', record_of l k' = Some r' /\ is_terminal (CommandRecord.state r') = true).

Lemma same_frame_refl now l : same_frame now l l.
Proof. unfold same_frame. auto. Qed.

Lemma quiet_refl now l : wf l -> quiet now l l.
Proof. intros. split; [done |]. split; [apply same_frame_refl | auto]. Qed.

Lemma observed_quiet now l : wf (observed now l) -> quiet now l (observed now l).
Proof. intros Hl. split; [done |]. split; [split_and!; auto |]. auto. Qed.

Lemma opened_quiet now l : wf l -> wf (opened now l) -> quiet now l (opened now l).
Proof.
  intros Hl Hl'. split; [done |]. split; [split_and!; auto |].
  intros k. unfold record_of.
  destruct (opened_lookup k now l) as [-> | (-> & s & t & Hs & Ht)]; [by left |]. right.
  split; [done |]. exists (StoredCommand.record s). rewrite Hs. split; [done |].
  destruct Hl as (_ & _ & _ & _ & _ & He & _). apply He in Hs as (_ & _ & _ & Hs & _).
  by destruct (is_terminal _); simplify_eq.
Qed.

Lemma file_record_of k k' (f : N -> StoredCommand.t R) l :
  record_of (file k f l) k' =
    if decide (k = k') then Some (StoredCommand.record (f (next_access_ordinal l)))
    else record_of l k'.
Proof. unfold record_of. rewrite file_lookup. by case_decide. Qed.

(** Refiling an entry with the same record changes nothing visible. *)
Lemma touch_quiet now k s l l1 :
  quiet now l l1 -> records l1 !! k = Some s ->
  wf (file k (fun a => StoredCommand.set_access_ordinal a s) l1) ->
  quiet now l (file k (fun a => StoredCommand.set_access_ordinal a s) l1).
Proof.
  intros (_ & Hf & Hr) Hs Hwf. split; [done |]. split; [done |].
  intros k'. rewrite file_record_of. case_decide; [| apply Hr].
  subst. specialize (Hr k'). unfold record_of in Hr. rewrite Hs in Hr. simpl in *.
  naive_solver.
Qed.

Lemma lookup_effect p c now g l :
  wf l ->
  let '(l', r) := lookup_command p c now g l in
  quiet now l l' /\
  (forall x, r = Ok x -> g = generation l /\ x = record_of l' (CommandKey.mk p c)).
Proof.
  intros Hl. pose proof (lookup_wf p c now g l Hl) as Hl'.
  pose proof (lookup_cases p c now g l) as H.
  destruct (lookup_command p c now g l) as [l' r]. cbv zeta in H. simpl in Hl'.
  destruct H as [(-> & e & -> & _) | (Hh & H)]; [split; [by apply quiet_refl | done] |].
  pose proof (opened_quiet now l Hl (opened_wf _ _ _ Hl Hh)) as Hq.
  destruct Hh as (Hg & _).
  destruct H as [(-> & Hn & ->) | (s & Hs & [(-> & _ & ->) | (-> & Ho & ->)])].
  - split; [done |]. intros x [= <-]. split; [done |]. unfold record_of. by rewrite Hn.
  - by split.
  - split; [by apply touch_quiet |]. intros x [= <-]. split; [done |].
    by rewrite file_record_of, decide_True.
Qed.

Lemma evict_quiet now l l1 l2 :
  quiet now l l1 -> wf l2 -> evict_lru_terminal l1 = (l2, Ok tt) -> quiet now l l2.
Proof.
  intros (_ & Hf & Hr) Hl2 Hev. split; [done |].
  assert (limits l2 = limits l1) as Hlim
    by (destruct (evict_cases l1) as [[He _] | (v & s & He & _)]; rewrite He in Hev; by simplify_eq).
  split.
  - destruct (evict_keeps _ _ Hev) as (_ & Hg & Hl & Hd). unfold same_frame in *.
    by rewrite Hg, Hl, Hd, Hlim.
  - intros k. specialize (Hr k). unfold record_of in *.
    destruct (evict_lookup _ _ k Hev) as [-> | (-> & s & Hs & Ht)]; [done |].
    right. split; [done |]. rewrite Hs in Hr. simpl in Hr.
    destruct Hr as [Hr | [? _]]; [| done]. exists (StoredCommand.record s). by rewrite <- Hr.
Qed.

Lemma admit_effect p c h now g l :
  wf l ->
  let k := CommandKey.mk p c in
  let '(l', d) := admit_command p c h now g l in
  match d with
  | Ok (AdmittedNew r) =>
      r = CommandRecord.mk p c g h Accepted now now /\ g = generation l /\
      records_update now k r l l' /\
      (forall r0, record_of l k = Some r0 -> is_terminal (CommandRecord.state r0) = true)
  | Ok (Existing r) => quiet now l l' /\ record_of l k = Some r
  | Err _ => quiet now l l'
  end.
Proof.
  intros Hl k. pose proof (admit_wf p c h now g l Hl) as Hl'.
  pose proof (admit_cases p c h now g l) as H.
  destruct (admit_command p c h now g l) as [l' d]. cbv zeta in H. simpl in Hl'. fold k in H.
  destruct H as [(-> & e & -> & _) | (Hh & H)]; [by apply quiet_refl |].
  pose proof (opened_wf _ _ _ Hl Hh) as Hl1.
  pose proof (opened_quiet now l Hl Hl1) as Hq. pose proof Hh as (Hg & _).
  destruct H as [(s & Hs & [(-> & _ & ->) | [(-> & _ & ->) | (-> & Ho & _ & ->)]]) |
    (Hs & [(-> & _ & ->) | [(-> & Ho & _ & _ & ->) | (l2 & Ho & Hl2 & -> & ->)]])]; try done.
  - split; [by apply touch_quiet |].
    destruct Hq as (_ & _ & Hr). specialize (Hr k). unfold record_of in *. rewrite Hs in Hr.
    simpl in Hr. naive_solver.
  - destruct Hq as (_ & Hf & Hr). by split.
  - split; [done |]. split; [done |].
    assert (quiet now l l2) as (_ & Hf & Hr).
    { destruct Hl2 as [(-> & _) | (_ & Hev)]; [done |].
      destruct (evict_room _ _ Hev Hl1). by eapply evict_quiet. }
    split.
    + split; [done |]. split; [done |].
      split; [by rewrite file_record_of, decide_True |].
      intros k' Hk'. by rewrite file_record_of, decide_False by done.
    + intros r0 Hr0. destruct Hq as (_ & _ & Hq). specialize (Hq k).
      unfold record_of in *. rewrite Hs, Hr0 in Hq. naive_solver.
Qed.

Lemma mark_running_effect p c now g l :
  wf l ->
  let k := CommandKey.mk p c in
  let '(l', x) := mark_running p c now g l in
  match x with
  | Ok r =>
      g = generation l /\
      (exists r0, record_of l k = Some r0 /\ CommandRecord.state r0 = Accepted /\
         r = CommandRecord.set_state Running now r0) /\
      records_update now k r l l'
  | Err _ => quiet now l l'
  end.
Proof.
  intros Hl k. pose proof (mark_running_wf p c now g l Hl) as Hl'.
  pose proof (mark_running_cases p c now g l) as H.
  destruct (mark_running p c now g l) as [l' x]. cbv zeta in H. simpl in Hl'. fold k in H.
  destruct H as [(-> & e & -> & _) | (Hh & H)]; [by apply quiet_refl |].
  pose proof (observed_quiet now l (observed_wf _ _ _ Hl Hh)) as Hq. pose proof Hh as (Hg & _).
  destruct H as [(-> & _ & ->) | (s & Hs & [(-> & _ & ->) | [(-> & _ & ->)
    | (Hst & Ho & -> & ->)]])]; try done.
  split; [done |]. split.
  - exists (StoredCommand.record s). unfold record_of. by rewrite Hs.
  - split; [done |]. split; [destruct Hq as (_ & Hf & _); done |].
    split; [by rewrite file_record_of, decide_True |].
    intros k' Hk'. left. by rewrite file_record_of, decide_False.
Qed.

Lemma complete_effect p c (out : R) now g l :
  wf l ->
  let k := CommandKey.mk p c in
  let '(l', x) := complete p c out now g l in
  match x with
  | Ok r =>
      g = generation l /\
      (exists r0, record_of l k = Some r0 /\ is_terminal (CommandRecord.state r0) = false /\
         r = CommandRecord.set_state (Terminal out) now r0) /\
      records_update now k r l l'
  | Err _ => quiet now l l'
  end.
Proof.
  intros Hl k. pose proof (complete_wf p c out now g l Hl) as Hl'.
  pose proof (complete_cases p c out now g l) as H.
  destruct (complete p c out now g l) as [l' x]. cbv zeta in H. simpl in Hl'. fold k in H.
  destruct H as [(-> & e & -> & _) | (Hh & H)]; [by apply quiet_refl |].
  pose proof (observed_quiet now l (observed_wf _ _ _ Hl Hh)) as Hq. pose proof Hh as (Hg & _).
  destruct H as [(-> & _ & ->) | (s & Hs & [(-> & _ & ->) | [(-> & _ & ->)
    | (Hst & Ho & -> & ->)]])]; try done.
  split; [done |]. split.
  - exists (StoredCommand.record s). unfold record_of. by rewrite Hs.
  - split; [done |]. split; [destruct Hq as (_ & Hf & _); done |].
    split; [by rewrite file_record_of, decide_True |].
    intros k' Hk'. left. by rewrite file_record_of, decide_False.
Qed.

(** The ledger's calls never answer with the defensive error. *)
Lemma lookup_no_violation p c now g l :
  snd (lookup_command p c now g l) <> Err LedgerInvariantViolation.
Proof.
  pose proof (lookup_cases p c now g l) as H.
  destruct (lookup_command p c now g l) as [l' x]. cbv zeta in H. simpl.
  destruct H as [(_ & e & -> & ? & _) | (_ & [(_ & _ & ->) | (s & _ & [(_ & _ & ->) | (_ & _ & ->)])])];
    congruence.
Qed.

Lemma admit_no_violation p c h now g l :
  snd (admit_command p c h now g l) <> Err LedgerInvariantViolation.
Proof.
  pose proof (admit_cases p c h now g l) as H.
  destruct (admit_command p c h now g l) as [l' x]. cbv zeta in H. simpl.
  destruct H as [(_ & e & -> & ?) | (_ & [(s & _ & [(_ & _ & ->) | [(_ & _ & ->) | (_ & _ & _ & ->)]])
    | (_ & [(_ & _ & ->) | [(_ & _ & _ & _ & ->) | (l2 & _ & _ & _ & ->)]])])]; congruence.
Qed.

Lemma complete_no_violation p c out now g l :
  snd (complete p c out now g l) <> Err LedgerInvariantViolation.
Proof.
  pose proof (complete_cases p c out now g l) as H.
  destruct (complete p c out now g l) as [l' x]. cbv zeta in H. simpl.
  destruct H as [(_ & e & -> & ? & _) | (_ & [(_ & _ & ->) | (s & _ & [(_ & _ & ->) | [(_ & _ & ->)
    | (_ & _ & _ & ->)]])])]; congruence.
Qed.

Lemma mark_running_no_violation p c now g l :
  snd (mark_running p c now g l) <> Err LedgerInvariantViolation.
Proof.
  pose proof (mark_running_cases p c now g l) as H.
  destruct (mark_running p c now g l) as [l' x]. cbv zeta in H. simpl.
  destruct H as [(_ & e & -> & ? & _) | (_ & [(_ & _ & ->) | (s & _ & [(_ & _ & ->) | [(_ & _ & ->)
    | (_ & _ & _ & ->)]])])]; congruence.
Qed.

Lemma rotate_no_violation g l : snd (rotate_generation g l) <> Err LedgerInvariantViolation.
Proof. destruct (ledger_rotate_cases g l) as [(e & -> & ? & _) | (-> & _)]; simpl; congruence. Qed.

(** When the times are in order and an ordinal is left, an unfinished command can be
    completed. *)
Lemma complete_accepts p c (out : R) now l r0 :
  wf l -> (forall prev, last_observed_at l = Some prev -> prev <= now) -> ordinal_left l ->
  record_of l (CommandKey.mk p c) = Some r0 -> is_terminal (CommandRecord.state r0) = false ->
  exists l', complete p c out now (generation l) l =
    (l', Ok (CommandRecord.set_state (Terminal out) now r0)).
Proof.
  intros Hl Ht Ho Hr Hlive. pose proof (complete_cases p c out now (generation l) l) as H.
  destruct (complete p c out now (generation l) l) as [l' x]. cbv zeta in H.
  destruct Hl as (Hd & _). unfold record_of in Hr.
  destruct H as [(_ & e & _ & _ & Hc) | (_ & [(_ & Hn & _) | (s & Hs & [(_ & Hterm & _) | [(_ & Hno & _)
    | (_ & _ & _ & ->)]])])].
  - destruct (Hc eq_refl Hd) as (prev & Hp & Hlt). specialize (Ht _ Hp). lia.
  - by rewrite Hn in Hr.
  - rewrite Hs in Hr. simpl in Hr. unfold stored_state in Hterm. congruence.
  - done.
  - rewrite Hs in Hr. simpl in Hr. exists l'. congruence.
Qed.

(** Once the access ordinals are exhausted no command runs or completes any more, and
    they stay exhausted. *)
Lemma complete_exhausted p c (out : R) now g l :
  ~ ordinal_left l ->
  is_ok (snd (complete p c out now g l)) = false /\
  ~ ordinal_left (fst (complete p c out now g l)).
Proof.
  intros Ho. pose proof (complete_cases p c out now g l) as H.
  destruct (complete p c out now g l) as [l' x]. cbv zeta in H. simpl.
  destruct H as [(-> & e & -> & _) | (_ & [(-> & _ & ->) | (s & _ & [(-> & _ & ->) | [(-> & _ & ->)
    | (_ & ? & _)]])])]; done.
Qed.

Lemma mark_running_exhausted p c now g l :
  ~ ordinal_left l ->
  is_ok (snd (mark_running p c now g l)) = false /\
  ~ ordinal_left (fst (mark_running p c now g l)).
Proof.
  intros Ho. pose proof (mark_running_cases p c now g l) as H.
  destruct (mark_running p c now g l) as [l' x]. cbv zeta in H. simpl.
  destruct H as [(-> & e & -> & _) | (_ & [(-> & _ & ->) | (s & _ & [(-> & _ & ->) | [(-> & _ & ->)
    | (_ & ? & _)]])])]; done.
Qed.

End View.
End LedgerView.

(** ** The ledger as a generation-fenced component *)
#[export] Instance ledger_fenced {R} : Fenced (CommandLedger.t R) CommandLedgerError N := {
  fenced_desktop := CommandLedger.desktop_id;
  fenced_token := CommandLedger.generation;
  fenced_rotate := CommandLedger.rotate_generation;
}.

#[export] Instance ledger_fenced_laws {R} :
  FencedLaws (CommandLedger.t R) CommandLedgerError N.
Proof.
  constructor; intros l g H; simpl in *;
    destruct (LedgerTrace.ledger_rotate_cases g l) as [(e & -> & _ & Hn) | (-> & Ha)];
    done || eauto 10.
Qed.

(** ** Properties *)
Section LedgerProperties.
Import CommandLedger LedgerInvariant LedgerOutcomes LedgerTrace.
Context {R : Type}.
Implicit Types (l : CommandLedger.t R) (k : CommandKey.t).

Lemma in_flight_opened k now l : wf l -> in_flight k l -> in_flight k (opened now l).
Proof.
  intros Hl (s & Hs & Ht). destruct (opened_lookup k now l) as [Heq | (_ & s' & t & Hs' & Ht')].
  { exists s. by rewrite Heq. }
  exfalso. destruct Hl as (_ & _ & _ & _ & _ & He & _).
  pose proof (He _ _ Hs) as (_ & _ & _ & Hs2 & _).
  unfold stored_state in Ht. rewrite Ht in Hs2. by simplify_eq.
Qed.

Lemma admitted_in_flight p c h now g l l' r :
  admit_command p c h now g l = (l', Ok (AdmittedNew r)) -> in_flight (CommandKey.mk p c) l'.
Proof.
  intros H. pose proof (admit_cases p c h now g l) as Hc. rewrite H in Hc. cbv zeta in Hc.
  destruct Hc as [(_ & e & ? & _) | (_ & [(s & _ & [(_ & _ & ?) | [(_ & _ & ?) | (_ & _ & _ & ?)]])
    | (_ & [(_ & _ & ?) | [(_ & _ & _ & _ & ?) | (l2 & _ & _ & -> & _)]])])]; try done.
  unfold in_flight. rewrite file_lookup, decide_True by done. eauto.
Qed.

(** The ledger invariant.  From construction with validated limits, after any
    sequence of operations the ledger holds at most its configured number of
    entries, each under its own identity and the current generation, with pairwise
    distinct access ordinals already handed out, and an entry has a terminal time
    exactly when it is terminal, that time being when it became so. *)
Theorem ledger_invariant (maximum_entries ttl : N) (lim : CommandLedgerLimits.t)
    (d : DesktopId) (g : GenerationToken.t) l (ops : list (op R)) :
  CommandLedgerLimits.new maximum_entries ttl = Ok lim ->
  CommandLedger.new d g lim = Ok l ->
  wf (run ops l).
Proof.
  intros Hlim Hl. unfold CommandLedgerLimits.new in Hlim. run_case Hlim.
  apply ledger_run_wf. eapply ledger_new_wf; [done | |]; simpl; lia.
Qed.

(** C10: at most one admission.  Once a command is admitted, then whatever operations
    follow, as long as none completes that command and the generation has not
    changed, no request for the same principal and command is ever answered
    [AdmittedNew] again, whatever its hash, time or token. *)
Theorem admitted_at_most_once (p : PrincipalId.t) (c : CommandId)
    (h h' : CanonicalCommandHash) (now now' : N) (g g' : GenerationToken.t)
    l l' (r r' : CommandRecord.t R) (ops : list (op R)) :
  wf l ->
  admit_command p c h now g l = (l', Ok (AdmittedNew r)) ->
  Forall (fun o => completes (CommandKey.mk p c) o = false) ops ->
  generation (run ops l') = generation l' ->
  snd (admit_command p c h' now' g' (run ops l')) <> Ok (AdmittedNew r').
Proof.
  intros Hl Hadm Hops Hgen.
  assert (wf l') as Hl' by (pose proof (admit_wf p c h now g l Hl) as H; by rewrite Hadm in H).
  pose proof (run_in_flight _ ops _ Hl' (admitted_in_flight _ _ _ _ _ _ _ _ Hadm) Hops Hgen) as Hf.
  apply (in_flight_opened _ now') in Hf as (s & Hs & _); [| by apply ledger_run_wf].
  pose proof (admit_cases p c h' now' g' (run ops l')) as Hc.
  destruct (admit_command p c h' now' g' (run ops l')) as [l'' x]. cbv zeta in Hc. simpl.
  destruct Hc as [(_ & e & -> & _) | (_ & [(s' & _ & [(_ & _ & ->) | [(_ & _ & ->) | (_ & _ & _ & ->)]])
    | (Hn & _)])]; done || congruence.
Qed.

(** C16: terminal results are immutable.  After a command completed with [out], any
    later operations other than a new admission of the same command leave every
    lookup answering either that very record or "unknown"; and neither a second
    completion nor [mark_running] succeeds. *)
Theorem terminal_result_immutable (p : PrincipalId.t) (c : CommandId) (out out' : R)
    (now now' : N) (g g' : GenerationToken.t) l l' (r : CommandRecord.t R)
    (ops : list (op R)) :
  wf l ->
  complete p c out now g l = (l', Ok r) ->
  Forall (fun o => admits (CommandKey.mk p c) o = false) ops ->
  CommandRecord.state r = Terminal out /\
  (forall x, snd (lookup_command p c now' g' (run ops l')) = Ok x -> x = None \/ x = Some r) /\
  is_ok (snd (complete p c out' now' g' (run ops l'))) = false /\
  is_ok (snd (mark_running p c now' g' (run ops l'))) = false.
Proof.
  intros Hl Hc Hops.
  assert (wf l') as Hl' by (pose proof (complete_wf p c out now g l Hl) as H; by rewrite Hc in H).
  assert (CommandRecord.state r = Terminal out /\
    forall s, records l' !! CommandKey.mk p c = Some s -> StoredCommand.record s = r) as [Hr Hs].
  { pose proof (complete_cases p c out now g l) as H. rewrite Hc in H. cbv zeta in H.
    destruct H as [(_ & e & ? & _) | (_ & [(_ & _ & ?) | (s & _ & [(_ & _ & ?) | [(_ & _ & ?)
      | (_ & _ & -> & [= ->])]])])]; try done.
    split; [done |]. intros s'. rewrite file_lookup, decide_True by done. by intros [= <-]. }
  assert (is_terminal (CommandRecord.state r) = true) as Ht by by rewrite Hr.
  pose proof (run_terminal _ ops _ _ Hl' Ht Hs Hops) as Hrun.
  set (l2 := run ops l') in *. clearbody l2. split; [done |].
  split_and!.
  - intros x Hx. pose proof (lookup_cases p c now' g' l2) as H.
    destruct (lookup_command p c now' g' l2) as [l3 y]. simpl in Hx. subst y. cbv zeta in H.
    destruct H as [(_ & e & ? & _) | (_ & [(_ & _ & ?) | (s & Hs' & [(_ & _ & ?) | (_ & _ & Hx)])])];
      try done; simplify_eq; [by left | right].
    f_equal. apply Hrun. by destruct (opened_lookup (CommandKey.mk p c) now' l2) as [<- | [? _]];
      [| congruence].
  - pose proof (complete_cases p c out' now' g' l2) as H.
    destruct (complete p c out' now' g' l2) as [l3 y]. cbv zeta in H. simpl.
    destruct H as [(_ & e & -> & _) | (_ & [(_ & _ & ->) | (s & Hs' & [(_ & _ & ->) | [(_ & _ & ->)
      | (Hf & _)]])])]; try done.
    unfold stored_state in Hf. rewrite (Hrun _ Hs') in Hf. congruence.
  - pose proof (mark_running_cases p c now' g' l2) as H.
    destruct (mark_running p c now' g' l2) as [l3 y]. cbv zeta in H. simpl.
    destruct H as [(_ & e & -> & _) | (_ & [(_ & _ & ->) | (s & Hs' & [(_ & _ & ->) | [(_ & _ & ->)
      | (Hf & _)]])])]; try done.
    unfold stored_state in Hf. rewrite (Hrun _ Hs') in Hf. congruence.
Qed.

(** Eviction spares work in flight.  When an admission succeeds and an entry is
    gone afterwards, that entry was terminal, and either its retention had expired,
    or the ledger was full and the entry was a least recently used one among the
    terminal entries still retained. *)
Theorem admission_forgets_only_terminal (p : PrincipalId.t) (c : CommandId)
    (h : CanonicalCommandHash) (now : N) (g : GenerationToken.t) l l'
    (d : IdempotencyDecision R) k (s : StoredCommand.t R) :
  wf l ->
  admit_command p c h now g l = (l', Ok d) ->
  records l !! k = Some s -> records l' !! k = None ->
  is_terminal (stored_state s) = true /\
  (~ retained now (CommandLedgerLimits.terminal_ttl_ms (limits l)) s \/
   (CommandLedgerLimits.maximum_entries (limits l) <= records_len (opened now l) /\
    forall k' s', records (opened now l) !! k' = Some s' ->
      is_terminal (stored_state s') = true ->
      StoredCommand.access_ordinal s <= StoredCommand.access_ordinal s')).
Proof.
  intros Hl Hadm Hs Hgone. pose proof (admit_cases p c h now g l) as Hc.
  rewrite Hadm in Hc. cbv zeta in Hc.
  assert (forall x, records (opened now l) !! k = x -> x = None ->
    is_terminal (stored_state s) = true /\
    ~ retained now (CommandLedgerLimits.terminal_ttl_ms (limits l)) s) as Hexp.
  { intros x Hx ->. unfold opened, purge_expired_terminal in Hx. simpl in Hx.
    rewrite map_lookup_filter, Hs in Hx. simpl in Hx. case_guard as Hr; [done |].
    split; [| done]. destruct Hl as (_ & _ & _ & _ & _ & He & _).
    pose proof (He _ _ Hs) as (_ & _ & _ & Ht & _). unfold retained in Hr. rewrite Ht in Hr.
    unfold stored_state. by destruct (is_terminal _); simpl in Hr. }
  assert (records (opened now l) !! k = None \/ records (opened now l) !! k = Some s) as Hop
    by (destruct (opened_lookup k now l) as [-> | [-> _]]; auto).
  destruct Hc as [(_ & e & ? & _) | (_ & [(s0 & _ & [(_ & _ & ?) | [(_ & _ & ?) | (-> & _ & _ & _)]])
    | (_ & [(_ & _ & ?) | [(_ & _ & _ & _ & ?) | (l2 & _ & Hl2 & -> & _)]])])]; try done.
  all: rewrite file_lookup in Hgone; case_decide; try done.
  { destruct (Hexp _ eq_refl Hgone). auto. }
  destruct Hl2 as [(-> & _) | (Hfull & Hev)]; [destruct (Hexp _ eq_refl Hgone); auto |].
  destruct Hop as [Hn | Hk]; [destruct (Hexp _ eq_refl Hn); auto |].
  destruct (evict_cases (opened now l)) as [[He _] | (v & sv & He & Hv & Ht & Hmin)];
    rewrite He in Hev; simplify_eq. cbn [records set_records] in Hgone.
  destruct (decide (v = k)) as [<- | Hne];
    [| rewrite lookup_delete_ne in Hgone by done; congruence].
  rewrite Hk in Hv. simplify_eq. split; [done |]. right. by split.
Qed.

(** The error an operation answers with. *)
Definition op_error (o : op R) l : option CommandLedgerError :=
  let error {A} (r : result A CommandLedgerError) :=
    match r with Ok _ => None | Err e => Some e end in
  match o with
  | Admit p c h now g => error (snd (admit_command p c h now g l))
  | Lookup p c now g => error (snd (lookup_command p c now g l))
  | MarkRunning p c now g => error (snd (mark_running p c now g l))
  | Complete p c out now g => error (snd (complete p c out now g l))
  | Rotate g => error (snd (rotate_generation g l))
  end.

(** The defensive [InvariantViolation] paths are unreachable: no operation
    answers with it, in any state. *)
Theorem ledger_never_violates_its_invariant (o : op R) l :
  op_error o l <> Some LedgerInvariantViolation.
Proof.
  assert (forall A (r : result A CommandLedgerError), r <> Err LedgerInvariantViolation ->
    match r with Ok _ => None | Err e => Some e end <> Some LedgerInvariantViolation) as Herr
    by (intros A [x | e] Hr; congruence).
  destruct o; simpl; apply Herr; auto using LedgerView.admit_no_violation,
    LedgerView.lookup_no_violation, LedgerView.mark_running_no_violation,
    LedgerView.complete_no_violation, LedgerView.rotate_no_violation.
Qed.

End LedgerProperties.

(** ** Witnesses *)
Module LedgerWitness.
Import CommandLedger LedgerInvariant LedgerTrace.

Definition desktop : DesktopId := mkDesktopId 7.
Definition token : GenerationToken.t :=
  GenerationToken.mk desktop (mkDesktopGeneration 1) 1.
Definition alice : PrincipalId.t := PrincipalId.mk "alice".
Definition limits : CommandLedgerLimits.t := CommandLedgerLimits.mk 1 100.
Definition start : CommandLedger.t N := mk desktop token limits ∅ 1 None.
Definition hash : CanonicalCommandHash := mkCanonicalCommandHash [Byte.x01].
Definition one : CommandId := mkCommandId 1.
Definition two : CommandId := mkCommandId 2.
Definition accepted : CommandRecord.t N :=
  CommandRecord.mk alice one token hash Accepted 10 10.
Definition done_record : CommandRecord.t N :=
  CommandRecord.mk alice one token hash (Terminal 42) 10 30.
Definition admitted : CommandLedger.t N := fst (admit_command alice one hash 10 token start).
Definition running : CommandLedger.t N := run [MarkRunning alice one 20 token] admitted.
Definition completed : CommandLedger.t N := fst (complete alice one 42 30 token running).

Lemma run_start_wf (ops : list (op N)) : wf (run ops start).
Proof. apply ledger_run_wf. apply (ledger_new_wf desktop token limits); [vm_compute; reflexivity | vm_compute; congruence ..]. Qed.

Lemma ledger_invariant_witness : wf (run [Admit alice one hash 10 token] start).
Proof.
  apply (ledger_invariant 1 100 limits desktop token start); vm_compute; reflexivity.
Defined.

Lemma admitted_at_most_once_witness :
  snd (admit_command alice one hash 40 token (run [MarkRunning alice one 20 token] admitted))
    <> Ok (AdmittedNew accepted).
Proof.
  apply (admitted_at_most_once alice one hash hash 10 40 token token start admitted
    accepted accepted [MarkRunning alice one 20 token]).
  - apply (run_start_wf []).
  - vm_compute. reflexivity.
  - repeat constructor.
  - vm_compute. reflexivity.
Defined.

Lemma terminal_result_immutable_witness :
  snd (lookup_command alice one 40 token completed) = Ok (Some done_record) /\
  is_ok (snd (complete alice one 43 40 token completed)) = false.
Proof.
  split; [vm_compute; reflexivity |].
  apply (terminal_result_immutable alice one 42 43 30 40 token token running completed
    done_record []).
  - exact (run_start_wf [Admit alice one hash 10 token; MarkRunning alice one 20 token]).
  - vm_compute. reflexivity.
  - constructor.
Defined.

Lemma admission_forgets_only_terminal_witness :
  records (fst (admit_command alice two hash 40 token completed)) !! CommandKey.mk alice one
    = None /\
  is_terminal (stored_state (StoredCommand.mk done_record (Some 30) 3)) = true.
Proof.
  split; [vm_compute; reflexivity |].
  apply (admission_forgets_only_terminal alice two hash 40 token completed
    (fst (admit_command alice two hash 40 token completed))
    (AdmittedNew (CommandRecord.mk alice two token hash Accepted 40 40))
    (CommandKey.mk alice one)).
  - exact (run_start_wf [Admit alice one hash 10 token; MarkRunning alice one 20 token;
      Complete alice one 42 30 token]).
  - vm_compute. reflexivity.
  - vm_compute. reflexivity.
  - vm_compute. reflexivity.
Defined.

End LedgerWitness.
