(* ===== verification/Events.v ===== *)
(** * Global event sequencing and replay retention

    Models [xenoteer-core/src/coordinator/event_hub.rs].  The hub assigns the global
    sequence numbers of a generation and retains a bounded suffix of the events for
    reconnecting clients.  Its specification is an unbounded log ([EventLog]): the
    hub retains the longest suffix of the whole history that meets both limits, and
    a replay is exactly the part of the history after the requested number, or an
    explicit request to resynchronise. *)

From stdpp Require Import base numbers list option.
From Stdlib Require Import Lia.
From S2P Require Import Prelude.
From S2P Require Import Identity.

Local Open Scope N_scope.

Inductive EventHubError :=
  | HubInvalidLimits
  | HubWrongDesktop
  | HubStaleGeneration
  | HubZeroEncodedSize
  | HubLiveEventTooLarge
  | HubSequenceExhausted
  | HubInvariantViolation.

(** ** [EventHubLimits] *)
Module EventHubLimits.

Record t := mk { maximum_events : N; maximum_encoded_bytes : N }.

(** [EventHubLimits::new]. *)
Definition new (maximum_events maximum_encoded_bytes : N) : result t EventHubError :=
  if decide (maximum_events = 0 \/ maximum_encoded_bytes = 0) then Err HubInvalidLimits
  else Ok (mk maximum_events maximum_encoded_bytes).

(** [DEFAULT_REPLAY_EVENT_LIMIT], [DEFAULT_REPLAY_BYTE_LIMIT]. *)
Definition default : t := mk 10000 (16 * 1024 * 1024).

End EventHubLimits.

(** [EventRecord<E>]. *)
Module EventRecord.
Section Record.
  Context {E : Type}.
Record t := mk {
  generation : GenerationToken.t;
  sequence : N;
  encoded_size : N;
  event : E
}.
End Record.
Arguments t E : clear implicits.
End EventRecord.

(** [PublishOutcome]. *)
Module PublishOutcome.
Record t := mk {
  sequence : N;
  retained : bool;
  evicted_events : N;
  dropped_through : N
}.
End PublishOutcome.

Inductive ReplayFailure :=
  | GenerationChanged
  | HistoryLost
  | SequenceAhead.

(** [ReplayResult<E>]. *)
Inductive ReplayResult (E : Type) :=
  | ReplayEvents (since_sequence latest_sequence : N) (events : list (EventRecord.t E))
  | ResyncRequired (reason : ReplayFailure) (current_generation : GenerationToken.t)
      (dropped_through latest_sequence : N).
Arguments ReplayEvents {E} since_sequence latest_sequence events.
Arguments ResyncRequired {E} reason current_generation dropped_through latest_sequence.

(** ** [EventHub] *)
Module EventHub.
Section Hub.
  Context {E : Type}.

Record t := mk {
  desktop_id : DesktopId;
  generation : GenerationToken.t;
  limits : EventHubLimits.t;
  retained : list (EventRecord.t E);
  retained_bytes : N;
  latest_sequence : N;
  dropped_through : N
}.

Definition set_retained (v : list (EventRecord.t E)) (h : t) : t :=
  mk (desktop_id h) (generation h) (limits h) v (retained_bytes h) (latest_sequence h)
    (dropped_through h).
Definition set_retained_bytes (v : N) (h : t) : t :=
  mk (desktop_id h) (generation h) (limits h) (retained h) v (latest_sequence h)
    (dropped_through h).
Definition set_latest_sequence (v : N) (h : t) : t :=
  mk (desktop_id h) (generation h) (limits h) (retained h) (retained_bytes h) v
    (dropped_through h).
Definition set_dropped_through (v : N) (h : t) : t :=
  mk (desktop_id h) (generation h) (limits h) (retained h) (retained_bytes h)
    (latest_sequence h) v.

Arguments set_retained v h /.
Arguments set_retained_bytes v h /.
Arguments set_latest_sequence v h /.
Arguments set_dropped_through v h /.

(** [EventHub::new]. *)
Definition new (desktop : DesktopId) (generation : GenerationToken.t)
    (limits : EventHubLimits.t) : result t EventHubError :=
  if decide (GenerationToken.desktop_id generation <> desktop) then Err HubWrongDesktop
  else Ok (mk desktop generation limits [] 0 0 0).

(** [EventHub::validate_generation]. *)
Definition validate_generation (supplied : GenerationToken.t) : M t EventHubError unit :=
  self <- get ;;
  reject_if (GenerationToken.desktop_id supplied <> desktop_id self) HubWrongDesktop ;;;
  reject_if (supplied <> generation self) HubStaleGeneration.

(** The eviction loop of [publish], by recursion on the retained queue: [self.retained]
    is the argument [queue], the other fields are those of the state. *)
Fixpoint make_room (encoded_size : N) (queue : list (EventRecord.t E)) (evicted_events : N) :
    M t EventHubError N :=
  fun self =>
    if decide (EventHubLimits.maximum_events (limits self) <= len queue \/
               EventHubLimits.maximum_encoded_bytes (limits self) - encoded_size
                 < retained_bytes self) then
      match queue with
      | [] => (set_retained [] self, Err HubInvariantViolation)
      | evicted :: queue =>
          match checked_sub_u64 (retained_bytes self) (EventRecord.encoded_size evicted) with
          | None => (set_retained queue self, Err HubInvariantViolation)
          | Some bytes =>
              make_room encoded_size queue (evicted_events + 1)
                (set_dropped_through
                   (N.max (dropped_through self) (EventRecord.sequence evicted))
                   (set_retained_bytes bytes self))
          end
      end
    else (set_retained queue self, Ok evicted_events).

(** [EventHub::publish]. *)
Definition publish (event : E) (encoded_size : N) (g : GenerationToken.t) :
    M t EventHubError PublishOutcome.t :=
  validate_generation g ;;;
  reject_if (encoded_size = 0) HubZeroEncodedSize ;;;
  self <- get ;;
  sequence <- lift (ok_or (checked_add_u64 (latest_sequence self) 1) HubSequenceExhausted) ;;
  modify (set_latest_sequence sequence) ;;;
  if decide (EventHubLimits.maximum_encoded_bytes (limits self) < encoded_size) then
    let evicted_events := len (retained self) in
    modify (fun self =>
      set_dropped_through sequence (set_retained_bytes 0 (set_retained [] self))) ;;;
    ret (PublishOutcome.mk sequence false evicted_events sequence)
  else
    evicted_events <- make_room encoded_size (retained self) 0 ;;
    self <- get ;;
    bytes <- lift (ok_or (checked_add_u64 (retained_bytes self) encoded_size)
                     HubInvariantViolation) ;;
    modify (set_retained_bytes bytes) ;;;
    modify (fun self => set_retained
      (retained self ++ [EventRecord.mk g sequence encoded_size event]) self) ;;;
    self <- get ;;
    ret (PublishOutcome.mk sequence true evicted_events (dropped_through self)).

(** [EventHub::resync]. *)
Definition resync (self : t) (reason : ReplayFailure) : ReplayResult E :=
  ResyncRequired reason (generation self) (dropped_through self) (latest_sequence self).

(** [EventHub::replay_since]. *)
Definition replay_since (self : t) (g : GenerationToken.t) (since_sequence : N) :
    ReplayResult E :=
  if decide (g <> generation self) then resync self GenerationChanged
  else if decide (latest_sequence self < since_sequence) then resync self SequenceAhead
  else if decide (since_sequence < dropped_through self) then resync self HistoryLost
  else ReplayEvents since_sequence (latest_sequence self)
    (filter (fun record => since_sequence < EventRecord.sequence record) (retained self)).

(** [EventHub::rotate_generation]; the number of invalidated events. *)
Definition rotate_generation (g : GenerationToken.t) : M t EventHubError N :=
  self <- get ;;
  reject_if (GenerationToken.desktop_id g <> desktop_id self) HubWrongDesktop ;;;
  reject_if (GenerationToken.epoch g <= GenerationToken.epoch (generation self) \/
             GenerationToken.generation g = GenerationToken.generation (generation self))
    HubStaleGeneration ;;;
  let invalidated := len (retained self) in
  modify (fun self => mk (desktop_id self) g (limits self) [] 0 0 0) ;;;
  ret invalidated.

End Hub.
Arguments t E : clear implicits.
End EventHub.

(** ** The specification: an unbounded log *)
Module EventLog.
Section Log.
  Context {E : Type}.
  Implicit Types (h : list (EventRecord.t E)).

(** The state is the generation and everything published in it. *)
Record t := mk {
  generation : GenerationToken.t;
  history : list (EventRecord.t E)
}.

Definition bytes h : N := sum_N (map EventRecord.encoded_size h).

Definition fits (limits : EventHubLimits.t) h : Prop :=
  len h <= EventHubLimits.maximum_events limits /\
  bytes h <= EventHubLimits.maximum_encoded_bytes limits.

#[export] Instance fits_dec limits h : Decision (fits limits h).
Proof. unfold fits. apply _. Defined.

(** The longest suffix that satisfies [P]. *)
Fixpoint longest_suffix (P : list (EventRecord.t E) -> Prop) `{!forall h, Decision (P h)} h :
    list (EventRecord.t E) :=
  if decide (P h) then h
  else match h with
       | [] => []
       | _ :: h => longest_suffix P h
       end.

(** What is retained of a history. *)
Definition retention (limits : EventHubLimits.t) h : list (EventRecord.t E) :=
  longest_suffix (fits limits) h.

(** Publication: the event is numbered by the length of the history. *)
Definition publish (desktop : DesktopId) (limits : EventHubLimits.t) (event : E)
    (encoded_size : N) (g : GenerationToken.t) (s : t) :
    t * result PublishOutcome.t EventHubError :=
  if decide (GenerationToken.desktop_id g <> desktop) then (s, Err HubWrongDesktop)
  else if decide (g <> generation s) then (s, Err HubStaleGeneration)
  else if decide (encoded_size = 0) then (s, Err HubZeroEncodedSize)
  else if decide (u64_max < len (history s) + 1) then (s, Err HubSequenceExhausted)
  else
    let sequence := len (history s) + 1 in
    let before := retention limits (history s) in
    let h := history s ++ [EventRecord.mk g sequence encoded_size event] in
    let kept := retention limits h in
    (mk g h,
     Ok (PublishOutcome.mk sequence (bool_decide (kept <> []))
       (len before + 1 - (if decide (kept = []) then 1 else len kept)) (len h - len kept))).

(** A replay: everything after the number, if all of it is still retained. *)
Definition replay (limits : EventHubLimits.t) (g : GenerationToken.t) (since : N) (s : t) :
    option (list (EventRecord.t E)) :=
  if decide (g = generation s /\ since <= len (history s) /\
             len (history s) <= since + len (retention limits (history s)))
  then Some (drop (N.to_nat since) (history s))
  else None.

(** *** Longest suffixes *)
Section Suffix.
  Context (P : list (EventRecord.t E) -> Prop) `{!forall h, Decision (P h)}.

Lemma longest_suffix_drop h :
  longest_suffix P h = drop (length h - length (longest_suffix P h)) h /\
  (length (longest_suffix P h) <= length h)%nat.
Proof.
  induction h as [|x h [IH Hle]]; simpl; [by case_decide |].
  case_decide; simpl; [by rewrite Nat.sub_diag |].
  split; [| lia]. rewrite Nat.sub_succ_l by done. done.
Qed.

Lemma longest_suffix_sat h : P [] -> P (longest_suffix P h).
Proof. intros Hnil. induction h as [|x h IH]; simpl; by case_decide. Qed.

(** The part of the list that is cut off is needed by nothing longer. *)
Lemma longest_suffix_maximal h k :
  P (drop k h) -> (length (drop k h) <= length (longest_suffix P h))%nat.
Proof.
  revert k. induction h as [|x h IH]; intros k Hk; simpl.
  { rewrite drop_nil. simpl. lia. }
  case_decide as Hx; [rewrite length_drop; simpl; lia |].
  destruct k as [|k]; [done |]. by apply IH.
Qed.

Lemma longest_suffix_snoc x h :
  P [x] -> longest_suffix P (h ++ [x]) = longest_suffix (fun q => P (q ++ [x])) h ++ [x].
Proof.
  intros Hx. induction h as [|y h IH]; simpl; [rewrite decide_True by done; by case_decide |].
  case_decide; [done |]. exact IH.
Qed.

Lemma longest_suffix_none x h :
  (forall q, ~ P (q ++ [x])) -> longest_suffix P (h ++ [x]) = [].
Proof.
  intros Hx. induction h as [|y h IH]; simpl.
  - rewrite (decide_False (P := P [x])) by exact (Hx []). by case_decide.
  - by rewrite (decide_False (P := P (y :: h ++ [x]))) by exact (Hx (y :: h)).
Qed.

Lemma longest_suffix_compose (Q : list (EventRecord.t E) -> Prop) `{!forall h, Decision (Q h)} h :
  (forall q, Q q -> P q) -> longest_suffix Q (longest_suffix P h) = longest_suffix Q h.
Proof.
  intros HQ. induction h as [|y h IH]; simpl; [by case_decide |].
  case_decide as Hp; [done |]. rewrite IH, (decide_False (P := Q (y :: h))); auto.
Qed.

End Suffix.

(** A publication neither starts nor ends a generation. *)
Lemma publish_generation desktop limits event size g (s : t) :
  generation (fst (publish desktop limits event size g s)) = generation s.
Proof. unfold publish. by repeat (case_decide; simpl). Qed.

Lemma bytes_snoc h x : bytes (h ++ [x]) = bytes h + EventRecord.encoded_size x.
Proof. unfold bytes. rewrite map_app, sum_N_app. simpl. lia. Qed.

Lemma bytes_cons x h : bytes (x :: h) = EventRecord.encoded_size x + bytes h.
Proof. done. Qed.

Lemma fits_snoc limits h x : fits limits (h ++ [x]) -> fits limits h.
Proof. unfold fits. rewrite bytes_snoc, len_app. intros []. lia. Qed.

Lemma retention_fits limits h : fits limits (retention limits h).
Proof. unfold retention. apply (longest_suffix_sat (fits limits)). split; apply N.le_0_l. Qed.

Lemma retention_len limits h : len (retention limits h) <= len h.
Proof. unfold len. destruct (longest_suffix_drop (fits limits) h). unfold retention. lia. Qed.

(** The retained history as a suffix of the whole one. *)
Lemma retention_drop limits h :
  retention limits h = drop (N.to_nat (len h - len (retention limits h))) h.
Proof.
  destruct (longest_suffix_drop (fits limits) h) as [Heq Hle]. unfold retention, len in *.
  rewrite Heq at 1. f_equal. lia.
Qed.

Lemma retention_numbered limits h :
  numbered EventRecord.sequence 1 h ->
  numbered EventRecord.sequence (len h - len (retention limits h) + 1) (retention limits h).
Proof.
  intros Hn. apply (numbered_drop _ _ _ (N.to_nat (len h - len (retention limits h)))) in Hn.
  rewrite <- retention_drop in Hn.
  replace (len h - len (retention limits h) + 1)
    with (1 + N.of_nat (N.to_nat (len h - len (retention limits h)))) by lia. done.
Qed.

(** A new event that can be retained evicts from the retained part only. *)
Lemma retention_snoc limits h x :
  1 <= EventHubLimits.maximum_events limits ->
  EventRecord.encoded_size x <= EventHubLimits.maximum_encoded_bytes limits ->
  retention limits (h ++ [x]) =
    longest_suffix (fun q => fits limits (q ++ [x])) (retention limits h) ++ [x].
Proof.
  intros He Hb. unfold retention. rewrite longest_suffix_snoc.
  - rewrite longest_suffix_compose; [done |]. intros q. apply fits_snoc.
  - split; [done |]. unfold bytes. simpl. lia.
Qed.

Lemma retention_oversize limits h x :
  EventHubLimits.maximum_encoded_bytes limits < EventRecord.encoded_size x ->
  retention limits (h ++ [x]) = [].
Proof.
  intros Hb. apply longest_suffix_none. intros q [_ Hq]. rewrite bytes_snoc in Hq. lia.
Qed.

End Log.
Arguments t E : clear implicits.
End EventLog.

(** ** The refinement *)
Module HubRefinement.
Import EventHub.
Section Refinement.
  Context {E : Type}.
  Implicit Types (hub : EventHub.t E) (s : EventLog.t E).

(** The hub stores exactly what the specification retains, and the numbers that
    describe the rest. *)
Definition refines hub s : Prop :=
  let h := EventLog.history s in
  GenerationToken.desktop_id (generation hub) = desktop_id hub /\
  1 <= EventHubLimits.maximum_events (limits hub) /\
  1 <= EventHubLimits.maximum_encoded_bytes (limits hub) <= u64_max /\
  EventLog.generation s = generation hub /\
  numbered EventRecord.sequence 1 h /\
  Forall (fun r => EventRecord.generation r = generation hub) h /\
  retained hub = EventLog.retention (limits hub) h /\
  retained_bytes hub = EventLog.bytes (retained hub) /\
  latest_sequence hub = len h /\ len h <= u64_max /\
  dropped_through hub = len h - len (retained hub).

Lemma new_refines d g lim hub :
  EventHub.new d g lim = Ok hub ->
  1 <= EventHubLimits.maximum_events lim ->
  1 <= EventHubLimits.maximum_encoded_bytes lim <= u64_max ->
  refines hub (EventLog.mk g []).
Proof.
  unfold EventHub.new. intros H He Hb. run_case H. unfold refines. simpl.
  split_and!; try done; try lia.
  - by apply dec_stable.
  - unfold EventLog.retention. simpl. by case_decide.
Qed.

(** The eviction loop computes the longest suffix with room for the new event, and
    accounts for what it evicts. *)
Lemma make_room_spec (x : EventRecord.t E) queue d evicted hub :
  let lim := limits hub in
  let size := EventRecord.encoded_size x in
  1 <= EventHubLimits.maximum_events lim ->
  size <= EventHubLimits.maximum_encoded_bytes lim ->
  retained_bytes hub = EventLog.bytes queue ->
  numbered EventRecord.sequence (d + 1) queue ->
  dropped_through hub = d ->
  let kept := EventLog.longest_suffix (fun q => EventLog.fits lim (q ++ [x])) queue in
  make_room size queue evicted hub =
    (mk (desktop_id hub) (generation hub) lim kept (EventLog.bytes kept)
       (latest_sequence hub) (d + (len queue - len kept)),
     Ok (evicted + (len queue - len kept))).
Proof.
  intros lim size He Hs. revert d evicted hub lim He Hs.
  induction queue as [|r queue IH]; intros d evicted hub lim He Hs Hbytes Hnum Hd kept.
  - destruct hub as [de g li rt b la dr]. simpl in *. subst.
    subst lim. rewrite decide_False by (change (EventLog.bytes []) with 0; rewrite len_nil; lia).
    assert (kept = []) as -> by (unfold kept; by case_decide).
    change (len []) with 0. by rewrite N.sub_diag, !N.add_0_r.
  - assert (EventLog.fits lim ((r :: queue) ++ [x]) <->
      ~ (EventHubLimits.maximum_events lim <= len (r :: queue) \/
         EventHubLimits.maximum_encoded_bytes lim - size < retained_bytes hub)) as Hiff.
    { unfold EventLog.fits. rewrite EventLog.bytes_snoc, len_app, <- Hbytes.
      fold size. change (len [x]) with 1. split; lia. }
    unfold kept. clear kept. simpl. case_decide as Hc; case_decide as Hf; try tauto.
    + apply numbered_cons in Hnum as [Hr Hnum]. rewrite EventLog.bytes_cons in Hbytes.
      replace (checked_sub_u64 _ _) with (Some (EventLog.bytes queue))
        by (symmetry; apply checked_sub_u64_Some; lia).
      rewrite (IH (d + 1)); simpl; try done; [| lia].
      pose proof (EventLog.longest_suffix_drop
        (fun q => EventLog.fits lim (q ++ [x])) queue) as [_ Hle].
      rewrite len_cons. unfold lim, len in *. f_equal; f_equal; lia.
    + destruct hub as [de g li rt b la dr]. simpl in *. subst.
      rewrite N.sub_diag, !N.add_0_r. done.
Qed.

Lemma validate_cases g hub :
  validate_generation g hub =
    (hub, if decide (GenerationToken.desktop_id g <> desktop_id hub) then Err HubWrongDesktop
          else if decide (g <> generation hub) then Err HubStaleGeneration else Ok tt).
Proof. unfold validate_generation. simpl. by repeat (case_decide; simpl). Qed.

Lemma bytes_le_max lim (h : list (EventRecord.t E)) : EventLog.fits lim h ->
  EventLog.bytes h <= EventHubLimits.maximum_encoded_bytes lim.
Proof. by intros []. Qed.

(** Publication refines the specification: same outcome, related states. *)
Lemma publish_refines event size g hub s :
  refines hub s ->
  let '(hub', r) := publish event size g hub in
  let '(s', r') := EventLog.publish (desktop_id hub) (limits hub) event size g s in
  r = r' /\ refines hub' s' /\ desktop_id hub' = desktop_id hub /\ limits hub' = limits hub.
Proof.
  intros Href. pose proof Href as
    (Hd & He & Hb & Hg & Hnum & Hgen & Hret & Hby & Hlat & Hmax & Hdrop).
  unfold publish, EventLog.publish. simpl. rewrite validate_cases, Hg.
  case_decide; simpl; [done |]. case_decide; simpl; [done |]. case_decide; simpl; [done |].
  rewrite Hlat. destruct (decide (u64_max < len (EventLog.history s) + 1)) as [Hover | Hover].
  { replace (checked_add_u64 _ _) with (@None N)
      by (symmetry; by apply checked_add_u64_None). done. }
  replace (checked_add_u64 _ _) with (Some (len (EventLog.history s) + 1))
    by (symmetry; apply checked_add_u64_Some; split; [done | lia]). simpl.
  set (h := EventLog.history s) in *. set (sequence := len h + 1).
  set (x := EventRecord.mk g sequence size event).
  assert (g = generation hub) as -> by done.
  assert (numbered EventRecord.sequence 1 (h ++ [x])) as Hnum'
    by (apply numbered_snoc; [done | unfold x; simpl; lia]).
  assert (len (h ++ [x]) = sequence) as Hlen by by rewrite len_app.
  assert (Forall (fun r => EventRecord.generation r = generation hub) (h ++ [x])) as Hgen'
    by (apply Forall_app; split; [done | by constructor]).
  case_decide as Hsize; simpl.
  - pose proof (EventLog.retention_oversize (limits hub) h x Hsize) as Hnil.
    rewrite Hret, Hnil, Hlen. split.
    { f_equal. rewrite bool_decide_false by (intros Hn; by apply Hn).
      rewrite decide_True by done. f_equal; [| rewrite len_nil]; lia. }
    unfold refines. simpl. rewrite Hnil, Hlen.
    split_and!; try done; try lia. rewrite len_nil. lia.
  - assert (EventRecord.encoded_size x <= EventHubLimits.maximum_encoded_bytes (limits hub))
      as Hfit by (unfold x; simpl; lia).
    rewrite (make_room_spec x (retained hub) (dropped_through hub)); try done.
    2: { rewrite Hdrop, Hret. by apply EventLog.retention_numbered. }
    change (limits (set_latest_sequence sequence hub)) with (limits hub).
    pose proof (EventLog.retention_snoc (limits hub) h x He Hfit) as Hsnoc.
    rewrite <- Hret in Hsnoc.
    pose proof (EventLog.longest_suffix_drop (fun q => EventLog.fits (limits hub) (q ++ [x]))
      (retained hub)) as [_ Hkr].
    set (kept := EventLog.longest_suffix _ _) in *. clearbody kept.
    pose proof (EventLog.retention_fits (limits hub) (h ++ [x])) as Hfits.
    rewrite Hsnoc in Hfits. apply bytes_le_max in Hfits as Hkb.
    rewrite EventLog.bytes_snoc in Hkb. simpl in Hkb. simpl.
    replace (checked_add_u64 _ _) with (Some (EventLog.bytes kept + size))
      by (symmetry; apply checked_add_u64_Some; split; [done | lia]). simpl.
    rewrite Hsnoc, Hlen.
    pose proof (EventLog.retention_len (limits hub) h) as Hrl. rewrite <- Hret in Hrl.
    assert (len kept <= len (retained hub)) as Hkl by (unfold len; lia).
    split.
    { rewrite <- Hret, bool_decide_true by (by destruct kept).
      rewrite decide_False by (by destruct kept).
      rewrite len_app. change (len [x]) with 1. unfold sequence. f_equal; f_equal; lia. }
    unfold refines. simpl. fold x. rewrite Hsnoc, Hlen, EventLog.bytes_snoc, len_app.
    change (len [x]) with 1. unfold sequence. split_and!; try done; lia.
Qed.

Lemma hub_rotate_cases g (hub : EventHub.t E) :
  (exists e, rotate_generation g hub = (hub, Err e) /\ e <> HubInvariantViolation /\
    ~ rotation_allowed (desktop_id hub) (generation hub) g) \/
  (rotate_generation g hub = (mk (desktop_id hub) g (limits hub) [] 0 0 0,
      Ok (len (retained hub))) /\
    rotation_allowed (desktop_id hub) (generation hub) g).
Proof.
  unfold rotate_generation, rotation_allowed. simpl.
  case_decide as Hd; simpl; [left; eexists; split_and!; naive_solver |].
  case_decide as Hg; simpl.
  - left. eexists. split_and!; [done | done |]. intros (_ & ? & ?). destruct Hg; [lia | done].
  - right. split; [done |]. split; [done |]. split; [| tauto].
    destruct (decide (GenerationToken.epoch (generation hub) < GenerationToken.epoch g));
      [done |]. destruct Hg. left. lia.
Qed.

(** A successful rotation restarts the log. *)
Lemma rotate_refines g hub s :
  refines hub s ->
  let hub' := fst (rotate_generation g hub) in
  refines hub' (if decide (rotation_allowed (desktop_id hub) (generation hub) g)
                then EventLog.mk g [] else s) /\
  desktop_id hub' = desktop_id hub /\ limits hub' = limits hub.
Proof.
  intros Href. destruct (hub_rotate_cases g hub) as [(e & -> & _ & Hn) | (-> & Ha)]; simpl.
  - by rewrite decide_False.
  - rewrite decide_True by done. destruct Ha as (Hd & _).
    destruct Href as (_ & He & Hb & _). split_and!; try done.
    apply (new_refines (desktop_id hub) g (limits hub)); try done.
    unfold new. by rewrite decide_False by (intros Hn; by apply Hn).
Qed.

End Refinement.
End HubRefinement.

(** ** Sequences of operations *)
Module HubTrace.
Import EventHub HubRefinement.
Section Trace.
  Context {E : Type}.
  Implicit Types (hub : EventHub.t E) (s : EventLog.t E).

Inductive op :=
  | Publish (event : E) (encoded_size : N) (g : GenerationToken.t)
  | Rotate (g : GenerationToken.t).

(** What a publication answered; a rotation has no outcome to compare. *)
Definition outcome : Type := option (result PublishOutcome.t EventHubError).

Definition apply (o : op) hub : EventHub.t E * outcome :=
  match o with
  | Publish event size g => let '(hub', r) := publish event size g hub in (hub', Some r)
  | Rotate g => (fst (rotate_generation g hub), None)
  end.

(** The same operation on the specification. *)
Definition spec_apply (d : DesktopId) (lim : EventHubLimits.t) (o : op) s :
    EventLog.t E * outcome :=
  match o with
  | Publish event size g =>
      let '(s', r) := EventLog.publish d lim event size g s in (s', Some r)
  | Rotate g =>
      (if decide (rotation_allowed d (EventLog.generation s) g) then EventLog.mk g [] else s,
       None)
  end.

Fixpoint run (ops : list op) hub : EventHub.t E * list outcome :=
  match ops with
  | [] => (hub, [])
  | o :: ops =>
      let '(hub', r) := apply o hub in
      let '(hub'', rs) := run ops hub' in (hub'', r :: rs)
  end.

Fixpoint spec_run (d : DesktopId) (lim : EventHubLimits.t) (ops : list op) s :
    EventLog.t E * list outcome :=
  match ops with
  | [] => (s, [])
  | o :: ops =>
      let '(s', r) := spec_apply d lim o s in
      let '(s'', rs) := spec_run d lim ops s' in (s'', r :: rs)
  end.

Lemma apply_refines o hub s :
  refines hub s ->
  let '(hub', r) := apply o hub in
  let '(s', r') := spec_apply (desktop_id hub) (limits hub) o s in
  r = r' /\ refines hub' s' /\ desktop_id hub' = desktop_id hub /\ limits hub' = limits hub.
Proof.
  intros Href. destruct o as [event size g | g]; simpl.
  - pose proof (publish_refines event size g hub s Href) as H.
    destruct (publish event size g hub), (EventLog.publish _ _ _ _ _ _).
    by destruct H as (-> & ?).
  - pose proof (rotate_refines g hub s Href) as H. simpl in H.
    destruct Href as (_ & _ & _ & -> & _). by split.
Qed.

Lemma run_refines ops hub s :
  refines hub s ->
  let '(hub', rs) := run ops hub in
  let '(s', rs') := spec_run (desktop_id hub) (limits hub) ops s in
  rs = rs' /\ refines hub' s' /\ limits hub' = limits hub.
Proof.
  revert hub s. induction ops as [|o ops IH]; intros hub s Href; simpl; [done |].
  pose proof (apply_refines o hub s Href) as H.
  destruct (apply o hub) as [hub' r], (spec_apply _ _ o s) as [s' r'].
  destruct H as (-> & Href' & Hd & Hl). specialize (IH hub' s' Href').
  rewrite Hd, Hl in IH.
  destruct (run ops hub') as [hub'' rs], (spec_run _ _ ops s') as [s'' rs'].
  by destruct IH as (-> & ? & ->).
Qed.

End Trace.
Arguments op E : clear implicits.
End HubTrace.

(** ** The hub as a generation-fenced component *)
#[export] Instance hub_fenced {E} : Fenced (EventHub.t E) EventHubError N := {
  fenced_desktop := EventHub.desktop_id;
  fenced_token := EventHub.generation;
  fenced_rotate := EventHub.rotate_generation;
}.

#[export] Instance hub_fenced_laws {E} : FencedLaws (EventHub.t E) EventHubError N.
Proof.
  constructor; intros h g H; simpl in *;
    destruct (HubRefinement.hub_rotate_cases g h) as [(e & -> & _ & Hn) | (-> & Ha)];
    done || eauto 10.
Qed.

(** ** Properties *)
Section HubProperties.
Import EventHub HubRefinement HubTrace.
Context {E : Type}.
Implicit Types (hub : EventHub.t E).

Lemma new_valid_refines maximum_events maximum_bytes lim d g hub :
  EventHubLimits.new maximum_events maximum_bytes = Ok lim -> maximum_bytes <= u64_max ->
  EventHub.new d g lim = Ok hub ->
  refines hub (EventLog.mk g []) /\ desktop_id hub = d /\ limits hub = lim.
Proof.
  unfold EventHubLimits.new. intros Hlim Hmax Hhub. run_case Hlim.
  split; [apply (new_refines d _ (EventHubLimits.mk maximum_events maximum_bytes));
    [done | simpl; lia ..] |].
  unfold EventHub.new in Hhub. by run_case Hhub.
Qed.

(** C25: the hub refines an unbounded log.  Over any sequence of publications and
    rotations from construction, every publication has exactly the outcome of the
    specification (number, retention, evictions, discontinuity, or error), and what
    the hub retains is the longest suffix of the complete history that meets both
    limits. *)
Theorem hub_refines_unbounded_log (maximum_events maximum_bytes : N)
    (lim : EventHubLimits.t) (d : DesktopId) (g : GenerationToken.t) hub (ops : list (op E)) :
  EventHubLimits.new maximum_events maximum_bytes = Ok lim -> maximum_bytes <= u64_max ->
  EventHub.new d g lim = Ok hub ->
  let '(hub', outcomes) := run ops hub in
  let '(s', outcomes') := spec_run d lim ops (EventLog.mk g []) in
  outcomes = outcomes' /\
  retained hub' = EventLog.retention lim (EventLog.history s') /\
  latest_sequence hub' = len (EventLog.history s').
Proof.
  intros Hlim Hmax Hhub.
  destruct (new_valid_refines _ _ _ _ _ _ Hlim Hmax Hhub) as (Href & <- & <-).
  pose proof (run_refines ops hub _ Href) as H.
  destruct (run ops hub) as [hub' rs], (spec_run _ _ ops _) as [s' rs'].
  destruct H as (-> & (_ & _ & _ & _ & _ & _ & Hret & _ & Hlat & _) & Hl).
  by rewrite Hret, Hlat, Hl.
Qed.

(** Replay is complete or refused.  After any sequence of operations, for every
    token and sequence number, [replay_since] answers with events exactly when the
    token is current, the number was assigned and nothing after it has left
    retention; the events are then all those published after it in this generation,
    in order, none missing and none duplicated. *)
Theorem replay_complete_or_refused (maximum_events maximum_bytes : N)
    (lim : EventHubLimits.t) (d : DesktopId) (g : GenerationToken.t) hub (ops : list (op E))
    (supplied : GenerationToken.t) (since : N) :
  EventHubLimits.new maximum_events maximum_bytes = Ok lim -> maximum_bytes <= u64_max ->
  EventHub.new d g lim = Ok hub ->
  let s := fst (spec_run d lim ops (EventLog.mk g [])) in
  match replay_since (fst (run ops hub)) supplied since with
  | ReplayEvents since' latest events =>
      since' = since /\ latest = len (EventLog.history s) /\
      EventLog.replay lim supplied since s = Some events
  | ResyncRequired _ current _ latest =>
      current = EventLog.generation s /\ latest = len (EventLog.history s) /\
      EventLog.replay lim supplied since s = None
  end.
Proof.
  intros Hlim Hmax Hhub.
  destruct (new_valid_refines _ _ _ _ _ _ Hlim Hmax Hhub) as (Href & <- & <-).
  pose proof (run_refines ops hub _ Href) as H.
  destruct (run ops hub) as [h rs], (spec_run _ _ ops _) as [s rs'].
  destruct H as (_ & (_ & _ & _ & Hg & Hnum & _ & Hret & _ & Hlat & _ & Hdrop) & Hl). simpl.
  rewrite <- Hl.
  pose proof (EventLog.retention_len (limits h) (EventLog.history s)) as Hle.
  rewrite <- Hret in Hle.
  unfold replay_since, resync, EventLog.replay. rewrite Hg, Hdrop, Hlat, <- Hret.
  repeat case_decide; try (by split_and!); try (exfalso; naive_solver lia).
  split_and!; [done | done |]. f_equal.
  rewrite Hret, EventLog.retention_drop, <- Hret, (numbered_filter_gt _
    (1 + N.of_nat (N.to_nat (len (EventLog.history s) - len (retained h))))).
  - rewrite drop_drop. f_equal. lia.
  - by apply numbered_drop.
Qed.

(** Bounded retention with exact accounting.  After any sequence of operations
    the retained events are within both limits, the byte counter is their exact
    total, retained and dropped numbers add up to the latest one, and no publication
    ever answered [InvariantViolation]. *)
Theorem hub_retention_bounded (maximum_events maximum_bytes : N)
    (lim : EventHubLimits.t) (d : DesktopId) (g : GenerationToken.t) hub (ops : list (op E)) :
  EventHubLimits.new maximum_events maximum_bytes = Ok lim -> maximum_bytes <= u64_max ->
  EventHub.new d g lim = Ok hub ->
  let h := fst (run ops hub) in
  len (retained h) <= maximum_events /\
  retained_bytes h = sum_N (map EventRecord.encoded_size (retained h)) /\
  retained_bytes h <= maximum_bytes /\
  dropped_through h + len (retained h) = latest_sequence h /\
  Some (Err HubInvariantViolation) ∉ snd (run ops hub).
Proof.
  intros Hlim Hmax Hhub.
  destruct (new_valid_refines _ _ _ _ _ _ Hlim Hmax Hhub) as (Href & <- & Hll).
  assert (lim = EventHubLimits.mk maximum_events maximum_bytes) as ->
    by (unfold EventHubLimits.new in Hlim; by run_case Hlim).
  pose proof (run_refines ops hub _ Href) as H.
  assert (forall ops s, Some (Err HubInvariantViolation)
      ∉ snd (spec_run (E:=E) (desktop_id hub) (limits hub) ops s)) as Hspec.
  { clear. induction ops as [|o ops IH]; intros s; simpl; [by apply not_elem_of_nil |].
    destruct (spec_apply _ _ o s) as [s' r] eqn:Ha. specialize (IH s').
    destruct (spec_run _ _ ops s') as [s'' rs]. simpl in *.
    intros [<- | Hin]%elem_of_cons; [| done].
    destruct o; simpl in Ha; [| done]. unfold EventLog.publish in Ha.
    repeat (case_decide; simplify_eq/=). }
  specialize (Hspec ops (EventLog.mk g [])).
  destruct (run ops hub) as [h rs], (spec_run _ _ ops _) as [s rs'].
  destruct H as (-> & (_ & _ & _ & _ & _ & _ & Hret & Hby & Hlat & _ & Hdrop) & Hl). simpl.
  pose proof (EventLog.retention_fits (limits h) (EventLog.history s)) as [Hf1 Hf2].
  pose proof (EventLog.retention_len (limits h) (EventLog.history s)) as Hle.
  rewrite <- Hret, Hl, Hll in *. simpl in *. rewrite Hby.
  split_and!; try done. rewrite Hdrop, Hlat. lia.
Qed.

End HubProperties.

(** ** Witnesses *)
Module HubWitness.
Import EventHub HubTrace.

Definition desktop : DesktopId := mkDesktopId 7.
Definition token : GenerationToken.t :=
  GenerationToken.mk desktop (mkDesktopGeneration 1) 1.
Definition limits : EventHubLimits.t := EventHubLimits.mk 2 10.
Definition empty : EventHub.t N := mk desktop token limits [] 0 0 0.
Definition events : list (op N) :=
  [Publish 100 4 token; Publish 101 4 token; Publish 102 4 token; Publish 103 11 token;
   Publish 104 5 token].

Lemma hub_refines_unbounded_log_witness :
  retained (fst (run events empty)) = [EventRecord.mk token 5 5 104].
Proof.
  pose proof (hub_refines_unbounded_log 2 10 limits desktop token empty events
    eq_refl ltac:(vm_compute; congruence) eq_refl) as H.
  revert H. vm_compute. by intros (_ & ? & _).
Defined.

Lemma replay_complete_or_refused_witness :
  EventLog.replay limits token 4 (fst (spec_run desktop limits events (EventLog.mk token [])))
    = Some [EventRecord.mk token 5 5 104].
Proof.
  pose proof (replay_complete_or_refused 2 10 limits desktop token empty events token 4
    eq_refl ltac:(vm_compute; congruence) eq_refl) as H.
  revert H. vm_compute. by intros (_ & _ & ?).
Defined.

Lemma hub_retention_bounded_witness : len (retained (fst (run events empty))) <= 2.
Proof.
  apply (hub_retention_bounded 2 10 limits desktop token empty events);
    [reflexivity | vm_compute; congruence | reflexivity].
Defined.

End HubWitness.
