(* ===== verification/RuntimeTypes.v ===== *)
(** * The coordinator's data

    Models the types of [xenoteer-core/src/coordinator/runtime.rs]: execution
    outcomes and terminal results, settings, the actor's messages and the methods of
    [CoordinatorHandle] that build them, active commands, and the in-flight tasks.

    A [oneshot::Sender<T>] inside a message becomes the index of the type [Message]:
    a [Message A] is answered by an [A].  Instants and durations are nanoseconds. *)

From stdpp Require Import base numbers list option gmap strings.
From Stdlib Require Import Lia.
From S2P Require Import Prelude.
From S2P Require Import Identity.
From S2P Require Import Lease.
From S2P Require Import Ledger.
From S2P Require Import Events.

Local Open Scope N_scope.

(** ** Executions and their results *)

(** [CommandEffect]. *)
Inductive CommandEffect :=
  | BeforeEffect
  | AfterEffect.

(** [ExecutionStop]. *)
Inductive ExecutionStop :=
  | StopContinue
  | StopCancelled
  | StopDeadlineExceeded
  | StopGenerationChanged
  | StopShutdown.
#[export] Instance ExecutionStop_eq_dec : EqDecision ExecutionStop.
Proof. solve_decision. Defined.

(** [ExecutionOutcome<R>]. *)
Inductive ExecutionOutcome (R : Type) :=
  | Completed (output : R) (effect : CommandEffect)
  | AtomicCompleted (output : R) (effect : CommandEffect)
  | Stopped (effect : CommandEffect)
  | StoppedWithEvidence (output : R) (effect : CommandEffect).
Arguments Completed {R} output effect.
Arguments AtomicCompleted {R} output effect.
Arguments Stopped {R} effect.
Arguments StoppedWithEvidence {R} output effect.

(** [TerminalCause]. *)
Inductive TerminalCause :=
  | Returned
  | Cancelled
  | DeadlineExceeded
  | CauseGenerationChanged
  | CauseShutdown
  | UnexpectedStop
  | ExecutorPanicked.

(** [CommandTerminal<R>] and its constructors. *)
Module CommandTerminal.
Section Terminal.
  Context {R : Type}.

Record t := mk {
  cause : TerminalCause;
  effect : CommandEffect;
  output : option R
}.

Definition returned (output : R) (effect : CommandEffect) : t :=
  mk Returned effect (Some output).
Definition stopped (cause : TerminalCause) (effect : CommandEffect) : t :=
  mk cause effect None.
Definition stopped_with_evidence (cause : TerminalCause) (effect : CommandEffect)
    (output : R) : t :=
  mk cause effect (Some output).

End Terminal.
Arguments t R : clear implicits.
End CommandTerminal.

(** The lifecycle record the coordinator's ledger retains. *)
Abbreviation CoordinatorRecord R := (CommandRecord.t (CommandTerminal.t R)).

(** [terminal_cause]. *)
Definition terminal_cause (stop : ExecutionStop) : TerminalCause :=
  match stop with
  | StopContinue => UnexpectedStop
  | StopCancelled => Cancelled
  | StopDeadlineExceeded => DeadlineExceeded
  | StopGenerationChanged => CauseGenerationChanged
  | StopShutdown => CauseShutdown
  end.

(** [ExecutionContext]: [stop] is the watch channel's current value. *)
Module ExecutionContext.
Record t := mk {
  generation : GenerationToken.t;
  deadline : option N;
  stop : ExecutionStop
}.
End ExecutionContext.

(** [ResetRequest]. *)
Module ResetRequest.
Record t := mk {
  reset_epoch : N;
  lease : LeaseGrant.t;
  reason : RevocationReason;
  current_generation : GenerationToken.t
}.
End ResetRequest.

(** [ResetOutcome]. *)
Inductive ResetOutcome :=
  | ResetComplete
  | ResetFailed.

(** ** Errors *)
Inductive CoordinatorError :=
  | InvalidSettings
  | CommandCapacityExhausted
  | PrincipalCommandCapacityExhausted
  | Closed
  | DeadlineOverflow
  | GenerationError (e : GenerationFenceError)
  | LeaseErrorOf (e : LeaseError)
  | LedgerErrorOf (e : CommandLedgerError)
  | EventErrorOf (e : EventHubError).

(** ** Instants

    [std::time::Instant] is a [Timespec] of signed 64-bit seconds. *)
Definition instant_max : N := (2 ^ 63 - 1) * 1000000000 + 999999999.

(** [Instant::checked_add]. *)
Definition instant_checked_add (instant duration : N) : option N :=
  if decide (instant + duration <= instant_max) then Some (instant + duration) else None.

(** [CoordinatorTask::now_millis_at]: [origin] is the task's start. *)
Definition now_millis_at (origin instant : N) : MonotonicMillis.t :=
  N.min ((instant - origin) / 1000000) u64_max.

Lemma now_millis_at_mono origin i j : i <= j -> now_millis_at origin i <= now_millis_at origin j.
Proof.
  intros Hle. unfold now_millis_at.
  assert ((i - origin) / 1000000 <= (j - origin) / 1000000) by (apply N.Div0.div_le_mono; lia).
  lia.
Qed.

(** ** [CoordinatorSettings] *)
Module CoordinatorSettings.

Record t := mk {
  desktop_id : DesktopId;
  initial_generation : DesktopGeneration;
  mailbox_capacity : N;
  maximum_active_commands : N;
  maximum_active_per_principal : N;
  maximum_concurrent_executions : N;
  lease_policy : LeasePolicy.t;
  ledger_limits : CommandLedgerLimits.t;
  event_limits : EventHubLimits.t
}.

(** [CoordinatorSettings::new]. *)
Definition new (desktop_id : DesktopId) (initial_generation : DesktopGeneration)
    (mailbox_capacity maximum_active_commands maximum_active_per_principal
     maximum_concurrent_executions : N) (lease_policy : LeasePolicy.t)
    (ledger_limits : CommandLedgerLimits.t) (event_limits : EventHubLimits.t) :
    result t CoordinatorError :=
  if decide (mailbox_capacity = 0 \/ maximum_active_commands = 0 \/
             maximum_active_per_principal = 0 \/ maximum_concurrent_executions = 0 \/
             maximum_active_commands < maximum_active_per_principal \/
             maximum_active_commands < maximum_concurrent_executions)
  then Err InvalidSettings
  else Ok (mk desktop_id initial_generation mailbox_capacity maximum_active_commands
             maximum_active_per_principal maximum_concurrent_executions lease_policy
             ledger_limits event_limits).

End CoordinatorSettings.

(** ** Events of the command lifecycle *)

(** [CoordinatorEvent<E>]. *)
Module CoordinatorEvent.
Section Event.
  Context {E : Type}.
Record t := mk { event : E; encoded_size : N }.
End Event.
Arguments t E : clear implicits.
End CoordinatorEvent.

(** [trait CommandEventMapper<R, E>]. *)
Class CommandEventMapper (R E : Type) :=
  map_command_transition :
    PrincipalId.t -> CoordinatorRecord R -> list (CoordinatorEvent.t E).

(** [NoCommandEvents]: the mapper of [spawn_coordinator]. *)
Definition NoCommandEvents (R E : Type) : CommandEventMapper R E := fun _ _ => [].

(** ** Active commands *)

(** [ActiveKey], with its derived [Ord]. *)
Module ActiveKey.

Record t := mk {
  generation : GenerationToken.t;
  principal : PrincipalId.t;
  command_id : CommandId
}.

#[export] Instance eq_dec : EqDecision t.
Proof. solve_decision. Defined.
#[export] Instance countable : Countable t.
Proof.
  by apply (inj_countable' (fun k => (generation k, principal k, command_id k))
    (fun '(g, p, c) => mk g p c)); intros [].
Defined.

Definition cmp (a b : t) : comparison :=
  then_with (GenerationToken.cmp (generation a) (generation b))
    (then_with (PrincipalId.cmp (principal a) (principal b))
      (N.compare (command_uuid (command_id a)) (command_uuid (command_id b)))).

(** The identity under which the ledger files the command. *)
Definition ledger_key (k : t) : CommandKey.t := CommandKey.mk (principal k) (command_id k).

End ActiveKey.
Export (hints) ActiveKey.

(** [ActivePhase]. *)
Inductive ActivePhase :=
  | ActivePending
  | ActiveRunning.
#[export] Instance ActivePhase_eq_dec : EqDecision ActivePhase.
Proof. solve_decision. Defined.

(** [ActiveCommand<C, R>]: [stop] and [updates] are the current values of the watch
    channels. *)
Module ActiveCommand.
Section Active.
  Context {C R : Type}.

Record t := mk {
  command : option C;
  deadline : option N;
  phase : ActivePhase;
  stop : ExecutionStop;
  updates : CoordinatorRecord R;
  record : CoordinatorRecord R
}.

Definition set_stop (v : ExecutionStop) (a : t) : t :=
  mk (command a) (deadline a) (phase a) v (updates a) (record a).

(** [active.deadline.is_some_and(|deadline| deadline <= now)]. *)
Definition is_due (now : N) (a : t) : Prop :=
  match deadline a with Some d => d <= now | None => False end.

#[export] Instance is_due_dec now a : Decision (is_due now a).
Proof. unfold is_due. case_match; apply _. Defined.

(** [request_stop]: the first request wins. *)
Definition request_stop (reason : ExecutionStop) (a : t) : t :=
  if decide (stop a = StopContinue) then set_stop reason a else a.

End Active.
Arguments t C R : clear implicits.
End ActiveCommand.
Export (hints) ActiveCommand.

(** ** Messages *)

(** [LeaseRequirement]. *)
Inductive LeaseRequirement :=
  | LeaseNotRequired
  | LeaseRequired (lease_id : ControlLeaseId).

(** [CancelCommandOutcome]. *)
Inductive CancelCommandOutcome :=
  | CancelAccepted
  | CancelAlreadyTerminal
  | CancelNotFound.

(** [ResetRetryOutcome]. *)
Inductive ResetRetryOutcome :=
  | RetryStarted
  | RetryAlreadyRunning
  | RetryNotRequired.

(** A [watch::Receiver] of lifecycle records: subscribed to an active command's
    channel, or the receiver of a fresh channel holding a terminal record. *)
Inductive CommandWatch (R : Type) :=
  | WatchActive (key : ActiveKey.t)
  | WatchSettled (record : CoordinatorRecord R).
Arguments WatchActive {R} key.
Arguments WatchSettled {R} record.

(** [CommandSubmission<R>]. *)
Module CommandSubmission.
Section Submission.
  Context {R : Type}.
Record t := mk {
  admitted : bool;
  record : CoordinatorRecord R;
  updates : CommandWatch R
}.
End Submission.
Arguments t R : clear implicits.
End CommandSubmission.

(** [CommandAdmission<C>]. *)
Module CommandAdmission.
Section Admission.
  Context {C : Type}.
Record t := mk {
  principal : PrincipalId.t;
  command_id : CommandId;
  request_hash : CanonicalCommandHash;
  generation : GenerationToken.t;
  lease : LeaseRequirement;
  execute_within : option N;
  command : C
}.
End Admission.
Arguments t C : clear implicits.
End CommandAdmission.

(** [EventSubscription<E>]: [live] is the position in the fanout from which the
    receiver reads. *)
Module EventSubscription.
Section Subscription.
  Context {E : Type}.
Record t := mk { replay : ReplayResult E; live : nat }.
End Subscription.
Arguments t E : clear implicits.
End EventSubscription.

(** [Message<C, R, E>], indexed by the type of its reply. *)
Inductive Message (C R E : Type) : Type -> Type :=
  | Generation : Message C R E GenerationToken.t
  | LeaseSnapshotOf : Message C R E LeaseSnapshot
  | AcquireLease (owner : PrincipalId.t) (lease_id : ControlLeaseId) (ttl_ms : option N)
      (generation : GenerationToken.t) : Message C R E (result LeaseGrant.t CoordinatorError)
  | RenewLease (owner : PrincipalId.t) (lease_id : ControlLeaseId) (ttl_ms : option N)
      (generation : GenerationToken.t) : Message C R E (result LeaseGrant.t CoordinatorError)
  | ReleaseLease (owner : PrincipalId.t) (lease_id : ControlLeaseId)
      (generation : GenerationToken.t) : Message C R E (result unit CoordinatorError)
  | RevokeLease (reason : RevocationReason) : Message C R E bool
  | RetryReset : Message C R E (result ResetRetryOutcome CoordinatorError)
  | Submit (admission : CommandAdmission.t C) :
      Message C R E (result (CommandSubmission.t R) CoordinatorError)
  | Lookup (principal : PrincipalId.t) (command_id : CommandId)
      (generation : GenerationToken.t) :
      Message C R E (result (option (CoordinatorRecord R)) CoordinatorError)
  | WatchLookup (principal : PrincipalId.t) (command_id : CommandId)
      (generation : GenerationToken.t) :
      Message C R E (result (option (CommandWatch R)) CoordinatorError)
  | Cancel (principal : PrincipalId.t) (command_id : CommandId)
      (generation : GenerationToken.t) :
      Message C R E (result CancelCommandOutcome CoordinatorError)
  | PublishEvent (event : E) (encoded_size : N) (generation : GenerationToken.t) :
      Message C R E (result PublishOutcome.t CoordinatorError)
  | ReplayEventsOf (generation : GenerationToken.t) (since_sequence : N) :
      Message C R E (ReplayResult E)
  | SubscribeEvents (generation : GenerationToken.t) (since_sequence : option N) :
      Message C R E (EventSubscription.t E)
  | RotateGeneration (generation : DesktopGeneration) :
      Message C R E (result GenerationToken.t CoordinatorError)
  | RequestShutdown : Message C R E unit.
Arguments Generation {C R E}.
Arguments LeaseSnapshotOf {C R E}.
Arguments AcquireLease {C R E} owner lease_id ttl_ms generation.
Arguments RenewLease {C R E} owner lease_id ttl_ms generation.
Arguments ReleaseLease {C R E} owner lease_id generation.
Arguments RevokeLease {C R E} reason.
Arguments RetryReset {C R E}.
Arguments Submit {C R E} admission.
Arguments Lookup {C R E} principal command_id generation.
Arguments WatchLookup {C R E} principal command_id generation.
Arguments Cancel {C R E} principal command_id generation.
Arguments PublishEvent {C R E} event encoded_size generation.
Arguments ReplayEventsOf {C R E} generation since_sequence.
Arguments SubscribeEvents {C R E} generation since_sequence.
Arguments RotateGeneration {C R E} generation.
Arguments RequestShutdown {C R E}.

(** ** [CoordinatorHandle]

    Every method sends one message and awaits its reply; a mailbox that is closed, or
    a reply sender that is dropped, is [Closed].  The actor is the argument [call],
    which answers a message or drops it. *)
Module CoordinatorHandle.
Section Handle.
  Context {C R E : Type}.
  Context (call : forall A, Message C R E A -> option A).

(** [receive.await.map_err(|_| CoordinatorError::Closed)]. *)
Definition ask {A} (m : Message C R E A) : result A CoordinatorError :=
  ok_or (call A m) Closed.

(** The same, followed by [?] on a reply that is a [Result] itself. *)
Definition ask_result {A} (m : Message C R E (result A CoordinatorError)) :
    result A CoordinatorError :=
  match ask m with
  | Ok r => r
  | Err e => Err e
  end.

Definition generation : result GenerationToken.t CoordinatorError := ask Generation.
Definition lease_snapshot : result LeaseSnapshot CoordinatorError := ask LeaseSnapshotOf.
Definition acquire_lease (owner : PrincipalId.t) (lease_id : ControlLeaseId)
    (ttl_ms : option N) (g : GenerationToken.t) : result LeaseGrant.t CoordinatorError :=
  ask_result (AcquireLease owner lease_id ttl_ms g).
Definition renew_lease (owner : PrincipalId.t) (lease_id : ControlLeaseId)
    (ttl_ms : option N) (g : GenerationToken.t) : result LeaseGrant.t CoordinatorError :=
  ask_result (RenewLease owner lease_id ttl_ms g).
Definition release_lease (owner : PrincipalId.t) (lease_id : ControlLeaseId)
    (g : GenerationToken.t) : result unit CoordinatorError :=
  ask_result (ReleaseLease owner lease_id g).
Definition revoke_lease (reason : RevocationReason) : result bool CoordinatorError :=
  ask (RevokeLease reason).
Definition retry_reset : result ResetRetryOutcome CoordinatorError := ask_result RetryReset.
Definition submit (principal : PrincipalId.t) (command_id : CommandId)
    (request_hash : CanonicalCommandHash) (g : GenerationToken.t) (lease : LeaseRequirement)
    (execute_within : option N) (command : C) :
    result (CommandSubmission.t R) CoordinatorError :=
  ask_result (Submit (CommandAdmission.mk principal command_id request_hash g lease
    execute_within command)).
Definition lookup_command (principal : PrincipalId.t) (command_id : CommandId)
    (g : GenerationToken.t) : result (option (CoordinatorRecord R)) CoordinatorError :=
  ask_result (Lookup principal command_id g).
Definition watch_command (principal : PrincipalId.t) (command_id : CommandId)
    (g : GenerationToken.t) : result (option (CommandWatch R)) CoordinatorError :=
  ask_result (WatchLookup principal command_id g).
Definition cancel_command (principal : PrincipalId.t) (command_id : CommandId)
    (g : GenerationToken.t) : result CancelCommandOutcome CoordinatorError :=
  ask_result (Cancel principal command_id g).
Definition publish_event (event : E) (encoded_size : N) (g : GenerationToken.t) :
    result PublishOutcome.t CoordinatorError :=
  ask_result (PublishEvent event encoded_size g).
Definition replay_events (g : GenerationToken.t) (since_sequence : N) :
    result (ReplayResult E) CoordinatorError :=
  ask (ReplayEventsOf g since_sequence).
Definition subscribe_events (g : GenerationToken.t) (since_sequence : option N) :
    result (EventSubscription.t E) CoordinatorError :=
  ask (SubscribeEvents g since_sequence).
Definition rotate_generation (g : DesktopGeneration) :
    result GenerationToken.t CoordinatorError :=
  ask_result (RotateGeneration g).
Definition shutdown : result unit CoordinatorError := ask RequestShutdown.

End Handle.
End CoordinatorHandle.

(** ** In-flight tasks *)

(** The futures in the [JoinSet]: an execution, identified by its key, or a reset
    attempt, by its epoch. *)
Inductive InFlight :=
  | ExecutionTask (key : ActiveKey.t)
  | ResetTask (reset_epoch : N).
#[export] Instance InFlight_eq_dec : EqDecision InFlight.
Proof. solve_decision. Defined.

(** [TaskCompletion<R>]; a panic of the supervised future is [Err tt]. *)
Inductive TaskCompletion (R : Type) :=
  | Execution (key : ActiveKey.t) (outcome : result (ExecutionOutcome R) unit)
  | Reset (reset_epoch : N) (outcome : ResetOutcome).
Arguments Execution {R} key outcome.
Arguments Reset {R} reset_epoch outcome.

(** The task a completion comes from. *)
Definition completed_task {R} (c : TaskCompletion R) : InFlight :=
  match c with
  | Execution key _ => ExecutionTask key
  | Reset reset_epoch _ => ResetTask reset_epoch
  end.

(** What the backend and the watchers see, in order: executions and resets handed to
    the backend, the values sent on the watch channels, and the replies to shutdown
    requests. *)
Inductive Output (C R : Type) :=
  | Executed (key : ActiveKey.t) (command : C) (context : ExecutionContext.t)
  | ResetRequested (request : ResetRequest.t)
  | Updated (key : ActiveKey.t) (record : CoordinatorRecord R)
  | ShutdownReplied.
Arguments Executed {C R} key command context.
Arguments ResetRequested {C R} request.
Arguments Updated {C R} key record.
Arguments ShutdownReplied {C R}.
