(* ===== verification/Runtime.v ===== *)
(** * The coordinator's operations

    Models the actor of [xenoteer-core/src/coordinator/runtime.rs]: the state of
    [CoordinatorTask], its message handlers, timers and completions, and one turn of
    its run loop.  The task is the sole owner of its state, so each handler is an
    atomic state transformer.

    [Instant::now] is the section variable [clock]: the [n]-th reading of a run
    returns [clock n], and the state counts the readings.  The backend's futures are
    the list [tasks]; what is handed to the backend and sent to watchers is appended
    to [outputs].  Every sequence number sent on the live fanout is in [live_events];
    a receiver is a position in it. *)

From stdpp Require Import base numbers list option gmap strings.
From Stdlib Require Import Lia.
From S2P Require Import Prelude.
From S2P Require Import Identity.
From S2P Require Import Lease.
From S2P Require Import Ledger.
From S2P Require Import Events.
From S2P Require Import RuntimeTypes.

Local Open Scope N_scope.

(** The first occurrence of a task leaves the [JoinSet]. *)
Fixpoint remove_task (task : InFlight) (tasks : list InFlight) : list InFlight :=
  match tasks with
  | [] => []
  | x :: tasks => if decide (x = task) then tasks else x :: remove_task task tasks
  end.

(** ** [CoordinatorTask] *)
Module CoordinatorTask.
Section Task.
  Context {C R E : Type} `{!CommandEventMapper R E} (clock : nat -> N).

Record t := mk {
  settings : CoordinatorSettings.t;
  receiver_closed : bool;
  generation_fence : GenerationFence.t;
  lease : LeaseMachine.t;
  ledger : CommandLedger.t (CommandTerminal.t R);
  events : EventHub.t E;
  live_events : list N;
  origin : N;
  active : gmap ActiveKey.t (ActiveCommand.t C R);
  pending : list ActiveKey.t;
  running : N;
  tasks : list InFlight;
  next_reset_epoch : N;
  active_reset : option N;
  reset_failed : bool;
  shutting_down : bool;
  shutdown_reply : option unit;
  instants : nat;
  outputs : list (Output C R)
}.

Definition set_receiver_closed (v : bool) (s : t) : t :=
  mk (settings s) v (generation_fence s) (lease s) (ledger s) (events s) (live_events s)
    (origin s) (active s) (pending s) (running s) (tasks s) (next_reset_epoch s)
    (active_reset s) (reset_failed s) (shutting_down s) (shutdown_reply s) (instants s)
    (outputs s).
Definition set_generation_fence (v : GenerationFence.t) (s : t) : t :=
  mk (settings s) (receiver_closed s) v (lease s) (ledger s) (events s) (live_events s)
    (origin s) (active s) (pending s) (running s) (tasks s) (next_reset_epoch s)
    (active_reset s) (reset_failed s) (shutting_down s) (shutdown_reply s) (instants s)
    (outputs s).
Definition set_lease (v : LeaseMachine.t) (s : t) : t :=
  mk (settings s) (receiver_closed s) (generation_fence s) v (ledger s) (events s)
    (live_events s) (origin s) (active s) (pending s) (running s) (tasks s)
    (next_reset_epoch s) (active_reset s) (reset_failed s) (shutting_down s)
    (shutdown_reply s) (instants s) (outputs s).
Definition set_ledger (v : CommandLedger.t (CommandTerminal.t R)) (s : t) : t :=
  mk (settings s) (receiver_closed s) (generation_fence s) (lease s) v (events s)
    (live_events s) (origin s) (active s) (pending s) (running s) (tasks s)
    (next_reset_epoch s) (active_reset s) (reset_failed s) (shutting_down s)
    (shutdown_reply s) (instants s) (outputs s).
Definition set_events (v : EventHub.t E) (s : t) : t :=
  mk (settings s) (receiver_closed s) (generation_fence s) (lease s) (ledger s) v
    (live_events s) (origin s) (active s) (pending s) (running s) (tasks s)
    (next_reset_epoch s) (active_reset s) (reset_failed s) (shutting_down s)
    (shutdown_reply s) (instants s) (outputs s).
Definition set_live_events (v : list N) (s : t) : t :=
  mk (settings s) (receiver_closed s) (generation_fence s) (lease s) (ledger s) (events
    s) v (origin s) (active s) (pending s) (running s) (tasks s) (next_reset_epoch s)
    (active_reset s) (reset_failed s) (shutting_down s) (shutdown_reply s) (instants s)
    (outputs s).
Definition set_active (v : gmap ActiveKey.t (ActiveCommand.t C R)) (s : t) : t :=
  mk (settings s) (receiver_closed s) (generation_fence s) (lease s) (ledger s) (events
    s) (live_events s) (origin s) v (pending s) (running s) (tasks s) (next_reset_epoch s)
    (active_reset s) (reset_failed s) (shutting_down s) (shutdown_reply s) (instants s)
    (outputs s).
Definition set_pending (v : list ActiveKey.t) (s : t) : t :=
  mk (settings s) (receiver_closed s) (generation_fence s) (lease s) (ledger s) (events
    s) (live_events s) (origin s) (active s) v (running s) (tasks s) (next_reset_epoch s)
    (active_reset s) (reset_failed s) (shutting_down s) (shutdown_reply s) (instants s)
    (outputs s).
Definition set_running (v : N) (s : t) : t :=
  mk (settings s) (receiver_closed s) (generation_fence s) (lease s) (ledger s) (events
    s) (live_events s) (origin s) (active s) (pending s) v (tasks s) (next_reset_epoch s)
    (active_reset s) (reset_failed s) (shutting_down s) (shutdown_reply s) (instants s)
    (outputs s).
Definition set_tasks (v : list InFlight) (s : t) : t :=
  mk (settings s) (receiver_closed s) (generation_fence s) (lease s) (ledger s) (events
    s) (live_events s) (origin s) (active s) (pending s) (running s) v (next_reset_epoch
    s) (active_reset s) (reset_failed s) (shutting_down s) (shutdown_reply s) (instants s)
    (outputs s).
Definition set_next_reset_epoch (v : N) (s : t) : t :=
  mk (settings s) (receiver_closed s) (generation_fence s) (lease s) (ledger s) (events
    s) (live_events s) (origin s) (active s) (pending s) (running s) (tasks s) v
    (active_reset s) (reset_failed s) (shutting_down s) (shutdown_reply s) (instants s)
    (outputs s).
Definition set_active_reset (v : option N) (s : t) : t :=
  mk (settings s) (receiver_closed s) (generation_fence s) (lease s) (ledger s) (events
    s) (live_events s) (origin s) (active s) (pending s) (running s) (tasks s)
    (next_reset_epoch s) v (reset_failed s) (shutting_down s) (shutdown_reply s) (instants
    s) (outputs s).
Definition set_reset_failed (v : bool) (s : t) : t :=
  mk (settings s) (receiver_closed s) (generation_fence s) (lease s) (ledger s) (events
    s) (live_events s) (origin s) (active s) (pending s) (running s) (tasks s)
    (next_reset_epoch s) (active_reset s) v (shutting_down s) (shutdown_reply s) (instants
    s) (outputs s).
Definition set_shutting_down (v : bool) (s : t) : t :=
  mk (settings s) (receiver_closed s) (generation_fence s) (lease s) (ledger s) (events
    s) (live_events s) (origin s) (active s) (pending s) (running s) (tasks s)
    (next_reset_epoch s) (active_reset s) (reset_failed s) v (shutdown_reply s) (instants
    s) (outputs s).
Definition set_shutdown_reply (v : option unit) (s : t) : t :=
  mk (settings s) (receiver_closed s) (generation_fence s) (lease s) (ledger s) (events
    s) (live_events s) (origin s) (active s) (pending s) (running s) (tasks s)
    (next_reset_epoch s) (active_reset s) (reset_failed s) (shutting_down s) v (instants
    s) (outputs s).
Definition set_instants (v : nat) (s : t) : t :=
  mk (settings s) (receiver_closed s) (generation_fence s) (lease s) (ledger s) (events
    s) (live_events s) (origin s) (active s) (pending s) (running s) (tasks s)
    (next_reset_epoch s) (active_reset s) (reset_failed s) (shutting_down s)
    (shutdown_reply s) v (outputs s).
Definition set_outputs (v : list (Output C R)) (s : t) : t :=
  mk (settings s) (receiver_closed s) (generation_fence s) (lease s) (ledger s) (events
    s) (live_events s) (origin s) (active s) (pending s) (running s) (tasks s)
    (next_reset_epoch s) (active_reset s) (reset_failed s) (shutting_down s)
    (shutdown_reply s) (instants s) v.

Arguments set_receiver_closed v s /.
Arguments set_generation_fence v s /.
Arguments set_lease v s /.
Arguments set_ledger v s /.
Arguments set_events v s /.
Arguments set_live_events v s /.
Arguments set_active v s /.
Arguments set_pending v s /.
Arguments set_running v s /.
Arguments set_tasks v s /.
Arguments set_next_reset_epoch v s /.
Arguments set_active_reset v s /.
Arguments set_reset_failed v s /.
Arguments set_shutting_down v s /.
Arguments set_shutdown_reply v s /.
Arguments set_instants v s /.
Arguments set_outputs v s /.


Definition emit (x : Output C R) (s : t) : t := set_outputs (outputs s ++ [x]) s.
Arguments emit x s /.

(** [Instant::now()]. *)
Definition instant_now (s : t) : t * N := (set_instants (S (instants s)) s, clock (instants s)).

(** [CoordinatorTask::now_millis]. *)
Definition now_millis (s : t) : t * MonotonicMillis.t :=
  let '(s, now) := instant_now s in (s, now_millis_at (origin s) now).

(** The current token of the generation fence. *)
Definition current (s : t) : GenerationToken.t := GenerationFence.capture (generation_fence s).

(** Calls of the owned state machines, with the [From] conversion of their errors. *)
Definition on_lease {A} (m : M LeaseMachine.t LeaseError A) : M t CoordinatorError A :=
  zoom lease set_lease LeaseErrorOf m.
Definition on_ledger {A} (m : M (CommandLedger.t (CommandTerminal.t R)) CommandLedgerError A) :
    M t CoordinatorError A :=
  zoom ledger set_ledger LedgerErrorOf m.
Definition on_events {A} (m : M (EventHub.t E) EventHubError A) : M t CoordinatorError A :=
  zoom events set_events EventErrorOf m.
Definition on_fence {A} (m : M GenerationFence.t GenerationFenceError A) :
    M t CoordinatorError A :=
  zoom generation_fence set_generation_fence GenerationError m.

(** [spawn_coordinator_with_event_mapper]: the task before its first turn. *)
Definition spawn (settings : CoordinatorSettings.t) : result t CoordinatorError :=
  let generation_fence := GenerationFence.new (CoordinatorSettings.desktop_id settings)
                            (CoordinatorSettings.initial_generation settings) in
  let generation := GenerationFence.capture generation_fence in
  let desktop := CoordinatorSettings.desktop_id settings in
  match LeaseMachine.new desktop generation (CoordinatorSettings.lease_policy settings) with
  | Err e => Err (LeaseErrorOf e)
  | Ok lease =>
      match CommandLedger.new desktop generation (CoordinatorSettings.ledger_limits settings) with
      | Err e => Err (LedgerErrorOf e)
      | Ok ledger =>
          match EventHub.new desktop generation (CoordinatorSettings.event_limits settings) with
          | Err e => Err (EventErrorOf e)
          | Ok events =>
              Ok (mk settings false generation_fence lease ledger events [] (clock 0) ∅ []
                    0 [] 1 None false false None 1 [])
          end
      end
  end.

(** ** Events *)

(** [CoordinatorTask::publish_event]. *)
Definition publish_event (event : E) (encoded_size : N) (g : GenerationToken.t) :
    M t CoordinatorError PublishOutcome.t :=
  self <- get ;;
  reject_if (EventHubLimits.maximum_encoded_bytes (EventHub.limits (events self))
               < encoded_size) (EventErrorOf HubLiveEventTooLarge) ;;;
  outcome <- on_events (EventHub.publish event encoded_size g) ;;
  modify (fun self =>
    set_live_events (live_events self ++ [PublishOutcome.sequence outcome]) self) ;;;
  ret outcome.

(** [CoordinatorTask::publish_command_transition]. *)
Definition publish_command_transition (principal : PrincipalId.t)
    (record : CoordinatorRecord R) : M t CoordinatorError unit :=
  for_each (fun normalized =>
      publish_event (CoordinatorEvent.event normalized)
        (CoordinatorEvent.encoded_size normalized) (CommandRecord.generation record) ;;;
      ret tt)
    (map_command_transition principal record).

(** ** Completion *)

(** The record of the completed command: the ledger's if the command belongs to the
    current generation, and the retired command's own otherwise. *)
Definition terminal_record (key : ActiveKey.t) (terminal : CommandTerminal.t R)
    (now : MonotonicMillis.t) (active : ActiveCommand.t C R) :
    M t CoordinatorError (CoordinatorRecord R) :=
  self <- get ;;
  if decide (ActiveKey.generation key = current self) then
    on_ledger (CommandLedger.complete (ActiveKey.principal key) (ActiveKey.command_id key)
      terminal now (ActiveKey.generation key))
  else
    let record := ActiveCommand.record active in
    reject_if (is_terminal (CommandRecord.state record) = true)
      (LedgerErrorOf LedgerTerminalImmutable) ;;;
    ret (CommandRecord.set_state (Terminal terminal) now record).

(** [CoordinatorTask::complete_active]. *)
Definition complete_active (key : ActiveKey.t) (terminal : CommandTerminal.t R)
    (now : MonotonicMillis.t) : M t CoordinatorError unit :=
  self <- get ;;
  found <- lift (ok_or (active self !! key) (LedgerErrorOf LedgerUnknownCommand)) ;;
  record <- terminal_record key terminal now found ;;
  self <- get ;;
  found <- lift (ok_or (active self !! key) (LedgerErrorOf LedgerInvariantViolation)) ;;
  modify (fun self => set_active (delete key (active self)) self) ;;;
  (if decide (ActiveCommand.phase found = ActivePending) then
     modify (fun self =>
       set_pending (filter (fun pending_key => pending_key <> key) (pending self)) self)
   else ret tt) ;;;
  modify (emit (Updated key record)) ;;;
  self <- get ;;
  if decide (CommandRecord.generation record = current self) then
    publish_command_transition (ActiveKey.principal key) record
  else ret tt.

(** [request_stop] on an active command of the map. *)
Definition request_stop (key : ActiveKey.t) (reason : ExecutionStop) (self : t) : t :=
  set_active (alter (ActiveCommand.request_stop reason) key (active self)) self.

(** The [match active.phase] of the stopping loops: a pending command ends now with
    [cause], a running one is asked to stop with [reason]. *)
Definition stop_active (cause : TerminalCause) (reason : ExecutionStop)
    (now : MonotonicMillis.t) (key : ActiveKey.t) : M t CoordinatorError unit :=
  self <- get ;;
  match active self !! key with
  | None => ret tt
  | Some found =>
      match ActiveCommand.phase found with
      | ActivePending =>
          complete_active key (CommandTerminal.stopped cause BeforeEffect) now
      | ActiveRunning => modify (request_stop key reason)
      end
  end.

(** ** Resets *)

(** [CoordinatorTask::spawn_reset]. *)
Definition spawn_reset (self : t) : t :=
  match LeaseMachine.snapshot (lease self) with
  | SnapshotResetting lease reason =>
      let reset_epoch := next_reset_epoch self in
      match checked_add_u64 reset_epoch 1 with
      | None => set_reset_failed true self
      | Some next =>
          let self := set_next_reset_epoch next self in
          let self := set_active_reset (Some reset_epoch) self in
          let self := set_reset_failed false self in
          let request := ResetRequest.mk reset_epoch lease reason (current self) in
          set_tasks (tasks self ++ [ResetTask reset_epoch]) (emit (ResetRequested request) self)
      end
  | _ => self
  end.

(** The second half of [ensure_reset]: start an attempt unless one runs or failed. *)
Definition ensure_reset_started (self : t) : t :=
  if decide (LeaseMachine.phase (lease self) = PhaseResetting /\ active_reset self = None /\
             reset_failed self = false)
  then spawn_reset self else self.

(** [CoordinatorTask::ensure_reset]. *)
Definition ensure_reset (self : t) : t :=
  if decide (LeaseMachine.phase (lease self) = PhaseRevoking) then
    match LeaseMachine.begin_reset (lease self) with
    | (lease, Err _) => set_lease lease self
    | (lease, Ok _) => ensure_reset_started (set_reset_failed false (set_lease lease self))
    end
  else ensure_reset_started self.

(** ** Shutdown *)

(** [CoordinatorTask::begin_shutdown]. *)
Definition begin_shutdown (reply : option unit) (self : t) : t :=
  if decide (shutting_down self = true) then
    match reply with
    | Some _ => emit ShutdownReplied self
    | None => self
    end
  else
    let self := set_shutting_down true self in
    let self := set_shutdown_reply reply self in
    let self := set_receiver_closed true self in
    let self := set_lease (fst (LeaseMachine.revoke Lease.Shutdown (lease self))) self in
    let self := set_reset_failed false self in
    let self := ensure_reset self in
    let '(self, now) := now_millis self in
    fold_left (fun self key => ignore (stop_active CauseShutdown StopShutdown now key) self)
      (btree_keys ActiveKey.cmp (active self)) self.

(** ** Commands *)

(** [execute_within.map(|d| now_instant.checked_add(d).ok_or(..)).transpose()]. *)
Definition deadline_after (now_instant : N) (execute_within : option N) :
    result (option N) CoordinatorError :=
  match execute_within with
  | None => Ok None
  | Some duration =>
      match instant_checked_add now_instant duration with
      | Some deadline => Ok (Some deadline)
      | None => Err DeadlineOverflow
      end
  end.

(** [self.active.keys().filter(|active| active.principal == principal).count()]. *)
Definition active_of (principal : PrincipalId.t) (self : t) : N :=
  len (filter (fun key => ActiveKey.principal key = principal)
         (btree_keys ActiveKey.cmp (active self))).

(** The lease part of [submit_command]: a required lease is authorized, and an
    expiry this discovers starts its reset before the refusal is returned. *)
Definition authorize_lease (principal : PrincipalId.t) (lease : LeaseRequirement)
    (now : MonotonicMillis.t) (g : GenerationToken.t) : M t CoordinatorError unit :=
  match lease with
  | LeaseNotRequired => ret tt
  | LeaseRequired lease_id =>
      fun self =>
        let '(self, authorization) :=
          on_lease (LeaseMachine.authorize principal lease_id now g) self in
        let self := ensure_reset self in
        match authorization with
        | Ok _ => (self, Ok tt)
        | Err e => (self, Err e)
        end
  end.

(** What [submit_command] answers for a command the ledger already knows. *)
Definition resubmission (key : ActiveKey.t) (request_hash : CanonicalCommandHash)
    (record : CoordinatorRecord R) : M t CoordinatorError (CommandSubmission.t R) :=
  self <- get ;;
  reject_if (CommandRecord.request_hash record <> request_hash)
    (LedgerErrorOf LedgerCommandIdConflict) ;;;
  match active self !! key with
  | Some _ => ret (CommandSubmission.mk false record (WatchActive key))
  | None =>
      if is_terminal (CommandRecord.state record)
      then ret (CommandSubmission.mk false record (WatchSettled record))
      else fail (LedgerErrorOf LedgerInvariantViolation)
  end.

(** The admitted command becomes active and pending, and its acceptance is
    published; a failed publication starts the shutdown. *)
Definition activate (key : ActiveKey.t) (command : C) (deadline : option N)
    (record : CoordinatorRecord R) : M t CoordinatorError (CommandSubmission.t R) :=
  modify (fun self =>
    set_active (<[key := ActiveCommand.mk (Some command) deadline ActivePending StopContinue
                           record record]> (active self)) self) ;;;
  modify (fun self => set_pending (pending self ++ [key]) self) ;;;
  modify (emit (Updated key record)) ;;;
  (fun self =>
     match publish_command_transition (ActiveKey.principal key) record self with
     | (self, Ok _) => (self, Ok tt)
     | (self, Err _) => (begin_shutdown None self, Ok tt)
     end) ;;;
  ret (CommandSubmission.mk true record (WatchActive key)).

(** [CoordinatorTask::submit_command]. *)
Definition submit_command (admission : CommandAdmission.t C) :
    M t CoordinatorError (CommandSubmission.t R) :=
  let '(CommandAdmission.mk principal command_id request_hash g lease execute_within command) :=
    admission in
  fun self =>
  let '(self, now_instant) := instant_now self in
  let now := now_millis_at (origin self) now_instant in
  (deadline <- lift (deadline_after now_instant execute_within) ;;
   let key := ActiveKey.mk g principal command_id in
   known <- on_ledger (CommandLedger.lookup_command principal command_id now g) ;;
   match known with
   | Some record => resubmission key request_hash record
   | None =>
       self <- get ;;
       reject_if (CoordinatorSettings.maximum_active_commands (settings self)
                    <= N.of_nat (size (active self))) CommandCapacityExhausted ;;;
       reject_if (CoordinatorSettings.maximum_active_per_principal (settings self)
                    <= active_of principal self) PrincipalCommandCapacityExhausted ;;;
       authorize_lease principal lease now g ;;;
       decision <- on_ledger
         (CommandLedger.admit_command principal command_id request_hash now g) ;;
       match decision with
       | Existing _ => fail (LedgerErrorOf LedgerInvariantViolation)
       | AdmittedNew record => activate key command deadline record
       end
   end) self.

(** [CoordinatorTask::cancel_command]. *)
Definition cancel_command (principal : PrincipalId.t) (command_id : CommandId)
    (g : GenerationToken.t) : M t CoordinatorError CancelCommandOutcome :=
  fun self =>
  let '(self, now) := now_millis self in
  let key := ActiveKey.mk g principal command_id in
  match active self !! key with
  | Some _ =>
      (stop_active Cancelled StopCancelled now key ;;;
       ret CancelAccepted) self
  | None =>
      (known <- on_ledger (CommandLedger.lookup_command principal command_id now g) ;;
       match known with
       | Some record =>
           if is_terminal (CommandRecord.state record) then ret CancelAlreadyTerminal
           else fail (LedgerErrorOf LedgerInvariantViolation)
       | None => ret CancelNotFound
       end) self
  end.

(** [CoordinatorTask::watch_command]. *)
Definition watch_command (principal : PrincipalId.t) (command_id : CommandId)
    (g : GenerationToken.t) : M t CoordinatorError (option (CommandWatch R)) :=
  fun self =>
  let '(self, now) := now_millis self in
  (known <- on_ledger (CommandLedger.lookup_command principal command_id now g) ;;
   match known with
   | None => ret None
   | Some record =>
       let key := ActiveKey.mk g principal command_id in
       self <- get ;;
       match active self !! key with
       | Some _ => ret (Some (WatchActive key))
       | None =>
           if is_terminal (CommandRecord.state record) then ret (Some (WatchSettled record))
           else fail (LedgerErrorOf LedgerInvariantViolation)
       end
   end) self.

(** ** Rotation *)

(** The four fenced state machines move together. *)
Definition rotate_components (generation : DesktopGeneration) :
    M t CoordinatorError GenerationToken.t :=
  current <- on_fence (GenerationFence.rotate generation) ;;
  on_lease (LeaseMachine.rotate_generation current) ;;;
  on_ledger (CommandLedger.rotate_generation current) ;;;
  on_events (EventHub.rotate_generation current) ;;;
  ret current.

(** The commands of earlier generations are ended or asked to stop. *)
Definition retire_commands (current : GenerationToken.t) : M t CoordinatorError unit :=
  fun self =>
  let '(self, now) := now_millis self in
  let retired := filter (fun key => ActiveKey.generation key <> current)
                   (btree_keys ActiveKey.cmp (active self)) in
  for_each (stop_active CauseGenerationChanged StopGenerationChanged now) retired self.

(** [CoordinatorTask::rotate_generation]. *)
Definition rotate_generation (generation : DesktopGeneration) :
    M t CoordinatorError GenerationToken.t :=
  current <- rotate_components generation ;;
  retire_commands current ;;;
  modify ensure_reset ;;;
  ret current.

(** ** Completions *)

(** The terminal result of an execution, given the stop requested of it. *)
Definition execution_terminal (stop : ExecutionStop)
    (outcome : result (ExecutionOutcome R) unit) : CommandTerminal.t R :=
  match outcome with
  | Ok (AtomicCompleted output effect) => CommandTerminal.returned output effect
  | Ok (Completed output effect) =>
      if decide (stop = StopContinue) then CommandTerminal.returned output effect
      else CommandTerminal.stopped (terminal_cause stop) effect
  | Ok (Stopped effect) => CommandTerminal.stopped (terminal_cause stop) effect
  | Ok (StoppedWithEvidence output effect) =>
      CommandTerminal.stopped_with_evidence (terminal_cause stop) effect output
  | Err _ => CommandTerminal.stopped ExecutorPanicked AfterEffect
  end.

(** [CoordinatorTask::handle_completion]; [saturating_sub] is the subtraction of [N]. *)
Definition handle_completion (completion : TaskCompletion R) (self : t) : t :=
  match completion with
  | Execution key outcome =>
      let self := set_running (running self - 1) self in
      match active self !! key with
      | None => self
      | Some found =>
          let terminal := execution_terminal (ActiveCommand.stop found) outcome in
          let '(self, now) := now_millis self in
          ignore (complete_active key terminal now) self
      end
  | Reset reset_epoch outcome =>
      if decide (active_reset self <> Some reset_epoch) then self
      else
        let self := set_active_reset None self in
        match outcome with
        | ResetComplete =>
            ignore (on_lease LeaseMachine.finish_reset) (set_reset_failed false self)
        | ResetFailed => set_reset_failed true self
        end
  end.

(** ** Execution *)

(** The start of one pending command: its ledger record runs, its command is taken
    and handed to the backend; [true] if the loop goes on. *)
Definition start_command (key : ActiveKey.t) (self : t) : t * bool :=
  let '(self, now) := now_millis self in
  match on_ledger (CommandLedger.mark_running (ActiveKey.principal key)
          (ActiveKey.command_id key) now (ActiveKey.generation key)) self with
  | (self, Err _) => (begin_shutdown None self, false)
  | (self, Ok running_record) =>
      match active self !! key with
      | None => (begin_shutdown None self, false)
      | Some found =>
          match ActiveCommand.command found with
          | None => (begin_shutdown None self, false)
          | Some command =>
              let started := ActiveCommand.mk None (ActiveCommand.deadline found) ActiveRunning
                               (ActiveCommand.stop found) running_record running_record in
              let self := set_active (<[key := started]> (active self)) self in
              let self := emit (Updated key running_record) self in
              let context := ExecutionContext.mk (ActiveKey.generation key)
                               (ActiveCommand.deadline found) (ActiveCommand.stop found) in
              let self := set_tasks (tasks self ++ [ExecutionTask key]) self in
              let self := emit (Executed key command context) self in
              let self := set_running (running self + 1) self in
              match publish_command_transition (ActiveKey.principal key) running_record self with
              | (self, Ok _) => (self, true)
              | (self, Err _) => (begin_shutdown None self, false)
              end
          end
      end
  end.

(** The deadline test of the pending command at the head of the queue; [Instant::now]
    is read only if there is a deadline. *)
Definition deadline_passed (found : ActiveCommand.t C R) (self : t) : t * bool :=
  match ActiveCommand.deadline found with
  | None => (self, false)
  | Some deadline =>
      let '(self, now) := instant_now self in (self, bool_decide (deadline <= now))
  end.

(** One iteration of the loop of [drive_pending]; [true] if the loop goes on. *)
Definition drive_step (self : t) : t * bool :=
  if decide (running self < CoordinatorSettings.maximum_concurrent_executions (settings self))
  then
    match pending self with
    | [] => (self, false)
    | key :: pending =>
        let self := set_pending pending self in
        match active self !! key with
        | None => (self, true)
        | Some found =>
            if decide (ActiveCommand.phase found <> ActivePending) then (self, true)
            else
              let '(self, due) := deadline_passed found self in
              if due then
                let '(self, now) := now_millis self in
                (ignore (complete_active key
                   (CommandTerminal.stopped DeadlineExceeded BeforeEffect) now) self, true)
              else start_command key self
        end
    end
  else (self, false).

Fixpoint drive_fuel (fuel : nat) (self : t) : t :=
  match fuel with
  | O => self
  | S fuel =>
      let '(self, continue) := drive_step self in
      if continue then drive_fuel fuel self else self
  end.

(** [CoordinatorTask::drive_pending]: every iteration takes a key off the queue. *)
Definition drive_pending (self : t) : t := drive_fuel (S (length (pending self))) self.

(** ** Timers *)

(** [CoordinatorTask::advance_timers]. *)
Definition advance_timers (self : t) : t :=
  let '(self, now_instant) := instant_now self in
  let now := now_millis_at (origin self) now_instant in
  let self := ignore (on_lease (LeaseMachine.advance_time now)) self in
  let self := ensure_reset self in
  let due := filter (fun kv : ActiveKey.t * ActiveCommand.t C R =>
                 ActiveCommand.is_due now_instant kv.2)
               (btree_iter ActiveKey.cmp (active self)) in
  fold_left (fun self key =>
      ignore (stop_active DeadlineExceeded StopDeadlineExceeded now key) self) due.*1 self.

(** [Iterator::min] of instants. *)
Fixpoint min_instant (l : list N) : option N :=
  match l with
  | [] => None
  | x :: l => Some (match min_instant l with Some y => N.min x y | None => x end)
  end.

(** [CoordinatorTask::next_wake_at]. *)
Definition next_wake_at (self : t) : option N :=
  let lease_deadline :=
    match LeaseMachine.snapshot (lease self) with
    | SnapshotHeld lease => instant_checked_add (origin self)
                              (LeaseGrant.expires_at lease * 1000000)
    | _ => None
    end in
  min_instant
    (omap (fun kv : ActiveKey.t * ActiveCommand.t C R => ActiveCommand.deadline kv.2)
       (btree_iter ActiveKey.cmp (active self)) ++ option_list lease_deadline).

(** ** Messages *)

(** A lease operation of a client, at the current time. *)
Definition lease_request {A} (op : MonotonicMillis.t -> M LeaseMachine.t LeaseError A)
    (self : t) : t * result A CoordinatorError :=
  let '(self, now) := now_millis self in
  let '(self, result) := on_lease (op now) self in
  (ensure_reset self, result).

(** An answered request. *)
Definition reply {A} (x : t * A) : t * option A := (x.1, Some x.2).

(** [CoordinatorTask::handle_message]; [None] if the reply is kept for later. *)
Definition handle_message {A} (message : Message C R E A) : t -> t * option A :=
  match message in Message _ _ _ A return t -> t * option A with
  | Generation => fun self => reply (self, current self)
  | LeaseSnapshotOf => fun self => reply (self, LeaseMachine.snapshot (lease self))
  | AcquireLease owner lease_id ttl_ms g => fun self =>
      reply (lease_request (fun now => LeaseMachine.acquire owner lease_id ttl_ms now g) self)
  | RenewLease owner lease_id ttl_ms g => fun self =>
      reply (lease_request (fun now => LeaseMachine.renew owner lease_id ttl_ms now g) self)
  | ReleaseLease owner lease_id g => fun self =>
      reply (lease_request (fun now => LeaseMachine.release owner lease_id now g) self)
  | RevokeLease reason => fun self =>
      let '(lease, revoked) := LeaseMachine.revoke reason (lease self) in
      reply (ensure_reset (set_lease lease self), revoked)
  | RetryReset => fun self =>
      if decide (active_reset self <> None) then reply (self, Ok RetryAlreadyRunning)
      else if decide (LeaseMachine.phase (lease self) <> PhaseResetting)
      then reply (self, Ok RetryNotRequired)
      else reply (spawn_reset self, Ok RetryStarted)
  | Submit admission => fun self => reply (submit_command admission self)
  | Lookup principal command_id g => fun self =>
      let '(self, now) := now_millis self in
      reply (on_ledger (CommandLedger.lookup_command principal command_id now g) self)
  | WatchLookup principal command_id g => fun self =>
      reply (watch_command principal command_id g self)
  | Cancel principal command_id g => fun self =>
      reply (cancel_command principal command_id g self)
  | PublishEvent event encoded_size g => fun self =>
      reply (publish_event event encoded_size g self)
  | ReplayEventsOf g since_sequence => fun self =>
      reply (self, EventHub.replay_since (events self) g since_sequence)
  | SubscribeEvents g since_sequence => fun self =>
      let live := length (live_events self) in
      let replay := EventHub.replay_since (events self) g
                      (default (EventHub.latest_sequence (events self)) since_sequence) in
      reply (self, EventSubscription.mk replay live)
  | RotateGeneration generation => fun self => reply (rotate_generation generation self)
  | RequestShutdown => fun self => (begin_shutdown (Some tt) self, None)
  end.

(** ** The run loop *)

(** The guard of the loop's exit. *)
Definition finished (self : t) : Prop :=
  shutting_down self = true /\ running self = 0 /\ active_reset self = None.

#[export] Instance finished_dec self : Decision (finished self).
Proof. unfold finished. apply _. Defined.

(** The exit: a kept shutdown reply is sent. *)
Definition exit (self : t) : t :=
  match shutdown_reply self with
  | Some _ => emit ShutdownReplied (set_shutdown_reply None self)
  | None => self
  end.

(** What [select!] can select: a message, the closing of the mailbox, the completion
    of a task, its failure to join, or the timer. *)
Inductive Selected :=
  | SelectedMessage {A} (message : Message C R E A)
  | SelectedClosed
  | SelectedCompletion (completion : TaskCompletion R)
  | SelectedJoinError (task : InFlight)
  | SelectedTimer.

(** The branch is enabled: messages until shutdown, completions of in-flight tasks,
    the timer once the wake-up time has passed. *)
Definition enabled (selected : Selected) (self : t) : Prop :=
  match selected with
  | SelectedMessage _ | SelectedClosed => shutting_down self = false
  | SelectedCompletion completion => completed_task completion ∈ tasks self
  | SelectedJoinError task => task ∈ tasks self
  | SelectedTimer =>
      match next_wake_at self with
      | Some wake_at => wake_at <= clock (instants self)
      | None => False
      end
  end.

#[export] Instance enabled_dec selected self : Decision (enabled selected self).
Proof. unfold enabled. repeat case_match; apply _. Defined.

(** The selected branch's handler. *)
Definition dispatch (selected : Selected) (self : t) : t :=
  match selected with
  | SelectedMessage message => fst (handle_message message self)
  | SelectedClosed => begin_shutdown None self
  | SelectedCompletion completion =>
      handle_completion completion
        (set_tasks (remove_task (completed_task completion) (tasks self)) self)
  | SelectedJoinError task =>
      begin_shutdown None (set_tasks (remove_task task (tasks self)) self)
  | SelectedTimer => self
  end.

(** One turn of [run]. *)
Definition turn (selected : Selected) (self : t) : option t :=
  if decide (~ finished self /\ enabled selected self)
  then Some (drive_pending (advance_timers (dispatch selected self)))
  else None.

(** Some turn of the loop. *)
Definition step (self self' : t) : Prop := exists selected, turn selected self = Some self'.

(** A given sequence of turns. *)
Fixpoint run (turns : list Selected) (self : t) : option t :=
  match turns with
  | [] => Some self
  | selected :: turns =>
      match turn selected self with
      | Some self => run turns self
      | None => None
      end
  end.

End Task.
Arguments t C R E : clear implicits.
End CoordinatorTask.
