(* ===== verification/RuntimeInvariant.v ===== *)
(** * The coordinator's invariant

    Every handler of [Runtime.v] is a sequence of [micro] steps, the atomic changes of
    the coordinator's state: a clock reading, a call of one owned state machine, an
    admission, a start, a completion, a rotation.  The invariant [Inv] ties the five
    parts of the state together: the three fenced machines follow the fence, the
    active commands are exactly the commands the ledger has not finished, the queue
    and the in-flight tasks match the phases, all counters are within the configured
    bounds, and the watch updates of every key follow the command lifecycle. *)

From stdpp Require Import base numbers list option gmap sets strings.
From Stdlib Require Import Lia.
From S2P Require Import Prelude.
From S2P Require Import Identity.
From S2P Require Import Lease.
From S2P Require Import Ledger.
From S2P Require Import Events.
From S2P Require Import RuntimeTypes.
From S2P Require Import Runtime.

Local Open Scope N_scope.

(** ** The lifecycle of a key, as its watchers and the backend see it *)
Module Lifecycle.
Section Lifecycle.
  Context {C R : Type}.

Inductive Stage :=
  | Absent      (* no such command *)
  | Waiting     (* accepted, not started *)
  | Launching   (* announced as running, not yet handed to the backend *)
  | Executing   (* handed to the backend *)
  | Broken.     (* the lifecycle was violated *)

(** The automaton of one key. *)
Definition next (key : ActiveKey.t) (stage : Stage) (x : Output C R) : Stage :=
  match x with
  | Updated k r =>
      if decide (k = key) then
        match stage, CommandRecord.state r with
        | Absent, Accepted => Waiting
        | Waiting, Ledger.Running => Launching
        | Waiting, Terminal _ => Absent
        | Executing, Terminal _ => Absent
        | _, _ => Broken
        end
      else stage
  | Executed k _ _ =>
      if decide (k = key) then
        match stage with Launching => Executing | _ => Broken end
      else stage
  | _ => stage
  end.

Definition stage_of (key : ActiveKey.t) (outputs : list (Output C R)) : Stage :=
  fold_left (next key) outputs Absent.

(** The stage of an active command. *)
Definition stage_of_active (a : option (ActiveCommand.t C R)) : Stage :=
  match a with
  | None => Absent
  | Some a =>
      match ActiveCommand.phase a with ActivePending => Waiting | ActiveRunning => Executing end
  end.

Lemma stage_of_snoc key outputs x :
  stage_of key (outputs ++ [x]) = next key (stage_of key outputs) x.
Proof. unfold stage_of. by rewrite fold_left_app. Qed.

End Lifecycle.
End Lifecycle.

(** ** The invariant *)
Module RuntimeInvariant.
Import CoordinatorTask LedgerView.

(** What a sequence of changes may include: the end of a reset transaction, the end of
    a task, and the loss of a task. *)
Record Scope := { ends_reset : bool; ends_task : bool; loses_task : bool }.

Definition anything : Scope := {| ends_reset := true; ends_task := true; loses_task := true |}.

(** *** In-flight tasks *)
Definition is_execution (task : InFlight) : Prop :=
  match task with ExecutionTask _ => True | ResetTask _ => False end.
#[export] Instance is_execution_dec task : Decision (is_execution task).
Proof. unfold is_execution. case_match; apply _. Defined.

Definition executions (tasks : list InFlight) : N := len (filter is_execution tasks).

Lemma elem_of_remove_task x task l : x ∈ remove_task task l -> x ∈ l.
Proof.
  induction l as [|y l IH]; simpl; [done |]. case_decide; set_solver.
Qed.

Lemma elem_of_remove_task_ne x task l : x ∈ l -> x <> task -> x ∈ remove_task task l.
Proof.
  intros Hin Hne. induction l as [|y l IH]; simpl; [done |].
  apply elem_of_cons in Hin as [-> | Hin]; case_decide; subst; try done; [by left | by right; auto].
Qed.

Lemma remove_task_Permutation task l : task ∈ l -> l ≡ₚ task :: remove_task task l.
Proof.
  induction l as [|y l IH]; simpl; [by intros ?%not_elem_of_nil |].
  intros [-> | Hin]%elem_of_cons; case_decide; subst; try done.
  rewrite (IH Hin) at 1. apply Permutation_swap.
Qed.

Lemma remove_task_NoDup task l :
  NoDup l -> NoDup (remove_task task l) /\ task ∉ remove_task task l.
Proof.
  induction 1 as [|y l Hy Hl [IH1 IH2]]; simpl; [split; [constructor | set_solver] |].
  case_decide as Hd; [by subst |]. split; [| set_solver].
  constructor; [| done]. intros Hin. by apply elem_of_remove_task in Hin.
Qed.

Lemma executions_remove task l :
  task ∈ l ->
  executions l = executions (remove_task task l) + (if decide (is_execution task) then 1 else 0).
Proof.
  unfold executions. induction l as [|y l IH]; simpl; [set_solver |].
  intros Hin. destruct (decide (y = task)) as [<- | Hne].
  - rewrite filter_cons. case_decide; rewrite ?len_cons; lia.
  - specialize (IH ltac:(set_solver)). rewrite !filter_cons.
    destruct (decide (is_execution y)); rewrite ?len_cons; lia.
Qed.

Lemma executions_snoc l x :
  executions (l ++ [x]) = executions l + (if decide (is_execution x) then 1 else 0).
Proof.
  unfold executions. rewrite filter_app, len_app. f_equal. rewrite filter_cons.
  by case_decide.
Qed.

Section Invariant.
  Context {C R E : Type} `{!CommandEventMapper R E} (clock : nat -> N).
  Context (clock_mono : forall i j, (i <= j)%nat -> clock i <= clock j).
  Implicit Types (s : CoordinatorTask.t C R E) (k : ActiveKey.t).

(** The last clock reading, in milliseconds since the origin. *)
Definition time s : N := now_millis_at (origin s) (clock (pred (instants s))).

Definition components_ok s : Prop :=
  LeaseInvariant.wf (lease s) /\ LedgerInvariant.wf (ledger s) /\
  (exists log, HubRefinement.refines (events s) log) /\
  LeaseMachine.generation (lease s) = current s /\
  CommandLedger.generation (ledger s) = current s /\
  EventHub.generation (events s) = current s.

(** No machine has observed a time that was not read. *)
Definition clock_ok s : Prop :=
  (1 <= instants s)%nat /\
  (forall t, LeaseMachine.last_observed_at (lease s) = Some t -> t <= time s) /\
  (forall t, CommandLedger.last_observed_at (ledger s) = Some t -> t <= time s).

(** An active command is the command of its key, its channel shows its record, its
    record is in the state of its phase, and it still has its command exactly while
    it is pending.  In the current generation the ledger retains the same record. *)
Definition active_ok s k (a : ActiveCommand.t C R) : Prop :=
  let r := ActiveCommand.record a in
  CommandRecord.principal r = ActiveKey.principal k /\
  CommandRecord.command_id r = ActiveKey.command_id k /\
  CommandRecord.generation r = ActiveKey.generation k /\
  ActiveCommand.updates a = r /\
  match ActiveCommand.phase a with
  | ActivePending => CommandRecord.state r = Accepted /\ is_Some (ActiveCommand.command a)
  | ActiveRunning => CommandRecord.state r = Ledger.Running /\ ActiveCommand.command a = None
  end /\
  GenerationToken.epoch (ActiveKey.generation k) <= GenerationToken.epoch (current s) /\
  (ActiveKey.generation k = current s ->
     record_of (ledger s) (ActiveKey.ledger_key k) = Some r).

Definition actives_ok s : Prop := forall k a, active s !! k = Some a -> active_ok s k a.

(** Every command the ledger has not finished is active. *)
Definition tracked s : Prop :=
  forall ck r, record_of (ledger s) ck = Some r ->
    is_terminal (CommandRecord.state r) = false ->
    is_Some (active s !! ActiveKey.mk (current s) (CommandKey.principal ck)
               (CommandKey.command_id ck)).

Definition has_phase s k (phase : ActivePhase) : Prop :=
  exists a, active s !! k = Some a /\ ActiveCommand.phase a = phase.

Definition pending_ok s : Prop :=
  NoDup (pending s) /\ forall k, k ∈ pending s -> has_phase s k ActivePending.

Definition tasks_ok s : Prop :=
  NoDup (tasks s) /\
  (forall k, ExecutionTask k ∈ tasks s -> has_phase s k ActiveRunning) /\
  executions (tasks s) <= running s <=
    CoordinatorSettings.maximum_concurrent_executions (settings s).

Definition bounds_ok s : Prop :=
  N.of_nat (size (active s)) <= CoordinatorSettings.maximum_active_commands (settings s) /\
  forall p, active_of p s <= CoordinatorSettings.maximum_active_per_principal (settings s).

(** At most one reset is in flight, that of the current attempt, whose lease is being
    reset; attempts are numbered by a growing counter. *)
Definition reset_ok s : Prop :=
  (forall e, ResetTask e ∈ tasks s -> active_reset s = Some e) /\
  (forall e, active_reset s = Some e ->
     e < next_reset_epoch s /\ LeaseMachine.phase (lease s) = PhaseResetting) /\
  next_reset_epoch s <= u64_max.

Definition lifecycle_ok s : Prop :=
  forall k, Lifecycle.stage_of k (outputs s) = Lifecycle.stage_of_active (active s !! k).

Record Inv s : Prop := {
  inv_components : components_ok s;
  inv_clock : clock_ok s;
  inv_actives : actives_ok s;
  inv_tracked : tracked s;
  inv_pending : pending_ok s;
  inv_tasks : tasks_ok s;
  inv_bounds : bounds_ok s;
  inv_reset : reset_ok s;
  inv_lifecycle : lifecycle_ok s;
}.

(** ** Atomic changes *)

(** The calls of the lease machine outside resets and rotations, at times read. *)
Definition lease_call s (o : LeaseTrace.op) : Prop :=
  match o with
  | LeaseTrace.Acquire _ _ _ now _ | LeaseTrace.Renew _ _ _ now _
  | LeaseTrace.Authorize _ _ now _ | LeaseTrace.Release _ _ now _
  | LeaseTrace.AdvanceTime now => now <= time s
  | LeaseTrace.Revoke _ | LeaseTrace.BeginReset => True
  | LeaseTrace.FinishReset | LeaseTrace.Rotate _ => False
  end.

Inductive micro (scope : Scope) s : CoordinatorTask.t C R E -> Prop :=
  | m_clock : micro scope s (set_instants (S (instants s)) s)
  | m_lease o : lease_call s o -> micro scope s (set_lease (LeaseTrace.apply o (lease s)) s)
  | m_finish_reset : ends_reset scope = true -> active_reset s = None ->
      micro scope s (set_lease (LeaseTrace.apply LeaseTrace.FinishReset (lease s)) s)
  | m_reset_failed b : micro scope s (set_reset_failed b s)
  | m_spawn_reset request next :
      LeaseMachine.phase (lease s) = PhaseResetting -> active_reset s = None ->
      next = next_reset_epoch s + 1 -> next <= u64_max ->
      ResetRequest.reset_epoch request = next_reset_epoch s ->
      micro scope s (set_tasks (tasks s ++ [ResetTask (next_reset_epoch s)])
        (emit (ResetRequested request)
          (set_active_reset (Some (next_reset_epoch s)) (set_next_reset_epoch next s))))
  | m_quiet now l' : quiet now (ledger s) l' -> now <= time s -> micro scope s (set_ledger l' s)
  | m_activate k command deadline record now l' :
      active s !! k = None ->
      N.of_nat (size (active s)) < CoordinatorSettings.maximum_active_commands (settings s) ->
      active_of (ActiveKey.principal k) s
        < CoordinatorSettings.maximum_active_per_principal (settings s) ->
      ActiveKey.generation k = current s ->
      CommandRecord.principal record = ActiveKey.principal k ->
      CommandRecord.command_id record = ActiveKey.command_id k ->
      CommandRecord.generation record = ActiveKey.generation k ->
      CommandRecord.state record = Accepted ->
      records_update now (ActiveKey.ledger_key k) record (ledger s) l' -> now <= time s ->
      micro scope s (emit (Updated k record) (set_pending (pending s ++ [k])
        (set_active (<[k := ActiveCommand.mk (Some command) deadline ActivePending StopContinue
                              record record]> (active s)) (set_ledger l' s))))
  | m_settle k a record out now l' :
      active s !! k = Some a ->
      ActiveCommand.phase a = ActivePending \/ ExecutionTask k ∉ tasks s ->
      CommandRecord.state record = Terminal out ->
      (ActiveKey.generation k = current s /\ now <= time s /\
         records_update now (ActiveKey.ledger_key k) record (ledger s) l') \/
      (ActiveKey.generation k <> current s /\ l' = ledger s) ->
      micro scope s (emit (Updated k record)
        (set_pending (if decide (ActiveCommand.phase a = ActivePending)
                      then filter (fun k' => k' <> k) (pending s) else pending s)
          (set_active (delete k (active s)) (set_ledger l' s))))
  | m_publish event encoded_size g : micro scope s (fst (publish_event event encoded_size g s))
  | m_stop k reason : micro scope s (request_stop k reason s)
  | m_pop k rest : pending s = k :: rest -> micro scope s (set_pending rest s)
  | m_start k a command context now l' :
      active s !! k = Some a -> ActiveCommand.phase a = ActivePending -> k ∉ pending s ->
      running s < CoordinatorSettings.maximum_concurrent_executions (settings s) ->
      ActiveKey.generation k = current s -> now <= time s ->
      let record := CommandRecord.set_state Ledger.Running now (ActiveCommand.record a) in
      records_update now (ActiveKey.ledger_key k) record (ledger s) l' ->
      micro scope s (set_running (running s + 1) (emit (Executed k command context)
        (set_tasks (tasks s ++ [ExecutionTask k]) (emit (Updated k record)
          (set_active (<[k := ActiveCommand.mk None (ActiveCommand.deadline a) ActiveRunning
                                (ActiveCommand.stop a) record record]> (active s))
            (set_ledger l' s))))))
  | m_rotate g g' s' : rotate_components g s = (s', Ok g') -> micro scope s s'
  | m_execution_ended k : ends_task scope = true -> ExecutionTask k ∈ tasks s ->
      micro scope s (set_running (running s - 1)
        (set_tasks (remove_task (ExecutionTask k) (tasks s)) s))
  | m_reset_ended e : ends_task scope = true -> ResetTask e ∈ tasks s ->
      micro scope s (set_active_reset None
        (set_tasks (remove_task (ResetTask e) (tasks s)) s))
  | m_lost task : loses_task scope = true -> task ∈ tasks s ->
      micro scope s (set_tasks (remove_task task (tasks s)) s)
  | m_shutdown reply :
      micro scope s (set_receiver_closed true (set_shutdown_reply reply (set_shutting_down true s)))
  | m_replied : micro scope s (emit ShutdownReplied s).

(** ** Preservation *)

Lemma time_advances s : time s <= time (set_instants (S (instants s)) s).
Proof. unfold time. simpl. apply now_millis_at_mono, clock_mono. lia. Qed.

Lemma record_of_terminal_update now ck r (l l' : CommandLedger.t (CommandTerminal.t R)) ck' r' :
  records_update now ck r l l' -> ck' <> ck ->
  is_terminal (CommandRecord.state r') = false ->
  record_of l' ck' = Some r' <-> record_of l ck' = Some r'.
Proof.
  intros (_ & _ & _ & Hr) Hne Ht. destruct (Hr _ Hne) as [-> | (-> & r0 & -> & Ht0)]; [done |].
  split; [done |]. intros [= ->]. congruence.
Qed.

Lemma quiet_record_of now (l l' : CommandLedger.t (CommandTerminal.t R)) ck r :
  quiet now l l' -> is_terminal (CommandRecord.state r) = false ->
  record_of l' ck = Some r <-> record_of l ck = Some r.
Proof.
  intros (_ & _ & Hr) Ht. destruct (Hr ck) as [-> | (-> & r0 & -> & Ht0)]; [done |].
  split; [done |]. intros [= ->]. congruence.
Qed.

(** The records of active commands are not terminal. *)
Lemma active_ok_live s k a :
  active_ok s k a -> is_terminal (CommandRecord.state (ActiveCommand.record a)) = false.
Proof.
  intros (_ & _ & _ & _ & Hp & _).
  destruct (ActiveCommand.phase a), Hp as [Hst _]; by rewrite Hst.
Qed.

(** Two keys of the current generation are filed differently. *)
Lemma ledger_key_inj (k k' : ActiveKey.t) :
  ActiveKey.generation k = ActiveKey.generation k' ->
  ActiveKey.ledger_key k = ActiveKey.ledger_key k' -> k = k'.
Proof. destruct k, k'. unfold ActiveKey.ledger_key. simpl. intros -> [= -> ->]. done. Qed.

Lemma frame_clock now s (l' : CommandLedger.t (CommandTerminal.t R)) :
  same_frame now (ledger s) l' -> now <= time s -> clock_ok s -> clock_ok (set_ledger l' s).
Proof.
  intros (_ & _ & _ & Hl) Hnow (Hi & Hlease & Hledger).
  split; [done |]. split; [done |]. simpl. intros t Ht.
  change (time (set_ledger l' s)) with (time s). destruct Hl as [Hl | Hl]; rewrite Hl in Ht.
  - by apply Hledger.
  - by injection Ht as <-.
Qed.

Lemma inv_clock_step s : Inv s -> Inv (set_instants (S (instants s)) s).
Proof.
  intros [? (Hi & Hl & Hd) ? ? ? ? ? ? ?]. constructor; try done.
  pose proof (time_advances s). split; [simpl; lia |].
  split; intros t Ht; [specialize (Hl t Ht) | specialize (Hd t Ht)]; lia.
Qed.

Lemma inv_lease_step s o :
  lease_call s o -> Inv s -> Inv (set_lease (LeaseTrace.apply o (lease s)) s).
Proof.
  intros Ho [(Hlwf & ? & ? & Hlg & ? & ?) (Hi & Hl & Hd) ? ? ? ? ? (Hr1 & Hr2 & Hr3) ?].
  assert (match o with LeaseTrace.Rotate _ => False | _ => True end) as Hnr by by destruct o.
  destruct (LeaseTrace.apply_frame o (lease s) Hnr) as [Hgen Hlast].
  constructor; try done.
  - split; [by apply LeaseInvariant.lease_apply_wf |]. split_and!; try done. by etrans; [exact Hgen |].
  - split; [done |]. split; [| done]. intros t Ht. cbn [lease set_lease] in Ht.
    change (time (set_lease _ s)) with (time s).
    destruct Hlast as [Heq | Heq]; rewrite Heq in Ht; [by apply Hl |].
    destruct o; simpl in *; simplify_eq; done.
  - split; [done |]. split; [| done]. intros e He. destruct (Hr2 e He) as [? Hph].
    split; [done |]. simpl. revert Hph. unfold LeaseMachine.phase.
    pose proof (LeaseTrace.apply_transition o (lease s)) as Ht.
    destruct (LeaseMachine.state (lease s)); try done. intros _.
    apply LeaseTrace.transition_resetting in Ht as [-> | [-> _]]; done.
Qed.

Lemma inv_finish_reset_step s :
  active_reset s = None -> Inv s ->
  Inv (set_lease (LeaseTrace.apply LeaseTrace.FinishReset (lease s)) s).
Proof.
  intros Hn [(Hlwf & ? & ? & Hlg & ? & ?) (Hi & Hl & Hd) ? ? ? ? ? (Hr1 & Hr2 & Hr3) ?].
  destruct (LeaseTrace.apply_frame LeaseTrace.FinishReset (lease s) I) as [Hgen Hlast].
  constructor; try done.
  - split; [by apply LeaseInvariant.lease_apply_wf |]. split_and!; try done. by etrans; [exact Hgen |].
  - split; [done |]. split; [| done]. intros t Ht. cbn [lease set_lease] in Ht.
    change (time (set_lease _ s)) with (time s).
    destruct Hlast as [Heq | Heq]; rewrite Heq in Ht; [by apply Hl | done].
  - split; [done |]. split; [| done]. intros e He. simpl in He. congruence.
Qed.

Lemma has_phase_insert s k k' (a : ActiveCommand.t C R) phase :
  has_phase s k' phase -> k' <> k ->
  exists a', <[k := a]> (active s) !! k' = Some a' /\ ActiveCommand.phase a' = phase.
Proof. intros (a' & Ha & Hp) Hne. exists a'. by rewrite lookup_insert_ne. Qed.

Lemma inv_reset_failed_step s b : Inv s -> Inv (set_reset_failed b s).
Proof. intros []. by constructor. Qed.

Lemma inv_spawn_reset_step s request next :
  LeaseMachine.phase (lease s) = PhaseResetting -> active_reset s = None ->
  next = next_reset_epoch s + 1 -> next <= u64_max -> Inv s ->
  Inv (set_tasks (tasks s ++ [ResetTask (next_reset_epoch s)])
        (emit (ResetRequested request)
          (set_active_reset (Some (next_reset_epoch s)) (set_next_reset_epoch next s)))).
Proof.
  intros Hph Hn -> Hmax [? ? ? ? ? (Hnd & Hex & Hrun) ? (Hr1 & Hr2 & Hr3) Hlc].
  constructor; try done.
  - split; [| split]; simpl.
    + apply NoDup_app. split_and!; [done | | apply NoDup_singleton].
      intros x Hx ->%list_elem_of_singleton. apply Hr1 in Hx. congruence.
    + intros k [Hk | Hk%list_elem_of_singleton]%elem_of_app; [by apply Hex | done].
    + rewrite executions_snoc. simpl. lia.
  - split; [| split]; simpl; [| | done].
    + intros e [He | [= ->]%list_elem_of_singleton]%elem_of_app; [apply Hr1 in He; congruence | done].
    + intros e [= <-]. split; [lia | done].
  - intros k. simpl. rewrite Lifecycle.stage_of_snoc. apply Hlc.
Qed.

Lemma inv_quiet_step s now l' :
  quiet now (ledger s) l' -> now <= time s -> Inv s -> Inv (set_ledger l' s).
Proof.
  intros Hq Hnow [(? & ? & ? & ? & Hg & ?) Hc Ha Ht ? ? ? ? ?].
  pose proof Hq as (Hwf & Hf & _). pose proof Hf as (Hgen & _).
  constructor; try done.
  - split_and!; try done. simpl. by rewrite Hgen.
  - by eapply frame_clock.
  - intros k a Hk. specialize (Ha k a Hk). pose proof (active_ok_live _ _ _ Ha) as Hl.
    destruct Ha as (? & ? & ? & ? & ? & ? & Hrec). split_and!; try done.
    intros Hk'. apply (quiet_record_of _ _ _ _ _ Hq Hl). by apply Hrec.
  - intros ck r Hr Hl. apply (Ht ck r); [| done]. by apply (quiet_record_of _ _ _ _ _ Hq Hl).
Qed.

Lemma inv_activate_step s k command deadline record now l' :
  active s !! k = None ->
  N.of_nat (size (active s)) < CoordinatorSettings.maximum_active_commands (settings s) ->
  active_of (ActiveKey.principal k) s
    < CoordinatorSettings.maximum_active_per_principal (settings s) ->
  ActiveKey.generation k = current s ->
  CommandRecord.principal record = ActiveKey.principal k ->
  CommandRecord.command_id record = ActiveKey.command_id k ->
  CommandRecord.generation record = ActiveKey.generation k ->
  CommandRecord.state record = Accepted ->
  records_update now (ActiveKey.ledger_key k) record (ledger s) l' -> now <= time s ->
  Inv s ->
  Inv (emit (Updated k record) (set_pending (pending s ++ [k])
        (set_active (<[k := ActiveCommand.mk (Some command) deadline ActivePending StopContinue
                              record record]> (active s)) (set_ledger l' s)))).
Proof.
  intros Hk Hmax Hper Hgen Hrp Hrc Hrg Hst Hup Hnow
    [(? & ? & ? & ? & Hg & ?) Hc Ha Ht (Hnd & Hpend) (Htn & Htx & Htr) (Hb1 & Hb2) Hr Hlc].
  pose proof Hup as (Hwf & Hf & Hrk & Hothers). pose proof Hf as (Hlg & _).
  constructor; try done.
  - split_and!; try done. simpl. by rewrite Hlg.
  - by apply (frame_clock now s l').
  - intros k' a. simpl. intros [[<- <-] | [Hne Hk']]%lookup_insert_Some.
    + split_and!; try done. rewrite Hgen. done.
    + specialize (Ha k' a Hk'). pose proof (active_ok_live _ _ _ Ha) as Hl.
      destruct Ha as (? & ? & ? & ? & ? & ? & Hrec). split_and!; try done.
      intros Hk''. change (ActiveKey.generation k' = current s) in Hk''.
      apply (record_of_terminal_update _ _ _ _ _ _ _ Hup); [| done | by apply Hrec].
      intros Heq. apply Hne. symmetry. apply ledger_key_inj; [congruence | done].
  - intros ck r Hck Hl. cbn [active emit set_pending set_active set_outputs].
    apply lookup_insert_is_Some'.
    destruct (decide (ck = ActiveKey.ledger_key k)) as [-> | Hne].
    + left. change (k = ActiveKey.mk (current s) (ActiveKey.principal k) (ActiveKey.command_id k)).
      rewrite <- Hgen. by destruct k.
    + right. apply (Ht ck r); [| done].
      by apply (record_of_terminal_update _ _ _ _ _ _ _ Hup Hne Hl).
  - split; simpl.
    + apply NoDup_app. split_and!; [done | | apply NoDup_singleton].
      intros x Hx ->%list_elem_of_singleton. destruct (Hpend k Hx) as (a & ? & _). congruence.
    + intros k' [Hk' | ->%list_elem_of_singleton]%elem_of_app; unfold has_phase; simpl.
      * apply has_phase_insert; [by apply Hpend |]. intros ->.
        destruct (Hpend k Hk') as (? & ? & _). congruence.
      * rewrite lookup_insert_eq. eauto.
  - split; [done |]. split; [| done]. intros k' Hk'. apply has_phase_insert; [by apply Htx |].
    intros ->. destruct (Htx k Hk') as (? & ? & _). congruence.
  - split; simpl.
    + rewrite map_size_insert_None by done. lia.
    + intros p. unfold active_of. cbn [active set_pending set_active set_ledger emit set_outputs].
      change (btree_count ActiveKey.cmp (fun k' => ActiveKey.principal k' = p)
        (<[k := ActiveCommand.mk (Some command) deadline ActivePending StopContinue
                              record record]> (active s))
        <= CoordinatorSettings.maximum_active_per_principal (settings s)).
      rewrite btree_count_insert_new by done. specialize (Hb2 p).
      change (active_of p s) with
        (btree_count ActiveKey.cmp (fun k' => ActiveKey.principal k' = p) (active s)) in Hb2.
      case_decide as Hp; [| lia]. subst p.
      change (active_of (ActiveKey.principal k) s) with (btree_count ActiveKey.cmp
        (fun k' => ActiveKey.principal k' = ActiveKey.principal k) (active s)) in Hper. lia.
  - intros k'. simpl. rewrite Lifecycle.stage_of_snoc, Hlc. simpl.
    case_decide as Hk'; [subst k'; by rewrite Hk, lookup_insert_eq, Hst |].
    by rewrite lookup_insert_ne.
Qed.

(** The ledger's side of a completion or a start. *)
Lemma update_components now ck record s l' :
  records_update now ck record (ledger s) l' -> components_ok s ->
  components_ok (set_ledger l' s).
Proof.
  intros (Hwf & (Hgen & _) & _) (? & ? & ? & ? & Hg & ?). split_and!; try done.
  simpl. by rewrite Hgen.
Qed.

Lemma inv_settle_step s k a record out now l' :
  active s !! k = Some a ->
  ActiveCommand.phase a = ActivePending \/ ExecutionTask k ∉ tasks s ->
  CommandRecord.state record = Terminal out ->
  (ActiveKey.generation k = current s /\ now <= time s /\
     records_update now (ActiveKey.ledger_key k) record (ledger s) l') \/
  (ActiveKey.generation k <> current s /\ l' = ledger s) ->
  Inv s ->
  Inv (emit (Updated k record)
        (set_pending (if decide (ActiveCommand.phase a = ActivePending)
                      then filter (fun k' => k' <> k) (pending s) else pending s)
          (set_active (delete k (active s)) (set_ledger l' s)))).
Proof.
  intros Hk Hph Hst Hled
    [Hcomp Hc Ha Ht (Hnd & Hpend) (Htn & Htx & Htr) (Hb1 & Hb2) Hr Hlc].
  assert (components_ok (set_ledger l' s)) as Hcomp'
    by (destruct Hled as [(_ & _ & Hup) | (_ & ->)]; [by eapply update_components | done]).
  constructor; try done.
  - destruct Hled as [(_ & Hnow & (_ & Hf & _)) | (_ & ->)];
      [by apply (frame_clock now s l') | done].
  - intros k' a'. simpl. intros [Hne Hk']%lookup_delete_Some.
    specialize (Ha k' a' Hk'). pose proof (active_ok_live _ _ _ Ha) as Hl.
    destruct Ha as (? & ? & ? & ? & ? & ? & Hrec). split_and!; try done.
    intros Hk''. change (ActiveKey.generation k' = current s) in Hk''.
    destruct Hled as [(Hgen & _ & Hup) | (_ & ->)]; [| by apply Hrec].
    apply (record_of_terminal_update _ _ _ _ _ _ _ Hup); [| done | by apply Hrec].
    intros Heq. apply Hne. symmetry. apply ledger_key_inj; [congruence | done].
  - intros ck r Hck Hl. cbn [active emit set_pending set_active set_outputs].
    apply lookup_delete_is_Some. split.
    + intros Heq.
      change (k = ActiveKey.mk (current s) (CommandKey.principal ck) (CommandKey.command_id ck))
        in Heq. subst k.
      destruct Hled as [(Hgen & _ & (_ & _ & Hrk & _)) | (Hgen & _)]; [| by apply Hgen].
      change (record_of l' (CommandKey.mk (CommandKey.principal ck) (CommandKey.command_id ck))
        = Some record) in Hrk. destruct ck. simpl in *. simplify_eq. by rewrite Hst in Hl.
    + apply (Ht ck r); [| done]. destruct Hled as [(Hgen & _ & Hup) | (_ & ->)]; [| done].
      apply (record_of_terminal_update _ _ _ _ _ _ _ Hup); [| done | done].
      intros ->. destruct Hup as (_ & _ & Hrk & _).
      change (record_of l' (ActiveKey.ledger_key k) = Some r) in Hck. simplify_eq.
      by rewrite Hst in Hl.
  - split; cbn [pending emit set_pending set_active set_outputs].
    + case_decide; [by apply NoDup_filter | done].
    + intros k' Hk'. assert (k' ∈ pending s /\ k' <> k) as [Hin Hne].
      { case_decide as Hp; [by apply list_elem_of_filter in Hk' as [? ?] |].
        split; [done |]. intros ->. destruct (Hpend k Hk') as (? & ? & ?). congruence. }
      destruct (Hpend k' Hin) as (a' & Ha' & Hp'). exists a'. split; [| done].
      simpl. by rewrite lookup_delete_ne.
  - split; [done |]. split; [| done]. intros k' Hk'.
    destruct (Htx k' Hk') as (a' & Ha' & Hp'). exists a'. split; [| done].
    simpl. rewrite lookup_delete_ne; [done |]. intros ->.
    destruct Hph as [Hph | Hph]; [congruence | done].
  - split; simpl.
    + rewrite map_size_delete, Hk. simpl. lia.
    + intros p. specialize (Hb2 p). unfold active_of in *.
      cbn [active set_pending set_active set_ledger emit set_outputs].
      pose proof (btree_count_delete ActiveKey.cmp (fun k' => ActiveKey.principal k' = p)
        (active s) k a Hk) as Hcount. unfold btree_count in Hcount. lia.
  - intros k'. cbn [outputs emit set_outputs set_pending set_active set_ledger active].
    rewrite Lifecycle.stage_of_snoc, Hlc. simpl.
    case_decide as Hk'; [| by rewrite lookup_delete_ne].
    subst k'. rewrite Hk, lookup_delete_eq, Hst. simpl. by destruct (ActiveCommand.phase a).
Qed.

Lemma inv_publish_step s event encoded_size g :
  Inv s -> Inv (fst (publish_event event encoded_size g s)).
Proof.
  intros Hinv. pose proof Hinv as [(? & ? & [log Hlog] & ? & ? & Heg) ? ? ? ? ? ? ? ?].
  unfold publish_event, on_events. simpl. case_decide; simpl; [exact Hinv |].
  pose proof (HubRefinement.publish_refines event encoded_size g (events s) log Hlog) as Hp.
  pose proof (EventLog.publish_generation (EventHub.desktop_id (events s))
    (EventHub.limits (events s)) event encoded_size g log) as Hgen.
  destruct (EventHub.publish event encoded_size g (events s)) as [hub [o | e]],
    (EventLog.publish _ _ _ _ _ _) as [log' r'];
    destruct Hp as (<- & Hlog' & _); simpl in *.
  all: assert (EventHub.generation hub = current s) as Hcur
    by (destruct Hlog as (_ & _ & _ & Hg & _), Hlog' as (_ & _ & _ & Hg' & _); congruence).
  all: constructor; try done; split_and!; try done; eauto.
Qed.

Lemma inv_stop_step s k reason : Inv s -> Inv (request_stop k reason s).
Proof.
  intros [Hcomp Hc Ha Ht (Hnd & Hpend) (Htn & Htx & Htr) (Hb1 & Hb2) Hr Hlc].
  unfold request_stop.
  assert (forall a, ActiveCommand.phase (ActiveCommand.request_stop reason a) =
      ActiveCommand.phase (C:=C) (R:=R) a /\
    ActiveCommand.record (ActiveCommand.request_stop reason a) = ActiveCommand.record a /\
    ActiveCommand.updates (ActiveCommand.request_stop reason a) = ActiveCommand.updates a /\
    ActiveCommand.command (ActiveCommand.request_stop reason a) = ActiveCommand.command a)
    as Hstop by (intros a; unfold ActiveCommand.request_stop; by case_decide).
  assert (forall k' phase, has_phase s k' phase -> exists a',
    alter (ActiveCommand.request_stop reason) k (active s) !! k' = Some a' /\
    ActiveCommand.phase a' = phase) as Hphase.
  { intros k' phase (a & Hk' & Hp). rewrite lookup_alter_if, Hk'. simpl.
    destruct (Hstop a) as (Hp' & _). case_decide; simpl; eexists; (split; [done | congruence]). }
  constructor; try done.
  - intros k' a'. simpl. rewrite lookup_alter_if. intros Hk'.
    destruct (active s !! k') as [a |] eqn:Hk0; [| done].
    specialize (Ha k' a Hk0). destruct (Hstop a) as (Hp & Hrec & Hu & Hcmd).
    case_decide; simplify_eq/=; [| exact Ha].
    unfold active_ok in *. by rewrite Hp, Hrec, Hu, Hcmd.
  - intros ck r Hck Hl. simpl. rewrite lookup_alter_if.
    destruct (Ht ck r Hck Hl) as [a Ha']. change (current s) with (current s) in Ha'.
    unfold current in *. simpl in *. rewrite Ha'. case_decide; simpl; eauto.
  - split; [done |]. intros k' Hk'. by apply Hphase, Hpend.
  - split; [done |]. split; [| done]. intros k' Hk'. by apply Hphase, Htx.
  - destruct (active s !! k) as [a |] eqn:Hk.
    + assert (alter (ActiveCommand.request_stop reason) k (active s) =
        <[k := ActiveCommand.request_stop reason a]> (active s)) as Heq.
      { apply map_eq. intros k'. rewrite lookup_alter_if, lookup_insert.
        case_decide; [subst; by rewrite Hk | by destruct (active s !! k')]. }
      split; simpl.
      * rewrite Heq, map_size_insert_Some by (by rewrite Hk). done.
      * intros p. unfold active_of. simpl. rewrite Heq.
        pose proof (btree_count_insert_old ActiveKey.cmp (fun k' => ActiveKey.principal k' = p)
          (active s) k (ActiveCommand.request_stop reason a) ltac:(eauto)) as Hcount.
        unfold btree_count in Hcount. rewrite Hcount. apply Hb2.
    + rewrite alter_id by congruence. by destruct s.
  - intros k'. simpl. rewrite Hlc, lookup_alter_if.
    destruct (active s !! k') as [a |]; [| done].
    destruct (Hstop a) as (Hp & _). case_decide; simpl; by rewrite ?Hp.
Qed.

Lemma inv_pop_step s k rest : pending s = k :: rest -> Inv s -> Inv (set_pending rest s).
Proof.
  intros Hp [? ? ? ? (Hnd & Hpend) ? ? ? ?]. rewrite Hp in *.
  apply NoDup_cons in Hnd as [? ?]. constructor; try done.
  split; [done |]. intros k' Hk'. apply Hpend. by right.
Qed.

Lemma inv_start_step s k a command context now l' :
  active s !! k = Some a -> ActiveCommand.phase a = ActivePending -> k ∉ pending s ->
  running s < CoordinatorSettings.maximum_concurrent_executions (settings s) ->
  ActiveKey.generation k = current s -> now <= time s ->
  let record := CommandRecord.set_state Ledger.Running now (ActiveCommand.record a) in
  records_update now (ActiveKey.ledger_key k) record (ledger s) l' ->
  Inv s ->
  Inv (set_running (running s + 1) (emit (Executed k command context)
        (set_tasks (tasks s ++ [ExecutionTask k]) (emit (Updated k record)
          (set_active (<[k := ActiveCommand.mk None (ActiveCommand.deadline a) ActiveRunning
                                (ActiveCommand.stop a) record record]> (active s))
            (set_ledger l' s)))))).
Proof.
  intros Hk Hph Hnp Hmax Hgen Hnow record Hup
    [Hcomp Hc Ha Ht (Hnd & Hpend) (Htn & Htx & Htr) (Hb1 & Hb2) (Hr1 & Hr) Hlc].
  assert (components_ok (set_ledger l' s)) as Hcomp' by by eapply update_components.
  pose proof Hup as (_ & Hf & Hrk & _).
  constructor; try done.
  - by apply (frame_clock now s l').
  - intros k' a'. simpl. intros [[<- <-] | [Hne Hk']]%lookup_insert_Some.
    + destruct (Ha k a Hk) as (? & ? & ? & ? & ? & ? & ?). by split_and!.
    + specialize (Ha k' a' Hk'). pose proof (active_ok_live _ _ _ Ha) as Hl.
      destruct Ha as (? & ? & ? & ? & ? & ? & Hrec). split_and!; try done.
      intros Hk''. change (ActiveKey.generation k' = current s) in Hk''.
      apply (record_of_terminal_update _ _ _ _ _ _ _ Hup); [| done | by apply Hrec].
      intros Heq. apply Hne. symmetry. apply ledger_key_inj; [congruence | done].
  - intros ck r Hck Hl. cbn [active emit set_pending set_active set_outputs set_running set_tasks].
    apply lookup_insert_is_Some'.
    destruct (decide (ck = ActiveKey.ledger_key k)) as [-> | Hne].
    + left. change (k = ActiveKey.mk (current s) (ActiveKey.principal k) (ActiveKey.command_id k)).
      rewrite <- Hgen. by destruct k.
    + right. apply (Ht ck r); [| done].
      by apply (record_of_terminal_update _ _ _ _ _ _ _ Hup Hne Hl).
  - split; [done |]. intros k' Hk'. apply has_phase_insert; [by apply Hpend |]. by intros ->.
  - split; [| split]; simpl.
    + apply NoDup_app. split_and!; [done | | apply NoDup_singleton].
      intros x Hx ->%list_elem_of_singleton. destruct (Htx k Hx) as (? & ? & ?). congruence.
    + unfold has_phase. simpl.
      intros k' [Hk' | [= ->]%list_elem_of_singleton]%elem_of_app.
      * apply has_phase_insert; [by apply Htx |]. intros ->.
        destruct (Htx k Hk') as (? & ? & ?). congruence.
      * rewrite lookup_insert_eq. eauto.
    + rewrite executions_snoc. simpl. lia.
  - split; simpl.
    + rewrite map_size_insert_Some by (by rewrite Hk). done.
    + intros p. specialize (Hb2 p). unfold active_of in *. simpl.
      pose proof (btree_count_insert_old ActiveKey.cmp (fun k' => ActiveKey.principal k' = p)
        (active s) k (ActiveCommand.mk None (ActiveCommand.deadline a) ActiveRunning
                                (ActiveCommand.stop a) record record) ltac:(eauto)) as Hcount.
      unfold btree_count in Hcount. by rewrite Hcount.
  - split; [| done]. simpl. intros e [He | He%list_elem_of_singleton]%elem_of_app; [| done].
    by apply Hr1.
  - intros k'. cbn [outputs emit set_outputs set_pending set_active set_ledger active
      set_running set_tasks].
    rewrite !Lifecycle.stage_of_snoc, Hlc. simpl.
    case_decide as Hk'; [| by rewrite lookup_insert_ne].
    subst k'. rewrite Hk, lookup_insert_eq. simpl. by rewrite Hph.
Qed.

(** The four machines rotate together or not at all. *)
Lemma rotate_components_cases g s :
  components_ok s ->
  (exists e, rotate_components g s = (s, Err (GenerationError e)) /\
     snd (GenerationFence.rotate g (generation_fence s)) = Err e) \/
  (exists g', rotate_components g s =
      (set_events (fst (EventHub.rotate_generation g' (events s)))
        (set_ledger (fst (CommandLedger.rotate_generation g' (ledger s)))
          (set_lease (fst (LeaseMachine.rotate_generation g' (lease s)))
            (set_generation_fence (GenerationFence.mkFence g') s))), Ok g') /\
    GenerationFence.rotate g (generation_fence s) = (GenerationFence.mkFence g', Ok g') /\
    rotation_allowed (GenerationToken.desktop_id (current s)) (current s) g').
Proof.
  intros ((Hld & _) & (Hdd & _) & (log & Hed & _) & Hlg & Hdg & Heg).
  unfold rotate_components, on_fence, on_lease, on_ledger, on_events. simpl.
  destruct (GenerationFence.fence_rotate_cases g (generation_fence s))
    as [[e He] | (g' & He & _)].
  { left. exists e. rewrite He. by destruct s. }
  right. exists g'. rewrite He. simpl.
  destruct (rotate_allowed _ _ _ _ He) as [Hall _].
  fold (current s) in Hall. rewrite Hlg in Hld. rewrite Hdg in Hdd. rewrite Heg in Hed.
  assert (rotation_allowed (fenced_desktop (lease s)) (fenced_token (lease s)) g') as Hl
    by (simpl; by rewrite <- Hld, Hlg).
  assert (rotation_allowed (fenced_desktop (ledger s)) (fenced_token (ledger s)) g') as Hd
    by (simpl; by rewrite <- Hdd, Hdg).
  assert (rotation_allowed (fenced_desktop (events s)) (fenced_token (events s)) g') as Hev
    by (simpl; by rewrite <- Hed, Heg).
  apply fenced_rotate_Ok in Hl as (l1 & a1 & Hl1 & _).
  apply fenced_rotate_Ok in Hd as (d1 & a2 & Hd1 & _).
  apply fenced_rotate_Ok in Hev as (e1 & a3 & He1 & _). simpl in *.
  rewrite Hl1. simpl. rewrite Hd1. simpl. rewrite He1. simpl. by split_and!.
Qed.

Lemma lease_rotated g' (m : LeaseMachine.t) :
  rotation_allowed (LeaseMachine.desktop_id m) (LeaseMachine.generation m) g' ->
  LeaseMachine.generation (LeaseTrace.apply (LeaseTrace.Rotate g') m) = g' /\
  (LeaseMachine.last_observed_at (LeaseTrace.apply (LeaseTrace.Rotate g') m) =
     LeaseMachine.last_observed_at m \/
   LeaseMachine.last_observed_at (LeaseTrace.apply (LeaseTrace.Rotate g') m) = None).
Proof.
  intros Hall. split.
  - pose proof (fenced_rotate_Ok m g' Hall) as (m' & a & Hm & Hg & _). simpl in *.
    by rewrite Hm.
  - simpl. unfold LeaseMachine.rotate_generation, LeaseMachine.revoke. simpl.
    repeat case_decide; simpl; auto; destruct (LeaseMachine.state m); simpl; auto.
Qed.

Lemma inv_rotate_step g g' s s' :
  rotate_components g s = (s', Ok g') -> Inv s -> Inv s'.
Proof.
  intros Hrot [Hcomp (Hi & Hcl & Hcd) Ha Ht Hpend Htasks Hb (Hr1 & Hr2 & Hr3) Hlc].
  destruct (rotate_components_cases g s Hcomp) as [(e & He & _) | (g'' & He & _ & Hall)];
    rewrite He in Hrot; simplify_eq.
  destruct Hcomp as (Hlwf & Hdwf & (log & Hlog) & Hlg & Hdg & Heg).
  assert (LeaseMachine.desktop_id (lease s) = GenerationToken.desktop_id (current s)) as Hld
    by (destruct Hlwf as (Hd & _); by rewrite <- Hd, Hlg).
  assert (CommandLedger.desktop_id (ledger s) = GenerationToken.desktop_id (current s)) as Hdd
    by (destruct Hdwf as (Hd & _); by rewrite <- Hd, Hdg).
  assert (EventHub.desktop_id (events s) = GenerationToken.desktop_id (current s)) as Hed
    by (destruct Hlog as (Hd & _); by rewrite <- Hd, Heg).
  pose proof Hall as (_ & Hep & _).
  destruct (lease_rotated g' (lease s)) as [Hlg' Hlast]; [by rewrite Hld, Hlg |].
  destruct (LedgerTrace.ledger_rotate_cases g' (ledger s)) as [(e & _ & _ & Hn) | (Hd' & _)];
    [by rewrite Hdd, Hdg in Hn |].
  destruct (HubRefinement.hub_rotate_cases g' (events s)) as [(e & _ & _ & Hn) | (He' & _)];
    [by rewrite Hed, Heg in Hn |].
  constructor; try done.
  - split_and!; simpl.
    + exact (LeaseInvariant.lease_apply_wf (LeaseTrace.Rotate g') _ Hlwf).
    + by apply LedgerTrace.rotate_wf.
    + destruct (HubRefinement.rotate_refines g' (events s) log Hlog) as [Href _]. eauto.
    + exact Hlg'.
    + by rewrite Hd'.
    + by rewrite He'.
  - split; [done |]. split; intros t; cbn [lease ledger set_lease set_ledger set_events].
    + intros Hlast'. apply Hcl. destruct Hlast as [<- | Heq]; [exact Hlast' |].
      simpl in Heq. congruence.
    + by rewrite Hd'.
  - intros k a Hk. destruct (Ha k a Hk) as (? & ? & ? & ? & ? & Hke & _).
    change (current (set_events (fst (EventHub.rotate_generation g' (events s))) _)) with g'.
    split_and!; try done.
    + change (GenerationToken.epoch (ActiveKey.generation k) <= GenerationToken.epoch g'). lia.
    + change (ActiveKey.generation k = g' -> record_of (fst (CommandLedger.rotate_generation
        g' (ledger s))) (ActiveKey.ledger_key k) = Some (ActiveCommand.record a)).
      intros Hg. rewrite Hg in Hke. lia.
  - intros ck r Hck. exfalso. revert Hck. simpl. rewrite Hd'. unfold record_of. simpl.
    by rewrite lookup_empty.
  - split; [done |]. split; [| done]. intros e He0. destruct (Hr2 e He0) as [? Hph].
    split; [done |]. simpl. revert Hph. unfold LeaseMachine.phase.
    pose proof (LeaseTrace.apply_transition (LeaseTrace.Rotate g') (lease s)) as Htr.
    simpl in Htr. destruct (LeaseMachine.state (lease s)); try done. intros _.
    apply LeaseTrace.transition_resetting in Htr as [-> | [? _]]; done.
Qed.

Lemma inv_remove_task_step s task :
  task ∈ tasks s -> Inv s -> Inv (set_tasks (remove_task task (tasks s)) s).
Proof.
  intros Htask [? ? ? ? ? (Hnd & Hex & Hrun) ? (Hr1 & Hr2 & Hr3) ?].
  constructor; try done.
  - split; [by apply remove_task_NoDup |]. split; simpl.
    + intros k Hk. by eapply Hex, elem_of_remove_task.
    + rewrite (executions_remove task) in Hrun by done. lia.
  - split; [| done]. intros e He. apply Hr1. exact (elem_of_remove_task _ _ _ He).
Qed.

Lemma inv_execution_ended_step s k :
  ExecutionTask k ∈ tasks s -> Inv s ->
  Inv (set_running (running s - 1) (set_tasks (remove_task (ExecutionTask k) (tasks s)) s)).
Proof.
  intros Hin Hs. pose proof (inv_tasks _ Hs) as (_ & _ & Hrun).
  destruct (inv_remove_task_step s _ Hin Hs) as [? ? ? ? ? (Hnd & Hex & _) ? ? ?].
  constructor; try done. split; [done |]. split; [done |]. simpl.
  rewrite (executions_remove (ExecutionTask k)) in Hrun by done. simpl in Hrun. lia.
Qed.

Lemma inv_reset_ended_step s e :
  ResetTask e ∈ tasks s -> Inv s ->
  Inv (set_active_reset None (set_tasks (remove_task (ResetTask e) (tasks s)) s)).
Proof.
  intros Hin Hs. pose proof (inv_reset _ Hs) as (Hone & _). pose proof (inv_tasks _ Hs) as (Hnd & _).
  destruct (remove_task_NoDup (ResetTask e) _ Hnd) as [_ Hout].
  destruct (inv_remove_task_step s _ Hin Hs) as [? ? ? ? ? ? ? (Hr1 & Hr2 & Hr3) ?].
  constructor; try done. split; [| by split]. intros e' He'.
  assert (active_reset s = Some e') as He by (apply Hone; by apply elem_of_remove_task in He').
  specialize (Hone e Hin). simplify_eq. by apply Hout in He'.
Qed.

Lemma inv_shutdown_step s reply :
  Inv s -> Inv (set_receiver_closed true (set_shutdown_reply reply (set_shutting_down true s))).
Proof. intros []. by constructor. Qed.

Lemma inv_replied_step s : Inv s -> Inv (emit ShutdownReplied s).
Proof.
  intros [? ? ? ? ? ? ? ? Hlc]. constructor; try done.
  intros k. simpl. rewrite Lifecycle.stage_of_snoc. apply Hlc.
Qed.

(** Every atomic change preserves the invariant. *)
Lemma micro_inv scope s s' : Inv s -> micro scope s s' -> Inv s'.
Proof.
  intros Hs Hm. destruct Hm;
    eauto using inv_clock_step, inv_lease_step, inv_finish_reset_step, inv_reset_failed_step,
      inv_spawn_reset_step, inv_quiet_step, inv_activate_step, inv_settle_step,
      inv_publish_step, inv_stop_step, inv_pop_step, inv_start_step, inv_rotate_step,
      inv_remove_task_step, inv_execution_ended_step, inv_reset_ended_step, inv_shutdown_step,
      inv_replied_step.
Qed.

End Invariant.
End RuntimeInvariant.
