(* ===== verification/RuntimeSimulation.v ===== *)
(** * The handlers are sequences of atomic changes

    For every operation of the coordinator, a lemma that its run is a sequence of
    [micro] steps.  Consequently every reachable state of the run loop satisfies the
    invariant, whatever messages, completions, failures and timers occur. *)

From stdpp Require Import base numbers list option gmap sets strings.
From Stdlib Require Import Lia.
From S2P Require Import Prelude.
From S2P Require Import Identity.
From S2P Require Import Lease.
From S2P Require Import Ledger.
From S2P Require Import Events.
From S2P Require Import RuntimeTypes.
From S2P Require Import Runtime.
From S2P Require Import RuntimeInvariant.

Local Open Scope N_scope.

Module RuntimeSimulation.
Import CoordinatorTask LedgerView RuntimeInvariant.
Section Simulation.
  Context {C R E : Type} `{!CommandEventMapper R E} (clock : nat -> N).
  Context (clock_mono : forall i j, (i <= j)%nat -> clock i <= clock j).
  (* What may happen on the way. *)
  Context (scope : Scope).
  Implicit Types (s : CoordinatorTask.t C R E) (k : ActiveKey.t).

#[local] Abbreviation time := (RuntimeInvariant.time clock).
#[local] Abbreviation Inv := (RuntimeInvariant.Inv clock).
#[local] Abbreviation micro := (RuntimeInvariant.micro clock scope).

(** From a state of the invariant, [s'] is reached by atomic changes. *)
Definition sim s s' : Prop := Inv s -> steps micro s s'.

Lemma steps_inv s s' : Inv s -> steps micro s s' -> Inv s'.
Proof.
  intros Hs Hst. apply (steps_invariant micro Inv s s'); [| done | done].
  intros a b. by apply micro_inv.
Qed.

Lemma sim_refl s : sim s s.
Proof. intros _. apply steps_refl. Qed.

Lemma sim_trans s t u : sim s t -> sim t u -> sim s u.
Proof.
  intros Hst Htu Hs. pose proof (Hst Hs) as H. eapply steps_app; [done |].
  apply Htu. by eapply steps_inv.
Qed.

(** The step may be chosen knowing the invariant. *)
Lemma sim_intro s s' : (Inv s -> sim s s') -> sim s s'.
Proof. intros H Hs. by apply H. Qed.

Lemma sim_micro s s' : micro s s' -> sim s s'.
Proof. intros Hm _. eapply steps_trans; [apply steps_refl | done]. Qed.

(** ** What atomic changes never touch *)
Definition frame s s' : Prop :=
  settings s' = settings s /\ origin s' = origin s /\ (instants s <= instants s')%nat.

#[export] Instance frame_preorder : PreOrder frame.
Proof.
  unfold frame. split; [intros s; split_and!; done |].
  intros s t u (? & ? & ?) (? & ? & ?). split_and!; [congruence .. | lia].
Qed.

Lemma frame_publish event encoded_size g s :
  frame s (fst (publish_event event encoded_size g s)).
Proof.
  unfold publish_event, on_events. simpl. case_decide; simpl; [done |].
  by destruct (EventHub.publish _ _ _ _) as [h [o | e]].
Qed.

Lemma micro_frame s s' : micro s s' -> frame s s'.
Proof.
  destruct 1; try (unfold frame; simpl; split_and!; (done || lia)).
  - apply frame_publish.
  - revert H. unfold rotate_components, on_fence, on_lease, on_ledger, on_events. simpl.
    destruct (GenerationFence.rotate g (generation_fence s)) as [f [x | e]]; simpl; [| done].
    destruct (LeaseMachine.rotate_generation x (lease s)) as [l [u | e]]; simpl; [| done].
    destruct (CommandLedger.rotate_generation x (ledger s)) as [d [u' | e]]; simpl; [| done].
    destruct (EventHub.rotate_generation x (events s)) as [h [u'' | e]]; simpl; [| done].
    by intros [= <- _].
Qed.

Lemma steps_frame s s' : steps micro s s' -> frame s s'.
Proof.
  intros Hst. apply (steps_relation micro frame (fun _ => True) s s'); [| done | done].
  intros a b _ Hm. split; [done | by apply micro_frame].
Qed.

Lemma frame_time s s' : frame s s' -> time s <= time s'.
Proof.
  intros (_ & Ho & Hi). unfold RuntimeInvariant.time. rewrite Ho.
  apply now_millis_at_mono, clock_mono. lia.
Qed.

(** ** Clock, lease and ledger *)
Lemma now_millis_sim s :
  sim s (fst (now_millis clock s)) /\ snd (now_millis clock s) = time (fst (now_millis clock s)).
Proof. split; [| done]. apply sim_micro, m_clock. Qed.

Lemma instant_now_sim s : sim s (fst (instant_now clock s)).
Proof. apply sim_micro, m_clock. Qed.

Lemma lease_sim s o : lease_call clock s o -> sim s (set_lease (LeaseTrace.apply o (lease s)) s).
Proof. intros Ho. by apply sim_micro, m_lease. Qed.

Lemma spawn_reset_sim s : active_reset s = None -> sim s (spawn_reset s).
Proof.
  intros Hn. unfold spawn_reset.
  destruct (LeaseMachine.snapshot (lease s)) as [| | |l r] eqn:Hsnap; try apply sim_refl.
  destruct (checked_add_u64 (next_reset_epoch s) 1) as [next |] eqn:Hnext.
  - apply checked_add_u64_Some in Hnext as [Heq Hmax].
    eapply sim_trans; [apply sim_micro, (m_reset_failed _ _ s false) |].
    apply sim_micro.
    apply (m_spawn_reset clock scope (set_reset_failed false s)
      (ResetRequest.mk (next_reset_epoch s) l r (current s)) next); try done.
    simpl. unfold LeaseMachine.snapshot, LeaseMachine.phase in *.
    by destruct (LeaseMachine.state (lease s)).
  - apply sim_micro, m_reset_failed.
Qed.

Lemma ensure_reset_started_sim s : sim s (ensure_reset_started s).
Proof.
  unfold ensure_reset_started. case_decide as Hd; [| apply sim_refl].
  destruct Hd as (_ & Hn & _). by apply spawn_reset_sim.
Qed.

Lemma ensure_reset_sim s : sim s (ensure_reset s).
Proof.
  unfold ensure_reset. case_decide as Hd; [| apply ensure_reset_started_sim].
  pose proof (lease_sim s LeaseTrace.BeginReset I) as Hsim. simpl in Hsim.
  destruct (LeaseMachine.begin_reset (lease s)) as [l [u | e]]; simpl in Hsim; [| done].
  eapply sim_trans; [exact Hsim |].
  eapply sim_trans; [apply sim_micro, (m_reset_failed _ _ _ false) |].
  apply ensure_reset_started_sim.
Qed.

Lemma lookup_sim p c now g s :
  now <= time s -> sim s (fst (on_ledger (CommandLedger.lookup_command p c now g) s)).
Proof.
  intros Hnow. apply sim_intro. intros Hs. pose proof (inv_components _ _ Hs) as (_ & Hl & _).
  pose proof (lookup_effect p c now g (ledger s) Hl) as H. unfold on_ledger. simpl.
  destruct (CommandLedger.lookup_command p c now g (ledger s)) as [l' r].
  destruct H as [Hq _]. apply sim_micro. by apply (m_quiet _ _ _ now).
Qed.

(** ** Publications *)
Lemma publish_sim event encoded_size g s : sim s (fst (publish_event event encoded_size g s)).
Proof. apply sim_micro, m_publish. Qed.

Lemma transition_sim p r s : sim s (fst (publish_command_transition p r s)).
Proof.
  unfold publish_command_transition. generalize (map_command_transition p r). intros xs.
  revert s. induction xs as [| x xs IH]; intros s; simpl; [apply sim_refl |].
  pose proof (publish_sim (CoordinatorEvent.event x) (CoordinatorEvent.encoded_size x)
    (CommandRecord.generation r) s) as Hp.
  destruct (publish_event _ _ _ s) as [s' [o | e]]; simpl in *; [| done].
  eapply sim_trans; [done | apply IH].
Qed.

(** ** Completions *)
Lemma complete_active_sim k terminal now s :
  (forall a, active s !! k = Some a ->
     ActiveCommand.phase a = ActivePending \/ ExecutionTask k ∉ tasks s) ->
  now <= time s ->
  sim s (fst (complete_active k terminal now s)).
Proof.
  intros Hph Hnow. apply sim_intro. intros Hs. unfold complete_active. simpl.
  destruct (active s !! k) as [a |] eqn:Hk; simpl; [| apply sim_refl].
  pose proof (inv_components _ _ Hs) as (_ & Hl & _).
  pose proof (inv_actives _ _ Hs k a Hk) as Ha.
  unfold terminal_record. simpl. case_decide as Hg.
  - unfold on_ledger. simpl.
    pose proof (complete_effect (ActiveKey.principal k) (ActiveKey.command_id k) terminal now
      (ActiveKey.generation k) (ledger s) Hl) as Hc.
    destruct (CommandLedger.complete _ _ _ _ _ _) as [l' [r | e]]; simpl in *;
      [| apply sim_micro; by apply (m_quiet _ _ _ now)].
    destruct Hc as (_ & (r0 & _ & _ & ->) & Hup). rewrite Hk. simpl.
    eapply sim_trans;
      [apply sim_micro, (m_settle _ _ s k a (CommandRecord.set_state (Terminal terminal) now r0)
         terminal now l' Hk (Hph a eq_refl) eq_refl); by left |].
    case_decide; simpl; case_decide; try apply sim_refl; apply transition_sim.
  - destruct (is_terminal _) eqn:Ht;
      [rewrite decide_True by done; apply sim_refl | rewrite decide_False by done]. simpl.
    rewrite Hk. simpl.
    eapply sim_trans;
      [apply sim_micro, (m_settle _ _ s k a
         (CommandRecord.set_state (Terminal terminal) now (ActiveCommand.record a))
         terminal now (ledger s) Hk (Hph a eq_refl) eq_refl); by right |].
    case_decide; simpl; case_decide; try apply sim_refl; apply transition_sim.
Qed.

Lemma stop_active_sim cause reason now k s :
  now <= time s -> sim s (fst (stop_active cause reason now k s)).
Proof.
  intros Hnow. unfold stop_active. simpl.
  destruct (active s !! k) as [a |] eqn:Hk; simpl; [| apply sim_refl].
  destruct (ActiveCommand.phase a) eqn:Hp; simpl.
  - apply complete_active_sim; [| done]. intros a' Ha'. simplify_eq. by left.
  - apply sim_micro, m_stop.
Qed.

(** A loop of state changes that needs a time not beyond the last reading. *)
Lemma fold_sim {X} (f : CoordinatorTask.t C R E -> X -> CoordinatorTask.t C R E) now xs s :
  (forall s x, now <= time s -> sim s (f s x)) -> now <= time s -> sim s (fold_left f xs s).
Proof.
  intros Hf. revert s. induction xs as [| x xs IH]; intros s Hnow; simpl; [apply sim_refl |].
  apply sim_intro. intros Hs. eapply sim_trans; [by apply Hf |]. apply IH.
  pose proof (frame_time _ _ (steps_frame _ _ (Hf s x Hnow Hs))). lia.
Qed.

Lemma for_each_sim {X} (f : X -> M (CoordinatorTask.t C R E) CoordinatorError unit) now xs s :
  (forall s x, now <= time s -> sim s (fst (f x s))) -> now <= time s ->
  sim s (fst (for_each f xs s)).
Proof.
  intros Hf. revert s. induction xs as [| x xs IH]; intros s Hnow; simpl; [apply sim_refl |].
  apply sim_intro. intros Hs. pose proof (Hf s x Hnow) as Hx.
  destruct (f x s) as [s' [u | e]]; simpl in *; [| done].
  eapply sim_trans; [done |]. apply IH.
  pose proof (frame_time _ _ (steps_frame _ _ (Hx Hs))). lia.
Qed.

Lemma begin_shutdown_sim reply s : sim s (begin_shutdown clock reply s).
Proof.
  unfold begin_shutdown. case_decide.
  { destruct reply; [apply sim_micro, m_replied | apply sim_refl]. }
  eapply sim_trans; [apply sim_micro, (m_shutdown _ _ s reply) |].
  eapply sim_trans; [apply (lease_sim _ (LeaseTrace.Revoke Lease.Shutdown) I) |].
  eapply sim_trans; [apply sim_micro, (m_reset_failed _ _ _ false) |].
  eapply sim_trans; [apply ensure_reset_sim |].
  match goal with |- sim _ (let '(self, now) := now_millis clock ?x in _) =>
    destruct (now_millis_sim x) as [Hsim Hnow] end.
  destruct (now_millis clock _) as [s' now]. simpl in *. subst now.
  eapply sim_trans; [exact Hsim |].
  apply (fold_sim _ (time s')); [| done].
  intros s1 x Hx. by apply stop_active_sim.
Qed.

(** ** Submission *)

(** What resets never touch. *)
Definition keeps_commands s s' : Prop :=
  active s' = active s /\ pending s' = pending s /\ running s' = running s /\
  ledger s' = ledger s /\ generation_fence s' = generation_fence s /\
  settings s' = settings s /\ origin s' = origin s /\ instants s' = instants s.

Lemma spawn_reset_keeps s : keeps_commands s (spawn_reset s).
Proof.
  unfold spawn_reset. destruct (LeaseMachine.snapshot _); try done.
  by destruct (checked_add_u64 _ _).
Qed.

Lemma ensure_reset_started_keeps s : keeps_commands s (ensure_reset_started s).
Proof. unfold ensure_reset_started. case_decide; [apply spawn_reset_keeps | done]. Qed.

Lemma ensure_reset_keeps s : keeps_commands s (ensure_reset s).
Proof.
  unfold ensure_reset. case_decide; [| apply ensure_reset_started_keeps].
  destruct (LeaseMachine.begin_reset _) as [l [u | e]]; [| done].
  apply (ensure_reset_started_keeps (set_reset_failed false (set_lease l s))).
Qed.

Lemma authorize_lease_sim p lease_req now g s :
  now <= time s ->
  sim s (fst (authorize_lease p lease_req now g s)) /\
  keeps_commands s (fst (authorize_lease p lease_req now g s)).
Proof.
  intros Hnow. unfold authorize_lease. destruct lease_req as [| id]; [split; [apply sim_refl | done] |].
  unfold on_lease. simpl.
  pose proof (lease_sim s (LeaseTrace.Authorize p id now g) Hnow) as Hsim. simpl in Hsim.
  destruct (LeaseMachine.authorize p id now g (lease s)) as [l [u | e]]; simpl in *;
    (split; [eapply sim_trans; [exact Hsim | apply ensure_reset_sim]
            | exact (ensure_reset_keeps (set_lease l s))]).
Qed.

Lemma ensure_reset_down s : shutting_down (ensure_reset s) = shutting_down s.
Proof.
  unfold ensure_reset, ensure_reset_started, spawn_reset.
  repeat first [case_decide | case_match]; done.
Qed.

(** An operation that keeps [shutting_down], or ends by beginning the shutdown. *)
Definition sim_or_down s s' : Prop :=
  (sim s s' /\ shutting_down s' = shutting_down s) \/
  (exists x, sim s x /\ shutting_down x = shutting_down s /\ s' = begin_shutdown clock None x).

Lemma sim_or_down_refl s : sim_or_down s s.
Proof. left. split; [apply sim_refl | done]. Qed.

Lemma sim_or_down_micro s s' :
  micro s s' -> shutting_down s' = shutting_down s -> sim_or_down s s'.
Proof. intros. left. split; [by apply sim_micro | done]. Qed.

Lemma sim_or_down_trans s t u :
  sim s t -> shutting_down t = shutting_down s -> sim_or_down t u -> sim_or_down s u.
Proof.
  intros Hst Hd [[Htu Hd'] | (x & Htx & Hd' & ->)].
  - left. split; [by eapply sim_trans | congruence].
  - right. exists x. split; [by eapply sim_trans | split; [congruence | done]].
Qed.

Lemma sim_or_down_sim s s' : sim_or_down s s' -> sim s s'.
Proof.
  intros [[Hsim _] | (x & Hsim & _ & ->)]; [done |].
  eapply sim_trans; [done | apply begin_shutdown_sim].
Qed.

(** The invariant of the start may be used. *)
Lemma sim_or_down_intro s t u :
  sim s t -> (Inv t -> sim_or_down t u) -> shutting_down t = shutting_down s ->
  Inv s -> sim_or_down s u.
Proof.
  intros Hst Htu Hd Hs. eapply sim_or_down_trans; [done | done |].
  apply Htu. eapply steps_inv; [exact Hs | by apply Hst].
Qed.

Lemma transition_down p r s :
  shutting_down (fst (publish_command_transition p r s)) = shutting_down s.
Proof.
  unfold publish_command_transition. generalize (map_command_transition p r). intros xs.
  revert s. induction xs as [| x xs IH]; intros s; simpl; [done |].
  unfold publish_event at 1, on_events. simpl. case_decide; simpl; [done |].
  destruct (EventHub.publish _ _ _ _) as [h [o | e]]; simpl; [by rewrite IH | done].
Qed.

Lemma activate_cases k command deadline record now l' s :
  active s !! k = None ->
  N.of_nat (size (active s)) < CoordinatorSettings.maximum_active_commands (settings s) ->
  active_of (ActiveKey.principal k) s
    < CoordinatorSettings.maximum_active_per_principal (settings s) ->
  ActiveKey.generation k = current s ->
  CommandRecord.principal record = ActiveKey.principal k ->
  CommandRecord.command_id record = ActiveKey.command_id k ->
  CommandRecord.generation record = ActiveKey.generation k ->
  CommandRecord.state record = Accepted ->
  records_update now (ActiveKey.ledger_key k) record (ledger s) l' -> now <= time s ->
  sim_or_down s (fst (activate clock k command deadline record (set_ledger l' s))).
Proof.
  intros. pose proof (m_activate clock scope s k command deadline record now l') as Hm.
  unfold activate. cbn [bind modify get ret fst snd emit].
  match goal with |- context [publish_command_transition ?p ?r ?x] => set (t := x) end.
  assert (sim s t) as Hst by (apply sim_micro, Hm; done).
  assert (shutting_down t = shutting_down s) as Hd by done. clearbody t. clear Hm.
  pose proof (transition_sim (ActiveKey.principal k) record t) as Ht.
  pose proof (transition_down (ActiveKey.principal k) record t) as Htd.
  destruct (publish_command_transition (ActiveKey.principal k) record t) as [s1 [u | e]];
    simpl in *; [left | right; exists s1]; (split; [by eapply sim_trans |]); [congruence |].
  split; [congruence | done].
Qed.

(** A command of the current generation that the ledger does not know is not active. *)
Lemma unknown_not_active s k :
  Inv s -> ActiveKey.generation k = current s ->
  record_of (ledger s) (ActiveKey.ledger_key k) = None -> active s !! k = None.
Proof.
  intros Hs Hg Hr. destruct (active s !! k) as [a |] eqn:Hk; [| done].
  destruct (inv_actives _ _ Hs k a Hk) as (_ & _ & _ & _ & _ & _ & Ha).
  by rewrite Ha in Hr.
Qed.

Lemma complete_active_down k terminal now s :
  shutting_down (fst (complete_active k terminal now s)) = shutting_down s.
Proof.
  unfold complete_active. simpl.
  destruct (active s !! k) as [a |] eqn:Hk; simpl; [| done].
  unfold terminal_record. simpl. case_decide as Hg.
  - unfold on_ledger. simpl.
    destruct (CommandLedger.complete _ _ _ _ _ _) as [l' [r | e]]; simpl; [| done].
    rewrite Hk. simpl. case_decide; simpl; case_decide; try done; by rewrite transition_down.
  - case_decide; simpl; [done |]. rewrite Hk. simpl.
    case_decide; simpl; case_decide; try done; by rewrite transition_down.
Qed.

Lemma authorize_lease_down p lease_req now g s :
  shutting_down (fst (authorize_lease p lease_req now g s)) = shutting_down s.
Proof.
  unfold authorize_lease. destruct lease_req as [| id]; [done |]. unfold on_lease. simpl.
  by destruct (LeaseMachine.authorize p id now g (lease s)) as [l [u | e]]; simpl;
    rewrite ensure_reset_down.
Qed.

Lemma submit_command_cases admission s :
  Inv s -> sim_or_down s (fst (submit_command clock admission s)).
Proof.
  destruct admission as [p c h g req within command]. unfold submit_command.
  destruct (now_millis_sim s) as [Hclk Hnow]. unfold now_millis in *.
  assert (shutting_down (fst (instant_now clock s)) = shutting_down s) as Hd by done.
  destruct (instant_now clock s) as [s1 instant] eqn:Hin. simpl in Hclk, Hnow, Hd.
  apply (sim_or_down_intro _ _ _ Hclk); [| done]. intros Hs. simpl.
  destruct (deadline_after instant within) as [deadline | e]; simpl; [| apply sim_or_down_refl].
  set (now := now_millis_at (origin s1) instant) in *.
  assert (now <= time s1) as Hle by lia. clearbody now. clear Hnow Hclk Hin Hd s.
  pose proof (inv_components _ _ Hs) as (_ & Hl & _ & _ & Hlg & _).
  pose proof (lookup_sim p c now g s1 Hle) as Hlook. unfold on_ledger in *. simpl in *.
  pose proof (lookup_effect p c now g (ledger s1) Hl) as Heff.
  destruct (CommandLedger.lookup_command p c now g (ledger s1)) as [l1 [known | e]];
    simpl in *; [| by left].
  revert Hs. eapply sim_or_down_intro; [exact Hlook | | done]. intros Hs.
  destruct Heff as [Hq Hknown]. destruct (Hknown known eq_refl) as [Hg Hrec]. clear Hknown.
  destruct known as [record |]; simpl.
  { unfold resubmission. simpl. case_decide; simpl; [apply sim_or_down_refl |].
    destruct (active s1 !! _); simpl; [apply sim_or_down_refl |].
    destruct (is_terminal _); apply sim_or_down_refl. }
  case_decide as Hmax; simpl; [apply sim_or_down_refl |].
  case_decide as Hper; simpl; [apply sim_or_down_refl |].
  set (s2 := set_ledger l1 s1) in *.
  assert (time s1 = time s2) as Htime by done. rewrite Htime in Hle. clear Htime.
  destruct (authorize_lease_sim p req now g s2 Hle) as [Hauth Hkeep].
  pose proof (authorize_lease_down p req now g s2) as Hd3.
  destruct (authorize_lease p req now g s2) as [s3 [u | e]]; simpl in *; [| by left].
  revert Hs. eapply sim_or_down_intro; [exact Hauth | | done]. intros Hs3.
  destruct Hkeep as (Hact & _ & _ & Hled & Hfence & Hset & Horig & Hinst).
  pose proof (inv_components _ _ Hs3) as (_ & Hl3 & _).
  pose proof (admit_effect p c h now g (ledger s3) Hl3) as Hadm. cbv zeta in Hadm.
  assert (now <= time s3) as Hle3
    by (revert Hle; unfold RuntimeInvariant.time; by rewrite Horig, Hinst).
  destruct (CommandLedger.admit_command p c h now g (ledger s3)) as [l4 [[r | r] | e]]; simpl.
  - destruct Hadm as (-> & Hg4 & Hup & _).
    assert (g = current s3) as Hgc
      by (destruct (inv_components _ _ Hs3) as (_ & _ & _ & _ & <- & _); done).
    apply (activate_cases _ _ _ _ now); try done.
    + apply unknown_not_active; [done | exact Hgc |].
      unfold ActiveKey.ledger_key. simpl. by rewrite Hled.
    + rewrite Hact, Hset. simpl in *. lia.
    + unfold active_of in *. rewrite Hact, Hset. simpl in *. lia.
  - apply sim_or_down_micro; [| done]. destruct Hadm as [Hadm _]. by apply (m_quiet _ _ _ now).
  - apply sim_or_down_micro; [| done]. by apply (m_quiet _ _ _ now).
Qed.

Lemma submit_command_sim admission s : sim s (fst (submit_command clock admission s)).
Proof.
  apply sim_intro. intros Hs. by apply sim_or_down_sim, submit_command_cases.
Qed.

Lemma cancel_command_sim p c g s : sim s (fst (cancel_command clock p c g s)).
Proof.
  unfold cancel_command. destruct (now_millis_sim s) as [Hclk Hnow].
  destruct (now_millis clock s) as [s1 now]. simpl in Hclk, Hnow. subst now.
  eapply sim_trans; [exact Hclk |]. cbv zeta.
  destruct (active s1 !! ActiveKey.mk g p c) as [a |] eqn:Hk.
  - pose proof (stop_active_sim Cancelled StopCancelled (time s1) (ActiveKey.mk g p c) s1
      ltac:(lia)) as Hst. simpl.
    by destruct (stop_active _ _ _ _ s1) as [s2 [u | e]].
  - pose proof (lookup_sim p c (time s1) g s1 ltac:(lia)) as Hl. simpl.
    destruct (on_ledger _ s1) as [s2 [[r |] | e]]; simpl in *; try exact Hl.
    destruct (is_terminal _); exact Hl.
Qed.

Lemma watch_command_sim p c g s : sim s (fst (watch_command clock p c g s)).
Proof.
  unfold watch_command. destruct (now_millis_sim s) as [Hclk Hnow].
  destruct (now_millis clock s) as [s1 now]. simpl in Hclk, Hnow. subst now.
  eapply sim_trans; [exact Hclk |].
  pose proof (lookup_sim p c (time s1) g s1 ltac:(lia)) as Hl. simpl.
  destruct (on_ledger _ s1) as [s2 [[r |] | e]]; simpl in *; try exact Hl.
  destruct (active s2 !! _); [exact Hl |]. destruct (is_terminal _); exact Hl.
Qed.

(** ** Rotation *)
Lemma retire_commands_sim g' s : sim s (fst (retire_commands clock g' s)).
Proof.
  unfold retire_commands. destruct (now_millis_sim s) as [Hclk Hnow].
  destruct (now_millis clock s) as [s2 now]. simpl in Hclk, Hnow. subst now.
  eapply sim_trans; [exact Hclk |].
  apply (for_each_sim _ (time s2)); [| lia].
  intros s4 k Hle. by apply stop_active_sim.
Qed.

Lemma rotate_generation_sim g s : sim s (fst (rotate_generation clock g s)).
Proof.
  apply sim_intro. intros Hs. unfold rotate_generation. unfold bind at 1.
  destruct (rotate_components_cases g s (inv_components _ _ Hs))
    as [(e & He & _) | (g' & He & _)]; rewrite He; [apply sim_refl |].
  eapply sim_trans; [apply sim_micro; by eapply m_rotate |].
  match goal with |- sim ?x _ => set (s1 := x); clearbody s1 end.
  pose proof (retire_commands_sim g' s1) as Hr. simpl.
  destruct (retire_commands clock g' s1) as [s3 [u | e]]; simpl in *; [| done].
  eapply sim_trans; [done | apply ensure_reset_sim].
Qed.

(** ** Completions of tasks *)
Lemma execution_completion_sim k outcome s :
  ends_task scope = true -> ExecutionTask k ∈ tasks s ->
  sim s (handle_completion clock (Execution k outcome)
           (set_tasks (remove_task (ExecutionTask k) (tasks s)) s)).
Proof.
  intros Hscope Hin. apply sim_intro. intros Hs. unfold handle_completion.
  pose proof (inv_tasks _ _ Hs) as (Hnd & _).
  destruct (remove_task_NoDup (ExecutionTask k) _ Hnd) as [_ Hout].
  eapply sim_trans; [apply sim_micro; by apply (m_execution_ended _ _ _ k) |]. cbv zeta.
  match goal with |- sim ?x _ => set (s1 := x) end.
  assert (ExecutionTask k ∉ tasks s1) as Hout1 by done.
  change (set_running _ _) with s1. clearbody s1.
  destruct (active s1 !! k) as [a |]; [| apply sim_refl].
  destruct (now_millis_sim s1) as [Hclk Hnow].
  assert (tasks (fst (now_millis clock s1)) = tasks s1) as Ht by done.
  destruct (now_millis clock s1) as [s2 now]. simpl in Hclk, Hnow, Ht. subst now.
  eapply sim_trans; [exact Hclk |]. apply complete_active_sim; [| lia].
  intros a' _. right. by rewrite Ht.
Qed.

Lemma reset_completion_sim e outcome s :
  ends_task scope = true -> (outcome = ResetComplete -> ends_reset scope = true) ->
  ResetTask e ∈ tasks s ->
  sim s (handle_completion clock (Reset e outcome)
           (set_tasks (remove_task (ResetTask e) (tasks s)) s)).
Proof.
  intros Hscope Hfin Hin. apply sim_intro. intros Hs. unfold handle_completion.
  pose proof (inv_reset _ _ Hs) as (Hr1 & _).
  rewrite decide_False by (intros Hn; apply Hn; simpl; by apply Hr1). cbv zeta.
  eapply sim_trans; [apply sim_micro; by apply (m_reset_ended _ _ _ e) |].
  match goal with |- sim ?x _ => set (s1 := x) end.
  assert (active_reset s1 = None) as Hn by done.
  change (set_active_reset _ _) with s1. clearbody s1.
  destruct outcome; [specialize (Hfin eq_refl) | apply sim_micro, m_reset_failed].
  eapply sim_trans; [apply sim_micro, (m_reset_failed _ _ _ false) |].
  pose proof (m_finish_reset clock scope (set_reset_failed false s1) Hfin Hn) as Hm.
  unfold ignore, on_lease. simpl in *.
  destruct (LeaseMachine.finish_reset (lease s1)) as [l [u | e']]; by apply sim_micro.
Qed.

(** The completions that end a reset transaction. *)
Definition finishes (completion : TaskCompletion R) : bool :=
  match completion with Reset _ ResetComplete => true | _ => false end.

Lemma completion_sim completion s :
  ends_task scope = true -> (finishes completion = true -> ends_reset scope = true) ->
  completed_task completion ∈ tasks s ->
  sim s (handle_completion clock completion
           (set_tasks (remove_task (completed_task completion) (tasks s)) s)).
Proof.
  intros Hscope Hfin Hin. destruct completion as [k outcome | e outcome].
  - by apply execution_completion_sim.
  - apply reset_completion_sim; [done | intros ->; by apply Hfin | done].
Qed.

(** ** Starting commands *)
Lemma start_command_cases k a s :
  active s !! k = Some a -> ActiveCommand.phase a = ActivePending -> k ∉ pending s ->
  running s < CoordinatorSettings.maximum_concurrent_executions (settings s) ->
  Inv s -> sim_or_down s (fst (start_command clock k s)).
Proof.
  intros Hk Hph Hnp Hmax. unfold start_command.
  assert (exists s1, now_millis clock s = (s1, time s1) /\ sim s s1 /\
    active s1 = active s /\ pending s1 = pending s /\ running s1 = running s /\
    settings s1 = settings s /\ shutting_down s1 = shutting_down s)
    as (s1 & He & Hclk & Ha1 & Hp1 & Hr1 & Hs1 & Hd1).
  { exists (set_instants (S (instants s)) s). split; [reflexivity |].
    split; [apply sim_micro, m_clock | done]. }
  rewrite He. rewrite <- Ha1 in Hk. rewrite <- Hp1 in Hnp. rewrite <- Hr1, <- Hs1 in Hmax.
  eapply sim_or_down_intro; [exact Hclk | | done]. clear He Hclk Ha1 Hp1 Hr1 Hs1 Hd1 s. intros Hs.
  pose proof (inv_components _ _ Hs) as (_ & Hl & _ & _ & Hlg & _).
  pose proof (inv_actives _ _ Hs k a Hk) as Ha.
  pose proof (mark_running_effect (ActiveKey.principal k) (ActiveKey.command_id k) (time s1)
    (ActiveKey.generation k) (ledger s1) Hl) as Hm. cbv zeta in Hm.
  unfold on_ledger. simpl.
  destruct (CommandLedger.mark_running _ _ _ _ _) as [l' [r | e]]; simpl.
  2: { right. eexists. split; [apply sim_micro; by apply (m_quiet _ _ _ (time s1) l') | done]. }
  destruct Hm as (Hg & (r0 & Hr0 & _ & ->) & Hup). rewrite Hlg in Hg.
  destruct Ha as (_ & _ & _ & _ & Hphase & _ & Hrec).
  specialize (Hrec Hg). unfold ActiveKey.ledger_key in Hrec. rewrite Hrec in Hr0. simplify_eq.
  rewrite Hph in Hphase. destruct Hphase as (_ & command & Hcmd). rewrite Hk, Hcmd. cbv zeta.
  match goal with |- context [publish_command_transition ?p ?r ?x] => set (t := x) end.
  assert (sim s1 t) as Hst by (apply sim_micro; apply (m_start clock scope s1 k a command
      (ExecutionContext.mk (ActiveKey.generation k) (ActiveCommand.deadline a)
        (ActiveCommand.stop a)) (time s1) l'); done || lia).
  assert (shutting_down t = shutting_down s1) as Hd by done. clearbody t.
  pose proof (transition_sim (ActiveKey.principal k)
    (CommandRecord.set_state Ledger.Running (time s1) (ActiveCommand.record a)) t) as Ht.
  pose proof (transition_down (ActiveKey.principal k)
    (CommandRecord.set_state Ledger.Running (time s1) (ActiveCommand.record a)) t) as Htd.
  destruct (publish_command_transition _ _ t) as [s2 [u | e]]; simpl in *;
    [left | right; exists s2]; (split; [by eapply sim_trans |]); [congruence |].
  split; [congruence | done].
Qed.

(** One iteration of the loop of [drive_pending]. *)
Lemma drive_step_cases s : Inv s -> sim_or_down s (fst (drive_step clock s)).
Proof.
  intros Hs. unfold drive_step. case_decide as Hmax; [| apply sim_or_down_refl].
  destruct (pending s) as [| k rest] eqn:Hp; [apply sim_or_down_refl |].
  pose proof (inv_pending _ _ Hs) as (Hnd & Hpend). rewrite Hp in Hnd, Hpend.
  apply NoDup_cons in Hnd as [Hnotin _].
  destruct (Hpend k ltac:(by left)) as (a & Ha & Hph).
  revert Hs. eapply sim_or_down_intro; [apply sim_micro; by eapply m_pop | | done]. intros Hs.
  cbv zeta. change (active (set_pending rest s)) with (active s). rewrite Ha.
  rewrite decide_False by auto.
  assert (exists s1 due, deadline_passed clock a (set_pending rest s) = (s1, due) /\
    sim (set_pending rest s) s1 /\ active s1 = active s /\ pending s1 = rest /\
    running s1 = running s /\ settings s1 = settings s /\ shutting_down s1 = shutting_down s)
    as (s1 & due & He & Hsim & Ha1 & Hp1 & Hr1 & Hs1 & Hd1).
  { unfold deadline_passed, instant_now. destruct (ActiveCommand.deadline a); do 2 eexists;
      (split; [reflexivity |]); (split; [| done]); [apply sim_micro, m_clock | apply sim_refl]. }
  rewrite He. revert Hs. eapply sim_or_down_intro; [exact Hsim | | done]. intros Hs. destruct due.
  - left. destruct (now_millis_sim s1) as [Hclk Hnow].
    assert (active (fst (now_millis clock s1)) = active s /\
      shutting_down (fst (now_millis clock s1)) = shutting_down s1) as [Hact Hd2] by done.
    destruct (now_millis clock s1) as [s2 now]. simpl in *. subst now. split.
    + eapply sim_trans; [exact Hclk |]. apply complete_active_sim; [| lia].
      intros a' Ha'. rewrite Hact, Ha in Ha'. simplify_eq. by left.
    + unfold ignore. simpl. by rewrite complete_active_down.
  - apply (start_command_cases k a); [by rewrite Ha1 | done | by rewrite Hp1 | by rewrite Hr1, Hs1 | done].
Qed.

Lemma drive_step_sim s : sim s (fst (drive_step clock s)).
Proof. apply sim_intro. intros Hs. by apply sim_or_down_sim, drive_step_cases. Qed.

Lemma drive_fuel_sim fuel s : sim s (drive_fuel clock fuel s).
Proof.
  revert s. induction fuel as [| fuel IH]; intros s; simpl; [apply sim_refl |].
  pose proof (drive_step_sim s) as Hstep. destruct (drive_step clock s) as [s1 []]; simpl in *.
  - eapply sim_trans; [done | apply IH].
  - done.
Qed.

(** ** Timers *)
Lemma advance_timers_sim s : sim s (advance_timers clock s).
Proof.
  unfold advance_timers. destruct (now_millis_sim s) as [Hclk Hnow].
  unfold now_millis in *. destruct (instant_now clock s) as [s1 instant]. simpl in Hclk, Hnow.
  eapply sim_trans; [exact Hclk |]. rewrite Hnow. clear Hclk Hnow.
  assert (ignore (on_lease (LeaseMachine.advance_time (time s1))) s1 =
    set_lease (LeaseTrace.apply (LeaseTrace.AdvanceTime (time s1)) (lease s1)) s1) as ->.
  { unfold ignore, on_lease. simpl. by destruct (LeaseMachine.advance_time _ _). }
  pose proof (lease_sim s1 (LeaseTrace.AdvanceTime (time s1)) ltac:(simpl; lia)) as Hl.
  set (l := LeaseTrace.apply _ _) in *. clearbody l.
  eapply sim_trans; [exact Hl |]. eapply sim_trans; [apply ensure_reset_sim |].
  apply (fold_sim _ (time s1)).
  - intros s2 k Hle. by apply stop_active_sim.
  - destruct (ensure_reset_keeps (set_lease l s1)) as (_ & _ & _ & _ & _ & _ & Ho & Hi).
    unfold RuntimeInvariant.time. rewrite Ho, Hi. simpl. lia.
Qed.

(** ** Messages *)
Lemma lease_request_sim {A} (op : MonotonicMillis.t -> M LeaseMachine.t LeaseError A)
    (o : MonotonicMillis.t -> LeaseTrace.op) s :
  (forall now m, fst (op now m) = LeaseTrace.apply (o now) m) ->
  (forall now s, now <= time s -> lease_call clock s (o now)) ->
  sim s (fst (lease_request clock op s)).
Proof.
  intros Hop Hcall. unfold lease_request. destruct (now_millis_sim s) as [Hclk Hnow].
  destruct (now_millis clock s) as [s1 now]. simpl in Hclk, Hnow. subst now.
  eapply sim_trans; [exact Hclk |].
  pose proof (lease_sim s1 (o (time s1)) (Hcall (time s1) s1 ltac:(lia))) as Hl.
  rewrite <- Hop in Hl. unfold on_lease. simpl.
  destruct (op (time s1) (lease s1)) as [l r]. simpl in *.
  eapply sim_trans; [exact Hl | apply ensure_reset_sim].
Qed.

Lemma handle_message_sim {A} (message : Message C R E A) s :
  sim s (fst (handle_message clock message s)).
Proof.
  destruct message; simpl; try apply sim_refl.
  - by apply (lease_request_sim _ (fun now => LeaseTrace.Acquire owner lease_id ttl_ms now generation)).
  - by apply (lease_request_sim _ (fun now => LeaseTrace.Renew owner lease_id ttl_ms now generation)).
  - by apply (lease_request_sim _ (fun now => LeaseTrace.Release owner lease_id now generation)).
  - pose proof (lease_sim s (LeaseTrace.Revoke reason) I) as Hl. simpl in Hl.
    destruct (LeaseMachine.revoke reason (lease s)) as [l revoked]. simpl in *.
    eapply sim_trans; [exact Hl | apply ensure_reset_sim].
  - case_decide as Hn; [apply sim_refl |]. case_decide; [apply sim_refl |].
    apply spawn_reset_sim. by destruct (active_reset s).
  - apply submit_command_sim.
  - pose proof (now_millis_sim s) as [Hclk Hnow].
    unfold now_millis, instant_now in *. simpl in *.
    eapply sim_trans; [exact Hclk |]. apply lookup_sim. lia.
  - apply watch_command_sim.
  - apply cancel_command_sim.
  - apply publish_sim.
  - apply rotate_generation_sim.
  - apply begin_shutdown_sim.
Qed.

(** ** The run loop *)
(** The scope covers what the selected branch may do. *)
Definition covers (selected : Selected (C:=C) (R:=R) (E:=E)) : Prop :=
  match selected with
  | SelectedCompletion completion =>
      ends_task scope = true /\ (finishes completion = true -> ends_reset scope = true)
  | SelectedJoinError _ => loses_task scope = true
  | _ => True
  end.

Lemma turn_sim selected s s' :
  covers selected -> turn clock selected s = Some s' -> sim s s'.
Proof.
  intros Hcov. unfold turn. case_decide as Hen; [| done]. intros [= <-]. destruct Hen as [_ Hen].
  eapply sim_trans; [| apply drive_fuel_sim].
  eapply sim_trans; [| apply advance_timers_sim].
  destruct selected; simpl in *.
  - apply handle_message_sim.
  - apply begin_shutdown_sim.
  - destruct Hcov. by apply completion_sim.
  - eapply sim_trans; [apply sim_micro; by apply (m_lost _ _ _ task) |].
    apply begin_shutdown_sim.
  - apply sim_refl.
Qed.

End Simulation.

(** Every turn of the loop is a sequence of atomic changes, so every state reached
    satisfies the invariant. *)
Section Loop.
  Context {C R E : Type} `{!CommandEventMapper R E} (clock : nat -> N).
  Context (clock_mono : forall i j, (i <= j)%nat -> clock i <= clock j).
  Implicit Types (s : CoordinatorTask.t C R E).

Lemma step_sim s s' : step clock s s' -> sim clock anything s s'.
Proof. intros [selected H]. eapply turn_sim; [done | | done]. by destruct selected. Qed.

Lemma reachable_sim s s' : steps (step clock) s s' -> sim clock anything s s'.
Proof.
  intros Hst. induction Hst as [s | s t u Hst IH Htu]; [apply sim_refl |].
  eapply sim_trans; [done | done | by apply step_sim].
Qed.

Lemma run_steps turns s s' : run clock turns s = Some s' -> steps (step clock) s s'.
Proof.
  revert s. induction turns as [| selected turns IH]; intros s; simpl.
  - intros [= <-]. apply steps_refl.
  - destruct (turn clock selected s) as [s1 |] eqn:Ht; [| done]. intros Hr.
    eapply steps_app; [| by apply IH]. eapply steps_trans; [apply steps_refl | by exists selected].
Qed.

End Loop.
End RuntimeSimulation.
