(* ===== verification/RuntimeProperties.v ===== *)
(** * What the coordinator guarantees

    The properties of the coordinator of [Runtime.v], for every state its run loop
    reaches from [spawn] under any messages, completions, failures and timers. *)

From stdpp Require Import base numbers list option gmap sets strings.
From Stdlib Require Import Lia.
From S2P Require Import Prelude.
From S2P Require Import Identity.
From S2P Require Import Lease.
From S2P Require Import Ledger.
From S2P Require Import Events.
From S2P Require Import RuntimeTypes.
From S2P Require Import Runtime.
From S2P Require Import RuntimeInvariant.
From S2P Require Import RuntimeSimulation.

Local Open Scope N_scope.

(** Settings all of whose parts were built by their validating constructors; the byte
    limit is a [usize]. *)
Module ValidSettings.

Definition valid (settings : CoordinatorSettings.t) : Prop :=
  (exists default_ttl maximum_ttl, LeasePolicy.new default_ttl maximum_ttl
     = Ok (CoordinatorSettings.lease_policy settings)) /\
  (exists entries ttl, CommandLedgerLimits.new entries ttl
     = Ok (CoordinatorSettings.ledger_limits settings)) /\
  (exists maximum_events maximum_bytes, EventHubLimits.new maximum_events maximum_bytes
     = Ok (CoordinatorSettings.event_limits settings) /\ maximum_bytes <= u64_max).

Lemma valid_bounds settings :
  valid settings ->
  LeaseInvariant.policy_ok (CoordinatorSettings.lease_policy settings) /\
  1 <= CommandLedgerLimits.maximum_entries (CoordinatorSettings.ledger_limits settings) /\
  1 <= CommandLedgerLimits.terminal_ttl_ms (CoordinatorSettings.ledger_limits settings) /\
  1 <= EventHubLimits.maximum_events (CoordinatorSettings.event_limits settings) /\
  1 <= EventHubLimits.maximum_encoded_bytes (CoordinatorSettings.event_limits settings)
    <= u64_max.
Proof.
  intros ((d & m & Hp) & (e & t & Hl) & (x & b & Hh & Hb)).
  unfold LeasePolicy.new in Hp. unfold CommandLedgerLimits.new in Hl.
  unfold EventHubLimits.new in Hh. unfold LeaseInvariant.policy_ok.
  repeat case_decide; try done. injection Hp as <-. injection Hl as <-. injection Hh as <-.
  simpl. lia.
Qed.

End ValidSettings.

Module RuntimeReachable.
Import CoordinatorTask LedgerView RuntimeInvariant RuntimeSimulation.
Section Reachable.
  Context {C R E : Type} `{!CommandEventMapper R E} (clock : nat -> N).
  Context (clock_mono : forall i j, (i <= j)%nat -> clock i <= clock j).
  Implicit Types (s : CoordinatorTask.t C R E) (k : ActiveKey.t).

(** Reached by the run loop from a spawned coordinator. *)
Definition reachable (settings : CoordinatorSettings.t) s : Prop :=
  ValidSettings.valid settings /\
  exists s0, spawn clock settings = Ok s0 /\ steps (step clock) s0 s.

Lemma spawn_inv settings s0 :
  ValidSettings.valid settings -> spawn clock settings = Ok s0 -> RuntimeInvariant.Inv clock s0.
Proof.
  intros Hv. destruct (ValidSettings.valid_bounds settings Hv) as (Hp & He & Ht & Hx & Hb).
  unfold spawn, ok_or. cbv zeta.
  destruct (LeaseMachine.new _ _ _) as [l | e] eqn:Hl; [| done].
  destruct (CommandLedger.new _ _ _) as [d | e] eqn:Hd; [| done].
  destruct (EventHub.new _ _ _) as [h | e] eqn:Hh; [| done]. intros [= <-].
  pose proof (LeaseInvariant.lease_new_wf _ _ _ _ Hl Hp).
  pose proof (LedgerInvariant.ledger_new_wf _ _ _ _ Hd He Ht).
  pose proof (HubRefinement.new_refines _ _ _ _ Hh Hx Hb).
  assert (LeaseMachine.generation l = GenerationToken.mk (CoordinatorSettings.desktop_id settings)
      (CoordinatorSettings.initial_generation settings) 1 /\
    LeaseMachine.last_observed_at l = None) as [Hlg Hlo]
    by (unfold LeaseMachine.new in Hl; by run_case Hl).
  assert (CommandLedger.generation d = GenerationToken.mk (CoordinatorSettings.desktop_id settings)
      (CoordinatorSettings.initial_generation settings) 1 /\
    CommandLedger.last_observed_at d = None /\ CommandLedger.records d = ∅) as (Hdg & Hdo & Hdr)
    by (unfold CommandLedger.new in Hd; by run_case Hd).
  assert (EventHub.generation h = GenerationToken.mk (CoordinatorSettings.desktop_id settings)
      (CoordinatorSettings.initial_generation settings) 1) as Hhg
    by (unfold EventHub.new in Hh; by run_case Hh).
  constructor.
  - split_and!; try done. eauto.
  - split; [done |]. simpl. rewrite Hlo, Hdo. by split.
  - intros k a. simpl. by rewrite lookup_empty.
  - intros ck r. simpl. unfold record_of. by rewrite Hdr, lookup_empty.
  - split; [constructor |]. intros k Hk. by apply not_elem_of_nil in Hk.
  - split; [constructor |]. simpl. split; [intros k Hk; by apply not_elem_of_nil in Hk |].
    change (executions []) with 0. lia.
  - split; simpl; [rewrite map_size_empty; lia |]. intros p. unfold active_of. simpl.
    change (btree_keys _ _) with (@nil ActiveKey.t). change (len _) with 0. lia.
  - split; simpl; [intros e He'; by apply not_elem_of_nil in He' |]. by split.
  - intros k. simpl. by rewrite lookup_empty.
Qed.

Lemma reachable_inv settings s : reachable settings s -> RuntimeInvariant.Inv clock s.
Proof.
  intros (Hv & s0 & Hs0 & Hst). pose proof (spawn_inv settings s0 Hv Hs0) as Hinv.
  eapply steps_inv; [done | exact Hinv |]. by apply (reachable_sim clock clock_mono s0).
Qed.

Lemma reachable_settings rs s : reachable rs s -> settings s = rs.
Proof.
  intros (Hv & s0 & Hs0 & Hst). pose proof (spawn_inv rs s0 Hv Hs0) as Hinv.
  pose proof (reachable_sim clock clock_mono s0 s Hst Hinv) as Hm.
  apply steps_frame in Hm as (Hset & _). rewrite Hset. unfold spawn in Hs0.
  repeat case_match; by simplify_eq/=.
Qed.

End Reachable.
End RuntimeReachable.

(** ** Bounds, lifecycle, agreement with the ledger *)
Section CoreProperties.
Import CoordinatorTask LedgerView RuntimeInvariant RuntimeReachable.
Context {C R E : Type} `{!CommandEventMapper R E} (clock : nat -> N).
Context (clock_mono : forall i j, (i <= j)%nat -> clock i <= clock j).
Implicit Types (s : CoordinatorTask.t C R E) (k : ActiveKey.t).

(** The coordinator's capacities.  In every state the run loop reaches: the
    active commands are within the global ceiling and every principal within its own,
    the executions in flight are at most the counter [running], which is at most the
    concurrency ceiling, no execution is in flight twice, at most one reset attempt is
    in flight, and the queue holds no key twice. *)
Theorem coordinator_capacities (rs : CoordinatorSettings.t) s :
  reachable clock rs s ->
  N.of_nat (size (active s)) <= CoordinatorSettings.maximum_active_commands rs /\
  (forall p, active_of p s <= CoordinatorSettings.maximum_active_per_principal rs) /\
  executions (tasks s) <= running s <= CoordinatorSettings.maximum_concurrent_executions rs /\
  NoDup (tasks s) /\
  (forall e e', ResetTask e ∈ tasks s -> ResetTask e' ∈ tasks s -> e = e') /\
  NoDup (pending s).
Proof.
  intros Hr. pose proof (reachable_settings clock clock_mono rs s Hr) as <-.
  destruct (reachable_inv clock clock_mono _ s Hr)
    as [_ _ _ _ (Hnd & _) (Htn & _ & Hrun) (Hb1 & Hb2) (Hr1 & _) _].
  split_and!; try done; try lia.
  intros e e' He He'. apply Hr1 in He. apply Hr1 in He'. congruence.
Qed.

(** C3: the command lifecycle.  For every key, the values sent on its watch channel
    and the executions handed to the backend follow the cycle "accepted; then either
    terminal, or running, handed to the backend exactly once, terminal", and the
    current stage is that of the active command.  In particular no command is handed
    to the backend twice for one admission, none before it was announced as running,
    and none after its terminal record. *)
Theorem command_lifecycle (rs : CoordinatorSettings.t) s k :
  reachable clock rs s ->
  Lifecycle.stage_of k (outputs s) = Lifecycle.stage_of_active (active s !! k) /\
  Lifecycle.stage_of k (outputs s) <> Lifecycle.Broken.
Proof.
  intros Hr. pose proof (inv_lifecycle _ _ (reachable_inv clock clock_mono rs s Hr) k) as Hk.
  split; [done |]. rewrite Hk. destruct (active s !! k) as [a |]; simpl; [| done].
  by destruct (ActiveCommand.phase a).
Qed.

(** C33: the active commands and the ledger agree.  In every reachable state a command
    of the current generation is active exactly when the ledger retains an unfinished
    record of it; its channel then shows that very record; a queued command is
    accepted and an execution in flight belongs to a running command. *)
Theorem active_commands_agree_with_ledger (rs : CoordinatorSettings.t) s (p : PrincipalId.t)
    (c : CommandId) :
  reachable clock rs s ->
  let k := ActiveKey.mk (current s) p c in
  (forall r, (exists a, active s !! k = Some a /\ ActiveCommand.updates a = r) <->
     record_of (ledger s) (CommandKey.mk p c) = Some r /\
     is_terminal (CommandRecord.state r) = false) /\
  (forall k', k' ∈ pending s -> exists a, active s !! k' = Some a /\
     CommandRecord.state (ActiveCommand.updates a) = Accepted) /\
  (forall k', ExecutionTask k' ∈ tasks s -> exists a, active s !! k' = Some a /\
     CommandRecord.state (ActiveCommand.updates a) = Ledger.Running).
Proof.
  intros Hr k. destruct (reachable_inv clock clock_mono rs s Hr)
    as [_ _ Ha Ht (_ & Hpend) (_ & Htasks & _) _ _ _].
  split_and!.
  - intros r. split.
    + intros (a & Hk & <-). specialize (Ha k a Hk).
      pose proof (active_ok_live _ _ _ Ha) as Hl.
      destruct Ha as (_ & _ & _ & -> & _ & _ & Hrec). split; [by apply Hrec | done].
    + intros [Hrec Hl]. destruct (Ht _ r Hrec Hl) as [a Hk]. exists a. split; [done |].
      destruct (Ha k a Hk) as (_ & _ & _ & -> & _ & _ & Hrec').
      specialize (Hrec' eq_refl). unfold ActiveKey.ledger_key in Hrec'. simpl in *. congruence.
  - intros k' Hk'. destruct (Hpend k' Hk') as (a & Hka & Hph). exists a. split; [done |].
    destruct (Ha k' a Hka) as (_ & _ & _ & -> & Hp & _). rewrite Hph in Hp. by destruct Hp.
  - intros k' Hk'. destruct (Htasks k' Hk') as (a & Hka & Hph). exists a. split; [done |].
    destruct (Ha k' a Hka) as (_ & _ & _ & -> & Hp & _). rewrite Hph in Hp. by destruct Hp.
Qed.

End CoreProperties.

(** ** Replies *)
Module RuntimeReplies.
Import CoordinatorTask LedgerView RuntimeInvariant RuntimeSimulation.
Section Replies.
  Context {C R E : Type} `{!CommandEventMapper R E} (clock : nat -> N).
  Context (clock_mono : forall i j, (i <= j)%nat -> clock i <= clock j).
  Implicit Types (s : CoordinatorTask.t C R E) (k : ActiveKey.t).

#[local] Abbreviation Inv := (RuntimeInvariant.Inv clock).

Definition violation {A} (r : result A CoordinatorError) : Prop :=
  r = Err (LedgerErrorOf LedgerInvariantViolation) \/
  r = Err (EventErrorOf HubInvariantViolation).

(** A publication never answers with a defensive error, in a reachable state. *)
Lemma publish_no_violation event size g s :
  Inv s -> ~ violation (snd (publish_event event size g s)).
Proof.
  intros Hs. unfold publish_event, on_events. simpl. case_decide; simpl; [by intros [? | ?] |].
  destruct (inv_components _ _ Hs) as (_ & _ & (log & Hlog) & _).
  pose proof (HubRefinement.publish_refines event size g (events s) log Hlog) as Hp.
  destruct (EventHub.publish event size g (events s)) as [h [o | e]],
    (EventLog.publish _ _ _ _ _ _) as [log' r'] eqn:Hspec; destruct Hp as (<- & _); simpl;
    [by intros [? | ?] |].
  intros [? | ?]; simplify_eq. unfold EventLog.publish in Hspec.
  repeat (case_decide; simplify_eq).
Qed.

Lemma transition_no_violation p r s :
  Inv s -> ~ violation (snd (publish_command_transition p r s)).
Proof.
  unfold publish_command_transition. generalize (map_command_transition p r). intros xs.
  revert s. induction xs as [| x xs IH]; intros s Hs; simpl; [by intros [? | ?] |].
  pose proof (publish_no_violation (CoordinatorEvent.event x) (CoordinatorEvent.encoded_size x)
    (CommandRecord.generation r) s Hs) as Hp.
  pose proof (publish_sim clock anything (CoordinatorEvent.event x) (CoordinatorEvent.encoded_size x)
    (CommandRecord.generation r) s Hs) as Hst.
  destruct (publish_event _ _ _ s) as [s' [o | e]]; simpl in *.
  - apply IH. by eapply steps_inv.
  - unfold violation in *. intros [? | ?]; apply Hp; [left | right]; congruence.
Qed.

Lemma complete_active_no_violation k terminal now s :
  Inv s -> now <= RuntimeInvariant.time clock s ->
  (forall a, active s !! k = Some a ->
     ActiveCommand.phase a = ActivePending \/ ExecutionTask k ∉ tasks s) ->
  ~ violation (snd (complete_active k terminal now s)).
Proof.
  intros Hs Hnow Hph. unfold complete_active. simpl.
  destruct (active s !! k) as [a |] eqn:Hk; simpl; [| by intros [? | ?]].
  pose proof (inv_components _ _ Hs) as (_ & Hl & _).
  unfold terminal_record. simpl. case_decide as Hg.
  - unfold on_ledger. simpl.
    pose proof (complete_effect (ActiveKey.principal k) (ActiveKey.command_id k) terminal now
      (ActiveKey.generation k) (ledger s) Hl) as Hc.
    pose proof (complete_no_violation (ActiveKey.principal k) (ActiveKey.command_id k) terminal now
      (ActiveKey.generation k) (ledger s)) as Hv.
    destruct (CommandLedger.complete _ _ _ _ _ _) as [l' [r | e]]; simpl in *;
      [| intros [? | ?]; congruence].
    destruct Hc as (_ & (r0 & _ & _ & ->) & Hup). rewrite Hk. simpl.
    pose proof (steps_inv clock clock_mono anything _ _ Hs (sim_micro clock anything _ _
      (m_settle clock anything s k a (CommandRecord.set_state (Terminal terminal) now r0)
        terminal now l' Hk (Hph a eq_refl) eq_refl (or_introl (conj Hg (conj Hnow Hup)))) Hs)) as Hs'.
    case_decide; simpl; case_decide; try (by intros [? | ?]); by apply transition_no_violation.
  - destruct (is_terminal _) eqn:Ht;
      [rewrite decide_True by done; by intros [? | ?] | rewrite decide_False by done]. simpl.
    rewrite Hk. simpl.
    pose proof (steps_inv clock clock_mono anything _ _ Hs (sim_micro clock anything _ _
      (m_settle clock anything s k a
        (CommandRecord.set_state (Terminal terminal) now (ActiveCommand.record a))
        terminal now (ledger s) Hk (Hph a eq_refl) eq_refl (or_intror (conj Hg eq_refl))) Hs)) as Hs'.
    case_decide; simpl; case_decide; try (by intros [? | ?]); by apply transition_no_violation.
Qed.

(** An unfinished record of the current generation is that of an active command. *)
Lemma unfinished_active s p c r :
  Inv s -> record_of (ledger s) (CommandKey.mk p c) = Some r ->
  is_terminal (CommandRecord.state r) = false ->
  is_Some (active s !! ActiveKey.mk (current s) p c).
Proof. intros Hs Hr Hl. exact (inv_tracked _ _ Hs _ r Hr Hl). Qed.

Lemma stop_active_no_violation cause reason now k s :
  Inv s -> now <= RuntimeInvariant.time clock s ->
  ~ violation (snd (stop_active cause reason now k s)).
Proof.
  intros Hs Hnow. unfold stop_active. simpl.
  destruct (active s !! k) as [a |] eqn:Hk; [| by intros [? | ?]].
  destruct (ActiveCommand.phase a) eqn:Hp; [| by intros [? | ?]].
  apply complete_active_no_violation; [done | done |]. intros a' Ha'. simplify_eq. by left.
Qed.

Lemma cancel_no_violation p c g s : Inv s -> ~ violation (snd (cancel_command clock p c g s)).
Proof.
  intros Hs0. unfold cancel_command. destruct (now_millis_sim clock anything s) as [Hclk Hnow].
  specialize (Hclk Hs0). apply (steps_inv clock clock_mono anything _ _ Hs0) in Hclk as Hs.
  destruct (now_millis clock s) as [s1 now]. simpl in Hclk, Hnow, Hs. subst now.
  cbv zeta. destruct (active s1 !! ActiveKey.mk g p c) as [a |] eqn:Hk.
  - pose proof (stop_active_no_violation Cancelled StopCancelled (RuntimeInvariant.time clock s1)
      (ActiveKey.mk g p c) s1 Hs ltac:(lia)) as Hv. simpl.
    destruct (stop_active _ _ _ _ s1) as [s2 [u | e]]; simpl in *; [by intros [? | ?] |].
    unfold violation in *. intros [? | ?]; apply Hv; [left | right]; congruence.
  - pose proof (inv_components _ _ Hs) as (_ & Hl & _ & _ & Hlg & _).
    pose proof (lookup_effect p c (RuntimeInvariant.time clock s1) g (ledger s1) Hl) as Heff.
    pose proof (lookup_no_violation p c (RuntimeInvariant.time clock s1) g (ledger s1)) as Hv.
    unfold on_ledger. simpl.
    destruct (CommandLedger.lookup_command _ _ _ _ _) as [l1 [[r |] | e]]; simpl in *;
      [| by intros [? | ?] | intros [? | ?]; congruence].
    destruct (is_terminal (CommandRecord.state r)) eqn:Ht; [by intros [? | ?] |]. exfalso.
    destruct Heff as [Hq Hr]. destruct (Hr _ eq_refl) as [-> Hrec].
    apply eq_sym, (quiet_record_of _ _ _ _ _ Hq Ht) in Hrec.
    destruct (unfinished_active s1 p c r Hs Hrec Ht) as [a Ha]. rewrite Hlg in Hk. congruence.
Qed.

Lemma watch_no_violation p c g s : Inv s -> ~ violation (snd (watch_command clock p c g s)).
Proof.
  intros Hs0. unfold watch_command. destruct (now_millis_sim clock anything s) as [Hclk Hnow].
  specialize (Hclk Hs0). apply (steps_inv clock clock_mono anything _ _ Hs0) in Hclk as Hs.
  destruct (now_millis clock s) as [s1 now]. simpl in Hclk, Hnow, Hs. subst now.
  pose proof (inv_components _ _ Hs) as (_ & Hl & _ & _ & Hlg & _).
  pose proof (lookup_effect p c (RuntimeInvariant.time clock s1) g (ledger s1) Hl) as Heff.
  pose proof (lookup_no_violation p c (RuntimeInvariant.time clock s1) g (ledger s1)) as Hv.
  unfold on_ledger. simpl.
  destruct (CommandLedger.lookup_command _ _ _ _ _) as [l1 [[r |] | e]]; simpl in *;
    [| by intros [? | ?] | intros [? | ?]; congruence].
  destruct (active s1 !! ActiveKey.mk g p c) as [a |] eqn:Hk; [by intros [? | ?] |].
  destruct (is_terminal (CommandRecord.state r)) eqn:Ht; [by intros [? | ?] |]. exfalso.
  destruct Heff as [Hq Hr]. destruct (Hr _ eq_refl) as [-> Hrec].
  apply eq_sym, (quiet_record_of _ _ _ _ _ Hq Ht) in Hrec.
  destruct (unfinished_active s1 p c r Hs Hrec Ht) as [a Ha]. rewrite Hlg in Hk. congruence.
Qed.

Lemma activate_ok k command deadline record s :
  exists s', activate clock k command deadline record s =
    (s', Ok (CommandSubmission.mk true record (WatchActive k))).
Proof.
  unfold activate. simpl. match goal with |- context [publish_command_transition ?p ?r ?x] =>
    destruct (publish_command_transition p r x) as [s1 [u | e]] end; simpl; eauto.
Qed.

Lemma authorize_lease_error p req now g s e :
  snd (authorize_lease p req now g s) = Err e -> exists e', e = LeaseErrorOf e'.
Proof.
  unfold authorize_lease. destruct req as [| id]; [done |]. unfold on_lease. simpl.
  destruct (LeaseMachine.authorize _ _ _ _ _) as [l [u | e']]; simpl; [done |].
  intros [= <-]. eauto.
Qed.

Lemma deadline_error instant within e :
  deadline_after instant within = Err e -> e = DeadlineOverflow.
Proof. unfold deadline_after. repeat case_match; by intros [=]. Qed.

Lemma submit_no_violation admission s :
  Inv s -> ~ violation (snd (submit_command clock admission s)).
Proof.
  intros Hs0. destruct admission as [p c h g req within command]. unfold submit_command.
  destruct (now_millis_sim clock anything s) as [Hclk Hnow]. unfold now_millis in *.
  specialize (Hclk Hs0). apply (steps_inv clock clock_mono anything _ _ Hs0) in Hclk as Hs.
  destruct (instant_now clock s) as [s1 instant]. simpl in Hclk, Hnow, Hs. cbv zeta. simpl.
  set (now := now_millis_at (origin s1) instant) in *.
  assert (now <= RuntimeInvariant.time clock s1) as Hle by lia. clearbody now.
  destruct (deadline_after instant within) as [deadline | e] eqn:Hd; simpl;
    [clear Hd | apply deadline_error in Hd as ->; by intros [? | ?]].
  pose proof (inv_components _ _ Hs) as (_ & Hl & _ & _ & Hlg & _).
  pose proof (lookup_effect p c now g (ledger s1) Hl) as Heff.
  pose proof (lookup_no_violation p c now g (ledger s1)) as Hv.
  pose proof (lookup_sim clock anything p c now g s1 Hle Hs) as Hst. unfold on_ledger in *. simpl in *.
  destruct (CommandLedger.lookup_command _ _ _ _ _) as [l1 [known | e]]; simpl in *;
    [| intros [? | ?]; congruence].
  destruct Heff as [Hq Hr]. destruct (Hr known eq_refl) as [-> Hrec].
  destruct known as [r |]; simpl.
  { unfold resubmission. simpl. case_decide; simpl; [by intros [? | ?] |].
    destruct (active s1 !! _) as [a |] eqn:Hk; simpl; [by intros [? | ?] |].
    destruct (is_terminal (CommandRecord.state r)) eqn:Ht; [by intros [? | ?] |]. exfalso.
    apply eq_sym, (quiet_record_of _ _ _ _ _ Hq Ht) in Hrec.
    destruct (unfinished_active s1 p c r Hs Hrec Ht) as [a Ha]. rewrite Hlg in Hk. congruence. }
  case_decide; simpl; [by intros [? | ?] |]. case_decide; simpl; [by intros [? | ?] |].
  apply (steps_inv clock clock_mono anything _ _ Hs) in Hst as Hs2.
  set (s2 := set_ledger l1 s1) in *.
  assert (now <= RuntimeInvariant.time clock s2) as Hle2 by done.
  pose proof (authorize_lease_error p req now (CommandLedger.generation (ledger s1)) s2) as Hae.
  destruct (authorize_lease_sim clock clock_mono anything p req now (CommandLedger.generation (ledger s1)) s2 Hle2)
    as [Hauth Hkeep].
  specialize (Hauth Hs2). apply (steps_inv clock clock_mono anything _ _ Hs2) in Hauth.
  destruct (authorize_lease _ _ _ _ s2) as [s3 [u | e]]; simpl in *.
  2: { destruct (Hae e eq_refl) as [e' ->]. by intros [? | ?]. }
  destruct Hkeep as (_ & _ & _ & Hled & _).
  pose proof (inv_components _ _ Hauth) as (_ & Hl3 & _).
  pose proof (admit_effect p c h now (CommandLedger.generation (ledger s1)) (ledger s3) Hl3) as Ha.
  pose proof (admit_no_violation p c h now (CommandLedger.generation (ledger s1)) (ledger s3)) as Hav.
  cbv zeta in Ha.
  destruct (CommandLedger.admit_command _ _ _ _ _ _) as [l4 [[r | r] | e]]; simpl in *.
  - destruct (activate_ok (ActiveKey.mk (CommandLedger.generation (ledger s1)) p c) command
      deadline r (set_ledger l4 s3)) as [s4 ->]. by intros [? | ?].
  - destruct Ha as [_ Ha]. rewrite Hled in Ha. simpl in Ha. congruence.
  - intros [? | ?]; congruence.
Qed.

End Replies.
End RuntimeReplies.
