(* ===== verification/RuntimeRotation.v ===== *)
(** * Rotation and reset of the coordinator

    A generation rotation moves the fence, the lease machine, the ledger and the event
    hub together or not at all, and ends every queued command of the old generation.
    Between two turns of the loop no lease is left revoked without its reset. *)

From stdpp Require Import base numbers list option gmap sets strings.
From Stdlib Require Import Lia.
From S2P Require Import Prelude.
From S2P Require Import Identity.
From S2P Require Import Lease.
From S2P Require Import Ledger.
From S2P Require Import Events.
From S2P Require Import RuntimeTypes.
From S2P Require Import Runtime.
From S2P Require Import RuntimeInvariant.
From S2P Require Import RuntimeSimulation.
From S2P Require Import RuntimeProperties.

Local Open Scope N_scope.

Module RuntimeRotation.
Import CoordinatorTask LedgerView RuntimeInvariant RuntimeSimulation.
Section Rotation.
  Context {C R E : Type} `{!CommandEventMapper R E} (clock : nat -> N).
  Context (clock_mono : forall i j, (i <= j)%nat -> clock i <= clock j).
  Implicit Types (s : CoordinatorTask.t C R E) (k : ActiveKey.t).

#[local] Abbreviation time := (RuntimeInvariant.time clock).
#[local] Abbreviation Inv := (RuntimeInvariant.Inv clock).

(** ** Stopping a command of an earlier generation *)

(** What remains of an active command that is stopped. *)
Definition stopped_active (reason : ExecutionStop) (a : ActiveCommand.t C R) :
    option (ActiveCommand.t C R) :=
  match ActiveCommand.phase a with
  | ActivePending => None
  | ActiveRunning => Some (ActiveCommand.request_stop reason a)
  end.

(** Everything but the commands and the clock. *)
Definition same_machines s s' : Prop :=
  generation_fence s' = generation_fence s /\ lease s' = lease s /\ ledger s' = ledger s /\
  events s' = events s /\ live_events s' = live_events s /\ tasks s' = tasks s /\
  running s' = running s /\ active_reset s' = active_reset s /\
  reset_failed s' = reset_failed s /\ shutting_down s' = shutting_down s.

Lemma stop_retired cause reason now k s :
  Inv s -> ActiveKey.generation k <> current s ->
  exists s', stop_active cause reason now k s = (s', Ok tt) /\ same_machines s s' /\
    forall k', active s' !! k' =
      if decide (k' = k) then active s !! k ≫= stopped_active reason else active s !! k'.
Proof.
  intros Hs Hg. unfold stop_active. simpl.
  destruct (active s !! k) as [a |] eqn:Hk.
  2: { exists s. split; [done |]. split; [done |]. intros k'. by case_decide; subst. }
  pose proof (inv_actives _ _ Hs k a Hk) as Ha. pose proof (active_ok_live _ _ _ Ha) as Hl.
  unfold stopped_active. simpl. destruct (ActiveCommand.phase a) eqn:Hp.
  - unfold complete_active, terminal_record. simpl. rewrite Hk. simpl.
    rewrite decide_False by done. rewrite Hl. simpl.
    rewrite Hk. simpl. rewrite decide_True by done. simpl.
    destruct Ha as (_ & _ & Hrg & _).
    rewrite decide_False by (unfold current in *; simpl in *; congruence).
    eexists. split; [done |]. split; [done |]. intros k'. simpl.
    case_decide; [subst; by rewrite lookup_delete_eq | by rewrite lookup_delete_ne].
  - eexists. split; [done |]. split; [done |]. intros k'. simpl.
    rewrite lookup_alter_if. case_decide; case_decide; subst; try done; [by rewrite Hk |].
    by destruct (active s !! k').
Qed.

(** The whole retirement loop. *)
Lemma retire_loop cause reason now ks s :
  Inv s -> now <= time s -> NoDup ks ->
  (forall k, k ∈ ks -> ActiveKey.generation k <> current s) ->
  exists s', for_each (stop_active cause reason now) ks s = (s', Ok tt) /\ same_machines s s' /\
    forall k', active s' !! k' =
      if decide (k' ∈ ks) then active s !! k' ≫= stopped_active reason else active s !! k'.
Proof.
  revert s. induction ks as [| k ks IH]; intros s Hs Hnow Hnd Hgen; simpl.
  { exists s. split; [done |]. split; [done |]. done. }
  apply NoDup_cons in Hnd as [Hnotin Hnd].
  destruct (stop_retired cause reason now k s Hs ltac:(apply Hgen; by left))
    as (s1 & He & Hsame & Hact). rewrite He.
  pose proof (stop_active_sim clock clock_mono anything cause reason now k s Hnow Hs) as Hst.
  rewrite He in Hst. simpl in Hst.
  assert (Inv s1) as Hs1 by by eapply steps_inv.
  assert (now <= time s1) as Hnow1
    by (pose proof (frame_time clock clock_mono _ _ (steps_frame clock anything _ _ Hst)); lia).
  assert (current s1 = current s) as Hcur
    by (destruct Hsame as (Hf & _); unfold current; by rewrite Hf).
  destruct (IH s1 Hs1 Hnow1 Hnd) as (s2 & He2 & Hsame2 & Hact2).
  { intros k' Hk'. rewrite Hcur. apply Hgen. by right. }
  exists s2. split; [done |]. split.
  - unfold same_machines in *. destruct_and!. split_and!; congruence.
  - intros k'. rewrite Hact2, Hact.
    destruct (decide (k' = k)) as [-> | Hne].
    + rewrite decide_False by done. rewrite decide_True by (by left). done.
    + destruct (decide (k' ∈ ks)); [rewrite decide_True by (by right); done |].
      rewrite decide_False by set_solver. done.
Qed.

(** ** Resets *)

(** No lease waits for a reset that nobody will start. *)
Definition reset_settled s : Prop :=
  LeaseMachine.phase (lease s) <> PhaseRevoking /\
  (LeaseMachine.phase (lease s) = PhaseResetting ->
     active_reset s <> None \/ reset_failed s = true).

Lemma spawn_reset_settled s :
  LeaseMachine.phase (lease s) = PhaseResetting -> reset_settled (spawn_reset s).
Proof.
  intros Hp. unfold spawn_reset, LeaseMachine.phase, LeaseMachine.snapshot in *.
  destruct (LeaseMachine.state (lease s)) eqn:Hst; try done.
  destruct (checked_add_u64 _ _) as [n |]; unfold reset_settled, LeaseMachine.phase; simpl;
    rewrite Hst; split; auto.
Qed.

Lemma ensure_reset_started_settled s :
  LeaseMachine.phase (lease s) <> PhaseRevoking -> reset_settled (ensure_reset_started s).
Proof.
  intros Hp. unfold ensure_reset_started. case_decide as Hd.
  - apply spawn_reset_settled. by destruct Hd.
  - split; [done |]. intros Hr.
    destruct (active_reset s); [by left | right].
    destruct (reset_failed s); [done |]. by destruct Hd.
Qed.

Lemma ensure_reset_settled s : reset_settled (ensure_reset s).
Proof.
  unfold ensure_reset. case_decide as Hp; [| by apply ensure_reset_started_settled].
  unfold LeaseMachine.begin_reset, LeaseMachine.phase in *. simpl.
  destruct (LeaseMachine.state (lease s)); try done. simpl.
  by apply ensure_reset_started_settled.
Qed.

(** What [ensure_reset] leaves of the lease. *)
Lemma spawn_reset_lease s :
  lease (spawn_reset s) = lease s /\ events (spawn_reset s) = events s.
Proof.
  unfold spawn_reset. destruct (LeaseMachine.snapshot _); try done.
  by destruct (checked_add_u64 _ _).
Qed.

Lemma ensure_reset_lease s :
  LeaseMachine.generation (lease (ensure_reset s)) = LeaseMachine.generation (lease s) /\
  events (ensure_reset s) = events s.
Proof.
  unfold ensure_reset, ensure_reset_started.
  destruct (LeaseTrace.apply_frame LeaseTrace.BeginReset (lease s) I) as [Hg _]. simpl in Hg.
  repeat case_decide; simpl.
  all: try (destruct (LeaseMachine.begin_reset (lease s)) as [l [u | e]]; simpl in *;
            try case_decide).
  all: rewrite ?(proj1 (spawn_reset_lease _)), ?(proj2 (spawn_reset_lease _)); done.
Qed.

(** What ending and stopping commands leaves alone. *)
Definition same_control s s' : Prop :=
  lease s' = lease s /\ active_reset s' = active_reset s /\ reset_failed s' = reset_failed s /\
  tasks s' = tasks s /\ running s' = running s /\ shutting_down s' = shutting_down s /\
  settings s' = settings s /\ origin s' = origin s /\ instants s' = instants s /\
  generation_fence s' = generation_fence s /\
  pending s' ⊆ pending s /\ (length (pending s') <= length (pending s))%nat.

#[export] Instance same_control_preorder : PreOrder same_control.
Proof.
  unfold same_control. split; [intros s; by split_and! |].
  intros a b c H1 H2. destruct_and!. split_and!; try congruence; [by etrans | by etrans].
Qed.

Lemma same_control_settled s s' : same_control s s' -> reset_settled s -> reset_settled s'.
Proof. unfold same_control, reset_settled. by intros (-> & -> & -> & _). Qed.

Lemma publish_same_control event size g s : same_control s (fst (publish_event event size g s)).
Proof.
  unfold publish_event, on_events. simpl. case_decide; simpl; [done |].
  by destruct (EventHub.publish _ _ _ _) as [h [o | e]].
Qed.

Lemma transition_same_control p r s : same_control s (fst (publish_command_transition p r s)).
Proof.
  unfold publish_command_transition. generalize (map_command_transition p r). intros xs.
  revert s. induction xs as [| x xs IH]; intros s; simpl; [done |].
  pose proof (publish_same_control (CoordinatorEvent.event x) (CoordinatorEvent.encoded_size x)
    (CommandRecord.generation r) s) as Hp.
  destruct (publish_event _ _ _ s) as [s' [o | e]]; simpl in *; [| done].
  etrans; [done | apply IH].
Qed.

(** The state after an active command is taken out, before the publication. *)
Lemma settled_pending_control s s1 m x (k : ActiveKey.t) :
  s1 = s \/ (exists l', s1 = set_ledger l' s) ->
  same_control s (emit x (set_pending (filter (fun k' => k' <> k) (pending s)) (set_active m s1))).
Proof.
  intros Hs1. unfold same_control.
  destruct Hs1 as [-> | [l' ->]]; simpl; split_and!; try done; try apply length_filter;
    intros y Hy; by apply list_elem_of_filter in Hy as [_ ?].
Qed.

Lemma settled_running_control s s1 m x :
  s1 = s \/ (exists l', s1 = set_ledger l' s) -> same_control s (emit x (set_active m s1)).
Proof. unfold same_control. intros [-> | [l' ->]]; simpl; by split_and!. Qed.

Lemma settled_published_control s s' p r :
  same_control s s' -> same_control s (fst (publish_command_transition p r s')).
Proof. intros Hs. etrans; [exact Hs | apply transition_same_control]. Qed.

Lemma complete_active_same_control k terminal now s :
  same_control s (fst (complete_active k terminal now s)).
Proof.
  unfold complete_active. simpl.
  destruct (active s !! k) as [a |] eqn:Hk; simpl; [| done].
  unfold terminal_record. simpl. case_decide as Hg.
  - unfold on_ledger. simpl.
    destruct (CommandLedger.complete _ _ _ _ _ _) as [l' [r | e]]; simpl; [| done].
    rewrite Hk. simpl. case_decide; simpl; case_decide; simpl;
      eauto using settled_published_control, settled_pending_control, settled_running_control.
  - case_decide; simpl; [done |]. rewrite Hk. simpl.
    case_decide; simpl; case_decide; simpl;
      eauto using settled_published_control, settled_pending_control, settled_running_control.
Qed.

Lemma stop_active_same_control cause reason now k s :
  same_control s (fst (stop_active cause reason now k s)).
Proof.
  unfold stop_active. simpl. destruct (active s !! k) as [a |]; [| done].
  destruct (ActiveCommand.phase a); [apply complete_active_same_control | done].
Qed.

Lemma stop_loop_same_control cause reason now ks s :
  same_control s (fold_left (fun self key =>
    ignore (stop_active cause reason now key) self) ks s).
Proof.
  revert s. induction ks as [| k ks IH]; intros s; simpl; [done |].
  etrans; [apply (stop_active_same_control cause reason now k s) | apply IH].
Qed.

Lemma begin_shutdown_settled reply s :
  reset_settled s -> reset_settled (begin_shutdown clock reply s).
Proof.
  intros Hs. unfold begin_shutdown. case_decide; [by destruct reply |].
  cbv zeta. match goal with |- context [now_millis clock ?x] =>
    pose proof (ensure_reset_settled (set_reset_failed false (set_lease
      (fst (LeaseMachine.revoke Lease.Shutdown (lease s))) s))) as _; set (t := x) end.
  assert (reset_settled t) as Ht by apply ensure_reset_settled.
  assert (reset_settled (fst (now_millis clock t))) as Ht' by done.
  destruct (now_millis clock t) as [t' now]. simpl in Ht'.
  by eapply same_control_settled; [apply stop_loop_same_control |].
Qed.

Lemma start_command_settled k s :
  reset_settled s -> reset_settled (fst (start_command clock k s)).
Proof.
  intros Hs. unfold start_command.
  assert (reset_settled (fst (now_millis clock s))) as Hs1 by done.
  destruct (now_millis clock s) as [s1 now]. simpl in Hs1. unfold on_ledger. simpl.
  destruct (CommandLedger.mark_running _ _ _ _ _) as [l' [r | e]]; simpl;
    [| by apply begin_shutdown_settled].
  destruct (active s1 !! k) as [a |]; [| by apply begin_shutdown_settled].
  destruct (ActiveCommand.command a) as [command |]; [| by apply begin_shutdown_settled].
  match goal with |- context [publish_command_transition ?p ?x ?y] =>
    pose proof (transition_same_control p x y) as Hk;
    destruct (publish_command_transition p x y) as [s2 [u | e]] end; simpl in *.
  - by eapply same_control_settled.
  - apply begin_shutdown_settled. by eapply same_control_settled.
Qed.

Lemma drive_step_settled s : reset_settled s -> reset_settled (fst (drive_step clock s)).
Proof.
  intros Hs. unfold drive_step. case_decide; [| done].
  destruct (pending s) as [| k rest]; [done |]. cbv zeta.
  destruct (active (set_pending rest s) !! k) as [a |]; [| done].
  case_decide; [done |].
  assert (reset_settled (fst (deadline_passed clock a (set_pending rest s)))) as Hs1
    by (unfold deadline_passed; by destruct (ActiveCommand.deadline a)).
  destruct (deadline_passed clock a (set_pending rest s)) as [s1 []]; simpl in Hs1.
  - assert (reset_settled (fst (now_millis clock s1))) as Hs2 by done.
    destruct (now_millis clock s1) as [s2 now]. simpl in *.
    by eapply same_control_settled; [apply complete_active_same_control |].
  - by apply start_command_settled.
Qed.

Lemma drive_fuel_settled fuel s : reset_settled s -> reset_settled (drive_fuel clock fuel s).
Proof.
  revert s. induction fuel as [| fuel IH]; intros s Hs; simpl; [done |].
  pose proof (drive_step_settled s Hs) as H1.
  destruct (drive_step clock s) as [s1 []]; simpl in *; [by apply IH | done].
Qed.

Lemma advance_timers_settled s : reset_settled (advance_timers clock s).
Proof.
  unfold advance_timers. destruct (instant_now clock s) as [s1 instant]. cbv zeta.
  eapply same_control_settled; [apply stop_loop_same_control |]. apply ensure_reset_settled.
Qed.

Lemma turn_settled selected s s' : turn clock selected s = Some s' -> reset_settled s'.
Proof.
  unfold turn. case_decide; [| done]. intros [= <-].
  apply drive_fuel_settled, advance_timers_settled.
Qed.

End Rotation.
End RuntimeRotation.

(** ** Properties *)
Section RotationProperties.
Import CoordinatorTask LedgerView RuntimeInvariant RuntimeSimulation RuntimeReachable
  RuntimeRotation.
Context {C R E : Type} `{!CommandEventMapper R E} (clock : nat -> N).
Context (clock_mono : forall i j, (i <= j)%nat -> clock i <= clock j).
Implicit Types (s : CoordinatorTask.t C R E) (k : ActiveKey.t).

Lemma lease_rotated_not_held g (m : LeaseMachine.t) :
  rotation_allowed (LeaseMachine.desktop_id m) (LeaseMachine.generation m) g ->
  LeaseMachine.phase (fst (LeaseMachine.rotate_generation g m)) <> PhaseHeld.
Proof.
  intros (Hd & He & Hg). unfold LeaseMachine.rotate_generation, LeaseMachine.revoke. simpl.
  rewrite decide_False by auto. simpl.
  rewrite decide_False by (intros [? | ?]; [lia | done]). simpl.
  unfold LeaseMachine.phase. by destruct (LeaseMachine.state m) eqn:Hst; simpl; rewrite ?Hst.
Qed.

Lemma ensure_reset_not_held s :
  LeaseMachine.phase (lease s) <> PhaseHeld ->
  LeaseMachine.phase (lease (ensure_reset s)) <> PhaseHeld.
Proof.
  intros Hp. unfold ensure_reset, ensure_reset_started.
  case_decide as Hr.
  - unfold LeaseMachine.begin_reset, LeaseMachine.phase in *. simpl in *.
    destruct (LeaseMachine.state (lease s)); try done. simpl.
    case_decide; rewrite ?(proj1 (spawn_reset_lease _)); done.
  - case_decide; rewrite ?(proj1 (spawn_reset_lease _)); done.
Qed.

(** The successful rotation of the four machines. *)
Lemma rotate_components_effect g s s1 g' :
  Inv clock s -> rotate_components g s = (s1, Ok g') ->
  Inv clock s1 /\ current s1 = g' /\ LeaseMachine.generation (lease s1) = g' /\
  LeaseMachine.phase (lease s1) <> PhaseHeld /\
  (forall ck, record_of (ledger s1) ck = None) /\
  EventHub.latest_sequence (events s1) = 0 /\ EventHub.retained (events s1) = [] /\
  active s1 = active s /\
  GenerationToken.epoch (current s) < GenerationToken.epoch g' /\
  (forall k a, active s1 !! k = Some a -> ActiveKey.generation k <> g').
Proof.
  intros Hs Hrot.
  assert (Inv clock s1) as Hs1
    by (eapply micro_inv; [done | exact Hs | by apply (m_rotate clock anything _ g g')]).
  destruct (rotate_components_cases g s (inv_components _ _ Hs))
    as [(e & He & _) | (g'' & He & _ & Hall)]; rewrite He in Hrot; simplify_eq.
  pose proof (inv_components _ _ Hs) as ((Hld & _) & (Hdd & _) & (log & Hed & _) & Hlg & Hdg & Heg).
  rewrite Hlg in Hld. rewrite Hdg in Hdd. rewrite Heg in Hed.
  assert (rotation_allowed (LeaseMachine.desktop_id (lease s))
    (LeaseMachine.generation (lease s)) g') as Hla by by rewrite <- Hld, Hlg.
  destruct (lease_rotated g' (lease s) Hla) as [Hl1 _].
  pose proof (lease_rotated_not_held g' (lease s) Hla) as Hl2.
  destruct (LedgerTrace.ledger_rotate_cases g' (ledger s)) as [(e & _ & _ & Hn) | (Hd1 & _)];
    [by rewrite <- Hdd, Hdg in Hn |].
  destruct (HubRefinement.hub_rotate_cases g' (events s)) as [(e & _ & _ & Hn) | (He1 & _)];
    [by rewrite <- Hed, Heg in Hn |].
  split; [exact Hs1 |]. clear Hs1. simpl. split_and!; try done.
  - intros ck. rewrite Hd1. unfold record_of. simpl. by rewrite lookup_empty.
  - by rewrite He1.
  - by rewrite He1.
  - by destruct Hall as (_ & ? & _).
  - intros k a Hk Hg. destruct (inv_actives _ _ Hs k a Hk) as (_ & _ & _ & _ & _ & Hep & _).
    rewrite Hg in Hep. destruct Hall as (_ & ? & _). lia.
Qed.

(** The retirement of the commands after it. *)
Lemma retire_effect s1 :
  Inv clock s1 ->
  (forall k a, active s1 !! k = Some a -> ActiveKey.generation k <> current s1) ->
  exists s3, retire_commands clock (current s1) s1 = (s3, Ok tt) /\ same_machines s1 s3 /\
    forall k, active s3 !! k = active s1 !! k ≫= stopped_active StopGenerationChanged.
Proof.
  intros Hs1 Hold. unfold retire_commands.
  destruct (now_millis_sim clock anything s1) as [Hclk Hnow]. specialize (Hclk Hs1).
  apply (steps_inv clock clock_mono anything _ _ Hs1) in Hclk as Hs2.
  assert (same_machines s1 (fst (now_millis clock s1)) /\
    active (fst (now_millis clock s1)) = active s1) as [Hsm Ha2] by done.
  destruct (now_millis clock s1) as [s2 now]. simpl in Hnow, Hs2, Hsm, Ha2. subst now.
  destruct (retire_loop clock clock_mono CauseGenerationChanged StopGenerationChanged
    (RuntimeInvariant.time clock s2)
    (filter (fun key => ActiveKey.generation key <> current s1)
       (btree_keys ActiveKey.cmp (active s2))) s2
    Hs2 ltac:(lia)) as (s3 & He3 & Hsm3 & Hact3).
  { apply NoDup_filter, NoDup_btree_keys. }
  { intros k [Hk _]%list_elem_of_filter. destruct Hsm as (Hf & _).
    unfold current in *. by rewrite Hf. }
  exists s3. split; [done |]. unfold same_machines in Hsm, Hsm3. destruct_and!.
  split; [split_and!; congruence |].
  intros k. rewrite Hact3, Ha2. case_decide as Hin; [done |].
  destruct (active s1 !! k) as [a |] eqn:Hk; [| done].
  exfalso. apply Hin. apply list_elem_of_filter. split; [by eapply Hold |].
  apply elem_of_btree_keys. eauto.
Qed.

(** C9: rotation is all or nothing.  In a reachable state a rotation either fails
    with the fence's error and changes nothing, or succeeds, and then: the fence, the
    lease machine, the ledger and the event hub all carry the new token, of a later
    epoch; the ledger has forgotten every command and the event numbering starts over;
    the queue is empty, every queued command is gone and every running one has been
    asked to stop with [GenerationChanged] (unless it was asked before); and no lease
    is held. *)
Theorem rotation_is_all_or_nothing (rs : CoordinatorSettings.t) s (g : DesktopGeneration) :
  reachable clock rs s ->
  match rotate_generation clock g s with
  | (s', Err e) => s' = s /\ exists e', e = GenerationError e'
  | (s', Ok g') =>
      current s' = g' /\ LeaseMachine.generation (lease s') = g' /\
      CommandLedger.generation (ledger s') = g' /\ EventHub.generation (events s') = g' /\
      GenerationToken.epoch (current s) < GenerationToken.epoch g' /\
      (forall ck, record_of (ledger s') ck = None) /\
      EventHub.latest_sequence (events s') = 0 /\ EventHub.retained (events s') = [] /\
      pending s' = [] /\
      (forall k, active s' !! k = active s !! k ≫= stopped_active StopGenerationChanged) /\
      (LeaseMachine.phase (lease s') = PhaseVacant \/
       LeaseMachine.phase (lease s') = PhaseResetting)
  end.
Proof.
  intros Hr. pose proof (reachable_inv clock clock_mono rs s Hr) as Hs.
  pose proof (rotate_generation_sim clock clock_mono anything g s Hs) as Hsim.
  unfold rotate_generation in *. unfold bind at 1. unfold bind at 1 in Hsim.
  destruct (rotate_components_cases g s (inv_components _ _ Hs))
    as [(e & He & _) | (g' & He & _)]; [rewrite He; eauto |].
  destruct (rotate_components g s) as [s1 r] eqn:Hrot. injection He as _ ->.
  destruct (rotate_components_effect g s s1 g' Hs Hrot)
    as (Hs1 & <- & Hlg & Hlh & Hdr & Hel & Her & Ha1 & Hep & Hold).
  destruct (retire_effect s1 Hs1 Hold) as (s3 & He3 & Hsm & Hact). simpl in *.
  rewrite He3 in *. simpl in *.
  pose proof (ensure_reset_keeps s3) as (Ka & _ & _ & Kl & Kf & _).
  pose proof (ensure_reset_lease s3) as (Kg & Ke).
  pose proof (ensure_reset_settled s3) as (Kr & _).
  destruct Hsm as (Sf & Sl & Sd & Se & _).
  pose proof (ensure_reset_not_held s3 ltac:(congruence)) as Kh.
  pose proof (steps_inv clock clock_mono anything _ _ Hs Hsim) as Hs'.
  pose proof (inv_components _ _ Hs') as (_ & _ & _ & Hl' & Hd' & He').
  assert (current (ensure_reset s3) = current s1) as Hcur by (unfold current; congruence).
  assert (forall k, active (ensure_reset s3) !! k =
    active s !! k ≫= stopped_active StopGenerationChanged) as Hact'
    by (intros k; by rewrite Ka, Hact, Ha1).
  split_and!; try congruence; try done.
  - destruct (pending (ensure_reset s3)) as [| k rest] eqn:Hp; [done |]. exfalso.
    destruct (inv_pending _ _ Hs') as (_ & Hpend).
    destruct (Hpend k ltac:(rewrite Hp; by left)) as (a & Hk & Hph).
    rewrite Hact' in Hk. apply bind_Some in Hk as (a0 & _ & Hst).
    unfold stopped_active in Hst. destruct (ActiveCommand.phase a0) eqn:Hp0; simplify_eq.
    unfold ActiveCommand.request_stop in Hph. case_decide; simpl in Hph; congruence.
  - destruct (LeaseMachine.phase (lease (ensure_reset s3))); auto; done.
Qed.

(** Every revoked lease is being cleaned up.  After every turn of the loop no
    lease is left revoked without its reset begun; and a lease under reset has its
    attempt in flight, or the last attempt failed and the reset awaits [RetryReset]. *)
Theorem revoked_leases_are_reset s s' :
  step clock s s' ->
  LeaseMachine.phase (lease s') <> PhaseRevoking /\
  (LeaseMachine.phase (lease s') = PhaseResetting ->
     active_reset s' <> None \/ reset_failed s' = true).
Proof. intros [selected H]. by eapply turn_settled. Qed.

End RotationProperties.
