(* ===== verification/RuntimeLiveness.v ===== *)
(** * Handover, event fanout, timers and executions

    Properties of the coordinator's runs over time: which turns may end a lease reset, that
    the live fanout continues a replay without a gap, two situations in which the loop does
    not come to rest, what [drive_pending] starts and when, and what becomes of an
    execution's outcome. *)

From stdpp Require Import base numbers list option gmap sets strings.
From Stdlib Require Import Lia.
From S2P Require Import Prelude Identity Lease Ledger Events RuntimeTypes Runtime RuntimeInvariant.
From S2P Require Import RuntimeSimulation RuntimeProperties RuntimeRotation.

Local Open Scope N_scope.

Module RuntimeLiveness.
Import CoordinatorTask LedgerView RuntimeInvariant RuntimeSimulation RuntimeReachable.
Section Liveness.
  Context {C R E : Type} `{!CommandEventMapper R E} (clock : nat -> N).
  Context (clock_mono : forall i j, (i <= j)%nat -> clock i <= clock j).
  Implicit Types (s : CoordinatorTask.t C R E) (k : ActiveKey.t) (scope : Scope).

#[local] Abbreviation Inv := (RuntimeInvariant.Inv clock).
#[local] Abbreviation micro := (RuntimeInvariant.micro clock).

(** A property of states kept by atomic changes is kept by a simulated operation. *)
Lemma sim_keeps scope (P : CoordinatorTask.t C R E -> Prop) s s' :
  (forall a b, Inv a -> P a -> micro scope a b -> P b) ->
  Inv s -> sim clock scope s s' -> P s -> P s'.
Proof.
  intros HP Hs Hsim Hp.
  apply (steps_invariant (micro scope) (fun x => Inv x /\ P x) s s'); [| by apply Hsim | done].
  intros a b [Ha Hpa] Hm. split; [by eapply micro_inv | by eapply HP].
Qed.

(** What a rotation does to the parts of the state. *)
Lemma rotate_components_fields g g' s s' :
  rotate_components g s = (s', Ok g') ->
  lease s' = LeaseTrace.apply (LeaseTrace.Rotate g') (lease s) /\
  active s' = active s /\ tasks s' = tasks s /\ running s' = running s /\
  active_reset s' = active_reset s /\ live_events s' = live_events s.
Proof.
  unfold rotate_components, on_fence, on_lease, on_ledger, on_events. simpl.
  destruct (GenerationFence.rotate g (generation_fence s)) as [f [x | e]]; simpl; [| done].
  destruct (LeaseMachine.rotate_generation x (lease s)) as [l [u | e]] eqn:Hl; simpl; [| done].
  destruct (CommandLedger.rotate_generation x (ledger s)) as [d [u' | e]]; simpl; [| done].
  destruct (EventHub.rotate_generation x (events s)) as [h [u'' | e]]; simpl; [| done].
  intros [= <- <-]. by rewrite Hl.
Qed.

Lemma publish_fields event size g s :
  let s' := fst (publish_event event size g s) in
  lease s' = lease s /\ active s' = active s /\ tasks s' = tasks s /\ running s' = running s /\
  active_reset s' = active_reset s /\ generation_fence s' = generation_fence s.
Proof.
  unfold publish_event, on_events. simpl. case_decide; simpl; [done |].
  by destruct (EventHub.publish _ _ _ _) as [h [o | e]].
Qed.

(** ** Resets *)

(** Without the end of a reset transaction, a lease under reset stays so. *)
Lemma micro_resetting scope l r s s' :
  ends_reset scope = false -> micro scope s s' ->
  LeaseMachine.state (lease s) = Resetting l r -> LeaseMachine.state (lease s') = Resetting l r.
Proof.
  intros Hsc Hm Hst. destruct Hm; try exact Hst.
  - pose proof (LeaseTrace.apply_transition o (lease s)) as Ht. rewrite Hst in Ht.
    apply LeaseTrace.transition_resetting in Ht as [Ht | [-> _]]; [exact Ht | done].
  - congruence.
  - destruct (publish_fields event encoded_size g s) as (-> & _). done.
  - destruct (rotate_components_fields _ _ _ _ H) as (-> & _).
    pose proof (LeaseTrace.apply_transition (LeaseTrace.Rotate g') (lease s)) as Ht.
    rewrite Hst in Ht. apply LeaseTrace.transition_resetting in Ht as [Ht | [? _]]; done.
Qed.

(** ** Fanout *)

(** The numbers sent on the fanout while the generation lasts: each is the next one. *)
Definition fanout s s' : Prop :=
  exists sent, live_events s' = live_events s ++ sent /\
    ((current s' = current s /\
      numbered (fun x => x) (EventHub.latest_sequence (events s) + 1) sent /\
      EventHub.latest_sequence (events s') = EventHub.latest_sequence (events s) + len sent) \/
     GenerationToken.epoch (current s) < GenerationToken.epoch (current s')).

Lemma fanout_refl s : fanout s s.
Proof.
  exists []. rewrite app_nil_r. split; [done |]. left. split_and!; [done | apply numbered_nil |].
  change (len []) with 0. lia.
Qed.

#[export] Instance fanout_preorder : PreOrder fanout.
Proof.
  split; [exact fanout_refl |].
  intros a b c (x & Hx & Hab) (y & Hy & Hbc). exists (x ++ y).
  split; [by rewrite Hy, Hx, app_assoc |].
  destruct Hab as [(Hc & Hn & Hl) | Hab], Hbc as [(Hc' & Hn' & Hl') | Hbc].
  - left. split_and!; [congruence | | rewrite Hl', Hl, len_app; lia].
    intros i z Hz. apply lookup_app_Some in Hz as [Hz | [Hi Hz]]; [by apply Hn |].
    rewrite (Hn' _ _ Hz), Hl. unfold len. lia.
  - right. by rewrite <- Hc.
  - right. by rewrite Hc'.
  - right. lia.
Qed.

Lemma fanout_same s s' :
  live_events s' = live_events s -> events s' = events s ->
  generation_fence s' = generation_fence s -> fanout s s'.
Proof.
  intros Hl He Hf. exists []. rewrite app_nil_r. split; [done |]. left.
  unfold current. rewrite He, Hf. split_and!; [done | apply numbered_nil |].
  change (len []) with 0. lia.
Qed.

Lemma publish_fanout event size g s : Inv s -> fanout s (fst (publish_event event size g s)).
Proof.
  intros Hs. destruct (inv_components _ _ Hs) as (_ & _ & (log & Hlog) & _).
  pose proof (HubRefinement.publish_refines event size g (events s) log Hlog) as Hp.
  unfold publish_event, on_events. simpl. case_decide as Hsize; simpl; [apply fanout_refl |].
  destruct (EventHub.publish event size g (events s)) as [hub r] eqn:Hpub.
  unfold EventLog.publish in Hp.
  pose proof Hlog as (_ & _ & _ & _ & _ & _ & _ & _ & Hlat & _).
  repeat case_decide; destruct Hp as (-> & Hlog' & _); simpl.
  all: destruct Hlog' as (_ & _ & _ & _ & _ & _ & _ & _ & Hlat' & _).
  1-4: exists []; rewrite app_nil_r; split; [done |]; left;
    (split_and!; [done | apply numbered_nil | simpl; rewrite Hlat', Hlat; change (len []) with 0; lia]).
  all: exists [len (EventLog.history log) + 1]; split; [done |]; left;
    simpl; rewrite Hlat', Hlat; simpl; rewrite len_app; (split_and!; [done | | done]);
    intros [| i] x Hx; simplify_eq/=; lia.
Qed.

Lemma micro_fanout scope s s' : Inv s -> micro scope s s' -> fanout s s'.
Proof.
  intros Hs Hm. destruct Hm; try (by apply fanout_same).
  - by apply publish_fanout.
  - destruct (rotate_components_fields _ _ _ _ H) as (_ & _ & _ & _ & _ & Hlive).
    exists []. rewrite app_nil_r. split; [done |]. right.
    destruct (rotate_components_effect clock clock_mono g s s' g' Hs H)
      as (_ & -> & _ & _ & _ & _ & _ & _ & Hep & _). done.
Qed.

Lemma sim_fanout scope s s' : Inv s -> sim clock scope s s' -> fanout s s'.
Proof.
  intros Hs Hsim. apply (steps_relation (micro scope) fanout Inv s s'); [| by apply Hsim | done].
  intros a b Ha Hm. split; [by eapply micro_inv | by eapply micro_fanout].
Qed.

(** A complete replay carries the numbers after the requested one. *)
Lemma replay_numbers (hub : EventHub.t E) log g since since' latest evs :
  HubRefinement.refines hub log ->
  EventHub.replay_since hub g since = ReplayEvents since' latest evs ->
  since' = since /\ latest = EventHub.latest_sequence hub /\
  numbered EventRecord.sequence (since + 1) evs /\ since + len evs = latest.
Proof.
  intros (_ & _ & _ & _ & Hnum & _ & Hret & _ & Hlat & _ & Hdrop).
  pose proof (EventLog.retention_numbered (EventHub.limits hub) _ Hnum) as Hrn.
  pose proof (EventLog.retention_len (EventHub.limits hub) (EventLog.history log)) as Hle.
  rewrite <- Hret in Hrn, Hle.
  unfold EventHub.replay_since, EventHub.resync. repeat case_decide; try done.
  intros [= <- <- <-]. rewrite (numbered_filter_gt _ _ _ _ Hrn).
  apply (numbered_drop _ _ _ (N.to_nat (since + 1 -
    (len (EventLog.history log) - len (EventHub.retained hub) + 1)))) in Hrn.
  split_and!; try done.
  - eapply (eq_ind _ (fun b => numbered EventRecord.sequence b _) Hrn). lia.
  - unfold len in *. rewrite length_drop. lia.
Qed.

(** ** The timer *)

Lemma min_instant_le x xs : x ∈ xs -> exists w, min_instant xs = Some w /\ w <= x.
Proof.
  induction xs as [| y xs IH]; [intros Hin; by apply not_elem_of_nil in Hin |]. intros [-> | Hin]%elem_of_cons; simpl.
  - eexists. split; [done |]. destruct (min_instant xs); lia.
  - destruct (IH Hin) as (w & -> & Hw). eexists. split; [done |]. lia.
Qed.

Lemma next_wake_at_le s k a d :
  active s !! k = Some a -> ActiveCommand.deadline a = Some d ->
  exists w, next_wake_at s = Some w /\ w <= d.
Proof.
  intros Hk Hd. unfold next_wake_at. apply min_instant_le. apply elem_of_app. left.
  apply list_elem_of_omap. exists (k, a). split; [| done]. by apply elem_of_btree_iter.
Qed.

(** A running command keeps its deadline while its execution is in flight. *)
Definition executing k d s : Prop :=
  ExecutionTask k ∈ tasks s /\
  exists a, active s !! k = Some a /\ ActiveCommand.deadline a = Some d.

Lemma micro_executing scope k d s s' :
  ends_task scope = false -> loses_task scope = false -> Inv s -> micro scope s s' ->
  executing k d s -> executing k d s'.
Proof.
  intros He Hl Hs Hm (Hin & a & Hk & Hd).
  pose proof (inv_tasks _ _ Hs) as (_ & Hex & _). destruct (Hex k Hin) as (a0 & Hk0 & Hph).
  simplify_eq. unfold executing.
  destruct Hm; simpl; try (split; [done | eauto]; fail); try congruence.
  - split; [apply elem_of_app; by left | eauto].
  - split; [done |]. exists a. rewrite lookup_insert_ne by congruence. done.
  - split; [done |]. exists a. rewrite lookup_delete_ne; [done |]. intros ->.
    match goal with H : _ \/ _ |- _ => destruct H; congruence || done end.
  - destruct (publish_fields event encoded_size g s) as (_ & -> & -> & _). eauto.
  - split; [done |]. rewrite lookup_alter_if, Hk. simpl. eexists. split; [done |].
    case_decide; [| done]. unfold ActiveCommand.request_stop. by case_decide.
  - split; [apply elem_of_app; by left |]. exists a. rewrite lookup_insert_ne; [done |].
    intros ->. congruence.
  - destruct (rotate_components_fields _ _ _ _ H) as (_ & -> & -> & _). eauto.
Qed.

(** The scope of a turn that handles no task. *)
Definition quiet_scope : Scope :=
  {| ends_reset := false; ends_task := false; loses_task := false |}.

Lemma executing_not_finished k d s : Inv s -> executing k d s -> ~ finished s.
Proof.
  intros Hs (Hin & _) (_ & Hr & _). destruct (inv_tasks _ _ Hs) as (_ & _ & Hrun).
  rewrite (executions_remove (ExecutionTask k)) in Hrun by done. simpl in Hrun. lia.
Qed.

(** ** Lost tasks *)

(** Fewer executions in flight than the counter says. *)
Lemma micro_lost scope s s' :
  Inv s -> executions (tasks s) < running s -> micro scope s s' ->
  executions (tasks s') < running s'.
Proof.
  intros Hs Hlt Hm. destruct Hm; simpl; try done.
  - rewrite executions_snoc. simpl. lia.
  - by destruct (publish_fields event encoded_size g s) as (_ & _ & -> & -> & _).
  - rewrite executions_snoc. simpl. lia.
  - destruct (rotate_components_fields _ _ _ _ H) as (_ & _ & -> & -> & _). done.
  - rewrite (executions_remove (ExecutionTask k)) in Hlt by done. simpl in Hlt. lia.
  - rewrite (executions_remove (ResetTask e)) in Hlt by done. lia.
  - rewrite (executions_remove task) in Hlt by done. lia.
Qed.

End Liveness.
End RuntimeLiveness.

(** ** Properties *)
Section LivenessProperties.
Import CoordinatorTask LedgerView RuntimeInvariant RuntimeSimulation RuntimeReachable
  RuntimeLiveness.
Context {C R E : Type} `{!CommandEventMapper R E} (clock : nat -> N).
Context (clock_mono : forall i j, (i <= j)%nat -> clock i <= clock j).
Implicit Types (s : CoordinatorTask.t C R E) (k : ActiveKey.t).

(** Only proven cleanup frees the input.  If a lease is under reset before a turn
    and no longer in that same reset after it, then the turn handled the backend's
    report that the current reset attempt completed: no message, timer, failure,
    rotation or stale report ends a reset. *)
Theorem reset_ends_only_by_completion (rs : CoordinatorSettings.t) s s' selected
    (l : LeaseGrant.t) (reason : RevocationReason) :
  reachable clock rs s ->
  turn clock selected s = Some s' ->
  LeaseMachine.state (lease s) = Resetting l reason ->
  LeaseMachine.state (lease s') <> Resetting l reason ->
  exists e, selected = SelectedCompletion (Reset e ResetComplete) /\ active_reset s = Some e.
Proof.
  intros Hr Hturn Hst Hst'. pose proof (reachable_inv clock clock_mono rs s Hr) as Hs.
  assert (match selected with
          | SelectedCompletion (Reset _ ResetComplete) => True | _ => False end) as Hsel.
  { destruct (match selected with SelectedCompletion c => finishes c | _ => false end) eqn:Hf.
    - destruct selected as [? ? | | [? ? | ? []] | |]; done.
    - exfalso. apply Hst'.
      pose (scope := {| ends_reset := false; ends_task := true; loses_task := true |}).
      apply (sim_keeps clock clock_mono scope
        (fun x => LeaseMachine.state (lease x) = Resetting l reason) s s'); try done.
      + intros a b _ Ha Hm. by eapply (micro_resetting clock scope).
      + eapply turn_sim; [done | | done].
        destruct selected; simpl; try done. split; [done |]. by rewrite Hf. }
  destruct selected as [? ? | | [? ? | e []] | |]; try done. exists e. split; [done |].
  unfold turn in Hturn. case_decide as Hen; [| done]. destruct Hen as [_ Hen]. simpl in Hen.
  destruct (inv_reset _ _ Hs) as (Hone & _). by apply Hone.
Qed.

(** A subscription misses nothing.  When a subscription is answered with a replay,
    then however the loop goes on within the same generation, the replayed events
    followed by the numbers sent since on the live fanout are exactly the numbers
    after the requested one up to the latest assigned: no gap, no duplicate, no
    reordering between replay and live delivery. *)
Theorem subscription_misses_nothing (rs : CoordinatorSettings.t) s s1 s2
    (g : GenerationToken.t) (since : N) (sub : EventSubscription.t E)
    (since' latest : N) (evs : list (EventRecord.t E)) :
  reachable clock rs s ->
  handle_message clock (SubscribeEvents g (Some since)) s = (s1, Some sub) ->
  EventSubscription.replay sub = ReplayEvents since' latest evs ->
  steps (step clock) s1 s2 -> current s2 = current s ->
  let live := drop (EventSubscription.live sub) (live_events s2) in
  numbered (fun x => x) (since + 1) (map EventRecord.sequence evs ++ live) /\
  since + len (map EventRecord.sequence evs ++ live) = EventHub.latest_sequence (events s2).
Proof.
  intros Hr Hsub Hrep Hst Hcur live. pose proof (reachable_inv clock clock_mono rs s Hr) as Hs.
  unfold handle_message, reply in Hsub. injection Hsub as <- <-. simpl in *.
  destruct (inv_components _ _ Hs) as (_ & _ & (log & Hlog) & _).
  destruct (replay_numbers _ log g since since' latest evs Hlog Hrep) as (-> & -> & Hn & Hlen).
  pose proof (sim_fanout clock clock_mono anything s s2 Hs
    (reachable_sim clock clock_mono s s2 Hst)) as (sent & Hlive & [(_ & Hsent & Hlat) | Hep]);
    [| rewrite Hcur in Hep; lia].
  assert (live = sent) as ->
    by (unfold live; by rewrite Hlive, drop_app_length).
  split.
  - intros i x Hx. apply lookup_app_Some in Hx as [Hx | [Hi Hx]].
    + rewrite list_lookup_fmap in Hx. apply fmap_Some in Hx as (r & Hi & ->). by apply Hn.
    + rewrite (Hsent _ _ Hx). rewrite length_fmap in *. unfold len in *. lia.
  - rewrite Hlat, len_app. unfold len in *. rewrite length_fmap. lia.
Qed.

(** A running command past its deadline keeps the loop busy.  While its execution
    is in flight, the timer is due again right after every timer turn, since
    [next_wake_at] still counts the elapsed deadline: the loop spins instead of
    sleeping until the backend stops. *)
Theorem elapsed_running_deadline_keeps_timer_due (rs : CoordinatorSettings.t) s k
    (a : ActiveCommand.t C R) (d : N) :
  reachable clock rs s ->
  ExecutionTask k ∈ tasks s -> active s !! k = Some a -> ActiveCommand.deadline a = Some d ->
  d <= clock (instants s) ->
  exists s', turn clock SelectedTimer s = Some s' /\
    enabled clock SelectedTimer s' /\ ~ finished s' /\
    ExecutionTask k ∈ tasks s' /\
    (exists a', active s' !! k = Some a' /\ ActiveCommand.deadline a' = Some d).
Proof.
  intros Hr Hin Hk Hd Hclk. pose proof (reachable_inv clock clock_mono rs s Hr) as Hs.
  assert (executing k d s) as Hex by (split; eauto).
  pose proof (executing_not_finished clock k d s Hs Hex) as Hnf.
  destruct (next_wake_at_le s k a d Hk Hd) as (w & Hw & Hle).
  assert (enabled clock SelectedTimer s) as Hen by (simpl; rewrite Hw; lia).
  destruct (turn clock SelectedTimer s) as [s' |] eqn:Hturn;
    [| unfold turn in Hturn; rewrite decide_True in Hturn by done; done].
  exists s'. split; [done |].
  assert (sim clock quiet_scope s s') as Hsim by by apply (turn_sim clock clock_mono quiet_scope SelectedTimer).
  assert (executing k d s') as Hex'.
  { apply (sim_keeps clock clock_mono quiet_scope (executing k d) s s'); try done.
    intros x y Hx Hp Hm. by eapply (micro_executing clock quiet_scope). }
  assert (Inv clock s') as Hs' by by eapply (steps_inv clock clock_mono quiet_scope), Hsim.
  pose proof (steps_frame clock quiet_scope s s' (Hsim Hs)) as (_ & _ & Hi).
  pose proof (executing_not_finished clock k d s' Hs' Hex') as Hnf'.
  destruct Hex' as (Hin' & a' & Hk' & Hd').
  destruct (next_wake_at_le s' k a' d Hk' Hd') as (w' & Hw' & Hle').
  split_and!; eauto. simpl. rewrite Hw'. pose proof (clock_mono _ _ Hi). lia.
Qed.

(** A task that fails to join keeps the loop from ever ending.  The [JoinError]
    branch starts the shutdown but leaves the counter [running] as it was; from then
    on, whatever happens, the exit condition of the loop never holds. *)
Theorem join_error_prevents_exit (rs : CoordinatorSettings.t) s s1 s2 k :
  reachable clock rs s ->
  turn clock (SelectedJoinError (ExecutionTask k)) s = Some s1 ->
  steps (step clock) s1 s2 ->
  ~ finished s2.
Proof.
  intros Hr Hturn Hst. pose proof (reachable_inv clock clock_mono rs s Hr) as Hs.
  unfold turn in Hturn. case_decide as Hen; [| done]. destruct Hen as [_ Hin]. simpl in Hin.
  injection Hturn as <-.
  set (s0 := set_tasks (remove_task (ExecutionTask k) (tasks s)) s).
  assert (Inv clock s0) as Hs0
    by (eapply micro_inv; [done | exact Hs | by apply (m_lost clock anything _ (ExecutionTask k))]).
  assert (executions (tasks s0) < running s0) as Hlt.
  { destruct (inv_tasks _ _ Hs) as (_ & _ & Hrun).
    rewrite (executions_remove (ExecutionTask k)) in Hrun by done. simpl in *. lia. }
  assert (sim clock anything s0 s2) as Hsim.
  { eapply sim_trans; [done | apply (begin_shutdown_sim clock clock_mono _ None) |].
    eapply sim_trans; [done | apply (advance_timers_sim clock clock_mono) |].
    eapply sim_trans; [done | apply (drive_fuel_sim clock clock_mono) |].
    by apply reachable_sim. }
  assert (executions (tasks s2) < running s2) as Hlt2.
  { apply (sim_keeps clock clock_mono anything
      (fun x => executions (tasks x) < running x) s0 s2); try done.
    intros x y Hx Hp Hm. by eapply (micro_lost clock anything). }
  intros (_ & Hz & _). lia.
Qed.

End LivenessProperties.

Module RuntimeExecution.
Import CoordinatorTask LedgerView RuntimeInvariant RuntimeSimulation RuntimeReachable
  RuntimeRotation RuntimeLiveness.
Section Execution.
  Context {C R E : Type} `{!CommandEventMapper R E} (clock : nat -> N).
  Context (clock_mono : forall i j, (i <= j)%nat -> clock i <= clock j).
  Implicit Types (s : CoordinatorTask.t C R E) (k : ActiveKey.t).

#[local] Abbreviation time := (RuntimeInvariant.time clock).
#[local] Abbreviation Inv := (RuntimeInvariant.Inv clock).

(** ** Completing an active command *)

(** What publications never touch. *)
Definition same_but_events s s' : Prop :=
  active s' = active s /\ pending s' = pending s /\ running s' = running s /\
  tasks s' = tasks s /\ ledger s' = ledger s /\ lease s' = lease s /\
  outputs s' = outputs s /\ generation_fence s' = generation_fence s /\
  settings s' = settings s /\ origin s' = origin s /\ instants s' = instants s /\
  active_reset s' = active_reset s /\ reset_failed s' = reset_failed s /\
  shutting_down s' = shutting_down s.

Lemma transition_same p r s : same_but_events s (fst (publish_command_transition p r s)).
Proof.
  unfold publish_command_transition. generalize (map_command_transition p r). intros xs.
  revert s. induction xs as [| x xs IH]; intros s; simpl; [by unfold same_but_events |].
  unfold publish_event at 1, on_events. simpl. case_decide; simpl; [by unfold same_but_events |].
  destruct (EventHub.publish _ _ _ _) as [h [o | e]]; simpl; [| by unfold same_but_events].
  match goal with |- same_but_events s (fst (for_each _ xs ?y)) => specialize (IH y) end.
  unfold same_but_events in *. simpl in *. exact IH.
Qed.

(** A completion that succeeds: the terminal record, and the state up to publication. *)
Lemma complete_active_ok k a terminal s :
  Inv s -> active s !! k = Some a ->
  ActiveCommand.phase a = ActivePending \/ ExecutionTask k ∉ tasks s ->
  (ActiveKey.generation k = current s -> LedgerOutcomes.ordinal_left (ledger s)) ->
  exists r l', CommandRecord.state r = Terminal terminal /\
    ((ActiveKey.generation k = current s /\
        records_update (time s) (ActiveKey.ledger_key k) r (ledger s) l') \/
     (ActiveKey.generation k <> current s /\ l' = ledger s)) /\
    same_but_events
      (emit (Updated k r)
        (set_pending (if decide (ActiveCommand.phase a = ActivePending)
                      then filter (fun k' => k' <> k) (pending s) else pending s)
          (set_active (delete k (active s)) (set_ledger l' s))))
      (fst (complete_active k terminal (time s) s)).
Proof.
  intros Hs Hk Hph Hord. pose proof (inv_components _ _ Hs) as (_ & Hl & _ & _ & Hlg & _).
  pose proof (inv_clock _ _ Hs) as (_ & _ & Hobs).
  pose proof (inv_actives _ _ Hs k a Hk) as Ha. pose proof (active_ok_live _ _ _ Ha) as Hlive.
  destruct Ha as (_ & _ & _ & _ & _ & _ & Hrec).
  unfold complete_active. simpl. rewrite Hk. simpl. unfold terminal_record. simpl.
  destruct (decide (ActiveKey.generation k = current s)) as [Hg | Hg].
  - specialize (Hrec Hg). specialize (Hord Hg).
    destruct (complete_accepts (ActiveKey.principal k) (ActiveKey.command_id k) terminal (time s)
      (ledger s) _ Hl Hobs Hord Hrec Hlive) as [l' Hc].
    pose proof (complete_effect (ActiveKey.principal k) (ActiveKey.command_id k) terminal (time s)
      (ActiveKey.generation k) (ledger s) Hl) as Heff.
    rewrite Hg, <- Hlg in Heff |- *. rewrite Hc in Heff. unfold on_ledger. simpl.
    rewrite Hc. simpl. rewrite Hk. simpl. destruct Heff as (_ & _ & Hup).
    exists (CommandRecord.set_state (Terminal terminal) (time s) (ActiveCommand.record a)), l'.
    split; [reflexivity |]. split; [left; by split |].
    case_decide; simpl; case_decide; try (by unfold same_but_events); apply transition_same.
  - rewrite Hlive. simpl. rewrite Hk. simpl.
    exists (CommandRecord.set_state (Terminal terminal) (time s) (ActiveCommand.record a)), (ledger s).
    split; [reflexivity |]. split; [by right |].
    case_decide; simpl; case_decide; try (by unfold same_but_events); apply transition_same.
Qed.

(** ** The queue *)

Lemma now_millis_control s : pending (fst (now_millis clock s)) = pending s /\
  shutting_down (fst (now_millis clock s)) = shutting_down s.
Proof. done. Qed.

Lemma begin_shutdown_effect reply s :
  shutting_down (begin_shutdown clock reply s) = true /\
  running (begin_shutdown clock reply s) = running s /\
  (length (pending (begin_shutdown clock reply s)) <= length (pending s))%nat.
Proof.
  unfold begin_shutdown. case_decide as Hd; [destruct reply; by split_and! |]. cbv zeta.
  match goal with |- context [now_millis clock ?x] => set (t := x) end.
  assert (shutting_down t = true /\ running t = running s /\ pending t = pending s)
    as (Ht1 & Ht2 & Ht3).
  { unfold t. destruct (ensure_reset_keeps (set_reset_failed false (set_lease
      (fst (LeaseMachine.revoke Lease.Shutdown (lease s))) (set_receiver_closed true
        (set_shutdown_reply reply (set_shutting_down true s)))))) as (_ & Hp & Hr & _).
    split; [| split; [exact Hr | exact Hp]].
    unfold ensure_reset, ensure_reset_started, spawn_reset.
    repeat first [case_decide | case_match]; done. }
  clearbody t.
  assert (shutting_down (fst (now_millis clock t)) = true /\
    running (fst (now_millis clock t)) = running s /\
    pending (fst (now_millis clock t)) = pending s) as (H1 & H2 & H3) by done.
  destruct (now_millis clock t) as [t' now]. simpl in *.
  pose proof (stop_loop_same_control CauseShutdown StopShutdown now
    (btree_keys ActiveKey.cmp (active t')) t') as Hc.
  unfold same_control in Hc. destruct_and!. split_and!; congruence || lia.
Qed.

Lemma start_command_control k s s' continue :
  start_command clock k s = (s', continue) ->
  (length (pending s') <= length (pending s))%nat /\
  (continue = false -> shutting_down s' = true).
Proof.
  unfold start_command. destruct (now_millis_control s) as [Hp Hsd].
  destruct (now_millis clock s) as [s1 now]. simpl in Hp, Hsd. unfold on_ledger. simpl.
  assert (forall x : CoordinatorTask.t C R E, pending x = pending s ->
    (length (pending (begin_shutdown clock None x)) <= length (pending s))%nat /\
    shutting_down (begin_shutdown clock None x) = true) as Hshut.
  { intros x Hx. destruct (begin_shutdown_effect None x) as (-> & _ & Hle).
    split; [by rewrite Hx in Hle | done]. }
  destruct (CommandLedger.mark_running _ _ _ _ _) as [l' [r | e]]; simpl;
    [| intros [= <- <-]; destruct (Hshut (set_ledger l' s1) Hp); by split].
  destruct (active s1 !! k) as [a |];
    [| intros [= <- <-]; destruct (Hshut (set_ledger l' s1) Hp); by split].
  destruct (ActiveCommand.command a) as [command |];
    [| intros [= <- <-]; destruct (Hshut (set_ledger l' s1) Hp); by split].
  match goal with |- context [publish_command_transition ?p ?x ?y] =>
    pose proof (transition_same p x y) as (_ & Hq & _);
    destruct (publish_command_transition p x y) as [s2 [u | e]] end; simpl in *;
    intros [= <- <-].
  - split; [rewrite Hq, Hp; lia | done].
  - destruct (Hshut s2) as [? ?]; [by rewrite Hq | by split].
Qed.

(** Every iteration takes a key off the queue; the loop ends with the queue empty, no
    room, or the shutdown begun. *)
Lemma drive_step_progress s s' continue :
  drive_step clock s = (s', continue) ->
  if continue then (length (pending s') < length (pending s))%nat
  else CoordinatorSettings.maximum_concurrent_executions (settings s') <= running s' \/
       pending s' = [] \/ shutting_down s' = true.
Proof.
  unfold drive_step. case_decide as Hmax; [| intros [= <- <-]; left; lia].
  destruct (pending s) as [| k rest] eqn:Hp; [intros [= <- <-]; by right; left |]. cbv zeta.
  destruct (active (set_pending rest s) !! k) as [a |]; [| intros [= <- <-]; simpl; lia].
  case_decide; [intros [= <- <-]; simpl; lia |].
  assert (pending (fst (deadline_passed clock a (set_pending rest s))) = rest) as Hd
    by (unfold deadline_passed; by destruct (ActiveCommand.deadline a)).
  destruct (deadline_passed clock a (set_pending rest s)) as [s1 []]; simpl in Hd.
  - destruct (now_millis_control s1) as [Hp1 _].
    destruct (now_millis clock s1) as [s2 now]. simpl in Hp1. intros [= <- <-].
    pose proof (complete_active_same_control k
      (CommandTerminal.stopped DeadlineExceeded BeforeEffect) now s2) as Hc.
    unfold same_control in Hc. destruct_and!. unfold ignore. simpl.
    rewrite Hp1, Hd in *. lia.
  - intros Hst. destruct (start_command_control _ _ _ _ Hst) as [Hle Hsd].
    rewrite Hd in Hle. simpl. destruct continue; [lia | right; right; by apply Hsd].
Qed.

Lemma drive_fuel_enough n m s :
  (length (pending s) < n)%nat -> (length (pending s) < m)%nat ->
  drive_fuel clock n s = drive_fuel clock m s.
Proof.
  revert m s. induction n as [| n IH]; intros m s Hn Hm; [lia |].
  destruct m as [| m]; [lia |]. simpl.
  destruct (drive_step clock s) as [s' []] eqn:Hst; [| done].
  apply drive_step_progress in Hst. apply IH; lia.
Qed.

Lemma drive_fuel_end n s :
  (length (pending s) < n)%nat ->
  let s' := drive_fuel clock n s in
  CoordinatorSettings.maximum_concurrent_executions (settings s') <= running s' \/
  pending s' = [] \/ shutting_down s' = true.
Proof.
  revert s. induction n as [| n IH]; intros s Hn; [lia |]. simpl.
  destruct (drive_step clock s) as [s' []] eqn:Hst; apply drive_step_progress in Hst; [| done].
  apply IH. lia.
Qed.

End Execution.
End RuntimeExecution.
