(* ===== verification/RuntimeShutdown.v ===== *)
(** * Shutdown

    A shutdown stops every command, admits and starts nothing more, and ends once the
    tasks in flight have been joined. *)

From stdpp Require Import base numbers list option gmap sets strings.
From Stdlib Require Import Lia.
From S2P Require Import Prelude.
From S2P Require Import Identity.
From S2P Require Import Lease.
From S2P Require Import Ledger.
From S2P Require Import Events.
From S2P Require Import RuntimeTypes.
From S2P Require Import Runtime.
From S2P Require Import RuntimeInvariant.
From S2P Require Import RuntimeSimulation.
From S2P Require Import RuntimeProperties.
From S2P Require Import RuntimeRotation.
From S2P Require Import RuntimeLiveness.
From S2P Require Import RuntimeLiveness.

Local Open Scope N_scope.

Module RuntimeShutdown.
Import LedgerOutcomes CoordinatorTask LedgerView RuntimeInvariant RuntimeSimulation RuntimeReachable
  RuntimeRotation RuntimeLiveness RuntimeExecution.
Section Shutdown.
  Context {C R E : Type} `{!CommandEventMapper R E} (clock : nat -> N).
  Context (clock_mono : forall i j, (i <= j)%nat -> clock i <= clock j).
  Implicit Types (s : CoordinatorTask.t C R E) (k : ActiveKey.t).

#[local] Abbreviation time := (RuntimeInvariant.time clock).
#[local] Abbreviation Inv := (RuntimeInvariant.Inv clock).

Definition exhausted s : Prop := ~ ordinal_left (ledger s).

(** Nothing is left to start: no lease is held, its reset is in hand, and the queue is
    empty unless the ledger can record nothing more. *)
Definition drained s : Prop :=
  LeaseMachine.phase (lease s) <> PhaseHeld /\ reset_settled s /\
  (pending s <> [] -> exhausted s).

Definition drained_if_down s : Prop := shutting_down s = true -> drained s.

(** ** Single completions *)

Lemma complete_active_exhausted k terminal now s :
  exhausted s -> exhausted (fst (complete_active k terminal now s)).
Proof.
  intros He. unfold complete_active. simpl.
  destruct (active s !! k) as [a |] eqn:Hk; simpl; [| done].
  unfold terminal_record. simpl. case_decide as Hg.
  - unfold on_ledger. simpl.
    destruct (complete_exhausted (ActiveKey.principal k) (ActiveKey.command_id k) terminal now
      (ActiveKey.generation k) (ledger s) He) as [Herr Hx].
    destruct (CommandLedger.complete _ _ _ _ _ _) as [l' [r | e]]; simpl in *; done.
  - case_decide; simpl; [done |]. rewrite Hk. simpl. unfold exhausted.
    case_decide; simpl; case_decide; simpl; try done;
      match goal with |- context [publish_command_transition ?p ?r ?x] =>
        destruct (transition_same p r x) as (_ & _ & _ & _ & -> & _) end; done.
Qed.

Lemma stop_active_exhausted cause reason now k s :
  exhausted s -> exhausted (fst (stop_active cause reason now k s)).
Proof.
  intros He. unfold stop_active. simpl. destruct (active s !! k) as [a |]; [| done].
  destruct (ActiveCommand.phase a); [by apply complete_active_exhausted | done].
Qed.

Lemma stop_loop_exhausted cause reason now ks s :
  exhausted s ->
  exhausted (fold_left (fun self key => ignore (stop_active cause reason now key) self) ks s).
Proof.
  revert s. induction ks as [| k ks IH]; intros s He; simpl; [done |].
  apply IH. by apply stop_active_exhausted.
Qed.

Lemma complete_active_drained k terminal now s :
  drained s -> drained (fst (complete_active k terminal now s)).
Proof.
  intros (Hh & Hr & Hp). pose proof (complete_active_same_control k terminal now s) as Hc.
  pose proof (same_control_settled _ _ Hc Hr) as Hr'.
  unfold same_control in Hc. destruct Hc as (Hl & Hc). destruct_and!.
  split; [by rewrite Hl |]. split; [done |]. intros Hne. apply complete_active_exhausted, Hp.
  intros Hnil. rewrite Hnil in *. destruct (pending _) as [| x xs]; [done |]. simpl in *. lia.
Qed.

Lemma stop_active_drained cause reason now k s :
  drained s -> drained (fst (stop_active cause reason now k s)).
Proof.
  intros Hd. unfold stop_active. simpl. destruct (active s !! k) as [a |]; [| done].
  destruct (ActiveCommand.phase a); [by apply complete_active_drained | done].
Qed.

Lemma stop_loop_drained cause reason now ks s :
  drained s ->
  drained (fold_left (fun self key => ignore (stop_active cause reason now key) self) ks s).
Proof.
  revert s. induction ks as [| k ks IH]; intros s Hd; simpl; [done |].
  apply IH. by apply stop_active_drained.
Qed.

(** ** The loop of [begin_shutdown] *)

(** Stopping a command takes it out of the queue, unless the ledger is exhausted. *)
Lemma stop_active_dequeues cause reason k s :
  Inv s ->
  k ∉ pending (fst (stop_active cause reason (time s) k s)) \/
  exhausted (fst (stop_active cause reason (time s) k s)).
Proof.
  intros Hs. destruct (inv_pending _ _ Hs) as (_ & Hpend).
  destruct (decide (ordinal_left (ledger s))) as [Ho | He];
    [left | right; by apply stop_active_exhausted].
  pose proof (stop_active_same_control cause reason (time s) k s) as Hc.
  unfold same_control in Hc. destruct_and!.
  destruct (decide (k ∈ pending s)) as [Hin | Hnin]; [| set_solver].
  destruct (Hpend k Hin) as (a & Hk & Hph).
  unfold stop_active. simpl. rewrite Hk, Hph.
  destruct (complete_active_ok clock k a (CommandTerminal.stopped cause BeforeEffect) s Hs Hk
    (or_introl Hph) (fun _ => Ho)) as (r & l' & _ & _ & (_ & -> & _)).
  simpl. rewrite decide_True by done. intros Hx. by apply list_elem_of_filter in Hx as [? _].
Qed.

Lemma shutdown_loop cause reason ks s :
  Inv s ->
  let s' := fold_left (fun self key => ignore (stop_active cause reason (time s) key) self) ks s in
  (exists k, k ∈ ks /\ k ∈ pending s') -> exhausted s'.
Proof.
  revert s. induction ks as [| k ks IH]; intros s Hs; simpl; [by intros (k & Hk%not_elem_of_nil & _) |].
  set (s1 := ignore (stop_active cause reason (time s) k) s).
  pose proof (stop_active_sim clock clock_mono anything cause reason (time s) k s ltac:(lia)) as Hsim.
  assert (Inv s1) as Hs1 by (eapply (steps_inv clock clock_mono anything); [exact Hs | by apply Hsim]).
  assert (same_control s s1) as Hc by apply stop_active_same_control.
  assert (time s = time s1) as Ht.
  { unfold same_control in Hc. destruct_and!. unfold RuntimeInvariant.time. congruence. }
  pose proof (stop_active_dequeues cause reason k s Hs) as Hdeq. fold (ignore
    (stop_active cause reason (time s) k) s) in Hdeq. fold s1 in Hdeq.
  rewrite Ht. specialize (IH s1 Hs1). simpl in IH.
  pose proof (stop_loop_same_control cause reason (time s1) ks s1) as Hc'.
  intros (k' & [-> | Hk']%elem_of_cons & Hin); [| apply IH; eauto].
  destruct Hdeq as [Hnin | He].
  - exfalso. apply Hnin. unfold same_control in Hc'. destruct_and!. set_solver.
  - by apply stop_loop_exhausted.
Qed.

Lemma begin_shutdown_drained reply s :
  Inv s -> drained_if_down s -> drained (begin_shutdown clock reply s).
Proof.
  intros Hs Hd. unfold begin_shutdown. case_decide as Hdown; [destruct reply; by apply Hd |].
  cbv zeta. match goal with |- context [now_millis clock ?x] => set (t := x) end.
  assert (Inv t) as Ht.
  { apply (steps_inv clock clock_mono anything s); [exact Hs |].
    assert (sim clock anything s t) as Hsim; [| by apply Hsim].
    eapply sim_trans; [done | apply sim_micro, (m_shutdown _ _ s reply) |].
    eapply sim_trans; [done | apply (lease_sim _ _ _ (LeaseTrace.Revoke Lease.Shutdown) I) |].
    eapply sim_trans; [done | apply sim_micro, (m_reset_failed _ _ _ false) |].
    apply ensure_reset_sim. done. }
  assert (reset_settled t) as Hr by apply ensure_reset_settled.
  assert (LeaseMachine.phase (lease t) <> PhaseHeld) as Hh.
  { apply ensure_reset_not_held. simpl. unfold LeaseMachine.revoke, LeaseMachine.phase.
    by destruct (LeaseMachine.state (lease s)) eqn:Hst; simpl; rewrite ?Hst. }
  clearbody t.
  destruct (now_millis_sim clock anything t) as [Hclk Hnow]. specialize (Hclk Ht).
  apply (steps_inv clock clock_mono anything _ _ Ht) in Hclk as Ht1.
  assert (reset_settled (fst (now_millis clock t)) /\
    LeaseMachine.phase (lease (fst (now_millis clock t))) <> PhaseHeld) as [Hr1 Hh1] by done.
  destruct (now_millis clock t) as [t1 now]. simpl in *. subst now.
  pose proof (stop_loop_same_control CauseShutdown StopShutdown (time t1)
    (btree_keys ActiveKey.cmp (active t1)) t1) as Hc.
  pose proof (shutdown_loop CauseShutdown StopShutdown (btree_keys ActiveKey.cmp (active t1)) t1 Ht1)
    as Hloop. simpl in Hloop.
  set (t2 := fold_left _ _ t1) in *. clearbody t2.
  pose proof (same_control_settled _ _ Hc Hr1). unfold same_control in Hc. destruct_and!.
  split; [congruence |]. split; [done |]. intros Hne.
  destruct (pending t2) as [| k ks] eqn:Hp; [done |]. apply Hloop. exists k.
  split; [| by left]. apply elem_of_btree_keys.
  destruct (inv_pending _ _ Ht1) as (_ & Hpend). destruct (Hpend k) as (a & Hk & _); [| eauto].
  set_solver.
Qed.

(** ** Turns during a shutdown *)

(** A drained state with its clock, its ledger's exhaustion and its tasks. *)
Definition still_drained s s' : Prop :=
  drained s' /\ tasks s' = tasks s /\ running s' = running s /\
  active_reset s' = active_reset s /\ shutting_down s' = shutting_down s.

Lemma stop_loop_still_drained cause reason now ks s :
  drained s ->
  still_drained s
    (fold_left (fun self key => ignore (stop_active cause reason now key) self) ks s).
Proof.
  intros Hd. pose proof (stop_loop_same_control cause reason now ks s) as Hc.
  unfold same_control in Hc. destruct_and!. split; [by apply stop_loop_drained | done].
Qed.

Lemma lease_step_drained s o :
  match o with LeaseTrace.AdvanceTime _ => True | _ => False end ->
  drained s -> drained (set_lease (LeaseTrace.apply o (lease s)) s).
Proof.
  intros Ho (Hh & (Hr1 & Hr2) & Hp). pose proof (LeaseTrace.apply_transition o (lease s)) as Ht.
  unfold drained, reset_settled, LeaseMachine.phase in *. cbn [lease set_lease active_reset
    reset_failed pending].
  destruct (LeaseMachine.state (lease s)) eqn:Hst; try done.
  - apply LeaseTrace.transition_vacant in Ht as [-> | [? _]]; [done | by destruct o].
  - apply LeaseTrace.transition_resetting in Ht as [-> | [? _]]; [done | by destruct o].
Qed.

Lemma ensure_reset_drained s : drained s -> ensure_reset s = s.
Proof.
  intros (Hh & (Hr1 & Hr2) & _). unfold ensure_reset, ensure_reset_started.
  rewrite decide_False by done. apply decide_False. intros (Hp & Hn & Hf).
  destruct (Hr2 Hp) as [? | ?]; congruence.
Qed.

Lemma advance_timers_drained s : drained s -> still_drained s (advance_timers clock s).
Proof.
  intros Hd. unfold advance_timers.
  assert (still_drained s (fst (instant_now clock s))) as Hs1 by by split.
  destruct (instant_now clock s) as [s1 instant]. cbv zeta. simpl in Hs1.
  assert (ignore (on_lease (LeaseMachine.advance_time (now_millis_at (origin s1) instant))) s1 =
    set_lease (LeaseTrace.apply (LeaseTrace.AdvanceTime (now_millis_at (origin s1) instant))
      (lease s1)) s1) as ->.
  { unfold ignore, on_lease. simpl. by destruct (LeaseMachine.advance_time _ _). }
  destruct Hs1 as (Hd1 & Ht1 & Hr1 & Ha1 & Hs1).
  pose proof (lease_step_drained s1
    (LeaseTrace.AdvanceTime (now_millis_at (origin s1) instant)) I Hd1) as Hd2.
  rewrite (ensure_reset_drained _ Hd2).
  match goal with |- still_drained s (fold_left ?f ?ks ?x) =>
    destruct (stop_loop_still_drained DeadlineExceeded StopDeadlineExceeded
      (now_millis_at (origin s1) instant) ks x Hd2) as (H1 & H2 & H3 & H4 & H5) end.
  split; [exact H1 |]. rewrite H2, H3, H4, H5. done.
Qed.

Lemma start_command_drained k s :
  shutting_down s = true -> drained s -> exhausted s ->
  still_drained s (fst (start_command clock k s)) /\ snd (start_command clock k s) = false.
Proof.
  intros Hdown (Hh & Hr & _) He. unfold start_command.
  assert (lease (fst (now_millis clock s)) = lease s /\
    active_reset (fst (now_millis clock s)) = active_reset s /\
    reset_failed (fst (now_millis clock s)) = reset_failed s /\
    ledger (fst (now_millis clock s)) = ledger s /\ tasks (fst (now_millis clock s)) = tasks s /\
    running (fst (now_millis clock s)) = running s /\
    shutting_down (fst (now_millis clock s)) = shutting_down s)
    as (H1 & H2 & H3 & H4 & H5 & H6 & H7) by done.
  destruct (now_millis clock s) as [s1 now]. simpl in *. unfold on_ledger. simpl.
  unfold exhausted in He. rewrite <- H4 in He.
  destruct (mark_running_exhausted (ActiveKey.principal k) (ActiveKey.command_id k) now
    (ActiveKey.generation k) (ledger s1) He) as [Herr Hx].
  destruct (CommandLedger.mark_running _ _ _ _ _) as [l' [r | e]]; simpl in *; [done |].
  unfold begin_shutdown. rewrite decide_True by (simpl; congruence).
  split; [| done]. unfold still_drained, drained, reset_settled, exhausted in *. simpl.
  rewrite H1, H2, H3, H5, H6, H7. split_and!; try done; apply Hr.
Qed.

Lemma drive_step_drained s :
  shutting_down s = true -> drained s -> still_drained s (fst (drive_step clock s)).
Proof.
  intros Hdown Hd. unfold drive_step. case_decide; [| by split].
  destruct (pending s) as [| k rest] eqn:Hp; [by split |]. cbv zeta.
  pose proof Hd as (Hh & Hr & He). rewrite Hp in He. specialize (He ltac:(done)).
  assert (still_drained s (set_pending rest s)) as Hpop by (split; [split; [done | split; done] | done]).
  destruct (active (set_pending rest s) !! k) as [a |]; [| done].
  case_decide; [done |].
  assert (still_drained s (fst (deadline_passed clock a (set_pending rest s))) /\
    exhausted (fst (deadline_passed clock a (set_pending rest s)))) as [Hs1 He1]
    by (unfold deadline_passed; by destruct (ActiveCommand.deadline a)).
  destruct (deadline_passed clock a (set_pending rest s)) as [s1 due]. simpl in Hs1, He1.
  destruct Hs1 as (Hd1 & H1 & H2 & H3 & H4). rewrite Hdown in H4. destruct due.
  - assert (drained (fst (now_millis clock s1)) /\ tasks (fst (now_millis clock s1)) = tasks s1 /\
      running (fst (now_millis clock s1)) = running s1 /\
      active_reset (fst (now_millis clock s1)) = active_reset s1 /\
      shutting_down (fst (now_millis clock s1)) = shutting_down s1) as (Hd2 & Hk) by done.
    destruct (now_millis clock s1) as [s2 now]. simpl in Hd2, Hk.
    pose proof (complete_active_same_control k
      (CommandTerminal.stopped DeadlineExceeded BeforeEffect) now s2) as Hc.
    unfold same_control in Hc. destruct_and!.
    split; [by apply complete_active_drained |]. unfold ignore. simpl. split_and!; congruence.
  - destruct (start_command_drained k s1 H4 Hd1 He1) as ((Hd2 & Hk) & _).
    split; [done |]. destruct_and!. split_and!; congruence.
Qed.

Lemma drive_fuel_drained n s :
  shutting_down s = true -> drained s -> still_drained s (drive_fuel clock n s).
Proof.
  revert s. induction n as [| n IH]; intros s Hdown Hd; simpl; [by split |].
  destruct (drive_step_drained s Hdown Hd) as (Hd1 & H1 & H2 & H3 & H4).
  destruct (drive_step clock s) as [s1 []]; simpl in *; [| by split].
  destruct (IH s1 ltac:(congruence) Hd1) as (Hd2 & K1 & K2 & K3 & K4).
  split; [done |]. split_and!; congruence.
Qed.

(** ** Shutting down happens in [begin_shutdown] only *)

Lemma for_each_down {X} (f : X -> M (CoordinatorTask.t C R E) CoordinatorError unit) xs s :
  (forall x s, shutting_down (fst (f x s)) = shutting_down s) ->
  shutting_down (fst (for_each f xs s)) = shutting_down s.
Proof.
  intros Hf. revert s. induction xs as [| x xs IH]; intros s; simpl; [done |].
  specialize (Hf x s). destruct (f x s) as [s' [u | e]]; simpl in *; [by rewrite IH | done].
Qed.

Lemma stop_active_down cause reason now k s :
  shutting_down (fst (stop_active cause reason now k s)) = shutting_down s.
Proof.
  pose proof (stop_active_same_control cause reason now k s) as Hc.
  unfold same_control in Hc. by destruct_and!.
Qed.

Lemma lease_request_down {A} (op : MonotonicMillis.t -> M LeaseMachine.t LeaseError A) s :
  shutting_down (fst (lease_request clock op s)) = shutting_down s.
Proof.
  unfold lease_request.
  assert (shutting_down (fst (now_millis clock s)) = shutting_down s) as H by done.
  destruct (now_millis clock s) as [s1 now]. unfold on_lease. simpl in *.
  destruct (op now (lease s1)). simpl. by rewrite ensure_reset_down.
Qed.

Lemma rotate_down g s : shutting_down (fst (rotate_generation clock g s)) = shutting_down s.
Proof.
  unfold rotate_generation, rotate_components, on_fence, on_lease, on_ledger, on_events. simpl.
  destruct (GenerationFence.rotate g (generation_fence s)) as [f [x | e]]; simpl; [| done].
  destruct (LeaseMachine.rotate_generation x (lease s)) as [l [u | e]]; simpl; [| done].
  destruct (CommandLedger.rotate_generation x (ledger s)) as [d [u' | e]]; simpl; [| done].
  destruct (EventHub.rotate_generation x (events s)) as [h [u'' | e]]; simpl; [| done].
  match goal with |- context [retire_commands clock x ?y] =>
    assert (shutting_down (fst (retire_commands clock x y)) = shutting_down y) as Hr end.
  { unfold retire_commands. simpl. rewrite for_each_down; [done |].
    intros k s'. apply stop_active_down. }
  destruct (retire_commands clock x _) as [s' [v | e]]; simpl in *; [by rewrite ensure_reset_down | done].
Qed.

Lemma message_down {A} (message : Message C R E A) s :
  Inv s -> shutting_down s = false ->
  drained_if_down (fst (handle_message clock message s)).
Proof.
  intros Hs Hdown.
  assert (forall x : CoordinatorTask.t C R E, shutting_down x = false -> drained_if_down x) as Hno
    by (intros x Hx Hx'; congruence).
  destruct message; simpl; try (by apply Hno); try (apply Hno; rewrite lease_request_down; done).
  - apply Hno. destruct (LeaseMachine.revoke _ _) as [l b]. simpl. by rewrite ensure_reset_down.
  - apply Hno. case_decide; simpl; [done |]. case_decide; simpl; [done |].
    unfold spawn_reset. repeat case_match; done.
  - destruct (submit_command_cases clock clock_mono anything admission s Hs)
      as [[_ Hd] | (x & Hsim & Hd & ->)]; [apply Hno; congruence |].
    intros _. apply begin_shutdown_drained;
      [eapply (steps_inv clock clock_mono anything); [exact Hs | by apply Hsim] |].
    apply Hno. congruence.
  - apply Hno. unfold on_ledger. simpl. by destruct (CommandLedger.lookup_command _ _ _ _ _).
  - apply Hno. unfold watch_command.
    assert (shutting_down (fst (now_millis clock s)) = false) as Hd1 by done.
    destruct (now_millis clock s) as [s1 now]. unfold on_ledger. simpl in *.
    destruct (CommandLedger.lookup_command _ _ _ _ _) as [l [[r |] | e]]; simpl; try done.
    by repeat case_match.
  - apply Hno. unfold cancel_command.
    assert (shutting_down (fst (now_millis clock s)) = false) as Hd1 by done.
    destruct (now_millis clock s) as [s1 now]. simpl in Hd1. cbv zeta.
    destruct (active s1 !! _).
    + pose proof (stop_active_down Cancelled StopCancelled now (ActiveKey.mk generation principal
        command_id) s1) as Hd2. simpl.
      destruct (stop_active _ _ _ _ s1) as [s2 [u | e]]; simpl in *; congruence.
    + unfold on_ledger. simpl.
      destruct (CommandLedger.lookup_command _ _ _ _ _) as [l [[r |] | e]]; simpl; try done.
      by repeat case_match.
  - apply Hno. pose proof (publish_same_control event encoded_size generation s) as Hc.
    unfold same_control in Hc. destruct_and!. congruence.
  - apply Hno. by rewrite rotate_down.
  - intros _. apply begin_shutdown_drained; [done | by apply Hno].
Qed.

(** ** Every state reached *)

Lemma drained_or_down s s' :
  Inv s -> shutting_down s = false -> sim_or_down clock anything s s' -> drained_if_down s'.
Proof.
  intros Hs Hd [[_ Hd'] | (x & Hsim & Hd' & ->)]; intros Hdown; [congruence |].
  apply begin_shutdown_drained; [| intros ?; congruence].
  eapply (steps_inv clock clock_mono anything); [exact Hs | by apply Hsim].
Qed.

(** The end of a task changes neither what is drained nor the flag. *)
Lemma completion_drained completion s :
  Inv s -> drained s ->
  drained (handle_completion clock completion
    (set_tasks (remove_task (completed_task completion) (tasks s)) s)).
Proof.
  intros Hs Hd. set (s1 := set_tasks _ s). assert (drained s1) as Hd1 by exact Hd.
  destruct completion as [k outcome | e outcome]; simpl.
  - assert (drained (set_running (running s1 - 1) s1)) as Hd2 by exact Hd1.
    destruct (active _ !! k) as [a |]; [| exact Hd2].
    assert (drained (fst (now_millis clock (set_running (running s1 - 1) s1)))) as Hd3 by exact Hd2.
    destruct (now_millis clock _) as [s3 now]. unfold ignore. by apply complete_active_drained.
  - case_decide; [exact Hd1 |]. destruct Hd1 as (Hh & (Hr1 & Hr2) & Hp).
    destruct outcome; unfold drained, reset_settled; simpl;
      [| split; [exact Hh |]; split; [split; [exact Hr1 | auto] | exact Hp]].
    unfold ignore, on_lease, LeaseMachine.finish_reset, LeaseMachine.phase in *. simpl.
    destruct (LeaseMachine.state (lease s)) eqn:Hst; simpl in *; rewrite ?Hst in *; done.
Qed.

Lemma completion_down completion s :
  shutting_down (handle_completion clock completion s) = shutting_down s.
Proof.
  destruct completion as [k outcome | e outcome]; simpl.
  - destruct (active s !! k) as [a |]; [| done]. unfold ignore.
    by rewrite complete_active_down.
  - case_decide; [done |]. destruct outcome; [| done].
    unfold ignore, on_lease. simpl. by destruct (LeaseMachine.finish_reset _).
Qed.

Lemma dispatch_drained selected s :
  Inv s -> drained_if_down s -> enabled clock selected s ->
  drained_if_down (dispatch clock selected s).
Proof.
  intros Hs Hd Hen. destruct selected; simpl in *.
  - by apply message_down.
  - intros _. by apply begin_shutdown_drained.
  - intros Hdown. rewrite completion_down in Hdown. apply completion_drained; [done | by apply Hd].
  - intros _. apply begin_shutdown_drained; [| exact Hd].
    eapply (micro_inv clock clock_mono anything); [exact Hs |]. by apply m_lost.
  - done.
Qed.

Lemma dispatch_sim selected s :
  enabled clock selected s -> sim clock anything s (dispatch clock selected s).
Proof.
  intros Hen. destruct selected; simpl in *.
  - by apply handle_message_sim.
  - by apply begin_shutdown_sim.
  - by apply completion_sim.
  - eapply sim_trans; [done | apply sim_micro; by apply (m_lost _ _ _ task) |].
    by apply begin_shutdown_sim.
  - apply sim_refl.
Qed.

Lemma advance_timers_down s : shutting_down (advance_timers clock s) = shutting_down s.
Proof.
  unfold advance_timers.
  assert (shutting_down (fst (instant_now clock s)) = shutting_down s) as Hd by done.
  destruct (instant_now clock s) as [s1 instant]. cbv zeta. simpl in Hd.
  match goal with |- shutting_down (fold_left ?f ?ks ?x) = _ =>
    pose proof (stop_loop_same_control DeadlineExceeded StopDeadlineExceeded
      (now_millis_at (origin s1) instant) ks x) as Hc end.
  unfold same_control in Hc. destruct_and!.
  match goal with H : shutting_down _ = shutting_down (ensure_reset _) |- _ => rewrite H end.
  rewrite ensure_reset_down. unfold ignore, on_lease. simpl.
  by destruct (LeaseMachine.advance_time _ _).
Qed.

Lemma drive_fuel_drained_if_down n s :
  Inv s -> drained_if_down s -> drained_if_down (drive_fuel clock n s).
Proof.
  revert s. induction n as [| n IH]; intros s Hs Hd; simpl; [done |].
  pose proof (drive_step_sim clock clock_mono anything s Hs) as Hst.
  apply (steps_inv clock clock_mono anything _ _ Hs) in Hst.
  assert (drained_if_down (fst (drive_step clock s))) as Hd1.
  { destruct (shutting_down s) eqn:Hdown.
    - intros _. by apply drive_step_drained, Hd.
    - by apply (drained_or_down s _ Hs Hdown), drive_step_cases. }
  destruct (drive_step clock s) as [s1 []]; simpl in *; [by apply IH | done].
Qed.

Lemma turn_drained selected s s' :
  Inv s -> drained_if_down s -> turn clock selected s = Some s' -> drained_if_down s'.
Proof.
  intros Hs Hd. unfold turn. case_decide as Hen; [| done]. intros [= <-]. destruct Hen as [_ Hen].
  pose proof (dispatch_drained selected s Hs Hd Hen) as Hd1.
  pose proof (dispatch_sim selected s Hen Hs) as Hst.
  apply (steps_inv clock clock_mono anything _ _ Hs) in Hst as Hs1.
  set (s1 := dispatch clock selected s) in *. clearbody s1.
  pose proof (advance_timers_sim clock clock_mono anything s1 Hs1) as Hst2.
  apply (steps_inv clock clock_mono anything _ _ Hs1) in Hst2 as Hs2.
  apply drive_fuel_drained_if_down; [done |].
  intros Hdown. rewrite advance_timers_down in Hdown. by apply advance_timers_drained, Hd1.
Qed.

Lemma reachable_drained rs s : reachable clock rs s -> drained_if_down s.
Proof.
  intros (Hv & s0 & Hs0 & Hst). pose proof (spawn_inv clock rs s0 Hv Hs0) as Hinv.
  assert (drained_if_down s0) as Hd0.
  { intros Hdown. exfalso. unfold spawn in Hs0. repeat case_match; by simplify_eq/=. }
  apply (steps_invariant (step clock) (fun x => Inv x /\ drained_if_down x) s0 s); [| done | done].
  intros a b [Ha Hda] [selected Ht]. split; [| by eapply turn_drained].
  eapply (steps_inv clock clock_mono anything); [exact Ha |].
  by apply (step_sim clock clock_mono); [exists selected |].
Qed.

(** ** The end of the tasks *)

(** A turn during the shutdown, but for the selected branch, changes neither the
    tasks nor the counters. *)
Lemma turn_tasks selected s s' :
  Inv s -> drained_if_down s -> shutting_down s = true -> turn clock selected s = Some s' ->
  shutting_down s' = true /\
  tasks s' = match selected with
             | SelectedCompletion completion => remove_task (completed_task completion) (tasks s)
             | SelectedJoinError task => remove_task task (tasks s)
             | _ => tasks s
             end.
Proof.
  intros Hs Hd Hdown. unfold turn. case_decide as Hen; [| done]. intros [= <-].
  destruct Hen as [_ Hen]. pose proof (dispatch_drained selected s Hs Hd Hen) as Hd1.
  assert (shutting_down (dispatch clock selected s) = true /\
    tasks (dispatch clock selected s) = match selected with
             | SelectedCompletion completion => remove_task (completed_task completion) (tasks s)
             | SelectedJoinError task => remove_task task (tasks s)
             | _ => tasks s
             end) as [Hdown1 Htasks].
  { destruct selected; simpl in *; try congruence.
    - rewrite completion_down. split; [done |].
      destruct completion as [k outcome | e outcome]; simpl.
      + destruct (active s !! k) as [a |]; [| done].
        unfold ignore. match goal with |- context [complete_active ?k ?t ?now ?x] =>
          pose proof (complete_active_same_control k t now x) as Hc end.
        unfold same_control in Hc. by destruct_and!.
      + case_decide; [done |]. destruct outcome; [| done]. unfold ignore, on_lease. simpl.
        by destruct (LeaseMachine.finish_reset _).
    - unfold begin_shutdown. by rewrite decide_True by done.
    - by split. }
  destruct (advance_timers_drained _ (Hd1 Hdown1)) as (Hd2 & Ht2 & _ & _ & Hdown2).
  set (s1 := advance_timers clock _) in *. rewrite Hdown1 in Hdown2. rewrite Htasks in Ht2.
  destruct (drive_fuel_drained (S (length (pending s1))) s1 Hdown2 Hd2)
    as (_ & Ht3 & _ & _ & Hdown3).
  unfold drive_pending. rewrite Ht3, Hdown3. done.
Qed.

(** Every task is accounted for. *)
Definition accounted s : Prop :=
  running s = executions (tasks s) /\ (forall e, active_reset s = Some e -> ResetTask e ∈ tasks s).

(** The scope without lost tasks. *)
Definition joined_scope : Scope :=
  {| ends_reset := true; ends_task := true; loses_task := false |}.

Lemma micro_accounted s s' :
  Inv s -> accounted s -> micro clock joined_scope s s' -> accounted s'.
Proof.
  intros Hs [Hrun Hres] Hm. unfold accounted. destruct Hm; simpl in *; try done.
  - rewrite executions_snoc. simpl. split; [lia |]. intros e [= <-]. apply elem_of_app. right. by left.
  - destruct (publish_fields event encoded_size g s) as (_ & _ & -> & -> & -> & _). done.
  - rewrite executions_snoc. simpl. split; [lia |]. intros e He. apply elem_of_app. left. auto.
  - destruct (rotate_components_fields _ _ _ _ H) as (_ & _ & -> & -> & -> & _). done.
  - pose proof (executions_remove (ExecutionTask k) (tasks s) ltac:(done)) as Hx. simpl in Hx.
    split; [lia |]. intros e He. specialize (Hres e He). by apply elem_of_remove_task_ne.
  - pose proof (executions_remove (ResetTask e) (tasks s) ltac:(done)) as Hx. simpl in Hx.
    split; [lia | done].
Qed.

Lemma accounted_finished s :
  Inv s -> accounted s -> shutting_down s = true -> finished s <-> tasks s = [].
Proof.
  intros Hs [Hrun Hres] Hdown. destruct (inv_reset _ _ Hs) as (Hone & _). unfold finished. split.
  - intros (_ & H0 & Hn). destruct (tasks s) as [| task ts] eqn:Ht; [done |]. exfalso.
    pose proof (executions_remove task (task :: ts) ltac:(by left)) as Hx.
    destruct task as [k | e]; simpl in Hx; [lia |].
    specialize (Hone e ltac:(by left)). congruence.
  - intros Ht. rewrite Ht in *. split; [done |]. split; [by rewrite Hrun |].
    destruct (active_reset s) as [e |]; [| done]. specialize (Hres e eq_refl).
    by apply not_elem_of_nil in Hres.
Qed.

(** No task failed to join. *)
Definition joined (selected : Selected (C:=C) (R:=R) (E:=E)) : Prop :=
  match selected with SelectedJoinError _ => False | _ => True end.

Lemma turn_accounted selected s s' :
  joined selected -> Inv s -> turn clock selected s = Some s' -> accounted s -> accounted s'.
Proof.
  intros Hj Hs Ht. apply (sim_keeps clock clock_mono joined_scope accounted); [| done |].
  - intros a b Ha Hacc Hm. by eapply micro_accounted.
  - eapply turn_sim; [done | | done]. by destruct selected.
Qed.

Lemma turn_inv selected s s' : Inv s -> turn clock selected s = Some s' -> Inv s'.
Proof.
  intros Hs Ht. eapply (steps_inv clock clock_mono anything); [exact Hs |].
  by apply (step_sim clock clock_mono); [exists selected |].
Qed.

Lemma run_accounted turns s s' :
  Forall joined turns -> Inv s -> run clock turns s = Some s' -> accounted s -> accounted s'.
Proof.
  revert s. induction turns as [| selected turns IH]; intros s Hj Hs; simpl; [by intros [= <-] |].
  apply Forall_cons in Hj as [Hj Hjs].
  destruct (turn clock selected s) as [s1 |] eqn:Ht; [| done]. intros Hrun Ha.
  eapply IH; [done | by eapply turn_inv | done |]. by eapply turn_accounted.
Qed.

Lemma spawn_accounted rs s0 : spawn clock rs = Ok s0 -> accounted s0.
Proof. unfold spawn. intros Hs0. repeat case_match; by simplify_eq/=. Qed.

Lemma complete_tasks completions s :
  Inv s -> drained_if_down s -> accounted s -> shutting_down s = true ->
  map completed_task completions ≡ₚ tasks s ->
  exists s', run clock (map (SelectedCompletion (C:=C) (E:=E)) completions) s = Some s' /\ finished s'.
Proof.
  revert s. induction completions as [| c cs IH]; intros s Hs Hd Ha Hdown Hp; simpl in *.
  { exists s. split; [done |]. apply (accounted_finished s Hs Ha Hdown). by apply Permutation_nil in Hp. }
  assert (completed_task c ∈ tasks s) as Hin by (rewrite <- Hp; by left).
  assert (exists s1, turn clock (SelectedCompletion c) s = Some s1) as [s1 Ht].
  { unfold turn. rewrite decide_True; [eauto |]. split; [| done].
    rewrite (accounted_finished s Hs Ha Hdown). intros Hnil. rewrite Hnil in Hin.
    by apply not_elem_of_nil in Hin. }
  rewrite Ht. destruct (turn_tasks _ _ _ Hs Hd Hdown Ht) as [Hdown1 Htasks].
  apply IH; [by eapply turn_inv | by eapply turn_drained |
    by apply (turn_accounted (SelectedCompletion c) s) | done |].
  rewrite Htasks. apply (Permutation_cons_inv (a:=completed_task c)).
  rewrite Hp. by apply remove_task_Permutation.
Qed.

End Shutdown.
End RuntimeShutdown.

(** ** Properties *)
Section ShutdownProperties.
Import CoordinatorTask LedgerView RuntimeInvariant RuntimeSimulation RuntimeReachable
  RuntimeLiveness RuntimeShutdown.
Context {C R E : Type} `{!CommandEventMapper R E} (clock : nat -> N).
Context (clock_mono : forall i j, (i <= j)%nat -> clock i <= clock j).
Implicit Types (s : CoordinatorTask.t C R E) (k : ActiveKey.t).

(** A shutdown starts nothing.  Once a reachable coordinator is shutting down, it
    takes no message; no lease is held, and a lease under reset has an attempt in
    flight or a failed one.  A turn keeps the shutdown and starts neither an execution
    nor a reset: its only effect on the tasks in flight is that the one it joined is
    gone. *)
Theorem shutdown_starts_nothing (rs : CoordinatorSettings.t) s :
  reachable clock rs s -> shutting_down s = true ->
  (forall A (message : Message C R E A), turn clock (SelectedMessage message) s = None) /\
  LeaseMachine.phase (lease s) <> PhaseHeld /\
  (LeaseMachine.phase (lease s) = PhaseResetting -> active_reset s <> None \/ reset_failed s = true) /\
  forall selected s', turn clock selected s = Some s' ->
    shutting_down s' = true /\
    tasks s' = match selected with
               | SelectedCompletion completion =>
                   remove_task (completed_task completion) (tasks s)
               | SelectedJoinError task => remove_task task (tasks s)
               | _ => tasks s
               end.
Proof.
  intros Hr Hdown. pose proof (reachable_inv clock clock_mono rs s Hr) as Hs.
  pose proof (reachable_drained clock clock_mono rs s Hr) as Hd.
  destruct (Hd Hdown) as (Hh & (_ & Hres) & _). split_and!; [| done | done |].
  - intros A message. unfold turn. rewrite decide_False; [done |]. simpl. intros [_ Hen]. congruence.
  - intros selected s' Ht. by apply (turn_tasks clock clock_mono).
Qed.

(** C27: a shutdown ends.  If no task has failed to join, then a coordinator that is
    shutting down exits exactly when no task is in flight; and whatever the tasks in
    flight return and in whatever order they end, after their completions the loop
    exits. *)
Theorem shutdown_completes (rs : CoordinatorSettings.t) s0 s turns :
  ValidSettings.valid rs -> spawn clock rs = Ok s0 -> Forall joined turns ->
  run clock turns s0 = Some s -> shutting_down s = true ->
  (finished s <-> tasks s = []) /\
  forall completions, map completed_task completions ≡ₚ tasks s ->
    exists s', run clock (map (SelectedCompletion (C:=C) (E:=E)) completions) s = Some s' /\ finished s'.
Proof.
  intros Hv Hs0 Hj Hrun Hdown.
  assert (reachable clock rs s) as Hr
    by (split; [done |]; exists s0; split; [done | by eapply run_steps]).
  pose proof (reachable_inv clock clock_mono rs s Hr) as Hs.
  pose proof (run_accounted clock clock_mono turns s0 s Hj (spawn_inv clock rs s0 Hv Hs0) Hrun
    (spawn_accounted clock rs s0 Hs0)) as Ha.
  split; [by apply (accounted_finished clock) |]. intros completions Hp.
  apply (complete_tasks clock clock_mono); try done. by eapply reachable_drained.
Qed.

End ShutdownProperties.
