(* ===== verification/RuntimeContract.v ===== *)
(** * Contracts of the coordinator's operations

    What a client may rely on: which commands start, what becomes of an execution's
    outcome, what a repeated submission does, and which errors are never answered. *)

From stdpp Require Import base numbers list option gmap sets strings.
From Stdlib Require Import Lia.
From S2P Require Import Prelude.
From S2P Require Import Identity.
From S2P Require Import Lease.
From S2P Require Import Ledger.
From S2P Require Import Events.
From S2P Require Import RuntimeTypes.
From S2P Require Import Runtime.
From S2P Require Import RuntimeInvariant.
From S2P Require Import RuntimeSimulation.
From S2P Require Import RuntimeProperties.
From S2P Require Import RuntimeRotation.
From S2P Require Import RuntimeLiveness.
From S2P Require Import RuntimeLiveness.
From S2P Require Import RuntimeShutdown.

Local Open Scope N_scope.

Module RuntimeContract.
Import LedgerOutcomes CoordinatorTask LedgerView RuntimeInvariant RuntimeSimulation RuntimeReachable
  RuntimeRotation RuntimeLiveness RuntimeExecution RuntimeShutdown.

(** ** Lookups of unfinished commands *)

(** An unfinished record is found as long as the times are in order and an access
    ordinal is left. *)
Lemma lookup_accepts {R} p c now (l : CommandLedger.t (CommandTerminal.t R)) r :
  LedgerInvariant.wf l -> (forall prev, CommandLedger.last_observed_at l = Some prev -> prev <= now) ->
  ordinal_left l -> record_of l (CommandKey.mk p c) = Some r ->
  is_terminal (CommandRecord.state r) = false ->
  exists l', CommandLedger.lookup_command p c now (CommandLedger.generation l) l = (l', Ok (Some r)).
Proof.
  intros Hl Ht Ho Hr Hlive. pose proof (lookup_cases p c now (CommandLedger.generation l) l) as H.
  destruct (CommandLedger.lookup_command p c now (CommandLedger.generation l) l) as [l' x].
  cbv zeta in H. pose proof Hl as (Hd & _). destruct H as [(_ & e & _ & _ & Hc) | (Hh & H)].
  { destruct (Hc eq_refl Hd) as (prev & Hp & Hlt). specialize (Ht _ Hp). lia. }
  pose proof (opened_quiet now l Hl (opened_wf _ _ _ Hl Hh)) as Hq.
  apply (quiet_record_of _ _ _ _ _ Hq Hlive) in Hr. unfold record_of in Hr.
  destruct H as [(_ & Hn & _) | (s & Hs & [(_ & Hno & _) | (_ & _ & ->)])].
  - by rewrite Hn in Hr.
  - done.
  - rewrite Hs in Hr. simpl in Hr. exists l'. congruence.
Qed.

Section Contract.
  Context {C R E : Type} `{!CommandEventMapper R E} (clock : nat -> N).
  Context (clock_mono : forall i j, (i <= j)%nat -> clock i <= clock j).
  Implicit Types (s : CoordinatorTask.t C R E) (k : ActiveKey.t).

#[local] Abbreviation Inv := (RuntimeInvariant.Inv clock).

(** ** Which executions start *)

Lemma spawn_reset_executions k s : ExecutionTask k ∈ tasks (spawn_reset s) -> ExecutionTask k ∈ tasks s.
Proof.
  unfold spawn_reset. destruct (LeaseMachine.snapshot _); try done.
  destruct (checked_add_u64 _ _); [| done]. simpl.
  intros [? | Hin]%elem_of_app; [done |]. by apply list_elem_of_singleton in Hin.
Qed.

Lemma ensure_reset_executions k s : ExecutionTask k ∈ tasks (ensure_reset s) -> ExecutionTask k ∈ tasks s.
Proof.
  unfold ensure_reset, ensure_reset_started. repeat case_decide; try done.
  - destruct (LeaseMachine.begin_reset _) as [l [u | e]]; [| done].
    case_decide; [| done]. intros Hin. by apply spawn_reset_executions in Hin.
  - apply spawn_reset_executions.
Qed.

Lemma begin_shutdown_executions reply k s :
  ExecutionTask k ∈ tasks (begin_shutdown clock reply s) -> ExecutionTask k ∈ tasks s.
Proof.
  unfold begin_shutdown. case_decide; [by destruct reply |]. cbv zeta.
  match goal with |- context [now_millis clock ?x] => set (t := x) end.
  intros Hin. assert (ExecutionTask k ∈ tasks t) as Ht; [| by apply ensure_reset_executions in Ht].
  assert (tasks (fst (now_millis clock t)) = tasks t) as Ht1 by done. clearbody t.
  destruct (now_millis clock t) as [t1 now]. simpl in Ht1.
  pose proof (stop_loop_same_control CauseShutdown StopShutdown now
    (btree_keys ActiveKey.cmp (active t1)) t1) as Hc.
  unfold same_control in Hc. destruct_and!. congruence.
Qed.

(** What the start of a command found. *)
Definition startable k s : Prop :=
  running s < CoordinatorSettings.maximum_concurrent_executions (settings s) /\
  head (pending s) = Some k /\ ActiveKey.generation k = CommandLedger.generation (ledger s) /\
  (exists r, record_of (ledger s) (ActiveKey.ledger_key k) = Some r /\
     CommandRecord.state r = Accepted) /\
  exists a, active s !! k = Some a /\ ActiveCommand.phase a = ActivePending /\
    is_Some (ActiveCommand.command a) /\
    (forall d, ActiveCommand.deadline a = Some d -> clock (instants s) < d).

Lemma start_command_starts k k' s :
  ExecutionTask k' ∈ tasks (fst (start_command clock k s)) -> ExecutionTask k' ∉ tasks s ->
  k' = k /\ ActiveKey.generation k = CommandLedger.generation (ledger s) /\
  (exists r, record_of (ledger s) (ActiveKey.ledger_key k) = Some r /\
     CommandRecord.state r = Accepted) /\
  exists a, active s !! k = Some a /\ is_Some (ActiveCommand.command a).
Proof.
  intros Hin Hout. unfold start_command in Hin.
  assert (tasks (fst (now_millis clock s)) = tasks s /\ ledger (fst (now_millis clock s)) = ledger s /\
    active (fst (now_millis clock s)) = active s) as (Ht & Hl & Ha) by done.
  destruct (now_millis clock s) as [s1 now]. simpl in Ht, Hl, Ha. rewrite <- Ht in Hout.
  rewrite <- Hl, <- Ha. clear Ht Hl Ha s.
  pose proof (mark_running_cases (ActiveKey.principal k) (ActiveKey.command_id k) now
    (ActiveKey.generation k) (ledger s1)) as Hm. cbv zeta in Hm. unfold on_ledger in Hin. simpl in Hin.
  destruct (CommandLedger.mark_running _ _ _ _ _) as [l' [r | e]]; simpl in Hin;
    [| by apply begin_shutdown_executions in Hin].
  destruct (active s1 !! k) as [a |] eqn:Hk; [| by apply begin_shutdown_executions in Hin].
  destruct (ActiveCommand.command a) as [command |] eqn:Hcmd;
    [| by apply begin_shutdown_executions in Hin].
  destruct Hm as [(_ & e & [=] & _) | ((Hg & _) & [(_ & _ & [=]) | (st & Hst & [(_ & _ & [=]) |
    [(_ & _ & [=]) | (Hacc & _ & _ & _)]])])].
  match type of Hin with context [publish_command_transition ?p ?x ?y] =>
    pose proof (transition_same p x y) as (_ & _ & _ & Hq & _);
    destruct (publish_command_transition p x y) as [s2 [u | e]] end; simpl in *;
    [| apply begin_shutdown_executions in Hin];
    rewrite Hq in Hin; apply elem_of_app in Hin as [? | Hin]; try done;
    apply list_elem_of_singleton in Hin as [= ->].
  all: split_and!; try done; [| by eauto].
  all: exists (StoredCommand.record st); split; [| exact Hacc];
    unfold record_of, ActiveKey.ledger_key; by rewrite Hst.
Qed.

Lemma drive_step_starts k s :
  ExecutionTask k ∈ tasks (fst (drive_step clock s)) -> ExecutionTask k ∉ tasks s -> startable k s.
Proof.
  intros Hin Hout. unfold drive_step in Hin. case_decide as Hmax; [| done].
  destruct (pending s) as [| k0 rest] eqn:Hp; [done |]. cbv zeta in Hin.
  change (active (set_pending rest s)) with (active s) in Hin.
  destruct (active s !! k0) as [a |] eqn:Hk; [| done].
  case_decide as Hph; [done |].
  assert (tasks (fst (deadline_passed clock a (set_pending rest s))) = tasks s /\
    ledger (fst (deadline_passed clock a (set_pending rest s))) = ledger s /\
    active (fst (deadline_passed clock a (set_pending rest s))) = active s /\
    (snd (deadline_passed clock a (set_pending rest s)) = false ->
      forall d, ActiveCommand.deadline a = Some d -> clock (instants s) < d)) as (Ht & Hl & Ha & Hd).
  { unfold deadline_passed. destruct (ActiveCommand.deadline a) as [d |]; [| done]. simpl.
    split_and!; try done. intros Hd%bool_decide_eq_false d' [= <-]. lia. }
  destruct (deadline_passed clock a (set_pending rest s)) as [s1 []]; simpl in Ht, Hl, Ha, Hd.
  - exfalso. apply Hout. revert Hin.
    assert (tasks (fst (now_millis clock s1)) = tasks s1) as Ht1 by done.
    destruct (now_millis clock s1) as [s2 now]. simpl in Ht1. unfold ignore. simpl.
    pose proof (complete_active_same_control k0
      (CommandTerminal.stopped DeadlineExceeded BeforeEffect) now s2) as Hc.
    unfold same_control in Hc. destruct_and!. congruence.
  - rewrite <- Ht in Hout.
    destruct (start_command_starts k0 k s1 Hin Hout) as (-> & Hg & Hr & a' & Ha' & Hcmd).
    rewrite Hl in Hg, Hr. rewrite Ha, Hk in Ha'. simplify_eq.
    unfold startable. rewrite Hp. split_and!; try done. exists a'.
    split; [done |]. split; [by destruct (ActiveCommand.phase a') |]. split; [done | by apply Hd].
Qed.

End Contract.
End RuntimeContract.

(** ** Properties *)
Section ContractProperties.
Import LedgerOutcomes CoordinatorTask LedgerView RuntimeInvariant RuntimeSimulation RuntimeReachable
  RuntimeRotation RuntimeExecution RuntimeReplies RuntimeContract.
Context {C R E : Type} `{!CommandEventMapper R E} (clock : nat -> N).
Context (clock_mono : forall i j, (i <= j)%nat -> clock i <= clock j).
Implicit Types (s : CoordinatorTask.t C R E) (k : ActiveKey.t).


(** The start of executions.  Whatever the state, one iteration of
    [drive_pending] starts at most the command at the head of the queue, and only if a
    slot is free, the command is pending and has not been started, the ledger holds it
    as accepted in its current generation, and its deadline lies after the clock
    reading of the test. *)
Theorem executions_start_in_time s k :
  ExecutionTask k ∈ tasks (fst (drive_step clock s)) -> ExecutionTask k ∉ tasks s ->
  startable clock k s.
Proof. apply drive_step_starts. Qed.

(** The loop of [drive_pending] ends, and does all the work it can.  The function
    satisfies the equation of the source's loop, and afterwards all slots are taken,
    the queue is empty, or the shutdown has begun. *)
Theorem drive_pending_exhausts_queue s :
  drive_pending clock s =
    (let '(s', continue) := drive_step clock s in
     if continue then drive_pending clock s' else s') /\
  (CoordinatorSettings.maximum_concurrent_executions (settings (drive_pending clock s))
     <= running (drive_pending clock s) \/
   pending (drive_pending clock s) = [] \/ shutting_down (drive_pending clock s) = true).
Proof.
  split; [| apply drive_fuel_end; lia].
  change (drive_pending clock s) with
    (let '(s', continue) := drive_step clock s in
     if continue then drive_fuel clock (length (pending s)) s' else s').
  destruct (drive_step clock s) as [s' []] eqn:Hst; [| done].
  apply drive_step_progress in Hst. unfold drive_pending. apply drive_fuel_enough; lia.
Qed.

(** A repeated submission starts nothing.  Submitting a command the ledger holds
    as unfinished answers with its record and its channel if the request hash is the
    same and with a conflict if it differs; either way no command, queue entry, task,
    channel value, event or lease changes. *)
Theorem resubmission_starts_nothing (rs : CoordinatorSettings.t) s (p : PrincipalId.t)
    (c : CommandId) (h : CanonicalCommandHash) lease_req within deadline (command : C) r :
  reachable clock rs s ->
  record_of (ledger s) (CommandKey.mk p c) = Some r ->
  is_terminal (CommandRecord.state r) = false -> ordinal_left (ledger s) ->
  deadline_after (clock (instants s)) within = Ok deadline ->
  let '(s', x) := submit_command clock
    (CommandAdmission.mk p c h (current s) lease_req within command) s in
  x = (if decide (CommandRecord.request_hash r = h)
       then Ok (CommandSubmission.mk false r (WatchActive (ActiveKey.mk (current s) p c)))
       else Err (LedgerErrorOf LedgerCommandIdConflict)) /\
  active s' = active s /\ pending s' = pending s /\ tasks s' = tasks s /\
  outputs s' = outputs s /\ live_events s' = live_events s /\ lease s' = lease s.
Proof.
  intros Hr Hrec Hlive Ho Hd. pose proof (reachable_inv clock clock_mono rs s Hr) as Hs.
  destruct (unfinished_active clock s p c r Hs Hrec Hlive) as [a Ha].
  destruct (now_millis_sim clock anything s) as [Hclk Hnow]. specialize (Hclk Hs).
  apply (steps_inv clock clock_mono anything _ _ Hs) in Hclk as Hs1.
  pose proof (inv_components _ _ Hs1) as (_ & Hl & _ & _ & Hlg & _).
  pose proof (inv_clock _ _ Hs1) as (_ & _ & Hobs).
  unfold submit_command, now_millis, instant_now in *. cbn in *. rewrite Hd. cbn.
  destruct (lookup_accepts p c _ (ledger s) r Hl Hobs Ho Hrec Hlive) as [l' Hlook].
  unfold on_ledger. cbn. unfold current in *. cbn in *. rewrite <- Hlg.
  unfold RuntimeInvariant.time in Hlook. cbn in Hlook. rewrite Hlook. cbn.
  unfold resubmission. cbn. rewrite Hlg, Ha. cbn.
  case_decide as H1; case_decide as H2; try done; by split_and!.
Qed.

(** No defensive error.  In every reachable state, no submission, cancellation,
    watch, lookup or publication is answered with the invariant violation of the
    ledger or of the event hub. *)
Theorem replies_report_no_corruption (rs : CoordinatorSettings.t) s :
  reachable clock rs s ->
  (forall admission, ~ violation (snd (submit_command clock admission s))) /\
  (forall p c g, ~ violation (snd (cancel_command clock p c g s))) /\
  (forall p c g, ~ violation (snd (watch_command clock p c g s))) /\
  (forall p c now g, ~ violation (snd (on_ledger (CommandLedger.lookup_command p c now g) s))) /\
  (forall event size g, ~ violation (snd (publish_event event size g s))).
Proof.
  intros Hr. pose proof (reachable_inv clock clock_mono rs s Hr) as Hs. split_and!; intros.
  - by apply submit_no_violation.
  - by apply cancel_no_violation.
  - by apply watch_no_violation.
  - pose proof (lookup_no_violation p c now g (ledger s)) as Hv. unfold on_ledger. simpl.
    destruct (CommandLedger.lookup_command _ _ _ _ _) as [l [x | e]]; simpl in *;
      intros [? | ?]; congruence.
  - by apply (publish_no_violation clock).
Qed.

End ContractProperties.
