(* ===== verification/RuntimeWitness.v ===== *)
(** * Witnesses of the coordinator's properties

    A small concrete coordinator, whose clock advances by one millisecond at every
    reading, driven into the situations the properties of the coordinator speak of. *)

From stdpp Require Import base numbers list option gmap sets strings.
From Stdlib Require Import Lia.
From S2P Require Import Prelude.
From S2P Require Import Identity.
From S2P Require Import Lease.
From S2P Require Import Ledger.
From S2P Require Import Events.
From S2P Require Import RuntimeTypes.
From S2P Require Import Runtime.
From S2P Require Import RuntimeInvariant.
From S2P Require Import RuntimeSimulation.
From S2P Require Import RuntimeProperties.
From S2P Require Import RuntimeRotation.
From S2P Require Import RuntimeLiveness.
From S2P Require Import RuntimeLiveness.
From S2P Require Import RuntimeShutdown.
From S2P Require Import RuntimeContract.

Local Open Scope N_scope.

Module RuntimeWitness.
Import CoordinatorTask LedgerView RuntimeInvariant RuntimeSimulation RuntimeReachable
  RuntimeRotation RuntimeLiveness RuntimeExecution RuntimeShutdown RuntimeReplies RuntimeContract.

(** Commands, outputs and events are numbers; every transition publishes an event. *)
#[local] Instance mapper : CommandEventMapper N N := fun _ _ => [CoordinatorEvent.mk 1 4].

Definition ticks (n : nat) : N := N.of_nat n * 1000000.

Lemma ticks_mono (i j : nat) : (i <= j)%nat -> ticks i <= ticks j.
Proof. unfold ticks. lia. Qed.

Definition desktop : DesktopId := mkDesktopId 7.
Definition token : GenerationToken.t := GenerationToken.mk desktop (mkDesktopGeneration 1) 1.
Definition alice : PrincipalId.t := PrincipalId.mk "alice".
Definition lease_id : ControlLeaseId := mkControlLeaseId 5.
Definition hash : CanonicalCommandHash := mkCanonicalCommandHash [].

Definition settings : CoordinatorSettings.t :=
  CoordinatorSettings.mk desktop (mkDesktopGeneration 1) 8 2 2 1 (LeasePolicy.mk 1000 1000)
    (CommandLedgerLimits.mk 4 1000) (EventHubLimits.mk 4 100).

Lemma settings_valid : ValidSettings.valid settings.
Proof.
  split; [by exists 1000, 1000 |]. split; [by exists 4, 1000 |]. exists 4, 100. by split.
Qed.

Abbreviation State := (CoordinatorTask.t N N N).
Abbreviation Turn := (Selected (C:=N) (R:=N) (E:=N)).

Definition initial : State :=
  mk settings false (GenerationFence.mkFence token)
    (LeaseMachine.mk desktop token (LeasePolicy.mk 1000 1000) None Vacant)
    (CommandLedger.mk desktop token (CommandLedgerLimits.mk 4 1000) ∅ 1 None)
    (EventHub.mk desktop token (EventHubLimits.mk 4 100) [] 0 0 0)
    [] 0 ∅ [] 0 [] 1 None false false None 1 [].

Lemma initial_spawned : spawn ticks settings = Ok initial.
Proof. reflexivity. Qed.

(** The state after the given turns. *)
Definition after (turns : list Turn) : State := default initial (run ticks turns initial).

Lemma after_run turns :
  match run ticks turns initial with Some _ => true | None => false end = true ->
  run ticks turns initial = Some (after turns).
Proof. unfold after. by destruct (run ticks turns initial). Qed.

Lemma after_reachable turns :
  match run ticks turns initial with Some _ => true | None => false end = true ->
  reachable ticks settings (after turns).
Proof.
  intros H. split; [exact settings_valid |]. exists initial.
  split; [exact initial_spawned |]. by eapply run_steps, after_run.
Qed.

(** ** Situations *)

Definition submit (id : N) (within : option N) : Turn :=
  SelectedMessage (Submit (CommandAdmission.mk alice (mkCommandId id) hash token LeaseNotRequired
    within (100 + id))).
Definition key (id : N) : ActiveKey.t := ActiveKey.mk token alice (mkCommandId id).

(** One command runs, with a deadline; the next one waits. *)
Definition busy_turns : list Turn := [submit 1 (Some 20000000); submit 2 None].
Definition busy : State := after busy_turns.
Lemma busy_reachable : reachable ticks settings busy.
Proof. apply after_reachable. vm_compute. reflexivity. Qed.

(** A lease has been revoked and its reset is in flight. *)
Definition resetting_turns : list Turn :=
  [SelectedMessage (AcquireLease alice lease_id None token);
   SelectedMessage (RevokeLease Revoked)].
Definition resetting : State := after resetting_turns.
Lemma resetting_reachable : reachable ticks settings resetting.
Proof. apply after_reachable. vm_compute. reflexivity. Qed.

(** The busy coordinator is shutting down. *)
Definition closing_turns : list Turn := busy_turns ++ [SelectedMessage RequestShutdown].
Definition closing : State := after closing_turns.
Lemma closing_reachable : reachable ticks settings closing.
Proof. apply after_reachable. vm_compute. reflexivity. Qed.

(** ** The properties there *)

Lemma coordinator_capacities_witness :
  N.of_nat (size (active busy)) = 2 /\ executions (tasks busy) = 1 /\
  N.of_nat (size (active busy)) <= 2 /\ executions (tasks busy) <= running busy <= 1.
Proof.
  destruct (coordinator_capacities ticks ticks_mono settings busy busy_reachable)
    as (H1 & _ & H3 & _).
  split; [vm_compute; reflexivity |]. split; [vm_compute; reflexivity |]. split; [exact H1 | exact H3].
Defined.

Lemma command_lifecycle_witness :
  Lifecycle.stage_of (key 1) (outputs busy) = Lifecycle.Executing /\
  Lifecycle.stage_of (key 2) (outputs busy) = Lifecycle.Waiting.
Proof.
  destruct (command_lifecycle ticks ticks_mono settings busy (key 1) busy_reachable) as [-> _].
  split; vm_compute; reflexivity.
Defined.

Lemma active_commands_agree_with_ledger_witness :
  exists r, record_of (ledger busy) (CommandKey.mk alice (mkCommandId 1)) = Some r /\
    is_terminal (CommandRecord.state r) = false.
Proof.
  destruct (active_commands_agree_with_ledger ticks ticks_mono settings busy alice (mkCommandId 1)
    busy_reachable) as (H & _).
  eexists. apply H. eexists. split; vm_compute; reflexivity.
Defined.

Lemma rotation_is_all_or_nothing_witness :
  match rotate_generation ticks (mkDesktopGeneration 2) busy with
  | (s', Ok g') => current s' = g' /\ GenerationToken.epoch g' = 2
  | (_, Err _) => False
  end.
Proof.
  pose proof (rotation_is_all_or_nothing ticks ticks_mono settings busy (mkDesktopGeneration 2)
    busy_reachable) as H.
  destruct (rotate_generation ticks (mkDesktopGeneration 2) busy) as [s' [g' | e]] eqn:Hrot.
  - destruct H as (H & _). split; [exact H |]. vm_compute in Hrot. by injection Hrot as _ <-.
  - vm_compute in Hrot. discriminate Hrot.
Defined.

Lemma revoked_leases_are_reset_witness : active_reset resetting <> None.
Proof.
  pose (held := after [SelectedMessage (AcquireLease alice lease_id None token)]).
  assert (step ticks held resetting) as Hst
    by (exists (SelectedMessage (RevokeLease Revoked)); vm_compute; reflexivity).
  destruct (revoked_leases_are_reset ticks held resetting Hst) as [_ H].
  destruct H as [H | H]; [vm_compute; reflexivity | exact H | vm_compute in H; discriminate H].
Defined.

Lemma reset_ends_only_by_completion_witness :
  exists e, active_reset resetting = Some e.
Proof.
  pose (s' := after (resetting_turns ++ [SelectedCompletion (Reset 1 ResetComplete)])).
  destruct (reset_ends_only_by_completion ticks ticks_mono settings resetting s'
    (SelectedCompletion (Reset 1 ResetComplete))
    (LeaseGrant.mk lease_id alice token 1001 1) Revoked resetting_reachable) as (e & _ & He).
  - vm_compute. reflexivity.
  - vm_compute. reflexivity.
  - vm_compute. discriminate.
  - exists e. exact He.
Defined.

Lemma subscription_misses_nothing_witness :
  let s2 := after (busy_turns ++ [submit 1 None;
    SelectedCompletion (Execution (key 1) (Ok (Completed 9 AfterEffect)))]) in
  numbered (fun x => x) 2 ([2; 3] ++ drop 3 (live_events s2)).
Proof.
  intros s2.
  destruct (subscription_misses_nothing ticks ticks_mono settings busy busy s2 token 1
    (EventSubscription.mk (EventHub.replay_since (events busy) token 1) 3) 1 3
    [EventRecord.mk token 2 4 1; EventRecord.mk token 3 4 1] busy_reachable) as [H _].
  - vm_compute. reflexivity.
  - vm_compute. reflexivity.
  - eapply run_steps with (turns := [submit 1 None;
      SelectedCompletion (Execution (key 1) (Ok (Completed 9 AfterEffect)))]).
    vm_compute. reflexivity.
  - vm_compute. reflexivity.
  - exact H.
Defined.

(** The running command's deadline, twenty milliseconds past its submission, has
    passed. *)
Definition late : State := after (busy_turns ++ repeat (submit 1 None) 8).
Lemma late_reachable : reachable ticks settings late.
Proof. apply after_reachable. vm_compute. reflexivity. Qed.

Lemma elapsed_running_deadline_keeps_timer_due_witness :
  exists s', turn ticks SelectedTimer late = Some s' /\ enabled ticks SelectedTimer s'.
Proof.
  destruct (active late !! key 1) as [a |] eqn:Ha; [| vm_compute in Ha; discriminate Ha].
  destruct (elapsed_running_deadline_keeps_timer_due ticks ticks_mono settings late (key 1) a 21000000
    late_reachable) as (s' & Ht & Hen & _).
  - vm_compute. left.
  - exact Ha.
  - vm_compute in Ha. injection Ha as <-. reflexivity.
  - vm_compute. discriminate.
  - exists s'. split; [exact Ht | exact Hen].
Defined.

Lemma join_error_prevents_exit_witness :
  ~ finished (after (busy_turns ++ [SelectedJoinError (ExecutionTask (key 1))])).
Proof.
  apply (join_error_prevents_exit ticks ticks_mono settings busy
    (after (busy_turns ++ [SelectedJoinError (ExecutionTask (key 1))])) _ (key 1) busy_reachable).
  - vm_compute. reflexivity.
  - apply steps_refl.
Defined.

Lemma shutdown_starts_nothing_witness :
  turn ticks (submit 3 None) closing = None /\ LeaseMachine.phase (lease closing) <> PhaseHeld.
Proof.
  destruct (shutdown_starts_nothing ticks ticks_mono settings closing closing_reachable)
    as (H1 & H2 & _); [vm_compute; reflexivity |].
  split; [apply H1 | exact H2].
Defined.

Lemma shutdown_completes_witness :
  exists s', run ticks [SelectedCompletion (Execution (key 1) (Ok (Stopped BeforeEffect)))] closing
    = Some s' /\ finished s'.
Proof.
  destruct (shutdown_completes ticks ticks_mono settings initial closing closing_turns settings_valid
    initial_spawned) as [_ H].
  - vm_compute. repeat constructor.
  - apply after_run. vm_compute. reflexivity.
  - vm_compute. reflexivity.
  - apply (H [Execution (key 1) (Ok (Stopped BeforeEffect))]).
    vm_compute. repeat constructor.
Defined.


(** The free slot goes to the next command. *)
Lemma executions_start_in_time_witness :
  startable ticks (key 2)
    (dispatch ticks (SelectedCompletion (Execution (key 1) (Ok (Completed 9 AfterEffect)))) busy).
Proof.
  apply (executions_start_in_time ticks).
  - vm_compute. left.
  - vm_compute. intros H. inversion H.
Defined.

Lemma resubmission_starts_nothing_witness :
  outputs (fst (submit_command ticks
    (CommandAdmission.mk alice (mkCommandId 2) hash token LeaseNotRequired None 500) busy))
    = outputs busy.
Proof.
  destruct (record_of (ledger busy) (CommandKey.mk alice (mkCommandId 2))) as [r |] eqn:Hr;
    [| vm_compute in Hr; discriminate Hr].
  pose proof (resubmission_starts_nothing ticks ticks_mono settings busy alice (mkCommandId 2) hash
    LeaseNotRequired None None 500 r busy_reachable Hr) as H.
  change (current busy) with token in H.
  destruct (submit_command ticks
    (CommandAdmission.mk alice (mkCommandId 2) hash token LeaseNotRequired None 500) busy) as [s' x].
  apply H.
  - vm_compute in Hr. injection Hr as <-. reflexivity.
  - vm_compute. discriminate.
  - reflexivity.
Defined.

Lemma replies_report_no_corruption_witness :
  ~ violation (snd (cancel_command ticks alice (mkCommandId 2) token busy)).
Proof.
  destruct (replies_report_no_corruption ticks ticks_mono settings busy busy_reachable) as (_ & H & _).
  apply H.
Defined.

End RuntimeWitness.
