(* ===== verification/Geometry.v ===== *)
(** * Root-window geometry

    Models [xenoteer-core/src/domain/geometry.rs] and the points, sizes and rectangles
    of [xenoteer-protocol/src/geometry.rs] it is built on.  Coordinates are [Z]: the
    [i32], [u32] and [i64] of the source are ranges of it, and every conversion that
    can fail in the source is an option here. *)

From stdpp Require Import base numbers list option.
From Stdlib Require Import Lia.
From S2P Require Import Prelude.

Local Open Scope Z_scope.

(** ** Machine integers *)
Definition i32 (z : Z) : Prop := - 2 ^ 31 <= z <= 2 ^ 31 - 1.
Definition u32 (z : Z) : Prop := 0 <= z <= 2 ^ 32 - 1.

#[export] Instance i32_dec z : Decision (i32 z).
Proof. unfold i32. apply _. Defined.
#[export] Instance u32_dec z : Decision (u32 z).
Proof. unfold u32. apply _. Defined.

(** [i32::try_from], [u32::try_from]; [i32::checked_add]. *)
Definition i32_try_from (z : Z) : option Z := if decide (i32 z) then Some z else None.
Definition u32_try_from (z : Z) : option Z := if decide (u32 z) then Some z else None.
Definition i32_checked_add (a b : Z) : option Z := i32_try_from (a + b).

Lemma i32_try_from_in z : i32 z -> i32_try_from z = Some z.
Proof. intros H. unfold i32_try_from. by rewrite decide_True by done. Qed.

Lemma u32_try_from_in z : u32 z -> u32_try_from z = Some z.
Proof. intros H. unfold u32_try_from. by rewrite decide_True by done. Qed.

(** ** The protocol's geometry *)

(** [GeometryError] of the protocol. *)
Inductive ProtocolGeometryError := EmptySize | EndOverflow.

(** [Point]. *)
Module Point.
Record t := mk { x : Z; y : Z }.
End Point.

(** [Size]. *)
Module Size.
Record t := mk { width : Z; height : Z }.

(** [Size::validate]. *)
Definition validate (self : t) : result unit ProtocolGeometryError :=
  if decide (width self = 0 \/ height self = 0) then Err EmptySize else Ok tt.

(** [Size::new]. *)
Definition new (width height : Z) : result t ProtocolGeometryError :=
  let value := mk width height in
  match validate value with
  | Err e => Err e
  | Ok _ => Ok value
  end.
End Size.

(** [Rect]. *)
Module Rect.
Record t := mk { x : Z; y : Z; width : Z; height : Z }.

(** [Rect::validate]: the end coordinates are computed in [i64]. *)
Definition validate (self : t) : result unit ProtocolGeometryError :=
  match Size.new (width self) (height self) with
  | Err e => Err e
  | Ok _ =>
      let end_x := x self + width self - 1 in
      let end_y := y self + height self - 1 in
      if decide (2 ^ 31 - 1 < end_x \/ 2 ^ 31 - 1 < end_y) then Err EndOverflow else Ok tt
  end.

(** [Rect::new]. *)
Definition new (x y width height : Z) : result t ProtocolGeometryError :=
  let value := mk x y width height in
  match validate value with
  | Err e => Err e
  | Ok _ => Ok value
  end.

(** [Rect::origin], [Rect::size]. *)
Definition origin (self : t) : Point.t := Point.mk (x self) (y self).
Definition size (self : t) : result Size.t ProtocolGeometryError :=
  Size.new (width self) (height self).
End Rect.

(** ** Checked points *)
Definition MIN_XTEST_COORDINATE : Z := - 32768.
Definition MAX_XTEST_COORDINATE : Z := 32767.

(** [RootPoint(Point)]. *)
Record RootPoint := mkRootPoint { point_of : Point.t }.

(** [GeometryError]. *)
Inductive GeometryError :=
  | EmptyScreen
  | CoordinateOverflow
  | DeltaOverflow
  | OutsideXtestRange (x y : Z)
  | OutsideScreen (point : RootPoint).

(** [PointerDelta]. *)
Module PointerDelta.
Record t := mk { dx : Z; dy : Z }.

(** [PointerDelta::new]: from [i64]. *)
Definition new (dx dy : Z) : result t GeometryError :=
  match i32_try_from dx, i32_try_from dy with
  | Some dx, Some dy => Ok (mk dx dy)
  | _, _ => Err DeltaOverflow
  end.
End PointerDelta.

Module RootPoint.

(** The coordinates of XTEST requests. *)
Definition in_range (z : Z) : Prop := MIN_XTEST_COORDINATE <= z <= MAX_XTEST_COORDINATE.
#[export] Instance in_range_dec z : Decision (in_range z).
Proof. unfold in_range. apply _. Defined.

(** [RootPoint::new]. *)
Definition new (x y : Z) : result RootPoint GeometryError :=
  if decide (~ in_range x \/ ~ in_range y) then Err (OutsideXtestRange x y)
  else Ok (mkRootPoint (Point.mk x y)).

(** [RootPoint::try_from_protocol]. *)
Definition try_from_protocol (point : Point.t) : result RootPoint GeometryError :=
  new (Point.x point) (Point.y point).

(** [RootPoint::x], [RootPoint::y]. *)
Definition x (self : RootPoint) : Z := Point.x (point_of self).
Definition y (self : RootPoint) : Z := Point.y (point_of self).

(** [RootPoint::checked_add]. *)
Definition checked_add (self : RootPoint) (delta : PointerDelta.t) :
    result RootPoint GeometryError :=
  match i32_checked_add (x self) (PointerDelta.dx delta) with
  | None => Err CoordinateOverflow
  | Some x' =>
      match i32_checked_add (y self) (PointerDelta.dy delta) with
      | None => Err CoordinateOverflow
      | Some y' => new x' y'
      end
  end.

Definition valid (p : RootPoint) : Prop := in_range (x p) /\ in_range (y p).

Lemma new_valid a b p : new a b = Ok p <-> p = mkRootPoint (Point.mk a b) /\ in_range a /\ in_range b.
Proof.
  unfold new. case_decide as Hd; [naive_solver |].
  split; [intros [= <-]; split; [done |] | by intros (-> & _)].
  destruct (decide (in_range a)), (decide (in_range b)); tauto.
Qed.

End RootPoint.
Export (hints) RootPoint.

(** ** Screens *)

(** [ScreenRect(Rect)]. *)
Record ScreenRect := mkScreenRect { rect_of : Rect.t }.

Module ScreenRect.

(** [ScreenRect::new]. *)
Definition new (x y width height : Z) : result ScreenRect GeometryError :=
  if decide (width = 0 \/ height = 0) then Err EmptyScreen
  else
    match Rect.new x y width height with
    | Err _ => Err CoordinateOverflow
    | Ok rect =>
        match i32_try_from (x + width - 1), i32_try_from (y + height - 1) with
        | Some max_x, Some max_y =>
            match RootPoint.new x y with
            | Err e => Err e
            | Ok _ =>
                match RootPoint.new max_x max_y with
                | Err e => Err e
                | Ok _ => Ok (mkScreenRect rect)
                end
            end
        | _, _ => Err CoordinateOverflow
        end
    end.

(** [ScreenRect::try_from_protocol]. *)
Definition try_from_protocol (rect : Rect.t) : result ScreenRect GeometryError :=
  let origin := Rect.origin rect in
  match Rect.size rect with
  | Err _ => Err CoordinateOverflow
  | Ok size => new (Point.x origin) (Point.y origin) (Size.width size) (Size.height size)
  end.

(** [ScreenRect::origin]. *)
Definition origin (self : ScreenRect) : RootPoint := mkRootPoint (Rect.origin (rect_of self)).

(** [ScreenRect::inclusive_end]: the origin where a computation fails. *)
Definition inclusive_end (self : ScreenRect) : RootPoint :=
  let origin := Rect.origin (rect_of self) in
  match Rect.size (rect_of self) with
  | Err _ => mkRootPoint origin
  | Ok size =>
      match i32_try_from (Point.x origin + Size.width size - 1) with
      | None => mkRootPoint origin
      | Some x =>
          match i32_try_from (Point.y origin + Size.height size - 1) with
          | None => mkRootPoint origin
          | Some y => mkRootPoint (Point.mk x y)
          end
      end
  end.

(** [ScreenRect::contains]. *)
Definition contains (self : ScreenRect) (point : RootPoint) : bool :=
  let origin := origin self in
  let last := inclusive_end self in
  bool_decide (RootPoint.x origin <= RootPoint.x point <= RootPoint.x last) &&
  bool_decide (RootPoint.y origin <= RootPoint.y point <= RootPoint.y last).

(** [Ord::clamp]. *)
Definition clamp_to (value low high : Z) : Z :=
  if decide (value < low) then low else if decide (high < value) then high else value.

(** [ScreenRect::clamp]. *)
Definition clamp (self : ScreenRect) (point : RootPoint) : RootPoint :=
  let origin := origin self in
  let last := inclusive_end self in
  mkRootPoint (Point.mk
    (clamp_to (RootPoint.x point) (RootPoint.x origin) (RootPoint.x last))
    (clamp_to (RootPoint.y point) (RootPoint.y origin) (RootPoint.y last))).

(** [ScreenRect::intersect]. *)
Definition intersect (self other : ScreenRect) : option ScreenRect :=
  let x := Z.max (RootPoint.x (origin self)) (RootPoint.x (origin other)) in
  let y := Z.max (RootPoint.y (origin self)) (RootPoint.y (origin other)) in
  let max_x := Z.min (RootPoint.x (inclusive_end self)) (RootPoint.x (inclusive_end other)) in
  let max_y := Z.min (RootPoint.y (inclusive_end self)) (RootPoint.y (inclusive_end other)) in
  if decide (max_x < x \/ max_y < y) then None
  else
    match u32_try_from (max_x - x + 1), u32_try_from (max_y - y + 1) with
    | Some width, Some height =>
        match new x y width height with
        | Ok r => Some r
        | Err _ => None
        end
    | _, _ => None
    end.

(** [ScreenRect::admit]. *)
Definition admit_point (self : ScreenRect) (point : RootPoint) (clamping : bool) :
    result RootPoint GeometryError :=
  if contains self point then Ok point
  else if clamping then Ok (clamp self point)
  else Err (OutsideScreen point).

(** *** What the constructor guarantees *)
Definition valid (r : ScreenRect) : Prop :=
  let '(Rect.mk x y width height) := rect_of r in
  1 <= width /\ 1 <= height /\
  RootPoint.in_range x /\ RootPoint.in_range y /\
  RootPoint.in_range (x + width - 1) /\ RootPoint.in_range (y + height - 1).

Lemma new_spec x y width height r :
  i32 x -> i32 y -> u32 width -> u32 height ->
  new x y width height = Ok r <-> r = mkScreenRect (Rect.mk x y width height) /\ valid r.
Proof.
  intros Hx Hy Hw Hh. unfold new. case_decide as Hz.
  { split; [done |]. intros [-> Hv]. unfold valid in Hv. simpl in Hv. lia. }
  unfold Rect.new, Rect.validate, Size.new, Size.validate. cbv zeta. simpl.
  rewrite (decide_False (P := width = 0 \/ height = 0)) by done. simpl.
  unfold i32, u32 in *. unfold valid, RootPoint.in_range, MIN_XTEST_COORDINATE, MAX_XTEST_COORDINATE.
  case_decide as Ho; simpl.
  { split; [done |]. intros [-> Hv]. simpl in Hv. lia. }
  rewrite !i32_try_from_in by (unfold i32; lia).
  destruct (RootPoint.new x y) as [p | e] eqn:Hp.
  - apply RootPoint.new_valid in Hp as (_ & Hpx & Hpy).
    destruct (RootPoint.new (x + width - 1) (y + height - 1)) as [q | e] eqn:Hq.
    + apply RootPoint.new_valid in Hq as (_ & Hqx & Hqy).
      unfold RootPoint.in_range, MIN_XTEST_COORDINATE, MAX_XTEST_COORDINATE in *.
      split; [intros [= <-]; split; [done |]; simpl; lia | by intros [-> _]].
    + split; [done |]. intros [-> Hv]. simpl in Hv. exfalso.
      assert (RootPoint.new (x + width - 1) (y + height - 1) = Ok (mkRootPoint (Point.mk _ _))) as Hc
        by (apply RootPoint.new_valid; split; [done |];
            unfold RootPoint.in_range, MIN_XTEST_COORDINATE, MAX_XTEST_COORDINATE; lia).
      congruence.
  - split; [done |]. intros [-> Hv]. simpl in Hv. exfalso.
    assert (RootPoint.new x y = Ok (mkRootPoint (Point.mk x y))) as Hc
      by (apply RootPoint.new_valid; split; [done |];
          unfold RootPoint.in_range, MIN_XTEST_COORDINATE, MAX_XTEST_COORDINATE; lia).
    congruence.
Qed.

(** The corners of a valid screen. *)
Lemma corners r :
  valid r ->
  exists x y width height, rect_of r = Rect.mk x y width height /\
    1 <= width /\ 1 <= height /\
    RootPoint.x (origin r) = x /\ RootPoint.y (origin r) = y /\
    RootPoint.x (inclusive_end r) = x + width - 1 /\
    RootPoint.y (inclusive_end r) = y + height - 1 /\
    -32768 <= x /\ -32768 <= y /\ x + width - 1 <= 32767 /\ y + height - 1 <= 32767.
Proof.
  unfold valid, RootPoint.in_range, MIN_XTEST_COORDINATE, MAX_XTEST_COORDINATE.
  destruct r as [[x y w h]]. simpl. intros Hv. exists x, y, w, h.
  unfold inclusive_end, Rect.size, Size.new, Size.validate, Rect.origin, RootPoint.x, RootPoint.y.
  simpl. rewrite decide_False by lia. simpl.
  rewrite !i32_try_from_in by (unfold i32; lia). simpl. split_and!; done || lia.
Qed.

Lemma contains_spec r p :
  contains r p = true <->
  RootPoint.x (origin r) <= RootPoint.x p <= RootPoint.x (inclusive_end r) /\
  RootPoint.y (origin r) <= RootPoint.y p <= RootPoint.y (inclusive_end r).
Proof. unfold contains. by rewrite andb_true_iff, !bool_decide_eq_true. Qed.

Lemma clamp_to_spec v low high :
  low <= high ->
  low <= clamp_to v low high <= high /\
  (low <= v <= high -> clamp_to v low high = v) /\
  forall w, low <= w <= high -> Z.abs (clamp_to v low high - v) <= Z.abs (w - v).
Proof. intros Hle. unfold clamp_to. repeat case_decide; repeat split; lia. Qed.

End ScreenRect.

(** ** Properties *)
Section GeometryProperties.

(** A screen rectangle is accepted exactly when it is non-empty and lies, with its
    inclusive end, in the coordinates of XTEST requests; it is then the rectangle
    asked for. *)
Theorem screen_rect_new_exact (x y width height : Z) (r : ScreenRect) :
  i32 x -> i32 y -> u32 width -> u32 height ->
  ScreenRect.new x y width height = Ok r <->
    r = mkScreenRect (Rect.mk x y width height) /\
    1 <= width /\ 1 <= height /\
    -32768 <= x /\ x + width - 1 <= 32767 /\ -32768 <= y /\ y + height - 1 <= 32767.
Proof.
  intros Hx Hy Hw Hh. rewrite ScreenRect.new_spec by done.
  unfold ScreenRect.valid, RootPoint.in_range, MIN_XTEST_COORDINATE, MAX_XTEST_COORDINATE.
  split; intros [-> Hv]; (split; [done |]); simpl in *; lia.
Qed.

(** Clamping moves a point to the nearest point of the screen.  The result lies in
    the screen, is the point itself exactly when the point does, and no point of the
    screen is nearer in either coordinate.  So with clamping enabled [admit] always
    answers a point of the screen, and without it only points that lie there. *)
Theorem clamp_is_nearest (r : ScreenRect) (p : RootPoint) :
  ScreenRect.valid r ->
  ScreenRect.contains r (ScreenRect.clamp r p) = true /\
  (ScreenRect.clamp r p = p <-> ScreenRect.contains r p = true) /\
  (forall q, ScreenRect.contains r q = true ->
     Z.abs (RootPoint.x (ScreenRect.clamp r p) - RootPoint.x p)
       <= Z.abs (RootPoint.x q - RootPoint.x p) /\
     Z.abs (RootPoint.y (ScreenRect.clamp r p) - RootPoint.y p)
       <= Z.abs (RootPoint.y q - RootPoint.y p)) /\
  (forall clamping q, ScreenRect.admit_point r p clamping = Ok q ->
     ScreenRect.contains r q = true /\ (q = p \/ clamping = true /\ q = ScreenRect.clamp r p)).
Proof.
  intros Hv. destruct (ScreenRect.corners r Hv) as (x & y & w & h & _ & Hw & Hh & Ox & Oy & Ex & Ey & _).
  destruct (ScreenRect.clamp_to_spec (RootPoint.x p) x (x + w - 1) ltac:(lia)) as (Cx1 & Cx2 & Cx3).
  destruct (ScreenRect.clamp_to_spec (RootPoint.y p) y (y + h - 1) ltac:(lia)) as (Cy1 & Cy2 & Cy3).
  assert (ScreenRect.contains r (ScreenRect.clamp r p) = true) as Hin.
  { apply ScreenRect.contains_spec. unfold ScreenRect.clamp. rewrite Ox, Oy, Ex, Ey. by split. }
  split_and!; [done | | |].
  - split; [intros <-; done |]. intros Hc. apply ScreenRect.contains_spec in Hc.
    rewrite Ox, Oy, Ex, Ey in Hc. unfold ScreenRect.clamp. rewrite Ox, Oy, Ex, Ey.
    rewrite Cx2, Cy2 by lia. by destruct p as [[? ?]].
  - intros q Hq. apply ScreenRect.contains_spec in Hq. rewrite Ox, Oy, Ex, Ey in Hq.
    destruct Hq. unfold ScreenRect.clamp. rewrite Ox, Oy, Ex, Ey. split; [by apply Cx3 | by apply Cy3].
  - intros clamping q. unfold ScreenRect.admit_point.
    destruct (ScreenRect.contains r p) eqn:Hc; [intros [= <-]; auto |].
    destruct clamping; [intros [= <-]; auto | done].
Qed.

(** The intersection of two screens is their common area.  It is a valid screen
    containing exactly the points both contain, and is absent exactly when there is no
    such point. *)
Theorem intersect_is_common_area (a b : ScreenRect) :
  ScreenRect.valid a -> ScreenRect.valid b ->
  match ScreenRect.intersect a b with
  | Some c => ScreenRect.valid c /\
      forall p, ScreenRect.contains c p = ScreenRect.contains a p && ScreenRect.contains b p
  | None => forall p, ScreenRect.contains a p && ScreenRect.contains b p = false
  end.
Proof.
  intros Ha Hb.
  destruct (ScreenRect.corners a Ha) as (x & y & w & h & _ & Hw & Hh & Ox & Oy & Ex & Ey & B1 & B2 & B3 & B4).
  destruct (ScreenRect.corners b Hb) as (x' & y' & w' & h' & _ & Hw' & Hh' & Ox' & Oy' & Ex' & Ey' & D1 & D2 & D3 & D4).
  unfold ScreenRect.intersect. rewrite Ox, Oy, Ex, Ey, Ox', Oy', Ex', Ey'.
  case_decide as Hd.
  { intros p. apply not_true_is_false. rewrite andb_true_iff, !ScreenRect.contains_spec.
    rewrite Ox, Oy, Ex, Ey, Ox', Oy', Ex', Ey'. lia. }
  rewrite !u32_try_from_in by (unfold u32; lia).
  set (cx := Z.max x x') in *. set (cy := Z.max y y') in *.
  set (cw := Z.min _ _ - cx + 1). set (ch := Z.min _ _ - cy + 1).
  set (c := mkScreenRect (Rect.mk cx cy cw ch)).
  assert (ScreenRect.valid c) as Hc
    by (unfold ScreenRect.valid, c, RootPoint.in_range, MIN_XTEST_COORDINATE, MAX_XTEST_COORDINATE;
        simpl; unfold cw, ch; lia).
  assert (ScreenRect.new cx cy cw ch = Ok c) as ->
    by (apply ScreenRect.new_spec; unfold i32, u32, cw, ch; try lia; by split).
  split; [done |]. intros p. apply eq_bool_prop_intro. rewrite andb_True, !Is_true_true.
  rewrite !ScreenRect.contains_spec.
  destruct (ScreenRect.corners c Hc) as (? & ? & ? & ? & [= <- <- <- <-] & _ & _ & Cx & Cy & Dx & Dy & _).
  rewrite Ox, Oy, Ex, Ey, Ox', Oy', Ex', Ey', Cx, Cy, Dx, Dy. unfold cw, ch. lia.
Qed.

End GeometryProperties.

(** ** Witnesses *)
Module GeometryWitness.

Definition left : ScreenRect := mkScreenRect (Rect.mk 0 0 800 600).
Definition right : ScreenRect := mkScreenRect (Rect.mk 700 (-50) 800 600).

Lemma screen_rect_new_exact_witness : ScreenRect.new 0 0 800 600 = Ok left.
Proof.
  apply (screen_rect_new_exact 0 0 800 600 left); [unfold i32 | unfold i32 | unfold u32 | unfold u32 |];
    try lia.
  split; [reflexivity | lia].
Defined.

Lemma clamp_is_nearest_witness :
  ScreenRect.contains left (ScreenRect.clamp left (mkRootPoint (Point.mk 900 (-7)))) = true.
Proof.
  destruct (clamp_is_nearest left (mkRootPoint (Point.mk 900 (-7)))) as [H _]; [vm_compute | exact H].
  repeat split; discriminate.
Defined.

Lemma intersect_is_common_area_witness :
  match ScreenRect.intersect left right with
  | Some c => ScreenRect.valid c /\ rect_of c = Rect.mk 700 0 100 550
  | None => False
  end.
Proof.
  pose proof (intersect_is_common_area left right) as H.
  assert (ScreenRect.valid left) as Hl by (vm_compute; repeat split; discriminate).
  assert (ScreenRect.valid right) as Hr by (vm_compute; repeat split; discriminate).
  specialize (H Hl Hr). destruct (ScreenRect.intersect left right) as [c |] eqn:Hc.
  - destruct H as [H _]. split; [exact H |]. vm_compute in Hc. by injection Hc as <-.
  - vm_compute in Hc. discriminate Hc.
Defined.

End GeometryWitness.
