(* ===== verification/Keys.v ===== *)
(** * Physical buttons, keys and key chords

    Models [xenoteer-core/src/input/keyboard_plan.rs] and, of [input/action.rs], the
    physical identifiers, the logical buttons and the pointer mapping. *)

From stdpp Require Import base numbers list option sets.
From Stdlib Require Import Lia.
From S2P Require Import Prelude.

Local Open Scope N_scope.

(** ** Physical identifiers *)

(** [InputDelayKind]. *)
Inductive InputDelayKind := PreClickDwell | PressDuration | DragPressDwell | DragReleaseDwell.

(** [InputActionError]. *)
Inductive InputActionError :=
  | InvalidPhysicalButton
  | InvalidPhysicalKey (keycode : N)
  | InvalidButtonMappingLength (actual : N)
  | AmbiguousLogicalButton (logical : N)
  | UnavailableLogicalButton (logical : N)
  | InvalidClickCount (count : N)
  | EventLimitExceeded
  | XtestDelayTooLong (kind : InputDelayKind) (delay_ms : N)
  | InvalidDoubleClickThreshold (threshold_ms : N)
  | InterClickIntervalTooLong (interval_ms threshold_ms : N)
  | InvalidScrollCount (count : N)
  | InvalidScrollInterval (interval_ms : N).

Definition u8_max : N := 255.
Definition MIN_PHYSICAL_KEYCODE : N := 8.

(** [PhysicalButton(u8)] and [PhysicalKey(u8)]. *)
Record PhysicalButton := mkPhysicalButton { detail : N }.
Record PhysicalKey := mkPhysicalKey { keycode : N }.

#[export] Instance PhysicalButton_eq_dec : EqDecision PhysicalButton.
Proof. solve_decision. Defined.
#[export] Instance PhysicalKey_eq_dec : EqDecision PhysicalKey.
Proof. solve_decision. Defined.

(** [PhysicalButton::new], [PhysicalKey::new]: of a [u8]. *)
Definition new_button (detail : N) : result PhysicalButton InputActionError :=
  if decide (detail = 0) then Err InvalidPhysicalButton else Ok (mkPhysicalButton detail).

Definition new_key (keycode : N) : result PhysicalKey InputActionError :=
  if decide (keycode < MIN_PHYSICAL_KEYCODE) then Err (InvalidPhysicalKey keycode)
  else Ok (mkPhysicalKey keycode).

(** Identifiers built from a [u8] by the constructors. *)
Definition valid_button (b : PhysicalButton) : Prop := 1 <= detail b <= u8_max.
Definition valid_key (k : PhysicalKey) : Prop := MIN_PHYSICAL_KEYCODE <= keycode k <= u8_max.

#[export] Instance valid_button_dec b : Decision (valid_button b).
Proof. unfold valid_button. apply _. Defined.
#[export] Instance valid_key_dec k : Decision (valid_key k).
Proof. unfold valid_key. apply _. Defined.

(** ** Logical buttons *)

(** [LogicalButton]. *)
Inductive LogicalButton :=
  | ButtonLeft | ButtonMiddle | ButtonRight
  | ScrollUp | ScrollDown | ScrollLeft | ScrollRight
  | ButtonBack | ButtonForward.

(** [LogicalButton::number]. *)
Definition number (self : LogicalButton) : N :=
  match self with
  | ButtonLeft => 1
  | ButtonMiddle => 2
  | ButtonRight => 3
  | ScrollUp => 4
  | ScrollDown => 5
  | ScrollLeft => 6
  | ScrollRight => 7
  | ButtonBack => 8
  | ButtonForward => 9
  end.

(** [ButtonMapping]. *)
Module ButtonMapping.

Record t := mk { logical_by_physical : list N }.

(** [ButtonMapping::from_server]. *)
Definition from_server (logical_by_physical : list N) : result t InputActionError :=
  if decide (u8_max < len logical_by_physical)
  then Err (InvalidButtonMappingLength (len logical_by_physical))
  else Ok (mk logical_by_physical).

(** The loop of [physical_for]: the index of the only entry that maps to the button. *)
Fixpoint find_index (logical_number index : N) (entries : list N) (match_index : option N) :
    result (option N) InputActionError :=
  match entries with
  | [] => Ok match_index
  | mapped_logical :: entries =>
      if decide (mapped_logical = logical_number) then
        match match_index with
        | Some _ => Err (AmbiguousLogicalButton logical_number)
        | None => find_index logical_number (index + 1) entries (Some index)
        end
      else find_index logical_number (index + 1) entries match_index
  end.

(** [ButtonMapping::physical_for]; [u8::try_from] of the index plus one. *)
Definition physical_for (self : t) (logical : LogicalButton) :
    result PhysicalButton InputActionError :=
  let logical_number := number logical in
  match find_index logical_number 0 (logical_by_physical self) None with
  | Err e => Err e
  | Ok None => Err (UnavailableLogicalButton logical_number)
  | Ok (Some index) =>
      if decide (index + 1 <= u8_max) then new_button (index + 1)
      else Err InvalidPhysicalButton
  end.

Lemma find_index_spec n entries base found :
  match find_index n base entries found with
  | Ok o =>
      match found with
      | Some i => o = Some i /\ n ∉ entries
      | None =>
          match o with
          | None => n ∉ entries
          | Some i => base <= i /\ entries !! N.to_nat (i - base) = Some n /\
              forall j, entries !! j = Some n -> j = N.to_nat (i - base)
          end
      end
  | Err e => e = AmbiguousLogicalButton n /\
      match found with
      | Some _ => n ∈ entries
      | None => exists i j, i <> j /\ entries !! i = Some n /\ entries !! j = Some n
      end
  end.
Proof.
  revert base found. induction entries as [| x entries IH]; intros base found; simpl.
  { destruct found; [split; [done |] |]; apply not_elem_of_nil. }
  case_decide as Hx.
  - subst x. destruct found as [i |]; [split; [done | by left] |].
    specialize (IH (base + 1) (Some base)).
    destruct (find_index n (base + 1) entries (Some base)) as [o | e].
    + destruct IH as [-> Hn]. split; [lia |]. replace (N.to_nat (base - base)) with 0%nat by lia.
      split; [done |]. intros [| j] Hj; [done |]. exfalso. apply Hn.
      apply list_elem_of_lookup. by exists j.
    + destruct IH as [-> Hin]. split; [done |]. apply list_elem_of_lookup in Hin as [j Hj].
      by exists 0%nat, (S j).
  - specialize (IH (base + 1) found).
    destruct (find_index n (base + 1) entries found) as [o | e].
    + destruct found as [i |]; [destruct IH as [-> ?]; split; [done | set_solver] |].
      destruct o as [i |]; [| set_solver]. destruct IH as (Hle & Hi & Hu).
      replace (N.to_nat (i - base)) with (S (N.to_nat (i - (base + 1)))) by lia.
      split; [lia |]. split; [done |]. intros [| j] Hj; [simpl in Hj; congruence |]. f_equal. by apply Hu.
    + destruct IH as [-> IH]. split; [done |]. destruct found; [by right |].
      destruct IH as (i & j & ? & ? & ?). exists (S i), (S j). split; [congruence | done].
Qed.

End ButtonMapping.

(** ** Key chords *)
Definition MAX_CHORD_KEYS : N := 16.

(** [ResolvedKey]. *)
Module ResolvedKey.
Record t := mk { key : PhysicalKey; modifier : bool }.
#[export] Instance eq_dec : EqDecision t.
Proof. solve_decision. Defined.
End ResolvedKey.
Export (hints) ResolvedKey.

(** [KeyEventKind], [KeyEvent]. *)
Inductive KeyEventKind := KeyPress | KeyRelease.

Module KeyEvent.
Record t := mk { resolved : ResolvedKey.t; kind : KeyEventKind }.
End KeyEvent.

(** [KeyPlanError]. *)
Inductive KeyPlanError :=
  | EmptyChord
  | TooManyKeys (actual : N)
  | DuplicateKey (key : PhysicalKey).

(** [KeyPlan]. *)
Module KeyPlan.

Record t := mk {
  caller_order : list ResolvedKey.t;
  press_order : list ResolvedKey.t;
  events : list KeyEvent.t
}.

(** The duplicate check: the keys [seen] so far, in order. *)
Fixpoint check_distinct (keys : list ResolvedKey.t) (seen : list PhysicalKey) :
    result unit KeyPlanError :=
  match keys with
  | [] => Ok tt
  | resolved :: keys =>
      if decide (ResolvedKey.key resolved ∈ seen) then Err (DuplicateKey (ResolvedKey.key resolved))
      else check_distinct keys (seen ++ [ResolvedKey.key resolved])
  end.

(** [KeyPlan::chord]. *)
Definition chord (keys : list ResolvedKey.t) : result t KeyPlanError :=
  if decide (keys = []) then Err EmptyChord
  else if decide (MAX_CHORD_KEYS < len keys) then Err (TooManyKeys (len keys))
  else
    match check_distinct keys [] with
    | Err e => Err e
    | Ok _ =>
        let press_order :=
          filter (fun key => ResolvedKey.modifier key = true) keys ++
          filter (fun key => ResolvedKey.modifier key <> true) keys in
        let events :=
          map (fun resolved => KeyEvent.mk resolved KeyPress) press_order ++
          map (fun resolved => KeyEvent.mk resolved KeyRelease) (rev press_order) in
        Ok (mk keys press_order events)
    end.

(** [KeyPlan::key]. *)
Definition key (key : ResolvedKey.t) : result t KeyPlanError := chord [key].

Lemma check_distinct_spec keys seen :
  NoDup seen ->
  (check_distinct keys seen = Ok tt <-> NoDup (seen ++ map ResolvedKey.key keys)).
Proof.
  revert seen. induction keys as [| k keys IH]; intros seen Hs; simpl.
  { rewrite app_nil_r. split; [done | intros _; done]. }
  case_decide as Hin.
  - split; [done |]. intros Hn. exfalso. apply NoDup_app in Hn as (_ & Hn & _).
    apply (Hn _ Hin). by left.
  - rewrite IH; [by rewrite <- app_assoc |].
    apply NoDup_app. split; [done |]. split; [| apply NoDup_singleton].
    intros x Hx ->%list_elem_of_singleton. done.
Qed.

(** The press order is the caller's, stably partitioned. *)
Lemma press_order_Permutation (keys : list ResolvedKey.t) :
  filter (fun key => ResolvedKey.modifier key = true) keys ++
  filter (fun key => ResolvedKey.modifier key <> true) keys ≡ₚ keys.
Proof. apply (filter_partition (fun key => ResolvedKey.modifier key = true)). Qed.

Lemma chord_Ok keys plan :
  chord keys = Ok plan <->
  keys <> [] /\ len keys <= MAX_CHORD_KEYS /\ NoDup (map ResolvedKey.key keys) /\
  let press := filter (fun key => ResolvedKey.modifier key = true) keys ++
               filter (fun key => ResolvedKey.modifier key <> true) keys in
  plan = mk keys press
    (map (fun r => KeyEvent.mk r KeyPress) press ++ map (fun r => KeyEvent.mk r KeyRelease) (rev press)).
Proof.
  unfold chord. cbv zeta. case_decide as H1; [naive_solver |].
  case_decide as H2; [split; [done | intros (_ & ? & _); lia] |].
  pose proof (check_distinct_spec keys [] (NoDup_nil_2)) as Hd. simpl in Hd.
  destruct (check_distinct keys []) as [[] | e] eqn:Hc.
  - split; [intros [= <-] | intros (_ & _ & _ & ->); done]. split_and!; [done | lia | by apply Hd | done].
  - split; [done |]. intros (_ & _ & Hn & _). apply Hd in Hn. congruence.
Qed.

End KeyPlan.

(** ** Properties *)
Section KeysProperties.

(** The pointer mapping is inverted exactly.  A mapping taken from the server
    resolves a logical button to a physical one if and only if exactly one physical
    button maps to it; the result is that button, counted from one. *)
Theorem physical_for_exact (entries : list N) (mapping : ButtonMapping.t) (logical : LogicalButton)
    (b : PhysicalButton) :
  ButtonMapping.from_server entries = Ok mapping ->
  ButtonMapping.physical_for mapping logical = Ok b <->
    exists i, entries !! i = Some (number logical) /\
      (forall j, entries !! j = Some (number logical) -> j = i) /\
      b = mkPhysicalButton (N.of_nat i + 1).
Proof.
  unfold ButtonMapping.from_server. case_decide as Hlen; [done |]. intros [= <-].
  unfold ButtonMapping.physical_for. simpl.
  pose proof (ButtonMapping.find_index_spec (number logical) entries 0 None) as Hf.
  destruct (ButtonMapping.find_index _ _ _ _) as [[i |] | e]; simpl in Hf.
  - destruct Hf as (_ & Hi & Hu). rewrite N.sub_0_r in Hi, Hu.
    pose proof (lookup_lt_Some _ _ _ Hi) as Hlt. unfold len in Hlen.
    rewrite decide_True by lia. unfold new_button. rewrite decide_False by lia. split.
    + intros [= <-]. exists (N.to_nat i). split; [done |]. split; [done |]. f_equal. lia.
    + intros (j & Hj & _ & ->). rewrite (Hu j Hj). do 2 f_equal. lia.
  - split; [done |]. intros (i & Hi & _). exfalso. apply Hf. apply list_elem_of_lookup. by exists i.
  - destruct Hf as (-> & i & j & Hne & Hi & Hj). split; [done |]. intros (k & _ & Hu & _).
    apply Hu in Hi. apply Hu in Hj. congruence.
Qed.

(** Chords are balanced and nested.  A chord is planned exactly for one to sixteen
    distinct keys.  Its presses are the caller's keys, the modifiers first, each group
    in the caller's order; its releases are the presses in reverse, so every key is
    pressed once, released once and after its press, and the modifiers are down
    whenever another key is. *)
Theorem chord_is_balanced (keys : list ResolvedKey.t) :
  (is_ok (KeyPlan.chord keys) = true <->
     1 <= len keys <= 16 /\ NoDup (map ResolvedKey.key keys)) /\
  (forall plan, KeyPlan.chord keys = Ok plan ->
     KeyPlan.press_order plan ≡ₚ keys /\
     (exists modifiers others, KeyPlan.press_order plan = modifiers ++ others /\
        sublist modifiers keys /\ sublist others keys /\
        Forall (fun k => ResolvedKey.modifier k = true) modifiers /\
        Forall (fun k => ResolvedKey.modifier k = false) others) /\
     KeyPlan.events plan =
       map (fun r => KeyEvent.mk r KeyPress) (KeyPlan.press_order plan) ++
       rev (map (fun r => KeyEvent.mk r KeyRelease) (KeyPlan.press_order plan))).
Proof.
  split.
  - split.
    + destruct (KeyPlan.chord keys) as [plan | e] eqn:Hc; [intros _ | done].
      apply KeyPlan.chord_Ok in Hc as (Hne & Hle & Hn & _). split; [| done].
      unfold MAX_CHORD_KEYS in Hle. destruct keys; [done |]. rewrite len_cons in *. lia.
    + intros ([H1 H2] & Hn).
      assert (exists plan, KeyPlan.chord keys = Ok plan) as [plan ->]; [| done].
      eexists. apply KeyPlan.chord_Ok. split_and!; try done. intros ->. change (len []) with 0 in H1. lia.
  - intros plan Hc. apply KeyPlan.chord_Ok in Hc as (_ & _ & _ & ->). simpl.
    split; [apply KeyPlan.press_order_Permutation |]. split; [| by rewrite map_rev].
    do 2 eexists. split; [reflexivity |].
    split; [apply sublist_filter |]. split; [apply sublist_filter |].
    split; apply Forall_forall; intros k [Hk _]%list_elem_of_filter; [done |].
    by destruct (ResolvedKey.modifier k).
Qed.

End KeysProperties.

(** ** Witnesses *)
Module KeysWitness.

Lemma physical_for_exact_witness :
  ButtonMapping.physical_for (ButtonMapping.mk [3; 2; 1; 4; 5]) ButtonLeft = Ok (mkPhysicalButton 3).
Proof.
  apply (physical_for_exact [3; 2; 1; 4; 5] (ButtonMapping.mk [3; 2; 1; 4; 5]) ButtonLeft
    (mkPhysicalButton 3) eq_refl).
  exists 2%nat. split; [reflexivity |]. split; [| reflexivity].
  intros [| [| [| [| [| j]]]]]; simpl; intros H; try discriminate H. reflexivity.
Defined.

Lemma chord_is_balanced_witness :
  is_ok (KeyPlan.chord [ResolvedKey.mk (mkPhysicalKey 38) false; ResolvedKey.mk (mkPhysicalKey 37) true])
    = true.
Proof.
  apply (chord_is_balanced [ResolvedKey.mk (mkPhysicalKey 38) false;
    ResolvedKey.mk (mkPhysicalKey 37) true]).
  split; [vm_compute; split; discriminate |].
  apply NoDup_cons. split; [| apply NoDup_singleton].
  intros H. apply list_elem_of_singleton in H. discriminate H.
Defined.

End KeysWitness.
