(* ===== verification/OwnedInput.v ===== *)
(** * Owned input, effect evidence and input health

    Models [xenoteer-core/src/input/effect.rs] (the effect journal), [state.rs] (the
    presses the actor owns, batches, the health state machine) and [cleanup.rs] (the
    plan of conservative releases). *)

From stdpp Require Import base numbers list option sets.
From Stdlib Require Import Lia.
From S2P Require Import Prelude.
From S2P Require Import Geometry.
From S2P Require Import Keys.

Local Open Scope N_scope.

(** ** The effect journal *)
Definition MAX_EFFECT_RECORDS : N := 4608.

(** [Effect]. *)
Inductive Effect :=
  | PointerMoved (point : RootPoint)
  | ButtonPressed (button : PhysicalButton)
  | ButtonReleased (button : PhysicalButton)
  | KeyPressed (key : PhysicalKey) (modifier : bool)
  | KeyReleased (key : PhysicalKey) (modifier : bool).

(** [EffectCertainty]. *)
Inductive EffectCertainty := Provisional | Confirmed.
#[export] Instance EffectCertainty_eq_dec : EqDecision EffectCertainty.
Proof. solve_decision. Defined.

(** [EffectRecord]. *)
Module EffectRecord.
Record t := mk { sequence : N; effect : Effect; certainty : EffectCertainty }.

(** [record.certainty = EffectCertainty::Confirmed]. *)
Definition confirm (r : t) : t := mk (sequence r) (effect r) Confirmed.
End EffectRecord.

(** [EffectJournalError]. *)
Inductive EffectJournalError := CapacityExceeded | SequenceExhausted | InvalidCheckpoint.

(** [EffectJournal]; an [EffectCheckpoint] is an index into the records. *)
Module EffectJournal.

Record t := mk { records : list EffectRecord.t; next_sequence : N }.

(** [EffectJournal::new]. *)
Definition new : t := mk [] 0.

(** [EffectJournal::record_provisional]. *)
Definition record_provisional (effect : Effect) : M t EffectJournalError N :=
  self <- get ;;
  reject_if (MAX_EFFECT_RECORDS <= len (records self)) CapacityExceeded ;;;
  let sequence := next_sequence self in
  next <- lift (ok_or (checked_add_u64 sequence 1) SequenceExhausted) ;;
  modify (fun self => mk (records self) next) ;;;
  modify (fun self =>
    mk (records self ++ [EffectRecord.mk sequence effect Provisional]) (next_sequence self)) ;;;
  ret sequence.

(** [EffectJournal::checkpoint]. *)
Definition checkpoint (self : t) : nat := length (records self).

(** [EffectJournal::confirm_since]; [get_mut(checkpoint..)] fails past the end. *)
Definition confirm_since (checkpoint : nat) : M t EffectJournalError unit :=
  self <- get ;;
  reject_if (length (records self) < checkpoint)%nat InvalidCheckpoint ;;;
  modify (fun self =>
    mk (take checkpoint (records self) ++
        map EffectRecord.confirm (drop checkpoint (records self))) (next_sequence self)).

(** [EffectJournal::has_provisional]. *)
Definition has_provisional (self : t) : bool :=
  existsb (fun record => bool_decide (EffectRecord.certainty record = Provisional)) (records self).

(** Within its bound, its records numbered from zero. *)
Definition wf (j : t) : Prop :=
  len (records j) <= MAX_EFFECT_RECORDS /\
  numbered EffectRecord.sequence 0 (records j) /\ next_sequence j = len (records j).

Lemma record_provisional_cases effect j :
  wf j ->
  (record_provisional effect j = (j, Err CapacityExceeded) /\ MAX_EFFECT_RECORDS <= len (records j)) \/
  (exists j', record_provisional effect j = (j', Ok (len (records j))) /\
     records j' = records j ++ [EffectRecord.mk (len (records j)) effect Provisional] /\
     len (records j) < MAX_EFFECT_RECORDS /\ wf j').
Proof.
  intros (Hlen & Hnum & Hnext). unfold record_provisional. simpl.
  case_decide as Hc; simpl; [by left |]. right. unfold MAX_EFFECT_RECORDS in *.
  unfold checked_add_u64, u64_max. rewrite decide_True by lia. simpl. rewrite Hnext.
  eexists. split; [reflexivity |]. simpl. split; [done |]. split; [lia |].
  unfold wf. simpl. rewrite len_app, len_cons. change (len []) with 0.
  unfold MAX_EFFECT_RECORDS. split_and!; [lia | | lia].
  by apply numbered_snoc.
Qed.

Lemma confirm_since_cases c j :
  wf j -> (c <= length (records j))%nat ->
  exists j', confirm_since c j = (j', Ok tt) /\ wf j' /\
    records j' = take c (records j) ++ map EffectRecord.confirm (drop c (records j)).
Proof.
  intros (Hlen & Hnum & Hnext) Hc. unfold confirm_since. simpl. rewrite decide_False by lia. simpl.
  eexists. split; [reflexivity |]. split; [| done].
  assert (length (take c (records j) ++ map EffectRecord.confirm (drop c (records j))) =
    length (records j)) as Hl by (rewrite length_app, length_map, length_take, length_drop; lia).
  unfold wf, len in *. simpl. rewrite Hl. split_and!; [done | | done].
  intros i x Hx. apply lookup_app_Some in Hx as [Hx | [Hi Hx]].
  - apply lookup_take_Some in Hx as [Hx _]. by apply Hnum.
  - rewrite list_lookup_fmap in Hx. apply fmap_Some in Hx as (r & Hr & ->). simpl.
    rewrite lookup_drop in Hr. rewrite (Hnum _ _ Hr). rewrite length_take in *. f_equal. lia.
Qed.

End EffectJournal.

(** ** Health *)

(** [ResetReason]. *)
Inductive ResetReason :=
  | CheckedRequestFailed
  | BarrierFailed
  | PostconditionFailed
  | CancelledAfterEffect.

(** [PoisonReason]. *)
Inductive PoisonReason :=
  | PoisonConnectionLost
  | PoisonResetFailed
  | PoisonActorPanicked
  | PoisonMappingRestoreFailed.

(** [InputHealth]. *)
Inductive InputHealth :=
  | Healthy
  | ResetRequired (reason : ResetReason)
  | Poisoned (reason : PoisonReason).
#[export] Instance InputHealth_eq_dec : EqDecision InputHealth.
Proof. unfold EqDecision, Decision. repeat decide equality. Defined.

(** [HealthEvent]. *)
Inductive HealthEvent :=
  | RequireReset (reason : ResetReason)
  | ResetSucceeded
  | ResetAttemptFailed
  | ConnectionLost
  | ActorPanicked
  | TemporaryKeyboardMappingRestoreFailed.

(** [ActionPurpose]. *)
Inductive ActionPurpose := Ordinary | ResetWork.
#[export] Instance ActionPurpose_eq_dec : EqDecision ActionPurpose.
Proof. solve_decision. Defined.

(** [OwnedKey]. *)
Module OwnedKey.
Record t := mk { key : PhysicalKey; modifier : bool }.
End OwnedKey.

(** [PendingRelease]. *)
Inductive PendingRelease :=
  | PendingButton (button : PhysicalButton)
  | PendingKey (key : PhysicalKey).
#[export] Instance PendingRelease_eq_dec : EqDecision PendingRelease.
Proof. solve_decision. Defined.

(** [InputStateError]. *)
Inductive InputStateError :=
  | EffectJournalErrorOf (e : EffectJournalError)
  | ActionAlreadyActive
  | ActionPurposeNotAllowed (purpose : ActionPurpose) (health : InputHealth)
  | NoActiveAction
  | NoPendingBatch
  | UnresolvedBatch
  | ResetTransitionRequiresResetAction (event : HealthEvent)
  | PoisonedBatchAbandonNotAllowed (purpose : option ActionPurpose) (health : InputHealth)
  | ButtonAlreadyPressed (button : PhysicalButton)
  | ButtonNotPressed (button : PhysicalButton)
  | KeyAlreadyPressed (key : PhysicalKey)
  | KeyNotPressed (key : PhysicalKey)
  | ResetHasOwnedInput
  | IllegalHealthTransition (current : InputHealth) (attempted : HealthEvent).

(** ** [InputState] *)
Module InputState.

Record t := mk {
  pressed_buttons : list PhysicalButton;
  pressed_keys : list OwnedKey.t;
  effects : option EffectJournal.t;
  action_purpose : option ActionPurpose;
  batch_checkpoint : option nat;
  pending_releases : list PendingRelease;
  health : InputHealth
}.

Definition set_pressed_buttons v s :=
  mk v (pressed_keys s) (effects s) (action_purpose s) (batch_checkpoint s) (pending_releases s) (health s).
Definition set_pressed_keys v s :=
  mk (pressed_buttons s) v (effects s) (action_purpose s) (batch_checkpoint s) (pending_releases s) (health s).
Definition set_effects v s :=
  mk (pressed_buttons s) (pressed_keys s) v (action_purpose s) (batch_checkpoint s) (pending_releases s) (health s).
Definition set_action_purpose v s :=
  mk (pressed_buttons s) (pressed_keys s) (effects s) v (batch_checkpoint s) (pending_releases s) (health s).
Definition set_batch_checkpoint v s :=
  mk (pressed_buttons s) (pressed_keys s) (effects s) (action_purpose s) v (pending_releases s) (health s).
Definition set_pending_releases v s :=
  mk (pressed_buttons s) (pressed_keys s) (effects s) (action_purpose s) (batch_checkpoint s) v (health s).
Definition set_health v s :=
  mk (pressed_buttons s) (pressed_keys s) (effects s) (action_purpose s) (batch_checkpoint s) (pending_releases s) v.
Arguments set_pressed_buttons v s /.
Arguments set_pressed_keys v s /.
Arguments set_effects v s /.
Arguments set_action_purpose v s /.
Arguments set_batch_checkpoint v s /.
Arguments set_pending_releases v s /.
Arguments set_health v s /.

(** [InputState::new]. *)
Definition new : t := mk [] [] None None None [] Healthy.

(** The batch is neither confirmed nor abandoned. *)
Definition unresolved (s : t) : Prop := batch_checkpoint s <> None \/ pending_releases s <> [].
#[export] Instance unresolved_dec s : Decision (unresolved s).
Proof.
  unfold unresolved. destruct (batch_checkpoint s); [left; by left |].
  destruct (pending_releases s); [right; by intros [?|?] | left; by right].
Defined.

(** [InputState::begin_action]. *)
Definition begin_action (purpose : ActionPurpose) : M t InputStateError unit :=
  self <- get ;;
  match effects self with
  | Some _ => fail ActionAlreadyActive
  | None => ret tt
  end ;;;
  reject_if (unresolved self) UnresolvedBatch ;;;
  reject_if (purpose = Ordinary /\ health self <> Healthy)
    (ActionPurposeNotAllowed purpose (health self)) ;;;
  modify (fun self => set_effects (Some EffectJournal.new) self) ;;;
  modify (fun self => set_action_purpose (Some purpose) self).

(** [InputState::finish_action]. *)
Definition finish_action : M t InputStateError EffectJournal.t :=
  self <- get ;;
  reject_if (unresolved self) UnresolvedBatch ;;;
  journal <- lift (ok_or (effects self) NoActiveAction) ;;
  modify (fun self => set_effects None self) ;;;
  modify (fun self => set_action_purpose None self) ;;;
  ret journal.

(** [InputState::ensure_press_allowed]. *)
Definition ensure_press_allowed : M t InputStateError unit :=
  self <- get ;;
  purpose <- lift (ok_or (action_purpose self) NoActiveAction) ;;
  reject_if (purpose <> Ordinary \/ health self <> Healthy)
    (ActionPurposeNotAllowed purpose (health self)).

(** [InputState::append_effect]. *)
Definition append_effect (effect : Effect) : M t InputStateError N :=
  self <- get ;;
  journal <- lift (ok_or (effects self) NoActiveAction) ;;
  (match batch_checkpoint self with
   | None => modify (fun self => set_batch_checkpoint (Some (EffectJournal.checkpoint journal)) self)
   | Some _ => ret tt
   end) ;;;
  zoom (fun _ => journal) (fun journal self => set_effects (Some journal) self) EffectJournalErrorOf
    (EffectJournal.record_provisional effect).

(** [InputState::submit_pointer_motion]. *)
Definition submit_pointer_motion (point : RootPoint) : M t InputStateError unit :=
  ensure_press_allowed ;;;
  append_effect (PointerMoved point) ;;;
  ret tt.

(** [InputState::submit_button_press]. *)
Definition submit_button_press (button : PhysicalButton) (allow_redundant : bool) :
    M t InputStateError unit :=
  ensure_press_allowed ;;;
  self <- get ;;
  if decide (button ∈ pressed_buttons self) then
    reject_if (allow_redundant = false) (ButtonAlreadyPressed button) ;;;
    append_effect (ButtonPressed button) ;;;
    ret tt
  else
    append_effect (ButtonPressed button) ;;;
    modify (fun self => set_pressed_buttons (pressed_buttons self ++ [button]) self).

(** [InputState::submit_button_release]. *)
Definition submit_button_release (button : PhysicalButton) (allow_redundant : bool) :
    M t InputStateError unit :=
  self <- get ;;
  let is_owned := bool_decide (button ∈ pressed_buttons self) in
  let already_pending := bool_decide (PendingButton button ∈ pending_releases self) in
  reject_if ((negb is_owned || already_pending) && negb allow_redundant = true)
    (ButtonNotPressed button) ;;;
  append_effect (ButtonReleased button) ;;;
  if is_owned && negb already_pending then
    modify (fun self =>
      set_pending_releases (pending_releases self ++ [PendingButton button]) self)
  else ret tt.

(** [InputState::submit_key_press]. *)
Definition submit_key_press (key : PhysicalKey) (modifier : bool) : M t InputStateError unit :=
  ensure_press_allowed ;;;
  self <- get ;;
  reject_if (key ∈ map OwnedKey.key (pressed_keys self)) (KeyAlreadyPressed key) ;;;
  append_effect (KeyPressed key modifier) ;;;
  modify (fun self => set_pressed_keys (pressed_keys self ++ [OwnedKey.mk key modifier]) self).

(** [InputState::submit_key_release]. *)
Definition submit_key_release (key : PhysicalKey) : M t InputStateError unit :=
  self <- get ;;
  owned <- lift (ok_or (snd <$> list_find (fun owned => OwnedKey.key owned = key) (pressed_keys self))
                   (KeyNotPressed key)) ;;
  reject_if (PendingKey key ∈ pending_releases self) (KeyNotPressed key) ;;;
  append_effect (KeyReleased key (OwnedKey.modifier owned)) ;;;
  modify (fun self => set_pending_releases (pending_releases self ++ [PendingKey key]) self).

(** The removal of the first element, of [position] and [remove]. *)
Fixpoint remove_first {A} (P : A -> Prop) `{!forall x, Decision (P x)} (l : list A) : list A :=
  match l with
  | [] => []
  | x :: l => if decide (P x) then l else x :: remove_first P l
  end.

(** The body of the loop of [confirm_batch]. *)
Definition apply_release (self : t) (release : PendingRelease) : t :=
  match release with
  | PendingButton button =>
      set_pressed_buttons (remove_first (fun owned => owned = button) (pressed_buttons self)) self
  | PendingKey key =>
      set_pressed_keys (remove_first (fun owned => OwnedKey.key owned = key) (pressed_keys self)) self
  end.

(** [InputState::confirm_batch]. *)
Definition confirm_batch : M t InputStateError unit :=
  self <- get ;;
  checkpoint <- lift (ok_or (batch_checkpoint self) NoPendingBatch) ;;
  journal <- lift (ok_or (effects self) NoActiveAction) ;;
  zoom (fun _ => journal) (fun journal self => set_effects (Some journal) self) EffectJournalErrorOf
    (EffectJournal.confirm_since checkpoint) ;;;
  modify (fun self =>
    set_pending_releases [] (fold_left apply_release (pending_releases self) self)) ;;;
  modify (fun self => set_batch_checkpoint None self).

(** The next health of [transition_health]. *)
Definition next_health (event : HealthEvent) (self : t) : result InputHealth InputStateError :=
  match health self, event with
  | Healthy, RequireReset reason | ResetRequired _, RequireReset reason => Ok (ResetRequired reason)
  | ResetRequired _, ResetSucceeded =>
      if decide (pressed_buttons self <> [] \/ pressed_keys self <> [] \/ pending_releases self <> [])
      then Err ResetHasOwnedInput
      else Ok Healthy
  | ResetRequired _, ResetAttemptFailed => Ok (Poisoned PoisonResetFailed)
  | Healthy, ConnectionLost | ResetRequired _, ConnectionLost => Ok (Poisoned PoisonConnectionLost)
  | Healthy, ActorPanicked | ResetRequired _, ActorPanicked => Ok (Poisoned PoisonActorPanicked)
  | Healthy, TemporaryKeyboardMappingRestoreFailed
  | ResetRequired _, TemporaryKeyboardMappingRestoreFailed => Ok (Poisoned PoisonMappingRestoreFailed)
  | current, attempted => Err (IllegalHealthTransition current attempted)
  end.

(** The events that report the outcome of a reset. *)
Definition reset_outcome (event : HealthEvent) : bool :=
  match event with ResetSucceeded | ResetAttemptFailed => true | _ => false end.

(** The events after which the current batch can no longer be checked. *)
Definition terminal_event (event : HealthEvent) : bool :=
  match event with
  | ConnectionLost | ActorPanicked | TemporaryKeyboardMappingRestoreFailed => true
  | _ => false
  end.

(** The current batch is abandoned. *)
Definition abandon (s : t) : t := set_batch_checkpoint None (set_pending_releases [] s).

(** [InputState::transition_health]. *)
Definition transition_health (event : HealthEvent) : M t InputStateError unit :=
  self <- get ;;
  reject_if (reset_outcome event = true /\
             (action_purpose self <> Some ResetWork \/ unresolved self))
    (ResetTransitionRequiresResetAction event) ;;;
  next <- lift (next_health event self) ;;
  (if terminal_event event then modify abandon else ret tt) ;;;
  modify (fun self => set_health next self).

(** [InputState::fail_batch]. *)
Definition fail_batch (reason : ResetReason) : M t InputStateError unit :=
  self <- get ;;
  reject_if (batch_checkpoint self = None) NoPendingBatch ;;;
  transition_health (RequireReset reason) ;;;
  modify abandon.

(** [matches!(self.health, InputHealth::Poisoned(_))]. *)
Definition is_poisoned (h : InputHealth) : bool :=
  match h with Poisoned _ => true | _ => false end.

(** [InputState::abandon_poisoned_reset_batch]. *)
Definition abandon_poisoned_reset_batch : M t InputStateError unit :=
  self <- get ;;
  reject_if (batch_checkpoint self = None) NoPendingBatch ;;;
  reject_if (action_purpose self <> Some ResetWork \/ is_poisoned (health self) = false)
    (PoisonedBatchAbandonNotAllowed (action_purpose self) (health self)) ;;;
  modify abandon.

End InputState.
Export (hints) InputState.

(** ** Cleanup *)

(** [CleanupAction]. *)
Inductive CleanupAction :=
  | ReleaseButton (button : PhysicalButton)
  | ReleaseKey (key : PhysicalKey) (modifier : bool).

(** [plan_cleanup]: the actions of the [CleanupPlan]. *)
Definition plan_cleanup (state : InputState.t) : list CleanupAction :=
  map ReleaseButton (rev (InputState.pressed_buttons state)) ++
  map (fun owned => ReleaseKey (OwnedKey.key owned) false)
    (filter (fun owned => OwnedKey.modifier owned <> true) (rev (InputState.pressed_keys state))) ++
  map (fun owned => ReleaseKey (OwnedKey.key owned) true)
    (filter (fun owned => OwnedKey.modifier owned = true) (rev (InputState.pressed_keys state))).

(** ** Operations as a trace *)
Module InputTrace.
Import InputState.

Inductive op :=
  | BeginAction (purpose : ActionPurpose)
  | FinishAction
  | SubmitPointerMotion (point : RootPoint)
  | SubmitButtonPress (button : PhysicalButton) (allow_redundant : bool)
  | SubmitButtonRelease (button : PhysicalButton) (allow_redundant : bool)
  | SubmitKeyPress (key : PhysicalKey) (modifier : bool)
  | SubmitKeyRelease (key : PhysicalKey)
  | ConfirmBatch
  | FailBatch (reason : ResetReason)
  | AbandonPoisonedResetBatch
  | TransitionHealth (event : HealthEvent).

(** One call; the journal [finish_action] returns is dropped. *)
Definition call (o : op) : M t InputStateError unit :=
  match o with
  | BeginAction purpose => begin_action purpose
  | FinishAction => finish_action ;;; ret tt
  | SubmitPointerMotion point => submit_pointer_motion point
  | SubmitButtonPress button redundant => submit_button_press button redundant
  | SubmitButtonRelease button redundant => submit_button_release button redundant
  | SubmitKeyPress key modifier => submit_key_press key modifier
  | SubmitKeyRelease key => submit_key_release key
  | ConfirmBatch => confirm_batch
  | FailBatch reason => fail_batch reason
  | AbandonPoisonedResetBatch => abandon_poisoned_reset_batch
  | TransitionHealth event => transition_health event
  end.

Definition apply (o : op) (s : t) : t := fst (call o s).

Fixpoint run (os : list op) (s : t) : t :=
  match os with
  | [] => s
  | o :: os => run os (apply o s)
  end.

(** The identifiers of the call were built by their constructors. *)
Definition op_valid (o : op) : Prop :=
  match o with
  | SubmitButtonPress button _ => valid_button button
  | SubmitKeyPress key _ => valid_key key
  | _ => True
  end.

End InputTrace.

(** ** The invariant *)
Module InputInvariant.
Import InputState InputTrace.

(** The releases in flight are of owned input, each once. *)
Definition pending_ok (s : t) : Prop :=
  NoDup (pending_releases s) /\
  (forall b, PendingButton b ∈ pending_releases s -> b ∈ pressed_buttons s) /\
  (forall k, PendingKey k ∈ pending_releases s -> k ∈ map OwnedKey.key (pressed_keys s)).

(** A journal is open exactly during an action; an open batch starts within it. *)
Definition journal_ok (s : t) : Prop :=
  match effects s with
  | None => action_purpose s = None /\ batch_checkpoint s = None
  | Some j => action_purpose s <> None /\ EffectJournal.wf j /\
      forall c, batch_checkpoint s = Some c -> (c <= length (EffectJournal.records j))%nat
  end.

Definition owned_ok (s : t) : Prop :=
  NoDup (pressed_buttons s) /\ NoDup (map OwnedKey.key (pressed_keys s)) /\
  Forall valid_button (pressed_buttons s) /\
  Forall (fun k => valid_key (OwnedKey.key k)) (pressed_keys s).

Definition wf (s : t) : Prop :=
  owned_ok s /\ pending_ok s /\ journal_ok s /\
  (pending_releases s <> [] -> batch_checkpoint s <> None).

Lemma input_new_wf : wf new.
Proof. unfold wf, owned_ok, pending_ok, journal_ok. simpl. split_and!; try done; try constructor; set_solver. Qed.

(** *** Appending an effect *)

(** What [append_effect] leaves alone. *)
Definition same_but_effects (s s' : t) : Prop :=
  pressed_buttons s' = pressed_buttons s /\ pressed_keys s' = pressed_keys s /\
  action_purpose s' = action_purpose s /\ pending_releases s' = pending_releases s /\
  health s' = health s.

Lemma append_effect_cases effect s :
  wf s ->
  let '(s', r) := append_effect effect s in
  wf s' /\ same_but_effects s s' /\
  match r with
  | Ok _ => batch_checkpoint s' <> None /\ exists j j', effects s = Some j /\ effects s' = Some j' /\
      EffectJournal.records j' = EffectJournal.records j ++
        [EffectRecord.mk (len (EffectJournal.records j)) effect Provisional] /\
      batch_checkpoint s' = Some (default (length (EffectJournal.records j)) (batch_checkpoint s))
  | Err _ => True
  end /\
  (forall j, effects s = Some j -> len (EffectJournal.records j) < MAX_EFFECT_RECORDS -> is_ok r = true).
Proof.
  intros (Ho & Hp & Hj & Hb). unfold append_effect, journal_ok in *. cbn [bind get lift ok_or].
  destruct (effects s) as [j |] eqn:Hs; cbn [ok_or].
  2: { destruct Hj. unfold wf, journal_ok, same_but_effects. rewrite Hs. by split_and!. }
  destruct Hj as (Hpur & Hwf & Hc).
  assert (exists s1, (match batch_checkpoint s with
     | None => modify (fun self => set_batch_checkpoint (Some (EffectJournal.checkpoint j)) self)
     | Some _ => ret tt
     end : M t InputStateError unit) s = (s1, Ok tt) /\ same_but_effects s s1 /\ effects s1 = Some j /\
     batch_checkpoint s1 = Some (default (length (EffectJournal.records j)) (batch_checkpoint s)))
    as (s1 & He & Hsame & Hs1 & Hb1).
  { destruct (batch_checkpoint s) as [c |] eqn:Hbc; eexists; (split; [reflexivity |]);
      [by split_and! | by split_and!]. }
  rewrite He. cbn [bind zoom].
  destruct Hsame as (E1 & E2 & E3 & E4 & E5).
  destruct (EffectJournal.record_provisional_cases effect j Hwf)
    as [(-> & Hfull) | (j' & -> & Hrec & Hlt & Hwf')]; cbn [map_err].
  - unfold wf, same_but_effects. split_and!; try done.
    + unfold owned_ok. simpl. by rewrite E1, E2.
    + unfold pending_ok. simpl. by rewrite E1, E2, E4.
    + unfold journal_ok. simpl. rewrite E3. split_and!; [done | done |]. intros c. rewrite Hb1.
      intros [= <-]. destruct (batch_checkpoint s); simpl; [by apply Hc | done].
    + simpl. by rewrite Hb1.
    + intros j0 [= <-] Hlt. unfold MAX_EFFECT_RECORDS in *. lia.
  - unfold wf, same_but_effects. split_and!; try done.
    + unfold owned_ok. simpl. by rewrite E1, E2.
    + unfold pending_ok. simpl. by rewrite E1, E2, E4.
    + unfold journal_ok. simpl. rewrite E3. split_and!; [done | done |]. intros c. rewrite Hb1, Hrec.
      intros [= <-]. rewrite length_app. destruct (batch_checkpoint s); simpl; [| lia].
      specialize (Hc _ eq_refl). lia.
    + simpl. by rewrite Hb1.
    + simpl. by rewrite Hb1.
    + by exists j, j'.
Qed.

(** *** Releases *)
Lemma remove_first_NoDup {A B} (f : A -> B) `{!EqDecision B} (x : B) (l : list A) :
  NoDup (map f l) ->
  remove_first (fun y => f y = x) l = filter (fun y => f y <> x) l.
Proof.
  induction l as [| y l IH]; simpl; [done |]. intros [Hy Hl]%NoDup_cons. rewrite filter_cons.
  case_decide as Hx.
  - rewrite decide_False by auto. symmetry. apply filter_all. subst x.
    intros z Hz Heq. apply Hy. rewrite <- Heq. apply list_elem_of_fmap. eauto.
  - rewrite decide_True by done. by rewrite IH.
Qed.

(** The loop of [confirm_batch] takes the released input out of the owned input. *)
Lemma apply_releases ps s :
  NoDup (pressed_buttons s) -> NoDup (map OwnedKey.key (pressed_keys s)) ->
  fold_left apply_release ps s =
  set_pressed_buttons (filter (fun b => PendingButton b ∉ ps) (pressed_buttons s))
    (set_pressed_keys (filter (fun k => PendingKey (OwnedKey.key k) ∉ ps) (pressed_keys s)) s).
Proof.
  revert s. induction ps as [| p ps IH]; intros s Hb Hk; simpl.
  { rewrite !filter_all by (intros; apply not_elem_of_nil). by destruct s. }
  assert (NoDup (pressed_buttons (apply_release s p)) /\
    NoDup (map OwnedKey.key (pressed_keys (apply_release s p)))) as [Hb' Hk'].
  { destruct p as [b | k]; simpl; (split; [try done | try done]).
    - rewrite (remove_first_NoDup (fun x => x)) by (by rewrite map_id). by apply NoDup_filter.
    - rewrite remove_first_NoDup by done. eapply sublist_NoDup; [exact Hk |].
      apply fmap_sublist. apply sublist_filter. }
  rewrite IH by done. destruct p as [b | k]; simpl.
  - rewrite (remove_first_NoDup (fun x => x)) by (by rewrite map_id).
    rewrite filter_filter_and. destruct s; simpl. f_equal.
    + apply filter_ext. intros x _. rewrite not_elem_of_cons. split; naive_solver.
    + apply filter_ext. intros x _. rewrite not_elem_of_cons. naive_solver.
  - rewrite remove_first_NoDup by done. rewrite filter_filter_and. destruct s; simpl. f_equal.
    + apply filter_ext. intros x _. rewrite not_elem_of_cons. naive_solver.
    + apply filter_ext. intros x _. rewrite not_elem_of_cons. split; naive_solver.
Qed.

(** *** What each call does to the owned input and to health *)

(** A press gains its button or key, only in a healthy ordinary action; a confirmed
    batch loses the released input; nothing else changes what is owned. *)
Definition owned_step (o : op) (r : result unit InputStateError) (s s' : t) : Prop :=
  match o, r with
  | SubmitButtonPress b _, Ok _ =>
      action_purpose s = Some Ordinary /\ health s = Healthy /\ pressed_keys s' = pressed_keys s /\
      pressed_buttons s' =
        (if decide (b ∈ pressed_buttons s) then pressed_buttons s else pressed_buttons s ++ [b])
  | SubmitKeyPress k m, Ok _ =>
      action_purpose s = Some Ordinary /\ health s = Healthy /\ pressed_buttons s' = pressed_buttons s /\
      (k ∉ map OwnedKey.key (pressed_keys s)) /\ pressed_keys s' = pressed_keys s ++ [OwnedKey.mk k m]
  | ConfirmBatch, Ok _ =>
      pressed_buttons s' =
        filter (fun b => PendingButton b ∉ pending_releases s) (pressed_buttons s) /\
      pressed_keys s' =
        filter (fun k => PendingKey (OwnedKey.key k) ∉ pending_releases s) (pressed_keys s)
  | _, _ => pressed_buttons s' = pressed_buttons s /\ pressed_keys s' = pressed_keys s
  end.

(** The call [m] of [o] keeps the invariant and health, and changes what is owned as it
    should. *)
Definition call_ok (o : op) (m : M t InputStateError unit) (s : t) : Prop :=
  let '(s', r) := m s in wf s' /\ owned_step o r s s' /\ health s' = health s.

Lemma refused o e s : wf s -> wf s /\ owned_step o (Err e) s s /\ health s = health s.
Proof. intros Hs. split; [done |]. split; [by destruct o | done]. Qed.

Lemma ensure_press_allowed_cases s :
  (ensure_press_allowed s = (s, Ok tt) /\ action_purpose s = Some Ordinary /\ health s = Healthy) \/
  (exists e, ensure_press_allowed s = (s, Err e)).
Proof.
  unfold ensure_press_allowed. simpl. destruct (action_purpose s) as [p |]; simpl; [| eauto].
  case_decide as Hd; simpl; [eauto |]. left.
  destruct p, (health s); try (exfalso; apply Hd; by auto). done.
Qed.

Lemma wf_unresolved s : wf s -> ~ unresolved s <-> batch_checkpoint s = None.
Proof.
  intros (_ & _ & _ & Hb). unfold unresolved. split.
  - intros Hn. destruct (batch_checkpoint s); [exfalso; auto | done].
  - intros Hc [? | Hp]; [done |]. by apply Hb in Hp.
Qed.

Lemma begin_action_ok purpose s : wf s -> call_ok (BeginAction purpose) (begin_action purpose) s.
Proof.
  intros Hs. pose proof (wf_unresolved s Hs) as Hu. pose proof Hs as (Ho & Hp & Hj & Hb).
  unfold call_ok, begin_action. simpl.
  destruct (effects s); simpl; [by apply (refused (BeginAction purpose) NoActiveAction) |].
  case_decide; simpl; [by apply (refused (BeginAction purpose) NoActiveAction) |].
  case_decide; simpl; [by apply (refused (BeginAction purpose) NoActiveAction) |].
  split; [| done]. split_and!; try done. unfold journal_ok. simpl. split_and!; [done | |].
  - unfold EffectJournal.wf, MAX_EFFECT_RECORDS. simpl. change (len []) with 0.
    split_and!; [lia | apply numbered_nil | done].
  - intros c Hc. rewrite (proj1 Hu) in Hc by done. done.
Qed.

Lemma finish_action_ok s : wf s -> call_ok FinishAction (call FinishAction) s.
Proof.
  intros Hs. pose proof (wf_unresolved s Hs) as Hu. pose proof Hs as (Ho & Hp & Hj & Hb).
  unfold call_ok, call, finish_action. simpl.
  case_decide; simpl; [by apply (refused FinishAction NoActiveAction) |].
  destruct (effects s); simpl; [| by apply (refused FinishAction NoActiveAction)].
  split; [| done]. split_and!; try done. unfold journal_ok. simpl. split; [done | by apply Hu].
Qed.

Lemma submit_pointer_motion_ok p s :
  wf s -> call_ok (SubmitPointerMotion p) (submit_pointer_motion p) s.
Proof.
  intros Hs. unfold call_ok, submit_pointer_motion. unfold bind at 1.
  destruct (ensure_press_allowed_cases s) as [(-> & _) | (e & ->)]; [| by apply (refused _ _)].
  pose proof (append_effect_cases (PointerMoved p) s Hs) as Ha. unfold bind.
  destruct (append_effect (PointerMoved p) s) as [s1 [n | e]];
    destruct Ha as (Hw & (E1 & E2 & _ & _ & E5) & _); by simpl.
Qed.

Lemma submit_button_press_ok b redundant s :
  valid_button b -> wf s ->
  call_ok (SubmitButtonPress b redundant) (submit_button_press b redundant) s.
Proof.
  intros Hb Hs. unfold call_ok, submit_button_press. unfold bind at 1.
  destruct (ensure_press_allowed_cases s) as [(-> & Hpur & Hh) | (e & ->)]; [| by apply (refused _ _)].
  pose proof (append_effect_cases (ButtonPressed b) s Hs) as Ha. cbn [bind get].
  case_decide as Hin; [unfold reject_if; case_decide; [by apply (refused _ _) |] |]; unfold bind, ret;
    destruct (append_effect (ButtonPressed b) s) as [s1 [n | e]];
    destruct Ha as (Hw & (E1 & E2 & E3 & E4 & E5) & _);
    try (split; [done |]; split; [by split | done]).
  - split; [done |]. split; [| done]. simpl. by rewrite decide_True by done.
  - split; [| split; [simpl; rewrite decide_False by done; by rewrite E1 | done]].
    destruct Hw as ((O1 & O2 & O3 & O4) & (P1 & P2 & P3) & Hj & Hc).
    split; [| split; [| done]].
    + split_and!; simpl; try done; [| by apply Forall_app_2; [| constructor]].
      apply NoDup_app. split; [done |]. split; [| apply NoDup_singleton].
      intros x Hx ->%list_elem_of_singleton. by rewrite E1 in Hx.
    + split; [done |]. split; [| done]. intros x Hx. simpl. apply elem_of_app. left. by apply P2.
Qed.

Lemma submit_button_release_ok b redundant s :
  wf s -> call_ok (SubmitButtonRelease b redundant) (submit_button_release b redundant) s.
Proof.
  intros Hs. unfold call_ok, submit_button_release. cbn [bind get]. unfold reject_if.
  case_decide; [by apply (refused _ _) |].
  pose proof (append_effect_cases (ButtonReleased b) s Hs) as Ha. unfold bind, ret.
  destruct (append_effect (ButtonReleased b) s) as [s1 [n | e]];
    destruct Ha as (Hw & (E1 & E2 & E3 & E4 & E5) & Hc & _); [| by split_and!].
  destruct (bool_decide (b ∈ pressed_buttons s) &&
    negb (bool_decide (PendingButton b ∈ pending_releases s))) eqn:Hd; [| by split_and!].
  apply andb_true_iff in Hd as [Hin%bool_decide_eq_true Hout%negb_true_iff%bool_decide_eq_false].
  split; [| by split_and!]. destruct Hw as (Ho & (P1 & P2 & P3) & Hj & _), Hc as [Hc _].
  split; [done |]. split; [| by split]. split_and!; simpl.
  - apply NoDup_app. split; [done |]. split; [| apply NoDup_singleton].
    intros x Hx ->%list_elem_of_singleton. by rewrite E4 in Hx.
  - intros x [? | [= ->]%list_elem_of_singleton]%elem_of_app; [by apply P2 | by rewrite E1].
  - intros x [? | [=]%list_elem_of_singleton]%elem_of_app. by apply P3.
Qed.

Lemma submit_key_press_ok k m s :
  valid_key k -> wf s -> call_ok (SubmitKeyPress k m) (submit_key_press k m) s.
Proof.
  intros Hk Hs. unfold call_ok, submit_key_press. unfold bind at 1.
  destruct (ensure_press_allowed_cases s) as [(-> & Hpur & Hh) | (e & ->)]; [| by apply (refused _ _)].
  pose proof (append_effect_cases (KeyPressed k m) s Hs) as Ha. cbn [bind get]. unfold reject_if.
  case_decide as Hin; [by apply (refused _ _) |]. unfold bind, ret.
  destruct (append_effect (KeyPressed k m) s) as [s1 [n | e]];
    destruct Ha as (Hw & (E1 & E2 & E3 & E4 & E5) & _); [| by split_and!].
  split; [| split; [simpl; by rewrite E2 | done]].
  destruct Hw as ((O1 & O2 & O3 & O4) & (P1 & P2 & P3) & Hj & Hc).
  split; [| split; [| done]].
  - split_and!; simpl; try done; [| by apply Forall_app_2; [| constructor]].
    rewrite map_app. apply NoDup_app. split; [done |]. split; [| apply NoDup_singleton].
    intros x Hx ->%list_elem_of_singleton. by rewrite E2 in Hx.
  - split; [done |]. split; [done |]. intros x Hx. simpl. rewrite map_app. apply elem_of_app. left.
    by apply P3.
Qed.

Lemma submit_key_release_ok k s : wf s -> call_ok (SubmitKeyRelease k) (submit_key_release k) s.
Proof.
  intros Hs. unfold call_ok, submit_key_release. cbn [bind get lift].
  destruct (list_find (fun owned => OwnedKey.key owned = k) (pressed_keys s)) as [[i owned] |] eqn:Hf;
    cbn [fmap option_fmap option_map snd ok_or]; [| by apply (refused (SubmitKeyRelease k) NoActiveAction)].
  apply list_find_Some in Hf as (Hi & Hkey & _). unfold reject_if.
  case_decide as Hout; [by apply (refused (SubmitKeyRelease k) NoActiveAction) |].
  pose proof (append_effect_cases (KeyReleased k (OwnedKey.modifier owned)) s Hs) as Ha. unfold bind, ret.
  destruct (append_effect _ s) as [s1 [n | e]];
    destruct Ha as (Hw & (E1 & E2 & E3 & E4 & E5) & Hc & _); [| by split_and!].
  split; [| by split_and!]. destruct Hw as (Ho & (P1 & P2 & P3) & Hj & _), Hc as [Hc _].
  split; [done |]. split; [| by split]. split_and!; simpl.
  - apply NoDup_app. split; [done |]. split; [| apply NoDup_singleton].
    intros x Hx ->%list_elem_of_singleton. by rewrite E4 in Hx.
  - intros x [? | [=]%list_elem_of_singleton]%elem_of_app. by apply P2.
  - intros x [? | [= ->]%list_elem_of_singleton]%elem_of_app; [by apply P3 |].
    rewrite E2. apply list_elem_of_fmap. exists owned. split; [done |].
    apply list_elem_of_lookup. by exists i.
Qed.

Lemma filter_keys_NoDup (P : OwnedKey.t -> Prop) `{!forall k, Decision (P k)} l :
  NoDup (map OwnedKey.key l) -> NoDup (map OwnedKey.key (filter P l)).
Proof. intros Hl. eapply sublist_NoDup; [exact Hl |]. apply fmap_sublist, sublist_filter. Qed.

Lemma confirm_batch_ok s : wf s -> call_ok ConfirmBatch confirm_batch s.
Proof.
  intros Hs. pose proof Hs as ((O1 & O2 & O3 & O4) & (P1 & P2 & P3) & Hj & _).
  unfold call_ok, confirm_batch. cbn [bind get lift].
  destruct (batch_checkpoint s) as [c |] eqn:Hc; cbn [ok_or]; [| by apply (refused ConfirmBatch NoActiveAction)].
  unfold journal_ok in Hj. destruct (effects s) as [j |] eqn:He; [| by destruct Hj as [_ [=]]].
  cbn [ok_or zoom]. destruct Hj as (Hpur & Hwf & Hle).
  destruct (EffectJournal.confirm_since_cases c j Hwf (Hle c Hc)) as (j' & -> & Hwf' & _).
  cbn [map_err modify]. rewrite apply_releases by done. simpl. split; [| by split].
  split_and!; simpl; try (by apply NoDup_filter); try (by apply Forall_filter_keep).
  - split_and!; simpl; [by apply NoDup_filter | by apply filter_keys_NoDup | by apply Forall_filter_keep | by apply Forall_filter_keep].
  - split; [constructor |]. split; intros ? Hx; by apply not_elem_of_nil in Hx.
  - unfold journal_ok. simpl. by split_and!.
  - done.
Qed.

(** *** Health *)

(** The event a call raises, if any. *)
Definition event_of (o : op) : option HealthEvent :=
  match o with
  | TransitionHealth event => Some event
  | FailBatch reason => Some (RequireReset reason)
  | _ => None
  end.

(** Health changes only by the transition of a raised event, and a reset's outcome is
    reported only within a reset action without an open batch. *)
Definition health_step (o : op) (r : result unit InputStateError) (s s' : t) : Prop :=
  health s' = health s \/
  exists event, event_of o = Some event /\ is_ok r = true /\ next_health event s = Ok (health s') /\
    (reset_outcome event = true -> action_purpose s = Some ResetWork /\ ~ unresolved s).

Lemma abandon_wf h s : wf s -> wf (set_health h (abandon s)).
Proof.
  intros (Ho & Hp & Hj & Hb). split; [done |]. split; [| split; [| done]].
  - split_and!; [constructor | |]; intros ? Hx; by apply not_elem_of_nil in Hx.
  - unfold journal_ok in *. simpl. destruct (effects s); [| by destruct Hj].
    destruct Hj as (? & ? & _). by split_and!.
Qed.

Lemma transition_health_cases event s :
  (exists e, transition_health event s = (s, Err e)) \/
  (exists h s', transition_health event s = (s', Ok tt) /\ next_health event s = Ok h /\
     s' = set_health h (if terminal_event event then abandon s else s) /\
     (reset_outcome event = true -> action_purpose s = Some ResetWork /\ ~ unresolved s)).
Proof.
  unfold transition_health. simpl. case_decide as Hd; simpl; [left; eauto |].
  destruct (next_health event s) as [h | e]; simpl; [right | left; eauto].
  exists h. destruct (terminal_event event); simpl; eexists; (split; [reflexivity |]);
    (split; [done |]); (split; [done |]); intros Hr.
  all: destruct (decide (unresolved s)); [exfalso; apply Hd; auto |];
    destruct (decide (action_purpose s = Some ResetWork)); [done | exfalso; apply Hd; auto].
Qed.

(** Every call keeps the invariant, and changes owned input and health as it should. *)
Lemma call_effect o s :
  op_valid o -> wf s ->
  let '(s', r) := call o s in wf s' /\ owned_step o r s s' /\ health_step o r s s'.
Proof.
  intros Hv Hs.
  assert (forall m : M t InputStateError unit, call_ok o m s ->
    let '(s', r) := m s in wf s' /\ owned_step o r s s' /\ health_step o r s s') as Hcall.
  { intros m. unfold call_ok. destruct (m s) as [s' r]. intros (? & ? & ?). split_and!; try done. by left. }
  destruct o; simpl in Hv.
  - by apply Hcall, begin_action_ok.
  - by apply Hcall, finish_action_ok.
  - by apply Hcall, submit_pointer_motion_ok.
  - by apply Hcall, submit_button_press_ok.
  - by apply Hcall, submit_button_release_ok.
  - by apply Hcall, submit_key_press_ok.
  - by apply Hcall, submit_key_release_ok.
  - by apply Hcall, confirm_batch_ok.
  - simpl. unfold fail_batch. cbn [bind get]. unfold reject_if.
    case_decide; [(split; [done |]; split; [by split | by left]) |]. unfold bind, ret.
    destruct (transition_health_cases (RequireReset reason) s)
      as [(e & ->) | (h & s' & -> & Hn & -> & Hr)]; [(split; [done |]; split; [by split | by left]) |].
    simpl. split; [by apply (abandon_wf h) |]. split; [by split |].
    right. exists (RequireReset reason). by split_and!.
  - apply Hcall. unfold call_ok, call, abandon_poisoned_reset_batch. simpl.
    case_decide; simpl; [done |]. case_decide; simpl; [done |].
    split; [| done]. pose proof (abandon_wf (health s) s Hs) as Hw. by destruct s.
  - simpl. destruct (transition_health_cases event s)
      as [(e & ->) | (h & s' & -> & Hn & -> & Hr)]; [(split; [done |]; split; [by split | by left]) |].
    split; [| split; [by destruct (terminal_event event) |]].
    + destruct (terminal_event event); [by apply abandon_wf | by destruct s].
    + right. exists event. simpl. rewrite Hn. split_and!; try done.
Qed.

Lemma input_apply_wf o s : op_valid o -> wf s -> wf (apply o s).
Proof.
  intros Hv Hs. pose proof (call_effect o s Hv Hs) as H. unfold apply.
  by destruct (call o s) as [s' r]; destruct H.
Qed.

Lemma input_run_wf os s : Forall op_valid os -> wf s -> wf (run os s).
Proof.
  intros Hos. revert s. induction Hos as [| o os Ho Hos IH]; intros s Hs; simpl; [done |].
  by apply IH, input_apply_wf.
Qed.

(** ** Bounds on what is owned *)
Lemma NoDup_bounded (l : list N) (low high : N) :
  NoDup l -> Forall (fun x => low <= x <= high) l -> low <= high + 1 -> len l <= high + 1 - low.
Proof.
  intros Hn Hb Hle.
  assert (l ⊆+ map N.of_nat (seq (N.to_nat low) (N.to_nat (high + 1 - low)))) as Hs.
  { apply NoDup_submseteq; [done |]. intros x Hx.
    apply (proj1 (Forall_forall _ _) Hb) in Hx. apply list_elem_of_fmap. exists (N.to_nat x).
    split; [lia |]. apply elem_of_seq. lia. }
  apply submseteq_length in Hs. rewrite length_map, length_seq in Hs. unfold len. lia.
Qed.

Lemma owned_bounds s :
  owned_ok s -> len (pressed_buttons s) <= 255 /\ len (pressed_keys s) <= 248.
Proof.
  intros (H1 & H2 & H3 & H4). split.
  - assert (len (map detail (pressed_buttons s)) <= 255 + 1 - 1) as Hl.
    { apply NoDup_bounded; [| | lia].
      - apply NoDup_fmap_2; [| done]. by intros [] [] [= ->].
      - apply Forall_forall. intros x (b & -> & Hb)%list_elem_of_fmap.
        apply (proj1 (Forall_forall _ _) H3) in Hb. exact Hb. }
    unfold len in *. rewrite length_map in Hl. lia.
  - assert (len (map (fun k => keycode (OwnedKey.key k)) (pressed_keys s)) <= 255 + 1 - 8) as Hl.
    { apply NoDup_bounded; [| | lia].
      - rewrite <- (map_map OwnedKey.key keycode). apply NoDup_fmap_2; [| done]. by intros [] [] [= ->].
      - apply Forall_forall. intros x (k & -> & Hk)%list_elem_of_fmap.
        apply (proj1 (Forall_forall _ _) H4) in Hk. exact Hk. }
    unfold len in *. rewrite length_map in Hl. lia.
Qed.

End InputInvariant.

(** ** Conservative resets *)
Module InputReset.
Import InputState InputTrace InputInvariant.

(** The submission of one release of the plan, as the input actor makes it. *)
Definition submit_cleanup (action : CleanupAction) : M t InputStateError unit :=
  match action with
  | ReleaseButton button => submit_button_release button false
  | ReleaseKey key _ => submit_key_release key
  end.

(** The calls of a reset whose releases are all observed. *)
Definition reset_owned_input : M t InputStateError EffectJournal.t :=
  begin_action ResetWork ;;;
  self <- get ;;
  for_each submit_cleanup (plan_cleanup self) ;;;
  (if decide (plan_cleanup self = []) then ret tt else confirm_batch) ;;;
  transition_health ResetSucceeded ;;;
  finish_action.

Definition release_of (action : CleanupAction) : PendingRelease :=
  match action with
  | ReleaseButton button => PendingButton button
  | ReleaseKey key _ => PendingKey key
  end.

Definition effect_of (action : CleanupAction) : Effect :=
  match action with
  | ReleaseButton button => ButtonReleased button
  | ReleaseKey key modifier => KeyReleased key modifier
  end.

Definition owns (s : t) (action : CleanupAction) : Prop :=
  match action with
  | ReleaseButton button => button ∈ pressed_buttons s
  | ReleaseKey key modifier => OwnedKey.mk key modifier ∈ pressed_keys s
  end.

Lemma owned_key_found s k m :
  owned_ok s -> OwnedKey.mk k m ∈ pressed_keys s ->
  exists i, list_find (fun owned => OwnedKey.key owned = k) (pressed_keys s) = Some (i, OwnedKey.mk k m).
Proof.
  intros (_ & Hn & _) Hin. apply list_elem_of_lookup in Hin as [i Hi]. exists i.
  apply list_find_Some. split_and!; [done | done |]. intros j y Hj Hlt Hk.
  enough (j = i) by lia. eapply (NoDup_lookup _ _ _ k Hn).
  - rewrite list_lookup_fmap, Hj. simpl. by rewrite Hk.
  - by rewrite list_lookup_fmap, Hi.
Qed.

Lemma submit_cleanup_ok action s j :
  wf s -> effects s = Some j -> len (EffectJournal.records j) < MAX_EFFECT_RECORDS ->
  owns s action -> release_of action ∉ pending_releases s ->
  exists s' j', submit_cleanup action s = (s', Ok tt) /\ wf s' /\
    pressed_buttons s' = pressed_buttons s /\ pressed_keys s' = pressed_keys s /\
    action_purpose s' = action_purpose s /\ health s' = health s /\
    pending_releases s' = pending_releases s ++ [release_of action] /\ effects s' = Some j' /\
    EffectJournal.records j' = EffectJournal.records j ++
      [EffectRecord.mk (len (EffectJournal.records j)) (effect_of action) Provisional] /\
    batch_checkpoint s' = Some (default (length (EffectJournal.records j)) (batch_checkpoint s)).
Proof.
  intros Hs Hj Hlen Hown Hout. pose proof (append_effect_cases (effect_of action) s Hs) as Ha.
  destruct action as [b | k m]; cbn [owns release_of effect_of submit_cleanup] in *.
  - pose proof (submit_button_release_ok b false s Hs) as Hok. unfold call_ok in Hok. revert Hok.
    unfold submit_button_release. cbn [bind get]. rewrite bool_decide_eq_true_2 by done.
    rewrite (bool_decide_eq_false_2 (PendingButton b ∈ _)) by done.
    cbn [negb andb orb reject_if]. rewrite decide_False by done. unfold bind, ret.
    destruct (append_effect (ButtonReleased b) s) as [s1 [n | e]];
      destruct Ha as (_ & (E1 & E2 & E3 & E4 & E5) & Hc & Hroom);
      [| by specialize (Hroom _ Hj Hlen)].
    destruct Hc as (_ & j0 & j' & Hj0 & Hj' & Hrec & Hcp). rewrite Hj in Hj0. injection Hj0 as <-.
    cbn. intros (Hw & _). eexists _, j'. split; [reflexivity |].
    split; [exact Hw |]. cbn. rewrite E1, E2, E3, E4, E5. by split_and!.
  - pose proof (submit_key_release_ok k s Hs) as Hok. unfold call_ok in Hok. revert Hok.
    pose proof Hs as (Ho & _). destruct (owned_key_found s k m Ho Hown) as [i Hf].
    unfold submit_key_release. cbn [bind get lift]. rewrite Hf.
    cbn [fmap option_fmap option_map snd ok_or reject_if OwnedKey.modifier].
    rewrite decide_False by done. unfold bind, ret.
    destruct (append_effect (KeyReleased k m) s) as [s1 [n | e]];
      destruct Ha as (_ & (E1 & E2 & E3 & E4 & E5) & Hc & Hroom);
      [| by specialize (Hroom _ Hj Hlen)].
    destruct Hc as (_ & j0 & j' & Hj0 & Hj' & Hrec & Hcp). rewrite Hj in Hj0. injection Hj0 as <-.
    cbn. intros (Hw & _). eexists _, j'. split; [reflexivity |].
    split; [exact Hw |]. cbn. rewrite E1, E2, E3, E4, E5. by split_and!.
Qed.

(** Submitting a list of owned releases, none of them in flight. *)
Lemma submit_all_ok actions s j :
  wf s -> effects s = Some j ->
  len (EffectJournal.records j) + len actions <= MAX_EFFECT_RECORDS ->
  Forall (owns s) actions -> NoDup (map release_of actions) ->
  (forall a, a ∈ actions -> release_of a ∉ pending_releases s) ->
  exists s' j', for_each submit_cleanup actions s = (s', Ok tt) /\ wf s' /\
    pressed_buttons s' = pressed_buttons s /\ pressed_keys s' = pressed_keys s /\
    action_purpose s' = action_purpose s /\ health s' = health s /\
    pending_releases s' = pending_releases s ++ map release_of actions /\ effects s' = Some j' /\
    map EffectRecord.effect (EffectJournal.records j') =
      map EffectRecord.effect (EffectJournal.records j) ++ map effect_of actions /\
    batch_checkpoint s' = (if decide (actions = []) then batch_checkpoint s
                           else Some (default (length (EffectJournal.records j)) (batch_checkpoint s))).
Proof.
  revert s j. induction actions as [| a actions IH]; intros s j Hs Hj Hlen Hown Hn Hout.
  { exists s, j. simpl. rewrite !app_nil_r. by split_and!. }
  apply Forall_cons in Hown as [Ha Hown]. simpl in Hn. apply NoDup_cons in Hn as [Hna Hn].
  rewrite len_cons in Hlen.
  destruct (submit_cleanup_ok a s j Hs Hj ltac:(lia) Ha (Hout a ltac:(by left)))
    as (s1 & j1 & He & Hw & E1 & E2 & E3 & E4 & E5 & Hj1 & Hr1 & Hc1).
  destruct (IH s1 j1 Hw Hj1) as (s2 & j2 & He2 & Hw2 & F1 & F2 & F3 & F4 & F5 & Hj2 & Hr2 & Hc2).
  - rewrite Hr1, len_app, len_cons. change (len []) with 0. lia.
  - eapply Forall_impl; [exact Hown |]. intros [b | k m]; simpl; by rewrite ?E1, ?E2.
  - done.
  - intros x Hx. rewrite E5. intros [Hin | Heq%list_elem_of_singleton]%elem_of_app.
    + by apply (Hout x); [right |].
    + apply Hna. rewrite <- Heq. by apply list_elem_of_fmap_2.
  - exists s2, j2. cbn [for_each]. unfold bind. rewrite He. split; [exact He2 |]. split; [done |].
    rewrite F1, F2, F3, F4, F5, E1, E2, E3, E4, E5, Hr2, Hc2, Hr1, Hc1, map_app, <- !app_assoc.
    split_and!; try done. by case_decide.
Qed.

(** The plan releases exactly what is owned, each once. *)
Lemma plan_owned s : Forall (owns s) (plan_cleanup s).
Proof.
  unfold plan_cleanup. apply Forall_forall. intros a Ha. apply elem_of_app in Ha as [Ha | Ha].
  - apply list_elem_of_fmap in Ha as (b & -> & Hb). simpl. by rewrite <- Permutation_rev in Hb.
  - apply elem_of_app in Ha as [Ha | Ha]; apply list_elem_of_fmap in Ha as (o & -> & Ho);
      apply list_elem_of_filter in Ho as [Hm Ho]; simpl;
      rewrite <- Permutation_rev in Ho; destruct o as [k []]; simpl in *;
      done.
Qed.

Lemma plan_releases_NoDup s : owned_ok s -> NoDup (map release_of (plan_cleanup s)).
Proof.
  intros (Hb & Hk & _). unfold plan_cleanup. rewrite !map_app, !map_map. simpl.
  apply NoDup_app. split; [| split].
  - apply NoDup_fmap_2; [by intros ? ? [= ->] |]. by rewrite <- Permutation_rev.
  - intros x (b & -> & _)%list_elem_of_fmap Hx.
    apply elem_of_app in Hx as [Hx | Hx]; by apply list_elem_of_fmap in Hx as (o & [=] & _).
  - rewrite <- map_app, <- (map_map OwnedKey.key PendingKey).
    apply NoDup_fmap_2; [by intros ? ? [= ->] |]. rewrite map_app, Permutation_app_comm, <- map_app.
    assert (filter (fun owned => OwnedKey.modifier owned = true) (rev (pressed_keys s)) ++
      filter (fun owned => OwnedKey.modifier owned <> true) (rev (pressed_keys s)) ≡ₚ pressed_keys s)
      as Hp.
    { etrans; [apply filter_partition |]. symmetry. apply Permutation_rev. }
    by rewrite Hp.
Qed.

Lemma plan_covers s :
  (forall b, b ∈ pressed_buttons s -> PendingButton b ∈ map release_of (plan_cleanup s)) /\
  (forall k, k ∈ pressed_keys s -> PendingKey (OwnedKey.key k) ∈ map release_of (plan_cleanup s)).
Proof.
  unfold plan_cleanup. rewrite !map_app, !map_map. simpl. split.
  - intros b Hb. apply elem_of_app. left. apply list_elem_of_fmap. exists b. split; [done |].
    by rewrite <- Permutation_rev.
  - intros k Hk. apply elem_of_app. right. apply elem_of_app.
    destruct (OwnedKey.modifier k) eqn:Hm; [right | left]; apply list_elem_of_fmap; exists k;
      (split; [done |]); apply list_elem_of_filter; (split; [congruence |]);
      by rewrite <- Permutation_rev.
Qed.

Lemma plan_length s : len (plan_cleanup s) = len (pressed_buttons s) + len (pressed_keys s).
Proof.
  unfold plan_cleanup, len. rewrite !length_app, !length_map, length_rev.
  assert (length (filter (fun o => OwnedKey.modifier o <> true) (rev (pressed_keys s))) +
    length (filter (fun o => OwnedKey.modifier o = true) (rev (pressed_keys s))) =
    length (pressed_keys s))%nat as H.
  { rewrite <- length_app, Permutation_app_comm, filter_partition. apply length_rev. }
  lia.
Qed.

Lemma confirm_batch_all s j c :
  wf s -> effects s = Some j -> batch_checkpoint s = Some c ->
  exists j', confirm_batch s =
    (mk (filter (fun b => PendingButton b ∉ pending_releases s) (pressed_buttons s))
        (filter (fun k => PendingKey (OwnedKey.key k) ∉ pending_releases s) (pressed_keys s))
        (Some j') (action_purpose s) None [] (health s), Ok tt) /\
    EffectJournal.records j' = take c (EffectJournal.records j) ++
      map EffectRecord.confirm (drop c (EffectJournal.records j)).
Proof.
  intros ((O1 & O2 & _) & _ & Hj & _) He Hc. unfold journal_ok in Hj. rewrite He in Hj.
  destruct Hj as (_ & Hwf & Hle).
  destruct (EffectJournal.confirm_since_cases c j Hwf (Hle c Hc)) as (j' & Hcs & _ & Hrec).
  exists j'. split; [| done]. unfold confirm_batch. cbn [bind get lift].
  rewrite Hc, He. cbn [ok_or zoom]. rewrite Hcs. cbn [map_err modify].
  rewrite apply_releases by done. by destruct s.
Qed.

Lemma confirmed_journal (l : list EffectRecord.t) n :
  EffectJournal.has_provisional (EffectJournal.mk (map EffectRecord.confirm l) n) = false.
Proof. unfold EffectJournal.has_provisional. simpl. by induction l. Qed.

(** The end of a reset that has nothing left to release. *)
Lemma finish_reset_ok s j x :
  action_purpose s = Some ResetWork -> effects s = Some j -> batch_checkpoint s = None ->
  pending_releases s = [] -> pressed_buttons s = [] -> pressed_keys s = [] ->
  health s = ResetRequired x ->
  (transition_health ResetSucceeded ;;; finish_action) s = (new, Ok j).
Proof.
  destruct s as [pb pk e ap bc pr h]. simpl. intros -> -> -> -> -> -> ->. reflexivity.
Qed.

End InputReset.

(** ** Properties *)
Section InputProperties.
Import InputState InputTrace InputInvariant InputReset.

(** The invariant of the input state.  After any calls from the initial state: no
    button or key is owned twice, the releases in flight are of owned input and each is
    in flight once, a journal is open exactly during an action, holds at most
    [MAX_EFFECT_RECORDS] records numbered from zero, an open batch starts within it,
    and at most the 255 buttons and 248 keycodes of the protocol are owned. *)
Theorem input_state_invariant (os : list op) :
  Forall op_valid os ->
  wf (run os new) /\
  len (pressed_buttons (run os new)) <= 255 /\ len (pressed_keys (run os new)) <= 248.
Proof.
  intros Hos. pose proof (input_run_wf os new Hos input_new_wf) as Hw. split; [done |].
  apply owned_bounds. by destruct Hw.
Qed.

(** Ownership is conservative.  In every reachable state a call makes a button or
    key owned only by an accepted press in an ordinary action while healthy, and ends
    the ownership only by confirming a batch in which its release was submitted: no
    failed, abandoned or merely submitted release forgets a press. *)
Theorem ownership_is_conservative (os : list op) (o : op) :
  Forall op_valid os -> op_valid o ->
  let s := run os new in
  let '(s', r) := call o s in
  (forall b, b ∈ pressed_buttons s' -> b ∉ pressed_buttons s ->
     (exists redundant, o = SubmitButtonPress b redundant) /\ is_ok r = true /\
     action_purpose s = Some Ordinary /\ health s = Healthy) /\
  (forall k, k ∈ pressed_keys s' -> k ∉ pressed_keys s ->
     o = SubmitKeyPress (OwnedKey.key k) (OwnedKey.modifier k) /\ is_ok r = true /\
     action_purpose s = Some Ordinary /\ health s = Healthy) /\
  (forall b, b ∈ pressed_buttons s -> b ∉ pressed_buttons s' ->
     o = ConfirmBatch /\ is_ok r = true /\ PendingButton b ∈ pending_releases s) /\
  (forall k, k ∈ pressed_keys s -> k ∉ pressed_keys s' ->
     o = ConfirmBatch /\ is_ok r = true /\ PendingKey (OwnedKey.key k) ∈ pending_releases s).
Proof.
  intros Hos Ho s. pose proof (input_run_wf os new Hos input_new_wf) as Hs. fold s in Hs. clearbody s.
  pose proof (call_effect o s Ho Hs) as H. destruct (call o s) as [s' r].
  destruct H as (_ & Hown & _).
  destruct o, r as [u | e]; simpl in Hown;
    try (destruct Hown as [-> ->]; split_and!; intros; done).
  - destruct Hown as (Hp & Hh & -> & ->). case_decide; split_and!; try (intros; done).
    + intros b [? | ->%list_elem_of_singleton]%elem_of_app Hb; [done |]. split_and!; [by eexists | done | done | done].
    + intros b Hb Hn. exfalso. apply Hn. apply elem_of_app. by left.
  - destruct Hown as (Hp & Hh & -> & _ & ->). split_and!; try (intros; done).
    + intros k [? | ->%list_elem_of_singleton]%elem_of_app Hk; [done |]. by split_and!.
    + intros k Hk Hn. exfalso. apply Hn. apply elem_of_app. by left.
  - destruct Hown as [-> ->]. split_and!.
    + intros b [_ Hb]%list_elem_of_filter Hn. done.
    + intros k [_ Hk]%list_elem_of_filter Hn. done.
    + intros b Hb Hn. split_and!; [done | done |].
      destruct (decide (PendingButton b ∈ pending_releases s)); [done |].
      exfalso. apply Hn. by apply list_elem_of_filter.
    + intros k Hk Hn. split_and!; [done | done |].
      destruct (decide (PendingKey (OwnedKey.key k) ∈ pending_releases s)); [done |].
      exfalso. apply Hn. by apply list_elem_of_filter.
Qed.

(** Poison is terminal.  Once poisoned, the health never changes again, with the
    original reason, and no press or motion is ever accepted, whatever is called. *)
Theorem poison_is_terminal (os os' : list op) (reason : PoisonReason) :
  Forall op_valid os -> Forall op_valid os' -> health (run os new) = Poisoned reason ->
  health (run os' (run os new)) = Poisoned reason /\
  (forall o, match o with
             | SubmitPointerMotion _ | SubmitButtonPress _ _ | SubmitKeyPress _ _ => True
             | _ => False
             end -> is_ok (snd (call o (run os' (run os new)))) = false).
Proof.
  intros Hos Hos' Hp. pose proof (input_run_wf os new Hos input_new_wf) as Hs.
  set (s := run os new) in *. clearbody s. clear Hos os.
  assert (health (run os' s) = Poisoned reason) as Hp'.
  { revert s Hs Hp. induction Hos' as [| o os' Ho Hos' IH]; intros s Hs Hp; simpl; [done |].
    apply IH; [by apply input_apply_wf |].
    pose proof (call_effect o s Ho Hs) as H. unfold apply. destruct (call o s) as [s' r]. simpl.
    destruct H as (_ & _ & [-> | (event & _ & _ & Hn & _)]); [done |].
    unfold next_health in Hn. rewrite Hp in Hn. by destruct event. }
  split; [done |]. set (s' := run os' s) in *. clearbody s'.
  assert (exists e, ensure_press_allowed s' = (s', Err e)) as [e He].
  { destruct (ensure_press_allowed_cases s') as [(_ & _ & Hh) | He]; [congruence | done]. }
  intros [] Hm; try done; unfold call, submit_pointer_motion, submit_button_press, submit_key_press;
    unfold bind at 1; by rewrite He.
Qed.

(** Service resumes only after an observed reset.  A call of a reachable state that
    makes the health healthy again is the report of a successful reset, made within a
    reset action without an open batch, when no button or key is owned any more. *)
Theorem healthy_again_owns_nothing (os : list op) (o : op) :
  Forall op_valid os -> op_valid o ->
  let s := run os new in
  health s <> Healthy -> health (apply o s) = Healthy ->
  o = TransitionHealth ResetSucceeded /\ action_purpose s = Some ResetWork /\
  batch_checkpoint s = None /\ pressed_buttons (apply o s) = [] /\ pressed_keys (apply o s) = [].
Proof.
  intros Hos Ho s Hne Hh. pose proof (input_run_wf os new Hos input_new_wf) as Hs. fold s in Hs. clearbody s.
  pose proof (call_effect o s Ho Hs) as H. unfold apply in *. destruct (call o s) as [s' r]. simpl in *.
  destruct H as (_ & Hown & [Heq | (event & He & _ & Hn & Hr)]); [congruence |].
  rewrite Hh in Hn. unfold next_health in Hn.
  destruct (health s); [done | | by destruct event]. destruct event; try done.
  case_decide as Hd; [done |]. destruct (Hr eq_refl) as [Hp Hu].
  destruct o; simpl in He; try done. injection He as ->. destruct Hown as [-> ->].
  apply (wf_unresolved s Hs) in Hu. split_and!; try done.
  - destruct (pressed_buttons s); [done | exfalso; apply Hd; by left].
  - destruct (pressed_keys s); [done | exfalso; apply Hd; right; by left].
Qed.

(** A reset releases everything.  From every reachable state without an open
    action whose health requires a reset, the calls of the actor's reset all succeed:
    they release exactly the owned input, buttons before plain keys before modifiers
    and each group in reverse order of its presses, all of the evidence is confirmed,
    and the state afterwards is the initial, healthy one. *)
Theorem reset_releases_everything (os : list op) (reason : ResetReason) :
  Forall op_valid os ->
  let s := run os new in
  effects s = None -> health s = ResetRequired reason ->
  exists journal, reset_owned_input s = (new, Ok journal) /\
    map EffectRecord.effect (EffectJournal.records journal) = map effect_of (plan_cleanup s) /\
    EffectJournal.has_provisional journal = false.
Proof.
  intros Hos s He Hh. pose proof (input_run_wf os new Hos input_new_wf) as Hs. fold s in Hs. clearbody s.
  pose proof Hs as (Ho & Hp & Hj & Hb). unfold journal_ok in Hj. rewrite He in Hj.
  destruct Hj as [Hpur Hbc].
  assert (pending_releases s = []) as Hpr by (destruct (pending_releases s); [done |]; by destruct Hb).
  set (s1 := set_action_purpose (Some ResetWork) (set_effects (Some EffectJournal.new) s)).
  assert (begin_action ResetWork s = (s1, Ok tt)) as Hbegin.
  { unfold begin_action. cbn [bind get]. rewrite He. simpl.
    rewrite decide_False by (intros [? | ?]; done). reflexivity. }
  assert (wf s1) as Hs1.
  { pose proof (begin_action_ok ResetWork s Hs) as H. unfold call_ok in H. rewrite Hbegin in H.
    by destruct H. }
  assert (plan_cleanup s1 = plan_cleanup s) as Hplan by done.
  destruct (owned_bounds s Ho) as [Hlb Hlk].
  destruct (submit_all_ok (plan_cleanup s) s1 EffectJournal.new Hs1 eq_refl)
    as (s2 & j2 & Hsub & Hw2 & E1 & E2 & E3 & E4 & E5 & Hj2 & Hr2 & Hc2).
  { rewrite plan_length. unfold MAX_EFFECT_RECORDS. simpl. change (len []) with 0. lia. }
  { exact (plan_owned s1). }
  { by apply plan_releases_NoDup. }
  { intros a _. simpl. rewrite Hpr. apply not_elem_of_nil. }
  unfold reset_owned_input. unfold bind at 1. rewrite Hbegin. cbn beta iota.
  unfold bind at 1. unfold get at 1. cbn beta iota. rewrite Hplan.
  unfold bind at 1. rewrite Hsub. cbn beta iota. simpl in Hr2, Hc2, E5. rewrite Hpr in E5. rewrite Hbc in Hc2.
  destruct (plan_covers s) as [Hcb Hck]. case_decide as Hnil.
  - assert (pressed_buttons s = [] /\ pressed_keys s = []) as [Hnb Hnk].
    { pose proof (plan_length s) as Hl. rewrite Hnil in Hl. change (len []) with 0 in Hl.
      split; apply len_zero_iff; lia. }
    exists j2. rewrite Hnil in Hr2, E5 |- *. simpl in Hr2, E5, E1, E2, E3, E4. split.
    + apply (finish_reset_ok s2 j2 reason); congruence.
    + split; [done |]. unfold EffectJournal.has_provisional.
      by destruct (EffectJournal.records j2).
  - destruct (confirm_batch_all s2 j2 0%nat Hw2 Hj2 Hc2) as (j3 & Hconf & Hrec3).
    exists j3. unfold bind at 1. rewrite Hconf. cbn beta iota. simpl in E1, E2, E3, E4, E5, Hrec3. split.
    + apply (finish_reset_ok _ j3 reason); simpl; try congruence.
      * rewrite E1, E5. apply filter_none. intros b Hin Hn. by apply Hn, Hcb.
      * rewrite E2, E5. apply filter_none. intros k Hin Hn. by apply Hn, Hck.
    + split; [rewrite Hrec3, map_map; exact Hr2 |].
      destruct j3 as [recs next]. simpl in Hrec3. subst recs. apply confirmed_journal.
Qed.

(** A redundant press can lose its ownership.  A button that is pressed, released and
    pressed again redundantly within one batch ends up down, with all three effects
    confirmed, but no longer owned: confirming the batch applies the release, and the
    redundant press added no ownership of its own.  The next cleanup plan omits it. *)
Theorem redundant_press_loses_ownership (b : PhysicalButton) :
  let s := run [BeginAction Ordinary; SubmitButtonPress b false; SubmitButtonRelease b false;
                SubmitButtonPress b true; ConfirmBatch] new in
  (exists j, effects s = Some j /\
     map EffectRecord.effect (EffectJournal.records j) =
       [ButtonPressed b; ButtonReleased b; ButtonPressed b] /\
     EffectJournal.has_provisional j = false) /\
  pressed_buttons s = [] /\ plan_cleanup s = [].
Proof.
  intros s.
  assert (b ∈ [b]) as Hin by by left. 
  assert (exists j, s = mk [] [] (Some j) (Some Ordinary) None [] Healthy /\
    EffectJournal.records j = [EffectRecord.mk 0 (ButtonPressed b) Confirmed;
      EffectRecord.mk 1 (ButtonReleased b) Confirmed; EffectRecord.mk 2 (ButtonPressed b) Confirmed])
    as (j & -> & Hj).
  { eexists. subst s. unfold run, apply, call. simpl. unfold submit_button_release. simpl.
    rewrite bool_decide_eq_true_2 by done. simpl. unfold submit_button_press. simpl.
    rewrite decide_True by done. simpl. unfold confirm_batch. simpl. 
    rewrite decide_True by done. split; reflexivity. }
  simpl. split; [| by split]. exists j. split; [done |]. unfold EffectJournal.has_provisional. by rewrite Hj.
Qed.

End InputProperties.

(** ** Witnesses *)
Module InputWitness.
Import InputState InputTrace InputInvariant InputReset.

Definition button : PhysicalButton := mkPhysicalButton 1.
Definition shift : PhysicalKey := mkPhysicalKey 50.
Definition letter : PhysicalKey := mkPhysicalKey 38.

(** A release batch fails: its button stays owned. *)
Definition failed : list op :=
  [BeginAction Ordinary; SubmitKeyPress shift true; SubmitKeyPress letter false;
   SubmitButtonPress button false; ConfirmBatch; SubmitButtonRelease button false;
   FailBatch BarrierFailed; FinishAction].

Lemma failed_valid : Forall op_valid failed.
Proof. repeat constructor; vm_compute; discriminate. Defined.

Lemma input_state_invariant_witness : wf (run failed new).
Proof. apply (input_state_invariant failed failed_valid). Defined.

Lemma ownership_is_conservative_witness :
  button ∈ pressed_buttons (run failed new).
Proof.
  pose (before := take 6 failed).
  pose proof (ownership_is_conservative before (FailBatch BarrierFailed)) as H.
  assert (Forall op_valid before) as Hv by (repeat constructor; vm_compute; discriminate).
  specialize (H Hv I). cbv zeta in H.
  assert (button ∈ pressed_buttons (fst (call (FailBatch BarrierFailed) (run before new)))) as Hin.
  { destruct (call (FailBatch BarrierFailed) (run before new)) as [s' r]. destruct H as (_ & _ & H & _).
    destruct (decide (button ∈ pressed_buttons s')) as [Hin | Hout]; [exact Hin |].
    destruct (H button) as [Heq _]; [vm_compute; left | exact Hout | discriminate Heq]. }
  exact Hin.
Defined.

Lemma poison_is_terminal_witness :
  health (run [BeginAction ResetWork; TransitionHealth ResetSucceeded]
            (run [TransitionHealth ConnectionLost] new)) = Poisoned PoisonConnectionLost.
Proof.
  apply (poison_is_terminal [TransitionHealth ConnectionLost]
    [BeginAction ResetWork; TransitionHealth ResetSucceeded] PoisonConnectionLost);
    [repeat constructor | repeat constructor | reflexivity].
Defined.

Lemma healthy_again_owns_nothing_witness :
  let os := failed ++ [BeginAction ResetWork; SubmitButtonRelease button false;
    SubmitKeyRelease letter; SubmitKeyRelease shift; ConfirmBatch] in
  pressed_keys (apply (TransitionHealth ResetSucceeded) (run os new)) = [].
Proof.
  intros os.
  apply (healthy_again_owns_nothing os (TransitionHealth ResetSucceeded)).
  - repeat constructor; vm_compute; discriminate.
  - exact I.
  - vm_compute. discriminate.
  - vm_compute. reflexivity.
Defined.

Lemma reset_releases_everything_witness :
  exists journal, reset_owned_input (run failed new) = (new, Ok journal) /\
    map EffectRecord.effect (EffectJournal.records journal) =
      [ButtonReleased button; KeyReleased letter false; KeyReleased shift true].
Proof.
  destruct (reset_releases_everything failed BarrierFailed failed_valid eq_refl eq_refl)
    as (journal & H1 & H2 & _).
  exists journal. split; [exact H1 | exact H2].
Defined.

End InputWitness.
