(* ===== verification/Binary64.v ===== *)
(** * Binary floating point

    The [f64] operations that the pointer-motion planner uses, on the IEEE 754 binary64
    numbers of the Standard Library ([spec_float] with 53 bits of precision and the
    exponent range of binary64).  Every operation is executable.  [f64::hypot] is not
    here: its precision is unspecified, so it is a parameter where it is used. *)

From stdpp Require Import base numbers.
From Stdlib Require Import Lia SpecFloat.

Local Open Scope Z_scope.

Definition f64 : Type := spec_float.

Module F64.

Definition prec : Z := 53.
Definition emax : Z := 1024.

(** [+], [-], [*], [/] round to nearest, ties to even. *)
Definition add : f64 -> f64 -> f64 := SFadd prec emax.
Definition sub : f64 -> f64 -> f64 := SFsub prec emax.
Definition mul : f64 -> f64 -> f64 := SFmul prec emax.
Definition div : f64 -> f64 -> f64 := SFdiv prec emax.

(** [<], [==], [<=]: false when an operand is not a number. *)
Definition lt : f64 -> f64 -> bool := SFltb.
Definition eq : f64 -> f64 -> bool := SFeqb.
Definition le : f64 -> f64 -> bool := SFleb.

(** [f64::from] on the machine integers of 32 bits or less, which it represents exactly. *)
Definition of_Z (z : Z) : f64 := binary_normalize prec emax z 0 false.

(** The literals [0.0] and [0.5]. *)
Definition zero : f64 := S754_zero false.
Definition half : f64 := div (of_Z 1) (of_Z 2).

(** [is_finite], [is_sign_negative]. *)
Definition is_finite (x : f64) : bool :=
  match x with
  | S754_zero _ | S754_finite _ _ _ => true
  | S754_infinity _ | S754_nan => false
  end.

Definition is_sign_negative (x : f64) : bool :=
  match x with
  | S754_zero s | S754_infinity s | S754_finite s _ _ => s
  | S754_nan => false
  end.

(** The integer of the given sign whose magnitude is [round num den], where
    [num / den] is the magnitude of the finite number [x]; a number without fractional
    part is its own rounding. *)
Definition round_with (round : bool -> Z -> Z -> Z) (x : f64) : f64 :=
  match x with
  | S754_finite s m e =>
      if decide (0 <= e) then x
      else
        let magnitude := round s (Zpos m) (2 ^ (- e)) in
        binary_normalize prec emax (if s then - magnitude else magnitude) 0 s
  | _ => x
  end.

(** [n / d] rounded up. *)
Definition div_up (n d : Z) : Z := - ((- n) / d).

(** [floor], [ceil]; [round], whose ties go away from zero. *)
Definition floor : f64 -> f64 := round_with (fun s n d => if s then div_up n d else n / d).
Definition ceil : f64 -> f64 := round_with (fun s n d => if s then n / d else div_up n d).
Definition round : f64 -> f64 := round_with (fun _ n d => (2 * n + d) / (2 * d)).

(** The integer part of a finite number. *)
Definition truncate (s : bool) (m : positive) (e : Z) : Z :=
  let magnitude := if decide (0 <= e) then Zpos m * 2 ^ e else Zpos m / 2 ^ (- e) in
  if s then - magnitude else magnitude.

(** [x as iN] and [x as uN] saturate at the bounds of the type and send NaN to zero. *)
Definition cast (low high : Z) (x : f64) : Z :=
  match x with
  | S754_nan | S754_zero _ => 0
  | S754_infinity s => if s then low else high
  | S754_finite s m e => Z.max low (Z.min high (truncate s m e))
  end.

Definition as_i32 : f64 -> Z := cast (- 2 ^ 31) (2 ^ 31 - 1).
Definition as_u32 : f64 -> Z := cast 0 (2 ^ 32 - 1).

Lemma cast_bounds low high x : low <= 0 <= high -> low <= cast low high x <= high.
Proof. intros H. unfold cast. destruct x as [| [] | |]; lia. Qed.

(** The planner's rounding cases, evaluated. *)
Definition ratio (n d : Z) : f64 := div (of_Z n) (of_Z d).

Example floor_examples :
  map (fun x => as_i32 (floor x)) [ratio 3 2; ratio (-3) 2; ratio 7 1; ratio (-1) 4] = [1; -2; 7; -1].
Proof. reflexivity. Qed.

Example ceil_examples :
  map (fun x => as_i32 (ceil x)) [ratio 3 2; ratio (-3) 2; ratio 7 1; ratio (-1) 4] = [2; -1; 7; 0].
Proof. reflexivity. Qed.

Example round_examples :
  map (fun x => as_i32 (round x)) [ratio 3 2; ratio (-3) 2; ratio 5 4; ratio (-1) 2] = [2; -2; 1; -1].
Proof. reflexivity. Qed.

End F64.
