(* ===== verification/Motion.v ===== *)
(** * Pointer-motion plans

    Models [xenoteer-core/src/input/interpolation.rs]: the automatic motion policy, the
    options of one segment, the plan of one segment with its exactly timed samples, and
    the plan of a path through waypoints.  Times and counts ([u16], [u32], [usize]) are
    [N]; coordinates are the checked points of [Geometry]; the curve is computed in
    [f64] as the source computes it.

    [f64::hypot] is a parameter: its result is not specified to the last bit.  Nothing
    is assumed of it. *)

From stdpp Require Import base numbers list option.
From Stdlib Require Import Lia.
From S2P Require Import Prelude Geometry Binary64.

Local Open Scope N_scope.

Definition u32_max : N := 4294967295.

(** [u32::checked_add]. *)
Definition checked_add_u32 (a b : N) : option N :=
  if decide (a + b <= u32_max) then Some (a + b) else None.

Definition MAX_MOTION_DURATION_MS : N := 10000.
Definition MAX_MOTION_EVENTS : N := 4096.
Definition MAX_WAYPOINTS : N := 1024.
Definition MIN_SAMPLE_RATE_HZ : N := 1.
Definition MAX_SAMPLE_RATE_HZ : N := 240.
Definition DEFAULT_SAMPLE_RATE_HZ : N := 60.
Definition DEFAULT_NOMINAL_POINTER_SPEED_PX_PER_SECOND : N := 1200.
Definition DEFAULT_MIN_AUTOMATIC_DURATION_MS : N := 80.
Definition DEFAULT_MAX_AUTOMATIC_DURATION_MS : N := 650.

(** [MotionPlanError]. *)
Inductive MotionPlanError :=
  | DurationLimitExceeded
  | NominalSpeedMustBePositive
  | AutomaticDurationRangeInvalid (minimum_ms maximum_ms : N)
  | InstantDurationMustBeZero
  | ExpectedInterpolatedCurve
  | SampleRateOutOfRange (actual : N)
  | WaypointCount (actual : N)
  | SegmentDurationCount (expected actual : N)
  | MotionEventLimitExceeded (maximum : N)
  | NonFiniteCalculation
  | RoundedCoordinateOverflow.

(** [validate_duration], [validate_sample_rate]. *)
Definition validate_duration (duration_ms : N) : result unit MotionPlanError :=
  ensure (MAX_MOTION_DURATION_MS < duration_ms) DurationLimitExceeded.

Definition validate_sample_rate (sample_rate_hz : N) : result unit MotionPlanError :=
  ensure (~ (MIN_SAMPLE_RATE_HZ <= sample_rate_hz <= MAX_SAMPLE_RATE_HZ))
    (SampleRateOutOfRange sample_rate_hz).

(** [MotionPolicy]. *)
Module MotionPolicy.
Record t := mk {
  sample_rate_hz : N;
  nominal_speed_px_per_second : N;
  minimum_duration_ms : N;
  maximum_duration_ms : N;
}.

(** [MotionPolicy::new]. *)
Definition new (sample_rate_hz nominal_speed minimum_ms maximum_ms : N) :
    result t MotionPlanError :=
  try! validate_sample_rate sample_rate_hz in
  try! ensure (nominal_speed = 0) NominalSpeedMustBePositive in
  try! validate_duration minimum_ms in
  try! validate_duration maximum_ms in
  try! ensure (maximum_ms < minimum_ms) (AutomaticDurationRangeInvalid minimum_ms maximum_ms) in
  Ok (mk sample_rate_hz nominal_speed minimum_ms maximum_ms).

(** [MotionPolicy::default]. *)
Definition default : t :=
  mk DEFAULT_SAMPLE_RATE_HZ DEFAULT_NOMINAL_POINTER_SPEED_PX_PER_SECOND
    DEFAULT_MIN_AUTOMATIC_DURATION_MS DEFAULT_MAX_AUTOMATIC_DURATION_MS.
End MotionPolicy.

(** [MotionCurve]. *)
Inductive MotionCurve := Instant | Linear | Smooth.

#[export] Instance motion_curve_eq_dec : EqDecision MotionCurve.
Proof. solve_decision. Defined.

(** [MotionOptions]. *)
Module MotionOptions.
Record t := mk {
  curve : MotionCurve;
  duration_ms : option N;
  policy : MotionPolicy.t;
  emit_noop : bool;
}.

(** [MotionOptions::new]. *)
Definition new (curve : MotionCurve) (duration_ms : option N) (policy : MotionPolicy.t)
    (emit_noop : bool) : result t MotionPlanError :=
  try! validate_sample_rate (MotionPolicy.sample_rate_hz policy) in
  try! match duration_ms with
       | Some duration_ms =>
           try! validate_duration duration_ms in
           ensure (curve = Instant /\ duration_ms <> 0) InstantDurationMustBeZero
       | None => Ok tt
       end in
  Ok (mk curve duration_ms policy emit_noop).

(** [MotionOptions::interpolated]. *)
Definition interpolated (curve : MotionCurve) : result t MotionPlanError :=
  try! ensure (curve = Instant) ExpectedInterpolatedCurve in
  new curve None MotionPolicy.default false.

(** [MotionOptions::instant]. *)
Definition instant (emit_noop : bool) : t := mk Instant None MotionPolicy.default emit_noop.
End MotionOptions.

(** [MotionSample]. *)
Module MotionSample.
Record t := mk { point : RootPoint; delay_ms : N }.
End MotionSample.

(** [MotionPlan]; a range of [segment_ranges] is the pair of its bounds. *)
Module MotionPlan.
Record t := mk {
  start : RootPoint;
  endpoint : RootPoint;
  duration_ms : N;
  raw_sample_count : N;
  samples : list MotionSample.t;
  segment_ranges : list (N * N);
}.

(** [MotionPlan::event_count], [MotionPlan::segments]. *)
Definition event_count (self : t) : N := len (samples self).

Definition segments (self : t) : list (list MotionSample.t) :=
  map (fun range : N * N =>
         take (N.to_nat (range.2 - range.1)) (drop (N.to_nat range.1) (samples self)))
    (segment_ranges self).
End MotionPlan.

(** [WaypointDurationPolicy]. *)
Inductive WaypointDurationPolicy :=
  | PerSegment (durations : list N)
  | Total (total_ms : N)
  | Automatic (clamp_path_to_limit : bool).

#[export] Instance root_point_eq_dec : EqDecision RootPoint.
Proof.
  assert (EqDecision Point.t) by solve_decision. solve_decision.
Defined.

(** [slice::windows(2)]. *)
Fixpoint windows2 {A} (l : list A) : list (A * A) :=
  match l with
  | x :: (y :: _) as tail => (x, y) :: windows2 tail
  | _ => []
  end.

(** ** One segment *)

(** [round_ties_away]. *)
Definition round_ties_away (value : f64) : result Z MotionPlanError :=
  try! ensure (F64.is_finite value = false) NonFiniteCalculation in
  let rounded :=
    if F64.is_sign_negative value then F64.ceil (F64.sub value F64.half)
    else F64.floor (F64.add value F64.half) in
  try! ensure (F64.lt rounded (F64.of_Z (- 2 ^ 31)%Z) = true \/
               F64.lt (F64.of_Z (2 ^ 31 - 1)%Z) rounded = true) RoundedCoordinateOverflow in
  Ok (F64.as_i32 rounded).

(** [interpolate_point]; [index] and [sample_count] are within [u32] for every caller. *)
Definition interpolate_point (start endpoint : RootPoint) (curve : MotionCurve)
    (index sample_count : N) : result RootPoint MotionPlanError :=
  if decide (index = sample_count \/ curve = Instant) then Ok endpoint
  else
    try! ensure (u32_max < index) (MotionEventLimitExceeded MAX_MOTION_EVENTS) in
    try! ensure (u32_max < sample_count) (MotionEventLimitExceeded MAX_MOTION_EVENTS) in
    let t := F64.div (F64.of_Z (Z.of_N index)) (F64.of_Z (Z.of_N sample_count)) in
    let eased :=
      match curve with
      | Instant | Linear => t
      | Smooth => F64.mul (F64.mul t t) (F64.sub (F64.of_Z 3) (F64.mul (F64.of_Z 2) t))
      end in
    let along (a b : Z) :=
      F64.add (F64.of_Z a) (F64.mul eased (F64.sub (F64.of_Z b) (F64.of_Z a))) in
    let? x := round_ties_away (along (RootPoint.x start) (RootPoint.x endpoint)) in
    let? y := round_ties_away (along (RootPoint.y start) (RootPoint.y endpoint)) in
    match RootPoint.new x y with
    | Ok p => Ok p
    | Err _ => Err RoundedCoordinateOverflow
    end.

(** [u64::div_ceil]. *)
Definition div_ceil (n d : N) : N := (n + d - 1) / d.

(** [sample_count]. *)
Definition sample_count (duration_ms sample_rate_hz : N) : result N MotionPlanError :=
  try! validate_duration duration_ms in
  try! validate_sample_rate sample_rate_hz in
  let count := N.max (div_ceil (duration_ms * sample_rate_hz) 1000) 1 in
  try! ensure (u32_max < count) (MotionEventLimitExceeded MAX_MOTION_EVENTS) in
  Ok count.

(** The local variables of the sampling loop of [plan_segment]. *)
Module Sampling.
Record t := mk {
  samples : list MotionSample.t;
  previous_point : RootPoint;
  previous_cumulative : N;
  pending_delay : N;
}.
End Sampling.

(** The rounded share of the duration at the end of sample [index]. *)
Definition cumulative_at (duration_ms raw_sample_count index : N) : result N MotionPlanError :=
  if decide (index = raw_sample_count) then Ok duration_ms
  else
    let cumulative := (index * duration_ms + raw_sample_count / 2) / raw_sample_count in
    try! ensure (u32_max < cumulative) DurationLimitExceeded in
    Ok cumulative.

(** The body of the sampling loop. *)
Definition sample_step (start endpoint : RootPoint) (curve : MotionCurve)
    (duration_ms raw_sample_count : N) (st : Sampling.t) (index : N) :
    result Sampling.t MotionPlanError :=
  let? cumulative := cumulative_at duration_ms raw_sample_count index in
  let? delay_ms := ok_or (checked_sub_u64 cumulative (Sampling.previous_cumulative st))
                     DurationLimitExceeded in
  let? pending_delay := ok_or (checked_add_u32 (Sampling.pending_delay st) delay_ms)
                          DurationLimitExceeded in
  let? point := interpolate_point start endpoint curve index raw_sample_count in
  if decide (point <> Sampling.previous_point st \/ index = raw_sample_count) then
    Ok (Sampling.mk (Sampling.samples st ++ [MotionSample.mk point pending_delay]) point
          cumulative 0)
  else
    Ok (Sampling.mk (Sampling.samples st) (Sampling.previous_point st) cumulative
          pending_delay).

(** [1..=n]. *)
Definition one_to (n : N) : list N := map N.of_nat (seq 1 (N.to_nat n)).

(** [plan_segment]. *)
Definition plan_segment (start endpoint : RootPoint) (options : MotionOptions.t)
    (duration_ms : N) : result MotionPlan.t MotionPlanError :=
  try! validate_duration duration_ms in
  if decide (start = endpoint /\ MotionOptions.emit_noop options = false) then
    Ok (MotionPlan.mk start endpoint 0 0 [] [])
  else
    let? raw_sample_count :=
      if decide (MotionOptions.curve options = Instant) then Ok 1
      else sample_count duration_ms (MotionPolicy.sample_rate_hz (MotionOptions.policy options)) in
    try! ensure (MAX_MOTION_EVENTS < raw_sample_count)
           (MotionEventLimitExceeded MAX_MOTION_EVENTS) in
    let? sampled :=
      try_fold
        (sample_step start endpoint (MotionOptions.curve options) duration_ms raw_sample_count)
        (Sampling.mk [] start 0 0) (one_to raw_sample_count) in
    let samples := Sampling.samples sampled in
    try! ensure (MAX_MOTION_EVENTS < len samples)
           (MotionEventLimitExceeded MAX_MOTION_EVENTS) in
    Ok (MotionPlan.mk start endpoint duration_ms raw_sample_count samples [(0, len samples)]).

(** ** Automatic durations, and paths through waypoints *)
Module MotionPlanner.
Section Planner.
  Context (hypot : f64 -> f64 -> f64).

(** The distance of two points, [dx.hypot(dy)]. *)
Definition distance (start endpoint : RootPoint) : f64 :=
  hypot (F64.sub (F64.of_Z (RootPoint.x endpoint)) (F64.of_Z (RootPoint.x start)))
        (F64.sub (F64.of_Z (RootPoint.y endpoint)) (F64.of_Z (RootPoint.y start))).

(** [automatic_duration]. *)
Definition automatic_duration (start endpoint : RootPoint) (policy : MotionPolicy.t) : N :=
  let d := distance start endpoint in
  if F64.eq d F64.zero then 0
  else
    let duration :=
      F64.round (F64.div (F64.mul (F64.of_Z 1000) d)
                  (F64.of_Z (Z.of_N (MotionPolicy.nominal_speed_px_per_second policy)))) in
    let duration := Z.to_N (F64.as_u32 duration) in
    let low := MotionPolicy.minimum_duration_ms policy in
    let high := MotionPolicy.maximum_duration_ms policy in
    if decide (duration < low) then low else if decide (high < duration) then high else duration.

(** [plan_motion]. *)
Definition plan_motion (start endpoint : RootPoint) (options : MotionOptions.t) :
    result MotionPlan.t MotionPlanError :=
  try! validate_sample_rate (MotionPolicy.sample_rate_hz (MotionOptions.policy options)) in
  if decide (MotionOptions.curve options = Instant) then
    try! ensure (default 0 (MotionOptions.duration_ms options) <> 0) InstantDurationMustBeZero in
    plan_segment start endpoint options 0
  else
    let? duration_ms :=
      match MotionOptions.duration_ms options with
      | Some duration_ms => try! validate_duration duration_ms in Ok duration_ms
      | None => Ok (automatic_duration start endpoint (MotionOptions.policy options))
      end in
    plan_segment start endpoint options duration_ms.

(** [validate_durations]. *)
Definition validate_durations (durations : list N) : result unit MotionPlanError :=
  let? total :=
    try_fold (fun sum duration =>
        try! validate_duration duration in
        ok_or (checked_add_u32 sum duration) DurationLimitExceeded) 0 durations in
  validate_duration total.

(** One iteration of the loop of [proportional_durations]; the state is the result so
    far, the cumulative distance and the previous cumulative duration. *)
Definition proportional_step (total_ms segment_count : N) (total_distance : f64)
    (st : list N * f64 * N) (indexed : N * f64) : result (list N * f64 * N) MotionPlanError :=
  let '(result, cumulative_distance, previous_cumulative) := st in
  let '(index, distance) := indexed in
  let cumulative_distance := F64.add cumulative_distance distance in
  let? cumulative :=
    if decide (index + 1 = segment_count) then Ok total_ms
    else
      let scaled := F64.div (F64.mul (F64.of_Z (Z.of_N total_ms)) cumulative_distance)
                      total_distance in
      let? rounded := round_ties_away scaled in
      try! ensure (rounded < 0)%Z DurationLimitExceeded in
      Ok (Z.to_N rounded) in
  let? duration := ok_or (checked_sub_u64 cumulative previous_cumulative) DurationLimitExceeded in
  Ok (result ++ [duration], cumulative_distance, cumulative).

(** [l.iter().enumerate()]. *)
Definition enumerate {A} (l : list A) : list (N * A) :=
  zip (map N.of_nat (seq 0 (length l))) l.

(** [*last = value], where there is a last element. *)
Fixpoint set_last (value : N) (l : list N) : list N :=
  match l with
  | [] => []
  | [_] => [value]
  | x :: tail => x :: set_last value tail
  end.

(** [proportional_durations]. *)
Definition proportional_durations (points : list RootPoint) (total_ms : N) :
    result (list N) MotionPlanError :=
  let distances := map (fun segment => distance segment.1 segment.2) (windows2 points) in
  let total_distance := fold_left F64.add distances F64.zero in
  if F64.eq total_distance F64.zero then
    Ok (set_last total_ms (replicate (length distances) 0))
  else
    let? folded := try_fold (proportional_step total_ms (len distances) total_distance)
                     ([], F64.zero, 0) (enumerate distances) in
    Ok folded.1.1.

(** [allocate_durations]. *)
Definition allocate_durations (points : list RootPoint) (policy : WaypointDurationPolicy)
    (motion_policy : MotionPolicy.t) : result (list N) MotionPlanError :=
  let segment_count := len points - 1 in
  match policy with
  | PerSegment durations =>
      try! ensure (len durations <> segment_count)
             (SegmentDurationCount segment_count (len durations)) in
      try! validate_durations durations in
      Ok durations
  | Total total_ms =>
      try! validate_duration total_ms in
      proportional_durations points total_ms
  | Automatic clamp_path_to_limit =>
      let durations :=
        map (fun segment => automatic_duration segment.1 segment.2 motion_policy)
          (windows2 points) in
      let? total :=
        try_fold (fun sum duration => ok_or (checked_add_u32 sum duration) DurationLimitExceeded)
          0 durations in
      if decide (total <= MAX_MOTION_DURATION_MS) then Ok durations
      else
        try! ensure (clamp_path_to_limit = false) DurationLimitExceeded in
        proportional_durations points MAX_MOTION_DURATION_MS
  end.

(** [allocate_instant_durations]. *)
Definition allocate_instant_durations (segment_count : N) (policy : WaypointDurationPolicy) :
    result (list N) MotionPlanError :=
  match policy with
  | Automatic _ | Total 0 => Ok (replicate (N.to_nat segment_count) 0)
  | Total _ => Err InstantDurationMustBeZero
  | PerSegment durations =>
      try! ensure (len durations <> segment_count)
             (SegmentDurationCount segment_count (len durations)) in
      try! ensure (Exists (fun duration => duration <> 0) durations) InstantDurationMustBeZero in
      Ok durations
  end.

(** The normalized path: consecutive duplicates are dropped. *)
Definition normalize (start : RootPoint) (waypoints : list RootPoint) : list RootPoint :=
  fold_left (fun points point =>
      if decide (list.last points = Some point) then points else points ++ [point])
    waypoints [start].

(** The local variables of the loop over the segments. *)
Record Assembly := mkAssembly {
  assembled : list MotionSample.t;
  ranges : list (N * N);
  raw_count : N;
  total_duration : N;
}.

(** The body of that loop.  The points of segment [index] are [points[index]] and
    [points[index + 1]]: the pair of the window that is zipped with its duration. *)
Definition segment_step (curve : MotionCurve) (policy : MotionPolicy.t)
    (emit_final_noop : bool) (segment_count : N) (st : Assembly)
    (indexed : N * (RootPoint * RootPoint * N)) : result Assembly MotionPlanError :=
  let '(index, (segment_start, segment_end, duration_ms)) := indexed in
  let? options :=
    MotionOptions.new curve (Some duration_ms) policy
      (emit_final_noop && bool_decide (index + 1 = segment_count) &&
       bool_decide (segment_start = segment_end)) in
  let? segment := plan_motion segment_start segment_end options in
  let? total_duration_ms :=
    ok_or (checked_add_u32 (total_duration st) (MotionPlan.duration_ms segment))
      DurationLimitExceeded in
  let? raw_sample_count :=
    ok_or (checked_add_u64 (raw_count st) (MotionPlan.raw_sample_count segment))
      (MotionEventLimitExceeded MAX_MOTION_EVENTS) in
  try! ensure (MAX_MOTION_EVENTS < len (assembled st) + len (MotionPlan.samples segment))
         (MotionEventLimitExceeded MAX_MOTION_EVENTS) in
  let samples := assembled st ++ MotionPlan.samples segment in
  Ok (mkAssembly samples (ranges st ++ [(len (assembled st), len samples)])
        raw_sample_count total_duration_ms).

(** [plan_waypoint_motion]. *)
Definition plan_waypoint_motion (start : RootPoint) (waypoints : list RootPoint)
    (curve : MotionCurve) (policy : MotionPolicy.t) (emit_final_noop : bool)
    (duration_policy : WaypointDurationPolicy) : result MotionPlan.t MotionPlanError :=
  try! ensure (waypoints = [] \/ MAX_WAYPOINTS < len waypoints)
         (WaypointCount (len waypoints)) in
  try! validate_sample_rate (MotionPolicy.sample_rate_hz policy) in
  let? requested_end := ok_or (list.last waypoints) (WaypointCount 0) in
  let points := normalize start waypoints in
  let nonzero_segment_count := len points - 1 in
  let? durations :=
    if decide (curve = Instant) then
      allocate_instant_durations nonzero_segment_count duration_policy
    else allocate_durations points duration_policy policy in
  try! ensure (len durations <> nonzero_segment_count)
         (SegmentDurationCount nonzero_segment_count (len durations)) in
  let points := if emit_final_noop then points ++ [requested_end] else points in
  let durations := if emit_final_noop then durations ++ [0] else durations in
  let segment_count := len points - 1 in
  if decide (segment_count = 0) then Ok (MotionPlan.mk start requested_end 0 0 [] [])
  else
    let? assembly :=
      try_fold (segment_step curve policy emit_final_noop segment_count)
        (mkAssembly [] [] 0 0) (enumerate (zip (windows2 points) durations)) in
    try! validate_duration (total_duration assembly) in
    Ok (MotionPlan.mk start requested_end (total_duration assembly) (raw_count assembly)
          (assembled assembly) (ranges assembly)).

End Planner.
End MotionPlanner.

(** ** Lemmas: the sampling of one segment *)
Module MotionFacts.
Import MotionPlanner.

(** The total delay of a list of samples, and the position after them. *)
Definition total_delay (samples : list MotionSample.t) : N :=
  sum_N (map MotionSample.delay_ms samples).

(** Every sample moves the pointer away from where it was. *)
Fixpoint moving (from : RootPoint) (samples : list MotionSample.t) : Prop :=
  match samples with
  | [] => True
  | s :: samples => MotionSample.point s <> from /\ moving (MotionSample.point s) samples
  end.

Definition position (start : RootPoint) (samples : list MotionSample.t) : RootPoint :=
  default start (MotionSample.point <$> list.last samples).

Lemma total_delay_app l k : total_delay (l ++ k) = total_delay l + total_delay k.
Proof. unfold total_delay. rewrite map_app. apply sum_N_app. Qed.

Lemma position_snoc start l s : position start (l ++ [s]) = MotionSample.point s.
Proof. unfold position. by rewrite last_snoc. Qed.

Lemma moving_snoc start l s :
  moving start (l ++ [s]) <-> moving start l /\ MotionSample.point s <> position start l.
Proof.
  revert start. induction l as [| a l IH]; intros start; simpl; [naive_solver |].
  rewrite IH. unfold position at 2. destruct l as [| b l]; [naive_solver |].
  rewrite last_cons_cons. unfold position.
  destruct (list.last (b :: l)) eqn:Hl; [naive_solver |]. by apply last_None in Hl.
Qed.

Lemma one_to_lookup n i x :
  one_to n !! i = Some x -> x = N.of_nat i + 1 /\ x <= n.
Proof.
  unfold one_to. rewrite list_lookup_fmap. intros H.
  apply fmap_Some in H as (j & Hj & ->). apply lookup_seq in Hj as [-> Hlt]. lia.
Qed.

Lemma one_to_split n done x rest :
  one_to n = done ++ x :: rest -> x = len done + 1 /\ x <= n.
Proof.
  intros H. apply (one_to_lookup n (length done)). rewrite H. by apply list_lookup_middle.
Qed.

Lemma one_to_len n : len (one_to n) = n.
Proof. unfold one_to, len. rewrite length_map, length_seq. lia. Qed.

(** The share of the duration elapsed at the end of sample [k]. *)
Definition elapsed_at (duration n k : N) : N :=
  if decide (k = n) then duration else (k * duration + n / 2) / n.

Lemma elapsed_at_0 duration n : 1 <= n -> elapsed_at duration n 0 = 0.
Proof.
  intros Hn. unfold elapsed_at. rewrite decide_False by lia.
  apply N.div_small. assert (n / 2 < n) by (apply N.div_lt; lia). lia.
Qed.

Lemma elapsed_at_mono duration n k :
  k < n -> elapsed_at duration n k <= elapsed_at duration n (k + 1) <= duration.
Proof.
  intros Hk. assert (n / 2 < n) by (apply N.div_lt; lia).
  assert (forall j, j < n -> (j * duration + n / 2) / n <= duration) as Hle.
  { intros j Hj. apply N.lt_succ_r, N.Div0.div_lt_upper_bound. nia. }
  unfold elapsed_at. rewrite (decide_False (P := k = n)) by lia.
  case_decide; (split; [| try apply Hle; lia]).
  - by apply Hle.
  - apply N.Div0.div_le_mono. nia.
Qed.

Lemma cumulative_at_elapsed duration n k :
  duration <= MAX_MOTION_DURATION_MS -> 1 <= n -> k <= n ->
  cumulative_at duration n k = Ok (elapsed_at duration n k).
Proof.
  unfold MAX_MOTION_DURATION_MS. intros Hd Hn Hk. unfold cumulative_at, elapsed_at.
  case_decide; [done |]. unfold ensure, u32_max. rewrite decide_False; [done |].
  pose proof (elapsed_at_mono duration n k ltac:(lia)) as Hm. unfold elapsed_at in Hm.
  rewrite (decide_False (P := k = n)) in Hm by done. lia.
Qed.

(** What holds of the sampling loop after the samples [done]. *)
Definition sampled (start endpoint : RootPoint) (duration n : N) (done : list N)
    (st : Sampling.t) : Prop :=
  len (Sampling.samples st) <= len done /\
  Sampling.previous_cumulative st = elapsed_at duration n (len done) /\
  total_delay (Sampling.samples st) + Sampling.pending_delay st =
    Sampling.previous_cumulative st /\
  if decide (len done = n) then
    Sampling.pending_delay st = 0 /\
    exists body final, Sampling.samples st = body ++ [final] /\
      MotionSample.point final = endpoint /\ moving start body
  else
    moving start (Sampling.samples st) /\
    Sampling.previous_point st = position start (Sampling.samples st).

Lemma interpolate_last start endpoint curve n :
  interpolate_point start endpoint curve n n = Ok endpoint.
Proof. unfold interpolate_point. by rewrite decide_True by (by left). Qed.

(** A sample fails only where its point cannot be computed. *)
Lemma sample_step_cases start endpoint curve duration n done x rest st :
  duration <= MAX_MOTION_DURATION_MS -> 1 <= n ->
  one_to n = done ++ x :: rest -> sampled start endpoint duration n done st ->
  match sample_step start endpoint curve duration n st x with
  | Ok st' => sampled start endpoint duration n (done ++ [x]) st'
  | Err e => interpolate_point start endpoint curve x n = Err e
  end.
Proof.
  intros Hd Hn Hsplit (Hlen & Hprev & Hsum & Hcase).
  destruct (one_to_split _ _ _ _ Hsplit) as [Hx Hle].
  rewrite decide_False in Hcase by lia. destruct Hcase as (Hmove & Hpos).
  pose proof (elapsed_at_mono duration n (len done) ltac:(lia)) as Hmono.
  unfold sample_step. rewrite (cumulative_at_elapsed duration n x) by lia. simpl.
  assert (len done + 1 = x) as Hx' by lia. rewrite Hx' in Hmono.
  rewrite Hprev in *. unfold checked_sub_u64. rewrite decide_True by lia. simpl.
  unfold checked_add_u32, u32_max, MAX_MOTION_DURATION_MS in *.
  rewrite decide_True by lia. simpl.
  destruct (interpolate_point start endpoint curve x n) as [point | e] eqn:Hpoint; [| done].
  assert (len (done ++ [x]) = x) as Hdone by (unfold len in *; rewrite length_app; simpl; lia).
  simpl. unfold sampled. rewrite Hdone. case_decide as Hkeep; simpl.
  - rewrite total_delay_app, !len_app, len_cons, len_nil.
    unfold total_delay at 2. simpl. split_and!; [lia | done | lia |].
    case_decide as Hlast.
    + split; [done |]. exists (Sampling.samples st), (MotionSample.mk point
        (Sampling.pending_delay st + (elapsed_at duration n x - elapsed_at duration n (len done)))).
      split; [done |]. split; [| done]. simpl. rewrite Hlast in Hpoint.
      rewrite interpolate_last in Hpoint. congruence.
    + destruct Hkeep as [Hne |]; [| done]. rewrite position_snoc. split; [| done].
      apply moving_snoc. simpl. by rewrite <- Hpos.
  - rewrite decide_False by tauto. split_and!; try lia; done.
Qed.

Lemma sampling_cases start endpoint curve duration n :
  duration <= MAX_MOTION_DURATION_MS -> 1 <= n ->
  match try_fold (sample_step start endpoint curve duration n) (Sampling.mk [] start 0 0)
          (one_to n) with
  | Ok st => sampled start endpoint duration n (one_to n) st
  | Err e => exists x, x <= n /\ interpolate_point start endpoint curve x n = Err e
  end.
Proof.
  intros Hd Hn.
  pose proof (try_fold_cases (sample_step start endpoint curve duration n)
    (sampled start endpoint duration n) (Sampling.mk [] start 0 0) (one_to n)) as H.
  destruct (try_fold _ _ _) as [st | e]; [apply H | destruct H as (done & x & rest & st & Hs & Hp & He)].
  1, 3: unfold sampled; simpl; rewrite elapsed_at_0, decide_False by (done || (unfold len; simpl; lia));
    split_and!; done.
  - intros done x rest acc acc' Hs Hp Hf.
    pose proof (sample_step_cases start endpoint curve _ _ _ _ _ _ Hd Hn Hs Hp) as Hc.
    by rewrite Hf in Hc.
  - intros done x rest acc acc' Hs Hp Hf.
    pose proof (sample_step_cases start endpoint curve _ _ _ _ _ _ Hd Hn Hs Hp) as Hc.
    by rewrite Hf in Hc.
  - exists x. split; [by eapply one_to_split |]. pose proof (sample_step_cases start endpoint curve _ _ _ _ _ _ Hd Hn Hs Hp) as Hc.
    by rewrite He in Hc.
Qed.

(** *** One segment *)

(** A plan whose delays add up to its duration, within the limits, which moves at every
    sample but perhaps the last and ends at its end point. *)
Definition exactly_timed (plan : MotionPlan.t) : Prop :=
  let samples := MotionPlan.samples plan in
  total_delay samples = MotionPlan.duration_ms plan /\
  MotionPlan.duration_ms plan <= MAX_MOTION_DURATION_MS /\
  len samples <= MotionPlan.raw_sample_count plan <= MAX_MOTION_EVENTS /\
  (samples = [] \/ exists body final, samples = body ++ [final] /\
     MotionSample.point final = MotionPlan.endpoint plan /\
     moving (MotionPlan.start plan) body).

(** The failures of the curve's computation. *)
Definition curve_error (e : MotionPlanError) : Prop :=
  e = NonFiniteCalculation \/ e = RoundedCoordinateOverflow.

Lemma round_ties_away_Err v e : round_ties_away v = Err e -> curve_error e.
Proof.
  unfold round_ties_away, curve_error. rewrite and_then_Err.
  intros [H | (u & _ & H)]; [apply ensure_Err in H; naive_solver |].
  apply and_then_Err in H as [H | (u' & _ & H)]; [apply ensure_Err in H; naive_solver | done].
Qed.

Lemma interpolate_point_Err start endpoint curve x n e :
  x <= n -> n <= MAX_MOTION_EVENTS ->
  interpolate_point start endpoint curve x n = Err e -> curve_error e.
Proof.
  unfold MAX_MOTION_EVENTS, interpolate_point. intros Hx Hn. case_decide; [done |].
  rewrite (ensure_pass (u32_max < x)) by (unfold u32_max; lia).
  rewrite (ensure_pass (u32_max < n)) by (unfold u32_max; lia). simpl.
  rewrite and_then_Err. intros [H1 | (a & _ & H1)]; [by eapply round_ties_away_Err |].
  apply and_then_Err in H1 as [H1 | (b & _ & H1)]; [by eapply round_ties_away_Err |].
  destruct (RootPoint.new a b); [done |]. injection H1 as <-. by right.
Qed.

Lemma sample_count_Ok duration rate n :
  sample_count duration rate = Ok n ->
  duration <= MAX_MOTION_DURATION_MS /\ 1 <= n <= MAX_MOTION_EVENTS.
Proof.
  unfold sample_count, validate_duration, validate_sample_rate, MAX_MOTION_DURATION_MS,
    MAX_MOTION_EVENTS, MIN_SAMPLE_RATE_HZ, MAX_SAMPLE_RATE_HZ.
  intros H. apply and_then_Ok in H as (? & Hd & H). apply ensure_Ok in Hd.
  apply and_then_Ok in H as (? & Hr & H). apply ensure_Ok in Hr.
  apply and_then_Ok in H as (? & _ & [= <-]). split; [lia |]. unfold div_ceil.
  assert (rate <= 240) by (destruct (decide (1 <= rate <= 240)); [lia | done]).
  assert ((duration * rate + 1000 - 1) / 1000 <= 2400) by
    (apply N.lt_succ_r, N.Div0.div_lt_upper_bound; nia). lia.
Qed.

Lemma sample_count_total duration rate :
  duration <= MAX_MOTION_DURATION_MS -> MIN_SAMPLE_RATE_HZ <= rate <= MAX_SAMPLE_RATE_HZ ->
  exists n, sample_count duration rate = Ok n.
Proof.
  unfold MAX_MOTION_DURATION_MS, MIN_SAMPLE_RATE_HZ, MAX_SAMPLE_RATE_HZ. intros Hd Hr.
  unfold sample_count, validate_duration, validate_sample_rate,
    MAX_MOTION_DURATION_MS, MIN_SAMPLE_RATE_HZ, MAX_SAMPLE_RATE_HZ.
  rewrite ensure_pass by lia. simpl. rewrite ensure_pass by tauto. simpl.
  assert ((duration * rate + 1000 - 1) / 1000 <= 2400) by
    (apply N.lt_succ_r, N.Div0.div_lt_upper_bound; nia).
  rewrite ensure_pass by (unfold div_ceil, u32_max; lia). eauto.
Qed.

Lemma plan_segment_cases start endpoint options duration :
  duration <= MAX_MOTION_DURATION_MS ->
  (MotionOptions.curve options <> Instant ->
   MIN_SAMPLE_RATE_HZ <= MotionPolicy.sample_rate_hz (MotionOptions.policy options)
     <= MAX_SAMPLE_RATE_HZ) ->
  match plan_segment start endpoint options duration with
  | Ok plan =>
      exactly_timed plan /\ MotionPlan.start plan = start /\ MotionPlan.endpoint plan = endpoint /\
      if decide (start = endpoint /\ MotionOptions.emit_noop options = false)
      then plan = MotionPlan.mk start endpoint 0 0 [] []
      else MotionPlan.duration_ms plan = duration /\ MotionPlan.samples plan <> [] /\
           MotionPlan.segment_ranges plan = [(0, len (MotionPlan.samples plan))]
  | Err e => MotionOptions.curve options <> Instant /\ curve_error e
  end.
Proof.
  intros Hd Hr. unfold plan_segment, validate_duration.
  rewrite (ensure_pass (_ < duration)) by lia. simpl. case_decide as Hnoop.
  { unfold exactly_timed. simpl. unfold MAX_MOTION_EVENTS, len. simpl.
    split_and!; try done; try lia. by left. }
  set (count := if decide _ then Ok 1 else _).
  assert (exists n, count = Ok n /\ 1 <= n <= MAX_MOTION_EVENTS) as (n & -> & Hn).
  { subst count. case_decide as Hc; [exists 1; unfold MAX_MOTION_EVENTS; split; [done | lia] |].
    destruct (sample_count_total duration _ Hd (Hr Hc)) as [n Hn]. exists n.
    rewrite Hn. split; [done |]. by apply sample_count_Ok in Hn as [_ ?]. }
  simpl. rewrite (ensure_pass (_ < n)) by lia. simpl.
  pose proof (sampling_cases start endpoint (MotionOptions.curve options) duration n Hd ltac:(lia))
    as Hs.
  destruct (try_fold _ _ _) as [st | e]; simpl.
  - destruct Hs as (Hlen & Hprev & Hsum & Hcase). rewrite one_to_len in *.
    rewrite decide_True in Hcase by done. destruct Hcase as (Hpend & body & final & Hb & Hf & Hm).
    rewrite (ensure_pass (_ < len _)) by lia. simpl.
    unfold exactly_timed. simpl.
    unfold elapsed_at in Hprev. rewrite decide_True in Hprev by done.
    split_and!; try done; try lia; [by right; exists body, final |].
    rewrite Hb. by destruct body.
  - destruct Hs as (x & Hle & Hx). destruct (decide (MotionOptions.curve options = Instant)) as [Hi | Hi].
    { unfold interpolate_point in Hx. by rewrite decide_True in Hx by (by right). }
    split; [done |]. eapply interpolate_point_Err; [exact Hle | | exact Hx]. lia.
Qed.

(** *** Automatic and proportional durations *)
Section Planner.
  Context (hypot : f64 -> f64 -> f64).

Definition policy_ok (policy : MotionPolicy.t) : Prop :=
  MIN_SAMPLE_RATE_HZ <= MotionPolicy.sample_rate_hz policy <= MAX_SAMPLE_RATE_HZ /\
  MotionPolicy.minimum_duration_ms policy <= MotionPolicy.maximum_duration_ms policy
    <= MAX_MOTION_DURATION_MS.

Lemma policy_new_ok rate speed low high policy :
  MotionPolicy.new rate speed low high = Ok policy -> policy_ok policy.
Proof.
  unfold MotionPolicy.new, validate_sample_rate, validate_duration, policy_ok.
  intros H. apply and_then_Ok in H as (? & Hr & H). apply ensure_Ok in Hr.
  apply and_then_Ok in H as (? & _ & H).
  apply and_then_Ok in H as (? & _ & H). apply and_then_Ok in H as (? & Hh & H).
  apply ensure_Ok in Hh. apply and_then_Ok in H as (? & Hm & [= <-]). apply ensure_Ok in Hm.
  simpl. split; [| lia]. by destruct (decide (MIN_SAMPLE_RATE_HZ <= rate <= MAX_SAMPLE_RATE_HZ)).
Qed.

Lemma automatic_duration_le start endpoint policy :
  policy_ok policy ->
  automatic_duration hypot start endpoint policy <= MotionPolicy.maximum_duration_ms policy.
Proof. intros [_ Hp]. unfold automatic_duration. repeat case_match; lia. Qed.

Lemma sample_rate_valid rate u :
  validate_sample_rate rate = Ok u <-> MIN_SAMPLE_RATE_HZ <= rate <= MAX_SAMPLE_RATE_HZ.
Proof.
  unfold validate_sample_rate. rewrite ensure_Ok.
  destruct (decide (MIN_SAMPLE_RATE_HZ <= rate <= MAX_SAMPLE_RATE_HZ)); tauto.
Qed.

Lemma sum_N_replicate n : sum_N (replicate n 0) = 0.
Proof. induction n; simpl; [done | lia]. Qed.

Lemma set_last_sum value n :
  sum_N (set_last value (replicate (S n) 0)) = value /\
  length (set_last value (replicate (S n) 0)) = S n.
Proof.
  induction n as [| n [IH1 IH2]]; [by simpl; rewrite N.add_0_r |].
  change (set_last value (replicate (S (S n)) 0)) with (0 :: set_last value (replicate (S n) 0)).
  change (sum_N (0 :: set_last value (replicate (S n) 0)))
    with (0 + sum_N (set_last value (replicate (S n) 0))).
  by rewrite IH1, length_cons, IH2.
Qed.

Lemma enumerate_split {A} (l : list A) done x rest :
  enumerate l = done ++ x :: rest -> x.1 = len done /\ l !! length done = Some x.2.
Proof.
  intros H. assert (enumerate l !! length done = Some x) as Hx
    by (rewrite H; by apply list_lookup_middle).
  unfold enumerate in Hx. apply lookup_zip_with_Some in Hx as (i & a & -> & Hi & Ha).
  rewrite list_lookup_fmap in Hi. apply fmap_Some in Hi as (j & Hj & ->).
  apply lookup_seq in Hj as [-> _]. simpl. by unfold len.
Qed.

Lemma enumerate_len {A} (l : list A) : length (enumerate l) = length l.
Proof. unfold enumerate. rewrite length_zip_with, length_map, length_seq. lia. Qed.

(** The shares of a total add up to it. *)
Lemma proportional_sum points total durations :
  proportional_durations hypot points total = Ok durations ->
  windows2 points <> [] ->
  sum_N durations = total /\ length durations = length (windows2 points).
Proof.
  unfold proportional_durations. intros H Hne.
  set (ds := map _ (windows2 points)) in H.
  assert (length ds = length (windows2 points)) as Hds by (subst ds; apply length_map).
  assert (length ds <> O) as Hn by (rewrite Hds; by destruct (windows2 points)).
  case_match.
  - injection H as <-. rewrite <- Hds. destruct (length ds); [done |]. apply set_last_sum.
  - apply and_then_Ok in H as (folded & Hf & [= <-]).
    pose proof (try_fold_cases (proportional_step total (len ds) (fold_left F64.add ds F64.zero))
      (fun done st => sum_N st.1.1 = st.2 /\ length st.1.1 = length done /\
         (len done = len ds -> st.2 = total)) ([], F64.zero, 0) (enumerate ds)) as Hinv.
    rewrite Hf in Hinv. destruct Hinv as (Hs & Hl & Ht).
    + simpl. split_and!; try done. unfold len. simpl. lia.
    + intros done [i d] rest [[res cd] prev] st' Hsplit (Hs & Hl & _) Hstep. simpl in *.
      apply enumerate_split in Hsplit as [Hi _]. simpl in Hi. subst i.
      apply and_then_Ok in Hstep as (cumulative & Hc & Hstep).
      apply and_then_Ok in Hstep as (dur & Hdur & [= <-]). simpl.
      unfold checked_sub_u64 in Hdur. case_decide; simplify_eq/=.
      rewrite sum_N_app, !length_app. simpl. split_and!; [lia | lia |].
      intros Hlast. rewrite len_app, len_cons, len_nil in Hlast.
      rewrite decide_True in Hc by lia. congruence.
    + rewrite Hs, Hl, enumerate_len, <- Hds. split; [| done]. apply Ht.
      unfold len. by rewrite enumerate_len.
Qed.

(** *** Paths *)

Lemma windows2_length {A} (l : list A) : length (windows2 l) = pred (length l).
Proof. induction l as [| x [| y l] IH]; [done | done |]. simpl in *. lia. Qed.

Lemma windows2_snoc {A} (l : list A) x y :
  list.last l = Some x -> windows2 (l ++ [y]) = windows2 l ++ [(x, y)].
Proof.
  induction l as [| a [| b l] IH]; [done | by intros [= ->] |].
  rewrite last_cons_cons. intros H. specialize (IH H). simpl in *. by rewrite IH.
Qed.

Lemma windows2_snd {A} (l : list A) : (windows2 l).*2 = drop 1 l.
Proof.
  induction l as [| x [| y l] IH]; [done | done |].
  change (windows2 (x :: y :: l)) with ((x, y) :: windows2 (y :: l)).
  by rewrite fmap_cons, IH.
Qed.

(** Normalization keeps the ends of the path, and leaves no two equal neighbours. *)
Lemma normalize_spec start waypoints :
  exists tail, normalize start waypoints = start :: tail /\
    list.last (normalize start waypoints) = Some (default start (list.last waypoints)) /\
    Forall (fun w => w.1 <> w.2) (windows2 (normalize start waypoints)).
Proof.
  unfold normalize. induction waypoints as [| p ps IH] using rev_ind; [by exists [] |].
  rewrite fold_left_app, last_snoc. simpl. destruct IH as (tail & Hn & Hl & Hf).
  set (points := fold_left _ ps [start]) in *. clearbody points. subst points.
  case_decide as Hd; [rewrite Hd; by exists tail |].
  exists (tail ++ [p]). split_and!; [done | by rewrite last_snoc |].
  erewrite windows2_snoc by exact Hl. apply Forall_app. split; [done |]. constructor; [| constructor].
  simpl. congruence.
Qed.

Lemma plan_motion_cases start endpoint options :
  policy_ok (MotionOptions.policy options) ->
  (forall d, MotionOptions.duration_ms options = Some d ->
     d <= MAX_MOTION_DURATION_MS /\ (MotionOptions.curve options = Instant -> d = 0)) ->
  match plan_motion hypot start endpoint options with
  | Ok plan =>
      exactly_timed plan /\ MotionPlan.start plan = start /\ MotionPlan.endpoint plan = endpoint /\
      if decide (start = endpoint /\ MotionOptions.emit_noop options = false)
      then plan = MotionPlan.mk start endpoint 0 0 [] []
      else MotionPlan.samples plan <> [] /\
           MotionPlan.segment_ranges plan = [(0, len (MotionPlan.samples plan))] /\
           MotionPlan.duration_ms plan =
             match MotionOptions.curve options, MotionOptions.duration_ms options with
             | Instant, _ => 0
             | _, Some d => d
             | _, None => automatic_duration hypot start endpoint (MotionOptions.policy options)
             end
  | Err e => MotionOptions.curve options <> Instant /\ curve_error e
  end.
Proof.
  intros Hp Hd. unfold plan_motion. pose proof Hp as [Hrate Hdur].
  replace (validate_sample_rate _) with (@Ok unit MotionPlanError tt) by
    (symmetry; by apply sample_rate_valid). simpl.
  set (dur := match MotionOptions.curve options, MotionOptions.duration_ms options with
              | Instant, _ => 0 | _, Some d => d
              | _, None => automatic_duration hypot start endpoint (MotionOptions.policy options)
              end).
  assert (dur <= MAX_MOTION_DURATION_MS) as Hle.
  { subst dur. pose proof (automatic_duration_le start endpoint _ Hp).
    unfold MAX_MOTION_DURATION_MS in *.
    destruct (MotionOptions.curve options), (MotionOptions.duration_ms options) as [d |]; try lia;
      by apply Hd. }
  replace (if decide _ then _ else _) with (plan_segment start endpoint options dur).
  - pose proof (plan_segment_cases start endpoint options dur Hle (fun _ => Hrate)) as Hc.
    destruct (plan_segment _ _ _ _) as [plan | e]; [| done].
    destruct Hc as (? & ? & ? & Hc). split_and!; try done. case_decide; [done |].
    by destruct Hc as (? & ? & ?).
  - case_decide as Hi.
    + rewrite ensure_pass.
      * subst dur. by rewrite Hi.
      * destruct (MotionOptions.duration_ms options) as [d |]; simpl; [| lia].
        destruct (Hd d eq_refl) as [_ Hz]. specialize (Hz Hi). lia.
    + subst dur. destruct (MotionOptions.duration_ms options) as [d |]; simpl.
      * unfold validate_duration. rewrite ensure_pass by (destruct (Hd d eq_refl); lia). simpl.
        by destruct (MotionOptions.curve options).
      * by destruct (MotionOptions.curve options).
Qed.

(** The samples end at the point. *)
Definition ends_at (samples : list MotionSample.t) (point : RootPoint) : Prop :=
  exists final, list.last samples = Some final /\ MotionSample.point final = point.

(** What holds of the assembly of the segments [segs]. *)
Definition assembled_ok (segs : list (N * (RootPoint * RootPoint * N)))
    (st : Assembly) : Prop :=
  exists parts,
    assembled st = concat parts /\
    ranges st = zip_with (fun before part => (len (concat (take before parts)),
                                              len (concat (take before parts)) + len part))
                  (seq 0 (length parts)) parts /\
    Forall2 (fun seg part => ends_at part seg.2.1.2) segs parts /\
    total_delay (assembled st) = total_duration st /\
    total_duration st = sum_N (map (fun seg => seg.2.2) segs) /\
    len (assembled st) <= MAX_MOTION_EVENTS.

(** The ranges of the plan cut its samples into the parts it was assembled from. *)
Lemma slices_parts (parts : list (list MotionSample.t)) :
  map (fun range : N * N =>
         take (N.to_nat (range.2 - range.1)) (drop (N.to_nat range.1) (concat parts)))
    (zip_with (fun before part => (len (concat (take before parts)),
                                   len (concat (take before parts)) + len part))
       (seq 0 (length parts)) parts) = parts.
Proof.
  apply list_eq. intros i. rewrite list_lookup_fmap, lookup_zip_with.
  destruct (parts !! i) as [part |] eqn:Hi.
  - assert (i < length parts)%nat as Hlt by (by apply lookup_lt_Some in Hi).
    rewrite lookup_seq_lt by done. simpl. f_equal.
    assert (concat parts = concat (take i parts) ++ part ++ concat (drop (S i) parts)) as ->
      by (rewrite <- (take_drop_middle parts i part Hi) at 1; by rewrite concat_app).
    unfold len.
    rewrite !Nat2N.id, drop_app_length.
    replace (N.to_nat _) with (length part) by lia. by rewrite take_app_length.
  - assert (length parts <= i)%nat by (by apply lookup_ge_None).
    rewrite lookup_seq_ge by lia. done.
Qed.

Lemma options_new_Ok curve d policy noop options :
  MotionOptions.new curve (Some d) policy noop = Ok options ->
  options = MotionOptions.mk curve (Some d) policy noop /\
  d <= MAX_MOTION_DURATION_MS /\ (curve = Instant -> d = 0).
Proof.
  unfold MotionOptions.new, validate_duration. intros H. apply and_then_Ok in H as (? & _ & H).
  apply and_then_Ok in H as (u & H1 & [= <-]). apply and_then_Ok in H1 as (? & Hd & Hi).
  apply ensure_Ok in Hd. apply ensure_Ok in Hi. split_and!; [done | lia |].
  intros Hc. destruct (decide (d = 0)); tauto.
Qed.

Lemma assembled_snoc (parts : list (list MotionSample.t)) part :
  zip_with (fun before p => (len (concat (take before (parts ++ [part]))),
                             len (concat (take before (parts ++ [part]))) + len p))
    (seq 0 (length (parts ++ [part]))) (parts ++ [part]) =
  zip_with (fun before p => (len (concat (take before parts)),
                             len (concat (take before parts)) + len p))
    (seq 0 (length parts)) parts ++ [(len (concat parts), len (concat parts) + len part)].
Proof.
  rewrite length_app. simpl. rewrite seq_app. simpl.
  rewrite zip_with_app by (by rewrite length_seq). f_equal.
  - apply list_eq. intros i. rewrite !lookup_zip_with.
    destruct (parts !! i) as [p |] eqn:Hi; [| by destruct (seq 0 _ !! i)].
    assert (i < length parts)%nat by (by apply lookup_lt_Some in Hi).
    rewrite !lookup_seq_lt by done. simpl. by rewrite take_app_le by lia.
  - simpl. by rewrite take_app_length.
Qed.

(** One segment of a path whose segments move, or are the final diagnostic one. *)
Lemma segment_step_ok curve policy noop count segs st st' i a b d :
  policy_ok policy ->
  assembled_ok segs st ->
  a <> b \/ (noop = true /\ i + 1 = count /\ a = b) ->
  segment_step hypot curve policy noop count st (i, (a, b, d)) = Ok st' ->
  assembled_ok (segs ++ [(i, (a, b, d))]) st'.
Proof.
  intros Hp (parts & Has & Hr & Hends & Hsum & Htot & Hlen) Hmove H. unfold segment_step in H.
  apply and_then_Ok in H as (options & Ho & H). apply options_new_Ok in Ho as (-> & Hd & Hi).
  apply and_then_Ok in H as (plan & Hplan & H). apply and_then_Ok in H as (total & Ht & H).
  apply and_then_Ok in H as (raw & _ & H). apply and_then_Ok in H as (? & Hfit & [= <-]).
  apply ensure_Ok in Hfit.
  pose proof (plan_motion_cases a b (MotionOptions.mk curve (Some d) policy
    (noop && bool_decide (i + 1 = count) && bool_decide (a = b))) Hp) as Hc.
  rewrite Hplan in Hc. simpl in Hc.
  destruct Hc as ((Htime & _ & _ & Hshape) & _ & Hb & Hc); [by intros ? [= <-] |].
  rewrite decide_False in Hc.
  2: { intros [Heq Hn]. destruct Hmove as [| (-> & Hcnt & _)]; [done |].
       by rewrite !bool_decide_true in Hn by done. }
  destruct Hc as (Hne & _ & Hdur). rewrite <- Hb in *.
  assert (MotionPlan.duration_ms plan = d) as Hpd.
  { rewrite Hdur. destruct curve; try done. symmetry. by apply Hi. }
  unfold checked_add_u32 in Ht. case_decide; simplify_eq/=.
  exists (parts ++ [MotionPlan.samples plan]). simpl.
  rewrite concat_app, assembled_snoc, <- Has, Hr, total_delay_app, map_app, sum_N_app, !len_app.
  simpl. rewrite app_nil_r. split_and!; try done; try lia.
  apply Forall2_app; [done |]. constructor; [| constructor]. simpl.
  destruct Hshape as [| (body & final & -> & Hf & _)]; [done |].
  exists final. by rewrite last_snoc.
Qed.

End Planner.
End MotionFacts.

(** ** Properties *)
Section MotionProperties.
  Import MotionPlanner MotionFacts.
  Context (hypot : f64 -> f64 -> f64).

(** C28: a motion is exactly timed and ends where it should.  With validated options the
    planner fails only where the interpolation itself fails, and never for an instant
    motion.  The plan it returns has no sample exactly when there is nothing to do; its
    delays add up to the requested or automatic duration to the millisecond, it stays
    within the event limit, it moves the pointer at every sample but perhaps the last,
    and the last sample is the end point. *)
Theorem motion_plan_exact (rate speed low high : N) (policy : MotionPolicy.t)
    (curve : MotionCurve) (duration : option N) (noop : bool) (options : MotionOptions.t)
    (start endpoint : RootPoint) :
  MotionPolicy.new rate speed low high = Ok policy ->
  MotionOptions.new curve duration policy noop = Ok options ->
  match plan_motion hypot start endpoint options with
  | Ok plan =>
      exactly_timed plan /\ MotionPlan.start plan = start /\ MotionPlan.endpoint plan = endpoint /\
      (MotionPlan.samples plan = [] <-> start = endpoint /\ noop = false) /\
      (MotionPlan.samples plan <> [] -> MotionPlan.duration_ms plan =
         match curve, duration with
         | Instant, _ => 0
         | _, Some d => d
         | _, None => automatic_duration hypot start endpoint policy
         end)
  | Err e => curve <> Instant /\ (e = NonFiniteCalculation \/ e = RoundedCoordinateOverflow)
  end.
Proof.
  intros Hp Ho. apply policy_new_ok in Hp.
  assert (options = MotionOptions.mk curve duration policy noop /\
    forall d, duration = Some d -> d <= MAX_MOTION_DURATION_MS /\ (curve = Instant -> d = 0))
    as [-> Hd].
  { destruct duration as [d |].
    - apply options_new_Ok in Ho as (-> & Hd). split; [done |]. by intros ? [= <-].
    - apply and_then_Ok in Ho as (? & _ & [= <-]). by split. }
  pose proof (plan_motion_cases hypot start endpoint
    (MotionOptions.mk curve duration policy noop) Hp Hd) as Hc.
  destruct (plan_motion _ _ _ _) as [plan | e]; simpl in Hc; [| done].
  destruct Hc as (Ht & Hs & He & Hc). split_and!; try done; case_decide; try (by subst plan); try tauto.
Qed.

(** The segments of a path, with the durations allocated to them. *)
Lemma path_assembled policy curve (noop : bool) (points : list RootPoint) requested durations
    assembly :
  policy_ok policy ->
  list.last points = Some requested ->
  Forall (fun w : RootPoint * RootPoint => w.1 <> w.2) (windows2 points) ->
  length durations = length (windows2 points) ->
  let points' := if noop then points ++ [requested] else points in
  let durations' := if noop then durations ++ [0] else durations in
  try_fold (segment_step hypot curve policy noop (len points' - 1)) (mkAssembly [] [] 0 0)
    (enumerate (zip (windows2 points') durations')) = Ok assembly ->
  assembled_ok (enumerate (zip (windows2 points') durations')) assembly.
Proof.
  intros Hp Hlast Hmove Hlen points' durations' Hf.
  pose proof (try_fold_cases (segment_step hypot curve policy noop (len points' - 1)) assembled_ok
    (mkAssembly [] [] 0 0) (enumerate (zip (windows2 points') durations'))) as Hinv.
  rewrite Hf in Hinv. apply Hinv; [by exists [] |].
  intros done [i [[a b] d]] rest st st' Hsplit Hok Hstep. pose proof Hsplit as Hs.
  apply enumerate_split in Hs as [Hi Hlk]. simpl in Hi, Hlk. subst i.
  apply lookup_zip_with_Some in Hlk as (w & d' & [= <- <-] & Hw & Hd).
  eapply segment_step_ok; [done | done | | done].
  assert (windows2 points !! length done = Some (a, b) \/
    noop = true /\ a = b /\ length done = length (windows2 points)) as [Hin | (Hn & Hab & Hl)].
  { subst points'. destruct noop; [| by left].
    erewrite windows2_snoc in Hw by exact Hlast. apply lookup_app_Some in Hw as [| [Hge Hw]]; [by left |].
    right. apply list_lookup_singleton_Some in Hw as [Hz [= -> ->]]. split_and!; [done | done | lia]. }
  - left. rewrite Forall_lookup in Hmove. by apply (Hmove _ _ Hin).
  - right. subst noop a. split_and!; [done | | done]. subst points'.
    rewrite windows2_length in Hl. unfold len. rewrite length_app. simpl.
    destruct points; [done |]. simpl in *. lia.
Qed.

Lemma enumerate_snd {A} (l : list A) : map snd (enumerate l) = l.
Proof.
  unfold enumerate. apply snd_zip. rewrite length_map, length_seq. lia.
Qed.

Lemma len_pred_windows2 (points : list RootPoint) (n : N) :
  n = len points - 1 -> N.to_nat n = length (windows2 points).
Proof. intros ->. rewrite windows2_length. unfold len. lia. Qed.

(** Every allocation has one duration per segment, and an explicit total is met. *)
Lemma allocated curve points policy durations dp :
  (if decide (curve = Instant) then allocate_instant_durations (len points - 1) dp
   else allocate_durations hypot points dp policy) = Ok durations ->
  forall total, dp = Total total -> curve <> Instant -> windows2 points <> [] ->
  sum_N durations = total.
Proof.
  intros H total -> Hc Hne. rewrite decide_False in H by done. simpl in H.
  apply and_then_Ok in H as (? & _ & H). by apply proportional_sum in H as [? _].
Qed.

(** A path goes through its waypoints, in order and exactly timed.  The plan of a path
    through waypoints ends at the last of them; its segments are consecutive slices of
    its samples and cover them; there is one segment per distinct step of the path (and
    one for the requested final event), which ends exactly at its waypoint; the delays
    add up to the plan's duration, which is within the limit and equals an explicitly
    requested total; and the number of events is within the limit. *)
Theorem waypoint_plan_exact (rate speed low high : N) (policy : MotionPolicy.t)
    (start : RootPoint) (waypoints : list RootPoint) (curve : MotionCurve) (noop : bool)
    (dp : WaypointDurationPolicy) (plan : MotionPlan.t) :
  MotionPolicy.new rate speed low high = Ok policy ->
  plan_waypoint_motion hypot start waypoints curve policy noop dp = Ok plan ->
  let targets := drop 1 (normalize start waypoints) ++
                 (if noop then [MotionPlan.endpoint plan] else []) in
  list.last waypoints = Some (MotionPlan.endpoint plan) /\
  concat (MotionPlan.segments plan) = MotionPlan.samples plan /\
  Forall2 ends_at (MotionPlan.segments plan) targets /\
  total_delay (MotionPlan.samples plan) = MotionPlan.duration_ms plan /\
  MotionPlan.duration_ms plan <= MAX_MOTION_DURATION_MS /\
  MotionPlan.event_count plan <= MAX_MOTION_EVENTS /\
  (forall total, dp = Total total -> curve <> Instant -> drop 1 (normalize start waypoints) <> [] ->
     MotionPlan.duration_ms plan = total).
Proof.
  intros Hp H. apply policy_new_ok in Hp. unfold plan_waypoint_motion in H.
  apply and_then_Ok in H as (? & _ & H). apply and_then_Ok in H as (? & _ & H).
  apply and_then_Ok in H as (requested & Hreq & H).
  apply and_then_Ok in H as (durations & Hdur & H).
  apply and_then_Ok in H as (? & Hlen & H). apply ensure_Ok in Hlen.
  destruct (list.last waypoints) as [r |] eqn:Hlast; [| done]. injection Hreq as ->.
  destruct (normalize_spec start waypoints) as (tail & Hn & Hend & Hmove).
  rewrite Hlast in Hend. simpl in Hend. set (points := normalize start waypoints) in *.
  assert (length durations = length (windows2 points)) as Hl.
  { rewrite <- (len_pred_windows2 points (len points - 1)) by done.
    assert (len durations = len points - 1) as <- by (by apply dec_stable). unfold len. lia. }
  pose proof (allocated curve points policy durations dp Hdur) as Htotal.
  rewrite <- windows2_snd. set (points' := if noop then points ++ [requested] else points) in *.
  set (durations' := if noop then durations ++ [0] else durations) in *.
  assert (windows2 points' = windows2 points ++ (if noop then [(requested, requested)] else []) /\
    length durations' = length (windows2 points') /\ sum_N durations' = sum_N durations)
    as (Hw & Hl' & Hsum).
  { subst points' durations'. destruct noop; [| by rewrite app_nil_r].
    erewrite windows2_snoc by exact Hend. rewrite !length_app, sum_N_app. simpl. split_and!; lia || done. }
  case_decide as Hz.
  { injection H as <-. simpl. assert (windows2 points' = []) as Hnil.
    { apply nil_length_inv. rewrite <- (len_pred_windows2 points' (len points' - 1)) by done. lia. }
    rewrite Hnil in Hw. destruct noop; [by destruct (windows2 points) |].
    destruct (windows2 points); [| done]. simpl. unfold MotionPlan.event_count, total_delay,
      MAX_MOTION_DURATION_MS, MAX_MOTION_EVENTS, len. simpl. split_and!; done || lia. }
  apply and_then_Ok in H as (assembly & Hf & H). apply and_then_Ok in H as (? & Hd & [= <-]).
  apply ensure_Ok in Hd. simpl.
  pose proof (path_assembled policy curve noop points requested durations assembly Hp Hend Hmove Hl Hf)
    as (parts & Has & Hr & Hends & Hdelay & Htot & Hcount).
  assert (MotionPlan.segments (MotionPlan.mk start requested (total_duration assembly)
    (raw_count assembly) (assembled assembly) (ranges assembly)) = parts) as ->.
  { unfold MotionPlan.segments. simpl. rewrite Has, Hr. apply slices_parts. }
  fold points' durations' in Hends, Htot.
  assert (total_duration assembly = sum_N durations) as Htd.
  { rewrite Htot, <- Hsum. f_equal. rewrite <- (map_map snd snd), enumerate_snd.
    apply snd_zip. lia. }
  split_and!; try done.
  - assert (map (fun seg : N * (RootPoint * RootPoint * N) => seg.2.1.2)
      (enumerate (zip (windows2 points') durations')) = (windows2 points').*2) as Htargets.
    { rewrite <- (map_map snd (fun wd : RootPoint * RootPoint * N => wd.1.2)), enumerate_snd.
      rewrite <- (map_map fst snd). f_equal. apply fst_zip. lia. }
    replace ((windows2 points).*2 ++ _) with ((windows2 points').*2)
      by (rewrite Hw, fmap_app; by destruct noop).
    rewrite <- Htargets. apply Forall2_fmap_r. by apply Forall2_flip.
  - unfold MAX_MOTION_DURATION_MS in *. lia.
  - intros total Hdp Hc Hne. rewrite Htd. apply Htotal; [done | done |].
    intros Hnil. by rewrite Hnil in Hne.
Qed.

End MotionProperties.

(** ** Witnesses *)
Module MotionWitness.
Import MotionPlanner MotionFacts.

(** A distance for the examples: the rounded root of the rounded sum of squares. *)
Definition hypot (a b : f64) : f64 :=
  SpecFloat.SFsqrt F64.prec F64.emax (F64.add (F64.mul a a) (F64.mul b b)).

Definition at_ (x y : Z) : RootPoint := mkRootPoint (Point.mk x y).
Definition policy : MotionPolicy.t := MotionPolicy.mk 60 1200 80 650.
Definition options : MotionOptions.t := MotionOptions.mk Smooth None policy false.

Lemma motion_plan_exact_witness :
  exists plan, plan_motion hypot (at_ 0 0) (at_ 30 (-40)) options = Ok plan /\
    MotionPlan.duration_ms plan = 80.
Proof.
  pose proof (motion_plan_exact hypot 60 1200 80 650 policy Smooth None false options
    (at_ 0 0) (at_ 30 (-40)) eq_refl eq_refl) as H.
  destruct (plan_motion hypot (at_ 0 0) (at_ 30 (-40)) options) as [plan | e] eqn:Hp.
  - exists plan. split; [done |]. destruct H as (_ & _ & _ & Hs & Hd). rewrite Hd.
    + vm_compute. reflexivity.
    + intros Hn. apply Hs in Hn as [Hn _]. discriminate Hn.
  - exfalso. vm_compute in Hp. discriminate Hp.
Defined.

Definition path : result MotionPlan.t MotionPlanError :=
  plan_waypoint_motion hypot (at_ 0 0) [at_ 10 0; at_ 10 0; at_ 10 7] Linear policy true (Total 500).

Lemma waypoint_plan_exact_witness :
  exists plan, path = Ok plan /\ MotionPlan.duration_ms plan = 500 /\
    length (MotionPlan.segments plan) = 3%nat.
Proof.
  destruct path as [plan | e] eqn:Hp; [| exfalso; vm_compute in Hp; discriminate Hp].
  pose proof (waypoint_plan_exact hypot 60 1200 80 650 policy (at_ 0 0) [at_ 10 0; at_ 10 0; at_ 10 7]
    Linear true (Total 500) plan eq_refl Hp)
    as (_ & _ & Hseg & _ & _ & _ & Htotal).
  exists plan. split; [done |]. split.
  - apply Htotal; [reflexivity | discriminate | vm_compute; discriminate].
  - apply Forall2_length in Hseg. rewrite Hseg. reflexivity.
Defined.

(** [round_ties_away] rounds twice: the greatest number below a half is rounded to one,
    because adding a half to it already rounds up to one. *)
Example round_ties_away_below_half :
  let x := SpecFloat.S754_finite false 9007199254740991 (-54) in
  F64.lt x F64.half = true /\ round_ties_away x = Ok 1%Z.
Proof. split; reflexivity. Qed.

End MotionWitness.
