(* ===== verification/Actions.v ===== *)
(** * Compound input actions

    Models the action part of [xenoteer-core/src/input/action.rs]: moves, clicks, drags,
    scrolls and key actions with their constructors, and the number of XTEST events each
    of them plans.  The motion plans come from [Motion], the key plans from [Keys].  The
    property relates the event limit to the capacity of the effect journal of
    [OwnedInput]. *)

From stdpp Require Import base numbers list option.
From Stdlib Require Import Lia.
From S2P Require Import Prelude Geometry Motion Keys OwnedInput.

Local Open Scope N_scope.

Definition MAX_CLICK_COUNT : N := 5.
Definition MAX_SCROLL_COUNT : N := 1000.
Definition MAX_SCROLL_INTERVAL_MS : N := 1000.
Definition MAX_XTEST_DELAY_MS : N := 10000.
Definition MAX_INPUT_ACTION_EVENTS : N := MAX_MOTION_EVENTS.

(** [usize::checked_add]; a [usize] has 64 bits. *)
Definition checked_add_usize (a b : N) : option N := checked_add_u64 a b.

(** [validate_xtest_delay], [validate_event_count]. *)
Definition validate_xtest_delay (kind : InputDelayKind) (delay_ms : N) :
    result unit InputActionError :=
  ensure (MAX_XTEST_DELAY_MS < delay_ms) (XtestDelayTooLong kind delay_ms).

Definition validate_event_count (event_count : N) : result unit InputActionError :=
  ensure (MAX_INPUT_ACTION_EVENTS < event_count) EventLimitExceeded.

(** [ButtonDirection], [ScrollDirection] with [ScrollDirection::logical_button]. *)
Inductive ButtonDirection := Down | Up.

Inductive ScrollDirection := ScrollsUp | ScrollsDown | ScrollsLeft | ScrollsRight.

Definition logical_button (self : ScrollDirection) : LogicalButton :=
  match self with
  | ScrollsUp => ScrollUp
  | ScrollsDown => ScrollDown
  | ScrollsLeft => ScrollLeft
  | ScrollsRight => ScrollRight
  end.

(** [MoveAction]. *)
Module MoveAction.
Record t := mk { plan : MotionPlan.t }.

Definition event_count (self : t) : N := MotionPlan.event_count (plan self).
End MoveAction.

(** [ClickAction]. *)
Module ClickAction.
Record t := mk {
  movement : option MotionPlan.t;
  button : LogicalButton;
  count : N;
  pre_click_dwell_ms : N;
  press_duration_ms : N;
  inter_click_interval_ms : N;
  xtest_event_count : N;
}.

(** [ClickAction::new]. *)
Definition new (movement : option MotionPlan.t) (button : LogicalButton)
    (count pre_click_dwell_ms press_duration_ms inter_click_interval_ms
     double_click_threshold_ms : N) : result t InputActionError :=
  try! ensure (~ (1 <= count <= MAX_CLICK_COUNT)) (InvalidClickCount count) in
  try! validate_xtest_delay PreClickDwell pre_click_dwell_ms in
  try! validate_xtest_delay PressDuration press_duration_ms in
  try! ensure (double_click_threshold_ms = 0 \/ MAX_XTEST_DELAY_MS < double_click_threshold_ms)
         (InvalidDoubleClickThreshold double_click_threshold_ms) in
  try! ensure (double_click_threshold_ms <= inter_click_interval_ms)
         (InterClickIntervalTooLong inter_click_interval_ms double_click_threshold_ms) in
  let button_events := count * 2 in
  let movement_events := match movement with Some plan => MotionPlan.event_count plan | None => 0 end in
  let? xtest_event_count := ok_or (checked_add_usize movement_events button_events)
                              EventLimitExceeded in
  try! validate_event_count xtest_event_count in
  Ok (mk movement button count pre_click_dwell_ms press_duration_ms inter_click_interval_ms
        xtest_event_count).
End ClickAction.

(** [DragAction]. *)
Module DragAction.
Record t := mk {
  movement : MotionPlan.t;
  button : LogicalButton;
  press_dwell_ms : N;
  release_dwell_ms : N;
  xtest_event_count : N;
}.

(** [DragAction::new]: the press, a motion that carries the dwell and the release
    surround the planned samples. *)
Definition new (movement : MotionPlan.t) (button : LogicalButton)
    (press_dwell_ms release_dwell_ms : N) : result t InputActionError :=
  try! validate_xtest_delay DragPressDwell press_dwell_ms in
  try! validate_xtest_delay DragReleaseDwell release_dwell_ms in
  let? xtest_event_count := ok_or (checked_add_usize (MotionPlan.event_count movement) 3)
                              EventLimitExceeded in
  try! validate_event_count xtest_event_count in
  Ok (mk movement button press_dwell_ms release_dwell_ms xtest_event_count).
End DragAction.

(** [ScrollAction]. *)
Module ScrollAction.
Record t := mk { direction : ScrollDirection; count : N; interval_ms : N }.

(** [ScrollAction::new]. *)
Definition new (direction : ScrollDirection) (count interval_ms : N) :
    result t InputActionError :=
  try! ensure (~ (1 <= count <= MAX_SCROLL_COUNT)) (InvalidScrollCount count) in
  try! ensure (MAX_SCROLL_INTERVAL_MS < interval_ms) (InvalidScrollInterval interval_ms) in
  Ok (mk direction count interval_ms).

(** [ScrollAction::logical_button], [ScrollAction::xtest_event_count]. *)
Definition scroll_button (self : t) : LogicalButton := logical_button (direction self).
Definition event_count (self : t) : N := count self * 2.
End ScrollAction.

(** [KeyAction]. *)
Module KeyAction.
Record t := mk { plan : KeyPlan.t }.

Definition event_count (self : t) : N := len (KeyPlan.events (plan self)).
End KeyAction.

(** [InputAction] and [InputAction::xtest_event_count]. *)
Inductive InputAction :=
  | Move (action : MoveAction.t)
  | Click (action : ClickAction.t)
  | Drag (action : DragAction.t)
  | Scroll (action : ScrollAction.t)
  | Key (action : KeyAction.t)
  | Button (button : PhysicalButton) (direction : ButtonDirection) (allow_redundant : bool).

Definition xtest_event_count (self : InputAction) : N :=
  match self with
  | Move action => MoveAction.event_count action
  | Click action => ClickAction.xtest_event_count action
  | Drag action => DragAction.xtest_event_count action
  | Scroll action => ScrollAction.event_count action
  | Key action => KeyAction.event_count action
  | Button _ _ _ => 1
  end.

(** ** What the constructors guarantee *)
Module ActionFacts.

(** An action made by the constructors, its plans by the planners. *)
Definition constructed (action : InputAction) : Prop :=
  match action with
  | Move action => MoveAction.event_count action <= MAX_MOTION_EVENTS
  | Click action => exists movement button count dwell press interval threshold,
      ClickAction.new movement button count dwell press interval threshold = Ok action
  | Drag action => exists movement button press release,
      DragAction.new movement button press release = Ok action
  | Scroll action => exists direction count interval,
      ScrollAction.new direction count interval = Ok action
  | Key action => exists keys, KeyPlan.chord keys = Ok (KeyAction.plan action)
  | Button _ _ _ => True
  end.

Lemma event_count_valid n u : validate_event_count n = Ok u -> n <= MAX_INPUT_ACTION_EVENTS.
Proof. unfold validate_event_count. rewrite ensure_Ok. lia. Qed.

(** [ClickAction::new] on every input: the checks in their order. *)
Lemma click_new_Ok movement button count dwell press interval threshold action :
  ClickAction.new movement button count dwell press interval threshold = Ok action <->
  1 <= count <= MAX_CLICK_COUNT /\ dwell <= MAX_XTEST_DELAY_MS /\ press <= MAX_XTEST_DELAY_MS /\
  interval < threshold <= MAX_XTEST_DELAY_MS /\
  (let events := match movement with Some plan => MotionPlan.event_count plan | None => 0 end
                 + count * 2 in
   events <= MAX_INPUT_ACTION_EVENTS /\
   action = ClickAction.mk movement button count dwell press interval events).
Proof.
  unfold ClickAction.new, validate_xtest_delay, validate_event_count. simpl.
  unfold MAX_CLICK_COUNT, MAX_XTEST_DELAY_MS, MAX_INPUT_ACTION_EVENTS, MAX_MOTION_EVENTS.
  set (moves := match movement with Some _ => _ | None => _ end). split.
  - intros H. repeat (apply and_then_Ok in H as (? & ?Hc & H)).
    repeat match goal with Hc : ensure _ _ = Ok _ |- _ => apply ensure_Ok in Hc end.
    unfold checked_add_usize, checked_add_u64 in *. case_decide; simplify_eq/=.
    assert (1 <= count <= 5) by (by destruct (decide (1 <= count <= 5))).
    split_and!; lia || done.
  - intros (? & ? & ? & ? & ? & ->).
    rewrite !ensure_pass by lia. simpl. unfold checked_add_usize, checked_add_u64, u64_max.
    rewrite decide_True by lia. simpl. by rewrite ensure_pass by lia.
Qed.

Lemma constructed_bounded action :
  constructed action -> xtest_event_count action <= MAX_INPUT_ACTION_EVENTS.
Proof.
  destruct action as [a | a | a | a | a | b d r]; simpl.
  - done.
  - intros (? & ? & ? & ? & ? & ? & ? & H). by apply click_new_Ok in H as (_ & _ & _ & _ & ? & ->).
  - intros (? & ? & ? & ? & H). unfold DragAction.new in H.
    repeat (apply and_then_Ok in H as (? & ?Hc & H)). injection H as <-. simpl.
    by eapply event_count_valid.
  - intros (? & ? & ? & H). unfold ScrollAction.new in H.
    apply and_then_Ok in H as (? & Hc & H). apply and_then_Ok in H as (? & _ & [= <-]).
    apply ensure_Ok in Hc. unfold ScrollAction.event_count. simpl.
    unfold MAX_SCROLL_COUNT, MAX_INPUT_ACTION_EVENTS, MAX_MOTION_EVENTS in *. lia.
  - intros (keys & H). apply KeyPlan.chord_Ok in H as (_ & Hlen & _ & Hplan).
    unfold KeyAction.event_count. rewrite Hplan. simpl. unfold len.
    rewrite length_app, !length_map, length_rev, KeyPlan.press_order_Permutation.
    unfold len, MAX_CHORD_KEYS, MAX_INPUT_ACTION_EVENTS, MAX_MOTION_EVENTS in *. lia.
  - unfold MAX_INPUT_ACTION_EVENTS, MAX_MOTION_EVENTS. lia.
Qed.
End ActionFacts.

(** ** Properties *)
Section ActionProperties.
Import InputState InputTrace InputInvariant ActionFacts.

(** The effect journal never runs out.  Whatever action the constructors admit, and
    whatever input is owned in a reachable state, the events the action plans and the
    releases of a complete cleanup fit together in the capacity of one effect journal. *)
Theorem journal_holds_action_and_cleanup (action : InputAction) (os : list op) :
  constructed action -> Forall op_valid os ->
  xtest_event_count action + len (plan_cleanup (run os new)) <= MAX_EFFECT_RECORDS.
Proof.
  intros Ha Hos. apply constructed_bounded in Ha.
  pose proof (input_run_wf os new Hos input_new_wf) as (Hw & _).
  destruct (owned_bounds _ Hw). rewrite InputReset.plan_length.
  unfold MAX_INPUT_ACTION_EVENTS, MAX_MOTION_EVENTS, MAX_EFFECT_RECORDS in *. lia.
Qed.

End ActionProperties.

(** ** Witnesses *)
Module ActionWitness.
Import InputState InputTrace ActionFacts.

Definition click : ClickAction.t := ClickAction.mk None ButtonLeft 2 0 10 50 4.

Lemma journal_holds_action_and_cleanup_witness :
  xtest_event_count (Click click) + len (plan_cleanup (run [] new)) <= MAX_EFFECT_RECORDS.
Proof.
  apply (journal_holds_action_and_cleanup (Click click) []); [| constructor].
  exists None, ButtonLeft, 2, 0, 10, 50, 250. reflexivity.
Defined.

End ActionWitness.
