(* ===== verification/RateLimit.v ===== *)
(** * Abuse controls

    Models [xenoteer-server/src/abuse.rs]: token buckets in fixed-point arithmetic, the
    bounded table of buckets per key with its shared overflow bucket, and the controls
    that the HTTP and WebSocket transports share.

    An [Instant] is its distance in nanoseconds from a fixed origin and a [Duration] is
    its nanoseconds; [u128] values are [N] with the saturation of the source written out.
    The mutex around a table makes every method one atomic step. *)

From stdpp Require Import base numbers list option gmap strings.
From Stdlib Require Import Lia.
From S2P Require Import Prelude.

Local Open Scope N_scope.

Definition u128_max : N := 340282366920938463463374607431768211455.

(** [u128::saturating_add], [u128::saturating_mul]; [saturating_sub] and
    [Instant::saturating_duration_since] are the truncated [-] of [N]. *)
Definition saturating_add (a b : N) : N := N.min u128_max (a + b).
Definition saturating_mul (a b : N) : N := N.min u128_max (a * b).

(** [Rate]. *)
Module Rate.
Record t := mk { capacity : N; refill_tokens : N; refill_period : N }.

Definition period_units (self : t) : N := refill_period self.
Definition capacity_units (self : t) : N := saturating_mul (capacity self) (period_units self).

(** A [u32] capacity and the nanoseconds of a [Duration], which has [u64] seconds. *)
Definition valid (self : t) : Prop :=
  1 <= capacity self <= 4294967295 /\ 1 <= refill_tokens self <= 4294967295 /\
  1 <= refill_period self <= 18446744073709551616 * 1000000000.

Lemma capacity_units_exact self :
  valid self -> capacity_units self = capacity self * refill_period self.
Proof.
  unfold valid, capacity_units, saturating_mul, period_units. intros (? & _ & ?).
  apply N.min_r. unfold u128_max. nia.
Qed.
End Rate.

(** [TokenBucket]. *)
Module TokenBucket.
Record t := mk { rate : Rate.t; available_units : N; last_refill : N }.

(** [TokenBucket::new]. *)
Definition new (rate : Rate.t) (now : N) : t := mk rate (Rate.capacity_units rate) now.

(** [TokenBucket::refill]. *)
Definition refill (now : N) (self : t) : t :=
  let elapsed := now - last_refill self in
  let refill := saturating_mul elapsed (Rate.refill_tokens (rate self)) in
  mk (rate self)
    (N.min (saturating_add (available_units self) refill) (Rate.capacity_units (rate self)))
    (N.max now (last_refill self)).

(** [TokenBucket::permits]. *)
Definition permits (now : N) (self : t) : t * bool :=
  let self := refill now self in
  (self, bool_decide (Rate.period_units (rate self) <= available_units self)).

(** [TokenBucket::try_take]. *)
Definition try_take (now : N) (self : t) : t * bool :=
  match permits now self with
  | (self, false) => (self, false)
  | (self, true) =>
      (mk (rate self) (available_units self - Rate.period_units (rate self)) (last_refill self),
       true)
  end.

(** [TokenBucket::is_full]. *)
Definition is_full (now : N) (self : t) : t * bool :=
  let self := refill now self in
  (self, bool_decide (available_units self = Rate.capacity_units (rate self))).

(** A bucket of the rate with no more than its capacity. *)
Definition wf (r : Rate.t) (self : t) : Prop :=
  rate self = r /\ available_units self <= Rate.capacity_units r.

(** What the bucket held and gained, ignoring the cap, bounds what it holds. *)
Definition gained (r : Rate.t) (now : N) (self : t) : N :=
  available_units self + (now - last_refill self) * Rate.refill_tokens r.

Lemma new_bucket_wf r now : wf r (new r now).
Proof. split; [done |]. simpl. lia. Qed.

Lemma refill_wf r now self :
  wf r self -> wf r (refill now self) /\
  last_refill (refill now self) = N.max now (last_refill self) /\
  available_units (refill now self) <= gained r now self.
Proof.
  intros [<- Hle]. unfold wf, refill, gained, saturating_add, saturating_mul. simpl.
  split_and!; [done | lia | done | lia].
Qed.

(** A refill never loses units. *)
Lemma refill_keeps r now self :
  Rate.valid r -> wf r self -> available_units self <= available_units (refill now self).
Proof.
  intros Hv [<- Hle]. unfold refill, saturating_add. simpl.
  rewrite Rate.capacity_units_exact in * by done. destruct Hv as (? & _ & ?).
  unfold u128_max. nia.
Qed.

Lemma try_take_cases r now self self' admitted :
  wf r self -> try_take now self = (self', admitted) ->
  wf r self' /\ last_refill self' = N.max now (last_refill self) /\
  available_units self' + (if admitted then Rate.refill_period r else 0) <= gained r now self /\
  (admitted = false -> available_units self' < Rate.refill_period r).
Proof.
  intros Hwf. pose proof (refill_wf r now self Hwf) as ([Hr Hle] & Hlast & Hg).
  unfold try_take, permits, Rate.period_units. cbv zeta.
  set (filled := refill now self) in *. clearbody filled. rewrite Hr in *.
  case_bool_decide as Hd; intros [= <- <-]; simpl.
  - split; [by split; [| simpl; lia] |]. split_and!; [done | lia | done].
  - split_and!; [by split | done | lia | intros _; lia].
Qed.

(** [permits] decides as [try_take] does, without taking. *)
Lemma permits_try_take now self : snd (permits now self) = snd (try_take now self).
Proof. unfold try_take. by destruct (permits now self) as [? []]. Qed.

End TokenBucket.

(** [BucketEntry]. *)
Module BucketEntry.
Record t := mk { bucket : TokenBucket.t; last_charge : N }.
End BucketEntry.

(** [KeyedTokenBuckets]. *)
Module KeyedTokenBuckets.
Section Keyed.
  Context {K : Type} `{Countable K}.

Record t := mk {
  rate : Rate.t;
  maximum_entries : N;
  entries : gmap K BucketEntry.t;
  overflow : TokenBucket.t;
  last_prune : N;
}.

Definition set_entries (v : gmap K BucketEntry.t) (self : t) : t :=
  mk (rate self) (maximum_entries self) v (overflow self) (last_prune self).
Definition set_overflow (v : TokenBucket.t) (self : t) : t :=
  mk (rate self) (maximum_entries self) (entries self) v (last_prune self).
Definition set_last_prune (v : N) (self : t) : t :=
  mk (rate self) (maximum_entries self) (entries self) (overflow self) v.

Definition entries_len (self : t) : N := N.of_nat (size (entries self)).

(** [KeyedTokenBuckets::new]. *)
Definition new (rate : Rate.t) (maximum_entries now : N) : t :=
  mk rate maximum_entries ∅ (TokenBucket.new rate now) now.

(** [KeyedTokenBuckets::permits]. *)
Definition permits (key : K) (now : N) (self : t) : t * bool :=
  match entries self !! key with
  | Some entry =>
      let '(bucket, permitted) := TokenBucket.permits now (BucketEntry.bucket entry) in
      (set_entries (<[key := BucketEntry.mk bucket (BucketEntry.last_charge entry)]> (entries self))
         self, permitted)
  | None =>
      if decide (entries_len self < maximum_entries self) then (self, true)
      else
        let '(overflow, permitted) := TokenBucket.permits now (overflow self) in
        (set_overflow overflow self, permitted)
  end.

(** What [retain] leaves of one entry: it refills the entries that were idle for a
    period, and drops those that are then full. *)
Definition retained_entry (refill_period now : N) (entry : BucketEntry.t) : option BucketEntry.t :=
  if decide (refill_period <= now - BucketEntry.last_charge entry) then
    match TokenBucket.is_full now (BucketEntry.bucket entry) with
    | (_, true) => None
    | (bucket, false) => Some (BucketEntry.mk bucket (BucketEntry.last_charge entry))
    end
  else Some entry.

(** [KeyedTokenBuckets::prune_refilled]. *)
Definition prune_refilled (now : N) (self : t) : t :=
  let refill_period := Rate.refill_period (rate self) in
  if decide (entries_len self < maximum_entries self \/
             now - last_prune self < refill_period) then self
  else
    let self := set_last_prune (N.max now (last_prune self)) self in
    set_entries (omap (retained_entry refill_period now) (entries self)) self.

(** [KeyedTokenBuckets::try_take]. *)
Definition try_take (key : K) (now : N) (self : t) : t * bool :=
  match entries self !! key with
  | Some entry =>
      let '(bucket, admitted) := TokenBucket.try_take now (BucketEntry.bucket entry) in
      (set_entries (<[key := BucketEntry.mk bucket now]> (entries self)) self, admitted)
  | None =>
      let self := prune_refilled now self in
      if decide (maximum_entries self <= entries_len self) then
        let '(overflow, admitted) := TokenBucket.try_take now (overflow self) in
        (set_overflow overflow self, admitted)
      else
        let '(bucket, admitted) := TokenBucket.try_take now (TokenBucket.new (rate self) now) in
        (set_entries (<[key := BucketEntry.mk bucket now]> (entries self)) self, admitted)
  end.

End Keyed.
Arguments t K {_ _}.
End KeyedTokenBuckets.

(** ** The shared controls *)

(** [IpAddr], by its bits, and [AuthenticationSource]. *)
Inductive IpAddr := V4 (bits : N) | V6 (bits : N).
Inductive AuthenticationSource := Ip (address : IpAddr) | Fallback.

#[export] Instance ip_addr_eq_dec : EqDecision IpAddr.
Proof. solve_decision. Defined.
#[export] Instance authentication_source_eq_dec : EqDecision AuthenticationSource.
Proof. solve_decision. Defined.
#[export] Program Instance authentication_source_countable : Countable AuthenticationSource :=
  inj_countable'
    (fun s => match s with Ip (V4 n) => inl n | Ip (V6 n) => inr (inl n) | Fallback => inr (inr tt) end)
    (fun c : N + (N + unit) =>
       match c with inl n => Ip (V4 n) | inr (inl n) => Ip (V6 n) | inr (inr _) => Fallback end) _.
Next Obligation. by intros [[]|]. Qed.

(** [SessionMessageLimit]: one bucket. *)
Definition SessionMessageLimit : Type := TokenBucket.t.

Module AbuseControls.

Definition second : N := 1000000000.
Definition auth_failure_rate : Rate.t := Rate.mk 10 10 (60 * second).
Definition command_submit_rate : Rate.t := Rate.mk 30 120 (60 * second).
Definition websocket_message_rate : Rate.t := Rate.mk 30 120 (60 * second).
Definition MAX_AUTH_SOURCES : N := 4096.
Definition MAX_COMMAND_PRINCIPALS : N := 4096.
Definition MAX_WEBSOCKET_SESSIONS : N := 64.

(** The semaphore is its number of free permits. *)
Record t := mk {
  authentication_failures : KeyedTokenBuckets.t AuthenticationSource;
  command_submits : KeyedTokenBuckets.t string;
  websocket_sessions : N;
}.

(** [AbuseControls::with_limits], [AbuseControls::new]. *)
Definition with_limits (sources principals sessions now : N) : t :=
  mk (KeyedTokenBuckets.new auth_failure_rate sources now)
     (KeyedTokenBuckets.new command_submit_rate principals now) sessions.

Definition new (now : N) : t :=
  with_limits MAX_AUTH_SOURCES MAX_COMMAND_PRINCIPALS MAX_WEBSOCKET_SESSIONS now.

(** [authentication_preflight], [record_authentication_failure]. *)
Definition authentication_preflight (source : AuthenticationSource) (now : N) (self : t) : t * bool :=
  let '(failures, permitted) := KeyedTokenBuckets.permits source now (authentication_failures self) in
  (mk failures (command_submits self) (websocket_sessions self), permitted).

Definition record_authentication_failure (source : AuthenticationSource) (now : N) (self : t) :
    t * bool :=
  let '(failures, admitted) := KeyedTokenBuckets.try_take source now (authentication_failures self) in
  (mk failures (command_submits self) (websocket_sessions self), admitted).

(** [admit_command_submit]. *)
Definition admit_command_submit (principal : string) (now : N) (self : t) : t * bool :=
  let '(submits, admitted) := KeyedTokenBuckets.try_take principal now (command_submits self) in
  (mk (authentication_failures self) submits (websocket_sessions self), admitted).

(** [try_acquire_websocket]: a permit, which returns when it is dropped. *)
Definition try_acquire_websocket (self : t) : t * option unit :=
  if decide (websocket_sessions self = 0) then (self, None)
  else (mk (authentication_failures self) (command_submits self) (websocket_sessions self - 1),
        Some tt).

Definition drop_permit (self : t) : t :=
  mk (authentication_failures self) (command_submits self) (websocket_sessions self + 1).

(** [websocket_message_limit] and [SessionMessageLimit::try_take]. *)
Definition websocket_message_limit (now : N) : SessionMessageLimit :=
  TokenBucket.new websocket_message_rate now.

Definition session_try_take (now : N) (self : SessionMessageLimit) : SessionMessageLimit * bool :=
  TokenBucket.try_take now self.
End AbuseControls.

(** ** Traces of one bucket *)
Module BucketTrace.
Import TokenBucket.

Inductive op := Take (now : N) | Ask (now : N).

Definition time (o : op) : N := match o with Take now | Ask now => now end.

Definition apply (o : op) (b : TokenBucket.t) : TokenBucket.t * bool :=
  match o with Take now => try_take now b | Ask now => permits now b end.

(** The number of tokens taken. *)
Fixpoint run (os : list op) (b : TokenBucket.t) : TokenBucket.t * N :=
  match os with
  | [] => (b, 0)
  | o :: os =>
      let '(b, granted) := apply o b in
      let '(b', n) := run os b in
      (b', n + match o with Take _ => if granted then 1 else 0 | Ask _ => 0 end)
  end.

Lemma bucket_apply_cases r o b b' granted :
  wf r b -> apply o b = (b', granted) ->
  wf r b' /\ last_refill b' = N.max (time o) (last_refill b) /\
  available_units b' +
    (match o with Take _ => if granted then 1 else 0 | Ask _ => 0 end) * Rate.refill_period r
    <= gained r (time o) b.
Proof.
  intros Hwf. destruct o as [now | now]; simpl.
  - intros H. apply (try_take_cases r) in H as (? & ? & ? & _); [| done].
    split_and!; [done | done |]. destruct granted; lia.
  - unfold permits. cbv zeta. intros [= <- _].
    destruct (refill_wf r now b Hwf) as (? & ? & ?). split_and!; [done | done | lia].
Qed.

Lemma run_bound r os b b' n limit :
  wf r b -> last_refill b <= limit -> Forall (fun o => time o <= limit) os ->
  run os b = (b', n) ->
  wf r b' /\ last_refill b' <= limit /\
  n * Rate.refill_period r + gained r limit b' <= gained r limit b.
Proof.
  revert b b' n. induction os as [| o os IH]; intros b b' n Hwf Hl Hf; simpl.
  - intros [= <- <-]. split_and!; [done | done | lia].
  - inversion_clear Hf as [| ? ? Ho Hos]. destruct (apply o b) as [b1 granted] eqn:Ha.
    destruct (run os b1) as [b2 n2] eqn:Hr. intros [= <- <-].
    apply (bucket_apply_cases r) in Ha as (Hwf1 & Hl1 & Hb1); [| done].
    apply IH in Hr as (? & ? & Hb2); [| done | lia | done].
    split_and!; [done | done |].
    unfold gained in *. rewrite Hl1 in Hb2. nia.
Qed.

End BucketTrace.

(** ** Traces of a table *)
Module KeyedTrace.
Section Trace.
  Context {K : Type} `{Countable K}.
  Import KeyedTokenBuckets.

Inductive op := Take (key : K) (now : N) | Ask (key : K) (now : N).

Definition time (o : op) : N := match o with Take _ now | Ask _ now => now end.

Definition apply (o : op) (s : KeyedTokenBuckets.t K) : KeyedTokenBuckets.t K * bool :=
  match o with Take key now => try_take key now s | Ask key now => permits key now s end.

(** A take that the shared overflow bucket decides. *)
Definition overflows (o : op) (s : KeyedTokenBuckets.t K) : bool :=
  match o with
  | Take key now =>
      bool_decide (entries s !! key = None /\
        maximum_entries s <= entries_len (prune_refilled now s))
  | Ask _ _ => false
  end.

(** The tokens a key took from its own bucket, and those anybody took from the shared one. *)
Fixpoint run (key : K) (os : list op) (s : KeyedTokenBuckets.t K) :
    KeyedTokenBuckets.t K * N * N :=
  match os with
  | [] => (s, 0, 0)
  | o :: os =>
      let '(s1, granted) := apply o s in
      let '(s2, own, shared) := run key os s1 in
      match o with
      | Take key' _ =>
          if granted then
            if overflows o s then (s2, own, shared + 1)
            else (s2, own + (if decide (key' = key) then 1 else 0), shared)
          else (s2, own, shared)
      | Ask _ _ => (s2, own, shared)
      end
  end.

(** The times of the calls never go back. *)
Fixpoint monotone (from : N) (os : list op) : Prop :=
  match os with
  | [] => True
  | o :: os => from <= time o /\ monotone (time o) os
  end.

(** The invariant of a table at time [now]. *)
Definition wf (r : Rate.t) (now : N) (s : KeyedTokenBuckets.t K) : Prop :=
  rate s = r /\ TokenBucket.wf r (overflow s) /\ TokenBucket.last_refill (overflow s) <= now /\
  entries_len s <= maximum_entries s /\
  forall key e, entries s !! key = Some e ->
    TokenBucket.wf r (BucketEntry.bucket e) /\
    TokenBucket.last_refill (BucketEntry.bucket e) <= now.

(** What a key can still take by [limit] from a bucket of its own. *)
Definition potential (r : Rate.t) (key : K) (now limit : N) (s : KeyedTokenBuckets.t K) : N :=
  match entries s !! key with
  | Some e => TokenBucket.gained r limit (BucketEntry.bucket e)
  | None => Rate.capacity_units r + (limit - now) * Rate.refill_tokens r
  end.

Definition shared_potential (r : Rate.t) (limit : N) (s : KeyedTokenBuckets.t K) : N :=
  TokenBucket.gained r limit (overflow s).

Lemma retained_entry_cases r now e :
  TokenBucket.wf r (BucketEntry.bucket e) ->
  TokenBucket.last_refill (BucketEntry.bucket e) <= now ->
  match retained_entry (Rate.refill_period r) now e with
  | Some e' =>
      TokenBucket.wf r (BucketEntry.bucket e') /\
      TokenBucket.last_refill (BucketEntry.bucket e') <= now /\
      forall limit, now <= limit ->
        TokenBucket.gained r limit (BucketEntry.bucket e') <=
        TokenBucket.gained r limit (BucketEntry.bucket e)
  | None =>
      Rate.capacity_units r <= TokenBucket.gained r now (BucketEntry.bucket e)
  end.
Proof.
  intros Hwf Hl. unfold retained_entry. case_decide; [| done].
  unfold TokenBucket.is_full. cbv zeta.
  destruct (TokenBucket.refill_wf r now _ Hwf) as ([Hr Hle] & Hlast & Hg).
  case_bool_decide as Hfull; simpl; [rewrite Hr in Hfull; lia |].
  split_and!; [by split | lia |]. intros limit Hlim. unfold TokenBucket.gained in *.
  rewrite Hlast. nia.
Qed.

Lemma prune_refilled_cases r now s :
  wf r now s ->
  wf r now (prune_refilled now s) /\ overflow (prune_refilled now s) = overflow s /\
  maximum_entries (prune_refilled now s) = maximum_entries s /\
  (forall key limit, now <= limit ->
     potential r key now limit (prune_refilled now s) <= potential r key now limit s) /\
  (forall key, entries s !! key = None -> entries (prune_refilled now s) !! key = None).
Proof.
  intros Hwf. pose proof Hwf as (Hr & Ho & Hol & Hlen & He).
  unfold prune_refilled. case_decide as Hd; [by split_and! |]. rewrite Hr.
  set (f := retained_entry (Rate.refill_period r) now). split_and!; try done.
  - unfold wf. simpl. split_and!; try done.
    + unfold entries_len in *. simpl. etrans; [| exact Hlen].
      apply N2Z.inj_le. rewrite !nat_N_Z. apply Nat2Z.inj_le.
      rewrite <- !size_dom. apply subseteq_size. intros key Hkey.
      apply elem_of_dom in Hkey as [e' Hk]. apply lookup_omap_Some in Hk as (e & _ & Hk).
      apply elem_of_dom. by exists e.
    + intros key e' Hk. apply lookup_omap_Some in Hk as (e & Hf & Hk).
      destruct (He _ _ Hk) as [Hb Hl]. pose proof (retained_entry_cases r now e Hb Hl) as Hc.
      subst f. simpl in Hf. rewrite Hf in Hc. by destruct Hc as (? & ? & _).
  - intros key limit Hlim. unfold potential. simpl. rewrite lookup_omap.
    destruct (entries s !! key) as [e |] eqn:Hk; simpl; [| done].
    destruct (He _ _ Hk) as [Hb Hl]. pose proof (retained_entry_cases r now e Hb Hl) as Hc.
    subst f. simpl. destruct (retained_entry _ _ e) as [e' |].
    + destruct Hc as (_ & _ & Hc). by apply Hc.
    + unfold TokenBucket.gained in *. nia.
  - intros key Hk. simpl. by rewrite lookup_omap, Hk.
Qed.

Lemma wf_later r prev now s : prev <= now -> wf r prev s -> wf r now s.
Proof.
  intros Hle (? & ? & ? & ? & He). split_and!; try done; [lia |].
  intros key e Hk. destruct (He key e Hk). split; [done | lia].
Qed.

Lemma potential_later r key prev now limit s :
  prev <= now -> potential r key now limit s <= potential r key prev limit s.
Proof. intros Hle. unfold potential. case_match; [done | nia]. Qed.

(** Storing the bucket of one key that was charged or asked. *)
Lemma store_bucket r now limit key key' s b charge cost :
  wf r now s -> TokenBucket.wf r b -> TokenBucket.last_refill b = now -> now <= limit ->
  (entries s !! key' = None -> entries_len s < maximum_entries s) ->
  TokenBucket.available_units b + cost <=
    potential r key' now now s ->
  let s' := set_entries (<[key' := BucketEntry.mk b charge]> (entries s)) s in
  wf r now s' /\
  (if decide (key' = key) then cost else 0) + potential r key now limit s' <= potential r key now limit s.
Proof.
  intros (? & ? & ? & Hlen & He) Hb Hl Hlim Hroom Hcost. simpl. split.
  - unfold wf. simpl. split_and!; try done.
    + unfold entries_len in *. simpl. destruct (entries s !! key') as [e |] eqn:Hk.
      * by rewrite map_size_insert_Some by eauto.
      * rewrite map_size_insert_None by done. specialize (Hroom eq_refl). lia.
    + intros k e. rewrite lookup_insert_Some. intros [[<- <-] | [_ Hk]]; [| by eapply He].
      simpl. split; [done | lia].
  - unfold potential in *. simpl. case_decide as Heq.
    + subst key'. rewrite lookup_insert_eq. simpl. unfold TokenBucket.gained in *.
      rewrite Hl. destruct (entries s !! key) as [e |] eqn:Hk.
      * destruct (He _ _ Hk) as [_ Hle]. nia.
      * nia.
    + rewrite lookup_insert_ne by done. lia.
Qed.

Definition own_cost (r : Rate.t) (key : K) (o : op) (s : KeyedTokenBuckets.t K) (granted : bool) : N :=
  match o with
  | Take key' _ =>
      if granted && negb (overflows o s) && bool_decide (key' = key)
      then Rate.refill_period r else 0
  | Ask _ _ => 0
  end.

Definition shared_cost (r : Rate.t) (o : op) (s : KeyedTokenBuckets.t K) (granted : bool) : N :=
  if granted && overflows o s then Rate.refill_period r else 0.

Lemma overflow_step r now limit s b cost :
  wf r now s -> TokenBucket.wf r b -> TokenBucket.last_refill b = now -> now <= limit ->
  TokenBucket.available_units b + cost <= TokenBucket.gained r now (overflow s) ->
  wf r now (set_overflow b s) /\
  cost + shared_potential r limit (set_overflow b s) <= shared_potential r limit s /\
  forall key, potential r key now limit (set_overflow b s) = potential r key now limit s.
Proof.
  intros (? & ? & Hol & ? & ?) Hb Hl Hlim Hcost. split_and!; [| | done].
  - unfold wf. simpl. split_and!; done || lia.
  - unfold shared_potential, TokenBucket.gained in *. simpl. rewrite Hl. nia.
Qed.

Lemma keyed_apply_cases r key o s s' granted limit :
  Rate.valid r -> wf r (time o) s -> time o <= limit -> apply o s = (s', granted) ->
  wf r (time o) s' /\ maximum_entries s' = maximum_entries s /\
  own_cost r key o s granted + potential r key (time o) limit s' <= potential r key (time o) limit s /\
  shared_cost r o s granted + shared_potential r limit s' <= shared_potential r limit s.
Proof.
  intros Hv Hwf Hlim Ha. destruct o as [key' now | key' now]; simpl in *.
  - unfold try_take in Ha. unfold own_cost, shared_cost, overflows.
    destruct (entries s !! key') as [e |] eqn:Hk.
    + destruct (TokenBucket.try_take now (BucketEntry.bucket e)) as [b a] eqn:Ht.
      injection Ha as <- <-. pose proof Hwf as (_ & _ & _ & _ & He).
      destruct (He _ _ Hk) as [Hb Hl]. apply (TokenBucket.try_take_cases r) in Ht as (Hb' & Hl' & Hc & _); [| done].
      destruct (store_bucket r now limit key key' s b now (if a then Rate.refill_period r else 0))
        as [Hw Hp]; try done;
        [lia | intros Hn; by rewrite Hk in Hn | unfold potential; by rewrite Hk |].
      split_and!; [done | done | |].
      * rewrite bool_decide_false by (intros [? _]; congruence). rewrite andb_true_r.
        destruct a; simpl; [| by case_decide; lia].
        case_bool_decide; case_decide; done || lia.
      * rewrite bool_decide_false by (intros [? _]; congruence). by rewrite andb_false_r.
    + destruct (prune_refilled_cases r now s Hwf) as (Hwp & Hop & Hmp & Hpp & Hnp).
      specialize (Hnp _ Hk). specialize (Hpp key limit Hlim).
      set (p := prune_refilled now s) in *. rewrite Hmp in Ha. case_decide as Hfull.
      * destruct (TokenBucket.try_take now (overflow p)) as [b a] eqn:Ht. injection Ha as <- <-.
        pose proof Hwp as (_ & Hob & Hol & _).
        apply (TokenBucket.try_take_cases r) in Ht as (Hb' & Hl' & Hc & _); [| done].
        destruct (overflow_step r now limit p b (if a then Rate.refill_period r else 0))
          as (Hw & Hs & Hpk); try done; [lia |].
        rewrite bool_decide_true by done. simpl. rewrite andb_false_r, andb_true_r. simpl.
        split_and!; [done | done | rewrite Hpk; lia |].
        etrans; [exact Hs |]. unfold shared_potential. by rewrite Hop.
      * destruct (TokenBucket.try_take now (TokenBucket.new (rate p) now)) as [b a] eqn:Ht.
        injection Ha as <- <-. pose proof Hwp as (Hrp & _).
        rewrite Hrp in Ht. apply (TokenBucket.try_take_cases r) in Ht as (Hb' & Hl' & Hc & _);
          [| apply TokenBucket.new_bucket_wf].
        destruct (store_bucket r now limit key key' p b now (if a then Rate.refill_period r else 0))
          as [Hw Hp]; try done.
        { rewrite Hl'. simpl. lia. }
        { intros _. rewrite Hmp. lia. }
        { unfold potential. rewrite Hnp. unfold TokenBucket.gained in Hc. simpl in Hc. lia. }
        rewrite bool_decide_false by (intros [_ ?]; lia). rewrite andb_false_r.
        split_and!; [done | done | |].
        -- rewrite andb_true_r. destruct a; simpl; [| by case_decide; lia].
           case_bool_decide; case_decide; done || lia.
        -- unfold shared_potential. simpl. by rewrite Hop.
  - unfold own_cost, shared_cost, overflows. rewrite andb_false_r. unfold permits in Ha.
    destruct (entries s !! key') as [e |] eqn:Hk.
    + unfold TokenBucket.permits in Ha. cbv zeta in Ha. injection Ha as <- _.
      pose proof Hwf as (_ & _ & _ & _ & He). destruct (He _ _ Hk) as [Hb Hl].
      destruct (TokenBucket.refill_wf r now _ Hb) as (Hb' & Hl' & Hg).
      destruct (store_bucket r now limit key key' s
        (TokenBucket.refill now (BucketEntry.bucket e)) (BucketEntry.last_charge e) 0) as [Hw Hp];
        try done; [lia | intros Hn; by rewrite Hk in Hn | unfold potential; rewrite Hk; lia |].
      split_and!; try done. by case_decide.
    + case_decide; [injection Ha as <- _; by split_and! |].
      unfold TokenBucket.permits in Ha. cbv zeta in Ha. injection Ha as <- _.
      pose proof Hwf as (_ & Hob & Hol & _).
      destruct (TokenBucket.refill_wf r now _ Hob) as (Hb' & Hl' & Hg).
      destruct (overflow_step r now limit s (TokenBucket.refill now (overflow s)) 0)
        as (Hw & Hs & Hpk); try (done || lia).
Qed.

Lemma run_cases r key os from s s' own shared limit :
  Rate.valid r -> wf r from s -> from <= limit -> monotone from os ->
  Forall (fun o => time o <= limit) os -> run key os s = (s', own, shared) ->
  entries_len s' <= maximum_entries s' /\ maximum_entries s' = maximum_entries s /\
  own * Rate.refill_period r <= potential r key from limit s /\
  shared * Rate.refill_period r <= shared_potential r limit s.
Proof.
  intros Hv. revert from s s' own shared. induction os as [| o os IH];
    intros from s s' own shared Hwf Hfl Hm Hf Hr; simpl in *.
  - injection Hr as <- <- <-. pose proof Hwf as (_ & _ & _ & ? & _). split_and!; [done | done | lia..].
  - destruct Hm as [Hfo Hm]. inversion_clear Hf as [| ? ? Ho Hos].
    destruct (apply o s) as [s1 granted] eqn:Ha. destruct (run key os s1) as [[s2 n] m] eqn:Hrun.
    apply (wf_later r from (time o)) in Hwf; [| done].
    apply (keyed_apply_cases r key o s s1 granted limit) in Ha as (Hw1 & Hmax & Hown & Hsh); [| done..].
    apply IH with (from := time o) in Hrun as (Hlen & Hmax2 & Hn & Hmm); [| done..].
    pose proof (potential_later r key from (time o) limit s Hfo).
    unfold own_cost, shared_cost in *.
    destruct o as [key' now | key' now]; [| injection Hr as <- <- <-; simpl in *;
      rewrite andb_false_r in Hsh; split_and!; [done | congruence | lia..]].
    simpl in *. destruct granted; simpl in Hown, Hsh;
      [| injection Hr as <- <- <-; split_and!; [done | congruence | lia..]].
    destruct (bool_decide (entries s !! key' = None /\ _)); simpl in Hown, Hsh; injection Hr as <- <- <-;
      (split_and!; [done | congruence | |]); try nia.
    destruct (decide (key' = key)); [rewrite bool_decide_true in Hown by done
      | rewrite bool_decide_false in Hown by done]; simpl in Hown; nia.
Qed.

Lemma new_table_wf r maximum now : wf r now (KeyedTokenBuckets.new r maximum now).
Proof.
  unfold wf, KeyedTokenBuckets.new, entries_len. simpl. rewrite map_size_empty.
  split_and!; [done | apply TokenBucket.new_bucket_wf | lia | lia |]. by intros ? ? ?%lookup_empty_Some.
Qed.

End Trace.
End KeyedTrace.

(** ** Properties *)
Section RateProperties.

(** A bucket decides exactly.  A take is admitted if and only if the units held and
    those gained since the last refill make up a whole token; and over any calls, in
    whatever order their times come, the tokens taken from a full bucket by a given time
    are at most its capacity and the refill of the time passed. *)
Theorem token_bucket_exact (r : Rate.t) (b : TokenBucket.t) :
  Rate.valid r -> TokenBucket.wf r b ->
  (forall now, snd (TokenBucket.try_take now b) = true <->
     Rate.refill_period r <= TokenBucket.gained r now b) /\
  (forall os limit, TokenBucket.last_refill b <= limit ->
     Forall (fun o => BucketTrace.time o <= limit) os ->
     snd (BucketTrace.run os b) * Rate.refill_period r <=
       Rate.capacity r * Rate.refill_period r +
       (limit - TokenBucket.last_refill b) * Rate.refill_tokens r).
Proof.
  intros Hv Hwf. pose proof Hwf as [Hr Hle]. rewrite Rate.capacity_units_exact in Hle by done. split.
  - intros now. rewrite <- TokenBucket.permits_try_take. unfold TokenBucket.permits. simpl.
    rewrite bool_decide_eq_true, Hr, Rate.capacity_units_exact by done.
    unfold Rate.period_units, saturating_add, saturating_mul, TokenBucket.gained.
    destruct Hv as (? & _ & ?). unfold u128_max. nia.
  - intros os limit Hl Hf. destruct (BucketTrace.run os b) as [b' n] eqn:Hrun.
    apply (BucketTrace.run_bound r os b b' n limit) in Hrun as (_ & _ & Hb); [| done..].
    simpl. unfold TokenBucket.gained in Hb at 2. lia.
Qed.

(** C38: the table of buckets is bounded and so is what a key obtains.  Over any calls at
    times that do not go back, from a new table: the table never holds more than its
    maximum of entries, the tokens a key takes from buckets of its own obey its rate even
    across pruning and re-insertion, and all the tokens taken by keys that found the
    table full obey one further rate together. *)
Theorem keyed_rate_bound `{Countable K} (r : Rate.t) (maximum start limit : N) (key : K)
    (os : list (KeyedTrace.op (K := K))) :
  Rate.valid r -> start <= limit -> KeyedTrace.monotone start os ->
  Forall (fun o => KeyedTrace.time o <= limit) os ->
  let '(s, own, shared) := KeyedTrace.run key os (KeyedTokenBuckets.new r maximum start) in
  let allowance := Rate.capacity r * Rate.refill_period r +
                   (limit - start) * Rate.refill_tokens r in
  KeyedTokenBuckets.entries_len s <= maximum /\
  own * Rate.refill_period r <= allowance /\ shared * Rate.refill_period r <= allowance.
Proof.
  intros Hv Hsl Hm Hf.
  destruct (KeyedTrace.run key os _) as [[s own] shared] eqn:Hrun.
  apply (KeyedTrace.run_cases r key os start _ _ _ _ limit) in Hrun as (Hlen & Hmax & Hown & Hsh);
    [| done | apply KeyedTrace.new_table_wf | done..].
  simpl in *. rewrite Hmax in Hlen. unfold KeyedTrace.potential, KeyedTrace.shared_potential,
    TokenBucket.gained in *. simpl in *. rewrite lookup_empty in Hown.
  rewrite Rate.capacity_units_exact in * by done. split_and!; done || lia.
Qed.

End RateProperties.

(** ** Witnesses *)
Module RateWitness.

Definition rate : Rate.t := Rate.mk 2 1 100.

Lemma rate_valid : Rate.valid rate.
Proof. unfold Rate.valid. simpl. lia. Qed.

Lemma token_bucket_exact_witness :
  snd (TokenBucket.try_take 150 (TokenBucket.mk rate 0 100)) = false /\
  snd (TokenBucket.try_take 200 (TokenBucket.mk rate 0 100)) = true.
Proof.
  destruct (token_bucket_exact rate (TokenBucket.mk rate 0 100)) as [H _].
  - exact rate_valid.
  - split; [done | vm_compute; discriminate].
  - split; [| by apply H].
    destruct (snd _) eqn:E; [| done]. apply H in E. vm_compute in E. by destruct E.
Defined.

Definition calls : list (KeyedTrace.op (K := N)) :=
  [KeyedTrace.Take 1 0; KeyedTrace.Take 2 0; KeyedTrace.Take 1 10; KeyedTrace.Take 1 20].

Lemma keyed_rate_bound_witness :
  let '(s, own, shared) := KeyedTrace.run 1 calls (KeyedTokenBuckets.new rate 1 0) in
  own * 100 <= 220 /\ own = 2 /\ shared = 1.
Proof.
  pose proof (keyed_rate_bound rate 1 0 20 1 calls rate_valid) as H.
  destruct (KeyedTrace.run 1 calls (KeyedTokenBuckets.new rate 1 0)) as [[s own] shared] eqn:E.
  split; [apply H; [lia | simpl; lia | repeat constructor; simpl; lia] |].
  vm_compute in E. by injection E as _ <- <-.
Defined.

End RateWitness.
