(* ===== verification/WireInteger.v ===== *)
(** * Decimal strings on the wire

    Models [xenoteer-protocol/src/wire_integer.rs]: the canonical decimal strings that
    carry 64-bit integers, with their parsers and the serializers of the [canonical],
    [nonzero] and [optional] adapters.  Serde's string and option values are the strings
    and options themselves; the JSON schemas are not modelled.

    A string is its list of bytes.  [Display] prints a [u64] in decimal, and
    [u64::from_str] reads the decimal digits that the canonical check has left. *)

From stdpp Require Import base numbers list option.
From Stdlib Require Import Lia Ascii.
From S2P Require Import Prelude.

Local Open Scope N_scope.

Definition MAX_U64_DECIMAL_DIGITS : N := 20.

(** [u8::is_ascii_digit] and the value of a digit. *)
Definition is_ascii_digit (byte : ascii) : bool :=
  bool_decide (48 <= N_of_ascii byte <= 57).
Definition digit_value (byte : ascii) : N := N_of_ascii byte - 48.
Definition digit_of (n : N) : ascii := ascii_of_N (n + 48).
Arguments digit_value byte : simpl never.
Arguments digit_of n : simpl never.
Arguments is_ascii_digit byte : simpl never.

(** [u64::from_str] on digits: the decimal value, or nothing when it exceeds [u64]. *)
Definition decimal_value (digits : list ascii) : N :=
  fold_left (fun value byte => value * 10 + digit_value byte) digits 0.

Definition parse_u64 (digits : list ascii) : option N :=
  if decide (decimal_value digits <= u64_max) then Some (decimal_value digits) else None.

(** [u64::to_string]: twenty digits are enough for every [u64]. *)
Fixpoint decimal_digits (fuel : nat) (n : N) : list ascii :=
  match fuel with
  | O => []
  | S fuel => if decide (n < 10) then [digit_of n]
              else decimal_digits fuel (n / 10) ++ [digit_of (n mod 10)]
  end.

Definition to_string (value : N) : list ascii := decimal_digits 20 value.

(** The errors are the messages of the source. *)
Inductive WireIntegerError := NotCanonical | OutOfRange | MustBeNonZero.

(** [parse_canonical]. *)
Definition parse_canonical (value : list ascii) : result N WireIntegerError :=
  try! ensure (value = [] \/ MAX_U64_DECIMAL_DIGITS < len value \/
               (1 < len value /\ head value = Some "0"%char) \/
               forallb is_ascii_digit value = false) NotCanonical in
  ok_or (parse_u64 value) OutOfRange.

(** [parse_nonzero]. *)
Definition parse_nonzero (value : list ascii) : result N WireIntegerError :=
  let? value := parse_canonical value in
  try! ensure (value = 0) MustBeNonZero in
  Ok value.

(** [canonical::serialize], [nonzero::serialize] and [optional::serialize] with their
    [deserialize]. *)
Definition serialize (value : N) : list ascii := to_string value.
Definition deserialize (value : list ascii) : result N WireIntegerError := parse_canonical value.
Definition deserialize_nonzero (value : list ascii) : result N WireIntegerError :=
  parse_nonzero value.
Definition serialize_optional (value : option N) : option (list ascii) := to_string <$> value.
Definition deserialize_optional (value : option (list ascii)) :
    result (option N) WireIntegerError :=
  match value with
  | Some value => let? value := parse_canonical value in Ok (Some value)
  | None => Ok None
  end.

(** ** Digits *)
Module WireFacts.

Lemma digit_of_spec n :
  n < 10 -> is_ascii_digit (digit_of n) = true /\ digit_value (digit_of n) = n /\
            (digit_of n = "0"%char -> n = 0).
Proof.
  intros Hn. unfold is_ascii_digit, digit_value, digit_of.
  rewrite N_ascii_embedding by lia. split_and!; [apply bool_decide_eq_true; lia | lia |].
  intros H. apply (f_equal N_of_ascii) in H. rewrite N_ascii_embedding in H by lia.
  change (N_of_ascii "0") with 48 in H. lia.
Qed.

Lemma digit_of_value c :
  is_ascii_digit c = true -> digit_of (digit_value c) = c /\ digit_value c < 10.
Proof.
  unfold is_ascii_digit, digit_value, digit_of. rewrite bool_decide_eq_true. intros Hc.
  replace (N_of_ascii c - 48 + 48) with (N_of_ascii c) by lia.
  rewrite ascii_N_embedding. split; [done | lia].
Qed.

Lemma decimal_value_snoc l c : decimal_value (l ++ [c]) = decimal_value l * 10 + digit_value c.
Proof. unfold decimal_value. by rewrite fold_left_app. Qed.

(** The canonical digit strings. *)
Definition canonical (l : list ascii) : Prop :=
  l <> [] /\ forallb is_ascii_digit l = true /\ ~ (1 < len l /\ head l = Some "0"%char).

Lemma head_app_ne {A} (l k : list A) : l <> [] -> head (l ++ k) = head l.
Proof. by destruct l. Qed.

Lemma canonical_pos l : canonical l -> 1 < len l -> 1 <= decimal_value l.
Proof.
  induction l as [| c l IH] using rev_ind; [by intros (? & _) |].
  intros (_ & Hd & Hz) Hlen. rewrite forallb_app in Hd. apply andb_prop in Hd as [Hd Hc].
  simpl in Hc. rewrite andb_true_r in Hc. apply digit_of_value in Hc as [Hdc Hc].
  rewrite decimal_value_snoc. rewrite len_app, len_cons, len_nil in Hlen.
  destruct l as [| d [| e l]].
  - unfold len in Hlen. simpl in Hlen. lia.
  - simpl in Hd. rewrite andb_true_r in Hd. apply digit_of_value in Hd as [Hdd Hd].
    unfold decimal_value. simpl. destruct (decide (digit_value d = 0)) as [H0 |]; [| lia].
    exfalso. apply Hz. split; [rewrite len_app, !len_cons, len_nil; lia |].
    simpl. rewrite <- Hdd, H0. reflexivity.
  - enough (1 <= decimal_value (d :: e :: l)) by lia. apply IH.
    + split_and!; [done | done |]. intros [_ Hh]. apply Hz. split.
      * rewrite len_app, !len_cons, len_nil. lia.
      * by rewrite head_app_ne by done.
    + rewrite !len_cons. lia.
Qed.

Lemma decimal_digits_of_value fuel l :
  canonical l -> (length l <= fuel)%nat -> decimal_digits fuel (decimal_value l) = l.
Proof.
  revert fuel. induction l as [| c l IH] using rev_ind; intros fuel Hcan Hlen; [by destruct Hcan |].
  rewrite length_app in Hlen. simpl in Hlen. destruct fuel as [| fuel]; [lia |].
  pose proof Hcan as (_ & Hd & Hz). rewrite forallb_app in Hd. apply andb_prop in Hd as [Hd Hc].
  simpl in Hc. rewrite andb_true_r in Hc. apply digit_of_value in Hc as [Hdc Hc].
  rewrite decimal_value_snoc. simpl. destruct (decide (l = [])) as [-> | Hne].
  - change (decimal_value []) with 0. simpl. rewrite decide_True by lia. f_equal. apply Hdc.
  - assert (canonical l) as Hl.
    { split_and!; [done | done |]. intros [H1 Hh]. apply Hz. split.
      - rewrite len_app, len_cons, len_nil. lia.
      - by rewrite head_app_ne. }
    assert (1 <= decimal_value l) as Hpos.
    { destruct (decide (1 < len l)) as [| Hle]; [by apply canonical_pos |].
      destruct l as [| d [| e l]]; [done | | rewrite !len_cons in Hle; lia].
      simpl in Hd. rewrite andb_true_r in Hd. apply digit_of_value in Hd as [Hdd Hd].
      unfold decimal_value. simpl. destruct (decide (digit_value d = 0)) as [H0 |]; [| lia].
      exfalso. apply Hz. split; [rewrite len_app, !len_cons, len_nil; lia |].
      simpl. rewrite <- Hdd, H0. reflexivity. }
    rewrite decide_False by lia.
    replace ((decimal_value l * 10 + digit_value c) / 10) with (decimal_value l)
      by (rewrite N.div_add_l by lia; rewrite N.div_small by lia; lia).
    replace ((decimal_value l * 10 + digit_value c) mod 10) with (digit_value c)
      by (rewrite N.add_comm, N.Div0.mod_add, N.mod_small by lia; done).
    rewrite IH by (done || lia). by rewrite Hdc.
Qed.

Lemma decimal_digits_spec fuel n :
  n < 10 ^ N.of_nat fuel -> (0 < fuel)%nat ->
  let l := decimal_digits fuel n in
  canonical l /\ (length l <= fuel)%nat /\ decimal_value l = n /\ (head l = Some "0"%char -> n = 0).
Proof.
  revert n. induction fuel as [| fuel IH]; intros n Hn Hf; [lia |]. simpl.
  case_decide as Hlt.
  - destruct (digit_of_spec n Hlt) as (Hd & Hv & Hz). unfold canonical, len. simpl.
    rewrite Hd. split_and!; try (done || lia).
    intros [= H]. by apply Hz.
  - rewrite Nat2N.inj_succ, N.pow_succ_r' in Hn.
    assert (n / 10 < 10 ^ N.of_nat fuel) by (apply N.Div0.div_lt_upper_bound; lia).
    assert (0 < fuel)%nat as Hf'.
    { destruct fuel; [| lia]. simpl in Hn. lia. }
    assert (1 <= n / 10) as Hge by (apply N.div_le_lower_bound; lia).
    destruct (IH (n / 10)) as ((Hne & Hd & Hz) & Hlen & Hv & Hh); [done | done |].
    pose proof (N.mod_lt n 10 ltac:(lia)) as Hm.
    destruct (digit_of_spec (n mod 10) Hm) as (Hdm & Hvm & _).
    assert (head (decimal_digits fuel (n / 10)) <> Some "0"%char) as Hh0
      by (intros Hx; apply Hh in Hx; lia).
    split_and!.
    + split_and!.
      * by destruct (decimal_digits fuel (n / 10)).
      * rewrite forallb_app, Hd. simpl. by rewrite Hdm.
      * intros [_ Hx]. by rewrite head_app_ne in Hx.
    + rewrite length_app. simpl. lia.
    + rewrite decimal_value_snoc, Hv, Hvm. pose proof (N.Div0.div_mod n 10). lia.
    + rewrite head_app_ne by done. intros Hx. by apply Hh0 in Hx.
Qed.

Lemma parse_canonical_Ok l n :
  parse_canonical l = Ok n <->
  canonical l /\ len l <= MAX_U64_DECIMAL_DIGITS /\ decimal_value l = n /\ n <= u64_max.
Proof.
  unfold parse_canonical, canonical, parse_u64. rewrite and_then_Ok. split.
  - intros (u & Hc & H). apply ensure_Ok in Hc. case_decide; simplify_eq/=.
    split_and!; try tauto; [| lia]. destruct (forallb is_ascii_digit l); tauto.
  - intros ((? & Hd & ?) & ? & <- & ?). exists tt. rewrite ensure_pass, decide_True by
      (try done; rewrite Hd; intros [| [| [|]]]; done || lia || tauto). done.
Qed.

Lemma to_string_spec n :
  n <= u64_max ->
  canonical (to_string n) /\ len (to_string n) <= MAX_U64_DECIMAL_DIGITS /\
  decimal_value (to_string n) = n.
Proof.
  intros Hn. destruct (decimal_digits_spec 20 n) as (? & ? & ? & _).
  - unfold u64_max in Hn. simpl. lia.
  - lia.
  - unfold to_string, len, MAX_U64_DECIMAL_DIGITS. split_and!; done || lia.
Qed.
End WireFacts.

(** ** Properties *)
Section WireProperties.
Import WireFacts.

(** Wire integers round-trip, and canonically.  Every [u64] is read back from the string
    it is printed as, required or optional, and refused by the non-zero adapter exactly
    when it is zero; and a string is accepted only if it is exactly the one its value is
    printed as, so no two strings denote the same value. *)
Theorem wire_integer_roundtrip :
  (forall n, n <= u64_max ->
     deserialize (serialize n) = Ok n /\
     deserialize_optional (serialize_optional (Some n)) = Ok (Some n) /\
     deserialize_nonzero (serialize n) = if decide (n = 0) then Err MustBeNonZero else Ok n) /\
  (forall s n, deserialize s = Ok n -> serialize n = s /\ n <= u64_max).
Proof.
  unfold deserialize, serialize, deserialize_optional, serialize_optional, deserialize_nonzero,
    parse_nonzero. split.
  - intros n Hn. destruct (to_string_spec n Hn) as (Hc & Hl & Hv).
    assert (parse_canonical (to_string n) = Ok n) as Hp by (by apply parse_canonical_Ok).
    simpl. rewrite Hp. simpl. split_and!; [done | done |].
    case_decide; [by rewrite ensure_reject | by rewrite ensure_pass].
  - intros s n H. apply parse_canonical_Ok in H as (Hc & Hl & <- & Hn). split; [| done].
    apply decimal_digits_of_value; [done |]. unfold len, MAX_U64_DECIMAL_DIGITS in Hl. lia.
Qed.

End WireProperties.
