(* ===== verification/WindowTypes.v ===== *)
(** * Window observations on the wire

    Models the data of [xenoteer-protocol/src/window.rs] with its validation: window
    references, texts, atom sets, process correlation (with the process references of
    [process.rs]), geometry and whole snapshots.  The model events are not modelled.  Serialization is
    not modelled; a string is the sequence of its UTF-8 bytes, so that [len] is its
    [String::length]. *)

From stdpp Require Import base numbers list option gmap strings.
From Stdlib Require Import Lia Ascii.
From S2P Require Import Prelude Identity Geometry.

Local Open Scope N_scope.

Definition WINDOW_IDENTITY_HASH_BYTES : N := 64.
Definition MAX_WINDOW_TEXT_BYTES : N := 4096.
Definition MAX_WINDOW_ATOM_NAME_BYTES : N := 255.
Definition MAX_WINDOW_ATOMS : N := 256.
Definition MAX_WINDOW_WARNINGS : N := 16.
Definition MAX_WINDOW_DIMENSION : Z := 65535.
Definition MAX_WINDOW_CHANGED_FIELDS : N := 32.
Definition MAX_WINDOW_PROCESS_EVIDENCE : N := 8.

(** [WindowValidationError]. *)
Inductive WindowValidationError :=
  | NilIdentifier | WindowReference | IdentityHash | ModelRevision | TextError
  | WindowClassError | AtomName | AtomSet | GeometryDimension | FrameExtents
  | SnapshotCoordinateSpace | ProcessCorrelation | ReferenceScope | XidHex | Warnings
  | ChangedFields | GeometryInvalid (e : ProtocolGeometryError).

(** [str::len]. *)
Definition str_len (s : string) : N := N.of_nat (String.length s).

(** [Uuid::is_nil]. *)
Definition is_nil (uuid : N) : bool := bool_decide (uuid = 0).
Definition nil_scope (desktop : DesktopId) (generation : DesktopGeneration) : bool :=
  is_nil (desktop_uuid desktop) || is_nil (generation_uuid generation).

(** [has_duplicates]. *)
Fixpoint duplicates_after {T} `{EqDecision T} (before : list T) (values : list T) : bool :=
  match values with
  | [] => false
  | value :: values =>
      bool_decide (value ∈ before) || duplicates_after (before ++ [value]) values
  end.
Definition has_duplicates {T} `{EqDecision T} (values : list T) : bool :=
  duplicates_after [] values.

Lemma duplicates_after_spec {T} `{EqDecision T} (values before : list T) :
  NoDup before -> duplicates_after before values = false <-> NoDup (before ++ values).
Proof.
  revert before. induction values as [| v values IH]; intros before Hb; simpl.
  - by rewrite app_nil_r.
  - rewrite orb_false_iff, bool_decide_eq_false. split.
    + intros [Hn Hd]. rewrite IH in Hd; [by rewrite <- app_assoc in Hd |].
      apply NoDup_app. split_and!; [done | | apply NoDup_singleton].
      by intros x Hx ->%list_elem_of_singleton.
    + intros Hd. assert (v ∉ before) as Hv.
      { apply NoDup_app in Hd as (_ & Hd & _). intros Hin. apply (Hd v Hin). by left. }
      split; [done |]. apply IH; [| by rewrite <- app_assoc].
      apply NoDup_app. split_and!; [done | | apply NoDup_singleton].
      by intros x Hx ->%list_elem_of_singleton.
Qed.

Lemma has_duplicates_spec {T} `{EqDecision T} (values : list T) :
  has_duplicates values = false <-> NoDup values.
Proof. apply (duplicates_after_spec values []). constructor. Qed.

(** ** References *)

(** [WindowModelRevision::new]: a non-zero [u64]. *)
Record WindowModelRevision := mkRevision { revision_get : N }.

Definition new_revision (value : N) : result WindowModelRevision WindowValidationError :=
  try! ensure (value = 0) ModelRevision in Ok (mkRevision value).

(** [WindowIdentityHash::new]. *)
Record WindowIdentityHash := mkIdentityHash { hash_str : string }.

Definition is_hash_byte (byte : ascii) : bool :=
  bool_decide (48 <= N_of_ascii byte <= 57) || bool_decide (97 <= N_of_ascii byte <= 102).

Definition new_identity_hash (value : string) :
    result WindowIdentityHash WindowValidationError :=
  try! ensure (str_len value <> WINDOW_IDENTITY_HASH_BYTES \/
               forallb is_hash_byte (String.list_ascii_of_string value) = false) IdentityHash in
  Ok (mkIdentityHash value).

#[export] Instance revision_eq_dec : EqDecision WindowModelRevision.
Proof. solve_decision. Defined.
#[export] Instance identity_hash_eq_dec : EqDecision WindowIdentityHash.
Proof. solve_decision. Defined.

(** [WindowRef]. *)
Module WindowRef.
Record t := mk {
  desktop_id : DesktopId;
  desktop_generation : DesktopGeneration;
  xid : N;
  observed_generation : N;
  identity_hash : WindowIdentityHash;
}.

#[export] Instance eq_dec : EqDecision t.
Proof. solve_decision. Defined.

(** [WindowRef::validate_shape]; [WindowRef::validate] is the same. *)
Definition validate_shape (self : t) : result unit WindowValidationError :=
  try! ensure (nil_scope (desktop_id self) (desktop_generation self) = true) NilIdentifier in
  try! ensure (xid self = 0 \/ observed_generation self = 0) WindowReference in
  try! new_identity_hash (hash_str (identity_hash self)) in
  Ok tt.

Definition validate : t -> result unit WindowValidationError := validate_shape.

(** One hexadecimal digit, and [format!("0x{:08x}", self.xid)]: of a [u32]. *)
Definition hex_digit (n : N) : ascii :=
  if decide (n < 10) then ascii_of_N (48 + n) else ascii_of_N (87 + n).
Definition hex8 (n : N) : list ascii :=
  map (fun i => hex_digit ((n / 16 ^ N.of_nat (7 - i)) mod 16)) (seq 0 8).
Definition xid_hex (self : t) : string :=
  String.string_of_list_ascii ("0"%char :: "x"%char :: hex8 (xid self)).

(** [WindowRef::shares_desktop_scope]. *)
Definition shares_desktop_scope (self other : t) : bool :=
  bool_decide (desktop_id self = desktop_id other /\
               desktop_generation self = desktop_generation other).
End WindowRef.
Export (hints) WindowRef.

(** ** Text and atoms *)
Record WindowText := mkText { text_value : string; text_lossy : bool }.

Definition validate_text (self : WindowText) : result unit WindowValidationError :=
  ensure (MAX_WINDOW_TEXT_BYTES < str_len (text_value self)) TextError.

(** [WindowText::new]. *)
Definition new_text (value : string) (lossy : bool) : result WindowText WindowValidationError :=
  let value := mkText value lossy in
  try! validate_text value in Ok value.

Definition validate_optional {A} (validate : A -> result unit WindowValidationError)
    (value : option A) : result unit WindowValidationError :=
  match value with Some value => validate value | None => Ok tt end.

Record WindowClass := mkClass { class_instance : option WindowText; class_class : option WindowText }.

(** [WindowClass::validate]. *)
Definition validate_class (self : WindowClass) : result unit WindowValidationError :=
  try! ensure (class_instance self = None /\ class_class self = None) WindowClassError in
  try! validate_optional validate_text (class_instance self) in
  validate_optional validate_text (class_class self).

Record WindowAtomName := mkAtomName { atom_str : string }.

(** [char::is_control] somewhere in the UTF-8 bytes: the bytes of U+0000 to U+001F and
    U+007F, and the two-byte sequences of U+0080 to U+009F. *)
Fixpoint has_control (bytes : list N) : bool :=
  match bytes with
  | [] => false
  | byte :: rest =>
      bool_decide (byte < 32 \/ byte = 127) ||
      (match rest with
       | next :: _ => bool_decide (byte = 194 /\ 128 <= next <= 159)
       | [] => false
       end) || has_control rest
  end.

(** [WindowAtomName::new]. *)
Definition new_atom_name (value : string) : result WindowAtomName WindowValidationError :=
  try! ensure (str_len value = 0 \/ MAX_WINDOW_ATOM_NAME_BYTES < str_len value \/
               has_control (map N_of_ascii (String.list_ascii_of_string value)) = true) AtomName in
  Ok (mkAtomName value).

#[export] Instance window_text_eq_dec : EqDecision WindowText.
Proof. solve_decision. Defined.
#[export] Instance window_class_eq_dec : EqDecision WindowClass.
Proof. solve_decision. Defined.
#[export] Instance atom_name_eq_dec : EqDecision WindowAtomName.
Proof. solve_decision. Defined.

(** ** Geometry *)
Inductive CoordinateSpace := RootPhysical | WindowClient | WindowFrame | AtspiScreen.

#[export] Instance coordinate_space_eq_dec : EqDecision CoordinateSpace.
Proof. solve_decision. Defined.
#[export] Instance rect_eq_dec : EqDecision Rect.t.
Proof. solve_decision. Defined.

(** [WindowRect]. *)
Module WindowRect.
Record t := mk { coordinate_space : CoordinateSpace; rect : Rect.t }.

#[export] Instance window_rect_eq_dec : EqDecision t.
Proof. solve_decision. Defined.

(** [WindowRect::validate]. *)
Definition validate (self : t) : result unit WindowValidationError :=
  try! map_err GeometryInvalid (Rect.validate (rect self)) in
  let? size := map_err GeometryInvalid (Rect.size (rect self)) in
  ensure (MAX_WINDOW_DIMENSION < Size.width size \/ MAX_WINDOW_DIMENSION < Size.height size)%Z
    GeometryDimension.

(** [WindowRect::new]. *)
Definition new (coordinate_space : CoordinateSpace) (rect : Rect.t) :
    result t WindowValidationError :=
  let value := mk coordinate_space rect in
  try! validate value in Ok value.
End WindowRect.
Export (hints) WindowRect.

(** [WindowFrameExtents]. *)
Module Extents.
Record t := mk { left : Z; right : Z; top : Z; bottom : Z }.

#[export] Instance extents_eq_dec : EqDecision t.
Proof. solve_decision. Defined.

Definition validate (self : t) : result unit WindowValidationError :=
  ensure (Exists (fun extent => MAX_WINDOW_DIMENSION < extent)%Z
            [left self; right self; top self; bottom self]) FrameExtents.
End Extents.
Export (hints) Extents.

(** [WindowGeometry]. *)
Module WindowGeometry.
Record t := mk {
  client_rect : WindowRect.t;
  frame_rect : option WindowRect.t;
  content_rect : WindowRect.t;
  frame_extents : option Extents.t;
}.

#[export] Instance geometry_eq_dec : EqDecision t.
Proof. solve_decision. Defined.

(** [WindowGeometry::validate]. *)
Definition validate (self : t) : result unit WindowValidationError :=
  try! WindowRect.validate (client_rect self) in
  try! WindowRect.validate (content_rect self) in
  try! validate_optional WindowRect.validate (frame_rect self) in
  try! ensure (Exists (fun value => WindowRect.coordinate_space value <> RootPhysical)
                 (client_rect self :: option_list (frame_rect self) ++ [content_rect self]))
         SnapshotCoordinateSpace in
  validate_optional Extents.validate (frame_extents self).
End WindowGeometry.
Export (hints) WindowGeometry.

(** ** Process correlation *)
Record LaunchId := mkLaunchId { launch_uuid : N }.
#[export] Instance launch_id_eq_dec : EqDecision LaunchId.
Proof. solve_decision. Defined.

(** [ProcessRef] of [process.rs], with the two failures of its validation. *)
Module ProcessRef.
Record t := mk {
  desktop_generation : DesktopGeneration;
  pid : N;
  proc_start_ticks : N;
  launch_id : LaunchId;
}.

#[export] Instance process_ref_eq_dec : EqDecision t.
Proof. solve_decision. Defined.

Inductive ProcessValidationError := ProcessNilIdentifier | ProcessReference.

Definition validate (self : t) : result unit ProcessValidationError :=
  try! ensure (is_nil (generation_uuid (desktop_generation self)) ||
               is_nil (launch_uuid (launch_id self)) = true) ProcessNilIdentifier in
  ensure (pid self = 0 \/ proc_start_ticks self = 0) ProcessReference.
End ProcessRef.
Export (hints) ProcessRef.

Inductive WindowProcessConfidence := NoConfidence | LowConfidence | MediumConfidence | HighConfidence.

Inductive WindowProcessEvidence :=
  | NetWmPid | ProcStartTime | ProcessGroup | ClientLeader | WmClass | WmCommand
  | ClientMachine | UniqueCandidate.

#[export] Instance confidence_eq_dec : EqDecision WindowProcessConfidence.
Proof. solve_decision. Defined.
#[export] Instance evidence_eq_dec : EqDecision WindowProcessEvidence.
Proof. solve_decision. Defined.

(** [WindowProcessCorrelation]. *)
Module Correlation.
Record t := mk {
  reported_pid : option N;
  managed_process : option ProcessRef.t;
  confidence : WindowProcessConfidence;
  evidence : list WindowProcessEvidence;
  conflict : bool;
}.

#[export] Instance correlation_eq_dec : EqDecision t.
Proof. solve_decision. Defined.

Definition has_evidence (self : t) (needle : WindowProcessEvidence) : bool :=
  bool_decide (needle ∈ evidence self).

(** One of the evidences that identify a process. *)
Definition has_identity_anchor (self : t) : bool :=
  has_evidence self ProcStartTime || has_evidence self ProcessGroup ||
  has_evidence self ClientLeader.

(** [WindowProcessCorrelation::validate]. *)
Definition validate (desktop_generation : DesktopGeneration) (self : t) :
    result unit WindowValidationError :=
  try! ensure (reported_pid self = Some 0 \/
               MAX_WINDOW_PROCESS_EVIDENCE < len (evidence self) \/
               has_duplicates (evidence self) = true) ProcessCorrelation in
  try! match managed_process self with
       | Some process =>
           try! map_err (fun _ => ProcessCorrelation) (ProcessRef.validate process) in
           ensure (ProcessRef.desktop_generation process <> desktop_generation) ReferenceScope
       | None => Ok tt
       end in
  try! ensure (has_evidence self NetWmPid = true /\ reported_pid self = None) ProcessCorrelation in
  try! ensure (confidence self = NoConfidence /\
               (evidence self <> [] \/ managed_process self <> None \/ conflict self = true))
         ProcessCorrelation in
  try! ensure (confidence self <> NoConfidence /\ evidence self = []) ProcessCorrelation in
  try! ensure (managed_process self <> None /\ has_identity_anchor self = false)
         ProcessCorrelation in
  try! ensure (confidence self = HighConfidence /\
               (managed_process self = None \/ conflict self = true \/
                has_identity_anchor self = false \/ len (evidence self) < 2)) ProcessCorrelation in
  ensure (conflict self = true /\
          (reported_pid self = None \/ managed_process self = None \/
           has_evidence self NetWmPid = false \/ has_identity_anchor self = false))
    ProcessCorrelation.
End Correlation.
Export (hints) Correlation.

(** ** Metadata and snapshots *)
Inductive WindowMapState := Unmapped | Unviewable | Viewable.
#[export] Instance map_state_eq_dec : EqDecision WindowMapState.
Proof. solve_decision. Defined.

Record WindowObservedState := mkObservedState {
  map_state : WindowMapState;
  minimized : bool; hidden : bool; urgent : bool; modal : bool;
  sticky : bool; active : bool; focused : bool;
}.
#[export] Instance observed_state_eq_dec : EqDecision WindowObservedState.
Proof. solve_decision. Defined.

(** [WindowMetadata]. *)
Module Metadata.
Record t := mk {
  title : option WindowText;
  visible_title : option WindowText;
  icon_title : option WindowText;
  class : option WindowClass;
  client_machine : option WindowText;
  window_types : list WindowAtomName;
  states : list WindowAtomName;
  allowed_actions : list WindowAtomName;
  protocols : list WindowAtomName;
}.

#[export] Instance metadata_eq_dec : EqDecision t.
Proof. solve_decision. Defined.

(** [WindowMetadata::validate]. *)
Definition validate (self : t) : result unit WindowValidationError :=
  try! try_each (validate_optional validate_text)
         [title self; visible_title self; icon_title self; client_machine self] in
  try! validate_optional validate_class (class self) in
  try_each (fun values : list WindowAtomName =>
      ensure (MAX_WINDOW_ATOMS < len values \/ has_duplicates values = true) AtomSet)
    [window_types self; states self; allowed_actions self; protocols self].
End Metadata.
Export (hints) Metadata.

Inductive WindowSnapshotWarning :=
  | MalformedProperty (property : WindowAtomName)
  | TruncatedProperty (property : WindowAtomName)
  | LossyPropertyText (property : WindowAtomName)
  | UnsupportedPropertyEncoding (property : WindowAtomName)
  | ProcessEvidenceConflict
  | FrameGeometryUnavailable
  | FrameExtentsUnverified.
#[export] Instance warning_eq_dec : EqDecision WindowSnapshotWarning.
Proof. solve_decision. Defined.

(** [WindowSnapshot]. *)
Module Snapshot.
Record t := mk {
  window : WindowRef.t;
  xid_hex : string;
  model_revision : WindowModelRevision;
  metadata : Metadata.t;
  process : Correlation.t;
  state : WindowObservedState;
  geometry : option WindowGeometry.t;
  workspace : option N;
  client_leader : option WindowRef.t;
  transient_for : option WindowRef.t;
  group_leader : option WindowRef.t;
  stacking_index : option N;
  has_accessibility_application : bool;
  warnings : list WindowSnapshotWarning;
}.

#[export] Instance snapshot_eq_dec : EqDecision t.
Proof. solve_decision. Defined.

Definition set_model_revision (v : WindowModelRevision) (s : t) : t :=
  mk (window s) (xid_hex s) v (metadata s) (process s) (state s) (geometry s) (workspace s)
    (client_leader s) (transient_for s) (group_leader s) (stacking_index s)
    (has_accessibility_application s) (warnings s).

(** [WindowSnapshot::validate]. *)
Definition validate (self : t) : result unit WindowValidationError :=
  try! WindowRef.validate_shape (window self) in
  try! ensure (xid_hex self <> WindowRef.xid_hex (window self)) XidHex in
  try! Metadata.validate (metadata self) in
  try! Correlation.validate (WindowRef.desktop_generation (window self)) (process self) in
  try! validate_optional WindowGeometry.validate (geometry self) in
  try! try_each (validate_optional (fun related =>
           try! WindowRef.validate_shape related in
           ensure (WindowRef.shares_desktop_scope (window self) related = false) ReferenceScope))
         [client_leader self; transient_for self; group_leader self] in
  try! ensure (MAX_WINDOW_WARNINGS < len (warnings self)) Warnings in
  ensure (has_duplicates (warnings self) = true \/
          Correlation.conflict (process self) <>
            bool_decide (ProcessEvidenceConflict ∈ warnings self)) Warnings.
End Snapshot.
Export (hints) Snapshot.
