(* ===== verification/Windows.v ===== *)
(** * The window identity model

    Models [xenoteer-core/src/window.rs]: the live windows of one desktop lifetime,
    keyed by XID, the bounded tombstones of destroyed windows, and the exact
    resolution of references.  The abstract specification is a registry that never
    forgets a birth or a death; the model refines it with bounded memory. *)

From stdpp Require Import base numbers list option gmap strings sorting.
From Stdlib Require Import Lia.
From S2P Require Import Prelude Identity WindowTypes.

Local Open Scope N_scope.

(** [WindowModelError]. *)
Inductive WindowModelError :=
  | ScopeNilIdentifier | InvalidLimits
  | InvalidSnapshot (e : WindowValidationError)
  | InvalidReference (e : WindowValidationError)
  | WrongDesktopLifetime | XidAlreadyLive
  | UnexpectedBirthGeneration (expected actual : N)
  | LiveCapacityExhausted | BirthGenerationExhausted | RevisionExhausted
  | ClockOverflow | ClockMovedBackwards
  | WindowNotFound | StaleReference | DestroyedReference | AlreadyDestroyed.

(** [WindowModelLimits]. *)
Module WindowModelLimits.
Record t := mk { max_live_windows : N; max_tombstones : N; tombstone_ttl_ms : N }.

(** [Default::default]. *)
Definition default : t := mk 4096 8192 (15 * 60 * 1000).

(** [WindowModelLimits::validate]. *)
Definition validate (self : t) : result t WindowModelError :=
  try! ensure (max_live_windows self = 0 \/ max_tombstones self = 0 \/ tombstone_ttl_ms self = 0)
         InvalidLimits in
  Ok self.
End WindowModelLimits.

(** [WindowTombstone]. *)
Module Tombstone.
Record t := mk {
  window : WindowRef.t;
  destroyed_revision : WindowModelRevision;
  expires_at : N;
}.
End Tombstone.

(** [ResolvedWindow], [WindowModelChange] and [WindowQueryRecord]. *)
Record ResolvedWindow := mkResolved {
  resolved_revision : WindowModelRevision;
  resolved_snapshot : Snapshot.t;
}.

Inductive WindowModelChange := Created (snapshot : Snapshot.t) | Updated (snapshot : Snapshot.t).

Record WindowQueryRecord := mkQueryRecord {
  record_snapshot : Snapshot.t;
  record_created_revision : WindowModelRevision;
}.

(** [LiveWindow]. *)
Module LiveWindow.
Record t := mk { snapshot : Snapshot.t; created_revision : WindowModelRevision }.

Definition reference (self : t) : WindowRef.t := Snapshot.window (snapshot self).
End LiveWindow.

(** [project_snapshot]. *)
Definition project_snapshot (window : LiveWindow.t) (revision : WindowModelRevision) : Snapshot.t :=
  Snapshot.set_model_revision revision (LiveWindow.snapshot window).

(** ** The model *)
Module WindowModel.
Record t := mk {
  desktop_id : DesktopId;
  desktop_generation : DesktopGeneration;
  revision : WindowModelRevision;
  limits : WindowModelLimits.t;
  live : gmap N LiveWindow.t;
  tombstones : list Tombstone.t;
  last_birth_serial : N;
  last_now : N;
}.

Definition set_revision (v : WindowModelRevision) (s : t) : t :=
  mk (desktop_id s) (desktop_generation s) v (limits s) (live s) (tombstones s)
    (last_birth_serial s) (last_now s).
Definition set_live (v : gmap N LiveWindow.t) (s : t) : t :=
  mk (desktop_id s) (desktop_generation s) (revision s) (limits s) v (tombstones s)
    (last_birth_serial s) (last_now s).
Definition set_tombstones (v : list Tombstone.t) (s : t) : t :=
  mk (desktop_id s) (desktop_generation s) (revision s) (limits s) (live s) v
    (last_birth_serial s) (last_now s).
Definition set_last_birth_serial (v : N) (s : t) : t :=
  mk (desktop_id s) (desktop_generation s) (revision s) (limits s) (live s) (tombstones s)
    v (last_now s).
Definition set_last_now (v : N) (s : t) : t :=
  mk (desktop_id s) (desktop_generation s) (revision s) (limits s) (live s) (tombstones s)
    (last_birth_serial s) v.

(** [WindowModel::new]. *)
Definition new (desktop : DesktopId) (generation : DesktopGeneration)
    (limits : WindowModelLimits.t) : result t WindowModelError :=
  try! ensure (nil_scope desktop generation = true) ScopeNilIdentifier in
  let? revision := map_err InvalidSnapshot (new_revision 1) in
  let? limits := WindowModelLimits.validate limits in
  Ok (mk desktop generation revision limits ∅ [] 0 0).

(** [WindowModel::counts]: the live windows and the tombstones. *)
Definition counts (self : t) : N * N := (N.of_nat (size (live self)), len (tombstones self)).

(** [WindowModel::next_birth_serial]. *)
Definition next_birth_serial (self : t) : result N WindowModelError :=
  ok_or (checked_add_u64 (last_birth_serial self) 1) BirthGenerationExhausted.

(** [WindowModel::live_reference]. *)
Definition live_reference (xid : N) (self : t) : option WindowRef.t :=
  LiveWindow.reference <$> live self !! xid.

(** [WindowModel::require_scope]. *)
Definition require_scope (reference : WindowRef.t) (self : t) : result unit WindowModelError :=
  ensure (WindowRef.desktop_id reference <> desktop_id self \/
          WindowRef.desktop_generation reference <> desktop_generation self)
    WrongDesktopLifetime.

(** [WindowModel::next_revision]. *)
Definition next_revision : M t WindowModelError WindowModelRevision :=
  self <- get ;;
  next <- lift (ok_or (checked_add_u64 (revision_get (revision self)) 1) RevisionExhausted) ;;
  revision <- lift (map_err InvalidSnapshot (new_revision next)) ;;
  modify (set_revision revision) ;;;
  ret revision.

(** The loop of [WindowModel::advance_time]: expired tombstones leave at the front. *)
Fixpoint expire (now : N) (tombstones : list Tombstone.t) : list Tombstone.t :=
  match tombstones with
  | [] => []
  | entry :: rest =>
      if decide (Tombstone.expires_at entry <= now) then expire now rest else tombstones
  end.

(** [WindowModel::advance_time]. *)
Definition advance_time (now : N) : M t WindowModelError unit :=
  self <- get ;;
  reject_if (now < last_now self) ClockMovedBackwards ;;;
  modify (fun self => set_tombstones (expire now (tombstones self)) (set_last_now now self)).

(** The first half of [WindowModel::observe]: the creation revision of the window the
    snapshot refreshes, [None] for a birth. *)
Definition admit_observation (snapshot : Snapshot.t) (self : t) :
    result (option WindowModelRevision) WindowModelError :=
  let window := Snapshot.window snapshot in
  match live self !! WindowRef.xid window with
  | Some current =>
      try! ensure (LiveWindow.reference current <> window) XidAlreadyLive in
      Ok (Some (LiveWindow.created_revision current))
  | None =>
      try! ensure (WindowModelLimits.max_live_windows (limits self) <=
                   N.of_nat (size (live self))) LiveCapacityExhausted in
      let? expected_birth := next_birth_serial self in
      try! ensure (WindowRef.observed_generation window <> expected_birth)
             (UnexpectedBirthGeneration expected_birth (WindowRef.observed_generation window)) in
      Ok None
  end.

(** [WindowModel::observe]. *)
Definition observe (snapshot : Snapshot.t) (now : N) : M t WindowModelError WindowModelChange :=
  advance_time now ;;;
  lift (map_err InvalidSnapshot (Snapshot.validate snapshot)) ;;;
  self <- get ;;
  lift (require_scope (Snapshot.window snapshot) self) ;;;
  let xid := WindowRef.xid (Snapshot.window snapshot) in
  existing_creation_revision <- lift (admit_observation snapshot self) ;;
  model_revision <- next_revision ;;
  let snapshot := Snapshot.set_model_revision model_revision snapshot in
  let created_revision := default model_revision existing_creation_revision in
  let insert_live self :=
    set_live (<[xid := LiveWindow.mk snapshot created_revision]> (live self)) self in
  match existing_creation_revision with
  | None =>
      modify (set_last_birth_serial (WindowRef.observed_generation (Snapshot.window snapshot))) ;;;
      modify insert_live ;;;
      ret (Created snapshot)
  | Some _ =>
      modify insert_live ;;;
      ret (Updated snapshot)
  end.

(** Is the reference among the tombstones? *)
Definition is_tombstoned (reference : WindowRef.t) (self : t) : bool :=
  existsb (fun entry => bool_decide (Tombstone.window entry = reference)) (tombstones self).

(** The bound of the tombstone queue: [while len > max { pop_front() }]. *)
Fixpoint trim (maximum : N) (tombstones : list Tombstone.t) : list Tombstone.t :=
  match tombstones with
  | [] => []
  | _ :: rest =>
      if decide (maximum < len tombstones) then trim maximum rest else tombstones
  end.

(** [WindowModel::destroy].  The live window has left when the expiry overflows. *)
Definition destroy (reference : WindowRef.t) (now : N) : M t WindowModelError Tombstone.t :=
  advance_time now ;;;
  lift (map_err InvalidReference (WindowRef.validate reference)) ;;;
  self <- get ;;
  lift (require_scope reference self) ;;;
  match live self !! WindowRef.xid reference with
  | None =>
      if is_tombstoned reference self then fail AlreadyDestroyed else fail WindowNotFound
  | Some current =>
      reject_if (LiveWindow.reference current <> reference) StaleReference ;;;
      destroyed_revision <- next_revision ;;
      modify (fun self => set_live (delete (WindowRef.xid reference) (live self)) self) ;;;
      expires_at <- lift (ok_or (MonotonicMillis.checked_add now
        (WindowModelLimits.tombstone_ttl_ms (limits self))) ClockOverflow) ;;
      let tombstone := Tombstone.mk reference destroyed_revision expires_at in
      modify (fun self => set_tombstones
        (trim (WindowModelLimits.max_tombstones (limits self))
          (tombstones self ++ [tombstone])) self) ;;;
      ret tombstone
  end.

(** [WindowModel::resolve_exact]. *)
Definition resolve_exact (reference : WindowRef.t) (now : N) :
    M t WindowModelError ResolvedWindow :=
  advance_time now ;;;
  lift (map_err InvalidReference (WindowRef.validate reference)) ;;;
  self <- get ;;
  lift (require_scope reference self) ;;;
  match live self !! WindowRef.xid reference with
  | Some current =>
      reject_if (LiveWindow.reference current <> reference) StaleReference ;;;
      ret (mkResolved (revision self) (project_snapshot current (revision self)))
  | None =>
      if is_tombstoned reference self then fail DestroyedReference else fail WindowNotFound
  end.

(** The live windows in the order of their XIDs. *)
Definition live_values (self : t) : list LiveWindow.t := (btree_iter N.compare (live self)).*2.

(** [WindowModel::snapshot_all]. *)
Definition snapshot_all (now : N) :
    M t WindowModelError (WindowModelRevision * list Snapshot.t) :=
  advance_time now ;;;
  self <- get ;;
  ret (revision self, map (fun window => project_snapshot window (revision self)) (live_values self)).

(** [WindowModel::snapshot_query_records]. *)
Definition snapshot_query_records (now : N) :
    M t WindowModelError (WindowModelRevision * list WindowQueryRecord) :=
  advance_time now ;;;
  self <- get ;;
  ret (revision self,
       map (fun window => mkQueryRecord (project_snapshot window (revision self))
                            (LiveWindow.created_revision window)) (live_values self)).
End WindowModel.

(** ** The tombstone queue *)
Section Tombstones.
  Implicit Types (l : list Tombstone.t) (now m : N).

Definition by_expiry (a b : Tombstone.t) : Prop :=
  Tombstone.expires_at a <= Tombstone.expires_at b.

Lemma suffix_Forall (P : Tombstone.t -> Prop) l k : l `suffix_of` k -> Forall P k -> Forall P l.
Proof. intros [pre ->] [_ H]%Forall_app. done. Qed.

Lemma suffix_sorted l k :
  l `suffix_of` k -> Sorted.StronglySorted by_expiry k -> Sorted.StronglySorted by_expiry l.
Proof. intros [pre ->]. apply StronglySorted_app_1_r. Qed.

Lemma expire_all_live now l :
  Forall (fun entry => now < Tombstone.expires_at entry) l -> WindowModel.expire now l = l.
Proof. destruct 1 as [| entry l He _]; simpl; [done |]. by rewrite decide_False by lia. Qed.

(** What is left has not expired, when the expiries are in order. *)
Lemma expire_live now l :
  Sorted.StronglySorted by_expiry l ->
  Forall (fun entry => now < Tombstone.expires_at entry) (WindowModel.expire now l).
Proof.
  induction 1 as [| entry l Hs IH Hall]; simpl; [done |]. case_decide; [done |].
  constructor; [lia |]. eapply Forall_impl; [done |]. unfold by_expiry. intros b Hb. simpl in Hb. lia.
Qed.

Lemma expire_suffix now l : WindowModel.expire now l `suffix_of` l.
Proof. induction l as [| entry l IH]; simpl; [done |]. case_decide; [by apply suffix_cons_r | done]. Qed.

Lemma trim_drop m l : WindowModel.trim m l = drop (length l - N.to_nat m) l.
Proof.
  induction l as [| entry l IH]; simpl; [done |].
  unfold len. simpl. case_decide as Hm.
  - rewrite IH. destruct (N.to_nat m) eqn:Hn; simpl.
    + by rewrite Nat.sub_0_r.
    + replace (length l - n)%nat with (S (length l - S n)) by lia. done.
  - by replace (S (length l) - N.to_nat m)%nat with 0%nat by lia.
Qed.

Lemma trim_suffix m l : WindowModel.trim m l `suffix_of` l.
Proof. rewrite trim_drop. apply suffix_drop. Qed.

Lemma trim_length m l : len (WindowModel.trim m l) <= m.
Proof. rewrite trim_drop. unfold len. rewrite length_drop. lia. Qed.

Lemma trim_short m l : len l <= m -> WindowModel.trim m l = l.
Proof. intros Hl. rewrite trim_drop. unfold len in Hl. by replace (length l - N.to_nat m)%nat with 0%nat by lia. Qed.

Lemma suffix_length_le l k : l `suffix_of` k -> len l <= len k.
Proof. intros [pre ->]. rewrite len_app. lia. Qed.

(** On a queue in order, expiring at the front removes everything that has expired. *)
Lemma expire_filter now l :
  Sorted.StronglySorted by_expiry l ->
  WindowModel.expire now l = filter (fun entry => now < Tombstone.expires_at entry) l.
Proof.
  intros Hs. pose proof (expire_live now l Hs) as Hl. revert Hs Hl.
  induction 1 as [| entry l Hs IH Hall]; simpl; [done |]. rewrite filter_cons.
  case_decide as He; intros Hl.
  - rewrite decide_False by lia. by apply IH.
  - rewrite decide_True by lia. f_equal. symmetry. apply filter_all.
    apply list.Forall_cons in Hl as [_ Hl]. by apply Forall_forall.
Qed.

(** Later expirations subsume earlier ones. *)
Lemma expire_expire now now' l :
  now <= now' -> WindowModel.expire now' (WindowModel.expire now l) = WindowModel.expire now' l.
Proof.
  intros Hle. induction l as [| entry l IH]; simpl; [done |].
  destruct (decide (Tombstone.expires_at entry <= now)); simpl; [| done].
  rewrite (decide_True (P := Tombstone.expires_at entry <= now')) by lia. done.
Qed.

Lemma expire_snoc now l entry :
  now < Tombstone.expires_at entry ->
  WindowModel.expire now (l ++ [entry]) = WindowModel.expire now l ++ [entry].
Proof.
  intros He. induction l as [| x l IH]; simpl; [by rewrite decide_False by lia |].
  case_decide; [done |]. done.
Qed.

Lemma trim_expire now m l :
  Sorted.StronglySorted by_expiry l ->
  WindowModel.trim m (WindowModel.expire now l) = WindowModel.expire now (WindowModel.trim m l).
Proof.
  induction 1 as [| entry l Hs IH Hall]; [done |]. cbn [WindowModel.expire].
  destruct (decide (Tombstone.expires_at entry <= now)) as [He | He].
  - rewrite IH. cbn [WindowModel.trim]. destruct (decide (m < len (entry :: l))) as [Hm | Hm]; [done |].
    cbn [WindowModel.expire]. rewrite (decide_True (P := Tombstone.expires_at entry <= now)) by done.
    rewrite len_cons in Hm. by rewrite trim_short by lia.
  - symmetry. apply expire_all_live. eapply (suffix_Forall _ _ (entry :: l)); [apply trim_suffix |].
    constructor; [lia |]. eapply Forall_impl; [done |]. unfold by_expiry. intros b Hb. simpl in Hb. lia.
Qed.

Lemma trim_trim_snoc m l entry :
  WindowModel.trim m (WindowModel.trim m l ++ [entry]) = WindowModel.trim m (l ++ [entry]).
Proof.
  rewrite (trim_drop m l), !trim_drop, !length_app, length_drop. simpl.
  rewrite <- (drop_app_le l [entry]) by lia. rewrite drop_drop. f_equal. lia.
Qed.

(** A queue that was trimmed and expired at every step equals the whole history trimmed and
    expired once. *)
Lemma retained_snoc now m l entry :
  Sorted.StronglySorted by_expiry (l ++ [entry]) -> now < Tombstone.expires_at entry ->
  WindowModel.trim m (WindowModel.expire now (WindowModel.trim m l) ++ [entry]) =
  WindowModel.expire now (WindowModel.trim m (l ++ [entry])).
Proof.
  intros Hs He. rewrite <- expire_snoc by done. rewrite trim_expire; [by rewrite trim_trim_snoc |].
  rewrite trim_drop, <- drop_app_le by lia.
  eapply suffix_sorted; [apply suffix_drop | done].
Qed.

End Tombstones.

(** ** The abstract specification: a registry of births and deaths

    [born] lists every window ever admitted, in order; [buried] the tombstone of every
    window destroyed; [lost] the windows whose destruction reported [ClockOverflow]. *)
Module Registry.
Record t := mk {
  born : list WindowRef.t;
  buried : list Tombstone.t;
  lost : list WindowRef.t;
}.

Definition empty : t := mk [] [] [].
Definition birth (window : WindowRef.t) (g : t) : t := mk (born g ++ [window]) (buried g) (lost g).
Definition bury (tombstone : Tombstone.t) (g : t) : t :=
  mk (born g) (buried g ++ [tombstone]) (lost g).
Definition lose (window : WindowRef.t) (g : t) : t := mk (born g) (buried g) (lost g ++ [window]).

Definition dead (g : t) : list WindowRef.t := map Tombstone.window (buried g) ++ lost g.

(** Born and not destroyed since. *)
Definition alive (g : t) (window : WindowRef.t) : Prop := window ∈ born g /\ window ∉ dead g.

(** The tombstones a bounded model still holds: the youngest ones, until they expire. *)
Definition remembered (limits : WindowModelLimits.t) (now : N) (g : t) : list Tombstone.t :=
  filter (fun entry => now < Tombstone.expires_at entry)
    (drop (length (buried g) - N.to_nat (WindowModelLimits.max_tombstones limits)) (buried g)).

(** ... which the queue of the model comes to. *)
Lemma remembered_held limits now g :
  Sorted.StronglySorted by_expiry (buried g) ->
  WindowModel.expire now (WindowModel.trim (WindowModelLimits.max_tombstones limits) (buried g)) =
  remembered limits now g.
Proof.
  intros Hs. rewrite trim_drop. apply expire_filter.
  eapply suffix_sorted; [apply suffix_drop | done].
Qed.

(** What the registry answers about a reference at a time. *)
Inductive answer (limits : WindowModelLimits.t) (now : N) (g : t) (reference : WindowRef.t) :
    result unit WindowModelError -> Prop :=
  | answer_live : alive g reference -> answer limits now g reference (Ok tt)
  | answer_stale other :
      alive g other -> WindowRef.xid other = WindowRef.xid reference -> other <> reference ->
      answer limits now g reference (Err StaleReference)
  | answer_destroyed :
      reference ∈ map Tombstone.window (remembered limits now g) ->
      (forall other, alive g other -> WindowRef.xid other <> WindowRef.xid reference) ->
      answer limits now g reference (Err DestroyedReference)
  | answer_unknown :
      reference ∉ map Tombstone.window (remembered limits now g) ->
      (forall other, alive g other -> WindowRef.xid other <> WindowRef.xid reference) ->
      answer limits now g reference (Err WindowNotFound).
End Registry.

(** ** Calls on the model *)
Module ModelTrace.
Inductive op :=
  | Observe (snapshot : Snapshot.t) (now : N)
  | Destroy (reference : WindowRef.t) (now : N)
  | Resolve (reference : WindowRef.t) (now : N)
  | SnapshotAll (now : N)
  | QueryRecords (now : N).

Definition apply (o : op) (s : WindowModel.t) : WindowModel.t :=
  match o with
  | Observe snapshot now => fst (WindowModel.observe snapshot now s)
  | Destroy reference now => fst (WindowModel.destroy reference now s)
  | Resolve reference now => fst (WindowModel.resolve_exact reference now s)
  | SnapshotAll now => fst (WindowModel.snapshot_all now s)
  | QueryRecords now => fst (WindowModel.snapshot_query_records now s)
  end.

(** The registry follows the results the calls return. *)
Definition track (o : op) (s : WindowModel.t) (g : Registry.t) : Registry.t :=
  match o with
  | Observe snapshot now =>
      match snd (WindowModel.observe snapshot now s) with
      | Ok (Created created) => Registry.birth (Snapshot.window created) g
      | _ => g
      end
  | Destroy reference now =>
      match snd (WindowModel.destroy reference now s) with
      | Ok tombstone => Registry.bury tombstone g
      | Err ClockOverflow => Registry.lose reference g
      | Err _ => g
      end
  | _ => g
  end.

Definition step (p q : WindowModel.t * Registry.t) : Prop :=
  exists o, q = (apply o p.1, track o p.1 p.2).

(** The states of a model together with the registry of its history. *)
Definition reachable (s : WindowModel.t) (g : Registry.t) : Prop :=
  exists desktop generation limits s0,
    WindowModel.new desktop generation limits = Ok s0 /\
    steps step (s0, Registry.empty) (s, g).
End ModelTrace.

(** ** Invariant and refinement *)
Module ModelFacts.
Import WindowModel.

(** A live entry under its key. *)
Record entry_wf (s : t) (xid : N) (w : LiveWindow.t) : Prop := {
  entry_xid : WindowRef.xid (LiveWindow.reference w) = xid;
  entry_valid : Snapshot.validate (LiveWindow.snapshot w) = Ok tt;
  entry_scope : require_scope (LiveWindow.reference w) s = Ok tt;
  entry_created : revision_get (LiveWindow.created_revision w) <=
                  revision_get (Snapshot.model_revision (LiveWindow.snapshot w));
  entry_revision : revision_get (Snapshot.model_revision (LiveWindow.snapshot w)) <=
                   revision_get (revision s);
}.

Record wf (s : t) : Prop := {
  wf_limits : WindowModelLimits.validate (limits s) = Ok (limits s);
  wf_live : N.of_nat (size (live s)) <= WindowModelLimits.max_live_windows (limits s);
  wf_revision : 1 <= revision_get (revision s) <= u64_max;
  wf_serial : last_birth_serial s <= u64_max;
  wf_entries : forall xid w, live s !! xid = Some w -> entry_wf s xid w;
}.

(** The simulation relation. *)
Record refines (s : t) (g : Registry.t) : Prop := {
  ref_serials : numbered WindowRef.observed_generation 1 (Registry.born g);
  ref_last : last_birth_serial s = len (Registry.born g);
  ref_alive window : Registry.alive g window <->
    live_reference (WindowRef.xid window) s = Some window;
  ref_dead window : window ∈ Registry.dead g -> window ∈ Registry.born g;
  ref_order : Sorted.StronglySorted by_expiry (Registry.buried g);
  ref_expiry : Forall (fun entry => Tombstone.expires_at entry <=
      last_now s + WindowModelLimits.tombstone_ttl_ms (limits s)) (Registry.buried g);
  ref_tombstones : tombstones s =
    expire (last_now s) (trim (WindowModelLimits.max_tombstones (limits s)) (Registry.buried g));
}.

(** The model after its clock has moved to [now]. *)
Definition timed (now : N) (s : t) : t :=
  set_tombstones (expire now (tombstones s)) (set_last_now now s).

Lemma advance_time_cases now s :
  (now < last_now s /\ advance_time now s = (s, Err ClockMovedBackwards)) \/
  (last_now s <= now /\ advance_time now s = (timed now s, Ok tt)).
Proof. unfold advance_time, timed. simpl. case_decide; simpl; [left | right]; split; done || lia. Qed.

Lemma next_revision_cases s :
  (exists e, next_revision s = (s, Err e)) \/
  (exists r, next_revision s = (set_revision r s, Ok r) /\
     revision_get r = revision_get (revision s) + 1 /\ revision_get r <= u64_max).
Proof.
  unfold next_revision, new_revision. simpl.
  destruct (checked_add_u64 _ _) as [n |] eqn:Hn; simpl; [| left; eauto].
  apply checked_add_u64_Some in Hn as [-> Hle]. rewrite ensure_pass by lia. simpl.
  right. by eexists.
Qed.

Lemma validate_set_revision v snapshot :
  Snapshot.validate (Snapshot.set_model_revision v snapshot) = Snapshot.validate snapshot.
Proof. by destruct snapshot. Qed.

(** The entry an observation writes. *)
Definition observed (snapshot : Snapshot.t) (r : WindowModelRevision)
    (created : option WindowModelRevision) (s : t) : t :=
  set_live (<[WindowRef.xid (Snapshot.window snapshot) :=
    LiveWindow.mk (Snapshot.set_model_revision r snapshot) (default r created)]> (live s)) s.

(** Every outcome of [observe]. *)
Lemma window_observe_cases snapshot now s :
  let window := Snapshot.window snapshot in
  (exists e, observe snapshot now s = (s, Err e)) \/
  (exists e, last_now s <= now /\ observe snapshot now s = (timed now s, Err e)) \/
  (last_now s <= now /\ Snapshot.validate snapshot = Ok tt /\ require_scope window s = Ok tt /\
   exists r, revision_get r = revision_get (revision s) + 1 /\ revision_get r <= u64_max /\
    ((exists current, live s !! WindowRef.xid window = Some current /\
        LiveWindow.reference current = window /\
        observe snapshot now s =
          (observed snapshot r (Some (LiveWindow.created_revision current))
             (set_revision r (timed now s)),
           Ok (Updated (Snapshot.set_model_revision r snapshot)))) \/
     (live s !! WindowRef.xid window = None /\
        N.of_nat (size (live s)) < WindowModelLimits.max_live_windows (limits s) /\
        WindowRef.observed_generation window = last_birth_serial s + 1 /\
        last_birth_serial s + 1 <= u64_max /\
        observe snapshot now s =
          (observed snapshot r None
             (set_last_birth_serial (WindowRef.observed_generation window)
               (set_revision r (timed now s))),
           Ok (Created (Snapshot.set_model_revision r snapshot)))))).
Proof.
  intros window. unfold observe. simpl.
  destruct (advance_time_cases now s) as [[Hlt ->] | [Hle ->]]; [left; eauto |]. simpl.
  destruct (Snapshot.validate snapshot) as [[] | e] eqn:Hv; simpl; [| right; left; eauto].
  change (require_scope (Snapshot.window snapshot) (timed now s))
    with (require_scope window s).
  destruct (require_scope window s) as [[] | e] eqn:Hs; simpl; [| right; left; eauto].
  unfold admit_observation. fold window. simpl.
  destruct (live s !! WindowRef.xid window) as [current |] eqn:Hl; simpl.
  - destruct (decide (LiveWindow.reference current = window)) as [Hc | Hc].
    + rewrite ensure_pass by tauto. simpl.
      destruct (next_revision_cases (timed now s)) as [[e ->] | (r & -> & Hr & Hm)]; simpl;
        [right; left; eauto |].
      right. right. split_and!; [done.. |]. exists r. split_and!; [done.. |]. left.
      exists current. done.
    + rewrite ensure_reject by done. simpl. right. left. eauto.
  - unfold ensure. case_decide; simpl; [right; left; eauto |].
    unfold next_birth_serial. simpl.
    destruct (checked_add_u64 _ _) as [n |] eqn:Hn; simpl; [| right; left; eauto].
    apply checked_add_u64_Some in Hn as [-> Hn]. case_decide as Hg; simpl; [right; left; eauto |].
    destruct (next_revision_cases (timed now s)) as [[e ->] | (r & -> & Hr & Hm)]; simpl;
      [right; left; eauto |].
    right. right. split_and!; [done.. |]. exists r. split_and!; [done.. |]. right.
    split_and!; [done | lia | | done | done].
    destruct (decide (WindowRef.observed_generation window = last_birth_serial s + 1)); tauto.
Qed.

(** The model without a window it held. *)
Definition removed (reference : WindowRef.t) (r : WindowModelRevision) (now : N) (s : t) : t :=
  set_live (delete (WindowRef.xid reference) (live s)) (set_revision r (timed now s)).

#[local] Ltac refuses := eexists; split_and!; [| done ..]; done.

(** Every outcome of [destroy]. *)
Lemma destroy_cases reference now s :
  (exists e, e <> ClockOverflow /\ destroy reference now s = (s, Err e)) \/
  (exists e, e <> ClockOverflow /\ last_now s <= now /\
     destroy reference now s = (timed now s, Err e)) \/
  (last_now s <= now /\ live_reference (WindowRef.xid reference) s = Some reference /\
   exists r, revision_get r = revision_get (revision s) + 1 /\ revision_get r <= u64_max /\
    ((u64_max < now + WindowModelLimits.tombstone_ttl_ms (limits s) /\
        destroy reference now s = (removed reference r now s, Err ClockOverflow)) \/
     (let tombstone :=
        Tombstone.mk reference r (now + WindowModelLimits.tombstone_ttl_ms (limits s)) in
      now + WindowModelLimits.tombstone_ttl_ms (limits s) <= u64_max /\
      destroy reference now s =
        (set_tombstones (trim (WindowModelLimits.max_tombstones (limits s))
           (expire now (tombstones s) ++ [tombstone])) (removed reference r now s),
         Ok tombstone)))).
Proof.
  unfold destroy. simpl.
  destruct (advance_time_cases now s) as [[Hlt ->] | [Hle ->]]; [left; refuses |]. simpl.
  destruct (WindowRef.validate reference) as [[] | e] eqn:Hv; simpl; [| right; left; refuses].
  change (require_scope reference (timed now s)) with (require_scope reference s).
  unfold require_scope, ensure. case_decide; simpl; [right; left; refuses |].
  unfold live_reference. destruct (live s !! WindowRef.xid reference) as [current |] eqn:Hl; simpl.
  - case_decide as Hc; simpl; [right; left; refuses |].
    destruct (decide (LiveWindow.reference current = reference)) as [<- | ?]; [| tauto].
    destruct (next_revision_cases (timed now s)) as [[e He] | (r & -> & Hr & Hm)]; simpl.
    + rewrite He. simpl. right. left. exists e. split_and!; [| done | done]. intros ->.
      revert He. unfold next_revision, new_revision, ensure. simpl.
      destruct (checked_add_u64 _ _); simpl; [| congruence]. case_decide; simpl; congruence.
    + right. right. split_and!; [done.. |]. exists r. split_and!; [done.. |].
      destruct (MonotonicMillis.checked_add now _) as [x |] eqn:Hx; simpl.
      * apply MonotonicMillis.checked_add_Some in Hx as [-> Hx]. right. done.
      * left. split; [| done]. unfold MonotonicMillis.checked_add in Hx.
        destruct (checked_add_u64 _ _) eqn:Hn; [done |]. by apply checked_add_u64_None in Hn.
  - right. left. destruct (is_tombstoned _ _); simpl; refuses.
Qed.

(** Every outcome of a resolution leaves the model as it is, but for the time. *)
Lemma resolve_state reference now s :
  fst (resolve_exact reference now s) = s \/
  (last_now s <= now /\ fst (resolve_exact reference now s) = timed now s).
Proof.
  unfold resolve_exact. simpl.
  destruct (advance_time_cases now s) as [[Hlt ->] | [Hle ->]]; [by left |]. right. split; [done |].
  simpl. repeat first [case_decide | case_match]; done.
Qed.

Lemma snapshot_state now s :
  fst (snapshot_all now s) = s \/ (last_now s <= now /\ fst (snapshot_all now s) = timed now s).
Proof.
  unfold snapshot_all. simpl. destruct (advance_time_cases now s) as [[Hlt ->] | [Hle ->]]; auto.
Qed.

Lemma records_state now s :
  fst (snapshot_query_records now s) = s \/
  (last_now s <= now /\ fst (snapshot_query_records now s) = timed now s).
Proof.
  unfold snapshot_query_records. simpl.
  destruct (advance_time_cases now s) as [[Hlt ->] | [Hle ->]]; auto.
Qed.

(** *** The invariant *)
Lemma new_revision_one : new_revision 1 = Ok (mkRevision 1).
Proof. done. Qed.

Lemma new_model_wf desktop generation limits s :
  new desktop generation limits = Ok s -> wf s /\ refines s Registry.empty.
Proof.
  unfold new. rewrite and_then_Ok. intros (_ & _ & H). simpl in H.
  apply and_then_Ok in H as (l & Hl & [= <-]).
  assert (l = limits) as ->.
  { unfold WindowModelLimits.validate in Hl. by apply and_then_Ok in Hl as (_ & _ & [= <-]). }
  split; constructor; simpl; try done; auto using numbered_nil, SSorted_nil.
  - rewrite map_size_empty. lia.
  - intros window. unfold Registry.alive, live_reference. simpl. rewrite lookup_empty.
    split; [intros [[]%not_elem_of_nil _] | done].
Qed.

Lemma timed_wf now s : wf s -> wf (timed now s).
Proof. intros [? ? ? ? He]. constructor; try done. intros xid w Hw. destruct (He _ _ Hw). by constructor. Qed.

Lemma set_revision_entry s r xid w :
  entry_wf s xid w -> revision_get (revision s) <= revision_get r -> entry_wf (set_revision r s) xid w.
Proof. intros [] Hr. constructor; [done.. |]. simpl. lia. Qed.

Lemma observed_entry snapshot r created s s' :
  Snapshot.validate snapshot = Ok tt -> require_scope (Snapshot.window snapshot) s = Ok tt ->
  desktop_id s' = desktop_id s -> desktop_generation s' = desktop_generation s -> revision s' = r ->
  revision_get created <= revision_get r ->
  entry_wf s' (WindowRef.xid (Snapshot.window snapshot))
    (LiveWindow.mk (Snapshot.set_model_revision r snapshot) created).
Proof.
  intros Hv Hs Hd Hg <- Hc. constructor; simpl; [done | | | done | lia].
  - by rewrite validate_set_revision.
  - unfold require_scope in *. simpl. by rewrite Hd, Hg.
Qed.

Lemma window_observe_wf snapshot now s : wf s -> wf (fst (observe snapshot now s)).
Proof.
  intros Hwf. destruct (window_observe_cases snapshot now s) as
    [[e ->] | [(e & _ & ->) | (_ & Hv & Hs & r & Hr & Hm & [(current & Hl & Hc & ->) |
      (Hl & Hsz & Hg & Hx & ->)])]]; simpl; [done | by apply timed_wf | |].
  all: destruct Hwf as [Hlim Hlv Hrev Hser Hent]; constructor; simpl; try done; try lia.
  - rewrite map_size_insert_Some by eauto. done.
  - intros xid w [[<- <-] | [Hne Hw]]%lookup_insert_Some.
    + apply (observed_entry _ r _ s); try done. destruct (Hent _ _ Hl). simpl. lia.
    + destruct (Hent _ _ Hw). constructor; simpl; try done. lia.
  - rewrite map_size_insert_None by done. lia.
  - intros xid w [[<- <-] | [Hne Hw]]%lookup_insert_Some.
    + by apply (observed_entry _ r _ s).
    + destruct (Hent _ _ Hw). constructor; simpl; try done. lia.
Qed.

Lemma removed_wf reference r now s :
  wf s -> revision_get r = revision_get (revision s) + 1 -> revision_get r <= u64_max ->
  wf (removed reference r now s).
Proof.
  intros [Hlim Hlv Hrev Hser Hent] Hr Hm. constructor; simpl; try done; try lia.
  - assert (size (delete (WindowRef.xid reference) (live s)) <= size (live s))%nat.
    { apply map_subseteq_size, delete_subseteq. }
    lia.
  - intros xid w [_ Hw]%lookup_delete_Some. destruct (Hent _ _ Hw). constructor; simpl; try done. lia.
Qed.

Lemma set_tombstones_wf v s : wf s -> wf (set_tombstones v s).
Proof. intros [? ? ? ? He]. constructor; try done. intros xid w Hw. destruct (He _ _ Hw). by constructor. Qed.

Lemma destroy_wf reference now s : wf s -> wf (fst (destroy reference now s)).
Proof.
  intros Hwf. destruct (destroy_cases reference now s) as
    [(e & _ & ->) | [(e & _ & _ & ->) | (_ & _ & r & Hr & Hm & [[_ ->] | [_ ->]])]]; simpl.
  - done.
  - by apply timed_wf.
  - by apply removed_wf.
  - by apply set_tombstones_wf, removed_wf.
Qed.

Lemma window_apply_wf o s : wf s -> wf (ModelTrace.apply o s).
Proof.
  intros Hwf. destruct o as [snapshot now | reference now | reference now | now | now]; simpl.
  - by apply window_observe_wf.
  - by apply destroy_wf.
  - destruct (resolve_state reference now s) as [-> | [_ ->]]; [done | by apply timed_wf].
  - destruct (snapshot_state now s) as [-> | [_ ->]]; [done | by apply timed_wf].
  - destruct (records_state now s) as [-> | [_ ->]]; [done | by apply timed_wf].
Qed.

(** *** The refinement *)
Lemma timed_refines now s g : refines s g -> last_now s <= now -> refines (timed now s) g.
Proof.
  intros [Hn Hl Ha Hd Ho He Ht] Hle. constructor; try done.
  - eapply Forall_impl; [exact He |]. simpl. intros entry Hx. lia.
  - simpl. rewrite Ht. by apply expire_expire.
Qed.

(** Only the references of the live windows matter. *)
Lemma refines_same s s' g :
  refines s g -> (forall xid, live_reference xid s' = live_reference xid s) ->
  limits s' = limits s -> tombstones s' = tombstones s ->
  last_birth_serial s' = last_birth_serial s -> last_now s' = last_now s -> refines s' g.
Proof.
  intros [Hn Hl Ha Hd Ho He Ht] Hlive Elim Etomb Eser Enow.
  constructor; rewrite ?Elim, ?Etomb, ?Eser, ?Enow; try done.
  intros window. by rewrite Hlive, <- Ha.
Qed.

Lemma live_reference_insert xid w s x :
  live_reference x (set_live (<[xid := w]> (live s)) s) =
  if decide (xid = x) then Some (LiveWindow.reference w) else live_reference x s.
Proof.
  unfold live_reference. simpl. case_decide; subst; [by rewrite lookup_insert_eq |].
  by rewrite lookup_insert_ne.
Qed.

Lemma live_reference_delete xid s s0 x :
  live_reference x (set_live (delete xid (live s)) s0) =
  if decide (xid = x) then None else live_reference x s.
Proof.
  unfold live_reference. simpl. case_decide; subst; [by rewrite lookup_delete_eq |].
  by rewrite lookup_delete_ne.
Qed.

Lemma update_refines snapshot r created s g :
  refines s g -> live_reference (WindowRef.xid (Snapshot.window snapshot)) s =
                 Some (Snapshot.window snapshot) ->
  refines (observed snapshot r created (set_revision r s)) g.
Proof.
  intros Hr Hl. apply (refines_same s); try done. intros xid. unfold observed.
  rewrite live_reference_insert. case_decide; subst; [by rewrite Hl | done].
Qed.

(** A window with the next serial was never born. *)
Lemma fresh_serial s g window :
  refines s g -> WindowRef.observed_generation window = last_birth_serial s + 1 ->
  window ∉ Registry.born g /\ window ∉ Registry.dead g.
Proof.
  intros Hr Hw. assert (window ∉ Registry.born g) as Hb.
  { intros [i Hi]%list_elem_of_lookup. pose proof (lookup_lt_Some _ _ _ Hi) as Hlt.
    apply (ref_serials _ _ Hr) in Hi. rewrite (ref_last _ _ Hr) in Hw. unfold len in *. lia. }
  split; [done |]. by intros ?%(ref_dead _ _ Hr).
Qed.

Lemma birth_refines snapshot r s g :
  let window := Snapshot.window snapshot in
  refines s g -> live_reference (WindowRef.xid window) s = None ->
  WindowRef.observed_generation window = last_birth_serial s + 1 ->
  refines (observed snapshot r None
    (set_last_birth_serial (WindowRef.observed_generation window) (set_revision r s)))
    (Registry.birth window g).
Proof.
  intros window Hr Hl Hg. destruct (fresh_serial _ _ _ Hr Hg) as [Hborn Hdead].
  destruct Hr as [Hn Hlast Ha Hd Ho He Ht]. constructor; simpl; try done.
  - apply numbered_snoc; [done |]. fold window. rewrite Hg, Hlast. lia.
  - rewrite len_app. unfold len at 2. simpl. fold window. rewrite Hg, Hlast. lia.
  - intros other. unfold observed. rewrite live_reference_insert. fold window.
    change (live_reference (WindowRef.xid other) _) with (live_reference (WindowRef.xid other) s).
    specialize (Ha other). unfold Registry.alive in *. simpl.
    change (Registry.dead _) with (Registry.dead g).
    rewrite elem_of_app, list_elem_of_singleton.
    case_decide as Hx.
    + rewrite <- Hx, Hl in Ha. unfold LiveWindow.reference. simpl. fold window.
      split; [intros [[Hb | ->] Hnd]; [discriminate (proj1 Ha (conj Hb Hnd)) | done] |].
      intros [= <-]. by split; [right |].
    + rewrite <- Ha. split; [intros [[Hb | ->] Hnd]; done | tauto].
  - intros other Ho'. apply elem_of_app. left. by apply Hd.
Qed.

(** A death, with or without its tombstone. *)
Lemma death_alive reference r now s g g' :
  refines s g -> live_reference (WindowRef.xid reference) s = Some reference ->
  Registry.born g' = Registry.born g ->
  (forall other, other ∈ Registry.dead g' <-> other ∈ Registry.dead g \/ other = reference) ->
  (forall other, Registry.alive g' other <->
     live_reference (WindowRef.xid other) (removed reference r now s) = Some other) /\
  (forall other, other ∈ Registry.dead g' -> other ∈ Registry.born g').
Proof.
  intros Hr Hl Hb Hd'. split.
  - intros other. unfold removed. rewrite live_reference_delete.
    pose proof (ref_alive _ _ Hr other) as Ha. unfold Registry.alive in *.
    rewrite Hb, Hd'. case_decide as Hx; [rewrite <- Hx, Hl in Ha |]; [| rewrite <- Ha].
    + split; [| done]. intros [Hin Hn]. exfalso. apply Hn. right.
      enough (Some reference = Some other) by congruence. apply Ha. tauto.
    + split; [tauto |]. intros [? ?]. split; [done |]. intros [? | ->]; done.
  - intros other. rewrite Hd', Hb. intros [Hin | ->]; [by apply (ref_dead _ _ Hr) |].
    by apply (ref_alive _ _ Hr) in Hl as [].
Qed.

Lemma lose_refines reference r now s g :
  refines s g -> live_reference (WindowRef.xid reference) s = Some reference -> last_now s <= now ->
  refines (removed reference r now s) (Registry.lose reference g).
Proof.
  intros Hr Hl Hle.
  destruct (death_alive reference r now s g (Registry.lose reference g) Hr Hl eq_refl) as [Ha Hd].
  { intros other. unfold Registry.dead, Registry.lose. simpl. set_solver. }
  destruct (timed_refines now s g Hr Hle) as [Hn Hlast _ _ Ho He Ht]. by constructor.
Qed.

Lemma bury_refines reference r now s g :
  let tombstone := Tombstone.mk reference r (now + WindowModelLimits.tombstone_ttl_ms (limits s)) in
  wf s -> refines s g -> live_reference (WindowRef.xid reference) s = Some reference ->
  last_now s <= now ->
  refines (set_tombstones (trim (WindowModelLimits.max_tombstones (limits s))
             (expire now (tombstones s) ++ [tombstone])) (removed reference r now s))
    (Registry.bury tombstone g).
Proof.
  intros tombstone Hwf Hr Hl Hle.
  destruct (death_alive reference r now s g (Registry.bury tombstone g) Hr Hl eq_refl) as [Ha Hd].
  { intros other. unfold Registry.dead, Registry.bury. simpl. rewrite map_app. simpl. set_solver. }
  assert (WindowModelLimits.tombstone_ttl_ms (limits s) <> 0) as Httl.
  { pose proof (wf_limits _ Hwf) as Hlim. unfold WindowModelLimits.validate in Hlim.
    apply and_then_Ok in Hlim as ([] & Hlim & _). apply ensure_Ok in Hlim. tauto. }
  destruct (timed_refines now s g Hr Hle) as [Hn Hlast _ _ Ho He Ht]. simpl in He, Ht.
  assert (Sorted.StronglySorted by_expiry (Registry.buried g ++ [tombstone])) as Hsort.
  { apply StronglySorted_app_2; [| done | repeat constructor].
    intros a b Hin ->%list_elem_of_singleton. unfold by_expiry. simpl.
    by apply (proj1 (Forall_forall _ _) He) in Hin. }
  constructor; try done.
  - simpl. apply Forall_app. split; [done |]. constructor; [simpl; lia | constructor].
  - simpl. rewrite Ht. apply retained_snoc; [done |]. simpl. lia.
Qed.

Lemma window_apply_refines o s g :
  wf s -> refines s g -> refines (ModelTrace.apply o s) (ModelTrace.track o s g).
Proof.
  intros Hwf Hr. destruct o as [snapshot now | reference now | reference now | now | now]; simpl.
  - destruct (window_observe_cases snapshot now s) as
      [[e ->] | [(e & Hle & ->) | (Hle & Hv & Hs & r & Hrev & Hm & [(current & Hl & Hc & ->) |
        (Hl & Hsz & Hg & Hx & ->)])]]; simpl; [done | by apply timed_refines | |].
    + apply update_refines; [by apply timed_refines |]. unfold live_reference. simpl.
      by rewrite Hl, <- Hc.
    + apply (birth_refines snapshot r (timed now s)); [by apply timed_refines | | done].
      unfold live_reference. simpl. by rewrite Hl.
  - destruct (destroy_cases reference now s) as
      [(e & Hne & ->) | [(e & Hne & Hle & ->) | (Hle & Hl & r & Hrev & Hm & [[_ ->] | [_ ->]])]]; simpl.
    + by destruct e.
    + destruct e; by apply timed_refines.
    + by apply lose_refines.
    + by apply bury_refines.
  - destruct (resolve_state reference now s) as [-> | [? ->]]; [done | by apply timed_refines].
  - destruct (snapshot_state now s) as [-> | [? ->]]; [done | by apply timed_refines].
  - destruct (records_state now s) as [-> | [? ->]]; [done | by apply timed_refines].
Qed.

Lemma steps_refine p q :
  steps ModelTrace.step p q -> wf p.1 /\ refines p.1 p.2 -> wf q.1 /\ refines q.1 q.2.
Proof.
  apply (steps_invariant _ (fun p => wf p.1 /\ refines p.1 p.2)). intros [s g] b [Hwf Hr] [o ->]. simpl.
  split; [by apply window_apply_wf | by apply window_apply_refines].
Qed.

Lemma reachable_refines s g : ModelTrace.reachable s g -> wf s /\ refines s g.
Proof.
  intros (desktop & generation & limits & s0 & Hnew & Hst).
  apply (steps_refine _ _ Hst). by eapply new_model_wf.
Qed.

(** *** What the calls return *)

(** A resolution that got past the reference checks. *)
Lemma resolve_result reference now s :
  last_now s <= now -> WindowRef.validate reference = Ok tt -> require_scope reference s = Ok tt ->
  resolve_exact reference now s =
  (timed now s,
   match live s !! WindowRef.xid reference with
   | Some current =>
       if decide (LiveWindow.reference current = reference)
       then Ok (mkResolved (revision s) (project_snapshot current (revision s)))
       else Err StaleReference
   | None =>
       if decide (reference ∈ map Tombstone.window (expire now (tombstones s)))
       then Err DestroyedReference else Err WindowNotFound
   end).
Proof.
  intros Hle Hv Hs. unfold resolve_exact. simpl.
  destruct (advance_time_cases now s) as [[? _] | [_ ->]]; [lia |]. simpl. rewrite Hv. simpl.
  change (require_scope reference (timed now s)) with (require_scope reference s). rewrite Hs. simpl.
  destruct (live s !! WindowRef.xid reference) as [current |].
  - repeat case_decide; tauto || done.
  - assert (is_tombstoned reference (timed now s) = true <->
      reference ∈ map Tombstone.window (expire now (tombstones s))) as Ht.
    { unfold is_tombstoned. rewrite existsb_exists, list_elem_of_fmap. simpl.
      setoid_rewrite bool_decide_eq_true. setoid_rewrite <- list_elem_of_In. naive_solver. }
    destruct (is_tombstoned reference (timed now s)); case_decide; try done; naive_solver.
Qed.

(** Nothing resolves unless it is live. *)
Lemma resolve_live reference now s resolved :
  snd (resolve_exact reference now s) = Ok resolved ->
  live_reference (WindowRef.xid reference) s = Some reference.
Proof.
  intros H. destruct (decide (last_now s <= now)) as [Hle | Hlt].
  2: { unfold resolve_exact in H. simpl in H.
       destruct (advance_time_cases now s) as [[_ He] | [? _]]; [by rewrite He in H | lia]. }
  destruct (WindowRef.validate reference) as [[] | e] eqn:Hv, (require_scope reference s) as [[] | e'] eqn:Hs.
  1: { rewrite resolve_result in H by done. simpl in H. unfold live_reference.
       destruct (live s !! WindowRef.xid reference) as [current |]; [| by case_decide].
       case_decide as Hc; [| done]. simpl. by rewrite Hc. }
  all: unfold resolve_exact in H; simpl in H.
  all: destruct (advance_time_cases now s) as [[? _] | [_ He]]; [lia |]; rewrite He in H; simpl in H.
  all: rewrite Hv in H; simpl in H; try done.
  change (require_scope reference _) with (require_scope reference s) in H. by rewrite Hs in H.
Qed.

Lemma elem_of_suffix {A} (x : A) l k : l `suffix_of` k -> x ∈ l -> x ∈ k.
Proof. intros [pre ->] Hx. apply elem_of_app. by right. Qed.

(** The registry keeps the dead, whatever is called. *)
Lemma track_dead o s g window :
  window ∈ Registry.dead g -> window ∈ Registry.dead (ModelTrace.track o s g).
Proof.
  unfold Registry.dead. intros Hin. destruct o as [snapshot now | reference now | | |]; simpl; try done.
  - destruct (snd _) as [[] |]; done.
  - destruct (snd _) as [tombstone | []]; simpl; rewrite ?map_app; set_solver.
Qed.

Lemma steps_dead p q window :
  steps ModelTrace.step p q -> window ∈ Registry.dead p.2 -> window ∈ Registry.dead q.2.
Proof.
  apply (steps_invariant _ (fun p => window ∈ Registry.dead p.2)).
  intros [s g] b Hin [o ->]. by apply track_dead.
Qed.

(** The calls after a state, with the registry along. *)
Lemma steps_track s g s' :
  steps (fun a b => exists o, b = ModelTrace.apply o a) s s' ->
  exists g', steps ModelTrace.step (s, g) (s', g').
Proof.
  induction 1 as [s | s t u _ IH [o ->]]; [exists g; constructor |].
  destruct IH as [g' Hst]. exists (ModelTrace.track o t g').
  eapply steps_trans; [done |]. by exists o.
Qed.

(** [live_values] lists the live windows in the order of their XIDs. *)
Lemma live_values_sorted s :
  wf s ->
  Sorted.StronglySorted N.lt (map (fun w => WindowRef.xid (LiveWindow.reference w)) (live_values s)).
Proof.
  intros Hwf. unfold live_values.
  set (R := fun a b : N * LiveWindow.t => ordering_le (N.compare a.1 b.1)).
  assert (Sorted.StronglySorted R (btree_iter N.compare (live s))) as Hs.
  { apply StronglySorted_merge_sort.
    - intros a b c. unfold R, ordering_le. rewrite !N.compare_gt_iff. lia.
    - intros a b. unfold R, ordering_le. rewrite !N.compare_gt_iff. lia. }
  pose proof (NoDup_btree_keys N.compare (live s)) as Hn. unfold btree_keys in Hn.
  assert (forall p, p ∈ btree_iter N.compare (live s) ->
    WindowRef.xid (LiveWindow.reference p.2) = p.1) as Hx.
  { intros [x w] Hw%elem_of_btree_iter. apply (entry_xid _ _ _ (wf_entries _ Hwf _ _ Hw)). }
  induction Hs as [| [x w] l Hs IH Hall]; simpl; [constructor |].
  apply NoDup_cons in Hn as [Hnin Hn]. constructor.
  - apply IH; [done |]. intros p Hp. apply Hx. by right.
  - rewrite Forall_map. apply Forall_forall. intros v [[y v'] [-> Hy]]%list_elem_of_fmap. simpl.
    apply (proj1 (Forall_forall _ _) Hall) in Hy as Hle. unfold R, ordering_le in Hle.
    rewrite N.compare_gt_iff in Hle. simpl in Hle.
    pose proof (Hx (x, w) (list_elem_of_here _ _)) as Ex. pose proof (Hx (y, v') (list_elem_of_further _ _ _ Hy)) as Ey.
    simpl in Ex, Ey. rewrite Ex, Ey. enough (x <> y) by lia. intros <-. apply Hnin.
    apply list_elem_of_fmap. by exists (x, v').
Qed.

Lemma elem_of_live_values s w :
  w ∈ live_values s <-> exists xid, live s !! xid = Some w.
Proof.
  unfold live_values. rewrite list_elem_of_fmap. split.
  - intros ([x v] & -> & Hv%elem_of_btree_iter). by exists x.
  - intros [x Hx%(elem_of_btree_iter N.compare)]. by exists (x, w).
Qed.
End ModelFacts.

(** ** Properties *)
Section WindowProperties.
Import WindowModel ModelFacts.

(** C26: the bounded model answers as a registry that never forgets.  Birth serials number
    the windows ever admitted; a reference resolves exactly when its window was born and
    not destroyed since; another window alive on the XID makes it stale; and a destroyed
    window is reported as such exactly while it is among the [max_tombstones] youngest
    tombstones and before its expiry.  A resolution returns the window asked for, at the
    current revision. *)
Theorem resolution_refines_registry (s : t) (g : Registry.t) (reference : WindowRef.t) (now : N) :
  ModelTrace.reachable s g ->
  last_now s <= now -> WindowRef.validate reference = Ok tt -> require_scope reference s = Ok tt ->
  numbered WindowRef.observed_generation 1 (Registry.born g) /\
  Registry.answer (limits s) now g reference
    (try! snd (resolve_exact reference now s) in Ok tt) /\
  (forall resolved, snd (resolve_exact reference now s) = Ok resolved ->
     resolved_revision resolved = revision s /\
     Snapshot.window (resolved_snapshot resolved) = reference /\
     Snapshot.model_revision (resolved_snapshot resolved) = revision s /\
     Snapshot.validate (resolved_snapshot resolved) = Ok tt).
Proof.
  intros Hr Hle Hv Hs. apply reachable_refines in Hr as [Hwf Hr]. split; [apply Hr |].
  rewrite resolve_result by done. simpl.
  assert (forall other, Registry.alive g other ->
    exists current, live s !! WindowRef.xid other = Some current /\
      LiveWindow.reference current = other) as Halive.
  { intros other Ho. apply (ref_alive _ _ Hr) in Ho. by apply fmap_Some in Ho as (w & Hw & ->); eauto. }
  destruct (live s !! WindowRef.xid reference) as [current |] eqn:Hl.
  - assert (live_reference (WindowRef.xid reference) s = Some (LiveWindow.reference current)) as Href
      by (unfold live_reference; by rewrite Hl).
    destruct (wf_entries _ Hwf _ _ Hl) as [Hx Hval _ _ _].
    case_decide as Hc; simpl; split; try done.
    + apply Registry.answer_live. apply (ref_alive _ _ Hr). by rewrite Href, Hc.
    + intros resolved [= <-]. simpl. split_and!; [done.. |]. unfold project_snapshot. by rewrite validate_set_revision.
    + eapply Registry.answer_stale; [| exact Hx | done]. apply (ref_alive _ _ Hr). by rewrite Hx.
  - assert (expire now (tombstones s) = Registry.remembered (limits s) now g) as ->
      by (rewrite (ref_tombstones _ _ Hr), expire_expire by done; apply Registry.remembered_held, Hr).
    assert (forall other, Registry.alive g other -> WindowRef.xid other <> WindowRef.xid reference) as Hno.
    { intros other (w & Hw & _)%Halive Hx. congruence. }
    case_decide; simpl; split; try done; by constructor.
Qed.

(** C20: a destroyed window never comes back.  Whatever is called after the window was
    destroyed, even when its tombstone has expired or was evicted, and even when its XID is
    in use again, its reference never resolves and no list of windows contains it. *)
Theorem destroyed_window_never_resolves (s : t) (g : Registry.t) (reference : WindowRef.t)
    (now : N) (tombstone : Tombstone.t) (s' : t) :
  ModelTrace.reachable s g ->
  snd (destroy reference now s) = Ok tombstone ->
  steps (fun a b => exists o, b = ModelTrace.apply o a) (fst (destroy reference now s)) s' ->
  forall later,
    (forall resolved, snd (resolve_exact reference later s') <> Ok resolved) /\
    (forall r snapshots, snd (snapshot_all later s') = Ok (r, snapshots) ->
       reference ∉ map Snapshot.window snapshots).
Proof.
  intros Hreach Hd Hst later. apply reachable_refines in Hreach as [Hwf Hr].
  assert (Tombstone.window tombstone = reference) as Hw.
  { destruct (destroy_cases reference now s) as
      [(e & _ & He) | [(e & _ & _ & He) | (_ & _ & r & _ & _ & [[_ He] | [_ He]])]];
      rewrite He in Hd; by simplify_eq/=. }
  apply (steps_track _ (ModelTrace.track (ModelTrace.Destroy reference now) s g)) in Hst as [g' Hst].
  assert (reference ∈ Registry.dead g') as Hdead.
  { apply (steps_dead _ _ _ Hst). simpl. rewrite Hd. unfold Registry.dead. simpl.
    rewrite map_app. simpl. rewrite Hw. set_solver. }
  apply steps_refine in Hst as [Hwf' Hr'];
    [| by split; [apply destroy_wf | apply (window_apply_refines (ModelTrace.Destroy reference now))]].
  simpl in Hwf, Hr, Hdead. assert (live_reference (WindowRef.xid reference) s' <> Some reference) as Hno.
  { rewrite <- (ref_alive _ _ Hr'). unfold Registry.alive. tauto. }
  split; [by intros resolved ?%resolve_live |].
  intros r snapshots Hall. unfold snapshot_all in Hall. simpl in Hall.
  destruct (advance_time_cases later s') as [[_ He] | [_ He]]; rewrite He in Hall; [done |].
  simpl in Hall. injection Hall as <- <-. rewrite map_map, list_elem_of_fmap.
  intros (w & Ew & [x Hx]%elem_of_live_values).
  change (Snapshot.window (project_snapshot w _)) with (LiveWindow.reference w) in Ew.
  change (live s' !! x = Some w) in Hx.
  destruct (wf_entries _ Hwf' _ _ Hx) as [Ex _ _ _ _]. apply Hno. unfold live_reference.
  by rewrite Ew, Ex, Hx.
Qed.

(** A model stays within its limits: never more live windows than [max_live_windows],
    never more tombstones than [max_tombstones]; its revision and its birth counter stay
    within 64 bits; and every live window is a valid snapshot of this desktop lifetime
    under its own XID, created no later than it was last changed. *)
Theorem window_model_bounded (s : t) (g : Registry.t) :
  ModelTrace.reachable s g ->
  (counts s).1 <= WindowModelLimits.max_live_windows (limits s) /\
  (counts s).2 <= WindowModelLimits.max_tombstones (limits s) /\
  1 <= revision_get (revision s) <= u64_max /\
  last_birth_serial s <= u64_max /\
  (forall xid w, live s !! xid = Some w -> entry_wf s xid w).
Proof.
  intros [Hwf Hr]%reachable_refines. split_and!; try apply Hwf. simpl.
  rewrite (ref_tombstones _ _ Hr).
  etrans; [apply suffix_length_le, expire_suffix | apply trim_length].
Qed.

(** A list of all windows shows every window alive, once, in ascending order of the
    XIDs, and all of them at the current revision. *)
Theorem snapshot_all_exact (s : t) (g : Registry.t) (now : N) :
  ModelTrace.reachable s g -> last_now s <= now ->
  exists snapshots,
    snd (snapshot_all now s) = Ok (revision s, snapshots) /\
    (forall window, window ∈ map Snapshot.window snapshots <-> Registry.alive g window) /\
    Sorted.StronglySorted N.lt (map (fun x => WindowRef.xid (Snapshot.window x)) snapshots) /\
    Forall (fun x => Snapshot.model_revision x = revision s) snapshots.
Proof.
  intros [Hwf Hr]%reachable_refines Hle. eexists. split.
  { unfold snapshot_all. simpl.
    destruct (advance_time_cases now s) as [[? _] | [_ ->]]; [lia |]. done. }
  simpl. change (live_values (timed now s)) with (live_values s). split_and!.
  - intros window. rewrite map_map, list_elem_of_fmap, (ref_alive _ _ Hr). split.
    + intros (w & -> & [x Hx]%elem_of_live_values).
      destruct (wf_entries _ Hwf _ _ Hx) as [Ex _ _ _ _]. unfold live_reference.
      change (Snapshot.window (project_snapshot w (revision s))) with (LiveWindow.reference w).
      by rewrite Ex, Hx.
    + intros (w & Hw & ->)%fmap_Some. exists w. split; [done |]. apply elem_of_live_values. eauto.
  - rewrite map_map. by apply live_values_sorted.
  - rewrite Forall_map. by apply Forall_forall.
Qed.

(** A destruction that reports [ClockOverflow] has removed the window all the same and
    leaves no tombstone: the reference resolved before, and afterwards it is unknown, not
    destroyed. *)
Theorem overflowing_destroy_removes_window (s : t) (g : Registry.t) (reference : WindowRef.t)
    (now : N) :
  ModelTrace.reachable s g -> snd (destroy reference now s) = Err ClockOverflow ->
  live_reference (WindowRef.xid reference) s = Some reference /\
  snd (resolve_exact reference now (fst (destroy reference now s))) = Err WindowNotFound.
Proof.
  intros [Hwf Hr]%reachable_refines Hd.
  destruct (destroy_cases reference now s) as
    [(e & Hne & He) | [(e & Hne & _ & He) | (Hle & Hl & r & _ & _ & [[Hov He] | [_ He]])]];
    rewrite He in Hd; simplify_eq/=. rewrite He. split; [done |]. simpl.
  unfold live_reference in Hl. apply fmap_Some in Hl as (w & Hw & Hww).
  destruct (wf_entries _ Hwf _ _ Hw) as [_ Hval Hs _ _]. rewrite <- Hww in Hs.
  rewrite resolve_result; [| done | | done]; simpl.
  - rewrite lookup_delete_eq. rewrite decide_False; [done |].
    rewrite expire_expire by done. intros Hin%list_elem_of_fmap. destruct Hin as (entry & -> & Hin).
    rewrite (ref_tombstones _ _ Hr) in Hin.
    assert (Registry.alive g (Tombstone.window entry)) as [_ Hnd].
    { apply (ref_alive _ _ Hr). unfold live_reference. by rewrite Hw, Hww. }
    apply Hnd. unfold Registry.dead. apply elem_of_app. left. apply list_elem_of_fmap.
    exists entry. split; [done |]. rewrite expire_expire in Hin by done.
    eapply elem_of_suffix; [| exact Hin]. etrans; [apply expire_suffix | apply trim_suffix].
  - rewrite Hww. unfold Snapshot.validate in Hval. by apply and_then_Ok in Hval as ([] & Hval & _).
Qed.
End WindowProperties.

(** ** The theorems at a concrete model *)
Module WindowWitness.
Import WindowModel.

Definition hash (code : N) : WindowIdentityHash :=
  mkIdentityHash (String.string_of_list_ascii (repeat (Ascii.ascii_of_N code) 64)).
Definition window (xid birth : N) (code : N) : WindowRef.t :=
  WindowRef.mk (mkDesktopId 1) (mkDesktopGeneration 2) xid birth (hash code).
Definition snapshot_of (w : WindowRef.t) : Snapshot.t :=
  Snapshot.mk w (WindowRef.xid_hex w) (mkRevision 1)
    (Metadata.mk None None None None None [] [] [] [])
    (Correlation.mk None None NoConfidence [] false)
    (mkObservedState Viewable false false false false false false false)
    None None None None None None false [].
Definition start : t :=
  mk (mkDesktopId 1) (mkDesktopGeneration 2) (mkRevision 1) (WindowModelLimits.mk 2 1 5) ∅ [] 0 0.

(** Two windows appear; the first is destroyed and its XID is used again. *)
Definition first : WindowRef.t := window 42 1 97.
Definition second : WindowRef.t := window 7 2 98.
Definition third : WindowRef.t := window 42 3 99.
Definition history : list ModelTrace.op :=
  [ModelTrace.Observe (snapshot_of first) 1; ModelTrace.Observe (snapshot_of second) 2].
Definition later : list ModelTrace.op :=
  [ModelTrace.Observe (snapshot_of third) 4; ModelTrace.SnapshotAll 20].

Fixpoint run (os : list ModelTrace.op) (p : t * Registry.t) : t * Registry.t :=
  match os with
  | [] => p
  | o :: os => run os (ModelTrace.apply o p.1, ModelTrace.track o p.1 p.2)
  end.

Lemma window_run_steps os p q : steps ModelTrace.step p q -> steps ModelTrace.step p (run os q).
Proof.
  revert q. induction os as [| o os IH]; intros q Hst; [done |]. simpl. apply IH.
  eapply steps_trans; [done |]. by exists o.
Qed.

Lemma window_apply_steps os s s0 :
  steps (fun a b => exists o, b = ModelTrace.apply o a) s s0 ->
  steps (fun a b => exists o, b = ModelTrace.apply o a) s
    (fold_left (fun s o => ModelTrace.apply o s) os s0).
Proof.
  revert s0. induction os as [| o os IH]; intros s0 Hst; [done |]. simpl. apply IH.
  eapply steps_trans; [done |]. by exists o.
Qed.

Lemma history_reachable os :
  ModelTrace.reachable (run os (start, Registry.empty)).1 (run os (start, Registry.empty)).2.
Proof.
  exists (mkDesktopId 1), (mkDesktopGeneration 2), (WindowModelLimits.mk 2 1 5), start.
  split; [by vm_compute |]. rewrite <- surjective_pairing. apply window_run_steps. constructor.
Qed.

Definition reached : t := (run history (start, Registry.empty)).1.

Lemma resolution_refines_registry_witness :
  exists resolved, snd (resolve_exact first 3 reached) = Ok resolved /\
    Snapshot.window (resolved_snapshot resolved) = first.
Proof.
  destruct (resolution_refines_registry reached (run history (start, Registry.empty)).2 first 3
    (history_reachable history)) as (_ & _ & H); [by vm_compute.. |].
  destruct (snd (resolve_exact first 3 reached)) as [resolved | e] eqn:Hr;
    [| revert Hr; by vm_compute].
  exists resolved. split; [done |]. by apply H.
Defined.

Lemma destroyed_window_never_resolves_witness :
  let after := fst (destroy first 3 reached) in
  let s' := fold_left (fun s o => ModelTrace.apply o s) later after in
  live_reference 42 s' = Some third /\
  forall resolved, snd (resolve_exact first 21 s') <> Ok resolved.
Proof.
  intros after s'. split; [by vm_compute |].
  refine (proj1 (destroyed_window_never_resolves reached (run history (start, Registry.empty)).2
    first 3 (Tombstone.mk first (mkRevision 4) 8) s' (history_reachable history) _ _ 21)).
  - by vm_compute.
  - apply window_apply_steps. constructor.
Defined.

Lemma window_model_bounded_witness :
  counts reached = (2, 0) /\ (counts reached).1 <= 2.
Proof.
  split; [by vm_compute |].
  apply (window_model_bounded reached (run history (start, Registry.empty)).2
    (history_reachable history)).
Defined.

Lemma snapshot_all_exact_witness :
  exists snapshots, snd (snapshot_all 3 reached) = Ok (mkRevision 3, snapshots) /\
    map Snapshot.window snapshots = [second; first].
Proof.
  destruct (snapshot_all_exact reached (run history (start, Registry.empty)).2 3
    (history_reachable history)) as (snapshots & H & _); [by vm_compute |].
  exists snapshots. split; [exact H |]. revert H. vm_compute. intros [= <-]. reflexivity.
Defined.

Lemma overflowing_destroy_removes_window_witness :
  snd (resolve_exact first u64_max (fst (destroy first u64_max reached))) = Err WindowNotFound.
Proof.
  apply (overflowing_destroy_removes_window reached (run history (start, Registry.empty)).2
    first u64_max (history_reachable history)).
  by vm_compute.
Defined.
End WindowWitness.
