(* ===== verification/WindowPlacement.v ===== *)
(** * Window geometry normalization

    Models [xenoteer-core/src/window_geometry.rs], with the geometry requests of
    [xenoteer-protocol/src/window_control.rs] it answers: from the live root rectangle
    and the live geometry of a window to the rectangle a move or resize asks the window
    manager for, and from a point of the window to a point of the root. *)

From stdpp Require Import base numbers list option.
From Stdlib Require Import Lia.
From S2P Require Import Prelude Identity Geometry WindowTypes.

Local Open Scope Z_scope.

(** [i64::checked_add], and [u64] values. *)
Definition i64 (z : Z) : Prop := - 2 ^ 63 <= z <= 2 ^ 63 - 1.
#[export] Instance i64_dec z : Decision (i64 z).
Proof. unfold i64. apply _. Defined.
Definition i64_checked_add (a b : Z) : option Z := if decide (i64 (a + b)) then Some (a + b) else None.
Definition u32_checked_add (a b : Z) : option Z := u32_try_from (a + b).

(** ** The request *)
Inductive WindowGeometryTarget := TargetFrame | TargetClient.
Inductive WindowScreenBoundsPolicy := AllowOffscreen | RequireInsideRoot | ClampToRoot.
Inductive GeometryRequestError := EmptyGeometry | RequestDimension.

Module GeometryRequest.
Record t := mk { x : option Z; y : option Z; width : option Z; height : option Z }.

(** A requested dimension out of range. *)
Definition bad_dimension (value : option Z) : bool :=
  match value with
  | Some value => bool_decide (value = 0 \/ MAX_WINDOW_DIMENSION < value)
  | None => false
  end.

(** [WindowGeometryRequest::validate]. *)
Definition validate (self : t) : result unit GeometryRequestError :=
  try! ensure (x self = None /\ y self = None /\ width self = None /\ height self = None)
         EmptyGeometry in
  ensure (bad_dimension (width self) || bad_dimension (height self) = true) RequestDimension.
End GeometryRequest.

(** [WindowGeometryResolveError]. *)
Inductive WindowGeometryResolveError :=
  | InvalidGeometry | FrameUnavailable | InconsistentFrameGeometry | FrameTooSmall
  | OutsideRootBounds | ArithmeticOverflow | UnsupportedCoordinateSpace.

(** [ResolvedWindowGeometry] and [ResolvedWindowPoint]. *)
Record ResolvedWindowGeometry := mkResolvedGeometry {
  effective : WindowRect.t;
  resolved_client_rect : WindowRect.t;
  client_request : GeometryRequest.t;
  bounds_constrained : bool;
}.
Record ResolvedWindowPoint := mkResolvedPoint { root_point : Point.t; point_constrained : bool }.

#[export] Instance point_eq_dec : EqDecision Point.t.
Proof. solve_decision. Defined.

(** ** The arithmetic *)
Module Placement.
#[local] Abbreviation outcome A := (result A WindowGeometryResolveError).

(** [i32_from], [u32_from], [add_i32], [add_u32_to_i32], [exclusive_end]. *)
Definition i32_from (value : Z) : outcome Z := ok_or (i32_try_from value) ArithmeticOverflow.
Definition u32_from (value : Z) : outcome Z := ok_or (u32_try_from value) ArithmeticOverflow.
Definition add_i32 (left right : Z) : outcome Z := i32_from (left + right).
Definition add_u32_to_i32 (left right : Z) : outcome Z := i32_from (left + right).
Definition exclusive_end (origin extent : Z) : outcome Z :=
  ok_or (i64_checked_add origin extent) ArithmeticOverflow.

(** The origin and the size of a window rectangle, as every function below reads them. *)
Definition origin (r : WindowRect.t) : Point.t := Rect.origin (WindowRect.rect r).
Definition size (r : WindowRect.t) : outcome Size.t :=
  map_err (fun _ => InvalidGeometry) (Rect.size (WindowRect.rect r)).

(** [window_rect]. *)
Definition window_rect (x y width height : Z) : outcome WindowRect.t :=
  let? rect := map_err (fun _ => ArithmeticOverflow) (Rect.new x y width height) in
  map_err (fun _ => InvalidGeometry) (WindowRect.new RootPhysical rect).

(** [clamp_point]. *)
Definition clamp_point (root : WindowRect.t) (point : Point.t) : outcome Point.t :=
  let origin := origin root in
  let? size := size root in
  let? end_x := exclusive_end (Point.x origin) (Size.width size) in
  let? end_y := exclusive_end (Point.y origin) (Size.height size) in
  let? x := i32_from (ScreenRect.clamp_to (Point.x point) (Point.x origin) (end_x - 1)) in
  let? y := i32_from (ScreenRect.clamp_to (Point.y point) (Point.y origin) (end_y - 1)) in
  Ok (Point.mk x y).

(** [contains_point]. *)
Definition contains_point (root : WindowRect.t) (point : Point.t) : outcome bool :=
  let origin := origin root in
  let? size := size root in
  if decide (Point.x origin <= Point.x point /\ Point.y origin <= Point.y point) then
    let? end_x := exclusive_end (Point.x origin) (Size.width size) in
    if decide (Point.x point < end_x) then
      let? end_y := exclusive_end (Point.y origin) (Size.height size) in
      Ok (bool_decide (Point.y point < end_y))
    else Ok false
  else Ok false.

(** [contains_rect]. *)
Definition contains_rect (outer inner : WindowRect.t) : outcome bool :=
  let outer_origin := origin outer in
  let? outer_size := size outer in
  let inner_origin := origin inner in
  let? inner_size := size inner in
  if decide (Point.x outer_origin <= Point.x inner_origin /\
             Point.y outer_origin <= Point.y inner_origin) then
    let? inner_end := exclusive_end (Point.x inner_origin) (Size.width inner_size) in
    let? outer_end := exclusive_end (Point.x outer_origin) (Size.width outer_size) in
    if decide (inner_end <= outer_end) then
      let? inner_end := exclusive_end (Point.y inner_origin) (Size.height inner_size) in
      let? outer_end := exclusive_end (Point.y outer_origin) (Size.height outer_size) in
      Ok (bool_decide (inner_end <= outer_end))
    else Ok false
  else Ok false.

(** A requested field, or [then_some]. *)
Definition changed_field (desired : option Z) (current effective : Z) : option Z :=
  if decide (is_Some desired \/ current <> effective) then Some effective else None.

(** [changed_client_fields]. *)
Definition changed_client_fields (current effective : WindowRect.t) (desired : GeometryRequest.t) :
    outcome GeometryRequest.t :=
  let? current_size := size current in
  let? effective_size := size effective in
  Ok (GeometryRequest.mk
    (changed_field (GeometryRequest.x desired) (Point.x (origin current)) (Point.x (origin effective)))
    (changed_field (GeometryRequest.y desired) (Point.y (origin current)) (Point.y (origin effective)))
    (changed_field (GeometryRequest.width desired) (Size.width current_size)
       (Size.width effective_size))
    (changed_field (GeometryRequest.height desired) (Size.height current_size)
       (Size.height effective_size))).

(** [frame_to_client]. *)
Definition frame_to_client (frame : WindowRect.t) (extents : Extents.t) : outcome WindowRect.t :=
  let origin := origin frame in
  let? size := size frame in
  let? horizontal := ok_or (u32_checked_add (Extents.left extents) (Extents.right extents))
                       ArithmeticOverflow in
  let? vertical := ok_or (u32_checked_add (Extents.top extents) (Extents.bottom extents))
                     ArithmeticOverflow in
  try! ensure (Size.width size <= horizontal \/ Size.height size <= vertical) FrameTooSmall in
  let? x := add_u32_to_i32 (Point.x origin) (Extents.left extents) in
  let? y := add_u32_to_i32 (Point.y origin) (Extents.top extents) in
  window_rect x y (Size.width size - horizontal) (Size.height size - vertical).

(** [derive_frame_rect]. *)
Definition derive_frame_rect (client : WindowRect.t) (extents : Extents.t) : outcome WindowRect.t :=
  let origin := origin client in
  let? size := size client in
  let? x := i32_from (Point.x origin - Extents.left extents) in
  let? y := i32_from (Point.y origin - Extents.top extents) in
  let? width := u32_from (Size.width size + Extents.left extents + Extents.right extents) in
  let? height := u32_from (Size.height size + Extents.top extents + Extents.bottom extents) in
  window_rect x y width height.

(** [clamp_rect]. *)
Definition clamp_rect (root candidate : WindowRect.t) : outcome WindowRect.t :=
  let root_origin := origin root in
  let? root_size := size root in
  let candidate_origin := origin candidate in
  let? candidate_size := size candidate in
  let width := Z.min (Size.width candidate_size) (Size.width root_size) in
  let height := Z.min (Size.height candidate_size) (Size.height root_size) in
  let max_x := Point.x root_origin + (Size.width root_size - width) in
  let max_y := Point.y root_origin + (Size.height root_size - height) in
  let? x := i32_from (ScreenRect.clamp_to (Point.x candidate_origin) (Point.x root_origin) max_x) in
  let? y := i32_from (ScreenRect.clamp_to (Point.y candidate_origin) (Point.y root_origin) max_y) in
  window_rect x y width height.

(** [apply_bounds]. *)
Definition apply_bounds (candidate root : WindowRect.t) (policy : WindowScreenBoundsPolicy) :
    outcome WindowRect.t :=
  match policy with
  | AllowOffscreen => Ok candidate
  | RequireInsideRoot =>
      let? inside := contains_rect root candidate in
      if (inside : bool) then Ok candidate else Err OutsideRootBounds
  | ClampToRoot => clamp_rect root candidate
  end.

(** [apply_partial]. *)
Definition apply_partial (current : WindowRect.t) (desired : GeometryRequest.t) :
    outcome WindowRect.t :=
  let origin := origin current in
  let? size := size current in
  window_rect (default (Point.x origin) (GeometryRequest.x desired))
    (default (Point.y origin) (GeometryRequest.y desired))
    (default (Size.width size) (GeometryRequest.width desired))
    (default (Size.height size) (GeometryRequest.height desired)).

(** [WindowGeometryContext]. *)
Record t := mk { root : WindowRect.t; window : WindowGeometry.t }.

(** [WindowGeometryContext::new]. *)
Definition new (root : WindowRect.t) (window : WindowGeometry.t) : outcome t :=
  try! map_err (fun _ => InvalidGeometry) (WindowRect.validate root) in
  try! map_err (fun _ => InvalidGeometry) (WindowGeometry.validate window) in
  try! ensure (WindowRect.coordinate_space root <> RootPhysical) InvalidGeometry in
  try! match WindowGeometry.frame_rect window, WindowGeometry.frame_extents window with
       | Some frame, Some extents =>
           let? derived := derive_frame_rect (WindowGeometry.client_rect window) extents in
           ensure (derived <> frame) InconsistentFrameGeometry
       | _, _ => Ok tt
       end in
  Ok (mk root window).

(** The live rectangle a request refers to. *)
Definition target_rect (self : t) (relative_to : WindowGeometryTarget) : outcome WindowRect.t :=
  match relative_to with
  | TargetClient => Ok (WindowGeometry.client_rect (window self))
  | TargetFrame =>
      try! ensure (WindowGeometry.frame_extents (window self) = None) FrameUnavailable in
      ok_or (WindowGeometry.frame_rect (window self)) FrameUnavailable
  end.

(** The client rectangle inside an effective rectangle. *)
Definition client_of (self : t) (relative_to : WindowGeometryTarget) (effective : WindowRect.t) :
    outcome WindowRect.t :=
  match relative_to with
  | TargetClient => Ok effective
  | TargetFrame =>
      let? extents := ok_or (WindowGeometry.frame_extents (window self)) FrameUnavailable in
      frame_to_client effective extents
  end.

(** [WindowGeometryContext::resolve_move_resize]. *)
Definition resolve_move_resize (self : t) (relative_to : WindowGeometryTarget)
    (desired : GeometryRequest.t) (bounds_policy : WindowScreenBoundsPolicy) :
    outcome ResolvedWindowGeometry :=
  try! map_err (fun _ => InvalidGeometry) (GeometryRequest.validate desired) in
  let? current := target_rect self relative_to in
  let? candidate := apply_partial current desired in
  let? effective := apply_bounds candidate (root self) bounds_policy in
  let? client_rect := client_of self relative_to effective in
  let? client_request :=
    changed_client_fields (WindowGeometry.client_rect (window self)) client_rect desired in
  Ok (mkResolvedGeometry effective client_rect client_request (bool_decide (candidate <> effective))).

(** The origin a window-local point is relative to. *)
Definition local_origin (self : t) (relative_to : CoordinateSpace) : outcome Point.t :=
  match relative_to with
  | WindowClient => Ok (origin (WindowGeometry.client_rect (window self)))
  | WindowFrame =>
      let? frame := ok_or (WindowGeometry.frame_rect (window self)) FrameUnavailable in
      Ok (origin frame)
  | RootPhysical | AtspiScreen => Err UnsupportedCoordinateSpace
  end.

(** [WindowGeometryContext::resolve_local_point]. *)
Definition resolve_local_point (self : t) (relative_to : CoordinateSpace) (point : Point.t)
    (bounds_policy : WindowScreenBoundsPolicy) : outcome ResolvedWindowPoint :=
  let? origin := local_origin self relative_to in
  let? x := add_i32 (Point.x origin) (Point.x point) in
  let? y := add_i32 (Point.y origin) (Point.y point) in
  let translated := Point.mk x y in
  let? placed :=
    match bounds_policy with
    | AllowOffscreen => Ok translated
    | RequireInsideRoot =>
        let? inside := contains_point (root self) translated in
        if (inside : bool) then Ok translated else Err OutsideRootBounds
    | ClampToRoot => clamp_point (root self) translated
    end in
  Ok (mkResolvedPoint placed (bool_decide (placed <> translated))).
End Placement.

(** ** Facts *)
Module PlacementFacts.
Import Placement.

(** Values of the types of the source. *)
Definition typed_rect (r : WindowRect.t) : Prop :=
  let '(Rect.mk x y w h) := WindowRect.rect r in i32 x /\ i32 y /\ u32 w /\ u32 h.
Definition typed_extents (e : Extents.t) : Prop :=
  u32 (Extents.left e) /\ u32 (Extents.right e) /\ u32 (Extents.top e) /\ u32 (Extents.bottom e).
Definition typed_request (g : GeometryRequest.t) : Prop :=
  Forall i32 (option_list (GeometryRequest.x g) ++ option_list (GeometryRequest.y g)) /\
  Forall u32 (option_list (GeometryRequest.width g) ++ option_list (GeometryRequest.height g)).
Definition typed_window (w : WindowGeometry.t) : Prop :=
  typed_rect (WindowGeometry.client_rect w) /\
  Forall typed_rect (option_list (WindowGeometry.frame_rect w)) /\
  Forall typed_extents (option_list (WindowGeometry.frame_extents w)).

(** A root-physical rectangle, and the rectangles that are representable. *)
Definition at_root (x y w h : Z) : WindowRect.t := WindowRect.mk RootPhysical (Rect.mk x y w h).
Definition fits (x y w h : Z) : Prop :=
  1 <= w <= 65535 /\ 1 <= h <= 65535 /\ x + w - 1 <= 2 ^ 31 - 1 /\ y + h - 1 <= 2 ^ 31 - 1.

(** A representable root-physical rectangle, as every step of the resolution yields it. *)
Definition placed (r : WindowRect.t) : Prop :=
  exists x y w h, r = at_root x y w h /\ i32 x /\ i32 y /\ fits x y w h.

(** Is one rectangle inside another? *)
Definition inside (outer inner : WindowRect.t) : Prop :=
  let '(Rect.mk ox oy ow oh) := WindowRect.rect outer in
  let '(Rect.mk x y w h) := WindowRect.rect inner in
  ox <= x /\ oy <= y /\ x + w <= ox + ow /\ y + h <= oy + oh.
#[export] Instance inside_dec outer inner : Decision (inside outer inner).
Proof. unfold inside. destruct (WindowRect.rect outer), (WindowRect.rect inner). apply _. Defined.

Lemma validate_rect_spec s x y w h :
  0 <= w -> 0 <= h ->
  WindowRect.validate (WindowRect.mk s (Rect.mk x y w h)) = Ok tt <-> fits x y w h.
Proof.
  intros Hw Hh. unfold WindowRect.validate, Rect.validate, Rect.size, Size.new, Size.validate, fits,
    ensure, MAX_WINDOW_DIMENSION. simpl.
  repeat (case_decide; simpl; try (split; intros; done || lia)).
Qed.

Lemma window_rect_spec x y w h r :
  0 <= w -> 0 <= h -> window_rect x y w h = Ok r <-> r = at_root x y w h /\ fits x y w h.
Proof.
  intros Hw Hh. rewrite <- (validate_rect_spec RootPhysical) by done.
  unfold window_rect, Rect.new, WindowRect.new. cbv zeta. fold (at_root x y w h).
  destruct (Rect.validate (Rect.mk x y w h)) as [[] | e] eqn:He; simpl.
  - fold (at_root x y w h). destruct (WindowRect.validate (at_root x y w h)) as [[] |]; naive_solver.
  - unfold at_root, WindowRect.validate. simpl. rewrite He. simpl. naive_solver.
Qed.

Lemma size_spec s x y w h : 1 <= w -> 1 <= h -> size (WindowRect.mk s (Rect.mk x y w h)) = Ok (Size.mk w h).
Proof.
  intros Hw Hh. unfold size, Rect.size, Size.new, Size.validate. simpl.
  by rewrite decide_False by lia.
Qed.

Lemma i32_from_Ok z r : i32_from z = Ok r <-> r = z /\ i32 z.
Proof. unfold i32_from, i32_try_from. case_decide; simpl; naive_solver. Qed.
Lemma i32_from_in z : i32 z -> i32_from z = Ok z.
Proof. intros Hz. by apply i32_from_Ok. Qed.
Lemma u32_from_Ok z r : u32_from z = Ok r <-> r = z /\ u32 z.
Proof. unfold u32_from, u32_try_from. case_decide; simpl; naive_solver. Qed.
Lemma u32_add_Ok a b r :
  ok_or (u32_checked_add a b) ArithmeticOverflow = Ok r <-> r = a + b /\ u32 (a + b).
Proof. apply u32_from_Ok. Qed.

(** The end of a representable extent never overflows. *)
Lemma exclusive_end_in o e : i32 o -> u32 e -> exclusive_end o e = Ok (o + e).
Proof.
  unfold i32, u32, exclusive_end, i64_checked_add, i64. intros Ho He.
  by rewrite decide_True by lia.
Qed.

Lemma contains_rect_spec outer inner :
  placed outer -> placed inner -> contains_rect outer inner = Ok (bool_decide (inside outer inner)).
Proof.
  intros (ox & oy & ow & oh & -> & Hox & Hoy & Hof) (x & y & w & h & -> & Hx & Hy & Hf).
  unfold fits in *. unfold contains_rect, at_root. rewrite !size_spec by lia. simpl.
  rewrite !exclusive_end_in by (unfold i32, u32 in *; lia). simpl.
  case_decide; [case_decide |]; f_equal.
  - apply bool_decide_ext. unfold inside. simpl. lia.
  - symmetry. apply bool_decide_eq_false. unfold inside. simpl. lia.
  - symmetry. apply bool_decide_eq_false. unfold inside. simpl. lia.
Qed.

(** What clamping promises: inside the root, no larger than needed, and nowhere nearer. *)
Definition nearest (root candidate r : WindowRect.t) : Prop :=
  let '(Rect.mk rx ry rw rh) := WindowRect.rect root in
  let '(Rect.mk cx cy cw ch) := WindowRect.rect candidate in
  let '(Rect.mk x y w h) := WindowRect.rect r in
  inside root r /\ w = Z.min cw rw /\ h = Z.min ch rh /\
  (forall x' y', inside root (at_root x' y' w h) ->
     Z.abs (x - cx) <= Z.abs (x' - cx) /\ Z.abs (y - cy) <= Z.abs (y' - cy)).

Lemma clamp_rect_spec root candidate :
  placed root -> placed candidate ->
  exists r, clamp_rect root candidate = Ok r /\ placed r /\ nearest root candidate r /\
    (inside root candidate -> r = candidate).
Proof.
  intros (rx & ry & rw & rh & -> & Hrx & Hry & Hrf) (x & y & w & h & -> & Hx & Hy & Hf).
  unfold fits in *. unfold clamp_rect, at_root. rewrite !size_spec by lia. simpl.
  destruct (ScreenRect.clamp_to_spec x rx (rx + (rw - Z.min w rw))) as (Hcx & Hix & Hnx); [lia |].
  destruct (ScreenRect.clamp_to_spec y ry (ry + (rh - Z.min h rh))) as (Hcy & Hiy & Hny); [lia |].
  set (cx := ScreenRect.clamp_to x _ _) in *. set (cy := ScreenRect.clamp_to y _ _) in *.
  unfold i32 in *. rewrite !i32_from_in by (unfold i32; lia). simpl.
  exists (at_root cx cy (Z.min w rw) (Z.min h rh)). split_and!.
  - apply window_rect_spec; [lia.. |]. split; [done |]. unfold fits. lia.
  - do 4 eexists. split; [done |]. unfold fits, i32. lia.
  - unfold nearest, inside. simpl. split_and!; try lia. intros x' y' Hin. split; [apply Hnx | apply Hny]; lia.
  - unfold inside. simpl. intros Hin. unfold at_root. rewrite Hix, Hiy by lia. repeat f_equal; lia.
Qed.

Lemma apply_bounds_Ok candidate root policy r :
  placed root -> placed candidate -> apply_bounds candidate root policy = Ok r ->
  placed r /\
  match policy with
  | AllowOffscreen => r = candidate
  | RequireInsideRoot => r = candidate /\ inside root candidate
  | ClampToRoot => nearest root candidate r
  end.
Proof.
  intros Hr Hc. destruct policy; simpl.
  - by intros [= <-].
  - rewrite contains_rect_spec by done. simpl. case_bool_decide; [by intros [= <-] | done].
  - destruct (clamp_rect_spec root candidate) as (v & -> & Hp & Hn & _); [done.. |]. by intros [= <-].
Qed.

(** *** Frames and clients *)
Lemma derive_spec client extents x y w h :
  WindowRect.rect client = Rect.mk x y w h -> 1 <= w -> 1 <= h -> typed_extents extents ->
  forall frame, derive_frame_rect client extents = Ok frame <->
    let '(Extents.mk l r t b) := extents in
    frame = at_root (x - l) (y - t) (w + l + r) (h + t + b) /\
    i32 (x - l) /\ i32 (y - t) /\ fits (x - l) (y - t) (w + l + r) (h + t + b).
Proof.
  destruct client as [s rect], extents as [l r t b]. simpl. intros -> Hw Hh Ht frame.
  unfold typed_extents, u32 in Ht. simpl in Ht.
  unfold derive_frame_rect. rewrite size_spec by done. simpl. rewrite and_then_Ok.
  setoid_rewrite i32_from_Ok. split.
  - intros (a & [-> Hx] & H). apply and_then_Ok in H as (c & [-> Hy]%i32_from_Ok & H).
    apply and_then_Ok in H as (d & [-> _]%u32_from_Ok & H).
    apply and_then_Ok in H as (e & [-> _]%u32_from_Ok & H).
    by apply window_rect_spec in H as [-> ?]; [| lia..].
  - intros (-> & Hx & Hy & Hf). unfold fits in Hf. eexists. split; [done |].
    rewrite i32_from_in by done. simpl.
    rewrite !(proj2 (u32_from_Ok _ _)) by (split; [done |]; unfold u32; lia). simpl.
    apply window_rect_spec; [lia.. |]. done.
Qed.

Lemma frame_to_client_spec frame extents x y w h :
  WindowRect.rect frame = Rect.mk x y w h -> 1 <= w <= 65535 -> 1 <= h <= 65535 ->
  typed_extents extents ->
  forall client, frame_to_client frame extents = Ok client <->
    let '(Extents.mk l r t b) := extents in
    client = at_root (x + l) (y + t) (w - (l + r)) (h - (t + b)) /\
    l + r < w /\ t + b < h /\ i32 (x + l) /\ i32 (y + t) /\
    fits (x + l) (y + t) (w - (l + r)) (h - (t + b)).
Proof.
  destruct frame as [s rect], extents as [l r t b]. simpl. intros -> Hw Hh Ht client.
  unfold typed_extents, u32 in Ht. simpl in Ht.
  unfold frame_to_client, add_u32_to_i32. rewrite size_spec by lia. simpl. split.
  - intros H. apply and_then_Ok in H as (a & [-> _]%u32_add_Ok & H).
    apply and_then_Ok in H as (c & [-> _]%u32_add_Ok & H).
    apply and_then_Ok in H as ([] & Hlt%ensure_Ok & H). simpl in Hlt.
    apply and_then_Ok in H as (d & [-> Hx]%i32_from_Ok & H).
    apply and_then_Ok in H as (e & [-> Hy]%i32_from_Ok & H).
    apply window_rect_spec in H as [-> ?]; [| lia..]. split_and!; done || lia.
  - intros (-> & Hl & Hb & Hx & Hy & Hf).
    rewrite !(proj2 (u32_add_Ok _ _ _)) by (split; [done |]; unfold u32; lia). simpl.
    rewrite ensure_pass by (simpl; lia). simpl. rewrite !i32_from_in by done. simpl.
    apply window_rect_spec; [lia.. |]. done.
Qed.

(** *** Contexts *)
Lemma valid_placed r :
  typed_rect r -> WindowRect.validate r = Ok tt -> WindowRect.coordinate_space r = RootPhysical ->
  placed r.
Proof.
  destruct r as [s [x y w h]]. unfold typed_rect. simpl. intros (Hx & Hy & Hw & Hh) Hv ->.
  exists x, y, w, h. split_and!; [done.. |]. unfold u32 in *. by rewrite <- (validate_rect_spec RootPhysical) by lia.
Qed.

(** A context holds representable rectangles, and a frame that agrees with its extents. *)
Record context_ok (c : t) : Prop := {
  ctx_root : placed (root c);
  ctx_client : placed (WindowGeometry.client_rect (window c));
  ctx_frame frame : WindowGeometry.frame_rect (window c) = Some frame -> placed frame;
  ctx_extents extents : WindowGeometry.frame_extents (window c) = Some extents -> typed_extents extents;
  ctx_consistent frame extents :
    WindowGeometry.frame_rect (window c) = Some frame ->
    WindowGeometry.frame_extents (window c) = Some extents ->
    derive_frame_rect (WindowGeometry.client_rect (window c)) extents = Ok frame;
}.

Lemma new_context_ok r w c :
  typed_rect r -> typed_window w -> new r w = Ok c -> c = mk r w /\ context_ok c.
Proof.
  intros Htr (Htc & Htf & Hte) H. unfold new in H.
  apply and_then_Ok in H as ([] & Hr%map_err_Ok & H).
  apply and_then_Ok in H as ([] & Hw%map_err_Ok & H).
  apply and_then_Ok in H as ([] & Hs%ensure_Ok & H).
  apply and_then_Ok in H as ([] & Hf & [= <-]). split; [done |].
  unfold WindowGeometry.validate in Hw.
  apply and_then_Ok in Hw as ([] & Hc & Hw). apply and_then_Ok in Hw as ([] & _ & Hw).
  apply and_then_Ok in Hw as ([] & Hfr & Hw). apply and_then_Ok in Hw as ([] & Hsp%ensure_Ok & _).
  rewrite <- Forall_Exists_neg in Hsp. apply Forall_cons_1 in Hsp as [Hsc Hsp].
  apply Forall_app in Hsp as [Hsf _].
  constructor; simpl.
  - apply valid_placed; [done.. |]. by destruct (decide (WindowRect.coordinate_space r = RootPhysical)).
  - apply valid_placed; [done.. |].
    by destruct (decide (WindowRect.coordinate_space (WindowGeometry.client_rect w) = RootPhysical)).
  - intros frame Hfw. rewrite Hfw in Htf, Hfr, Hsf. simpl in *.
    apply Forall_cons_1 in Hsf as [Hsf _]. apply Forall_cons_1 in Htf as [Htf _].
    apply valid_placed; [done.. |]. by destruct (decide (WindowRect.coordinate_space frame = RootPhysical)).
  - intros extents He. rewrite He in Hte. simpl in Hte. by apply Forall_cons_1 in Hte as [? _].
  - intros frame extents Hfw He. rewrite Hfw, He in Hf.
    apply and_then_Ok in Hf as (d & Hd & Hn%ensure_Ok). rewrite Hd. f_equal.
    by destruct (decide (d = frame)).
Qed.

(** The rectangle a request describes: its fields, over the current ones. *)
Definition requested (current : WindowRect.t) (desired : GeometryRequest.t) : WindowRect.t :=
  let '(Rect.mk x y w h) := WindowRect.rect current in
  at_root (default x (GeometryRequest.x desired)) (default y (GeometryRequest.y desired))
    (default w (GeometryRequest.width desired)) (default h (GeometryRequest.height desired)).

Lemma typed_option (P : Z -> Prop) (o : option Z) d : Forall P (option_list o) -> P d -> P (default d o).
Proof. destruct o; simpl; [| done]. by intros [? _]%Forall_cons_1. Qed.

Lemma apply_partial_spec current desired r :
  placed current -> typed_request desired ->
  apply_partial current desired = Ok r -> r = requested current desired /\ placed r.
Proof.
  intros (x & y & w & h & -> & Hx & Hy & Hf) [[Htx Hty]%Forall_app [Htw Hth]%Forall_app].
  unfold fits in Hf. unfold apply_partial, requested, at_root. rewrite size_spec by lia. simpl.
  assert (u32 (default w (GeometryRequest.width desired))) as Hw by (apply typed_option; [done | unfold u32; lia]).
  assert (u32 (default h (GeometryRequest.height desired))) as Hh by (apply typed_option; [done | unfold u32; lia]).
  unfold u32 in Hw, Hh. intros [-> Hr]%window_rect_spec; [| lia..]. split; [done |].
  do 4 eexists. split; [done |]. split_and!; [by apply typed_option.. | done].
Qed.

Lemma apply_partial_fits current desired :
  placed current -> typed_request desired ->
  (let '(Rect.mk x y w h) := WindowRect.rect (requested current desired) in fits x y w h) ->
  apply_partial current desired = Ok (requested current desired).
Proof.
  intros (x & y & w & h & -> & Hx & Hy & Hf) Ht Hr. unfold fits in Hf.
  unfold apply_partial, requested, at_root in *. rewrite size_spec by lia. simpl in *.
  apply window_rect_spec; [unfold fits in Hr; lia.. |]. done.
Qed.

(** Re-applying the changed fields to the current rectangle gives the effective one. *)
Lemma changed_fields_apply current effective desired g :
  placed current -> placed effective -> changed_client_fields current effective desired = Ok g ->
  apply_partial current g = Ok effective.
Proof.
  intros (x & y & w & h & -> & Hx & Hy & Hf) (x' & y' & w' & h' & -> & Hx' & Hy' & Hf').
  unfold changed_client_fields, apply_partial, at_root. unfold fits in *. rewrite !size_spec by lia.
  simpl. intros [= <-]. simpl.
  assert (forall d a b, default a (changed_field d a b) = b) as Hd.
  { intros d a b. unfold changed_field. case_decide as Hn; [done |]. simpl.
    destruct (decide (a = b)); [done | tauto]. }
  rewrite !Hd. apply window_rect_spec; [lia.. |]. done.
Qed.

Lemma client_of_Ok c relative_to effective client :
  context_ok c -> placed effective -> client_of c relative_to effective = Ok client ->
  placed client /\
  match relative_to with
  | TargetClient => client = effective
  | TargetFrame => exists extents, WindowGeometry.frame_extents (window c) = Some extents /\
      derive_frame_rect client extents = Ok effective
  end.
Proof.
  intros Hc Hp. destruct relative_to; simpl; [| by intros [= <-]].
  destruct (WindowGeometry.frame_extents (window c)) as [[l r t b] |] eqn:He; simpl; [| done].
  pose proof (ctx_extents _ Hc _ He) as Ht. destruct Hp as (x & y & w & h & -> & Hx & Hy & Hf).
  unfold fits in Hf. rewrite (frame_to_client_spec _ _ x y w h) by (done || lia).
  intros (-> & Hl & Hb & Hix & Hiy & Hfit). split.
  - do 4 eexists. done.
  - eexists. split; [done |]. unfold fits in Hfit.
    apply (derive_spec _ _ (x + l) (y + t) (w - (l + r)) (h - (t + b))); [done | lia.. | done |].
    unfold at_root, i32, fits in *. split_and!; try lia. repeat f_equal; lia.
Qed.

Lemma target_rect_placed c relative_to current :
  context_ok c -> target_rect c relative_to = Ok current -> placed current.
Proof.
  intros Hc. destruct relative_to; simpl.
  - intros ([] & _ & H)%and_then_Ok.
    destruct (WindowGeometry.frame_rect (window c)) eqn:Hf; simpl in H; simplify_eq.
    by apply (ctx_frame _ Hc).
  - intros [= <-]. apply Hc.
Qed.
End PlacementFacts.

(** ** Properties *)
Section PlacementProperties.
Import Placement PlacementFacts.
Context (root_rect : WindowRect.t) (live : WindowGeometry.t) (c : t).
Context (Hroot : typed_rect root_rect) (Hlive : typed_window live) (Hnew : new root_rect live = Ok c).

(** A resolved move or resize is the request, over the live rectangle it refers to, under
    the bounds policy: unchanged off-screen, refused unless inside the root, or the nearest
    rectangle of the largest size that fits; and [bounds_constrained] says exactly whether the
    policy changed it.  The client rectangle is the one that, decorated with the live extents,
    gives that rectangle; and sending the fields of [client_request] over the live client
    rectangle yields the client rectangle. *)
Theorem move_resize_exact (relative_to : WindowGeometryTarget) (desired : GeometryRequest.t)
    (policy : WindowScreenBoundsPolicy) (r : ResolvedWindowGeometry) :
  typed_request desired -> resolve_move_resize c relative_to desired policy = Ok r ->
  exists current, target_rect c relative_to = Ok current /\
  (let candidate := requested current desired in
   match policy with
   | AllowOffscreen => effective r = candidate
   | RequireInsideRoot => effective r = candidate /\ inside root_rect candidate
   | ClampToRoot => nearest root_rect candidate (effective r)
   end /\
   (bounds_constrained r = true <-> effective r <> candidate)) /\
  match relative_to with
  | TargetClient => resolved_client_rect r = effective r
  | TargetFrame => exists extents, WindowGeometry.frame_extents live = Some extents /\
      derive_frame_rect (resolved_client_rect r) extents = Ok (effective r)
  end /\
  apply_partial (WindowGeometry.client_rect live) (client_request r) = Ok (resolved_client_rect r).
Proof.
  intros Ht H. destruct (new_context_ok _ _ _ Hroot Hlive Hnew) as [-> Hc].
  unfold resolve_move_resize in H. apply and_then_Ok in H as ([] & _ & H).
  apply and_then_Ok in H as (current & Hcur & H). apply and_then_Ok in H as (candidate & Hcand & H).
  apply and_then_Ok in H as (eff & Heff & H). apply and_then_Ok in H as (client & Hcl & H).
  apply and_then_Ok in H as (g & Hg & [= <-]). simpl.
  pose proof (target_rect_placed _ _ _ Hc Hcur) as Hpc.
  apply apply_partial_spec in Hcand as [-> Hpcand]; [| done..].
  apply apply_bounds_Ok in Heff as [Hpe Heff]; [| apply Hc | done].
  apply (client_of_Ok _ _ _ _ Hc Hpe) in Hcl as [Hpcl Hcl].
  exists current. split_and!; [done | done | | done |].
  - rewrite bool_decide_eq_true. split; congruence.
  - eapply changed_fields_apply; [apply Hc | done | exact Hg].
Qed.

(** A move or resize of the client is refused only for a reason: the request is empty or
    has a dimension out of range, the rectangle it describes is not representable, or it
    must be, and is not, inside the root.  Clamping in particular never fails. *)
Theorem client_move_resize_accepted (desired : GeometryRequest.t) (policy : WindowScreenBoundsPolicy) :
  typed_request desired ->
  let candidate := requested (WindowGeometry.client_rect live) desired in
  is_ok (resolve_move_resize c TargetClient desired policy) = true <->
  GeometryRequest.validate desired = Ok tt /\
  (let '(Rect.mk x y w h) := WindowRect.rect candidate in fits x y w h) /\
  (policy = RequireInsideRoot -> inside root_rect candidate).
Proof.
  intros Ht candidate. destruct (new_context_ok _ _ _ Hroot Hlive Hnew) as [-> Hc].
  pose proof (ctx_client _ Hc) as Hcl. pose proof (ctx_root _ Hc) as Hpr. simpl in Hcl, Hpr.
  unfold resolve_move_resize. simpl.
  destruct (GeometryRequest.validate desired) as [[] | e]; simpl; [| naive_solver].
  destruct (apply_partial (WindowGeometry.client_rect live) desired) as [r | e] eqn:Hp; simpl.
  - apply apply_partial_spec in Hp as [-> Hpr']; [| done..]. fold candidate in Hpr' |- *.
    assert (let '(Rect.mk x y w h) := WindowRect.rect candidate in fits x y w h) as Hfit.
    { destruct Hpr' as (x & y & w & h & Heq & _ & _ & Hf). by rewrite Heq. }
    assert (forall eff, placed eff ->
      is_ok (let? client_request := changed_client_fields (WindowGeometry.client_rect live) eff desired in
        Ok (mkResolvedGeometry eff eff client_request (bool_decide (candidate <> eff)))) = true) as Hok.
    { intros eff (x & y & w & h & -> & _ & _ & Hf). destruct Hcl as (a & b & d & e & -> & _ & _ & Hg).
      unfold changed_client_fields, at_root. unfold fits in *. by rewrite !size_spec by lia. }
    destruct policy; simpl.
    + rewrite Hok by done. naive_solver.
    + rewrite contains_rect_spec by done. simpl. case_bool_decide; simpl; [rewrite Hok by done |]; naive_solver.
    + destruct (clamp_rect_spec root_rect candidate) as (v & -> & Hv & _); [done.. |]. simpl.
      rewrite Hok by done. naive_solver.
  - split; [done |]. intros (_ & Hf & _). by rewrite apply_partial_fits in Hp.
Qed.

(** A window-local point becomes its translation by the live origin, under the policy:
    unchanged off-screen; exactly the points of the root are accepted when they must lie
    inside; and clamping yields the nearest point of the root. *)
Theorem local_point_exact (space : CoordinateSpace) (p : Point.t) (policy : WindowScreenBoundsPolicy)
    (r : ResolvedWindowPoint) :
  i32 (Point.x p) -> i32 (Point.y p) -> resolve_local_point c space p policy = Ok r ->
  exists o, local_origin c space = Ok o /\
  let '(Rect.mk rx ry rw rh) := WindowRect.rect root_rect in
  let x := Point.x o + Point.x p in
  let y := Point.y o + Point.y p in
  let in_root a b := rx <= a < rx + rw /\ ry <= b < ry + rh in
  match policy with
  | AllowOffscreen => root_point r = Point.mk x y
  | RequireInsideRoot => root_point r = Point.mk x y /\ in_root x y
  | ClampToRoot =>
      in_root (Point.x (root_point r)) (Point.y (root_point r)) /\
      forall a b, in_root a b ->
        Z.abs (Point.x (root_point r) - x) <= Z.abs (a - x) /\
        Z.abs (Point.y (root_point r) - y) <= Z.abs (b - y)
  end /\
  (point_constrained r = true <-> root_point r <> Point.mk x y).
Proof.
  intros Hpx Hpy H. destruct (new_context_ok _ _ _ Hroot Hlive Hnew) as [-> Hc].
  destruct (ctx_root _ Hc) as (rx & ry & rw & rh & Heq & Hrx & Hry & Hf). simpl in Heq.
  unfold fits in Hf. unfold resolve_local_point in H.
  apply and_then_Ok in H as (o & Ho & H). apply and_then_Ok in H as (x & [-> Hx]%i32_from_Ok & H).
  apply and_then_Ok in H as (y & [-> Hy]%i32_from_Ok & H).
  apply and_then_Ok in H as (v & Hv & [= <-]). exists o. split; [done |]. rewrite Heq. simpl.
  split; [| rewrite bool_decide_eq_true; done].
  assert (u32 rw /\ u32 rh) as [Hw Hh] by (unfold u32; lia).
  destruct policy; simpl in Hv; rewrite ?Heq in Hv.
  - by injection Hv as <-.
  - unfold contains_point, at_root in Hv. rewrite size_spec in Hv by lia. simpl in Hv.
    rewrite !exclusive_end_in in Hv by done. simpl in Hv.
    repeat (case_decide; simpl in Hv); try done. injection Hv as <-. split; [done | lia].
  - unfold clamp_point, at_root in Hv. rewrite size_spec in Hv by lia. simpl in Hv.
    rewrite !exclusive_end_in in Hv by done. simpl in Hv.
    destruct (ScreenRect.clamp_to_spec (Point.x o + Point.x p) rx (rx + rw - 1)) as (Hcx & _ & Hnx); [lia |].
    destruct (ScreenRect.clamp_to_spec (Point.y o + Point.y p) ry (ry + rh - 1)) as (Hcy & _ & Hny); [lia |].
    apply and_then_Ok in Hv as (a & [-> _]%i32_from_Ok & Hv).
    apply and_then_Ok in Hv as (b & [-> _]%i32_from_Ok & [= <-]). simpl. split; [lia |].
    intros a b Hab. split; [apply Hnx | apply Hny]; lia.
Qed.
End PlacementProperties.

(** Decorating a client and taking the decorations off again are inverse: the frame of a
    client yields the client, and the client in a frame yields the frame. *)
Theorem frame_client_roundtrip (r f : WindowRect.t) (extents : Extents.t) :
  PlacementFacts.placed r -> PlacementFacts.typed_extents extents ->
  (Placement.derive_frame_rect r extents = Ok f -> Placement.frame_to_client f extents = Ok r) /\
  (Placement.frame_to_client r extents = Ok f -> Placement.derive_frame_rect f extents = Ok r).
Proof.
  intros (x & y & w & h & -> & Hx & Hy & Hf) Ht. pose proof Hf as Hf'. unfold PlacementFacts.fits in Hf'.
  rewrite (PlacementFacts.derive_spec (PlacementFacts.at_root x y w h) extents x y w h)
    by (done || lia).
  rewrite (PlacementFacts.frame_to_client_spec (PlacementFacts.at_root x y w h) extents x y w h)
    by (done || lia).
  pose proof Ht as Ht'. destruct extents as [l rr t b]. unfold PlacementFacts.typed_extents, u32 in Ht'.
  simpl in Ht'. unfold PlacementFacts.fits, i32 in *. split.
  - intros (-> & Hix & Hiy & Hfit).
    apply (PlacementFacts.frame_to_client_spec _ _ (x - l) (y - t) (w + l + rr) (h + t + b)); [done | lia.. | done |].
    unfold PlacementFacts.fits, PlacementFacts.at_root, i32. split_and!; try lia. repeat f_equal; lia.
  - intros (-> & Hl & Hb & Hix & Hiy & Hfit).
    apply (PlacementFacts.derive_spec _ _ (x + l) (y + t) (w - (l + rr)) (h - (t + b))); [done | lia.. | done |].
    unfold PlacementFacts.fits, PlacementFacts.at_root, i32. split_and!; try lia. repeat f_equal; lia.
Qed.

(** ** The theorems at a concrete window *)
Module PlacementWitness.
Import Placement PlacementFacts.

Definition root_rect : WindowRect.t := at_root 0 0 1920 1080.
Definition extents : Extents.t := Extents.mk 4 4 30 4.
Definition live : WindowGeometry.t :=
  WindowGeometry.mk (at_root 104 130 800 600) (Some (at_root 100 100 808 634))
    (at_root 104 130 800 600) (Some extents).
Definition context : t := mk root_rect live.
(** A move of the frame past the right edge of the root. *)
Definition desired : GeometryRequest.t := GeometryRequest.mk (Some 1500) None None None.

#[local] Ltac small := unfold typed_rect, typed_window, typed_extents, typed_request, i32, u32; simpl;
  repeat constructor; simpl; lia.

Lemma root_typed : typed_rect root_rect.
Proof. small. Qed.
Lemma live_typed : typed_window live.
Proof. unfold typed_window. split_and!; [small | |]; repeat constructor; simpl; lia. Qed.

Lemma move_resize_exact_witness :
  exists r, resolve_move_resize context TargetFrame desired ClampToRoot = Ok r /\
    effective r = at_root 1112 100 808 634 /\
    derive_frame_rect (resolved_client_rect r) extents = Ok (effective r).
Proof.
  destruct (resolve_move_resize context TargetFrame desired ClampToRoot) as [r | e] eqn:H;
    [| vm_compute in H; discriminate].
  exists r. split; [done |].
  destruct (move_resize_exact root_rect live context root_typed live_typed eq_refl
    TargetFrame desired ClampToRoot r) as (_ & _ & _ & (e & He & Hd) & _); [small | exact H |].
  injection He as <-. split; [| exact Hd]. revert H. vm_compute. by intros [= <-].
Defined.

Lemma client_move_resize_accepted_witness :
  is_ok (resolve_move_resize context TargetClient desired RequireInsideRoot) = false /\
  is_ok (resolve_move_resize context TargetClient desired ClampToRoot) = true.
Proof.
  split; [by vm_compute |].
  apply (client_move_resize_accepted root_rect live context root_typed live_typed eq_refl
    desired ClampToRoot); [small |]. split_and!; [by vm_compute | | done].
  unfold fits. simpl. lia.
Defined.

Lemma local_point_exact_witness :
  exists r, resolve_local_point context WindowClient (Point.mk 5000 10) ClampToRoot = Ok r /\
    root_point r = Point.mk 1919 140 /\ point_constrained r = true.
Proof.
  destruct (resolve_local_point context WindowClient (Point.mk 5000 10) ClampToRoot) as [r | e] eqn:H;
    [| vm_compute in H; discriminate].
  exists r. split; [done |].
  destruct (local_point_exact root_rect live context root_typed live_typed eq_refl WindowClient
    (Point.mk 5000 10) ClampToRoot r) as (o & Ho & _ & Hc); [unfold i32; simpl; lia.. | exact H |].
  assert (root_point r = Point.mk 1919 140) as Hp by (revert H; vm_compute; by intros [= <-]).
  split; [done |]. apply Hc. rewrite Hp. injection Ho as <-. by vm_compute.
Defined.

Lemma frame_client_roundtrip_witness :
  derive_frame_rect (at_root 104 130 800 600) extents = Ok (at_root 100 100 808 634) /\
  frame_to_client (at_root 100 100 808 634) extents = Ok (at_root 104 130 800 600).
Proof.
  split; [by vm_compute |].
  refine (proj1 (frame_client_roundtrip (at_root 104 130 800 600) _ extents _ _) _).
  - exists 104, 130, 800, 600. unfold i32, fits. split_and!; done || lia.
  - unfold typed_extents, u32. simpl. lia.
  - by vm_compute.
Defined.
End PlacementWitness.
