(* ===== verification/Orderings.v ===== *)
(** * Total comparisons

    The [Ord] and [Ordering::then_with] comparisons of the program as total preorders, so
    that a sort by them has one result: shared by the components that sort. *)

From stdpp Require Import base numbers list option strings sorting.
From Stdlib Require Import Lia Ascii.
From S2P Require Import Prelude.

Local Open Scope N_scope.

(** A comparison that is reversed by swapping its arguments and whose [<=] is transitive. *)
Record total_cmp {A} (f : A -> A -> comparison) : Prop := {
  total_opp a b : f b a = CompOpp (f a b);
  total_trans a b c : f a b <> Gt -> f b c <> Gt -> f a c <> Gt;
}.

Section Total.
  Context {A : Type} (f : A -> A -> comparison) (Hf : total_cmp f).

Lemma total_refl a : f a a = Eq.
Proof. pose proof (total_opp _ Hf a a) as H. by destruct (f a a). Qed.

Lemma total_either a b : f a b <> Gt \/ f b a <> Gt.
Proof. rewrite (total_opp _ Hf a b). destruct (f a b); simpl; auto. Qed.

Lemma total_lt_l a b c : f a b = Lt -> f b c <> Gt -> f a c = Lt.
Proof.
  intros Hab Hbc. destruct (f a c) eqn:Hac; [| done |].
  - exfalso. assert (f b a <> Gt) as Hba.
    { apply (total_trans _ Hf b c a); [done |]. by rewrite (total_opp _ Hf a c), Hac. }
    rewrite (total_opp _ Hf a b), Hab in Hba. done.
  - exfalso. apply (total_trans _ Hf a b c); [by rewrite Hab | done | done].
Qed.

Lemma total_lt_r a b c : f a b <> Gt -> f b c = Lt -> f a c = Lt.
Proof.
  intros Hab Hbc. destruct (f a c) eqn:Hac; [| done |].
  - exfalso. assert (f c b <> Gt) as Hcb.
    { apply (total_trans _ Hf c a b); [| done]. by rewrite (total_opp _ Hf a c), Hac. }
    rewrite (total_opp _ Hf b c), Hbc in Hcb. done.
  - exfalso. apply (total_trans _ Hf a b c); [done | by rewrite Hbc | done].
Qed.

Lemma total_eq_l a b c : f a b = Eq -> f a c = f b c.
Proof.
  intros Hab. assert (f b a = Eq) as Hba by (by rewrite (total_opp _ Hf a b), Hab).
  destruct (f b c) eqn:Hbc; [| by apply (total_lt_r a b c); [rewrite Hab |] |].
  - destruct (f a c) eqn:Hac; [done | |].
    + assert (f b c = Lt) by (by apply (total_lt_r b a c); [rewrite Hba |]). congruence.
    + exfalso. apply (total_trans _ Hf a b c); [by rewrite Hab | by rewrite Hbc | done].
  - destruct (f a c) eqn:Hac; [| | done]; exfalso;
      apply (total_trans _ Hf b a c); rewrite ?Hba, ?Hac; done.
Qed.

(** The order as stdpp's sorts take it. *)
Definition cmp_le (a b : A) : Prop := ordering_le (f a b).

#[export] Instance cmp_le_transitive : Transitive cmp_le.
Proof. intros a b c. apply (total_trans _ Hf). Qed.
#[export] Instance cmp_le_total : Total cmp_le.
Proof. intros a b. apply total_either. Qed.
End Total.

(** [sort_by] through a key. *)
Lemma total_key {A B} (g : A -> B) (f : B -> B -> comparison) :
  total_cmp f -> total_cmp (fun a b => f (g a) (g b)).
Proof. intros [Ho Ht]. split; intros; [apply Ho | by eapply Ht]. Qed.

Lemma total_swap {A} (f : A -> A -> comparison) : total_cmp f -> total_cmp (fun a b => f b a).
Proof. intros [Ho Ht]. split; intros; [apply Ho | by eapply Ht]. Qed.

(** [Ordering::then_with]. *)
Lemma total_then {A} (f g : A -> A -> comparison) :
  total_cmp f -> total_cmp g -> total_cmp (fun a b => then_with (f a b) (g a b)).
Proof.
  intros Hf Hg. split.
  - intros a b. rewrite (total_opp _ Hf a b), (total_opp _ Hg a b). by destruct (f a b).
  - intros a b c. destruct (f a b) eqn:Hab; simpl; [| | done].
    + rewrite (total_eq_l f Hf a b c Hab). destruct (f b c); simpl; [| done..].
      apply (total_trans _ Hg).
    + intros _ Hbc. rewrite (total_lt_l f Hf a b c Hab); [done |].
      by destruct (f b c).
Qed.

Lemma total_N : total_cmp N.compare.
Proof.
  split; [intros a b; apply N.compare_antisym |].
  intros a b c. rewrite !N.compare_gt_iff. lia.
Qed.

Lemma total_ascii : total_cmp Ascii.compare.
Proof.
  split; [intros a b; apply Ascii.compare_antisym |]. intros a b c. unfold Ascii.compare.
  apply (total_trans _ total_N).
Qed.

(** [str]'s [Ord]: byte by byte. *)
Lemma total_string : total_cmp String.compare.
Proof.
  split; [intros a b; apply String.compare_antisym |].
  intros a. induction a as [| x a IH]; intros [| y b] [| z c]; simpl; try done.
  pose proof total_ascii as Ht. destruct (Ascii.compare x y) eqn:Hxy; [| | done].
  - rewrite (total_eq_l _ Ht x y z Hxy). destruct (Ascii.compare y z); [apply IH | done..].
  - intros _ H. rewrite (total_lt_l _ Ht x y z Hxy); [done |]. by destruct (Ascii.compare y z).
Qed.

(** Sorting by a total comparison that tells the elements apart has one result: any two
    permutations of a list without duplicates are sorted alike. *)
Section SortUnique.
  Context {A : Type} (f : A -> A -> comparison) (Hf : total_cmp f).
  Context (R : A -> A -> Prop) `{!forall a b, Decision (R a b)}.
  Context (HR : forall a b, R a b <-> f a b <> Gt).

#[local] Instance R_transitive : Transitive R.
Proof. intros a b c. rewrite !HR. apply (total_trans _ Hf). Qed.
#[local] Instance R_total : Total R.
Proof. intros a b. rewrite !HR. apply (total_either _ Hf). Qed.

Lemma sort_sorted l : Sorted.StronglySorted R (merge_sort R l).
Proof. apply StronglySorted_merge_sort; apply _. Qed.

Lemma sort_canonical l k :
  (forall a b, a ∈ l -> b ∈ l -> f a b = Eq -> a = b) ->
  l ≡ₚ k -> merge_sort R l = merge_sort R k.
Proof.
  intros Hinj Hlk. apply (StronglySorted_unique_strong R); try apply sort_sorted.
  - intros a b Ha Hb Hab%HR Hba%HR. rewrite merge_sort_Permutation in Ha, Hb.
    rewrite <- Hlk in Hb. apply Hinj; [done.. |].
    rewrite (total_opp _ Hf a b) in Hba. by destruct (f a b).
  - by rewrite !merge_sort_Permutation.
Qed.
End SortUnique.
