(* ===== verification/WindowSelectors.v ===== *)
(** * Window selectors, list requests and waits on the wire

    Models [xenoteer-protocol/src/window_selector.rs]: the selector language with its
    recursive budgets, the requests and pages that carry it, and the wait predicates,
    with their validation.  Whether a pattern compiles within the bounded regular
    expression engine (the regex-automata crate) is a parameter; the serialization and
    the redacted [Debug] output are not modelled. *)

From stdpp Require Import base numbers list option gmap strings.
From Stdlib Require Import Lia Ascii.
From S2P Require Import Prelude Identity Geometry WindowTypes.

Local Open Scope N_scope.

Definition DEFAULT_WINDOW_PAGE_LIMIT : N := 50.
Definition MAX_WINDOW_PAGE_LIMIT : N := 200.
Definition MAX_WINDOW_SELECTOR_TEXT_BYTES : N := 4096.
Definition MAX_WINDOW_REGEX_BYTES : N := 1024.
Definition MAX_WINDOW_SELECTOR_DEPTH : N := 8.
Definition MAX_WINDOW_SELECTOR_PREDICATES : N := 64.
Definition MAX_WINDOW_SELECTOR_REGEXES : N := 8.
Definition MAX_WINDOW_SELECTOR_NODES : N := 128.
Definition MAX_WINDOW_OPAQUE_TOKEN_BYTES : N := 1024.
Definition MIN_WINDOW_OPAQUE_TOKEN_BYTES : N := 16.
Definition MAX_WINDOW_WAIT_TIMEOUT_MS : N := 300000.
Definition MAX_WINDOW_WAIT_COUNT : N := 10000.

(** [WindowQueryValidationError]. *)
Inductive WindowQueryValidationError :=
  | QueryNilIdentifier | PageLimit | OpaqueToken | SelectorDepth | SelectorNodes
  | SelectorPredicates | SelectorRegexes | EmptyComposition | StringMatcher
  | RegexSyntaxOrComplexity | ReportedPidZero | ProcessReferenceInvalid | QueryReferenceScope
  | SnapshotRevision | DuplicateWindow | GeometryCoordinateSpace | WaitTimeout | WaitCount
  | WaitTargetPredicate | WaitResult | WindowInvalid (e : WindowValidationError).

(** [validate_scope], [validate_limit], [validate_reference_scope]. *)
Definition validate_scope (desktop : DesktopId) (generation : DesktopGeneration) :
    result unit WindowQueryValidationError :=
  ensure (nil_scope desktop generation = true) QueryNilIdentifier.

Definition validate_limit (limit : N) : result unit WindowQueryValidationError :=
  ensure (limit = 0 \/ MAX_WINDOW_PAGE_LIMIT < limit) PageLimit.

Definition validate_reference_scope (desktop : DesktopId) (generation : DesktopGeneration)
    (window : WindowRef.t) : result unit WindowQueryValidationError :=
  ensure (WindowRef.desktop_id window <> desktop \/
          WindowRef.desktop_generation window <> generation) QueryReferenceScope.

(** ** Opaque tokens: [WindowPageCursor] and [WindowReferenceToken] *)
Record OpaqueWindowToken := mkToken { token_str : string }.
#[export] Instance token_eq_dec : EqDecision OpaqueWindowToken.
Proof. solve_decision. Defined.

Definition is_token_byte (byte : ascii) : bool :=
  let n := N_of_ascii byte in
  bool_decide (48 <= n <= 57) || bool_decide (65 <= n <= 90) || bool_decide (97 <= n <= 122) ||
  bool_decide (n = 45 \/ n = 95).

(** The macro's [new]. *)
Definition new_token (value : string) : result OpaqueWindowToken WindowQueryValidationError :=
  try! ensure (str_len value < MIN_WINDOW_OPAQUE_TOKEN_BYTES \/
               MAX_WINDOW_OPAQUE_TOKEN_BYTES < str_len value \/
               forallb is_token_byte (String.list_ascii_of_string value) = false) OpaqueToken in
  Ok (mkToken value).

(** ** Orders and entries *)
Inductive WindowOrder :=
  | CreationAscending | CreationDescending | StackingBottomToTop | StackingTopToBottom
  | TitleAscending | TitleDescending | XidAscending.
#[export] Instance window_order_eq_dec : EqDecision WindowOrder.
Proof. solve_decision. Defined.

(** [WindowSnapshotEntry]. *)
Record WindowSnapshotEntry := mkEntry {
  entry_snapshot : Snapshot.t;
  reference_token : OpaqueWindowToken;
}.

(** [WindowSnapshotEntry::validate]. *)
Definition validate_entry (self : WindowSnapshotEntry) : result unit WindowQueryValidationError :=
  map_err WindowInvalid (Snapshot.validate (entry_snapshot self)).

(** The loop of [validate_snapshot_page] and of [WindowWaitResult::validate], over the
    windows already seen. *)
Fixpoint validate_entries (desktop : DesktopId) (generation : DesktopGeneration)
    (revision : WindowModelRevision) (before : list WindowRef.t)
    (windows : list WindowSnapshotEntry) : result unit WindowQueryValidationError :=
  match windows with
  | [] => Ok tt
  | window :: windows =>
      let snapshot := entry_snapshot window in
      try! validate_entry window in
      try! validate_reference_scope desktop generation (Snapshot.window snapshot) in
      try! ensure (Snapshot.model_revision snapshot <> revision) SnapshotRevision in
      try! ensure (Snapshot.window snapshot ∈ before) DuplicateWindow in
      validate_entries desktop generation revision (before ++ [Snapshot.window snapshot]) windows
  end.

(** [validate_snapshot_page]. *)
Definition validate_snapshot_page (desktop : DesktopId) (generation : DesktopGeneration)
    (revision : WindowModelRevision) (windows : list WindowSnapshotEntry) :
    result unit WindowQueryValidationError :=
  try! ensure (MAX_WINDOW_PAGE_LIMIT < len windows) PageLimit in
  validate_entries desktop generation revision [] windows.

(** [WindowListPage] and [WindowQueryPage], which validate alike. *)
Module WindowPage.
Record t := mk {
  desktop_id : DesktopId;
  desktop_generation : DesktopGeneration;
  snapshot_revision : WindowModelRevision;
  windows : list WindowSnapshotEntry;
  next_cursor : option OpaqueWindowToken;
}.

Definition validate (self : t) : result unit WindowQueryValidationError :=
  try! validate_scope (desktop_id self) (desktop_generation self) in
  validate_snapshot_page (desktop_id self) (desktop_generation self) (snapshot_revision self)
    (windows self).
End WindowPage.

(** ** Selectors *)
Inductive WindowTextField := Title | VisibleTitle | IconTitle | ClassInstance | Class_ | ClientMachineField.

Inductive WindowStringMatch :=
  | Exact (value : string) (case_sensitive : bool)
  | Contains (value : string) (case_sensitive : bool)
  | Prefix (value : string) (case_sensitive : bool)
  | Suffix (value : string) (case_sensitive : bool)
  | Regex (pattern : string) (case_sensitive : bool).

Inductive WindowPredicate :=
  | Text (field : WindowTextField) (matcher : WindowStringMatch)
  | ManagedProcess (process : ProcessRef.t)
  | ReportedPid (pid : N)
  | WindowType (value : WindowAtomName)
  | State (value : WindowAtomName) (present : bool)
  | MapState (value : WindowMapState)
  | Workspace (workspace : N)
  | Active (value : bool)
  | Focused (value : bool)
  | TransientFor (window : WindowRef.t)
  | GroupLeader (window : WindowRef.t)
  | HasAccessibilityApplication (value : bool)
  | CreatedAfter (model_revision : WindowModelRevision).

Inductive WindowSelector :=
  | Predicate (predicate : WindowPredicate)
  | All (selectors : list WindowSelector)
  | Any (selectors : list WindowSelector)
  | Not (selector : WindowSelector).

(** [SelectorBudget]. *)
Module SelectorBudget.
Record t := mk { nodes : N; predicates : N; regexes : N }.
Definition default : t := mk 0 0 0.
Definition set_nodes (v : N) (s : t) : t := mk v (predicates s) (regexes s).
Definition set_predicates (v : N) (s : t) : t := mk (nodes s) v (regexes s).
Definition set_regexes (v : N) (s : t) : t := mk (nodes s) (predicates s) v.
End SelectorBudget.

(** Is the predicate a regular expression? *)
Definition is_regex (predicate : WindowPredicate) : bool :=
  match predicate with Text _ (Regex _ _) => true | _ => false end.

(** ** Wait predicates *)
Inductive WindowGeometryArea := ClientArea | FrameArea | ContentArea.

Inductive WindowGeometryPredicate :=
  | Equals (area : WindowGeometryArea) (expected : WindowRect.t)
  | Intersects (area : WindowGeometryArea) (region : WindowRect.t)
  | ContainedBy (area : WindowGeometryArea) (bounds : WindowRect.t)
  | ContainsPoint (area : WindowGeometryArea) (point : Point.t).

(** [WindowGeometryPredicate::validate]. *)
Definition validate_geometry_predicate (self : WindowGeometryPredicate) :
    result unit WindowQueryValidationError :=
  let rect := match self with
              | Equals _ rect | Intersects _ rect | ContainedBy _ rect => Some rect
              | ContainsPoint _ _ => None
              end in
  match rect with
  | Some rect =>
      try! map_err WindowInvalid (WindowRect.validate rect) in
      ensure (WindowRect.coordinate_space rect <> RootPhysical) GeometryCoordinateSpace
  | None => Ok tt
  end.

Inductive WindowCountComparison := Exactly | AtLeast | AtMost.
Record WindowCountPredicate := mkCountPredicate { count_comparison : WindowCountComparison; count : N }.

(** [WindowCountPredicate::validate]. *)
Definition validate_count (self : WindowCountPredicate) : result unit WindowQueryValidationError :=
  ensure (MAX_WINDOW_WAIT_COUNT < count self) WaitCount.

Inductive WindowWaitSelectorQuantifier := QuantAny | QuantAll | QuantExactlyOne.
#[export] Instance quantifier_eq_dec : EqDecision WindowWaitSelectorQuantifier.
Proof. solve_decision. Defined.

Inductive WindowWaitTarget :=
  | ReferenceTarget (window : WindowRef.t)
  | SelectorTarget (selector : WindowSelector) (quantifier : WindowWaitSelectorQuantifier).

Inductive WindowWaitPredicate :=
  | WaitExists
  | WaitClosed
  | WaitMapState (state : WindowMapState)
  | WaitActive (desired : bool)
  | WaitFocused (desired : bool)
  | WaitGeometry (predicate : WindowGeometryPredicate)
  | WaitCountIs (predicate : WindowCountPredicate).

(** The [matches!] guards on predicates. *)
Definition is_count (p : WindowWaitPredicate) : bool :=
  match p with WaitCountIs _ => true | _ => false end.
Definition is_closed_or_geometry (p : WindowWaitPredicate) : bool :=
  match p with WaitClosed | WaitGeometry _ => true | _ => false end.
Definition is_exists_or_count (p : WindowWaitPredicate) : bool :=
  match p with WaitExists | WaitCountIs _ => true | _ => false end.

Inductive WindowSingleMatchPolicy := ExactlyOne | First.
Inductive WindowWaitStatus := Matched | TimedOut | TargetVanished | ResyncRequired.
#[export] Instance wait_status_eq_dec : EqDecision WindowWaitStatus.
Proof. solve_decision. Defined.

(** ** Validation *)
Module SelectorValidation.
Section Validation.
(** [regex_builds pattern case_sensitive]: the bounded NFA compiler accepts the pattern. *)
Context (regex_builds : string -> bool -> bool).

(** [WindowStringMatch::validate]. *)
Definition validate_match (self : WindowStringMatch) : result unit WindowQueryValidationError :=
  let '(value, maximum) :=
    match self with
    | Exact value _ | Contains value _ | Prefix value _ | Suffix value _ =>
        (value, MAX_WINDOW_SELECTOR_TEXT_BYTES)
    | Regex pattern _ => (pattern, MAX_WINDOW_REGEX_BYTES)
    end in
  try! ensure (str_len value = 0 \/ maximum < str_len value \/
               Ascii.zero ∈ String.list_ascii_of_string value) StringMatcher in
  match self with
  | Regex pattern case_sensitive =>
      ensure (regex_builds pattern case_sensitive = false) RegexSyntaxOrComplexity
  | _ => Ok tt
  end.

(** [WindowPredicate::validate_for_scope]. *)
Definition validate_predicate (desktop : DesktopId) (generation : DesktopGeneration)
    (self : WindowPredicate) : result unit WindowQueryValidationError :=
  match self with
  | Text _ matcher => validate_match matcher
  | ManagedProcess process =>
      try! map_err (fun _ => ProcessReferenceInvalid) (ProcessRef.validate process) in
      ensure (ProcessRef.desktop_generation process <> generation) QueryReferenceScope
  | ReportedPid pid => ensure (pid = 0) ReportedPidZero
  | TransientFor window | GroupLeader window =>
      try! map_err WindowInvalid (WindowRef.validate_shape window) in
      validate_reference_scope desktop generation window
  | _ => Ok tt
  end.

(** [WindowSelector::validate_node]. *)
Fixpoint validate_node (desktop : DesktopId) (generation : DesktopGeneration) (depth : N)
    (self : WindowSelector) : M SelectorBudget.t WindowQueryValidationError unit :=
  reject_if (MAX_WINDOW_SELECTOR_DEPTH < depth) SelectorDepth ;;;
  modify (fun budget => SelectorBudget.set_nodes (SelectorBudget.nodes budget + 1) budget) ;;;
  budget <- get ;;
  reject_if (MAX_WINDOW_SELECTOR_NODES < SelectorBudget.nodes budget) SelectorNodes ;;;
  match self with
  | Predicate predicate =>
      modify (fun budget =>
        SelectorBudget.set_predicates (SelectorBudget.predicates budget + 1) budget) ;;;
      budget <- get ;;
      reject_if (MAX_WINDOW_SELECTOR_PREDICATES < SelectorBudget.predicates budget)
        SelectorPredicates ;;;
      (if is_regex predicate then
         modify (fun budget =>
           SelectorBudget.set_regexes (SelectorBudget.regexes budget + 1) budget) ;;;
         budget <- get ;;
         reject_if (MAX_WINDOW_SELECTOR_REGEXES < SelectorBudget.regexes budget) SelectorRegexes
       else ret tt) ;;;
      lift (validate_predicate desktop generation predicate)
  | All selectors | Any selectors =>
      reject_if (selectors = []) EmptyComposition ;;;
      for_each (validate_node desktop generation (depth + 1)) selectors
  | Not selector => validate_node desktop generation (depth + 1) selector
  end.

(** [WindowSelector::validate_for_scope]. *)
Definition validate_for_scope (desktop : DesktopId) (generation : DesktopGeneration)
    (self : WindowSelector) : result unit WindowQueryValidationError :=
  try! validate_scope desktop generation in
  snd (validate_node desktop generation 1 self SelectorBudget.default).

(** ** Requests and results *)

(** [WindowListRequest]. *)
Record WindowListRequest := mkListRequest {
  list_desktop_id : DesktopId;
  list_desktop_generation : DesktopGeneration;
  list_limit : N;
  list_order : WindowOrder;
  list_cursor : option OpaqueWindowToken;
}.

(** [WindowListRequest::validate]. *)
Definition validate_list_request (self : WindowListRequest) : result unit WindowQueryValidationError :=
  try! validate_scope (list_desktop_id self) (list_desktop_generation self) in
  validate_limit (list_limit self).

(** [WindowSnapshotTarget] and [WindowSnapshotRequest]. *)
Inductive WindowSnapshotTarget :=
  | SnapshotReference (window : WindowRef.t)
  | SnapshotToken (token : OpaqueWindowToken).

Record WindowSnapshotRequest := mkSnapshotRequest {
  snapshot_desktop_id : DesktopId;
  snapshot_desktop_generation : DesktopGeneration;
  snapshot_target : WindowSnapshotTarget;
}.

(** [WindowSnapshotRequest::validate]. *)
Definition validate_snapshot_request (self : WindowSnapshotRequest) :
    result unit WindowQueryValidationError :=
  try! validate_scope (snapshot_desktop_id self) (snapshot_desktop_generation self) in
  match snapshot_target self with
  | SnapshotReference window =>
      try! map_err WindowInvalid (WindowRef.validate_shape window) in
      validate_reference_scope (snapshot_desktop_id self) (snapshot_desktop_generation self) window
  | SnapshotToken _ => Ok tt
  end.

(** [WindowSnapshotResult] and its [validate]. *)
Record WindowSnapshotResult := mkSnapshotResult {
  result_revision : WindowModelRevision;
  result_window : WindowSnapshotEntry;
}.

Definition validate_snapshot_result (self : WindowSnapshotResult) :
    result unit WindowQueryValidationError :=
  try! validate_entry (result_window self) in
  ensure (Snapshot.model_revision (entry_snapshot (result_window self)) <> result_revision self)
    SnapshotRevision.

(** [WindowQueryRequest]. *)
Record WindowQueryRequest := mkQueryRequest {
  query_desktop_id : DesktopId;
  query_desktop_generation : DesktopGeneration;
  query_selector : WindowSelector;
  query_order : WindowOrder;
  query_limit : N;
  query_cursor : option OpaqueWindowToken;
}.

(** [WindowQueryRequest::validate]. *)
Definition validate_query_request (self : WindowQueryRequest) :
    result unit WindowQueryValidationError :=
  try! validate_scope (query_desktop_id self) (query_desktop_generation self) in
  try! validate_limit (query_limit self) in
  validate_for_scope (query_desktop_id self) (query_desktop_generation self) (query_selector self).

(** [WindowResolveRequest]. *)
Record WindowResolveRequest := mkResolveRequest {
  resolve_desktop_id : DesktopId;
  resolve_desktop_generation : DesktopGeneration;
  resolve_selector : WindowSelector;
  resolve_order : WindowOrder;
  match_policy : WindowSingleMatchPolicy;
}.

(** [WindowResolveRequest::validate]. *)
Definition validate_resolve_request (self : WindowResolveRequest) :
    result unit WindowQueryValidationError :=
  validate_for_scope (resolve_desktop_id self) (resolve_desktop_generation self)
    (resolve_selector self).

(** [WindowResolveResult] and its [validate]. *)
Record WindowResolveResult := mkResolveResult {
  resolved_desktop_id : DesktopId;
  resolved_desktop_generation : DesktopGeneration;
  resolved_at_revision : WindowModelRevision;
  resolved_window : WindowSnapshotEntry;
}.

Definition validate_resolve_result (self : WindowResolveResult) :
    result unit WindowQueryValidationError :=
  let snapshot := entry_snapshot (resolved_window self) in
  try! validate_scope (resolved_desktop_id self) (resolved_desktop_generation self) in
  try! validate_entry (resolved_window self) in
  try! validate_reference_scope (resolved_desktop_id self) (resolved_desktop_generation self)
         (Snapshot.window snapshot) in
  ensure (Snapshot.model_revision snapshot <> resolved_at_revision self) SnapshotRevision.

(** [WindowWaitRequest]. *)
Record WindowWaitRequest := mkWaitRequest {
  wait_desktop_id : DesktopId;
  wait_desktop_generation : DesktopGeneration;
  wait_target : WindowWaitTarget;
  wait_predicate : WindowWaitPredicate;
  after_revision : option WindowModelRevision;
  timeout_ms : N;
}.

(** [WindowWaitRequest::validate]. *)
Definition validate_wait_request (self : WindowWaitRequest) :
    result unit WindowQueryValidationError :=
  let predicate := wait_predicate self in
  try! validate_scope (wait_desktop_id self) (wait_desktop_generation self) in
  try! ensure (timeout_ms self = 0 \/ MAX_WINDOW_WAIT_TIMEOUT_MS < timeout_ms self) WaitTimeout in
  try! match wait_target self with
       | ReferenceTarget window =>
           try! map_err WindowInvalid (WindowRef.validate_shape window) in
           try! validate_reference_scope (wait_desktop_id self) (wait_desktop_generation self) window in
           ensure (is_count predicate = true) WaitTargetPredicate
       | SelectorTarget selector quantifier =>
           try! validate_for_scope (wait_desktop_id self) (wait_desktop_generation self) selector in
           try! ensure (is_closed_or_geometry predicate = true) WaitTargetPredicate in
           ensure (is_exists_or_count predicate = true /\ quantifier <> QuantAny) WaitTargetPredicate
       end in
  match predicate with
  | WaitGeometry predicate => validate_geometry_predicate predicate
  | WaitCountIs predicate => validate_count predicate
  | _ => Ok tt
  end.
End Validation.

(** [WindowWaitResult]. *)
Record WindowWaitResult := mkWaitResult {
  waited_desktop_id : DesktopId;
  waited_desktop_generation : DesktopGeneration;
  status : WindowWaitStatus;
  evaluated_revision : WindowModelRevision;
  wait_satisfied : bool;
  matched_count : N;
  waited_windows : list WindowSnapshotEntry;
}.

(** [WindowWaitResult::validate]. *)
Definition validate_wait_result (self : WindowWaitResult) :
    result unit WindowQueryValidationError :=
  try! validate_scope (waited_desktop_id self) (waited_desktop_generation self) in
  try! ensure (MAX_WINDOW_PAGE_LIMIT < len (waited_windows self) \/
               MAX_WINDOW_WAIT_COUNT < matched_count self \/
               matched_count self < len (waited_windows self) \/
               bool_decide (status self = Matched) <> wait_satisfied self) WaitResult in
  validate_entries (waited_desktop_id self) (waited_desktop_generation self)
    (evaluated_revision self) [] (waited_windows self).
End SelectorValidation.

(** ** Facts *)
Module SelectorFacts.

(** Induction over a selector and all the selectors in its compositions. *)
Section Induction.
Context (P : WindowSelector -> Prop).
Context (Hpredicate : forall p, P (Predicate p)).
Context (Hall : forall l, Forall P l -> P (All l)).
Context (Hany : forall l, Forall P l -> P (Any l)).
Context (Hnot : forall s, P s -> P (Not s)).

Fixpoint selector_nested_ind (s : WindowSelector) : P s :=
  let list_ind := fix list_ind l : Forall P l :=
    match l with
    | [] => @List.Forall_nil _ P
    | s :: l => @List.Forall_cons _ P s l (selector_nested_ind s) (list_ind l)
    end in
  match s with
  | Predicate p => Hpredicate p
  | All l => Hall l (list_ind l)
  | Any l => Hany l (list_ind l)
  | Not s => Hnot s (selector_nested_ind s)
  end.
End Induction.

(** The measures a selector is budgeted by. *)
Definition add (a b : SelectorBudget.t) : SelectorBudget.t :=
  SelectorBudget.mk (SelectorBudget.nodes a + SelectorBudget.nodes b)
    (SelectorBudget.predicates a + SelectorBudget.predicates b)
    (SelectorBudget.regexes a + SelectorBudget.regexes b).

Fixpoint cost (s : WindowSelector) : SelectorBudget.t :=
  match s with
  | Predicate p => SelectorBudget.mk 1 1 (if is_regex p then 1 else 0)
  | All l | Any l =>
      add (SelectorBudget.mk 1 0 0) (fold_right (fun s acc => add (cost s) acc) SelectorBudget.default l)
  | Not s => add (SelectorBudget.mk 1 0 0) (cost s)
  end.
Definition total (l : list WindowSelector) : SelectorBudget.t :=
  fold_right (fun s acc => add (cost s) acc) SelectorBudget.default l.

Fixpoint depth (s : WindowSelector) : N :=
  match s with
  | Predicate _ => 1
  | All l | Any l => 1 + fold_right (fun s acc => N.max (depth s) acc) 0 l
  | Not s => 1 + depth s
  end.
Definition deepest (l : list WindowSelector) : N := fold_right (fun s acc => N.max (depth s) acc) 0 l.

Definition within (b : SelectorBudget.t) : Prop :=
  SelectorBudget.nodes b <= MAX_WINDOW_SELECTOR_NODES /\
  SelectorBudget.predicates b <= MAX_WINDOW_SELECTOR_PREDICATES /\
  SelectorBudget.regexes b <= MAX_WINDOW_SELECTOR_REGEXES.

Section Exactness.
Context (regex_builds : string -> bool -> bool) (desktop : DesktopId) (generation : DesktopGeneration).

(** Every predicate is valid, and no composition is empty. *)
Inductive sound : WindowSelector -> Prop :=
  | sound_predicate p :
      SelectorValidation.validate_predicate regex_builds desktop generation p = Ok tt ->
      sound (Predicate p)
  | sound_all l : l <> [] -> Forall sound l -> sound (All l)
  | sound_any l : l <> [] -> Forall sound l -> sound (Any l)
  | sound_not s : sound s -> sound (Not s).

#[local] Abbreviation node := (SelectorValidation.validate_node regex_builds desktop generation).

(** What one node adds to the budget and requires. *)
Definition exact_node (s : WindowSelector) : Prop :=
  forall d b b', within b ->
    node d s b = (b', Ok tt) <->
    b' = add b (cost s) /\ within b' /\ d + depth s <= MAX_WINDOW_SELECTOR_DEPTH + 1 /\ sound s.

Lemma add_assoc a b c : add (add a b) c = add a (add b c).
Proof. unfold add. simpl. f_equal; lia. Qed.

Lemma add_default a : add a SelectorBudget.default = a.
Proof. destruct a. unfold add. simpl. f_equal; lia. Qed.

Lemma within_add a b : within (add a b) -> within a.
Proof. unfold within, add. simpl. lia. Qed.

Lemma budget_of_list l : Forall exact_node l ->
  forall d b b', within b ->
    for_each (node d) l b = (b', Ok tt) <->
    b' = add b (total l) /\ within b' /\
    (l = [] \/ d + deepest l <= MAX_WINDOW_SELECTOR_DEPTH + 1) /\ Forall sound l.
Proof.
  induction 1 as [| s l Hs _ IH]; intros d b b' Hb; simpl.
  - change (total []) with SelectorBudget.default. rewrite add_default. split.
    + intros [= <-]. auto.
    + by intros (-> & _).
  - destruct (node d s b) as [b1 [[] | e]] eqn:Hn; simpl.
    + apply Hs in Hn as (-> & Hw & Hd & Hsd); [| done]. rewrite IH by done. rewrite add_assoc.
      change (total (s :: l)) with (add (cost s) (total l)). rewrite list.Forall_cons.
      change (deepest (s :: l)) with (N.max (depth s) (deepest l)).
      assert (deepest [] = 0) as Hnil by done.
      split; intros (-> & Hw' & Hd' & Hf); split_and!; try done; try tauto.
      * right. destruct Hd' as [-> | ?]; [rewrite Hnil |]; lia.
      * destruct Hd' as [[=] | ?]. right. lia.
    + split; [done |]. intros (Heq & Hw & Hd & Hf). destruct Hd as [[=] | Hd].
      apply list.Forall_cons in Hf as [Hsd Hf].
      change (total (s :: l)) with (add (cost s) (total l)) in Heq. rewrite <- add_assoc in Heq.
      change (deepest (s :: l)) with (N.max (depth s) (deepest l)) in Hd.
      assert (node d s b = (add b (cost s), Ok tt)) as Hc; [| congruence].
      apply Hs; [done |]. split_and!; [done | | lia | done]. subst b'. by eapply within_add.
Qed.

Lemma node_budget b :
  SelectorBudget.set_nodes (SelectorBudget.nodes b + 1) b = add b (SelectorBudget.mk 1 0 0).
Proof. destruct b. unfold add, SelectorBudget.set_nodes. simpl. f_equal; lia. Qed.

Lemma composition_exact l d b b' :
  Forall exact_node l -> within b ->
  (d <= MAX_WINDOW_SELECTOR_DEPTH /\ SelectorBudget.nodes b + 1 <= MAX_WINDOW_SELECTOR_NODES /\
   (reject_if (l = []) EmptyComposition ;;; for_each (node (d + 1)) l)
     (add b (SelectorBudget.mk 1 0 0)) = (b', Ok tt)) <->
  b' = add b (add (SelectorBudget.mk 1 0 0) (total l)) /\ within b' /\
  d + (1 + deepest l) <= MAX_WINDOW_SELECTOR_DEPTH + 1 /\ l <> [] /\ Forall sound l.
Proof.
  intros Hl Hb. destruct b as [n q r]. simpl. case_decide as Hn; simpl; [naive_solver |].
  assert (n + 1 <= MAX_WINDOW_SELECTOR_NODES -> within (add (SelectorBudget.mk n q r) (SelectorBudget.mk 1 0 0)))
    as Hw1 by (unfold within, add in *; simpl in *; lia).
  rewrite <- add_assoc. split.
  - intros (Hd & Hnn & H). apply budget_of_list in H as (-> & Hw & Hd' & Hf); [| done | by apply Hw1].
    split_and!; try done. destruct Hd' as [? | ?]; [done | lia].
  - intros (-> & Hw & Hd & _ & Hf).
    assert (n + 1 <= MAX_WINDOW_SELECTOR_NODES) as Hn1 by (unfold within in Hw; simpl in Hw; lia).
    split_and!; [lia | done |]. apply budget_of_list; [done | by apply Hw1 |].
    split_and!; [done.. | right; lia | done].
Qed.

(** The guards at every node. *)
Lemma node_head d (k : M SelectorBudget.t WindowQueryValidationError unit) b b' :
  (reject_if (MAX_WINDOW_SELECTOR_DEPTH < d) SelectorDepth ;;;
   modify (fun budget => SelectorBudget.set_nodes (SelectorBudget.nodes budget + 1) budget) ;;;
   budget <- get ;;
   reject_if (MAX_WINDOW_SELECTOR_NODES < SelectorBudget.nodes budget) SelectorNodes ;;; k) b =
    (b', Ok tt) <->
  d <= MAX_WINDOW_SELECTOR_DEPTH /\ SelectorBudget.nodes b + 1 <= MAX_WINDOW_SELECTOR_NODES /\
  k (add b (SelectorBudget.mk 1 0 0)) = (b', Ok tt).
Proof.
  simpl. case_decide; simpl; [split; [done | lia] |]. case_decide; simpl; [split; [done | lia] |].
  rewrite node_budget. split; [intros Hk; split_and!; [lia.. | done] | tauto].
Qed.

Lemma predicate_exact p b b' :
  within b -> SelectorBudget.nodes b + 1 <= MAX_WINDOW_SELECTOR_NODES ->
  (modify (fun budget =>
     SelectorBudget.set_predicates (SelectorBudget.predicates budget + 1) budget) ;;;
   budget <- get ;;
   reject_if (MAX_WINDOW_SELECTOR_PREDICATES < SelectorBudget.predicates budget)
     SelectorPredicates ;;;
   (if is_regex p then
      modify (fun budget =>
        SelectorBudget.set_regexes (SelectorBudget.regexes budget + 1) budget) ;;;
      budget <- get ;;
      reject_if (MAX_WINDOW_SELECTOR_REGEXES < SelectorBudget.regexes budget) SelectorRegexes
    else ret tt) ;;;
   lift (SelectorValidation.validate_predicate regex_builds desktop generation p))
    (add b (SelectorBudget.mk 1 0 0)) = (b', Ok tt) <->
  b' = add b (cost (Predicate p)) /\ within b' /\
  SelectorValidation.validate_predicate regex_builds desktop generation p = Ok tt.
Proof.
  destruct b as [n q r]. unfold within, add, SelectorBudget.set_predicates, SelectorBudget.set_regexes.
  simpl. intros Hb Hn.
  case_decide; simpl; [split; [done |]; intros (-> & Hw & _); simpl in Hw; lia |].
  destruct (is_regex p); simpl; [case_decide; simpl |].
  - split; [done |]. intros (-> & Hw & _). simpl in Hw. lia.
  - replace (q + 0 + 1) with (q + 1) by lia. replace (r + 0 + 1) with (r + 1) by lia.
    split; [intros [= <- ?]; simpl; split_and!; done || lia | by intros (-> & _ & ->)].
  - replace (q + 0 + 1) with (q + 1) by lia.
    split; [intros [= <- ?]; simpl; split_and!; done || lia | by intros (-> & _ & ->)].
Qed.

Lemma node_exact s : exact_node s.
Proof.
  induction s as [p | l IH | l IH | s IH] using selector_nested_ind; intros d b b' Hb;
    cbn [SelectorValidation.validate_node]; rewrite node_head.
  - split.
    + intros (Hd & Hn & Hk%predicate_exact); [| done..]. destruct Hk as (-> & Hw & Hv).
      split_and!; [done.. | simpl; lia | by constructor].
    + intros (-> & Hw & Hd & Hs). simpl in Hd. inversion Hs; subst.
      assert (SelectorBudget.nodes b + 1 <= MAX_WINDOW_SELECTOR_NODES) by (destruct Hw; simpl in *; lia).
      split_and!; [lia | done |]. by apply predicate_exact.
  - rewrite composition_exact by done. simpl.
    split; intros (-> & Hw & Hd & Hs); split_and!; try done.
    + by destruct Hs; constructor.
    + by inversion Hs.
    + by inversion Hs.
  - rewrite composition_exact by done. simpl.
    split; intros (-> & Hw & Hd & Hs); split_and!; try done.
    + by destruct Hs; constructor.
    + by inversion Hs.
    + by inversion Hs.
  - destruct b as [n q r]. simpl in *. split.
    + intros (Hd & Hn & H). apply IH in H as (-> & Hw & Hd' & Hs);
        [| unfold within, add in *; simpl in *; lia].
      rewrite add_assoc. split_and!; [done | by rewrite <- add_assoc | lia | by constructor].
    + intros (-> & Hw & Hd & Hs). inversion Hs; subst. rewrite <- add_assoc in *.
      assert (n + 1 <= MAX_WINDOW_SELECTOR_NODES) as Hn1 by (unfold within in Hw; simpl in Hw; lia).
      split_and!; [lia | done |]. apply IH; [unfold within, add in *; simpl in *; lia |].
      split_and!; [done.. | lia | done].
Qed.
End Exactness.
End SelectorFacts.

(** ** Properties *)

(** A selector is admitted exactly when its scope is named, it nests at most
    [MAX_WINDOW_SELECTOR_DEPTH] deep, has at most [MAX_WINDOW_SELECTOR_NODES] nodes,
    [MAX_WINDOW_SELECTOR_PREDICATES] leaves and [MAX_WINDOW_SELECTOR_REGEXES] regular
    expressions, no empty composition, and only valid predicates: the early exits of the
    budgeted traversal accept neither more nor less. *)
Theorem selector_validation_exact (regex_builds : string -> bool -> bool) (desktop : DesktopId)
    (generation : DesktopGeneration) (s : WindowSelector) :
  SelectorValidation.validate_for_scope regex_builds desktop generation s = Ok tt <->
  nil_scope desktop generation = false /\
  SelectorFacts.depth s <= MAX_WINDOW_SELECTOR_DEPTH /\
  SelectorFacts.within (SelectorFacts.cost s) /\
  SelectorFacts.sound regex_builds desktop generation s.
Proof.
  unfold SelectorValidation.validate_for_scope, validate_scope. rewrite and_then_Ok.
  assert (SelectorFacts.within SelectorBudget.default) as Hd by (unfold SelectorFacts.within; by vm_compute).
  assert (SelectorFacts.add SelectorBudget.default (SelectorFacts.cost s) = SelectorFacts.cost s) as Hadd
    by (by destruct (SelectorFacts.cost s)).
  pose proof (SelectorFacts.node_exact regex_builds desktop generation s 1 SelectorBudget.default) as Hn.
  rewrite Hadd in Hn. split.
  - intros ([] & Hs%ensure_Ok & H). destruct (SelectorValidation.validate_node _ _ _ _ _ _) as [b r].
    simpl in H. subst r. destruct (proj1 (Hn b Hd) eq_refl) as (-> & Hw & Hdep & Hsd).
    split_and!; [by destruct (nil_scope _ _) | lia | done | done].
  - intros (Hs & Hdep & Hw & Hsd). exists tt. split; [apply ensure_pass; by rewrite Hs |].
    by rewrite (proj2 (Hn _ Hd)) by (split_and!; done || lia).
Qed.
