(* ===== verification/WindowQueries.v ===== *)
(** * Window queries, resolution and waits

    Models [xenoteer-core/src/window_query.rs]: an immutable view of the windows at one
    revision, selectors compiled against the bounded regular expression engine, ordered
    pages with their continuations, the resolution of a selector to one window, and the
    evaluation of wait predicates.  The engine (regex-automata), the canonical JSON and
    SHA-256 of a selector (serde_json, sha2) and the Unicode case table are parameters. *)

From stdpp Require Import base numbers list option gmap strings sorting.
From Stdlib Require Import Lia Ascii.
From S2P Require Import Prelude Orderings Identity Geometry WindowTypes WindowSelectors Windows.

Local Open Scope N_scope.

(** [WindowQueryError]. *)
Inductive WindowQueryError :=
  | ViewNilIdentifier | TooManySnapshots
  | QueryInvalidSnapshot (e : WindowValidationError)
  | QueryInvalidReference (e : WindowValidationError)
  | InvalidSelector (e : WindowQueryValidationError)
  | CreationRevisionUnavailable | CreationRevisionAfterSnapshot | MixedScope | MixedRevision
  | DuplicateSnapshot | RegexBuild | Fingerprint | InvalidPageLimit | ContinuationMismatch
  | ContinuationOutOfRange | NoMatch | Ambiguous (matches : N) | IncompatibleWaitTarget.

(** [WindowQueryRecord::new] and [with_optional_creation_revision]. *)
Definition new_record (snapshot : Snapshot.t) (created_revision : WindowModelRevision) :
    result WindowQueryRecord WindowQueryError :=
  try! map_err QueryInvalidSnapshot (Snapshot.validate snapshot) in
  try! ensure (revision_get (Snapshot.model_revision snapshot) < revision_get created_revision)
         CreationRevisionAfterSnapshot in
  Ok (mkQueryRecord snapshot created_revision).

Definition with_optional_creation_revision (snapshot : Snapshot.t)
    (created_revision : option WindowModelRevision) : result WindowQueryRecord WindowQueryError :=
  let? created_revision := ok_or created_revision CreationRevisionUnavailable in
  new_record snapshot created_revision.

(** [u32::try_from(len)]. *)
Definition u32_len {A} (l : list A) (e : WindowQueryError) : result N WindowQueryError :=
  try! ensure (4294967295 < len l) e in Ok (len l).

Definition record_ref (record : WindowQueryRecord) : WindowRef.t :=
  Snapshot.window (record_snapshot record).

(** ** Orders *)

(** [compare_exact_ref]. *)
Definition compare_exact_ref (left right : WindowRef.t) : comparison :=
  then_with (N.compare (WindowRef.xid left) (WindowRef.xid right))
    (then_with (N.compare (WindowRef.observed_generation left) (WindowRef.observed_generation right))
      (String.compare (hash_str (WindowRef.identity_hash left))
         (hash_str (WindowRef.identity_hash right)))).

(** [compare_optional_missing_last], over the [Ord] of the values. *)
Definition compare_optional_missing_last {T} (cmp : T -> T -> comparison) (left right : option T)
    (reverse : bool) : comparison :=
  match left, right with
  | Some a, Some b => if reverse then cmp b a else cmp a b
  | Some _, None => Lt
  | None, Some _ => Gt
  | None, None => Eq
  end.

Definition title_of (record : WindowQueryRecord) : option string :=
  text_value <$> Metadata.title (Snapshot.metadata (record_snapshot record)).

(** [compare_records]. *)
Definition compare_records (order : WindowOrder) (left right : WindowQueryRecord) : comparison :=
  let created r := revision_get (record_created_revision r) in
  let stacking r := Snapshot.stacking_index (record_snapshot r) in
  let primary :=
    match order with
    | CreationAscending => N.compare (created left) (created right)
    | CreationDescending => N.compare (created right) (created left)
    | StackingBottomToTop =>
        compare_optional_missing_last N.compare (stacking left) (stacking right) false
    | StackingTopToBottom =>
        compare_optional_missing_last N.compare (stacking left) (stacking right) true
    | TitleAscending =>
        compare_optional_missing_last String.compare (title_of left) (title_of right) false
    | TitleDescending =>
        compare_optional_missing_last String.compare (title_of left) (title_of right) true
    | XidAscending => N.compare (WindowRef.xid (record_ref left)) (WindowRef.xid (record_ref right))
    end in
  then_with primary (compare_exact_ref (record_ref left) (record_ref right)).

(** [sort_records], and the sort by exact references of a wait. *)
Definition sort_records (order : WindowOrder) (records : list WindowQueryRecord) :
    list WindowQueryRecord :=
  merge_sort (fun left right => ordering_le (compare_records order left right)) records.

Definition sort_by_reference (records : list WindowQueryRecord) : list WindowQueryRecord :=
  merge_sort (fun left right => ordering_le (compare_exact_ref (record_ref left) (record_ref right)))
    records.

(** ** Geometry of wait predicates *)

(** [geometry_area]. *)
Definition geometry_area (geometry : WindowGeometry.t) (area : WindowGeometryArea) :
    option WindowRect.t :=
  match area with
  | ClientArea => Some (WindowGeometry.client_rect geometry)
  | FrameArea => WindowGeometry.frame_rect geometry
  | ContentArea => Some (WindowGeometry.content_rect geometry)
  end.

(** [rectangle_edges]: left, top, right and bottom. *)
Definition rectangle_edges (rectangle : WindowRect.t) : Z * Z * Z * Z :=
  let origin := Rect.origin (WindowRect.rect rectangle) in
  let left := Point.x origin in
  let top := Point.y origin in
  match Rect.size (WindowRect.rect rectangle) with
  | Err _ => (left, top, left, top)
  | Ok size => (left, top, (left + Size.width size)%Z, (top + Size.height size)%Z)
  end.

(** [rectangles_intersect], [rectangle_contains], [rectangle_contains_point]. *)
Definition rectangles_intersect (left right : WindowRect.t) : bool :=
  let '(left_x1, left_y1, left_x2, left_y2) := rectangle_edges left in
  let '(right_x1, right_y1, right_x2, right_y2) := rectangle_edges right in
  bool_decide (left_x1 < right_x2 /\ right_x1 < left_x2 /\
               left_y1 < right_y2 /\ right_y1 < left_y2)%Z.

Definition rectangle_contains (container candidate : WindowRect.t) : bool :=
  let '(outer_x1, outer_y1, outer_x2, outer_y2) := rectangle_edges container in
  let '(inner_x1, inner_y1, inner_x2, inner_y2) := rectangle_edges candidate in
  bool_decide (outer_x1 <= inner_x1 /\ outer_y1 <= inner_y1 /\
               inner_x2 <= outer_x2 /\ inner_y2 <= outer_y2)%Z.

Definition rectangle_contains_point (rectangle : WindowRect.t) (point : Point.t) : bool :=
  let '(x1, y1, x2, y2) := rectangle_edges rectangle in
  bool_decide (x1 <= Point.x point < x2 /\ y1 <= Point.y point < y2)%Z.

(** [snapshot_satisfies]. *)
Definition snapshot_satisfies (snapshot : Snapshot.t) (predicate : WindowWaitPredicate) : bool :=
  match predicate with
  | WaitExists => true
  | WaitClosed | WaitCountIs _ => false
  | WaitMapState state => bool_decide (map_state (Snapshot.state snapshot) = state)
  | WaitActive desired => bool_decide (active (Snapshot.state snapshot) = desired)
  | WaitFocused desired => bool_decide (focused (Snapshot.state snapshot) = desired)
  | WaitGeometry predicate =>
      match Snapshot.geometry snapshot with
      | None => false
      | Some geometry =>
          default false
            match predicate with
            | Equals area expected =>
                (fun actual => bool_decide (actual = expected)) <$> geometry_area geometry area
            | Intersects area region =>
                (fun actual => rectangles_intersect actual region) <$> geometry_area geometry area
            | ContainedBy area bounds =>
                (fun actual => rectangle_contains bounds actual) <$> geometry_area geometry area
            | ContainsPoint area point =>
                (fun actual => rectangle_contains_point actual point) <$> geometry_area geometry area
            end
      end
  end.

(** [snapshot_text]. *)
Definition snapshot_text (snapshot : Snapshot.t) (field : WindowTextField) : option string :=
  let metadata := Snapshot.metadata snapshot in
  text_value <$>
    match field with
    | Title => Metadata.title metadata
    | VisibleTitle => Metadata.visible_title metadata
    | IconTitle => Metadata.icon_title metadata
    | ClassInstance => Metadata.class metadata ≫= class_instance
    | Class_ => Metadata.class metadata ≫= class_class
    | ClientMachineField => Metadata.client_machine metadata
    end.

(** [str::starts_with], [str::ends_with], [str::contains], on the bytes. *)
Definition bytes (s : string) : list ascii := String.list_ascii_of_string s.
Definition starts_with (s value : string) : bool := bool_decide (bytes value `prefix_of` bytes s).
Definition ends_with (s value : string) : bool := bool_decide (bytes value `suffix_of` bytes s).
Fixpoint contains_bytes (s value : list ascii) : bool :=
  bool_decide (value `prefix_of` s) ||
  match s with [] => false | _ :: s => contains_bytes s value end.
Definition contains (s value : string) : bool := contains_bytes (bytes s) (bytes value).

(** ** Waits and pages *)

(** [WindowWaitEvaluation]. *)
Module WaitEvaluation.
Record t := mk {
  predicate_satisfied : bool;
  selected_count : N;
  satisfying_count : N;
  satisfying_windows : list Snapshot.t;
}.
End WaitEvaluation.

(** [WindowResolveProjection]. *)
Record WindowResolveProjection := mkResolveProjection {
  projection_desktop_id : DesktopId;
  projection_desktop_generation : DesktopGeneration;
  projection_revision : WindowModelRevision;
  projection_window : Snapshot.t;
}.

(** ** The view *)
Module WindowQueryView.
Record t := mk {
  desktop_id : DesktopId;
  desktop_generation : DesktopGeneration;
  snapshot_revision : WindowModelRevision;
  records : list WindowQueryRecord;
}.

(** The loop of [WindowQueryView::new], over the references and XIDs already inserted. *)
Fixpoint admit_records (desktop : DesktopId) (generation : DesktopGeneration)
    (revision : WindowModelRevision) (exact_references : list WindowRef.t) (xids : list N)
    (records : list WindowQueryRecord) : result unit WindowQueryError :=
  match records with
  | [] => Ok tt
  | record :: records =>
      let window := record_ref record in
      try! map_err QueryInvalidSnapshot (Snapshot.validate (record_snapshot record)) in
      try! ensure (WindowRef.desktop_id window <> desktop \/
                   WindowRef.desktop_generation window <> generation) MixedScope in
      try! ensure (Snapshot.model_revision (record_snapshot record) <> revision) MixedRevision in
      try! ensure (revision_get revision < revision_get (record_created_revision record))
             CreationRevisionAfterSnapshot in
      try! ensure (window ∈ exact_references \/ WindowRef.xid window ∈ xids) DuplicateSnapshot in
      admit_records desktop generation revision (window :: exact_references)
        (WindowRef.xid window :: xids) records
  end.

(** [WindowQueryView::new]. *)
Definition new (desktop : DesktopId) (generation : DesktopGeneration)
    (revision : WindowModelRevision) (records : list WindowQueryRecord) :
    result t WindowQueryError :=
  try! ensure (nil_scope desktop generation = true) ViewNilIdentifier in
  try! ensure (MAX_WINDOW_WAIT_COUNT < len records) TooManySnapshots in
  try! admit_records desktop generation revision [] [] records in
  Ok (mk desktop generation revision records).

(** [WindowQueryView::evaluate_reference_wait]. *)
Definition evaluate_reference_wait (self : t) (window : WindowRef.t)
    (predicate : WindowWaitPredicate) : result WaitEvaluation.t WindowQueryError :=
  try! map_err QueryInvalidReference (WindowRef.validate_shape window) in
  try! ensure (WindowRef.desktop_id window <> desktop_id self \/
               WindowRef.desktop_generation window <> desktop_generation self) MixedScope in
  try! ensure (is_count predicate = true) IncompatibleWaitTarget in
  try! match predicate with
       | WaitGeometry predicate => map_err InvalidSelector (validate_geometry_predicate predicate)
       | _ => Ok tt
       end in
  let selected := record_snapshot <$> List.find (fun record => bool_decide (record_ref record = window))
                                        (records self) in
  let selected_count := len (option_list selected) in
  let '(predicate_satisfied, satisfying_windows) :=
    match predicate with
    | WaitExists => (bool_decide (is_Some selected), option_list selected)
    | WaitClosed => (bool_decide (selected = None), [])
    | _ =>
        let satisfying := filter (fun snapshot => snapshot_satisfies snapshot predicate = true)
                            (option_list selected) in
        (bool_decide (satisfying <> []), satisfying)
    end in
  let? satisfying_count := u32_len satisfying_windows TooManySnapshots in
  Ok (WaitEvaluation.mk predicate_satisfied selected_count satisfying_count satisfying_windows).
End WindowQueryView.

(** ** Compiled selectors, queries, resolution and waits *)
Module QueryEngine.
Section Engine.
(** The Unicode lower-casing of a text; the bounded NFA compiler and the PikeVM built on it;
    the fingerprint of a selector, [None] when it cannot be serialized. *)
Context (to_lowercase : string -> string).
Context {nfa pikevm : Type} (nfa_build : string -> bool -> option nfa).
Context (pikevm_new : nfa -> option pikevm) (is_match : pikevm -> string -> bool).
Context {fingerprint : Type} `{EqDecision fingerprint}.
Context (fingerprint_of : WindowSelector -> option fingerprint).

(** [fold_if_needed]. *)
Definition fold_if_needed (value : string) (case_sensitive : bool) : string :=
  if case_sensitive then value else to_lowercase value.

(** [CompiledStringMatch]; the scratch cache of the PikeVM holds no state of the search. *)
Inductive CompiledStringMatch :=
  | CompiledExact (value : string) (case_sensitive : bool)
  | CompiledContains (value : string) (case_sensitive : bool)
  | CompiledPrefix (value : string) (case_sensitive : bool)
  | CompiledSuffix (value : string) (case_sensitive : bool)
  | CompiledRegex (regex : pikevm).

(** [CompiledStringMatch::compile]. *)
Definition compile_match (matcher : WindowStringMatch) : result CompiledStringMatch WindowQueryError :=
  match matcher with
  | Exact value sensitive => Ok (CompiledExact (fold_if_needed value sensitive) sensitive)
  | Contains value sensitive => Ok (CompiledContains (fold_if_needed value sensitive) sensitive)
  | Prefix value sensitive => Ok (CompiledPrefix (fold_if_needed value sensitive) sensitive)
  | Suffix value sensitive => Ok (CompiledSuffix (fold_if_needed value sensitive) sensitive)
  | Regex pattern sensitive =>
      let? nfa := ok_or (nfa_build pattern sensitive) RegexBuild in
      let? regex := ok_or (pikevm_new nfa) RegexBuild in
      Ok (CompiledRegex regex)
  end.

(** [CompiledStringMatch::matches]. *)
Definition match_text (self : CompiledStringMatch) (candidate : string) : bool :=
  match self with
  | CompiledExact value sensitive => bool_decide (fold_if_needed candidate sensitive = value)
  | CompiledContains value sensitive => contains (fold_if_needed candidate sensitive) value
  | CompiledPrefix value sensitive => starts_with (fold_if_needed candidate sensitive) value
  | CompiledSuffix value sensitive => ends_with (fold_if_needed candidate sensitive) value
  | CompiledRegex regex => is_match regex candidate
  end.

(** [CompiledPredicate]: every predicate but a text match is kept as it is. *)
Inductive CompiledPredicate :=
  | CompiledText (field : WindowTextField) (matcher : CompiledStringMatch)
  | CompiledOther (predicate : WindowPredicate).

(** [CompiledPredicate::compile]. *)
Definition compile_predicate (predicate : WindowPredicate) :
    result CompiledPredicate WindowQueryError :=
  match predicate with
  | Text field matcher => let? matcher := compile_match matcher in Ok (CompiledText field matcher)
  | predicate => Ok (CompiledOther predicate)
  end.

(** [CompiledPredicate::matches], on the predicates kept. *)
Definition match_other (predicate : WindowPredicate) (record : WindowQueryRecord) : bool :=
  let snapshot := record_snapshot record in
  match predicate with
  | Text _ _ => false
  | ManagedProcess process =>
      bool_decide (Correlation.managed_process (Snapshot.process snapshot) = Some process)
  | ReportedPid pid => bool_decide (Correlation.reported_pid (Snapshot.process snapshot) = Some pid)
  | WindowType value => bool_decide (value ∈ Metadata.window_types (Snapshot.metadata snapshot))
  | State value present =>
      bool_decide (bool_decide (value ∈ Metadata.states (Snapshot.metadata snapshot)) = present)
  | MapState value => bool_decide (map_state (Snapshot.state snapshot) = value)
  | Workspace workspace => bool_decide (Snapshot.workspace snapshot = Some workspace)
  | Active value => bool_decide (active (Snapshot.state snapshot) = value)
  | Focused value => bool_decide (focused (Snapshot.state snapshot) = value)
  | TransientFor window => bool_decide (Snapshot.transient_for snapshot = Some window)
  | GroupLeader window => bool_decide (Snapshot.group_leader snapshot = Some window)
  | HasAccessibilityApplication value =>
      bool_decide (Snapshot.has_accessibility_application snapshot = value)
  | CreatedAfter revision =>
      bool_decide (revision_get revision < revision_get (record_created_revision record))
  end.

Definition match_predicate (self : CompiledPredicate) (record : WindowQueryRecord) : bool :=
  match self with
  | CompiledText field matcher =>
      match snapshot_text (record_snapshot record) field with
      | Some text => match_text matcher text
      | None => false
      end
  | CompiledOther predicate => match_other predicate record
  end.

(** [CompiledSelector]. *)
Inductive CompiledSelector :=
  | CompiledLeaf (predicate : CompiledPredicate)
  | CompiledAll (selectors : list CompiledSelector)
  | CompiledAny (selectors : list CompiledSelector)
  | CompiledNot (selector : CompiledSelector).

(** [CompiledSelector::compile]. *)
Fixpoint compile (selector : WindowSelector) : result CompiledSelector WindowQueryError :=
  match selector with
  | Predicate predicate => let? predicate := compile_predicate predicate in Ok (CompiledLeaf predicate)
  | All selectors => let? selectors := collect compile selectors in Ok (CompiledAll selectors)
  | Any selectors => let? selectors := collect compile selectors in Ok (CompiledAny selectors)
  | Not selector => let? selector := compile selector in Ok (CompiledNot selector)
  end.

(** [CompiledSelector::matches]. *)
Fixpoint matches (self : CompiledSelector) (record : WindowQueryRecord) : bool :=
  match self with
  | CompiledLeaf predicate => match_predicate predicate record
  | CompiledAll selectors => forallb (fun selector => matches selector record) selectors
  | CompiledAny selectors => existsb (fun selector => matches selector record) selectors
  | CompiledNot selector => negb (matches selector record)
  end.

(** Does the validation's engine accept the pattern? *)
Definition regex_builds (pattern : string) (case_sensitive : bool) : bool :=
  bool_decide (is_Some (nfa_build pattern case_sensitive)).

(** [WindowContinuationQuery], [WindowContinuationDescriptor] and [WindowPageProjection]. *)
Inductive ContinuationQuery := ListQuery | SelectorQuery (f : fingerprint).
#[export] Instance continuation_query_eq_dec : EqDecision ContinuationQuery.
Proof. solve_decision. Defined.

Record Continuation := mkContinuation {
  next_desktop_id : DesktopId;
  next_desktop_generation : DesktopGeneration;
  next_revision : WindowModelRevision;
  next_order : WindowOrder;
  next_query : ContinuationQuery;
  next_offset : N;
}.

Record PageProjection := mkPage {
  page_desktop_id : DesktopId;
  page_desktop_generation : DesktopGeneration;
  page_revision : WindowModelRevision;
  page_windows : list Snapshot.t;
  page_continuation : option Continuation;
}.

Implicit Types (self : WindowQueryView.t) (order : WindowOrder).

(** [WindowQueryView::compile_selector]. *)
Definition compile_selector self (selector : WindowSelector) :
    result CompiledSelector WindowQueryError :=
  try! map_err InvalidSelector (SelectorValidation.validate_for_scope regex_builds
         (WindowQueryView.desktop_id self) (WindowQueryView.desktop_generation self) selector) in
  compile selector.

(** The records a compiled selector matches. *)
Definition matching (compiled : CompiledSelector) (records : list WindowQueryRecord) :
    list WindowQueryRecord :=
  filter (fun record => matches compiled record = true) records.

(** The offset a continuation resumes at. *)
Definition resume_offset self (total : N) order (query : ContinuationQuery)
    (continuation : option Continuation) : result N WindowQueryError :=
  match continuation with
  | None => Ok 0
  | Some continuation =>
      try! ensure (next_desktop_id continuation <> WindowQueryView.desktop_id self \/
                   next_desktop_generation continuation <> WindowQueryView.desktop_generation self \/
                   next_revision continuation <> WindowQueryView.snapshot_revision self \/
                   next_order continuation <> order \/ next_query continuation <> query)
             ContinuationMismatch in
      try! ensure (next_offset continuation = 0 \/ total <= next_offset continuation)
             ContinuationOutOfRange in
      Ok (next_offset continuation)
  end.

(** [WindowQueryView::project_page]. *)
Definition project_page self (records : list WindowQueryRecord) order (query : ContinuationQuery)
    (limit : N) (continuation : option Continuation) : result PageProjection WindowQueryError :=
  try! ensure (limit = 0 \/ MAX_WINDOW_PAGE_LIMIT < limit) InvalidPageLimit in
  let? offset := resume_offset self (len records) order query continuation in
  let last := N.min (N.min u64_max (offset + limit)) (len records) in
  let windows := map record_snapshot
    (take (N.to_nat (last - offset)) (drop (N.to_nat offset) records)) in
  let? continuation :=
    if decide (last < len records) then
      try! ensure (4294967295 < last) ContinuationOutOfRange in
      Ok (Some (mkContinuation (WindowQueryView.desktop_id self)
        (WindowQueryView.desktop_generation self) (WindowQueryView.snapshot_revision self)
        order query last))
    else Ok None in
  Ok (mkPage (WindowQueryView.desktop_id self) (WindowQueryView.desktop_generation self)
    (WindowQueryView.snapshot_revision self) windows continuation).

(** [WindowQueryView::list]. *)
Definition list_page self order (limit : N) (continuation : option Continuation) :
    result PageProjection WindowQueryError :=
  project_page self (sort_records order (WindowQueryView.records self)) order ListQuery limit
    continuation.

(** [WindowQueryView::query]. *)
Definition query_page self (selector : WindowSelector) order (limit : N)
    (continuation : option Continuation) : result PageProjection WindowQueryError :=
  let? fingerprint := ok_or (fingerprint_of selector) Fingerprint in
  let? compiled := compile_selector self selector in
  project_page self (sort_records order (matching compiled (WindowQueryView.records self)))
    order (SelectorQuery fingerprint) limit continuation.

(** [WindowQueryView::resolve]. *)
Definition resolve self (selector : WindowSelector) order (policy : WindowSingleMatchPolicy) :
    result WindowResolveProjection WindowQueryError :=
  let? compiled := compile_selector self selector in
  let found := matching compiled (WindowQueryView.records self) in
  try! ensure (found = []) NoMatch in
  try! match policy with
       | ExactlyOne =>
           if decide (len found <> 1) then
             let? count := u32_len found TooManySnapshots in Err (Ambiguous count)
           else Ok tt
       | First => Ok tt
       end in
  match sort_records order found with
  | selected :: _ =>
      Ok (mkResolveProjection (WindowQueryView.desktop_id self)
        (WindowQueryView.desktop_generation self) (WindowQueryView.snapshot_revision self)
        (record_snapshot selected))
  | [] => Err NoMatch
  end.

(** Does a count satisfy its predicate? *)
Definition count_satisfied (predicate : WindowCountPredicate) (n : N) : bool :=
  match count_comparison predicate with
  | Exactly => bool_decide (n = count predicate)
  | AtLeast => bool_decide (count predicate <= n)
  | AtMost => bool_decide (n <= count predicate)
  end.

(** [WindowQueryView::evaluate_selector_wait]. *)
Definition evaluate_selector_wait self (selector : WindowSelector)
    (quantifier : WindowWaitSelectorQuantifier) (predicate : WindowWaitPredicate) :
    result WaitEvaluation.t WindowQueryError :=
  try! ensure (is_closed_or_geometry predicate = true) IncompatibleWaitTarget in
  try! ensure (is_exists_or_count predicate = true /\ quantifier <> QuantAny)
         IncompatibleWaitTarget in
  let? compiled := compile_selector self selector in
  let selected := map record_snapshot
    (sort_by_reference (matching compiled (WindowQueryView.records self))) in
  let? selected_count := u32_len selected TooManySnapshots in
  match predicate with
  | WaitCountIs predicate =>
      try! map_err InvalidSelector (validate_count predicate) in
      Ok (WaitEvaluation.mk (count_satisfied predicate selected_count) selected_count
            selected_count selected)
  | _ =>
      let satisfying :=
        match predicate with
        | WaitExists => selected
        | _ => filter (fun snapshot => snapshot_satisfies snapshot predicate = true) selected
        end in
      let? satisfying_count := u32_len satisfying TooManySnapshots in
      let satisfied :=
        match predicate with
        | WaitExists => bool_decide (0 < selected_count)
        | _ =>
            match quantifier with
            | QuantAny => bool_decide (0 < satisfying_count)
            | QuantAll => bool_decide (0 < selected_count /\ satisfying_count = selected_count)
            | QuantExactlyOne => bool_decide (selected_count = 1 /\ satisfying_count = 1)
            end
        end in
      Ok (WaitEvaluation.mk satisfied selected_count satisfying_count satisfying)
  end.

(** [WindowQueryView::evaluate_wait]. *)
Definition evaluate_wait self (target : WindowWaitTarget) (predicate : WindowWaitPredicate) :
    result WaitEvaluation.t WindowQueryError :=
  match target with
  | ReferenceTarget window => WindowQueryView.evaluate_reference_wait self window predicate
  | SelectorTarget selector quantifier =>
      evaluate_selector_wait self selector quantifier predicate
  end.
End Engine.
End QueryEngine.

(** ** Orders are total, so pages are canonical *)
Module OrderFacts.

Lemma total_optional {T} (cmp : T -> T -> comparison) (reverse : bool) :
  total_cmp cmp -> total_cmp (fun a b => compare_optional_missing_last cmp a b reverse).
Proof.
  intros Hf. split.
  - intros [a |] [b |]; simpl; try done. destruct reverse; apply (total_opp _ Hf).
  - intros [a |] [b |] [c |]; simpl; try done.
    destruct reverse; [intros H1 H2; by apply (total_trans _ Hf c b a) | apply (total_trans _ Hf)].
Qed.

Lemma total_exact_ref : total_cmp compare_exact_ref.
Proof.
  apply total_then; [apply (total_key _ _ total_N) |].
  apply total_then; [apply (total_key _ _ total_N) |].
  apply (total_key (fun r => hash_str (WindowRef.identity_hash r)) _ total_string).
Qed.

Lemma total_records order : total_cmp (compare_records order).
Proof.
  apply total_then; [| apply (total_key _ _ total_exact_ref)].
  destruct order.
  - apply (total_key (fun r => revision_get (record_created_revision r)) _ total_N).
  - apply total_swap. apply (total_key (fun r => revision_get (record_created_revision r)) _ total_N).
  - apply (total_key _ _ (total_optional _ _ total_N)).
  - apply (total_key _ _ (total_optional _ _ total_N)).
  - apply (total_key _ _ (total_optional _ _ total_string)).
  - apply (total_key _ _ (total_optional _ _ total_string)).
  - apply (total_key (fun r => WindowRef.xid (record_ref r)) _ total_N).
Qed.

Lemma then_with_Eq c d : then_with c d = Eq <-> c = Eq /\ d = Eq.
Proof. destruct c; simpl; naive_solver. Qed.

Lemma exact_ref_xid a b : compare_exact_ref a b = Eq -> WindowRef.xid a = WindowRef.xid b.
Proof. intros [H _]%then_with_Eq. by apply N.compare_eq. Qed.

Lemma records_xid order a b :
  compare_records order a b = Eq -> WindowRef.xid (record_ref a) = WindowRef.xid (record_ref b).
Proof. intros [_ H]%then_with_Eq. by apply exact_ref_xid. Qed.

(** Distinct XIDs. *)
Definition distinct (l : list WindowQueryRecord) : Prop :=
  NoDup (map (fun r => WindowRef.xid (record_ref r)) l).

Lemma distinct_inj l a b :
  distinct l -> a ∈ l -> b ∈ l -> WindowRef.xid (record_ref a) = WindowRef.xid (record_ref b) -> a = b.
Proof.
  unfold distinct. intros Hd [i Hi]%list_elem_of_lookup [j Hj]%list_elem_of_lookup Hx.
  assert (i = j) as ->; [| congruence].
  eapply (NoDup_lookup _ _ _ (WindowRef.xid (record_ref a)) Hd); rewrite list_lookup_fmap.
  - by rewrite Hi.
  - rewrite Hj. simpl. by rewrite Hx.
Qed.

Lemma distinct_filter (P : WindowQueryRecord -> Prop) `{!forall x, Decision (P x)} l :
  distinct l -> distinct (filter P l).
Proof.
  unfold distinct. induction l as [| r l IH]; [done |]. simpl. intros [Hn Hd]%NoDup_cons.
  rewrite filter_cons. case_decide; [| by apply IH]. simpl. apply NoDup_cons. split; [| by apply IH].
  rewrite list_elem_of_fmap. intros (x & Hx & [_ Hin]%list_elem_of_filter). apply Hn.
  rewrite Hx. apply list_elem_of_fmap. eauto.
Qed.

Lemma sort_records_canonical order l k :
  distinct l -> l ≡ₚ k -> sort_records order l = sort_records order k.
Proof.
  intros Hd Hlk. unfold sort_records.
  apply (sort_canonical _ (total_records order)); [done | | done].
  intros a b Ha Hb He%records_xid. by eapply distinct_inj.
Qed.

Lemma sort_records_sorted order l :
  Sorted.StronglySorted (fun a b => ordering_le (compare_records order a b)) (sort_records order l).
Proof. by apply (sort_sorted _ (total_records order)). Qed.

Lemma sort_records_Permutation order l : sort_records order l ≡ₚ l.
Proof. apply merge_sort_Permutation. Qed.

Lemma sort_by_reference_Permutation l : sort_by_reference l ≡ₚ l.
Proof. apply merge_sort_Permutation. Qed.
End OrderFacts.

(** ** What an admitted view holds *)
Module ViewFacts.
Import WindowQueryView.

Record view_ok (v : t) : Prop := {
  view_scope : nil_scope (desktop_id v) (desktop_generation v) = false;
  view_len : len (records v) <= MAX_WINDOW_WAIT_COUNT;
  view_distinct : OrderFacts.distinct (records v);
  view_records : Forall (fun r =>
    Snapshot.validate (record_snapshot r) = Ok tt /\
    WindowRef.desktop_id (record_ref r) = desktop_id v /\
    WindowRef.desktop_generation (record_ref r) = desktop_generation v /\
    Snapshot.model_revision (record_snapshot r) = snapshot_revision v /\
    revision_get (record_created_revision r) <= revision_get (snapshot_revision v)) (records v);
}.

Lemma admit_records_Ok desktop generation revision refs xids l :
  admit_records desktop generation revision refs xids l = Ok tt ->
  NoDup (map (fun r => WindowRef.xid (record_ref r)) l) /\
  (forall r, r ∈ l -> WindowRef.xid (record_ref r) ∉ xids) /\
  Forall (fun r =>
    Snapshot.validate (record_snapshot r) = Ok tt /\
    WindowRef.desktop_id (record_ref r) = desktop /\
    WindowRef.desktop_generation (record_ref r) = generation /\
    Snapshot.model_revision (record_snapshot r) = revision /\
    revision_get (record_created_revision r) <= revision_get revision) l.
Proof.
  revert refs xids. induction l as [| r l IH]; intros refs xids H; simpl in H.
  { split_and!; [constructor | by intros ? ?%not_elem_of_nil | constructor]. }
  apply and_then_Ok in H as ([] & Hv & H). apply and_then_Ok in H as ([] & Hs%ensure_Ok & H).
  apply and_then_Ok in H as ([] & Hm%ensure_Ok & H). apply and_then_Ok in H as ([] & Hc%ensure_Ok & H).
  apply and_then_Ok in H as ([] & Hd%ensure_Ok & H). apply IH in H as (Hn & Hx & Hf).
  split_and!.
  - simpl. apply NoDup_cons. split; [| done]. intros (r' & Hr & Hin)%list_elem_of_fmap.
    apply (Hx r' Hin). rewrite <- Hr. by left.
  - intros r' [-> | Hin]%elem_of_cons; [tauto |]. intros Hin'. apply (Hx r' Hin). by right.
  - constructor; [| done].
    destruct (Snapshot.validate (record_snapshot r)) as [[] |]; [| done].
    split_and!; [done | | | | lia].
    + destruct (decide (WindowRef.desktop_id (record_ref r) = desktop)); tauto.
    + destruct (decide (WindowRef.desktop_generation (record_ref r) = generation)); tauto.
    + destruct (decide (Snapshot.model_revision (record_snapshot r) = revision)); tauto.
Qed.

Lemma new_view_ok desktop generation revision l v :
  new desktop generation revision l = Ok v ->
  v = mk desktop generation revision l /\ view_ok v.
Proof.
  intros H. apply and_then_Ok in H as ([] & Hn%ensure_Ok & H).
  apply and_then_Ok in H as ([] & Hl%ensure_Ok & H). apply and_then_Ok in H as ([] & Ha & [= <-]).
  apply admit_records_Ok in Ha as (Hd & _ & Hf). split; [done |].
  constructor; simpl; [by destruct (nil_scope desktop generation) | lia | done | done].
Qed.
End ViewFacts.

(** ** The meaning of a selector, and of the pages and waits built on it *)
Module QueryFacts.
Import QueryEngine.
Section Facts.
Context (to_lowercase : string -> string).
Context {nfa pikevm : Type} (nfa_build : string -> bool -> option nfa).
Context (pikevm_new : nfa -> option pikevm) (is_match : pikevm -> string -> bool).

#[local] Abbreviation fold := (fold_if_needed to_lowercase).

(** What a string match asks of a text. *)
Definition text_satisfies (matcher : WindowStringMatch) (text : string) : Prop :=
  match matcher with
  | Exact value c => fold text c = fold value c
  | Contains value c =>
      exists before after, bytes (fold text c) = before ++ bytes (fold value c) ++ after
  | Prefix value c => exists after, bytes (fold text c) = bytes (fold value c) ++ after
  | Suffix value c => exists before, bytes (fold text c) = before ++ bytes (fold value c)
  | Regex pattern c => exists n p, nfa_build pattern c = Some n /\ pikevm_new n = Some p /\
      is_match p text = true
  end.

Definition predicate_satisfied (p : WindowPredicate) (r : WindowQueryRecord) : Prop :=
  match p with
  | Text field matcher =>
      exists text, snapshot_text (record_snapshot r) field = Some text /\ text_satisfies matcher text
  | p => match_other p r = true
  end.

(** What a selector asks of a window. *)
Fixpoint satisfies (s : WindowSelector) (r : WindowQueryRecord) : Prop :=
  match s with
  | Predicate p => predicate_satisfied p r
  | All l => fold_right (fun s rest => satisfies s r /\ rest) True l
  | Any l => fold_right (fun s rest => satisfies s r \/ rest) False l
  | Not s => ~ satisfies s r
  end.

Lemma contains_bytes_spec s value :
  contains_bytes s value = true <-> exists before after, s = before ++ value ++ after.
Proof.
  induction s as [| x s IH]; simpl; rewrite orb_true_iff, bool_decide_eq_true.
  - split.
    + intros [[after H] | [=]]. by exists [], after.
    + intros ([| ? ?] & after & H); [| done]. left. by exists after.
  - rewrite IH. split.
    + intros [[after H] | (before & after & ->)]; [by exists [], after | by exists (x :: before), after].
    + intros ([| y before] & after & H); [left; by exists after |]. injection H as <- ->. right.
      by exists before, after.
Qed.

Lemma match_text_spec matcher compiled text :
  compile_match to_lowercase nfa_build pikevm_new matcher = Ok compiled ->
  match_text to_lowercase is_match compiled text = true <-> text_satisfies matcher text.
Proof.
  destruct matcher as [v c | v c | v c | v c | pattern c]; simpl.
  - intros [= <-]. apply bool_decide_eq_true.
  - intros [= <-]. apply contains_bytes_spec.
  - intros [= <-]. apply bool_decide_eq_true.
  - intros [= <-]. apply bool_decide_eq_true.
  - destruct (nfa_build pattern c) as [n |] eqn:Hn; simpl; [| done].
    destruct (pikevm_new n) as [p |] eqn:Hp; simpl; [| done]. intros [= <-]. simpl.
    naive_solver.
Qed.

Lemma match_predicate_spec p compiled r :
  compile_predicate to_lowercase nfa_build pikevm_new p = Ok compiled ->
  match_predicate to_lowercase is_match compiled r = true <-> predicate_satisfied p r.
Proof.
  destruct p; simpl; try (intros [= <-]; done).
  intros (m & Hm & [= <-])%and_then_Ok. simpl.
  destruct (snapshot_text (record_snapshot r) field) as [text |].
  - rewrite (match_text_spec _ _ text Hm). naive_solver.
  - naive_solver.
Qed.

Lemma matches_spec s : forall compiled r,
  compile to_lowercase nfa_build pikevm_new s = Ok compiled ->
  matches to_lowercase is_match compiled r = true <-> satisfies s r.
Proof.
  induction s as [p | l IH | l IH | s IH] using SelectorFacts.selector_nested_ind;
    intros compiled r H; simpl in H; apply and_then_Ok in H as (c & Hc & [= <-]); simpl.
  - by apply match_predicate_spec.
  - apply collect_Ok in Hc. induction Hc as [| s c l cs Hs _ IHl]; simpl; [done |].
    apply list.Forall_cons in IH as [Hh Ht]. rewrite andb_true_iff, IHl by done. by rewrite (Hh _ _ Hs).
  - apply collect_Ok in Hc. induction Hc as [| s c l cs Hs _ IHl]; simpl; [done |].
    apply list.Forall_cons in IH as [Hh Ht]. rewrite orb_true_iff, IHl by done. by rewrite (Hh _ _ Hs).
  - rewrite negb_true_iff. rewrite <- (IH _ _ Hc). destruct (matches _ _ c r); naive_solver.
Qed.

(** A selector whose patterns build compiles, if the PikeVM accepts the automata built. *)
Lemma sound_compiles desktop generation s :
  (forall pattern c n, nfa_build pattern c = Some n -> is_Some (pikevm_new n)) ->
  SelectorFacts.sound (regex_builds nfa_build) desktop generation s ->
  exists compiled, compile to_lowercase nfa_build pikevm_new s = Ok compiled.
Proof.
  intros Hp. induction s as [p | l IH | l IH | s IH] using SelectorFacts.selector_nested_ind;
    inversion 1 as [? Hv | ? _ Hl | ? _ Hl | ? Hs]; subst; simpl.
  - assert (exists c, compile_predicate to_lowercase nfa_build pikevm_new p = Ok c) as [c ->]; [| by eexists].
    destruct p as [field m | | | | | | | | | | | |]; simpl; try by eexists.
    destruct m as [v c | v c | v c | v c | pattern c]; simpl; try by eexists. simpl in Hv.
    apply and_then_Ok in Hv as ([] & _ & Hb%ensure_Ok). unfold regex_builds in Hb.
    rewrite bool_decide_eq_false in Hb. destruct (nfa_build pattern c) as [n |] eqn:Hn; simpl.
    + destruct (Hp _ _ _ Hn) as [m ->]. by eexists.
    + destruct Hb. by intros [? [=]].
  - assert (exists cs, collect (compile to_lowercase nfa_build pikevm_new) l = Ok cs) as [cs ->]; [| by eexists].
    setoid_rewrite collect_Ok. clear H. induction IH as [| s l Hs _ IHl]; [by exists []; constructor |].
    apply list.Forall_cons in Hl as [Hsd Hl]. destruct (Hs Hsd) as [c Hc]. destruct (IHl Hl) as [cs Hcs].
    exists (c :: cs). by constructor.
  - assert (exists cs, collect (compile to_lowercase nfa_build pikevm_new) l = Ok cs) as [cs ->]; [| by eexists].
    setoid_rewrite collect_Ok. clear H. induction IH as [| s l Hs _ IHl]; [by exists []; constructor |].
    apply list.Forall_cons in Hl as [Hsd Hl]. destruct (Hs Hsd) as [c Hc]. destruct (IHl Hl) as [cs Hcs].
    exists (c :: cs). by constructor.
  - destruct (IH Hs) as [c ->]. by eexists.
Qed.

Lemma matching_spec s compiled l r :
  compile to_lowercase nfa_build pikevm_new s = Ok compiled ->
  r ∈ matching to_lowercase is_match compiled l <-> r ∈ l /\ satisfies s r.
Proof.
  intros Hc. unfold matching. rewrite list_elem_of_filter, (matches_spec s compiled r Hc). tauto.
Qed.

Lemma compile_selector_Ok v s compiled :
  compile_selector to_lowercase nfa_build pikevm_new v s = Ok compiled <->
  SelectorValidation.validate_for_scope (regex_builds nfa_build) (WindowQueryView.desktop_id v)
    (WindowQueryView.desktop_generation v) s = Ok tt /\
  compile to_lowercase nfa_build pikevm_new s = Ok compiled.
Proof.
  unfold compile_selector. destruct (SelectorValidation.validate_for_scope _ _ _ _) as [[] |]; simpl; naive_solver.
Qed.

Lemma u32_len_Ok {A} (l : list A) e n : u32_len l e = Ok n <-> len l <= 4294967295 /\ n = len l.
Proof. unfold u32_len, ensure. case_decide; simpl; split; [done | lia | | naive_solver]. intros [= <-]. lia. Qed.

Lemma u32_len_pass {A} (l : list A) e : len l <= 4294967295 -> u32_len l e = Ok (len l).
Proof. intros Hl. by apply u32_len_Ok. Qed.

(** The predicates that are counted window by window. *)
Lemma quantified_exact (found : list WindowQueryRecord) (p : WindowWaitPredicate)
    (q : WindowWaitSelectorQuantifier) (e : WaitEvaluation.t) :
  let holds r := snapshot_satisfies (record_snapshot r) p = true in
  let satisfying := filter (fun snapshot => snapshot_satisfies snapshot p = true)
                      (map record_snapshot found) in
  (let? satisfying_count := u32_len satisfying TooManySnapshots in
   let satisfied :=
     match q with
     | QuantAny => bool_decide (0 < satisfying_count)
     | QuantAll => bool_decide (0 < len found /\ satisfying_count = len found)
     | QuantExactlyOne => bool_decide (len found = 1 /\ satisfying_count = 1)
     end in
   Ok (WaitEvaluation.mk satisfied (len found) satisfying_count satisfying)) = Ok e ->
  WaitEvaluation.selected_count e = len found /\
  (WaitEvaluation.predicate_satisfied e = true <->
   match q with
   | QuantAny => exists r, r ∈ found /\ holds r
   | QuantAll => found <> [] /\ Forall holds found
   | QuantExactlyOne => exists r, found = [r] /\ holds r
   end).
Proof.
  intros holds satisfying (n & [_ ->]%u32_len_Ok & [= <-])%and_then_Ok. simpl. split; [done |].
  assert (0 < len satisfying <-> exists r, r ∈ found /\ holds r) as Hex.
  { unfold satisfying. induction found as [| r l IH]; simpl.
    - split; [unfold len; simpl; lia | by intros (r & ?%not_elem_of_nil & _)].
    - rewrite filter_cons. case_decide as Hr.
      + rewrite len_cons. split; [intros _; exists r; split; [by left | done] | lia].
      + rewrite IH. split; intros (x & Hx & Hh); exists x.
        * split; [by right | done].
        * apply elem_of_cons in Hx as [-> | Hx]; [done | done]. }
  assert (len satisfying <= len found /\ (len satisfying = len found <-> Forall holds found)) as [Hle Hall].
  { unfold satisfying. clear. induction found as [| r l IH]; [split; [done | by split; constructor] |]. cbn [map].
    destruct IH as [IHl IH]. rewrite filter_cons, list.Forall_cons. unfold holds at 1.
    case_decide as Hr; rewrite ?len_cons; (split; [lia |]).
    - rewrite <- IH. split; [intros ?; split; [done | lia] | lia].
    - split; [lia | tauto]. }
  destruct q; rewrite bool_decide_eq_true.
  - done.
  - rewrite Hall, <- (len_zero_iff found). split; intros [H1 H2]; (split; [lia | done]).
  - split.
    + intros [H1 H2]. destruct (proj1 Hex) as (x & Hx & Hh); [lia |]. clearbody satisfying.
      unfold len in H1. destruct found as [| r [| ? ?]]; simpl in H1; [lia | | lia].
      apply list_elem_of_singleton in Hx as ->. by exists r.
    + intros (r & -> & Hr). split; [done |]. apply Hall. by repeat constructor.
Qed.

(** *** Following the continuations *)
Context {fingerprint : Type} `{EqDecision fingerprint}.

(** [paged page c windows]: from the continuation [c] on, the pages end, and show [windows]. *)
Inductive paged {E} (page : option (Continuation (fingerprint := fingerprint)) ->
    result (PageProjection (fingerprint := fingerprint)) E) (limit : N) :
    option Continuation -> list Snapshot.t -> Prop :=
  | paged_last c p :
      page c = Ok p -> page_continuation p = None -> len (page_windows p) <= limit ->
      paged page limit c (page_windows p)
  | paged_next c p c' rest :
      page c = Ok p -> page_continuation p = Some c' -> len (page_windows p) = limit ->
      paged page limit (Some c') rest -> paged page limit c (page_windows p ++ rest).

Lemma paged_ext {E} (page page' : option (Continuation (fingerprint := fingerprint)) ->
    result (PageProjection (fingerprint := fingerprint)) E) limit c windows :
  (forall c, page' c = page c) -> paged page limit c windows -> paged page' limit c windows.
Proof.
  intros He. induction 1 as [c p Hp Hn Hl | c p c' rest Hp Hn Hl _ IH].
  - by apply paged_last; [rewrite He | |].
  - by eapply paged_next; [rewrite He | | |].
Qed.

Section Pages.
Context (v : WindowQueryView.t) (l : list WindowQueryRecord) (order : WindowOrder).
Context (query : ContinuationQuery (fingerprint := fingerprint)) (limit : N).
Context (Hlen : len l <= MAX_WINDOW_WAIT_COUNT) (Hlimit : 1 <= limit <= MAX_WINDOW_PAGE_LIMIT).

Definition resume (offset : N) : Continuation :=
  mkContinuation (WindowQueryView.desktop_id v) (WindowQueryView.desktop_generation v)
    (WindowQueryView.snapshot_revision v) order query offset.

(** The continuation of an offset: none for the first page. *)
Definition from (offset : N) : option Continuation :=
  if decide (offset = 0) then None else Some (resume offset).

Lemma project_page_spec offset :
  offset = 0 \/ offset < len l ->
  project_page v l order query limit (from offset) =
  Ok (mkPage (WindowQueryView.desktop_id v) (WindowQueryView.desktop_generation v)
    (WindowQueryView.snapshot_revision v)
    (map record_snapshot (take (N.to_nat limit) (drop (N.to_nat offset) l)))
    (if decide (offset + limit < len l) then Some (resume (offset + limit)) else None)).
Proof.
  unfold MAX_WINDOW_WAIT_COUNT, MAX_WINDOW_PAGE_LIMIT in *. intros Ho. unfold project_page.
  rewrite ensure_pass by (unfold MAX_WINDOW_PAGE_LIMIT; lia). simpl.
  assert (resume_offset v (len l) order query (from offset) = Ok offset) as ->.
  { unfold from. case_decide as Hz; simpl; [by rewrite Hz |].
    rewrite ensure_pass by tauto. simpl. rewrite ensure_pass by lia. done. }
  cbn [and_then]. unfold u64_max.
  destruct (decide (offset + limit < len l)) as [Hlt | Hge].
  - rewrite (N.min_r _ (offset + limit)) by lia. rewrite (N.min_l (offset + limit)) by lia.
    replace (offset + limit - offset) with limit by lia.
    rewrite decide_True by done. by rewrite ensure_pass by lia.
  - rewrite (N.min_r _ (offset + limit)) by lia. rewrite (N.min_r (offset + limit)) by lia.
    rewrite decide_False by lia. cbn [and_then].
    by rewrite !take_ge by (rewrite length_drop; unfold len in *; lia).
Qed.

Lemma pages_from offset :
  offset = 0 \/ offset < len l ->
  paged (project_page v l order query limit) limit (from offset)
    (map record_snapshot (drop (N.to_nat offset) l)).
Proof.
  remember (N.to_nat (len l - offset)) as k eqn:Hk. revert offset Hk.
  induction (lt_wf k) as [k _ IH]. intros offset -> Ho.
  pose proof (project_page_spec offset Ho) as Hp.
  destruct (decide (offset + limit < len l)) as [Hlt | Hge].
  - rewrite <- (take_drop (N.to_nat limit) (drop (N.to_nat offset) l)), map_app, drop_drop.
    refine (paged_next _ _ _ _ (resume (offset + limit)) _ Hp _ _ _).
    + done.
    + simpl. unfold len in *. rewrite length_map, length_take, length_drop. lia.
    + replace (N.to_nat offset + N.to_nat limit)%nat with (N.to_nat (offset + limit)) by lia.
      assert (from (offset + limit) = Some (resume (offset + limit))) as <-
        by (unfold from; by rewrite decide_False by lia).
      eapply IH; [| done | by right]. lia.
  - assert (take (N.to_nat limit) (drop (N.to_nat offset) l) = drop (N.to_nat offset) l) as Ht
      by (apply take_ge; rewrite length_drop; unfold len in *; lia).
    rewrite <- Ht. refine (paged_last _ _ _ _ Hp _ _); simpl; [done |].
    unfold len in *. rewrite length_map, length_take. lia.
Qed.
End Pages.
End Facts.
End QueryFacts.

(** ** Properties *)
Section QueryProperties.
Import SelectorValidation QueryEngine QueryFacts.
Context (to_lowercase : string -> string).
Context {nfa pikevm : Type} (nfa_build : string -> bool -> option nfa).
Context (pikevm_new : nfa -> option pikevm) (is_match : pikevm -> string -> bool).
Context (desktop : DesktopId) (generation : DesktopGeneration) (revision : WindowModelRevision).
Context (records : list WindowQueryRecord) (v : WindowQueryView.t).
Context (Hv : WindowQueryView.new desktop generation revision records = Ok v).

#[local] Abbreviation meets := (satisfies to_lowercase nfa_build pikevm_new is_match).

(** Resolving a selector names a window only when that is unambiguous: with
    [ExactlyOne], the only window the selector asks for; with [First], the least one in the
    requested order.  Otherwise the error says whether there was none or how many. *)
Theorem resolve_exact_match (s : WindowSelector) (order : WindowOrder)
    (policy : WindowSingleMatchPolicy) (compiled : CompiledSelector (pikevm := pikevm)) :
  compile_selector to_lowercase nfa_build pikevm_new v s = Ok compiled ->
  match resolve to_lowercase nfa_build pikevm_new is_match v s order policy with
  | Ok p => exists r, r ∈ records /\ meets s r /\ projection_window p = record_snapshot r /\
      projection_revision p = revision /\
      match policy with
      | ExactlyOne => forall r', r' ∈ records -> meets s r' -> r' = r
      | First => forall r', r' ∈ records -> meets s r' -> ordering_le (compare_records order r r')
      end
  | Err NoMatch => forall r, r ∈ records -> ~ meets s r
  | Err (Ambiguous n) => policy = ExactlyOne /\ 2 <= n /\
      exists found, NoDup found /\ len found = n /\ forall r, r ∈ found <-> r ∈ records /\ meets s r
  | Err _ => False
  end.
Proof.
  intros Hc. apply ViewFacts.new_view_ok in Hv as [-> Hok].
  pose proof Hc as [_ Hcomp]%compile_selector_Ok. unfold resolve. rewrite Hc. simpl.
  set (found := matching to_lowercase is_match compiled records).
  assert (forall r, r ∈ found <-> r ∈ records /\ meets s r) as Hfound by (intros r; by apply matching_spec).
  assert (NoDup found) as Hnd by (eapply NoDup_filter, NoDup_fmap_1, (ViewFacts.view_distinct _ Hok)).
  destruct (decide (found = [])) as [He | He].
  { rewrite ensure_reject by done. simpl. intros r Hr Hs. assert (r ∈ found) as Hin by (by apply Hfound).
    rewrite He in Hin. by apply not_elem_of_nil in Hin. }
  rewrite ensure_pass by done. simpl.
  pose proof (OrderFacts.sort_records_Permutation order found) as Hperm.
  pose proof (OrderFacts.sort_records_sorted order found) as Hsort.
  destruct (sort_records order found) as [| r rest] eqn:Hs.
  { symmetry in Hperm. apply Permutation_nil_r in Hperm. done. }
  assert (r ∈ found) as Hr by (rewrite <- Hperm; by left).
  destruct policy; simpl.
  - case_decide as Hl; simpl.
    + assert (len found <= MAX_WINDOW_WAIT_COUNT) as Hle.
      { etrans; [| apply (ViewFacts.view_len _ Hok)]. unfold len, found, matching. simpl.
        pose proof (length_filter (fun r => matches to_lowercase is_match compiled r = true) records). lia. }
      unfold u32_len. unfold MAX_WINDOW_WAIT_COUNT in Hle. rewrite ensure_pass by lia. simpl.
      split_and!; [done | | by exists found]. rewrite <- len_zero_iff in He. lia.
    + exists r. apply Hfound in Hr as Hr'. split_and!; try tauto. intros r' Hin Hm.
      assert (r' ∈ found) as Hr'' by (apply Hfound; tauto). unfold len in Hl.
      destruct found as [| a [| b found']]; simpl in Hl; [done | | lia].
      apply list_elem_of_singleton in Hr'' as ->. by apply list_elem_of_singleton in Hr as ->.
  - exists r. apply Hfound in Hr as Hr'. split_and!; try tauto. intros r' Hin Hm.
    assert (r' ∈ r :: rest) as Hr'' by (rewrite Hperm; apply Hfound; tauto).
    apply elem_of_cons in Hr'' as [-> | Hr''].
    + unfold ordering_le. by rewrite (total_refl _ (OrderFacts.total_records order)).
    + apply Sorted.StronglySorted_inv in Hsort as [_ Hall].
      by apply (proj1 (Forall_forall _ _) Hall).
Qed.

(** The evaluation of a wait on a selector: the windows selected are exactly those the
    selector asks for, and the predicate is satisfied as its quantifier reads, [QuantAll]
    being false of an empty selection. *)
Theorem selector_wait_exact (s : WindowSelector) (q : WindowWaitSelectorQuantifier)
    (p : WindowWaitPredicate) (e : WaitEvaluation.t) :
  evaluate_selector_wait to_lowercase nfa_build pikevm_new is_match v s q p = Ok e ->
  exists selected, NoDup selected /\ (forall r, r ∈ selected <-> r ∈ records /\ meets s r) /\
    WaitEvaluation.selected_count e = len selected /\
    let holds r := snapshot_satisfies (record_snapshot r) p = true in
    (WaitEvaluation.predicate_satisfied e = true <->
     match p with
     | WaitExists => exists r, r ∈ selected
     | WaitCountIs c => count_satisfied c (len selected) = true
     | _ =>
         match q with
         | QuantAny => exists r, r ∈ selected /\ holds r
         | QuantAll => selected <> [] /\ Forall holds selected
         | QuantExactlyOne => exists r, selected = [r] /\ holds r
         end
     end).
Proof.
  intros He. apply ViewFacts.new_view_ok in Hv as [-> Hok].
  unfold evaluate_selector_wait in He. apply and_then_Ok in He as ([] & Hcg%ensure_Ok & He).
  apply and_then_Ok in He as ([] & _ & He). apply and_then_Ok in He as (compiled & Hc & He).
  apply compile_selector_Ok in Hc as [_ Hc]. simpl in He.
  set (found := sort_by_reference (matching to_lowercase is_match compiled records)) in He.
  assert (forall r, r ∈ found <-> r ∈ records /\ meets s r) as Hfound.
  { intros r. unfold found. rewrite OrderFacts.sort_by_reference_Permutation. by apply matching_spec. }
  assert (NoDup found) as Hnd.
  { unfold found. rewrite OrderFacts.sort_by_reference_Permutation.
    eapply NoDup_filter, NoDup_fmap_1, (ViewFacts.view_distinct _ Hok). }
  apply and_then_Ok in He as (n & [_ Hn]%u32_len_Ok & He). subst n.
  assert (len (map record_snapshot found) = len found) as Hlen by (unfold len; by rewrite length_map).
  rewrite Hlen in He. exists found.
  destruct p as [| | state | desired | desired | g | c]; try (by destruct Hcg).
  - simpl in He. apply and_then_Ok in He as (k & _ & [= <-]). simpl. split_and!; [done.. |].
    rewrite bool_decide_eq_true. destruct found as [| r found']; [split |].
    + unfold len. simpl. lia.
    + by intros [r ?%not_elem_of_nil].
    + rewrite len_cons. split; [intros _; exists r; by left | lia].
  - apply quantified_exact in He as [He1 He2]. by split_and!.
  - apply quantified_exact in He as [He1 He2]. by split_and!.
  - apply quantified_exact in He as [He1 He2]. by split_and!.
  - apply and_then_Ok in He as ([] & _ & [= <-]). simpl. by split_and!.
Qed.

(** A wait request that was admitted is never refused by the evaluation: on a view of the
    desktop it names, with an engine that runs the automata it builds, the evaluation returns
    a result. *)
Theorem admitted_wait_evaluates (request : WindowWaitRequest) :
  (forall pattern c n, nfa_build pattern c = Some n -> is_Some (pikevm_new n)) ->
  SelectorValidation.validate_wait_request (regex_builds nfa_build) request = Ok tt ->
  wait_desktop_id request = desktop -> wait_desktop_generation request = generation ->
  exists e, evaluate_wait to_lowercase nfa_build pikevm_new is_match v
    (wait_target request) (wait_predicate request) = Ok e.
Proof.
  intros Hpike Hreq Hd Hg. apply ViewFacts.new_view_ok in Hv as [-> Hok].
  unfold SelectorValidation.validate_wait_request in Hreq. rewrite Hd, Hg in Hreq.
  apply and_then_Ok in Hreq as ([] & _ & Hreq). apply and_then_Ok in Hreq as ([] & _ & Hreq).
  apply and_then_Ok in Hreq as ([] & Ht & Hp). destruct (wait_target request) as [window | s q]; simpl.
  - apply and_then_Ok in Ht as ([] & Hs & Ht). apply and_then_Ok in Ht as ([] & Hsc%ensure_Ok & Hc%ensure_Ok).
    unfold WindowQueryView.evaluate_reference_wait. simpl.
    destruct (WindowRef.validate_shape window) as [[] |]; [| done]. simpl.
    rewrite (ensure_pass _ MixedScope) by done. simpl. rewrite ensure_pass by done. simpl.
    assert (forall o : option Snapshot.t, len (option_list o) <= 1) as Hone
      by (intros []; unfold len; simpl; lia).
    assert (forall o (P : Snapshot.t -> Prop) `{!forall x, Decision (P x)},
      len (filter P (option_list o)) <= 1) as Hone'.
    { intros o P ?. pose proof (length_filter P (option_list o)). specialize (Hone o). unfold len in *. lia. }
    set (sel := record_snapshot <$> _).
    destruct (wait_predicate request) as [| | state | desired | desired | g | c]; simpl in *; try done;
      rewrite ?u32_len_pass by (etrans; [apply Hone || apply Hone' | lia]); simpl; try by eexists.
    destruct (validate_geometry_predicate g) as [[] |]; [| done]. by eexists.
  - apply and_then_Ok in Ht as ([] & Hs & Ht). apply and_then_Ok in Ht as ([] & Hg1%ensure_Ok & Hg2%ensure_Ok).
    unfold evaluate_selector_wait. rewrite ensure_pass by done. cbn [and_then].
    rewrite ensure_pass by done. cbn [and_then].
    pose proof (proj1 (selector_validation_exact _ _ _ _) Hs) as (_ & _ & _ & Hsound).
    destruct (sound_compiles to_lowercase nfa_build pikevm_new _ _ _ Hpike Hsound) as [compiled Hcomp].
    assert (compile_selector to_lowercase nfa_build pikevm_new
      (WindowQueryView.mk desktop generation revision records) s = Ok compiled) as ->
      by (by apply compile_selector_Ok).
    cbn [and_then]. simpl.
    set (selected := map record_snapshot _).
    assert (len selected <= MAX_WINDOW_WAIT_COUNT) as Hle.
    { unfold selected, len. rewrite length_map, OrderFacts.sort_by_reference_Permutation.
      pose proof (ViewFacts.view_len _ Hok) as Hl. simpl in Hl. unfold len in Hl.
      pose proof (length_filter (fun r => matches to_lowercase is_match compiled r = true) records).
      unfold matching. lia. }
    assert (forall (P : Snapshot.t -> Prop) `{!forall x, Decision (P x)},
      len (filter P selected) <= MAX_WINDOW_WAIT_COUNT) as Hle'.
    { intros P ?. pose proof (length_filter P selected). unfold len in *. lia. }
    unfold MAX_WINDOW_WAIT_COUNT in Hle, Hle'. rewrite u32_len_pass by lia. simpl.
    destruct (wait_predicate request) as [| | state | desired | desired | g | c]; simpl in *; try done;
      rewrite ?u32_len_pass by (first [lia | etrans; [apply Hle' | lia]]); try by eexists.
    destruct (validate_count c) as [[] |]; [| done]. by eexists.
Qed.
Context {fingerprint : Type} `{EqDecision fingerprint}.
Context (fingerprint_of : WindowSelector -> option fingerprint).

(** C34: following the continuations of a query shows every window the selector asks for,
    once, in the requested order, and comes to an end: every page but the last is full, and
    no page resumes where it was.  What a selector asks for is read off the selector itself,
    not off its compiled form. *)
Theorem query_pages_exact (s : WindowSelector) (order : WindowOrder) (limit : N)
    (f : fingerprint) (compiled : CompiledSelector (pikevm := pikevm)) :
  1 <= limit <= MAX_WINDOW_PAGE_LIMIT -> fingerprint_of s = Some f ->
  compile_selector to_lowercase nfa_build pikevm_new v s = Ok compiled ->
  exists sorted,
    paged (query_page to_lowercase nfa_build pikevm_new is_match fingerprint_of v s order limit)
      limit None (map record_snapshot sorted) /\
    NoDup sorted /\ (forall r, r ∈ sorted <-> r ∈ records /\ meets s r) /\
    Sorted.StronglySorted (fun a b => ordering_le (compare_records order a b)) sorted.
Proof.
  intros Hlimit Hf Hc. apply ViewFacts.new_view_ok in Hv as [-> Hok].
  pose proof Hc as [_ Hcomp]%compile_selector_Ok.
  set (found := matching to_lowercase is_match compiled records).
  exists (sort_records order found). split_and!.
  - assert (len (sort_records order found) <= MAX_WINDOW_WAIT_COUNT) as Hlen.
    { unfold len. rewrite OrderFacts.sort_records_Permutation.
      pose proof (ViewFacts.view_len _ Hok) as Hl. simpl in Hl. unfold len in Hl.
      pose proof (length_filter (fun r => matches to_lowercase is_match compiled r = true) records).
      unfold found, matching. lia. }
    pose proof (pages_from (WindowQueryView.mk desktop generation revision records)
      (sort_records order found) order (SelectorQuery f) limit Hlen Hlimit 0 (or_introl eq_refl)) as Hp.
    simpl in Hp. rewrite drop_0 in Hp. eapply paged_ext; [| exact Hp]. intros c.
    unfold query_page. rewrite Hf. simpl. by rewrite Hc.
  - rewrite OrderFacts.sort_records_Permutation. apply NoDup_filter.
    eapply NoDup_fmap_1, (ViewFacts.view_distinct _ Hok).
  - intros r. rewrite OrderFacts.sort_records_Permutation. by apply matching_spec.
  - apply OrderFacts.sort_records_sorted.
Qed.

(** A page does not depend on the order in which the windows were captured: two views
    of the same windows answer every list and every query with the same pages. *)
Theorem pages_are_canonical (records' : list WindowQueryRecord) (v' : WindowQueryView.t)
    (s : WindowSelector) (order : WindowOrder) (limit : N)
    (c : option (Continuation (fingerprint := fingerprint))) :
  records ≡ₚ records' -> WindowQueryView.new desktop generation revision records' = Ok v' ->
  list_page v order limit c = list_page v' order limit c /\
  query_page to_lowercase nfa_build pikevm_new is_match fingerprint_of v s order limit c =
    query_page to_lowercase nfa_build pikevm_new is_match fingerprint_of v' s order limit c.
Proof.
  intros Hp Hv'. apply ViewFacts.new_view_ok in Hv as [-> Hok]. apply ViewFacts.new_view_ok in Hv' as [-> Hok'].
  pose proof (ViewFacts.view_distinct _ Hok) as Hd. simpl in Hd. split.
  - unfold list_page. simpl. by rewrite (OrderFacts.sort_records_canonical order _ _ Hd Hp).
  - unfold query_page. destruct (fingerprint_of s) as [f |]; simpl; [| done].
    unfold compile_selector. simpl.
    destruct (SelectorValidation.validate_for_scope _ _ _ _) as [[] |]; simpl; [| done].
    destruct (compile _ _ _ s) as [compiled |]; simpl; [| done].
    rewrite (OrderFacts.sort_records_canonical order _ (matching to_lowercase is_match compiled records')); [done | |].
    + by apply OrderFacts.distinct_filter.
    + unfold matching. by rewrite Hp.
Qed.

End QueryProperties.

(** ** The theorems at a concrete view *)
Module QueryWitness.
Import SelectorValidation QueryEngine QueryFacts WindowWitness.

(** A toy engine: a pattern is a literal text, and the case table leaves texts alone. *)
Definition to_lowercase (s : string) : string := s.
Definition nfa_build (pattern : string) (case_sensitive : bool) : option string := Some pattern.
Definition pikevm_new (n : string) : option string := Some n.
Definition is_match (p text : string) : bool := contains text p.
Definition fingerprint_of (s : WindowSelector) : option unit := Some tt.

Definition desktop : DesktopId := mkDesktopId 1.
Definition generation : DesktopGeneration := mkDesktopGeneration 2.
Definition at_revision (w : WindowRef.t) (created : N) : WindowQueryRecord :=
  mkQueryRecord (Snapshot.set_model_revision (mkRevision 9) (snapshot_of w)) (mkRevision created).
Definition captured : list WindowQueryRecord :=
  [at_revision second 3; at_revision third 4].
Definition view : WindowQueryView.t := WindowQueryView.mk desktop generation (mkRevision 9) captured.

(** The windows created after revision 3 that are not in focus. *)
Definition recent : WindowSelector :=
  All [Predicate (CreatedAfter (mkRevision 3)); Not (Predicate (Focused true))].
Definition mapped : WindowSelector := Predicate (MapState Viewable).
Definition compiled : CompiledSelector (pikevm := string) :=
  CompiledLeaf (CompiledOther (MapState Viewable)).
Definition compiled_recent : CompiledSelector (pikevm := string) :=
  CompiledAll [CompiledLeaf (CompiledOther (CreatedAfter (mkRevision 3)));
    CompiledNot (CompiledLeaf (CompiledOther (Focused true)))].

Lemma view_new : WindowQueryView.new desktop generation (mkRevision 9) captured = Ok view.
Proof. by vm_compute. Qed.

Lemma query_pages_exact_witness :
  exists sorted,
    paged (query_page to_lowercase nfa_build pikevm_new is_match fingerprint_of view mapped
      CreationDescending 1) 1 None (map record_snapshot sorted) /\
    at_revision third 4 ∈ sorted.
Proof.
  destruct (query_pages_exact to_lowercase nfa_build pikevm_new is_match desktop generation
    (mkRevision 9) captured view view_new fingerprint_of mapped CreationDescending 1 tt compiled)
    as (sorted & Hp & _ & Hin & _); [by vm_compute.. |].
  exists sorted. split; [exact Hp |]. apply Hin. split; [| reflexivity].
  right. left.
Defined.

Lemma pages_are_canonical_witness :
  list_page (fingerprint := unit) view CreationDescending 1 None =
  list_page (WindowQueryView.mk desktop generation (mkRevision 9)
    [at_revision third 4; at_revision second 3]) CreationDescending 1 None.
Proof.
  apply (pages_are_canonical to_lowercase nfa_build pikevm_new is_match desktop generation
    (mkRevision 9) captured view view_new fingerprint_of [at_revision third 4; at_revision second 3]
    _ mapped CreationDescending 1 None); [apply Permutation_swap | by vm_compute].
Defined.

Lemma resolve_exact_match_witness :
  resolve to_lowercase nfa_build pikevm_new is_match view mapped XidAscending ExactlyOne =
    Err (Ambiguous 2) /\
  exists r, r ∈ captured /\
    satisfies to_lowercase nfa_build pikevm_new is_match recent r.
Proof.
  split; [by vm_compute |].
  pose proof (resolve_exact_match to_lowercase nfa_build pikevm_new is_match desktop generation
    (mkRevision 9) captured view view_new recent XidAscending ExactlyOne compiled_recent) as H.
  destruct (resolve to_lowercase nfa_build pikevm_new is_match view recent XidAscending ExactlyOne)
    as [p | e] eqn:Hr.
  - destruct H as (r & Hin & Hm & _); [by vm_compute |]. by exists r.
  - exfalso. revert Hr. by vm_compute.
Defined.

Lemma selector_wait_exact_witness :
  exists e selected, evaluate_selector_wait to_lowercase nfa_build pikevm_new is_match view mapped
    QuantAll (WaitActive false) = Ok e /\ NoDup selected /\
    WaitEvaluation.selected_count e = len selected /\ at_revision third 4 ∈ selected.
Proof.
  destruct (evaluate_selector_wait to_lowercase nfa_build pikevm_new is_match view mapped QuantAll
    (WaitActive false)) as [e |] eqn:He; [| exfalso; revert He; by vm_compute].
  destruct (selector_wait_exact to_lowercase nfa_build pikevm_new is_match desktop generation
    (mkRevision 9) captured view view_new mapped QuantAll (WaitActive false) e He)
    as (selected & Hnd & Hin & Hc & _).
  exists e, selected. split_and!; [done.. |]. apply Hin. split; [right; left | reflexivity].
Defined.

Definition request : WindowWaitRequest :=
  mkWaitRequest desktop generation (SelectorTarget mapped QuantExactlyOne) (WaitFocused true) None 1000.

Lemma admitted_wait_evaluates_witness :
  exists e, evaluate_wait to_lowercase nfa_build pikevm_new is_match view
    (wait_target request) (wait_predicate request) = Ok e.
Proof.
  apply (admitted_wait_evaluates to_lowercase nfa_build pikevm_new is_match desktop generation
    (mkRevision 9) captured view view_new request); [| by vm_compute..].
  intros pattern c n _. by exists n.
Defined.
End QueryWitness.
