(* ===== verification/NamedKeys.v ===== *)
(** * The named keys of the keyboard vocabulary

    Models the feature-independent key names of [xenoteer-x11/src/keyboard.rs]: the closed
    vocabulary, its text form, the modifier and lock classes, and the concretization of
    the generic modifiers; with the identifiers of a key and the evidence a resolution is
    asked with. *)

From stdpp Require Import base numbers list option strings.
From Stdlib Require Import Lia.
From S2P Require Import Prelude Keys.

Local Open Scope string_scope.

(** [NamedKey]. *)
Module NamedKey.

Inductive t :=
  | Backspace | Tab | Enter | Escape | Space | Insert | Delete | Home | End | PageUp | PageDown
  | ArrowLeft | ArrowUp | ArrowRight | ArrowDown | Shift | Control | Alt | Meta | Super
  | ShiftLeft | ShiftRight | ControlLeft | ControlRight | AltLeft | AltRight | MetaLeft
  | MetaRight | SuperLeft | SuperRight | HyperLeft | HyperRight | AltGraph | CapsLock | NumLock
  | ScrollLock | PrintScreen | Pause | ContextMenu | F1 | F2 | F3 | F4 | F5 | F6 | F7 | F8 | F9
  | F10 | F11 | F12 | F13 | F14 | F15 | F16 | F17 | F18 | F19 | F20 | F21 | F22 | F23 | F24.

#[export] Instance eq_dec : EqDecision t.
Proof. solve_decision. Defined.

(** [NamedKey::as_str]. *)
Definition as_str (self : t) : string :=
  match self with
  | Backspace => "Backspace"
  | Tab => "Tab"
  | Enter => "Enter"
  | Escape => "Escape"
  | Space => "Space"
  | Insert => "Insert"
  | Delete => "Delete"
  | Home => "Home"
  | End => "End"
  | PageUp => "PageUp"
  | PageDown => "PageDown"
  | ArrowLeft => "ArrowLeft"
  | ArrowUp => "ArrowUp"
  | ArrowRight => "ArrowRight"
  | ArrowDown => "ArrowDown"
  | Shift => "Shift"
  | Control => "Control"
  | Alt => "Alt"
  | Meta => "Meta"
  | Super => "Super"
  | ShiftLeft => "ShiftLeft"
  | ShiftRight => "ShiftRight"
  | ControlLeft => "ControlLeft"
  | ControlRight => "ControlRight"
  | AltLeft => "AltLeft"
  | AltRight => "AltRight"
  | MetaLeft => "MetaLeft"
  | MetaRight => "MetaRight"
  | SuperLeft => "SuperLeft"
  | SuperRight => "SuperRight"
  | HyperLeft => "HyperLeft"
  | HyperRight => "HyperRight"
  | AltGraph => "AltGraph"
  | CapsLock => "CapsLock"
  | NumLock => "NumLock"
  | ScrollLock => "ScrollLock"
  | PrintScreen => "PrintScreen"
  | Pause => "Pause"
  | ContextMenu => "ContextMenu"
  | F1 => "F1"
  | F2 => "F2"
  | F3 => "F3"
  | F4 => "F4"
  | F5 => "F5"
  | F6 => "F6"
  | F7 => "F7"
  | F8 => "F8"
  | F9 => "F9"
  | F10 => "F10"
  | F11 => "F11"
  | F12 => "F12"
  | F13 => "F13"
  | F14 => "F14"
  | F15 => "F15"
  | F16 => "F16"
  | F17 => "F17"
  | F18 => "F18"
  | F19 => "F19"
  | F20 => "F20"
  | F21 => "F21"
  | F22 => "F22"
  | F23 => "F23"
  | F24 => "F24"
  end.

(** [NamedKeyParseError] and [NamedKey::from_str]: the arms in their order. *)
Inductive ParseError := UnknownNamedKey (value : string).

Definition from_str (value : string) : result t ParseError :=
  if decide (value = "Backspace") then Ok Backspace
  else if decide (value = "Tab") then Ok Tab
  else if decide (value = "Enter") then Ok Enter
  else if decide (value = "Escape") then Ok Escape
  else if decide (value = "Space") then Ok Space
  else if decide (value = "Insert") then Ok Insert
  else if decide (value = "Delete") then Ok Delete
  else if decide (value = "Home") then Ok Home
  else if decide (value = "End") then Ok End
  else if decide (value = "PageUp") then Ok PageUp
  else if decide (value = "PageDown") then Ok PageDown
  else if decide (value = "ArrowLeft") then Ok ArrowLeft
  else if decide (value = "ArrowUp") then Ok ArrowUp
  else if decide (value = "ArrowRight") then Ok ArrowRight
  else if decide (value = "ArrowDown") then Ok ArrowDown
  else if decide (value = "Shift") then Ok Shift
  else if decide (value = "Control") then Ok Control
  else if decide (value = "Alt") then Ok Alt
  else if decide (value = "Meta") then Ok Meta
  else if decide (value = "Super") then Ok Super
  else if decide (value = "ShiftLeft") then Ok ShiftLeft
  else if decide (value = "ShiftRight") then Ok ShiftRight
  else if decide (value = "ControlLeft") then Ok ControlLeft
  else if decide (value = "ControlRight") then Ok ControlRight
  else if decide (value = "AltLeft") then Ok AltLeft
  else if decide (value = "AltRight") then Ok AltRight
  else if decide (value = "MetaLeft") then Ok MetaLeft
  else if decide (value = "MetaRight") then Ok MetaRight
  else if decide (value = "SuperLeft") then Ok SuperLeft
  else if decide (value = "SuperRight") then Ok SuperRight
  else if decide (value = "HyperLeft") then Ok HyperLeft
  else if decide (value = "HyperRight") then Ok HyperRight
  else if decide (value = "AltGraph") then Ok AltGraph
  else if decide (value = "CapsLock") then Ok CapsLock
  else if decide (value = "NumLock") then Ok NumLock
  else if decide (value = "ScrollLock") then Ok ScrollLock
  else if decide (value = "PrintScreen") then Ok PrintScreen
  else if decide (value = "Pause") then Ok Pause
  else if decide (value = "ContextMenu") then Ok ContextMenu
  else if decide (value = "F1") then Ok F1
  else if decide (value = "F2") then Ok F2
  else if decide (value = "F3") then Ok F3
  else if decide (value = "F4") then Ok F4
  else if decide (value = "F5") then Ok F5
  else if decide (value = "F6") then Ok F6
  else if decide (value = "F7") then Ok F7
  else if decide (value = "F8") then Ok F8
  else if decide (value = "F9") then Ok F9
  else if decide (value = "F10") then Ok F10
  else if decide (value = "F11") then Ok F11
  else if decide (value = "F12") then Ok F12
  else if decide (value = "F13") then Ok F13
  else if decide (value = "F14") then Ok F14
  else if decide (value = "F15") then Ok F15
  else if decide (value = "F16") then Ok F16
  else if decide (value = "F17") then Ok F17
  else if decide (value = "F18") then Ok F18
  else if decide (value = "F19") then Ok F19
  else if decide (value = "F20") then Ok F20
  else if decide (value = "F21") then Ok F21
  else if decide (value = "F22") then Ok F22
  else if decide (value = "F23") then Ok F23
  else if decide (value = "F24") then Ok F24
  else Err (UnknownNamedKey value).

(** [NamedKey::is_modifier]. *)
Definition is_modifier (self : t) : bool :=
  match self with
  | Shift | Control | Alt | Meta | Super | ShiftLeft | ShiftRight | ControlLeft | ControlRight
  | AltLeft | AltRight | MetaLeft | MetaRight | SuperLeft | SuperRight | HyperLeft | HyperRight
  | AltGraph | CapsLock | NumLock | ScrollLock => true
  | _ => false
  end.

(** [NamedKey::is_lock]. *)
Definition is_lock (self : t) : bool :=
  match self with
  | CapsLock | NumLock | ScrollLock => true
  | _ => false
  end.

(** [ModifierSide] with [choose]. *)
Inductive ModifierSide := Left | Right.

Definition choose {A} (self : ModifierSide) (left right : A) : A :=
  match self with
  | Left => left
  | Right => right
  end.

(** [ModifierSideDefaults]. *)
Record ModifierSideDefaults := mkSides {
  shift : ModifierSide;
  control : ModifierSide;
  alt : ModifierSide;
  meta : ModifierSide;
  super_key : ModifierSide
}.

(** [NamedKey::concretize]. *)
Definition concretize (self : t) (defaults : ModifierSideDefaults) : t :=
  match self with
  | Shift => choose (shift defaults) ShiftLeft ShiftRight
  | Control => choose (control defaults) ControlLeft ControlRight
  | Alt => choose (alt defaults) AltLeft AltRight
  | Meta => choose (meta defaults) MetaLeft MetaRight
  | Super => choose (super_key defaults) SuperLeft SuperRight
  | concrete => concrete
  end.

(** The five names that stand for a side chosen by the configuration. *)
Definition is_generic (self : t) : bool :=
  match self with
  | Shift | Control | Alt | Meta | Super => true
  | _ => false
  end.

Lemma concretize_concrete (defaults : ModifierSideDefaults) (k : t) :
  is_generic (concretize k defaults) = false /\
  is_modifier (concretize k defaults) = is_modifier k /\
  (is_generic k = false -> concretize k defaults = k).
Proof. destruct defaults as [[] [] [] [] []], k; repeat split; discriminate. Qed.

Lemma from_str_as_str (k : t) : from_str (as_str k) = Ok k.
Proof. destruct k; reflexivity. Qed.

Lemma from_str_Ok (value : string) (k : t) : from_str value = Ok k -> value = as_str k.
Proof.
  assert (forall s name (rest : result t ParseError), s = as_str name ->
    (rest = Ok k -> value = as_str k) ->
    (if decide (value = s) then Ok name else rest) = Ok k -> value = as_str k) as Harm.
  { intros s name rest Hs Hrest. case_decide as Hv; [| done]. intros [= <-]. congruence. }
  unfold from_str. repeat (apply Harm; [reflexivity |]). discriminate.
Qed.

End NamedKey.
Export (hints) NamedKey.

(** ** Identifiers and resolution evidence *)

(** [KeyIdentifier]; a [char] is its scalar value. *)
Inductive KeyIdentifier :=
  | Named (key : NamedKey.t)
  | Scalar (value : N)
  | Raw (keycode : N).

#[export] Instance key_identifier_eq_dec : EqDecision KeyIdentifier.
Proof. solve_decision. Defined.

(** [KeyboardResolutionIntent]. *)
Inductive KeyboardResolutionIntent := PhysicalKeyIntent | ExactText.

(** [MAX_RESOLUTION_OWNED_KEYS], [ResolutionContextError]. *)
Definition MAX_RESOLUTION_OWNED_KEYS : N := 248.

Inductive ResolutionContextError :=
  | TooManyOwnedKeys (actual : N)
  | InvalidOwnedKeycode (keycode : N)
  | DuplicateOwnedKeycode (keycode : N).

(** [KeyboardResolutionContext]: the intent and the 32-byte bitmap of the owned keys. *)
Module KeyboardResolutionContext.
Local Open Scope N_scope.

Record t := mk {
  intent : KeyboardResolutionIntent;
  actor_owned : list N;
  actor_owned_count : N
}.

(** The bit of a keycode: [1_u8 << (keycode % 8)], in byte [keycode / 8]. *)
Definition bit (keycode : N) : N := N.shiftl 1 (keycode mod 8).
Definition byte_at (bytes : list N) (keycode : N) : N :=
  default 0 (bytes !! N.to_nat (keycode / 8)).

(** The loop of [new] over the owned keycodes. *)
Fixpoint mark (keycodes : list N) (actor_owned : list N) :
    result (list N) ResolutionContextError :=
  match keycodes with
  | [] => Ok actor_owned
  | keycode :: keycodes =>
      if decide (keycode < 8) then Err (InvalidOwnedKeycode keycode)
      else if decide (N.land (byte_at actor_owned keycode) (bit keycode) <> 0)
      then Err (DuplicateOwnedKeycode keycode)
      else mark keycodes
        (<[N.to_nat (keycode / 8) := N.lor (byte_at actor_owned keycode) (bit keycode)]> actor_owned)
  end.

(** [KeyboardResolutionContext::new]. *)
Definition new (intent : KeyboardResolutionIntent) (actor_owned_keycodes : list N) :
    result t ResolutionContextError :=
  if decide (MAX_RESOLUTION_OWNED_KEYS < len actor_owned_keycodes)
  then Err (TooManyOwnedKeys (len actor_owned_keycodes))
  else
    let? actor_owned := mark actor_owned_keycodes (replicate 32 0) in
    Ok (mk intent actor_owned (len actor_owned_keycodes)).

(** [is_actor_owned]. *)
Definition is_actor_owned (self : t) (keycode : N) : bool :=
  negb (N.land (byte_at (actor_owned self) keycode) (bit keycode) =? 0).

End KeyboardResolutionContext.
