(* ===== verification/InputBackend.v ===== *)
(** * The seams of the input actor

    Models [xenoteer-x11/src/input/backend.rs] and the actor's half of
    [keyboard_model.rs]: the events sent to the server, the observations, and the two
    traits the engine works through.  A trait is a class over the type [W] of everything
    outside the actor: the server and the connections to it, the clock and the
    cancellation tokens.  Every call takes the outside world to the next one, so an
    implementation may answer anything at any time.  The X11 implementation of
    [InputBackend] and the xkbcommon implementation of [ActorKeyboardModel] are not
    modelled; the crate is the one built with [native-xkbcommon]. *)

From stdpp Require Import base numbers list option.
From Stdlib Require Import Lia.
From S2P Require Import Prelude Geometry Motion Keys OwnedInput.
From S2P Require Import WindowTypes WindowPlacement NamedKeys.

Local Open Scope N_scope.

(** [BackendFaultKind] and [BackendFault]; the detail text is never read. *)
Module BackendFault.
Inductive Kind := Connection | Request | Capability.

#[export] Instance kind_eq_dec : EqDecision Kind.
Proof. solve_decision. Defined.

Record t := mk { kind : Kind }.

(** [fault.kind == BackendFaultKind::Connection]. *)
Definition is_connection (self : t) : bool := bool_decide (kind self = Connection).
End BackendFault.
Export (hints) BackendFault.

(** [PointerObservation]; the array [[bool; 5]] is a list. *)
Module PointerObservation.
Record t := mk { pointer : RootPoint; logical_buttons_1_to_5 : list bool }.

(** [logical_buttons_1_to_5[usize::from(logical - 1)]]. *)
Definition is_down (buttons : list bool) (logical : N) : bool :=
  default false (buttons !! N.to_nat (logical - 1)).
End PointerObservation.

(** [BackendStartup]. *)
Module BackendStartup.
Record t := mk { button_mapping : ButtonMapping.t; min_keycode : N; max_keycode : N }.
End BackendStartup.

(** [DrainedEvents]. *)
Module DrainedEvents.
Record t := mk {
  pointer_mapping : option ButtonMapping.t;
  keyboard_mapping_changed : bool;
  xkb_model_changed : bool;
  xkb_state_changed : bool
}.
End DrainedEvents.

(** [BackendEvent]. *)
Module BackendEvent.
Inductive t :=
  | Motion (point : RootPoint) (delay_ms : N)
  | Button (button : PhysicalButton) (pressed : bool) (delay_ms : N)
  | Key (key : PhysicalKey) (pressed : bool) (delay_ms : N).

#[export] Instance eq_dec : EqDecision t.
Proof. solve_decision. Defined.

(** The event presses; the event releases. *)
Definition is_press (self : t) : bool :=
  match self with
  | Motion _ _ => false
  | Button _ pressed _ | Key _ pressed _ => pressed
  end.
End BackendEvent.
Export (hints) BackendEvent.

(** [CoreKeyboardMapping]. *)
Module CoreKeyboardMapping.
Record t := mk { keysyms_per_keycode : N; keysyms : list N }.

#[export] Instance eq_dec : EqDecision t.
Proof. solve_decision. Defined.
End CoreKeyboardMapping.
Export (hints) CoreKeyboardMapping.

(** ** The backend *)

(** [InputBackend]; [wait_for_input_delay] takes milliseconds. *)
Class InputBackend (W : Type) := {
  Cookie : Type;
  startup : W -> W * result BackendStartup.t BackendFault.t;
  drain_events : W -> W * result DrainedEvents.t BackendFault.t;
  send_event : BackendEvent.t -> W -> W * result Cookie BackendFault.t;
  check_cookie : Cookie -> W -> W * result unit BackendFault.t;
  observe_pointer : W -> W * result PointerObservation.t BackendFault.t;
  observe_keys : W -> W * result (list PhysicalKey) BackendFault.t;
  wait_for_input_delay : N -> W -> W;
  observe_window_geometry : N -> W -> W * result Placement.t BackendFault.t;
  read_keyboard_mapping : PhysicalKey -> W -> W * result CoreKeyboardMapping.t BackendFault.t;
  write_keyboard_mapping : PhysicalKey -> CoreKeyboardMapping.t -> W -> W * result unit BackendFault.t
}.

(** ** The keyboard model *)

(** [KeyboardModelFaultKind] and [KeyboardModelFault]. *)
Module KeyboardModelFault.
Inductive Kind :=
  | Unavailable | Conflict | NotRepresentable | MappingChanged | Unsafe | Connection | Platform.

#[export] Instance kind_eq_dec : EqDecision Kind.
Proof. solve_decision. Defined.

Record t := mk { kind : Kind }.

(** [KeyboardModelFaultKind::is_connection], [is_not_representable]. *)
Definition is_connection (self : t) : bool := bool_decide (kind self = Connection).
Definition is_not_representable (self : t) : bool := bool_decide (kind self = NotRepresentable).
End KeyboardModelFault.
Export (hints) KeyboardModelFault.

(** [ModelPreflight]. *)
Module ModelPreflight.
Record t := mk {
  generation : N;
  mapping_invalidations : N;
  structural_set_map_invalidations : N;
  keymap_fingerprint : option N
}.
End ModelPreflight.

(** [HeldBindingGeneration]. *)
Inductive HeldBindingGeneration :=
  | HeldCurrent
  | HeldStale (captured current : N).

(** [RequiredModifierBinding]. *)
Module RequiredModifierBinding.
Record t := mk { key : PhysicalKey; already_active : bool }.
End RequiredModifierBinding.

(** [KeyboardModelAvailability] and [KeyboardModelDiagnostics]. *)
Inductive KeyboardModelAvailability := Available | FeatureDisabled.

Module KeyboardModelDiagnostics.
Record t := mk {
  availability : KeyboardModelAvailability;
  generation : option N;
  keymap_fingerprint : option N
}.

(** [diagnostics.keymap_fingerprint = None]. *)
Definition without_fingerprint (self : t) : t := mk (availability self) (generation self) None.
End KeyboardModelDiagnostics.

(** [KeyboardBindingEvidence]. *)
Module KeyboardBindingEvidence.
Record t := mk {
  key : PhysicalKey;
  concrete_named_key : option NamedKey.t;
  layout : N;
  level : N;
  generation : N;
  is_modifier : bool;
  required_modifiers : list PhysicalKey
}.
End KeyboardBindingEvidence.

(** [CapturedKeyBinding]; its token is the model's own. *)
Module CapturedKeyBinding.
Section Binding.
Context {Token : Type}.

Record t := mk {
  identifier : KeyIdentifier;
  key : PhysicalKey;
  concrete_named_key : option NamedKey.t;
  layout : N;
  level : N;
  generation : N;
  is_modifier : bool;
  required_modifiers : list RequiredModifierBinding.t;
  token : Token
}.

(** [CapturedKeyBinding::evidence]. *)
Definition evidence (self : t) : KeyboardBindingEvidence.t :=
  KeyboardBindingEvidence.mk (key self) (concrete_named_key self) (layout self) (level self)
    (generation self) (is_modifier self)
    (map RequiredModifierBinding.key (required_modifiers self)).

(** [CapturedKeyBinding::physically_equivalent_across_generation]. *)
Definition physically_equivalent_across_generation (self other : t) : bool :=
  bool_decide (identifier self = identifier other) &&
  bool_decide (key self = key other) &&
  bool_decide (concrete_named_key self = concrete_named_key other) &&
  (layout self =? layout other) &&
  (level self =? level other) &&
  Bool.eqb (is_modifier self) (is_modifier other) &&
  bool_decide (length (required_modifiers self) = length (required_modifiers other)) &&
  forallb (fun '(l, r) =>
      bool_decide (RequiredModifierBinding.key l = RequiredModifierBinding.key r))
    (zip (required_modifiers self) (required_modifiers other)).

(** [CapturedKeyBinding::physically_equivalent]. *)
Definition physically_equivalent (self other : t) : bool :=
  bool_decide (identifier self = identifier other) &&
  bool_decide (key self = key other) &&
  bool_decide (concrete_named_key self = concrete_named_key other) &&
  (layout self =? layout other) &&
  (level self =? level other) &&
  (generation self =? generation other) &&
  Bool.eqb (is_modifier self) (is_modifier other) &&
  bool_decide (length (required_modifiers self) = length (required_modifiers other)) &&
  forallb (fun '(l, r) =>
      bool_decide (RequiredModifierBinding.key l = RequiredModifierBinding.key r))
    (zip (required_modifiers self) (required_modifiers other)).

End Binding.
Arguments t : clear implicits.
End CapturedKeyBinding.

(** [KeyboardReservation]; its token is the model's own. *)
Module KeyboardReservation.
Record t {Token : Type} := mk { key : PhysicalKey; token : Token }.
Arguments t : clear implicits.
Arguments mk {_} _ _.
End KeyboardReservation.

(** [ActorKeyboardModel]. *)
Class ActorKeyboardModel (W : Type) := {
  BindingToken : Type;
  ReservationToken : Type;
  diagnostics : W -> KeyboardModelDiagnostics.t;
  synchronize_preflight : W -> W * result ModelPreflight.t KeyboardModelFault.t;
  resolve_synchronized : KeyIdentifier -> KeyboardResolutionContext.t -> W ->
    W * result (CapturedKeyBinding.t BindingToken) KeyboardModelFault.t;
  validate_binding_synchronized :
    CapturedKeyBinding.t BindingToken -> KeyboardResolutionContext.t -> W ->
    W * result ModelPreflight.t KeyboardModelFault.t;
  validate_held_binding_synchronized :
    CapturedKeyBinding.t BindingToken -> KeyIdentifier -> KeyboardResolutionContext.t -> W ->
    W * result HeldBindingGeneration KeyboardModelFault.t;
  reserve_unused_keycode : W ->
    W * result (KeyboardReservation.t ReservationToken) KeyboardModelFault.t;
  validate_reservation : KeyboardReservation.t ReservationToken -> W ->
    W * result ModelPreflight.t KeyboardModelFault.t
}.

(** ** The clock and the cancellation tokens *)

(** [Instant::now] and [CancellationToken::is_cancelled], a token by its number. *)
Class Surroundings (W : Type) := {
  instant_now : W -> W * N;
  is_cancelled : N -> W -> W * bool
}.

(** [InputPrecondition]: a closure evaluated on the owner thread. *)
Inductive InputPreconditionFailure := TargetStaleNow | FocusLostNow | EvidenceUnavailable.

Definition InputPrecondition (W : Type) : Type := W -> W * result unit InputPreconditionFailure.
