(* ===== verification/InputOutcome.v ===== *)
(** * Results of the input actor

    Models [xenoteer-x11/src/input/outcome.rs]: outcomes and failures with their evidence,
    the report of a cleanup, and the redaction of evidence whose key identities or order
    could encode typed text. *)

From stdpp Require Import base numbers list option.
From Stdlib Require Import Lia.
From S2P Require Import Prelude Identity Geometry Keys OwnedInput InputBackend.

Local Open Scope N_scope.

(** [PhysicalTextMode] of [keyboard_action.rs]. *)
Inductive PhysicalTextMode := CurrentLayout | ExtendedTemporaryMapping.

#[export] Instance physical_text_mode_eq_dec : EqDecision PhysicalTextMode.
Proof. solve_decision. Defined.

(** [KeyboardOutcomeEvidence]. *)
Module KeyboardOutcomeEvidence.
Record t := mk {
  model : KeyboardModelDiagnostics.t;
  bindings : list KeyboardBindingEvidence.t;
  text_scalar_count : option N;
  requested_text_mode : option PhysicalTextMode;
  current_layout_scalars : N;
  temporary_mapping_scalars : N;
  temporary_mappings_installed : N;
  temporary_mappings_restored : N;
  temporary_mapping_restoration_proven : option bool
}.
End KeyboardOutcomeEvidence.

(** [CleanupReport]. *)
Module CleanupReport.
Record t := mk {
  attempted : N;
  confirmed : N;
  observed_logical_buttons_1_to_5 : option (list bool);
  unobservable_buttons : list PhysicalButton;
  observed_pressed_keys : option (list PhysicalKey);
  residual_owned_buttons : list PhysicalButton;
  residual_owned_keys : list PhysicalKey;
  temporary_mapping_restore_attempted : bool;
  temporary_mapping_restore_proven : bool;
  succeeded : bool
}.
End CleanupReport.

(** [InputEffectEvidence]. *)
Module InputEffectEvidence.
Inductive t :=
  | Journal (journal : EffectJournal.t)
  | RedactedKeyboard (provisional confirmed : N).

(** The records of the journal that carry the certainty. *)
Definition count (certainty : EffectCertainty) (journal : EffectJournal.t) : N :=
  len (filter (fun record => EffectRecord.certainty record = certainty)
         (EffectJournal.records journal)).

(** [InputEffectEvidence::from_journal], and [From<EffectJournal>] without redaction. *)
Definition from_journal (journal : EffectJournal.t) (redact_keyboard : bool) : t :=
  if redact_keyboard
  then RedactedKeyboard (count Provisional journal) (count Confirmed journal)
  else Journal journal.
End InputEffectEvidence.

(** [InputCleanupEvidence]. *)
Module InputCleanupEvidence.
Inductive t :=
  | Detailed (report : CleanupReport.t)
  | RedactedKeyboard
      (attempted confirmed residual_owned_key_count residual_owned_button_count : N)
      (pointer_observation_available : bool)
      (observed_logical_buttons_1_to_5 : option (list bool))
      (key_observation_available owned_buttons_proven_released owned_keys_proven_released
       temporary_mapping_restore_attempted temporary_mapping_restore_proven succeeded : bool).

(** [InputCleanupEvidence::succeeded], [attempted], [confirmed]. *)
Definition succeeded (self : t) : bool :=
  match self with
  | Detailed report => CleanupReport.succeeded report
  | RedactedKeyboard _ _ _ _ _ _ _ _ _ _ _ succeeded => succeeded
  end.
Definition attempted (self : t) : N :=
  match self with
  | Detailed report => CleanupReport.attempted report
  | RedactedKeyboard attempted _ _ _ _ _ _ _ _ _ _ _ => attempted
  end.
Definition confirmed (self : t) : N :=
  match self with
  | Detailed report => CleanupReport.confirmed report
  | RedactedKeyboard _ confirmed _ _ _ _ _ _ _ _ _ _ => confirmed
  end.

(** [Option::is_some], [Vec::is_empty]. *)
Definition is_some {A} (o : option A) : bool := match o with Some _ => true | None => false end.
Definition is_empty {A} (l : list A) : bool := match l with [] => true | _ => false end.

(** [InputCleanupEvidence::redact_keyboard]. *)
Definition redact_keyboard (self : t) : t :=
  match self with
  | Detailed report =>
      RedactedKeyboard (CleanupReport.attempted report) (CleanupReport.confirmed report)
        (len (CleanupReport.residual_owned_keys report))
        (len (CleanupReport.residual_owned_buttons report))
        (is_some (CleanupReport.observed_logical_buttons_1_to_5 report))
        (CleanupReport.observed_logical_buttons_1_to_5 report)
        (is_some (CleanupReport.observed_pressed_keys report))
        (is_empty (CleanupReport.residual_owned_buttons report))
        (is_empty (CleanupReport.residual_owned_keys report))
        (CleanupReport.temporary_mapping_restore_attempted report)
        (CleanupReport.temporary_mapping_restore_proven report)
        (CleanupReport.succeeded report)
  | redacted => redacted
  end.

(** [InputCleanupEvidence::from_control_report], which is [From<CleanupReport>]. *)
Definition from_control_report (report : CleanupReport.t) : t :=
  let exposes_key_identity :=
    match CleanupReport.observed_pressed_keys report with
    | Some keys => negb (is_empty keys)
    | None => false
    end || negb (is_empty (CleanupReport.residual_owned_keys report)) in
  let evidence := Detailed report in
  if exposes_key_identity then redact_keyboard evidence else evidence.
End InputCleanupEvidence.

(** [InputOutcomeKind]. *)
Module InputOutcomeKind.
Inductive t := Completed | CancelledAfterEffect | DeadlineExceededAfterEffect.
End InputOutcomeKind.

(** [InputOutcome]. *)
Module InputOutcome.
Record t := mk {
  command_id : CommandId;
  kind : InputOutcomeKind.t;
  events_emitted : N;
  completed_units : N;
  requested_pointer : option RootPoint;
  observed_pointer : option RootPoint;
  observed_logical_buttons_1_to_5 : option (list bool);
  button_observation_partial : bool;
  effects : InputEffectEvidence.t;
  keyboard : option KeyboardOutcomeEvidence.t
}.
End InputOutcome.

(** [InputFailureKind]. *)
Module InputFailureKind.
Inductive t :=
  | CancelledBeforeEffect | DeadlineExceededBeforeEffect | HealthRejected | TargetStale
  | FocusLost | PreconditionUnavailable | StateRejected | UnsupportedOperation
  | UnsupportedByBackend | ModifierConflict | ModifierConflictAfterEffect
  | TextNotRepresentable | KeyboardMappingChangedBeforeEffect
  | KeyboardMappingChangedAfterEffect | TemporaryMappingInstallFailed
  | TemporaryMappingRestoreFailed | BackendUnavailable | CheckedRequestFailed
  | BarrierFailed | PostconditionFailed | ButtonMappingChangedAfterEffect | ResetFailed
  | ActorStopped | ControlQueueFull | ActorPanicked.

#[export] Instance eq_dec : EqDecision t.
Proof. solve_decision. Defined.
End InputFailureKind.
Export (hints) InputFailureKind.

(** [InputFailure]. *)
Module InputFailure.
Record t := mk {
  command_id : option CommandId;
  kind : InputFailureKind.t;
  events_emitted : N;
  completed_units : N;
  progress_known : bool;
  requested_pointer : option RootPoint;
  last_observed_pointer : option RootPoint;
  observed_logical_buttons_1_to_5 : option (list bool);
  button_observation_partial : bool;
  effects : option InputEffectEvidence.t;
  cleanup : option InputCleanupEvidence.t;
  keyboard : option KeyboardOutcomeEvidence.t
}.
End InputFailure.

(** [ActorThreadState] and [InputHealthSnapshot]. *)
Inductive ActorThreadState := Starting | Running | Stopped | Panicked.

Module InputHealthSnapshot.
Record t := mk {
  input : InputHealth;
  thread : ActorThreadState;
  button_mapping : option ButtonMapping.t;
  min_keycode : N;
  max_keycode : N;
  keyboard_model : KeyboardModelDiagnostics.t
}.
End InputHealthSnapshot.
