(* ===== verification/KeyboardActions.v ===== *)
(** * Keyboard requests

    Models [xenoteer-x11/src/input/keyboard_action.rs]: the bounded keyboard requests
    that only the input actor resolves, with their constructors and limits.  A text is
    the list of its Unicode scalar values. *)

From stdpp Require Import base numbers list option.
From Stdlib Require Import Lia.
From S2P Require Import Prelude Motion Keys OwnedInput NamedKeys InputBackend InputOutcome.

Local Open Scope N_scope.

Definition MAX_KEYBOARD_SEQUENCE_STEPS : N := 1024.
Definition MAX_PHYSICAL_TEXT_SCALARS : N := 128.
Definition MAX_KEYBOARD_DELAY_MS : N := 10000.
Definition MAX_KEYBOARD_TOTAL_DURATION_MS : N := 300000.
Definition MAX_KEYBOARD_CHORD_KEYS : N := 16.
Definition MAX_KEYBOARD_ACTION_EVENTS : N := 4096.

(** [KeyboardActionError]. *)
Inductive KeyboardActionError :=
  | InvalidRawKeycode (keycode : N)
  | EmptyKeyboardChord
  | TooManyKeyboardChordKeys (actual : N)
  | DuplicateChordKey
  | EmptySequence
  | TooManySequenceSteps (actual : N)
  | EmptyText
  | TooManyTextScalars (actual : N)
  | DelayTooLong (actual_ms : N)
  | DurationOverflow
  | TotalDurationTooLong (actual_ms : N)
  | TooManyEvents (actual : N).

(** [validate_identifier], [validate_keys], [validate_delay]. *)
Definition validate_identifier (key : KeyIdentifier) : result unit KeyboardActionError :=
  match key with
  | Raw keycode => ensure (keycode <= 7) (InvalidRawKeycode keycode)
  | _ => Ok tt
  end.

Fixpoint validate_each (seen keys : list KeyIdentifier) : result unit KeyboardActionError :=
  match keys with
  | [] => Ok tt
  | key :: keys =>
      try! validate_identifier key in
      try! ensure (key ∈ seen) DuplicateChordKey in
      validate_each (seen ++ [key]) keys
  end.

Definition validate_keys (keys : list KeyIdentifier) : result unit KeyboardActionError :=
  try! ensure (keys = []) EmptyKeyboardChord in
  try! ensure (MAX_KEYBOARD_CHORD_KEYS < len keys) (TooManyKeyboardChordKeys (len keys)) in
  validate_each [] keys.

Definition validate_delay (delay_ms : N) : result unit KeyboardActionError :=
  ensure (MAX_KEYBOARD_DELAY_MS < delay_ms) (DelayTooLong delay_ms).

(** [usize::saturating_add], [usize::saturating_mul], [u32::saturating_mul]. *)
Definition usize_add (a b : N) : N := N.min (a + b) u64_max.
Definition usize_mul (a b : N) : N := N.min (a * b) u64_max.
Definition u32_mul (a b : N) : N := N.min (a * b) u32_max.

(** [KeyboardSequenceStep]. *)
Module KeyboardSequenceStep.
Record t := mk { keys : list KeyIdentifier; hold_ms : N; delay_before_ms : N }.

(** [KeyboardSequenceStep::chord], [press]. *)
Definition chord (keys : list KeyIdentifier) (hold_ms delay_before_ms : N) :
    result t KeyboardActionError :=
  try! validate_keys keys in
  try! validate_delay hold_ms in
  try! validate_delay delay_before_ms in
  Ok (mk keys hold_ms delay_before_ms).

Definition press (key : KeyIdentifier) (hold_ms delay_before_ms : N) : result t KeyboardActionError :=
  chord [key] hold_ms delay_before_ms.

(** [KeyboardSequenceStep::event_upper_bound]. *)
Definition event_upper_bound (self : t) : N := usize_mul (usize_add (len (keys self)) 8) 2.
End KeyboardSequenceStep.

(** [KeyboardActionKind], and [KeyboardAction], which wraps it. *)
Inductive KeyboardAction :=
  | KeyDown (identifier : KeyIdentifier)
  | KeyUp (identifier : KeyIdentifier)
  | KeySequence (steps : list KeyboardSequenceStep.t)
  | KeyText (text : list N) (mode : PhysicalTextMode) (inter_character_delay_ms : N).

Module KeyboardAction.

(** [KeyboardAction::down], [up]. *)
Definition down (key : KeyIdentifier) : result KeyboardAction KeyboardActionError :=
  try! validate_identifier key in Ok (KeyDown key).

Definition up (key : KeyIdentifier) : result KeyboardAction KeyboardActionError :=
  try! validate_identifier key in Ok (KeyUp key).

(** [fold(0_usize, |total, step| total.saturating_add(step.event_upper_bound()))]. *)
Definition steps_events (steps : list KeyboardSequenceStep.t) : N :=
  fold_left (fun total step => usize_add total (KeyboardSequenceStep.event_upper_bound step)) steps 0.

(** The [try_fold] of the durations. *)
Definition add_duration (total : N) (step : KeyboardSequenceStep.t) : result N KeyboardActionError :=
  let? held := ok_or (checked_add_u32 total (KeyboardSequenceStep.hold_ms step)) DurationOverflow in
  ok_or (checked_add_u32 held (KeyboardSequenceStep.delay_before_ms step)) DurationOverflow.

(** [KeyboardAction::sequence]. *)
Definition sequence (steps : list KeyboardSequenceStep.t) : result KeyboardAction KeyboardActionError :=
  try! ensure (steps = []) EmptySequence in
  try! ensure (MAX_KEYBOARD_SEQUENCE_STEPS < len steps) (TooManySequenceSteps (len steps)) in
  let? total_duration_ms := try_fold add_duration 0 steps in
  try! ensure (MAX_KEYBOARD_TOTAL_DURATION_MS < total_duration_ms)
         (TotalDurationTooLong total_duration_ms) in
  let events := steps_events steps in
  try! ensure (MAX_KEYBOARD_ACTION_EVENTS < events) (TooManyEvents events) in
  Ok (KeySequence steps).

(** [KeyboardAction::press], [chord]. *)
Definition press (key : KeyIdentifier) (hold_ms : N) : result KeyboardAction KeyboardActionError :=
  let? step := KeyboardSequenceStep.press key hold_ms 0 in sequence [step].

Definition chord (keys : list KeyIdentifier) (hold_ms : N) : result KeyboardAction KeyboardActionError :=
  let? step := KeyboardSequenceStep.chord keys hold_ms 0 in sequence [step].

(** [KeyboardAction::physical_text]. *)
Definition physical_text (text : list N) (mode : PhysicalTextMode) (inter_character_delay_ms : N) :
    result KeyboardAction KeyboardActionError :=
  try! validate_delay inter_character_delay_ms in
  let scalar_count := len text in
  try! ensure (scalar_count = 0) EmptyText in
  try! ensure (MAX_PHYSICAL_TEXT_SCALARS < scalar_count) (TooManyTextScalars scalar_count) in
  let? scalar_gaps := ok_or (if decide (scalar_count - 1 <= u32_max) then Some (scalar_count - 1) else None)
                        DurationOverflow in
  let total_duration_ms := u32_mul inter_character_delay_ms scalar_gaps in
  try! ensure (MAX_KEYBOARD_TOTAL_DURATION_MS < total_duration_ms)
         (TotalDurationTooLong total_duration_ms) in
  let events := usize_mul scalar_count 18 in
  try! ensure (MAX_KEYBOARD_ACTION_EVENTS < events) (TooManyEvents events) in
  Ok (KeyText text mode inter_character_delay_ms).

(** [KeyboardAction::event_upper_bound]. *)
Definition event_upper_bound (self : KeyboardAction) : N :=
  match self with
  | KeyDown _ | KeyUp _ => 9
  | KeySequence steps => steps_events steps
  | KeyText text _ _ => usize_mul (len text) 18
  end.

Definition is_scalar (identifier : KeyIdentifier) : bool :=
  match identifier with
  | Scalar _ => true
  | _ => false
  end.

(** [KeyboardAction::contains_scalar_identifier]. *)
Definition contains_scalar_identifier (self : KeyboardAction) : bool :=
  match self with
  | KeyDown (Scalar _) | KeyUp (Scalar _) | KeyText _ _ _ => true
  | KeySequence steps => existsb (fun step => existsb is_scalar (KeyboardSequenceStep.keys step)) steps
  | KeyDown _ | KeyUp _ => false
  end.

End KeyboardAction.
