(* ===== verification/Engine.v ===== *)
(** * The input engine: state, batches and the cleanup plan

    Models the part of [xenoteer-x11/src/input/execute.rs] that every operation of the
    input actor is built from: the ledger of sent presses, the engine's state, the
    checked batch [run_batch] with its uncertainty, health transitions, the conservative
    cleanup plan, and the boundaries at which an action may stop.  [EnginePointer],
    [EngineKeyboard] and [EngineControl] model the operations. *)

From stdpp Require Import base numbers list option.
From Stdlib Require Import Lia.
From S2P Require Import Prelude Identity Geometry Motion Keys OwnedInput.
From S2P Require Import NamedKeys InputBackend InputOutcome.

Local Open Scope N_scope.

(** ** Counters *)

(** [usize::saturating_add], [u16::saturating_add] and [u16::saturating_sub]. *)
Definition saturating_add_usize (a b : N) : N := N.min (a + b) u64_max.
Definition saturating_add_u64 (a b : N) : N := N.min (a + b) u64_max.
Definition saturating_add_u16 (a b : N) : N := N.min (a + b) 65535.
Definition saturating_sub_u16 (a b : N) : N := a - b.

(** ** The ledger of sent presses *)

(** [set_bit] and [bit_is_set] of a [[u64; 4]]; [!mask] is the difference. *)
Definition bit_index (detail : N) : nat := N.to_nat (detail / 64).
Definition bit_mask (detail : N) : N := N.shiftl 1 (detail mod 64).

Definition word (bits : list N) (detail : N) : N := default 0 (bits !! bit_index detail).

Definition set_bit (detail : N) (value : bool) (bits : list N) : list N :=
  let mask := bit_mask detail in
  <[bit_index detail :=
      if value then N.lor (word bits detail) mask else N.ldiff (word bits detail) mask]> bits.

Definition bit_is_set (bits : list N) (detail : N) : bool :=
  negb (N.land (word bits detail) (bit_mask detail) =? 0).

(** [low..=u8::MAX]. *)
Definition details_from (low : nat) : list N := map N.of_nat (seq low (256 - low)).

(** [StateEffect]. *)
Module StateEffect.
Inductive t :=
  | Motion (point : RootPoint)
  | ButtonPress (button : PhysicalButton) (allow_redundant : bool)
  | ButtonRelease (button : PhysicalButton) (allow_redundant : bool)
  | KeyRelease (key : PhysicalKey)
  | KeyPress (key : PhysicalKey) (modifier : bool)
  | UntrackedRelease.
End StateEffect.

(** [logical_for_physical]. *)
Definition logical_for_physical (mapping : ButtonMapping.t) (physical : PhysicalButton) : option N :=
  match checked_sub_u64 (detail physical) 1 with
  | Some index => ButtonMapping.logical_by_physical mapping !! N.to_nat index
  | None => None
  end.

(** [(1..=5).contains(&logical)]. *)
Definition observable (logical : N) : bool := (1 <=? logical) && (logical <=? 5).

(** [SentPressLedger]. *)
Module SentPressLedger.
Record t := mk { keys : list N; modifier_keys : list N; buttons : list N }.

Definition default : t := mk (replicate 4 0) (replicate 4 0) (replicate 4 0).

(** [SentPressLedger::note]. *)
Definition note (event : BackendEvent.t) (effect : StateEffect.t) (self : t) : t :=
  match event, effect with
  | BackendEvent.Key key true _, StateEffect.KeyPress _ modifier =>
      mk (set_bit (keycode key) true (keys self))
        (if modifier then set_bit (keycode key) true (modifier_keys self) else modifier_keys self)
        (buttons self)
  | BackendEvent.Button button true _, StateEffect.ButtonPress _ _ =>
      mk (keys self) (modifier_keys self) (set_bit (detail button) true (buttons self))
  | _, _ => self
  end.

(** [SentPressLedger::reconcile_keys]. *)
Definition reconcile_keys (pressed : list PhysicalKey) (self : t) : t :=
  fold_left (fun self detail =>
      if bit_is_set (keys self) detail && negb (existsb (fun key => keycode key =? detail) pressed)
      then mk (set_bit detail false (keys self)) (set_bit detail false (modifier_keys self))
             (buttons self)
      else self)
    (details_from 8) self.

(** [SentPressLedger::reconcile_buttons]. *)
Definition reconcile_buttons (mapping : ButtonMapping.t) (logical_buttons : list bool) (self : t) : t :=
  fold_left (fun self detail =>
      if bit_is_set (buttons self) detail then
        match new_button detail with
        | Ok button =>
            match logical_for_physical mapping button with
            | Some logical =>
                if observable logical && negb (PointerObservation.is_down logical_buttons logical)
                then mk (keys self) (modifier_keys self) (set_bit detail false (buttons self))
                else self
            | None => self
            end
        | Err _ => self
        end
      else self)
    (details_from 1) self.

(** [set_bit(&mut self.sent_press_ledger.buttons, button.detail(), false)]. *)
Definition clear_button (button : PhysicalButton) (self : t) : t :=
  mk (keys self) (modifier_keys self) (set_bit (detail button) false (buttons self)).
End SentPressLedger.

(** ** The engine *)

(** [SynthesizedModifierRef]. *)
Module SynthesizedModifierRef.
Record t := mk { key : PhysicalKey; references : N }.
End SynthesizedModifierRef.

(** [PendingTemporaryRestore]. *)
Module PendingTemporaryRestore.
Record t := mk { key : PhysicalKey; original : CoreKeyboardMapping.t }.
End PendingTemporaryRestore.

(** [CapturedKeyHold]. *)
Module CapturedKeyHold.
Record t {Token : Type} := mk {
  identifier : KeyIdentifier;
  binding : CapturedKeyBinding.t Token;
  synthesized_modifiers : list PhysicalKey
}.
Arguments t : clear implicits.
Arguments mk {_} _ _ _.
End CapturedKeyHold.

(** [InputEngine]: its [backend] and [keyboard] are two connections to the outside, and
    [world] is the outside. *)
Module InputEngine.
Section Engine.
Context {W Token : Type}.

Record t := mk {
  world : W;
  state : InputState.t;
  button_mapping : ButtonMapping.t;
  min_keycode : N;
  max_keycode : N;
  last_pointer : option RootPoint;
  invariant_failed : bool;
  captured_keys : list (CapturedKeyHold.t Token);
  synthesized_modifiers : list SynthesizedModifierRef.t;
  pending_keyboard_restore : option PendingTemporaryRestore.t;
  sent_press_ledger : SentPressLedger.t;
  keyboard_effect_emitted : bool
}.

Definition set_world v e :=
  mk v (state e) (button_mapping e) (min_keycode e) (max_keycode e) (last_pointer e)
    (invariant_failed e) (captured_keys e) (synthesized_modifiers e) (pending_keyboard_restore e)
    (sent_press_ledger e) (keyboard_effect_emitted e).
Definition set_state v e :=
  mk (world e) v (button_mapping e) (min_keycode e) (max_keycode e) (last_pointer e)
    (invariant_failed e) (captured_keys e) (synthesized_modifiers e) (pending_keyboard_restore e)
    (sent_press_ledger e) (keyboard_effect_emitted e).
Definition set_button_mapping v e :=
  mk (world e) (state e) v (min_keycode e) (max_keycode e) (last_pointer e)
    (invariant_failed e) (captured_keys e) (synthesized_modifiers e) (pending_keyboard_restore e)
    (sent_press_ledger e) (keyboard_effect_emitted e).
Definition set_last_pointer v e :=
  mk (world e) (state e) (button_mapping e) (min_keycode e) (max_keycode e) v
    (invariant_failed e) (captured_keys e) (synthesized_modifiers e) (pending_keyboard_restore e)
    (sent_press_ledger e) (keyboard_effect_emitted e).
Definition set_invariant_failed v e :=
  mk (world e) (state e) (button_mapping e) (min_keycode e) (max_keycode e) (last_pointer e)
    v (captured_keys e) (synthesized_modifiers e) (pending_keyboard_restore e)
    (sent_press_ledger e) (keyboard_effect_emitted e).
Definition set_captured_keys v e :=
  mk (world e) (state e) (button_mapping e) (min_keycode e) (max_keycode e) (last_pointer e)
    (invariant_failed e) v (synthesized_modifiers e) (pending_keyboard_restore e)
    (sent_press_ledger e) (keyboard_effect_emitted e).
Definition set_synthesized_modifiers v e :=
  mk (world e) (state e) (button_mapping e) (min_keycode e) (max_keycode e) (last_pointer e)
    (invariant_failed e) (captured_keys e) v (pending_keyboard_restore e)
    (sent_press_ledger e) (keyboard_effect_emitted e).
Definition set_pending_keyboard_restore v e :=
  mk (world e) (state e) (button_mapping e) (min_keycode e) (max_keycode e) (last_pointer e)
    (invariant_failed e) (captured_keys e) (synthesized_modifiers e) v
    (sent_press_ledger e) (keyboard_effect_emitted e).
Definition set_sent_press_ledger v e :=
  mk (world e) (state e) (button_mapping e) (min_keycode e) (max_keycode e) (last_pointer e)
    (invariant_failed e) (captured_keys e) (synthesized_modifiers e) (pending_keyboard_restore e)
    v (keyboard_effect_emitted e).
Definition set_keyboard_effect_emitted v e :=
  mk (world e) (state e) (button_mapping e) (min_keycode e) (max_keycode e) (last_pointer e)
    (invariant_failed e) (captured_keys e) (synthesized_modifiers e) (pending_keyboard_restore e)
    (sent_press_ledger e) v.

(** [conservative_cleanup_actions]: owned buttons, then other sent buttons, then plain
    keys, then modifiers. *)
Definition releases_button (button : PhysicalButton) (action : CleanupAction) : bool :=
  match action with
  | ReleaseButton existing => bool_decide (existing = button)
  | ReleaseKey _ _ => false
  end.
Definition releases_key (key : PhysicalKey) (action : CleanupAction) : bool :=
  match action with
  | ReleaseButton _ => false
  | ReleaseKey existing _ => bool_decide (existing = key)
  end.
Definition is_button_release (action : CleanupAction) : bool :=
  match action with
  | ReleaseButton _ => true
  | ReleaseKey _ _ => false
  end.
Definition is_key_release (modifier : bool) (action : CleanupAction) : bool :=
  match action with
  | ReleaseButton _ => false
  | ReleaseKey _ value => Bool.eqb value modifier
  end.

Definition push_sent_button (ledger : SentPressLedger.t) (actions : list CleanupAction) (detail : N) :
    list CleanupAction :=
  if negb (bit_is_set (SentPressLedger.buttons ledger) detail) then actions
  else
    match new_button detail with
    | Err _ => actions
    | Ok button =>
        if existsb (releases_button button) actions then actions
        else actions ++ [ReleaseButton button]
    end.

Definition push_sent_key (ledger : SentPressLedger.t) (modifier : bool)
    (actions : list CleanupAction) (detail : N) : list CleanupAction :=
  if negb (bit_is_set (SentPressLedger.keys ledger) detail) ||
     negb (Bool.eqb (bit_is_set (SentPressLedger.modifier_keys ledger) detail) modifier)
  then actions
  else
    match new_key detail with
    | Err _ => actions
    | Ok key =>
        if existsb (releases_key key) actions then actions
        else actions ++ [ReleaseKey key modifier]
    end.

Definition push_keys (owned : list CleanupAction) (ledger : SentPressLedger.t)
    (actions : list CleanupAction) (modifier : bool) : list CleanupAction :=
  fold_left (push_sent_key ledger modifier) (rev (details_from 8))
    (actions ++ List.filter (is_key_release modifier) owned).

Definition conservative_cleanup_actions (e : t) : list CleanupAction :=
  let owned := plan_cleanup (state e) in
  let ledger := sent_press_ledger e in
  let actions := fold_left (push_sent_button ledger) (rev (details_from 1))
                   (List.filter is_button_release owned) in
  push_keys owned ledger (push_keys owned ledger actions false) true.

End Engine.
Arguments t : clear implicits.
End InputEngine.

(** ** Effects of a method of the engine *)

(** [match m { Ok(..) => .., Err(..) => .. }] on a method's result. *)
Definition attempt {S E F A} (m : M S E A) : M S F (result A E) :=
  fun s => let '(s', r) := m s in (s', Ok r).

(** [m.map_err(f)?]. *)
Definition map_failure {S E F A} (f : E -> F) (m : M S E A) : M S F A :=
  fun s => let '(s', r) := m s in (s', map_err f r).

(** A loop that may [return]: [Break] is the returned value. *)
Inductive ControlFlow A := Continue (a : A) | Break (a : A).
Arguments Continue {A} a.
Arguments Break {A} a.

Fixpoint for_control {S E X A} (body : X -> A -> M S E (ControlFlow A)) (l : list X) (acc : A) :
    M S E (ControlFlow A) :=
  match l with
  | [] => ret (Continue acc)
  | x :: l =>
      flow <- body x acc ;;
      match flow with
      | Continue acc => for_control body l acc
      | Break acc => ret (Break acc)
      end
  end.

(** [PlannedEvent]. *)
Module PlannedEvent.
Record t := mk { backend : BackendEvent.t; effect : StateEffect.t }.
End PlannedEvent.

(** [motion_sample_events]. *)
Definition motion_sample_events (samples : list MotionSample.t) : list PlannedEvent.t :=
  map (fun sample =>
      PlannedEvent.mk (BackendEvent.Motion (MotionSample.point sample) (MotionSample.delay_ms sample))
        (StateEffect.Motion (MotionSample.point sample))) samples.

(** [button_event], [button_pair]. *)
Definition button_event (button : PhysicalButton) (pressed : bool) (delay_ms : N)
    (allow_redundant : bool) : PlannedEvent.t :=
  PlannedEvent.mk (BackendEvent.Button button pressed delay_ms)
    (if pressed then StateEffect.ButtonPress button allow_redundant
     else StateEffect.ButtonRelease button allow_redundant).

Definition button_pair (button : PhysicalButton) (press_delay release_delay : N) :
    list PlannedEvent.t :=
  [button_event button true press_delay false; button_event button false release_delay false].

(** [key_planned_event]. *)
Definition key_planned_event (key : PhysicalKey) (pressed : bool) (delay_ms : N) (modifier : bool) :
    PlannedEvent.t :=
  PlannedEvent.mk (BackendEvent.Key key pressed delay_ms)
    (if pressed then StateEffect.KeyPress key modifier else StateEffect.KeyRelease key).

(** [BatchSuccess], [BatchFailureKind], [BatchFailure]. *)
Module BatchSuccess.
Record t := mk {
  attempted : N;
  sent : N;
  observation : PointerObservation.t;
  mapping_changed : bool
}.
End BatchSuccess.

Module BatchFailure.
Inductive Kind := Connection | CheckedRequest | Barrier | MappingChanged | State.

Record t := mk {
  kind : Kind;
  attempted : N;
  sent : N;
  observation : option PointerObservation.t
}.

(** [BatchFailure::public_kind]. *)
Definition public_kind (self : t) : InputFailureKind.t :=
  match kind self with
  | Connection => InputFailureKind.BackendUnavailable
  | CheckedRequest => InputFailureKind.CheckedRequestFailed
  | Barrier => InputFailureKind.BarrierFailed
  | MappingChanged => InputFailureKind.ButtonMappingChangedAfterEffect
  | State => InputFailureKind.ActorPanicked
  end.
End BatchFailure.

(** [apply_effect]. *)
Definition apply_effect (effect : StateEffect.t) : M InputState.t InputStateError unit :=
  match effect with
  | StateEffect.Motion point => InputState.submit_pointer_motion point
  | StateEffect.ButtonPress button allow_redundant =>
      InputState.submit_button_press button allow_redundant
  | StateEffect.ButtonRelease button allow_redundant =>
      InputState.submit_button_release button allow_redundant
  | StateEffect.KeyRelease key => InputState.submit_key_release key
  | StateEffect.KeyPress key modifier => InputState.submit_key_press key modifier
  | StateEffect.UntrackedRelease => ret tt
  end.

Definition is_untracked (effect : StateEffect.t) : bool :=
  match effect with
  | StateEffect.UntrackedRelease => true
  | _ => false
  end.

(** [apply_batch_uncertainty]; the calls' results are ignored. *)
Definition apply_batch_uncertainty (kind : BatchFailure.Kind) (recorded : N) (state : InputState.t) :
    InputState.t :=
  match kind with
  | BatchFailure.State => ignore (InputState.transition_health ActorPanicked) state
  | BatchFailure.Connection => ignore (InputState.transition_health ConnectionLost) state
  | _ =>
      let reason :=
        match kind with
        | BatchFailure.Barrier => BarrierFailed
        | BatchFailure.MappingChanged => PostconditionFailed
        | _ => CheckedRequestFailed
        end in
      if decide (0 < recorded) then ignore (InputState.fail_batch reason) state
      else ignore (InputState.transition_health (RequireReset reason)) state
  end.

(** [backend_public_kind]. *)
Definition backend_public_kind (fault : BackendFault.t) : InputFailureKind.t :=
  if BackendFault.is_connection fault then InputFailureKind.BackendUnavailable
  else InputFailureKind.CheckedRequestFailed.

(** [input_precondition_failure_kind]. *)
Definition input_precondition_failure_kind (failure : InputPreconditionFailure) : InputFailureKind.t :=
  match failure with
  | TargetStaleNow => InputFailureKind.TargetStale
  | FocusLostNow => InputFailureKind.FocusLost
  | EvidenceUnavailable => InputFailureKind.PreconditionUnavailable
  end.

(** [BoundaryStop], [ActionContext]. *)
Inductive BoundaryStop := Cancelled | Deadline.

Module ActionContext.
Record t := mk { command_id : CommandId; deadline : option N }.
End ActionContext.

Section EngineMethods.
Context {W : Type} `{!InputBackend W, !ActorKeyboardModel W, !Surroundings W}.

#[local] Abbreviation Engine := (InputEngine.t W BindingToken).

(** A call of the outside; a fallible one yields its result as a value. *)
Definition outside {E A} (f : W -> W * A) : M Engine E A :=
  fun e => let '(w, a) := f (InputEngine.world e) in (InputEngine.set_world w e, Ok a).

(** A call of the [InputState]; its result as a value. *)
Definition on_state {E F A} (m : M InputState.t F A) : M Engine E (result A F) :=
  fun e => let '(s, r) := m (InputEngine.state e) in (InputEngine.set_state s e, Ok r).

(** A mutation of the [InputState] whose result is ignored. *)
Definition update_state {E} (f : InputState.t -> InputState.t) : M Engine E unit :=
  modify (fun e => InputEngine.set_state (f (InputEngine.state e)) e).

Definition update_ledger {E} (f : SentPressLedger.t -> SentPressLedger.t) : M Engine E unit :=
  modify (fun e => InputEngine.set_sent_press_ledger (f (InputEngine.sent_press_ledger e)) e).

(** [let _ignored = self.state.transition_health(event);]. *)
Definition transition_ignored {E} (event : HealthEvent) : M Engine E unit :=
  update_state (ignore (InputState.transition_health event)).

(** [mark_panicked], [actor_panicked]. *)
Definition mark_panicked {E} : M Engine E unit :=
  modify (InputEngine.set_invariant_failed true) ;;;
  transition_ignored ActorPanicked.

Definition actor_panicked (e : Engine) : bool :=
  InputEngine.invariant_failed e ||
  bool_decide (InputState.health (InputEngine.state e) = Poisoned PoisonActorPanicked).

(** [apply_backend_fault]. *)
Definition apply_backend_fault {E} (fault : BackendFault.t) : M Engine E unit :=
  if BackendFault.is_connection fault then transition_ignored ConnectionLost
  else transition_ignored (RequireReset CheckedRequestFailed).

(** An observation that failed is a barrier that failed, or a lost connection: the
    failure kind to report. *)
Definition barrier_fault {E} (fault : BackendFault.t) : M Engine E InputFailureKind.t :=
  if BackendFault.is_connection fault then
    apply_backend_fault fault ;;;
    ret InputFailureKind.BackendUnavailable
  else
    transition_ignored (RequireReset BarrierFailed) ;;;
    ret InputFailureKind.BarrierFailed.

(** [deadline_elapsed], [boundary_stop], [deadline_stop]. *)
Definition deadline_elapsed {E} (deadline : option N) : M Engine E bool :=
  match deadline with
  | None => ret false
  | Some deadline =>
      now <- outside instant_now ;;
      ret (deadline <=? now)
  end.

Definition boundary_stop {E} (cancellation : N) (deadline : option N) :
    M Engine E (option BoundaryStop) :=
  cancelled <- outside (is_cancelled cancellation) ;;
  if (cancelled : bool) then ret (Some Cancelled)
  else
    elapsed <- deadline_elapsed deadline ;;
    ret (if (elapsed : bool) then Some Deadline else None).

Definition deadline_stop {E} (deadline : option N) : M Engine E (option BoundaryStop) :=
  elapsed <- deadline_elapsed deadline ;;
  ret (if (elapsed : bool) then Some Deadline else None).

(** [apply_drained_mapping], [drain_events]. *)
Definition apply_drained_mapping {E} (drained : DrainedEvents.t) : M Engine E unit :=
  match DrainedEvents.pointer_mapping drained with
  | Some updated => modify (InputEngine.set_button_mapping updated)
  | None => ret tt
  end.

Definition drain {E} : M Engine E (result unit BackendFault.t) :=
  drained <- outside drain_events ;;
  match drained with
  | Ok drained => apply_drained_mapping drained ;;; ret (Ok tt)
  | Err fault => ret (Err fault)
  end.

(** [last_pointer = Some(observation.pointer)]. *)
Definition record_pointer {E} (observation : PointerObservation.t) : M Engine E unit :=
  modify (InputEngine.set_last_pointer (Some (PointerObservation.pointer observation))).

Definition reconcile_buttons {E} (observation : PointerObservation.t) : M Engine E unit :=
  modify (fun e => InputEngine.set_sent_press_ledger
    (SentPressLedger.reconcile_buttons (InputEngine.button_mapping e)
       (PointerObservation.logical_buttons_1_to_5 observation) (InputEngine.sent_press_ledger e)) e).

Definition reconcile_keys {E} (pressed : list PhysicalKey) : M Engine E unit :=
  update_ledger (SentPressLedger.reconcile_keys pressed).

(** ** Batches *)

(** The local variables of [run_batch] after its first loop. *)
Record Sending := mkSending {
  cookies : list Cookie;
  attempted : N;
  sent : N;
  recorded : N;
  send_failure : option BackendFault.t;
  state_failure : bool
}.

(** The first loop of [run_batch]: send every event, stopping at the first failure. *)
Fixpoint send_events {E} (events : list PlannedEvent.t) (run : Sending) : M Engine E Sending :=
  match events with
  | [] => ret run
  | event :: events =>
      let attempted := saturating_add_usize (attempted run) 1 in
      update_ledger (SentPressLedger.note (PlannedEvent.backend event) (PlannedEvent.effect event)) ;;;
      reply <- outside (send_event (PlannedEvent.backend event)) ;;
      match reply with
      | Ok cookie =>
          let cookies := cookies run ++ [cookie] in
          let sent := saturating_add_usize (sent run) 1 in
          let tracked_effect := negb (is_untracked (PlannedEvent.effect event)) in
          applied <- on_state (apply_effect (PlannedEvent.effect event)) ;;
          match applied with
          | Err _ => ret (mkSending cookies attempted sent (recorded run) None true)
          | Ok _ =>
              send_events events
                (mkSending cookies attempted sent
                   (if tracked_effect then saturating_add_usize (recorded run) 1 else recorded run)
                   None false)
          end
      | Err fault =>
          ret (mkSending (cookies run) attempted (sent run) (recorded run) (Some fault) false)
      end
  end.

(** The second loop: check every cookie, and keep the first fault, or the last connection
    fault. *)
Fixpoint check_cookies {E} (cookies : list Cookie) (check_failure : option BackendFault.t) :
    M Engine E (option BackendFault.t) :=
  match cookies with
  | [] => ret check_failure
  | cookie :: cookies =>
      checked <- outside (check_cookie cookie) ;;
      check_cookies cookies
        (match checked with
         | Ok _ => check_failure
         | Err fault =>
             match check_failure with
             | Some current =>
                 if negb (BackendFault.is_connection current) || BackendFault.is_connection fault
                 then Some fault
                 else check_failure
             | None => Some fault
             end
         end)
  end.

Definition connection_fault (fault : option BackendFault.t) : bool :=
  match fault with
  | Some fault => BackendFault.is_connection fault
  | None => false
  end.

(** The exits of [run_batch] with a failure. *)
Definition fail_with (kind : BatchFailure.Kind) (run : Sending)
    (observation : option PointerObservation.t) : M Engine BatchFailure.t BatchSuccess.t :=
  update_state (apply_batch_uncertainty kind (recorded run)) ;;;
  fail (BatchFailure.mk kind (attempted run) (sent run) observation).

(** The last loop of [run_batch]: the releases are no longer sent presses. *)
Definition clear_released (events : list PlannedEvent.t) (ledger : SentPressLedger.t) :
    SentPressLedger.t :=
  fold_left (fun ledger event =>
      match PlannedEvent.backend event with
      | BackendEvent.Button button false _ => SentPressLedger.clear_button button ledger
      | _ => ledger
      end) events ledger.

(** [run_batch] after the checks of the cookies. *)
Definition finish_batch (events : list PlannedEvent.t) (mapping_sensitive confirm_now : bool)
    (run : Sending) : M Engine BatchFailure.t BatchSuccess.t :=
  observed <- outside observe_pointer ;;
  match observed with
  | Err fault =>
      fail_with (if BackendFault.is_connection fault then BatchFailure.Connection
                 else BatchFailure.Barrier) run None
  | Ok observation =>
      record_pointer observation ;;;
      reconcile_buttons observation ;;;
      drained <- outside drain_events ;;
      match drained with
      | Err fault =>
          fail_with (if BackendFault.is_connection fault then BatchFailure.Connection
                     else BatchFailure.CheckedRequest) run (Some observation)
      | Ok drained =>
          let pointer_mapping_changed := InputCleanupEvidence.is_some (DrainedEvents.pointer_mapping drained) in
          apply_drained_mapping drained ;;;
          if mapping_sensitive && pointer_mapping_changed then
            fail_with BatchFailure.MappingChanged run (Some observation)
          else
            confirmed <- (if confirm_now && bool_decide (0 < recorded run)
                          then on_state InputState.confirm_batch else ret (Ok tt)) ;;
            match confirmed with
            | Err _ => fail_with BatchFailure.State run (Some observation)
            | Ok _ =>
                update_ledger (clear_released events) ;;;
                ret (BatchSuccess.mk (attempted run) (sent run) observation pointer_mapping_changed)
            end
      end
  end.

(** [run_batch]. *)
Definition run_batch (events : list PlannedEvent.t) (mapping_sensitive confirm_now : bool) :
    M Engine BatchFailure.t BatchSuccess.t :=
  run <- send_events events (mkSending [] 0 0 0 None false) ;;
  check_failure <- check_cookies (cookies run) None ;;
  let connection_failure := connection_fault (send_failure run) || connection_fault check_failure in
  let any_backend_failure :=
    InputCleanupEvidence.is_some (send_failure run) || InputCleanupEvidence.is_some check_failure in
  if state_failure run || any_backend_failure then
    fail_with
      (if state_failure run then BatchFailure.State
       else if connection_failure then BatchFailure.Connection
       else BatchFailure.CheckedRequest) run None
  else finish_batch events mapping_sensitive confirm_now run.

(** [snapshot], [keyboard_diagnostics], [publish_health]'s value. *)
Definition keyboard_diagnostics (redact_scalar : bool) (e : Engine) : KeyboardModelDiagnostics.t :=
  let model := diagnostics (InputEngine.world e) in
  if redact_scalar || InputCleanupEvidence.is_some (InputEngine.pending_keyboard_restore e)
  then KeyboardModelDiagnostics.without_fingerprint model
  else model.

Definition snapshot (thread : ActorThreadState) (e : Engine) : InputHealthSnapshot.t :=
  InputHealthSnapshot.mk (InputState.health (InputEngine.state e)) thread
    (Some (InputEngine.button_mapping e)) (InputEngine.min_keycode e) (InputEngine.max_keycode e)
    (keyboard_diagnostics false e).

(** [new_with_keyboard]: the rounds of startup synchronization. *)
Fixpoint synchronize_startup (rounds : nat) (stable_generation : option N) (w : W) :
    W * result bool BackendFault.t :=
  match rounds with
  | O => (w, Ok false)
  | S rounds =>
      match synchronize_preflight w with
      | (w, Ok preflight) =>
          if decide (stable_generation = Some (ModelPreflight.generation preflight))
          then (w, Ok true)
          else synchronize_startup rounds (Some (ModelPreflight.generation preflight)) w
      | (w, Err fault) =>
          if decide (KeyboardModelFault.kind fault = KeyboardModelFault.Unavailable)
          then (w, Ok true)
          else (w, Err (BackendFault.mk
            (if KeyboardModelFault.is_connection fault then BackendFault.Connection
             else BackendFault.Capability)))
      end
  end.

Definition new_with_keyboard (w : W) : W * result Engine BackendFault.t :=
  match startup w with
  | (w, Err fault) => (w, Err fault)
  | (w, Ok started) =>
      match synchronize_startup 8 None w with
      | (w, Err fault) => (w, Err fault)
      | (w, Ok false) => (w, Err (BackendFault.mk BackendFault.Capability))
      | (w, Ok true) =>
          (w, Ok (InputEngine.mk w InputState.new (BackendStartup.button_mapping started)
                    (BackendStartup.min_keycode started) (BackendStartup.max_keycode started)
                    None false [] [] None SentPressLedger.default false))
      end
  end.

End EngineMethods.
Arguments Sending : clear implicits.
Arguments Sending W {_}.
