(* ===== verification/EnginePointer.v ===== *)
(** * The input engine: pointer actions

    Models [run_action] of [xenoteer-x11/src/input/execute.rs] with its helpers: moves,
    clicks, drags, scrolls and single buttons as sequences of checked batches, their
    safe boundaries and postconditions, and the revalidation of a window click. *)

From stdpp Require Import base numbers list option.
From Stdlib Require Import Lia.
From S2P Require Import Prelude Identity Geometry Motion Keys OwnedInput Actions.
From S2P Require Import WindowTypes WindowPlacement NamedKeys InputBackend InputOutcome Engine.

Local Open Scope N_scope.

(** [XTEST_RELEASE_SETTLE_DELAY], in milliseconds. *)
Definition XTEST_RELEASE_SETTLE_DELAY : N := 25.

(** [ActionError]. *)
Module ActionError.
Record t := mk {
  kind : InputFailureKind.t;
  events_emitted : N;
  completed_units : N;
  requested_pointer : option RootPoint;
  last_observed_pointer : option RootPoint;
  observed_buttons : option (list bool);
  button_observation_partial : bool;
  progress_known : bool
}.
End ActionError.

(** [ActionProgress]. *)
Module ActionProgress.
Record t := mk {
  events_emitted : N;
  completed_units : N;
  requested_pointer : option RootPoint;
  observed_pointer : option RootPoint;
  observed_buttons : option (list bool);
  button_observation_partial : bool;
  stopped : option BoundaryStop
}.

Definition default : t := mk 0 0 None None None false None.

Definition set_events_emitted v p :=
  mk v (completed_units p) (requested_pointer p) (observed_pointer p) (observed_buttons p)
    (button_observation_partial p) (stopped p).
Definition set_completed_units v p :=
  mk (events_emitted p) v (requested_pointer p) (observed_pointer p) (observed_buttons p)
    (button_observation_partial p) (stopped p).
Definition set_requested_pointer v p :=
  mk (events_emitted p) (completed_units p) v (observed_pointer p) (observed_buttons p)
    (button_observation_partial p) (stopped p).
Definition set_button_observation_partial v p :=
  mk (events_emitted p) (completed_units p) (requested_pointer p) (observed_pointer p)
    (observed_buttons p) v (stopped p).
Definition set_stopped v p :=
  mk (events_emitted p) (completed_units p) (requested_pointer p) (observed_pointer p)
    (observed_buttons p) (button_observation_partial p) v.

(** [observed_pointer = Some(..); observed_buttons = Some(..);]. *)
Definition observe (observation : PointerObservation.t) p :=
  mk (events_emitted p) (completed_units p) (requested_pointer p)
    (Some (PointerObservation.pointer observation))
    (Some (PointerObservation.logical_buttons_1_to_5 observation))
    (button_observation_partial p) (stopped p).

(** [completed_units.saturating_add(1)]. *)
Definition complete_unit p := set_completed_units (saturating_add_u16 (completed_units p) 1) p.

(** [ActionProgress::error]. *)
Definition error (p : t) (kind : InputFailureKind.t) : ActionError.t :=
  ActionError.mk kind (events_emitted p) (completed_units p) (requested_pointer p)
    (observed_pointer p) (observed_buttons p) (button_observation_partial p)
    (bool_decide (kind <> InputFailureKind.ActorPanicked)).
End ActionProgress.

(** [absorb_batch_success], [absorb_batch_failure]. *)
Definition absorb_batch_success (progress : ActionProgress.t) (batch : BatchSuccess.t) :
    ActionProgress.t :=
  ActionProgress.observe (BatchSuccess.observation batch)
    (ActionProgress.set_events_emitted
       (saturating_add_usize (ActionProgress.events_emitted progress) (BatchSuccess.sent batch))
       progress).

Definition absorb_batch_failure (progress : ActionProgress.t) (failure : BatchFailure.t) :
    ActionError.t :=
  let progress :=
    ActionProgress.set_events_emitted
      (saturating_add_usize (ActionProgress.events_emitted progress) (BatchFailure.sent failure))
      progress in
  let progress :=
    match BatchFailure.observation failure with
    | Some observation => ActionProgress.observe observation progress
    | None => progress
    end in
  let progress :=
    match BatchFailure.kind failure with
    | BatchFailure.MappingChanged => ActionProgress.set_button_observation_partial true progress
    | _ => progress
    end in
  ActionProgress.error progress (BatchFailure.public_kind failure).

(** [progress.events_emitted += batch.sent] and the batch's observation. *)
Definition count_batch (progress : ActionProgress.t) (batch : BatchSuccess.t) : ActionProgress.t :=
  ActionProgress.observe (BatchSuccess.observation batch)
    (ActionProgress.set_events_emitted
       (ActionProgress.events_emitted progress + BatchSuccess.sent batch) progress).

(** [logical_button_released], [logical_button_pressed]. *)
Definition logical_button_released (logical : LogicalButton) (observed : list bool) : bool :=
  (5 <? number logical) || negb (PointerObservation.is_down observed (number logical)).
Definition logical_button_pressed (logical : LogicalButton) (observed : list bool) : bool :=
  (5 <? number logical) || PointerObservation.is_down observed (number logical).

(** [WindowPointerBoundsPolicy], [WindowPointerClickRequest] of [command.rs]. *)
Inductive WindowPointerBoundsPolicy := BoundsReject | BoundsClamp | BoundsAllow.

Module WindowPointerClickRequest.
Record t := mk {
  window : N;
  coordinate_space : CoordinateSpace;
  point : Point.t;
  bounds_policy : WindowPointerBoundsPolicy;
  options : MotionOptions.t;
  button : LogicalButton;
  count : N;
  pre_click_dwell_ms : N;
  press_duration_ms : N;
  inter_click_interval_ms : N;
  expected_root_target : option RootPoint
}.
End WindowPointerClickRequest.

(** [WindowClickRevalidation]. *)
Module WindowClickRevalidation.
Record t {W : Type} := mk {
  request : WindowPointerClickRequest.t;
  expected_target : RootPoint;
  precondition : option (InputPrecondition W)
}.
Arguments t : clear implicits.
Arguments mk {_} _ _ _.
End WindowClickRevalidation.

Section PointerMethods.
Context {W : Type} `{!InputBackend W, !ActorKeyboardModel W, !Surroundings W}.

#[local] Abbreviation Engine := (InputEngine.t W BindingToken).
#[local] Abbreviation Step := (M Engine ActionError.t (ControlFlow ActionProgress.t)).

(** [if let Some(stopped) = boundary_stop(..) { progress.stopped = Some(stopped);
    return Ok(progress); }], then the rest. *)
Definition stop_at_boundary (cancellation : N) (deadline : option N) (progress : ActionProgress.t)
    (rest : Step) : Step :=
  stopped <- boundary_stop cancellation deadline ;;
  match stopped with
  | Some stopped => ret (Break (ActionProgress.set_stopped (Some stopped) progress))
  | None => rest
  end.

(** [drain_for_action]. *)
Definition drain_for_action (progress : ActionProgress.t) : M Engine ActionError.t unit :=
  drained <- drain ;;
  match drained with
  | Ok _ => ret tt
  | Err fault =>
      apply_backend_fault fault ;;;
      fail (ActionProgress.error progress (backend_public_kind fault))
  end.

(** [resolve_button]. *)
Definition resolve_button (progress : ActionProgress.t) (logical : LogicalButton) :
    M Engine ActionError.t PhysicalButton :=
  self <- get ;;
  lift (map_err (fun _ => ActionProgress.error progress InputFailureKind.UnsupportedByBackend)
          (ButtonMapping.physical_for (InputEngine.button_mapping self) logical)).

(** [require_observed_start]. *)
Definition require_observed_start (plan : MotionPlan.t) (progress : ActionProgress.t) :
    M Engine ActionError.t ActionProgress.t :=
  observed <- outside observe_pointer ;;
  match observed with
  | Err fault =>
      kind <- barrier_fault fault ;;
      fail (ActionProgress.error progress kind)
  | Ok observation =>
      record_pointer observation ;;;
      let progress := ActionProgress.observe observation progress in
      if decide (PointerObservation.pointer observation <> MotionPlan.start plan)
      then fail (ActionProgress.error progress InputFailureKind.PostconditionFailed)
      else ret progress
  end.

(** [confirm_observed_batch]. *)
Definition confirm_observed_batch (progress : ActionProgress.t) : M Engine ActionError.t unit :=
  confirmed <- on_state InputState.confirm_batch ;;
  match confirmed with
  | Err _ =>
      mark_panicked ;;;
      fail (ActionProgress.error progress InputFailureKind.ActorPanicked)
  | Ok _ => ret tt
  end.

(** [return Err(self.fail_observed_batch(&progress))]. *)
Definition fail_observed_batch {A} (progress : ActionProgress.t) : M Engine ActionError.t A :=
  failed <- on_state (InputState.fail_batch PostconditionFailed) ;;
  match failed with
  | Err _ =>
      mark_panicked ;;;
      fail (ActionProgress.error progress InputFailureKind.ActorPanicked)
  | Ok _ => fail (ActionProgress.error progress InputFailureKind.PostconditionFailed)
  end.

(** [confirm_delayed_button_release]. *)
Definition confirm_delayed_button_release (logical_button : LogicalButton) (release_delay_ms : N)
    (progress : ActionProgress.t) : M Engine ActionError.t ActionProgress.t :=
  if match ActionProgress.observed_buttons progress with
     | Some buttons => logical_button_released logical_button buttons
     | None => false
     end
  then ret progress
  else
    let settle_delay := N.max release_delay_ms XTEST_RELEASE_SETTLE_DELAY in
    outside (fun w => (wait_for_input_delay settle_delay w, tt)) ;;;
    observed <- outside observe_pointer ;;
    match observed with
    | Err fault =>
        kind <- barrier_fault fault ;;
        fail (ActionProgress.error progress kind)
    | Ok observation =>
        record_pointer observation ;;;
        reconcile_buttons observation ;;;
        let progress := ActionProgress.observe observation progress in
        if logical_button_released logical_button
             (PointerObservation.logical_buttons_1_to_5 observation)
        then ret progress
        else fail_observed_batch progress
    end.

(** [run_batch(..).map_err(|error| absorb_batch_failure(&mut progress, &error))?]. *)
Definition batch_for (progress : ActionProgress.t) (events : list PlannedEvent.t)
    (mapping_sensitive confirm_now : bool) : M Engine ActionError.t BatchSuccess.t :=
  map_failure (absorb_batch_failure progress) (run_batch events mapping_sensitive confirm_now).

(** [self.state.pressed_buttons().contains(&button)] rejects the action. *)
Definition reject_pressed (progress : ActionProgress.t) (button : PhysicalButton) :
    M Engine ActionError.t unit :=
  self <- get ;;
  reject_if (button ∈ InputState.pressed_buttons (InputEngine.state self))
    (ActionProgress.error progress InputFailureKind.StateRejected).

Definition mark_partial (logical : LogicalButton) (progress : ActionProgress.t) : ActionProgress.t :=
  ActionProgress.set_button_observation_partial (5 <? number logical) progress.

(** ** Window clicks *)

(** [resolve_window_click_target]; the error is the public kind. *)
Definition resolve_window_click_target (request : WindowPointerClickRequest.t) :
    M Engine InputFailureKind.t RootPoint :=
  observed <- outside (observe_window_geometry (WindowPointerClickRequest.window request)) ;;
  match observed with
  | Err fault =>
      apply_backend_fault fault ;;;
      fail (backend_public_kind fault)
  | Ok geometry =>
      selected <- lift (
        match WindowPointerClickRequest.coordinate_space request with
        | WindowClient => Ok (WindowGeometry.client_rect (Placement.window geometry))
        | WindowFrame =>
            ok_or (WindowGeometry.frame_rect (Placement.window geometry))
              InputFailureKind.UnsupportedByBackend
        | RootPhysical | AtspiScreen => Err InputFailureKind.StateRejected
        end) ;;
      size <- lift (map_err (fun _ => InputFailureKind.StateRejected)
                      (Rect.size (WindowRect.rect selected))) ;;
      let requested := WindowPointerClickRequest.point request in
      let inside :=
        bool_decide (0 <= Point.x requested)%Z && bool_decide (0 <= Point.y requested)%Z &&
        bool_decide (Point.x requested < Size.width size)%Z &&
        bool_decide (Point.y requested < Size.height size)%Z in
      local <- lift (
        match WindowPointerClickRequest.bounds_policy request with
        | BoundsReject => if inside then Ok requested else Err InputFailureKind.StateRejected
        | BoundsClamp =>
            Ok (Point.mk
              (ScreenRect.clamp_to (Point.x requested) 0
                 (default (2 ^ 31 - 1)%Z (i32_try_from (Size.width size - 1))))
              (ScreenRect.clamp_to (Point.y requested) 0
                 (default (2 ^ 31 - 1)%Z (i32_try_from (Size.height size - 1)))))
        | BoundsAllow => Ok requested
        end) ;;
      resolved <- lift (map_err (fun error =>
          match error with
          | FrameUnavailable | UnsupportedCoordinateSpace =>
              InputFailureKind.UnsupportedByBackend
          | _ => InputFailureKind.StateRejected
          end)
        (Placement.resolve_local_point geometry
           (WindowPointerClickRequest.coordinate_space request) local AllowOffscreen)) ;;
      target <- lift (map_err (fun _ => InputFailureKind.StateRejected)
                        (RootPoint.try_from_protocol (root_point resolved))) ;;
      match WindowPointerClickRequest.expected_root_target request with
      | Some expected =>
          reject_if (expected <> target) InputFailureKind.PostconditionFailed ;;;
          ret target
      | None => ret target
      end
  end.

(** [InputPrecondition::evaluate], where one is given. *)
Definition evaluate_precondition {E} (precondition : option (InputPrecondition W))
    (conv : InputFailureKind.t -> E) : M Engine E unit :=
  match precondition with
  | None => ret tt
  | Some check =>
      evaluated <- outside check ;;
      lift (map_err (fun failure => conv (input_precondition_failure_kind failure)) evaluated)
  end.

(** [revalidate_window_click]. *)
Definition revalidate_window_click (staged : WindowClickRevalidation.t W)
    (progress : ActionProgress.t) : M Engine ActionError.t ActionProgress.t :=
  live_target <- map_failure (ActionProgress.error progress)
                   (resolve_window_click_target (WindowClickRevalidation.request staged)) ;;
  reject_if (live_target <> WindowClickRevalidation.expected_target staged)
    (ActionProgress.error progress InputFailureKind.PostconditionFailed) ;;;
  observed <- outside observe_pointer ;;
  match observed with
  | Err fault =>
      apply_backend_fault fault ;;;
      fail (ActionProgress.error progress (backend_public_kind fault))
  | Ok observation =>
      record_pointer observation ;;;
      let progress := ActionProgress.observe observation progress in
      reject_if (PointerObservation.pointer observation <> live_target)
        (ActionProgress.error progress InputFailureKind.PostconditionFailed) ;;;
      evaluate_precondition (WindowClickRevalidation.precondition staged)
        (ActionProgress.error progress) ;;;
      ret progress
  end.

(** [run_window_click_dwell]. *)
Definition run_window_click_dwell {E} (dwell_ms : N) : M Engine E unit :=
  if decide (0 < dwell_ms) then outside (fun w => (wait_for_input_delay dwell_ms w, tt)) else ret tt.

(** ** The actions *)
Section Run.
Context (cancellation : N) (deadline : option N).

(** The loop over the segments of a move; [index] counts them. *)
Definition move_segment (segment_count : N) (segment : N * list MotionSample.t)
    (progress : ActionProgress.t) : Step :=
  let '(index, samples) := segment in
  let run :=
    batch <- batch_for progress (motion_sample_events samples) false true ;;
    let progress := absorb_batch_success progress batch in
    elapsed <- deadline_elapsed deadline ;;
    if (elapsed : bool) then
      let progress :=
        if index + 1 =? segment_count then ActionProgress.set_completed_units 1 progress
        else progress in
      ret (Break (ActionProgress.set_stopped (Some Deadline) progress))
    else ret (Continue progress) in
  if decide (0 < index) then stop_at_boundary cancellation deadline progress run else run.

Definition run_move (action : MoveAction.t) : Step :=
  let plan := MoveAction.plan action in
  let progress := ActionProgress.set_requested_pointer (Some (MotionPlan.endpoint plan))
                    ActionProgress.default in
  progress <- require_observed_start plan progress ;;
  stop_at_boundary cancellation deadline progress (
    if decide (MotionPlan.event_count plan = 0) then
      observed <- outside observe_pointer ;;
      match observed with
      | Ok observation =>
          record_pointer observation ;;;
          ret (Break (ActionProgress.set_completed_units 1
                        (ActionProgress.observe observation progress)))
      | Err fault =>
          kind <- barrier_fault fault ;;
          fail (ActionProgress.error progress kind)
      end
    else
      let segments := MotionPlan.segments plan in
      flow <- for_control (move_segment (len segments)) (MotionPlanner.enumerate segments) progress ;;
      match flow with
      | Break progress => ret (Break progress)
      | Continue progress => ret (Break (ActionProgress.set_completed_units 1 progress))
      end).

(** The movement of a click. *)
Definition click_segment (segment : N * list MotionSample.t) (progress : ActionProgress.t) : Step :=
  let '(index, samples) := segment in
  let run :=
    batch <- batch_for progress (motion_sample_events samples) false true ;;
    let progress := absorb_batch_success progress batch in
    elapsed <- deadline_elapsed deadline ;;
    if (elapsed : bool) then ret (Break (ActionProgress.set_stopped (Some Deadline) progress))
    else ret (Continue progress) in
  if decide (0 < index) then stop_at_boundary cancellation deadline progress run else run.

Definition click_movement (movement : MotionPlan.t) (progress : ActionProgress.t) : Step :=
  progress <- require_observed_start movement progress ;;
  stop_at_boundary cancellation deadline progress (
    flow <- for_control click_segment (MotionPlanner.enumerate (MotionPlan.segments movement)) progress ;;
    match flow with
    | Break progress => ret (Break progress)
    | Continue progress =>
        reject_if (ActionProgress.observed_pointer progress <> Some (MotionPlan.endpoint movement))
          (ActionProgress.error progress InputFailureKind.PostconditionFailed) ;;;
        ret (Continue progress)
    end).

(** One press and release of a click, from the resolution of its button. *)
Definition press_once (action : ClickAction.t) (window_click : option (WindowClickRevalidation.t W))
    (click_index : N) (progress : ActionProgress.t) : Step :=
  button <- resolve_button progress (ClickAction.button action) ;;
  let progress := mark_partial (ClickAction.button action) progress in
  reject_pressed progress button ;;;
  let press (progress : ActionProgress.t) : Step :=
    let press_delay :=
      match window_click with
      | Some _ => 0
      | None =>
          if click_index =? 0 then ClickAction.pre_click_dwell_ms action
          else ClickAction.inter_click_interval_ms action
      end in
    batch <- batch_for progress
               (button_pair button press_delay (ClickAction.press_duration_ms action)) true false ;;
    let progress := count_batch progress batch in
    progress <- confirm_delayed_button_release (ClickAction.button action)
                  (ClickAction.press_duration_ms action) progress ;;
    confirm_observed_batch progress ;;;
    match ClickAction.movement action with
    | Some movement =>
        reject_if (PointerObservation.pointer (BatchSuccess.observation batch)
                   <> MotionPlan.endpoint movement)
          (ActionProgress.error progress InputFailureKind.PostconditionFailed)
    | None => ret tt
    end ;;;
    let progress :=
      ActionProgress.complete_unit (mark_partial (ClickAction.button action) progress) in
    elapsed <- deadline_elapsed deadline ;;
    if (elapsed : bool) then ret (Break (ActionProgress.set_stopped (Some Deadline) progress))
    else ret (Continue progress) in
  match window_click with
  | Some staged =>
      progress <- revalidate_window_click staged progress ;;
      stop_at_boundary cancellation deadline progress (press progress)
  | None => press progress
  end.

Definition click_once (action : ClickAction.t) (window_click : option (WindowClickRevalidation.t W))
    (click_index : N) (progress : ActionProgress.t) : Step :=
  stop_at_boundary cancellation deadline progress (
    drain_for_action progress ;;;
    stop_at_boundary cancellation deadline progress (
      match window_click with
      | Some _ =>
          run_window_click_dwell
            (if click_index =? 0 then ClickAction.pre_click_dwell_ms action
             else ClickAction.inter_click_interval_ms action) ;;;
          drain_for_action progress ;;;
          stop_at_boundary cancellation deadline progress
            (press_once action window_click click_index progress)
      | None => press_once action window_click click_index progress
      end)).

(** [0..count]. *)
Definition up_to (count : N) : list N := map N.of_nat (seq 0 (N.to_nat count)).

Definition run_click (action : ClickAction.t) (window_click : option (WindowClickRevalidation.t W)) :
    Step :=
  let progress :=
    ActionProgress.set_requested_pointer (MotionPlan.endpoint <$> ClickAction.movement action)
      ActionProgress.default in
  moved <- (match ClickAction.movement action with
            | Some movement => click_movement movement progress
            | None => ret (Continue progress)
            end : Step) ;;
  match moved with
  | Break progress => ret (Break progress)
  | Continue progress =>
      for_control (click_once action window_click) (up_to (ClickAction.count action)) progress
  end.

(** The traversal of a drag: [traversed_segments] is counted along. *)
Definition drag_segment (segment : list MotionSample.t) (acc : ActionProgress.t * N) :
    M Engine ActionError.t (ControlFlow (ActionProgress.t * N)) :=
  let '(progress, traversed_segments) := acc in
  stopped <- boundary_stop cancellation deadline ;;
  match stopped with
  | Some stopped =>
      ret (Break (ActionProgress.set_stopped (Some stopped) progress, traversed_segments))
  | None =>
      batch <- batch_for progress (motion_sample_events segment) true true ;;
      let progress := absorb_batch_success progress batch in
      let traversed_segments := traversed_segments + 1 in
      stopped <- boundary_stop cancellation deadline ;;
      match stopped with
      | Some stopped =>
          ret (Break (ActionProgress.set_stopped (Some stopped) progress, traversed_segments))
      | None => ret (Continue (progress, traversed_segments))
      end
  end.

(** The press of a drag, with a motion at the start that carries the dwell. *)
Definition drag_press (action : DragAction.t) (button : PhysicalButton)
    (progress : ActionProgress.t) : M Engine ActionError.t ActionProgress.t :=
  let start := MotionPlan.start (DragAction.movement action) in
  let press_and_dwell :=
    [button_event button true 0 false;
     PlannedEvent.mk (BackendEvent.Motion start (DragAction.press_dwell_ms action))
       (StateEffect.Motion start)] in
  batch <- batch_for progress press_and_dwell true false ;;
  let progress := absorb_batch_success progress batch in
  if logical_button_pressed (DragAction.button action)
       (PointerObservation.logical_buttons_1_to_5 (BatchSuccess.observation batch))
  then confirm_observed_batch progress ;;; ret progress
  else fail_observed_batch progress.

(** The release of a drag, after the traversal. *)
Definition drag_release (action : DragAction.t) (button : PhysicalButton) (traversed_segments : N)
    (progress : ActionProgress.t) : M Engine ActionError.t ActionProgress.t :=
  let traversed_all_segments :=
    traversed_segments =? len (MotionPlan.segments (DragAction.movement action)) in
  let release := [button_event button false (DragAction.release_dwell_ms action) false] in
  batch <- batch_for progress release true false ;;
  let progress := absorb_batch_success progress batch in
  progress <- confirm_delayed_button_release (DragAction.button action)
                (DragAction.release_dwell_ms action) progress ;;
  confirm_observed_batch progress ;;;
  reject_if (traversed_all_segments = true /\
             PointerObservation.pointer (BatchSuccess.observation batch)
             <> MotionPlan.endpoint (DragAction.movement action))
    (ActionProgress.error progress InputFailureKind.PostconditionFailed) ;;;
  ret (if traversed_all_segments then ActionProgress.set_completed_units 1 progress else progress).

Definition run_drag (action : DragAction.t) : Step :=
  let movement := DragAction.movement action in
  let progress := ActionProgress.set_requested_pointer (Some (MotionPlan.endpoint movement))
                    ActionProgress.default in
  progress <- require_observed_start movement progress ;;
  drain_for_action progress ;;;
  stop_at_boundary cancellation deadline progress (
    button <- resolve_button progress (DragAction.button action) ;;
    let progress := mark_partial (DragAction.button action) progress in
    reject_pressed progress button ;;;
    progress <- drag_press action button progress ;;
    stopped <- boundary_stop cancellation deadline ;;
    let progress := ActionProgress.set_stopped stopped progress in
    traversed <- (match stopped with
                  | Some _ => ret (Break (progress, 0))
                  | None => for_control drag_segment (MotionPlan.segments movement) (progress, 0)
                  end : M Engine ActionError.t (ControlFlow (ActionProgress.t * N))) ;;
    let '(progress, traversed_segments) :=
      match traversed with Continue acc | Break acc => acc end in
    progress <- drag_release action button traversed_segments progress ;;
    ret (Break progress)).

(** One notch of a scroll. *)
Definition scroll_notch (action : ScrollAction.t) (notch : N) (progress : ActionProgress.t) : Step :=
  let logical := ScrollAction.scroll_button action in
  stop_at_boundary cancellation deadline progress (
    drain_for_action progress ;;;
    stop_at_boundary cancellation deadline progress (
      button <- resolve_button progress logical ;;
      let progress := mark_partial logical progress in
      reject_pressed progress button ;;;
      let delay := if notch =? 0 then 0 else ScrollAction.interval_ms action in
      batch <- batch_for progress (button_pair button delay 0) true false ;;
      let progress := mark_partial logical (count_batch progress batch) in
      if logical_button_released logical
           (PointerObservation.logical_buttons_1_to_5 (BatchSuccess.observation batch))
      then
        confirm_observed_batch progress ;;;
        let progress := ActionProgress.complete_unit progress in
        elapsed <- deadline_elapsed deadline ;;
        if (elapsed : bool) then ret (Break (ActionProgress.set_stopped (Some Deadline) progress))
        else ret (Continue progress)
      else fail_observed_batch progress)).

Definition run_scroll (action : ScrollAction.t) : Step :=
  for_control (scroll_notch action) (up_to (ScrollAction.count action)) ActionProgress.default.

(** [!matches!(logical, Some(1..=5))]. *)
Definition unobservable (logical : option N) : bool :=
  match logical with
  | Some logical => negb (observable logical)
  | None => true
  end.

Definition is_down_direction (direction : ButtonDirection) : bool :=
  match direction with Down => true | Up => false end.

Definition run_button (button : PhysicalButton) (direction : ButtonDirection)
    (allow_redundant : bool) : Step :=
  stop_at_boundary cancellation deadline ActionProgress.default (
    self <- get ;;
    let logical_before := logical_for_physical (InputEngine.button_mapping self) button in
    let progress := ActionProgress.set_button_observation_partial (unobservable logical_before)
                      ActionProgress.default in
    batch <- batch_for progress
               [button_event button (is_down_direction direction) 0 allow_redundant] false false ;;
    let progress := ActionProgress.observe (BatchSuccess.observation batch)
                      (ActionProgress.set_events_emitted (BatchSuccess.sent batch) progress) in
    self <- get ;;
    let logical :=
      if BatchSuccess.mapping_changed batch then None
      else logical_for_physical (InputEngine.button_mapping self) button in
    let progress := ActionProgress.set_button_observation_partial (unobservable logical) progress in
    let missed :=
      match logical with
      | Some logical =>
          observable logical &&
          negb (Bool.eqb
            (PointerObservation.is_down
               (PointerObservation.logical_buttons_1_to_5 (BatchSuccess.observation batch)) logical)
            (is_down_direction direction))
      | None => false
      end in
    if missed then fail_observed_batch progress
    else
      confirm_observed_batch progress ;;;
      stopped <- deadline_stop deadline ;;
      ret (Break (ActionProgress.set_stopped stopped (ActionProgress.set_completed_units 1 progress)))).

(** [run_action]. *)
Definition run_action (action : InputAction) (window_click : option (WindowClickRevalidation.t W)) :
    M Engine ActionError.t ActionProgress.t :=
  flow <- match action with
          | Move action => run_move action
          | Click action => run_click action window_click
          | Drag action => run_drag action
          | Scroll action => run_scroll action
          | Button button direction allow_redundant => run_button button direction allow_redundant
          | Key _ =>
              fail (ActionProgress.error ActionProgress.default InputFailureKind.UnsupportedOperation)
          end ;;
  ret (match flow with Continue progress | Break progress => progress end).

End Run.
End PointerMethods.
