(* ===== verification/EngineKeyboard.v ===== *)
(** * The input engine: keyboard actions

    Models the keyboard part of [xenoteer-x11/src/input/execute.rs]: the resolution of
    identifiers to captured bindings, key batches and their postconditions, held keys and
    their synthesized modifiers, complete steps, exact text, and the temporary keyboard
    mapping of a scalar with its restoration.  The progress of an action is mutated
    through every failure, so it is part of the state. *)

From stdpp Require Import base numbers list option.
From Stdlib Require Import Lia.
From S2P Require Import Prelude Identity Geometry Keys OwnedInput.
From S2P Require Import NamedKeys InputBackend InputOutcome KeyboardActions Engine.

Local Open Scope N_scope.

(** [KeyboardProgress]. *)
Module KeyboardProgress.
Record t := mk {
  events_emitted : N;
  completed_units : N;
  stopped : option BoundaryStop;
  bindings : list KeyboardBindingEvidence.t;
  text_scalar_count : option N;
  requested_text_mode : option PhysicalTextMode;
  current_layout_scalars : N;
  temporary_mapping_scalars : N;
  temporary_mappings_installed : N;
  temporary_mappings_restored : N;
  temporary_mapping_restoration_proven : option bool;
  redact_scalar_evidence : bool;
  pointer : option PointerObservation.t
}.

Definition default : t := mk 0 0 None [] None None 0 0 0 0 None false None.

Definition set_events_emitted v p :=
  mk v (completed_units p) (stopped p) (bindings p) (text_scalar_count p) (requested_text_mode p)
    (current_layout_scalars p) (temporary_mapping_scalars p) (temporary_mappings_installed p)
    (temporary_mappings_restored p) (temporary_mapping_restoration_proven p)
    (redact_scalar_evidence p) (pointer p).
Definition set_completed_units v p :=
  mk (events_emitted p) v (stopped p) (bindings p) (text_scalar_count p) (requested_text_mode p)
    (current_layout_scalars p) (temporary_mapping_scalars p) (temporary_mappings_installed p)
    (temporary_mappings_restored p) (temporary_mapping_restoration_proven p)
    (redact_scalar_evidence p) (pointer p).
Definition set_stopped v p :=
  mk (events_emitted p) (completed_units p) v (bindings p) (text_scalar_count p)
    (requested_text_mode p) (current_layout_scalars p) (temporary_mapping_scalars p)
    (temporary_mappings_installed p) (temporary_mappings_restored p)
    (temporary_mapping_restoration_proven p) (redact_scalar_evidence p) (pointer p).
Definition set_bindings v p :=
  mk (events_emitted p) (completed_units p) (stopped p) v (text_scalar_count p)
    (requested_text_mode p) (current_layout_scalars p) (temporary_mapping_scalars p)
    (temporary_mappings_installed p) (temporary_mappings_restored p)
    (temporary_mapping_restoration_proven p) (redact_scalar_evidence p) (pointer p).
Definition set_text_scalar_count v p :=
  mk (events_emitted p) (completed_units p) (stopped p) (bindings p) v (requested_text_mode p)
    (current_layout_scalars p) (temporary_mapping_scalars p) (temporary_mappings_installed p)
    (temporary_mappings_restored p) (temporary_mapping_restoration_proven p)
    (redact_scalar_evidence p) (pointer p).
Definition set_requested_text_mode v p :=
  mk (events_emitted p) (completed_units p) (stopped p) (bindings p) (text_scalar_count p) v
    (current_layout_scalars p) (temporary_mapping_scalars p) (temporary_mappings_installed p)
    (temporary_mappings_restored p) (temporary_mapping_restoration_proven p)
    (redact_scalar_evidence p) (pointer p).
Definition set_current_layout_scalars v p :=
  mk (events_emitted p) (completed_units p) (stopped p) (bindings p) (text_scalar_count p)
    (requested_text_mode p) v (temporary_mapping_scalars p) (temporary_mappings_installed p)
    (temporary_mappings_restored p) (temporary_mapping_restoration_proven p)
    (redact_scalar_evidence p) (pointer p).
Definition set_temporary_mapping_scalars v p :=
  mk (events_emitted p) (completed_units p) (stopped p) (bindings p) (text_scalar_count p)
    (requested_text_mode p) (current_layout_scalars p) v (temporary_mappings_installed p)
    (temporary_mappings_restored p) (temporary_mapping_restoration_proven p)
    (redact_scalar_evidence p) (pointer p).
Definition set_temporary_mappings_installed v p :=
  mk (events_emitted p) (completed_units p) (stopped p) (bindings p) (text_scalar_count p)
    (requested_text_mode p) (current_layout_scalars p) (temporary_mapping_scalars p) v
    (temporary_mappings_restored p) (temporary_mapping_restoration_proven p)
    (redact_scalar_evidence p) (pointer p).
Definition set_temporary_mappings_restored v p :=
  mk (events_emitted p) (completed_units p) (stopped p) (bindings p) (text_scalar_count p)
    (requested_text_mode p) (current_layout_scalars p) (temporary_mapping_scalars p)
    (temporary_mappings_installed p) v (temporary_mapping_restoration_proven p)
    (redact_scalar_evidence p) (pointer p).
Definition set_temporary_mapping_restoration_proven v p :=
  mk (events_emitted p) (completed_units p) (stopped p) (bindings p) (text_scalar_count p)
    (requested_text_mode p) (current_layout_scalars p) (temporary_mapping_scalars p)
    (temporary_mappings_installed p) (temporary_mappings_restored p) v (redact_scalar_evidence p)
    (pointer p).
Definition set_redact_scalar_evidence v p :=
  mk (events_emitted p) (completed_units p) (stopped p) (bindings p) (text_scalar_count p)
    (requested_text_mode p) (current_layout_scalars p) (temporary_mapping_scalars p)
    (temporary_mappings_installed p) (temporary_mappings_restored p)
    (temporary_mapping_restoration_proven p) v (pointer p).
Definition set_pointer v p :=
  mk (events_emitted p) (completed_units p) (stopped p) (bindings p) (text_scalar_count p)
    (requested_text_mode p) (current_layout_scalars p) (temporary_mapping_scalars p)
    (temporary_mappings_installed p) (temporary_mappings_restored p)
    (temporary_mapping_restoration_proven p) (redact_scalar_evidence p) v.
End KeyboardProgress.

(** [KeyboardRunError]. *)
Module KeyboardRunError.
Record t := mk {
  kind : InputFailureKind.t;
  progress : KeyboardProgress.t;
  progress_known : bool
}.
End KeyboardRunError.

(** [KeyboardProgress::failure]. *)
Definition progress_failure (self : KeyboardProgress.t) (kind : InputFailureKind.t) :
    KeyboardRunError.t :=
  KeyboardRunError.mk kind self (bool_decide (kind <> InputFailureKind.ActorPanicked)).

(** [KeyBatchPostflight]. *)
Module KeyBatchPostflight.
Record t := mk { model : ModelPreflight.t; accepted_initial_xtest_set_map : bool }.
End KeyBatchPostflight.

(** [has_duplicate_keys]: some key is among the keys before it. *)
Fixpoint repeats (before keys : list PhysicalKey) : bool :=
  match keys with
  | [] => false
  | key :: keys => bool_decide (key ∈ before) || repeats (before ++ [key]) keys
  end.

Definition has_duplicate_keys (keys : list PhysicalKey) : bool := repeats [] keys.

(** [unicode_keysym]. *)
Definition unicode_keysym (scalar : N) : N :=
  if decide (32 <= scalar <= 126 \/ 160 <= scalar <= 255) then scalar else N.lor 16777216 scalar.

(** [owned.key() == key] for some owned key. *)
Definition owns_key (state : InputState.t) (key : PhysicalKey) : bool :=
  existsb (fun owned => bool_decide (OwnedKey.key owned = key)) (InputState.pressed_keys state).

(** The press order of a complete step: synthesized modifiers, then the requested
    modifiers, then the other keys. *)
Section PressOrder.
Context {Token : Type} (state : InputState.t) (bindings : list (CapturedKeyBinding.t Token)).

Definition caller_keys : list PhysicalKey := map CapturedKeyBinding.key bindings.

Definition push_modifier (press_order : list (PhysicalKey * bool))
    (modifier : RequiredModifierBinding.t) : list (PhysicalKey * bool) :=
  let key := RequiredModifierBinding.key modifier in
  if negb (RequiredModifierBinding.already_active modifier) &&
     negb (bool_decide (key ∈ caller_keys)) &&
     negb (owns_key state key) &&
     negb (bool_decide (key ∈ map fst press_order))
  then press_order ++ [(key, true)]
  else press_order.

Definition press_order : list (PhysicalKey * bool) :=
  fold_left push_modifier
    (concat (map CapturedKeyBinding.required_modifiers bindings)) [] ++
  map (fun binding => (CapturedKeyBinding.key binding, true))
    (List.filter CapturedKeyBinding.is_modifier bindings) ++
  map (fun binding => (CapturedKeyBinding.key binding, false))
    (List.filter (fun binding => negb (CapturedKeyBinding.is_modifier binding)) bindings).
End PressOrder.

(** The events of a complete step: presses in order, releases in reverse order; the delay
    before is on the first press, the hold on the first release. *)
Definition indexed_events (pressed : bool) (first_delay_ms : N) (keys : list (PhysicalKey * bool)) :
    list PlannedEvent.t :=
  imap (fun index '(key, modifier) =>
      key_planned_event key pressed (if decide (index = 0%nat) then first_delay_ms else 0) modifier)
    keys.

Definition step_events (step : KeyboardSequenceStep.t) (press_order : list (PhysicalKey * bool)) :
    list PlannedEvent.t :=
  indexed_events true (KeyboardSequenceStep.delay_before_ms step) press_order ++
  indexed_events false (KeyboardSequenceStep.hold_ms step) (rev press_order).

Section KeyboardMethods.
Context {W : Type} `{!InputBackend W, !ActorKeyboardModel W, !Surroundings W}.

#[local] Abbreviation Engine := (InputEngine.t W BindingToken).
#[local] Abbreviation Binding := (CapturedKeyBinding.t BindingToken).
#[local] Abbreviation Resolving A := (M Engine InputFailureKind.t A).
#[local] Abbreviation Typing A := (M (Engine * KeyboardProgress.t) InputFailureKind.t A).

(** A method of the engine within one that also has the progress. *)
Definition engine {A} (m : Resolving A) : Typing A :=
  fun s => let '(e, r) := m (fst s) in ((e, snd s), r).

Definition update_progress (f : KeyboardProgress.t -> KeyboardProgress.t) : Typing unit :=
  modify (fun s => (fst s, f (snd s))).

(** [progress.stopped = Some(stopped); return Ok(false)] at a boundary. *)
Definition stop_step (cancellation : N) (deadline : option N) (rest : Typing bool) : Typing bool :=
  stopped <- engine (boundary_stop cancellation deadline) ;;
  match stopped with
  | Some stopped =>
      update_progress (KeyboardProgress.set_stopped (Some stopped)) ;;;
      ret false
  | None => rest
  end.

(** [keyboard_model_failure], [keyboard_identifier_failure]. *)
Definition keyboard_model_failure {E} (fault : KeyboardModelFault.t) (after_effect : bool) :
    M Engine E InputFailureKind.t :=
  match KeyboardModelFault.kind fault with
  | KeyboardModelFault.Unavailable => ret InputFailureKind.UnsupportedByBackend
  | KeyboardModelFault.Conflict =>
      ret (if after_effect then InputFailureKind.ModifierConflictAfterEffect
           else InputFailureKind.ModifierConflict)
  | KeyboardModelFault.NotRepresentable => ret InputFailureKind.TextNotRepresentable
  | KeyboardModelFault.MappingChanged =>
      ret (if after_effect then InputFailureKind.KeyboardMappingChangedAfterEffect
           else InputFailureKind.KeyboardMappingChangedBeforeEffect)
  | KeyboardModelFault.Unsafe | KeyboardModelFault.Platform =>
      ret InputFailureKind.UnsupportedByBackend
  | KeyboardModelFault.Connection =>
      transition_ignored ConnectionLost ;;;
      ret InputFailureKind.BackendUnavailable
  end.

Definition keyboard_identifier_failure {E} (fault : KeyboardModelFault.t) (identifier : KeyIdentifier)
    (after_effect : bool) : M Engine E InputFailureKind.t :=
  if KeyboardModelFault.is_not_representable fault && negb (KeyboardAction.is_scalar identifier)
  then ret InputFailureKind.UnsupportedByBackend
  else keyboard_model_failure fault after_effect.

(** [.map_err(|fault| self.keyboard_..._failure(fault, ..))?]: the failure is computed by a
    method. *)
Definition or_failure {A} (r : result A KeyboardModelFault.t)
    (f : KeyboardModelFault.t -> Resolving InputFailureKind.t) : Resolving A :=
  match r with
  | Ok a => ret a
  | Err fault => kind <- f fault ;; fail kind
  end.

(** [keyboard_resolution_context]. *)
Definition keyboard_resolution_context (intent : KeyboardResolutionIntent) :
    Resolving KeyboardResolutionContext.t :=
  self <- get ;;
  let owned := map (fun owned => keycode (OwnedKey.key owned))
                 (InputState.pressed_keys (InputEngine.state self)) in
  match KeyboardResolutionContext.new intent owned with
  | Ok context => ret context
  | Err _ => mark_panicked ;;; fail InputFailureKind.ActorPanicked
  end.

(** [resolve_and_validate_bindings]: its two loops. *)
Fixpoint resolve_each (identifiers : list KeyIdentifier) (context : KeyboardResolutionContext.t)
    (generation : option N) (bindings : list Binding) : Resolving (list Binding) :=
  match identifiers with
  | [] => ret bindings
  | identifier :: identifiers =>
      resolved <- outside (resolve_synchronized identifier context) ;;
      binding <- or_failure resolved
                   (fun fault => keyboard_identifier_failure fault identifier false) ;;
      reject_if (generation <> None /\ generation <> Some (CapturedKeyBinding.generation binding))
        InputFailureKind.KeyboardMappingChangedBeforeEffect ;;;
      resolve_each identifiers context (Some (CapturedKeyBinding.generation binding))
        (bindings ++ [binding])
  end.

Definition validate_before (context : KeyboardResolutionContext.t) (binding : Binding) : Resolving unit :=
  validated <- outside (validate_binding_synchronized binding context) ;;
  preflight <- or_failure validated (fun fault =>
                 keyboard_identifier_failure fault (CapturedKeyBinding.identifier binding) false) ;;
  reject_if (ModelPreflight.generation preflight <> CapturedKeyBinding.generation binding)
    InputFailureKind.KeyboardMappingChangedBeforeEffect.

Definition resolve_and_validate_bindings (identifiers : list KeyIdentifier)
    (context : KeyboardResolutionContext.t) : Resolving (list Binding) :=
  bindings <- resolve_each identifiers context None [] ;;
  for_each (validate_before context) bindings ;;;
  ret bindings.

(** [confirm_pending_key_batch], [fail_pending_key_batch]. *)
Definition confirm_pending_key_batch : Resolving unit :=
  confirmed <- on_state InputState.confirm_batch ;;
  match confirmed with
  | Err _ => mark_panicked ;;; fail InputFailureKind.ActorPanicked
  | Ok _ => ret tt
  end.

Definition fail_pending_key_batch (reason : ResetReason) : Resolving unit :=
  failed <- on_state (InputState.fail_batch reason) ;;
  match failed with
  | Err _ => mark_panicked ;;; fail InputFailureKind.ActorPanicked
  | Ok _ => ret tt
  end.

(** [self.fail_pending_key_batch(PostconditionFailed)?; return Err(kind)]. *)
Definition fail_postcondition {A} (kind : InputFailureKind.t) : Resolving A :=
  fail_pending_key_batch PostconditionFailed ;;;
  fail kind.

(** ** Key batches *)

(** [run_key_batch] after its batch: the keys the server reports, the model's preflight,
    and the postconditions. *)
Definition check_key_batch (first_keyboard_effect : bool) (pre_fingerprint : option N)
    (batch_sent : N) (expected_generation : N) (expected_up : list PhysicalKey)
    (enforce_generation : bool) : Resolving KeyBatchPostflight.t :=
  observed <- outside observe_keys ;;
  match observed with
  | Err fault =>
      if BackendFault.is_connection fault then
        apply_backend_fault fault ;;;
        fail InputFailureKind.BackendUnavailable
      else
        fail_pending_key_batch BarrierFailed ;;;
        fail InputFailureKind.BarrierFailed
  | Ok pressed =>
      reconcile_keys pressed ;;;
      synchronized <- outside synchronize_preflight ;;
      match synchronized with
      | Err fault =>
          kind <- keyboard_model_failure fault true ;;
          self <- get ;;
          (if decide (InputState.health (InputEngine.state self) = Healthy)
           then fail_pending_key_batch PostconditionFailed else ret tt) ;;;
          fail kind
      | Ok preflight =>
          let accepted_initial_xtest_set_map :=
            first_keyboard_effect &&
            bool_decide (0 < batch_sent) &&
            (ModelPreflight.generation preflight =? saturating_add_u64 expected_generation 1) &&
            (ModelPreflight.mapping_invalidations preflight =? 1) &&
            (ModelPreflight.structural_set_map_invalidations preflight =? 1) &&
            InputCleanupEvidence.is_some pre_fingerprint &&
            bool_decide (ModelPreflight.keymap_fingerprint preflight = pre_fingerprint) in
          (if enforce_generation &&
              negb (ModelPreflight.generation preflight =? expected_generation) &&
              negb accepted_initial_xtest_set_map
           then fail_postcondition InputFailureKind.KeyboardMappingChangedAfterEffect
           else ret tt) ;;;
          self <- get ;;
          let expected_down_valid :=
            forallb (fun owned => bool_decide (OwnedKey.key owned ∈ expected_up) ||
                                  bool_decide (OwnedKey.key owned ∈ pressed))
              (InputState.pressed_keys (InputEngine.state self)) in
          let expected_up_valid := forallb (fun key => negb (bool_decide (key ∈ pressed))) expected_up in
          if negb expected_down_valid || negb expected_up_valid
          then fail_postcondition InputFailureKind.PostconditionFailed
          else ret (KeyBatchPostflight.mk preflight accepted_initial_xtest_set_map)
      end
  end.

Definition note_keyboard_effect (sent : N) : Typing unit :=
  if decide (0 < sent)
  then engine (modify (InputEngine.set_keyboard_effect_emitted true))
  else ret tt.

Definition count_events (sent : N) : Typing unit :=
  update_progress (fun p => KeyboardProgress.set_events_emitted
    (saturating_add_usize (KeyboardProgress.events_emitted p) sent) p).

(** [run_key_batch]. *)
Definition run_key_batch (events : list PlannedEvent.t) (expected_generation : N)
    (expected_up : list PhysicalKey) (enforce_generation : bool) : Typing KeyBatchPostflight.t :=
  self <- engine get ;;
  let first_keyboard_effect := negb (InputEngine.keyboard_effect_emitted self) in
  let pre_fingerprint :=
    KeyboardModelDiagnostics.keymap_fingerprint (diagnostics (InputEngine.world self)) in
  batch <- engine (attempt (run_batch events false false)) ;;
  match batch with
  | Err failure =>
      note_keyboard_effect (BatchFailure.sent failure) ;;;
      count_events (BatchFailure.sent failure) ;;;
      (match BatchFailure.observation failure with
       | Some observation => update_progress (KeyboardProgress.set_pointer (Some observation))
       | None => ret tt
       end) ;;;
      fail (BatchFailure.public_kind failure)
  | Ok batch =>
      note_keyboard_effect (BatchSuccess.sent batch) ;;;
      count_events (BatchSuccess.sent batch) ;;;
      update_progress (KeyboardProgress.set_pointer (Some (BatchSuccess.observation batch))) ;;;
      engine (check_key_batch first_keyboard_effect pre_fingerprint (BatchSuccess.sent batch)
                expected_generation expected_up enforce_generation)
  end.

(** [validate_complete_bindings_after_effect]: the loop for a changed generation, and the
    loop for the captured one. *)
Definition revalidate_changed (context : KeyboardResolutionContext.t)
    (postflight : KeyBatchPostflight.t) (binding : Binding) : Resolving unit :=
  resolved <- outside (resolve_synchronized (CapturedKeyBinding.identifier binding) context) ;;
  match resolved with
  | Err fault =>
      fail_pending_key_batch PostconditionFailed ;;;
      kind <- keyboard_identifier_failure fault (CapturedKeyBinding.identifier binding) true ;;
      fail kind
  | Ok current =>
      if negb (CapturedKeyBinding.generation current
               =? ModelPreflight.generation (KeyBatchPostflight.model postflight)) ||
         negb (CapturedKeyBinding.physically_equivalent_across_generation binding current)
      then fail_postcondition InputFailureKind.KeyboardMappingChangedAfterEffect
      else ret tt
  end.

Definition revalidate_captured (context : KeyboardResolutionContext.t) (binding : Binding) :
    Resolving unit :=
  validated <- outside (validate_binding_synchronized binding context) ;;
  match validated with
  | Err fault =>
      fail_pending_key_batch PostconditionFailed ;;;
      kind <- keyboard_identifier_failure fault (CapturedKeyBinding.identifier binding) true ;;
      fail kind
  | Ok preflight =>
      if negb (ModelPreflight.generation preflight =? CapturedKeyBinding.generation binding)
      then fail_postcondition InputFailureKind.KeyboardMappingChangedAfterEffect
      else ret tt
  end.

Definition validate_complete_bindings_after_effect (bindings : list Binding)
    (context : KeyboardResolutionContext.t) (postflight : KeyBatchPostflight.t) : Resolving unit :=
  captured_generation <- lift (ok_or (CapturedKeyBinding.generation <$> head bindings)
                                 InputFailureKind.StateRejected) ;;
  let model := KeyBatchPostflight.model postflight in
  if negb (ModelPreflight.generation model =? captured_generation) then
    if negb (KeyBatchPostflight.accepted_initial_xtest_set_map postflight)
    then fail_postcondition InputFailureKind.KeyboardMappingChangedAfterEffect
    else
      for_each (revalidate_changed context postflight) bindings ;;;
      synchronized <- outside synchronize_preflight ;;
      match synchronized with
      | Err fault =>
          fail_pending_key_batch PostconditionFailed ;;;
          kind <- keyboard_model_failure fault true ;;
          fail kind
      | Ok final_preflight =>
          if negb (ModelPreflight.generation final_preflight =? ModelPreflight.generation model) ||
             negb (ModelPreflight.mapping_invalidations final_preflight =? 0) ||
             negb (bool_decide (ModelPreflight.keymap_fingerprint final_preflight
                                = ModelPreflight.keymap_fingerprint model))
          then fail_postcondition InputFailureKind.KeyboardMappingChangedAfterEffect
          else ret tt
      end
  else for_each (revalidate_captured context) bindings.

(** ** Complete steps *)

(** [self.state.pressed_keys()] holds none of the keys. *)
Definition reject_owned (keys : list PhysicalKey) : Resolving unit :=
  self <- get ;;
  reject_if (has_duplicate_keys keys = true \/
             existsb (owns_key (InputEngine.state self)) keys = true)
    InputFailureKind.StateRejected.

Definition record_bindings (bindings : list Binding) : Typing unit :=
  update_progress (fun p =>
    if KeyboardProgress.redact_scalar_evidence p then p
    else KeyboardProgress.set_bindings
           (KeyboardProgress.bindings p ++ map CapturedKeyBinding.evidence bindings) p).

(** The part [run_keyboard_step] and [run_resolved_complete_step] share: the events, and
    the checks after them. *)
Definition emit_step (step : KeyboardSequenceStep.t) (bindings : list Binding)
    (context : KeyboardResolutionContext.t) (generation : N) (press_order : list (PhysicalKey * bool)) :
    Typing bool :=
  let expected_up := map fst press_order in
  post <- run_key_batch (step_events step press_order) generation expected_up false ;;
  engine (validate_complete_bindings_after_effect bindings context post) ;;;
  engine confirm_pending_key_batch ;;;
  ret true.

Definition first_generation (bindings : list Binding) : Resolving N :=
  lift (ok_or (CapturedKeyBinding.generation <$> head bindings) InputFailureKind.StateRejected).

Section Run.
Context (cancellation : N) (deadline : option N).

(** [run_keyboard_step]. *)
Definition run_keyboard_step (step : KeyboardSequenceStep.t) : Typing bool :=
  context <- engine (keyboard_resolution_context PhysicalKeyIntent) ;;
  bindings <- engine (resolve_and_validate_bindings (KeyboardSequenceStep.keys step) context) ;;
  stop_step cancellation deadline (
    generation <- engine (first_generation bindings) ;;
    engine (reject_owned (caller_keys bindings)) ;;;
    self <- engine get ;;
    let press_order := press_order (InputEngine.state self) bindings in
    reject_if (has_duplicate_keys (map fst press_order) = true) InputFailureKind.StateRejected ;;;
    record_bindings bindings ;;;
    emit_step step bindings context generation press_order).

(** [run_resolved_complete_step]; its callers record no binding evidence. *)
Definition run_resolved_complete_step (step : KeyboardSequenceStep.t) (bindings : list Binding)
    (resolution : KeyboardResolutionContext.t) (record_binding_evidence : bool) : Typing bool :=
  stop_step cancellation deadline (
    generation <- engine (first_generation bindings) ;;
    engine (reject_owned (caller_keys bindings)) ;;;
    self <- engine get ;;
    let press_order := press_order (InputEngine.state self) bindings in
    (if record_binding_evidence then record_bindings bindings else ret tt) ;;;
    emit_step step bindings resolution generation press_order).

(** [run_exact_scalar]. *)
Definition run_exact_scalar (scalar : N) (delay_before_ms : N) : Typing bool :=
  step <- lift (map_err (fun _ => InputFailureKind.StateRejected)
                  (KeyboardSequenceStep.press (Scalar scalar) 0 delay_before_ms)) ;;
  context <- engine (keyboard_resolution_context ExactText) ;;
  bindings <- engine (resolve_and_validate_bindings (KeyboardSequenceStep.keys step) context) ;;
  run_resolved_complete_step step bindings context false.

(** ** Held keys *)

(** The modifiers a press synthesizes: [synthesized] and [newly_pressed]. *)
Definition synthesize (e : Engine) (acc : list PhysicalKey * list PhysicalKey)
    (modifier : RequiredModifierBinding.t) : list PhysicalKey * list PhysicalKey :=
  let '(synthesized, newly_pressed) := acc in
  let key := RequiredModifierBinding.key modifier in
  if decide (key ∈ synthesized) then acc
  else if decide (key ∈ map SynthesizedModifierRef.key (InputEngine.synthesized_modifiers e))
  then (synthesized ++ [key], newly_pressed)
  else if negb (RequiredModifierBinding.already_active modifier) &&
          negb (owns_key (InputEngine.state e) key)
  then (synthesized ++ [key], newly_pressed ++ [key])
  else acc.

(** One more reference to the modifier. *)
Fixpoint add_reference (key : PhysicalKey) (modifiers : list SynthesizedModifierRef.t) :
    list SynthesizedModifierRef.t :=
  match modifiers with
  | [] => [SynthesizedModifierRef.mk key 1]
  | existing :: modifiers =>
      if decide (SynthesizedModifierRef.key existing = key)
      then SynthesizedModifierRef.mk key
             (saturating_add_u16 (SynthesizedModifierRef.references existing) 1) :: modifiers
      else existing :: add_reference key modifiers
  end.

(** One less reference to the modifier. *)
Fixpoint drop_reference (key : PhysicalKey) (modifiers : list SynthesizedModifierRef.t) :
    list SynthesizedModifierRef.t :=
  match modifiers with
  | [] => []
  | existing :: modifiers =>
      if decide (SynthesizedModifierRef.key existing = key)
      then SynthesizedModifierRef.mk key
             (saturating_sub_u16 (SynthesizedModifierRef.references existing) 1) :: modifiers
      else existing :: drop_reference key modifiers
  end.

Definition has_captured (identifier : KeyIdentifier) (e : Engine) : bool :=
  existsb (fun captured => bool_decide (CapturedKeyHold.identifier captured = identifier))
    (InputEngine.captured_keys e).

(** [run_keyboard_down]. *)
Definition run_keyboard_down (identifier : KeyIdentifier) : Typing bool :=
  self <- engine get ;;
  reject_if (has_captured identifier self = true) InputFailureKind.StateRejected ;;;
  context <- engine (keyboard_resolution_context PhysicalKeyIntent) ;;
  bindings <- engine (resolve_and_validate_bindings [identifier] context) ;;
  binding <- lift (ok_or (head (rev bindings)) InputFailureKind.StateRejected) ;;
  stop_step cancellation deadline (
    self <- engine get ;;
    reject_if (owns_key (InputEngine.state self) (CapturedKeyBinding.key binding) = true)
      InputFailureKind.StateRejected ;;;
    record_bindings [binding] ;;;
    self <- engine get ;;
    let '(synthesized, newly_pressed) :=
      fold_left (synthesize self) (CapturedKeyBinding.required_modifiers binding) ([], []) in
    let events :=
      map (fun key => key_planned_event key true 0 true) newly_pressed ++
      [key_planned_event (CapturedKeyBinding.key binding) true 0
         (CapturedKeyBinding.is_modifier binding)] in
    let generation := CapturedKeyBinding.generation binding in
    post <- run_key_batch events generation [] true ;;
    post_context <- engine (keyboard_resolution_context PhysicalKeyIntent) ;;
    resolved <- engine (outside (resolve_synchronized identifier post_context)) ;;
    match resolved with
    | Err fault =>
        engine (fail_pending_key_batch PostconditionFailed) ;;;
        kind <- engine (keyboard_identifier_failure fault identifier true) ;;
        fail kind
    | Ok post_binding =>
        let equivalent :=
          if KeyBatchPostflight.accepted_initial_xtest_set_map post then
            (CapturedKeyBinding.generation post_binding
             =? ModelPreflight.generation (KeyBatchPostflight.model post)) &&
            CapturedKeyBinding.physically_equivalent_across_generation binding post_binding
          else CapturedKeyBinding.physically_equivalent binding post_binding in
        if negb equivalent
        then engine (fail_postcondition InputFailureKind.KeyboardMappingChangedAfterEffect)
        else
          let held_binding :=
            if KeyBatchPostflight.accepted_initial_xtest_set_map post then post_binding
            else binding in
          engine confirm_pending_key_batch ;;;
          engine (modify (fun e => InputEngine.set_synthesized_modifiers
            (fold_left (fun modifiers key => add_reference key modifiers) synthesized
               (InputEngine.synthesized_modifiers e)) e)) ;;;
          engine (modify (fun e => InputEngine.set_captured_keys
            (InputEngine.captured_keys e ++
             [CapturedKeyHold.mk identifier held_binding synthesized]) e)) ;;;
          ret true
    end).

(** [captured_keys.remove(position)], [captured_keys.insert(position, hold)]. *)
Definition remove_at {A} (position : nat) (l : list A) : list A :=
  take position l ++ drop (S position) l.
Definition insert_at {A} (position : nat) (x : A) (l : list A) : list A :=
  take position l ++ x :: drop position l.

Definition restore_hold (position : nat) (hold : CapturedKeyHold.t BindingToken) : Typing unit :=
  engine (modify (fun e => InputEngine.set_captured_keys
    (insert_at position hold (InputEngine.captured_keys e)) e)).

(** The validation of the held binding: the generation of the hold and the failure to
    report after its release; a lost connection ends the release. *)
Definition validate_hold (position : nat) (hold : CapturedKeyHold.t BindingToken)
    (identifier : KeyIdentifier) (context : KeyboardResolutionContext.t) :
    Typing (HeldBindingGeneration * option InputFailureKind.t) :=
  validated <- engine (outside (validate_held_binding_synchronized (CapturedKeyHold.binding hold)
                                  identifier context)) ;;
  match validated with
  | Ok generation => ret (generation, None)
  | Err fault =>
      if KeyboardModelFault.is_connection fault then
        restore_hold position hold ;;;
        kind <- engine (keyboard_identifier_failure fault identifier false) ;;
        fail kind
      else
        deferred <- engine (keyboard_identifier_failure fault identifier true) ;;
        self <- engine get ;;
        let captured := CapturedKeyBinding.generation (CapturedKeyHold.binding hold) in
        ret (HeldStale captured
               (default captured
                  (KeyboardModelDiagnostics.generation (diagnostics (InputEngine.world self)))),
             Some deferred)
  end.

(** The synthesized modifiers only this hold still references, in reverse order. *)
Definition release_modifiers (e : Engine) (hold : CapturedKeyHold.t BindingToken) : list PhysicalKey :=
  List.filter (fun key =>
      match list_find (fun existing => SynthesizedModifierRef.key existing = key)
              (InputEngine.synthesized_modifiers e) with
      | Some (_, existing) => SynthesizedModifierRef.references existing =? 1
      | None => false
      end)
    (rev (CapturedKeyHold.synthesized_modifiers hold)).

Definition is_stale (generation : HeldBindingGeneration) : bool :=
  match generation with
  | HeldCurrent => false
  | HeldStale _ _ => true
  end.

(** [run_keyboard_up]. *)
Definition run_keyboard_up (identifier : KeyIdentifier) : Typing bool :=
  self <- engine get ;;
  found <- lift (ok_or (list_find (fun captured => CapturedKeyHold.identifier captured = identifier)
                          (InputEngine.captured_keys self)) InputFailureKind.StateRejected) ;;
  let '(position, hold) := found in
  engine (modify (fun e => InputEngine.set_captured_keys
    (remove_at position (InputEngine.captured_keys e)) e)) ;;;
  context <- engine (keyboard_resolution_context PhysicalKeyIntent) ;;
  validated <- validate_hold position hold identifier context ;;
  let '(held_generation, deferred_validation_failure) := validated in
  stopped <- engine (boundary_stop cancellation deadline) ;;
  match stopped with
  | Some stopped =>
      restore_hold position hold ;;;
      update_progress (KeyboardProgress.set_stopped (Some stopped)) ;;;
      ret false
  | None =>
      let binding := CapturedKeyHold.binding hold in
      record_bindings [binding] ;;;
      self <- engine get ;;
      let expected_up := CapturedKeyBinding.key binding :: release_modifiers self hold in
      let events :=
        key_planned_event (CapturedKeyBinding.key binding) false 0
          (CapturedKeyBinding.is_modifier binding) ::
        map (fun key => key_planned_event key false 0 true) (release_modifiers self hold) in
      post <- attempt (run_key_batch events (CapturedKeyBinding.generation binding) expected_up false) ;;
      match post with
      | Err kind =>
          restore_hold position hold ;;;
          fail kind
      | Ok post =>
          engine confirm_pending_key_batch ;;;
          engine (modify (fun e => InputEngine.set_synthesized_modifiers
            (List.filter (fun existing => 0 <? SynthesizedModifierRef.references existing)
               (fold_left (fun modifiers key => drop_reference key modifiers)
                  (CapturedKeyHold.synthesized_modifiers hold)
                  (InputEngine.synthesized_modifiers e))) e)) ;;;
          let mapping_changed :=
            is_stale held_generation ||
            negb (ModelPreflight.generation (KeyBatchPostflight.model post)
                  =? CapturedKeyBinding.generation binding) in
          match deferred_validation_failure with
          | Some kind => fail kind
          | None =>
              if mapping_changed then fail InputFailureKind.KeyboardMappingChangedAfterEffect
              else ret true
          end
      end
  end.

(** ** Temporary mappings *)

(** [write_keyboard_mapping(..).and_then(|()| read_keyboard_mapping(..)).and_then(check)]. *)
Definition write_and_check (key : PhysicalKey) (mapping : CoreKeyboardMapping.t)
    (check : CoreKeyboardMapping.t -> bool) : Resolving (result unit BackendFault.t) :=
  written <- outside (write_keyboard_mapping key mapping) ;;
  match written with
  | Err fault => ret (Err fault)
  | Ok _ =>
      observed <- outside (read_keyboard_mapping key) ;;
      ret (match observed with
           | Err fault => Err fault
           | Ok observed =>
               if check observed then Ok tt else Err (BackendFault.mk BackendFault.Request)
           end)
  end.

Definition set_restoration_proven (proven : bool) : Typing unit :=
  update_progress (KeyboardProgress.set_temporary_mapping_restoration_proven (Some proven)).

(** [restore_pending_keyboard_mapping]. *)
Definition restore_pending_keyboard_mapping : Typing unit :=
  self <- engine get ;;
  match InputEngine.pending_keyboard_restore self with
  | None => ret tt
  | Some pending =>
      let original := PendingTemporaryRestore.original pending in
      backend_restore <- engine (write_and_check (PendingTemporaryRestore.key pending) original
                           (fun observed => bool_decide (observed = original))) ;;
      match backend_restore with
      | Err fault =>
          set_restoration_proven false ;;;
          if BackendFault.is_connection fault then
            engine (apply_backend_fault fault) ;;;
            fail InputFailureKind.BackendUnavailable
          else
            engine (transition_ignored TemporaryKeyboardMappingRestoreFailed) ;;;
            fail InputFailureKind.TemporaryMappingRestoreFailed
      | Ok _ =>
          synchronized <- engine (outside synchronize_preflight) ;;
          match synchronized with
          | Err fault =>
              set_restoration_proven false ;;;
              if KeyboardModelFault.is_connection fault then
                engine (transition_ignored ConnectionLost) ;;;
                fail InputFailureKind.BackendUnavailable
              else
                engine (transition_ignored TemporaryKeyboardMappingRestoreFailed) ;;;
                fail InputFailureKind.TemporaryMappingRestoreFailed
          | Ok _ =>
              engine (modify (InputEngine.set_pending_keyboard_restore None)) ;;;
              update_progress (fun p => KeyboardProgress.set_temporary_mappings_restored
                (saturating_add_usize (KeyboardProgress.temporary_mappings_restored p) 1) p) ;;;
              set_restoration_proven true
          end
      end
  end.

(** [temporary_mapping_preflight_failure]. *)
Definition temporary_mapping_preflight_failure (fault : KeyboardModelFault.t) :
    Resolving InputFailureKind.t :=
  match KeyboardModelFault.kind fault with
  | KeyboardModelFault.NotRepresentable | KeyboardModelFault.Unsafe
  | KeyboardModelFault.Platform | KeyboardModelFault.Unavailable =>
      ret InputFailureKind.TemporaryMappingInstallFailed
  | KeyboardModelFault.Conflict | KeyboardModelFault.MappingChanged
  | KeyboardModelFault.Connection => keyboard_model_failure fault false
  end.

(** An unused row: as many empty keysyms as it says. *)
Definition unused_row (original : CoreKeyboardMapping.t) : bool :=
  negb (CoreKeyboardMapping.keysyms_per_keycode original =? 0) &&
  (len (CoreKeyboardMapping.keysyms original) =? CoreKeyboardMapping.keysyms_per_keycode original) &&
  forallb (fun keysym => keysym =? 0) (CoreKeyboardMapping.keysyms original).

(** The row to install, and the readbacks that prove it. *)
Definition installed_row (original : CoreKeyboardMapping.t) (scalar : N) : CoreKeyboardMapping.t :=
  CoreKeyboardMapping.mk (CoreKeyboardMapping.keysyms_per_keycode original)
    (<[0%nat := unicode_keysym scalar]>
       (replicate (length (CoreKeyboardMapping.keysyms original)) 0)).

Definition proves_installed (installed observed : CoreKeyboardMapping.t) (target : N) : bool :=
  (CoreKeyboardMapping.keysyms_per_keycode observed
   =? CoreKeyboardMapping.keysyms_per_keycode installed) &&
  (len (CoreKeyboardMapping.keysyms observed) =? len (CoreKeyboardMapping.keysyms installed)) &&
  bool_decide (head (CoreKeyboardMapping.keysyms observed) = Some target) &&
  forallb (fun x => x)
    (imap (fun index keysym =>
       (index =? 0)%nat || (keysym =? 0) || ((index =? 2)%nat && (keysym =? target)))
     (CoreKeyboardMapping.keysyms observed)).

(** The closure [prepared] of [run_temporary_scalar]. *)
Definition type_installed (scalar delay_before_ms : N)
    (reservation : KeyboardReservation.t ReservationToken) (context : KeyboardResolutionContext.t) :
    Typing bool :=
  synchronized <- engine (outside synchronize_preflight) ;;
  engine (or_failure synchronized (fun fault => keyboard_model_failure fault false)) ;;;
  resolved <- engine (outside (resolve_synchronized (Scalar scalar) context)) ;;
  binding <- engine (or_failure resolved temporary_mapping_preflight_failure) ;;
  reject_if (CapturedKeyBinding.key binding <> KeyboardReservation.key reservation)
    InputFailureKind.TemporaryMappingInstallFailed ;;;
  validated <- engine (outside (validate_binding_synchronized binding context)) ;;
  validation <- engine (or_failure validated temporary_mapping_preflight_failure) ;;
  reject_if (ModelPreflight.generation validation <> CapturedKeyBinding.generation binding)
    InputFailureKind.TemporaryMappingInstallFailed ;;;
  step <- lift (map_err (fun _ => InputFailureKind.StateRejected)
                  (KeyboardSequenceStep.press (Scalar scalar) 0 delay_before_ms)) ;;
  run_resolved_complete_step step [binding] context false.

(** [run_temporary_scalar] from the persisted restoration on. *)
Definition run_installed (scalar delay_before_ms : N)
    (reservation : KeyboardReservation.t ReservationToken) (original : CoreKeyboardMapping.t)
    (context : KeyboardResolutionContext.t) : Typing bool :=
  let key := KeyboardReservation.key reservation in
  let installed := installed_row original scalar in
  engine (modify (InputEngine.set_pending_keyboard_restore
    (Some (PendingTemporaryRestore.mk key original)))) ;;;
  set_restoration_proven false ;;;
  install_result <- engine (write_and_check key installed
                      (fun observed => proves_installed installed observed (unicode_keysym scalar))) ;;
  match install_result with
  | Err fault =>
      let connection_lost := BackendFault.is_connection fault in
      (if connection_lost then engine (apply_backend_fault fault) else ret tt) ;;;
      restore <- attempt restore_pending_keyboard_mapping ;;
      if connection_lost then fail InputFailureKind.BackendUnavailable
      else
        match restore with
        | Ok _ => fail InputFailureKind.TemporaryMappingInstallFailed
        | Err kind => fail kind
        end
  | Ok _ =>
      update_progress (fun p => KeyboardProgress.set_temporary_mappings_installed
        (saturating_add_usize (KeyboardProgress.temporary_mappings_installed p) 1) p) ;;;
      prepared <- attempt (type_installed scalar delay_before_ms reservation context) ;;
      self <- engine get ;;
      match prepared with
      | Err kind =>
          if decide (InputState.health (InputEngine.state self) <> Healthy) then fail kind
          else
            restore_pending_keyboard_mapping ;;;
            fail kind
      | Ok typed =>
          restore_pending_keyboard_mapping ;;;
          (if (typed : bool) then
             update_progress (fun p => KeyboardProgress.set_temporary_mapping_scalars
               (saturating_add_usize (KeyboardProgress.temporary_mapping_scalars p) 1) p)
           else ret tt) ;;;
          ret typed
      end
  end.

(** [run_temporary_scalar]. *)
Definition run_temporary_scalar (scalar delay_before_ms : N) : Typing bool :=
  stop_step cancellation deadline (
    context <- engine (keyboard_resolution_context ExactText) ;;
    reserved <- engine (outside reserve_unused_keycode) ;;
    reservation <- engine (or_failure reserved (fun fault =>
                     if KeyboardModelFault.is_not_representable fault
                     then ret InputFailureKind.TemporaryMappingInstallFailed
                     else keyboard_model_failure fault false)) ;;
    validated <- engine (outside (validate_reservation reservation)) ;;
    engine (or_failure validated (fun fault => keyboard_model_failure fault false)) ;;;
    self <- engine get ;;
    reject_if (owns_key (InputEngine.state self) (KeyboardReservation.key reservation) = true)
      InputFailureKind.StateRejected ;;;
    read <- engine (outside (read_keyboard_mapping (KeyboardReservation.key reservation))) ;;
    match read with
    | Err fault =>
        (if BackendFault.is_connection fault then engine (apply_backend_fault fault) else ret tt) ;;;
        fail (backend_public_kind fault)
    | Ok original =>
        reject_if (unused_row original = false) InputFailureKind.UnsupportedByBackend ;;;
        validated <- engine (outside (validate_reservation reservation)) ;;
        engine (or_failure validated (fun fault => keyboard_model_failure fault false)) ;;;
        stop_step cancellation deadline
          (run_installed scalar delay_before_ms reservation original context)
    end).

(** ** Keyboard actions *)

(** The end of a unit: counted, and stopped at the boundary that follows it. *)
Definition after_unit (last_unit : bool) : Typing bool :=
  update_progress (fun p => KeyboardProgress.set_completed_units
    (saturating_add_u16 (KeyboardProgress.completed_units p) 1) p) ;;;
  if last_unit then
    stopped <- engine (deadline_stop deadline) ;;
    update_progress (KeyboardProgress.set_stopped stopped) ;;;
    ret true
  else
    stopped <- engine (boundary_stop cancellation deadline) ;;
    match stopped with
    | Some stopped =>
        update_progress (KeyboardProgress.set_stopped (Some stopped)) ;;;
        ret false
    | None => ret true
    end.

(** The loop over the steps of a sequence. *)
Fixpoint run_steps (steps : list KeyboardSequenceStep.t) : Typing unit :=
  match steps with
  | [] => ret tt
  | step :: rest =>
      executed <- stop_step cancellation deadline (run_keyboard_step step) ;;
      if (executed : bool) then
        continue <- after_unit (InputCleanupEvidence.is_empty rest) ;;
        if (continue : bool) then run_steps rest else ret tt
      else ret tt
  end.

(** One scalar of a text: the current layout, or else a temporary mapping. *)
Definition run_scalar (mode : PhysicalTextMode) (scalar delay_before_ms : N) : Typing bool :=
  exact <- attempt (run_exact_scalar scalar delay_before_ms) ;;
  match exact with
  | Ok true =>
      update_progress (fun p => KeyboardProgress.set_current_layout_scalars
        (saturating_add_usize (KeyboardProgress.current_layout_scalars p) 1) p) ;;;
      ret true
  | Ok false => ret false
  | Err kind =>
      if decide (kind = InputFailureKind.TextNotRepresentable /\ mode = ExtendedTemporaryMapping)
      then run_temporary_scalar scalar delay_before_ms
      else fail kind
  end.

(** The loop over the scalars of a text. *)
Fixpoint run_scalars (mode : PhysicalTextMode) (inter_character_delay_ms : N) (first : bool)
    (scalars : list N) : Typing unit :=
  match scalars with
  | [] => ret tt
  | scalar :: rest =>
      executed <- stop_step cancellation deadline
                    (run_scalar mode scalar (if first then 0 else inter_character_delay_ms)) ;;
      if (executed : bool) then
        continue <- after_unit (InputCleanupEvidence.is_empty rest) ;;
        if (continue : bool) then run_scalars mode inter_character_delay_ms false rest else ret tt
      else ret tt
  end.

(** A held key went down or up: one unit, and the deadline after it. *)
Definition after_single (executed : bool) : Typing unit :=
  if executed then
    update_progress (KeyboardProgress.set_completed_units 1) ;;;
    stopped <- engine (deadline_stop deadline) ;;
    update_progress (KeyboardProgress.set_stopped stopped)
  else ret tt.

Definition run_kind (action : KeyboardAction) : Typing unit :=
  match action with
  | KeyDown identifier =>
      executed <- run_keyboard_down identifier ;;
      after_single executed
  | KeyUp identifier =>
      executed <- run_keyboard_up identifier ;;
      after_single executed
  | KeySequence steps => run_steps steps
  | KeyText text mode inter_character_delay_ms =>
      update_progress (KeyboardProgress.set_text_scalar_count (Some (len text))) ;;;
      update_progress (KeyboardProgress.set_requested_text_mode (Some mode)) ;;;
      run_scalars mode inter_character_delay_ms true text
  end.

(** [run_keyboard_action]. *)
Definition run_keyboard_action (action : KeyboardAction) :
    M Engine KeyboardRunError.t KeyboardProgress.t :=
  fun e =>
    let progress := KeyboardProgress.set_redact_scalar_evidence
                      (KeyboardAction.contains_scalar_identifier action) KeyboardProgress.default in
    match run_kind action (e, progress) with
    | ((e, progress), Ok _) => (e, Ok progress)
    | ((e, progress), Err kind) => (e, Err (progress_failure progress kind))
    end.

End Run.
End KeyboardMethods.
