(* ===== verification/EngineControl.v ===== *)
(** * The input engine: reset, emergency cleanup and the execution of operations

    Models the rest of [xenoteer-x11/src/input/execute.rs]: the conservative reset with
    its proofs and its report, the cleanup after a panic, the probe, and the execution of
    prepared actions, of the pointer operations that are resolved against the live
    pointer, and of keyboard actions, with their outcomes and failures. *)

From stdpp Require Import base numbers list option.
From Stdlib Require Import Lia.
From S2P Require Import Prelude Identity Geometry Binary64 Motion Keys OwnedInput Actions.
From S2P Require Import NamedKeys InputBackend InputOutcome KeyboardActions.
From S2P Require Import Engine EnginePointer EngineKeyboard.

Local Open Scope N_scope.

(** ** The inputs and the conclusions of a reset *)

(** [CleanupReportInputs]. *)
Module CleanupReportInputs.
Record t := mk {
  attempted : N;
  confirmed : N;
  pointer : option PointerObservation.t;
  keys : option (list PhysicalKey);
  unobservable_buttons : list PhysicalButton;
  succeeded : bool;
  temporary_mapping_restore_attempted : bool;
  temporary_mapping_restore_proven : bool
}.
End CleanupReportInputs.

(** The buttons and the keys of cleanup actions. *)
Definition released_buttons (actions : list CleanupAction) : list PhysicalButton :=
  omap (fun action =>
    match action with ReleaseButton button => Some button | ReleaseKey _ _ => None end) actions.
Definition released_keys (actions : list CleanupAction) : list PhysicalKey :=
  omap (fun action =>
    match action with ReleaseKey key _ => Some key | ReleaseButton _ => None end) actions.

(** [if !residual.contains(&x) { residual.push(x); }], for each. *)
Definition push_missing {A} `{EqDecision A} (residual missing : list A) : list A :=
  fold_left (fun residual x => if decide (x ∈ residual) then residual else residual ++ [x])
    missing residual.

(** The planned release of a cleanup action. *)
Definition planned_release (state : InputState.t) (action : CleanupAction) : PlannedEvent.t :=
  match action with
  | ReleaseButton button =>
      PlannedEvent.mk (BackendEvent.Button button false 0)
        (if decide (button ∈ InputState.pressed_buttons state)
         then StateEffect.ButtonRelease button false else StateEffect.UntrackedRelease)
  | ReleaseKey key _ =>
      PlannedEvent.mk (BackendEvent.Key key false 0)
        (if owns_key state key then StateEffect.KeyRelease key else StateEffect.UntrackedRelease)
  end.

(** The closure of [owned_buttons.iter().all(..)]: it stops at the first button that is
    down, and collects the unobservable buttons before. *)
Fixpoint buttons_observed_up (mapping : ButtonMapping.t) (observed : list bool)
    (buttons unobservable_buttons : list PhysicalButton) : bool * list PhysicalButton :=
  match buttons with
  | [] => (true, unobservable_buttons)
  | button :: buttons =>
      match logical_for_physical mapping button with
      | Some logical =>
          if observable logical then
            if PointerObservation.is_down observed logical then (false, unobservable_buttons)
            else buttons_observed_up mapping observed buttons unobservable_buttons
          else buttons_observed_up mapping observed buttons (unobservable_buttons ++ [button])
      | None => buttons_observed_up mapping observed buttons (unobservable_buttons ++ [button])
      end
  end.

(** Some key is down. *)
Definition keys_up (keys pressed : list PhysicalKey) : bool :=
  forallb (fun key => negb (bool_decide (key ∈ pressed))) keys.

(** What a reset knows before it decides. *)
Module ResetEvidence.
Record t := mk {
  health_before : InputHealth;
  cleanup_count : N;
  state_release_count : N;
  batch : result BatchSuccess.t BatchFailure.t;
  pointer : option PointerObservation.t;
  keys : option (list PhysicalKey);
  unobservable_buttons : list PhysicalButton;
  observations_valid : bool
}.

Definition attempted (self : t) : N :=
  match batch self with
  | Ok value => BatchSuccess.attempted value
  | Err error => BatchFailure.attempted error
  end.

(** The batch failed on the ownership state. *)
Definition batch_invariant_failed (self : t) : bool :=
  match batch self with
  | Err error => match BatchFailure.kind error with BatchFailure.State => true | _ => false end
  | Ok _ => false
  end.

Definition proof_succeeded (self : t) : bool := is_ok (batch self) && observations_valid self.

Definition poisoned_retry_failure (self : t) : bool :=
  InputState.is_poisoned (health_before self) && negb (proof_succeeded self).
End ResetEvidence.

(** The mutable conclusions of a reset. *)
Module ResetVerdict.
Record t := mk {
  proof_succeeded : bool;
  invariant_failed : bool;
  confirmed_batch : bool
}.
End ResetVerdict.

(** [matches!(health, InputHealth::ResetRequired(_))]. *)
Definition is_reset_required (health : InputHealth) : bool :=
  match health with
  | ResetRequired _ => true
  | _ => false
  end.

Section ControlMethods.
Context {W : Type} `{!InputBackend W, !ActorKeyboardModel W, !Surroundings W}.

#[local] Abbreviation Engine := (InputEngine.t W BindingToken).
#[local] Abbreviation Executing A := (M Engine InputFailure.t A).

(** [actor_failure], [invariant_actor_failure]. *)
Definition actor_failure (kind : InputFailureKind.t) (cleanup : option CleanupReport.t) (self : Engine) :
    InputFailure.t :=
  InputFailure.mk None kind 0 0 (bool_decide (kind <> InputFailureKind.ActorPanicked)) None
    (InputEngine.last_pointer self) None false None
    (InputCleanupEvidence.from_control_report <$> cleanup) None.

Definition invariant_actor_failure (cleanup : option CleanupReport.t) (self : Engine) :
    InputFailure.t :=
  InputFailure.mk None InputFailureKind.ActorPanicked 0 0 false None
    (InputEngine.last_pointer self) None false None
    (InputCleanupEvidence.from_control_report <$> cleanup) None.

(** [return Err(self.actor_failure(..))]. *)
Definition fail_actor {A} (kind : InputFailureKind.t) (cleanup : option CleanupReport.t) : Executing A :=
  self <- get ;;
  fail (actor_failure kind cleanup self).

Definition fail_invariant {A} (cleanup : option CleanupReport.t) : Executing A :=
  self <- get ;;
  fail (invariant_actor_failure cleanup self).

(** [restore_pending_keyboard_mapping(&mut KeyboardProgress::default())]. *)
Definition restore_discarding_progress {E} : M Engine E (result unit InputFailureKind.t) :=
  fun e =>
    let '((e, _), r) := restore_pending_keyboard_mapping (e, KeyboardProgress.default) in
    (e, Ok r).

(** ** The report *)

(** [cleanup_report]. *)
Definition cleanup_report (inputs : CleanupReportInputs.t) (self : Engine) : CleanupReport.t :=
  let residual := InputEngine.conservative_cleanup_actions self in
  let state := InputEngine.state self in
  CleanupReport.mk (CleanupReportInputs.attempted inputs) (CleanupReportInputs.confirmed inputs)
    (PointerObservation.logical_buttons_1_to_5 <$> CleanupReportInputs.pointer inputs)
    (CleanupReportInputs.unobservable_buttons inputs)
    (CleanupReportInputs.keys inputs)
    (push_missing (InputState.pressed_buttons state) (released_buttons residual))
    (push_missing (map OwnedKey.key (InputState.pressed_keys state)) (released_keys residual))
    (CleanupReportInputs.temporary_mapping_restore_attempted inputs)
    (CleanupReportInputs.temporary_mapping_restore_proven inputs)
    (CleanupReportInputs.succeeded inputs).

(** ** Reset *)

(** The keys the server reports, or the fault of the query. *)
Definition query_keys {E} (can_query_keys : bool) :
    M Engine E (option (list PhysicalKey) * option BackendFault.t) :=
  if can_query_keys then
    observed <- outside observe_keys ;;
    match observed with
    | Ok keys => reconcile_keys keys ;;; ret (Some keys, None)
    | Err fault => ret (None, Some fault)
    end
  else ret (None, None).

(** The first part of a begun reset: the releases, and the observations after them. *)
Definition attempt_releases {E} (health_before : InputHealth) : M Engine E ResetEvidence.t :=
  self <- get ;;
  let state := InputEngine.state self in
  let cleanup := InputEngine.conservative_cleanup_actions self in
  let state_release_count := len (plan_cleanup state) in
  let owned_buttons := released_buttons cleanup in
  let owned_keys := released_keys cleanup in
  let planned := map (planned_release state) cleanup in
  batch <- attempt (run_batch planned (negb (InputCleanupEvidence.is_empty owned_buttons)) false) ;;
  (match batch with
   | Err error =>
       match BatchFailure.kind error with
       | BatchFailure.State => mark_panicked
       | _ => ret tt
       end
   | Ok _ => ret tt
   end) ;;;
  let pointer_evidence :=
    match batch with
    | Ok value => Some (BatchSuccess.observation value)
    | Err error => BatchFailure.observation error
    end in
  let can_query_keys :=
    match batch with
    | Ok _ => true
    | Err error =>
        match BatchFailure.kind error with
        | BatchFailure.Connection | BatchFailure.State => false
        | _ => true
        end
    end in
  queried <- query_keys can_query_keys ;;
  let '(key_evidence, key_fault) := queried in
  (if connection_fault key_fault
   then match key_fault with Some fault => apply_backend_fault fault | None => ret tt end
   else ret tt) ;;;
  self <- get ;;
  let '(button_observation_valid, unobservable_buttons) :=
    match pointer_evidence with
    | Some observation =>
        buttons_observed_up (InputEngine.button_mapping self)
          (PointerObservation.logical_buttons_1_to_5 observation) owned_buttons []
    | None => (false, [])
    end in
  let key_observation_valid :=
    InputCleanupEvidence.is_empty owned_keys ||
    match key_evidence with
    | Some pressed => keys_up owned_keys pressed
    | None => false
    end in
  let key_request_valid :=
    match key_fault with
    | None => true
    | Some fault => InputCleanupEvidence.is_empty owned_keys && negb (BackendFault.is_connection fault)
    end in
  ret (ResetEvidence.mk health_before (len cleanup) state_release_count batch pointer_evidence
         key_evidence unobservable_buttons
         (button_observation_valid && key_observation_valid && key_request_valid)).

(** A broken invariant: [mark_panicked] and [invariant_failed = true]. *)
Definition panic_verdict {E} (verdict : ResetVerdict.t) : M Engine E ResetVerdict.t :=
  mark_panicked ;;;
  ret (ResetVerdict.mk (ResetVerdict.proof_succeeded verdict) true
         (ResetVerdict.confirmed_batch verdict)).

(** The failed retry of a poisoned reset: its batch is abandoned; the result says whether. *)
Definition abandon_retry {E} (evidence : ResetEvidence.t) (verdict : ResetVerdict.t) :
    M Engine E (bool * ResetVerdict.t) :=
  if ResetEvidence.poisoned_retry_failure evidence &&
     bool_decide (0 < ResetEvidence.state_release_count evidence) &&
     negb (ResetEvidence.batch_invariant_failed evidence)
  then
    abandoned <- on_state InputState.abandon_poisoned_reset_batch ;;
    match abandoned with
    | Ok _ => ret (true, verdict)
    | Err NoPendingBatch =>
        if is_ok (ResetEvidence.batch evidence)
        then verdict <- panic_verdict verdict ;; ret (false, verdict)
        else ret (true, verdict)
    | Err _ => verdict <- panic_verdict verdict ;; ret (false, verdict)
    end
  else ret (false, verdict).

(** The batch is confirmed when every proof succeeded, and failed when only the
    observations did not. *)
Definition settle_batch {E} (evidence : ResetEvidence.t) (poisoned_batch_abandoned : bool)
    (verdict : ResetVerdict.t) : M Engine E ResetVerdict.t :=
  let owned := bool_decide (0 < ResetEvidence.state_release_count evidence) in
  if ResetVerdict.proof_succeeded verdict && owned then
    confirmed <- on_state InputState.confirm_batch ;;
    match confirmed with
    | Ok _ => ret (ResetVerdict.mk true (ResetVerdict.invariant_failed verdict) true)
    | Err _ => mark_panicked ;;; ret (ResetVerdict.mk false true (ResetVerdict.confirmed_batch verdict))
    end
  else if ResetVerdict.proof_succeeded verdict then
    ret (ResetVerdict.mk true (ResetVerdict.invariant_failed verdict) true)
  else if ResetEvidence.poisoned_retry_failure evidence && (poisoned_batch_abandoned || negb owned) then
    ret verdict
  else if is_ok (ResetEvidence.batch evidence) && owned then
    failed <- on_state (InputState.fail_batch PostconditionFailed) ;;
    match failed with
    | Ok _ => ret verdict
    | Err _ => panic_verdict verdict
    end
  else if is_ok (ResetEvidence.batch evidence) && negb owned then
    failed <- on_state (InputState.transition_health (RequireReset PostconditionFailed)) ;;
    match failed with
    | Ok _ => ret verdict
    | Err _ => panic_verdict verdict
    end
  else ret verdict.

(** The temporary mapping is restored after the releases: whether the restoration was
    attempted and its failure. *)
Definition restore_mapping {E} : M Engine E (bool * option InputFailureKind.t) :=
  self <- get ;;
  if InputCleanupEvidence.is_some (InputEngine.pending_keyboard_restore self) then
    restored <- restore_discarding_progress ;;
    ret (true, match restored with Ok _ => None | Err kind => Some kind end)
  else ret (false, None).

(** The health transition that reports the reset. *)
Definition report_health {E} (health_before : InputHealth) (invariant_failed service_recovered : bool) :
    M Engine E (result unit InputStateError) :=
  self <- get ;;
  if invariant_failed then ret (Ok tt)
  else if service_recovered then
    if is_reset_required health_before
    then on_state (InputState.transition_health ResetSucceeded) else ret (Ok tt)
  else if is_reset_required (InputState.health (InputEngine.state self))
  then on_state (InputState.transition_health ResetAttemptFailed)
  else ret (Ok tt).

(** The end of a begun reset. *)
Definition conclude_reset (evidence : ResetEvidence.t) : Executing CleanupReport.t :=
  self <- get ;;
  let health_before := ResetEvidence.health_before evidence in
  let verdict :=
    ResetVerdict.mk (ResetEvidence.proof_succeeded evidence)
      (ResetEvidence.batch_invariant_failed evidence || actor_panicked self) false in
  abandoned <- abandon_retry evidence verdict ;;
  let '(poisoned_batch_abandoned, verdict) := abandoned in
  verdict <- settle_batch evidence poisoned_batch_abandoned verdict ;;
  restored <- restore_mapping ;;
  let '(restore_attempted, restore_failure) := restored in
  let restore_proven := restore_attempted && negb (InputCleanupEvidence.is_some restore_failure) in
  let proof_succeeded :=
    ResetVerdict.proof_succeeded verdict && negb (InputCleanupEvidence.is_some restore_failure) in
  let invariant_failed := ResetVerdict.invariant_failed verdict in
  let service_recovered := proof_succeeded && negb (InputState.is_poisoned health_before) in
  health_transition <- report_health health_before invariant_failed service_recovered ;;
  (if is_ok health_transition then ret tt else mark_panicked) ;;;
  finished <- on_state InputState.finish_action ;;
  (if is_ok finished then ret tt
   else mark_panicked ;;; update_state (ignore InputState.finish_action)) ;;;
  let broken := negb (is_ok health_transition) || negb (is_ok finished) in
  let invariant_failed := invariant_failed || broken in
  let service_recovered := service_recovered && negb broken in
  let proof_succeeded := proof_succeeded && negb broken in
  self <- get ;;
  let report := cleanup_report
    (CleanupReportInputs.mk (ResetEvidence.attempted evidence)
       (if ResetVerdict.confirmed_batch verdict then ResetEvidence.cleanup_count evidence else 0)
       (ResetEvidence.pointer evidence) (ResetEvidence.keys evidence)
       (ResetEvidence.unobservable_buttons evidence) proof_succeeded
       restore_attempted restore_proven) self in
  (if proof_succeeded then
     modify (fun e => InputEngine.set_synthesized_modifiers [] (InputEngine.set_captured_keys [] e))
   else ret tt) ;;;
  if invariant_failed then fail_invariant (Some report)
  else
    match restore_failure with
    | Some kind => fail_actor kind (Some report)
    | None =>
        if service_recovered then ret report
        else fail_actor InputFailureKind.ResetFailed (Some report)
    end.

(** [reset_owned_input]. *)
Definition reset_owned_input : Executing CleanupReport.t :=
  self <- get ;;
  let health_before := InputState.health (InputEngine.state self) in
  begun <- on_state (InputState.begin_action ResetWork) ;;
  match begun with
  | Err _ =>
      mark_panicked ;;;
      update_state (ignore InputState.finish_action) ;;;
      fail_invariant None
  | Ok _ =>
      evidence <- attempt_releases health_before ;;
      conclude_reset evidence
  end.

(** ** Emergency cleanup *)

(** Send releases and check their cookies; every failure is remembered. *)
Fixpoint send_releases {E} (events : list BackendEvent.t) (cookies : list Cookie) (requests_ok : bool) :
    M Engine E (list Cookie * bool) :=
  match events with
  | [] => ret (cookies, requests_ok)
  | event :: events =>
      reply <- outside (send_event event) ;;
      match reply with
      | Ok cookie => send_releases events (cookies ++ [cookie]) requests_ok
      | Err _ => send_releases events cookies false
      end
  end.

Fixpoint check_releases {E} (cookies : list Cookie) (requests_ok : bool) : M Engine E bool :=
  match cookies with
  | [] => ret requests_ok
  | cookie :: cookies =>
      checked <- outside (check_cookie cookie) ;;
      check_releases cookies (requests_ok && is_ok checked)
  end.

(** [emergency_release_keys]. *)
Definition emergency_release_keys {E} (modifier : bool) : M Engine E bool :=
  self <- get ;;
  let owned_keys :=
    released_keys (List.filter (InputEngine.is_key_release modifier)
                     (InputEngine.conservative_cleanup_actions self)) in
  sent <- send_releases (map (fun key => BackendEvent.Key key false 0) owned_keys) [] true ;;
  let '(cookies, requests_ok) := sent in
  requests_ok <- check_releases cookies requests_ok ;;
  observed <- outside observe_keys ;;
  match observed with
  | Ok pressed =>
      reconcile_keys pressed ;;;
      ret (requests_ok && keys_up owned_keys pressed)
  | Err _ => ret false
  end.

(** [emergency_release_buttons]. *)
Definition emergency_release_buttons {E} : M Engine E bool :=
  self <- get ;;
  let owned_buttons := released_buttons (InputEngine.conservative_cleanup_actions self) in
  sent <- send_releases (map (fun button => BackendEvent.Button button false 0) owned_buttons) [] true ;;
  let '(cookies, requests_ok) := sent in
  requests_ok <- check_releases cookies requests_ok ;;
  observed <- outside observe_pointer ;;
  match observed with
  | Ok observation =>
      reconcile_buttons observation ;;;
      self <- get ;;
      let pointer_ok :=
        forallb (fun button =>
            match logical_for_physical (InputEngine.button_mapping self) button with
            | Some logical =>
                observable logical &&
                negb (PointerObservation.is_down
                        (PointerObservation.logical_buttons_1_to_5 observation) logical)
            | None => false
            end) owned_buttons in
      ret (requests_ok && pointer_ok)
  | Err _ => ret false
  end.

(** [emergency_cleanup_after_panic]; no stage panics in the model. *)
Definition emergency_cleanup_after_panic {E} : M Engine E bool :=
  buttons_released <- emergency_release_buttons ;;
  nonmodifiers_released <- emergency_release_keys false ;;
  modifiers_released <- emergency_release_keys true ;;
  restored <- restore_mapping ;;
  let mapping_restored := negb (InputCleanupEvidence.is_some (snd restored)) in
  ret (buttons_released && nonmodifiers_released && modifiers_released && mapping_restored).

(** ** Probe *)

(** [probe]. *)
Definition probe : Executing InputHealthSnapshot.t :=
  drained <- drain ;;
  match drained with
  | Err fault =>
      apply_backend_fault fault ;;;
      fail_actor (backend_public_kind fault) None
  | Ok _ =>
      synchronized <- outside synchronize_preflight ;;
      (match synchronized with
       | Err fault =>
           if decide (KeyboardModelFault.kind fault = KeyboardModelFault.Unavailable) then ret tt
           else
             kind <- keyboard_model_failure fault false ;;
             fail_actor kind None
       | Ok _ => ret tt
       end) ;;;
      observed <- outside observe_pointer ;;
      match observed with
      | Ok observation =>
          record_pointer observation ;;;
          self <- get ;;
          ret (snapshot Running self)
      | Err fault =>
          kind <- barrier_fault fault ;;
          fail_actor kind None
      end
  end.

End ControlMethods.

(** ** Operations *)

(** The requests of [command.rs] that are resolved when they execute. *)
Module PointerMoveRequest.
Record t := mk { target : RootPoint; options : MotionOptions.t }.
End PointerMoveRequest.

Inductive PointerEndpoint :=
  | EndpointRoot (target : RootPoint)
  | EndpointRelative (delta : PointerDelta.t).

Module PointerMoveRelativeRequest.
Record t := mk { delta : PointerDelta.t; options : MotionOptions.t }.
End PointerMoveRelativeRequest.

Module PointerClickRequest.
Record t := mk {
  endpoint : option PointerEndpoint;
  options : MotionOptions.t;
  button : LogicalButton;
  count : N;
  pre_click_dwell_ms : N;
  press_duration_ms : N;
  inter_click_interval_ms : N
}.
End PointerClickRequest.

Module PointerDragRequest.
Record t := mk {
  endpoint : PointerEndpoint;
  options : MotionOptions.t;
  button : LogicalButton;
  press_dwell_ms : N;
  release_dwell_ms : N
}.
End PointerDragRequest.

(** [InputOperation]. *)
Module InputOperation.
Inductive t :=
  | Pointer (action : InputAction)
  | PointerMove (request : PointerMoveRequest.t)
  | PointerMoveRelative (request : PointerMoveRelativeRequest.t)
  | PointerClick (request : PointerClickRequest.t)
  | PointerDrag (request : PointerDragRequest.t)
  | WindowPointerClick (request : WindowPointerClickRequest.t)
  | PointerScroll (action : ScrollAction.t)
  | Keyboard (action : KeyboardAction).
End InputOperation.

(** [DEFAULT_DOUBLE_CLICK_THRESHOLD_MS]. *)
Definition DEFAULT_DOUBLE_CLICK_THRESHOLD_MS : N := 250.

(** [requested_pointer_action], [requested_pointer]. *)
Definition requested_pointer_action (action : InputAction) : option RootPoint :=
  match action with
  | Move action => Some (MotionPlan.endpoint (MoveAction.plan action))
  | Click action => MotionPlan.endpoint <$> ClickAction.movement action
  | Drag action => Some (MotionPlan.endpoint (DragAction.movement action))
  | Scroll _ | Key _ | Button _ _ _ => None
  end.

Definition requested_pointer (operation : InputOperation.t) : option RootPoint :=
  match operation with
  | InputOperation.Pointer action => requested_pointer_action action
  | InputOperation.PointerMove request => Some (PointerMoveRequest.target request)
  | _ => None
  end.

Section Execution.
Context {W : Type} `{!InputBackend W, !ActorKeyboardModel W, !Surroundings W}.
Context (hypot : f64 -> f64 -> f64).

#[local] Abbreviation Engine := (InputEngine.t W BindingToken).
#[local] Abbreviation Executing A := (M Engine InputFailure.t A).

(** [failure_before], [invariant_failure], [finish_failure]. *)
Definition failure_before (context : ActionContext.t) (kind : InputFailureKind.t)
    (requested_pointer : option RootPoint) (self : Engine) : InputFailure.t :=
  InputFailure.mk (Some (ActionContext.command_id context)) kind 0 0 true requested_pointer
    (InputEngine.last_pointer self) None false None None None.

Definition invariant_failure (context : ActionContext.t) (requested_pointer : option RootPoint)
    (self : Engine) : InputFailure.t :=
  InputFailure.mk (Some (ActionContext.command_id context)) InputFailureKind.ActorPanicked 0 0 false
    requested_pointer (InputEngine.last_pointer self) None false None None None.

Definition finish_failure (context : ActionContext.t) (error : ActionError.t)
    (evidence : option (EffectJournal.t * option InputCleanupEvidence.t)) : InputFailure.t :=
  InputFailure.mk (Some (ActionContext.command_id context)) (ActionError.kind error)
    (ActionError.events_emitted error) (ActionError.completed_units error)
    (ActionError.progress_known error) (ActionError.requested_pointer error)
    (ActionError.last_observed_pointer error) (ActionError.observed_buttons error)
    (ActionError.button_observation_partial error)
    ((fun evidence => InputEffectEvidence.from_journal (fst evidence) false) <$> evidence)
    (match evidence with Some (_, cleanup) => cleanup | None => None end) None.

(** [return Err(self.failure_before(..))]. *)
Definition fail_before {A} (context : ActionContext.t) (requested_pointer : option RootPoint)
    (kind : InputFailureKind.t) : Executing A :=
  self <- get ;;
  fail (failure_before context kind requested_pointer self).

(** The cancellation and the deadline, before any effect. *)
Definition check_boundary (context : ActionContext.t) (requested_pointer : option RootPoint)
    (cancellation : N) : Executing unit :=
  stopped <- boundary_stop cancellation (ActionContext.deadline context) ;;
  match stopped with
  | Some Cancelled => fail_before context requested_pointer InputFailureKind.CancelledBeforeEffect
  | Some Deadline => fail_before context requested_pointer InputFailureKind.DeadlineExceededBeforeEffect
  | None => ret tt
  end.

(** The events are drained, before any effect. *)
Definition drain_before (context : ActionContext.t) (requested_pointer : option RootPoint) :
    Executing unit :=
  drained <- drain ;;
  match drained with
  | Ok _ => ret tt
  | Err fault =>
      apply_backend_fault fault ;;;
      fail_before context requested_pointer (backend_public_kind fault)
  end.

Definition require_healthy (context : ActionContext.t) (requested_pointer : option RootPoint) :
    Executing unit :=
  self <- get ;;
  if decide (InputState.health (InputEngine.state self) <> Healthy)
  then fail_before context requested_pointer InputFailureKind.HealthRejected
  else ret tt.

(** [preflight]. *)
Definition preflight (action : InputAction) (self : Engine) : bool :=
  match action with
  | Button button direction false =>
      let owned := bool_decide (button ∈ InputState.pressed_buttons (InputEngine.state self)) in
      negb (if is_down_direction direction then owned else negb owned)
  | _ => true
  end.

(** [check_precondition]. *)
Definition check_precondition (context : ActionContext.t)
    (precondition : option (InputPrecondition W)) (requested_pointer : option RootPoint) :
    Executing unit :=
  evaluated <- attempt (evaluate_precondition precondition (fun kind => kind)) ;;
  match evaluated with
  | Ok _ => ret tt
  | Err kind => fail_before context requested_pointer kind
  end.

(** The action is begun: its journal is open. *)
Definition begin_ordinary (context : ActionContext.t) (requested_pointer : option RootPoint) :
    Executing unit :=
  begun <- on_state (InputState.begin_action Ordinary) ;;
  match begun with
  | Ok _ => ret tt
  | Err _ =>
      mark_panicked ;;;
      update_state (ignore InputState.finish_action) ;;;
      self <- get ;;
      fail (invariant_failure context requested_pointer self)
  end.

(** [Result::ok]. *)
Definition ok {A E} (r : result A E) : option A :=
  match r with
  | Ok a => Some a
  | Err _ => None
  end.

(** The error of an action whose journal could not be closed. *)
Definition panicked_error (error : ActionError.t) : ActionError.t :=
  ActionError.mk InputFailureKind.ActorPanicked (ActionError.events_emitted error)
    (ActionError.completed_units error) (ActionError.requested_pointer error)
    (ActionError.last_observed_pointer error) (ActionError.observed_buttons error)
    (ActionError.button_observation_partial error) false.

(** [finish_action] after the run, or the failure of an open batch. *)
Definition close_journal (context : ActionContext.t) (error : ActionError.t) :
    Executing EffectJournal.t :=
  finished <- on_state InputState.finish_action ;;
  match finished with
  | Ok effects => ret effects
  | Err _ =>
      mark_panicked ;;;
      again <- on_state InputState.finish_action ;;
      fail (finish_failure context (panicked_error error) ((fun journal => (journal, None)) <$> ok again))
  end.

(** The outcome of an action that ran to its end or to a safe boundary. *)
Definition stopped_before_effect (context : ActionContext.t) (progress : ActionProgress.t)
    (effects : EffectJournal.t) (kind : InputFailureKind.t) : InputFailure.t :=
  InputFailure.mk (Some (ActionContext.command_id context)) kind 0 0 true
    (ActionProgress.requested_pointer progress) (ActionProgress.observed_pointer progress)
    (ActionProgress.observed_buttons progress) (ActionProgress.button_observation_partial progress)
    (Some (InputEffectEvidence.from_journal effects false)) None None.

Definition conclude_action (context : ActionContext.t) (progress : ActionProgress.t)
    (effects : EffectJournal.t) : Executing InputOutcome.t :=
  let outcome kind :=
    InputOutcome.mk (ActionContext.command_id context) kind
      (ActionProgress.events_emitted progress) (ActionProgress.completed_units progress)
      (ActionProgress.requested_pointer progress) (ActionProgress.observed_pointer progress)
      (ActionProgress.observed_buttons progress)
      (ActionProgress.button_observation_partial progress)
      (InputEffectEvidence.from_journal effects false) None in
  match ActionProgress.stopped progress, ActionProgress.events_emitted progress with
  | Some Cancelled, 0 =>
      fail (stopped_before_effect context progress effects InputFailureKind.CancelledBeforeEffect)
  | Some Deadline, 0 =>
      fail (stopped_before_effect context progress effects
              InputFailureKind.DeadlineExceededBeforeEffect)
  | Some Cancelled, _ => ret (outcome InputOutcomeKind.CancelledAfterEffect)
  | Some Deadline, _ => ret (outcome InputOutcomeKind.DeadlineExceededAfterEffect)
  | None, _ => ret (outcome InputOutcomeKind.Completed)
  end.

(** The cleanup after a failed action: the evidence of the reset, successful or not. *)
Definition cleanup_after_failure {E} : M Engine E (option InputCleanupEvidence.t) :=
  reset <- attempt reset_owned_input ;;
  ret (match reset with
       | Ok report => Some (InputCleanupEvidence.from_control_report report)
       | Err failure => InputFailure.cleanup failure
       end).

(** [execute_prepared_action] after [begin_action]. *)
Definition run_begun_action (context : ActionContext.t) (action : InputAction)
    (window_click : option (WindowClickRevalidation.t W)) (cancellation : N) :
    Executing InputOutcome.t :=
  result <- attempt (run_action cancellation (ActionContext.deadline context) action window_click) ;;
  match result with
  | Ok progress =>
      effects <- close_journal context (ActionProgress.error progress InputFailureKind.ActorPanicked) ;;
      conclude_action context progress effects
  | Err error =>
      effects <- close_journal context error ;;
      self <- get ;;
      if decide (ActionError.kind error = InputFailureKind.ActorPanicked \/
                 InputState.health (InputEngine.state self) = Healthy)
      then fail (finish_failure context error (Some (effects, None)))
      else
        cleanup <- cleanup_after_failure ;;
        fail (finish_failure context error (Some (effects, cleanup)))
  end.

(** [execute_prepared_action]. *)
Definition execute_prepared_action (context : ActionContext.t) (action : InputAction)
    (precondition : option (InputPrecondition W))
    (window_click : option (WindowClickRevalidation.t W)) (cancellation : N) :
    Executing InputOutcome.t :=
  let requested_pointer := requested_pointer_action action in
  check_boundary context requested_pointer cancellation ;;;
  drain_before context requested_pointer ;;;
  check_boundary context requested_pointer cancellation ;;;
  require_healthy context requested_pointer ;;;
  (match action with
   | Key _ => fail_before context requested_pointer InputFailureKind.UnsupportedOperation
   | _ => ret tt
   end) ;;;
  self <- get ;;
  (if preflight action self then ret tt
   else fail_before context requested_pointer InputFailureKind.StateRejected) ;;;
  check_precondition context precondition requested_pointer ;;;
  begin_ordinary context requested_pointer ;;;
  run_begun_action context action window_click cancellation.

(** [execute_with_precondition]. *)
Definition execute_with_precondition (context : ActionContext.t) (action : InputAction)
    (precondition : option (InputPrecondition W)) (cancellation : N) : Executing InputOutcome.t :=
  execute_prepared_action context action precondition None cancellation.

(** [.map_err(|_| self.failure_before(context, StateRejected, target))?]. *)
Definition or_rejected {A E} (context : ActionContext.t) (target : option RootPoint)
    (r : result A E) : Executing A :=
  match r with
  | Ok a => ret a
  | Err _ => fail_before context target InputFailureKind.StateRejected
  end.

(** The live pointer, before any effect. *)
Definition observe_start (context : ActionContext.t) (target : option RootPoint) :
    Executing RootPoint :=
  observed <- outside observe_pointer ;;
  match observed with
  | Ok observation =>
      record_pointer observation ;;;
      ret (PointerObservation.pointer observation)
  | Err fault =>
      apply_backend_fault fault ;;;
      fail_before context target (backend_public_kind fault)
  end.

(** [execute_pointer_move]. *)
Definition execute_pointer_move (context : ActionContext.t) (request : PointerMoveRequest.t)
    (precondition : option (InputPrecondition W)) (cancellation : N) : Executing InputOutcome.t :=
  let target := Some (PointerMoveRequest.target request) in
  check_boundary context target cancellation ;;;
  drain_before context target ;;;
  require_healthy context target ;;;
  start <- observe_start context target ;;
  plan <- or_rejected context target
            (MotionPlanner.plan_motion hypot start (PointerMoveRequest.target request)
               (PointerMoveRequest.options request)) ;;
  execute_with_precondition context (Move (MoveAction.mk plan)) precondition cancellation.

(** [resolve_pointer_endpoint]. *)
Definition resolve_pointer_endpoint (context : ActionContext.t) (endpoint : PointerEndpoint)
    (cancellation : N) : Executing (RootPoint * RootPoint) :=
  let requested :=
    match endpoint with
    | EndpointRoot target => Some target
    | EndpointRelative _ => None
    end in
  check_boundary context requested cancellation ;;;
  drain_before context requested ;;;
  require_healthy context requested ;;;
  start <- observe_start context requested ;;
  target <- match endpoint with
            | EndpointRoot target => ret target
            | EndpointRelative delta => or_rejected context None (RootPoint.checked_add start delta)
            end ;;
  ret (start, target).

(** [execute_pointer_move_relative]. *)
Definition execute_pointer_move_relative (context : ActionContext.t)
    (request : PointerMoveRelativeRequest.t) (precondition : option (InputPrecondition W))
    (cancellation : N) : Executing InputOutcome.t :=
  resolved <- resolve_pointer_endpoint context
                (EndpointRelative (PointerMoveRelativeRequest.delta request)) cancellation ;;
  let '(start, target) := resolved in
  plan <- or_rejected context (Some target)
            (MotionPlanner.plan_motion hypot start target
               (PointerMoveRelativeRequest.options request)) ;;
  execute_with_precondition context (Move (MoveAction.mk plan)) precondition cancellation.

(** [execute_pointer_click]. *)
Definition execute_pointer_click (context : ActionContext.t) (request : PointerClickRequest.t)
    (precondition : option (InputPrecondition W)) (cancellation : N) : Executing InputOutcome.t :=
  movement <- match PointerClickRequest.endpoint request with
              | Some endpoint =>
                  resolved <- resolve_pointer_endpoint context endpoint cancellation ;;
                  let '(start, target) := resolved in
                  plan <- or_rejected context (Some target)
                            (MotionPlanner.plan_motion hypot start target
                               (PointerClickRequest.options request)) ;;
                  ret (Some plan)
              | None => ret None
              end ;;
  let target := MotionPlan.endpoint <$> movement in
  action <- or_rejected context target
              (ClickAction.new movement (PointerClickRequest.button request)
                 (PointerClickRequest.count request) (PointerClickRequest.pre_click_dwell_ms request)
                 (PointerClickRequest.press_duration_ms request)
                 (PointerClickRequest.inter_click_interval_ms request)
                 DEFAULT_DOUBLE_CLICK_THRESHOLD_MS) ;;
  execute_with_precondition context (Click action) precondition cancellation.

(** [execute_pointer_drag]. *)
Definition execute_pointer_drag (context : ActionContext.t) (request : PointerDragRequest.t)
    (precondition : option (InputPrecondition W)) (cancellation : N) : Executing InputOutcome.t :=
  resolved <- resolve_pointer_endpoint context (PointerDragRequest.endpoint request) cancellation ;;
  let '(start, target) := resolved in
  movement <- or_rejected context (Some target)
                (MotionPlanner.plan_motion hypot start target (PointerDragRequest.options request)) ;;
  action <- or_rejected context (Some target)
              (DragAction.new movement (PointerDragRequest.button request)
                 (PointerDragRequest.press_dwell_ms request)
                 (PointerDragRequest.release_dwell_ms request)) ;;
  execute_with_precondition context (Drag action) precondition cancellation.

(** [execute_window_pointer_click]. *)
Definition execute_window_pointer_click (context : ActionContext.t)
    (request : WindowPointerClickRequest.t) (precondition : option (InputPrecondition W))
    (cancellation : N) : Executing InputOutcome.t :=
  check_boundary context None cancellation ;;;
  drain_before context None ;;;
  require_healthy context None ;;;
  resolved <- attempt (resolve_window_click_target request) ;;
  target <- match resolved with
            | Ok target => ret target
            | Err kind => fail_before context None kind
            end ;;
  start <- observe_start context (Some target) ;;
  movement <- or_rejected context (Some target)
                (MotionPlanner.plan_motion hypot start target
                   (WindowPointerClickRequest.options request)) ;;
  action <- or_rejected context (Some target)
              (ClickAction.new (Some movement) (WindowPointerClickRequest.button request)
                 (WindowPointerClickRequest.count request)
                 (WindowPointerClickRequest.pre_click_dwell_ms request)
                 (WindowPointerClickRequest.press_duration_ms request)
                 (WindowPointerClickRequest.inter_click_interval_ms request)
                 DEFAULT_DOUBLE_CLICK_THRESHOLD_MS) ;;
  check_precondition context precondition (Some target) ;;;
  execute_prepared_action context (Click action) None
    (Some (WindowClickRevalidation.mk request target precondition)) cancellation.

(** [keyboard_outcome_evidence], and the same evidence in [keyboard_run_failure]. *)
Definition keyboard_outcome_evidence (progress : KeyboardProgress.t) (self : Engine) :
    KeyboardOutcomeEvidence.t :=
  KeyboardOutcomeEvidence.mk
    (keyboard_diagnostics (KeyboardProgress.redact_scalar_evidence progress) self)
    (KeyboardProgress.bindings progress) (KeyboardProgress.text_scalar_count progress)
    (KeyboardProgress.requested_text_mode progress)
    (KeyboardProgress.current_layout_scalars progress)
    (KeyboardProgress.temporary_mapping_scalars progress)
    (KeyboardProgress.temporary_mappings_installed progress)
    (KeyboardProgress.temporary_mappings_restored progress)
    (KeyboardProgress.temporary_mapping_restoration_proven progress).

(** [keyboard_run_failure]. *)
Definition keyboard_run_failure (context : ActionContext.t) (error : KeyboardRunError.t)
    (effects : option EffectJournal.t) (cleanup : option InputCleanupEvidence.t) (self : Engine) :
    InputFailure.t :=
  let progress := KeyboardRunError.progress error in
  let redact := KeyboardProgress.redact_scalar_evidence progress in
  InputFailure.mk (Some (ActionContext.command_id context)) (KeyboardRunError.kind error)
    (KeyboardProgress.events_emitted progress) (KeyboardProgress.completed_units progress)
    (KeyboardRunError.progress_known error) None
    (PointerObservation.pointer <$> KeyboardProgress.pointer progress)
    (PointerObservation.logical_buttons_1_to_5 <$> KeyboardProgress.pointer progress) false
    ((fun journal => InputEffectEvidence.from_journal journal redact) <$> effects)
    ((fun cleanup => if redact then InputCleanupEvidence.redact_keyboard cleanup else cleanup)
       <$> cleanup)
    (Some (keyboard_outcome_evidence progress self)).

Definition fail_keyboard {A} (context : ActionContext.t) (error : KeyboardRunError.t)
    (effects : option EffectJournal.t) (cleanup : option InputCleanupEvidence.t) : Executing A :=
  self <- get ;;
  fail (keyboard_run_failure context error effects cleanup self).

(** [finish_action] after the run, or the failure of an open batch. *)
Definition close_keyboard_journal (context : ActionContext.t) (progress : KeyboardProgress.t) :
    Executing EffectJournal.t :=
  finished <- on_state InputState.finish_action ;;
  match finished with
  | Ok effects => ret effects
  | Err _ =>
      mark_panicked ;;;
      again <- on_state InputState.finish_action ;;
      fail_keyboard context (KeyboardRunError.mk InputFailureKind.ActorPanicked progress false)
        (ok again) None
  end.

Definition conclude_keyboard (context : ActionContext.t) (progress : KeyboardProgress.t)
    (effects : EffectJournal.t) : Executing InputOutcome.t :=
  self <- get ;;
  let outcome kind :=
    InputOutcome.mk (ActionContext.command_id context) kind
      (KeyboardProgress.events_emitted progress) (KeyboardProgress.completed_units progress) None
      (PointerObservation.pointer <$> KeyboardProgress.pointer progress)
      (PointerObservation.logical_buttons_1_to_5 <$> KeyboardProgress.pointer progress) false
      (InputEffectEvidence.from_journal effects (KeyboardProgress.redact_scalar_evidence progress))
      (Some (keyboard_outcome_evidence progress self)) in
  match KeyboardProgress.stopped progress, KeyboardProgress.events_emitted progress with
  | Some Cancelled, 0 =>
      fail_keyboard context (progress_failure progress InputFailureKind.CancelledBeforeEffect)
        (Some effects) None
  | Some Deadline, 0 =>
      fail_keyboard context (progress_failure progress InputFailureKind.DeadlineExceededBeforeEffect)
        (Some effects) None
  | Some Cancelled, _ => ret (outcome InputOutcomeKind.CancelledAfterEffect)
  | Some Deadline, _ => ret (outcome InputOutcomeKind.DeadlineExceededAfterEffect)
  | None, _ => ret (outcome InputOutcomeKind.Completed)
  end.

(** [execute_keyboard] after [begin_action]. *)
Definition run_begun_keyboard (context : ActionContext.t) (action : KeyboardAction)
    (cancellation : N) : Executing InputOutcome.t :=
  result <- attempt (run_keyboard_action cancellation (ActionContext.deadline context) action) ;;
  match result with
  | Ok progress =>
      effects <- close_keyboard_journal context progress ;;
      conclude_keyboard context progress effects
  | Err error =>
      effects <- close_keyboard_journal context (KeyboardRunError.progress error) ;;
      self <- get ;;
      if decide (KeyboardRunError.kind error = InputFailureKind.ActorPanicked \/
                 InputState.health (InputEngine.state self) = Healthy)
      then fail_keyboard context error (Some effects) None
      else
        cleanup <- cleanup_after_failure ;;
        fail_keyboard context error (Some effects) cleanup
  end.

(** [execute_keyboard]. *)
Definition execute_keyboard (context : ActionContext.t) (action : KeyboardAction)
    (precondition : option (InputPrecondition W)) (cancellation : N) : Executing InputOutcome.t :=
  check_boundary context None cancellation ;;;
  drain_before context None ;;;
  check_boundary context None cancellation ;;;
  self <- get ;;
  (if decide (InputState.health (InputEngine.state self) <> Healthy \/
              InputEngine.pending_keyboard_restore self <> None)
   then fail_before context None InputFailureKind.HealthRejected
   else ret tt) ;;;
  check_precondition context precondition None ;;;
  begin_ordinary context None ;;;
  run_begun_keyboard context action cancellation.

(** [execute_operation_with_precondition]. *)
Definition execute_operation (context : ActionContext.t) (operation : InputOperation.t)
    (precondition : option (InputPrecondition W)) (cancellation : N) : Executing InputOutcome.t :=
  match operation with
  | InputOperation.Pointer action =>
      execute_with_precondition context action precondition cancellation
  | InputOperation.PointerMove request =>
      execute_pointer_move context request precondition cancellation
  | InputOperation.PointerMoveRelative request =>
      execute_pointer_move_relative context request precondition cancellation
  | InputOperation.PointerClick request =>
      execute_pointer_click context request precondition cancellation
  | InputOperation.PointerDrag request =>
      execute_pointer_drag context request precondition cancellation
  | InputOperation.WindowPointerClick request =>
      execute_window_pointer_click context request precondition cancellation
  | InputOperation.PointerScroll action =>
      execute_with_precondition context (Scroll action) precondition cancellation
  | InputOperation.Keyboard action =>
      execute_keyboard context action precondition cancellation
  end.

End Execution.
