(* ===== verification/Recorder.v ===== *)
(** * Triples, and the record of what the engine asks of the server

    A triple states what a method keeps and what each of its exits establishes; its rules
    follow the combinators of the methods.  [Recorded] wraps any outside world with the
    sequence of the calls made to its backend: the presses and releases sent, the checks
    of their cookies, the observations, the mappings reported and the keyboard rows
    written and read back.  [Monitor] reads from such a sequence what may be held down
    and which keyboard row may differ from the one found: the specification the engine's
    bookkeeping is compared with. *)

From stdpp Require Import base numbers list option.
From Stdlib Require Import Lia.
From S2P Require Import Prelude Geometry Keys OwnedInput NamedKeys InputBackend InputOutcome Engine.

Local Open Scope N_scope.

(** ** Triples *)
Section Triples.
Context {S : Type}.

Definition triple {E A} (P : S -> Prop) (m : M S E A) (Q : A -> S -> Prop) (R : E -> S -> Prop) : Prop :=
  forall s, P s -> match m s with (s', Ok a) => Q a s' | (s', Err e) => R e s' end.

Implicit Types (P : S -> Prop).

Lemma triple_ret {E A} P (a : A) (Q : A -> S -> Prop) (R : E -> S -> Prop) : (forall s, P s -> Q a s) -> triple P (ret a : M S E A) Q R.
Proof. intros H s Hs. by apply H. Qed.

Lemma triple_fail {E A} P (e : E) (Q : A -> S -> Prop) (R : E -> S -> Prop) :
  (forall s, P s -> R e s) -> triple P (fail e) Q R.
Proof. intros H s Hs. by apply H. Qed.

Lemma triple_bind {E A B} P (m : M S E B) (k : B -> M S E A) (X : B -> S -> Prop) (Q : A -> S -> Prop) (R : E -> S -> Prop) :
  triple P m X R -> (forall b, triple (X b) (k b) Q R) -> triple P (bind m k) Q R.
Proof.
  intros Hm Hk s Hs. specialize (Hm s Hs). unfold bind. destruct (m s) as [s' [b | e]]; [| done].
  by apply Hk.
Qed.

Lemma triple_get {E} P (Q : S -> S -> Prop) (R : E -> S -> Prop) : (forall s, P s -> Q s s) -> triple P (get : M S E S) Q R.
Proof. intros H s Hs. by apply H. Qed.

Lemma triple_modify {E} P f (Q : unit -> S -> Prop) (R : E -> S -> Prop) :
  (forall s, P s -> Q tt (f s)) -> triple P (modify f : M S E unit) Q R.
Proof. intros H s Hs. by apply H. Qed.

Lemma triple_lift {E A} P (r : result A E) (Q : A -> S -> Prop) (R : E -> S -> Prop) :
  (forall a s, r = Ok a -> P s -> Q a s) -> (forall e s, r = Err e -> P s -> R e s) ->
  triple P (lift r) Q R.
Proof. intros Ha He s Hs. simpl. destruct r; [by apply Ha | by apply He]. Qed.

Lemma triple_reject_if {E} P (X : Prop) `{!Decision X} (e : E) (Q : unit -> S -> Prop) (R : E -> S -> Prop) :
  (forall s, P s -> X -> R e s) -> (forall s, P s -> ~ X -> Q tt s) ->
  triple P (reject_if X e) Q R.
Proof. intros H1 H2 s Hs. unfold reject_if. case_decide; simpl; eauto. Qed.

Lemma triple_conseq {E A} P P' (m : M S E A) (Q Q' : A -> S -> Prop) (R R' : E -> S -> Prop) :
  triple P' m Q' R' -> (forall s, P s -> P' s) -> (forall a s, Q' a s -> Q a s) ->
  (forall e s, R' e s -> R e s) -> triple P m Q R.
Proof.
  intros Hm HP HQ HR s Hs. specialize (Hm s (HP s Hs)).
  destruct (m s) as [s' [a | e]]; eauto.
Qed.

Lemma triple_attempt {E F A} P (m : M S F A) (Q : result A F -> S -> Prop) (R : E -> S -> Prop) :
  triple P m (fun a => Q (Ok a)) (fun e => Q (Err e)) -> triple P (attempt m : M S E _) Q R.
Proof.
  intros Hm s Hs. specialize (Hm s Hs). unfold attempt. by destruct (m s) as [s' [a | e]].
Qed.

Lemma triple_map_failure {E F A} P (m : M S F A) (f : F -> E) (Q : A -> S -> Prop) (R : E -> S -> Prop) :
  triple P m Q (fun e => R (f e)) -> triple P (map_failure f m) Q R.
Proof.
  intros Hm s Hs. specialize (Hm s Hs). unfold map_failure. by destruct (m s) as [s' [a | e]].
Qed.

(** A step that keeps an assertion in its failures. *)
Lemma triple_seq {E A B} P P' (m : M S E B) (k : B -> M S E A) (X : B -> S -> Prop)
    (Q : A -> S -> Prop) (R : E -> S -> Prop) :
  triple P m X (fun _ => P') -> (forall s, P' s -> forall e, R e s) ->
  (forall b, triple (X b) (k b) Q R) -> triple P (bind m k) Q R.
Proof. intros Hm HR. apply triple_bind. eapply triple_conseq; [exact Hm | done | done |]. eauto. Qed.

(** A fact of the precondition may be used; the precondition may be weakened. *)
Lemma triple_fact {E A} (X : Prop) P (m : M S E A) (Q : A -> S -> Prop) (R : E -> S -> Prop) :
  (X -> triple P m Q R) -> triple (fun s => P s /\ X) m Q R.
Proof. intros Hm s [Hs HX]. by apply Hm. Qed.

Lemma triple_weaken {E A} P P' (m : M S E A) (Q : A -> S -> Prop) (R : E -> S -> Prop) :
  triple P' m Q R -> (forall s, P s -> P' s) -> triple P m Q R.
Proof. intros Hm HP s Hs. apply Hm, HP, Hs. Qed.

Lemma triple_if {E A} P (b : bool) (m1 m2 : M S E A) (Q : A -> S -> Prop) (R : E -> S -> Prop) :
  triple P m1 Q R -> triple P m2 Q R -> triple P (if b then m1 else m2) Q R.
Proof. by destruct b. Qed.

Lemma triple_for_each {E X} P (f : X -> M S E unit) (l : list X) (R : E -> S -> Prop) :
  (forall x, triple P (f x) (fun _ => P) R) -> triple P (for_each f l) (fun _ => P) R.
Proof.
  intros Hf. induction l as [| x l IH]; simpl; [by apply triple_ret |].
  eapply triple_bind; [apply Hf | by intros []].
Qed.

Lemma triple_for_control {E A X} P (body : X -> A -> M S E (ControlFlow A)) (l : list X) (acc : A) (R : E -> S -> Prop) :
  (forall x a, x ∈ l -> triple P (body x a) (fun _ => P) R) ->
  triple P (for_control body l acc) (fun _ => P) R.
Proof.
  revert acc. induction l as [| x l IH]; intros acc Hf; simpl; [by apply triple_ret |].
  eapply triple_bind; [apply Hf; by left |].
  intros [a | a]; [apply IH; intros; apply Hf; by right | by apply triple_ret].
Qed.

End Triples.

(** ** The record of the backend's calls *)

(** What may be held: a button or a key. *)
Inductive Held :=
  | HeldButton (button : PhysicalButton)
  | HeldKey (key : PhysicalKey).

#[export] Instance held_eq_dec : EqDecision Held.
Proof. solve_decision. Defined.

(** What an event presses ([true]) or releases. *)
Definition transition_of (event : BackendEvent.t) : option (Held * bool) :=
  match event with
  | BackendEvent.Motion _ _ => None
  | BackendEvent.Button button pressed _ => Some (HeldButton button, pressed)
  | BackendEvent.Key key pressed _ => Some (HeldKey key, pressed)
  end.

(** One call: a sent event with the number of its cookie, if it got one; a cookie checked
    with success; the observations; the mapping reported; a row read, or written. *)
Inductive Call :=
  | Sent (event : BackendEvent.t) (cookie : option N)
  | Checked (cookie : N)
  | SawPointer (observation : PointerObservation.t)
  | SawKeys (pressed : list PhysicalKey)
  | SawMapping (mapping : ButtonMapping.t)
  | ReadRow (key : PhysicalKey) (row : CoreKeyboardMapping.t)
  | WroteRow (key : PhysicalKey) (row : CoreKeyboardMapping.t).

Record Recorded (W : Type) := mkRecorded { inner : W; next_cookie : N; calls : list Call }.
Arguments mkRecorded {W} _ _ _.
Arguments inner {W} _.
Arguments next_cookie {W} _.
Arguments calls {W} _.

Section Recording.
Context {W : Type}.

Definition record (new : list Call) (w : Recorded W) : Recorded W :=
  mkRecorded (inner w) (next_cookie w) (calls w ++ new).

(** A call of the wrapped world, with the calls it is recorded as. *)
Definition recording {A} (f : W -> W * A) (seen : A -> list Call) (w : Recorded W) : Recorded W * A :=
  let '(v, a) := f (inner w) in (mkRecorded v (next_cookie w) (calls w ++ seen a), a).

Definition on_ok {A E} (f : A -> list Call) (r : result A E) : list Call :=
  match r with
  | Ok a => f a
  | Err _ => []
  end.

(** A send takes the next cookie number. *)
Definition recording_send {C} (f : W -> W * result C BackendFault.t) (event : BackendEvent.t)
    (w : Recorded W) : Recorded W * result (C * N) BackendFault.t :=
  match f (inner w) with
  | (v, Ok cookie) =>
      (mkRecorded v (next_cookie w + 1) (calls w ++ [Sent event (Some (next_cookie w))]),
       Ok (cookie, next_cookie w))
  | (v, Err fault) => (mkRecorded v (next_cookie w) (calls w ++ [Sent event None]), Err fault)
  end.

#[export] Instance recorded_backend `{!InputBackend W} : InputBackend (Recorded W) := {
  Cookie := (Cookie * N)%type;
  startup := recording startup (on_ok (fun s => [SawMapping (BackendStartup.button_mapping s)]));
  drain_events := recording drain_events (on_ok (fun d =>
    match DrainedEvents.pointer_mapping d with Some mapping => [SawMapping mapping] | None => [] end));
  send_event event := recording_send (send_event event) event;
  check_cookie cookie := recording (check_cookie (fst cookie)) (on_ok (fun _ => [Checked (snd cookie)]));
  observe_pointer := recording observe_pointer (on_ok (fun o => [SawPointer o]));
  observe_keys := recording observe_keys (on_ok (fun keys => [SawKeys keys]));
  wait_for_input_delay ms w := fst (recording (fun v => (wait_for_input_delay ms v, tt)) (fun _ => []) w);
  observe_window_geometry window := recording (observe_window_geometry window) (fun _ => []);
  read_keyboard_mapping key := recording (read_keyboard_mapping key) (on_ok (fun row => [ReadRow key row]));
  write_keyboard_mapping key row := recording (write_keyboard_mapping key row) (fun _ => [WroteRow key row])
}.

#[export] Instance recorded_keyboard `{!ActorKeyboardModel W} : ActorKeyboardModel (Recorded W) := {
  BindingToken := BindingToken;
  ReservationToken := ReservationToken;
  diagnostics w := diagnostics (inner w);
  synchronize_preflight := recording synchronize_preflight (fun _ => []);
  resolve_synchronized identifier context :=
    recording (resolve_synchronized identifier context) (fun _ => []);
  validate_binding_synchronized binding context :=
    recording (validate_binding_synchronized binding context) (fun _ => []);
  validate_held_binding_synchronized binding identifier context :=
    recording (validate_held_binding_synchronized binding identifier context) (fun _ => []);
  reserve_unused_keycode := recording reserve_unused_keycode (fun _ => []);
  validate_reservation reservation := recording (validate_reservation reservation) (fun _ => [])
}.

#[export] Instance recorded_surroundings `{!Surroundings W} : Surroundings (Recorded W) := {
  instant_now := recording instant_now (fun _ => []);
  is_cancelled token := recording (is_cancelled token) (fun _ => [])
}.

(** A precondition of the wrapped world. *)
Definition recorded_precondition (check : InputPrecondition W) : InputPrecondition (Recorded W) :=
  recording check (fun _ => []).

End Recording.

(** ** The interface of a recorded world

    What the proofs about the engine use of the outside: every call is recorded, as the
    calls [Recorded] records it as. *)
Section Interface.
Context (V : Type) `{!InputBackend V, !ActorKeyboardModel V, !Surroundings V}.

Definition recorded_as {A} (calls : V -> list Call) (f : V -> V * A) (seen : A -> list Call) : Prop :=
  forall w w' a, f w = (w', a) -> calls w' = calls w ++ seen a.

Definition not_recorded {A} (calls : V -> list Call) (f : V -> V * A) : Prop :=
  recorded_as calls f (fun _ => []).

(** The mapping a call reports, if it reports one. *)
Definition mapping_seen (mapping : option ButtonMapping.t) : list Call :=
  match mapping with
  | Some mapping => [SawMapping mapping]
  | None => []
  end.

Class Observed := {
  trace : V -> list Call;
  cookie_number : Cookie (W := V) -> N;
  trace_startup : recorded_as trace startup
    (on_ok (fun s => [SawMapping (BackendStartup.button_mapping s)]));
  trace_drain_events : recorded_as trace drain_events
    (on_ok (fun d => mapping_seen (DrainedEvents.pointer_mapping d)));
  trace_send_event event : recorded_as trace (send_event event)
    (fun r => [Sent event (match r with Ok c => Some (cookie_number c) | Err _ => None end)]);
  trace_check_cookie c : recorded_as trace (check_cookie c)
    (on_ok (fun _ => [Checked (cookie_number c)]));
  trace_observe_pointer : recorded_as trace observe_pointer (on_ok (fun o => [SawPointer o]));
  trace_observe_keys : recorded_as trace observe_keys (on_ok (fun keys => [SawKeys keys]));
  trace_wait ms : not_recorded trace (fun w => (wait_for_input_delay ms w, tt));
  trace_window_geometry window : not_recorded trace (observe_window_geometry window);
  trace_read_row key : recorded_as trace (read_keyboard_mapping key)
    (on_ok (fun row => [ReadRow key row]));
  trace_write_row key row : recorded_as trace (write_keyboard_mapping key row)
    (fun _ => [WroteRow key row]);
  trace_synchronize : not_recorded trace synchronize_preflight;
  trace_resolve identifier context : not_recorded trace (resolve_synchronized identifier context);
  trace_validate_binding binding context :
    not_recorded trace (validate_binding_synchronized binding context);
  trace_validate_held binding identifier context :
    not_recorded trace (validate_held_binding_synchronized binding identifier context);
  trace_reserve : not_recorded trace reserve_unused_keycode;
  trace_validate_reservation reservation : not_recorded trace (validate_reservation reservation);
  trace_instant_now : not_recorded trace instant_now;
  trace_is_cancelled token : not_recorded trace (is_cancelled token)
}.
End Interface.
Arguments recorded_as {V A} _ _ _ /.
Arguments not_recorded {V A} _ _ /.

Section RecordedWorld.
Context {W : Type} `{!InputBackend W, !ActorKeyboardModel W, !Surroundings W}.

Lemma recording_run {A} (f : W -> W * A) seen : recorded_as calls (recording f seen) seen.
Proof. intros w w' a. unfold recording. destruct (f (inner w)) as [v b]. by intros [= <- <-]. Qed.

#[export, program] Instance recorded_observed : Observed (Recorded W) := {
  trace := calls;
  cookie_number c := snd c
}.
Solve All Obligations with
  (intros; apply recording_run || (intros w w' a [= <- <-]; by rewrite ?app_nil_r)).
Next Obligation.
  intros event w w' a. unfold send_event. simpl. unfold recording_send.
  destruct (send_event event (inner w)) as [v [c | f]]; by intros [= <- <-].
Qed.
End RecordedWorld.

(** ** The monitor *)
Module Monitor.

(** [down]: what was pressed and not yet known to be up; [releases]: the releases sent
    since, by their cookies; [found]: the last row read of a key not dirty; [dirty]: the
    rows found of the keys written since, until they are read back. *)
Record t := mk {
  mapping : ButtonMapping.t;
  down : list Held;
  releases : list (N * Held);
  found : list (PhysicalKey * CoreKeyboardMapping.t);
  dirty : list (PhysicalKey * CoreKeyboardMapping.t)
}.

Definition initial : t := mk (ButtonMapping.mk []) [] [] [] [].

(** The observation shows the button up: its logical button has a bit, and it is clear. *)
Definition shown_up (mapping : ButtonMapping.t) (observation : PointerObservation.t) (x : Held) : bool :=
  match x with
  | HeldButton button =>
      match logical_for_physical mapping button with
      | Some logical =>
          observable logical &&
          negb (PointerObservation.is_down
                  (PointerObservation.logical_buttons_1_to_5 observation) logical)
      | None => false
      end
  | HeldKey _ => false
  end.

Definition reported_up (pressed : list PhysicalKey) (x : Held) : bool :=
  match x with
  | HeldButton _ => false
  | HeldKey key => negb (existsb (fun k => keycode k =? keycode key) pressed)
  end.

Definition set_down v m := mk (mapping m) v (releases m) (found m) (dirty m).
Definition set_rows f d m := mk (mapping m) (down m) (releases m) f d.

Definition lookup_row (key : PhysicalKey) (rows : list (PhysicalKey * CoreKeyboardMapping.t)) :
    option CoreKeyboardMapping.t :=
  snd ∘ snd <$> list_find (fun row => fst row = key) rows.

Definition step (m : t) (c : Call) : t :=
  match c with
  | Sent event cookie =>
      match transition_of event with
      | Some (x, true) =>
          mk (mapping m) (x :: down m) (filter (fun r => snd r <> x) (releases m)) (found m) (dirty m)
      | Some (x, false) =>
          match cookie with
          | Some n => mk (mapping m) (down m) ((n, x) :: releases m) (found m) (dirty m)
          | None => m
          end
      | None => m
      end
  | Checked n => set_down (filter (fun x => (n, x) ∉ releases m) (down m)) m
  | SawPointer observation =>
      set_down (filter (fun x => shown_up (mapping m) observation x = false) (down m)) m
  | SawKeys pressed => set_down (filter (fun x => reported_up pressed x = false) (down m)) m
  | SawMapping mapping => mk mapping (down m) (releases m) (found m) (dirty m)
  | ReadRow key row =>
      match lookup_row key (dirty m) with
      | Some original =>
          if decide (row = original)
          then set_rows (found m) (filter (fun r => fst r <> key) (dirty m)) m
          else m
      | None => set_rows ((key, row) :: found m) (dirty m) m
      end
  | WroteRow key row =>
      match lookup_row key (dirty m), lookup_row key (found m) with
      | None, Some original => set_rows (found m) ((key, original) :: dirty m) m
      | _, _ => m
      end
  end.

Definition watch (calls : list Call) : t := fold_left step calls initial.

Lemma watch_app (l k : list Call) : watch (l ++ k) = fold_left step k (watch l).
Proof. unfold watch. by rewrite fold_left_app. Qed.

End Monitor.
