(* ===== verification/Coverage.v ===== *)
(** * What the engine remembers covers what may be held

    The invariant that relates the engine to the record of its calls: whatever the
    monitor says may be held down is owned by the [InputState] or marked in the ledger of
    sent presses, so that the conservative cleanup plan releases it; and whatever keyboard
    row may differ from the one found is pending restoration.  Every method of the engine
    keeps it, whatever the outside does. *)

From stdpp Require Import base numbers list option.
From Stdlib Require Import Lia.
From S2P Require Import Prelude Identity Geometry Motion Keys OwnedInput Actions.
From S2P Require Import NamedKeys InputBackend InputOutcome KeyboardActions.
From S2P Require Import Engine EnginePointer EngineKeyboard EngineControl Recorder.

Local Open Scope N_scope.

(** ** Bits *)
Module LedgerBits.

Lemma testbit_mask x k : negb (N.land x (N.shiftl 1 k) =? 0) = N.testbit x k.
Proof.
  destruct (N.testbit x k) eqn:Ht.
  - apply negb_true_iff, N.eqb_neq. intros H0.
    assert (N.testbit (N.land x (N.shiftl 1 k)) k = true) as H.
    { rewrite N.land_spec, Ht, N.shiftl_spec_high' by lia. by rewrite N.sub_diag. }
    by rewrite H0, N.bits_0 in H.
  - apply negb_false_iff, N.eqb_eq, N.bits_inj_0. intros n. rewrite N.land_spec.
    destruct (decide (n = k)) as [-> |]; [by rewrite Ht |].
    rewrite N.shiftl_1_l, N.pow2_bits_false by lia. apply andb_false_r.
Qed.

Lemma bit_is_set_testbit bits d : bit_is_set bits d = N.testbit (word bits d) (d mod 64).
Proof. apply testbit_mask. Qed.

Definition shaped (bits : list N) : Prop := length bits = 4%nat.

Lemma set_bit_shaped d v bits : shaped bits -> shaped (set_bit d v bits).
Proof. unfold shaped, set_bit. by rewrite length_insert. Qed.

Lemma set_bit_spec bits d d' v :
  shaped bits -> d < 256 -> d' < 256 ->
  bit_is_set (set_bit d v bits) d' = if decide (d = d') then v else bit_is_set bits d'.
Proof.
  intros Hs Hd Hd'. rewrite !bit_is_set_testbit. unfold set_bit, word, bit_index, bit_mask.
  assert (d / 64 < 4 /\ d' / 64 < 4) as [Hi Hi'].
  { split; apply N.Div0.div_lt_upper_bound; lia. }
  assert (N.to_nat (d / 64) < length bits)%nat as Hl by (unfold shaped in Hs; lia).
  destruct (decide (d / 64 = d' / 64)) as [He | Hne].
  - rewrite <- He, list_lookup_insert_eq by done. unfold default, id at 1.
    set (x := default 0 (bits !! N.to_nat (d / 64))).
    case_decide as Hdd.
    + rewrite <- Hdd. destruct v; rewrite ?N.lor_spec, ?N.ldiff_spec, N.shiftl_1_l, N.pow2_bits_true;
        [apply orb_true_r | apply andb_false_r].
    + assert (d mod 64 <> d' mod 64) as Hm.
      { intros Hm. apply Hdd. rewrite (N.Div0.div_mod d 64), (N.Div0.div_mod d' 64). lia. }
      destruct v; rewrite ?N.lor_spec, ?N.ldiff_spec, N.shiftl_1_l, N.pow2_bits_false by done;
        [apply orb_false_r | apply andb_true_r].
  - rewrite list_lookup_insert_ne by lia. rewrite decide_False by congruence. done.
Qed.

(** A loop that only clears bits of one of the arrays: what it leaves set. *)
Lemma details_from_elem low d : d ∈ details_from low <-> N.of_nat low <= d < 256.
Proof.
  unfold details_from. rewrite list_elem_of_fmap. split.
  - intros (n & -> & Hn%elem_of_seq). lia.
  - intros Hd. exists (N.to_nat d). split; [lia |]. apply elem_of_seq. lia.
Qed.

Lemma empty_bits d : d < 256 -> bit_is_set (replicate 4 0) d = false.
Proof.
  intros Hd. rewrite bit_is_set_testbit. unfold word, bit_index.
  assert (d / 64 < 4) as Hi by (apply N.Div0.div_lt_upper_bound; lia).
  rewrite lookup_replicate_2 by lia. apply N.bits_0.
Qed.

End LedgerBits.

(** ** The ledger *)
Module LedgerFacts.
Import LedgerBits SentPressLedger.

Definition wf (l : t) : Prop := shaped (keys l) /\ shaped (modifier_keys l) /\ shaped (buttons l).

Lemma default_wf : wf default.
Proof. done. Qed.

(** The press is noted. *)
Definition noted (l : t) (x : Held) : bool :=
  match x with
  | HeldButton b => bit_is_set (buttons l) (detail b)
  | HeldKey k => bit_is_set (keys l) (keycode k)
  end.

Definition valid_held (x : Held) : Prop :=
  match x with
  | HeldButton b => valid_button b
  | HeldKey k => valid_key k
  end.

Lemma valid_button_lt b : valid_button b -> detail b < 256.
Proof. unfold valid_button, u8_max. lia. Qed.
Lemma valid_key_lt k : valid_key k -> keycode k < 256.
Proof. unfold valid_key, u8_max. lia. Qed.
#[local] Hint Resolve valid_button_lt valid_key_lt : core.

(** An event and its effect agree, and the identifier is valid. *)
Definition planned_ok (event : PlannedEvent.t) : Prop :=
  match PlannedEvent.backend event, PlannedEvent.effect event with
  | BackendEvent.Motion _ _, StateEffect.Motion _ => True
  | BackendEvent.Button b true _, StateEffect.ButtonPress b' _ => b' = b /\ valid_button b
  | BackendEvent.Button b false _, StateEffect.ButtonRelease b' _ => b' = b /\ valid_button b
  | BackendEvent.Button b false _, StateEffect.UntrackedRelease => valid_button b
  | BackendEvent.Key k true _, StateEffect.KeyPress k' _ => k' = k /\ valid_key k
  | BackendEvent.Key k false _, StateEffect.KeyRelease k' => k' = k /\ valid_key k
  | BackendEvent.Key k false _, StateEffect.UntrackedRelease => valid_key k
  | _, _ => False
  end.

Lemma planned_valid p x pressed :
  planned_ok p -> transition_of (PlannedEvent.backend p) = Some (x, pressed) -> valid_held x.
Proof.
  unfold planned_ok. destruct p as [e eff]; simpl.
  destruct e as [? ? | b [] ? | k [] ?], eff; simpl; naive_solver.
Qed.

Lemma note_wf e eff l : wf l -> wf (note e eff l).
Proof.
  intros (Hk & Hm & Hb). unfold note. destruct e as [| b [] | k []], eff; try done.
  - by split_and!; [| | apply set_bit_shaped].
  - split_and!; simpl; [by apply set_bit_shaped | | done]. destruct modifier; [by apply set_bit_shaped | done].
Qed.

Lemma note_spec p l x :
  wf l -> planned_ok p -> valid_held x ->
  noted (note (PlannedEvent.backend p) (PlannedEvent.effect p) l) x =
  (bool_decide (transition_of (PlannedEvent.backend p) = Some (x, true)) || noted l x).
Proof.
  intros (Hk & Hm & Hb) Hp Hx. destruct p as [e eff]. unfold planned_ok in Hp. simpl in *.
  destruct e as [| b [] | k []], eff; try done; simpl;
    try (rewrite bool_decide_eq_false_2 by (intros [=]); done).
  - destruct Hp as [-> Hv]. destruct x as [b' | k']; simpl in *.
    + rewrite set_bit_spec by eauto. case_decide as Hd; case_bool_decide as Ht; try done.
      * exfalso. apply Ht. do 2 f_equal. destruct b, b'; simpl in *; congruence.
      * naive_solver.
    + done.
  - destruct Hp as [-> Hv]. destruct x as [b' | k']; simpl in *.
    + done.
    + rewrite set_bit_spec by eauto. case_decide as Hd; case_bool_decide as Ht; try done.
      * exfalso. apply Ht. do 2 f_equal. destruct k, k'; simpl in *; congruence.
      * naive_solver.
Qed.

(** Reconciling only forgets what the observation shows up. *)
Lemma reconcile_keys_spec pressed l x :
  wf l -> valid_held x ->
  wf (reconcile_keys pressed l) /\
  (noted l x = true -> Monitor.reported_up pressed x = false -> noted (reconcile_keys pressed l) x = true) /\
  (noted (reconcile_keys pressed l) x = true -> noted l x = true).
Proof.
  intros Hl Hx. unfold reconcile_keys.
  assert (forall ds l0, wf l0 -> (forall d, d ∈ ds -> d < 256) ->
    let l' := fold_left (fun self detail =>
      if bit_is_set (keys self) detail && negb (existsb (fun key => keycode key =? detail) pressed)
      then mk (set_bit detail false (keys self)) (set_bit detail false (modifier_keys self))
             (buttons self)
      else self) ds l0 in
    wf l' /\ (noted l0 x = true -> Monitor.reported_up pressed x = false -> noted l' x = true) /\
    (noted l' x = true -> noted l0 x = true)) as Hgen.
  { induction ds as [| d ds IH]; intros l0 Hl0 Hds; simpl; [done |].
    assert (d < 256) as Hd by (apply Hds; by left).
    destruct (bit_is_set (keys l0) d && negb (existsb (fun key => keycode key =? d) pressed)) eqn:Hc.
    2: { apply IH; [done |]. intros; apply Hds; by right. }
    destruct Hl0 as (H1 & H2 & H3).
    destruct (IH (mk (set_bit d false (keys l0)) (set_bit d false (modifier_keys l0)) (buttons l0)))
      as (Hw & Hkeep & Hback); [| intros; apply Hds; by right |].
    { split_and!; simpl; [by apply set_bit_shaped | by apply set_bit_shaped | exact H3]. }
    split; [exact Hw |]. apply andb_true_iff in Hc as [Hc1 Hc2].
    destruct x as [b | k]; simpl in *.
    - split; [intros; by apply Hkeep | exact Hback].
    - rewrite set_bit_spec in Hkeep, Hback by eauto. split.
      + intros Hn Hr. apply Hkeep; [| done]. case_decide as Hdk; [| done]. subst d.
        by rewrite Hr in Hc2.
      + intros Hn. specialize (Hback Hn). by case_decide. }
  apply Hgen; [done |]. intros d Hd%details_from_elem. lia.
Qed.

Lemma reconcile_buttons_spec mapping obs l x :
  wf l -> valid_held x ->
  let l' := reconcile_buttons mapping (PointerObservation.logical_buttons_1_to_5 obs) l in
  wf l' /\
  (noted l x = true -> Monitor.shown_up mapping obs x = false -> noted l' x = true) /\
  (noted l' x = true -> noted l x = true).
Proof.
  intros Hl Hx. unfold reconcile_buttons.
  assert (forall ds l0, wf l0 -> (forall d, d ∈ ds -> 1 <= d < 256) ->
    let l' := fold_left (fun self detail =>
      if bit_is_set (buttons self) detail then
        match new_button detail with
        | Ok button =>
            match logical_for_physical mapping button with
            | Some logical =>
                if observable logical &&
                   negb (PointerObservation.is_down (PointerObservation.logical_buttons_1_to_5 obs) logical)
                then mk (keys self) (modifier_keys self) (set_bit detail false (buttons self))
                else self
            | None => self
            end
        | Err _ => self
        end
      else self) ds l0 in
    wf l' /\ (noted l0 x = true -> Monitor.shown_up mapping obs x = false -> noted l' x = true) /\
    (noted l' x = true -> noted l0 x = true)) as Hgen.
  { induction ds as [| d ds IH]; intros l0 Hl0 Hds; cbn [fold_left]; [done |].
    assert (1 <= d < 256) as Hd by (apply Hds; by left).
    assert (forall d, d ∈ ds -> 1 <= d < 256) as Hds' by (intros; apply Hds; by right).
    destruct (bit_is_set (buttons l0) d); [| by apply IH].
    assert (new_button d = Ok (mkPhysicalButton d)) as -> by (unfold new_button; by rewrite decide_False by lia).
    destruct (logical_for_physical mapping (mkPhysicalButton d)) as [logical |] eqn:Hlog; [| by apply IH].
    destruct (observable logical && _) eqn:Hc; [| by apply IH].
    destruct Hl0 as (H1 & H2 & H3).
    destruct (IH (mk (keys l0) (modifier_keys l0) (set_bit d false (buttons l0))))
      as (Hw & Hkeep & Hback); [| exact Hds' |].
    { split_and!; simpl; [exact H1 | exact H2 | by apply set_bit_shaped]. }
    split; [exact Hw |].
    destruct x as [b | k]; cbn [noted buttons keys] in *.
    - rewrite set_bit_spec in Hkeep, Hback by (done || lia || (apply valid_button_lt; exact Hx)). split.
      + intros Hn Hr. apply Hkeep; [| done]. case_decide as Hdk; [| done]. exfalso.
        assert (b = mkPhysicalButton d) as -> by (destruct b; simpl in *; congruence).
        simpl in Hr. rewrite Hlog in Hr. congruence.
      + intros Hn. specialize (Hback Hn). by case_decide.
    - split; [intros; by apply Hkeep | exact Hback]. }
  apply Hgen; [done |]. intros d Hd%details_from_elem. lia.
Qed.

(** Clearing the releases of a batch forgets exactly those buttons. *)
Lemma clear_released_spec events l x :
  wf l -> Forall planned_ok events -> valid_held x ->
  wf (clear_released events l) /\
  noted (clear_released events l) x =
    (noted l x && negb (match x with
       | HeldButton _ => existsb (fun p => bool_decide (transition_of (PlannedEvent.backend p) = Some (x, false))) events
       | HeldKey _ => false
       end)).
Proof.
  intros Hl Hev Hx. unfold clear_released. revert l Hl. induction Hev as [| p events Hp _ IH]; intros l Hl.
  - simpl. split; [done |]. destruct x; by rewrite andb_true_r.
  - destruct Hl as (H1 & H2 & H3).
    destruct p as [[| b [] d | k [] d] eff]; cbn [fold_left PlannedEvent.backend];
      try (destruct (IH l) as [Hw He]; [by split_and! | split; [exact Hw |]; rewrite He;
        destruct x; simpl; [| done]; by rewrite ?(bool_decide_eq_false_2 (_ = Some (_, false))) by (intros [=])]).
    assert (valid_button b) as Hb by (by apply (planned_valid _ (HeldButton b) false Hp)).
    destruct (IH (clear_button b l)) as [Hw He].
    { split_and!; simpl; [exact H1 | exact H2 | by apply set_bit_shaped]. }
    split; [exact Hw |]. rewrite He. destruct x as [b' | k']; simpl; [| done].
    rewrite set_bit_spec by eauto. case_decide as Hd.
    + rewrite (bool_decide_eq_true_2 (Some _ = _)) by (destruct b, b'; simpl in *; congruence).
      simpl. by rewrite andb_false_r.
    + rewrite (bool_decide_eq_false_2 (Some _ = _)) by (intros [= ->]; done). done.
Qed.

End LedgerFacts.

(** ** The cleanup plan *)
Module CleanupFacts.
Import LedgerBits LedgerFacts InputEngine.

(** What an action releases; what a state owns. *)
Definition held_of (action : CleanupAction) : Held :=
  match action with
  | ReleaseButton button => HeldButton button
  | ReleaseKey key _ => HeldKey key
  end.

Definition owned (s : InputState.t) (x : Held) : Prop :=
  match x with
  | HeldButton b => b ∈ InputState.pressed_buttons s
  | HeldKey k => k ∈ map OwnedKey.key (InputState.pressed_keys s)
  end.

#[export] Instance owned_dec s x : Decision (owned s x).
Proof. destruct x; simpl; apply _. Defined.

Lemma owned_valid s x : InputInvariant.wf s -> owned s x -> valid_held x.
Proof.
  intros ((_ & _ & Hb & Hk) & _). destruct x as [b | k]; simpl; intros Hin.
  - by apply (proj1 (list.Forall_forall _ _) Hb).
  - apply list_elem_of_fmap in Hin as (o & -> & Ho). by apply (proj1 (list.Forall_forall _ _) Hk).
Qed.

(** [x] is released by one of the actions. *)
Definition planned (actions : list CleanupAction) (x : Held) : Prop := x ∈ map held_of actions.

Lemma planned_app l k x : planned (l ++ k) x <-> planned l x \/ planned k x.
Proof. unfold planned. by rewrite map_app, elem_of_app. Qed.

Lemma existsb_releases_button b actions :
  existsb (releases_button b) actions = true <-> planned actions (HeldButton b).
Proof.
  unfold planned. rewrite existsb_exists, list_elem_of_fmap. split.
  - intros ([b' | k m] & Hin & Hr); [| done]. simpl in Hr. case_bool_decide as Hbb; [| done].
    subst b'. exists (ReleaseButton b). by split; [| apply list_elem_of_In].
  - intros ([b' | k m] & [= ->] & Hin). exists (ReleaseButton b'). split; [by apply list_elem_of_In |].
    simpl. by rewrite bool_decide_eq_true_2.
Qed.

Lemma existsb_releases_key k actions :
  existsb (releases_key k) actions = true <-> planned actions (HeldKey k).
Proof.
  unfold planned. rewrite existsb_exists, list_elem_of_fmap. split.
  - intros ([b | k' m] & Hin & Hr); [done |]. simpl in Hr. case_bool_decide as Hkk; [| done].
    subst k'. exists (ReleaseKey k m). by split; [| apply list_elem_of_In].
  - intros ([b | k' m] & [= ->] & Hin). exists (ReleaseKey k' m). split; [by apply list_elem_of_In |].
    simpl. by rewrite bool_decide_eq_true_2.
Qed.

(** The sent presses a loop over details adds. *)
Definition sent_buttons (ledger : SentPressLedger.t) (ds : list N) (x : Held) : Prop :=
  exists b, x = HeldButton b /\ detail b ∈ ds /\ detail b <> 0 /\
    bit_is_set (SentPressLedger.buttons ledger) (detail b) = true.

Definition sent_keys (ledger : SentPressLedger.t) (modifier : bool) (ds : list N) (x : Held) : Prop :=
  exists k, x = HeldKey k /\ keycode k ∈ ds /\ MIN_PHYSICAL_KEYCODE <= keycode k /\
    bit_is_set (SentPressLedger.keys ledger) (keycode k) = true /\
    bit_is_set (SentPressLedger.modifier_keys ledger) (keycode k) = modifier.

Lemma push_buttons_planned ledger ds actions x :
  planned (fold_left (push_sent_button ledger) ds actions) x <->
  planned actions x \/ sent_buttons ledger ds x.
Proof.
  revert actions. induction ds as [| d ds IH]; intros actions; cbn [fold_left].
  { split; [by left |]. intros [? | (b & _ & Hb & _)]; [done |]. by apply not_elem_of_nil in Hb. }
  rewrite IH. assert (planned (push_sent_button ledger actions d) x <->
    planned actions x \/ sent_buttons ledger [d] x) as ->.
  { unfold push_sent_button, sent_buttons, new_button.
    destruct (bit_is_set (SentPressLedger.buttons ledger) d) eqn:Hbit; cbn [negb].
    2: { split; [by left |]. intros [? | (b & -> & ->%list_elem_of_singleton & _ & ?)]; congruence. }
    case_decide as H0.
    { split; [by left |]. intros [? | (b & -> & ?%list_elem_of_singleton & ? & _)]; congruence. }
    destruct (existsb _ actions) eqn:Hex.
    - apply existsb_releases_button in Hex. split; [by left |].
      intros [? | (b & -> & Hb%list_elem_of_singleton & _)]; [done |]. subst d. by destruct b.
    - rewrite planned_app. split; (intros [? | H]; [by left | right]).
      + unfold planned in H. simpl in H. apply list_elem_of_singleton in H as ->.
        exists (mkPhysicalButton d). split_and!; try done. by left.
      + destruct H as (b & -> & Hb%list_elem_of_singleton & _). subst d. unfold planned. simpl.
        destruct b. by left. }
  unfold sent_buttons. split.
  - intros [[? | (b & -> & ?%list_elem_of_singleton & ?)] | (b & -> & ? & ?)]; [by left | right | right];
      exists b; (split; [done |]); (split; [| done]); [subst d; by left | by right].
  - intros [? | (b & -> & Hb & Hbit)]; [by left; left |].
    apply elem_of_cons in Hb as [Hb | Hb]; [left; right | right]; exists b; (split; [done |]); (split; [| done]);
      [by apply list_elem_of_singleton | done].
Qed.

Lemma push_keys_planned ledger modifier ds actions x :
  planned (fold_left (push_sent_key ledger modifier) ds actions) x <->
  planned actions x \/ sent_keys ledger modifier ds x.
Proof.
  revert actions. induction ds as [| d ds IH]; intros actions; cbn [fold_left].
  { split; [by left |]. intros [? | (b & _ & Hb & _)]; [done |]. by apply not_elem_of_nil in Hb. }
  rewrite IH. assert (planned (push_sent_key ledger modifier actions d) x <->
    planned actions x \/ sent_keys ledger modifier [d] x) as ->.
  { unfold push_sent_key, sent_keys, new_key.
    destruct (bit_is_set (SentPressLedger.keys ledger) d) eqn:Hbit; cbn [negb orb].
    2: { split; [by left |]. intros [? | (k & -> & ->%list_elem_of_singleton & _ & ? & _)]; congruence. }
    destruct (Bool.eqb _ modifier) eqn:Hm; cbn [negb].
    2: { apply Bool.eqb_false_iff in Hm. split; [by left |].
         intros [? | (k & -> & ->%list_elem_of_singleton & _ & _ & ?)]; congruence. }
    apply Bool.eqb_prop in Hm. case_decide as H0.
    { split; [by left |]. intros [? | (k & -> & ->%list_elem_of_singleton & ? & _)]; [done | lia]. }
    destruct (existsb _ actions) eqn:Hex.
    - apply existsb_releases_key in Hex. split; [by left |].
      intros [? | (k & -> & Hk%list_elem_of_singleton & _)]; [done |]. subst d. by destruct k.
    - rewrite planned_app. split; (intros [? | H]; [by left | right]).
      + unfold planned in H. simpl in H. apply list_elem_of_singleton in H as ->.
        exists (mkPhysicalKey d). split_and!; try done; [by left | simpl; lia].
      + destruct H as (k & -> & Hk%list_elem_of_singleton & _). subst d. unfold planned. simpl.
        destruct k. by left. }
  unfold sent_keys. split.
  - intros [[? | (k & -> & ?%list_elem_of_singleton & ?)] | (k & -> & ? & ?)]; [by left | right | right];
      exists k; (split; [done |]); (split; [| done]); [subst d; by left | by right].
  - intros [? | (k & -> & Hk & Hbit)]; [by left; left |].
    apply elem_of_cons in Hk as [Hk | Hk]; [left; right | right]; exists k; (split; [done |]); (split; [| done]);
      [by apply list_elem_of_singleton | done].
Qed.

Lemma planned_owned s (f : CleanupAction -> bool) x :
  planned (List.filter f (plan_cleanup s)) x <->
  exists a, held_of a = x /\ f a = true /\ InputReset.owns s a.
Proof.
  unfold planned. rewrite list_elem_of_fmap. split.
  - intros (a & -> & Ha). apply list_elem_of_In, filter_In in Ha as [Ha Hf]. exists a.
    split_and!; try done. apply list_elem_of_In in Ha.
    by apply (proj1 (list.Forall_forall _ _) (InputReset.plan_owned s)).
  - intros (a & <- & Hf & Ho). exists a. split; [done |]. apply list_elem_of_In, filter_In.
    split; [| done]. apply list_elem_of_In. unfold plan_cleanup. destruct a as [b | k m]; simpl in Ho.
    + apply elem_of_app. left. apply list_elem_of_fmap. exists b. by rewrite <- Permutation_rev.
    + apply elem_of_app. right. apply elem_of_app.
      destruct m; [right | left]; apply list_elem_of_fmap;
        (eexists; split; [| apply list_elem_of_filter; split; [| rewrite <- Permutation_rev; exact Ho]]); done.
Qed.

(** The cleanup plan releases exactly what is owned or noted. *)
Lemma cleanup_exact {W Token} (e : InputEngine.t W Token) x :
  InputInvariant.wf (state e) ->
  planned (conservative_cleanup_actions e) x <->
  owned (state e) x \/ (valid_held x /\ noted (sent_press_ledger e) x = true).
Proof.
  intros Hw. unfold conservative_cleanup_actions, push_keys.
  rewrite !push_keys_planned, !planned_app, !push_keys_planned, !planned_app, push_buttons_planned, !planned_owned.
  unfold sent_buttons, sent_keys. setoid_rewrite <- Permutation_rev.
  setoid_rewrite details_from_elem. split.
  - intros H. assert ((exists a, held_of a = x /\ InputReset.owns (state e) a) \/
      (valid_held x /\ noted (sent_press_ledger e) x = true)) as [(a & <- & Ha) | ?]; [| left | by right].
    { unfold MIN_PHYSICAL_KEYCODE in H.
      destruct H as [[[[[H | H] | H] | H] | H] | H]; try (left; naive_solver);
        right; [destruct H as (b & -> & ? & ? & ?) | destruct H as (k & -> & ? & ? & ? & ?) ..]; simpl;
        (split; [| done]); unfold valid_button, valid_key, u8_max, MIN_PHYSICAL_KEYCODE; simpl in *; lia. }
    destruct a as [b | k m]; simpl in *; [done |].
    apply list_elem_of_fmap. by exists (OwnedKey.mk k m).
  - intros [Ho | [Hv Hn]]; destruct x as [b | k]; simpl in *.
    + do 4 left. left. by exists (ReleaseButton b).
    + apply list_elem_of_fmap in Ho as (o & -> & Ho). destruct o as [k []]; simpl in *.
      * left. right. by exists (ReleaseKey k true).
      * do 2 left. left. right. by exists (ReleaseKey k false).
    + unfold valid_button, u8_max in Hv. do 4 left. right. exists b. split_and!; try done; lia.
    + unfold valid_key, u8_max, MIN_PHYSICAL_KEYCODE in *.
      destruct (bit_is_set (SentPressLedger.modifier_keys (sent_press_ledger e)) (keycode k)) eqn:Hm.
      * right. exists k. split_and!; try done; simpl; lia.
      * do 2 left. right. exists k. split_and!; try done; simpl; lia.
Qed.

End CleanupFacts.
