(* ===== verification/EngineInvariant.v ===== *)
(** * The invariant of the input engine, and what its simplest methods keep

    [inv] relates an engine over a recorded world to the monitor of its calls: whatever
    may be held down is in the cleanup plan, and whatever keyboard row may differ from the
    one found is pending restoration.  A calm step may learn that something is up and may
    abandon releases in flight, but presses nothing; the assertions of the proofs are
    stable under calm steps, so a method that is calm keeps all of them. *)

From stdpp Require Import base numbers list option.
From Stdlib Require Import Lia.
From S2P Require Import Prelude Identity Geometry Motion Keys OwnedInput Actions.
From S2P Require Import NamedKeys InputBackend InputOutcome KeyboardActions.
From S2P Require Import Engine EnginePointer EngineKeyboard EngineControl Recorder Coverage.

Local Open Scope N_scope.

Import LedgerFacts CleanupFacts InputEngine.

(** The keyboard model yields keycodes it built with [PhysicalKey::new]. *)
Definition valid_binding {Token} (b : CapturedKeyBinding.t Token) : Prop :=
  valid_key (CapturedKeyBinding.key b) /\
  Forall (fun m => valid_key (RequiredModifierBinding.key m)) (CapturedKeyBinding.required_modifiers b).

Class TypedKeyboard (V : Type) `{!ActorKeyboardModel V} : Prop := {
  resolve_valid identifier context (w w' : V) b :
    resolve_synchronized identifier context w = (w', Ok b) -> valid_binding b
}.

Definition valid_hold {Token} (hold : CapturedKeyHold.t Token) : Prop :=
  valid_key (CapturedKeyBinding.key (CapturedKeyHold.binding hold)) /\
  Forall valid_key (CapturedKeyHold.synthesized_modifiers hold).

Definition held_of_pending (p : PendingRelease) : Held :=
  match p with
  | PendingButton b => HeldButton b
  | PendingKey k => HeldKey k
  end.

(** The dirty rows are of the pending restoration, and its original is the row found. *)
Definition restorable (pending : option PendingTemporaryRestore.t) (m : Monitor.t) : Prop :=
  match pending with
  | None => Monitor.dirty m = []
  | Some (PendingTemporaryRestore.mk key original) =>
      Monitor.lookup_row key (Monitor.found m) = Some original /\
      forall row, row ∈ Monitor.dirty m -> row = (key, original)
  end.

(** Calls that only show what is up. *)
Definition lowering (c : Call) : bool :=
  match c with
  | Checked _ | SawPointer _ | SawKeys _ => true
  | _ => false
  end.

Lemma step_lowering m c :
  lowering c = true ->
  let m' := Monitor.step m c in
  Monitor.mapping m' = Monitor.mapping m /\ Monitor.releases m' = Monitor.releases m /\
  Monitor.found m' = Monitor.found m /\ Monitor.dirty m' = Monitor.dirty m /\
  (forall x, x ∈ Monitor.down m' -> x ∈ Monitor.down m).
Proof. destruct c; try done; intros _; simpl; split_and!; try done; intros x [_ ?]%list_elem_of_filter; done. Qed.

Section Invariant.
Context {V : Type} `{!InputBackend V, !ActorKeyboardModel V, !Surroundings V, !Observed V}.

#[local] Abbreviation Engine := (InputEngine.t V BindingToken).
Implicit Types (e : Engine) (P : Engine -> Prop).

Definition seen (e : Engine) : Monitor.t := Monitor.watch (trace V (world e)).
Definition down (e : Engine) : list Held := Monitor.down (seen e).
Definition pending (e : Engine) : list PendingRelease := InputState.pending_releases (state e).

(** [x] is in the cleanup plan. *)
Definition covered (e : Engine) (x : Held) : Prop :=
  owned (state e) x \/ noted (sent_press_ledger e) x = true.

Record inv (e : Engine) : Prop := {
  inv_state : InputInvariant.wf (state e);
  inv_ledger : LedgerFacts.wf (sent_press_ledger e);
  inv_mapping : Monitor.mapping (seen e) = button_mapping e;
  inv_down : forall x, x ∈ down e -> valid_held x /\ covered e x;
  inv_restore : restorable (pending_keyboard_restore e) (seen e);
  inv_captured : Forall valid_hold (captured_keys e)
}.

(** No release in flight is of something that may be held: the assertion between
    batches. *)
Definition Settled (e : Engine) : Prop :=
  inv e /\ forall p, p ∈ pending e -> held_of_pending p ∉ down e.

Lemma settled_inv e : Settled e -> inv e.
Proof. by intros []. Qed.

Lemma settled_empty e : inv e -> pending e = [] -> Settled e.
Proof. intros Hi Hp. split; [done |]. intros p. rewrite Hp. by intros ?%not_elem_of_nil. Qed.

(** ** Calm steps *)

(** The rows found and dirty, and the pending restoration. *)
Definition rows (e : Engine) :=
  (Monitor.found (seen e), Monitor.dirty (seen e), pending_keyboard_restore e).

Definition calm (e e' : Engine) : Prop :=
  inv e -> inv e' /\ (forall x, x ∈ down e' -> x ∈ down e) /\
    (forall p, p ∈ pending e' -> p ∈ pending e) /\ rows e' = rows e.

Class Stable (P : Engine -> Prop) : Prop := stable e e' : P e -> calm e e' -> P e'.

#[export] Instance inv_stable : Stable inv.
Proof. intros e e' He Hr. by apply Hr. Qed.

#[export] Instance settled_stable : Stable Settled.
Proof.
  intros e e' [He Hc] Hr. destruct (Hr He) as (Hi & Hd & Hs & _). split; [done |].
  intros p Hp Hx. by eapply (Hc p); [apply Hs | apply Hd].
Qed.

(** [x] may not be held; there is no release in flight; a restoration is pending. *)
Definition Up (X : Held -> Prop) (e : Engine) : Prop := inv e /\ forall x, X x -> x ∉ down e.
Definition Idle (e : Engine) : Prop := inv e /\ pending e = [].
Definition Restoring (p : option PendingTemporaryRestore.t) (e : Engine) : Prop :=
  inv e /\ pending_keyboard_restore e = p.

(** The row of a key that was found; that no row is dirty. *)
Definition FoundRow (key : PhysicalKey) (row : CoreKeyboardMapping.t) (e : Engine) : Prop :=
  inv e /\ Monitor.lookup_row key (Monitor.found (seen e)) = Some row.
Definition CleanRows (e : Engine) : Prop := inv e /\ Monitor.dirty (seen e) = [].

#[export] Instance up_stable X : Stable (Up X).
Proof.
  intros e e' [He Hu] Hr. destruct (Hr He) as (Hi & Hd & _). split; [done |].
  intros x Hx Hin. by eapply Hu, Hd.
Qed.

#[export] Instance idle_stable : Stable Idle.
Proof.
  intros e e' [He Hp] Hr. destruct (Hr He) as (Hi & _ & Hs & _). split; [done |].
  destruct (pending e') as [| p l]; [done |]. specialize (Hs p (list_elem_of_here p l)).
  rewrite Hp in Hs. by apply not_elem_of_nil in Hs.
Qed.

#[export] Instance restoring_stable p : Stable (Restoring p).
Proof. intros e e' [He Hp] Hr. destruct (Hr He) as (Hi & _ & _ & [= _ _ Hs]). split; [done | congruence]. Qed.

#[export] Instance found_row_stable key row : Stable (FoundRow key row).
Proof.
  intros e e' [He Hp] Hr. destruct (Hr He) as (Hi & _ & _ & [= Hs _ _]). split; [done |]. by rewrite Hs.
Qed.

#[export] Instance clean_rows_stable : Stable CleanRows.
Proof.
  intros e e' [He Hp] Hr. destruct (Hr He) as (Hi & _ & _ & [= _ Hs _]). split; [done | congruence].
Qed.

#[export] Instance and_stable P (X : Engine -> Prop) :
  Stable P -> Stable X -> Stable (fun e => P e /\ X e).
Proof. intros HP HX e e' [??] ?. split; [by eapply HP | by eapply HX]. Qed.

Lemma idle_settled e : Idle e -> Settled e.
Proof. intros []. by apply settled_empty. Qed.

Lemma calm_refl e : calm e e.
Proof. done. Qed.
Lemma calm_trans e1 e2 e3 : calm e1 e2 -> calm e2 e3 -> calm e1 e3.
Proof.
  intros H12 H23 He. destruct (H12 He) as (H2 & ? & ? & ?).
  destruct (H23 H2) as (? & ? & ? & ?). split_and!; [done | auto | auto | congruence].
Qed.

(** A method whose every run is calm keeps every stable assertion. *)
Lemma triple_calm {E A} P (m : M Engine E A) `{!Stable P} :
  (forall e, calm e (fst (m e))) -> triple P m (fun _ => P) (fun _ => P).
Proof.
  intros Hm e He. specialize (Hm e). destruct (m e) as [e' [a | x]]; simpl in Hm; by eapply stable.
Qed.

(** *** Changes of the outside *)
Lemma triple_outside {E A} P (f : V -> V * A) (Q : A -> Engine -> Prop) (R : E -> Engine -> Prop) :
  (forall e w a, P e -> f (world e) = (w, a) -> Q a (set_world w e)) ->
  triple P (outside f : M Engine E A) Q R.
Proof.
  intros H e He. unfold outside. destruct (f (world e)) as [w a] eqn:Hf. by apply H.
Qed.

Lemma seen_world w e cs :
  trace V w = trace V (world e) ++ cs -> seen (set_world w e) = fold_left Monitor.step cs (seen e).
Proof. intros Hc. unfold seen. simpl. by rewrite Hc, Monitor.watch_app. Qed.

(** The calm changes of the monitor. *)
Lemma calm_seen w e :
  let m := seen (set_world w e) in
  Monitor.mapping m = Monitor.mapping (seen e) -> Monitor.found m = Monitor.found (seen e) ->
  Monitor.dirty m = Monitor.dirty (seen e) ->
  (forall x, x ∈ Monitor.down m -> x ∈ down e) -> calm e (set_world w e).
Proof.
  intros m Hm Hf Hr Hd [H1 H2 H3 H4 H5 H6]. fold (down (set_world w e)) in Hd.
  split_and!; [| done | done | unfold rows; fold m; by rewrite Hr, Hf]. split; try done.
  - by fold m; rewrite Hm.
  - intros x Hx. destruct (H4 x (Hd x Hx)) as [? [? | ?]]; split; [done | by left | done | by right].
  - unfold restorable in *. fold m. rewrite Hr, Hf. exact H5.
Qed.

Lemma calm_lowering w e c :
  trace V w = trace V (world e) ++ [c] -> lowering c = true -> calm e (set_world w e).
Proof.
  intros Hc Hl. destruct (step_lowering (seen e) c Hl) as (E1 & _ & E3 & E4 & Hd).
  apply calm_seen; rewrite (seen_world _ _ _ Hc); done.
Qed.

Lemma calm_quiet w e : trace V w = trace V (world e) ++ [] -> calm e (set_world w e).
Proof. intros Hc. apply calm_seen; rewrite (seen_world _ _ _ Hc); done. Qed.

(** Calls that are not recorded. *)
Lemma triple_quiet {E A} P (f : V -> V * A) `{!Stable P} :
  not_recorded (trace V) f -> triple P (outside f : M Engine E A) (fun _ => P) (fun _ => P).
Proof.
  intros Hf. apply triple_outside. intros e w a He Hr%Hf. eapply stable; [exact He |].
  by apply calm_quiet.
Qed.

(** Observations: afterwards nothing that may be held is shown up. *)
Definition shown (observation : PointerObservation.t) e : Prop :=
  forall x, x ∈ down e -> Monitor.shown_up (button_mapping e) observation x = false.

Definition reported (pressed : list PhysicalKey) e : Prop :=
  forall x, x ∈ down e -> Monitor.reported_up pressed x = false.

Lemma triple_observe_pointer {E} P `{!Stable P} (HP : forall e, P e -> inv e) :
  triple P (outside observe_pointer : M Engine E _)
    (fun r e => P e /\ match r with Ok observation => shown observation e | Err _ => True end)
    (fun _ => P).
Proof.
  apply triple_outside. intros e w r He Hf%(trace_observe_pointer V). destruct r as [o | f]; simpl in Hf.
  - split; [eapply stable; [exact He | by eapply calm_lowering] |].
    intros x Hx. unfold down in Hx. rewrite (seen_world _ _ _ Hf) in Hx. simpl in Hx.
    apply list_elem_of_filter in Hx as [Hx _].
    rewrite (inv_mapping _ (HP e He)) in Hx. exact Hx.
  - split; [| done]. eapply stable; [exact He | by apply calm_quiet].
Qed.

Lemma triple_observe_keys {E} P `{!Stable P} :
  triple P (outside observe_keys : M Engine E _)
    (fun r e => P e /\ match r with Ok pressed => reported pressed e | Err _ => True end)
    (fun _ => P).
Proof.
  apply triple_outside. intros e w r He Hf%(trace_observe_keys V). destruct r as [keys | f]; simpl in Hf.
  - split; [eapply stable; [exact He | by eapply calm_lowering] |].
    intros x Hx. unfold down in Hx. rewrite (seen_world _ _ _ Hf) in Hx. simpl in Hx.
    by apply list_elem_of_filter in Hx as [Hx _].
  - split; [| done]. eapply stable; [exact He | by apply calm_quiet].
Qed.

(** *** Changes of the ledger *)

(** A change of the ledger that forgets only what may not be held. *)
Lemma calm_ledger e l :
  (inv e -> LedgerFacts.wf l /\
    forall x, valid_held x -> x ∈ down e -> noted (sent_press_ledger e) x = true -> noted l x = true) ->
  calm e (set_sent_press_ledger l e).
Proof.
  intros Hl Hi. destruct (Hl Hi) as [Hw Hk]. destruct Hi as [H1 H2 H3 H4 H5 H6].
  split_and!; [| done | done | done]. split; try done.
  intros x Hx. destruct (H4 x Hx) as [Hv [Ho | Hn]]; (split; [done |]); [by left | right].
  by apply Hk.
Qed.

Lemma triple_reconcile_buttons {E} P observation `{!Stable P} :
  triple (fun e => P e /\ shown observation e) (reconcile_buttons observation : M Engine E unit)
    (fun _ => P) (fun _ => P).
Proof.
  intros e [He Hs]. simpl. eapply stable; [exact He |]. apply calm_ledger. intros Hi.
  pose proof (fun x Hx => reconcile_buttons_spec (button_mapping e) observation
    (sent_press_ledger e) x (inv_ledger e Hi) Hx) as Hspec.
  split; [by destruct (Hspec (HeldKey (mkPhysicalKey 8)) ltac:(done)) |].
  intros x Hv Hx Hn. destruct (Hspec x Hv) as (_ & Hkeep & _). apply Hkeep; [done | by apply Hs].
Qed.

Lemma triple_reconcile_keys {E} P pressed `{!Stable P} :
  triple (fun e => P e /\ reported pressed e) (reconcile_keys pressed : M Engine E unit)
    (fun _ => P) (fun _ => P).
Proof.
  intros e [He Hs]. simpl. eapply stable; [exact He |]. apply calm_ledger. intros Hi.
  pose proof (fun x Hx => reconcile_keys_spec pressed (sent_press_ledger e) x (inv_ledger e Hi) Hx)
    as Hspec.
  split; [by destruct (Hspec (HeldKey (mkPhysicalKey 8)) ltac:(done)) |].
  intros x Hv Hx Hn. destruct (Hspec x Hv) as (_ & Hkeep & _). apply Hkeep; [done | by apply Hs].
Qed.

(** Forgetting what is not held. *)
Lemma triple_clear_released {E} P events `{!Stable P} :
  Forall planned_ok events ->
  (forall e, P e -> forall b, existsb (fun p => bool_decide
     (transition_of (PlannedEvent.backend p) = Some (HeldButton b, false))) events = true ->
     HeldButton b ∉ down e) ->
  triple P (update_ledger (clear_released events) : M Engine E unit) (fun _ => P) (fun _ => P).
Proof.
  intros Hev HP e He. simpl. eapply stable; [exact He |]. apply calm_ledger. intros Hi.
  pose proof (fun x Hx => clear_released_spec events (sent_press_ledger e) x (inv_ledger e Hi) Hev Hx)
    as Hspec.
  split; [by destruct (Hspec (HeldKey (mkPhysicalKey 8)) ltac:(done)) |].
  intros x Hv Hx Hn. destruct (Hspec x Hv) as [_ ->]. rewrite Hn. destruct x as [b | k]; [| done].
  apply andb_true_iff. split; [done |]. apply negb_true_iff, not_true_is_false. intros Hr.
  by apply (HP e He b).
Qed.

(** *** Changes of the other fields *)
Lemma calm_field (f : Engine -> Engine) e :
  world (f e) = world e -> state (f e) = state e -> button_mapping (f e) = button_mapping e ->
  captured_keys (f e) = captured_keys e -> pending_keyboard_restore (f e) = pending_keyboard_restore e ->
  sent_press_ledger (f e) = sent_press_ledger e -> calm e (f e).
Proof.
  intros E1 E2 E3 E4 E5 E6. unfold calm, rows, pending, down, seen. rewrite E1, E2, E5.
  intros [H1 H2 H3 H4 H5 H6]. split_and!; [| done | done | done].
  split; unfold down, seen, covered in *; rewrite ?E1, ?E2, ?E3, ?E4, ?E5, ?E6; done.
Qed.

Lemma triple_field {E} P (f : Engine -> Engine) `{!Stable P} :
  (forall e, world (f e) = world e /\ state (f e) = state e /\ button_mapping (f e) = button_mapping e /\
    captured_keys (f e) = captured_keys e /\ pending_keyboard_restore (f e) = pending_keyboard_restore e /\
    sent_press_ledger (f e) = sent_press_ledger e) ->
  triple P (modify f : M Engine E unit) (fun _ => P) (fun _ => P).
Proof.
  intros Hf. apply triple_calm; [done |]. intros e. destruct (Hf e) as (? & ? & ? & ? & ? & ?).
  by apply calm_field.
Qed.

Lemma triple_record_pointer {E} P observation `{!Stable P} :
  triple P (record_pointer observation : M Engine E unit) (fun _ => P) (fun _ => P).
Proof. by apply triple_field. Qed.

(** Recording the pointer does not move what an observation showed. *)
Lemma triple_record_shown {E} P observation `{!Stable P} :
  triple (fun e => P e /\ shown observation e) (record_pointer observation : M Engine E unit)
    (fun _ e => P e /\ shown observation e) (fun _ => P).
Proof.
  intros e [He Hs]. simpl. split; [| exact Hs]. eapply stable; [exact He |].
  by apply (calm_field (set_last_pointer _)).
Qed.

(** *** Drained events *)
Definition with_drained (drained : DrainedEvents.t) (e : Engine) : Engine :=
  match DrainedEvents.pointer_mapping drained with
  | Some updated => set_button_mapping updated e
  | None => e
  end.

Lemma triple_drain_events {E} P `{!Stable P} :
  triple P (outside drain_events : M Engine E _)
    (fun r e => match r with Ok drained => P (with_drained drained e) | Err _ => P e end)
    (fun _ => P).
Proof.
  apply triple_outside. intros e w r He Hf%(trace_drain_events V).
  destruct r as [d | f]; simpl in Hf; (eapply stable; [exact He |]); [| by apply calm_quiet].
  unfold with_drained. destruct (DrainedEvents.pointer_mapping d) as [mapping |];
    [| by apply calm_quiet].
  apply seen_world in Hf. simpl in Hf. intros [H1 H2 H3 H4 H5 H6].
  assert (seen (set_button_mapping mapping (set_world w e)) =
    Monitor.mk mapping (down e) (Monitor.releases (seen e)) (Monitor.found (seen e))
      (Monitor.dirty (seen e))) as Hs by exact Hf.
  unfold down, pending, rows. rewrite Hs. split_and!; [| done | done | done].
  split; try done; unfold down; rewrite Hs; done.
Qed.

Lemma triple_apply_drained {E} P drained :
  triple (fun e => P (with_drained drained e)) (apply_drained_mapping drained : M Engine E unit)
    (fun _ => P) (fun _ => P).
Proof.
  intros e He. unfold apply_drained_mapping, with_drained in *.
  by destruct (DrainedEvents.pointer_mapping drained).
Qed.

Lemma triple_drain {E} P `{!Stable P} :
  triple P (drain : M Engine E _) (fun _ => P) (fun _ => P).
Proof.
  eapply triple_bind; [by apply triple_drain_events |]. intros [d | f]; [| by apply triple_ret].
  eapply triple_bind; [apply triple_apply_drained |]. intros []. by apply triple_ret.
Qed.

End Invariant.
