(* ===== verification/EngineBatch.v ===== *)
(** * Batches keep the invariant

    The calls of the [InputState] as steps of the engine, and [run_batch]: after a batch
    without a failure every release of it was acknowledged, so that confirming it forgets
    nothing that may be held. *)

From stdpp Require Import base numbers list option.
From Stdlib Require Import Lia.
From S2P Require Import Prelude Identity Geometry Motion Keys OwnedInput Actions.
From S2P Require Import NamedKeys InputBackend InputOutcome KeyboardActions.
From S2P Require Import Engine EnginePointer EngineKeyboard EngineControl Recorder Coverage.
From S2P Require Import EngineInvariant.

Local Open Scope N_scope.

Import LedgerFacts CleanupFacts InputEngine InputTrace.

(** ** Releases in flight *)

(** The releases a call may add. *)
Definition submitted (o : op) : list PendingRelease :=
  match o with
  | SubmitButtonRelease b _ => [PendingButton b]
  | SubmitKeyRelease k => [PendingKey k]
  | _ => []
  end.

Lemma append_effect_pending effect s :
  InputInvariant.wf s ->
  InputState.pending_releases (fst (InputState.append_effect effect s)) = InputState.pending_releases s.
Proof.
  intros Hs. pose proof (InputInvariant.append_effect_cases effect s Hs) as H.
  destruct (InputState.append_effect effect s). by destruct H as (_ & (_ & _ & _ & ? & _) & _).
Qed.

Lemma call_pending o s p :
  InputInvariant.wf s -> p ∈ InputState.pending_releases (fst (call o s)) ->
  p ∈ InputState.pending_releases s \/ (p ∈ submitted o /\ is_ok (snd (call o s)) = true).
Proof.
  intros Hs.
  assert (forall eff s' r, InputState.append_effect eff s = (s', r) ->
    InputState.pending_releases s' = InputState.pending_releases s) as Ha.
  { intros eff s' r Happ. pose proof (append_effect_pending eff s Hs) as H. by rewrite Happ in H. }
  destruct o; cbn [call submitted].
  - unfold InputState.begin_action. simpl.
    destruct (InputState.effects s); simpl; [by left |]. case_decide; simpl; [by left |].
    case_decide; simpl; by left.
  - unfold InputState.finish_action. simpl. case_decide; simpl; [by left |].
    destruct (InputState.effects s); simpl; by left.
  - unfold InputState.submit_pointer_motion. unfold bind at 1.
    destruct (InputInvariant.ensure_press_allowed_cases s) as [(-> & _) | (err & ->)]; [| by left].
    unfold bind.
    destruct (InputState.append_effect _ s) as [s' [? | ?]] eqn:He; simpl; rewrite (Ha _ _ _ He); by left.
  - unfold InputState.submit_button_press. unfold bind at 1.
    destruct (InputInvariant.ensure_press_allowed_cases s) as [(-> & _) | (err & ->)]; [| by left].
    unfold bind, get, reject_if.
    repeat case_decide; simpl; try (by left);
      destruct (InputState.append_effect _ s) as [s' [? | ?]] eqn:He; simpl; rewrite (Ha _ _ _ He); by left.
  - unfold InputState.submit_button_release. cbn [bind get]. unfold reject_if.
    case_decide; [by left |]. unfold bind, ret.
    destruct (InputState.append_effect _ s) as [s' [? | ?]] eqn:He; simpl; [| rewrite (Ha _ _ _ He); by left].
    destruct (bool_decide (button ∈ _) && _); simpl; rewrite (Ha _ _ _ He); [| by left].
    rewrite elem_of_app. intros [? | ?]; [by left | by right].
  - unfold InputState.submit_key_press. unfold bind at 1.
    destruct (InputInvariant.ensure_press_allowed_cases s) as [(-> & _) | (err & ->)]; [| by left].
    unfold bind, get, reject_if.
    repeat case_decide; simpl; try (by left);
      destruct (InputState.append_effect _ s) as [s' [? | ?]] eqn:He; simpl; rewrite (Ha _ _ _ He); by left.
  - unfold InputState.submit_key_release. cbn [bind get lift].
    destruct (snd <$> list_find _ _) as [owned |]; cbn [ok_or]; [| by left].
    unfold reject_if. case_decide; [by left |]. unfold bind, ret.
    destruct (InputState.append_effect _ s) as [s' [? | ?]] eqn:He; simpl; rewrite (Ha _ _ _ He); [| by left].
    rewrite elem_of_app. intros [? | ?]; [by left | by right].
  - unfold InputState.confirm_batch. cbn [bind get lift].
    destruct (InputState.batch_checkpoint s) as [c |]; cbn [ok_or]; [| by left].
    destruct (InputState.effects s) as [j |]; cbn [ok_or]; [| by left]. cbn [zoom].
    destruct (EffectJournal.confirm_since c j) as [j' [? | ?]]; cbn [map_err modify]; [| by left].
    simpl. by intros ?%not_elem_of_nil.
  - unfold InputState.fail_batch. cbn [bind get]. unfold reject_if. case_decide; [by left |]. unfold bind, ret.
    destruct (InputInvariant.transition_health_cases (RequireReset reason) s)
      as [(err & ->) | (h & s' & -> & _ & -> & _)]; simpl; [by left | by intros ?%not_elem_of_nil].
  - unfold InputState.abandon_poisoned_reset_batch. simpl. case_decide; simpl; [by left |].
    case_decide; simpl; [by left | by intros ?%not_elem_of_nil].
  - destruct (InputInvariant.transition_health_cases event s)
      as [(err & ->) | (h & s' & -> & _ & -> & _)]; simpl; [by left |].
    destruct (InputState.terminal_event event); [by intros ?%not_elem_of_nil | by left].
Qed.

(** The calls after which, when they succeed, no release is in flight. *)
Definition resolves (o : op) : bool :=
  match o with
  | BeginAction _ | FinishAction | ConfirmBatch | FailBatch _ | AbandonPoisonedResetBatch => true
  | _ => false
  end.

Lemma resolved_pending o s s' :
  resolves o = true -> call o s = (s', Ok tt) -> InputState.pending_releases s' = [].
Proof.
  assert (forall s, ~ InputState.unresolved s -> InputState.pending_releases s = []) as Hu.
  { intros t Ht. destruct (InputState.pending_releases t) eqn:Hp; [done |].
    exfalso. apply Ht. right. by rewrite Hp. }
  destruct o; try done; intros _; cbn [call].
  - unfold InputState.begin_action. simpl.
    destruct (InputState.effects s); simpl; [done |]. case_decide; simpl; [done |].
    case_decide; simpl; [done |]. intros [= <-]. simpl. by apply Hu.
  - unfold InputState.finish_action. simpl. case_decide; simpl; [done |].
    destruct (InputState.effects s); simpl; [| done]. intros [= <-]. simpl. by apply Hu.
  - unfold InputState.confirm_batch. cbn [bind get lift].
    destruct (InputState.batch_checkpoint s) as [c |]; cbn [ok_or]; [| done].
    destruct (InputState.effects s) as [j |]; cbn [ok_or]; [| done]. cbn [zoom].
    destruct (EffectJournal.confirm_since c j) as [j' [? | ?]]; cbn [map_err modify]; [| done].
    by intros [= <-].
  - unfold InputState.fail_batch. cbn [bind get]. unfold reject_if. case_decide; [done |]. unfold bind, ret.
    destruct (InputInvariant.transition_health_cases (RequireReset reason) s)
      as [(err & ->) | (h & t & -> & _ & -> & _)]; [done |]. by intros [= <-].
  - unfold InputState.abandon_poisoned_reset_batch. simpl. case_decide; simpl; [done |].
    case_decide; simpl; [done |]. by intros [= <-].
Qed.

(** The calls that add no release and forget nothing owned. *)
Definition quiet_op (o : op) : bool :=
  match o with
  | SubmitButtonRelease _ _ | SubmitKeyRelease _ | ConfirmBatch => false
  | _ => true
  end.

Lemma call_owned o s x :
  op_valid o -> InputInvariant.wf s -> owned s x ->
  (o = ConfirmBatch -> forall p, p ∈ InputState.pending_releases s -> held_of_pending p <> x) ->
  owned (fst (call o s)) x.
Proof.
  intros Ho Hs Hx Hp. pose proof (InputInvariant.call_effect o s Ho Hs) as H.
  destruct (call o s) as [s' r]. destruct H as (_ & Hown & _). simpl.
  assert (InputState.pressed_buttons s' = InputState.pressed_buttons s /\
    InputState.pressed_keys s' = InputState.pressed_keys s -> owned s' x) as Hsame.
  { intros [E1 E2]. destruct x; simpl in *; by rewrite ?E1, ?E2. }
  destruct o, r; simpl in Hown; try (by apply Hsame).
  - destruct Hown as (_ & _ & E2 & E1). destruct x; simpl in *; [| by rewrite E2]. rewrite E1.
    case_decide; [done | apply elem_of_app; by left].
  - destruct Hown as (_ & _ & E1 & _ & E2). destruct x; simpl in *; [by rewrite E1 |]. rewrite E2, map_app.
    apply elem_of_app. by left.
  - destruct Hown as [E1 E2]. specialize (Hp eq_refl). destruct x as [b | k]; simpl in *.
    + rewrite E1. apply list_elem_of_filter. split; [| done]. intros Hin. by eapply Hp.
    + rewrite E2. apply list_elem_of_fmap in Hx as (ow & -> & Hin). apply list_elem_of_fmap. exists ow.
      split; [done |]. apply list_elem_of_filter. split; [| done]. intros Hq. by eapply Hp.
Qed.

Section Batches.
Context {V : Type} `{!InputBackend V, !ActorKeyboardModel V, !Surroundings V, !Observed V}.

#[local] Abbreviation Engine := (InputEngine.t V BindingToken).
Implicit Types (e : Engine) (P : Engine -> Prop).

(** A change of the state that forgets nothing that may be held. *)
Lemma calm_state s e :
  (inv e -> InputInvariant.wf s /\ (forall x, x ∈ down e -> owned (state e) x -> owned s x) /\
    (forall p, p ∈ InputState.pending_releases s -> p ∈ pending e)) ->
  calm e (set_state s e).
Proof.
  intros Hs Hi. destruct (Hs Hi) as (Hw & Ho & Hp). destruct Hi as [H1 H2 H3 H4 H5 H6].
  split_and!; [| done | done | done]. split; try done.
  intros x Hx. destruct (H4 x Hx) as [Hv [? | ?]]; split; [done | left; by apply Ho | done | by right].
Qed.

(** Confirming a batch is calm when its releases are not of what may be held. *)
Lemma calm_call o e :
  op_valid o -> quiet_op o = true \/ (o = ConfirmBatch /\ Settled e) ->
  calm e (set_state (fst (call o (state e))) e).
Proof.
  intros Ho Hq. apply calm_state. intros Hi. split_and!.
  - by apply InputInvariant.input_apply_wf; [| apply inv_state].
  - intros x Hx Hw. apply call_owned; [done | by apply inv_state | done |]. intros -> p Hp <-.
    destruct Hq as [? | [_ [_ Hc]]]; [done |]. by apply (Hc p).
  - intros p Hp. apply call_pending in Hp as [? | [Hp _]]; [done | | by apply inv_state].
    destruct Hq as [Hq | [-> _]]; [destruct o; try done |]; by apply not_elem_of_nil in Hp.
Qed.

Lemma triple_call {E} P o (m : M InputState.t InputStateError unit) `{!Stable P} :
  m = call o -> op_valid o -> quiet_op o = true \/ (o = ConfirmBatch /\ forall e, P e -> Settled e) ->
  (forall e, P e -> inv e) ->
  triple P (on_state m : M Engine E _)
    (fun r e => P e /\ (is_ok r = true -> resolves o = true -> Idle e)) (fun _ => P).
Proof.
  intros -> Ho Hq HP e He. unfold on_state.
  assert (calm e (set_state (fst (call o (state e))) e)) as Hc.
  { apply calm_call; [done |]. destruct Hq as [? | [? Hs]]; [by left | right; eauto]. }
  destruct (call o (state e)) as [s' r] eqn:Hr. simpl in Hc.
  assert (P (set_state s' e)) as HP' by (by eapply stable). split; [done |].
  intros Hok Hres. split; [by apply HP |]. destruct r as [[] | ?]; [| done].
  by eapply resolved_pending.
Qed.

(** A transition whose result is ignored. *)
Lemma triple_update_call {E} P o `{!Stable P} :
  op_valid o -> quiet_op o = true ->
  triple P (update_state (fun s => fst (call o s)) : M Engine E unit) (fun _ => P) (fun _ => P).
Proof. intros Ho Hq. apply triple_calm; [done |]. intros e. by apply calm_call; [| left]. Qed.

Lemma triple_transition {E} P event `{!Stable P} :
  triple P (transition_ignored event : M Engine E unit) (fun _ => P) (fun _ => P).
Proof. by apply (triple_update_call P (TransitionHealth event)). Qed.

Lemma triple_mark_panicked {E} P `{!Stable P} :
  triple P (mark_panicked : M Engine E unit) (fun _ => P) (fun _ => P).
Proof.
  eapply triple_bind; [by apply triple_field | intros []; by apply triple_transition].
Qed.

Lemma triple_backend_fault {E} P fault `{!Stable P} :
  triple P (apply_backend_fault fault : M Engine E unit) (fun _ => P) (fun _ => P).
Proof. apply triple_if; by apply triple_transition. Qed.

Lemma triple_barrier_fault {E} P fault `{!Stable P} :
  triple P (barrier_fault fault : M Engine E _) (fun _ => P) (fun _ => P).
Proof.
  apply triple_if; (eapply triple_bind; [by apply triple_backend_fault || by apply triple_transition |];
    intros []; by apply triple_ret).
Qed.

Lemma ignore_finish s :
  ignore InputState.finish_action s = fst (call FinishAction s).
Proof.
  unfold call, ignore, InputState.finish_action. simpl. case_decide; simpl; [done |].
  by destruct (InputState.effects s).
Qed.

Lemma calm_finish e : calm e (set_state (fst (InputState.finish_action (state e))) e).
Proof.
  pose proof (ignore_finish (state e)) as Hf. unfold ignore in Hf. rewrite Hf. by apply calm_call; [| left].
Qed.

Lemma triple_finish_action {E} P `{!Stable P} :
  triple P (on_state InputState.finish_action : M Engine E _) (fun _ => P) (fun _ => P).
Proof.
  intros e He. unfold on_state. pose proof (calm_finish e) as Hc.
  destruct (InputState.finish_action (state e)). by eapply stable.
Qed.

Lemma triple_ignore_finish {E} P `{!Stable P} :
  triple P (update_state (ignore InputState.finish_action) : M Engine E unit) (fun _ => P) (fun _ => P).
Proof. apply triple_calm; [done |]. intros e. apply calm_finish. Qed.

Lemma triple_deadline_elapsed {E} P deadline `{!Stable P} :
  triple P (deadline_elapsed deadline : M Engine E _) (fun _ => P) (fun _ => P).
Proof.
  destruct deadline; [| by apply triple_ret].
  eapply triple_bind; [by apply triple_quiet, trace_instant_now | intros; by apply triple_ret].
Qed.

Lemma triple_boundary_stop {E} P cancellation deadline `{!Stable P} :
  triple P (boundary_stop cancellation deadline : M Engine E _) (fun _ => P) (fun _ => P).
Proof.
  eapply triple_bind; [by apply triple_quiet, trace_is_cancelled |]. intros []; [by apply triple_ret |].
  eapply triple_bind; [by apply triple_deadline_elapsed |]. intros b. by apply triple_ret.
Qed.

(** ** The sends of a batch *)

(** What a planned event presses, and releases. *)
Definition presses (p : PlannedEvent.t) (x : Held) : Prop :=
  transition_of (PlannedEvent.backend p) = Some (x, true).
Definition releases (p : PlannedEvent.t) (x : Held) : Prop :=
  transition_of (PlannedEvent.backend p) = Some (x, false).

(** A press that is accepted although its button is owned. *)
Definition redundant (p : PlannedEvent.t) : bool :=
  match PlannedEvent.effect p with
  | StateEffect.ButtonPress _ allow_redundant => allow_redundant
  | _ => false
  end.

(** Nothing is pressed after it was released, and an effect is of its event. *)
Fixpoint ordered (events : list PlannedEvent.t) : Prop :=
  match events with
  | [] => True
  | p :: events =>
      planned_ok p /\ (forall q x, releases p x -> q ∈ events -> ~ presses q x) /\ ordered events
  end.

(** [x] may not be held, or its release is in flight with one of the cookies. *)
Definition acked (cookies : list Cookie) (e : Engine) (x : Held) : Prop :=
  x ∉ down e \/ exists c, c ∈ cookies /\ (cookie_number V c, x) ∈ Monitor.releases (seen e).

(** Between two sends: what may not be held and is not pressed, what was released, and
    what is to come. *)
Record Sends (X released : Held -> Prop) (events : list PlannedEvent.t) (cookies : list Cookie)
    (rp : option PendingTemporaryRestore.t) (e : Engine) : Prop := {
  sends_inv : Restoring rp e;
  sends_up x : X x -> x ∉ down e;
  sends_spared q x : X x -> q ∈ events -> ~ presses q x;
  sends_pending p : p ∈ pending e -> acked cookies e (held_of_pending p);
  sends_released x : released x -> acked cookies e x;
  sends_order q x : released x -> q ∈ events -> ~ presses q x;
  sends_redundant q x : q ∈ events -> redundant q = true -> presses q x ->
    forall p, p ∈ pending e -> held_of_pending p <> x
}.

(** What a send changes. *)
Lemma step_sent m event c :
  let m' := Monitor.step m (Sent event c) in
  Monitor.mapping m' = Monitor.mapping m /\ Monitor.found m' = Monitor.found m /\
  Monitor.dirty m' = Monitor.dirty m /\
  (forall x, x ∈ Monitor.down m' <-> x ∈ Monitor.down m \/ transition_of event = Some (x, true)) /\
  (forall n x, (n, x) ∈ Monitor.releases m -> transition_of event <> Some (x, true) ->
     (n, x) ∈ Monitor.releases m') /\
  (forall n x, c = Some n -> transition_of event = Some (x, false) -> (n, x) ∈ Monitor.releases m').
Proof.
  simpl. destruct (transition_of event) as [[y []] |]; [| destruct c as [n |] |]; simpl;
    split_and!; try done.
  - intros x. rewrite elem_of_cons. naive_solver.
  - intros n x Hx Hne. apply list_elem_of_filter. split; [| done]. simpl. congruence.
  - naive_solver.
  - intros m0 x Hx _. by right.
  - intros m0 x [= ->] [= ->]. by left.
  - naive_solver.
  - naive_solver.
Qed.

Definition noting (p : PlannedEvent.t) (w : V) (e : Engine) : Engine :=
  set_world w (set_sent_press_ledger
    (SentPressLedger.note (PlannedEvent.backend p) (PlannedEvent.effect p) (sent_press_ledger e)) e).

(** A press is noted before it is sent. *)
Lemma inv_sent p e w c :
  planned_ok p -> inv e -> trace V w = trace V (world e) ++ [Sent (PlannedEvent.backend p) c] ->
  inv (noting p w e).
Proof.
  intros Hp [H1 H2 H3 H4 H5 H6] Hw. unfold noting. set (e' := set_world _ _).
  assert (seen e' = Monitor.step (seen e) (Sent (PlannedEvent.backend p) c)) as Hs
    by apply (seen_world w e _ Hw).
  destruct (step_sent (seen e) (PlannedEvent.backend p) c) as (S1 & S2 & S3 & S4 & _).
  split; try done.
  - by apply note_wf.
  - by rewrite Hs, S1.
  - intros x Hx. unfold down in Hx. rewrite Hs in Hx. apply S4 in Hx.
    assert (valid_held x) as Hv by (destruct Hx as [Hx | Hx]; [by apply H4 | by eapply planned_valid]).
    split; [done |]. unfold covered. simpl. rewrite note_spec by done.
    destruct Hx as [Hx | Hx]; [| right; by rewrite bool_decide_eq_true_2].
    destruct (H4 x Hx) as [_ [? | ->]]; [by left | right; by rewrite orb_true_r].
  - unfold restorable in *. by rewrite Hs, S2, S3.
Qed.

(** A change of the state that may add releases in flight. *)
Lemma inv_set_state s e :
  inv e -> InputInvariant.wf s -> (forall x, owned (state e) x -> owned s x) -> inv (set_state s e).
Proof.
  intros [H1 H2 H3 H4 H5 H6] Hw Ho. split; try done.
  intros x Hx. destruct (H4 x Hx) as [Hv [? | ?]]; split; [done | left; by apply Ho | done | by right].
Qed.

(** The effect of an event is a call, except for an untracked release. *)
Definition op_of (effect : StateEffect.t) : option op :=
  match effect with
  | StateEffect.Motion point => Some (SubmitPointerMotion point)
  | StateEffect.ButtonPress button redundant => Some (SubmitButtonPress button redundant)
  | StateEffect.ButtonRelease button redundant => Some (SubmitButtonRelease button redundant)
  | StateEffect.KeyRelease key => Some (SubmitKeyRelease key)
  | StateEffect.KeyPress key modifier => Some (SubmitKeyPress key modifier)
  | StateEffect.UntrackedRelease => None
  end.

Lemma apply_effect_call effect :
  apply_effect effect = match op_of effect with Some o => call o | None => ret tt end.
Proof. by destruct effect. Qed.

Lemma op_of_valid p o : planned_ok p -> op_of (PlannedEvent.effect p) = Some o -> op_valid o /\ o <> ConfirmBatch.
Proof.
  unfold planned_ok. destruct p as [[| b [] ? | k [] ?] []]; simpl; intros Hp; try done;
    intros [= <-]; destruct Hp; subst; done.
Qed.

Lemma submitted_releases p o q :
  planned_ok p -> op_of (PlannedEvent.effect p) = Some o -> q ∈ submitted o -> releases p (held_of_pending q).
Proof.
  unfold planned_ok, releases. destruct p as [[| b [] ? | k [] ?] []]; simpl; intros Hp; try done;
    intros [= <-]; simpl; try (by intros ?%not_elem_of_nil);
    intros ->%list_elem_of_singleton; simpl; by destruct Hp as [-> _].
Qed.

(** An accepted press that is not redundant is of something not owned. *)
Lemma fresh_press p s x q :
  planned_ok p -> redundant p = false -> presses p x ->
  is_ok (snd (apply_effect (PlannedEvent.effect p) s)) = true -> InputInvariant.wf s ->
  q ∈ InputState.pending_releases s -> held_of_pending q <> x.
Proof.
  intros Hp Hr Hx Hok Hs Hq <-. assert (owned s (held_of_pending q)) as Ho.
  { destruct Hs as (_ & (_ & Hb & Hk) & _). destruct q; simpl; [by apply Hb | by apply Hk]. }
  unfold planned_ok, redundant, presses in *.
  destruct p as [[| b [] ? | k [] ?] []]; try done; simpl in Hx, Hp, Hr; destruct Hp as [-> _];
    destruct q as [b' | k']; simpl in Hx, Ho; try congruence; injection Hx as ->.
  - simpl in Hok. unfold InputState.submit_button_press in Hok. unfold bind at 1 in Hok.
    destruct (InputInvariant.ensure_press_allowed_cases s) as [(He & _) | (err & He)];
      rewrite He in Hok; [| done]. subst. cbn [bind get] in Hok. rewrite decide_True in Hok by done.
    unfold reject_if in Hok. by rewrite decide_True in Hok.
  - simpl in Hok. unfold InputState.submit_key_press in Hok. unfold bind at 1 in Hok.
    destruct (InputInvariant.ensure_press_allowed_cases s) as [(He & _) | (err & He)];
      rewrite He in Hok; [| done]. cbn [bind get] in Hok.
    unfold reject_if in Hok. by rewrite decide_True in Hok.
Qed.

Lemma effect_keeps p e :
  planned_ok p -> inv e -> inv (set_state (fst (apply_effect (PlannedEvent.effect p) (state e))) e).
Proof.
  intros Hp Hi. rewrite apply_effect_call.
  destruct (op_of (PlannedEvent.effect p)) as [o |] eqn:Ho; [| by destruct e].
  destruct (op_of_valid p o Hp Ho) as [Hv Hn]. apply inv_set_state; [done | |].
  - by apply InputInvariant.input_apply_wf; [| apply inv_state].
  - intros x Hx. by apply call_owned; [| apply inv_state | |].
Qed.

Lemma acked_more cookies c e x : acked cookies e x -> acked (cookies ++ c) e x.
Proof.
  intros [? | (d & Hd & ?)]; [by left | right; exists d]. split; [apply elem_of_app; by left | done].
Qed.

Lemma acked_sent cookies c p e w eff x :
  acked cookies e x -> ~ presses p x ->
  trace V w = trace V (world e) ++ [Sent (PlannedEvent.backend p) (Some (cookie_number V c))] ->
  acked (cookies ++ [c]) (set_state eff (noting p w e)) x.
Proof.
  intros Hx Hp Hw. apply acked_more.
  assert (seen (set_state eff (noting p w e)) = _) as Hs by exact (seen_world w e _ Hw).
  destruct (step_sent (seen e) (PlannedEvent.backend p) (Some (cookie_number V c)))
    as (_ & _ & _ & S4 & S5 & _).
  destruct Hx as [Hx | (d & Hd & Hr)]; [left | right; exists d; split; [done |]].
  - unfold down. rewrite Hs. by intros [? | ?]%S4.
  - rewrite Hs. by apply S5.
Qed.

(** One event sent and applied. *)
Lemma sends_step X released p events cookies rp c e w s' :
  Sends X released (p :: events) cookies rp e -> planned_ok p ->
  (forall q x, releases p x -> q ∈ events -> ~ presses q x) ->
  trace V w = trace V (world e) ++ [Sent (PlannedEvent.backend p) (Some (cookie_number V c))] ->
  apply_effect (PlannedEvent.effect p) (state e) = (s', Ok tt) ->
  Sends X (fun x => released x \/ releases p x) events (cookies ++ [c]) rp (set_state s' (noting p w e)).
Proof.
  intros [[Hi Hrp] Hup Hsp Hpend Hrel Hord Hred] Hp Hlater Hw Happ.
  assert (forall q, q ∈ InputState.pending_releases s' ->
    q ∈ pending e \/ releases p (held_of_pending q)) as Hnew.
  { intros q Hq. rewrite apply_effect_call in Happ.
    destruct (op_of (PlannedEvent.effect p)) as [o |] eqn:Ho; [| injection Happ as <-; by left].
    destruct (call_pending o (state e) q) as [? | [Hs _]]; [by apply inv_state | by rewrite Happ | by left |].
    right. by eapply submitted_releases. }
  assert (forall x, releases p x -> acked (cookies ++ [c]) (set_state s' (noting p w e)) x) as Hack.
  { intros x Hx. right. exists c. split; [apply elem_of_app; right; by left |].
    assert (seen (set_state s' (noting p w e)) = _) as -> by exact (seen_world w e _ Hw).
    destruct (step_sent (seen e) (PlannedEvent.backend p) (Some (cookie_number V c)))
      as (_ & _ & _ & _ & _ & S6). by apply S6. }
  split.
  - split; [| exact Hrp]. pose proof (effect_keeps p (noting p w e) Hp (inv_sent p e w _ Hp Hi Hw)) as H.
    simpl in H. by rewrite Happ in H.
  - intros x Hx. assert (seen (set_state s' (noting p w e)) = _) as Hs by exact (seen_world w e _ Hw).
    unfold down. rewrite Hs.
    destruct (step_sent (seen e) (PlannedEvent.backend p) (Some (cookie_number V c))) as (_ & _ & _ & S4 & _).
    intros [Hd | Hd]%S4; [by eapply Hup | by apply (Hsp p x Hx (list_elem_of_here _ _))].
  - intros q x Hx Hq. apply Hsp; [done | by right].
  - intros q Hq. destruct (Hnew q Hq) as [Hold | Hr]; [| by apply Hack].
    apply acked_sent; [by apply Hpend | | done]. intros Hx.
    destruct (redundant p) eqn:Hr; [exact (Hred p _ (list_elem_of_here _ _) Hr Hx q Hold eq_refl) |].
    refine (fresh_press p (state e) (held_of_pending q) q Hp Hr Hx _ (inv_state _ Hi) Hold eq_refl).
    by rewrite Happ.
  - intros x [Hx | Hx]; [| by apply Hack].
    apply acked_sent; [by apply Hrel | | done]. exact (Hord p x Hx (list_elem_of_here _ _)).
  - intros q x [Hx | Hx] Hq; [| by apply Hlater]. apply Hord; [done | by right].
  - intros q x Hq Hr Hx r Hrin. destruct (Hnew r Hrin) as [Hold | Hrr].
    + apply (Hred q); [by right | done..].
    + intros <-. by apply (Hlater q (held_of_pending r)).
Qed.

(** The accumulated releases. *)
Definition released_by (events : list PlannedEvent.t) (x : Held) : Prop :=
  exists p, p ∈ events /\ releases p x.

Definition sent_all (run : Sending V) : Prop := send_failure run = None /\ state_failure run = false.

Lemma sends_broken X released events cookies rp e : Sends X released events cookies rp e -> Restoring rp e.
Proof. by intros []. Qed.

Lemma triple_send_events {E} X released events run rp (R : E -> Engine -> Prop) :
  ordered events -> sent_all run ->
  triple (Sends X released events (cookies run) rp) (send_events events run : M Engine E _)
    (fun run e => Restoring rp e /\
       (sent_all run -> Sends X (fun x => released x \/ released_by events x) [] (cookies run) rp e)) R.
Proof.
  revert run released. induction events as [| p events IH]; intros run released Hev Hrun; simpl send_events.
  { apply triple_ret. intros e He. split; [by eapply sends_broken |]. intros _.
    destruct He as [H1 Hu Hsp H2 H3 H4 H5]. split; try done.
    - intros x [? | (q & ?%not_elem_of_nil & _)]; [by apply H3 | done].
    - by intros q x _ ?%not_elem_of_nil. }
  destruct Hev as (Hp & Hlater & Hev). intros e He. unfold bind at 1. unfold update_ledger at 1, modify at 1.
  unfold bind at 1, outside at 1. simpl world.
  destruct (send_event (PlannedEvent.backend p) (world e)) as [w r] eqn:Hsend.
  pose proof (trace_send_event V _ _ _ _ Hsend) as Hw. fold (noting p w e).
  pose proof (sends_broken _ _ _ _ _ _ He) as [Hi Hrp].
  pose proof (inv_sent p e w _ Hp Hi Hw) as Hi'.
  destruct r as [c | f].
  - unfold bind at 1, on_state at 1. change (state (noting p w e)) with (state e).
    pose proof (effect_keeps p (noting p w e) Hp Hi') as Hk. simpl in Hk.
    destruct (apply_effect (PlannedEvent.effect p) (state e)) as [s' [[] | err]] eqn:Happ; simpl in Hk.
    + apply (sends_step _ _ _ _ _ _ c _ w s') in He; try done.
      match goal with |- context [send_events events ?next _] =>
        pose proof (IH next _ Hev (conj eq_refl eq_refl) _ He) as Hnext;
        destruct (send_events events next _) as [e' [run' | x]] end; [| exact Hnext].
      destruct Hnext as [H1 H2]. split; [done |]. intros Hs. destruct (H2 Hs) as [G1 Gu Gs G2 G3 G4 G5].
      split; try done.
      * intros x [? | (q & [-> | ?]%elem_of_cons & ?)]; apply G3;
          [by left; left | by left; right | right; by exists q].
      * by intros q x _ ?%not_elem_of_nil.
    + simpl. split; [done |]. by intros [_ ?].
  - simpl. split; [done |]. by intros [? _].
Qed.

(** ** The checks of the cookies *)
Lemma triple_check_cookies {E} P (X : Held -> Prop) cs failure `{!Stable P} (R : E -> Engine -> Prop) :
  triple (fun e => P e /\ forall x, X x -> acked cs e x) (check_cookies cs failure : M Engine E _)
    (fun r e => P e /\ (r = None -> failure = None /\ forall x, X x -> x ∉ down e)) R.
Proof.
  revert failure. induction cs as [| c cs IH]; intros failure; simpl check_cookies.
  { apply triple_ret. intros e [He Hx]. split; [done |]. intros ->. split; [done |].
    intros x [? | (c & ?%not_elem_of_nil & _)]%Hx; done. }
  eapply triple_bind with (X := fun r e => P e /\ (is_ok r = true -> forall x, X x -> acked cs e x)).
  - apply triple_outside. intros e w r [He Hx] Hw%(trace_check_cookie V).
    destruct r as [u | f]; simpl in Hw; (split; [eapply stable; [exact He |] | try done]).
    + by eapply calm_lowering.
    + intros _ x Hxx. pose proof (seen_world w e _ Hw) as Hs. simpl in Hs.
      destruct (Hx x Hxx) as [Hd | (d & [-> | Hd]%elem_of_cons & Hr)].
      * left. unfold down. rewrite Hs. simpl. by intros [_ ?]%list_elem_of_filter.
      * left. unfold down. rewrite Hs. simpl. by intros [? _]%list_elem_of_filter.
      * right. exists d. split; [done |]. by rewrite Hs.
    + by apply calm_quiet.
  - intros r. destruct r as [u | f].
    + eapply triple_conseq; [apply (IH failure) | | done | done].
      intros e [He Hx]. split; [done |]. by apply Hx.
    + intros e [He _]. clear IH.
      assert (exists g, match failure with
        | Some current => if negb (BackendFault.is_connection current) || BackendFault.is_connection f
                          then Some f else failure
        | None => Some f end = Some g) as [g ->].
      { destruct failure as [current |]; [| by eexists]. destruct (_ || _); by eexists. }
      revert g e He. clear -Stable0. induction cs as [| c cs IH]; intros g e He; simpl; [done |].
      destruct (check_cookie c (world e)) as [w r] eqn:Hc. unfold outside. rewrite Hc.
      apply (trace_check_cookie V) in Hc.
      assert (P (set_world w e)) as HP.
      { eapply stable; [exact He |]. destruct r; simpl in Hc; [by eapply calm_lowering | by apply calm_quiet]. }
      destruct r as [u | f']; [by apply IH |]. destruct (_ || _); by apply IH.
Qed.

(** ** The batch *)

(** Between batches; [rp] is the pending restoration. *)
Definition Between (rp : option PendingTemporaryRestore.t) (e : Engine) : Prop :=
  Settled e /\ Restoring rp e.

#[export] Instance between_stable rp : Stable (Between rp).
Proof. unfold Between. apply _. Qed.

Lemma between_inv rp e : Between rp e -> inv e.
Proof. by intros [[]]. Qed.
Lemma between_settled rp e : Between rp e -> Settled e.
Proof. by intros []. Qed.
Lemma between_restoring rp e : Between rp e -> Restoring rp e.
Proof. by intros []. Qed.
Lemma between_idle rp e : Idle e -> Restoring rp e -> Between rp e.
Proof. intros Hi Hr. split; [by apply idle_settled | done]. Qed.

(** The releases in flight are among these. *)
Definition Within (ps : list PendingRelease) (e : Engine) : Prop :=
  inv e /\ forall p, p ∈ pending e -> p ∈ ps.

#[export] Instance within_stable ps : Stable (Within ps).
Proof.
  intros e e' [He Hp] Hr. destruct (Hr He) as (Hi & _ & Hs & _). split; [done |].
  intros p Hin. by apply Hp, Hs.
Qed.

Definition uncertainty_ops (kind : BatchFailure.Kind) (recorded : N) : op :=
  match kind with
  | BatchFailure.State => TransitionHealth ActorPanicked
  | BatchFailure.Connection => TransitionHealth ConnectionLost
  | BatchFailure.Barrier => if decide (0 < recorded) then FailBatch BarrierFailed
                            else TransitionHealth (RequireReset BarrierFailed)
  | BatchFailure.MappingChanged => if decide (0 < recorded) then FailBatch PostconditionFailed
                                   else TransitionHealth (RequireReset PostconditionFailed)
  | BatchFailure.CheckedRequest => if decide (0 < recorded) then FailBatch CheckedRequestFailed
                                   else TransitionHealth (RequireReset CheckedRequestFailed)
  end.

Lemma uncertainty_call kind recorded s :
  apply_batch_uncertainty kind recorded s = fst (call (uncertainty_ops kind recorded) s).
Proof. destruct kind; simpl; try done; by case_decide. Qed.

Lemma triple_fail_with P kind run observation `{!Stable P} (Q : BatchSuccess.t -> Engine -> Prop) :
  triple P (fail_with kind run observation) Q (fun _ => P).
Proof.
  eapply triple_bind with (X := fun _ => P); [| intros []; by apply triple_fail].
  apply triple_calm; [done |]. intros e. simpl. rewrite uncertainty_call.
  apply calm_call; [destruct kind; simpl; try done; by case_decide |].
  left. destruct kind; simpl; try done; by case_decide.
Qed.

Lemma triple_finish_batch events mapping_sensitive confirm_now run rp (Y : Held -> Prop) :
  Forall planned_ok events -> (forall x, released_by events x -> Y x) ->
  let P := fun e => Between rp e /\ Up Y e in
  triple P (finish_batch events mapping_sensitive confirm_now run) (fun _ => P) (fun _ => Restoring rp).
Proof.
  intros Hev HY P. assert (Stable P) as HS by (unfold P; apply _).
  assert (forall e, P e -> inv e) as Hinv by (intros e [H _]; by eapply between_inv).
  assert (forall e, P e -> BatchFailure.t -> Restoring rp e) as Hrest by (intros e [[_ H] _] _; exact H).
  assert (forall kind o, triple P (fail_with kind run o) (fun _ => P) (fun _ => Restoring rp)) as Hfail.
  { intros kind o. eapply triple_conseq; [apply (triple_fail_with P kind run o (fun _ => P)) | done | done |]. eauto. }
  eapply triple_seq; [by apply triple_observe_pointer | exact Hrest |]. intros [o | f].
  2: { eapply triple_conseq; [apply Hfail | by intros e [? _] | done..]. }
  eapply triple_seq; [by apply (triple_record_shown P) | exact Hrest | intros []].
  eapply triple_seq; [by apply (triple_reconcile_buttons P) | exact Hrest | intros []].
  eapply triple_seq; [by apply (triple_drain_events P) | exact Hrest | intros [d | f]; [| apply Hfail]].
  eapply triple_seq; [by apply (triple_apply_drained P) | exact Hrest | intros []].
  apply triple_if; [apply Hfail |].
  eapply triple_bind with (X := fun _ => P).
  - apply triple_if; [| by apply triple_ret].
    eapply triple_conseq; [apply (triple_call P ConfirmBatch); try done | done | |].
    + right. split; [done |]. intros e [H _]. by eapply between_settled.
    + by intros r e [? _].
    + eauto.
  - intros [u | err]; [| apply Hfail].
    eapply triple_seq; [apply (triple_clear_released P events) | exact Hrest | intros []];
      [done | | by apply triple_ret].
    intros e [_ [_ Hu]] b Hb. apply Hu, HY. apply existsb_exists in Hb as (p & Hp & Hr).
    apply bool_decide_eq_true in Hr. exists p. split; [by apply list_elem_of_In | done].
Qed.

Lemma ordered_planned events : ordered events -> Forall planned_ok events.
Proof. induction events; simpl; [constructor |]. intros (? & _ & ?). constructor; auto. Qed.

(** A batch: after one without a failure nothing it released may be held. *)
Lemma triple_run_batch_up X events mapping_sensitive confirm_now rp :
  ordered events -> (forall q x, X x -> q ∈ events -> ~ presses q x) ->
  triple (fun e => Between rp e /\ (existsb redundant events = true -> pending e = []) /\
      forall x, X x -> x ∉ down e)
    (run_batch events mapping_sensitive confirm_now)
    (fun _ e => Between rp e /\ Up (fun x => released_by events x \/ X x) e) (fun _ => Restoring rp).
Proof.
  intros Hev Hspared e (He & Hred & HX). unfold run_batch. unfold bind at 1.
  assert (Sends X (fun _ => False) events [] rp e) as Hs.
  { split; [by eapply between_restoring | done | done | | done | done |].
    - intros p Hp. left. by apply He.
    - intros q x Hq Hr Hx p Hp. rewrite Hred in Hp; [by apply not_elem_of_nil in Hp |].
      apply existsb_exists. exists q. split; [by apply list_elem_of_In | done]. }
  pose proof (triple_send_events (E := BatchFailure.t) _ _ events (mkSending [] 0 0 0 None false) rp
    (fun _ _ => False) Hev (conj eq_refl eq_refl) e Hs) as Hsend.
  destruct (send_events events _ e) as [e1 [run | x]]; [| done].
  destruct Hsend as [Hr1 Hs1]. unfold bind at 1.
  set (Y := fun x => sent_all run /\
    ((exists p, p ∈ pending e1 /\ held_of_pending p = x) \/ released_by events x \/ X x)).
  assert ((Restoring rp e1 /\ Within (pending e1) e1) /\ (forall x, Y x -> acked (cookies run) e1 x)) as Hpre.
  { split; [split; [done | split; [apply Hr1 | done]] |].
    intros x [Hall [(p & Hp & <-) | [Hx | Hx]]]; [by apply (Hs1 Hall) | |].
    - eapply sends_released; [by apply Hs1 | by right].
    - left. eapply sends_up; [by apply Hs1 | done]. }
  pose proof (triple_check_cookies (E := BatchFailure.t)
    (fun e => Restoring rp e /\ Within (pending e1) e) Y (cookies run) None (fun _ _ => False) e1 Hpre)
    as Hcheck.
  destruct (check_cookies (cookies run) None e1) as [e2 [failure | x]]; [| done].
  destruct Hcheck as [[Hr2 [_ Hw2]] Hup].
  destruct (state_failure run || (InputCleanupEvidence.is_some (send_failure run) ||
    InputCleanupEvidence.is_some failure)) eqn:Hf.
  - pose proof (triple_fail_with (Restoring rp)
      (if state_failure run then BatchFailure.State
       else if connection_fault (send_failure run) || connection_fault failure
         then BatchFailure.Connection else BatchFailure.CheckedRequest) run None
      (fun _ _ => False) e2 Hr2) as H.
    simpl in H |- *. exact H.
  - apply orb_false_iff in Hf as [Hf1 [Hf2 Hf3]%orb_false_iff].
    assert (sent_all run) as Hall by (split; [by destruct (send_failure run) | done]).
    destruct Hup as [_ Hup]; [by destruct failure |].
    apply triple_finish_batch; [by apply ordered_planned | by left |]. split; [split; [split |] |].
    + apply Hr2.
    + intros p Hp. apply Hup. split; [done |]. left. exists p. split; [by apply Hw2 | done].
    + done.
    + split; [apply Hr2 |]. intros x Hx. apply Hup. by split; [| right].
Qed.

Lemma triple_run_batch events mapping_sensitive confirm_now rp :
  ordered events ->
  triple (fun e => Between rp e /\ (existsb redundant events = true -> pending e = []))
    (run_batch events mapping_sensitive confirm_now) (fun _ => Between rp) (fun _ => Restoring rp).
Proof.
  intros Hev. eapply triple_conseq; [apply (triple_run_batch_up (fun _ => False) _ _ _ rp Hev) | | | done].
  - done.
  - intros e [??]. by split_and!.
  - by intros b e [? _].
Qed.

End Batches.
