(* ===== verification/EnginePointerSafety.v ===== *)
(** * Pointer actions keep the invariant

    [keeps] is the triple of a method between batches: it keeps its assertion, and leaves
    a weaker one when it fails.  Its rules follow the syntax of the methods, so that
    [keep] proves the triple of a method from those of the methods it calls. *)

From stdpp Require Import base numbers list option.
From Stdlib Require Import Lia.
From S2P Require Import Prelude Identity Geometry Motion Keys OwnedInput Actions.
From S2P Require Import NamedKeys InputBackend InputOutcome KeyboardActions.
From S2P Require Import Engine EnginePointer EngineKeyboard EngineControl Recorder Coverage.
From S2P Require Import EngineInvariant EngineBatch.

Local Open Scope N_scope.

Import LedgerFacts InputEngine InputTrace.

Create HintDb keeps discriminated.

(** ** The rules *)
Definition keeps {S E A} (P : S -> Prop) (m : M S E A) (R : E -> S -> Prop) : Prop :=
  triple P m (fun _ => P) R.

(** Every failure may be raised where [P] holds. *)
Class Exits {S E} (P : S -> Prop) (R : E -> S -> Prop) : Prop := exits s : P s -> forall e, R e s.

Section Rules.
Context {S E : Type} {P : S -> Prop} {R : E -> S -> Prop}.

Lemma keeps_ret {A} (a : A) : keeps P (ret a) R.
Proof. by apply triple_ret. Qed.
Lemma keeps_get : keeps P get R.
Proof. by apply triple_get. Qed.
Lemma keeps_bind {A B} (m : M S E B) (k : B -> M S E A) :
  keeps P m R -> (forall b, keeps P (k b) R) -> keeps P (bind m k) R.
Proof. apply triple_bind. Qed.

(** A result with a fact about it. *)
Lemma keeps_bind_fact {A B} (F : B -> Prop) (m : M S E B) (k : B -> M S E A) :
  triple P m (fun b s => P s /\ F b) R -> (forall b, F b -> keeps P (k b) R) ->
  keeps P (bind m k) R.
Proof.
  intros Hm Hk. eapply triple_bind; [exact Hm |]. intros b s [Hs Hb]. by apply Hk.
Qed.

Lemma keeps_for_control {A X} (body : X -> A -> M S E (ControlFlow A)) l acc :
  (forall x a, keeps P (body x a) R) -> keeps P (for_control body l acc) R.
Proof. intros Hb. apply triple_for_control. intros. apply Hb. Qed.

Lemma keeps_for_each {X} (f : X -> M S E unit) l :
  (forall x, keeps P (f x) R) -> keeps P (for_each f l) R.
Proof. apply triple_for_each. Qed.

Lemma keeps_map_failure {F A} (m : M S F A) (f : F -> E) :
  keeps P m (fun e => R (f e)) -> keeps P (map_failure f m) R.
Proof. apply triple_map_failure. Qed.

Context `{!Exits P R}.

Lemma keeps_fail {A} (e : E) : keeps P (fail e : M S E A) R.
Proof. apply triple_fail. intros s Hs. by apply exits. Qed.
Lemma keeps_lift {A} (r : result A E) : keeps P (lift r) R.
Proof. apply triple_lift; [done |]. intros e s _ Hs. by apply exits. Qed.
Lemma keeps_reject_if (X : Prop) `{!Decision X} (e : E) : keeps P (reject_if X e) R.
Proof. apply triple_reject_if; [| done]. intros s Hs _. by apply exits. Qed.
Lemma keeps_quiet {A} (m : M S E A) : triple P m (fun _ => P) (fun _ => P) -> keeps P m R.
Proof. intros Hm. eapply triple_conseq; [exact Hm | done | done |]. intros e s Hs. by apply exits. Qed.

End Rules.

(** A method that keeps [P] whatever it returns. *)
Lemma keeps_attempt {S E F A} (P : S -> Prop) (R : E -> S -> Prop) (m : M S F A) :
  keeps P m (fun _ => P) -> keeps P (attempt m) R.
Proof. intros Hm. by apply triple_attempt. Qed.

#[export] Hint Resolve keeps_ret keeps_get : keeps.
#[export] Hint Extern 1 (keeps _ (fail _) _) => apply keeps_fail; apply _ : keeps.
#[export] Hint Extern 1 (keeps _ (lift _) _) => apply keeps_lift; apply _ : keeps.
#[export] Hint Extern 1 (keeps _ (reject_if _ _) _) => apply keeps_reject_if; apply _ : keeps.

(** Follow the syntax of the method. *)
Ltac keep_step :=
  match goal with
  | |- forall _, _ => intros ?
  | |- keeps _ (let '(_, _) := ?x in _) _ => destruct x
  | |- keeps _ (match ?x with _ => _ end) _ => destruct x
  | |- keeps _ (for_control _ _ _) _ => apply keeps_for_control; intros ? ?
  | |- keeps _ (map_failure _ _) _ => apply keeps_map_failure
  | |- keeps _ (bind _ _) _ => apply keeps_bind; [| intros ?]
  | _ => progress cbv zeta
  end.
Ltac keep := repeat first [solve [auto with keeps nocore] | keep_step].

Section Pointer.
Context {V : Type} `{!InputBackend V, !ActorKeyboardModel V, !Surroundings V, !Observed V}.

#[local] Abbreviation Engine := (InputEngine.t V BindingToken).
Implicit Types (e : Engine) (P : Engine -> Prop).

#[export] Instance between_exits {E} rp : Exits (E := E) (Between rp) (fun _ => Restoring rp).
Proof. intros e He _. by eapply between_restoring. Qed.
#[export] Instance same_exits {E} P : Exits (E := E) P (fun _ => P).
Proof. by intros e He _. Qed.

(** ** Methods that keep every stable assertion *)
Section Stable.
Context {E : Type} {P : Engine -> Prop} {R : E -> Engine -> Prop} `{!Stable P, !Exits P R}.

Lemma keeps_stable {A} (m : M Engine E A) :
  (forall X : Engine -> Prop, Stable X -> triple X m (fun _ => X) (fun _ => X)) -> keeps P m R.
Proof. intros Hm. by apply keeps_quiet, Hm. Qed.

Lemma keeps_unrecorded {A} (f : V -> V * A) :
  not_recorded (trace V) f -> keeps P (outside f) R.
Proof. intros Hf. apply keeps_stable. intros X HX. by apply triple_quiet. Qed.

Lemma keeps_boundary_stop c d : keeps P (boundary_stop c d) R.
Proof. apply keeps_stable. intros. by apply triple_boundary_stop. Qed.
Lemma keeps_deadline_elapsed d : keeps P (deadline_elapsed d) R.
Proof. apply keeps_stable. intros. by apply triple_deadline_elapsed. Qed.
Lemma keeps_transition event : keeps P (transition_ignored event) R.
Proof. apply keeps_stable. intros. by apply triple_transition. Qed.
Lemma keeps_mark_panicked : keeps P mark_panicked R.
Proof. apply keeps_stable. intros. by apply triple_mark_panicked. Qed.
Lemma keeps_backend_fault f : keeps P (apply_backend_fault f) R.
Proof. apply keeps_stable. intros. by apply triple_backend_fault. Qed.
Lemma keeps_barrier_fault f : keeps P (barrier_fault f) R.
Proof. apply keeps_stable. intros. by apply triple_barrier_fault. Qed.
Lemma keeps_record_pointer o : keeps P (record_pointer o) R.
Proof. apply keeps_stable. intros. by apply triple_record_pointer. Qed.
Lemma keeps_drain : keeps P drain R.
Proof. apply keeps_stable. intros. by apply triple_drain. Qed.
Lemma keeps_finish_action : keeps P (on_state InputState.finish_action) R.
Proof. apply keeps_stable. intros. by apply triple_finish_action. Qed.
Lemma keeps_ignore_finish : keeps P (update_state (ignore InputState.finish_action)) R.
Proof. apply keeps_stable. intros. by apply triple_ignore_finish. Qed.

(** An observation of the pointer, and what follows it. *)
Lemma keeps_observe_pointer {A} (k : result PointerObservation.t BackendFault.t -> M Engine E A) :
  (forall e, P e -> inv e) ->
  (forall f, keeps P (k (Err f)) R) ->
  (forall o, triple (fun e => P e /\ shown o e) (k (Ok o)) (fun _ => P) R) ->
  keeps P (bind (outside observe_pointer) k) R.
Proof.
  intros HP Hf Ho. eapply triple_seq; [by apply triple_observe_pointer | intros e He; by apply exits |].
  intros [o | f]; [apply Ho |]. eapply triple_conseq; [apply (Hf f) | by intros e [? _] | done..].
Qed.

Lemma shown_record {A} o (k : unit -> M Engine E A) :
  triple (fun e => P e /\ shown o e) (k tt) (fun _ => P) R ->
  triple (fun e => P e /\ shown o e) (bind (record_pointer o) k) (fun _ => P) R.
Proof.
  intros Hk. eapply triple_seq; [by apply triple_record_shown | intros e He; by apply exits | by intros []].
Qed.

Lemma shown_reconcile {A} o (k : unit -> M Engine E A) :
  keeps P (k tt) R ->
  triple (fun e => P e /\ shown o e) (bind (reconcile_buttons o) k) (fun _ => P) R.
Proof.
  intros Hk. eapply triple_seq; [by apply triple_reconcile_buttons | intros e He; by apply exits | by intros []].
Qed.

Lemma shown_drop {A} o (m : M Engine E A) :
  keeps P m R -> triple (fun e => P e /\ shown o e) m (fun _ => P) R.
Proof. intros Hm. eapply triple_conseq; [exact Hm | by intros e [? _] | done..]. Qed.

End Stable.

(** Confirming and failing the batch. *)
Lemma keeps_call {E} P (R : E -> Engine -> Prop) `{!Stable P, !Exits P R} o m :
  m = call o -> op_valid o -> quiet_op o = true \/ (o = ConfirmBatch /\ forall e, P e -> Settled e) ->
  (forall e, P e -> inv e) -> keeps P (on_state m) R.
Proof.
  intros Hm Ho Hq HP. apply keeps_quiet. eapply triple_conseq; [exact (triple_call P o m Hm Ho Hq HP) | done | | done].
  by intros r e [? _].
Qed.

Lemma keeps_confirm {E} rp (R : E -> Engine -> Prop) `{!Exits (Between rp) R} :
  keeps (Between rp) (on_state InputState.confirm_batch) R.
Proof.
  apply (keeps_call (Between rp) R ConfirmBatch); [done | done | | by apply between_inv].
  right. split; [done |]. apply between_settled.
Qed.

Lemma keeps_fail_batch {E} rp reason (R : E -> Engine -> Prop) `{!Exits (Between rp) R} :
  keeps (Between rp) (on_state (InputState.fail_batch reason)) R.
Proof. apply (keeps_call (Between rp) R (FailBatch reason)); [done | done | by left | by apply between_inv]. Qed.

(** A resolved button was built by its constructor. *)
Lemma new_button_valid d b : new_button d = Ok b -> d <= u8_max -> valid_button b.
Proof. unfold new_button, valid_button. case_decide; [done |]. intros [= <-]. simpl. lia. Qed.

Lemma physical_for_valid mapping logical b :
  ButtonMapping.physical_for mapping logical = Ok b -> valid_button b.
Proof.
  unfold ButtonMapping.physical_for.
  destruct (ButtonMapping.find_index _ _ _ _) as [[i |] | err]; try done. case_decide; [| done].
  intros Hb. by eapply new_button_valid.
Qed.

Lemma resolve_button_kept {A} rp progress logical (k : PhysicalButton -> M Engine ActionError.t A) :
  (forall b, valid_button b -> keeps (Between rp) (k b) (fun _ => Restoring rp)) ->
  keeps (Between rp) (bind (resolve_button progress logical) k) (fun _ => Restoring rp).
Proof.
  apply keeps_bind_fact. apply triple_bind with (X := fun _ => Between rp); [by apply triple_get |].
  intros e. apply triple_lift; [| intros; by eapply between_restoring].
  intros b e' Hb He. split; [done |].
  destruct (ButtonMapping.physical_for (button_mapping e) logical) eqn:Hp; simpl in Hb; [| done].
  injection Hb as <-. by eapply physical_for_valid.
Qed.

End Pointer.

#[export] Hint Extern 1 (keeps _ (boundary_stop _ _) _) => apply keeps_boundary_stop; apply _ : keeps.
#[export] Hint Extern 1 (keeps _ (deadline_elapsed _) _) => apply keeps_deadline_elapsed; apply _ : keeps.
#[export] Hint Extern 1 (keeps _ (transition_ignored _) _) => apply keeps_transition; apply _ : keeps.
#[export] Hint Extern 1 (keeps _ mark_panicked _) => apply keeps_mark_panicked; apply _ : keeps.
#[export] Hint Extern 1 (keeps _ (apply_backend_fault _) _) => apply keeps_backend_fault; apply _ : keeps.
#[export] Hint Extern 1 (keeps _ (barrier_fault _) _) => apply keeps_barrier_fault; apply _ : keeps.
#[export] Hint Extern 1 (keeps _ (record_pointer _) _) => apply keeps_record_pointer; apply _ : keeps.
#[export] Hint Extern 1 (keeps _ drain _) => apply keeps_drain; apply _ : keeps.
#[export] Hint Extern 1 (keeps _ (on_state InputState.finish_action) _) => apply keeps_finish_action; apply _ : keeps.
#[export] Hint Extern 1 (keeps _ (update_state (ignore InputState.finish_action)) _) =>
  apply keeps_ignore_finish; apply _ : keeps.
#[export] Hint Extern 1 (keeps _ (on_state InputState.confirm_batch) _) => apply keeps_confirm; apply _ : keeps.
#[export] Hint Extern 1 (keeps _ (on_state (InputState.fail_batch _)) _) => apply keeps_fail_batch; apply _ : keeps.
#[export] Hint Extern 2 (keeps _ (outside _) _) =>
  apply keeps_unrecorded;
  first [apply trace_wait | apply trace_window_geometry | apply trace_instant_now
        | apply trace_is_cancelled | apply trace_synchronize | apply trace_resolve
        | apply trace_validate_binding | apply trace_validate_held | apply trace_reserve
        | apply trace_validate_reservation | assumption] : keeps.

(** An observation: [keep] goes on after it. *)
Ltac keep_observation :=
  first
    [ apply shown_record | apply shown_reconcile | apply shown_drop ].
Ltac keep_step ::=
  match goal with
  | |- forall _, _ => intros ?
  | |- keeps (Between _) (bind (outside observe_pointer) _) _ =>
      apply keeps_observe_pointer; [by apply between_inv | intros ? | intros ?]
  | |- keeps _ (bind (resolve_button _ _) _) _ => apply resolve_button_kept; intros ? ?
  | |- keeps _ (stop_at_boundary _ _ _ _) _ => unfold stop_at_boundary
  | |- triple (fun _ => _ /\ shown _ _) _ _ _ => keep_observation
  | |- keeps _ (match ?x with _ => _ end) _ => destruct x
  | |- keeps _ (for_control _ _ _) _ => apply keeps_for_control; intros ? ?
  | |- keeps _ (map_failure _ _) _ => apply keeps_map_failure
  | |- keeps _ (bind _ _) _ => apply keeps_bind; [| intros ?]
  | _ => progress cbv zeta
  end.

Section PointerActions.
Context {V : Type} `{!InputBackend V, !ActorKeyboardModel V, !Surroundings V, !Observed V}.

#[local] Abbreviation Engine := (InputEngine.t V BindingToken).
#[local] Abbreviation kept rp m := (keeps (Between (V := V) rp) m (fun _ => Restoring rp)).
Implicit Types (e : Engine) (rp : option PendingTemporaryRestore.t).

(** ** The events of the batches *)
Lemma motion_events_ordered samples :
  ordered (motion_sample_events samples) /\ existsb redundant (motion_sample_events samples) = false.
Proof.
  induction samples as [| m samples [IH1 IH2]]; simpl; [done |]. split; [| exact IH2].
  split; [done |]. split; [by intros q x [=] | exact IH1].
Qed.

Lemma button_pair_ordered b d1 d2 : valid_button b -> ordered (button_pair b d1 d2).
Proof.
  intros Hb. simpl. unfold planned_ok, releases. simpl. split_and!; try done.
  by intros q x _ ?%not_elem_of_nil.
Qed.

Lemma batch_kept {E} rp (f : BatchFailure.t -> E) events sensitive confirm :
  ordered events -> existsb redundant events = false ->
  kept rp (map_failure f (run_batch events sensitive confirm)).
Proof.
  intros Ho Hr. apply triple_map_failure. eapply triple_conseq; [by apply (triple_run_batch _ _ _ rp) | | | done].
  - intros e He. split; [exact He |]. by rewrite Hr.
  - done.
Qed.

Lemma batch_for_motion rp progress samples sensitive confirm :
  kept rp (batch_for progress (motion_sample_events samples) sensitive confirm).
Proof. destruct (motion_events_ordered samples). by apply batch_kept. Qed.

Lemma batch_for_pair rp progress b d1 d2 sensitive confirm :
  valid_button b -> kept rp (batch_for progress (button_pair b d1 d2) sensitive confirm).
Proof. intros Hb. apply batch_kept; [by apply button_pair_ordered | done]. Qed.

#[local] Hint Resolve batch_for_motion batch_for_pair : keeps.

(** ** The steps *)
Lemma drain_for_action_kept rp progress : kept rp (drain_for_action progress).
Proof. unfold drain_for_action. keep. Qed.

Lemma require_observed_start_kept rp plan progress : kept rp (require_observed_start plan progress).
Proof. unfold require_observed_start. keep. Qed.

Lemma confirm_observed_batch_kept rp progress : kept rp (confirm_observed_batch progress).
Proof. unfold confirm_observed_batch. keep. Qed.

Lemma fail_observed_batch_kept {A} rp progress : kept rp (fail_observed_batch (A := A) progress).
Proof. unfold fail_observed_batch. keep. Qed.
#[local] Hint Resolve drain_for_action_kept require_observed_start_kept confirm_observed_batch_kept
  fail_observed_batch_kept : keeps.

Lemma confirm_delayed_release_kept rp button delay progress :
  kept rp (confirm_delayed_button_release button delay progress).
Proof. unfold confirm_delayed_button_release. keep. Qed.

Lemma reject_pressed_kept rp progress button : kept rp (reject_pressed progress button).
Proof. unfold reject_pressed. keep. Qed.

Lemma dwell_kept {E} rp dwell : kept rp (run_window_click_dwell dwell : M Engine E unit).
Proof. unfold run_window_click_dwell. keep. Qed.
#[local] Hint Resolve confirm_delayed_release_kept reject_pressed_kept dwell_kept : keeps.

(** A precondition sends nothing. *)
Definition quiet_check (check : option (InputPrecondition V)) : Prop :=
  match check with
  | Some check => not_recorded (trace V) check
  | None => True
  end.

Lemma evaluate_kept {E} rp check (conv : InputFailureKind.t -> E) :
  quiet_check check -> kept rp (evaluate_precondition check conv).
Proof. intros Hc. unfold evaluate_precondition. destruct check; keep. Qed.

Lemma resolve_window_kept rp request : kept rp (resolve_window_click_target request).
Proof. unfold resolve_window_click_target. keep. Qed.

Lemma revalidate_kept rp staged progress :
  quiet_check (WindowClickRevalidation.precondition staged) ->
  kept rp (revalidate_window_click staged progress).
Proof.
  intros Hc. pose proof (fun E c => evaluate_kept (E := E) rp _ c Hc) as He.
  unfold revalidate_window_click. apply keeps_bind; [| keep].
  apply keeps_map_failure, resolve_window_kept.
Qed.

(** ** The actions *)
Section Run.
Context (rp : option PendingTemporaryRestore.t) (cancellation : N) (deadline : option N).

Lemma run_move_kept action : kept rp (run_move cancellation deadline action).
Proof. unfold run_move, move_segment. keep. Qed.

Lemma click_movement_kept movement progress :
  kept rp (click_movement cancellation deadline movement progress).
Proof. unfold click_movement, click_segment. keep. Qed.

Definition quiet_click (click : option (WindowClickRevalidation.t V)) : Prop :=
  match click with
  | Some staged => quiet_check (WindowClickRevalidation.precondition staged)
  | None => True
  end.

Lemma press_once_kept action click index progress :
  quiet_click click -> kept rp (press_once cancellation deadline action click index progress).
Proof.
  intros Hc. unfold press_once. destruct click as [staged |]; [pose proof (fun p => revalidate_kept rp staged p Hc) |]; keep.
Qed.

Lemma run_click_kept action click :
  quiet_click click -> kept rp (run_click cancellation deadline action click).
Proof.
  intros Hc. pose proof (fun i p => press_once_kept action click i p Hc).
  pose proof click_movement_kept. unfold run_click, click_once. keep.
Qed.

Lemma drag_segment_kept segment acc : kept rp (drag_segment cancellation deadline segment acc).
Proof. unfold drag_segment. keep. Qed.

#[local] Hint Resolve drag_segment_kept : keeps.

Lemma drag_press_kept action button progress :
  valid_button button -> kept rp (drag_press action button progress).
Proof.
  intros Hb. unfold drag_press. apply keeps_bind; [| keep]. apply batch_kept; [| done].
  simpl. unfold planned_ok, releases. simpl. split_and!; try done; by intros q x [=].
Qed.

Lemma drag_release_kept action button traversed progress :
  valid_button button -> kept rp (drag_release action button traversed progress).
Proof.
  intros Hb. unfold drag_release. apply keeps_bind; [| keep]. apply batch_kept; [| done].
  simpl. unfold planned_ok. simpl. split_and!; try done. by intros q x _ ?%not_elem_of_nil.
Qed.
#[local] Hint Resolve drag_press_kept drag_release_kept : keeps.

Lemma run_drag_kept action : kept rp (run_drag cancellation deadline action).
Proof. unfold run_drag. keep. Qed.

Lemma run_scroll_kept action : kept rp (run_scroll cancellation deadline action).
Proof. unfold run_scroll, scroll_notch. keep. Qed.

(** A single button may be pressed redundantly, so no release is in flight before it. *)
Lemma run_button_kept button direction redundant :
  valid_button button ->
  triple (fun e => Between rp e /\ pending e = []) (run_button cancellation deadline button direction redundant)
    (fun _ => Between rp) (fun _ => Restoring rp).
Proof.
  intros Hb. unfold run_button, stop_at_boundary. set (P := fun e => Between rp e /\ Idle e).
  assert (Stable P) as HS by (unfold P; apply _).
  apply triple_conseq with (P' := P) (Q' := fun _ => Between rp) (R' := fun _ => Restoring rp);
    [| intros e [He Hp]; split; [done | split; [by eapply between_inv | done]] | done | done].
  assert (forall e, P e -> ActionError.t -> Restoring rp e) as Hr by (intros e [[_ H] _] _; exact H).
  eapply triple_seq; [by apply (triple_boundary_stop P) | exact Hr | intros [stop |]].
  { apply triple_ret. by intros e []. }
  eapply triple_bind with (X := fun _ => P); [by apply triple_get |]. intros self.
  eapply triple_bind with (X := fun _ => Between rp).
  - apply triple_map_failure. eapply triple_conseq; [apply (triple_run_batch _ _ _ rp) | | | done].
    + simpl. unfold planned_ok. simpl. destruct direction; simpl; split_and!; try done;
        intros q x _ ?%not_elem_of_nil; done.
    + intros e [He [_ Hp]]. by split.
    + done.
  - intros batch.
    match goal with |- triple ?P ?m ?Q ?R => change (keeps P m R) end. unfold deadline_stop. keep.
Qed.

Definition valid_action (action : InputAction) : Prop :=
  match action with
  | Button button _ _ => valid_button button
  | _ => True
  end.

Lemma run_action_kept action click :
  valid_action action -> quiet_click click ->
  triple (fun e => Between rp e /\ pending e = []) (run_action cancellation deadline action click)
    (fun _ => Between rp) (fun _ => Restoring rp).
Proof.
  intros Ha Hc.
  assert (forall m : M Engine ActionError.t (ControlFlow ActionProgress.t), kept rp m ->
    triple (fun e => Between rp e /\ pending e = []) m (fun _ => Between rp) (fun _ => Restoring rp)) as Hm.
  { intros m Hm. eapply triple_conseq; [exact Hm | by intros e [? _] | done..]. }
  eapply triple_bind with (X := fun _ => Between rp); [| intros; by apply triple_ret].
  destruct action.
  - apply Hm, run_move_kept.
  - by apply Hm, run_click_kept.
  - apply Hm, run_drag_kept.
  - apply Hm, run_scroll_kept.
  - apply Hm. keep.
  - by apply run_button_kept.
Qed.

End Run.
End PointerActions.
