(* ===== verification/EngineKeyboardSafety.v ===== *)
(** * Keyboard actions keep the invariant

    The same triples for the keyboard methods, which also carry their progress.  A method
    that fails because a scalar is not representable still leaves the engine between
    batches, since the text goes on with a temporary mapping then. *)

From stdpp Require Import base numbers list option.
From Stdlib Require Import Lia.
From S2P Require Import Prelude Identity Geometry Motion Keys OwnedInput Actions.
From S2P Require Import NamedKeys InputBackend InputOutcome KeyboardActions.
From S2P Require Import Engine EnginePointer EngineKeyboard EngineControl Recorder Coverage.
From S2P Require Import EngineInvariant EngineBatch EnginePointerSafety.

Local Open Scope N_scope.

Import LedgerFacts CleanupFacts InputEngine InputTrace.

Section Typing.
Context {V : Type} `{!InputBackend V, !ActorKeyboardModel V, !Surroundings V, !Observed V}.

#[local] Abbreviation Engine := (InputEngine.t V BindingToken).
Implicit Types (e : Engine) (rp : option PendingTemporaryRestore.t).

(** ** The assertions *)

(** After a failure. *)
Definition Failing rp (kind : InputFailureKind.t) (e : Engine) : Prop :=
  Restoring rp e /\ (kind = InputFailureKind.TextNotRepresentable -> Settled e).

Definition Typed rp (s : Engine * KeyboardProgress.t) : Prop := Between rp (fst s).
Definition FailingTyped rp (kind : InputFailureKind.t) (s : Engine * KeyboardProgress.t) : Prop :=
  Failing rp kind (fst s).

#[export] Instance between_failing rp : Exits (Between rp) (Failing rp).
Proof. intros e [Hs Hr] kind. by split. Qed.
#[export] Instance typed_failing rp : Exits (Typed rp) (FailingTyped rp).
Proof. intros s Hs kind. by apply between_failing. Qed.

#[export] Instance failing_stable rp kind : Stable (Failing rp kind).
Proof. intros e e' [Hr Hs] Hc. split; [by eapply stable | intros Hk; by eapply stable; [apply Hs |]]. Qed.

(** ** The rules *)
Lemma keeps_engine {A} (P : Engine -> Prop) (R : InputFailureKind.t -> Engine -> Prop)
    (m : M Engine InputFailureKind.t A) :
  keeps P m R -> keeps (fun s => P (fst s)) (engine m) (fun kind s => R kind (fst s)).
Proof.
  intros Hm [e p] He. specialize (Hm e He). unfold engine. simpl. by destruct (m e) as [e' [a | x]].
Qed.

Lemma keeps_progress rp f : keeps (Typed rp) (update_progress f) (FailingTyped rp).
Proof. by intros s Hs. Qed.

(** A result of the engine with a fact about it. *)
Lemma keeps_engine_fact {A B} (F : B -> Prop) rp (m : M Engine InputFailureKind.t B) (k : B -> M _ _ A) :
  triple (Between rp) m (fun b e => Between rp e /\ F b) (Failing rp) ->
  (forall b, F b -> keeps (Typed rp) (k b) (FailingTyped rp)) ->
  keeps (Typed rp) (bind (engine m) k) (FailingTyped rp).
Proof.
  intros Hm. apply keeps_bind_fact. intros [e p] He. specialize (Hm e He). unfold engine. simpl.
  by destruct (m e) as [e' [a | x]].
Qed.

Lemma keeps_modify {E} (P : Engine -> Prop) (R : E -> Engine -> Prop) `{!Stable P, !Exits P R}
    (f : Engine -> Engine) :
  (forall e, world (f e) = world e /\ state (f e) = state e /\ button_mapping (f e) = button_mapping e /\
    captured_keys (f e) = captured_keys e /\ pending_keyboard_restore (f e) = pending_keyboard_restore e /\
    sent_press_ledger (f e) = sent_press_ledger e) ->
  keeps P (modify f) R.
Proof. intros Hf. apply keeps_stable. intros X HX. by apply triple_field. Qed.

(** Held keys that are valid. *)
Lemma calm_captured f e :
  (Forall valid_hold (captured_keys e) -> Forall valid_hold (f (captured_keys e))) ->
  calm e (set_captured_keys (f (captured_keys e)) e).
Proof.
  intros Hf [H1 H2 H3 H4 H5 H6]. unfold rows, pending, down, seen. split_and!; [| done..].
  split; try done. by apply Hf.
Qed.

Lemma keeps_captured {E} (P : Engine -> Prop) (R : E -> Engine -> Prop) `{!Stable P, !Exits P R} f :
  (forall holds, Forall valid_hold holds -> Forall valid_hold (f holds)) ->
  keeps P (modify (fun e => set_captured_keys (f (captured_keys e)) e)) R.
Proof.
  intros Hf. apply keeps_stable. intros X HX. apply triple_calm; [done |]. intros e.
  apply calm_captured, Hf.
Qed.

(** The keys the server reports are reconciled. *)
Lemma keeps_observe_keys {E A} (P : Engine -> Prop) (R : E -> Engine -> Prop) `{!Stable P, !Exits P R}
    (failed : BackendFault.t -> M Engine E A) (rest : list PhysicalKey -> M Engine E A) :
  (forall f, keeps P (failed f) R) -> (forall pressed, keeps P (rest pressed) R) ->
  keeps P (bind (outside observe_keys) (fun r =>
    match r with
    | Ok pressed => reconcile_keys pressed ;;; rest pressed
    | Err f => failed f
    end)) R.
Proof.
  intros Hf Hr. eapply triple_seq; [by apply triple_observe_keys | intros e He; by apply exits |].
  intros [pressed | f]; [| eapply triple_weaken; [apply (Hf f) | by intros e [? _]]].
  eapply triple_seq; [by apply triple_reconcile_keys | intros e He; by apply exits |].
  intros []. apply Hr.
Qed.

End Typing.

#[export] Hint Extern 1 (keeps _ (modify _) _) => apply keeps_modify; first [apply _ | done] : keeps.
#[export] Hint Extern 1 (keeps _ (update_progress _) _) => apply keeps_progress : keeps.

Ltac keep_step ::=
  match goal with
  | |- forall _, _ => intros ?
  | |- keeps (Between _) (bind (outside observe_pointer) _) _ =>
      apply keeps_observe_pointer; [by apply between_inv | intros ? | intros ?]
  | |- keeps (Between _) (bind (outside observe_keys) _) _ =>
      apply keeps_observe_keys; [apply _ | apply _ | intros ? | intros ?]
  | |- keeps _ (bind (resolve_button _ _) _) _ => apply resolve_button_kept; intros ? ?
  | |- keeps _ (stop_at_boundary _ _ _ _) _ => unfold stop_at_boundary
  | |- keeps _ (stop_step _ _ _) _ => unfold stop_step
  | |- keeps _ (or_failure _ _) _ => unfold or_failure
  | |- keeps (Typed ?rp) (engine _) (FailingTyped ?rp) =>
      apply (keeps_engine (Between rp) (Failing rp))
  | |- triple (fun _ => _ /\ shown _ _) _ _ _ => keep_observation
  | |- keeps _ (match ?x with _ => _ end) _ => destruct x
  | |- keeps _ (for_control _ _ _) _ => apply keeps_for_control; intros ? ?
  | |- keeps _ (for_each _ _) _ => apply keeps_for_each; intros ?
  | |- keeps _ (map_failure _ _) _ => apply keeps_map_failure
  | |- keeps _ (bind _ _) _ => apply keeps_bind; [| intros ?]
  | _ => progress cbv zeta
  end.

Section Keyboard.
Context {V : Type} `{!InputBackend V, !ActorKeyboardModel V, !Surroundings V, !Observed V}.
Context `{!TypedKeyboard V}.

#[local] Abbreviation Engine := (InputEngine.t V BindingToken).
#[local] Abbreviation kept rp m := (keeps (Between (V := V) rp) m (Failing rp)).
#[local] Abbreviation typed rp m := (keeps (Typed (V := V) rp) m (FailingTyped rp)).
Implicit Types (e : Engine) (rp : option PendingTemporaryRestore.t).

(** ** Resolution *)
Lemma model_failure_kept rp fault after : kept rp (keyboard_model_failure fault after).
Proof. unfold keyboard_model_failure. keep. Qed.
#[local] Hint Resolve model_failure_kept : keeps.

Lemma identifier_failure_kept rp fault identifier after :
  kept rp (keyboard_identifier_failure fault identifier after).
Proof. unfold keyboard_identifier_failure. keep. Qed.
#[local] Hint Resolve identifier_failure_kept : keeps.

Lemma context_kept rp intent : kept rp (keyboard_resolution_context intent).
Proof. unfold keyboard_resolution_context. keep. Qed.
#[local] Hint Resolve context_kept : keeps.

Lemma preflight_failure_kept rp fault : kept rp (temporary_mapping_preflight_failure fault).
Proof. unfold temporary_mapping_preflight_failure. keep. Qed.
#[local] Hint Resolve preflight_failure_kept : keeps.

(** A resolved binding has valid keys. *)
Lemma resolve_kept rp identifier context :
  triple (Between rp) (outside (resolve_synchronized identifier context))
    (fun r e => Between rp e /\ match r with Ok b => valid_binding b | Err _ => True end) (Failing rp).
Proof.
  apply triple_outside. intros e w r He Hr. split.
  - eapply stable; [exact He |]. by apply calm_quiet, (trace_resolve V _ _ _ _ _ Hr).
  - destruct r; [| done]. by eapply resolve_valid.
Qed.

Lemma resolve_each_kept rp identifiers context generation bindings :
  Forall valid_binding bindings ->
  triple (Between rp) (resolve_each identifiers context generation bindings)
    (fun bs e => Between rp e /\ Forall valid_binding bs) (Failing rp).
Proof.
  revert generation bindings. induction identifiers as [| i ids IH]; intros generation bindings Hb;
    simpl resolve_each; [by apply triple_ret |].
  eapply triple_bind; [by apply resolve_kept |]. intros r. apply triple_fact. intros Hr.
  eapply triple_bind with (X := fun b e => Between rp e /\ valid_binding b).
  - destruct r as [b | f]; simpl; [by apply triple_ret |].
    eapply triple_bind; [apply identifier_failure_kept |]. intros kind.
    apply triple_fail. intros e He. by apply exits.
  - intros b. apply triple_fact. intros Hvb.
    eapply triple_bind; [apply keeps_reject_if; apply _ |]. intros [].
    apply IH. apply Forall_app. by split; [| constructor].
Qed.

Lemma resolve_bindings_kept rp identifiers context :
  triple (Between rp) (resolve_and_validate_bindings identifiers context)
    (fun bs e => Between rp e /\ Forall valid_binding bs) (Failing rp).
Proof.
  eapply triple_bind; [by apply resolve_each_kept |]. intros bs. apply triple_fact. intros Hbs.
  eapply triple_bind with (X := fun _ => Between rp); [| intros; by apply triple_ret].
  apply keeps_for_each. intros b. unfold validate_before. keep.
Qed.

(** ** Key batches *)
Lemma fail_pending_kept rp reason : kept rp (fail_pending_key_batch reason).
Proof. unfold fail_pending_key_batch. keep. Qed.
Lemma confirm_pending_kept rp : kept rp confirm_pending_key_batch.
Proof. unfold confirm_pending_key_batch. keep. Qed.
#[local] Hint Resolve fail_pending_kept confirm_pending_kept : keeps.

Lemma fail_postcondition_kept {A} rp kind : kept rp (fail_postcondition (A := A) kind).
Proof. unfold fail_postcondition. keep. Qed.
#[local] Hint Resolve fail_postcondition_kept : keeps.

Lemma check_key_batch_kept rp first fingerprint sent generation up enforce :
  kept rp (check_key_batch first fingerprint sent generation up enforce).
Proof. unfold check_key_batch. keep. Qed.
#[local] Hint Resolve check_key_batch_kept : keeps.

(** *** The batch *)
Lemma public_kind_representable failure :
  BatchFailure.public_kind failure <> InputFailureKind.TextNotRepresentable.
Proof. unfold BatchFailure.public_kind. by destruct (BatchFailure.kind failure). Qed.

Lemma run_key_batch_kept rp events generation up enforce :
  ordered events -> existsb redundant events = false ->
  typed rp (run_key_batch events generation up enforce).
Proof.
  intros Ho Hr. unfold run_key_batch. apply keeps_bind; [keep |]. intros self. cbv zeta.
  eapply triple_bind with (X := fun r s =>
    match r with Ok _ => Typed rp s | Err _ => Restoring rp (fst s) end).
  - intros [e p] He. assert (Between rp e /\ (existsb redundant events = true -> pending e = [])) as Hpre
      by (split; [exact He | by rewrite Hr]).
    pose proof (triple_run_batch events false false rp Ho e Hpre) as Hb. unfold engine, attempt. simpl.
    destruct (run_batch events false false e) as [e' [b | f]]; apply Hb.
  - intros [b | f].
    { unfold note_keyboard_effect, count_events.
      match goal with |- triple _ ?m _ ?R => change (keeps (Typed rp) m R) end. keep. }
    apply triple_weaken with (P' := fun s => Restoring rp (fst s)); [| done].
    assert (forall kind, kind <> InputFailureKind.TextNotRepresentable ->
      forall s, Restoring rp (fst s) -> FailingTyped rp kind s) as Hf by (intros kind Hk s Hs; split; done).
    eapply triple_bind with (X := fun _ s => Restoring rp (fst s)).
    { unfold note_keyboard_effect. case_decide; [| by apply triple_ret]. intros [e p] He. simpl.
      eapply stable; [exact He |]. by apply (calm_field (set_keyboard_effect_emitted true)). }
    intros []. eapply triple_bind with (X := fun _ s => Restoring rp (fst s)); [by intros s Hs |].
    intros []. eapply triple_bind with (X := fun _ s => Restoring rp (fst s)).
    { destruct (BatchFailure.observation f); by intros s Hs. }
    intros []. apply triple_fail. apply Hf, public_kind_representable.
Qed.

(** *** The events of a step *)
Lemma key_event_planned key pressed delay modifier :
  valid_key key -> planned_ok (key_planned_event key pressed delay modifier).
Proof. intros Hk. by destruct pressed. Qed.

Definition key_events (pressed : bool) (events : list PlannedEvent.t) : Prop :=
  Forall (fun p => exists key delay modifier,
    p = key_planned_event key pressed delay modifier /\ valid_key key) events.

Lemma ordered_keys presses releases :
  key_events true presses -> key_events false releases ->
  ordered (presses ++ releases) /\ existsb redundant (presses ++ releases) = false.
Proof.
  intros Hp Hr. induction Hp as [| p presses (key & delay & modifier & -> & Hk) Hp [IH1 IH2]]; simpl.
  - induction Hr as [| p releases (key & delay & modifier & -> & Hk) Hr [IH1 IH2]]; simpl; [done |].
    split; [| exact IH2]. split; [by apply key_event_planned |]. split; [| exact IH1].
    intros q x _ Hq. by destruct (proj1 (list.Forall_forall _ _) Hr q Hq) as (k & d & m & -> & _).
  - split; [| exact IH2]. split; [by apply key_event_planned |]. split; [| exact IH1].
    by intros q x [=].
Qed.

Lemma indexed_events_keys pressed delay keys :
  Forall (fun k => valid_key (fst k)) keys -> key_events pressed (indexed_events pressed delay keys).
Proof.
  intros Hk. apply list.Forall_forall. intros p Hp. unfold indexed_events in Hp.
  apply elem_of_lookup_imap_1 in Hp as (i & [key m] & -> & Hi).
  eapply list.Forall_lookup in Hi; [| exact Hk]. by do 3 eexists.
Qed.

Lemma press_order_valid {Token} state (bindings : list (CapturedKeyBinding.t Token)) :
  Forall valid_binding bindings -> Forall (fun k => valid_key (fst k)) (press_order state bindings).
Proof.
  intros Hb. unfold press_order. rewrite !list.Forall_app. split_and!.
  - assert (Forall (fun m => valid_key (RequiredModifierBinding.key m))
      (concat (map CapturedKeyBinding.required_modifiers bindings))) as Hm.
    { induction Hb as [| b bindings [_ Hb] _ IH]; simpl; [constructor |]. by apply list.Forall_app. }
    assert (forall ms acc, Forall (fun m => valid_key (RequiredModifierBinding.key m)) ms ->
      Forall (fun k : PhysicalKey * bool => valid_key (fst k)) acc ->
      Forall (fun k => valid_key (fst k)) (fold_left (push_modifier state bindings) ms acc)) as Hfold.
    { induction ms as [| m ms IH]; intros acc Hms Hacc; simpl; [done |].
      apply list.Forall_cons in Hms as [Hm1 Hms]. apply IH; [done |]. unfold push_modifier.
      destruct (_ && _); [| done]. apply list.Forall_app. by split; [| constructor]. }
    by apply Hfold.
  - apply list.Forall_forall. intros k (b & -> & Hin)%list_elem_of_fmap. simpl.
    apply list_elem_of_In, filter_In in Hin as [Hin _]. apply list_elem_of_In in Hin.
    apply (proj1 (list.Forall_forall _ _) Hb b Hin).
  - apply list.Forall_forall. intros k (b & -> & Hin)%list_elem_of_fmap. simpl.
    apply list_elem_of_In, filter_In in Hin as [Hin _]. apply list_elem_of_In in Hin.
    apply (proj1 (list.Forall_forall _ _) Hb b Hin).
Qed.

Lemma step_events_ordered step order :
  Forall (fun k => valid_key (fst k)) order ->
  ordered (step_events step order) /\ existsb redundant (step_events step order) = false.
Proof.
  intros Ho. apply ordered_keys; apply indexed_events_keys; [done |]. by apply List.Forall_rev.
Qed.

(** ** Complete steps *)
Lemma revalidate_changed_kept rp context post b : kept rp (revalidate_changed context post b).
Proof. unfold revalidate_changed. keep. Qed.
Lemma revalidate_captured_kept rp context b : kept rp (revalidate_captured context b).
Proof. unfold revalidate_captured. keep. Qed.
#[local] Hint Resolve revalidate_changed_kept revalidate_captured_kept : keeps.

Lemma validate_after_kept rp bindings context post :
  kept rp (validate_complete_bindings_after_effect bindings context post).
Proof. unfold validate_complete_bindings_after_effect. keep. Qed.

Lemma reject_owned_kept rp keys : kept rp (reject_owned keys).
Proof. unfold reject_owned. keep. Qed.

Lemma first_generation_kept rp (bindings : list (CapturedKeyBinding.t BindingToken)) :
  kept rp (first_generation bindings).
Proof. unfold first_generation. keep. Qed.
#[local] Hint Resolve validate_after_kept reject_owned_kept first_generation_kept : keeps.

Lemma record_bindings_kept rp (bindings : list (CapturedKeyBinding.t BindingToken)) :
  typed rp (record_bindings bindings).
Proof. unfold record_bindings. keep. Qed.
#[local] Hint Resolve record_bindings_kept : keeps.

Lemma emit_step_kept rp step bindings context generation order :
  Forall (fun k => valid_key (fst k)) order ->
  typed rp (emit_step step bindings context generation order).
Proof.
  intros Ho. destruct (step_events_ordered step order Ho). unfold emit_step.
  apply keeps_bind; [by apply run_key_batch_kept | keep].
Qed.

Lemma resolved_step_kept rp c d step bindings context record :
  Forall valid_binding bindings ->
  typed rp (run_resolved_complete_step c d step bindings context record).
Proof.
  intros Hb. pose proof (fun state => press_order_valid state bindings Hb).
  unfold run_resolved_complete_step. keep. by apply emit_step_kept.
Qed.

Lemma keyboard_step_kept rp c d step : typed rp (run_keyboard_step c d step).
Proof.
  unfold run_keyboard_step. apply keeps_bind; [keep |]. intros context.
  apply keeps_engine_fact with (F := Forall valid_binding); [by apply resolve_bindings_kept |].
  intros bindings Hb. pose proof (fun state => press_order_valid state bindings Hb).
  keep. by apply emit_step_kept.
Qed.

Lemma exact_scalar_kept rp c d scalar delay : typed rp (run_exact_scalar c d scalar delay).
Proof.
  unfold run_exact_scalar. apply keeps_bind; [keep |]. intros step.
  apply keeps_bind; [keep |]. intros context.
  apply keeps_engine_fact with (F := Forall valid_binding); [by apply resolve_bindings_kept |].
  intros bindings Hb. by apply resolved_step_kept.
Qed.

(** ** Held keys *)
Lemma synthesize_valid e modifiers acc :
  Forall (fun m => valid_key (RequiredModifierBinding.key m)) modifiers ->
  Forall valid_key (fst acc) /\ Forall valid_key (snd acc) ->
  let r := fold_left (synthesize e) modifiers acc in
  Forall valid_key (fst r) /\ Forall valid_key (snd r).
Proof.
  revert acc. induction modifiers as [| m modifiers IH]; intros [s n] Hm [Hs Hn]; simpl; [done |].
  apply list.Forall_cons in Hm as [Hm1 Hm]. apply IH; [done |]. unfold synthesize.
  case_decide; [done |]. case_decide.
  - split; [| done]. apply list.Forall_app. by split; [| apply Forall_singleton].
  - destruct (_ && _); [| done]. simpl. rewrite !list.Forall_app, !Forall_singleton. done.
Qed.

Lemma held_events_keys pressed modifier keys :
  Forall valid_key keys -> key_events pressed (map (fun key => key_planned_event key pressed 0 modifier) keys).
Proof.
  intros Hk. apply list.Forall_forall. intros p (k & -> & Hin)%list_elem_of_fmap.
  pose proof (proj1 (list.Forall_forall _ _) Hk k Hin). by do 3 eexists.
Qed.

Lemma keyboard_down_kept rp c d identifier : typed rp (run_keyboard_down c d identifier).
Proof.
  unfold run_keyboard_down. apply keeps_bind; [keep |]. intros self. apply keeps_bind; [keep |]. intros _.
  apply keeps_bind; [keep |]. intros context.
  apply keeps_engine_fact with (F := Forall valid_binding); [by apply resolve_bindings_kept |].
  intros bindings Hb. apply keeps_bind_fact with (F := valid_binding).
  { apply triple_lift; [| intros; by apply exits]. intros b s Hh Hs. split; [done |].
    destruct (head (rev bindings)) as [b' |] eqn:Hl; simpl in Hh; [| done]. injection Hh as <-.
    apply List.Forall_rev in Hb. destruct (rev bindings); simpl in Hl; [done |]. injection Hl as ->.
    by apply list.Forall_cons in Hb as [? _]. }
  intros b [Hk Hm]. unfold stop_step. apply keeps_bind; [keep |]. intros [stopped |]; [keep |].
  apply keeps_bind; [keep |]. intros e1. apply keeps_bind; [keep |]. intros _.
  apply keeps_bind; [keep |]. intros _. apply keeps_bind; [keep |]. intros e2.
  pose proof (synthesize_valid e2 _ ([], []) Hm (conj (Forall_nil_2 _) (Forall_nil_2 _))) as [Hs Hn].
  destruct (fold_left _ _ _) as [synthesized newly]. simpl in Hs, Hn. cbv zeta.
  apply keeps_bind.
  - destruct (ordered_keys (map (fun key => key_planned_event key true 0 true) newly ++
      [key_planned_event (CapturedKeyBinding.key b) true 0 (CapturedKeyBinding.is_modifier b)]) [])
      as [Ho Hr]; [| constructor | rewrite app_nil_r in Ho, Hr; by apply run_key_batch_kept].
    apply list.Forall_app. split; [by apply held_events_keys |].
    apply Forall_singleton. by do 3 eexists.
  - intros post. apply keeps_bind; [keep |]. intros context'.
    apply keeps_engine_fact with (F := fun r => match r with Ok b => valid_binding b | Err _ => True end);
      [by apply resolve_kept |].
    intros [b' | f] Hb'; [| keep]. destruct (negb _); [keep |]. apply keeps_bind; [keep |]. intros _.
    apply keeps_bind; [keep |]. intros _. apply keeps_bind; [| keep].
    apply (keeps_engine (Between rp) (Failing rp)). apply (keeps_captured (Between rp) (Failing rp) (fun holds => holds ++ [_])).
    intros holds Hh.
    apply list.Forall_app. split; [done |]. apply Forall_singleton. split; [| exact Hs].
    simpl. destruct (KeyBatchPostflight.accepted_initial_xtest_set_map post); [apply Hb' | done].
Qed.

Lemma restore_hold_kept rp position hold :
  valid_hold hold -> typed rp (restore_hold position hold).
Proof.
  intros Hh. apply (keeps_engine (Between rp) (Failing rp)).
  apply (keeps_captured (Between rp) (Failing rp) (insert_at position hold)). intros holds Hs.
  unfold insert_at. apply list.Forall_app. split; [by apply Forall_take |]. constructor; [done |].
  by apply Forall_drop.
Qed.

Lemma validate_hold_kept rp position hold identifier context :
  valid_hold hold -> typed rp (validate_hold position hold identifier context).
Proof. intros Hh. pose proof (restore_hold_kept rp position hold Hh). unfold validate_hold. keep. Qed.

Lemma restore_hold_failing rp position hold kind :
  valid_hold hold ->
  triple (FailingTyped rp kind) (restore_hold position hold) (fun _ => FailingTyped rp kind) (FailingTyped rp).
Proof.
  intros Hh [e p] He. unfold FailingTyped in *. simpl in *. eapply stable; [exact He |].
  apply (calm_captured (insert_at position hold)). intros Hs.
  unfold insert_at. apply list.Forall_app. split; [by apply Forall_take |]. constructor; [done |].
  by apply Forall_drop.
Qed.

Lemma keyboard_up_kept rp c d identifier : typed rp (run_keyboard_up c d identifier).
Proof.
  unfold run_keyboard_up.
  eapply triple_bind with (X := fun self s => Typed rp s /\ Forall valid_hold (captured_keys self)).
  { intros [e p] He. split; [done |]. by apply between_inv in He as []. }
  intros self. apply triple_fact. intros Hc.
  apply keeps_bind_fact with (F := fun found => valid_hold (snd found)).
  { apply triple_lift; [| intros; by apply exits]. intros [i hold] s Hf Hs. split; [done |].
    destruct (list_find _ _) as [[j hold'] |] eqn:Hl; simpl in Hf; [| done]. injection Hf as -> ->.
    apply list_find_Some in Hl as (Hl & _). by eapply list.Forall_lookup in Hl. }
  intros [position hold] Hh. simpl in Hh.
  pose proof (validate_hold_kept rp position hold identifier).
  pose proof (restore_hold_kept rp position hold Hh).
  apply keeps_bind.
  { apply (keeps_engine (Between rp) (Failing rp)).
    apply (keeps_captured (Between rp) (Failing rp) (remove_at position)). intros holds Hs.
    unfold remove_at. apply list.Forall_app. split; [by apply Forall_take | by apply Forall_drop]. }
  intros _. apply keeps_bind; [keep |]. intros context. apply keeps_bind; [auto |].
  intros [generation deferred]. apply keeps_bind; [keep |]. intros [stopped |]; [keep |].
  apply keeps_bind; [keep |]. intros _. apply keeps_bind; [keep |]. intros e. cbv zeta.
  destruct Hh as [Hk Hm].
  assert (Forall valid_key (release_modifiers e hold)) as Hr.
  { apply list.Forall_forall. intros k Hin. apply list_elem_of_In, filter_In in Hin as [Hin _].
    apply in_rev, list_elem_of_In in Hin. apply (proj1 (list.Forall_forall _ _) Hm k Hin). }
  destruct (ordered_keys [] (key_planned_event (CapturedKeyBinding.key (CapturedKeyHold.binding hold)) false 0
     (CapturedKeyBinding.is_modifier (CapturedKeyHold.binding hold)) ::
     map (fun key => key_planned_event key false 0 true) (release_modifiers e hold))) as [Ho Hred];
    [constructor | constructor; [by do 3 eexists | by apply held_events_keys] |]. simpl app in Ho, Hred.
  eapply triple_bind with (X := fun r s => match r with Ok _ => Typed rp s | Err k => FailingTyped rp k s end).
  - apply triple_attempt. by apply run_key_batch_kept.
  - intros [post | kind].
    + match goal with |- triple _ ?m _ ?R => change (keeps (Typed rp) m R) end. keep.
    + eapply triple_bind; [by apply restore_hold_failing |]. intros []. by apply triple_fail.
Qed.

End Keyboard.
