(* ===== verification/EngineMappingSafety.v ===== *)
(** * The temporary keyboard mapping is never forgotten

    The triples of the temporary mapping of a scalar: the row found is persisted as the
    pending restoration before it is overwritten, and the restoration is pending until
    the row was read back as it was found.  With them every keyboard action keeps the
    invariant. *)

From stdpp Require Import base numbers list option.
From Stdlib Require Import Lia.
From S2P Require Import Prelude Identity Geometry Motion Keys OwnedInput Actions.
From S2P Require Import NamedKeys InputBackend InputOutcome KeyboardActions.
From S2P Require Import Engine EnginePointer EngineKeyboard EngineControl Recorder Coverage.
From S2P Require Import EngineInvariant EngineBatch EnginePointerSafety EngineKeyboardSafety.

Local Open Scope N_scope.

Import LedgerFacts CleanupFacts InputEngine InputTrace.

(** The monitor's view of a row. *)
Lemma lookup_row_head key row rows : Monitor.lookup_row key ((key, row) :: rows) = Some row.
Proof. unfold Monitor.lookup_row. simpl. by rewrite decide_True by done. Qed.

Lemma lookup_row_all key row rows :
  (forall r, r ∈ rows -> r = (key, row)) -> rows <> [] -> Monitor.lookup_row key rows = Some row.
Proof.
  destruct rows as [| r rows]; [done |]. intros Hr _. rewrite (Hr r) by (by left).
  apply lookup_row_head.
Qed.

Lemma lookup_row_None key rows : rows = [] -> Monitor.lookup_row key rows = None.
Proof. by intros ->. Qed.

Section Mapping.
Context {V : Type} `{!InputBackend V, !ActorKeyboardModel V, !Surroundings V, !Observed V}.
Context `{!TypedKeyboard V}.

#[local] Abbreviation Engine := (InputEngine.t V BindingToken).
#[local] Abbreviation State := (Engine * KeyboardProgress.t)%type.
Implicit Types (e : Engine) (s : State) (b : Prop) (X : Held -> Prop).

(** The invariant, what may not be held and, where [b], nothing in flight that may be
    held. *)
Definition Shape b X (rp : option PendingTemporaryRestore.t) (e : Engine) : Prop :=
  Restoring rp e /\ (b -> Settled e) /\ forall x, X x -> x ∉ down e.
#[local] Abbreviation Phase b := (Shape b (fun _ => False)).

#[export] Instance shape_stable b X rp : Stable (Shape b X rp).
Proof.
  intros e e' (Hr & Hs & Hu) Hc. destruct (Hc (proj1 Hr)) as (_ & Hd & _). split_and!.
  - by eapply stable.
  - intros Hb. eapply stable; [by apply Hs | done].
  - intros x Hx Hin. by eapply Hu, Hd.
Qed.

Lemma phase_inv b X rp e : Shape b X rp e -> inv e.
Proof. by intros [[]]. Qed.

(** ** Writing and reading a row *)

(** A call that changes only what the monitor knows of rows. *)
Lemma phase_rows b X p e w c :
  Shape b X (Some p) e -> trace V w = trace V (world e) ++ [c] ->
  let m := Monitor.step (seen e) c in
  Monitor.mapping m = Monitor.mapping (seen e) -> Monitor.down m = down e ->
  restorable (Some p) m -> Shape b X (Some p) (set_world w e).
Proof.
  intros ([[H1 H2 H3 H4 H5 H6] Hp] & Hs & Hu) Hc%seen_world m Hm Hd Hr. simpl in Hc. fold m in Hc.
  split; [split; [split; try done |] | split].
  - by rewrite Hc, Hm.
  - unfold down. rewrite Hc, Hd. exact H4.
  - simpl. by rewrite Hc, Hp.
  - exact Hp.
  - intros Hb. destruct (Hs Hb) as [_ Hq]. split; [split; try done |].
    + by rewrite Hc, Hm.
    + unfold down. rewrite Hc, Hd. exact H4.
    + simpl. by rewrite Hc, Hp.
    + unfold down. rewrite Hc, Hd. exact Hq.
  - unfold down. rewrite Hc, Hd. exact Hu.
Qed.

Definition DirtyRow key row (e : Engine) : Prop :=
  Monitor.lookup_row key (Monitor.dirty (seen e)) = Some row.

Lemma write_row_step b X key original row e w (r : result unit BackendFault.t) :
  Shape b X (Some (PendingTemporaryRestore.mk key original)) e ->
  write_keyboard_mapping key row (world e) = (w, r) ->
  Shape b X (Some (PendingTemporaryRestore.mk key original)) (set_world w e) /\
  DirtyRow key original (set_world w e).
Proof.
  intros He Hw%(trace_write_row V). pose proof He as [[[_ _ _ _ H5 _] Hp] _].
  unfold restorable in H5. rewrite Hp in H5. destruct H5 as [Hf Hd].
  pose proof (seen_world _ _ _ Hw) as Hs. simpl in Hs. unfold DirtyRow. rewrite Hs.
  destruct (Monitor.lookup_row key (Monitor.dirty (seen e))) as [o |] eqn:Hl.
  - assert (Monitor.dirty (seen e) <> []) as Hne by (intros H0; by rewrite H0 in Hl).
    rewrite (lookup_row_all key original _ Hd Hne) in Hl. injection Hl as <-. split.
    + eapply phase_rows; [exact He | exact Hw | |  |]; simpl; rewrite (lookup_row_all key original _ Hd Hne); done.
    + by apply lookup_row_all.
  - rewrite Hf. assert (Monitor.dirty (seen e) = []) as Hnil.
    { destruct (Monitor.dirty (seen e)) as [| r0 rs] eqn:Hdd; [done |]. exfalso.
      rewrite (lookup_row_all key original) in Hl; [done | exact Hd | done]. }
    split; [| apply lookup_row_head].
    eapply phase_rows; [exact He | exact Hw | | |]; simpl; rewrite Hl, Hf; try done.
    split; [done |]. simpl. intros x. rewrite Hnil. by intros ->%list_elem_of_singleton.
Qed.

Lemma read_row_step b X key original e w r :
  Shape b X (Some (PendingTemporaryRestore.mk key original)) e -> DirtyRow key original e ->
  read_keyboard_mapping key (world e) = (w, r) ->
  Shape b X (Some (PendingTemporaryRestore.mk key original)) (set_world w e) /\
  (r = Ok original -> CleanRows (set_world w e)).
Proof.
  intros He Hrow Hw%(trace_read_row V). pose proof He as [[[_ _ _ _ H5 _] Hp] _].
  unfold restorable in H5. rewrite Hp in H5. destruct H5 as [Hf Hd]. unfold DirtyRow in Hrow.
  destruct r as [row | f]; simpl in Hw.
  - assert (Shape b X (Some (PendingTemporaryRestore.mk key original)) (set_world w e)) as Hphase.
    { eapply phase_rows; [exact He | exact Hw | | |]; simpl; rewrite Hrow; try (by case_decide).
      case_decide; [| done]. split; [done |]. simpl. intros x [_ Hx]%list_elem_of_filter. by apply Hd. }
    split; [exact Hphase |]. intros [= ->]. split; [by eapply phase_inv |].
    pose proof (seen_world _ _ _ Hw) as Hs. simpl in Hs. rewrite Hs, Hrow. rewrite decide_True by done. simpl.
    apply filter_none. intros x Hx Hne. apply Hne. by rewrite (Hd x Hx).
  - split; [| done]. eapply stable; [exact He | by apply calm_quiet].
Qed.

Lemma triple_write_and_check b X key original mapping check :
  let p := PendingTemporaryRestore.mk key original in
  triple (Shape b X (Some p)) (write_and_check key mapping check)
    (fun r e => Shape b X (Some p) e /\
       (is_ok r = true -> (forall row, check row = true -> row = original) -> CleanRows e))
    (fun _ _ => False).
Proof.
  intros p. eapply triple_bind with (X := fun _ e => Shape b X (Some p) e /\ DirtyRow key original e).
  { apply triple_outside. intros e w r He Hw. by eapply write_row_step. }
  intros [u | f]; [| apply triple_ret; by intros e [? _]].
  eapply triple_bind with (X := fun r e => Shape b X (Some p) e /\ (r = Ok original -> CleanRows e)).
  { apply triple_outside. intros e w r [He Hrow] Hr. by eapply read_row_step. }
  intros [row | f]; apply triple_ret; [| by intros e [? _]]. intros e [He Hc]. split; [done |].
  destruct (check row) eqn:Hrow; [| done]. intros _ Heq. apply Hc. by rewrite (Heq row).
Qed.

(** ** The restoration *)
Lemma restored b X p e :
  Shape b X (Some p) e -> CleanRows e -> Shape b X None (set_pending_keyboard_restore None e).
Proof.
  intros ([[H1 H2 H3 H4 H5 H6] Hp] & Hs & Hu) [_ Hc]. split; [by split |]. split; [| done].
  intros Hb. destruct (Hs Hb) as [_ Hq]. by split.
Qed.

Definition ShapeTyped b X rp s : Prop := Shape b X rp (fst s).
#[local] Abbreviation PhaseTyped b := (ShapeTyped b (fun _ => False)).

#[export] Instance shape_exits b X rp : Exits (Shape b X rp) (fun (_ : InputFailureKind.t) => Shape b X rp).
Proof. by intros e He _. Qed.

Lemma triple_engine {A} (P : Engine -> Prop) (Q : A -> Engine -> Prop) (R : InputFailureKind.t -> Engine -> Prop) m :
  triple P m Q R ->
  triple (fun s : State => P (fst s)) (engine m) (fun a s => Q a (fst s)) (fun kind s => R kind (fst s)).
Proof. intros Hm [e p] He. specialize (Hm e He). unfold engine. simpl. by destruct (m e) as [e' [a | x]]. Qed.

(** The failures of a restoration. *)
Lemma give_up_kept {A} b X rp (m : M Engine InputFailureKind.t unit) kind :
  keeps (Shape b X rp) m (fun _ => Shape b X rp) ->
  triple (ShapeTyped b X rp) (set_restoration_proven false ;;; engine m ;;; fail kind : M State _ A)
    (fun _ _ => False) (fun _ => ShapeTyped b X rp).
Proof.
  intros Hm. eapply triple_bind with (X := fun _ => ShapeTyped b X rp); [by intros s Hs |]. intros [].
  eapply triple_bind with (X := fun _ => ShapeTyped b X rp); [apply (triple_engine _ _ _ _ Hm) |].
  intros []. by apply triple_fail.
Qed.

Lemma triple_restore b X rp :
  triple (ShapeTyped b X rp) restore_pending_keyboard_mapping
    (fun _ => ShapeTyped b X None) (fun _ => ShapeTyped b X rp).
Proof.
  unfold restore_pending_keyboard_mapping.
  eapply triple_bind with (X := fun self s => ShapeTyped b X rp s /\ pending_keyboard_restore self = rp).
  { intros [e p] He. split; [exact He | apply He]. }
  intros self. apply triple_fact. intros Hself. rewrite Hself. destruct rp as [[key original] |];
    [| by apply triple_ret]. cbn [PendingTemporaryRestore.key PendingTemporaryRestore.original].
  set (p := PendingTemporaryRestore.mk key original).
  eapply triple_bind with (X := fun r s => ShapeTyped b X (Some p) s /\ (is_ok r = true -> CleanRows (fst s))).
  { eapply triple_conseq; [apply (triple_engine _ _ _ _ (triple_write_and_check b X key original original
      (fun observed => bool_decide (observed = original)))) | done | | by intros].
    intros r s [He Hc]. split; [exact He |]. intros Hr. apply Hc; [done |]. by intros row ?%bool_decide_eq_true. }
  intros [u | fault].
  2: { eapply triple_weaken with (P' := ShapeTyped b X (Some p)); [| by intros s [? _]].
       destruct (BackendFault.is_connection fault) eqn:Hc.
       - eapply triple_conseq; [apply (give_up_kept b X (Some p) (apply_backend_fault fault)) | done..].
         apply keeps_backend_fault; apply _.
       - eapply triple_conseq; [apply (give_up_kept b X (Some p)) | done..]. apply keeps_transition; apply _. }
  set (Y := fun s : State => ShapeTyped b X (Some p) s /\ CleanRows (fst s)).
  apply triple_weaken with (P' := Y); [| by intros s [? Hc]; split; [| apply Hc]].
  eapply triple_bind with (X := fun _ => Y).
  { eapply triple_conseq; [apply (triple_engine (fun e => Shape b X (Some p) e /\ CleanRows e)
      (fun _ e => Shape b X (Some p) e /\ CleanRows e) (fun _ e => Shape b X (Some p) e /\ CleanRows e)) | done | done |].
    - apply triple_quiet; [apply _ | apply trace_synchronize].
    - by intros _ s [? _]. }
  intros [preflight | fault].
  2: { eapply triple_weaken with (P' := ShapeTyped b X (Some p)); [| by intros s [? _]].
       destruct (KeyboardModelFault.is_connection fault) eqn:Hc;
         (eapply triple_conseq; [apply (give_up_kept b X (Some p)); apply keeps_transition; apply _ | done..]). }
  eapply triple_bind with (X := fun _ => ShapeTyped b X None).
  { intros [e p'] [He Hc]. by eapply restored. }
  intros []. eapply triple_bind with (X := fun _ => ShapeTyped b X None); [by intros s Hs |].
  intros []. by intros s Hs.
Qed.

(** ** A temporary mapping *)
Lemma phase_between rp e : Phase True rp e <-> Between rp e.
Proof.
  unfold Shape, Between. split; [intros (? & H & _); split; [by apply H | done] | intros []; by split_and!].
Qed.

(** The row that was read is the one found. *)
Lemma read_row_found key :
  triple (Between None) (outside (read_keyboard_mapping key))
    (fun r e => Between None e /\ match r with Ok row => FoundRow key row e | Err _ => True end)
    (fun (_ : InputFailureKind.t) _ => False).
Proof.
  apply triple_outside. intros e w r He Hw%(trace_read_row V).
  destruct r as [row | f]; simpl in Hw; [| split; [| done]; eapply stable; [exact He | by apply calm_quiet]].
  pose proof He as [[[H1 H2 H3 H4 H5 H6] Hq] [_ Hp]]. unfold restorable in H5. rewrite Hp in H5.
  pose proof (seen_world _ _ _ Hw) as Hs. simpl in Hs.
  rewrite (lookup_row_None key _ H5) in Hs. unfold Monitor.set_rows in Hs.
  assert (inv (set_world w e)) as Hi.
  { split; try done; unfold restorable, down; rewrite Hs; simpl; [done | exact H4 | by rewrite Hp]. }
  split; [split; [split; [done |] | by split] | split; [done |]].
  - unfold down. rewrite Hs. exact Hq.
  - rewrite Hs. apply lookup_row_head.
Qed.

Lemma persist_restore key original e :
  Between None e -> FoundRow key original e ->
  Between (Some (PendingTemporaryRestore.mk key original))
    (set_pending_keyboard_restore (Some (PendingTemporaryRestore.mk key original)) e).
Proof.
  intros [[[H1 H2 H3 H4 H5 H6] Hq] [_ Hp]] [_ Hf].
  assert (inv (set_pending_keyboard_restore (Some (PendingTemporaryRestore.mk key original)) e)) as Hi.
  { split; try done. simpl. split; [exact Hf |]. unfold restorable in H5. rewrite Hp in H5. 
    change (seen (set_pending_keyboard_restore _ e)) with (seen e). rewrite H5.
    by intros row ?%not_elem_of_nil. }
  by split; [split |].
Qed.

(** After a failure of the temporary mapping only the invariant is left. *)
Definition Ended (_ : InputFailureKind.t) s : Prop := inv (fst s).

#[local] Abbreviation typed rp m := (keeps (Typed (V := V) rp) m (FailingTyped rp)).
#[local] Abbreviation ends m := (keeps (Typed (V := V) None) m Ended).

Lemma typed_ends {A} (m : M State _ A) : typed None m -> ends m.
Proof. intros Hm. eapply triple_conseq; [exact Hm | done | done |]. by intros kind s [[Hi _] _]. Qed.

Lemma ends_bind {A B} (m : M State _ B) (k : B -> M State _ A) :
  typed None m -> (forall x, ends (k x)) -> ends (bind m k).
Proof. intros Hm Hk. apply keeps_bind; [by apply typed_ends | exact Hk]. Qed.

#[export] Instance typed_ended rp : Exits (Typed rp) Ended.
Proof. intros s Hs kind. by eapply between_inv. Qed.

#[local] Hint Resolve model_failure_kept identifier_failure_kept context_kept preflight_failure_kept : keeps.

Lemma type_installed_kept rp c d scalar delay reservation context :
  typed rp (type_installed c d scalar delay reservation context).
Proof.
  unfold type_installed. apply keeps_bind; [keep |]. intros sync. apply keeps_bind; [keep |]. intros _.
  apply keeps_engine_fact with (F := fun r => match r with Ok b => valid_binding b | Err _ => True end);
    [by apply resolve_kept |]. intros resolved Hr.
  apply keeps_engine_fact with (F := valid_binding).
  { destruct resolved as [b | f]; simpl; [by apply triple_ret |].
    eapply triple_bind; [apply preflight_failure_kept |]. intros kind.
    apply triple_fail. intros e He. by apply exits. }
  intros binding Hb. pose proof (fun step => resolved_step_kept rp c d step [binding] context false
    (proj2 (Forall_singleton _ _) Hb)). keep.
Qed.

Lemma triple_phase_typed {A} b rp rq (m : M State InputFailureKind.t A) :
  triple (PhaseTyped b rp) m (fun _ => PhaseTyped b rq) (fun _ => PhaseTyped b rp) ->
  triple (PhaseTyped b rp) m (fun _ => PhaseTyped b rq) Ended.
Proof. intros Hm. eapply triple_conseq; [exact Hm | done | done |]. intros kind s Hs. exact (phase_inv _ _ _ _ Hs). Qed.

(** The failed install: the row is restored, and the failure reported. *)
Lemma triple_failed_install p (lost : bool) :
  triple (Typed (Some p))
    (restore <- attempt restore_pending_keyboard_mapping ;;
     if lost then fail InputFailureKind.BackendUnavailable
     else match restore with
          | Ok _ => fail InputFailureKind.TemporaryMappingInstallFailed
          | Err kind => fail kind
          end : M State _ bool) (fun _ => Typed None) Ended.
Proof.
  eapply triple_bind with (X := fun _ s => inv (fst s)).
  - apply triple_attempt. eapply triple_conseq; [apply (triple_restore True (fun _ => False) (Some p)) | | |].
    + intros s Hs. by apply phase_between.
    + intros u s Hs. exact (phase_inv _ _ _ _ Hs).
    + intros u s Hs. exact (phase_inv _ _ _ _ Hs).
  - intros r. destruct lost; [by apply triple_fail |]. destruct r; by apply triple_fail.
Qed.

Lemma run_installed_ends c d scalar delay reservation original context :
  triple (fun s => Typed None s /\ FoundRow (KeyboardReservation.key reservation) original (fst s))
    (run_installed c d scalar delay reservation original context) (fun _ => Typed None) Ended.
Proof.
  unfold run_installed. cbv zeta. set (key := KeyboardReservation.key reservation).
  set (p := PendingTemporaryRestore.mk key original).
  eapply triple_bind with (X := fun _ => Typed (Some p)).
  { intros [e q] [He Hf]. by apply persist_restore. }
  intros []. eapply triple_bind with (X := fun _ => Typed (Some p)); [by intros s Hs |]. intros [].
  eapply triple_bind with (X := fun _ => Typed (Some p)).
  { eapply triple_conseq; [apply (triple_engine _ _ _ _ (triple_write_and_check True (fun _ => False) key original _ _)) | | |].
    - intros s Hs. by apply phase_between.
    - intros r s [Hs _]. by apply phase_between.
    - done. }
  intros [u | fault].
  2: { eapply triple_bind with (X := fun _ => Typed (Some p)); [| intros []; apply triple_failed_install].
       destruct (BackendFault.is_connection fault); [| by apply triple_ret].
       eapply triple_conseq; [apply (keeps_engine (Between (Some p)) (Failing (Some p))) | done | done |].
       - apply keeps_backend_fault; apply _.
       - by intros kind s [[Hi _] _]. }
  eapply triple_bind with (X := fun _ => Typed (Some p)); [by intros s Hs |]. intros [].
  eapply triple_bind with (X := fun r s => PhaseTyped (is_ok r = true) (Some p) s).
  { apply triple_attempt. eapply triple_conseq; [apply (type_installed_kept (Some p)) | done | |].
    - intros t s [Hs Hr]. by split.
    - intros kind s [Hr _]. by split_and!. }
  intros r. eapply triple_bind with (X := fun _ => PhaseTyped (is_ok r = true) (Some p));
    [by intros s Hs |]. intros self.
  pose proof (triple_phase_typed _ _ _ _ (triple_restore (is_ok r = true) (fun _ => False) (Some p))) as Hrestore.
  destruct r as [typed | kind].
  - eapply triple_bind; [exact Hrestore |]. intros []. apply triple_weaken with (P' := Typed None).
    2: { intros s (Hr & Hs & _). split; [by apply Hs | done]. }
    eapply triple_bind with (X := fun _ => Typed None); [| intros; by apply triple_ret].
    destruct typed; by intros s Hs.
  - case_decide; [apply triple_fail; intros s Hs; exact (phase_inv _ _ _ _ Hs) |].
    eapply triple_bind; [exact Hrestore |]. intros []. apply triple_fail. intros s Hs. exact (phase_inv _ _ _ _ Hs).
Qed.

(** A boundary keeps any stable assertion. *)
Lemma triple_stop_step P `{!Stable P} c d (rest : M State InputFailureKind.t bool) :
  (forall e, P e -> Between None e) ->
  triple (fun s => P (fst s)) rest (fun _ => Typed None) Ended ->
  triple (fun s => P (fst s)) (stop_step c d rest) (fun _ => Typed None) Ended.
Proof.
  intros HP Hr. eapply triple_bind with (X := fun _ s => P (fst s)).
  { eapply triple_conseq; [apply (triple_engine P (fun _ => P) (fun _ => P)) | done | done |].
    - by apply triple_boundary_stop.
    - intros kind s Hs. eapply between_inv. by apply HP. }
  intros [stopped |]; [| exact Hr]. intros [e p] He. simpl. by apply HP.
Qed.

Lemma or_failure_kept {A} rp (r : result A KeyboardModelFault.t) f :
  (forall fault, keeps (Between rp) (f fault) (Failing rp)) -> keeps (Between rp) (or_failure r f) (Failing rp).
Proof. intros Hf. unfold or_failure. keep. Qed.

Lemma temporary_scalar_ends c d scalar delay : ends (run_temporary_scalar c d scalar delay).
Proof.
  unfold run_temporary_scalar. apply (triple_stop_step (Between None)); [done |].
  apply ends_bind; [keep |]. intros context. apply ends_bind; [keep |]. intros reserved.
  apply ends_bind; [keep |]. intros reservation. apply ends_bind; [keep |]. intros validated.
  apply ends_bind; [keep |]. intros _. apply ends_bind; [keep |]. intros self.
  apply ends_bind; [keep |]. intros _.
  set (key := KeyboardReservation.key reservation).
  eapply triple_bind with (X := fun r s => Typed None s /\
    match r with Ok row => FoundRow key row (fst s) | Err _ => True end).
  { eapply triple_conseq; [apply (triple_engine _ _ _ _ (read_row_found key)) | done..]. }
  intros [original | fault].
  2: { apply triple_weaken with (P' := Typed None); [| by intros s [? _]].
       apply ends_bind; [keep |]. intros _. by apply keeps_fail. }
  set (P := fun e => Between None e /\ FoundRow key original e).
  assert (Stable P) as HS by (unfold P; apply _).
  assert (forall e, P e -> Between None e) as HP by (by intros e []).
  change (triple (fun s => P (fst s))
    (reject_if (unused_row original = false) InputFailureKind.UnsupportedByBackend ;;;
     validated <- engine (outside (validate_reservation reservation)) ;;
     engine (or_failure validated (fun fault => keyboard_model_failure fault false)) ;;;
     stop_step c d (run_installed c d scalar delay reservation original context))
    (fun _ => Typed None) Ended).
  eapply triple_bind with (X := fun _ s => P (fst s)).
  { apply triple_reject_if; [| done]. intros s Hs _. eapply between_inv. by apply HP. }
  intros []. eapply triple_bind with (X := fun _ s => P (fst s)).
  { eapply triple_conseq; [apply (triple_engine P (fun _ => P) (fun _ => P)) | done | done |].
    - apply triple_quiet; [exact HS | apply trace_validate_reservation].
    - intros kind s Hs. eapply between_inv. by apply HP. }
  intros validated'. eapply triple_bind with (X := fun _ s => P (fst s)).
  { destruct validated' as [m | fault]; simpl; [intros [e p] He; exact He |].
    eapply triple_conseq; [apply (triple_engine P (fun _ => P) (fun _ e => inv e)) | done | done | done].
    eapply triple_bind with (X := fun _ => P).
    - unfold keyboard_model_failure. destruct (KeyboardModelFault.kind fault); try (by apply triple_ret).
      eapply triple_bind with (X := fun _ => P); [| intros; by apply triple_ret].
      eapply triple_conseq; [by apply (triple_transition P) | done | done |].
      intros kind e He. eapply between_inv. by apply HP.
    - intros kind. apply triple_fail. intros e He. eapply between_inv. by apply HP. }
  intros []. apply (triple_stop_step P); [exact HP |]. apply run_installed_ends.
Qed.

(** ** Keyboard actions *)
Lemma scalar_ends c d mode scalar delay : ends (run_scalar c d mode scalar delay).
Proof.
  unfold run_scalar. eapply triple_bind with (X := fun r s =>
    match r with Ok _ => Typed None s | Err kind => FailingTyped None kind s end).
  { apply triple_attempt. apply exact_scalar_kept. }
  intros [[] | kind].
  - eapply triple_bind with (X := fun _ => Typed None); [by intros s Hs |]. intros []. by apply triple_ret.
  - by apply triple_ret.
  - case_decide as Hk.
    + eapply triple_weaken; [apply temporary_scalar_ends |]. intros s [Hr Hs]. split; [| done].
      apply Hs, Hk.
    + apply triple_fail. by intros s [[Hi _] _].
Qed.

Lemma after_unit_ends c d last : ends (after_unit c d last).
Proof. apply typed_ends. unfold after_unit, deadline_stop. keep. Qed.

Lemma stop_step_ends c d rest : ends rest -> ends (stop_step c d rest).
Proof. intros Hr. by apply (triple_stop_step (Between None)). Qed.

Lemma steps_ends c d steps : ends (run_steps c d steps).
Proof.
  induction steps as [| step steps IH]; simpl run_steps; [by apply triple_ret |].
  apply keeps_bind; [by apply stop_step_ends, typed_ends, keyboard_step_kept |].
  intros []; [| by apply triple_ret]. apply keeps_bind; [apply after_unit_ends |].
  intros []; [exact IH | by apply triple_ret].
Qed.

Lemma scalars_ends c d mode delay first scalars : ends (run_scalars c d mode delay first scalars).
Proof.
  revert first. induction scalars as [| scalar scalars IH]; intros first; simpl run_scalars; [by apply triple_ret |].
  apply keeps_bind; [by apply stop_step_ends, scalar_ends |].
  intros []; [| by apply triple_ret]. apply keeps_bind; [apply after_unit_ends |].
  intros []; [apply IH | by apply triple_ret].
Qed.

Lemma after_single_ends d executed : ends (after_single d executed).
Proof. apply typed_ends. unfold after_single, deadline_stop. keep. Qed.

Lemma kind_ends c d action : ends (run_kind c d action).
Proof.
  destruct action; simpl run_kind.
  - apply keeps_bind; [by apply typed_ends, keyboard_down_kept | apply after_single_ends].
  - apply keeps_bind; [by apply typed_ends, keyboard_up_kept | apply after_single_ends].
  - apply steps_ends.
  - apply keeps_bind; [by intros s Hs |]. intros []. apply keeps_bind; [by intros s Hs |]. intros [].
    apply scalars_ends.
Qed.

Lemma keyboard_action_kept c d action :
  triple (Between None) (run_keyboard_action c d action) (fun _ => Between None) (fun _ => inv).
Proof.
  intros e He. unfold run_keyboard_action.
  match goal with |- context [run_kind c d action ?s] => pose proof (kind_ends c d action s He) as H;
    destruct (run_kind c d action s) as [[e' p] [a | kind]] end; exact H.
Qed.

End Mapping.
