(* ===== verification/EngineControlSafety.v ===== *)
(** * Every operation of the engine keeps the invariant

    The reset, the cleanup after a panic, the probe and the execution of an operation as
    triples over the invariant alone, whatever the outside does; and what a reset that
    succeeds establishes. *)

From stdpp Require Import base numbers list option.
From Stdlib Require Import Lia.
From S2P Require Import Prelude Identity Geometry Binary64 Motion Keys OwnedInput Actions.
From S2P Require Import NamedKeys InputBackend InputOutcome KeyboardActions.
From S2P Require Import Engine EnginePointer EngineKeyboard EngineControl Recorder Coverage.
From S2P Require Import EngineInvariant EngineBatch EnginePointerSafety EngineKeyboardSafety.
From S2P Require Import EngineMappingSafety.

Local Open Scope N_scope.

Import LedgerFacts CleanupFacts InputEngine InputTrace.

#[local] Opaque conservative_cleanup_actions.

(** The releases of a cleanup. *)
Lemma planned_release_effect s action :
  InputInvariant.wf s -> valid_held (held_of action) ->
  planned_ok (planned_release s action) /\ releases (planned_release s action) (held_of action) /\
  redundant (planned_release s action) = false /\
  (forall x, ~ presses (planned_release s action) x).
Proof.
  intros Hs Hv. unfold planned_ok, releases, presses, redundant. destruct action as [b | k m]; simpl in *.
  - case_decide; by split_and!.
  - destruct (owns_key s k); by split_and!.
Qed.

Section Control.
Context {V : Type} `{!InputBackend V, !ActorKeyboardModel V, !Surroundings V, !Observed V}.
Context `{!TypedKeyboard V}.

#[local] Abbreviation Engine := (InputEngine.t V BindingToken).
Implicit Types (e : Engine) (rp : option PendingTemporaryRestore.t).

Lemma cleanup_valid e action :
  inv e -> action ∈ conservative_cleanup_actions e -> valid_held (held_of action).
Proof.
  intros Hi Ha. assert (planned (conservative_cleanup_actions e) (held_of action)) as Hp.
  { apply list_elem_of_fmap. by exists action. }
  apply cleanup_exact in Hp as [Ho | [Hv _]]; [| done | by apply inv_state].
  eapply owned_valid; [by apply inv_state | exact Ho].
Qed.

(** Releases in any order are a batch. *)
Lemma cleanup_ordered e :
  inv e ->
  let events := map (planned_release (state e)) (conservative_cleanup_actions e) in
  ordered events /\ existsb redundant events = false /\
  (forall q x, q ∈ events -> ~ presses q x) /\
  (forall x, covered e x -> valid_held x -> released_by events x).
Proof.
  intros Hi events.
  assert (forall actions, (forall a, a ∈ actions -> valid_held (held_of a)) ->
    let events := map (planned_release (state e)) actions in
    ordered events /\ existsb redundant events = false /\ (forall q x, q ∈ events -> ~ presses q x)) as Hgen.
  { induction actions as [| a actions IH]; intros Hv.
    - split_and!; try done. by intros q x ?%not_elem_of_nil.
    - destruct (planned_release_effect (state e) a (inv_state e Hi) (Hv a (list_elem_of_here _ _)))
        as (Hp & _ & Hr & Hn).
      destruct IH as (IH1 & IH2 & IH3); [intros; apply Hv; by right |]. simpl. split_and!; try done.
      + intros q x _ Hq. by apply IH3.
      + by rewrite Hr.
      + intros q x [-> | Hq]%elem_of_cons; [apply Hn | by apply IH3]. }
  destruct (Hgen (conservative_cleanup_actions e)) as (H1 & H2 & H3); [intros; by eapply cleanup_valid |].
  split_and!; try done. intros x Hx Hv.
  assert (planned (conservative_cleanup_actions e) x) as Hpl.
  { apply cleanup_exact; [by apply inv_state |]. destruct Hx; [by left | by right]. }
  apply list_elem_of_fmap in Hpl as (a & -> & Ha). exists (planned_release (state e) a). split.
  - apply list_elem_of_fmap. by exists a.
  - by apply (planned_release_effect (state e) a (inv_state e Hi) Hv).
Qed.

(** ** Reset *)
Definition AllUp (e : Engine) : Prop := inv e /\ down e = [].

#[export] Instance all_up_stable : Stable AllUp.
Proof.
  intros e e' [He Hu] Hr. destruct (Hr He) as (Hi & Hd & _). split; [done |].
  destruct (down e') as [| x l]; [done |]. specialize (Hd x (list_elem_of_here x l)).
  rewrite Hu in Hd. by apply not_elem_of_nil in Hd.
Qed.

(** After the releases: if the batch did not fail, nothing may be held. *)
Definition Released rp (evidence : ResetEvidence.t) (e : Engine) : Prop :=
  Restoring rp e /\ (is_ok (ResetEvidence.batch evidence) = true -> Between rp e /\ AllUp e).

#[export] Instance released_stable rp evidence : Stable (Released rp evidence).
Proof.
  intros e e' [Hr Hs] Hc. split; [by eapply stable |].
  intros Hb. destruct (Hs Hb). split; by eapply stable.
Qed.

Lemma cleanup_batch rp (e : Engine) sensitive :
  Between rp e ->
  let events := map (planned_release (state e)) (conservative_cleanup_actions e) in
  match run_batch events sensitive false e with
  | (e', Ok _) => Between rp e' /\ AllUp e'
  | (e', Err _) => Restoring rp e'
  end.
Proof.
  intros He events. pose proof (between_inv _ _ He) as Hi.
  destruct (cleanup_ordered e Hi) as (Ho & Hr & Hn & Hc). fold events in Ho, Hr, Hn, Hc.
  set (X := fun x => ~ released_by events x).
  pose proof (triple_run_batch_up X events sensitive false rp Ho (fun q x _ Hq => Hn q x Hq) e) as Hb.
  destruct (run_batch events sensitive false e) as [e' [b | f]]; [| apply Hb].
  - destruct Hb as [Hbt [Hi' Hu]].
    { split_and!; [done | by rewrite Hr |]. intros x Hx Hin. apply Hx.
      destruct (inv_down e Hi x Hin). by apply Hc. }
    split; [done |]. split; [done |]. apply elem_of_nil_inv. intros x Hx.
    assert (~ (released_by events x \/ X x)) as Hn' by (intros H; by apply (Hu x H)).
    apply Hn'. right. intros Hrel. apply Hn'. by left.
  - split_and!; [done | by rewrite Hr |]. intros x Hx Hin. apply Hx.
    destruct (inv_down e Hi x Hin). by apply Hc.
Qed.

Lemma query_keys_kept {E} (P : Engine -> Prop) can (R : E -> Engine -> Prop) `{!Stable P, !Exits P R} :
  keeps P (query_keys can) R.
Proof.
  unfold query_keys. destruct can; [| by apply keeps_ret].
  apply keeps_observe_keys; [apply _ | apply _ | intros f | intros pressed]; by apply keeps_ret.
Qed.

Lemma attempt_releases_triple rp health_before :
  triple (Between rp) (attempt_releases health_before)
    (fun evidence e => Released rp evidence e /\ ResetEvidence.health_before evidence = health_before)
    (fun _ : InputFailure.t => Restoring rp).
Proof.
  unfold attempt_releases.
  eapply triple_bind with (X := fun self e => Between rp e /\ self = e); [by apply triple_get |].
  intros self. cbv zeta. set (P := fun (batch : result BatchSuccess.t BatchFailure.t) e =>
    Restoring rp e /\ (is_ok batch = true -> Between rp e /\ AllUp e)).
  assert (forall batch, Stable (P batch)) as HS.
  { intros batch d d' [Hr Hs] Hc. split; [by eapply stable |]. intros Ht. destruct (Hs Ht).
    split; by eapply stable. }
  assert (forall batch, Exits (P batch) (fun _ : InputFailure.t => Restoring rp)) as HE by (by intros batch e [Hr _] _).
  eapply triple_bind with (X := P).
  { intros e [He ->]. unfold attempt.
    pose proof (cleanup_batch rp e (negb (InputCleanupEvidence.is_empty
      (released_buttons (conservative_cleanup_actions e)))) He) as Hb. cbv zeta in Hb.
    destruct (run_batch _ _ _ e) as [e1 [b | f]]; [| by split].
    split; [by eapply between_restoring; apply Hb | by intros _]. }
  intros batch. eapply triple_bind with (X := fun _ => P batch).
  { change (keeps (P batch) (match batch with
      | Err error => match BatchFailure.kind error with BatchFailure.State => mark_panicked | _ => ret tt end
      | Ok _ => ret tt end) (fun _ : InputFailure.t => Restoring rp)). keep. }
  intros []. eapply triple_bind with (X := fun _ => P batch); [by apply query_keys_kept |].
  intros [keys fault]. eapply triple_bind with (X := fun _ => P batch).
  { destruct (connection_fault fault); [| by apply triple_ret].
    destruct fault; [by apply keeps_backend_fault | by apply triple_ret]. }
  intros []. eapply triple_bind with (X := fun _ => P batch); [by apply triple_get |]. intros after.
  destruct (match _ with Some _ => _ | None => _ end) as [valid unobservable]. by apply triple_ret.
Qed.

(** The verdicts: a proof that succeeds is of a batch that did not fail. *)
Lemma abandon_retry_triple rp evidence verdict :
  triple (Released rp evidence) (abandon_retry evidence verdict)
    (fun r e => Released rp evidence e /\
       ResetVerdict.proof_succeeded (snd r) = ResetVerdict.proof_succeeded verdict)
    (fun _ : InputFailure.t => Restoring rp).
Proof.
  assert (Exits (Released rp evidence) (fun _ : InputFailure.t => Restoring rp)) as HE by (by intros e [Hr _] _).
  unfold abandon_retry. destruct (_ && _); [| by apply triple_ret].
  eapply triple_bind with (X := fun _ => Released rp evidence).
  { apply (keeps_call _ _ AbandonPoisonedResetBatch); [done | done | by left | by intros e [[]]]. }
  assert (triple (Released rp evidence) (panic_verdict verdict) (fun v e => Released rp evidence e /\
    ResetVerdict.proof_succeeded v = ResetVerdict.proof_succeeded verdict)
    (fun _ : InputFailure.t => Restoring rp)) as Hp.
  { eapply triple_bind; [by apply keeps_mark_panicked |]. intros []. by apply triple_ret. }
  assert (triple (Released rp evidence) (verdict <- panic_verdict verdict ;; ret (false, verdict))
    (fun r e => Released rp evidence e /\
       ResetVerdict.proof_succeeded (snd r) = ResetVerdict.proof_succeeded verdict)
    (fun _ : InputFailure.t => Restoring rp)) as Hf.
  { eapply triple_bind; [exact Hp |]. intros v. by apply triple_ret. }
  intros [u | err]; [by apply triple_ret |]. destruct err; try exact Hf.
  destruct (is_ok _); [exact Hf | by apply triple_ret].
Qed.

Lemma settle_batch_triple rp evidence abandoned verdict :
  (ResetVerdict.proof_succeeded verdict = true -> is_ok (ResetEvidence.batch evidence) = true) ->
  triple (Released rp evidence) (settle_batch evidence abandoned verdict)
    (fun v e => Released rp evidence e /\
       (ResetVerdict.proof_succeeded v = true -> is_ok (ResetEvidence.batch evidence) = true))
    (fun _ : InputFailure.t => Restoring rp).
Proof.
  intros Hv. assert (Exits (Released rp evidence) (fun _ : InputFailure.t => Restoring rp)) as HE
    by (by intros e [Hr _] _).
  assert (forall v, (ResetVerdict.proof_succeeded v = true -> is_ok (ResetEvidence.batch evidence) = true) ->
    triple (Released rp evidence) (panic_verdict v) (fun v e => Released rp evidence e /\
       (ResetVerdict.proof_succeeded v = true -> is_ok (ResetEvidence.batch evidence) = true))
    (fun _ : InputFailure.t => Restoring rp)) as Hp.
  { intros v Hok. eapply triple_bind; [by apply keeps_mark_panicked |]. intros []. by apply triple_ret. }
  unfold settle_batch. destruct (ResetVerdict.proof_succeeded verdict) eqn:Hok; cbn [andb].
  - specialize (Hv eq_refl). destruct (bool_decide _); [| by apply triple_ret].
    eapply triple_bind with (X := fun _ => Released rp evidence).
    { apply (keeps_call _ _ ConfirmBatch); [done | done | | by intros e [[]]]. right. split; [done |].
      intros e [_ Hb]. by apply Hb in Hv as [[Hs _] _]. }
    intros [u | err]; [by apply triple_ret |].
    eapply triple_bind; [by apply keeps_mark_panicked |]. intros []. by apply triple_ret.
  - destruct (_ && _); [by apply triple_ret; rewrite Hok |]. destruct (_ && _).
    { eapply triple_bind with (X := fun _ => Released rp evidence).
      { apply (keeps_call _ _ (FailBatch PostconditionFailed)); [done | done | by left | by intros e [[]]]. }
      intros [u | err]; [by apply triple_ret; rewrite Hok | by apply Hp; rewrite Hok]. }
    destruct (_ && _); [| by apply triple_ret; rewrite Hok].
    eapply triple_bind with (X := fun _ => Released rp evidence).
    { apply (keeps_call _ _ (TransitionHealth (RequireReset PostconditionFailed)));
        [done | done | by left | by intros e [[]]]. }
    intros [u | err]; [by apply triple_ret; rewrite Hok | by apply Hp; rewrite Hok].
Qed.

(** The restoration after the releases. *)
Definition Restored (ok : bool) (failure : option InputFailureKind.t) (e : Engine) : Prop :=
  inv e /\ (ok = true -> AllUp e) /\ (failure = None -> Restoring None e).

#[export] Instance restored_stable ok failure : Stable (Restored ok failure).
Proof.
  intros e e' (Hi & Hu & Hp) Hc. split_and!; [by eapply stable | |].
  - intros Hok. eapply stable; [by apply Hu | done].
  - intros Hf. eapply stable; [by apply Hp | done].
Qed.

Lemma restore_mapping_triple {E} rp evidence (R : E -> Engine -> Prop) :
  let ok := is_ok (ResetEvidence.batch evidence) in
  triple (Released rp evidence) restore_mapping (fun r => Restored ok (snd r)) R.
Proof.
  intros ok. unfold restore_mapping.
  eapply triple_bind with (X := fun self e => Released rp evidence e /\ self = e); [by apply triple_get |].
  intros self. set (X := fun _ : Held => ok = true).
  assert (forall e, Released rp evidence e -> Shape False X rp e) as Hshape.
  { intros e [Hr Hu]. split; [done |]. split; [done |]. intros x Hx Hin. destruct (Hu Hx) as [_ [_ Hd]].
    rewrite Hd in Hin. by apply not_elem_of_nil in Hin. }
  assert (forall e rq, Shape False X rq e -> inv e /\ (ok = true -> AllUp e)) as Hup.
  { intros e rq ([Hi _] & _ & Hu). split; [done |]. intros Hok. split; [done |].
    apply elem_of_nil_inv. intros x. by apply Hu. }
  destruct (InputCleanupEvidence.is_some (pending_keyboard_restore self)) eqn:Hpend.
  - eapply triple_bind with (X := fun r => Restored ok
      (match r with Ok _ => None | Err kind => Some kind end)).
    + intros e [He _]. unfold restore_discarding_progress.
      pose proof (triple_restore False X rp (e, KeyboardProgress.default) (Hshape e He)) as H.
      destruct (restore_pending_keyboard_mapping _) as [[e' p] [u | kind]];
        destruct (Hup _ _ H) as [Hi Hu]; split_and!; try done. intros _. apply H.
    + intros r. apply triple_ret. by destruct r.
  - apply triple_ret. intros e [He ->]. destruct (Hup e rp (Hshape e He)) as [Hi Hu].
    split_and!; [done | done |]. intros _. split; [done |].
    by destruct (pending_keyboard_restore e).
Qed.

(** The health that a reset reports. *)
Definition Rested (e : Engine) : Prop :=
  InputState.health (state e) = Healthy /\ InputState.pressed_buttons (state e) = [] /\
  InputState.pressed_keys (state e) = [].

Lemma reset_succeeded_rested s s' :
  InputState.transition_health ResetSucceeded s = (s', Ok tt) ->
  InputState.health s' = Healthy /\ InputState.pressed_buttons s' = [] /\ InputState.pressed_keys s' = [].
Proof.
  intros Ht. destruct (InputInvariant.transition_health_cases ResetSucceeded s)
    as [(err & He) | (h & t & He & Hn & -> & _)]; rewrite He in Ht; [done |]. injection Ht as <-.
  unfold InputState.next_health in Hn. simpl. destruct (InputState.health s); try done.
  case_decide as Hd; [done |]. injection Hn as <-. split; [done |].
  destruct (InputState.pressed_buttons s), (InputState.pressed_keys s); try done;
    exfalso; apply Hd; (by left) || (right; by left).
Qed.

Lemma finish_rested s s' j : InputState.finish_action s = (s', Ok j) ->
  InputState.health s' = InputState.health s /\
  InputState.pressed_buttons s' = InputState.pressed_buttons s /\
  InputState.pressed_keys s' = InputState.pressed_keys s.
Proof.
  unfold InputState.finish_action. simpl. case_decide; simpl; [done |].
  destruct (InputState.effects s); simpl; [| done]. by intros [= <- _].
Qed.

Section Conclude.
Context (health_before : InputHealth) (ok : bool) (failure : option InputFailureKind.t).

Definition Reported (reports : bool) (e : Engine) : Prop :=
  Restored ok failure e /\ (reports = true -> is_reset_required health_before = true -> Rested e).

Lemma report_health_triple invariant_failed recovered :
  triple (Restored ok failure) (report_health health_before invariant_failed recovered)
    (fun r => Reported (is_ok r && recovered && negb invariant_failed))
    (fun _ : InputFailure.t => Restored ok failure).
Proof.
  unfold report_health. eapply triple_bind with (X := fun _ => Restored ok failure); [by apply triple_get |].
  intros self. destruct invariant_failed.
  { apply triple_ret. intros e He. split; [done |]. by rewrite andb_false_r. }
  destruct recovered.
  2: { assert (forall r : result unit InputStateError, forall e, Restored ok failure e ->
         Reported (is_ok r && false && negb false) e) as Hr.
       { intros r e He. split; [done |]. by rewrite andb_false_r. }
       destruct (is_reset_required (InputState.health (state self))); [| apply triple_ret; by apply Hr].
       eapply triple_conseq; [apply (keeps_call (Restored ok failure) (fun _ => Restored ok failure)
         (TransitionHealth ResetAttemptFailed)) | done | by apply Hr | done];
         [done | done | by left | by intros e []]. }
  destruct (is_reset_required health_before) eqn:Hb.
  - intros e He. unfold on_state.
    assert (calm e (set_state (fst (call (TransitionHealth ResetSucceeded) (state e))) e)) as Hc
      by (apply calm_call; [done | by left]). simpl call in Hc.
    destruct (InputState.transition_health ResetSucceeded (state e)) as [s' [[] | err]] eqn:Ht; simpl in Hc;
      (split; [by eapply stable | try done]).
    intros _ _. by apply reset_succeeded_rested in Ht.
  - apply triple_ret. intros e He. split; [done |]. by rewrite Hb.
Qed.

Lemma finish_reset_triple reports :
  triple (Reported reports) (on_state InputState.finish_action)
    (fun r => Reported (reports && is_ok r)) (fun _ : InputFailure.t => inv).
Proof.
  intros e [He Hr]. unfold on_state. pose proof (calm_finish e) as Hc.
  destruct (InputState.finish_action (state e)) as [s' [j | err]] eqn:Hf; simpl in Hc;
    (split; [by eapply stable |]).
  - rewrite andb_true_r. intros Hrep Hb. destruct (Hr Hrep Hb) as (R1 & R2 & R3).
    destruct (finish_rested _ _ _ Hf) as (F1 & F2 & F3). unfold Rested. simpl. rewrite F1, F2, F3.
    by split_and!.
  - by rewrite andb_false_r.
Qed.

(** A broken invariant is reported only where nothing was. *)
Lemma unless_triple {E} reports (b : bool) (m : M Engine E unit) (R : E -> Engine -> Prop) :
  (b = false -> reports = false) ->
  triple (Restored ok failure) m (fun _ => Restored ok failure) (fun _ => Restored ok failure) ->
  (forall x e, Restored ok failure e -> R x e) ->
  triple (Reported reports) (if b then ret tt else m) (fun _ => Reported reports) R.
Proof.
  intros Hb Hm HR. destruct b; [by apply triple_ret |]. rewrite Hb by done.
  eapply triple_conseq; [exact Hm | by intros e [] | by intros u e He; split | done].
Qed.
End Conclude.

(** What a reset that succeeds establishes. *)
Definition ResetDone (health_before : InputHealth) (e : Engine) : Prop :=
  AllUp e /\ Restoring None e /\ captured_keys e = [] /\ synthesized_modifiers e = [] /\
  (is_reset_required health_before = true -> Rested e).

Lemma forget_holds_triple {E} health_before proof reports ok failure (R : E -> Engine -> Prop) :
  (proof = true -> ok = true) -> (reports = true -> proof = true) ->
  triple (Reported health_before ok failure reports)
    (if proof
     then modify (fun e => set_synthesized_modifiers [] (set_captured_keys [] e)) else ret tt)
    (fun _ e => inv e /\ (failure = None -> reports = true -> ResetDone health_before e)) R.
Proof.
  intros Hok Hrep. destruct proof.
  2: { apply triple_ret. intros e [[Hi _] _]. split; [done |]. intros _ Hr. by apply Hrep in Hr. }
  intros e [(Hi & Hu & Hn) Hr]. specialize (Hu (Hok eq_refl)). simpl.
  assert (inv (set_synthesized_modifiers [] (set_captured_keys [] e))) as Hi'.
  { destruct Hi. by split. }
  split; [done |]. intros Hf Hrs. destruct Hu as [_ Hd]. destruct (Hn Hf) as [_ Hp].
  split_and!; try done. intros Hb. by apply Hr.
Qed.

Lemma fail_invariant_triple {A} P report (Q : A -> Engine -> Prop) :
  triple P (fail_invariant report) Q (fun _ => P).
Proof. by intros e He. Qed.

Lemma fail_actor_triple {A} P kind report (Q : A -> Engine -> Prop) :
  triple P (fail_actor kind report) Q (fun _ => P).
Proof. by intros e He. Qed.

Lemma conclude_reset_triple rp evidence :
  triple (Released rp evidence) (conclude_reset evidence)
    (fun _ => ResetDone (ResetEvidence.health_before evidence)) (fun _ => inv).
Proof.
  unfold conclude_reset. set (hb := ResetEvidence.health_before evidence).
  set (ok := is_ok (ResetEvidence.batch evidence)).
  assert (forall x : InputFailure.t, forall e, Restoring rp e -> inv e) as Hri by (by intros x e []).
  eapply triple_bind with (X := fun _ => Released rp evidence); [by apply triple_get |]. intros self. cbv zeta.
  eapply triple_bind.
  { eapply triple_conseq; [apply (abandon_retry_triple rp) | done | by intros a s Ha; exact Ha | done]. }
  intros [abandoned verdict]. apply triple_fact. cbn [snd ResetVerdict.proof_succeeded]. intros Hv.
  eapply triple_bind.
  { eapply triple_conseq; [apply (settle_batch_triple rp) | done | by intros a s Ha; exact Ha | done].
    rewrite Hv. unfold ResetEvidence.proof_succeeded. by intros [? _]%andb_true_iff. }
  intros v. apply triple_fact. intros Hok.
  eapply triple_bind; [apply (restore_mapping_triple rp) |]. intros [attempted failure]. cbn [snd].
  set (proof := _ && negb (InputCleanupEvidence.is_some failure)).
  set (recovered := proof && _). set (broken := ResetVerdict.invariant_failed v).
  eapply triple_bind.
  { eapply triple_conseq; [apply (report_health_triple hb ok failure broken recovered) | done |
      by intros a s Ha; exact Ha | by intros x e []]. }
  intros ht. set (reports := is_ok ht && recovered && negb broken).
  eapply triple_bind; [apply (unless_triple hb ok failure reports) |].
  { unfold reports. by intros ->. }
  { exact (triple_mark_panicked (Restored ok failure)). }
  { by intros x e []. }
  intros []. eapply triple_bind; [apply finish_reset_triple |].
  intros finished. eapply triple_bind; [apply (unless_triple hb ok failure (reports && is_ok finished)) |].
  { intros ->. apply andb_false_r. }
  { eapply triple_bind; [exact (triple_mark_panicked (Restored ok failure)) |].
    intros []. exact (triple_ignore_finish (Restored ok failure)). }
  { by intros x e []. }
  intros []. eapply triple_bind with (X := fun _ => Reported hb ok failure (reports && is_ok finished));
    [by apply triple_get |]. intros after.
  eapply triple_bind; [eapply (forget_holds_triple hb) |].
  { intros [[H _]%andb_true_iff _]%andb_true_iff. by apply Hok. }
  { unfold reports, recovered. intros Hr. 
    repeat match goal with H : _ && _ = true |- _ => apply andb_true_iff in H as [? ?] end.
    destruct (is_ok ht), (is_ok finished), proof; done. }
  intros [].
  destruct (broken || _) eqn:Hb; [by intros e [Hi _] |]. destruct failure; [by intros e [Hi _] |].
  destruct (recovered && _) eqn:Hs; [| by intros e [Hi _]].
  apply triple_ret. intros e [_ Hd]. apply Hd; [done |]. unfold reports.
  apply andb_true_iff in Hs as [-> Hs]. apply negb_true_iff, orb_false_iff in Hs as [H1 H2].
  apply orb_false_iff in Hb as [-> _]. by destruct (is_ok ht), (is_ok finished).
Qed.

(** *** [reset_owned_input]. *)
Lemma restoring_any e : inv e -> Restoring (pending_keyboard_restore e) e.
Proof. done. Qed.

Lemma begin_action_idle {E} P purpose `{!Stable P} :
  (forall e, P e -> inv e) ->
  triple P (on_state (InputState.begin_action purpose) : M Engine E _)
    (fun r e => P e /\ (is_ok r = true -> Idle e)) (fun _ => P).
Proof.
  intros HP. eapply triple_conseq; [apply (triple_call P (BeginAction purpose)) | done | | done]; try done.
  - by left.
  - intros r e [He Hi]. split; [done |]. intros Hr. by apply Hi.
Qed.

Lemma reset_owned_input_triple rp health :
  triple (fun e => Restoring rp e /\ InputState.health (state e) = health) reset_owned_input
    (fun _ => ResetDone health) (fun _ => inv).
Proof.
  unfold reset_owned_input.
  eapply triple_bind with (X := fun self e => Restoring rp e /\ InputState.health (state self) = health).
  { intros e [He Hh]. by split. }
  intros self. apply triple_fact. intros ->.
  eapply triple_bind.
  { eapply triple_conseq; [apply (begin_action_idle (Restoring rp)) | done | by intros a s Ha; exact Ha | by intros x e []].
    - apply _.
    - by intros e []. }
  intros [[] | err].
  - eapply triple_bind with (X := fun ev e => Released rp ev e /\ ResetEvidence.health_before ev = health).
    { eapply triple_conseq; [apply (attempt_releases_triple rp) | | by intros a s Ha; exact Ha | by intros x e []].
      intros e [Hr Hi]. by apply between_idle; [apply Hi |]. }
    intros ev. apply triple_fact. intros <-. apply conclude_reset_triple.
  - eapply triple_bind with (X := fun _ => Restoring rp).
    { eapply triple_conseq; [exact (triple_mark_panicked (Restoring rp)) | by intros e [] | done | by intros x e []]. }
    intros []. eapply triple_bind with (X := fun _ => Restoring rp).
    { eapply triple_conseq; [exact (triple_ignore_finish (Restoring rp)) | done | done | by intros x e []]. }
    intros []. by intros e [].
Qed.

End Control.
