(* ===== verification/EngineExecutionSafety.v ===== *)
(** * Every operation of the engine keeps the invariant

    The execution of an operation, the cleanup after a failure and after a panic, and the
    probe, as triples over the invariant alone, whatever the outside does; and that a new
    engine establishes it. *)

From stdpp Require Import base numbers list option.
From Stdlib Require Import Lia.
From S2P Require Import Prelude Identity Geometry Binary64 Motion Keys OwnedInput Actions.
From S2P Require Import NamedKeys InputBackend InputOutcome KeyboardActions.
From S2P Require Import Engine EnginePointer EngineKeyboard EngineControl Recorder Coverage.
From S2P Require Import EngineInvariant EngineBatch EnginePointerSafety EngineKeyboardSafety.
From S2P Require Import EngineMappingSafety EngineControlSafety.

Local Open Scope N_scope.

Import LedgerFacts CleanupFacts InputEngine InputTrace.

#[local] Opaque conservative_cleanup_actions.

(** Observations of the pointer, between operations. *)
Ltac keep_step ::=
  match goal with
  | |- forall _, _ => intros ?
  | |- keeps inv (bind (outside observe_pointer) _) _ =>
      apply keeps_observe_pointer; [done | intros ? | intros ?]
  | |- triple (fun _ => _ /\ shown _ _) _ _ _ => keep_observation
  | |- keeps _ (match ?x with _ => _ end) _ => destruct x
  | |- keeps _ (map_failure _ _) _ => apply keeps_map_failure
  | |- keeps _ (bind _ _) _ => apply keeps_bind; [| intros ?]
  | _ => progress cbv zeta
  end.

Section Execution.
Context {V : Type} `{!InputBackend V, !ActorKeyboardModel V, !Surroundings V, !Observed V}.
Context `{!TypedKeyboard V} (hypot : f64 -> f64 -> f64).

#[local] Abbreviation Engine := (InputEngine.t V BindingToken).
#[local] Abbreviation safe m := (keeps inv m (fun _ => inv)).
Implicit Types (e : Engine) (rp : option PendingTemporaryRestore.t).

(** The pending restoration, named. *)
Lemma triple_restoration {E A} (P : Engine -> Prop) (m : M Engine E A) (Q : A -> Engine -> Prop) R :
  (forall rp, triple (fun e => P e /\ pending_keyboard_restore e = rp) m Q R) -> triple P m Q R.
Proof. intros Hm e He. by apply (Hm (pending_keyboard_restore e)). Qed.

(** ** Reset and emergency cleanup *)
Lemma reset_safe : safe reset_owned_input.
Proof.
  intros e He.
  pose proof (reset_owned_input_triple (pending_keyboard_restore e) (InputState.health (state e)) e) as H.
  destruct (reset_owned_input e) as [e' [report | failure]]; [| by apply H].
  destruct H as [[Hi _] _]; [by split | done].
Qed.

Lemma cleanup_after_failure_safe {E} : safe (cleanup_after_failure : M Engine E _).
Proof. unfold cleanup_after_failure. apply keeps_bind; [apply keeps_attempt, reset_safe | keep]. Qed.

(** *** Emergency releases: the sends are not noted, and the releases press nothing. *)
Lemma release_safe {E} event x :
  transition_of event = Some (x, false) -> safe (outside (send_event event) : M Engine E _).
Proof.
  intros Ht. apply triple_outside. intros e w r He Hw%(trace_send_event V). simpl in Hw.
  eapply stable; [exact He |].
  assert (forall c m, Monitor.mapping (Monitor.step m (Sent event c)) = Monitor.mapping m /\
    Monitor.found (Monitor.step m (Sent event c)) = Monitor.found m /\
    Monitor.dirty (Monitor.step m (Sent event c)) = Monitor.dirty m /\
    Monitor.down (Monitor.step m (Sent event c)) = Monitor.down m) as Hs.
  { intros c m. simpl. rewrite Ht. by destruct c. }
  apply calm_seen; rewrite (seen_world _ _ _ Hw);
    match goal with |- context [Sent event ?c] => destruct (Hs c (seen e)) as (S1 & S2 & S3 & S4) end;
    cbn [fold_left]; [done.. |]. rewrite S4. done.
Qed.

Lemma send_releases_safe {E} events cookies ok :
  (forall event, event ∈ events -> exists x, transition_of event = Some (x, false)) ->
  safe (send_releases events cookies ok : M Engine E _).
Proof.
  revert cookies ok. induction events as [| event events IH]; intros cookies ok Hev; simpl; [keep |].
  destruct (Hev event (list_elem_of_here _ _)) as [x Hx].
  apply keeps_bind; [by eapply release_safe |].
  intros [c | f]; apply IH; intros; apply Hev; by right.
Qed.

Lemma check_releases_safe {E} cookies ok : safe (check_releases cookies ok : M Engine E _).
Proof.
  revert ok. induction cookies as [| c cookies IH]; intros ok; simpl; [keep |].
  apply keeps_bind; [| intros r; apply IH].
  apply triple_outside. intros e w r He Hw%(trace_check_cookie V). eapply stable; [exact He |].
  destruct r; simpl in Hw; [by eapply calm_lowering | by apply calm_quiet].
Qed.

Lemma key_releases keys event :
  event ∈ map (fun key => BackendEvent.Key key false 0) keys -> exists x, transition_of event = Some (x, false).
Proof. intros (k & -> & _)%list_elem_of_fmap. by exists (HeldKey k). Qed.

Lemma button_releases buttons event :
  event ∈ map (fun button => BackendEvent.Button button false 0) buttons ->
  exists x, transition_of event = Some (x, false).
Proof. intros (b & -> & _)%list_elem_of_fmap. by exists (HeldButton b). Qed.

Lemma emergency_keys_safe {E} modifier : safe (emergency_release_keys modifier : M Engine E _).
Proof.
  unfold emergency_release_keys. apply keeps_bind; [keep |]. intros self. cbv zeta.
  apply keeps_bind; [apply send_releases_safe, key_releases |]. intros [cookies ok].
  apply keeps_bind; [apply check_releases_safe |]. intros ok'.
  apply keeps_observe_keys; [apply _ | apply _ | intros f | intros pressed]; keep.
Qed.

Lemma emergency_buttons_safe {E} : safe (emergency_release_buttons : M Engine E _).
Proof.
  unfold emergency_release_buttons. apply keeps_bind; [keep |]. intros self. cbv zeta.
  apply keeps_bind; [apply send_releases_safe, button_releases |]. intros [cookies ok].
  apply keeps_bind; [apply check_releases_safe |]. intros ok'.
  apply keeps_observe_pointer; [done | intros f | intros o]; keep.
Qed.

Lemma restore_mapping_safe {E} : safe (restore_mapping : M Engine E _).
Proof.
  set (evidence := ResetEvidence.mk Healthy 0 0
    (Err (BatchFailure.mk BatchFailure.State 0 0 None)) None None [] false).
  apply triple_restoration. intros rp.
  eapply triple_conseq; [exact (restore_mapping_triple (E := E) rp evidence (fun _ => inv)) | | | done].
  - intros e He. by split.
  - by intros r e [].
Qed.

Lemma emergency_cleanup_safe {E} : safe (emergency_cleanup_after_panic : M Engine E bool).
Proof.
  pose proof (@emergency_keys_safe E). pose proof (@emergency_buttons_safe E).
  pose proof (@restore_mapping_safe E). unfold emergency_cleanup_after_panic. keep.
Qed.

(** ** Probe *)
Lemma probe_safe : safe probe.
Proof.
  unfold probe, fail_actor, keyboard_model_failure. keep.
Qed.

(** ** The checks before an effect *)
Lemma check_boundary_safe context target c : safe (check_boundary context target c).
Proof. unfold check_boundary, fail_before. keep. Qed.
Lemma drain_before_safe context target : safe (drain_before context target).
Proof. unfold drain_before, fail_before. keep. Qed.
Lemma require_healthy_safe context target : safe (require_healthy context target).
Proof. unfold require_healthy, fail_before. keep. Qed.
Lemma fail_before_safe {A} context target kind : safe (fail_before (A := A) context target kind).
Proof. unfold fail_before. keep. Qed.
Lemma or_rejected_safe {A E} context target (r : result A E) : safe (or_rejected context target r).
Proof. unfold or_rejected, fail_before. keep. Qed.
Lemma observe_start_safe context target : safe (observe_start context target).
Proof. unfold observe_start, fail_before. keep. Qed.

Lemma evaluate_keeps {E} (P : Engine -> Prop) `{!Stable P} check (conv : InputFailureKind.t -> E) :
  quiet_check check -> keeps P (evaluate_precondition check conv) (fun _ => P).
Proof. intros Hc. unfold evaluate_precondition. destruct check; keep. Qed.

Lemma check_precondition_keeps (P : Engine -> Prop) `{!Stable P} context check target :
  quiet_check check -> keeps P (check_precondition context check target) (fun _ => P).
Proof.
  intros Hc. unfold check_precondition, fail_before. apply keeps_bind; [| keep].
  apply keeps_attempt. by apply (evaluate_keeps P).
Qed.

#[local] Hint Resolve check_boundary_safe drain_before_safe require_healthy_safe fail_before_safe
  or_rejected_safe observe_start_safe : keeps.

(** ** The actions *)

(** An action is begun with no release in flight. *)
Lemma begin_ordinary_triple rp context target :
  triple (Restoring rp) (begin_ordinary context target)
    (fun _ e => Idle e /\ Restoring rp e) (fun _ => inv).
Proof.
  unfold begin_ordinary. eapply triple_bind.
  { eapply triple_conseq; [apply (begin_action_idle (Restoring rp)) | done | by intros r s Hr; exact Hr | by intros x e []].
    - apply _.
    - by intros e []. }
  intros [[] | err].
  - apply triple_ret. intros e [Hr Hi]. split; [by apply Hi | done].
  - assert (safe (mark_panicked ;;; update_state (ignore InputState.finish_action) ;;;
      self <- get ;; fail (invariant_failure context target self) : M Engine InputFailure.t unit)) as H by keep.
    intros e [[Hi _] _]. specialize (H e Hi).
    destruct ((mark_panicked ;;; _) e) as [e' [[] | f]] eqn:Hr; [| exact H]. done.
Qed.

Lemma close_journal_safe context error : safe (close_journal context error).
Proof. unfold close_journal. keep. Qed.
Lemma conclude_action_safe context progress effects : safe (conclude_action context progress effects).
Proof. unfold conclude_action. keep. Qed.
Lemma close_keyboard_journal_safe context progress : safe (close_keyboard_journal context progress).
Proof. unfold close_keyboard_journal, fail_keyboard. keep. Qed.
Lemma conclude_keyboard_safe context progress effects : safe (conclude_keyboard context progress effects).
Proof. unfold conclude_keyboard, fail_keyboard. keep. Qed.
Lemma fail_keyboard_safe {A} context error effects cleanup :
  safe (fail_keyboard (A := A) context error effects cleanup).
Proof. unfold fail_keyboard. keep. Qed.

#[local] Hint Resolve close_journal_safe conclude_action_safe close_keyboard_journal_safe
  conclude_keyboard_safe fail_keyboard_safe cleanup_after_failure_safe : keeps.

(** The run of an action may end anywhere in the invariant; what follows keeps it. *)
Lemma run_and_conclude {A B F} P (m : M Engine F A) (k : result A F -> M Engine InputFailure.t B) :
  triple P m (fun _ => inv) (fun _ => inv) -> (forall r, safe (k r)) ->
  triple P (bind (attempt m) k) (fun _ => inv) (fun _ => inv).
Proof.
  intros Hm Hk. eapply triple_bind with (X := fun _ => inv); [by apply triple_attempt | exact Hk].
Qed.

Lemma run_begun_action_triple rp context action click c :
  valid_action action -> quiet_click click ->
  triple (fun e => Idle e /\ Restoring rp e) (run_begun_action context action click c)
    (fun _ => inv) (fun _ => inv).
Proof.
  intros Ha Hc. apply run_and_conclude.
  - eapply triple_conseq; [by apply (run_action_kept rp) | | by intros r e [[]] | by intros r e []].
    intros e [Hi Hr]. split; [by apply between_idle | apply Hi].
  - keep.
Qed.

Lemma execute_prepared_safe context action check click c :
  valid_action action -> quiet_check check -> quiet_click click ->
  safe (execute_prepared_action context action check click c).
Proof.
  intros Ha Hq Hc. unfold execute_prepared_action. cbv zeta.
  repeat (apply keeps_bind; [solve [keep] |]; intros ?).
  apply keeps_bind; [by apply (check_precondition_keeps inv) |]. intros [].
  apply triple_restoration. intros rp. eapply triple_bind; [apply (begin_ordinary_triple rp) |].
  intros []. by apply run_begun_action_triple.
Qed.

Lemma execute_with_safe context action check c :
  valid_action action -> quiet_check check -> safe (execute_with_precondition context action check c).
Proof. intros Ha Hq. by apply execute_prepared_safe. Qed.

Lemma resolve_endpoint_safe context endpoint c : safe (resolve_pointer_endpoint context endpoint c).
Proof. unfold resolve_pointer_endpoint. keep. Qed.
#[local] Hint Resolve resolve_endpoint_safe : keeps.

Lemma resolve_window_safe request : safe (resolve_window_click_target request).
Proof. unfold resolve_window_click_target. keep. Qed.

Lemma execute_keyboard_safe context action check c :
  quiet_check check -> safe (execute_keyboard context action check c).
Proof.
  intros Hq. unfold execute_keyboard. do 3 (apply keeps_bind; [solve [keep] |]; intros []).
  eapply triple_bind with (X := fun self e => inv e /\ self = e); [by apply triple_get |]. intros self.
  eapply triple_bind with (X := fun _ => Restoring None).
  { case_decide as Hd; [by intros e [He _]; apply (fail_before_safe (A := unit) context None InputFailureKind.HealthRejected e He) |].
    apply triple_ret. intros e [He ->]. split; [done |].
    destruct (pending_keyboard_restore e); [| done]. exfalso. apply Hd. by right. }
  intros []. eapply triple_bind with (X := fun _ => Restoring None).
  { eapply triple_conseq; [apply (check_precondition_keeps (Restoring None)), Hq | done.. | by intros x e []]. }
  intros []. eapply triple_bind; [apply (begin_ordinary_triple None) |]. intros [].
  apply run_and_conclude; [| keep].
  eapply triple_conseq; [apply keyboard_action_kept | | by intros a e [[]] | done].
  intros e [Hi Hr]. by apply between_idle.
Qed.

(** Values of the program: a physical button was built by its constructor. *)
Definition valid_operation (operation : InputOperation.t) : Prop :=
  match operation with
  | InputOperation.Pointer action => valid_action action
  | _ => True
  end.

Lemma execute_operation_safe context operation check c :
  valid_operation operation -> quiet_check check ->
  safe (execute_operation hypot context operation check c).
Proof.
  intros Ho Hq. pose proof (fun a Ha => execute_with_safe context a check c Ha Hq) as Hw.
  destruct operation; cbn [execute_operation].
  - by apply Hw.
  - unfold execute_pointer_move. keep; by apply Hw.
  - unfold execute_pointer_move_relative. keep; by apply Hw.
  - unfold execute_pointer_click. keep; by apply Hw.
  - unfold execute_pointer_drag. keep; by apply Hw.
  - pose proof resolve_window_safe as Hr. unfold execute_window_pointer_click.
    repeat (apply keeps_bind; [solve [keep | apply keeps_attempt, Hr] |]; intros ?).
    apply keeps_bind; [by apply (check_precondition_keeps inv) |]. intros [].
    by apply execute_prepared_safe.
  - by apply Hw.
  - by apply execute_keyboard_safe.
Qed.

(** ** Start *)
Lemma synchronize_quiet rounds generation w w' r :
  synchronize_startup rounds generation w = (w', r) -> trace V w' = trace V w.
Proof.
  revert generation w. induction rounds as [| rounds IH]; intros generation w; simpl; [by intros [= <- <-] |].
  destruct (synchronize_preflight w) as [w1 a] eqn:Hs. apply (trace_synchronize V) in Hs.
  rewrite app_nil_r in Hs. rewrite <- Hs. destruct a as [preflight | fault]; case_decide.
  - by intros [= <- <-].
  - apply IH.
  - by intros [= <- <-].
  - by intros [= <- <-].
Qed.

(** A new engine satisfies the invariant, and nothing is held. *)
Lemma startup_safe w w' e :
  trace V w = [] -> new_with_keyboard w = (w', Ok e) -> inv e /\ down e = [].
Proof.
  intros Hw. unfold new_with_keyboard. destruct (startup w) as [w1 [started | f]] eqn:Hst; [| done].
  apply (trace_startup V) in Hst. rewrite Hw in Hst. simpl in Hst.
  destruct (synchronize_startup 8 None w1) as [w2 [[] | f]] eqn:Hsy; [| done..].
  apply synchronize_quiet in Hsy. rewrite Hst in Hsy. intros [= <- <-].
  set (e := InputEngine.mk _ _ _ _ _ _ _ _ _ _ _ _).
  assert (seen e = Monitor.step Monitor.initial (SawMapping (BackendStartup.button_mapping started))) as Hs.
  { unfold seen. simpl. by rewrite Hsy. }
  assert (down e = []) as Hd by (unfold down; by rewrite Hs).
  split; [| done]. split.
  - apply InputInvariant.input_new_wf.
  - apply default_wf.
  - by rewrite Hs.
  - intros x. rewrite Hd. by intros ?%not_elem_of_nil.
  - simpl. by rewrite Hs.
  - constructor.
Qed.

End Execution.
