(* ===== verification/EngineAccounting.v ===== *)
(** * The events an engine reports are the events the server accepted

    [Told n k] says that since the server had accepted [n] events it accepted [k] more,
    unless it accepted more than a [usize] counts.  Every method of the engine carries it
    from the progress it is given to the progress, or the failure, it returns. *)

From stdpp Require Import base numbers list option.
From Stdlib Require Import Lia.
From S2P Require Import Prelude Identity Geometry Binary64 Motion Keys OwnedInput Actions.
From S2P Require Import NamedKeys InputBackend InputOutcome KeyboardActions.
From S2P Require Import Engine EnginePointer EngineKeyboard EngineControl Recorder EngineInvariant.

Local Open Scope N_scope.

Import InputEngine.

Create HintDb told discriminated.

(** A send that got a cookie. *)
Definition is_accepted (c : Call) : bool :=
  match c with
  | Sent _ (Some _) => true
  | _ => false
  end.

Section Told.
Context {V : Type} `{!InputBackend V, !ActorKeyboardModel V, !Surroundings V, !Observed V}.

#[local] Abbreviation Engine := (InputEngine.t V BindingToken).
Implicit Types (e : Engine) (n k : N).

Definition accepted (e : Engine) : N := len (List.filter is_accepted (trace V (world e))).

Definition Told (n k : N) (e : Engine) : Prop := u64_max < accepted e \/ accepted e = n + k.

(** A method that sends nothing. *)
Definition silent {E A} (m : M Engine E A) : Prop :=
  forall e, accepted (fst (m e)) = accepted e.

Lemma told_silent {E A} n k (m : M Engine E A) :
  silent m -> triple (Told n k) m (fun _ => Told n k) (fun _ => Told n k).
Proof.
  intros Hm e He. specialize (Hm e). unfold Told. destruct (m e) as [e' [a | x]]; simpl in Hm; by rewrite Hm.
Qed.

Lemma accepted_world w e cs :
  trace V w = trace V (world e) ++ cs ->
  accepted (set_world w e) = accepted e + len (List.filter is_accepted cs).
Proof. intros Hw. unfold accepted, len. simpl. rewrite Hw, List.filter_app, length_app. lia. Qed.

Lemma silent_outside {E A} (f : V -> V * A) seen :
  recorded_as (trace V) f seen -> (forall a, List.filter is_accepted (seen a) = []) ->
  silent (outside f : M Engine E A).
Proof.
  intros Hf Hs e. unfold outside. destruct (f (world e)) as [w a] eqn:Hw. apply Hf in Hw. simpl.
  rewrite (accepted_world _ _ _ Hw), Hs. unfold len. simpl. lia.
Qed.

Lemma silent_unrecorded {E A} (f : V -> V * A) :
  not_recorded (trace V) f -> silent (outside f : M Engine E A).
Proof. intros Hf. by apply (silent_outside f (fun _ => [])). Qed.

Lemma silent_modify {E} (f : Engine -> Engine) :
  (forall e, world (f e) = world e) -> silent (modify f : M Engine E unit).
Proof. intros Hf e. unfold accepted. simpl. by rewrite Hf. Qed.

Lemma silent_on_state {E F A} (m : M InputState.t F A) : silent (on_state m : M Engine E _).
Proof. intros e. unfold on_state, accepted. by destruct (m (state e)). Qed.

Lemma silent_ret {E A} (a : A) : silent (ret a : M Engine E A).
Proof. done. Qed.
Lemma silent_fail {E A} (x : E) : silent (fail x : M Engine E A).
Proof. done. Qed.
Lemma silent_get {E} : silent (get : M Engine E Engine).
Proof. done. Qed.
Lemma silent_lift {E A} (r : result A E) : silent (lift r : M Engine E A).
Proof. done. Qed.
Lemma silent_reject_if {E} (X : Prop) `{!Decision X} (x : E) : silent (reject_if X x : M Engine E unit).
Proof. intros e. unfold reject_if. by case_decide. Qed.
Lemma silent_bind {E A B} (m : M Engine E B) (k : B -> M Engine E A) :
  silent m -> (forall b, silent (k b)) -> silent (bind m k).
Proof.
  intros Hm Hk e. unfold bind. specialize (Hm e). destruct (m e) as [e' [b | x]]; simpl in Hm; [| done].
  by rewrite Hk.
Qed.
Lemma silent_attempt {E F A} (m : M Engine F A) : silent m -> silent (attempt m : M Engine E _).
Proof. intros Hm e. unfold attempt. specialize (Hm e). by destruct (m e). Qed.
Lemma silent_map_failure {E F A} (f : F -> E) (m : M Engine F A) : silent m -> silent (map_failure f m).
Proof. intros Hm e. unfold map_failure. specialize (Hm e). by destruct (m e) as [e' []]. Qed.
Lemma silent_for_each {E X} (f : X -> M Engine E unit) (l : list X) :
  (forall x, silent (f x)) -> silent (for_each f l).
Proof. intros Hf. induction l as [| x l IH]; simpl; [done |]. by apply silent_bind. Qed.

End Told.

#[export] Hint Resolve silent_ret silent_fail silent_get silent_lift silent_reject_if silent_on_state
  silent_bind silent_attempt silent_map_failure silent_for_each : told.
#[export] Hint Extern 2 (silent (modify _)) => apply silent_modify; done : told.
#[export] Hint Extern 2 (silent (outside _)) =>
  first
    [ apply silent_unrecorded;
      first [apply trace_wait | apply trace_window_geometry | apply trace_instant_now
            | apply trace_is_cancelled | apply trace_synchronize | apply trace_resolve
            | apply trace_validate_binding | apply trace_validate_held | apply trace_reserve
            | apply trace_validate_reservation | assumption]
    | eapply silent_outside;
      [first [apply trace_drain_events | apply trace_check_cookie | apply trace_observe_pointer
             | apply trace_observe_keys | apply trace_read_row | apply trace_write_row]
      | intros []; first [done | simpl; match goal with |- context [mapping_seen ?x] => by destruct x end]] ]
  : told.

(** Follow the syntax of a method that sends nothing. *)
Ltac silence :=
  repeat first
    [ solve [auto 1 with told nocore]
    | match goal with
      | |- forall _, _ => intros ?
      | |- silent (bind _ _) => apply silent_bind; [| intros ?]
      | |- silent (attempt _) => apply silent_attempt
      | |- silent (map_failure _ _) => apply silent_map_failure
      | |- silent (for_each _ _) => apply silent_for_each; intros ?
      | |- silent (match ?x with _ => _ end) => destruct x
      | _ => progress cbv zeta
      end ].

Section Silence.
Context {V : Type} `{!InputBackend V, !ActorKeyboardModel V, !Surroundings V, !Observed V}.

#[local] Abbreviation Engine := (InputEngine.t V BindingToken).
Implicit Types (e : Engine).

Lemma silent_update {E} f : silent (update_state f : M Engine E unit).
Proof. unfold update_state. silence. Qed.
Lemma silent_ledger {E} f : silent (update_ledger f : M Engine E unit).
Proof. unfold update_ledger. silence. Qed.
#[local] Hint Resolve silent_update silent_ledger : told.
Lemma silent_transition {E} event : silent (transition_ignored event : M Engine E unit).
Proof. unfold transition_ignored. silence. Qed.
#[local] Hint Resolve silent_transition : told.
Lemma silent_mark_panicked {E} : silent (mark_panicked : M Engine E unit).
Proof. unfold mark_panicked. silence. Qed.
Lemma silent_backend_fault {E} f : silent (apply_backend_fault f : M Engine E unit).
Proof. unfold apply_backend_fault. silence. Qed.
#[local] Hint Resolve silent_mark_panicked silent_backend_fault : told.
Lemma silent_barrier_fault {E} f : silent (barrier_fault f : M Engine E _).
Proof. unfold barrier_fault. silence. Qed.
Lemma silent_deadline {E} d : silent (deadline_elapsed d : M Engine E _).
Proof. unfold deadline_elapsed. silence. Qed.
#[local] Hint Resolve silent_barrier_fault silent_deadline : told.
Lemma silent_boundary {E} c d : silent (boundary_stop c d : M Engine E _).
Proof. unfold boundary_stop. silence. Qed.
Lemma silent_deadline_stop {E} d : silent (deadline_stop d : M Engine E _).
Proof. unfold deadline_stop. silence. Qed.
Lemma silent_record_pointer {E} o : silent (record_pointer o : M Engine E _).
Proof. unfold record_pointer. silence. Qed.
Lemma silent_reconcile_buttons {E} o : silent (reconcile_buttons o : M Engine E _).
Proof. unfold reconcile_buttons. silence. Qed.
Lemma silent_reconcile_keys {E} o : silent (reconcile_keys o : M Engine E _).
Proof. unfold reconcile_keys. silence. Qed.
Lemma silent_apply_drained {E} d : silent (apply_drained_mapping d : M Engine E _).
Proof. unfold apply_drained_mapping. silence. Qed.
#[local] Hint Resolve silent_boundary silent_deadline_stop silent_record_pointer silent_reconcile_buttons
  silent_reconcile_keys silent_apply_drained : told.
Lemma silent_drain {E} : silent (drain : M Engine E _).
Proof. unfold drain. silence. Qed.
Lemma silent_model_failure {E} f b : silent (keyboard_model_failure f b : M Engine E _).
Proof. unfold keyboard_model_failure. silence. Qed.
#[local] Hint Resolve silent_model_failure : told.
Lemma silent_identifier_failure {E} f i b : silent (keyboard_identifier_failure f i b : M Engine E _).
Proof. unfold keyboard_identifier_failure. silence. Qed.
#[local] Hint Resolve silent_identifier_failure : told.
Lemma silent_context intent : silent (keyboard_resolution_context intent).
Proof. unfold keyboard_resolution_context. silence. Qed.
Lemma silent_resolve_each identifiers context generation bindings :
  silent (resolve_each identifiers context generation bindings).
Proof.
  revert generation bindings. induction identifiers as [| i rest IH]; intros g bs; simpl; unfold or_failure;
    silence; apply IH.
Qed.
Lemma silent_validate_before context b : silent (validate_before context b).
Proof. unfold validate_before, or_failure. silence. Qed.
#[local] Hint Resolve silent_resolve_each silent_validate_before : told.
Lemma silent_resolve_bindings identifiers context : silent (resolve_and_validate_bindings identifiers context).
Proof. unfold resolve_and_validate_bindings. silence. Qed.
Lemma silent_confirm_pending : silent confirm_pending_key_batch.
Proof. unfold confirm_pending_key_batch. silence. Qed.
Lemma silent_fail_pending reason : silent (fail_pending_key_batch reason).
Proof. unfold fail_pending_key_batch. silence. Qed.
#[local] Hint Resolve silent_confirm_pending silent_fail_pending : told.
Lemma silent_fail_postcondition {A} kind : silent (fail_postcondition (A := A) kind).
Proof. unfold fail_postcondition. silence. Qed.
#[local] Hint Resolve silent_fail_postcondition : told.
Lemma silent_check_key_batch first pre sent generation expected enforce :
  silent (check_key_batch first pre sent generation expected enforce).
Proof. unfold check_key_batch. silence. Qed.
Lemma silent_validate_complete bindings context post :
  silent (validate_complete_bindings_after_effect bindings context post).
Proof.
  unfold validate_complete_bindings_after_effect, revalidate_changed, revalidate_captured. silence.
Qed.
Lemma silent_first_generation bs : silent (first_generation bs).
Proof. unfold first_generation. silence. Qed.
Lemma silent_reject_owned ks : silent (reject_owned ks).
Proof. unfold reject_owned. silence. Qed.
Lemma silent_write_and_check key row check : silent (write_and_check key row check).
Proof. unfold write_and_check. silence. Qed.
Lemma silent_temporary_failure f : silent (temporary_mapping_preflight_failure f).
Proof. unfold temporary_mapping_preflight_failure. silence. Qed.
Lemma silent_resolve_window request : silent (resolve_window_click_target request).
Proof. unfold resolve_window_click_target. silence. Qed.

(** ** Batches *)
Lemma silent_fail_with kind run observation : silent (fail_with kind run observation).
Proof. unfold fail_with. silence. Qed.
Lemma silent_check_cookies {E} cs failure : silent (check_cookies cs failure : M Engine E _).
Proof. revert failure. induction cs as [| c cs IH]; intros failure; simpl; silence. Qed.
#[local] Hint Resolve silent_drain silent_fail_with silent_check_cookies : told.
Lemma silent_finish_batch events sensitive confirm run : silent (finish_batch events sensitive confirm run).
Proof. unfold finish_batch. silence. Qed.

End Silence.

#[export] Hint Resolve silent_update silent_ledger silent_transition silent_mark_panicked
  silent_backend_fault silent_barrier_fault silent_deadline silent_boundary silent_deadline_stop
  silent_record_pointer silent_reconcile_buttons silent_reconcile_keys silent_apply_drained silent_drain
  silent_model_failure silent_identifier_failure silent_context silent_resolve_bindings
  silent_confirm_pending silent_fail_pending silent_fail_postcondition silent_check_key_batch
  silent_validate_complete silent_first_generation silent_reject_owned silent_write_and_check
  silent_temporary_failure silent_resolve_window silent_fail_with silent_check_cookies : told.

(** ** Methods that send nothing and do not fail *)
Section Mild.
Context {V : Type} `{!InputBackend V, !ActorKeyboardModel V, !Surroundings V, !Observed V}.

#[local] Abbreviation Engine := (InputEngine.t V BindingToken).
Implicit Types (e : Engine) (n k : N).

Definition mild {E A} (m : M Engine E A) : Prop := silent m /\ forall e, is_ok (snd (m e)) = true.

Lemma mild_ret {E A} (a : A) : mild (ret a : M Engine E A).
Proof. done. Qed.
Lemma mild_get {E} : mild (get : M Engine E Engine).
Proof. done. Qed.
Lemma mild_bind {E A B} (m : M Engine E B) (k : B -> M Engine E A) :
  mild m -> (forall b, mild (k b)) -> mild (bind m k).
Proof.
  intros [Hm Ho] Hk. split; [apply silent_bind; [done | apply Hk] |]. intros e. unfold bind.
  specialize (Ho e). destruct (m e) as [e' [b | x]]; [apply Hk | done].
Qed.
Lemma mild_outside {E A} (f : V -> V * A) : silent (outside f : M Engine E A) -> mild (outside f : M Engine E A).
Proof. intros Hs. split; [done |]. intros e. unfold outside. by destruct (f (world e)). Qed.
Lemma mild_modify {E} (f : Engine -> Engine) :
  (forall e, world (f e) = world e) -> mild (modify f : M Engine E unit).
Proof. intros Hf. split; [by apply silent_modify | done]. Qed.
Lemma mild_on_state {E F A} (m : M InputState.t F A) : mild (on_state m : M Engine E _).
Proof. split; [apply silent_on_state |]. intros e. unfold on_state. by destruct (m (state e)). Qed.
Lemma mild_attempt {E F A} (m : M Engine F A) : silent m -> mild (attempt m : M Engine E _).
Proof. intros Hm. split; [by apply silent_attempt |]. intros e. unfold attempt. by destruct (m e). Qed.

Lemma told_mild {E A} n k (m : M Engine E A) (R : E -> Engine -> Prop) :
  mild m -> triple (Told n k) m (fun _ => Told n k) R.
Proof.
  intros [Hm Ho] e He. specialize (Hm e). specialize (Ho e). unfold Told in *.
  destruct (m e) as [e' [a | x]]; [| done]. simpl in Hm. by rewrite Hm.
Qed.
End Mild.

#[export] Hint Resolve mild_ret mild_get mild_on_state : told.
#[export] Hint Extern 2 (mild (modify _)) => apply mild_modify; done : told.
#[export] Hint Extern 2 (mild (outside _)) => apply mild_outside; solve [auto 1 with told nocore] : told.

Ltac milden :=
  repeat first
    [ solve [auto 1 with told nocore]
    | match goal with
      | |- forall _, _ => intros ?
      | |- mild (bind _ _) => apply mild_bind; [| intros ?]
      | |- mild (attempt _) => apply mild_attempt; silence
      | |- mild (match ?x with _ => _ end) => destruct x
      | _ => progress cbv zeta
      end ].

Section MildMethods.
Context {V : Type} `{!InputBackend V, !ActorKeyboardModel V, !Surroundings V, !Observed V}.

#[local] Abbreviation Engine := (InputEngine.t V BindingToken).

Lemma mild_update {E} f : mild (update_state f : M Engine E unit).
Proof. unfold update_state. milden. Qed.
Lemma mild_ledger {E} f : mild (update_ledger f : M Engine E unit).
Proof. unfold update_ledger. milden. Qed.
#[local] Hint Resolve mild_update mild_ledger : told.
Lemma mild_transition {E} event : mild (transition_ignored event : M Engine E unit).
Proof. unfold transition_ignored. milden. Qed.
#[local] Hint Resolve mild_transition : told.
Lemma mild_mark_panicked {E} : mild (mark_panicked : M Engine E unit).
Proof. unfold mark_panicked. milden. Qed.
Lemma mild_backend_fault {E} f : mild (apply_backend_fault f : M Engine E unit).
Proof. unfold apply_backend_fault. milden. Qed.
#[local] Hint Resolve mild_mark_panicked mild_backend_fault : told.
Lemma mild_barrier_fault {E} f : mild (barrier_fault f : M Engine E _).
Proof. unfold barrier_fault. milden. Qed.
Lemma mild_deadline {E} d : mild (deadline_elapsed d : M Engine E _).
Proof. unfold deadline_elapsed. milden. Qed.
#[local] Hint Resolve mild_barrier_fault mild_deadline : told.
Lemma mild_boundary {E} c d : mild (boundary_stop c d : M Engine E _).
Proof. unfold boundary_stop. milden. Qed.
Lemma mild_deadline_stop {E} d : mild (deadline_stop d : M Engine E _).
Proof. unfold deadline_stop. milden. Qed.
Lemma mild_record_pointer {E} o : mild (record_pointer o : M Engine E _).
Proof. unfold record_pointer. milden. Qed.
Lemma mild_reconcile_buttons {E} o : mild (reconcile_buttons o : M Engine E _).
Proof. unfold reconcile_buttons. milden. Qed.
Lemma mild_apply_drained {E} d : mild (apply_drained_mapping d : M Engine E _).
Proof. unfold apply_drained_mapping. milden. Qed.
#[local] Hint Resolve mild_boundary mild_apply_drained : told.
Lemma mild_drain {E} : mild (drain : M Engine E _).
Proof. unfold drain. milden. Qed.
Lemma mild_check_cookies {E} cs failure : mild (check_cookies cs failure : M Engine E _).
Proof. revert failure. induction cs as [| c cs IH]; intros failure; simpl; milden. Qed.
Lemma mild_dwell {E} ms : mild (run_window_click_dwell ms : M Engine E _).
Proof. unfold run_window_click_dwell. milden. Qed.
End MildMethods.

#[export] Hint Resolve mild_update mild_ledger mild_transition mild_mark_panicked mild_backend_fault
  mild_barrier_fault mild_deadline mild_boundary mild_deadline_stop mild_record_pointer
  mild_reconcile_buttons mild_apply_drained mild_drain mild_check_cookies mild_dwell : told.

(** ** Counting *)
Section Counting.
Context {V : Type} `{!InputBackend V, !ActorKeyboardModel V, !Surroundings V, !Observed V}.

#[local] Abbreviation Engine := (InputEngine.t V BindingToken).
Implicit Types (e : Engine) (n k : N).

Lemma told_saturating n k s e : Told n (k + s) e -> Told n (saturating_add_usize k s) e.
Proof.
  unfold Told, saturating_add_usize. intros [? | He]; [by left |].
  destruct (decide (u64_max < accepted e)); [by left | right]. lia.
Qed.

(** A method that sends nothing, in a triple. *)
Lemma told_quiet {E A} n k (m : M Engine E A) (R : E -> Engine -> Prop) :
  silent m -> (forall x e, Told n k e -> R x e) -> triple (Told n k) m (fun _ => Told n k) R.
Proof.
  intros Hm HR. eapply triple_conseq; [by apply told_silent | done | done | exact HR].
Qed.

Lemma told_silently {E A} n k (m : M Engine E A) (Q : A -> Engine -> Prop) (R : E -> Engine -> Prop) :
  silent m -> (forall a e, Told n k e -> Q a e) -> (forall x e, Told n k e -> R x e) ->
  triple (Told n k) m Q R.
Proof.
  intros Hm HQ HR. eapply triple_conseq; [by apply told_silent | done | exact HQ | exact HR].
Qed.

Lemma told_next n k s e : Told n (k + s + 1) e -> Told n (k + saturating_add_usize s 1) e.
Proof.
  unfold Told, saturating_add_usize. intros [? | He]; [by left |].
  destruct (decide (u64_max < accepted e)); [by left | right]. lia.
Qed.

Lemma told_send_events {E} n k events run (R : E -> Engine -> Prop) :
  triple (Told n (k + sent run)) (send_events events run : M Engine E _)
    (fun run => Told n (k + sent run)) R.
Proof.
  revert run. induction events as [| p events IH]; intros run; simpl send_events; [by apply triple_ret |].
  eapply triple_bind with (X := fun _ => Told n (k + sent run)); [by intros e He |].
  intros []. eapply triple_bind with (X := fun r => match r with
    | Ok _ => Told n (k + sent run + 1) | Err _ => Told n (k + sent run) end).
  { apply triple_outside. intros e w r He Hw%(trace_send_event V). unfold Told in *.
    destruct r as [c | f]; rewrite (accepted_world _ _ _ Hw); unfold len; simpl; destruct He; lia. }
  intros [c | f]; [| by apply triple_ret].
  eapply triple_bind with (X := fun _ => Told n (k + sent run + 1)).
  { intros e He. unfold on_state. by destruct (apply_effect _ _). }
  intros [u | x]; [| apply triple_ret; intros e He; by apply told_next].
  eapply triple_weaken; [apply IH | intros e He; by apply told_next].
Qed.

Lemma told_fail_with n k kind run observation (Q : BatchSuccess.t -> Engine -> Prop) :
  triple (Told n (k + sent run)) (fail_with kind run observation) Q
    (fun f => Told n (k + BatchFailure.sent f)).
Proof. eapply triple_bind; [apply told_mild; milden |]. intros []. by apply triple_fail. Qed.

(** One mild call, then the rest. *)
Lemma told_after {E A B} n k (m : M Engine E B) (f : B -> M Engine E A) Q R :
  mild m -> (forall b, triple (Told n k) (f b) Q R) -> triple (Told n k) (bind m f) Q R.
Proof. intros Hm Hf. eapply triple_bind; [by apply told_mild | exact Hf]. Qed.

Lemma told_finish_batch n k events sensitive confirm run :
  triple (Told n (k + sent run)) (finish_batch events sensitive confirm run)
    (fun b => Told n (k + BatchSuccess.sent b)) (fun f => Told n (k + BatchFailure.sent f)).
Proof.
  unfold finish_batch. apply told_after; [milden |]. intros [o | f]; [| apply told_fail_with].
  do 2 (apply told_after; [milden |]; intros ?). apply told_after; [milden |].
  intros [d | f]; [| apply told_fail_with]. cbv zeta. apply told_after; [milden |]. intros _.
  destruct (_ && _); [apply told_fail_with |]. apply told_after; [milden |].
  intros [u | x]; [| apply told_fail_with]. apply told_after; [milden |]. intros _. by apply triple_ret.
Qed.

Lemma told_run_batch n k events sensitive confirm :
  triple (Told n k) (run_batch events sensitive confirm)
    (fun b => Told n (k + BatchSuccess.sent b)) (fun f => Told n (k + BatchFailure.sent f)).
Proof.
  unfold run_batch. eapply triple_bind.
  { apply triple_weaken with (P' := Told n (k + 0)); [exact (told_send_events n k events (mkSending [] 0 0 0 None false) _) |].
    by rewrite N.add_0_r. }
  intros run. apply told_after; [milden |]. intros failure. cbv zeta.
  destruct (_ || _); [apply told_fail_with | apply told_finish_batch].
Qed.
End Counting.
