(* ===== verification/EngineGuarantees.v ===== *)
(** * What the input engine guarantees

    The properties of an engine over a recorded world, after any sequence of the requests
    its actor makes: the cleanup plan covers whatever may be held down, a row written is
    restorable, a reset that succeeds leaves nothing behind, and an engine that is not
    healthy emits nothing. *)

From stdpp Require Import base numbers list option.
From Stdlib Require Import Lia.
From S2P Require Import Prelude Identity Geometry Binary64 Motion Keys OwnedInput Actions.
From S2P Require Import NamedKeys InputBackend InputOutcome KeyboardActions.
From S2P Require Import Engine EnginePointer EngineKeyboard EngineControl Recorder Coverage.
From S2P Require Import EngineInvariant EngineBatch EnginePointerSafety EngineControlSafety.
From S2P Require Import EngineExecutionSafety.

Local Open Scope N_scope.

Import LedgerFacts CleanupFacts InputEngine.

(** ** The requests of the actor *)
Inductive Request (W : Type) :=
  | ExecuteRequest (context : ActionContext.t) (operation : InputOperation.t)
      (precondition : option (InputPrecondition W)) (cancellation : N)
  | ResetRequest
  | ProbeRequest
  | PanicRequest
  | EmergencyRequest.
Arguments ExecuteRequest {W} _ _ _ _.
Arguments ResetRequest {W}.
Arguments ProbeRequest {W}.
Arguments PanicRequest {W}.
Arguments EmergencyRequest {W}.

(** Only a reset that succeeds makes an unhealthy state healthy. *)
Lemma transition_not_healthy event s :
  event <> ResetSucceeded -> InputState.health s <> Healthy ->
  InputState.health (fst (InputState.transition_health event s)) <> Healthy.
Proof.
  intros Hev Hh.
  destruct (InputInvariant.transition_health_cases event s) as [(x & ->) | (h & s' & -> & Hn & -> & _)];
    [done |]. simpl. intros ->. unfold InputState.next_health in Hn.
  destruct (InputState.health s), event; done.
Qed.

Section Guarantees.
Context {W : Type} `{!InputBackend W, !ActorKeyboardModel W, !Surroundings W}.
Context (hypot : f64 -> f64 -> f64).

#[local] Abbreviation Engine := (InputEngine.t (Recorded W) (BindingToken (W := Recorded W))).
Implicit Types (e : Engine) (w : W).

Definition perform (request : Request W) (e : Engine) : Engine :=
  match request with
  | ExecuteRequest context operation precondition cancellation =>
      fst (execute_operation hypot context operation (recorded_precondition <$> precondition)
             cancellation e)
  | ResetRequest => fst (reset_owned_input e)
  | ProbeRequest => fst (probe e)
  | PanicRequest => fst ((mark_panicked : M Engine unit unit) e)
  | EmergencyRequest => fst ((emergency_cleanup_after_panic : M Engine unit bool) e)
  end.

Definition valid_request (request : Request W) : Prop :=
  match request with
  | ExecuteRequest _ operation _ _ => valid_operation operation
  | _ => True
  end.

(** The engine started in a world, after the requests. *)
Definition serve (requests : list (Request W)) (e : Engine) : Engine :=
  fold_left (fun e request => perform request e) requests e.

Definition started (w : W) (e : Engine) : Prop :=
  exists w' : Recorded W, new_with_keyboard (mkRecorded w 0 []) = (w', Ok e).

(** What the record of the calls says may be held, and the rows that may differ. *)
Definition monitor (e : Engine) : Monitor.t := Monitor.watch (calls (world e)).
Definition held (e : Engine) : list Held := Monitor.down (monitor e).

(** The calls that change something outside. *)
Definition is_effect (c : Call) : bool :=
  match c with
  | Sent _ _ | WroteRow _ _ => true
  | _ => false
  end.
Definition emitted (e : Engine) : list Call := List.filter is_effect (calls (world e)).

(** *** An engine that is not healthy *)
Definition Unfit (cs : list Call) (e : Engine) : Prop :=
  InputState.health (state e) <> Healthy /\ emitted e = cs.

#[local] Abbreviation refused cs m := (keeps (Unfit cs) m (fun _ => Unfit cs)).
#[local] Abbreviation rejected cs m := (triple (Unfit cs) m (fun _ _ => False) (fun _ => Unfit cs)).

Lemma refused_outside {E A} cs (f : Recorded W -> Recorded W * A) seen :
  recorded_as (trace (Recorded W)) f seen -> (forall a, List.filter is_effect (seen a) = []) ->
  refused cs (outside f : M Engine E A).
Proof.
  intros Hf Hs. apply triple_outside. intros e w a [Hh He] Hw%Hf. split; [done |].
  unfold emitted. change (calls (world (set_world w e))) with (trace (Recorded W) w). rewrite Hw, List.filter_app, Hs, app_nil_r. exact He.
Qed.

Lemma refused_transition {E} cs event :
  event <> ResetSucceeded -> refused cs (transition_ignored event : M Engine E unit).
Proof. intros Hev e [Hh He]. split; [| exact He]. by apply transition_not_healthy. Qed.

Lemma refused_backend_fault {E} cs fault : refused cs (apply_backend_fault fault : M Engine E unit).
Proof. apply triple_if; by apply refused_transition. Qed.

Lemma refused_boundary {E} cs c d : refused cs (boundary_stop c d : M Engine E _).
Proof.
  assert (forall d, refused cs (deadline_elapsed d : M Engine E bool)) as Hd.
  { intros [d' |]; [| apply keeps_ret]. apply keeps_bind; [| intros; apply keeps_ret].
    apply (refused_outside cs _ (fun _ => [])); [apply (trace_instant_now (Recorded W)) | done]. }
  apply keeps_bind; [apply (refused_outside cs _ (fun _ => [])); [apply (trace_is_cancelled (Recorded W)) | done] |].
  intros []; [apply keeps_ret |]. apply keeps_bind; [apply Hd | intros; apply keeps_ret].
Qed.

Lemma refused_drain {E} cs : refused cs (drain : M Engine E _).
Proof.
  apply keeps_bind; [eapply refused_outside; [apply (trace_drain_events (Recorded W)) |] |].
  { intros [d | f]; simpl; [by destruct (DrainedEvents.pointer_mapping d) | done]. }
  intros [d | f]; [| apply keeps_ret]. apply keeps_bind; [| intros; apply keeps_ret].
  unfold apply_drained_mapping. destruct (DrainedEvents.pointer_mapping d); [| apply keeps_ret].
  by intros e He.
Qed.

Lemma refused_check cs context target c : refused cs (check_boundary context target c).
Proof.
  apply keeps_bind; [apply refused_boundary |]. intros [[] |]; [by intros e He.. | apply keeps_ret].
Qed.

Lemma refused_drain_before cs context target : refused cs (drain_before context target).
Proof.
  apply keeps_bind; [apply refused_drain |]. intros [d | f]; [apply keeps_ret |].
  apply keeps_bind; [apply refused_backend_fault | by intros [] e He].
Qed.

Lemma rejected_health cs context target : rejected cs (require_healthy context target).
Proof.
  eapply triple_bind with (X := fun self e => Unfit cs e /\ self = e); [by apply triple_get |].
  intros self e [He ->]. unfold require_healthy.
  rewrite decide_True by apply He. exact He.
Qed.

Lemma rejected_bind {A B} cs (m : M Engine InputFailure.t B) (k : B -> M Engine InputFailure.t A) :
  rejected cs m -> rejected cs (bind m k).
Proof. intros Hm. eapply triple_bind; [exact Hm | by intros b e []]. Qed.

Lemma rejected_after {A B} cs (m : M Engine InputFailure.t B) (k : B -> M Engine InputFailure.t A) :
  refused cs m -> (forall b, rejected cs (k b)) -> rejected cs (bind m k).
Proof. apply triple_bind. Qed.

Lemma rejected_prepared cs context action check click c :
  rejected cs (execute_prepared_action context action check click c).
Proof.
  unfold execute_prepared_action. cbv zeta.
  apply rejected_after; [apply refused_check |]. intros _.
  apply rejected_after; [apply refused_drain_before |]. intros _.
  apply rejected_after; [apply refused_check |]. intros _. apply rejected_bind, rejected_health.
Qed.

Lemma rejected_endpoint cs context endpoint c : rejected cs (resolve_pointer_endpoint context endpoint c).
Proof.
  unfold resolve_pointer_endpoint. cbv zeta.
  apply rejected_after; [apply refused_check |]. intros _.
  apply rejected_after; [apply refused_drain_before |]. intros _. apply rejected_bind, rejected_health.
Qed.

Lemma rejected_keyboard cs context action check c : rejected cs (execute_keyboard context action check c).
Proof.
  unfold execute_keyboard.
  apply rejected_after; [apply refused_check |]. intros _.
  apply rejected_after; [apply refused_drain_before |]. intros _.
  apply rejected_after; [apply refused_check |]. intros _.
  eapply triple_bind with (X := fun self e => Unfit cs e /\ self = e); [by apply triple_get |].
  intros self. apply triple_bind with (X := fun _ _ => False); [| by intros u e []].
  intros e [He ->]. rewrite decide_True by (left; apply He). exact He.
Qed.

Lemma rejected_operation cs context operation check c :
  rejected cs (execute_operation hypot context operation check c).
Proof.
  destruct operation as [a | request | request | request | request | request | a | a];
    cbn [execute_operation]; try apply rejected_prepared.
  - unfold execute_pointer_move. cbv zeta.
    apply rejected_after; [apply refused_check |]. intros _.
    apply rejected_after; [apply refused_drain_before |]. intros _. apply rejected_bind, rejected_health.
  - apply rejected_bind, rejected_endpoint.
  - unfold execute_pointer_click. destruct (PointerClickRequest.endpoint request) as [endpoint |].
    + apply rejected_bind, rejected_bind, rejected_endpoint.
    + apply rejected_after; [apply keeps_ret |]. intros movement. cbv zeta.
      apply rejected_after; [| intros a; apply rejected_prepared].
      destruct (ClickAction.new _ _ _ _ _ _ _); [apply keeps_ret | by intros d [Hd He]].
  - apply rejected_bind, rejected_endpoint.
  - unfold execute_window_pointer_click.
    apply rejected_after; [apply refused_check |]. intros _.
    apply rejected_after; [apply refused_drain_before |]. intros _. apply rejected_bind, rejected_health.
  - apply rejected_keyboard.
Qed.

(** C11: an engine that is not healthy refuses every operation: it returns a failure, sends no event and writes no keyboard row, whatever the operation and the backend, and is still not healthy. *)
Theorem unhealthy_engine_emits_nothing e context operation precondition cancellation :
  InputState.health (state e) <> Healthy ->
  exists e' failure,
    execute_operation hypot context operation precondition cancellation e = (e', Err failure) /\
    emitted e' = emitted e /\ InputState.health (state e') <> Healthy.
Proof.
  intros Hh. pose proof (rejected_operation (emitted e) context operation precondition cancellation e
    (conj Hh eq_refl)) as H.
  destruct (execute_operation _ _ _ _ _ e) as [e' [a | f]]; [done |].
  exists e', f. by destruct H.
Qed.

Section Typed.
Context `{!TypedKeyboard W}.

#[local] Instance recorded_typed : TypedKeyboard (Recorded W).
Proof.
  split. intros identifier context r r' b. simpl. unfold recording.
  destruct (resolve_synchronized identifier context (inner r)) as [v a] eqn:Hr.
  intros [= _ ->]. by eapply resolve_valid.
Qed.

Lemma recorded_quiet precondition :
  quiet_check (V := Recorded W) (recorded_precondition <$> precondition).
Proof. destruct precondition as [check |]; [| done]. apply recording_run. Qed.

Lemma perform_inv request e : valid_request request -> inv e -> inv (perform request e).
Proof.
  intros Hv He. assert (forall E A (m : M Engine E A), keeps inv m (fun _ => inv) -> inv e -> inv (fst (m e))) as Hk.
  { intros E A m Hm He0. specialize (Hm e He0). by destruct (m e) as [e' []]. }
  destruct request; cbn [perform]; revert He; apply Hk.
  - apply execute_operation_safe; [done | apply recorded_quiet].
  - apply reset_safe.
  - apply probe_safe.
  - apply keeps_mark_panicked; apply _.
  - apply emergency_cleanup_safe.
Qed.

Lemma serve_inv w e requests :
  started w e -> Forall valid_request requests -> inv (serve requests e).
Proof.
  intros [w' Hs] Hr. assert (inv e) as He by (by apply (startup_safe (mkRecorded w 0 []) w' e)).
  clear Hs. unfold serve. revert e He. induction Hr; intros e He; simpl; [done |].
  apply IHHr. by apply perform_inv.
Qed.

(** C2: whatever the engine did and however the backend failed, every button and key that it pressed and that no release, no observation shows up again is in its cleanup plan. *)
Theorem cleanup_covers_held w e requests x :
  started w e -> Forall valid_request requests ->
  x ∈ held (serve requests e) ->
  x ∈ map held_of (conservative_cleanup_actions (serve requests e)).
Proof.
  intros Hs Hr Hx. pose proof (serve_inv w e requests Hs Hr) as Hi.
  destruct (inv_down _ Hi x Hx) as [Hv Hc]. apply cleanup_exact; [by apply inv_state |].
  destruct Hc; [by left | by right].
Qed.

(** C4: after a reset that succeeds nothing the engine pressed may still be held, no keyboard row differs from the row found, no restoration and no caller hold remains, and if a reset was required the engine is healthy and owns nothing. *)
Theorem reset_leaves_nothing_held w e requests e' report :
  started w e -> Forall valid_request requests ->
  reset_owned_input (serve requests e) = (e', Ok report) ->
  held e' = [] /\ Monitor.dirty (monitor e') = [] /\
  pending_keyboard_restore e' = None /\ captured_keys e' = [] /\ synthesized_modifiers e' = [] /\
  (is_reset_required (InputState.health (state (serve requests e))) = true ->
   InputState.health (state e') = Healthy /\
   InputState.pressed_buttons (state e') = [] /\ InputState.pressed_keys (state e') = []).
Proof.
  intros Hs Hr Hok. set (d := serve requests e) in *. pose proof (serve_inv w e requests Hs Hr) as Hi.
  pose proof (reset_owned_input_triple (pending_keyboard_restore d) (InputState.health (state d)) d) as Ht.
  rewrite Hok in Ht. destruct Ht as ([Hi' Hd] & [_ Hp] & Hc & Hsy & Hrest); [by split |].
  split_and!; try done.
  pose proof (inv_restore _ Hi') as Hrr. unfold restorable in Hrr. by rewrite Hp in Hrr.
Qed.

(** C24: whenever a keyboard row may differ from the row found, the engine holds the pending restoration of exactly that row, with the row found as its original. *)
Theorem written_rows_restorable w e requests key original :
  started w e -> Forall valid_request requests ->
  (key, original) ∈ Monitor.dirty (monitor (serve requests e)) ->
  pending_keyboard_restore (serve requests e) = Some (PendingTemporaryRestore.mk key original) /\
  Monitor.lookup_row key (Monitor.found (monitor (serve requests e))) = Some original.
Proof.
  intros Hs Hr Hin. pose proof (inv_restore _ (serve_inv w e requests Hs Hr)) as Hp.
  unfold restorable in Hp. change (seen _) with (monitor (serve requests e)) in Hp.
  destruct (pending_keyboard_restore (serve requests e)) as [[k o] |].
  - destruct Hp as [Hf Hall]. apply Hall in Hin. by simplify_eq.
  - rewrite Hp in Hin. by apply not_elem_of_nil in Hin.
Qed.

End Typed.
End Guarantees.
