(* ===== verification/EngineEvidence.v ===== *)
(** * The evidence of an operation is truthful

    The events a pointer or keyboard action reports are those the server accepted while
    it ran, through every method of the engine; and the evidence of an action that types
    scalars names no key. *)

From stdpp Require Import base numbers list option.
From Stdlib Require Import Lia.
From S2P Require Import Prelude Identity Geometry Binary64 Motion Keys OwnedInput Actions.
From S2P Require Import NamedKeys InputBackend InputOutcome KeyboardActions.
From S2P Require Import Engine EnginePointer EngineKeyboard EngineControl Recorder EngineInvariant.
From S2P Require Import EnginePointerSafety EngineAccounting.

Local Open Scope N_scope.

Import InputEngine.

(** The value a loop ends with. *)
Definition flow {A} (c : ControlFlow A) : A :=
  match c with
  | Continue a | Break a => a
  end.

(** The triple of the next call, from the hints; its failures are ours. *)
Ltac tell_call :=
  match goal with
  | |- triple _ (bind _ _) _ _ => eapply triple_bind; [solve [eauto 2 with told nocore] |]; intros ?; cbn beta
  | |- triple _ _ _ _ => solve [eauto 2 with told nocore]
  end.
Ltac tell_step :=
  match goal with
  | |- forall _, _ => intros ?
  | |- triple _ (bind _ _) _ _ => apply told_after; [solve [milden] |]
  | |- triple _ (stop_at_boundary _ _ _ _) _ _ => unfold stop_at_boundary
  | |- triple _ (ret _) _ _ => apply triple_ret; exact (fun e He => He)
  | |- triple _ (fail _) _ _ => apply triple_fail; exact (fun e He => He)
  | |- triple _ (reject_if _ _) _ _ =>
      apply triple_reject_if; [exact (fun e He _ => He) | exact (fun e He _ => He)]
  | |- triple ?P (bind (reject_if _ _) _) _ _ =>
      eapply triple_bind with (X := fun _ => P); [apply triple_reject_if; [exact (fun e He _ => He) | exact (fun e He _ => He)] |]
  | |- triple _ (match ?x with _ => _ end) _ _ => destruct x
  | |- triple _ (bind (match ?x with _ => _ end) _) _ _ => destruct x
  | _ => progress cbv zeta
  | _ => progress cbn [flow]
  end.
Ltac tell := repeat first [tell_call | tell_step].

Section Pointer.
Context {V : Type} `{!InputBackend V, !ActorKeyboardModel V, !Surroundings V, !Observed V}.

#[local] Abbreviation Engine := (InputEngine.t V BindingToken).
#[local] Abbreviation emitted := ActionProgress.events_emitted.
#[local] Abbreviation Errs n := (fun x => Told n (ActionError.events_emitted x)).
Implicit Types (e : Engine) (n : N) (p : ActionProgress.t).

Section Run.
Context (n cancellation : N) (deadline : option N).

(** ** The steps *)
Implicit Types (k : N).

Lemma told_drain_for_action k p :
  emitted p = k -> triple (Told n k) (drain_for_action p) (fun _ => Told n k) (Errs n).
Proof. intros <-. unfold drain_for_action. tell. Qed.

Lemma told_resolve_button k p logical :
  emitted p = k -> triple (Told n k) (resolve_button p logical) (fun _ => Told n k) (Errs n).
Proof.
  intros <-. unfold resolve_button. tell. apply triple_lift; [done |]. intros x e Hx He.
  destruct (ButtonMapping.physical_for _ _); simpl in Hx; [done |]. by injection Hx as <-.
Qed.

Lemma told_reject_pressed k p button :
  emitted p = k -> triple (Told n k) (reject_pressed p button) (fun _ => Told n k) (Errs n).
Proof. intros <-. unfold reject_pressed. tell. Qed.

Lemma told_start k plan p :
  emitted p = k -> triple (Told n k) (require_observed_start plan p) (fun p' => Told n (emitted p')) (Errs n).
Proof. intros <-. unfold require_observed_start. tell. Qed.

Lemma told_confirm k p :
  emitted p = k -> triple (Told n k) (confirm_observed_batch p) (fun _ => Told n k) (Errs n).
Proof. intros <-. unfold confirm_observed_batch. tell. Qed.

Lemma told_fail_observed {A} k p (Q : A -> Engine -> Prop) :
  emitted p = k -> triple (Told n k) (fail_observed_batch p) Q (Errs n).
Proof. intros <-. unfold fail_observed_batch. tell. Qed.
#[local] Hint Extern 0 (_ = _) => reflexivity : told.
#[local] Hint Resolve told_drain_for_action told_resolve_button told_reject_pressed told_start told_confirm
  told_fail_observed : told.

Lemma told_delayed_release k button delay p :
  emitted p = k ->
  triple (Told n k) (confirm_delayed_button_release button delay p) (fun p' => Told n (emitted p')) (Errs n).
Proof. intros <-. unfold confirm_delayed_button_release. tell. Qed.
#[local] Hint Resolve told_delayed_release : told.

Lemma told_batch_for p events sensitive confirm :
  triple (Told n (emitted p)) (batch_for p events sensitive confirm)
    (fun b => Told n (emitted p + BatchSuccess.sent b)) (Errs n).
Proof.
  apply triple_map_failure. eapply triple_conseq; [apply told_run_batch | done | done |].
  intros f e He. apply told_saturating in He. unfold absorb_batch_failure.
  destruct (BatchFailure.observation f), (BatchFailure.kind f); exact He.
Qed.

(** A batch, counted by the progress after it. *)
Lemma told_batch_then {A} k p (p' : BatchSuccess.t -> ActionProgress.t) events sensitive confirm (f : BatchSuccess.t -> M Engine ActionError.t A) Q :
  emitted p = k ->
  (forall b, emitted (p' b) = saturating_add_usize (emitted p) (BatchSuccess.sent b) \/
             emitted (p' b) = emitted p + BatchSuccess.sent b) ->
  (forall b, triple (Told n (emitted (p' b))) (f b) Q (Errs n)) ->
  triple (Told n k) (bind (batch_for p events sensitive confirm) f) Q (Errs n).
Proof.
  intros <- Hp Hk. eapply triple_bind; [apply told_batch_for |]. intros b.
  eapply triple_weaken; [apply (Hk b) |]. intros e He.
  destruct (Hp b) as [-> | ->]; [by apply told_saturating | done].
Qed.

Lemma told_for_control {A X} (body : X -> A -> M Engine ActionError.t (ControlFlow A)) (count : A -> N) l acc :
  (forall x a, triple (Told n (count a)) (body x a) (fun c => Told n (count (flow c))) (Errs n)) ->
  triple (Told n (count acc)) (for_control body l acc) (fun c => Told n (count (flow c))) (Errs n).
Proof.
  intros Hb. revert acc. induction l as [| x l IH]; intros acc; simpl; [by apply triple_ret |].
  eapply triple_bind; [apply Hb |]. intros [a | a]; [apply IH | by apply triple_ret].
Qed.

(** ** The actions *)
#[local] Abbreviation tells p m :=
  (triple (Told n (emitted p)) m (fun c => Told n (emitted (flow c))) (Errs n)).

Ltac tell_absorbed :=
  match goal with
  | |- triple _ (bind (batch_for ?p _ _ _) _) _ _ =>
      apply (told_batch_then _ p (absorb_batch_success p)); [reflexivity | by left |]; intros ?; cbn beta
  end.
Ltac tell_counted :=
  match goal with
  | |- triple _ (bind (batch_for ?p _ _ _) _) _ _ =>
      apply (told_batch_then _ p (count_batch p)); [reflexivity | by right |]; intros ?; cbn beta
  end.

Lemma told_move_segment count segment p : tells p (move_segment cancellation deadline count segment p).
Proof.
  unfold move_segment, stop_at_boundary. destruct segment as [index samples]. cbv zeta.
  case_decide; tell; tell_absorbed; tell; destruct (_ =? _); by apply triple_ret.
Qed.

Lemma told_click_segment segment p : tells p (click_segment cancellation deadline segment p).
Proof.
  unfold click_segment, stop_at_boundary. destruct segment as [index samples]. cbv zeta.
  case_decide; tell; tell_absorbed; tell.
Qed.

(** The loop over the segments of a movement. *)
Lemma told_segments (body : N * list MotionSample.t -> ActionProgress.t ->
    M Engine ActionError.t (ControlFlow ActionProgress.t)) l p :
  (forall x q, tells q (body x q)) -> tells p (for_control body l p).
Proof. apply told_for_control. Qed.

Lemma told_run_move action :
  triple (Told n 0) (run_move cancellation deadline action)
    (fun c => Told n (emitted (flow c))) (Errs n).
Proof.
  unfold run_move. cbv zeta. tell.
  eapply triple_bind; [apply told_segments; intros; apply told_move_segment |]. tell.
Qed.

Lemma told_click_movement movement p : tells p (click_movement cancellation deadline movement p).
Proof.
  unfold click_movement. tell.
  eapply triple_bind; [apply told_segments; intros; apply told_click_segment |]. tell.
Qed.

(** The checks of a window click. *)
Lemma told_evaluate k check p :
  quiet_check check -> emitted p = k ->
  triple (Told n k) (evaluate_precondition check (ActionProgress.error p)) (fun _ => Told n k) (Errs n).
Proof.
  intros Hc <-. unfold evaluate_precondition. destruct check as [check |]; [| by apply triple_ret].
  apply told_after; [milden |]. intros r. apply triple_lift; [done |]. intros x e Hx He.
  destruct r; simpl in Hx; [done |]. by injection Hx as <-.
Qed.

Lemma told_revalidate k staged p :
  quiet_check (WindowClickRevalidation.precondition staged) -> emitted p = k ->
  triple (Told n k) (revalidate_window_click staged p) (fun p' => Told n (emitted p')) (Errs n).
Proof.
  intros Hc <-. unfold revalidate_window_click.
  eapply triple_bind with (X := fun _ => Told n (emitted p)).
  { apply triple_map_failure. apply (told_silently n (emitted p)); [silence | done | done]. }
  intros target. cbn beta. tell. eapply triple_bind; [by apply told_evaluate |]. tell.
Qed.

Lemma told_press_once action click index p :
  quiet_click click -> tells p (press_once cancellation deadline action click index p).
Proof.
  intros Hc. unfold press_once. destruct click as [staged |]; tell.
  - eapply triple_bind; [by apply told_revalidate |]. tell. tell_counted. tell.
  - tell_counted. tell.
Qed.

Lemma told_run_click action click :
  quiet_click click ->
  triple (Told n 0) (run_click cancellation deadline action click)
    (fun c => Told n (emitted (flow c))) (Errs n).
Proof.
  intros Hc. pose proof (fun i q => told_press_once action click i q Hc) as Hp.
  assert (forall q l, tells q (for_control (click_once cancellation deadline action click) l q)) as Hl.
  { intros q l. apply told_for_control. intros i r. unfold click_once. tell; apply Hp. }
  unfold run_click. cbv zeta.
  set (p0 := ActionProgress.set_requested_pointer _ _).
  eapply triple_bind with (X := fun c => Told n (emitted (flow c))).
  - destruct (ClickAction.movement action) as [movement |]; [apply (told_click_movement movement p0) | by apply triple_ret].
  - intros [q | q]; [apply Hl | by apply triple_ret].
Qed.

Lemma told_drag_segment segment acc :
  triple (Told n (emitted (fst acc))) (drag_segment cancellation deadline segment acc)
    (fun c => Told n (emitted (fst (flow c)))) (Errs n).
Proof. unfold drag_segment. destruct acc as [p count]. cbn [fst]. tell. tell_absorbed. tell. Qed.

Lemma told_drag_press k action button p :
  emitted p = k ->
  triple (Told n k) (drag_press action button p) (fun p' => Told n (emitted p')) (Errs n).
Proof. intros <-. unfold drag_press. cbv zeta. tell_absorbed. tell. Qed.

Lemma told_drag_release k action button count p :
  emitted p = k ->
  triple (Told n k) (drag_release action button count p) (fun p' => Told n (emitted p')) (Errs n).
Proof.
  intros <-. unfold drag_release. cbv zeta. tell_absorbed. tell. destruct (_ =? _); by apply triple_ret.
Qed.

Lemma told_run_drag action :
  triple (Told n 0) (run_drag cancellation deadline action)
    (fun c => Told n (emitted (flow c))) (Errs n).
Proof.
  unfold run_drag. cbv zeta. tell.
  eapply triple_bind; [by apply told_drag_press |]. intros q. cbn beta. apply told_after; [milden |].
  intros stopped. eapply triple_bind with (X := fun c => Told n (emitted (fst (flow c)))).
  { destruct stopped as [s |]; [by apply triple_ret |].
    apply (told_for_control _ (fun a => emitted (fst a)) _ (ActionProgress.set_stopped None q, 0)). intros x a. apply told_drag_segment. }
  intros [[q' c] | [q' c]]; cbn [flow fst];
    (eapply triple_bind; [by apply told_drag_release |]; intros r; by apply triple_ret).
Qed.

Lemma told_run_scroll action :
  triple (Told n 0) (run_scroll cancellation deadline action)
    (fun c => Told n (emitted (flow c))) (Errs n).
Proof.
  unfold run_scroll. apply (told_for_control _ emitted _ ActionProgress.default). intros notch p.
  unfold scroll_notch. tell. tell_counted. tell.
Qed.

Lemma told_run_button button direction redundant :
  triple (Told n 0) (run_button cancellation deadline button direction redundant)
    (fun c => Told n (emitted (flow c))) (Errs n).
Proof.
  unfold run_button. tell. tell_counted. tell.
Qed.

(** [run_action]. *)
Lemma told_run_action action click :
  quiet_click click ->
  triple (Told n 0) (run_action cancellation deadline action click)
    (fun p => Told n (emitted p)) (Errs n).
Proof.
  intros Hc. unfold run_action.
  eapply triple_bind with (X := fun c => Told n (emitted (flow c))); [| intros [q | q]; by apply triple_ret].
  destruct action.
  - apply told_run_move.
  - by apply told_run_click.
  - apply told_run_drag.
  - apply told_run_scroll.
  - by apply triple_fail.
  - apply told_run_button.
Qed.
End Run.
End Pointer.

(** ** Keyboard actions

    An assertion on the engine and the progress that the methods which send nothing, the
    updates that count no event and record no binding of a redacted action, and the key
    batches keep, is kept by every keyboard action. *)
Definition harmless (f : KeyboardProgress.t -> KeyboardProgress.t) : Prop :=
  forall p, KeyboardProgress.events_emitted (f p) = KeyboardProgress.events_emitted p /\
    KeyboardProgress.redact_scalar_evidence (f p) = KeyboardProgress.redact_scalar_evidence p /\
    (KeyboardProgress.redact_scalar_evidence p = true ->
     KeyboardProgress.bindings (f p) = KeyboardProgress.bindings p).

Create HintDb carry discriminated.

Section Keyboard.
Context {V : Type} `{!InputBackend V, !ActorKeyboardModel V, !Surroundings V, !Observed V}.

#[local] Abbreviation Engine := (InputEngine.t V BindingToken).
#[local] Abbreviation Resolving A := (M Engine InputFailureKind.t A).

Section Carried.
Context (P : Engine * KeyboardProgress.t -> Prop).
#[local] Abbreviation carried m := (keeps P m (fun _ : InputFailureKind.t => P)).
Context (carried_engine : forall A (m : Resolving A), silent m -> carried (engine m)).
Context (carried_progress : forall f, harmless f -> carried (update_progress f)).
Context (carried_batch : forall events generation expected enforce,
  carried (run_key_batch events generation expected enforce)).

#[local] Instance carried_exits : Exits P (fun _ : InputFailureKind.t => P).
Proof. by intros s Hs _. Qed.

Ltac carry_step :=
  match goal with
  | |- forall _, _ => intros ?
  | |- keeps _ (engine _) _ => apply carried_engine; unfold or_failure; solve [silence]
  | |- keeps _ (update_progress _) _ => apply carried_progress; solve [intros p; by split_and!]
  | |- keeps _ (run_key_batch _ _ _ _) _ => apply carried_batch
  | |- keeps _ (ret _) _ => apply keeps_ret
  | |- keeps _ (fail _) _ => apply keeps_fail; apply _
  | |- keeps _ (lift _) _ => apply keeps_lift; apply _
  | |- keeps _ (reject_if _ _) _ => apply keeps_reject_if; apply _
  | |- keeps _ (attempt _) _ => apply keeps_attempt
  | |- keeps _ (stop_step _ _ _) _ => unfold stop_step
  | |- keeps _ (match ?x with _ => _ end) _ => destruct x
  | |- keeps _ (bind _ _) _ => apply keeps_bind; [| intros ?]
  | _ => progress cbv zeta
  end.
Ltac carry := repeat first [assumption | solve [auto 2 with carry nocore] | carry_step].

Lemma carried_record bindings : carried (record_bindings bindings).
Proof.
  apply carried_progress. intros p. destruct (KeyboardProgress.redact_scalar_evidence p) eqn:Hr; by rewrite ?Hr.
Qed.

Lemma carried_emit step bindings context generation order :
  carried (emit_step step bindings context generation order).
Proof. unfold emit_step. carry. Qed.

#[local] Hint Resolve carried_record carried_emit : carry.

Section Run.
Context (cancellation : N) (deadline : option N).

Lemma carried_complete step bindings context record :
  carried (run_resolved_complete_step cancellation deadline step bindings context record).
Proof. unfold run_resolved_complete_step. carry. Qed.
#[local] Hint Resolve carried_complete : carry.

Lemma carried_exact scalar delay : carried (run_exact_scalar cancellation deadline scalar delay).
Proof. unfold run_exact_scalar. carry. Qed.
#[local] Hint Resolve carried_exact : carry.

Lemma carried_step step : carried (run_keyboard_step cancellation deadline step).
Proof. unfold run_keyboard_step. carry. Qed.

Lemma carried_hold position hold : carried (restore_hold position hold).
Proof. unfold restore_hold. carry. Qed.
#[local] Hint Resolve carried_step carried_hold : carry.

Lemma carried_validate_hold position hold identifier context :
  carried (validate_hold position hold identifier context).
Proof. unfold validate_hold. carry. Qed.
#[local] Hint Resolve carried_validate_hold : carry.

Lemma carried_down identifier : carried (run_keyboard_down cancellation deadline identifier).
Proof. unfold run_keyboard_down. carry. Qed.

Lemma carried_up identifier : carried (run_keyboard_up cancellation deadline identifier).
Proof. unfold run_keyboard_up. carry. Qed.

Lemma carried_restoration_proven b : carried (set_restoration_proven b).
Proof. unfold set_restoration_proven. carry. Qed.
#[local] Hint Resolve carried_restoration_proven : carry.

Lemma carried_restore : carried restore_pending_keyboard_mapping.
Proof. unfold restore_pending_keyboard_mapping. carry. Qed.
#[local] Hint Resolve carried_restore : carry.

Lemma carried_type_installed scalar delay reservation context :
  carried (type_installed cancellation deadline scalar delay reservation context).
Proof. unfold type_installed. carry. Qed.
#[local] Hint Resolve carried_type_installed : carry.

Lemma carried_temporary scalar delay : carried (run_temporary_scalar cancellation deadline scalar delay).
Proof. unfold run_temporary_scalar, run_installed. carry. Qed.
#[local] Hint Resolve carried_temporary : carry.

Lemma carried_after_unit last : carried (after_unit cancellation deadline last).
Proof. unfold after_unit. carry. Qed.
#[local] Hint Resolve carried_after_unit : carry.

Lemma carried_steps steps : carried (run_steps cancellation deadline steps).
Proof. induction steps as [| step steps IH]; simpl; carry. Qed.

Lemma carried_scalar mode scalar delay : carried (run_scalar cancellation deadline mode scalar delay).
Proof. unfold run_scalar. carry. Qed.
#[local] Hint Resolve carried_scalar : carry.

Lemma carried_scalars mode delay first scalars : carried (run_scalars cancellation deadline mode delay first scalars).
Proof. revert first. induction scalars as [| s scalars IH]; intros first; simpl; carry. Qed.
#[local] Hint Resolve carried_down carried_up carried_steps carried_scalars : carry.

Lemma carried_kind action : carried (run_kind cancellation deadline action).
Proof. unfold run_kind, after_single. carry. Qed.
End Run.
End Carried.
End Keyboard.

(** ** The assertions carried *)
Section Assertions.
Context {V : Type} `{!InputBackend V, !ActorKeyboardModel V, !Surroundings V, !Observed V}.

#[local] Abbreviation Engine := (InputEngine.t V BindingToken).
Implicit Types (e : Engine) (n k : N).

(** The events of the progress were accepted. *)
Definition ToldProgress n (s : Engine * KeyboardProgress.t) : Prop :=
  Told n (KeyboardProgress.events_emitted (snd s)) (fst s).

(** The progress of an action that types scalars names no key. *)
Definition Redacted (s : Engine * KeyboardProgress.t) : Prop :=
  KeyboardProgress.redact_scalar_evidence (snd s) = true /\ KeyboardProgress.bindings (snd s) = [].

(** A batch that is not counted yet. *)
Definition ToldBatch n (sent : N) (s : Engine * KeyboardProgress.t) : Prop :=
  Told n (KeyboardProgress.events_emitted (snd s) + sent) (fst s).

Lemma told_engine {A} n (m : M Engine InputFailureKind.t A) :
  silent m -> keeps (ToldProgress n) (engine m) (fun _ : InputFailureKind.t => ToldProgress n).
Proof.
  intros Hm [e p] He. unfold engine, ToldProgress, Told in *. simpl in *. specialize (Hm e).
  destruct (m e) as [e' [a | x]]; simpl in *; by rewrite Hm.
Qed.

Lemma told_progress n f :
  harmless f -> keeps (ToldProgress n) (update_progress f) (fun _ : InputFailureKind.t => ToldProgress n).
Proof. intros Hf [e p] He. unfold ToldProgress in *. simpl in *. by rewrite (proj1 (Hf p)). Qed.

Lemma told_counted n sent (R : InputFailureKind.t -> _ -> Prop) :
  triple (ToldBatch n sent) (note_keyboard_effect sent ;;; count_events sent) (fun _ => ToldProgress n) R.
Proof.
  eapply triple_bind with (X := fun _ => ToldBatch n sent).
  - intros [e p] He. unfold note_keyboard_effect. by case_decide.
  - intros [] [e p] He. by apply told_saturating.
Qed.

Lemma told_key_batch n events generation expected enforce :
  keeps (ToldProgress n) (run_key_batch events generation expected enforce)
    (fun _ : InputFailureKind.t => ToldProgress n).
Proof.
  unfold run_key_batch. apply keeps_bind; [by apply told_engine |]. intros self. cbv zeta.
  eapply triple_bind with (X := fun r => ToldBatch n
    match r with Ok b => BatchSuccess.sent b | Err f => BatchFailure.sent f end).
  { intros [e p] He. unfold engine, attempt. simpl.
    pose proof (told_run_batch n (KeyboardProgress.events_emitted p) events false false e He) as H.
    by destruct (run_batch events false false e) as [e' [b | f]]. }
  assert (forall sent A (m : M (Engine * KeyboardProgress.t) InputFailureKind.t A),
    keeps (ToldProgress n) m (fun _ : InputFailureKind.t => ToldProgress n) ->
    triple (ToldBatch n sent) (note_keyboard_effect sent ;;; count_events sent ;;; m)
      (fun _ => ToldProgress n) (fun _ : InputFailureKind.t => ToldProgress n)) as Hc.
  { intros sent A m Hm s Hs.
    pose proof (told_counted n sent (fun _ : InputFailureKind.t => ToldProgress n) s Hs) as H. unfold bind in *.
    destruct (note_keyboard_effect sent s) as [s1 [[] | x]]; [| done].
    destruct (count_events sent s1) as [s2 [[] | x]]; [by apply Hm | done]. }
  intros [b | f]; cbn beta iota; apply Hc.
  - apply keeps_bind; [by apply told_progress |]. intros _. apply told_engine. silence.
  - apply keeps_bind; [destruct (BatchFailure.observation f); [by apply told_progress | by apply keeps_ret] |].
    intros _. by intros s Hs.
Qed.

(** [run_keyboard_action]. *)
Lemma told_run_keyboard n c d action :
  triple (Told n 0) (run_keyboard_action c d action)
    (fun p => Told n (KeyboardProgress.events_emitted p))
    (fun x => Told n (KeyboardProgress.events_emitted (KeyboardRunError.progress x))).
Proof.
  intros e He. unfold run_keyboard_action.
  pose proof (carried_kind (ToldProgress n) (fun A m => told_engine n m) (told_progress n) (told_key_batch n)
    c d action) as Hk.
  match goal with |- context [run_kind c d action ?s] => specialize (Hk s);
    destruct (run_kind c d action s) as [[e' p] [u | kind]] end; by apply Hk.
Qed.

(** A redacted action records no binding. *)
Lemma redacted_run_keyboard c d action :
  KeyboardAction.contains_scalar_identifier action = true ->
  triple (fun _ : Engine => True) (run_keyboard_action c d action)
    (fun p _ => KeyboardProgress.redact_scalar_evidence p = true /\ KeyboardProgress.bindings p = [])
    (fun x _ => KeyboardProgress.redact_scalar_evidence (KeyboardRunError.progress x) = true /\
                KeyboardProgress.bindings (KeyboardRunError.progress x) = []).
Proof.
  intros Ha e _. unfold run_keyboard_action.
  assert (forall A (m : M Engine InputFailureKind.t A),
    keeps Redacted (engine m) (fun _ : InputFailureKind.t => Redacted)) as Hs.
  { intros A m [e0 p] Hp. unfold engine. simpl. by destruct (m e0) as [e' [a | x]]. }
  assert (forall f, (forall p, KeyboardProgress.redact_scalar_evidence p = true ->
    KeyboardProgress.redact_scalar_evidence (f p) = true /\ KeyboardProgress.bindings (f p) = KeyboardProgress.bindings p) ->
    keeps Redacted (update_progress f : M (Engine * _) InputFailureKind.t unit)
      (fun _ : InputFailureKind.t => Redacted)) as Hf.
  { intros f Hf [e0 p] [H1 H2]. destruct (Hf p H1) as [F1 F2]. split; simpl; [done | by rewrite F2]. }
  assert (forall events generation expected enforce,
    keeps Redacted (run_key_batch events generation expected enforce) (fun _ : InputFailureKind.t => Redacted)) as Hb.
  { intros events generation expected enforce. unfold run_key_batch, note_keyboard_effect, count_events.
    apply keeps_bind; [apply Hs |]. intros self. apply keeps_bind; [apply Hs |]. intros [b | f].
    - apply keeps_bind; [case_decide; [apply Hs | by apply keeps_ret] |]. intros _.
      apply keeps_bind; [by apply Hf |]. intros _. apply keeps_bind; [by apply Hf |]. intros _. apply Hs.
    - apply keeps_bind; [case_decide; [apply Hs | by apply keeps_ret] |]. intros _.
      apply keeps_bind; [by apply Hf |]. intros _.
      apply keeps_bind; [destruct (BatchFailure.observation f); [by apply Hf | by apply keeps_ret] |].
      by intros _ s0 Hs0. }
  pose proof (carried_kind Redacted (fun A m _ => Hs A m)
    (fun f Hh => Hf f (fun p Hr => conj (eq_trans (proj1 (proj2 (Hh p))) Hr) (proj2 (proj2 (Hh p)) Hr)))
    Hb c d action) as Hk.
  match goal with |- context [run_kind c d action ?s] => specialize (Hk s);
    destruct (run_kind c d action s) as [[e' p] [u | kind]] end; by apply Hk.
Qed.

End Assertions.
