(* ===== verification/EngineReports.v ===== *)
(** * What an operation reports

    The outcome of an operation, and a failure that needed no cleanup, counts exactly the
    events the server accepted; and the whole evidence of an action that types scalars,
    the evidence of the cleanup after it included, is redacted. *)

From stdpp Require Import base numbers list option.
From Stdlib Require Import Lia.
From S2P Require Import Prelude Identity Geometry Binary64 Motion Keys OwnedInput Actions.
From S2P Require Import NamedKeys InputBackend InputOutcome KeyboardActions.
From S2P Require Import Engine EnginePointer EngineKeyboard EngineControl Recorder EngineInvariant.
From S2P Require Import EnginePointerSafety EngineAccounting EngineEvidence EngineGuarantees.

Local Open Scope N_scope.

Import InputEngine.

#[local] Opaque conservative_cleanup_actions.

Section Reports.
Context {V : Type} `{!InputBackend V, !ActorKeyboardModel V, !Surroundings V, !Observed V}.
Context (hypot : f64 -> f64 -> f64).

#[local] Abbreviation Engine := (InputEngine.t V BindingToken).
Implicit Types (e : Engine) (n k : N).

(** ** A reset that begins reports *)

(** A method that does not fail. *)
Definition total {E A} (m : M Engine E A) : Prop := forall e, is_ok (snd (m e)) = true.

Lemma total_bind {E A B} (m : M Engine E B) (k : B -> M Engine E A) :
  total m -> (forall b, total (k b)) -> total (bind m k).
Proof.
  intros Hm Hk e. unfold bind. specialize (Hm e). destruct (m e) as [e' [b | x]]; [apply Hk | done].
Qed.
Lemma total_outside {E A} (f : V -> V * A) : total (outside f : M Engine E A).
Proof. intros e. unfold outside. by destruct (f (world e)). Qed.
Lemma total_on_state {E F A} (m : M InputState.t F A) : total (on_state m : M Engine E _).
Proof. intros e. unfold on_state. by destruct (m (state e)). Qed.
Lemma total_attempt {E F A} (m : M Engine F A) : total (attempt m : M Engine E _).
Proof. intros e. unfold attempt. by destruct (m e). Qed.
Lemma total_ret {E A} (a : A) : total (ret a : M Engine E A).
Proof. done. Qed.
Lemma total_get {E} : total (get : M Engine E _).
Proof. done. Qed.
Lemma total_modify {E} f : total (modify f : M Engine E unit).
Proof. done. Qed.

Ltac totally :=
  repeat match goal with
    | |- forall _, _ => intros ?
    | |- total (ret _) => apply total_ret
    | |- total get => apply total_get
    | |- total (modify _) => apply total_modify
    | |- total (outside _) => apply total_outside
    | |- total (on_state _) => apply total_on_state
    | |- total (attempt _) => apply total_attempt
    | |- total (bind _ _) => apply total_bind; [| intros ?]
    | |- total (match ?x with _ => _ end) => destruct x
    | |- total mark_panicked => unfold mark_panicked, transition_ignored, update_state
    | |- total (update_state _) => unfold update_state
    | |- total (reconcile_keys _) => unfold reconcile_keys, update_ledger
    | |- total (apply_backend_fault _) => unfold apply_backend_fault, transition_ignored, update_state
    | |- total (panic_verdict _) => unfold panic_verdict
    | |- total restore_discarding_progress =>
        intros e; unfold restore_discarding_progress;
        destruct (restore_pending_keyboard_mapping _) as [[? ?] ?]; reflexivity
    | _ => progress cbv zeta
    end.

Lemma total_attempt_releases {E} health : total (attempt_releases health : M Engine E _).
Proof. unfold attempt_releases, query_keys. totally. Qed.

(** Every failure of a reset that began carries its report. *)
Lemma conclude_reset_reports evidence :
  triple (fun _ : Engine => True) (conclude_reset evidence) (fun _ _ => True)
    (fun x _ => InputFailure.cleanup x <> None).
Proof.
  assert (forall A B (m : M Engine InputFailure.t B) (k : B -> M Engine InputFailure.t A),
    total m -> (forall b, triple (fun _ : Engine => True) (k b) (fun _ _ => True)
      (fun x _ => InputFailure.cleanup x <> None)) ->
    triple (fun _ : Engine => True) (bind m k) (fun _ _ => True)
      (fun x _ => InputFailure.cleanup x <> None)) as Hb.
  { intros A B m k Hm Hk. eapply triple_bind with (X := fun _ _ => True); [| exact Hk].
    intros e _. specialize (Hm e). by destruct (m e) as [e' []]. }
  unfold conclude_reset, abandon_retry, settle_batch, restore_mapping, report_health.
  repeat match goal with
    | |- triple _ (bind (ret _) _) _ _ => apply Hb; [totally |]; intros ?
    | |- triple _ (bind _ _) _ _ => apply Hb; [totally |]; intros ?
    | |- triple _ (let '(_, _) := ?x in _) _ _ => destruct x
    | _ => progress cbv zeta
    end.
  destruct (_ || _); [by intros e _ |]. match goal with |- triple _ (match ?x with _ => _ end) _ _ => destruct x end;
    [by intros e _ |]. destruct (_ && _); by intros e _.
Qed.

(** ** The events reported *)

(** A failure without a cleanup counts the events accepted. *)
Definition FailTold n (x : InputFailure.t) (e : Engine) : Prop :=
  InputFailure.cleanup x = None -> Told n (InputFailure.events_emitted x) e.

#[local] Abbreviation Outcome n := (fun o => Told n (InputOutcome.events_emitted o)).

Lemma told_reset n k :
  triple (Told n k) reset_owned_input (fun _ _ => True)
    (fun x e => InputFailure.cleanup x = None -> Told n k e).
Proof.
  unfold reset_owned_input. apply told_after; [milden |]. intros self. cbv zeta.
  apply told_after; [milden |]. intros [u | err].
  - eapply triple_bind with (X := fun _ _ => True).
    { intros e _. pose proof (total_attempt_releases (E := InputFailure.t)
        (InputState.health (state self)) e) as H. by destruct (attempt_releases _ e) as [e' []]. }
    intros evidence. eapply triple_conseq; [apply conclude_reset_reports | done | done |]. by intros x e Hx ?.
  - apply told_after; [milden |]. intros _. apply told_after; [milden |]. intros _. by intros e He _.
Qed.

Lemma told_cleanup n k (R : InputFailure.t -> Engine -> Prop) :
  triple (Told n k) cleanup_after_failure (fun c e => c = None -> Told n k e) R.
Proof.
  intros e He. unfold cleanup_after_failure, attempt, bind. pose proof (told_reset n k e He) as H.
  destruct (reset_owned_input e) as [e' [report | x]]; [done | exact H].
Qed.

Lemma told_rejected {A} n context target kind (Q : A -> Engine -> Prop) :
  triple (Told n 0) (fail_before context target kind) Q (FailTold n).
Proof. by intros e He _. Qed.

(** The checks before an effect. *)
Lemma told_check n context target c :
  triple (Told n 0) (check_boundary context target c) (fun _ => Told n 0) (FailTold n).
Proof.
  apply told_after; [milden |]. intros [[] |]; [apply told_rejected.. | by apply triple_ret].
Qed.

Lemma told_drain n context target :
  triple (Told n 0) (drain_before context target) (fun _ => Told n 0) (FailTold n).
Proof.
  apply told_after; [milden |]. intros [d | f]; [by apply triple_ret |].
  apply told_after; [milden |]. intros _. apply told_rejected.
Qed.

Lemma told_healthy n context target :
  triple (Told n 0) (require_healthy context target) (fun _ => Told n 0) (FailTold n).
Proof.
  apply told_after; [milden |]. intros self. case_decide; [apply told_rejected | by apply triple_ret].
Qed.

Lemma told_precondition n context check target :
  quiet_check check ->
  triple (Told n 0) (check_precondition context check target) (fun _ => Told n 0) (FailTold n).
Proof.
  intros Hc. apply told_after.
  { apply mild_attempt. unfold evaluate_precondition. destruct check as [check |]; [| done]. silence. }
  intros [u | kind]; [by apply triple_ret | apply told_rejected].
Qed.

Lemma told_or_rejected {A E} n context target (r : result A E) :
  triple (Told n 0) (or_rejected context target r) (fun _ => Told n 0) (FailTold n).
Proof. destruct r; [by apply triple_ret | apply told_rejected]. Qed.

Lemma told_observe_start n context target :
  triple (Told n 0) (observe_start context target) (fun _ => Told n 0) (FailTold n).
Proof.
  apply told_after; [milden |]. intros [o | f].
  - apply told_after; [milden |]. intros _. by apply triple_ret.
  - apply told_after; [milden |]. intros _. apply told_rejected.
Qed.

Lemma told_begin n context target :
  triple (Told n 0) (begin_ordinary context target) (fun _ => Told n 0) (FailTold n).
Proof.
  apply told_after; [milden |]. intros [u | x]; [by apply triple_ret |].
  do 3 (apply told_after; [milden |]; intros ?). by intros e He _.
Qed.

(** The journal is closed, or the failure counts what the error counted. *)
Lemma told_close n context error :
  triple (Told n (ActionError.events_emitted error)) (close_journal context error)
    (fun _ => Told n (ActionError.events_emitted error)) (FailTold n).
Proof.
  apply told_after; [milden |]. intros [j | x]; [by apply triple_ret |].
  do 2 (apply told_after; [milden |]; intros ?). by intros e He _.
Qed.

Lemma told_conclude n context progress effects :
  triple (Told n (ActionProgress.events_emitted progress)) (conclude_action context progress effects)
    (Outcome n) (FailTold n).
Proof.
  unfold conclude_action. destruct (ActionProgress.stopped progress) as [[] |];
    destruct (ActionProgress.events_emitted progress) eqn:Hk; intros e He; simpl; rewrite ?Hk; try exact He;
    intros _; exact He.
Qed.

Lemma told_run_begun n context action click c :
  quiet_click click ->
  triple (Told n 0) (run_begun_action context action click c) (Outcome n) (FailTold n).
Proof.
  intros Hc. unfold run_begun_action.
  eapply triple_bind with (X := fun r => Told n
    match r with
    | Ok p => ActionProgress.events_emitted p
    | Err x => ActionError.events_emitted x
    end).
  { apply triple_attempt. by apply (told_run_action n c (ActionContext.deadline context)). }
  intros [p | error]; cbn beta.
  - eapply triple_bind; [exact (told_close n context (ActionProgress.error p InputFailureKind.ActorPanicked)) |].
    intros j. apply told_conclude.
  - eapply triple_bind; [apply told_close |]. intros j. apply told_after; [milden |]. intros self.
    case_decide; [by intros e He _ |]. eapply triple_bind; [apply told_cleanup |].
    intros cleanup e He Hn. by apply He.
Qed.

Lemma told_execute_prepared n context action check click c :
  quiet_check check -> quiet_click click ->
  triple (Told n 0) (execute_prepared_action context action check click c) (Outcome n) (FailTold n).
Proof.
  intros Hq Hc. unfold execute_prepared_action. cbv zeta.
  eapply triple_bind; [apply told_check |]. intros ?. eapply triple_bind; [apply told_drain |]. intros ?.
  eapply triple_bind; [apply told_check |]. intros ?. eapply triple_bind; [apply told_healthy |]. intros ?.
  eapply triple_bind with (X := fun _ => Told n 0).
  { destruct action; try by apply triple_ret. apply told_rejected. }
  intros ?. apply told_after; [milden |]. intros self. eapply triple_bind with (X := fun _ => Told n 0).
  { destruct (preflight action self); [by apply triple_ret | apply told_rejected]. }
  intros ?. eapply triple_bind; [by apply told_precondition |]. intros ?.
  eapply triple_bind; [apply told_begin |]. intros ?. by apply told_run_begun.
Qed.

Lemma told_endpoint n context endpoint c :
  triple (Told n 0) (resolve_pointer_endpoint context endpoint c) (fun _ => Told n 0) (FailTold n).
Proof.
  unfold resolve_pointer_endpoint. cbv zeta.
  eapply triple_bind; [apply told_check |]. intros ?. eapply triple_bind; [apply told_drain |]. intros ?.
  eapply triple_bind; [apply told_healthy |]. intros ?. eapply triple_bind; [apply told_observe_start |].
  intros start. eapply triple_bind with (X := fun _ => Told n 0); [| intros target; by apply triple_ret].
  destruct endpoint; [by apply triple_ret | apply told_or_rejected].
Qed.

(** ** Keyboard actions *)
Lemma told_close_keyboard n context progress :
  triple (Told n (KeyboardProgress.events_emitted progress)) (close_keyboard_journal context progress)
    (fun _ => Told n (KeyboardProgress.events_emitted progress)) (FailTold n).
Proof.
  apply told_after; [milden |]. intros [j | x]; [by apply triple_ret |].
  do 3 (apply told_after; [milden |]; intros ?). by intros e He _.
Qed.

Lemma told_fail_keyboard {A} n context error effects cleanup (Q : A -> Engine -> Prop) :
  triple (Told n (KeyboardProgress.events_emitted (KeyboardRunError.progress error)))
    (fail_keyboard context error effects cleanup) Q (FailTold n).
Proof. apply told_after; [milden |]. intros self. by intros e He _. Qed.

Lemma told_conclude_keyboard n context progress effects :
  triple (Told n (KeyboardProgress.events_emitted progress)) (conclude_keyboard context progress effects)
    (fun o => Told n (InputOutcome.events_emitted o)) (FailTold n).
Proof.
  apply told_after; [milden |]. intros self. cbv zeta.
  destruct (KeyboardProgress.stopped progress) as [[] |];
    destruct (KeyboardProgress.events_emitted progress) eqn:Hk; intros e He; simpl; rewrite ?Hk; try exact He;
    intros _; simpl; by rewrite Hk.
Qed.

Lemma told_execute_keyboard n context action check c :
  quiet_check check ->
  triple (Told n 0) (execute_keyboard context action check c)
    (fun o => Told n (InputOutcome.events_emitted o)) (FailTold n).
Proof.
  intros Hq. unfold execute_keyboard.
  eapply triple_bind; [apply told_check |]. intros ?. eapply triple_bind; [apply told_drain |]. intros ?.
  eapply triple_bind; [apply told_check |]. intros ?. apply told_after; [milden |]. intros self.
  eapply triple_bind with (X := fun _ => Told n 0); [case_decide; [apply told_rejected | by apply triple_ret] |].
  intros ?. eapply triple_bind; [by apply told_precondition |]. intros ?.
  eapply triple_bind; [apply told_begin |]. intros ?. unfold run_begun_keyboard.
  eapply triple_bind with (X := fun r => Told n (KeyboardProgress.events_emitted
    match r with
    | Ok p => p
    | Err x => KeyboardRunError.progress x
    end)).
  { apply triple_attempt. apply told_run_keyboard. }
  intros [p | error]; cbn beta.
  - eapply triple_bind; [apply told_close_keyboard |]. intros j. apply told_conclude_keyboard.
  - eapply triple_bind; [apply told_close_keyboard |]. intros j. apply told_after; [milden |]. intros self'.
    case_decide; [apply told_fail_keyboard |]. eapply triple_bind; [apply told_cleanup |].
    intros cleanup e He Hn. destruct cleanup; [done |]. by apply He.
Qed.

Lemma told_execute n context operation check c :
  quiet_check check ->
  triple (Told n 0) (execute_operation hypot context operation check c)
    (fun o => Told n (InputOutcome.events_emitted o)) (FailTold n).
Proof.
  intros Hq. pose proof (fun a click => told_execute_prepared n context a check click c Hq) as Hp.
  destruct operation as [a | request | request | request | request | request | a | a];
    cbn [execute_operation]; try by apply (Hp _ None).
  - unfold execute_pointer_move. cbv zeta.
    eapply triple_bind; [apply told_check |]. intros ?. eapply triple_bind; [apply told_drain |]. intros ?.
    eapply triple_bind; [apply told_healthy |]. intros ?. eapply triple_bind; [apply told_observe_start |].
    intros start. eapply triple_bind; [apply told_or_rejected |]. intros plan. by apply (Hp _ None).
  - eapply triple_bind; [apply told_endpoint |]. intros [start target].
    eapply triple_bind; [apply told_or_rejected |]. intros plan. by apply (Hp _ None).
  - unfold execute_pointer_click. eapply triple_bind with (X := fun _ => Told n 0).
    { destruct (PointerClickRequest.endpoint request) as [endpoint |]; [| by apply triple_ret].
      eapply triple_bind; [apply told_endpoint |]. intros [start target].
      eapply triple_bind; [apply told_or_rejected |]. intros plan. by apply triple_ret. }
    intros movement. cbv zeta. eapply triple_bind; [apply told_or_rejected |]. intros action.
    by apply (Hp _ None).
  - eapply triple_bind; [apply told_endpoint |]. intros [start target].
    eapply triple_bind; [apply told_or_rejected |]. intros movement.
    eapply triple_bind; [apply told_or_rejected |]. intros action. by apply (Hp _ None).
  - unfold execute_window_pointer_click.
    eapply triple_bind; [apply told_check |]. intros ?. eapply triple_bind; [apply told_drain |]. intros ?.
    eapply triple_bind; [apply told_healthy |]. intros ?.
    apply told_after; [apply mild_attempt; silence |]. intros resolved.
    eapply triple_bind with (X := fun _ => Told n 0).
    { destruct resolved; [by apply triple_ret | apply told_rejected]. }
    intros target. eapply triple_bind; [apply told_observe_start |]. intros start.
    eapply triple_bind; [apply told_or_rejected |]. intros movement.
    eapply triple_bind; [apply told_or_rejected |]. intros action.
    eapply triple_bind; [by apply told_precondition |]. intros ?. by apply told_execute_prepared.
  - by apply told_execute_keyboard.
Qed.


(** ** Redaction *)
Definition effects_redacted (effects : InputEffectEvidence.t) : Prop :=
  exists provisional confirmed, effects = InputEffectEvidence.RedactedKeyboard provisional confirmed.

Definition cleanup_redacted (cleanup : InputCleanupEvidence.t) : Prop :=
  InputCleanupEvidence.redact_keyboard cleanup = cleanup.

Definition keyboard_redacted (evidence : KeyboardOutcomeEvidence.t) : Prop :=
  KeyboardOutcomeEvidence.bindings evidence = [] /\
  KeyboardModelDiagnostics.keymap_fingerprint (KeyboardOutcomeEvidence.model evidence) = None.

Definition outcome_redacted (outcome : InputOutcome.t) : Prop :=
  effects_redacted (InputOutcome.effects outcome) /\
  (forall evidence, InputOutcome.keyboard outcome = Some evidence -> keyboard_redacted evidence).

Definition failure_redacted (failure : InputFailure.t) : Prop :=
  (forall effects, InputFailure.effects failure = Some effects -> effects_redacted effects) /\
  (forall cleanup, InputFailure.cleanup failure = Some cleanup -> cleanup_redacted cleanup) /\
  (forall evidence, InputFailure.keyboard failure = Some evidence -> keyboard_redacted evidence).

#[local] Abbreviation hides m :=
  (triple (fun _ : Engine => True) m (fun _ _ => True) (fun x _ => failure_redacted x)).
#[local] Abbreviation hidden p :=
  (KeyboardProgress.redact_scalar_evidence p = true /\ KeyboardProgress.bindings p = []).

Lemma hides_total {A B} (m : M Engine InputFailure.t B) (k : B -> M Engine InputFailure.t A) (Q : A -> Engine -> Prop) :
  total m -> (forall b, triple (fun _ : Engine => True) (k b) Q (fun x _ => failure_redacted x)) ->
  triple (fun _ : Engine => True) (bind m k) Q (fun x _ => failure_redacted x).
Proof.
  intros Hm Hk. eapply triple_bind with (X := fun _ _ => True); [| exact Hk].
  intros e _. specialize (Hm e). by destruct (m e) as [e' []].
Qed.

Lemma failure_before_redacted context kind target self : failure_redacted (failure_before context kind target self).
Proof. by split_and!. Qed.

Lemma hides_rejected {A} context target kind :
  hides (fail_before (A := A) context target kind).
Proof. intros e _. apply failure_before_redacted. Qed.

Lemma keyboard_evidence_redacted p self : hidden p -> keyboard_redacted (keyboard_outcome_evidence p self).
Proof. intros [Hr Hb]. split; simpl; [done |]. unfold keyboard_diagnostics. by rewrite Hr. Qed.

Lemma keyboard_failure_redacted context error effects cleanup self :
  hidden (KeyboardRunError.progress error) ->
  failure_redacted (keyboard_run_failure context error effects cleanup self).
Proof.
  intros Hp. pose proof Hp as [Hr Hb]. unfold keyboard_run_failure, failure_redacted. simpl. rewrite Hr. split_and!.
  - intros x. destruct effects; simpl; [intros [= <-] | done]. by eexists _, _.
  - intros x. destruct cleanup as [c |]; simpl; [intros [= <-] | done]. by destruct c.
  - intros x [= <-]. by apply keyboard_evidence_redacted.
Qed.

Lemma hides_fail_keyboard {A} context error effects cleanup (Q : A -> Engine -> Prop) :
  hidden (KeyboardRunError.progress error) ->
  triple (fun _ : Engine => True) (fail_keyboard context error effects cleanup) Q (fun x _ => failure_redacted x).
Proof. intros Hp e _. by apply keyboard_failure_redacted. Qed.

Lemma hides_close context p : hidden p -> hides (close_keyboard_journal context p).
Proof.
  intros Hp. apply hides_total; [totally |]. intros [j | x]; [by intros e _ |].
  do 2 (apply hides_total; [totally |]; intros ?). by apply hides_fail_keyboard.
Qed.

Lemma hides_conclude context p effects :
  hidden p ->
  triple (fun _ : Engine => True) (conclude_keyboard context p effects)
    (fun o _ => outcome_redacted o) (fun x _ => failure_redacted x).
Proof.
  intros Hp. apply hides_total; [totally |]. intros self. cbv zeta.
  assert (forall kind e, outcome_redacted (InputOutcome.mk (ActionContext.command_id context) kind
      (KeyboardProgress.events_emitted p) (KeyboardProgress.completed_units p) None
      (PointerObservation.pointer <$> KeyboardProgress.pointer p)
      (PointerObservation.logical_buttons_1_to_5 <$> KeyboardProgress.pointer p) false
      (InputEffectEvidence.from_journal effects (KeyboardProgress.redact_scalar_evidence p))
      (Some (keyboard_outcome_evidence p e)))) as Ho.
  { intros kind e. split; simpl.
    - destruct Hp as [-> _]. by eexists _, _.
    - intros x [= <-]. by apply keyboard_evidence_redacted. }
  destruct (KeyboardProgress.stopped p) as [[] |]; destruct (KeyboardProgress.events_emitted p);
    first [by apply hides_fail_keyboard | intros e _; apply Ho].
Qed.

Lemma execute_keyboard_redacted context action check c :
  KeyboardAction.contains_scalar_identifier action = true ->
  triple (fun _ : Engine => True) (execute_keyboard context action check c)
    (fun o _ => outcome_redacted o) (fun x _ => failure_redacted x).
Proof.
  intros Ha. unfold execute_keyboard.
  assert (hides (check_boundary context None c)) as Hcheck.
  { apply hides_total; [unfold boundary_stop, deadline_elapsed; totally |].
    intros [[] |]; [apply hides_rejected.. | by intros e _]. }
  eapply triple_bind; [exact Hcheck |]. intros ?. cbn beta. eapply triple_bind with (X := fun _ _ => True).
  { apply hides_total; [unfold drain, apply_drained_mapping; totally |].
    intros [d | f]; [by intros e _ |]. apply hides_total; [totally |]. intros ?. apply hides_rejected. }
  intros ?. eapply triple_bind; [exact Hcheck |]. intros ?. cbn beta. apply hides_total; [totally |].
  intros self. eapply triple_bind with (X := fun _ _ => True); [case_decide; [apply hides_rejected | by intros e _] |].
  intros ?. eapply triple_bind with (X := fun _ _ => True).
  { apply hides_total; [totally |]. intros [v | kind]; [by intros e _ | apply hides_rejected]. }
  intros ?. eapply triple_bind with (X := fun _ _ => True).
  { apply hides_total; [totally |]. intros [v | x]; [by intros e _ |].
    do 3 (apply hides_total; [totally |]; intros ?). intros e _. by split_and!. }
  intros ?. unfold run_begun_keyboard.
  eapply triple_bind with (X := fun r _ => hidden (match r with Ok p => p | Err x => KeyboardRunError.progress x end)).
  { apply triple_attempt. eapply triple_conseq; [by apply redacted_run_keyboard | done | by intros p s Hp | by intros p s Hp]. }
  assert (forall (X : Prop) (m : M Engine InputFailure.t InputOutcome.t),
    (X -> triple (fun _ : Engine => True) m (fun o _ => outcome_redacted o) (fun x _ => failure_redacted x)) ->
    triple (fun _ : Engine => X) m (fun o _ => outcome_redacted o) (fun x _ => failure_redacted x)) as Hfact.
  { intros X m Hm e HX. by apply (Hm HX). }
  intros [p | error]; cbn beta iota; apply Hfact; intros Hp.
  - eapply triple_bind; [by apply hides_close |]. intros j. cbn beta. by apply hides_conclude.
  - eapply triple_bind; [by apply hides_close |]. intros j. cbn beta. apply hides_total; [totally |].
    intros self'. case_decide; [by apply hides_fail_keyboard |].
    apply hides_total; [unfold cleanup_after_failure; totally |]. intros cleanup. by apply hides_fail_keyboard.
Qed.
End Reports.

(** ** The properties, of recorded worlds *)
Section Theorems.
Context {W : Type} `{!InputBackend W, !ActorKeyboardModel W, !Surroundings W}.
Context (hypot : f64 -> f64 -> f64).

#[local] Abbreviation Engine := (InputEngine.t (Recorded W) (BindingToken (W := Recorded W))).

(** C8: an operation reports the events the server accepted: the outcome of one that succeeds, and the failure of one that needed no cleanup, counts exactly the sends that got a cookie while it ran (as long as a usize counts them). *)
Theorem events_reported_exactly (e e' : Engine) context operation precondition cancellation r :
  execute_operation hypot context operation (recorded_precondition <$> precondition) cancellation e = (e', r) ->
  accepted e' <= u64_max ->
  match r with
  | Ok outcome => accepted e' = accepted e + InputOutcome.events_emitted outcome
  | Err failure => InputFailure.cleanup failure = None ->
      accepted e' = accepted e + InputFailure.events_emitted failure
  end.
Proof.
  intros Hr Hmax.
  pose proof (told_execute hypot (accepted e) context operation (recorded_precondition <$> precondition)
    cancellation (recorded_quiet precondition) e) as H.
  rewrite Hr in H. assert (Told (accepted e) 0 e) as H0 by (right; lia). specialize (H H0).
  destruct r as [outcome | failure].
  - destruct H; [lia | done].
  - intros Hn. destruct (H Hn); [lia | done].
Qed.

(** C36: whatever happens while an action that types scalars executes, its evidence is redacted: no binding, no keymap fingerprint, effects and cleanup only as counts. *)
Theorem typed_text_is_redacted (e e' : Engine) context action precondition cancellation r :
  KeyboardAction.contains_scalar_identifier action = true ->
  execute_operation hypot context (InputOperation.Keyboard action) precondition cancellation e = (e', r) ->
  match r with
  | Ok outcome => outcome_redacted outcome
  | Err failure => failure_redacted failure
  end.
Proof.
  intros Ha Hr. pose proof (execute_keyboard_redacted context action precondition cancellation Ha e I) as H.
  cbn [execute_operation] in Hr. rewrite Hr in H. by destruct r.
Qed.
End Theorems.
