(* ===== verification/EngineWitness.v ===== *)
(** * A concrete desktop, and witnesses of the engine's properties

    A deterministic desktop that implements the backend, the keyboard model and the clock:
    the buttons and keys that are down, the keyboard rows, a letter on the key 38, and the
    calls from which on the connection is lost or the letter is no longer on its key.  The properties of the engine are applied to its runs. *)

From stdpp Require Import base numbers list option.
From Stdlib Require Import Lia.
From S2P Require Import Prelude Identity Geometry Binary64 Motion Keys OwnedInput Actions.
From S2P Require Import NamedKeys InputBackend InputOutcome KeyboardActions WindowPlacement.
From S2P Require Import Engine EnginePointer EngineKeyboard EngineControl Recorder Coverage.
From S2P Require Import EngineInvariant EngineExecutionSafety EngineAccounting EngineGuarantees EngineReports.

Local Open Scope N_scope.

Import CleanupFacts InputEngine.

(** ** The desktop *)
Module Desktop.

Record t := mk {
  buttons : list PhysicalButton;
  keys : list PhysicalKey;
  pointer : RootPoint;
  rows : list (PhysicalKey * CoreKeyboardMapping.t);
  unused : PhysicalKey;
  letter : option N;
  ticks : N;
  lost_from : N;
  forgotten_from : N
}.

Definition tick (d : t) : t :=
  mk (buttons d) (keys d) (pointer d) (rows d) (unused d) (letter d) (ticks d + 1)
    (lost_from d) (forgotten_from d).
Definition set_buttons v d := mk v (keys d) (pointer d) (rows d) (unused d) (letter d) (ticks d)
    (lost_from d) (forgotten_from d).
Definition set_keys v d := mk (buttons d) v (pointer d) (rows d) (unused d) (letter d) (ticks d)
    (lost_from d) (forgotten_from d).
Definition set_pointer v d := mk (buttons d) (keys d) v (rows d) (unused d) (letter d) (ticks d)
    (lost_from d) (forgotten_from d).
Definition set_rows v d := mk (buttons d) (keys d) (pointer d) v (unused d) (letter d) (ticks d)
    (lost_from d) (forgotten_from d).

(** A call, which fails once the connection is lost. *)
Definition connected {A} (f : t -> t * A) (d : t) : t * result A BackendFault.t :=
  if lost_from d <=? ticks d then (tick d, Err (BackendFault.mk BackendFault.Connection))
  else let '(d, a) := f (tick d) in (d, Ok a).

Definition empty_row : CoreKeyboardMapping.t := CoreKeyboardMapping.mk 1 [0].
Definition row (key : PhysicalKey) (d : t) : CoreKeyboardMapping.t :=
  default empty_row (Monitor.lookup_row key (rows d)).

Definition effect (event : BackendEvent.t) (d : t) : t :=
  match event with
  | BackendEvent.Motion point _ => set_pointer point d
  | BackendEvent.Button b true _ => set_buttons (b :: buttons d) d
  | BackendEvent.Button b false _ => set_buttons (filter (fun c => c <> b) (buttons d)) d
  | BackendEvent.Key k true _ => set_keys (k :: keys d) d
  | BackendEvent.Key k false _ => set_keys (filter (fun c => c <> k) (keys d)) d
  end.

Definition mapping : ButtonMapping.t := ButtonMapping.mk [1; 2; 3; 4; 5].

Definition observation (d : t) : PointerObservation.t :=
  PointerObservation.mk (pointer d)
    (map (fun n => bool_decide (mkPhysicalButton n ∈ buttons d)) [1; 2; 3; 4; 5]).

#[export] Instance backend : InputBackend t := {
  Cookie := unit;
  startup := connected (fun d => (d, BackendStartup.mk mapping 8 255));
  drain_events := connected (fun d => (d, DrainedEvents.mk None false false false));
  send_event event := connected (fun d => (effect event d, tt));
  check_cookie _ := connected (fun d => (d, tt));
  observe_pointer := connected (fun d => (d, observation d));
  observe_keys := connected (fun d => (d, keys d));
  wait_for_input_delay _ d := d;
  observe_window_geometry _ d := (d, Err (BackendFault.mk BackendFault.Capability));
  read_keyboard_mapping key := connected (fun d => (d, row key d));
  write_keyboard_mapping key new := connected (fun d => (set_rows ((key, new) :: rows d) d, tt))
}.

Definition preflight : ModelPreflight.t := ModelPreflight.mk 1 0 0 (Some 7).

Definition binding (identifier : KeyIdentifier) (key : PhysicalKey) : CapturedKeyBinding.t unit :=
  CapturedKeyBinding.mk identifier key None 0 0 1 false [] tt.

(** A scalar is on the unused key once its row says so; a raw keycode is its own key. *)
Definition key_of (identifier : KeyIdentifier) (d : t) : option N :=
  match identifier with
  | Scalar value =>
      if decide (letter d = Some value /\ ticks d < forgotten_from d) then Some 38
      else if decide (head (CoreKeyboardMapping.keysyms (row (unused d) d)) = Some (unicode_keysym value))
      then Some (keycode (unused d)) else None
  | Raw keycode => Some keycode
  | Named _ => None
  end.

Definition resolve (identifier : KeyIdentifier) (d : t) :
    result (CapturedKeyBinding.t unit) KeyboardModelFault.t :=
  match key_of identifier d with
  | Some keycode =>
      if decide (MIN_PHYSICAL_KEYCODE <= keycode <= u8_max)
      then Ok (binding identifier (mkPhysicalKey keycode))
      else Err (KeyboardModelFault.mk KeyboardModelFault.NotRepresentable)
  | None => Err (KeyboardModelFault.mk KeyboardModelFault.NotRepresentable)
  end.

#[export] Instance keyboard : ActorKeyboardModel t := {
  BindingToken := unit;
  ReservationToken := unit;
  diagnostics _ := KeyboardModelDiagnostics.mk Available (Some 1) (Some 7);
  synchronize_preflight d := (d, Ok preflight);
  resolve_synchronized identifier _ d := (d, resolve identifier d);
  validate_binding_synchronized binding _ d :=
    (d, match resolve (CapturedKeyBinding.identifier binding) d with
        | Ok _ => Ok preflight
        | Err fault => Err fault
        end);
  validate_held_binding_synchronized _ _ _ d := (d, Ok HeldCurrent);
  reserve_unused_keycode d := (d, Ok (KeyboardReservation.mk (unused d) tt));
  validate_reservation _ d := (d, Ok preflight)
}.

#[export] Instance surroundings : Surroundings t := {
  instant_now d := (d, ticks d);
  is_cancelled _ d := (d, false)
}.

#[export] Instance typed : TypedKeyboard t.
Proof.
  split. intros identifier context w w' b. simpl. unfold resolve.
  destruct (key_of identifier w); [| done]. case_decide; [| done]. intros [= _ <-]. by split.
Qed.
End Desktop.
Import (hints) Desktop.

(** A desktop with the pointer at (10, 20), nothing down, and the connection lost from a call on. *)
Definition desktop (lost_from : N) : Desktop.t :=
  Desktop.mk [] [] (mkRootPoint (Point.mk 10 20)) [] (mkPhysicalKey 200) None 0 lost_from 0.

#[local] Abbreviation hypot := (fun a _ : f64 => a).

Definition execute (operation : InputOperation.t) : Request Desktop.t :=
  ExecuteRequest (ActionContext.mk (mkCommandId 1) None) operation None 0.
Definition press_left : Request Desktop.t :=
  execute (InputOperation.Pointer (Button (mkPhysicalButton 1) Down false)).
(** The text of one character that no key carries. *)
Definition type_text : Request Desktop.t :=
  execute (InputOperation.Keyboard (KeyText [233] ExtendedTemporaryMapping 0)).

Lemma requests_valid : Forall valid_request [press_left; type_text].
Proof. by repeat constructor. Qed.

(** The connection is lost after the key of the character was sent. *)
Lemma cleanup_covers_held_witness : exists e, started (desktop 8) e /\
  HeldKey (mkPhysicalKey 200) ∈ map held_of (conservative_cleanup_actions (serve hypot [type_text] e)).
Proof.
  eexists. split; [eexists; vm_compute; reflexivity |].
  apply (cleanup_covers_held hypot (desktop 8) _ [type_text]).
  - eexists. vm_compute. reflexivity.
  - apply (Forall_inv_tail requests_valid).
  - vm_compute. left.
Defined.

Lemma reset_leaves_nothing_held_witness : exists e e' report, started (desktop 100) e /\
  held (serve hypot [press_left] e) = [HeldButton (mkPhysicalButton 1)] /\
  reset_owned_input (serve hypot [press_left] e) = (e', Ok report) /\ held e' = [].
Proof.
  eexists _, _, _. split; [eexists; vm_compute; reflexivity |]. split; [vm_compute; reflexivity |].
  split; [vm_compute; reflexivity |].
  eapply (reset_leaves_nothing_held hypot (desktop 100) _ [press_left]);
    [eexists; vm_compute; reflexivity | apply (Forall_singleton _ _), (Forall_inv requests_valid) | vm_compute; reflexivity].
Defined.

Lemma written_rows_restorable_witness : exists e, started (desktop 8) e /\
  pending_keyboard_restore (serve hypot [type_text] e) =
    Some (PendingTemporaryRestore.mk (mkPhysicalKey 200) Desktop.empty_row).
Proof.
  eexists. split; [eexists; vm_compute; reflexivity |].
  eapply (written_rows_restorable hypot (desktop 8) _ [type_text]);
    [eexists; vm_compute; reflexivity | apply (Forall_inv_tail requests_valid) | vm_compute; left].
Defined.

Lemma unhealthy_engine_emits_nothing_witness : exists e e' failure, started (desktop 100) e /\
  execute_operation hypot (ActionContext.mk (mkCommandId 2) None)
    (InputOperation.Pointer (Button (mkPhysicalButton 1) Down false)) None 0
    (serve hypot [PanicRequest] e) = (e', Err failure).
Proof.
  eexists. 
  edestruct (unhealthy_engine_emits_nothing (W := Desktop.t) hypot) as (e' & f & H & _);
    [| exists e', f; split; [eexists; vm_compute; reflexivity | exact H]].
  vm_compute. discriminate.
Defined.

(** The engine types the character, as its second command. *)
Definition typing (e : InputEngine.t (Recorded Desktop.t) (BindingToken (W := Recorded Desktop.t))) :=
  execute_operation hypot (ActionContext.mk (mkCommandId 2) None)
    (InputOperation.Keyboard (KeyText [233] ExtendedTemporaryMapping 0)) None 0 e.

Lemma events_reported_exactly_witness : exists e, started (desktop 100) e /\
  match typing e with
  | (e', Ok outcome) => accepted e' = accepted e + InputOutcome.events_emitted outcome /\ accepted e' = 2
  | _ => False
  end.
Proof.
  pose proof (fun e => events_reported_exactly (W := Desktop.t) hypot e (typing e).1
    (ActionContext.mk (mkCommandId 2) None) (InputOperation.Keyboard (KeyText [233] ExtendedTemporaryMapping 0))
    None 0 (typing e).2 (surjective_pairing (typing e))) as H.
  eexists. split; [eexists; vm_compute; reflexivity |].
  match goal with |- match typing ?e with _ => _ end => specialize (H e) end. revert H. vm_compute. intros H. split; [apply H; discriminate | reflexivity].
Defined.

Lemma typed_text_is_redacted_witness : exists e, started (desktop 8) e /\
  match typing e with
  | (_, Err failure) => failure_redacted failure /\ InputFailure.cleanup failure <> None
  | _ => False
  end.
Proof.
  pose proof (fun e => typed_text_is_redacted (W := Desktop.t) hypot e (typing e).1
    (ActionContext.mk (mkCommandId 2) None) (KeyText [233] ExtendedTemporaryMapping 0)
    None 0 (typing e).2 eq_refl (surjective_pairing (typing e))) as H.
  eexists. split; [eexists; vm_compute; reflexivity |].
  match goal with |- match typing ?e with _ => _ end => specialize (H e) end. revert H. vm_compute. intros H. split; [exact H | discriminate].
Defined.

(** ** A scalar found unrepresentable after its keys were sent *)

