(* ===== verification/AccessibilityTypes.v ===== *)
(** * Accessibility observations on the wire

    Models the data of [xenoteer-protocol/src/accessibility.rs] with its validation:
    fenced application and element references, element snapshots, selectors, requests,
    pages, waits and events.  A string is the sequence of its UTF-8 bytes.  The JSON
    encoding (serde_json), which validation only measures, is a parameter. *)

From stdpp Require Import base numbers list option gmap strings.
From Stdlib Require Import Lia Ascii.
From S2P Require Import Prelude Identity Geometry Binary64 WindowTypes.

Local Open Scope N_scope.

Definition MAX_ACCESSIBILITY_BUS_NAME_BYTES : N := 255.
Definition MAX_ACCESSIBILITY_OBJECT_PATH_BYTES : N := 4096.
Definition ACCESSIBILITY_IDENTITY_HASH_BYTES : N := 64.
Definition MAX_ACCESSIBILITY_TEXT_BYTES : N := 16 * 1024.
Definition MAX_ACCESSIBILITY_SHORT_TEXT_BYTES : N := 4096.
Definition MAX_ACCESSIBILITY_COLLECTION_ITEMS : N := 256.
Definition MAX_ACCESSIBILITY_ACTIONS : N := 128.
Definition MAX_ACCESSIBILITY_STATES : N := 128.
Definition MAX_ACCESSIBILITY_INTERFACES : N := 64.
Definition MAX_ACCESSIBILITY_WARNINGS : N := 32.
Definition MAX_ACCESSIBILITY_ATTRIBUTES : N := 256.
Definition MAX_ACCESSIBILITY_RELATIONS : N := 128.
Definition MAX_ACCESSIBILITY_RELATION_TARGETS : N := 128.
Definition MAX_ACCESSIBILITY_SELECTOR_PREDICATES : N := 64.
Definition MAX_ACCESSIBILITY_REGEX_BYTES : N := 1024.
Definition MAX_ACCESSIBILITY_PAGE_LIMIT : N := 1000.
Definition DEFAULT_ACCESSIBILITY_PAGE_LIMIT : N := 100.
Definition MAX_ACCESSIBILITY_QUERY_VISITED_NODES : N := 25000.
Definition MAX_ACCESSIBILITY_SELECTOR_DEPTH : N := 64.
Definition MAX_ACCESSIBILITY_QUERY_MATCHES : N := 1000.
Definition MAX_ACCESSIBILITY_QUERY_TIMEOUT_MS : N := 10000.
Definition MAX_ACCESSIBILITY_SNAPSHOT_BYTES : N := 16 * 1024 * 1024.
Definition MAX_ACCESSIBILITY_WAIT_TIMEOUT_MS : N := 120000.
Definition MAX_ACCESSIBILITY_CURSOR_BYTES : N := 1024.
Definition MAX_ACCESSIBILITY_ELEMENT_ENCODED_BYTES : N := 1024 * 1024.

(** [AccessibilityValidationError]. *)
Module AccessibilityValidationError.
Inductive t :=
  | NilIdentifier | Generation | Revision | BusName | ObjectPath | IdentityHash | CacheSequence
  | ReferenceScope | Collection | Text | ProtectedTextExposed | Geometry | Correlation
  | SelectorText | SelectorPredicates | NumericRange | QueryLimits | PageLimit | Cursor
  | WaitTimeout | EventSource | Warning | Completeness | ElementEncoding | Expansion
  | UnsupportedFeature | ExactOnePolicy | ResultShape.
End AccessibilityValidationError.
#[local] Abbreviation Error := AccessibilityValidationError.t.
Import AccessibilityValidationError.

(** ** Generations, names and paths *)

(** [AtspiGeneration] and [AccessibilityRevision]: non-zero [u64]s. *)
Module AtspiGeneration.
Record t := mk { get : N }.
Definition new (value : N) : result t Error :=
  try! ensure (value = 0) Generation in Ok (mk value).
#[export] Instance atspi_generation_eq_dec : EqDecision t.
Proof. solve_decision. Defined.
#[export] Instance atspi_generation_countable : Countable t := inj_countable' get mk (fun '(mk _) => eq_refl).
End AtspiGeneration.
Export (hints) AtspiGeneration.

Module AccessibilityRevision.
Record t := mk { get : N }.
Definition new (value : N) : result t Error :=
  try! ensure (value = 0) Revision in Ok (mk value).
#[export] Instance accessibility_revision_eq_dec : EqDecision t.
Proof. solve_decision. Defined.
End AccessibilityRevision.
Export (hints) AccessibilityRevision.

(** [u8::is_ascii_alphanumeric], and the bytes [_] and [-] besides. *)
Definition is_ascii_alphanumeric (byte : ascii) : bool :=
  let n := N_of_ascii byte in
  bool_decide (48 <= n <= 57 \/ 65 <= n <= 90 \/ 97 <= n <= 122).
Definition is_name_byte (byte : ascii) : bool :=
  is_ascii_alphanumeric byte || bool_decide (byte = "_"%char \/ byte = "-"%char).
Definition is_path_byte (byte : ascii) : bool :=
  bool_decide (byte = "_"%char) || is_ascii_alphanumeric byte.

(** [str::split] on one byte: at least one piece. *)
Fixpoint split_on (separator : ascii) (bytes : list ascii) : list (list ascii) :=
  match bytes with
  | [] => [[]]
  | byte :: bytes =>
      let pieces := split_on separator bytes in
      if decide (byte = separator) then [] :: pieces
      else match pieces with
           | piece :: pieces => (byte :: piece) :: pieces
           | [] => [[byte]]
           end
  end.

(** [valid_bus_element], [valid_atspi_bus_name], [valid_atspi_object_path]. *)
Definition valid_bus_element (value : list ascii) : bool :=
  bool_decide (value <> []) && forallb is_name_byte value.

Definition valid_atspi_bus_name (value : string) : bool :=
  match String.list_ascii_of_string value with
  | ":"%char :: suffix =>
      match split_on "."%char suffix with
      | first :: second :: elements =>
          valid_bus_element first && valid_bus_element second && forallb valid_bus_element elements
      | _ => false
      end
  | _ => false
  end.

Definition valid_atspi_object_path (value : string) : bool :=
  match String.list_ascii_of_string value with
  | ["/"%char] => true
  | "/"%char :: suffix =>
      bool_decide (suffix <> []) &&
      forallb (fun element => bool_decide (element <> []) && forallb is_path_byte element)
        (split_on "/"%char suffix)
  | _ => false
  end.

(** [AtspiBusName], [AtspiObjectPath] (the [checked_string!] types) and
    [AccessibilityIdentityHash]. *)
Definition checked_string (maximum : N) (validator : string -> bool) (error : Error)
    (value : string) : result string Error :=
  try! ensure (str_len value = 0 \/ maximum < str_len value \/ validator value = false) error in
  Ok value.

Record AtspiBusName := mkBusName { bus_str : string }.
Definition new_bus_name (value : string) : result AtspiBusName Error :=
  let? value := checked_string MAX_ACCESSIBILITY_BUS_NAME_BYTES valid_atspi_bus_name BusName value in
  Ok (mkBusName value).

Record AtspiObjectPath := mkObjectPath { path_str : string }.
Definition new_object_path (value : string) : result AtspiObjectPath Error :=
  let? value := checked_string MAX_ACCESSIBILITY_OBJECT_PATH_BYTES valid_atspi_object_path ObjectPath value in
  Ok (mkObjectPath value).

Record AccessibilityIdentityHash := mkAccessibilityHash { accessibility_hash_str : string }.
Definition new_accessibility_hash (value : string) : result AccessibilityIdentityHash Error :=
  try! ensure (str_len value <> ACCESSIBILITY_IDENTITY_HASH_BYTES \/
               forallb is_hash_byte (String.list_ascii_of_string value) = false) IdentityHash in
  Ok (mkAccessibilityHash value).

#[export] Instance bus_name_eq_dec : EqDecision AtspiBusName.
Proof. solve_decision. Defined.
#[export] Instance bus_name_countable : Countable AtspiBusName :=
  inj_countable' bus_str mkBusName (fun '(mkBusName _) => eq_refl).
#[export] Instance object_path_eq_dec : EqDecision AtspiObjectPath.
Proof. solve_decision. Defined.
#[export] Instance object_path_countable : Countable AtspiObjectPath :=
  inj_countable' path_str mkObjectPath (fun '(mkObjectPath _) => eq_refl).
#[export] Instance accessibility_hash_eq_dec : EqDecision AccessibilityIdentityHash.
Proof. solve_decision. Defined.
#[export] Instance accessibility_hash_countable : Countable AccessibilityIdentityHash :=
  inj_countable' accessibility_hash_str mkAccessibilityHash (fun '(mkAccessibilityHash _) => eq_refl).

(** ** References *)

(** [validate_desktop_scope]. *)
Definition validate_desktop_scope (desktop : DesktopId) (generation : DesktopGeneration) :
    result unit Error :=
  ensure (nil_scope desktop generation = true) NilIdentifier.

(** [ApplicationRef]. *)
Module ApplicationRef.
Record t := mk {
  desktop_id : DesktopId;
  desktop_generation : DesktopGeneration;
  atspi_generation : AtspiGeneration.t;
  unique_bus_name : AtspiBusName;
  root_object_path : AtspiObjectPath;
  app_instance_generation : N;
  identity_hash : AccessibilityIdentityHash;
}.

#[export] Instance application_ref_eq_dec : EqDecision t.
Proof. solve_decision. Defined.

#[export] Instance application_ref_countable : Countable t :=
  inj_countable' (fun '(mk a b c d e f g) => (a, b, c, d, e, f, g))
    (fun '(a, b, c, d, e, f, g) => mk a b c d e f g) (fun '(mk _ _ _ _ _ _ _) => eq_refl).

(** [ApplicationRef::validate]. *)
Definition validate (self : t) : result unit Error :=
  try! validate_desktop_scope (desktop_id self) (desktop_generation self) in
  ensure (app_instance_generation self = 0) Generation.
End ApplicationRef.
Export (hints) ApplicationRef.

(** [ElementRef]. *)
Module ElementRef.
Record t := mk {
  desktop_id : DesktopId;
  desktop_generation : DesktopGeneration;
  atspi_generation : AtspiGeneration.t;
  application : ApplicationRef.t;
  object_path : AtspiObjectPath;
  object_identity_hash : AccessibilityIdentityHash;
  cache_sequence : N;
}.

#[export] Instance element_ref_eq_dec : EqDecision t.
Proof. solve_decision. Defined.

#[export] Instance element_ref_countable : Countable t :=
  inj_countable' (fun '(mk a b c d e f g) => (a, b, c, d, e, f, g))
    (fun '(a, b, c, d, e, f, g) => mk a b c d e f g) (fun '(mk _ _ _ _ _ _ _) => eq_refl).

(** [ElementRef::validate]. *)
Definition validate (self : t) : result unit Error :=
  try! validate_desktop_scope (desktop_id self) (desktop_generation self) in
  try! ApplicationRef.validate (application self) in
  try! ensure (cache_sequence self = 0) CacheSequence in
  ensure (desktop_id self <> ApplicationRef.desktop_id (application self) \/
          desktop_generation self <> ApplicationRef.desktop_generation (application self) \/
          atspi_generation self <> ApplicationRef.atspi_generation (application self))
    ReferenceScope.
End ElementRef.
Export (hints) ElementRef.

(** [validate_application_scope], [validate_element_scope], [validate_same_scope]. *)
Definition validate_application_scope (desktop : DesktopId) (generation : DesktopGeneration)
    (application : ApplicationRef.t) : result unit Error :=
  ensure (ApplicationRef.desktop_id application <> desktop \/
          ApplicationRef.desktop_generation application <> generation) ReferenceScope.

Definition validate_element_scope (desktop : DesktopId) (generation : DesktopGeneration)
    (element : ElementRef.t) : result unit Error :=
  ensure (ElementRef.desktop_id element <> desktop \/
          ElementRef.desktop_generation element <> generation) ReferenceScope.

Definition validate_same_scope (left right : ElementRef.t) : result unit Error :=
  ensure (ElementRef.desktop_id left <> ElementRef.desktop_id right \/
          ElementRef.desktop_generation left <> ElementRef.desktop_generation right \/
          ElementRef.atspi_generation left <> ElementRef.atspi_generation right \/
          ElementRef.application left <> ElementRef.application right) ReferenceScope.

(** ** Roles, states, interfaces *)
Module ElementRole.
Inductive t :=
  | Unknown | Application | Window | Dialog | Alert | Document | Section_ | Panel | Toolbar | Menu
  | MenuItem | Tab | TabList | Button | CheckBox | RadioButton | ToggleButton | ComboBox | List_
  | ListItem | Tree | TreeItem | Table | TableCell | Label | Text | Entry | PasswordText
  | SpinButton | Slider | ScrollBar | ProgressBar | Link | Image | Canvas | Terminal.

#[export] Instance element_role_eq_dec : EqDecision t.
Proof. solve_decision. Defined.

(** The derived [Ord] compares the positions in the declaration. *)
Definition position (self : t) : N :=
  match self with
  | Unknown => 0 | Application => 1 | Window => 2 | Dialog => 3 | Alert => 4 | Document => 5
  | Section_ => 6 | Panel => 7 | Toolbar => 8 | Menu => 9 | MenuItem => 10 | Tab => 11
  | TabList => 12 | Button => 13 | CheckBox => 14 | RadioButton => 15 | ToggleButton => 16
  | ComboBox => 17 | List_ => 18 | ListItem => 19 | Tree => 20 | TreeItem => 21 | Table => 22
  | TableCell => 23 | Label => 24 | Text => 25 | Entry => 26 | PasswordText => 27
  | SpinButton => 28 | Slider => 29 | ScrollBar => 30 | ProgressBar => 31 | Link => 32
  | Image => 33 | Canvas => 34 | Terminal => 35
  end.
Definition cmp (a b : t) : comparison := N.compare (position a) (position b).
End ElementRole.
Export (hints) ElementRole.

(** [ElementRoleSnapshot]. *)
Record ElementRoleSnapshot := mkRole {
  role : ElementRole.t; raw_name : option string; raw_numeric : option N }.

Module ElementState.
Inductive t :=
  | Active | Busy | Checked | Defunct | Editable | Enabled | Expandable | Expanded | Focusable
  | Focused | Indeterminate | Modal | MultiSelectable | Opaque_ | Pressed | Protected | ReadOnly
  | Required | Selectable | Selected | Sensitive | Showing | SingleLine | Stale | Transient
  | Visible | Visited.
#[export] Instance element_state_eq_dec : EqDecision t.
Proof. solve_decision. Defined.
End ElementState.
Export (hints) ElementState.

Module ElementInterface.
Inductive t :=
  | Accessible | Action | Application | Collection | Component | Document | EditableText
  | Hypertext | Image | Selection | Table | TableCell | Text | Value.
#[export] Instance element_interface_eq_dec : EqDecision t.
Proof. solve_decision. Defined.
End ElementInterface.
Export (hints) ElementInterface.

(** [validate_short], [validate_bounded] and their forms on optional texts;
    [validate_collection]; [validate_unique] inserts each value in a set. *)
Definition has_nul (value : string) : bool :=
  bool_decide (Ascii.zero ∈ String.list_ascii_of_string value).
Definition optionally {A} (validate : A -> result unit Error) (value : option A) :
    result unit Error :=
  match value with Some value => validate value | None => Ok tt end.
Definition validate_short (value : string) : result unit Error :=
  ensure (str_len value = 0 \/ MAX_ACCESSIBILITY_SHORT_TEXT_BYTES < str_len value \/
          has_nul value = true) Text.
Definition validate_short_optional : option string -> result unit Error := optionally validate_short.
Definition validate_bounded (value : string) (allow_empty : bool) : result unit Error :=
  ensure ((allow_empty = false /\ str_len value = 0) \/
          MAX_ACCESSIBILITY_SHORT_TEXT_BYTES < str_len value \/ has_nul value = true) Text.
Definition validate_optional_bounded (value : option string) (allow_empty : bool) :
    result unit Error :=
  optionally (fun value => validate_bounded value allow_empty) value.
Definition validate_collection (length maximum : N) : result unit Error :=
  ensure (maximum < length) Collection.
Definition validate_unique {T} `{EqDecision T} (values : list T) : result unit Error :=
  ensure (has_duplicates values = true) Collection.

(** ** The parts of a snapshot *)
Record ElementActionSnapshot := mkActionSnapshot {
  action_name : string; action_description : option string; action_key_binding : option string }.

Record ElementValueSnapshot := mkValueSnapshot {
  value_current : f64; value_minimum : option f64; value_maximum : option f64;
  value_increment : option f64; value_text : option string }.

(** [AccessibleTextContent::new]. *)
Record AccessibleTextContent := mkTextContent { expose : string }.
Definition new_text_content (value : string) : result AccessibleTextContent Error :=
  try! ensure (MAX_ACCESSIBILITY_TEXT_BYTES < str_len value) Text in Ok (mkTextContent value).

Record ElementTextRange := mkTextRange { range_start : Z; range_end : Z }.

(** [ElementTextSnapshot]. *)
Module TextSnapshot.
Record t := mk {
  character_count : Z;
  caret_offset : Z;
  selections : list ElementTextRange;
  content : option AccessibleTextContent;
  content_truncated : bool;
  protected : bool;
}.

(** [ElementTextSnapshot::validate]. *)
Definition validate (self : t) : result unit Error :=
  try! ensure ((character_count self < 0)%Z \/ (caret_offset self < -1)%Z \/
               (0 <= caret_offset self /\ character_count self < caret_offset self)%Z \/
               MAX_ACCESSIBILITY_COLLECTION_ITEMS < len (selections self) \/
               Exists (fun range => range_start range < 0 \/ range_end range < range_start range \/
                         character_count self < range_end range)%Z (selections self)) Text in
  ensure (protected self = true /\ content self <> None) ProtectedTextExposed.
End TextSnapshot.

Record ElementComponentSnapshot := mkComponent {
  component_space : CoordinateSpace; extents : option Rect.t; layer : option string;
  z_order : option Z; alpha : option N }.

Inductive WindowCorrelationConfidence := CorrelationNone | Weak | Strong | ExactProcess.
#[export] Instance correlation_confidence_eq_dec : EqDecision WindowCorrelationConfidence.
Proof. solve_decision. Defined.

Inductive WindowCorrelationSignal :=
  | SignalProcessId | ManagedProcess | TopLevelExtents | SignalTitle | ToolkitIdentity
  | SignalClientLeader | FocusTransition | CreationProximity | ExplicitCallerReference.
#[export] Instance correlation_signal_eq_dec : EqDecision WindowCorrelationSignal.
Proof. solve_decision. Defined.

Record WindowCorrelationEvidence := mkCorrelationEvidence {
  signal : WindowCorrelationSignal; matched : bool; detail : option string }.

(** [ElementWindowCorrelation]. *)
Record ElementWindowCorrelation := mkWindowCorrelation {
  correlated_window : option WindowRef.t;
  correlation_confidence : WindowCorrelationConfidence;
  correlation_evidence : list WindowCorrelationEvidence;
  conflicting_evidence : bool }.

Inductive ElementCompleteness := Complete | Partial | Truncated | Dirty.
#[export] Instance completeness_eq_dec : EqDecision ElementCompleteness.
Proof. solve_decision. Defined.

Record AccessibilityWarning := mkWarning { warning_code : string; warning_message : string }.
Record ElementAttribute := mkAttribute { attribute_name : string; attribute_value : string }.

Module ElementRelationType.
Inductive t :=
  | LabelFor | LabelledBy | ControllerFor | ControlledBy | MemberOf | NodeChildOf | FlowsTo
  | FlowsFrom | DescriptionFor | DescribedBy | EmbeddedBy | Embeds | PopupFor | ParentWindowOf
  | ErrorFor | ErrorMessage | Details | DetailsFor | Unknown.
#[export] Instance relation_type_eq_dec : EqDecision t.
Proof. solve_decision. Defined.
End ElementRelationType.
Export (hints) ElementRelationType.

Record ElementRelation := mkRelation {
  relation : ElementRelationType.t; targets : list ElementRef.t }.

(** [validate_warnings]. *)
Definition is_code_byte (byte : ascii) : bool :=
  let n := N_of_ascii byte in
  bool_decide (97 <= n <= 122 \/ 48 <= n <= 57 \/ byte = "."%char \/ byte = "_"%char \/ byte = "-"%char).
Definition validate_warnings (warnings : list AccessibilityWarning) : result unit Error :=
  try_each (fun warning =>
    try! ensure (str_len (warning_code warning) = 0 \/ 64 < str_len (warning_code warning) \/
                 forallb is_code_byte (String.list_ascii_of_string (warning_code warning)) = false)
           Warning in
    validate_bounded (warning_message warning) false) warnings.

(** [Option::is_some_and]; the bounds of a range: not finite, or the wrong way round. *)
Definition option_exists {A} (f : A -> bool) (value : option A) : bool :=
  match value with Some value => f value | None => false end.
Definition not_finite (value : option f64) : bool :=
  option_exists (fun value => negb (F64.is_finite value)) value.
Definition above {A} (lt : A -> A -> bool) (minimum maximum : option A) : bool :=
  match minimum, maximum with Some minimum, Some maximum => lt maximum minimum | _, _ => false end.
Definition invalid_f64_range (minimum maximum : option f64) : bool :=
  not_finite minimum || not_finite maximum || above F64.lt minimum maximum.

(** [validate_aggregate_encoding], on the length of the encoding. *)
Definition validate_aggregate_encoding (encoded : option N) (maximum : N) : result unit Error :=
  match encoded with
  | None => Err ElementEncoding
  | Some length => ensure (maximum < length) ElementEncoding
  end.

(** ** Snapshots *)
Module ElementSnapshot.
Record t := mk {
  element : ElementRef.t;
  parent : option ElementRef.t;
  index_in_parent : option N;
  child_count : option N;
  role : ElementRoleSnapshot;
  name : option string;
  description : option string;
  accessible_id : option string;
  locale : option string;
  states : list ElementState.t;
  interfaces : list ElementInterface.t;
  actions : list ElementActionSnapshot;
  value : option ElementValueSnapshot;
  text : option TextSnapshot.t;
  component : option ElementComponentSnapshot;
  attributes : list ElementAttribute;
  relations : list ElementRelation;
  window_correlation : ElementWindowCorrelation;
  revision : AccessibilityRevision.t;
  completeness : ElementCompleteness;
  truncated : bool;
  warnings : list AccessibilityWarning;
}.

Definition set_actions v (s : t) : t :=
  mk (element s) (parent s) (index_in_parent s) (child_count s) (role s) (name s) (description s)
    (accessible_id s) (locale s) (states s) (interfaces s) v (value s) (text s) (component s)
    (attributes s) (relations s) (window_correlation s) (revision s) (completeness s) (truncated s)
    (warnings s).
Definition set_value v (s : t) : t :=
  mk (element s) (parent s) (index_in_parent s) (child_count s) (role s) (name s) (description s)
    (accessible_id s) (locale s) (states s) (interfaces s) (actions s) v (text s) (component s)
    (attributes s) (relations s) (window_correlation s) (revision s) (completeness s) (truncated s)
    (warnings s).
Definition set_text v (s : t) : t :=
  mk (element s) (parent s) (index_in_parent s) (child_count s) (role s) (name s) (description s)
    (accessible_id s) (locale s) (states s) (interfaces s) (actions s) (value s) v (component s)
    (attributes s) (relations s) (window_correlation s) (revision s) (completeness s) (truncated s)
    (warnings s).
Definition set_component v (s : t) : t :=
  mk (element s) (parent s) (index_in_parent s) (child_count s) (role s) (name s) (description s)
    (accessible_id s) (locale s) (states s) (interfaces s) (actions s) (value s) (text s) v
    (attributes s) (relations s) (window_correlation s) (revision s) (completeness s) (truncated s)
    (warnings s).
Definition set_attributes v (s : t) : t :=
  mk (element s) (parent s) (index_in_parent s) (child_count s) (role s) (name s) (description s)
    (accessible_id s) (locale s) (states s) (interfaces s) (actions s) (value s) (text s)
    (component s) v (relations s) (window_correlation s) (revision s) (completeness s) (truncated s)
    (warnings s).
Definition set_relations v (s : t) : t :=
  mk (element s) (parent s) (index_in_parent s) (child_count s) (role s) (name s) (description s)
    (accessible_id s) (locale s) (states s) (interfaces s) (actions s) (value s) (text s)
    (component s) (attributes s) v (window_correlation s) (revision s) (completeness s) (truncated s)
    (warnings s).
Definition set_revision v (s : t) : t :=
  mk (element s) (parent s) (index_in_parent s) (child_count s) (role s) (name s) (description s)
    (accessible_id s) (locale s) (states s) (interfaces s) (actions s) (value s) (text s)
    (component s) (attributes s) (relations s) (window_correlation s) v (completeness s)
    (truncated s) (warnings s).
Definition set_completeness v (s : t) : t :=
  mk (element s) (parent s) (index_in_parent s) (child_count s) (role s) (name s) (description s)
    (accessible_id s) (locale s) (states s) (interfaces s) (actions s) (value s) (text s)
    (component s) (attributes s) (relations s) (window_correlation s) (revision s) v (truncated s)
    (warnings s).
Definition set_warnings v (s : t) : t :=
  mk (element s) (parent s) (index_in_parent s) (child_count s) (role s) (name s) (description s)
    (accessible_id s) (locale s) (states s) (interfaces s) (actions s) (value s) (text s)
    (component s) (attributes s) (relations s) (window_correlation s) (revision s) (completeness s)
    (truncated s) v.

(** [ElementSnapshot::is_protected]. *)
Definition is_protected (self : t) : bool :=
  bool_decide (AccessibilityTypes.role (role self) = ElementRole.PasswordText) ||
  bool_decide (ElementState.Protected ∈ states self) ||
  option_exists TextSnapshot.protected (text self).

Definition validate_action (action : ElementActionSnapshot) : result unit Error :=
  try! validate_short (action_name action) in
  try! validate_optional_bounded (action_description action) true in
  validate_optional_bounded (action_key_binding action) true.

Definition validate_value (value : ElementValueSnapshot) : result unit Error :=
  try! ensure (F64.is_finite (value_current value) = false \/
               not_finite (value_increment value) = true \/
               invalid_f64_range (value_minimum value) (value_maximum value) = true) NumericRange in
  validate_optional_bounded (value_text value) true.

Definition validate_component (component : ElementComponentSnapshot) : result unit Error :=
  try! ensure (component_space component <> AtspiScreen \/
               option_exists (fun rect => negb (is_ok (Rect.validate rect))) (extents component) = true)
         Geometry in
  validate_optional_bounded (layer component) true.

Definition validate_correlation (self : t) : result unit Error :=
  let correlation := window_correlation self in
  try! ensure (MAX_ACCESSIBILITY_COLLECTION_ITEMS < len (correlation_evidence correlation)) Collection in
  try! ensure (bool_decide (correlation_confidence correlation = CorrelationNone) <>
               bool_decide (correlated_window correlation = None)) Correlation in
  try! optionally (fun window =>
         try! map_err (fun _ => Correlation) (WindowRef.validate_shape window) in
         ensure (WindowRef.desktop_id window <> ElementRef.desktop_id (element self) \/
                 WindowRef.desktop_generation window <> ElementRef.desktop_generation (element self))
           Correlation) (correlated_window correlation) in
  try_each (fun evidence => validate_optional_bounded (detail evidence) true)
    (correlation_evidence correlation).

Definition validate_relation (self : t) (relation : ElementRelation) : result unit Error :=
  try! validate_collection (len (targets relation)) MAX_ACCESSIBILITY_RELATION_TARGETS in
  try_each (fun target =>
    try! ElementRef.validate target in
    ensure (ElementRef.desktop_id target <> ElementRef.desktop_id (element self) \/
            ElementRef.desktop_generation target <> ElementRef.desktop_generation (element self) \/
            ElementRef.atspi_generation target <> ElementRef.atspi_generation (element self))
      ReferenceScope) (targets relation).

Section Validate.
(** The length of [serde_json::to_vec] of the snapshot, if it can be encoded. *)
Context (encoded : t -> option N).

(** [ElementSnapshot::validate]. *)
Definition validate (self : t) : result unit Error :=
  try! ElementRef.validate (element self) in
  try! optionally (fun parent =>
         try! ElementRef.validate parent in validate_same_scope (element self) parent)
         (parent self) in
  try! validate_short_optional (raw_name (role self)) in
  try! validate_short_optional (name self) in
  try! validate_short_optional (description self) in
  try! validate_short_optional (accessible_id self) in
  try! validate_short_optional (locale self) in
  try! validate_collection (len (states self)) MAX_ACCESSIBILITY_STATES in
  try! validate_collection (len (interfaces self)) MAX_ACCESSIBILITY_INTERFACES in
  try! validate_collection (len (actions self)) MAX_ACCESSIBILITY_ACTIONS in
  try! validate_collection (len (attributes self)) MAX_ACCESSIBILITY_ATTRIBUTES in
  try! validate_collection (len (relations self)) MAX_ACCESSIBILITY_RELATIONS in
  try! validate_collection (len (warnings self)) MAX_ACCESSIBILITY_WARNINGS in
  try! validate_unique (states self) in
  try! validate_unique (interfaces self) in
  try! try_each validate_action (actions self) in
  try! optionally validate_value (value self) in
  try! optionally TextSnapshot.validate (text self) in
  try! ensure (is_protected self = true /\
               ((text self ≫= TextSnapshot.content) <> None \/ value self <> None \/
                attributes self <> [])) ProtectedTextExposed in
  try! optionally validate_component (component self) in
  try! validate_correlation self in
  try! try_each (fun attribute =>
         try! validate_short (attribute_name attribute) in
         validate_bounded (attribute_value attribute) true) (attributes self) in
  try! try_each (validate_relation self) (relations self) in
  try! validate_warnings (warnings self) in
  try! ensure (completeness self = Truncated /\ truncated self = false) Completeness in
  validate_aggregate_encoding (encoded self) MAX_ACCESSIBILITY_ELEMENT_ENCODED_BYTES.
End Validate.
Arguments validate : simpl never.
End ElementSnapshot.

(** ** Selectors *)
Inductive ElementOrder :=
  | Preorder | ReversePreorder | NameAscending | NameDescending | RoleThenName | ObjectPathAscending.
#[export] Instance element_order_eq_dec : EqDecision ElementOrder.
Proof. solve_decision. Defined.

(** [ElementStringMatch]. *)
Module ElementStringMatch.
Inductive t :=
  | Exact (value : string) (case_sensitive : bool)
  | Contains (value : string) (case_sensitive : bool)
  | Prefix (value : string) (case_sensitive : bool)
  | Suffix (value : string) (case_sensitive : bool)
  | Regex (pattern : string) (case_sensitive : bool).

(** [ElementStringMatch::validate]. *)
Definition validate (self : t) : result unit Error :=
  let '(value, maximum) :=
    match self with
    | Exact value _ | Contains value _ | Prefix value _ | Suffix value _ =>
        (value, MAX_ACCESSIBILITY_SHORT_TEXT_BYTES)
    | Regex pattern _ => (pattern, MAX_ACCESSIBILITY_REGEX_BYTES)
    end in
  ensure (str_len value = 0 \/ maximum < str_len value \/ has_nul value = true) SelectorText.
End ElementStringMatch.

(** [ElementPredicate]. *)
Module ElementPredicate.
Inductive t :=
  | Role (roles : list ElementRole.t)
  | Name (matcher : ElementStringMatch.t)
  | Description (matcher : ElementStringMatch.t)
  | AccessibleId (matcher : ElementStringMatch.t)
  | State (state : ElementState.t) (value : bool)
  | Interface (interface : ElementInterface.t)
  | Attribute (name : string) (matcher : ElementStringMatch.t)
  | Action (matcher : ElementStringMatch.t)
  | ValueRange (minimum maximum : option f64)
  | IndexInParent (index : N)
  | ChildCount (minimum maximum : option N)
  | Relation (relation : ElementRelationType.t) (target : ElementRef.t)
  | ComponentIntersects (coordinate_space : CoordinateSpace) (rect : Rect.t).

(** [ElementPredicate::validate]. *)
Definition validate (self : t) : result unit Error :=
  match self with
  | Role roles =>
      ensure (roles = [] \/ MAX_ACCESSIBILITY_COLLECTION_ITEMS < len roles) Collection
  | Name matcher | Description matcher => ElementStringMatch.validate matcher
  | AccessibleId _ | Attribute _ _ | Action _ | Relation _ _ => Err UnsupportedFeature
  | ValueRange minimum maximum => ensure (invalid_f64_range minimum maximum = true) NumericRange
  | ChildCount minimum maximum => ensure (above N.ltb minimum maximum = true) NumericRange
  | ComponentIntersects coordinate_space rect =>
      try! ensure (coordinate_space <> AtspiScreen) Geometry in
      map_err (fun _ => Geometry) (Rect.validate rect)
  | State _ _ | Interface _ | IndexInParent _ => Ok tt
  end.
End ElementPredicate.

(** [ElementScope]. *)
Module ElementScope.
Inductive t :=
  | Desktop
  | Application (application : ApplicationRef.t)
  | Window (window : WindowRef.t)
  | Subtree (root : ElementRef.t) (include_root : bool)
  | Children (parent : ElementRef.t).

(** [ElementScope::validate_for]. *)
Definition validate_for (desktop : DesktopId) (generation : DesktopGeneration) (self : t) :
    result unit Error :=
  match self with
  | Desktop => Ok tt
  | Application application =>
      try! ApplicationRef.validate application in
      validate_application_scope desktop generation application
  | Window window =>
      try! map_err (fun _ => ReferenceScope) (WindowRef.validate_shape window) in
      ensure (WindowRef.desktop_id window <> desktop \/
              WindowRef.desktop_generation window <> generation) ReferenceScope
  | Subtree root _ | Children root =>
      try! ElementRef.validate root in
      validate_element_scope desktop generation root
  end.
End ElementScope.

(** [ElementSelector]. *)
Module ElementSelector.
Record t := mk {
  scope : ElementScope.t;
  predicates : list ElementPredicate.t;
  order : ElementOrder;
  result_index : option N;
}.

(** [ElementSelector::validate_for]. *)
Definition validate_for (desktop : DesktopId) (generation : DesktopGeneration) (self : t) :
    result unit Error :=
  try! ElementScope.validate_for desktop generation (scope self) in
  try! ensure (MAX_ACCESSIBILITY_SELECTOR_PREDICATES < len (predicates self)) SelectorPredicates in
  try_each (fun predicate =>
    try! ElementPredicate.validate predicate in
    match predicate with
    | ElementPredicate.Relation _ target => validate_element_scope desktop generation target
    | _ => Ok tt
    end) (predicates self).
End ElementSelector.

(** [AccessibilityQueryLimits]. *)
Module QueryLimits.
Record t := mk { max_visited_nodes : N; max_depth : N; max_matches : N; timeout_ms : N }.

(** [Default::default]. *)
Definition default : t :=
  mk MAX_ACCESSIBILITY_QUERY_VISITED_NODES MAX_ACCESSIBILITY_SELECTOR_DEPTH
    MAX_ACCESSIBILITY_QUERY_MATCHES MAX_ACCESSIBILITY_QUERY_TIMEOUT_MS.

(** [AccessibilityQueryLimits::validate]. *)
Definition validate (self : t) : result unit Error :=
  ensure (max_visited_nodes self = 0 \/ MAX_ACCESSIBILITY_QUERY_VISITED_NODES < max_visited_nodes self \/
          max_depth self = 0 \/ MAX_ACCESSIBILITY_SELECTOR_DEPTH < max_depth self \/
          max_matches self = 0 \/ MAX_ACCESSIBILITY_QUERY_MATCHES < max_matches self \/
          timeout_ms self = 0 \/ MAX_ACCESSIBILITY_QUERY_TIMEOUT_MS < timeout_ms self)
    AccessibilityValidationError.QueryLimits.
End QueryLimits.

(** [ElementSnapshotExpansion]. *)
Module Expansion.
Record t := mk {
  actions : bool; value : bool; text_metadata : bool; text_content : bool;
  attributes : bool; relations : bool; component : bool }.

#[export] Instance expansion_eq_dec : EqDecision t.
Proof. solve_decision. Defined.

(** [Default::default]. *)
Definition default : t := mk false false false false false false true.

(** [ElementSnapshotExpansion::validate]. *)
Definition validate (self : t) : result unit Error :=
  ensure (actions self || text_content self || attributes self || relations self = true)
    UnsupportedFeature.
End Expansion.
Export (hints) Expansion.

(** ** Requests *)

(** [AccessibilityPageCursor::new]. *)
Record AccessibilityPageCursor := mkPageCursor { cursor_str : string }.
Definition new_page_cursor (value : string) : result AccessibilityPageCursor Error :=
  try! ensure (str_len value < 16 \/ MAX_ACCESSIBILITY_CURSOR_BYTES < str_len value \/
               forallb is_name_byte (String.list_ascii_of_string value) = false) Cursor in
  Ok (mkPageCursor value).

(** [validate_page_limit]. *)
Definition validate_page_limit (limit : N) : result unit Error :=
  ensure (limit = 0 \/ MAX_ACCESSIBILITY_PAGE_LIMIT < limit) PageLimit.

(** [ElementListRequest]. *)
Module ElementListRequest.
Record t := mk {
  desktop_id : DesktopId; desktop_generation : DesktopGeneration; scope : ElementScope.t;
  order : ElementOrder; limit : N; cursor : option AccessibilityPageCursor;
  expansion : Expansion.t; limits : QueryLimits.t }.

Definition validate (self : t) : result unit Error :=
  try! validate_desktop_scope (desktop_id self) (desktop_generation self) in
  try! ElementScope.validate_for (desktop_id self) (desktop_generation self) (scope self) in
  try! validate_page_limit (limit self) in
  try! QueryLimits.validate (limits self) in
  try! Expansion.validate (expansion self) in
  ensure (QueryLimits.max_matches (limits self) < limit self) PageLimit.
End ElementListRequest.

(** [ElementQueryRequest]. *)
Module ElementQueryRequest.
Record t := mk {
  desktop_id : DesktopId; desktop_generation : DesktopGeneration; selector : ElementSelector.t;
  limit : N; cursor : option AccessibilityPageCursor; expansion : Expansion.t;
  limits : QueryLimits.t }.

Definition validate (self : t) : result unit Error :=
  try! validate_desktop_scope (desktop_id self) (desktop_generation self) in
  try! ElementSelector.validate_for (desktop_id self) (desktop_generation self) (selector self) in
  try! validate_page_limit (limit self) in
  try! QueryLimits.validate (limits self) in
  try! Expansion.validate (expansion self) in
  ensure (QueryLimits.max_matches (limits self) < limit self \/
          option_exists (N.leb (QueryLimits.max_matches (limits self)))
            (ElementSelector.result_index (selector self)) = true) PageLimit.
End ElementQueryRequest.

(** [ElementResolveRequest]. *)
Module ElementResolveRequest.
Record t := mk {
  desktop_id : DesktopId; desktop_generation : DesktopGeneration; selector : ElementSelector.t;
  expansion : Expansion.t; limits : QueryLimits.t }.

Definition validate (self : t) : result unit Error :=
  try! validate_desktop_scope (desktop_id self) (desktop_generation self) in
  try! ElementSelector.validate_for (desktop_id self) (desktop_generation self) (selector self) in
  try! Expansion.validate (expansion self) in
  try! QueryLimits.validate (limits self) in
  ensure (ElementSelector.result_index (selector self) <> None \/
          QueryLimits.max_matches (limits self) < 2) ExactOnePolicy.
End ElementResolveRequest.

(** [ElementSnapshotRequest]. *)
Module ElementSnapshotRequest.
Record t := mk {
  desktop_id : DesktopId; desktop_generation : DesktopGeneration; element : ElementRef.t;
  expansion : Expansion.t }.

Definition validate (self : t) : result unit Error :=
  try! validate_desktop_scope (desktop_id self) (desktop_generation self) in
  try! ElementRef.validate (element self) in
  try! validate_element_scope (desktop_id self) (desktop_generation self) (element self) in
  Expansion.validate (expansion self).
End ElementSnapshotRequest.

(** ** Waits *)
Module ElementWaitQuantifier.
Inductive t := Any | All | ExactlyOne | None_.
End ElementWaitQuantifier.

(** [ElementWaitTarget]. *)
Inductive ElementWaitTarget :=
  | WaitReference (element : ElementRef.t)
  | WaitSelector (selector : ElementSelector.t) (quantifier : ElementWaitQuantifier.t).

(** [ElementWaitPredicate]. *)
Module ElementWaitPredicate.
Inductive t :=
  | Exists_
  | Gone
  | State (state : ElementState.t) (value : bool)
  | Name (matcher : ElementStringMatch.t)
  | Value (minimum maximum : option f64)
  | Text_ (matcher : ElementStringMatch.t)
  | ChildCount (minimum maximum : option N)
  | Geometry_ (coordinate_space : CoordinateSpace) (intersects : Rect.t)
  | SelectorCount (minimum : N) (maximum : option N).

(** [ElementWaitPredicate::validate]. *)
Definition validate (self : t) : result unit Error :=
  match self with
  | Name matcher => ElementStringMatch.validate matcher
  | Text_ _ => Err UnsupportedFeature
  | Value minimum maximum => ensure (invalid_f64_range minimum maximum = true) NumericRange
  | ChildCount minimum maximum => ensure (above N.ltb minimum maximum = true) NumericRange
  | Geometry_ coordinate_space intersects =>
      try! ensure (coordinate_space <> AtspiScreen) Geometry in
      map_err (fun _ => Geometry) (Rect.validate intersects)
  | SelectorCount minimum maximum => ensure (above N.ltb (Some minimum) maximum = true) NumericRange
  | Exists_ | Gone | State _ _ => Ok tt
  end.
End ElementWaitPredicate.

(** [ElementWaitRequest]. *)
Module ElementWaitRequest.
Record t := mk {
  desktop_id : DesktopId; desktop_generation : DesktopGeneration; target : ElementWaitTarget;
  predicate : ElementWaitPredicate.t; after_revision : option AccessibilityRevision.t;
  timeout_ms : N; allow_poll_fallback : bool; expansion : Expansion.t; limits : QueryLimits.t }.

(** [ElementWaitRequest::validate]. *)
Definition validate (self : t) : result unit Error :=
  try! validate_desktop_scope (desktop_id self) (desktop_generation self) in
  try! ensure (timeout_ms self = 0 \/ MAX_ACCESSIBILITY_WAIT_TIMEOUT_MS < timeout_ms self) WaitTimeout in
  try! match target self with
       | WaitReference element =>
           try! ElementRef.validate element in
           validate_element_scope (desktop_id self) (desktop_generation self) element
       | WaitSelector selector _ =>
           ElementSelector.validate_for (desktop_id self) (desktop_generation self) selector
       end in
  try! ElementWaitPredicate.validate (predicate self) in
  try! QueryLimits.validate (limits self) in
  Expansion.validate (expansion self).
End ElementWaitRequest.

(** ** Results *)

(** [ElementSnapshotEntry]. *)
Record ElementSnapshotEntry := mkEntry { snapshot : ElementSnapshot.t }.

(** [ElementListPage]; [ElementQueryPage] is the same type. *)
Module ElementListPage.
Record t := mk {
  desktop_id : DesktopId; desktop_generation : DesktopGeneration;
  atspi_generation : AtspiGeneration.t; snapshot_revision : AccessibilityRevision.t;
  order : ElementOrder; elements : list ElementSnapshotEntry;
  next_cursor : option AccessibilityPageCursor; visited_nodes : N; truncated : bool;
  warnings : list AccessibilityWarning }.
End ElementListPage.

(** [ElementSnapshotResult], [ElementResolveResult]. *)
Record ElementSnapshotResult := mkSnapshotResult {
  result_revision : AccessibilityRevision.t; result_element : ElementSnapshotEntry }.

Module ElementResolveResult.
Record t := mk {
  desktop_id : DesktopId; desktop_generation : DesktopGeneration;
  atspi_generation : AtspiGeneration.t; snapshot_revision : AccessibilityRevision.t;
  element : ElementSnapshotEntry }.
End ElementResolveResult.

(** [ElementWaitResult]. *)
Inductive ElementWaitStatus := Matched | TimedOut | WaitResyncRequired.

Module ElementWaitResult.
Record t := mk {
  desktop_id : DesktopId; desktop_generation : DesktopGeneration;
  atspi_generation : AtspiGeneration.t; status : ElementWaitStatus;
  evaluated_revision : AccessibilityRevision.t; predicate_satisfied : bool; matched_count : N;
  elements : list ElementSnapshotEntry; poll_fallback_used : bool; truncated : bool;
  warnings : list AccessibilityWarning }.
End ElementWaitResult.

(** ** Events *)

(** [AccessibilityEventKind]. *)
Module AccessibilityEventKind.
Inductive t :=
  | ElementCreated | ElementRemoved | StateChanged | PropertyChanged | ChildrenChanged
  | ActiveDescendantChanged | FocusChanged | WindowActivated | WindowDeactivated | WindowCreated
  | WindowDestroyed | TextInserted | TextDeleted | TextCaretMoved | TextSelectionChanged
  | ValueChanged | SelectionChanged | BoundsChanged | VisibleDataChanged | CacheAdded
  | CacheRemoved | ResyncRequired.
#[export] Instance event_kind_eq_dec : EqDecision t.
Proof. solve_decision. Defined.
End AccessibilityEventKind.
Export (hints) AccessibilityEventKind.

(** [AccessibilityTextEventDetail]. *)
Module TextEventDetail.
Record t := mk { start : N; length : N; content : option AccessibleTextContent; redacted : bool }.

Definition validate (self : t) : result unit Error :=
  ensure (redacted self = true /\ content self <> None) ProtectedTextExposed.
End TextEventDetail.

(** [AccessibilityEventDetail]. *)
Module EventDetail.
Record t := mk {
  property : option string; state : option ElementState.t; enabled : option bool;
  child : option ElementRef.t; text : option TextEventDetail.t; value : option f64;
  bounds : option Rect.t }.
End EventDetail.

(** [AccessibilityResyncReason] of the wire, [AccessibilityRawSource]. *)
Inductive EventResyncReason := ActorSignal | GenerationChanged | ReportedEventGap | EventQueueOverflow.
Record AccessibilityRawSource := mkRawSource { raw_bus_name : AtspiBusName; raw_object_path : AtspiObjectPath }.

(** [AccessibilityEvent]. *)
Module AccessibilityEvent.
Record t := mk {
  desktop_id : DesktopId; desktop_generation : DesktopGeneration;
  atspi_generation : AtspiGeneration.t; source : option ElementRef.t;
  raw_source : option AccessibilityRawSource; kind : AccessibilityEventKind.t;
  resync_reason : option EventResyncReason; detail : EventDetail.t;
  revision : AccessibilityRevision.t; cache_sequence : N; source_stale : bool }.

(** A reference inside an event: valid, in its scope and of its generation. *)
Definition validate_reference (self : t) (element : ElementRef.t) : result unit Error :=
  try! ElementRef.validate element in
  try! validate_element_scope (desktop_id self) (desktop_generation self) element in
  ensure (ElementRef.atspi_generation element <> atspi_generation self) ReferenceScope.

(** The source, when it was resolved, is the raw source. *)
Definition validate_source (self : t) : result unit Error :=
  optionally (fun source =>
    try! validate_reference self source in
    match raw_source self with
    | None => Err EventSource
    | Some raw =>
        ensure (ApplicationRef.unique_bus_name (ElementRef.application source) <> raw_bus_name raw \/
                ElementRef.object_path source <> raw_object_path raw) EventSource
    end) (source self).

Section Validate.
Context (encoded : t -> option N).

(** [AccessibilityEvent::validate]. *)
Definition validate (self : t) : result unit Error :=
  try! validate_desktop_scope (desktop_id self) (desktop_generation self) in
  try! ensure (cache_sequence self = 0) CacheSequence in
  try! validate_source self in
  try! ensure (raw_source self = None /\
               (source self <> None \/ kind self <> AccessibilityEventKind.ResyncRequired)) EventSource in
  try! ensure (bool_decide (kind self = AccessibilityEventKind.ResyncRequired) <>
               bool_decide (resync_reason self <> None)) EventSource in
  try! ensure (source_stale self <> bool_decide (source self = None /\ raw_source self <> None)) EventSource in
  try! optionally TextEventDetail.validate (EventDetail.text (detail self)) in
  try! validate_optional_bounded (EventDetail.property (detail self)) true in
  try! ensure (option_exists (fun value => negb (F64.is_finite value)) (EventDetail.value (detail self)) = true)
         NumericRange in
  try! ensure (option_exists (fun bounds => negb (is_ok (Rect.validate bounds))) (EventDetail.bounds (detail self)) = true)
         Geometry in
  try! optionally (validate_reference self) (EventDetail.child (detail self)) in
  validate_aggregate_encoding (encoded self) MAX_ACCESSIBILITY_ELEMENT_ENCODED_BYTES.
End Validate.
End AccessibilityEvent.

Section Results.
Context (encoded : ElementSnapshot.t -> option N).
Context (page_encoded : ElementListPage.t -> option N) (wait_encoded : ElementWaitResult.t -> option N).

(** [ElementSnapshotEntry::validate]. *)
Definition validate_element_entry (entry : ElementSnapshotEntry) : result unit Error :=
  ElementSnapshot.validate encoded (snapshot entry).

(** The loop over the entries of a page and of a wait result: each in the scope and the
    generation, not newer than the revision, and not seen before. *)
Fixpoint validate_element_entries (desktop : DesktopId) (generation : DesktopGeneration)
    (atspi : AtspiGeneration.t) (revision : AccessibilityRevision.t) (seen : list ElementRef.t)
    (entries : list ElementSnapshotEntry) : result unit Error :=
  match entries with
  | [] => Ok tt
  | entry :: entries =>
      let element := ElementSnapshot.element (snapshot entry) in
      try! validate_element_entry entry in
      try! validate_element_scope desktop generation element in
      try! ensure (ElementRef.atspi_generation element <> atspi \/
                   AccessibilityRevision.get revision <
                     AccessibilityRevision.get (ElementSnapshot.revision (snapshot entry)) \/
                   element ∈ seen) ResultShape in
      validate_element_entries desktop generation atspi revision (element :: seen) entries
  end.

(** [ElementListPage::validate]. *)
Definition validate_list_page (self : ElementListPage.t) : result unit Error :=
  let 'ElementListPage.mk desktop generation atspi revision _ elements _ visited _ warnings := self in
  try! validate_desktop_scope desktop generation in
  try! validate_collection (len elements) MAX_ACCESSIBILITY_PAGE_LIMIT in
  try! validate_collection (len warnings) MAX_ACCESSIBILITY_WARNINGS in
  try! ensure (MAX_ACCESSIBILITY_QUERY_VISITED_NODES < visited) AccessibilityValidationError.QueryLimits in
  try! validate_warnings warnings in
  try! validate_element_entries desktop generation atspi revision [] elements in
  validate_aggregate_encoding (page_encoded self) MAX_ACCESSIBILITY_SNAPSHOT_BYTES.

(** [ElementSnapshotResult::validate]. *)
Definition validate_snapshot_result (self : ElementSnapshotResult) : result unit Error :=
  try! validate_element_entry (result_element self) in
  ensure (AccessibilityRevision.get (result_revision self) <
          AccessibilityRevision.get (ElementSnapshot.revision (snapshot (result_element self))))
    ResultShape.

(** [ElementResolveResult::validate]. *)
Definition validate_resolve_result (self : ElementResolveResult.t) : result unit Error :=
  let 'ElementResolveResult.mk desktop generation atspi revision entry := self in
  let element := ElementSnapshot.element (snapshot entry) in
  try! validate_desktop_scope desktop generation in
  try! validate_element_entry entry in
  try! validate_element_scope desktop generation element in
  ensure (ElementRef.atspi_generation element <> atspi \/
          ElementSnapshot.revision (snapshot entry) <> revision) ResultShape.

(** [ElementWaitResult::validate]; the number of elements is below 2^32. *)
Definition validate_wait_result (self : ElementWaitResult.t) : result unit Error :=
  let 'ElementWaitResult.mk desktop generation atspi status revision satisfied count elements _ _ warnings :=
    self in
  try! validate_desktop_scope desktop generation in
  try! validate_collection (len elements) MAX_ACCESSIBILITY_PAGE_LIMIT in
  try! validate_collection (len warnings) MAX_ACCESSIBILITY_WARNINGS in
  try! validate_warnings warnings in
  let status_matches :=
    match status with Matched => satisfied | TimedOut | WaitResyncRequired => negb satisfied end in
  try! ensure (status_matches = false \/ count < len elements) ResultShape in
  try! validate_element_entries desktop generation atspi revision [] elements in
  validate_aggregate_encoding (wait_encoded self) MAX_ACCESSIBILITY_SNAPSHOT_BYTES.
End Results.
