(* ===== verification/Accessibility.v ===== *)
(** * The accessibility cache

    Models [AccessibilityCache] of [xenoteer-core/src/accessibility.rs]: the live elements
    of one desktop and AT-SPI connection, keyed by application and object path, the
    registered applications, the tombstones of removed births, and the barriers that
    invalidate every reference.  The immutable views are in [AccessibilityViews]. *)

From stdpp Require Import base numbers list option gmap strings sorting.
From Stdlib Require Import Lia.
From S2P Require Import Prelude Identity WindowTypes AccessibilityTypes.

Local Open Scope N_scope.

Definition DEFAULT_MAX_LIVE_ACCESSIBILITY_NODES : N := 100000.
Definition DEFAULT_MAX_ACCESSIBILITY_TOMBSTONES : N := 100000.

(** [AccessibilityResyncReason] of the core. *)
Inductive AccessibilityResyncReason :=
  | EventGap | LiveCapacity | ApplicationCapacity | BusReset | MalformedGraph.

(** [AccessibilityResyncBarrier]. *)
Record AccessibilityResyncBarrier := mkBarrier {
  barrier_generation : AtspiGeneration.t;
  barrier_revision : AccessibilityRevision.t;
  barrier_reason : AccessibilityResyncReason;
}.

(** [AccessibilityModelError]. *)
Module AccessibilityModelError.
Inductive t :=
  | InvalidLimits | NilIdentifier
  | InvalidApplication (e : AccessibilityValidationError.t)
  | InvalidSnapshot (e : AccessibilityValidationError.t)
  | InvalidReference (e : AccessibilityValidationError.t)
  | StaleGeneration | ApplicationNotFound | StaleApplication | UnexpectedCacheSequence
  | StaleReference | NotFound | AlreadyRemoved | GenerationExhausted | SequenceExhausted
  | RevisionExhausted
  | ResyncRequired (barrier : AccessibilityResyncBarrier).
End AccessibilityModelError.
Import AccessibilityModelError.
#[local] Abbreviation ModelError := AccessibilityModelError.t.

(** [AccessibilityModelLimits]. *)
Module AccessibilityModelLimits.
Record t := mk { max_live_nodes : N; max_tombstones : N }.

(** [Default::default]. *)
Definition default : t :=
  mk DEFAULT_MAX_LIVE_ACCESSIBILITY_NODES DEFAULT_MAX_ACCESSIBILITY_TOMBSTONES.

(** [AccessibilityModelLimits::validate]. *)
Definition validate (self : t) : result t ModelError :=
  try! ensure (max_live_nodes self = 0 \/ max_tombstones self = 0) InvalidLimits in Ok self.
End AccessibilityModelLimits.

(** [AccessibilityTombstone]. *)
Record AccessibilityTombstone := mkElementTombstone {
  tombstone_element : ElementRef.t;
  removed_revision : AccessibilityRevision.t;
}.

(** ** Keys *)

(** [ApplicationKey], with its derived [Ord]. *)
Module ApplicationKey.
Record t := mk { bus : AtspiBusName; root : AtspiObjectPath }.

#[export] Instance application_key_eq_dec : EqDecision t.
Proof. solve_decision. Defined.
#[export] Instance application_key_countable : Countable t :=
  inj_countable' (fun '(mk a b) => (a, b)) (fun '(a, b) => mk a b) (fun '(mk _ _) => eq_refl).

Definition cmp (a b : t) : comparison :=
  then_with (String.compare (bus_str (bus a)) (bus_str (bus b)))
    (String.compare (path_str (root a)) (path_str (root b))).
End ApplicationKey.
Export (hints) ApplicationKey.

(** [ObjectKey], with its derived [Ord]. *)
Module ObjectKey.
Record t := mk { application : ApplicationKey.t; path : AtspiObjectPath }.

#[export] Instance object_key_eq_dec : EqDecision t.
Proof. solve_decision. Defined.
#[export] Instance object_key_countable : Countable t :=
  inj_countable' (fun '(mk a b) => (a, b)) (fun '(a, b) => mk a b) (fun '(mk _ _) => eq_refl).

Definition cmp (a b : t) : comparison :=
  then_with (ApplicationKey.cmp (application a) (application b))
    (String.compare (path_str (path a)) (path_str (path b))).
End ObjectKey.
Export (hints) ObjectKey.

(** [application_key], [object_key]. *)
Definition application_key (application : ApplicationRef.t) : ApplicationKey.t :=
  ApplicationKey.mk (ApplicationRef.unique_bus_name application)
    (ApplicationRef.root_object_path application).

Definition object_key (element : ElementRef.t) : ObjectKey.t :=
  ObjectKey.mk (application_key (ElementRef.application element)) (ElementRef.object_path element).

(** ** Protected elements *)

(** [snapshot_declares_protected]: the conditions of [ElementSnapshot::is_protected]. *)
Definition snapshot_declares_protected (snapshot : ElementSnapshot.t) : bool :=
  bool_decide (role (ElementSnapshot.role snapshot) = ElementRole.PasswordText) ||
  bool_decide (ElementState.Protected ∈ ElementSnapshot.states snapshot) ||
  option_exists TextSnapshot.protected (ElementSnapshot.text snapshot).

Arguments snapshot_declares_protected : simpl never.

(** [push_warning]. *)
Definition push_warning (code message : string) (warnings : list AccessibilityWarning) :
    list AccessibilityWarning :=
  if decide (code ∈ map warning_code warnings) then warnings
  else if decide (len warnings < MAX_ACCESSIBILITY_WARNINGS)
  then warnings ++ [mkWarning code message] else warnings.

Definition PROTECTED_REDACTED : string := "accessibility.protected_redacted".

(** [redact_protected]. *)
Definition redact_text (text : TextSnapshot.t) : TextSnapshot.t :=
  TextSnapshot.mk (TextSnapshot.character_count text) (TextSnapshot.caret_offset text)
    (TextSnapshot.selections text) None (TextSnapshot.content_truncated text) true.

Definition redact_protected (protected : bool) (snapshot : ElementSnapshot.t) : ElementSnapshot.t :=
  if protected then
    let snapshot := ElementSnapshot.set_text (redact_text <$> ElementSnapshot.text snapshot) snapshot in
    let snapshot := ElementSnapshot.set_value None snapshot in
    let snapshot := ElementSnapshot.set_attributes [] snapshot in
    let snapshot := ElementSnapshot.set_completeness Dirty snapshot in
    ElementSnapshot.set_warnings
      (push_warning PROTECTED_REDACTED
         "protected text, value metadata, and attributes were removed"
         (ElementSnapshot.warnings snapshot)) snapshot
  else snapshot.
Arguments redact_protected : simpl never.
Arguments push_warning : simpl never.

(** ** The cache *)
Module AccessibilityCache.
Record t := mk {
  desktop_id : DesktopId;
  desktop_generation : DesktopGeneration;
  atspi_generation : AtspiGeneration.t;
  revision : AccessibilityRevision.t;
  limits : AccessibilityModelLimits.t;
  applications : gmap ApplicationKey.t ApplicationRef.t;
  last_application_generation : gmap ApplicationKey.t N;
  nodes : gmap ObjectKey.t ElementSnapshot.t;
  protected_births : gset ObjectKey.t;
  tombstones : list AccessibilityTombstone;
  last_cache_sequence : N;
}.

Definition set_atspi_generation v (s : t) : t :=
  mk (desktop_id s) (desktop_generation s) v (revision s) (limits s) (applications s)
    (last_application_generation s) (nodes s) (protected_births s) (tombstones s) (last_cache_sequence s).
Definition set_revision v (s : t) : t :=
  mk (desktop_id s) (desktop_generation s) (atspi_generation s) v (limits s) (applications s)
    (last_application_generation s) (nodes s) (protected_births s) (tombstones s) (last_cache_sequence s).
Definition set_applications v (s : t) : t :=
  mk (desktop_id s) (desktop_generation s) (atspi_generation s) (revision s) (limits s) v
    (last_application_generation s) (nodes s) (protected_births s) (tombstones s) (last_cache_sequence s).
Definition set_last_application_generation v (s : t) : t :=
  mk (desktop_id s) (desktop_generation s) (atspi_generation s) (revision s) (limits s)
    (applications s) v (nodes s) (protected_births s) (tombstones s) (last_cache_sequence s).
Definition set_nodes v (s : t) : t :=
  mk (desktop_id s) (desktop_generation s) (atspi_generation s) (revision s) (limits s)
    (applications s) (last_application_generation s) v (protected_births s) (tombstones s)
    (last_cache_sequence s).
Definition set_protected_births v (s : t) : t :=
  mk (desktop_id s) (desktop_generation s) (atspi_generation s) (revision s) (limits s)
    (applications s) (last_application_generation s) (nodes s) v (tombstones s) (last_cache_sequence s).
Definition set_tombstones v (s : t) : t :=
  mk (desktop_id s) (desktop_generation s) (atspi_generation s) (revision s) (limits s)
    (applications s) (last_application_generation s) (nodes s) (protected_births s) v
    (last_cache_sequence s).
Definition set_last_cache_sequence v (s : t) : t :=
  mk (desktop_id s) (desktop_generation s) (atspi_generation s) (revision s) (limits s)
    (applications s) (last_application_generation s) (nodes s) (protected_births s) (tombstones s) v.

(** [AccessibilityCache::new]. *)
Definition new (desktop : DesktopId) (generation : DesktopGeneration) (atspi : AtspiGeneration.t)
    (limits : AccessibilityModelLimits.t) : result t ModelError :=
  try! ensure (nil_scope desktop generation = true) NilIdentifier in
  let? revision := map_err InvalidSnapshot (AccessibilityRevision.new 1) in
  let? limits := AccessibilityModelLimits.validate limits in
  Ok (mk desktop generation atspi revision limits ∅ ∅ ∅ ∅ [] 0).

(** [AccessibilityCache::counts]: the live nodes and the tombstones. *)
Definition counts (self : t) : N * N := (N.of_nat (size (nodes self)), len (tombstones self)).

(** [revision_after], [next_revision]. *)
Definition revision_after (steps : N) (self : t) : result AccessibilityRevision.t ModelError :=
  let? value := ok_or (checked_add_u64 (AccessibilityRevision.get (revision self)) steps)
                  RevisionExhausted in
  map_err InvalidSnapshot (AccessibilityRevision.new value).

Definition next_revision (self : t) : result AccessibilityRevision.t ModelError :=
  revision_after 1 self.

(** [require_application], [require_element_scope]. *)
Definition require_application (application : ApplicationRef.t) (self : t) : result unit ModelError :=
  try! map_err InvalidApplication (ApplicationRef.validate application) in
  try! ensure (ApplicationRef.desktop_id application <> desktop_id self \/
               ApplicationRef.desktop_generation application <> desktop_generation self \/
               ApplicationRef.atspi_generation application <> atspi_generation self)
         StaleGeneration in
  match applications self !! application_key application with
  | Some current => if decide (current = application) then Ok tt else Err StaleApplication
  | None => Err ApplicationNotFound
  end.

Definition require_element_scope (element : ElementRef.t) (self : t) : result unit ModelError :=
  try! map_err InvalidReference (ElementRef.validate element) in
  try! ensure (ElementRef.desktop_id element <> desktop_id self \/
               ElementRef.desktop_generation element <> desktop_generation self \/
               ElementRef.atspi_generation element <> atspi_generation self) StaleGeneration in
  require_application (ElementRef.application element) self.

(** The loop that bounds the tombstones. *)
Fixpoint trim (maximum : N) (tombstones : list AccessibilityTombstone) : list AccessibilityTombstone :=
  match tombstones with
  | [] => []
  | _ :: rest => if decide (maximum < len tombstones) then trim maximum rest else tombstones
  end.

(** [push_tombstone]. *)
Definition push_tombstone (element : ElementRef.t) (removed : AccessibilityRevision.t) (self : t) : t :=
  set_tombstones (trim (AccessibilityModelLimits.max_tombstones (limits self))
    (tombstones self ++ [mkElementTombstone element removed])) self.

(** [force_resync]. *)
Definition force_resync (reason : AccessibilityResyncReason) :
    M t ModelError AccessibilityResyncBarrier :=
  self <- get ;;
  next <- lift (ok_or (checked_add_u64 (AtspiGeneration.get (atspi_generation self)) 1)
                  GenerationExhausted) ;;
  generation <- lift (map_err InvalidSnapshot (AtspiGeneration.new next)) ;;
  revision <- lift (next_revision self) ;;
  modify (set_atspi_generation generation) ;;;
  modify (set_nodes ∅) ;;;
  modify (set_protected_births ∅) ;;;
  modify (set_applications ∅) ;;;
  modify (set_last_application_generation ∅) ;;;
  modify (set_tombstones []) ;;;
  modify (set_last_cache_sequence 0) ;;;
  modify (set_revision revision) ;;;
  ret (mkBarrier generation revision reason).

(** [event_gap], [reset_bus], [malformed_graph]. *)
Definition event_gap := force_resync EventGap.
Definition reset_bus := force_resync BusReset.
Definition malformed_graph := force_resync MalformedGraph.

(** [application_elements]: in the order of the keys. *)
Definition application_elements (key : ApplicationKey.t) (self : t) : list ElementRef.t :=
  map (fun entry : ObjectKey.t * ElementSnapshot.t => ElementSnapshot.element entry.2)
    (filter (fun entry : ObjectKey.t * ElementSnapshot.t => ObjectKey.application entry.1 = key)
       (btree_iter ObjectKey.cmp (nodes self))).

(** [remove_application_nodes_at]. *)
Definition remove_node (revision : AccessibilityRevision.t) (self : t) (element : ElementRef.t) : t :=
  let key := object_key element in
  push_tombstone element revision
    (set_protected_births (protected_births self ∖ {[key]}) (set_nodes (delete key (nodes self)) self)).

Definition remove_application_nodes_at (removed : list ElementRef.t)
    (revision : AccessibilityRevision.t) (self : t) : t :=
  fold_left (remove_node revision) removed self.

(** The two revisions of an application that leaves: of the removal of its elements, if it
    has any, and of the whole change. *)
Definition removal_revisions (removed : list ElementRef.t) (self : t) :
    result (option AccessibilityRevision.t * AccessibilityRevision.t) ModelError :=
  let? removal :=
    if decide (removed = []) then Ok None
    else let? revision := revision_after 1 self in Ok (Some revision) in
  let? final := revision_after (if decide (removed = []) then 1 else 2) self in
  Ok (removal, final).

Definition remove_at (removed : list ElementRef.t) (revision : option AccessibilityRevision.t)
    (self : t) : t :=
  match revision with
  | Some revision => remove_application_nodes_at removed revision self
  | None => self
  end.

(** The registered instance, when it has the given identity. *)
Definition same_instance (key : ApplicationKey.t) (hash : AccessibilityIdentityHash) (self : t) :
    option ApplicationRef.t :=
  match applications self !! key with
  | Some existing =>
      if decide (ApplicationRef.identity_hash existing = hash) then Some existing else None
  | None => None
  end.

(** [replace_application]. *)
Definition replace_application (bus : AtspiBusName) (root : AtspiObjectPath)
    (hash : AccessibilityIdentityHash) (force_restart : bool) : M t ModelError ApplicationRef.t :=
  let key := ApplicationKey.mk bus root in
  self <- get ;;
  match if force_restart then None else same_instance key hash self with
  | Some existing => ret existing
  | None =>
      (if decide (last_application_generation self !! key = None /\
                  AccessibilityModelLimits.max_live_nodes (limits self) <=
                    N.of_nat (size (last_application_generation self)))
       then barrier <- force_resync ApplicationCapacity ;; fail (ResyncRequired barrier)
       else ret tt) ;;;
      generation <- lift (ok_or (checked_add_u64
                            (default 0 (last_application_generation self !! key)) 1)
                            GenerationExhausted) ;;
      let application := ApplicationRef.mk (desktop_id self) (desktop_generation self)
                           (atspi_generation self) bus root generation hash in
      lift (map_err InvalidApplication (ApplicationRef.validate application)) ;;;
      let removed := application_elements key self in
      revisions <- lift (removal_revisions removed self) ;;
      modify (remove_at removed (fst revisions)) ;;;
      modify (fun self => set_last_application_generation
        (<[key := generation]> (last_application_generation self)) self) ;;;
      modify (fun self => set_applications (<[key := application]> (applications self)) self) ;;;
      modify (set_revision (snd revisions)) ;;;
      ret application
  end.

(** [register_application], [restart_application]. *)
Definition register_application bus root hash := replace_application bus root hash false.
Definition restart_application bus root hash := replace_application bus root hash true.

(** [remove_application]. *)
Definition remove_application (application : ApplicationRef.t) : M t ModelError unit :=
  self <- get ;;
  lift (require_application application self) ;;;
  let key := application_key application in
  let removed := application_elements key self in
  revisions <- lift (removal_revisions removed self) ;;
  modify (remove_at removed (fst revisions)) ;;;
  modify (fun self => set_applications (delete key (applications self)) self) ;;;
  modify (set_revision (snd revisions)).

(** [next_element_ref]. *)
Definition next_element_ref (application : ApplicationRef.t) (path : AtspiObjectPath)
    (hash : AccessibilityIdentityHash) (self : t) : result ElementRef.t ModelError :=
  try! require_application application self in
  let? sequence := ok_or (checked_add_u64 (last_cache_sequence self) 1) SequenceExhausted in
  Ok (ElementRef.mk (desktop_id self) (desktop_generation self) (atspi_generation self) application
        path hash sequence).

(** [remove]. *)
Definition remove (element : ElementRef.t) : M t ModelError AccessibilityTombstone :=
  self <- get ;;
  lift (require_element_scope element self) ;;;
  let key := object_key element in
  match nodes self !! key with
  | None => fail (if decide (element ∈ map tombstone_element (tombstones self))
                  then AlreadyRemoved else NotFound)
  | Some current =>
      reject_if (ElementSnapshot.element current <> element) StaleReference ;;;
      revision <- lift (next_revision self) ;;
      modify (fun self => set_nodes (delete key (nodes self)) self) ;;;
      modify (fun self => set_protected_births (protected_births self ∖ {[key]}) self) ;;;
      modify (set_revision revision) ;;;
      modify (push_tombstone (ElementSnapshot.element current) revision) ;;;
      ret (mkElementTombstone (ElementSnapshot.element current) revision)
  end.

(** [resolve_exact]. *)
Definition resolve_exact (element : ElementRef.t) (self : t) :
    result ElementSnapshot.t ModelError :=
  try! require_element_scope element self in
  match nodes self !! object_key element with
  | Some snapshot =>
      if decide (ElementSnapshot.element snapshot = element) then Ok snapshot else Err StaleReference
  | None =>
      if decide (element ∈ map tombstone_element (tombstones self))
      then Err StaleReference else Err NotFound
  end.

Section Observe.
Context (encoded : ElementSnapshot.t -> option N).

(** The birth of an element: its sequence number, and room for it. *)
Definition admit_birth (snapshot : ElementSnapshot.t) (self : t) : M t ModelError unit :=
  let element := ElementSnapshot.element snapshot in
  next <- lift (ok_or (checked_add_u64 (last_cache_sequence self) 1) SequenceExhausted) ;;
  reject_if (ElementRef.cache_sequence element <> next) UnexpectedCacheSequence ;;;
  if decide (AccessibilityModelLimits.max_live_nodes (limits self) <= N.of_nat (size (nodes self)) /\
             nodes self !! object_key element = None)
  then barrier <- force_resync LiveCapacity ;; fail (ResyncRequired barrier)
  else ret tt.

(** What a birth replaces: the element at its key, if any. *)
Definition replace_birth (snapshot : ElementSnapshot.t) (revision : AccessibilityRevision.t)
    (self : t) : t :=
  let key := object_key (ElementSnapshot.element snapshot) in
  let self :=
    match nodes self !! key with
    | Some replaced =>
        push_tombstone (ElementSnapshot.element replaced) revision
          (set_nodes (delete key (nodes self)) self)
    | None => self
    end in
  let self := set_protected_births (protected_births self ∖ {[key]}) self in
  set_last_cache_sequence (ElementRef.cache_sequence (ElementSnapshot.element snapshot)) self.

(** [observe]. *)
Definition is_refresh (snapshot : ElementSnapshot.t) (self : t) : bool :=
  option_exists (fun current => bool_decide (ElementSnapshot.element current = ElementSnapshot.element snapshot))
    (nodes self !! object_key (ElementSnapshot.element snapshot)).

Definition observe (snapshot : ElementSnapshot.t) : M t ModelError AccessibilityRevision.t :=
  self <- get ;;
  lift (require_application (ElementRef.application (ElementSnapshot.element snapshot)) self) ;;;
  lift (require_element_scope (ElementSnapshot.element snapshot) self) ;;;
  let key := object_key (ElementSnapshot.element snapshot) in
  let refresh := is_refresh snapshot self in
  let protected := snapshot_declares_protected snapshot ||
                   (refresh && bool_decide (key ∈ protected_births self)) in
  let snapshot := redact_protected protected snapshot in
  lift (map_err InvalidSnapshot (ElementSnapshot.validate encoded snapshot)) ;;;
  (if refresh then ret tt else admit_birth snapshot self) ;;;
  revision <- lift (next_revision self) ;;
  (if refresh then ret tt else modify (replace_birth snapshot revision)) ;;;
  modify (fun self => set_nodes
    (<[key := ElementSnapshot.set_revision revision snapshot]> (nodes self)) self) ;;;
  (if protected
   then modify (fun self => set_protected_births (protected_births self ∪ {[key]}) self)
   else ret tt) ;;;
  modify (set_revision revision) ;;;
  ret revision.
End Observe.
End AccessibilityCache.
