(* ===== verification/AccessibilityIdentity.v ===== *)
(** * The accessibility cache: its invariant and the fencing of references

    Every operation of the cache does one of a few things to its state ([effect]); the
    invariant and the properties of references follow by cases on it: a reference that
    stopped resolving never resolves again, protected elements stay redacted, and the
    revision identifies the observable state. *)

From stdpp Require Import base numbers list option gmap strings sorting.
From Stdlib Require Import Lia.
From S2P Require Import Prelude Identity WindowTypes AccessibilityTypes Accessibility.

Local Open Scope N_scope.

Import AccessibilityCache.

Module CacheTrace.
Section Trace.
Context (encoded : ElementSnapshot.t -> option N).

(** The operations of the actor that owns the cache. *)
Inductive op :=
  | Register (bus : AtspiBusName) (root : AtspiObjectPath) (hash : AccessibilityIdentityHash)
  | Restart (bus : AtspiBusName) (root : AtspiObjectPath) (hash : AccessibilityIdentityHash)
  | RemoveApplication (application : ApplicationRef.t)
  | Observe (snapshot : ElementSnapshot.t)
  | Remove (element : ElementRef.t)
  | Gap | Reset | Malformed.

Definition apply (o : op) (s : t) : t :=
  match o with
  | Register bus root hash => ignore (register_application bus root hash) s
  | Restart bus root hash => ignore (restart_application bus root hash) s
  | RemoveApplication application => ignore (remove_application application) s
  | Observe snapshot => ignore (observe encoded snapshot) s
  | Remove element => ignore (remove element) s
  | Gap => ignore event_gap s
  | Reset => ignore reset_bus s
  | Malformed => ignore malformed_graph s
  end.

Definition step (s s' : t) : Prop := exists o, s' = apply o s.

Definition started (s : t) : Prop :=
  exists desktop generation atspi limits, new desktop generation atspi limits = Ok s.

Definition reachable (s : t) : Prop := exists s0, started s0 /\ steps step s0 s.
End Trace.
End CacheTrace.

(** ** What an operation does *)
Module CacheEffects.

(** The state after a barrier. *)
Definition resynced (generation revision : N) (s : t) : t :=
  mk (desktop_id s) (desktop_generation s) (AtspiGeneration.mk generation)
    (AccessibilityRevision.mk revision) (limits s) ∅ ∅ ∅ ∅ [] 0.

Definition revision_of (s : t) : N := AccessibilityRevision.get (revision s).
Definition generation_of (s : t) : N := AtspiGeneration.get (atspi_generation s).

(** The elements that leave with an application, and the state without them. *)
Definition departed (key : ApplicationKey.t) (s : t) : t :=
  remove_application_nodes_at (application_elements key s)
    (AccessibilityRevision.mk (revision_of s + 1)) s.

Definition change_revision (key : ApplicationKey.t) (s : t) : N :=
  revision_of s + (if decide (application_elements key s = []) then 1 else 2).

(** The application is valid in the scope of the cache, and registered. *)
Definition owns (s : t) (application : ApplicationRef.t) : Prop :=
  applications s !! application_key application = Some application.

Definition in_scope (s : t) (element : ElementRef.t) : Prop :=
  ElementRef.validate element = Ok tt /\
  ElementRef.desktop_id element = desktop_id s /\
  ElementRef.desktop_generation element = desktop_generation s /\
  ElementRef.atspi_generation element = atspi_generation s /\
  owns s (ElementRef.application element).

Definition is_live (s : t) (element : ElementRef.t) : Prop :=
  exists snapshot, nodes s !! object_key element = Some snapshot /\
    ElementSnapshot.element snapshot = element.

(** The state after an observation, given what is stored. *)
Definition stored (snapshot : ElementSnapshot.t) (protected : bool) (s : t) : t :=
  let key := object_key (ElementSnapshot.element snapshot) in
  let s := set_nodes (<[key := snapshot]> (nodes s)) s in
  let s := if protected then set_protected_births (protected_births s ∪ {[key]}) s else s in
  set_revision (ElementSnapshot.revision snapshot) s.

Section Effects.
Context (encoded : ElementSnapshot.t -> option N).

(** What is stored of an observation. *)
Definition redacted (snapshot : ElementSnapshot.t) (protected : bool) (revision : N) : ElementSnapshot.t :=
  ElementSnapshot.set_revision (AccessibilityRevision.mk revision) (redact_protected protected snapshot).

Inductive effect (s : t) : t -> Prop :=
  | Unchanged : effect s s
  | Resynced :
      generation_of s + 1 <= u64_max -> revision_of s + 1 <= u64_max ->
      effect s (resynced (generation_of s + 1) (revision_of s + 1) s)
  | Registered bus root hash generation :
      let key := ApplicationKey.mk bus root in
      let application := ApplicationRef.mk (desktop_id s) (desktop_generation s) (atspi_generation s)
                           bus root generation hash in
      generation = default 0 (last_application_generation s !! key) + 1 -> generation <= u64_max ->
      (last_application_generation s !! key = None ->
       N.of_nat (size (last_application_generation s)) < AccessibilityModelLimits.max_live_nodes (limits s)) ->
      change_revision key s <= u64_max ->
      effect s (set_revision (AccessibilityRevision.mk (change_revision key s))
        (set_applications (<[key := application]> (applications s))
          (set_last_application_generation (<[key := generation]> (last_application_generation s))
            (departed key s))))
  | Unregistered application :
      let key := application_key application in
      owns s application -> change_revision key s <= u64_max ->
      effect s (set_revision (AccessibilityRevision.mk (change_revision key s))
        (set_applications (delete key (applications s)) (departed key s)))
  | Refreshed snapshot :
      let protected := snapshot_declares_protected snapshot ||
        bool_decide (object_key (ElementSnapshot.element snapshot) ∈ protected_births s) in
      in_scope s (ElementSnapshot.element snapshot) -> is_live s (ElementSnapshot.element snapshot) ->
      ElementSnapshot.validate encoded (redact_protected protected snapshot) = Ok tt ->
      revision_of s + 1 <= u64_max ->
      effect s (stored (redacted snapshot protected (revision_of s + 1)) protected s)
  | Born snapshot :
      let element := ElementSnapshot.element snapshot in
      let protected := snapshot_declares_protected snapshot in
      in_scope s element -> ~ is_live s element ->
      ElementSnapshot.validate encoded (redact_protected protected snapshot) = Ok tt ->
      ElementRef.cache_sequence element = last_cache_sequence s + 1 ->
      last_cache_sequence s + 1 <= u64_max ->
      (nodes s !! object_key element = None ->
       N.of_nat (size (nodes s)) < AccessibilityModelLimits.max_live_nodes (limits s)) ->
      revision_of s + 1 <= u64_max ->
      effect s (stored (redacted snapshot protected (revision_of s + 1)) protected
                 (replace_birth snapshot (AccessibilityRevision.mk (revision_of s + 1)) s))
  | Removed element :
      in_scope s element -> is_live s element -> revision_of s + 1 <= u64_max ->
      effect s (set_revision (AccessibilityRevision.mk (revision_of s + 1))
                 (remove_node (AccessibilityRevision.mk (revision_of s + 1)) s element)).
End Effects.
End CacheEffects.

Module CacheEffectsFacts.
Import CacheTrace CacheEffects.

Lemma revision_after_cases n s : n <> 0 ->
  (revision_after n s = Ok (AccessibilityRevision.mk (revision_of s + n)) /\ revision_of s + n <= u64_max) \/
  exists e, revision_after n s = Err e.
Proof.
  intros Hn. unfold revision_after, revision_of. destruct (checked_add_u64 _ n) as [v |] eqn:Hv; simpl; [| eauto].
  apply checked_add_u64_Some in Hv as [-> Hle]. left.
  unfold AccessibilityRevision.new. rewrite ensure_pass by lia. done.
Qed.

Lemma force_resync_cases reason s :
  (exists e, force_resync reason s = (s, Err e)) \/
  (generation_of s + 1 <= u64_max /\ revision_of s + 1 <= u64_max /\
   exists barrier, force_resync reason s =
     (resynced (generation_of s + 1) (revision_of s + 1) s, Ok barrier)).
Proof.
  unfold force_resync. simpl. fold (generation_of s).
  destruct (checked_add_u64 (generation_of s) 1) as [v |] eqn:Hv; simpl; [| eauto].
  apply checked_add_u64_Some in Hv as [-> Hle].
  unfold AtspiGeneration.new. rewrite ensure_pass by lia. simpl. unfold next_revision.
  destruct (revision_after_cases 1 s) as [[-> Hr] | [e ->]]; [done | | simpl; eauto].
  simpl. right. split_and!; eauto.
Qed.

Lemma removal_revisions_cases key s :
  (exists r, removal_revisions (application_elements key s) s =
     Ok (r, AccessibilityRevision.mk (change_revision key s)) /\
     remove_at (application_elements key s) r s = departed key s /\
     change_revision key s <= u64_max) \/
  exists e, removal_revisions (application_elements key s) s = Err e.
Proof.
  unfold removal_revisions, change_revision, departed.
  destruct (application_elements key s) as [| x l]; simpl.
  - destruct (revision_after_cases 1 s) as [[-> Hr] | [e ->]]; [done | | simpl; eauto].
    simpl. left. eauto.
  - destruct (revision_after_cases 1 s) as [[-> Hr] | [e ->]]; [done | | simpl; eauto].
    destruct (revision_after_cases 2 s) as [[-> Hr'] | [e ->]]; [done | | simpl; eauto].
    simpl. left. eauto.
Qed.

Lemma require_application_Ok application s u :
  require_application application s = Ok u <->
  ApplicationRef.validate application = Ok tt /\
  ApplicationRef.desktop_id application = desktop_id s /\
  ApplicationRef.desktop_generation application = desktop_generation s /\
  ApplicationRef.atspi_generation application = atspi_generation s /\ owns s application.
Proof.
  unfold require_application, owns. destruct u. rewrite and_then_Ok. split.
  - intros ([] & Hv & H). destruct (ApplicationRef.validate application) as [[] |] eqn:Hval; [| done].
    apply and_then_Ok in H as ([] & Hs%ensure_Ok & H).
    destruct (applications s !! _) as [current |]; [| done]. case_decide; [subst | done].
    split_and!; try done; apply dec_stable; tauto.
  - intros (-> & Hd & Hg & Ha & Ho). exists tt. split; [done |]. rewrite ensure_pass by naive_solver.
    simpl. rewrite Ho. by rewrite decide_True.
Qed.

Lemma require_element_Ok element s u :
  require_element_scope element s = Ok u <-> in_scope s element.
Proof.
  unfold require_element_scope, in_scope. destruct u. rewrite and_then_Ok. split.
  - intros ([] & Hv & H). destruct (ElementRef.validate element) as [[] |] eqn:Hval; [| done].
    apply and_then_Ok in H as ([] & Hs%ensure_Ok & H). apply require_application_Ok in H as (_ & _ & _ & _ & Ho).
    split_and!; try done; apply dec_stable; tauto.
  - intros (Hval & Hd & Hg & Ha & Ho). rewrite Hval. exists tt. split; [done |]. simpl.
    rewrite ensure_pass by naive_solver. simpl. apply require_application_Ok.
    unfold ElementRef.validate in Hval. apply and_then_Ok in Hval as (_ & _ & Hval).
    apply and_then_Ok in Hval as ([] & Happ & Hval). apply and_then_Ok in Hval as (_ & _ & Hval).
    apply ensure_Ok in Hval. split_and!; try done; rewrite <- ?Hd, <- ?Hg, <- ?Ha; symmetry;
      apply dec_stable; tauto.
Qed.

Lemma is_refresh_spec snapshot s :
  is_refresh snapshot s = true <-> is_live s (ElementSnapshot.element snapshot).
Proof.
  unfold is_refresh, is_live. destruct (nodes s !! _) as [current |]; simpl.
  - rewrite bool_decide_eq_true. split; [eauto |]. by intros (? & [= <-] & ?).
  - split; [done |]. by intros (? & ? & _).
Qed.

Lemma redact_element protected snapshot :
  ElementSnapshot.element (redact_protected protected snapshot) = ElementSnapshot.element snapshot.
Proof. by destruct protected. Qed.

(** What leaves with an application, and what stays. *)
Lemma remove_nodes_frame removed r s :
  let s' := remove_application_nodes_at removed r s in
  desktop_id s' = desktop_id s /\ desktop_generation s' = desktop_generation s /\
  atspi_generation s' = atspi_generation s /\ revision s' = revision s /\ limits s' = limits s /\
  applications s' = applications s /\ last_application_generation s' = last_application_generation s /\
  last_cache_sequence s' = last_cache_sequence s.
Proof.
  revert s. induction removed as [| x l IH]; intros s; simpl; [done |].
  destruct (IH (remove_node r s x)) as (-> & -> & -> & -> & -> & -> & -> & ->). done.
Qed.

Lemma departed_applications key s : applications (departed key s) = applications s.
Proof. apply remove_nodes_frame. Qed.
Lemma departed_generations key s :
  last_application_generation (departed key s) = last_application_generation s.
Proof. apply remove_nodes_frame. Qed.

Section Apply.
Context (encoded : ElementSnapshot.t -> option N).
Notation effect := (effect encoded).

Lemma force_resync_effect reason s : effect s (force_resync reason s).1.
Proof.
  destruct (force_resync_cases reason s) as [[e ->] | (Hg & Hr & b & ->)]; by constructor.
Qed.

Lemma replace_application_effect bus root hash force s :
  effect s (replace_application bus root hash force s).1.
Proof.
  unfold replace_application. simpl. set (key := ApplicationKey.mk bus root).
  destruct (if force then None else same_instance key hash s); [constructor |]. simpl.
  case_decide as Hcap; simpl.
  { destruct (force_resync_cases ApplicationCapacity s) as [[e ->] | (Hg & Hr & b & ->)]; by constructor. }
  destruct (checked_add_u64 _ 1) as [generation |] eqn:Hgen; simpl; [| constructor].
  apply checked_add_u64_Some in Hgen as [-> Hgen].
  destruct (ApplicationRef.validate _) as [[] |]; simpl; [| constructor].
  destruct (removal_revisions_cases key s) as [(r & -> & Hrm & Hle) | [e ->]]; simpl; [| constructor].
  rewrite Hrm, departed_applications, departed_generations. apply (Registered encoded s bus root hash); try done. intros Hn.
  apply N.lt_nge. intros Hle'. apply Hcap. by split.
Qed.

Lemma remove_application_effect application s : effect s (remove_application application s).1.
Proof.
  unfold remove_application. simpl.
  destruct (require_application application s) as [u |] eqn:Hreq; simpl; [| constructor].
  apply require_application_Ok in Hreq as (_ & _ & _ & _ & Ho).
  destruct (removal_revisions_cases (application_key application) s) as [(r & -> & Hrm & Hle) | [e ->]];
    simpl; [| constructor].
  rewrite Hrm, departed_applications. by apply (Unregistered encoded s application).
Qed.

Lemma remove_effect element s : effect s (remove element s).1.
Proof.
  unfold remove. simpl.
  destruct (require_element_scope element s) as [u |] eqn:Hreq; simpl; [| constructor].
  apply require_element_Ok in Hreq.
  destruct (nodes s !! object_key element) as [current |] eqn:Hk; simpl; [| constructor].
  case_decide as Hcur; simpl; [constructor |].
  unfold next_revision. destruct (revision_after_cases 1 s) as [[-> Hr] | [e ->]]; [done | | constructor].
  simpl. rewrite Hcur. apply (Removed encoded s element); try done. by exists current.
Qed.

Lemma admit_birth_cases snapshot s :
  let element := ElementSnapshot.element snapshot in
  (exists e, admit_birth snapshot s s = (s, Err e)) \/
  (exists e, admit_birth snapshot s s = (resynced (generation_of s + 1) (revision_of s + 1) s, Err e) /\
     generation_of s + 1 <= u64_max /\ revision_of s + 1 <= u64_max) \/
  (admit_birth snapshot s s = (s, Ok tt) /\
   ElementRef.cache_sequence element = last_cache_sequence s + 1 /\ last_cache_sequence s + 1 <= u64_max /\
   (nodes s !! object_key element = None ->
    N.of_nat (size (nodes s)) < AccessibilityModelLimits.max_live_nodes (limits s))).
Proof.
  unfold admit_birth. simpl.
  destruct (checked_add_u64 _ 1) as [next |] eqn:Hnext; simpl; [| eauto].
  apply checked_add_u64_Some in Hnext as [-> Hle].
  case_decide as Hseq; simpl; [eauto |]. case_decide as Hcap; simpl.
  - destruct (force_resync_cases LiveCapacity s) as [[e ->] | (Hg & Hr & b & ->)]; [eauto |].
    right; left. eauto.
  - right; right. split_and!; try done. intros Hn. apply N.lt_nge. intros Hle'. apply Hcap. by split.
Qed.

Ltac run := cbn [bind get lift modify ret fail fst snd map_err].

Lemma observe_effect snapshot s : effect s (observe encoded snapshot s).1.
Proof.
  unfold observe. run.
  destruct (require_application _ s) as [u |]; run; [| constructor].
  destruct (require_element_scope _ s) as [u' |] eqn:Hreq; run; [| constructor].
  apply require_element_Ok in Hreq. pose proof (is_refresh_spec snapshot s) as Hspec.
  destruct (is_refresh snapshot s); cbn [andb].
  - destruct (ElementSnapshot.validate encoded _) as [[] |] eqn:Hval; run; [| constructor].
    unfold next_revision. destruct (revision_after_cases 1 s) as [[-> Hr] | [e ->]]; [done | | constructor].
    run. pose proof (Refreshed encoded s snapshot Hreq (proj1 Hspec eq_refl) Hval Hr) as He.
    unfold stored, redacted in He. cbn [ElementSnapshot.element ElementSnapshot.set_revision] in He.
    rewrite redact_element in He.
    by destruct (snapshot_declares_protected snapshot || _).
  - rewrite orb_false_r.
    destruct (ElementSnapshot.validate encoded _) as [[] |] eqn:Hval; run; [| constructor].
    assert (~ is_live s (ElementSnapshot.element snapshot)) as Hnl by (intros Hl; by apply Hspec in Hl).
    set (red := redact_protected (snapshot_declares_protected snapshot) snapshot) in *.
    assert (ElementSnapshot.element red = ElementSnapshot.element snapshot) as Hel by apply redact_element.
    destruct (admit_birth_cases red s) as [[e ->] | [(e & -> & Hg & Hr) | (-> & Hseq & Hle & Hcap)]];
      run; [constructor | by constructor |].
    unfold next_revision. destruct (revision_after_cases 1 s) as [[-> Hr] | [e ->]]; [done | | constructor].
    rewrite Hel in Hseq, Hcap.
    pose proof (Born encoded s snapshot Hreq Hnl Hval Hseq Hle Hcap Hr) as He.
    unfold stored, redacted in He. cbn [ElementSnapshot.element ElementSnapshot.set_revision] in He.
    fold red in He. rewrite Hel in He.
    run. unfold replace_birth in *. rewrite Hel in *.
    destruct (snapshot_declares_protected snapshot); exact He.
Qed.

Lemma apply_effect o s : effect s (apply encoded o s).
Proof.
  destruct o; cbn [apply]; unfold ignore.
  1, 2: apply replace_application_effect.
  1: apply remove_application_effect.
  1: apply observe_effect.
  1: apply remove_effect.
  all: apply force_resync_effect.
Qed.
End Apply.
End CacheEffectsFacts.

(** ** The elements that leave with an application *)
Module CacheDepartures.
Import CacheEffects.

Lemma remove_nodes_lookup removed r s k :
  nodes (remove_application_nodes_at removed r s) !! k =
    if decide (k ∈ map object_key removed) then None else nodes s !! k.
Proof.
  revert s. induction removed as [| x l IH]; intros s; simpl; [done |].
  change (nodes (remove_application_nodes_at l r (remove_node r s x)) !! k =
    if decide (k ∈ object_key x :: map object_key l) then None else nodes s !! k).
  rewrite IH. simpl. destruct (decide (k = object_key x)) as [-> | Hne].
  - rewrite lookup_delete_eq, (decide_True (P := object_key x ∈ _ :: _)) by (by left). by case_decide.
  - rewrite lookup_delete_ne by done. repeat case_decide; try done; exfalso; set_solver.
Qed.

Lemma remove_nodes_protected removed r s k :
  k ∈ protected_births (remove_application_nodes_at removed r s) <->
  k ∈ protected_births s /\ k ∉ map object_key removed.
Proof.
  revert s. induction removed as [| x l IH]; intros s; simpl; [set_solver |].
  change (k ∈ protected_births (remove_application_nodes_at l r (remove_node r s x)) <->
    k ∈ protected_births s /\ k ∉ object_key x :: map object_key l).
  rewrite IH. simpl. set_solver.
Qed.

Lemma tombstones_trim_suffix maximum l : trim maximum l `suffix_of` l.
Proof.
  induction l as [| x l IH]; simpl; [done |]. case_decide; [| done].
  etrans; [done |]. by exists [x].
Qed.

Lemma trim_len maximum l : len (trim maximum l) <= maximum.
Proof.
  induction l as [| x l IH]; simpl; [apply N.le_0_l |]. case_decide; [done | by apply N.nlt_ge].
Qed.

Lemma elem_of_trim maximum l x : x ∈ trim maximum l -> x ∈ l.
Proof. destruct (tombstones_trim_suffix maximum l) as [k Hk]. rewrite Hk at 2. set_solver. Qed.

Lemma push_tombstones element r s x :
  x ∈ tombstones (push_tombstone element r s) ->
  x ∈ tombstones s \/ x = mkElementTombstone element r.
Proof. simpl. intros H%elem_of_trim. set_solver. Qed.

Lemma remove_nodes_tombstones removed r s x :
  x ∈ tombstones (remove_application_nodes_at removed r s) ->
  x ∈ tombstones s \/ (tombstone_element x ∈ removed /\ removed_revision x = r).
Proof.
  revert s. induction removed as [| y l IH]; intros s; simpl; [by left |].
  intros [H | [Hin Hr]]%(IH (remove_node r s y)); [| right; set_solver].
  apply push_tombstones in H as [H | ->]; [by left | right]. simpl. set_solver.
Qed.

Lemma remove_nodes_bounded removed r s :
  len (tombstones s) <= AccessibilityModelLimits.max_tombstones (limits s) ->
  len (tombstones (remove_application_nodes_at removed r s)) <=
    AccessibilityModelLimits.max_tombstones (limits s).
Proof.
  revert s. induction removed as [| y l IH]; intros s Hs; simpl; [done |].
  apply (IH (remove_node r s y)). apply trim_len.
Qed.

Lemma elem_of_application_elements key s element :
  element ∈ application_elements key s <->
  exists k snapshot, nodes s !! k = Some snapshot /\ ObjectKey.application k = key /\
    ElementSnapshot.element snapshot = element.
Proof.
  unfold application_elements. rewrite list_elem_of_fmap. split.
  - intros ([k sn] & -> & [Hk Hin]%list_elem_of_filter). apply elem_of_btree_iter in Hin. eauto.
  - intros (k & sn & Hk & Ha & <-). exists (k, sn). split; [done |].
    apply list_elem_of_filter. split; [done |]. by apply elem_of_btree_iter.
Qed.

Lemma size_delete_lt {A} (m : gmap ObjectKey.t A) k : (size (delete k m) <= size m)%nat.
Proof. rewrite map_size_delete. case_match; unfold id; lia. Qed.

Lemma remove_nodes_size removed r s :
  (size (nodes (remove_application_nodes_at removed r s)) <= size (nodes s))%nat.
Proof.
  revert s. induction removed as [| y l IH]; intros s; simpl; [done |].
  pose proof (IH (remove_node r s y)) as H. simpl in H.
  pose proof (size_delete_lt (nodes s) (object_key y)). unfold remove_application_nodes_at in *. lia.
Qed.
End CacheDepartures.

(** ** The invariant *)
Module CacheInvariant.
Import CacheTrace CacheEffects CacheEffectsFacts CacheDepartures.

(** Nothing protected is left in a snapshot. *)
Definition sanitized (snapshot : ElementSnapshot.t) : Prop :=
  ElementSnapshot.value snapshot = None /\ ElementSnapshot.attributes snapshot = [] /\
  match ElementSnapshot.text snapshot with
  | Some text => TextSnapshot.content text = None /\ TextSnapshot.protected text = true
  | None => True
  end.

Record wf (s : t) : Prop := {
  wf_limits : 0 < AccessibilityModelLimits.max_live_nodes (limits s);
  wf_application k a : applications s !! k = Some a -> application_key a = k /\
    ApplicationRef.atspi_generation a = atspi_generation s /\
    exists g, last_application_generation s !! k = Some g /\ ApplicationRef.app_instance_generation a <= g;
  wf_node k snapshot : nodes s !! k = Some snapshot ->
    object_key (ElementSnapshot.element snapshot) = k /\ in_scope s (ElementSnapshot.element snapshot) /\
    ElementRef.cache_sequence (ElementSnapshot.element snapshot) <= last_cache_sequence s /\
    AccessibilityRevision.get (ElementSnapshot.revision snapshot) <= revision_of s /\
    (snapshot_declares_protected snapshot = true -> k ∈ protected_births s);
  wf_unique k k' a b : nodes s !! k = Some a -> nodes s !! k' = Some b ->
    ElementRef.cache_sequence (ElementSnapshot.element a) =
      ElementRef.cache_sequence (ElementSnapshot.element b) -> k = k';
  wf_protected k : k ∈ protected_births s ->
    exists snapshot, nodes s !! k = Some snapshot /\ sanitized snapshot;
  wf_tombstone x : x ∈ tombstones s -> ~ is_live s (tombstone_element x) /\
    ElementRef.cache_sequence (tombstone_element x) <= last_cache_sequence s;
  wf_bounded : N.of_nat (size (nodes s)) <= AccessibilityModelLimits.max_live_nodes (limits s) /\
    N.of_nat (size (last_application_generation s)) <= AccessibilityModelLimits.max_live_nodes (limits s) /\
    len (tombstones s) <= AccessibilityModelLimits.max_tombstones (limits s);
}.

Lemma started_wf s : started s -> wf s.
Proof.
  intros (desktop & generation & atspi & limits & H). unfold new in H.
  apply and_then_Ok in H as ([] & _ & H). simpl in H.
  apply and_then_Ok in H as (l & Hl & [= <-]). unfold AccessibilityModelLimits.validate in Hl.
  apply and_then_Ok in Hl as ([] & Hb%ensure_Ok & [= ->]).
  split; simpl; try (intros; by simplify_map_eq); try set_solver; [lia |].
  rewrite !map_size_empty. unfold len. simpl. lia.
Qed.

(** *** Departures *)
Lemma departed_elements key s k : wf s ->
  k ∈ map object_key (application_elements key s) <->
  ObjectKey.application k = key /\ is_Some (nodes s !! k).
Proof.
  intros Hwf. rewrite list_elem_of_fmap. split.
  - intros (e & -> & (k' & sn & Hk & Ha & <-)%elem_of_application_elements).
    destruct (wf_node _ Hwf _ _ Hk) as [-> _]. eauto.
  - intros [Ha [sn Hk]]. exists (ElementSnapshot.element sn).
    destruct (wf_node _ Hwf _ _ Hk) as [Hkey _]. split; [done |].
    apply elem_of_application_elements. eauto.
Qed.

Lemma departed_lookup key s k snapshot : wf s ->
  nodes (departed key s) !! k = Some snapshot <->
  nodes s !! k = Some snapshot /\ ObjectKey.application k <> key.
Proof.
  intros Hwf. unfold departed. rewrite remove_nodes_lookup. case_decide as Hd;
    rewrite (departed_elements key s k Hwf) in Hd.
  - split; [done |]. intros [Hk Hne]. naive_solver.
  - split; [| naive_solver]. intros Hk. split; [done |]. intros Ha. apply Hd. eauto.
Qed.

Lemma departed_protected key s k : wf s ->
  k ∈ protected_births (departed key s) <-> k ∈ protected_births s /\ ObjectKey.application k <> key.
Proof.
  intros Hwf. unfold departed. rewrite remove_nodes_protected, (departed_elements key s k Hwf).
  split; [| naive_solver]. intros [Hk Hne]. split; [done |]. intros Ha.
  destruct (wf_protected _ Hwf _ Hk) as (sn & Hsn & _). naive_solver.
Qed.

Lemma departed_live key s element : wf s ->
  is_live (departed key s) element <->
  is_live s element /\ application_key (ElementRef.application element) <> key.
Proof.
  intros Hwf. unfold is_live. setoid_rewrite (departed_lookup key s _ _ Hwf). simpl. naive_solver.
Qed.

Lemma departed_tombstones key s x : wf s ->
  x ∈ tombstones (departed key s) ->
  ~ is_live (departed key s) (tombstone_element x) /\
  ElementRef.cache_sequence (tombstone_element x) <= last_cache_sequence s.
Proof.
  intros Hwf. rewrite departed_live by done.
  intros [Hx | [(k & sn & Hk & Ha & Hel)%elem_of_application_elements _]]%remove_nodes_tombstones.
  - destruct (wf_tombstone _ Hwf _ Hx). naive_solver.
  - destruct (wf_node _ Hwf _ _ Hk) as (Hkey & _ & Hseq & _). rewrite <- Hel. split; [| done].
    intros [_ Hne]. apply Hne. by rewrite <- Ha, <- Hkey.
Qed.

(** *** Every effect keeps it *)
Lemma resynced_wf generation revision s : wf s -> wf (resynced generation revision s).
Proof.
  intros Hwf. pose proof (wf_limits _ Hwf). split; simpl; try (intros; by simplify_map_eq); try set_solver.
  rewrite !map_size_empty. unfold len. simpl. lia.
Qed.

Lemma in_scope_frame s s' element :
  desktop_id s' = desktop_id s -> desktop_generation s' = desktop_generation s ->
  atspi_generation s' = atspi_generation s ->
  (owns s (ElementRef.application element) -> owns s' (ElementRef.application element)) ->
  in_scope s element -> in_scope s' element.
Proof. unfold in_scope. intros -> -> ->. naive_solver. Qed.

Lemma shrunk_wf key s s' : wf s ->
  nodes s' = nodes (departed key s) -> protected_births s' = protected_births (departed key s) ->
  tombstones s' = tombstones (departed key s) -> limits s' = limits s ->
  desktop_id s' = desktop_id s -> desktop_generation s' = desktop_generation s ->
  atspi_generation s' = atspi_generation s -> last_cache_sequence s' = last_cache_sequence s ->
  revision_of s <= revision_of s' ->
  (forall k, k <> key -> applications s' !! k = applications s !! k) ->
  (forall k a, applications s' !! k = Some a -> application_key a = k /\
    ApplicationRef.atspi_generation a = atspi_generation s' /\
    exists g, last_application_generation s' !! k = Some g /\ ApplicationRef.app_instance_generation a <= g) ->
  N.of_nat (size (last_application_generation s')) <= AccessibilityModelLimits.max_live_nodes (limits s) ->
  wf s'.
Proof.
  intros Hwf Hn Hp Ht Hl Hd Hg Ha Hc Hr Happ Hok Hsize. split.
  - rewrite Hl. apply (wf_limits _ Hwf).
  - done.
  - intros k sn. rewrite Hn, departed_lookup by done. intros [Hk Hne].
    destruct (wf_node _ Hwf _ _ Hk) as (Hkey & Hscope & Hseq & Hrev & Hprot).
    split_and!; [done | | by rewrite Hc | lia |].
    + apply (in_scope_frame s); try done. unfold owns. rewrite Happ; [done |].
      intros <-. apply Hne. by rewrite <- Hkey.
    + rewrite Hp, departed_protected by done. auto.
  - intros k k' a b. rewrite Hn, !departed_lookup by done. intros [Hk _] [Hk' _]. by apply (wf_unique _ Hwf k k').
  - intros k. rewrite Hp, departed_protected by done. intros [Hk Hne].
    destruct (wf_protected _ Hwf _ Hk) as (sn & Hsn & Hs). exists sn.
    by rewrite Hn, departed_lookup.
  - intros x. rewrite Ht, Hc. unfold is_live. rewrite Hn. by apply departed_tombstones.
  - destruct (wf_bounded _ Hwf) as (Hb1 & Hb2 & Hb3). rewrite Hl, Ht, Hn. split_and!.
    + pose proof (remove_nodes_size (application_elements key s) (AccessibilityRevision.mk (revision_of s + 1)) s).
      unfold departed. lia.
    + done.
    + by apply remove_nodes_bounded.
Qed.

Lemma departed_frame key s :
  desktop_id (departed key s) = desktop_id s /\ desktop_generation (departed key s) = desktop_generation s /\
  atspi_generation (departed key s) = atspi_generation s /\ limits (departed key s) = limits s /\
  last_cache_sequence (departed key s) = last_cache_sequence s.
Proof. split_and!; apply remove_nodes_frame. Qed.

Lemma change_revision_le key s : revision_of s < change_revision key s.
Proof. unfold change_revision. case_decide; lia. Qed.

Lemma size_insert_le {A} (m : gmap ApplicationKey.t A) k x bound :
  N.of_nat (size m) <= bound -> (m !! k = None -> N.of_nat (size m) < bound) ->
  N.of_nat (size (<[k := x]> m)) <= bound.
Proof.
  intros Hm Hn. destruct (m !! k) as [y |] eqn:Hk.
  - rewrite map_size_insert_Some by eauto. done.
  - rewrite map_size_insert_None by done. specialize (Hn eq_refl). lia.
Qed.

Lemma registered_wf bus root hash generation s :
  let key := ApplicationKey.mk bus root in
  generation = default 0 (last_application_generation s !! key) + 1 ->
  (last_application_generation s !! key = None ->
   N.of_nat (size (last_application_generation s)) < AccessibilityModelLimits.max_live_nodes (limits s)) ->
  wf s ->
  wf (set_revision (AccessibilityRevision.mk (change_revision key s))
    (set_applications (<[key := ApplicationRef.mk (desktop_id s) (desktop_generation s)
                          (atspi_generation s) bus root generation hash]> (applications s))
      (set_last_application_generation (<[key := generation]> (last_application_generation s))
        (departed key s)))).
Proof.
  intros key Hgen Hcap Hwf. destruct (departed_frame key s) as (Hd & Hg & Ha & Hl & Hc).
  apply (shrunk_wf key s); try done.
  - simpl. pose proof (change_revision_le key s). unfold revision_of at 2. simpl. lia.
  - intros k Hk. simpl. by rewrite lookup_insert_ne.
  - simpl. rewrite Ha. intros k a [[<- <-] | [Hne Hk]]%lookup_insert_Some.
    + split_and!; try done. exists generation. by rewrite lookup_insert_eq.
    + rewrite lookup_insert_ne by done. by apply (wf_application _ Hwf).
  - simpl. apply size_insert_le; [apply (wf_bounded _ Hwf) | done].
Qed.

Lemma unregistered_wf key s : wf s ->
  wf (set_revision (AccessibilityRevision.mk (change_revision key s))
       (set_applications (delete key (applications s)) (departed key s))).
Proof.
  intros Hwf. destruct (departed_frame key s) as (Hd & Hg & Ha & Hl & Hc).
  apply (shrunk_wf key s); try done.
  - simpl. pose proof (change_revision_le key s). unfold revision_of at 2. simpl. lia.
  - intros k Hk. simpl. by rewrite lookup_delete_ne.
  - simpl. rewrite Ha, departed_generations. intros k a [Hne Hk]%lookup_delete_Some. by apply (wf_application _ Hwf).
  - simpl. rewrite departed_generations. apply (wf_bounded _ Hwf).
Qed.

Lemma removed_node_live r s element e : wf s -> is_live s element ->
  is_live (remove_node r s element) e <-> is_live s e /\ e <> element.
Proof.
  intros Hwf (cur & Hcur & Hel). unfold is_live. simpl. setoid_rewrite lookup_delete_Some. split.
  - intros (sn & [Hne Hk] & He). split; [eauto |]. intros ->. done.
  - intros [(sn & Hk & He) Hne]. exists sn. split_and!; try done. intros Heq. apply Hne.
    rewrite <- Heq, Hcur in Hk. by simplify_eq.
Qed.

Lemma raise_revision_wf r s : wf s -> revision_of s <= AccessibilityRevision.get r -> wf (set_revision r s).
Proof.
  intros Hwf Hr. split; simpl; try apply Hwf. intros k sn Hk.
  destruct (wf_node _ Hwf _ _ Hk) as (Hkey & Hscope & Hseq & Hrev & Hprot).
  split_and!; try done. unfold revision_of in *. simpl. lia.
Qed.

Lemma raise_sequence_wf q s : wf s -> last_cache_sequence s <= q -> wf (set_last_cache_sequence q s).
Proof.
  intros Hwf Hq. split; simpl; try apply Hwf.
  - intros k sn Hk. destruct (wf_node _ Hwf _ _ Hk) as (Hkey & Hscope & Hseq & Hrev & Hprot).
    split_and!; try done. lia.
  - intros x Hx. destruct (wf_tombstone _ Hwf _ Hx) as [Hl Hs]. split; [done | lia].
Qed.

Lemma unprotected_wf k s : wf s -> nodes s !! k = None ->
  wf (set_protected_births (protected_births s ∖ {[k]}) s).
Proof.
  intros Hwf Hnone. split; simpl; try apply Hwf.
  - intros k' sn Hk. destruct (wf_node _ Hwf _ _ Hk) as (Hkey & Hscope & Hseq & Hrev & Hprot).
    split_and!; try done. intros Hd. apply elem_of_difference. split; [auto |].
    intros ->%elem_of_singleton. congruence.
  - intros k' [Hk _]%elem_of_difference. by apply (wf_protected _ Hwf).
Qed.

Lemma remove_node_wf r element s : wf s -> is_live s element -> wf (remove_node r s element).
Proof.
  intros Hwf Hlive. destruct (wf_bounded _ Hwf) as (Hb1 & Hb2 & Hb3). split.
  - apply (wf_limits _ Hwf).
  - apply (wf_application _ Hwf).
  - simpl. intros k sn [Hne Hk]%lookup_delete_Some.
    destruct (wf_node _ Hwf _ _ Hk) as (Hkey & Hscope & Hseq & Hrev & Hprot).
    split_and!; try done. set_solver.
  - simpl. intros k k' a b [_ Hk]%lookup_delete_Some [_ Hk']%lookup_delete_Some. by apply (wf_unique _ Hwf k k').
  - simpl. intros k [Hk Hne]%elem_of_difference. destruct (wf_protected _ Hwf _ Hk) as (sn & Hsn & Hs).
    exists sn. split; [| done]. apply lookup_delete_Some. set_solver.
  - intros x Hx. rewrite removed_node_live by done. destruct Hlive as (cur & Hcur & Hel).
    destruct (wf_node _ Hwf _ _ Hcur) as (_ & _ & Hseq & _). rewrite Hel in Hseq.
    apply push_tombstones in Hx as [Hx | ->]; simpl; [| naive_solver].
    destruct (wf_tombstone _ Hwf _ Hx). naive_solver.
  - simpl. split_and!; [| done | apply trim_len].
    pose proof (size_delete_lt (nodes s) (object_key element)). lia.
Qed.

Lemma removed_nodes_wf element s : wf s -> is_live s element ->
  wf (set_revision (AccessibilityRevision.mk (revision_of s + 1))
       (remove_node (AccessibilityRevision.mk (revision_of s + 1)) s element)).
Proof.
  intros Hwf Hlive. apply raise_revision_wf; [by apply remove_node_wf |].
  unfold revision_of. simpl. lia.
Qed.

(** A birth first frees its key. *)
Lemma replace_birth_wf snapshot r s : wf s ->
  last_cache_sequence s <= ElementRef.cache_sequence (ElementSnapshot.element snapshot) ->
  wf (replace_birth snapshot r s).
Proof.
  intros Hwf Hle. set (e := ElementSnapshot.element snapshot) in *. unfold replace_birth. fold e.
  destruct (nodes s !! object_key e) as [replaced |] eqn:Hk.
  - destruct (wf_node _ Hwf _ _ Hk) as (Hkey & _).
    assert (is_live s (ElementSnapshot.element replaced)) as Hlive by (exists replaced; by rewrite Hkey).
    pose proof (raise_sequence_wf (ElementRef.cache_sequence e) _
      (remove_node_wf r _ s Hwf Hlive) Hle) as H.
    unfold remove_node in H. by rewrite Hkey in H.
  - apply raise_sequence_wf; [by apply unprotected_wf | done].
Qed.

(** What an observation stores. *)
Lemma stored_wf snapshot protected s : wf s ->
  let element := ElementSnapshot.element snapshot in
  in_scope s element -> ElementRef.cache_sequence element <= last_cache_sequence s ->
  revision_of s <= AccessibilityRevision.get (ElementSnapshot.revision snapshot) ->
  (snapshot_declares_protected snapshot = true -> protected = true) ->
  (protected = true -> sanitized snapshot) ->
  (protected = false -> object_key element ∉ protected_births s) ->
  (forall k b, nodes s !! k = Some b ->
     ElementRef.cache_sequence (ElementSnapshot.element b) = ElementRef.cache_sequence element ->
     k = object_key element) ->
  (nodes s !! object_key element = None ->
   N.of_nat (size (nodes s)) < AccessibilityModelLimits.max_live_nodes (limits s)) ->
  (forall x, x ∈ tombstones s -> tombstone_element x <> element) ->
  wf (stored snapshot protected s).
Proof.
  intros Hwf element Hscope Hseq Hrev Hdecl Hsan Hunp Huniq Hsize Htomb.
  set (key := object_key element) in *.
  assert (forall births, (forall k, k ∈ births <-> (protected = true /\ k = key) \/ k ∈ protected_births s) ->
    wf (set_revision (ElementSnapshot.revision snapshot)
      (set_protected_births births (set_nodes (<[key := snapshot]> (nodes s)) s)))) as H.
  { intros births Hbirths. destruct (wf_bounded _ Hwf) as (Hb1 & Hb2 & Hb3). split; simpl; try apply Hwf.
    - unfold revision_of. simpl. intros k sn [[<- <-] | [Hne Hk]]%lookup_insert_Some.
      + split_and!; try done. intros Hd. apply Hbirths. auto.
      + destruct (wf_node _ Hwf _ _ Hk) as (Hkey & Hs & Hq & Hr & Hp). unfold revision_of in *.
        split_and!; try done; [lia |]. intros Hd. apply Hbirths. auto.
    - intros k k' a b [[<- <-] | [Hne Hk]]%lookup_insert_Some [[<- <-] | [Hne' Hk']]%lookup_insert_Some Heq;
        [done | symmetry; by eapply Huniq | by eapply Huniq | by apply (wf_unique _ Hwf k k' a b)].
    - intros k [[Hp ->] | Hk]%Hbirths; [exists snapshot; split; [apply lookup_insert_eq | auto] |].
      destruct (decide (k = key)) as [-> | Hne].
      + exists snapshot. split; [apply lookup_insert_eq |]. destruct protected; [auto | by destruct Hunp].
      + rewrite lookup_insert_ne by done. by apply (wf_protected _ Hwf).
    - intros x Hx. destruct (wf_tombstone _ Hwf _ Hx) as [Hl Hq]. split; [| done].
      intros (sn & Hk & Hel). simpl in Hk. apply lookup_insert_Some in Hk as [[Hk <-] | [Hne Hk]];
        [by apply (Htomb x) | apply Hl; by exists sn].
    - split_and!; [| done..]. destruct (nodes s !! key) eqn:Hk.
      + rewrite map_size_insert_Some by eauto. done.
      + rewrite map_size_insert_None by done. specialize (Hsize eq_refl). lia. }
  unfold stored. fold element key. destruct protected.
  - apply (H (protected_births s ∪ {[key]})). set_solver.
  - apply (H (protected_births s)). naive_solver.
Qed.

Lemma redact_sanitized snapshot revision : sanitized (redacted snapshot true revision).
Proof. unfold sanitized, redacted. simpl. split_and!; try done. by destruct (ElementSnapshot.text snapshot). Qed.

Lemma redacted_unprotected snapshot revision :
  snapshot_declares_protected (redacted snapshot false revision) = snapshot_declares_protected snapshot.
Proof. done. Qed.

Lemma declares_redacted snapshot protected revision :
  (snapshot_declares_protected snapshot = true -> protected = true) ->
  snapshot_declares_protected (redacted snapshot protected revision) = true -> protected = true.
Proof. by destruct protected. Qed.

Lemma sanitized_redacted snapshot protected revision :
  protected = true -> sanitized (redacted snapshot protected revision).
Proof. intros ->. apply redact_sanitized. Qed.

Lemma redacted_element snapshot protected revision :
  ElementSnapshot.element (redacted snapshot protected revision) = ElementSnapshot.element snapshot.
Proof. by destruct protected. Qed.

Lemma refreshed_wf snapshot s :
  let protected := snapshot_declares_protected snapshot ||
    bool_decide (object_key (ElementSnapshot.element snapshot) ∈ protected_births s) in
  wf s -> in_scope s (ElementSnapshot.element snapshot) -> is_live s (ElementSnapshot.element snapshot) ->
  wf (stored (redacted snapshot protected (revision_of s + 1)) protected s).
Proof.
  intros protected Hwf Hscope (cur & Hcur & Hel).
  destruct (wf_node _ Hwf _ _ Hcur) as (Hkey & _ & Hq & _). rewrite Hel in Hq.
  apply stored_wf; rewrite ?redacted_element; try done.
  - unfold revision_of. simpl. lia.
  - apply declares_redacted. subst protected. by intros ->.
  - apply sanitized_redacted.
  - subst protected. by intros [_ Hk%bool_decide_eq_false]%orb_false_iff.
  - intros k b Hk Heq. apply (wf_unique _ Hwf k _ b cur); try done. by rewrite Hel.
  - congruence.
  - intros x Hx Heq. destruct (wf_tombstone _ Hwf _ Hx) as [Hl _]. apply Hl. rewrite Heq. by exists cur.
Qed.

(** What the freed state keeps. *)
Lemma replace_birth_cases snapshot r s : wf s ->
  let element := ElementSnapshot.element snapshot in
  let s' := replace_birth snapshot r s in
  (desktop_id s' = desktop_id s /\ desktop_generation s' = desktop_generation s /\
   atspi_generation s' = atspi_generation s /\ revision s' = revision s /\ limits s' = limits s /\
   applications s' = applications s /\ last_cache_sequence s' = ElementRef.cache_sequence element) /\
  nodes s' = delete (object_key element) (nodes s) /\
  protected_births s' = protected_births s ∖ {[object_key element]} /\
  (forall x, x ∈ tombstones s' -> x ∈ tombstones s \/ is_live s (tombstone_element x)).
Proof.
  intros Hwf element s'. subst s'. unfold replace_birth. fold element.
  destruct (nodes s !! object_key element) as [replaced |] eqn:Hk; simpl; split_and!; try done.
  - intros x Hx. apply elem_of_trim in Hx. apply elem_of_app in Hx as [Hx | ->%list_elem_of_singleton]; [by left | right].
    destruct (wf_node _ Hwf _ _ Hk) as (Hkey & _). exists replaced. simpl. by rewrite Hkey.
  - by rewrite delete_id.
  - auto.
Qed.

Lemma born_wf snapshot s :
  let element := ElementSnapshot.element snapshot in
  let protected := snapshot_declares_protected snapshot in
  let s' := replace_birth snapshot (AccessibilityRevision.mk (revision_of s + 1)) s in
  wf s -> in_scope s element -> ~ is_live s element ->
  ElementRef.cache_sequence element = last_cache_sequence s + 1 ->
  (nodes s !! object_key element = None ->
   N.of_nat (size (nodes s)) < AccessibilityModelLimits.max_live_nodes (limits s)) ->
  wf (stored (redacted snapshot protected (revision_of s + 1)) protected s').
Proof.
  intros element protected s' Hwf Hscope Hnl Hseq Hcap.
  assert (wf s') as Hwf' by (apply replace_birth_wf; [done | fold element; lia]).
  destruct (replace_birth_cases snapshot (AccessibilityRevision.mk (revision_of s + 1)) s Hwf)
    as ((Hd & Hg & Ha & Hr & Hl & Happ & Hq) & Hn & Hp & Ht). fold element s' in Hd, Hg, Ha, Hr, Hl, Happ, Hq, Hn, Hp, Ht.
  apply stored_wf; rewrite ?redacted_element; fold element; try done.
  - apply (in_scope_frame s); try done. unfold owns. by rewrite Happ.
  - unfold revision_of. rewrite Hr. simpl. lia.
  - by apply declares_redacted.
  - apply sanitized_redacted.
  - rewrite Hp. set_solver.
  - intros k b. rewrite Hn. intros [_ Hk]%lookup_delete_Some Heq.
    destruct (wf_node _ Hwf _ _ Hk) as (_ & _ & Hle & _). lia.
  - rewrite Hn, Hl. intros _. destruct (nodes s !! object_key element) as [cur |] eqn:Hk.
    + rewrite map_size_delete_Some by eauto. destruct (wf_bounded _ Hwf) as (Hb & _).
      assert (size (nodes s) <> 0%nat); [| lia].
      intros H0%map_size_empty_iff. by rewrite H0, lookup_empty in Hk.
    + rewrite delete_id by done. by apply Hcap.
  - intros x Hx Heq. apply Ht in Hx as [Hx | Hx]; [| by rewrite Heq in Hx].
    destruct (wf_tombstone _ Hwf _ Hx) as [_ Hle]. rewrite Heq in Hle. lia.
Qed.

Section Preserved.
Context (encoded : ElementSnapshot.t -> option N).

Lemma effect_wf s s' : effect encoded s s' -> wf s -> wf s'.
Proof.
  intros [| | bus root hash generation key application Hgen Hmax Hcap Hrev | | | |] Hwf.
  - done.
  - by apply resynced_wf.
  - by apply registered_wf.
  - by apply unregistered_wf.
  - by apply refreshed_wf.
  - by apply born_wf.
  - by apply removed_nodes_wf.
Qed.

Lemma reachable_wf s : reachable encoded s -> wf s.
Proof.
  intros (s0 & H0 & Hst). apply (steps_invariant (step encoded) wf s0 s); [| done | by apply started_wf].
  intros a b Ha [o ->]. by eapply effect_wf, Ha; apply apply_effect.
Qed.

Lemma steps_wf s s' : wf s -> steps (step encoded) s s' -> wf s'.
Proof.
  intros Hwf Hst. apply (steps_invariant (step encoded) wf s s'); [| done | done].
  intros a b Ha [o ->]. by eapply effect_wf, Ha; apply apply_effect.
Qed.
End Preserved.
End CacheInvariant.

(** ** Progress *)
Module CacheProgress.
Import CacheTrace CacheEffects CacheEffectsFacts CacheDepartures CacheInvariant.

Lemma stored_live snapshot protected s e :
  is_live (stored snapshot protected s) e <->
  e = ElementSnapshot.element snapshot \/
  (object_key e <> object_key (ElementSnapshot.element snapshot) /\ is_live s e).
Proof.
  unfold is_live, stored. split.
  - intros (sn & Hk & <-). destruct protected; simpl in Hk;
      apply lookup_insert_Some in Hk as [[Hkey <-] | [Hne Hk]]; eauto.
  - intros [-> | [Hne (sn & Hk & He)]]; [exists snapshot | exists sn];
      destruct protected; simpl; rewrite ?lookup_insert_eq, ?lookup_insert_ne by done; done.
Qed.

Lemma stored_frame snapshot protected s :
  atspi_generation (stored snapshot protected s) = atspi_generation s /\
  last_cache_sequence (stored snapshot protected s) = last_cache_sequence s /\
  (forall k, k ∈ protected_births s -> k ∈ protected_births (stored snapshot protected s)).
Proof. unfold stored. destruct protected; simpl; set_solver. Qed.

(** Within one AT-SPI generation: the sequence never goes back, only births come alive, and
    what lives on stays protected. *)
Definition progress (s s' : t) : Prop :=
  generation_of s' = generation_of s /\ last_cache_sequence s <= last_cache_sequence s' /\
  forall e, is_live s' e ->
    (is_live s e /\ (object_key e ∈ protected_births s -> object_key e ∈ protected_births s')) \/
    last_cache_sequence s < ElementRef.cache_sequence e.

Lemma departed_progress key s s' : wf s ->
  nodes s' = nodes (departed key s) -> protected_births s' = protected_births (departed key s) ->
  atspi_generation s' = atspi_generation s -> last_cache_sequence s' = last_cache_sequence s ->
  progress s s'.
Proof.
  intros Hwf Hn Hp Hg Hq. unfold progress, generation_of. rewrite Hg, Hq. split_and!; [done | lia |].
  intros e. unfold is_live at 1. rewrite Hn, Hp. intros He. apply (departed_live key s e Hwf) in He as [He Hne].
  left. split; [done |]. intros Hk. by apply departed_protected.
Qed.

Lemma effect_progress encoded s s' : wf s -> effect encoded s s' ->
  progress s s' \/ generation_of s < generation_of s'.
Proof.
  intros Hwf [| Hg Hr | bus root hash generation key application Hgen Hmax Hcap Hrev
    | application key Ho Hrev | snapshot protected Hscope Hlive Hval Hr
    | snapshot element protected Hscope Hnl Hval Hseq Hmax Hcap Hr | element Hscope Hlive Hr].
  - left. split_and!; [done | lia |]. auto.
  - right. unfold generation_of. simpl. unfold generation_of. lia.
  - left. destruct (departed_frame key s) as (_ & _ & Ha & _ & Hc). by apply (departed_progress key).
  - left. destruct (departed_frame key s) as (_ & _ & Ha & _ & Hc). by apply (departed_progress key).
  - left. destruct (stored_frame (redacted snapshot protected (revision_of s + 1)) protected s) as (Ha & Hq & Hp).
    unfold progress, generation_of. rewrite Ha, Hq. split_and!; [done | lia |].
    intros e [-> | [Hne He]]%stored_live; left; [rewrite redacted_element |]; auto.
  - left. destruct (stored_frame (redacted snapshot protected (revision_of s + 1)) protected
      (replace_birth snapshot (AccessibilityRevision.mk (revision_of s + 1)) s)) as (Ha & Hq & Hp).
    destruct (replace_birth_cases snapshot (AccessibilityRevision.mk (revision_of s + 1)) s Hwf)
      as ((_ & _ & Ha' & _ & _ & _ & Hq') & Hn & Hp' & _).
    unfold progress, generation_of. rewrite Ha, Ha', Hq, Hq'. fold element. split_and!; [done | lia |].
    intros e [-> | [Hne He]]%stored_live; [right; rewrite redacted_element; fold element; lia | left].
    rewrite redacted_element in Hne. split.
    + destruct He as (sn & Hk & He). rewrite Hn in Hk. apply lookup_delete_Some in Hk as [_ Hk]. by exists sn.
    + intros Hk. apply Hp. rewrite Hp'. fold element in Hne |- *. set_solver.
  - left. unfold progress. split_and!; [done | simpl; lia |]. intros e He. left.
    change (is_live (remove_node (AccessibilityRevision.mk (revision_of s + 1)) s element) e) in He.
    apply removed_node_live in He as [He Hne]; [| done..]. split; [done |]. simpl. intros Hk.
    apply elem_of_difference. split; [done |]. intros Heq%elem_of_singleton. apply Hne.
    destruct He as (a & Ha & <-). destruct Hlive as (b & Hb & <-). rewrite Heq, Hb in Ha. by simplify_eq.
Qed.

(** A reference whose birth is over: of a former connection, or issued and not live. *)
Definition spent (e : ElementRef.t) (s : t) : Prop :=
  AtspiGeneration.get (ElementRef.atspi_generation e) < generation_of s \/
  (AtspiGeneration.get (ElementRef.atspi_generation e) = generation_of s /\
   ElementRef.cache_sequence e <= last_cache_sequence s /\ ~ is_live s e).

(** A reference that was handed out. *)
Definition issued (e : ElementRef.t) (s : t) : Prop :=
  AtspiGeneration.get (ElementRef.atspi_generation e) < generation_of s \/
  (AtspiGeneration.get (ElementRef.atspi_generation e) = generation_of s /\
   ElementRef.cache_sequence e <= last_cache_sequence s).

Lemma resolve_exact_Ok e s snapshot :
  resolve_exact e s = Ok snapshot <->
  in_scope s e /\ nodes s !! object_key e = Some snapshot /\ ElementSnapshot.element snapshot = e.
Proof.
  unfold resolve_exact. rewrite and_then_Ok. split.
  - intros ([] & Hs%require_element_Ok & H). destruct (nodes s !! _) as [sn |]; case_decide; naive_solver.
  - intros (Hs & -> & He). exists tt. split; [by apply require_element_Ok | by rewrite decide_True].
Qed.

Lemma live_resolves e s : wf s -> is_live s e -> exists snapshot, resolve_exact e s = Ok snapshot.
Proof.
  intros Hwf (sn & Hk & <-). exists sn. apply resolve_exact_Ok.
  by destruct (wf_node _ Hwf _ _ Hk) as (_ & Hs & _).
Qed.

Lemma resolves_live e s snapshot : resolve_exact e s = Ok snapshot -> is_live s e.
Proof. intros (_ & Hk & He)%resolve_exact_Ok. by exists snapshot. Qed.

Lemma live_issued e s : wf s -> is_live s e -> issued e s.
Proof.
  intros Hwf (sn & Hk & <-). destruct (wf_node _ Hwf _ _ Hk) as (_ & (_ & _ & _ & Ha & _) & Hq & _).
  right. by rewrite Ha.
Qed.

Lemma spent_stale e s snapshot : spent e s -> resolve_exact e s <> Ok snapshot.
Proof.
  intros Hs Hr. pose proof (resolves_live _ _ _ Hr) as Hl. apply resolve_exact_Ok in Hr as ((_ & _ & _ & Ha & _) & _).
  unfold spent, generation_of in Hs. rewrite Ha in Hs. destruct Hs as [Hs | (_ & _ & Hs)]; [lia | done].
Qed.

Lemma effect_revision encoded s s' :
  effect encoded s s' -> s' = s \/ revision_of s < revision_of s'.
Proof.
  intros [| | bus root hash generation key application Hgen Hmax Hcap Hrev | application key Ho Hrev | | |];
    [by left | right..]; unfold revision_of; simpl; unfold revision_of; try lia.
  - apply (change_revision_le key s).
  - apply (change_revision_le key s).
Qed.

Section Steps.
Context (encoded : ElementSnapshot.t -> option N).

Lemma step_progress s s' : wf s -> step encoded s s' -> progress s s' \/ generation_of s < generation_of s'.
Proof. intros Hwf [o ->]. by apply (effect_progress encoded), apply_effect. Qed.

Lemma steps_preserve (P : t -> Prop) s s' :
  (forall a b, wf a -> progress a b \/ generation_of a < generation_of b -> P a -> P b) ->
  wf s -> steps (step encoded) s s' -> P s -> P s'.
Proof.
  intros HP Hwf Hst Hs. cut (wf s' /\ P s'); [by intros [_ ?] |].
  apply (steps_invariant (step encoded) (fun a => wf a /\ P a) s s'); [| done | done].
  intros a b [Ha HPa] Hab. split; [| eapply HP; eauto using step_progress].
  apply (steps_wf encoded a); [done |]. by eapply steps_trans, Hab; apply steps_refl.
Qed.

Lemma steps_spent e s s' : wf s -> steps (step encoded) s s' -> spent e s -> spent e s'.
Proof.
  apply (steps_preserve (spent e)). intros a b Hwf [(Hg & Hq & Hl) | Hg] [Hs | (Hs & Hle & Hn)]; unfold spent.
  - left. by rewrite Hg.
  - right. rewrite Hg. split_and!; [done | lia |]. intros [[? _] | ?]%Hl; [done | lia].
  - left. lia.
  - left. lia.
Qed.

Lemma steps_issued e s s' : wf s -> steps (step encoded) s s' -> issued e s -> issued e s'.
Proof.
  apply (steps_preserve (issued e)). intros a b Hwf [(Hg & Hq & Hl) | Hg] [Hs | (Hs & Hle)]; unfold issued; lia.
Qed.

Lemma steps_revision s s' :
  steps (step encoded) s s' -> s' = s \/ revision_of s < revision_of s'.
Proof.
  induction 1 as [| s a b Hst IH [o ->]]; [by left |].
  destruct (effect_revision encoded a _ (apply_effect encoded o a)) as [-> | Hlt]; [done | right].
  destruct IH as [-> | ?]; lia.
Qed.

(** A protected birth stays protected while it lasts. *)
Lemma steps_protected e s s' : wf s -> steps (step encoded) s s' ->
  is_live s e -> object_key e ∈ protected_births s -> is_live s' e -> object_key e ∈ protected_births s'.
Proof.
  intros Hwf Hst Hl Hp. cut (issued e s' /\ (is_live s' e ->
    AtspiGeneration.get (ElementRef.atspi_generation e) = generation_of s' -> object_key e ∈ protected_births s')).
  { intros [Hi H] Hl'. assert (wf s') as Hwf' by by eapply steps_wf. apply H; [done |].
    destruct Hl' as (sn & Hk & <-). by destruct (wf_node _ Hwf' _ _ Hk) as (_ & (_ & _ & _ & -> & _) & _). }
  split; [by eapply steps_issued, live_issued |].
  apply (steps_preserve (fun a => issued e a /\ (is_live a e ->
    AtspiGeneration.get (ElementRef.atspi_generation e) = generation_of a -> object_key e ∈ protected_births a)) s s');
    [| done | done | split; [by apply live_issued | done]].
  intros a b Hwfa [(Hg & Hq & Hlb) | Hg] [Hi Hpa].
  - split; [unfold issued in *; lia |]. intros [[Hla Hk] | Hlt]%Hlb He; [apply Hk, Hpa; [done | lia] |].
    exfalso. unfold issued in Hi. lia.
  - split; [unfold issued in *; lia |]. intros _ He. exfalso. unfold issued in Hi. lia.
Qed.
End Steps.
End CacheProgress.

(** ** The fencing of references *)
Section Theorems.
Import CacheTrace CacheInvariant CacheProgress.
Context (encoded : ElementSnapshot.t -> option N).

(** C14: an element reference that has resolved and then does not resolve any more never resolves again, whatever is observed, restarted or reset afterwards and even when an element reappears at its path with the same identity hash; and a reference resolves only to the snapshot of that very birth. *)
Theorem element_reference_never_revives (s s' s'' : t) (element : ElementRef.t)
    (snapshot : ElementSnapshot.t) :
  reachable encoded s -> resolve_exact element s = Ok snapshot ->
  steps (step encoded) s s' -> (forall other, resolve_exact element s' <> Ok other) ->
  steps (step encoded) s' s'' ->
  ElementSnapshot.element snapshot = element /\ forall other, resolve_exact element s'' <> Ok other.
Proof.
  intros Hs Hr Hst Hn Hst'. assert (wf s) as Hwf by by eapply reachable_wf.
  pose proof (steps_wf encoded s s' Hwf Hst) as Hwf'. split; [by apply resolve_exact_Ok in Hr as (_ & _ & ?) |].
  intros other. apply spent_stale. apply (steps_spent encoded element s' s''); [done | done |].
  assert (issued element s') as Hi by (apply (steps_issued encoded element s s' Hwf Hst), live_issued; [done | by eapply resolves_live]).
  destruct Hi as [Hi | [Hg Hq]]; [by left | right]. split_and!; [done | done |].
  intros Hl. destruct (live_resolves element s' Hwf' Hl) as [sn Hsn]. by apply (Hn sn).
Qed.

(** C29: the revision identifies the state: between two states of the cache either nothing at all changed or the revision grew, so a check at one revision still holds while the revision is the same. *)
Theorem revision_identifies_state (s s' : t) :
  steps (step encoded) s s' ->
  AccessibilityRevision.get (revision s) <= AccessibilityRevision.get (revision s') /\
  (revision s' = revision s -> s' = s).
Proof.
  intros [-> | Hlt]%steps_revision; [done |].
  unfold CacheEffects.revision_of in Hlt. split; [by apply N.lt_le_incl |].
  intros Heq. rewrite Heq in Hlt. by apply N.lt_irrefl in Hlt.
Qed.

(** The cache stays within its capacities: live elements, application identities and tombstones never exceed the configured limits. *)
Theorem accessibility_cache_bounded (s : t) :
  reachable encoded s ->
  let '(live, tombs) := counts s in
  live <= AccessibilityModelLimits.max_live_nodes (limits s) /\
  tombs <= AccessibilityModelLimits.max_tombstones (limits s) /\
  N.of_nat (size (applications s)) <= AccessibilityModelLimits.max_live_nodes (limits s).
Proof.
  intros Hs. assert (wf s) as Hwf by by eapply reachable_wf.
  destruct (wf_bounded _ Hwf) as (Hb1 & Hb2 & Hb3). simpl. split_and!; [done | done |].
  assert (size (applications s) <= size (last_application_generation s))%nat; [| lia].
  rewrite <- !(size_dom (D := gset ApplicationKey.t)). apply subseteq_size.
  intros k [a Ha]%elem_of_dom. destruct (wf_application _ Hwf _ _ Ha) as (_ & _ & g & Hg & _).
  apply elem_of_dom. by exists g.
Qed.
End Theorems.
