(* ===== verification/AccessibilityGraph.v ===== *)
(** * Traversals of a graph of indices

    The loops of [xenoteer-core/src/accessibility.rs] over the children lists of an immutable
    snapshot: a worklist of indices and the set of those seen.  The vector that serves as a
    stack is the list of its elements from the top, the queue that from the front.  Every
    index a loop adds to the worklist is a root or a child of an index it visits for the
    first time, so [work] iterations empty it; the results are compared with the recursive
    preorder and postorder of a forest. *)

From stdpp Require Import base numbers list option sets.
From Stdlib Require Import Lia.
From S2P Require Import Prelude.

Local Open Scope nat_scope.

Section Traversal.
Context (children : list (list nat)).

(** [self.children[index]]. *)
Definition children_of (index : nat) : list nat := default [] (children !! index).

(** The iterations that a worklist may need. *)
Definition total_children : nat := sum_list_with length children.
Definition work (pending : list nat) : nat := length pending + total_children.

(** The loop [while let Some(index) = pending.pop() { if seen.insert(index) { .. } }]: the
    indices visited, in order; [add] puts the children in the worklist. *)
Fixpoint visit (add : list nat -> list nat -> list nat) (fuel : nat) (pending seen : list nat) :
    list nat :=
  match fuel, pending with
  | S fuel, index :: pending =>
      if decide (index ∈ seen) then visit add fuel pending seen
      else index :: visit add fuel (add (children_of index) pending) (index :: seen)
  | _, _ => []
  end.

(** [stack.extend(children.rev())], [queue.extend(children)], [stack.extend(children)]. *)
Definition on_top (children pending : list nat) : list nat := children ++ pending.
Definition at_back (children pending : list nat) : list nat := pending ++ children.
Definition on_top_reversed (children pending : list nat) : list nat := rev children ++ pending.

Definition preorder (roots : list nat) : list nat := visit on_top (work roots) roots [].
Definition breadth_first (roots : list nat) : list nat := visit at_back (work roots) roots [].

(** The loop of the postorder: an index is pushed again, to be put out, under its children. *)
Fixpoint visit_postorder (fuel : nat) (stack : list (nat * bool)) (seen : list nat) : list nat :=
  match fuel, stack with
  | S fuel, (index, true) :: stack => index :: visit_postorder fuel stack seen
  | S fuel, (index, false) :: stack =>
      if decide (index ∈ seen) then visit_postorder fuel stack seen
      else visit_postorder fuel
             (map (fun child => (child, false)) (children_of index) ++ (index, true) :: stack)
             (index :: seen)
  | _, _ => []
  end.

Definition postorder (roots : list nat) : list nat :=
  visit_postorder (work roots + length children) (map (fun root => (root, false)) roots) [].

(** [mark_reachable]: the indices it adds to those [reached]. *)
Definition mark_reachable (index : nat) (reached : list nat) : list nat :=
  reached ++ visit on_top_reversed (work [index]) [index] reached.

(** ** What a worklist visits *)

(** The children of the indices not seen yet. *)
Definition unseen (seen : list nat) : list nat := filter (fun i => i ∉ seen) (seq 0 (length children)).
Definition debt (seen : list nat) : nat := sum_list_with (fun i => length (children_of i)) (unseen seen).

Lemma children_of_out index : length children <= index -> children_of index = [].
Proof. intros H. unfold children_of. by rewrite (lookup_ge_None_2 _ _ H). Qed.

Lemma children_of_map : map children_of (seq 0 (length children)) = children.
Proof.
  apply list_eq. intros i. rewrite list_lookup_fmap. destruct (decide (i < length children)) as [Hi | Hi].
  - rewrite lookup_seq_lt by done. simpl. unfold children_of.
    destruct (lookup_lt_is_Some_2 children i Hi) as [c ->]. done.
  - rewrite lookup_seq_ge by lia. simpl. symmetry. apply lookup_ge_None_2. lia.
Qed.

Lemma debt_nil : debt [] = total_children.
Proof.
  unfold debt, unseen, total_children. rewrite (filter_all (fun i => i ∉ [])) by (intros; apply not_elem_of_nil).
  rewrite <- children_of_map at 2. generalize (seq 0 (length children)). intros l.
  induction l as [| x l IH]; simpl; [done | by rewrite IH].
Qed.

Lemma elem_of_unseen seen i : i ∈ unseen seen <-> i ∉ seen /\ i < length children.
Proof. unfold unseen. rewrite list_elem_of_filter, elem_of_seq. naive_solver lia. Qed.

Lemma unseen_cons seen i : i ∉ seen -> i < length children -> unseen seen ≡ₚ i :: unseen (i :: seen).
Proof.
  intros Hi Hlt. apply NoDup_Permutation.
  - apply NoDup_filter, NoDup_seq.
  - apply NoDup_cons. rewrite elem_of_unseen. split; [set_solver |]. apply NoDup_filter, NoDup_seq.
  - intros j. rewrite elem_of_cons, !elem_of_unseen. destruct (decide (j = i)); set_solver.
Qed.

Lemma debt_cons seen i : i ∉ seen -> debt seen = length (children_of i) + debt (i :: seen).
Proof.
  intros Hi. destruct (decide (i < length children)) as [Hlt | Hge].
  - unfold debt. by rewrite (unseen_cons seen i Hi Hlt).
  - rewrite children_of_out by lia. unfold debt. simpl.
    assert (unseen seen ≡ₚ unseen (i :: seen)) as ->; [| done].
    apply NoDup_Permutation; [apply NoDup_filter, NoDup_seq | apply NoDup_filter, NoDup_seq |].
    intros j. rewrite !elem_of_unseen. set_solver by lia.
Qed.

(** Reached through children. *)
Inductive descends (ancestor : nat) : nat -> Prop :=
  | descends_refl : descends ancestor ancestor
  | descends_child parent child :
      descends ancestor parent -> child ∈ children_of parent -> descends ancestor child.

Lemma descends_trans a b c : descends a b -> descends b c -> descends a c.
Proof. intros Hab Hbc. induction Hbc; [done |]. by eapply descends_child. Qed.

Lemma descends_step a b c : b ∈ children_of a -> descends b c -> descends a c.
Proof. intros Hb. apply descends_trans. by eapply descends_child; [constructor |]. Qed.

Section Visit.
Context (add : list nat -> list nat -> list nat) (Hadd : forall c p, add c p ≡ₚ c ++ p).

(** With enough iterations the worklist is emptied: every index of it is seen or visited,
    the visited ones are visited once, and they are closed under children. *)
Lemma visit_spec fuel pending seen :
  length pending + debt seen <= fuel ->
  let out := visit add fuel pending seen in
  NoDup out /\ (forall x, x ∈ out -> x ∉ seen /\ exists p, p ∈ pending /\ descends p x) /\
  (forall x, x ∈ pending -> x ∈ seen \/ x ∈ out) /\
  (forall x c, x ∈ out -> c ∈ children_of x -> c ∈ seen \/ c ∈ out).
Proof.
  revert pending seen. induction fuel as [| fuel IH]; intros [| i pending] seen Hfuel; simpl in *;
    try (split_and!; [constructor | set_solver..]); [lia |].
  case_decide as Hi.
  - destruct (IH pending seen) as (Hnd & Hout & Hp & Hc); [lia |]. split_and!; [done | | | done].
    + intros x (Hx & p & ? & ?)%Hout. split; [done |]. exists p. split; [by right | done].
    + intros x [-> | Hx]%elem_of_cons; [by left | auto].
  - destruct (IH (add (children_of i) pending) (i :: seen)) as (Hnd & Hout & Hp & Hc).
    { rewrite Hadd, length_app. rewrite (debt_cons seen i Hi) in Hfuel. lia. }
    assert (forall x, x ∈ add (children_of i) pending <-> x ∈ children_of i \/ x ∈ pending) as Hm
      by (intros x; rewrite Hadd; apply elem_of_app).
    split_and!.
    + apply NoDup_cons. split; [| done]. intros [Hx _]%Hout. apply Hx. by left.
    + intros x [-> | Hx]%elem_of_cons; [split; [done |]; exists i; split; [by left | constructor] |].
      apply Hout in Hx as (Hx & p & [Hpc | Hpp]%Hm & Hd); (split; [set_solver |]).
      * exists i. split; [by left |]. by eapply descends_step.
      * exists p. split; [by right | done].
    + intros x [-> | Hx]%elem_of_cons; [right; by left |].
      destruct (Hp x) as [[-> | ?]%elem_of_cons | ?]; [apply Hm; by right | right; by left | by left | right; by right].
    + intros x c [-> | Hx]%elem_of_cons Hxc.
      * destruct (Hp c) as [[-> | ?]%elem_of_cons | ?]; [apply Hm; by left | right; by left | by left | right; by right].
      * destruct (Hc x c Hx Hxc) as [[-> | ?]%elem_of_cons | ?]; [right; by left | by left | right; by right].
Qed.
End Visit.

Lemma on_top_Permutation c p : on_top c p ≡ₚ c ++ p.
Proof. done. Qed.
Lemma at_back_Permutation c p : at_back c p ≡ₚ c ++ p.
Proof. apply Permutation_app_comm. Qed.
Lemma on_top_reversed_Permutation c p : on_top_reversed c p ≡ₚ c ++ p.
Proof. unfold on_top_reversed. by rewrite <- Permutation_rev. Qed.

Lemma debt_le seen : debt seen <= total_children.
Proof.
  rewrite <- debt_nil. unfold debt, unseen. rewrite (filter_all (fun i => i ∉ [])) by (intros; apply not_elem_of_nil).
  induction (seq 0 (length children)) as [| x l IH]; [done |]. rewrite filter_cons. case_decide; simpl; lia.
Qed.

(** Every index is a root, or reached from one; children are indices. *)
Record covering (roots : list nat) : Prop := {
  covering_roots r : r ∈ roots -> r < length children;
  covering_children i c : c ∈ children_of i -> c < length children;
  covering_reach i : i < length children -> exists r, r ∈ roots /\ descends r i;
}.

Lemma descends_lt roots r i : covering roots -> r < length children -> descends r i -> i < length children.
Proof. intros Hc Hr. induction 1; [done |]. by eapply covering_children. Qed.

Lemma visit_all add roots : (forall c p, add c p ≡ₚ c ++ p) -> covering roots ->
  visit add (work roots) roots [] ≡ₚ seq 0 (length children).
Proof.
  intros Hadd Hc. destruct (visit_spec add Hadd (work roots) roots []) as (Hnd & Hout & Hp & Hcl).
  { unfold work. by rewrite debt_nil. }
  apply NoDup_Permutation; [done | apply NoDup_seq |]. intros i. rewrite elem_of_seq. split.
  - intros (_ & p & Hpr & Hd)%Hout. split; [lia |]. eapply descends_lt; [done | | done].
    by eapply covering_roots.
  - intros [_ Hi]. destruct (covering_reach _ Hc i Hi) as (r & Hr & Hd).
    induction Hd as [| p c Hd IH Hpc]; [destruct (Hp r Hr) as [?%not_elem_of_nil | ?]; done |].
    destruct (Hcl p c) as [?%not_elem_of_nil | ?]; try done.
    apply IH. eapply descends_lt; [done | | done]. by eapply covering_roots.
Qed.

(** [mark_reachable] closes the set of reached indices under children. *)
Definition closed (reached : list nat) : Prop :=
  forall x c, x ∈ reached -> c ∈ children_of x -> c ∈ reached.

Lemma mark_spec index reached : NoDup reached -> closed reached ->
  NoDup (mark_reachable index reached) /\ closed (mark_reachable index reached) /\
  forall x, x ∈ mark_reachable index reached <-> x ∈ reached \/ descends index x.
Proof.
  intros Hnd Hcl. unfold mark_reachable.
  destruct (visit_spec on_top_reversed on_top_reversed_Permutation (work [index]) [index] reached)
    as (Hnd' & Hout & Hp & Hc).
  { unfold work. simpl. pose proof (debt_le reached). lia. }
  set (out := visit _ _ _ _) in *. assert (closed (reached ++ out)) as Hclosed.
  { intros x c [Hx | Hx]%elem_of_app Hxc; apply elem_of_app; [left; by eapply Hcl | by eapply Hc]. }
  split_and!; [| done |].
  - apply NoDup_app. split_and!; [done | | done]. intros x Hx Ho. by apply Hout in Ho as [? _].
  - intros x. rewrite elem_of_app. split.
    + intros [Hx | (_ & p & ->%list_elem_of_singleton & Hd)%Hout]; [by left | by right].
    + rewrite <- elem_of_app. intros [Hx | Hd]; [apply elem_of_app; by left |].
      induction Hd as [| p c Hd IH Hpc]; [apply elem_of_app, Hp; by left | by eapply Hclosed].
Qed.

(** ** Forests *)

(** The recursive preorder and postorder, to a depth. *)
Fixpoint preorder_of (depth index : nat) : list nat :=
  match depth with
  | 0 => []
  | S depth => index :: flat_map (preorder_of depth) (children_of index)
  end.

Fixpoint postorder_of (depth index : nat) : list nat :=
  match depth with
  | 0 => []
  | S depth => flat_map (postorder_of depth) (children_of index) ++ [index]
  end.

(** The tree under an index is less deep than [depth]. *)
Fixpoint shallow (depth index : nat) : Prop :=
  match depth with
  | 0 => False
  | S depth => Forall (shallow depth) (children_of index)
  end.

Lemma shallow_S depth i : shallow depth i -> shallow (S depth) i.
Proof.
  revert i. induction depth as [| depth IH]; intros i; simpl; [done |].
  intros H. eapply Forall_impl; [apply H |]. apply IH.
Qed.

Lemma flat_map_ext_Forall {A B} (f g : A -> list B) l :
  Forall (fun x => f x = g x) l -> flat_map f l = flat_map g l.
Proof. induction 1; simpl; congruence. Qed.

Lemma orders_S depth i : shallow depth i ->
  preorder_of (S depth) i = preorder_of depth i /\ postorder_of (S depth) i = postorder_of depth i.
Proof.
  revert i. induction depth as [| depth IH]; intros i H; [done |]. simpl in H.
  change (i :: flat_map (preorder_of (S depth)) (children_of i) = i :: flat_map (preorder_of depth) (children_of i) /\
    flat_map (postorder_of (S depth)) (children_of i) ++ [i] = flat_map (postorder_of depth) (children_of i) ++ [i]).
  split; f_equal; apply flat_map_ext_Forall; (eapply Forall_impl; [apply H |]); intros j Hj; by apply IH.
Qed.

(** In a forest every index is a root or the child of one index, once. *)
Definition forest (roots : list nat) : Prop := roots ++ concat children ≡ₚ seq 0 (length children).

(** The same for a worklist and the indices not seen yet. *)
Definition frontier (pending seen : list nat) : Prop :=
  pending ++ flat_map children_of (unseen seen) ≡ₚ unseen seen.

Lemma forest_frontier roots : forest roots -> frontier roots [].
Proof.
  unfold forest, frontier, unseen. intros H.
  rewrite (filter_all (fun i => i ∉ [])) by (intros; apply not_elem_of_nil).
  rewrite flat_map_concat_map, children_of_map. done.
Qed.

Lemma frontier_unseen pending seen i : frontier pending seen -> i ∈ pending -> i ∉ seen /\ i < length children.
Proof. intros Hf Hi. apply elem_of_unseen. unfold frontier in Hf. rewrite <- Hf. set_solver. Qed.

Lemma flat_map_Permutation {A B} (f : A -> list B) l k : l ≡ₚ k -> flat_map f l ≡ₚ flat_map f k.
Proof. induction 1; simpl; [done | by f_equiv | by rewrite !app_assoc, (Permutation_app_comm (f y)) | by etrans]. Qed.

Lemma frontier_step pending seen i : frontier (i :: pending) seen ->
  frontier (children_of i ++ pending) (i :: seen) /\ length (unseen seen) = S (length (unseen (i :: seen))).
Proof.
  intros Hf. destruct (frontier_unseen _ _ i Hf) as [Hi Hlt]; [by left |].
  pose proof (unseen_cons seen i Hi Hlt) as Hu. split; [| by rewrite Hu].
  unfold frontier in *. apply (Permutation_cons_inv (a := i)). rewrite <- Hu, <- Hf at 1.
  rewrite (flat_map_Permutation children_of _ _ Hu). simpl. f_equiv.
  rewrite !app_assoc. f_equiv. apply Permutation_app_comm.
Qed.

Lemma frontier_Permutation pending pending' seen :
  pending ≡ₚ pending' -> frontier pending seen -> frontier pending' seen.
Proof. unfold frontier. by intros ->. Qed.

Lemma frontier_shallow depth pending seen :
  frontier pending seen -> length (unseen seen) <= depth -> Forall (shallow depth) pending.
Proof.
  revert pending seen. induction depth as [| depth IH]; intros pending seen Hf Hd.
  - assert (unseen seen = []) as Hu by (destruct (unseen seen); [done | simpl in Hd; lia]).
    unfold frontier in Hf. rewrite Hu in Hf. simpl in Hf. rewrite app_nil_r in Hf.
    by apply Permutation_nil_r in Hf as ->.
  - apply Forall_forall. intros i Hi. apply elem_of_Permutation in Hi as [rest Hi].
    destruct (frontier_step rest seen i) as [Hs Hlen]; [by apply (frontier_Permutation pending) |].
    simpl. assert (Forall (shallow depth) (children_of i ++ rest)) as H by (apply (IH _ (i :: seen) Hs); lia).
    by apply Forall_app in H as [? _].
Qed.

Lemma frontier_nodup depth pending seen :
  frontier pending seen -> length (unseen seen) <= depth ->
  NoDup (flat_map (preorder_of depth) pending) /\
  forall x, x ∈ flat_map (preorder_of depth) pending -> x ∈ unseen seen.
Proof.
  revert pending seen. induction depth as [| depth IH]; intros pending seen Hf Hd.
  { pose proof (frontier_shallow 0 pending seen Hf Hd) as Hs. destruct pending as [| i pending];
      [split; [constructor | set_solver] | by inversion Hs]. }
  destruct pending as [| i pending]; [split; [constructor | set_solver] |].
  destruct (frontier_step pending seen i Hf) as [Hs Hlen].
  destruct (IH (children_of i ++ pending) (i :: seen) Hs) as [Hnd Hin]; [lia |].
  pose proof (frontier_shallow depth _ _ Hs ltac:(lia)) as Hsh. apply Forall_app in Hsh as [_ Hsh].
  change (flat_map (preorder_of (S depth)) (i :: pending)) with
    (i :: flat_map (preorder_of depth) (children_of i) ++ flat_map (preorder_of (S depth)) pending).
  rewrite (flat_map_ext_Forall (preorder_of (S depth)) (preorder_of depth) pending)
    by (eapply Forall_impl; [apply Hsh | intros; by apply orders_S]).
  rewrite <- flat_map_app. destruct (frontier_unseen _ _ i Hf) as [Hi Hlt]; [by left |]. split.
  - apply NoDup_cons. split; [| done]. intros Hx%Hin%elem_of_unseen. set_solver.
  - intros x [-> | Hx]%elem_of_cons; [by apply elem_of_unseen |].
    apply Hin, elem_of_unseen in Hx. apply elem_of_unseen. set_solver.
Qed.

Lemma elem_of_flat_map {A B} (f : A -> list B) l y : y ∈ flat_map f l <-> exists x, x ∈ l /\ y ∈ f x.
Proof. rewrite list_elem_of_In, in_flat_map. setoid_rewrite list_elem_of_In. done. Qed.

(** The worklist loops on trees that are disjoint and not seen: no index is met twice. *)
Lemma visit_trees depth fuel pending seen :
  Forall (shallow depth) pending ->
  NoDup (flat_map (preorder_of depth) pending) ->
  (forall x, x ∈ flat_map (preorder_of depth) pending -> x ∉ seen) ->
  length (flat_map (preorder_of depth) pending) <= fuel ->
  visit on_top fuel pending seen = flat_map (preorder_of depth) pending.
Proof.
  revert pending seen. induction fuel as [| fuel IH]; intros [| i pending] seen Hsh Hnd Hdis Hfuel;
    try done; apply Forall_cons in Hsh as [Hi Hsh]; destruct depth as [| depth]; try done.
  { simpl in Hfuel. lia. }
  cbn [flat_map preorder_of app] in *.
  apply NoDup_cons in Hnd as [Hni Hnd]. simpl in Hfuel.
  cbn [visit]. rewrite decide_False by (apply Hdis; by left). f_equal.
  assert (flat_map (preorder_of depth) (children_of i) = flat_map (preorder_of (S depth)) (children_of i)) as Hc.
  { apply flat_map_ext_Forall. eapply Forall_impl; [apply Hi |]. intros j Hj. symmetry. by apply orders_S. }
  rewrite Hc, <- flat_map_app in *. apply (IH (on_top (children_of i) pending)); [| done | | unfold on_top; lia].
  - apply Forall_app. split; [| done]. eapply Forall_impl; [apply Hi | apply shallow_S].
  - intros x Hx [-> | Hs]%elem_of_cons; [done |]. apply (Hdis x); [by right | done].
Qed.

(** What a stack of the postorder still puts out. *)
Definition postorder_rest (depth : nat) (stack : list (nat * bool)) : list nat :=
  flat_map (fun entry : nat * bool => if entry.2 then [entry.1] else postorder_of depth entry.1) stack.

Definition entries (flag : bool) (l : list nat) : list (nat * bool) := map (fun i => (i, flag)) l.

Lemma postorder_rest_entries depth l : postorder_rest depth (entries false l) = flat_map (postorder_of depth) l.
Proof. unfold postorder_rest, entries. induction l as [| i l IH]; simpl; [done | by rewrite IH]. Qed.

Lemma orders_Permutation depth i : postorder_of depth i ≡ₚ preorder_of depth i.
Proof.
  revert i. induction depth as [| depth IH]; intros i; [done |]. simpl.
  rewrite Permutation_app_comm. simpl. f_equiv.
  induction (children_of i) as [| c l IHl]; simpl; [done | by rewrite IH, IHl].
Qed.

(** An entry to expand is visited once, then put out: two iterations for each index. *)
Definition cost (depth : nat) (stack : list (nat * bool)) : nat :=
  sum_list_with (fun entry : nat * bool => if entry.2 then 1 else 2 * length (preorder_of depth entry.1)) stack.

Lemma cost_entries depth l : cost depth (entries false l) = 2 * length (flat_map (preorder_of depth) l).
Proof. unfold cost, entries. induction l as [| i l IH]; simpl; [done |]. rewrite length_app. simpl in IH. lia. Qed.

Lemma visit_postorder_trees depth fuel stack seen :
  (forall i, (i, false) ∈ stack -> shallow depth i) ->
  NoDup (postorder_rest depth (filter (fun entry => entry.2 = false) stack)) ->
  (forall x, x ∈ postorder_rest depth (filter (fun entry => entry.2 = false) stack) -> x ∉ seen) ->
  cost depth stack <= fuel ->
  visit_postorder fuel stack seen = postorder_rest depth stack.
Proof.
  revert stack seen. induction fuel as [| fuel IH]; intros [| [i flag] stack] seen Hsh Hnd Hdis Hfuel; try done.
  { destruct flag; simpl in Hfuel; [lia |]. destruct depth; [by destruct (Hsh i); left |]. simpl in Hfuel. lia. }
  destruct flag.
  - simpl. f_equal. apply IH; try done; [intros j Hj; apply Hsh; by right | simpl in Hfuel; lia].
  - assert (shallow depth i) as Hi by (apply Hsh; by left). destruct depth as [| depth]; [done |].
    rewrite filter_cons_True in Hnd, Hdis by done.
    set (rest := filter (fun entry : nat * bool => entry.2 = false) stack) in *.
    cbn [postorder_rest flat_map fst snd] in Hnd, Hdis. fold (postorder_rest (S depth) rest) in Hnd, Hdis.
    cbn [visit_postorder]. rewrite decide_False
      by (apply Hdis, elem_of_app; left; simpl; apply elem_of_app; right; by left).
    assert (flat_map (postorder_of depth) (children_of i) = flat_map (postorder_of (S depth)) (children_of i)) as Hc.
    { apply flat_map_ext_Forall. eapply Forall_impl; [apply Hi |]. intros j Hj. symmetry. by apply orders_S. }
    assert (flat_map (preorder_of depth) (children_of i) = flat_map (preorder_of (S depth)) (children_of i)) as Hp.
    { apply flat_map_ext_Forall. eapply Forall_impl; [apply Hi |]. intros j Hj. symmetry. by apply orders_S. }
    change (map (fun child => (child, false)) (children_of i)) with (entries false (children_of i)).
    assert (filter (fun entry : nat * bool => entry.2 = false) (entries false (children_of i) ++ (i, true) :: stack) =
      entries false (children_of i) ++ rest) as Hfilter.
    { rewrite filter_app, filter_cons_False by done. f_equal. apply filter_all.
      intros [j b] (j' & [= -> ->] & _)%list_elem_of_fmap. done. }
    assert (postorder_of (S depth) i = postorder_rest (S depth) (entries false (children_of i)) ++ [i]) as Hpost
      by (rewrite postorder_rest_entries, <- Hc; done).
    rewrite Hpost in Hnd, Hdis. rewrite IH.
    + unfold postorder_rest. rewrite flat_map_app. cbn [flat_map fst snd]. rewrite Hpost.
      unfold postorder_rest. by rewrite <- app_assoc.
    + intros j [Hj | [[= ->] | Hj]%elem_of_cons]%elem_of_app; [| by apply Hsh; right].
      apply list_elem_of_fmap in Hj as (j' & [= ->] & Hj). apply shallow_S.
      by apply (proj1 (Forall_forall _ _) Hi).
    + rewrite Hfilter. unfold postorder_rest in *. rewrite flat_map_app.
      rewrite <- app_assoc in Hnd. apply NoDup_app in Hnd as (Hnd1 & Hd & Hnd2).
      apply NoDup_app. split_and!; [done | | by apply NoDup_cons in Hnd2 as [_ ?]].
      intros x Hx Hr. apply (Hd x Hx). by right.
    + rewrite Hfilter. unfold postorder_rest in *. rewrite flat_map_app. intros x Hx.
      assert (x <> i) as Hne.
      { intros ->. rewrite <- app_assoc in Hnd. apply NoDup_app in Hnd as (_ & Hd & Hnd2).
        apply NoDup_cons in Hnd2 as [Hni _]. apply elem_of_app in Hx as [Hx | Hx]; [| done].
        apply (Hd i Hx). by left. }
      intros [-> | Hs]%elem_of_cons; [done |]. apply (Hdis x); [| done]. set_solver.
    + revert Hfuel. unfold cost. rewrite sum_list_with_app. cbn [sum_list_with fst snd].
      fold (cost (S depth) (entries false (children_of i))) (cost (S depth) stack).
      rewrite cost_entries, <- Hp. cbn [preorder_of length]. lia.
Qed.

(** ** Levels *)
Fixpoint level_order (depth : nat) (level : list nat) : list nat :=
  match depth with
  | 0 => []
  | S depth => level ++ level_order depth (flat_map children_of level)
  end.

Lemma level_order_nil depth : level_order depth [] = [].
Proof. by induction depth. Qed.

Lemma visit_level fuel level next seen :
  frontier (level ++ next) seen -> length (unseen seen) <= fuel ->
  exists fuel' seen', frontier (next ++ flat_map children_of level) seen' /\
    length (unseen seen') <= fuel' /\ length (unseen seen) = length level + length (unseen seen') /\
    visit at_back fuel (level ++ next) seen =
      level ++ visit at_back fuel' (next ++ flat_map children_of level) seen'.
Proof.
  revert fuel next seen. induction level as [| i level IH]; intros fuel next seen Hf Hfuel; simpl in *.
  { exists fuel, seen. rewrite app_nil_r. done. }
  destruct (frontier_step _ seen i Hf) as [Hs Hlen]. destruct fuel as [| fuel]; [lia |].
  destruct (frontier_unseen _ _ i Hf) as [Hi _]; [by left |].
  destruct (IH fuel (next ++ children_of i) (i :: seen)) as (fuel' & seen' & Hf' & Hu' & Hl' & Heq); [| lia |].
  { eapply frontier_Permutation; [| apply Hs]. rewrite (app_assoc level). apply Permutation_app_comm. }
  exists fuel', seen'. rewrite <- app_assoc in Hf', Heq. split_and!; [done | done | simpl; lia |].
  cbn [visit]. rewrite decide_False by done. unfold at_back at 2. rewrite <- app_assoc. by rewrite Heq.
Qed.

Lemma visit_levels depth fuel level seen :
  frontier level seen -> length (unseen seen) <= fuel -> length (unseen seen) <= depth ->
  visit at_back fuel level seen = level_order depth level.
Proof.
  revert fuel level seen. induction depth as [| depth IH]; intros fuel level seen Hf Hfuel Hd.
  - assert (level = []) as ->; [| by destruct fuel].
    destruct level as [| i level]; [done |]. destruct (frontier_step _ seen i Hf). lia.
  - destruct (decide (level = [])) as [-> | Hne]; [rewrite level_order_nil; by destruct fuel |].
    destruct (visit_level fuel level [] seen) as (fuel' & seen' & Hf' & Hu & Hlen & Heq);
      [by rewrite app_nil_r | done |].
    rewrite app_nil_r in Heq. rewrite Heq. simpl. f_equal. apply (IH fuel' _ seen'); [done | done |].
    destruct level; [done | simpl in Hlen; lia].
Qed.

(** ** The postorder of any graph *)
Lemma visit_enough add f g pending seen : (forall c p, add c p ≡ₚ c ++ p) ->
  length pending + debt seen <= f -> length pending + debt seen <= g ->
  visit add f pending seen = visit add g pending seen.
Proof.
  intros Hadd. revert g pending seen. induction f as [| f IH]; intros [| g] [| i pending] seen Hf Hg;
    simpl in *; try done; try lia. case_decide as Hi; [apply IH; lia |]. f_equal.
  rewrite (debt_cons seen i Hi) in Hf, Hg. apply IH; rewrite Hadd, length_app; lia.
Qed.

Definition expanded (stack : list (nat * bool)) : list nat :=
  map fst (filter (fun entry => entry.2 = true) stack).
Definition pending_of (stack : list (nat * bool)) : list nat :=
  map fst (filter (fun entry => entry.2 = false) stack).

Lemma pending_entries l : pending_of (entries false l) = l /\ expanded (entries false l) = [].
Proof.
  unfold pending_of, expanded, entries.
  split; (induction l as [| i l IH]; [done |]); simpl; [f_equal |]; exact IH.
Qed.

Lemma pending_app s t : pending_of (s ++ t) = pending_of s ++ pending_of t.
Proof. unfold pending_of. by rewrite filter_app, map_app. Qed.
Lemma expanded_app s t : expanded (s ++ t) = expanded s ++ expanded t.
Proof. unfold expanded. by rewrite filter_app, map_app. Qed.

Lemma visit_postorder_Permutation fuel stack seen g :
  (forall i c, c ∈ children_of i -> c < length children) -> (forall e, e ∈ stack -> e.1 < length children) ->
  length stack + debt seen + length (unseen seen) <= fuel ->
  length (pending_of stack) + debt seen <= g ->
  visit_postorder fuel stack seen ≡ₚ expanded stack ++ visit on_top g (pending_of stack) seen.
Proof.
  intros Hch. revert stack seen g. induction fuel as [| fuel IH]; intros [| [i [|]] stack] seen g Hst Hfuel Hg;
    try (simpl in Hfuel; lia); try (by destruct g).
  - change (i :: visit_postorder fuel stack seen ≡ₚ i :: expanded stack ++ visit on_top g (pending_of stack) seen).
    f_equiv. apply IH; [intros e He; apply Hst; by right | simpl in Hfuel; lia | done].
  - change (pending_of ((i, false) :: stack)) with (i :: pending_of stack) in *.
    change (expanded ((i, false) :: stack)) with (expanded stack).
    destruct g as [| g]; [simpl in Hg; lia |]. cbn [visit visit_postorder].
    assert (i < length children) as Hlt by (apply (Hst (i, false)); by left).
    case_decide as Hi.
    { apply IH; [intros e He; apply Hst; by right | simpl in Hfuel; lia | simpl in Hg; lia]. }
    pose proof (debt_cons seen i Hi) as Hdebt. pose proof (unseen_cons seen i Hi Hlt) as Hu.
    assert (length (unseen seen) = S (length (unseen (i :: seen)))) as Hlen by by rewrite Hu.
    change (map (fun child => (child, false)) (children_of i)) with (entries false (children_of i)).
    rewrite (IH _ (i :: seen) g).
    + rewrite expanded_app, pending_app. destruct (pending_entries (children_of i)) as [-> ->].
      simpl. apply Permutation_middle.
    + intros e [He | [-> | He]%elem_of_cons]%elem_of_app; [| done | apply Hst; by right].
      apply list_elem_of_fmap in He as (c & -> & Hc). by eapply Hch.
    + unfold entries. rewrite length_app, length_map. simpl in *. lia.
    + rewrite pending_app. destruct (pending_entries (children_of i)) as [-> _]. rewrite length_app.
      change (pending_of ((i, true) :: stack)) with (pending_of stack). simpl in Hg. lia.
Qed.

Lemma postorder_Permutation roots :
  (forall i c, c ∈ children_of i -> c < length children) -> (forall r, r ∈ roots -> r < length children) ->
  postorder roots ≡ₚ preorder roots.
Proof.
  intros Hch Hr. unfold postorder, preorder. change (map (fun root => (root, false)) roots) with (entries false roots).
  destruct (pending_entries roots) as [Hp He].
  rewrite (visit_postorder_Permutation _ _ _ (work roots) Hch), He, Hp; [done | | |].
  - by intros e (r & -> & ?%Hr)%list_elem_of_fmap.
  - unfold work, entries. rewrite length_map, debt_nil. unfold unseen.
    pose proof (length_filter (fun i => i ∉ []) (seq 0 (length children))) as Hf. rewrite length_seq in Hf. lia.
  - rewrite Hp. unfold work. by rewrite debt_nil.
Qed.

(** ** The traversals of a forest *)
Section Forest.
Context (roots : list nat) (Hforest : forest roots).
#[local] Abbreviation depth := (length children).

Lemma unseen_nil : unseen [] = seq 0 depth.
Proof. unfold unseen. apply filter_all. intros. apply not_elem_of_nil. Qed.

Lemma forest_trees :
  Forall (shallow depth) roots /\ NoDup (flat_map (preorder_of depth) roots) /\
  length (flat_map (preorder_of depth) roots) <= depth.
Proof.
  pose proof (forest_frontier roots Hforest) as Hf.
  assert (length (unseen []) <= depth) as Hd by (rewrite unseen_nil, length_seq; lia).
  destruct (frontier_nodup depth roots [] Hf Hd) as [Hnd Hin]. split_and!; [by eapply frontier_shallow | done |].
  etrans; [apply (submseteq_length _ (seq 0 depth)) | by rewrite length_seq].
  apply NoDup_submseteq; [done |]. intros x Hx. rewrite <- unseen_nil. auto.
Qed.

Lemma forest_work : work roots = depth.
Proof.
  unfold work. pose proof (Permutation_length Hforest) as H. rewrite length_app, length_seq in H.
  rewrite <- H. f_equal. unfold total_children. clear. induction children as [| c l IH]; simpl; [done |].
  rewrite length_app. lia.
Qed.

Lemma forest_preorder : preorder roots = flat_map (preorder_of depth) roots.
Proof.
  destruct forest_trees as (Hsh & Hnd & Hlen). unfold preorder. rewrite forest_work.
  apply visit_trees; [done | done | | done]. intros x _. apply not_elem_of_nil.
Qed.

Lemma forest_postorder : postorder roots = flat_map (postorder_of depth) roots.
Proof.
  destruct forest_trees as (Hsh & Hnd & Hlen). unfold postorder. rewrite forest_work.
  change (map (fun root => (root, false)) roots) with (entries false roots).
  assert (filter (fun entry : nat * bool => entry.2 = false) (entries false roots) = entries false roots) as Hfilter.
  { apply filter_all. by intros [j b] (j' & [= -> ->] & _)%list_elem_of_fmap. }
  assert (flat_map (postorder_of depth) roots ≡ₚ flat_map (preorder_of depth) roots) as Hp.
  { clear. induction roots as [| r l IH]; simpl; [done |]. by rewrite IH, (orders_Permutation depth r). }
  rewrite <- postorder_rest_entries. apply visit_postorder_trees.
  - intros i (i' & [= ->] & Hi)%list_elem_of_fmap. by apply (proj1 (Forall_forall _ _) Hsh).
  - rewrite Hfilter, postorder_rest_entries, Hp. done.
  - intros x _. apply not_elem_of_nil.
  - rewrite cost_entries. lia.
Qed.

Lemma forest_breadth_first : breadth_first roots = level_order depth roots.
Proof.
  unfold breadth_first. rewrite forest_work.
  apply (visit_levels depth depth roots []); [by apply forest_frontier | rewrite unseen_nil, length_seq; lia..].
Qed.

Lemma forest_NoDup : NoDup (roots ++ concat children).
Proof. unfold forest in Hforest. rewrite Hforest. apply NoDup_seq. Qed.

(** Every index has at most one parent, and a root none. *)
Lemma forest_parent p q c : c ∈ children_of p -> c ∈ children_of q -> p = q.
Proof.
  assert (NoDup (concat children)) as Hnd.
  { pose proof forest_NoDup as H. by apply NoDup_app in H as (_ & _ & ?). }
  assert (forall (l : list (list nat)) (p q c : nat), NoDup (concat l) -> c ∈ default [] (l !! p) -> c ∈ default [] (l !! q) -> p = q) as H.
  { clear. induction l as [| x l IH]; intros p q c Hnd Hp Hq; [by apply not_elem_of_nil in Hp |].
    simpl in Hnd. apply NoDup_app in Hnd as (Hx & Hd & Hl).
    assert (forall p, c ∈ default [] (l !! p) -> c ∈ concat l) as Hin.
    { intros k Hk. destruct (l !! k) as [y |] eqn:Hy; [| by apply not_elem_of_nil in Hk].
      apply list_elem_of_In, in_concat. exists y. rewrite <- !list_elem_of_In. split; [| done].
      by eapply list_elem_of_lookup_2. }
    destruct p as [| p], q as [| q]; simpl in *; [done | | |].
    - by destruct (Hd c Hp); apply (Hin q).
    - by destruct (Hd c Hq); apply (Hin p).
    - f_equal. by apply (IH p q c). }
  by apply (H children).
Qed.

Lemma forest_root r p : r ∈ roots -> r ∉ children_of p.
Proof.
  intros Hr Hp. pose proof forest_NoDup as H. apply NoDup_app in H as (_ & Hd & _). apply (Hd r Hr). unfold children_of in Hp.
  destruct (children !! p) as [y |] eqn:Hy; [| by apply not_elem_of_nil in Hp].
  apply list_elem_of_In, in_concat. exists y. rewrite <- !list_elem_of_In. split; [| done].
  by eapply list_elem_of_lookup_2.
Qed.

Lemma forest_comparable a b x : descends a x -> descends b x -> descends a b \/ descends b a.
Proof.
  intros Ha. revert b. induction Ha as [| p c Hap IH Hpc]; intros b Hb; [by right |].
  inversion Hb as [| q c' Hbq Hqc]; subst; [left; by eapply descends_child |].
  assert (q = p) as -> by by eapply forest_parent. auto.
Qed.

Lemma shallow_descends d a b : shallow d a -> descends a b -> shallow d b.
Proof.
  intros Ha. induction 1 as [| p c Hd IH Hpc]; [done |]. destruct d; [done |].
  apply shallow_S. by apply (proj1 (Forall_forall _ _) IH).
Qed.

Lemma preorder_of_closed d i p c : shallow d i ->
  p ∈ preorder_of d i -> c ∈ children_of p -> c ∈ preorder_of d i.
Proof.
  revert i. induction d as [| d IH]; intros i Hi; [done |]. simpl in *.
  intros [-> | (j & Hj & Hp)%elem_of_flat_map]%elem_of_cons Hc; right; apply elem_of_flat_map.
  - exists c. split; [done |]. assert (shallow d c) as Hs by by apply (proj1 (Forall_forall _ _) Hi).
    destruct d; [done | by left].
  - exists j. split; [done |]. apply IH; [by apply (proj1 (Forall_forall _ _) Hi) | done | done].
Qed.

Lemma elem_of_preorder_of d i x : shallow d i -> x ∈ preorder_of d i <-> descends i x.
Proof.
  intros Hi. split.
  - revert i Hi. induction d as [| d IH]; intros i Hi; [done |]. simpl.
    intros [-> | (c & Hc & Hx)%elem_of_flat_map]%elem_of_cons; [constructor |].
    eapply descends_step; [done |]. apply IH; [by apply (proj1 (Forall_forall _ _) Hi) | done].
  - intros Hd. induction Hd as [| p c Hd IH Hpc]; [destruct d; [done | by left] |].
    apply (preorder_of_closed d i p c); auto.
Qed.

(** A proper descendant has the smaller tree, so nothing descends from its descendants. *)
Lemma preorder_of_length d i c : shallow d i -> c ∈ children_of i ->
  length (preorder_of d c) < length (preorder_of d i).
Proof.
  destruct d as [| d]; [done |]. intros Hi Hc. simpl in Hi.
  assert (shallow d c) as Hs by by apply (proj1 (Forall_forall _ _) Hi).
  destruct (orders_S d c Hs) as [-> _]. simpl. clear Hi Hs.
  induction (children_of i) as [| x l IH]; [by apply not_elem_of_nil in Hc |]. simpl. rewrite length_app.
  apply elem_of_cons in Hc as [-> | Hc]; [lia | specialize (IH Hc); simpl in IH; lia].
Qed.

Lemma descends_length d a b : shallow d a -> descends a b ->
  a = b \/ length (preorder_of d b) < length (preorder_of d a).
Proof.
  intros Ha Hd. induction Hd as [| p c Hd IH Hpc]; [by left | right].
  pose proof (preorder_of_length d p c (shallow_descends d a p Ha Hd) Hpc).
  destruct IH as [-> | ?]; lia.
Qed.

Lemma descends_antisym d a b : shallow d a -> descends a b -> descends b a -> a = b.
Proof.
  intros Ha Hab Hba. destruct (descends_length d a b Ha Hab) as [| Hlt]; [done |].
  destruct (descends_length d b a (shallow_descends d a b Ha Hab) Hba) as [| Hlt']; [done | lia].
Qed.

Lemma NoDup_flat_map {A B} (f : A -> list B) l x : NoDup (flat_map f l) -> x ∈ l -> NoDup (f x).
Proof.
  induction l as [| y l IH]; intros Hnd Hx; [by apply not_elem_of_nil in Hx |]. simpl in Hnd.
  apply NoDup_app in Hnd as (Hy & _ & Hl). apply elem_of_cons in Hx as [-> | Hx]; auto.
Qed.

Lemma subtree_nodup d r i : shallow d r -> NoDup (preorder_of d r) -> descends r i -> NoDup (preorder_of d i).
Proof.
  intros Hr Hnd Hd. induction Hd as [| p c Hd IH Hpc]; [done |].
  pose proof (shallow_descends d r p Hr Hd) as Hp. destruct d as [| d]; [done |].
  simpl in Hp. assert (shallow d c) as Hc by by apply (proj1 (Forall_forall _ _) Hp).
  destruct (orders_S d c Hc) as [-> _]. simpl in IH. apply NoDup_cons in IH as [_ IH].
  by apply (NoDup_flat_map (preorder_of d) (children_of p)).
Qed.

Context (Hcover : covering roots).

Lemma forest_shallow i : i < depth -> shallow depth i /\ NoDup (preorder_of depth i).
Proof.
  intros Hi. destruct (covering_reach _ Hcover i Hi) as (r & Hr & Hd). destruct forest_trees as (Hsh & Hnd & _).
  assert (shallow depth r) as Hs by by apply (proj1 (Forall_forall _ _) Hsh).
  split; [by eapply shallow_descends |]. eapply subtree_nodup; [done | | done].
  by apply (NoDup_flat_map (preorder_of depth) roots).
Qed.

(** Indices of which none descends from another have disjoint trees. *)
Definition antichain (l : list nat) : Prop :=
  NoDup l /\ (forall i, i ∈ l -> i < depth) /\ forall i j, i ∈ l -> j ∈ l -> descends i j -> i = j.

Lemma antichain_nodup l : antichain l -> NoDup (flat_map (preorder_of depth) l).
Proof.
  induction l as [| i l IH]; intros (Hnd & Hlt & Hanti); simpl; [constructor |].
  apply NoDup_cons in Hnd as [Hi Hnd].
  apply NoDup_app. split_and!.
  - apply forest_shallow, Hlt. by left.
  - intros x Hx (j & Hj & Hxj)%elem_of_flat_map.
    assert (shallow depth i /\ shallow depth j) as [Hsi Hsj]
      by (split; apply forest_shallow, Hlt; [by left | by right]).
    apply elem_of_preorder_of in Hx, Hxj; [| done..].
    destruct (forest_comparable i j x Hx Hxj) as [Hd | Hd]; apply Hanti in Hd;
      try (by left); try (by right); subst; done.
  - apply IH. split_and!; [done | | ]; intros; [apply Hlt | apply Hanti]; try (by right); done.
Qed.

Lemma children_antichain p : antichain (children_of p).
Proof.
  destruct (decide (p < depth)) as [Hp | Hp]; [| rewrite children_of_out by lia; split_and!; [constructor | set_solver..]].
  destruct (forest_shallow p Hp) as [Hs Hnd].
  assert (NoDup (children_of p)) as Hc.
  { pose proof forest_NoDup as H. apply NoDup_app in H as (_ & _ & H).
    unfold children_of. destruct (children !! p) as [y |] eqn:Hy; [| constructor]. simpl.
    apply (NoDup_flat_map id children y); [by rewrite flat_map_concat_map, map_id | by eapply list_elem_of_lookup_2]. }
  split_and!; [done | by apply (covering_children _ Hcover) |]. intros i j Hi Hj Hd.
  inversion Hd as [| q j' Hiq Hqj]; subst; [done |].
  assert (q = p) as -> by by eapply forest_parent.
  exfalso. destruct (descends_length depth i p) as [-> | Hlt]; [by apply forest_shallow, (covering_children _ Hcover p) | done | |].
  - pose proof (preorder_of_length depth p p Hs Hi). lia.
  - pose proof (preorder_of_length depth p i Hs Hi). lia.
Qed.

Lemma roots_antichain : antichain roots.
Proof.
  pose proof forest_NoDup as H. apply NoDup_app in H as (H & _ & _).
  split_and!; [done | by apply covering_roots |]. intros i j Hi Hj Hd.
  inversion Hd as [| q j' Hiq Hqj]; subst; [done |]. by destruct (forest_root j q Hj).
Qed.

Lemma sub_antichain l k : antichain k -> NoDup l -> (forall x, x ∈ l -> x ∈ k) -> antichain l.
Proof. intros (_ & Hlt & Ha) Hnd Hl. split_and!; auto. Qed.
End Forest.
End Traversal.
