(* ===== verification/AccessibilityViews.v ===== *)
(** * Immutable accessibility views

    Models [AccessibilitySnapshot] of [xenoteer-core/src/accessibility.rs]: the graph built
    from the nodes of one cache revision with its diagnostics, the traversals, what is
    shown of a node, and the compiled selectors.  The Unicode case table and the bounded
    regular expression engine (regex-automata) are parameters. *)

From stdpp Require Import base numbers list option gmap strings sorting.
From Stdlib Require Import Lia Ascii.
From S2P Require Import Prelude Identity Geometry Binary64 WindowTypes WindowQueries.
From S2P Require Import AccessibilityTypes Accessibility AccessibilityGraph.

Local Open Scope N_scope.

(** [QueryLimit] and [AccessibilityQueryError]. *)
Inductive QueryLimit := VisitedNodes | Depth | Matches | Timeout.

Module AccessibilityQueryError.
Inductive t :=
  | InvalidRequest (e : AccessibilityValidationError.t)
  | RegexBuild | Fingerprint | InvalidPageLimit
  | LimitExceeded (limit : QueryLimit)
  | Offset | ContinuationMismatch | StaleReference | NoMatch
  | Ambiguous (matches : N)
  | FutureRevision | ResyncRequired.
End AccessibilityQueryError.
Import AccessibilityQueryError.
#[local] Abbreviation QueryError := AccessibilityQueryError.t.

(** ** Orders *)

(** [compare_ref], [compare_snapshot_identity], [compare_child], [compare_optional]. *)
Definition compare_ref (left right : ElementRef.t) : comparison :=
  let bus e := bus_str (ApplicationRef.unique_bus_name (ElementRef.application e)) in
  then_with (String.compare (bus left) (bus right))
    (then_with (String.compare (path_str (ElementRef.object_path left)) (path_str (ElementRef.object_path right)))
       (N.compare (ElementRef.cache_sequence left) (ElementRef.cache_sequence right))).

Definition compare_snapshot_identity (left right : ElementSnapshot.t) : comparison :=
  compare_ref (ElementSnapshot.element left) (ElementSnapshot.element right).

Definition u32_max : N := 4294967295.

Definition compare_child (left right : ElementSnapshot.t) : comparison :=
  then_with (N.compare (default u32_max (ElementSnapshot.index_in_parent left))
                       (default u32_max (ElementSnapshot.index_in_parent right)))
    (compare_snapshot_identity left right).

Definition compare_optional (left right : option string) (reverse : bool) : comparison :=
  compare_optional_missing_last String.compare left right reverse.

(** A comparison of nodes, on their indices, which are in range. *)
Definition compare_at (nodes : list ElementSnapshot.t)
    (cmp : ElementSnapshot.t -> ElementSnapshot.t -> comparison) (left right : nat) : comparison :=
  compare_optional_missing_last cmp (nodes !! left) (nodes !! right) false.

(** ** The graph of a view *)

(** [AccessibilityGraphStatus]. *)
Record AccessibilityGraphStatus := mkGraphStatus {
  dirty : bool; resync_required : bool; graph_warnings : list AccessibilityWarning }.

(** [AccessibilityTraversalOrder]. *)
Inductive AccessibilityTraversalOrder := TraversePreorder | TraversePostorder | TraverseBreadthFirst.

Module AccessibilitySnapshot.
Record t := mk {
  desktop_id : DesktopId;
  desktop_generation : DesktopGeneration;
  atspi_generation : AtspiGeneration.t;
  revision : AccessibilityRevision.t;
  applications : list ApplicationRef.t;
  nodes : list ElementSnapshot.t;
  indices : gmap ElementRef.t nat;
  children : list (list nat);
  roots : list nat;
  graph : AccessibilityGraphStatus;
}.

(** The positions of the elements; of equal elements the last one counts. *)
Definition index_nodes (nodes : list ElementSnapshot.t) : gmap ElementRef.t nat :=
  fold_left (fun indices entry => <[ElementSnapshot.element entry.2 := entry.1]> indices)
    (zip (seq 0 (length nodes)) nodes) ∅.

(** The loop of [build] that places every node under its parent or among the roots. *)
Module Placement.
Record t := mk {
  children : list (list nat); roots : list nat; warnings : list AccessibilityWarning }.
End Placement.

Definition place_node (indices : gmap ElementRef.t nat) (state : Placement.t)
    (entry : nat * ElementSnapshot.t) : Placement.t :=
  let '(index, node) := entry in
  let 'Placement.mk children roots warnings := state in
  match ElementSnapshot.parent node ≫= (fun parent => indices !! parent) with
  | Some parent =>
      if decide (parent <> index)
      then Placement.mk (alter (fun siblings => siblings ++ [index]) parent children) roots warnings
      else Placement.mk children (roots ++ [index])
             (push_warning "accessibility.self_parent" "element names itself as parent" warnings)
  | None =>
      Placement.mk children (roots ++ [index])
        (if decide (ElementSnapshot.parent node <> None)
         then push_warning "accessibility.orphan"
                "element parent is absent from the immutable snapshot" warnings
         else warnings)
  end.

Definition place_nodes (nodes : list ElementSnapshot.t) : Placement.t :=
  fold_left (place_node (index_nodes nodes)) (zip (seq 0 (length nodes)) nodes)
    (Placement.mk (replicate (length nodes) []) [] []).

(** The sort of the siblings and of the roots. *)
Definition sort_siblings (nodes : list ElementSnapshot.t) (siblings : list nat) : list nat :=
  merge_sort (fun left right => ordering_le (compare_at nodes compare_child left right)) siblings.

(** Contradictory child indices, or more children than the parent declares. *)
Definition index_of_child (nodes : list ElementSnapshot.t) (child : nat) : option N :=
  nodes !! child ≫= ElementSnapshot.index_in_parent.

Definition metadata_conflict (nodes : list ElementSnapshot.t) (parent : nat) (siblings : list nat) : bool :=
  has_duplicates (omap (index_of_child nodes) siblings) ||
  option_exists (fun declared =>
    bool_decide (declared < len siblings) ||
    existsb (fun child => option_exists (N.leb declared) (index_of_child nodes child)) siblings)
    (nodes !! parent ≫= ElementSnapshot.child_count).

(** The indices that no root reaches become roots, one after the other. *)
Fixpoint adopt (children : list (list nat)) (candidates roots reached : list nat) : list nat :=
  match candidates with
  | [] => roots
  | index :: candidates =>
      if decide (index ∈ reached) then adopt children candidates roots reached
      else adopt children candidates (roots ++ [index]) (mark_reachable children index reached)
  end.

(** [AccessibilitySnapshot::build]. *)
Definition build (desktop : DesktopId) (generation : DesktopGeneration) (atspi : AtspiGeneration.t)
    (revision : AccessibilityRevision.t) (applications : list ApplicationRef.t)
    (nodes : list ElementSnapshot.t) : t :=
  let nodes := merge_sort (fun left right => ordering_le (compare_snapshot_identity left right)) nodes in
  let placement := place_nodes nodes in
  let children := map (sort_siblings nodes) (Placement.children placement) in
  let warnings :=
    fold_left (fun warnings entry =>
      if metadata_conflict nodes entry.1 entry.2
      then push_warning "accessibility.parent_metadata_conflict"
             "child indices or declared parent child count are contradictory" warnings
      else warnings) (zip (seq 0 (length children)) children) (Placement.warnings placement) in
  let roots := sort_siblings nodes (Placement.roots placement) in
  let reached := fold_left (fun reached root => mark_reachable children root reached) roots [] in
  let cyclic := bool_decide (length reached <> length nodes) in
  let warnings :=
    if cyclic then push_warning "accessibility.cycle"
                     "cycle or parent-only component detached from all roots" warnings
    else warnings in
  let roots := if cyclic then adopt children (seq 0 (length nodes)) roots reached else roots in
  let dirty := bool_decide (warnings <> []) in
  mk desktop generation atspi revision applications nodes (index_nodes nodes) children roots
    (mkGraphStatus dirty dirty warnings).

(** [len], [is_empty]. *)
Definition len (self : t) : N := Prelude.len (nodes self).
Definition is_empty (self : t) : bool := bool_decide (nodes self = []).
(** The nodes at a list of indices. *)
Definition nodes_at (self : t) (indices : list nat) : list ElementSnapshot.t :=
  omap (fun index => nodes self !! index) indices.

(** [traversal_indices], [traverse]. *)
Definition traversal_indices (order : AccessibilityTraversalOrder) (self : t) : list nat :=
  match order with
  | TraverseBreadthFirst => breadth_first (children self) (roots self)
  | TraversePreorder => preorder (children self) (roots self)
  | TraversePostorder => postorder (children self) (roots self)
  end.

Definition traverse (order : AccessibilityTraversalOrder) (self : t) : list ElementSnapshot.t :=
  nodes_at self (traversal_indices order self).
End AccessibilitySnapshot.

(** [AccessibilityCache::snapshot]. *)
Definition snapshot_of (cache : AccessibilityCache.t) : AccessibilitySnapshot.t :=
  AccessibilitySnapshot.build (AccessibilityCache.desktop_id cache)
    (AccessibilityCache.desktop_generation cache) (AccessibilityCache.atspi_generation cache)
    (AccessibilityCache.revision cache)
    (btree_iter ApplicationKey.cmp (AccessibilityCache.applications cache)).*2
    (btree_iter ObjectKey.cmp (AccessibilityCache.nodes cache)).*2.

(** ** Projections *)

(** [project_snapshot]. *)
Definition without_content (text : TextSnapshot.t) : TextSnapshot.t :=
  TextSnapshot.mk (TextSnapshot.character_count text) (TextSnapshot.caret_offset text)
    (TextSnapshot.selections text) None (TextSnapshot.content_truncated text)
    (TextSnapshot.protected text).

Definition project_text (expansion : Expansion.t) (text : option TextSnapshot.t) :
    option TextSnapshot.t :=
  if Expansion.text_metadata expansion
  then if Expansion.text_content expansion then text else without_content <$> text
  else None.

Definition project_snapshot (expansion : Expansion.t) (snapshot : ElementSnapshot.t) :
    ElementSnapshot.t :=
  let projected := if Expansion.actions expansion then snapshot
                   else ElementSnapshot.set_actions [] snapshot in
  let projected := if Expansion.value expansion then projected
                   else ElementSnapshot.set_value None projected in
  let projected := ElementSnapshot.set_text (project_text expansion (ElementSnapshot.text projected)) projected in
  let projected := if Expansion.attributes expansion then projected
                   else ElementSnapshot.set_attributes [] projected in
  let projected := if Expansion.relations expansion then projected
                   else ElementSnapshot.set_relations [] projected in
  let projected := if Expansion.component expansion then projected
                   else ElementSnapshot.set_component None projected in
  let protected := snapshot_declares_protected projected ||
    bool_decide (PROTECTED_REDACTED ∈ map warning_code (ElementSnapshot.warnings projected)) in
  redact_protected protected projected.

Definition project_entry (expansion : Expansion.t) (snapshot : ElementSnapshot.t) : ElementSnapshotEntry :=
  mkEntry (project_snapshot expansion snapshot).

(** ** Ranges *)

(** [in_f64_range], [in_u32_range], [rectangles_intersect]. *)
Definition in_f64_range (value : f64) (minimum maximum : option f64) : bool :=
  match minimum with Some minimum => F64.le minimum value | None => true end &&
  match maximum with Some maximum => F64.le value maximum | None => true end.

Definition in_u32_range (value : N) (minimum maximum : option N) : bool :=
  match minimum with Some minimum => minimum <=? value | None => true end &&
  match maximum with Some maximum => value <=? maximum | None => true end.

Definition rectangles_intersect (a b : Rect.t) : bool :=
  match Rect.size a, Rect.size b with
  | Ok size_a, Ok size_b =>
      let origin_a := Rect.origin a in
      let origin_b := Rect.origin b in
      let a_x2 := (Point.x origin_a + Size.width size_a)%Z in
      let a_y2 := (Point.y origin_a + Size.height size_a)%Z in
      let b_x2 := (Point.x origin_b + Size.width size_b)%Z in
      let b_y2 := (Point.y origin_b + Size.height size_b)%Z in
      bool_decide (Point.x origin_a < b_x2 /\ Point.x origin_b < a_x2 /\
                   Point.y origin_a < b_y2 /\ Point.y origin_b < a_y2)%Z
  | _, _ => false
  end.

(** The component of a snapshot in a coordinate space intersects a rectangle. *)
Definition component_intersects (snapshot : ElementSnapshot.t) (coordinate_space : CoordinateSpace)
    (rect : Rect.t) : bool :=
  option_exists (fun component =>
    bool_decide (component_space component = coordinate_space) &&
    option_exists (fun candidate => rectangles_intersect candidate rect) (extents component))
    (ElementSnapshot.component snapshot).

(** [is_correlated_with_window]. *)
Definition is_correlated_with_window (snapshot : ElementSnapshot.t) (window : WindowRef.t) : bool :=
  let correlation := ElementSnapshot.window_correlation snapshot in
  bool_decide (correlated_window correlation = Some window) &&
  bool_decide (correlation_confidence correlation <> CorrelationNone).

(** ** Results *)

(** [AccessibilityContinuationDescriptor]; [AccessibilityQueryProjection];
    [AccessibilityWaitEvaluation]. *)
Module Continuation.
Record t {fingerprint : Type} := mk {
  desktop_id : DesktopId; desktop_generation : DesktopGeneration;
  atspi_generation : AtspiGeneration.t; snapshot_revision : AccessibilityRevision.t;
  selector_fingerprint : fingerprint; order : ElementOrder; expansion : Expansion.t;
  next_offset : N }.
Arguments t : clear implicits.
Arguments mk {fingerprint}.
End Continuation.

Module QueryProjection.
Record t {fingerprint : Type} := mk {
  desktop_id : DesktopId; desktop_generation : DesktopGeneration;
  atspi_generation : AtspiGeneration.t; snapshot_revision : AccessibilityRevision.t;
  elements : list ElementSnapshotEntry; visited_nodes : N; total_matches : N;
  next_offset : option N; continuation : option (Continuation.t fingerprint);
  warnings : list AccessibilityWarning }.
Arguments t : clear implicits.
Arguments mk {fingerprint}.
End QueryProjection.

Module WaitEvaluation.
Record t := mk {
  evaluated_revision : AccessibilityRevision.t; predicate_satisfied : bool;
  selected_count : N; satisfying_count : N; satisfying_elements : list ElementSnapshotEntry;
  warnings : list AccessibilityWarning }.
End WaitEvaluation.

(** ** Compiled selectors *)
Module ElementEngine.
Section Engine.
Context (to_lowercase : string -> string).
Context {nfa pikevm : Type} (nfa_build : string -> bool -> option nfa).
Context (pikevm_new : nfa -> option pikevm) (is_match : pikevm -> string -> bool).
Context {fingerprint : Type} `{EqDecision fingerprint}.
Context (fingerprint_of : ElementSelector.t -> option fingerprint).

(** [fold]. *)
Definition fold (value : string) (case_sensitive : bool) : string :=
  if case_sensitive then value else to_lowercase value.

(** [CompiledStringMatch]; the scratch cache of the PikeVM holds no state of the search. *)
Inductive CompiledStringMatch :=
  | CompiledExact (value : string) (case_sensitive : bool)
  | CompiledContains (value : string) (case_sensitive : bool)
  | CompiledPrefix (value : string) (case_sensitive : bool)
  | CompiledSuffix (value : string) (case_sensitive : bool)
  | CompiledRegex (regex : pikevm).

(** [CompiledStringMatch::compile]. *)
Definition compile_match (matcher : ElementStringMatch.t) : result CompiledStringMatch QueryError :=
  match matcher with
  | ElementStringMatch.Exact value sensitive => Ok (CompiledExact (fold value sensitive) sensitive)
  | ElementStringMatch.Contains value sensitive => Ok (CompiledContains (fold value sensitive) sensitive)
  | ElementStringMatch.Prefix value sensitive => Ok (CompiledPrefix (fold value sensitive) sensitive)
  | ElementStringMatch.Suffix value sensitive => Ok (CompiledSuffix (fold value sensitive) sensitive)
  | ElementStringMatch.Regex pattern sensitive =>
      let? nfa := ok_or (nfa_build pattern sensitive) RegexBuild in
      let? regex := ok_or (pikevm_new nfa) RegexBuild in
      Ok (CompiledRegex regex)
  end.

(** [CompiledStringMatch::matches]. *)
Definition match_text (self : CompiledStringMatch) (candidate : string) : bool :=
  match self with
  | CompiledExact value sensitive => bool_decide (fold candidate sensitive = value)
  | CompiledContains value sensitive => contains (fold candidate sensitive) value
  | CompiledPrefix value sensitive => starts_with (fold candidate sensitive) value
  | CompiledSuffix value sensitive => ends_with (fold candidate sensitive) value
  | CompiledRegex regex => is_match regex candidate
  end.

(** [CompiledPredicate]: the predicates on texts are compiled, the others kept. *)
Inductive TextField := NameField | DescriptionField | AccessibleIdField | AttributeField (name : string) | ActionField.

Inductive CompiledPredicate :=
  | CompiledText (field : TextField) (matcher : CompiledStringMatch)
  | CompiledOther (predicate : ElementPredicate.t).

(** [CompiledPredicate::compile]. *)
Definition compile_predicate (predicate : ElementPredicate.t) : result CompiledPredicate QueryError :=
  let text field matcher := let? matcher := compile_match matcher in Ok (CompiledText field matcher) in
  match predicate with
  | ElementPredicate.Name matcher => text NameField matcher
  | ElementPredicate.Description matcher => text DescriptionField matcher
  | ElementPredicate.AccessibleId matcher => text AccessibleIdField matcher
  | ElementPredicate.Attribute name matcher => text (AttributeField name) matcher
  | ElementPredicate.Action matcher => text ActionField matcher
  | predicate => Ok (CompiledOther predicate)
  end.

(** [CompiledPredicate::matches], on the texts and on the predicates kept. *)
Definition match_field (field : TextField) (matcher : CompiledStringMatch) (snapshot : ElementSnapshot.t) : bool :=
  match field with
  | NameField => option_exists (match_text matcher) (ElementSnapshot.name snapshot)
  | DescriptionField => option_exists (match_text matcher) (ElementSnapshot.description snapshot)
  | AccessibleIdField => option_exists (match_text matcher) (ElementSnapshot.accessible_id snapshot)
  | AttributeField name =>
      existsb (fun attribute => bool_decide (attribute_name attribute = name) &&
                                match_text matcher (attribute_value attribute))
        (ElementSnapshot.attributes snapshot)
  | ActionField => existsb (fun action => match_text matcher (action_name action)) (ElementSnapshot.actions snapshot)
  end.

Definition match_other (predicate : ElementPredicate.t) (snapshot : ElementSnapshot.t) : bool :=
  match predicate with
  | ElementPredicate.Role roles => bool_decide (role (ElementSnapshot.role snapshot) ∈ roles)
  | ElementPredicate.State state value =>
      bool_decide (bool_decide (state ∈ ElementSnapshot.states snapshot) = value)
  | ElementPredicate.Interface interface => bool_decide (interface ∈ ElementSnapshot.interfaces snapshot)
  | ElementPredicate.ValueRange minimum maximum =>
      option_exists (fun value => in_f64_range (value_current value) minimum maximum)
        (ElementSnapshot.value snapshot)
  | ElementPredicate.IndexInParent index => bool_decide (ElementSnapshot.index_in_parent snapshot = Some index)
  | ElementPredicate.ChildCount minimum maximum =>
      option_exists (fun count => in_u32_range count minimum maximum) (ElementSnapshot.child_count snapshot)
  | ElementPredicate.Relation wanted target =>
      existsb (fun candidate => bool_decide (relation candidate = wanted /\ target ∈ targets candidate))
        (ElementSnapshot.relations snapshot)
  | ElementPredicate.ComponentIntersects coordinate_space rect =>
      component_intersects snapshot coordinate_space rect
  | _ => false
  end.

Definition match_predicate (self : CompiledPredicate) (snapshot : ElementSnapshot.t) : bool :=
  match self with
  | CompiledText field matcher => match_field field matcher snapshot
  | CompiledOther predicate => match_other predicate snapshot
  end.

(** [CompiledSelector::compile], [CompiledSelector::matches]. *)
Definition compile (selector : ElementSelector.t) : result (list CompiledPredicate) QueryError :=
  collect compile_predicate (ElementSelector.predicates selector).
Definition matches (self : list CompiledPredicate) (snapshot : ElementSnapshot.t) : bool :=
  forallb (fun predicate => match_predicate predicate snapshot) self.

(** [wait_predicate_matches]. *)
Definition wait_predicate_matches (snapshot : ElementSnapshot.t) (predicate : ElementWaitPredicate.t) :
    result bool QueryError :=
  match predicate with
  | ElementWaitPredicate.Exists_ => Ok true
  | ElementWaitPredicate.Gone | ElementWaitPredicate.SelectorCount _ _ => Ok false
  | ElementWaitPredicate.State state value =>
      Ok (bool_decide (bool_decide (state ∈ ElementSnapshot.states snapshot) = value))
  | ElementWaitPredicate.Name matcher =>
      let? matcher := compile_match matcher in
      Ok (option_exists (match_text matcher) (ElementSnapshot.name snapshot))
  | ElementWaitPredicate.Value minimum maximum =>
      Ok (option_exists (fun value => in_f64_range (value_current value) minimum maximum)
            (ElementSnapshot.value snapshot))
  | ElementWaitPredicate.Text_ matcher =>
      let? matcher := compile_match matcher in
      Ok (option_exists (fun content => match_text matcher (expose content))
            (ElementSnapshot.text snapshot ≫= TextSnapshot.content))
  | ElementWaitPredicate.ChildCount minimum maximum =>
      Ok (option_exists (fun count => in_u32_range count minimum maximum) (ElementSnapshot.child_count snapshot))
  | ElementWaitPredicate.Geometry_ coordinate_space intersects =>
      Ok (component_intersects snapshot coordinate_space intersects)
  end.
End Engine.
End ElementEngine.
