(* ===== verification/AccessibilityQueries.v ===== *)
(** * Queries and waits over an accessibility view

    Models the operations of [AccessibilitySnapshot] in [xenoteer-core/src/accessibility.rs]
    that read the graph of a view under a deadline: the scope of a selector, the bounded
    scan, the orders, the pages and their continuations, the resolution to exactly one
    element and the evaluation of waits; and the two checks of a wait on the cache with the
    registry of pending waits.  Every budgeted stage reads the clock, a parameter: the state
    of the methods is the state of the clock. *)

From stdpp Require Import base numbers list option gmap strings sorting.
From Stdlib Require Import Lia.
From S2P Require RuntimeTypes.
From S2P Require Import Prelude Identity WindowTypes WindowQueries.
From S2P Require Import AccessibilityTypes Accessibility AccessibilityGraph AccessibilityViews.

Local Open Scope N_scope.
Import AccessibilityQueryError AccessibilitySnapshot.
#[local] Abbreviation QueryError := AccessibilityQueryError.t.

(** [usize::MAX]; [u16::checked_add]; the cast [as u32]. *)
Definition usize_max : N := u64_max.
Definition checked_add_u16 (a b : N) : option N := if decide (a + b <= 65535) then Some (a + b) else None.
Definition checked_add_u32 (a b : N) : option N := if decide (a + b <= u32_max) then Some (a + b) else None.
Definition as_u32 (n : N) : N := n mod 4294967296.
(** [u32::try_from]. *)
Definition try_u32 {E} (n : N) (e : E) : result N E := try! ensure (u32_max < n) e in Ok n.

(** ** The order of a result *)

(** [preorder_rank]: the position of every index in the preorder. *)
Definition preorder_rank (count : nat) (children : list (list nat)) (roots : list nat) : list N :=
  let order := preorder children roots in
  fold_left (fun rank entry => <[entry.1 := N.of_nat entry.2]> rank)
    (zip order (seq 0 (length order))) (replicate count usize_max).

(** The comparison of [order_indices], when the order is not a preorder. *)
Definition compare_ordered (order : ElementOrder) (left right : ElementSnapshot.t) : comparison :=
  let primary :=
    match order with
    | NameAscending => compare_optional (ElementSnapshot.name left) (ElementSnapshot.name right) false
    | NameDescending => compare_optional (ElementSnapshot.name left) (ElementSnapshot.name right) true
    | RoleThenName =>
        then_with (ElementRole.cmp (role (ElementSnapshot.role left)) (role (ElementSnapshot.role right)))
          (compare_optional (ElementSnapshot.name left) (ElementSnapshot.name right) false)
    | ObjectPathAscending =>
        String.compare (path_str (ElementRef.object_path (ElementSnapshot.element left)))
          (path_str (ElementRef.object_path (ElementSnapshot.element right)))
    | Preorder | ReversePreorder => Eq
    end in
  then_with primary (compare_ref (ElementSnapshot.element left) (ElementSnapshot.element right)).

(** [order_indices]. *)
Definition order_indices (indices : list nat) (nodes : list ElementSnapshot.t) (order : ElementOrder)
    (children : list (list nat)) (roots : list nat) : list nat :=
  match order with
  | Preorder | ReversePreorder =>
      let rank := preorder_rank (length nodes) children roots in
      let rank_at index := default usize_max (rank !! index) in
      let indices := merge_sort (fun left right => Is_true (rank_at left <=? rank_at right)) indices in
      if decide (order = ReversePreorder) then rev indices else indices
  | _ => merge_sort (fun left right => ordering_le (compare_at nodes (compare_ordered order) left right)) indices
  end.

(** ** The ancestors of a node *)

(** The parent of a node, if it is in the view. *)
Definition parent_index (self : AccessibilitySnapshot.t) (index : nat) : option nat :=
  (nodes self !! index ≫= ElementSnapshot.parent) ≫= (fun parent => indices self !! parent).

Definition correlated_at (self : AccessibilitySnapshot.t) (window : WindowRef.t) (index : nat) : bool :=
  option_exists (fun node => is_correlated_with_window node window) (nodes self !! index).

(** The loop of [is_highest_window_correlated]; [None]: it goes on. *)
Fixpoint climb (fuel : nat) (self : AccessibilitySnapshot.t) (window : WindowRef.t) (parent : option nat) :
    option bool :=
  match parent, fuel with
  | None, _ => Some true
  | Some _, O => None
  | Some parent, S fuel =>
      if correlated_at self window parent then Some false
      else climb fuel self window (parent_index self parent)
  end.

(** [is_highest_window_correlated]. *)
Definition is_highest_window_correlated (self : AccessibilitySnapshot.t) (index : nat)
    (window : WindowRef.t) : option bool :=
  if correlated_at self window index
  then climb (length (nodes self)) self window (parent_index self index)
  else Some false.

(** ** Fences *)

(** [require_clean_graph]. *)
Definition require_clean_graph (self : AccessibilitySnapshot.t) : result unit QueryError :=
  ensure (AccessibilityViews.resync_required (graph self) = true) ResyncRequired.

(** [require_selector_generation]. *)
Definition require_view_application (self : AccessibilitySnapshot.t) (application : ApplicationRef.t) :
    result unit QueryError :=
  ensure (~ (ApplicationRef.atspi_generation application = atspi_generation self /\
             application ∈ applications self)) StaleReference.

Definition require_view_element (self : AccessibilitySnapshot.t) (element : ElementRef.t) :
    result unit QueryError :=
  ensure (~ (ElementRef.atspi_generation element = atspi_generation self /\
             ApplicationRef.atspi_generation (ElementRef.application element) = atspi_generation self /\
             is_Some (indices self !! element))) StaleReference.

Definition require_selector_generation (self : AccessibilitySnapshot.t) (selector : ElementSelector.t) :
    result unit QueryError :=
  try! match ElementSelector.scope selector with
       | ElementScope.Application application => require_view_application self application
       | ElementScope.Subtree root _ => require_view_element self root
       | ElementScope.Children parent => require_view_element self parent
       | ElementScope.Desktop | ElementScope.Window _ => Ok tt
       end in
  try_each (fun predicate =>
    match predicate with
    | ElementPredicate.Relation _ target => require_view_element self target
    | _ => Ok tt
    end) (ElementSelector.predicates selector).

Module ElementQueries.
Import ElementEngine.
Section Queries.
Context (to_lowercase : string -> string).
Context {nfa pikevm : Type} (nfa_build : string -> bool -> option nfa).
Context (pikevm_new : nfa -> option pikevm) (is_match : pikevm -> string -> bool).
Context {fingerprint : Type} `{EqDecision fingerprint}.
Context (fingerprint_of : ElementSelector.t -> option fingerprint).
Context {C : Type} (instant_now : C -> C * N).

(** [accessibility_selector_fingerprint]. *)
Definition accessibility_selector_fingerprint (selector : ElementSelector.t) : result fingerprint QueryError :=
  ok_or (fingerprint_of selector) Fingerprint.

(** ** [AccessibilityQueryDeadline] *)
Definition clock_now : M C QueryError N := fun clock => let '(clock, now) := instant_now clock in (clock, Ok now).

(** [from_timeout_ms], [at], [earliest] and [check]. *)
Definition from_timeout_ms (timeout_ms : N) : M C QueryError N :=
  now <- clock_now ;;
  lift (ok_or (RuntimeTypes.instant_checked_add now (timeout_ms * 1000000)) (LimitExceeded Timeout)).
Definition at_deadline (deadline : N) : N := deadline.
Definition earliest (self other : N) : N := N.min self other.
Definition check_deadline (deadline : N) : M C QueryError unit :=
  now <- clock_now ;;
  reject_if (deadline <= now) (LimitExceeded Timeout).

(** ** The scope *)

(** The loops that choose the roots of a scope, under the deadline. *)
Fixpoint choose_roots (keep : nat -> bool) (deadline : N) (candidates : list nat) :
    M C QueryError (list nat) :=
  match candidates with
  | [] => ret []
  | index :: candidates =>
      check_deadline deadline ;;;
      chosen <- choose_roots keep deadline candidates ;;
      ret (if keep index then index :: chosen else chosen)
  end.

(** The loop of [scope_indices]: a stack of indices with their depths, the top first. *)
Fixpoint descend (fuel : nat) (children : list (list nat)) (max_depth deadline : N)
    (stack : list (nat * N)) (seen : list nat) : M C QueryError (list (nat * N)) :=
  match fuel, stack with
  | S fuel, (index, depth) :: stack =>
      check_deadline deadline ;;;
      if decide (index ∈ seen) then descend fuel children max_depth deadline stack seen
      else
        reject_if (max_depth < depth) (LimitExceeded Depth) ;;;
        child_depth <- lift (ok_or (checked_add_u16 depth 1) (LimitExceeded Depth)) ;;
        output <- descend fuel children max_depth deadline
                    (map (fun child => (child, child_depth)) (children_of children index) ++ stack)
                    (index :: seen) ;;
        ret ((index, depth) :: output)
  | _, _ => ret []
  end.

(** The roots of a scope that are then descended from. *)
Definition application_at (self : AccessibilitySnapshot.t) (application : ApplicationRef.t) (index : nat) : bool :=
  option_exists (fun node => bool_decide (ElementRef.application (ElementSnapshot.element node) = application))
    (nodes self !! index).

Definition position_of (self : AccessibilitySnapshot.t) (element : ElementRef.t) : result nat QueryError :=
  ok_or (indices self !! element) StaleReference.

Definition scope_roots (self : AccessibilitySnapshot.t) (scope : ElementScope.t) (deadline : N) :
    M C QueryError (list nat) :=
  match scope with
  | ElementScope.Desktop => ret (roots self)
  | ElementScope.Application application =>
      choose_roots (application_at self application) deadline (roots self)
  | ElementScope.Window window =>
      choose_roots (fun index => default false (is_highest_window_correlated self index window)) deadline
        (seq 0 (length (nodes self)))
  | ElementScope.Subtree root include_root =>
      root <- lift (position_of self root) ;;
      ret (if include_root : bool then [root] else children_of (children self) root)
  | ElementScope.Children _ => ret []
  end.

(** [scope_indices]. *)
Definition scope_indices (self : AccessibilitySnapshot.t) (scope : ElementScope.t) (max_depth deadline : N) :
    M C QueryError (list (nat * N)) :=
  check_deadline deadline ;;;
  match scope with
  | ElementScope.Children parent =>
      parent <- lift (position_of self parent) ;;
      check_deadline deadline ;;;
      ret (map (fun index => (index, 1)) (children_of (children self) parent))
  | _ =>
      starts <- scope_roots self scope deadline ;;
      descend (work (children self) starts) (children self) max_depth deadline
        (map (fun index => (index, 0)) starts) []
  end.

(** ** Queries *)

(** The loop over the scoped nodes; the number visited and the indices that match. *)
Fixpoint scan (self : AccessibilitySnapshot.t) (compiled : list CompiledPredicate) (limits : QueryLimits.t)
    (deadline visited : N) (found : list nat) (scoped : list (nat * N)) : M C QueryError (N * list nat) :=
  match scoped with
  | [] => ret (visited, found)
  | (index, depth) :: scoped =>
      check_deadline deadline ;;;
      visited <- lift (ok_or (checked_add_u32 visited 1) (LimitExceeded VisitedNodes)) ;;
      reject_if (QueryLimits.max_visited_nodes limits < visited) (LimitExceeded VisitedNodes) ;;;
      reject_if (QueryLimits.max_depth limits < depth) (LimitExceeded Depth) ;;;
      if option_exists (matches to_lowercase is_match compiled) (nodes self !! index) then
        reject_if (QueryLimits.max_matches limits < Prelude.len (found ++ [index])) (LimitExceeded Matches) ;;;
        scan self compiled limits deadline visited (found ++ [index]) scoped
      else scan self compiled limits deadline visited found scoped
  end.

(** [result_index] selects one match. *)
Definition selected_match (result_index : option N) (found : list nat) : list nat :=
  match result_index with
  | None => found
  | Some index => option_list (found !! N.to_nat index)
  end.

(** [ElementSnapshotEntry]s of indices. *)
Definition entries_at (self : AccessibilitySnapshot.t) (expansion : Expansion.t) (indices : list nat) :
    list ElementSnapshotEntry :=
  map (project_entry expansion) (nodes_at self indices).

(** [AccessibilitySnapshot::query_with_deadline]. *)
Definition query_with_deadline (self : AccessibilitySnapshot.t) (selector : ElementSelector.t)
    (expansion : Expansion.t) (limits : QueryLimits.t) (limit offset deadline : N) :
    M C QueryError (QueryProjection.t fingerprint) :=
  check_deadline deadline ;;;
  lift (map_err InvalidRequest
          (ElementSelector.validate_for (desktop_id self) (desktop_generation self) selector)) ;;;
  lift (map_err InvalidRequest (Expansion.validate expansion)) ;;;
  lift (map_err InvalidRequest (QueryLimits.validate limits)) ;;;
  reject_if (limit = 0 \/ QueryLimits.max_matches limits < limit) InvalidPageLimit ;;;
  lift (require_clean_graph self) ;;;
  lift (require_selector_generation self selector) ;;;
  selector_fingerprint <- lift (accessibility_selector_fingerprint selector) ;;
  compiled <- lift (compile to_lowercase nfa_build pikevm_new selector) ;;
  check_deadline deadline ;;;
  scoped <- scope_indices self (ElementSelector.scope selector) (QueryLimits.max_depth limits) deadline ;;
  scanned <- scan self compiled limits deadline 0 [] scoped ;;
  let '(visited, found) := scanned in
  let found := order_indices found (nodes self) (ElementSelector.order selector) (children self) (roots self) in
  check_deadline deadline ;;;
  let found := selected_match (ElementSelector.result_index selector) found in
  reject_if (Prelude.len found < offset \/ (offset = Prelude.len found /\ offset <> 0)) Offset ;;;
  let last := N.min (offset + limit) (Prelude.len found) in
  let page := take (N.to_nat (last - offset)) (drop (N.to_nat offset) found) in
  let elements := entries_at self expansion page in
  next_offset <- lift (if decide (last < Prelude.len found)
                       then let? next := try_u32 last (LimitExceeded Matches) in Ok (Some next)
                       else Ok None) ;;
  let continuation :=
    (fun next_offset =>
       Continuation.mk (desktop_id self) (desktop_generation self) (atspi_generation self)
         (AccessibilitySnapshot.revision self) selector_fingerprint (ElementSelector.order selector)
         expansion next_offset) <$> next_offset in
  check_deadline deadline ;;;
  total_matches <- lift (try_u32 (Prelude.len found) (LimitExceeded Matches)) ;;
  ret (QueryProjection.mk (desktop_id self) (desktop_generation self) (atspi_generation self)
         (AccessibilitySnapshot.revision self) elements visited total_matches next_offset continuation
         (graph_warnings (graph self))).

(** [AccessibilitySnapshot::query]. *)
Definition query (self : AccessibilitySnapshot.t) (selector : ElementSelector.t) (expansion : Expansion.t)
    (limits : QueryLimits.t) (limit offset : N) : M C QueryError (QueryProjection.t fingerprint) :=
  lift (map_err InvalidRequest (QueryLimits.validate limits)) ;;;
  deadline <- from_timeout_ms (QueryLimits.timeout_ms limits) ;;
  query_with_deadline self selector expansion limits limit offset deadline.

(** [AccessibilitySnapshot::list_with_deadline], [list]. *)
Definition list_with_deadline (self : AccessibilitySnapshot.t) (scope : ElementScope.t) (order : ElementOrder)
    (expansion : Expansion.t) (limits : QueryLimits.t) (limit offset deadline : N) :
    M C QueryError (QueryProjection.t fingerprint) :=
  query_with_deadline self (ElementSelector.mk scope [] order None) expansion limits limit offset deadline.

Definition list_elements (self : AccessibilitySnapshot.t) (scope : ElementScope.t) (order : ElementOrder)
    (expansion : Expansion.t) (limits : QueryLimits.t) (limit offset : N) :
    M C QueryError (QueryProjection.t fingerprint) :=
  lift (map_err InvalidRequest (QueryLimits.validate limits)) ;;;
  deadline <- from_timeout_ms (QueryLimits.timeout_ms limits) ;;
  list_with_deadline self scope order expansion limits limit offset deadline.

(** [AccessibilitySnapshot::continue_query_with_deadline], [continue_query]; the
    fingerprint is computed only when every comparison before it succeeds. *)
Definition continue_query_with_deadline (self : AccessibilitySnapshot.t) (selector : ElementSelector.t)
    (limits : QueryLimits.t) (limit : N) (continuation : Continuation.t fingerprint) (deadline : N) :
    M C QueryError (QueryProjection.t fingerprint) :=
  check_deadline deadline ;;;
  reject_if (Continuation.desktop_id continuation <> desktop_id self \/
             Continuation.desktop_generation continuation <> desktop_generation self \/
             Continuation.atspi_generation continuation <> atspi_generation self \/
             Continuation.snapshot_revision continuation <> AccessibilitySnapshot.revision self)
    ContinuationMismatch ;;;
  selector_fingerprint <- lift (accessibility_selector_fingerprint selector) ;;
  reject_if (Continuation.selector_fingerprint continuation <> selector_fingerprint \/
             Continuation.order continuation <> ElementSelector.order selector) ContinuationMismatch ;;;
  query_with_deadline self selector (Continuation.expansion continuation) limits limit
    (Continuation.next_offset continuation) deadline.

Definition continue_query (self : AccessibilitySnapshot.t) (selector : ElementSelector.t)
    (limits : QueryLimits.t) (limit : N) (continuation : Continuation.t fingerprint) :
    M C QueryError (QueryProjection.t fingerprint) :=
  lift (map_err InvalidRequest (QueryLimits.validate limits)) ;;;
  deadline <- from_timeout_ms (QueryLimits.timeout_ms limits) ;;
  continue_query_with_deadline self selector limits limit continuation deadline.

(** [AccessibilitySnapshot::resolve_exact]; the position of an element is in range. *)
Definition resolve_exact (self : AccessibilitySnapshot.t) (element : ElementRef.t) (expansion : Expansion.t) :
    result ElementSnapshotEntry QueryError :=
  let? index := position_of self element in
  let? node := ok_or (nodes self !! index) StaleReference in
  Ok (project_entry expansion node).

(** [AccessibilitySnapshot::resolve_exactly_one_with_deadline], [resolve_exactly_one]. *)
Definition resolve_exactly_one_with_deadline (self : AccessibilitySnapshot.t) (selector : ElementSelector.t)
    (expansion : Expansion.t) (limits : QueryLimits.t) (deadline : N) : M C QueryError ElementSnapshotEntry :=
  projection <- query_with_deadline self selector expansion limits (QueryLimits.max_matches limits) 0 deadline ;;
  lift match QueryProjection.total_matches projection with
       | 0 => Err NoMatch
       | 1 => ok_or (head (QueryProjection.elements projection)) NoMatch
       | total => Err (Ambiguous total)
       end.

Definition resolve_exactly_one (self : AccessibilitySnapshot.t) (selector : ElementSelector.t)
    (expansion : Expansion.t) (limits : QueryLimits.t) : M C QueryError ElementSnapshotEntry :=
  lift (map_err InvalidRequest (QueryLimits.validate limits)) ;;;
  deadline <- from_timeout_ms (QueryLimits.timeout_ms limits) ;;
  resolve_exactly_one_with_deadline self selector expansion limits deadline.

(** ** Waits *)

(** The elements a wait selects, with its quantifier. *)
Definition wait_selection (self : AccessibilitySnapshot.t) (request : ElementWaitRequest.t) (deadline : N) :
    M C QueryError (list nat * ElementWaitQuantifier.t) :=
  match ElementWaitRequest.target request with
  | WaitReference element => ret (option_list (indices self !! element), ElementWaitQuantifier.Any)
  | WaitSelector selector quantifier =>
      let limits := ElementWaitRequest.limits request in
      projection <- query_with_deadline self selector (ElementWaitRequest.expansion request) limits
                      (QueryLimits.max_matches limits) 0 deadline ;;
      ret (omap (fun entry => indices self !! ElementSnapshot.element (snapshot entry))
             (QueryProjection.elements projection), quantifier)
  end.

(** The loop over the selected elements; their indices are in range. *)
Fixpoint satisfying_of (self : AccessibilitySnapshot.t) (predicate : ElementWaitPredicate.t) (deadline : N)
    (selected : list nat) : M C QueryError (list nat) :=
  match selected with
  | [] => ret []
  | index :: selected =>
      check_deadline deadline ;;;
      node <- lift (ok_or (nodes self !! index) StaleReference) ;;
      holds <- lift (wait_predicate_matches to_lowercase nfa_build pikevm_new is_match node predicate) ;;
      rest <- satisfying_of self predicate deadline selected ;;
      ret (if holds : bool then index :: rest else rest)
  end.

Definition selector_count_satisfied (predicate : ElementWaitPredicate.t) (selected_count : N) : option bool :=
  match predicate with
  | ElementWaitPredicate.SelectorCount minimum maximum => Some (in_u32_range selected_count (Some minimum) maximum)
  | _ => None
  end.

(** The aggregate of a wait on a reference, and on a selector. *)
Definition reference_satisfied (predicate : ElementWaitPredicate.t) (selected_count satisfying_count : N) : bool :=
  match predicate with
  | ElementWaitPredicate.Exists_ => bool_decide (selected_count = 1)
  | ElementWaitPredicate.Gone => bool_decide (selected_count = 0)
  | _ => bool_decide (satisfying_count = 1)
  end.

Definition quantifier_satisfied (quantifier : ElementWaitQuantifier.t) (selected_count satisfying_count : N) : bool :=
  match quantifier with
  | ElementWaitQuantifier.Any => bool_decide (0 < satisfying_count)
  | ElementWaitQuantifier.All => bool_decide (0 < selected_count /\ satisfying_count = selected_count)
  | ElementWaitQuantifier.ExactlyOne => bool_decide (satisfying_count = 1)
  | ElementWaitQuantifier.None_ => bool_decide (satisfying_count = 0)
  end.

Definition aggregate_satisfied (request : ElementWaitRequest.t) (quantifier : ElementWaitQuantifier.t)
    (selected_count satisfying_count : N) : bool :=
  match ElementWaitRequest.target request with
  | WaitReference _ =>
      reference_satisfied (ElementWaitRequest.predicate request) selected_count satisfying_count
  | WaitSelector _ _ =>
      default (quantifier_satisfied quantifier selected_count satisfying_count)
        (selector_count_satisfied (ElementWaitRequest.predicate request) selected_count)
  end.

(** [AccessibilitySnapshot::evaluate_wait_with_deadline]. *)
Definition evaluate_wait_with_deadline (self : AccessibilitySnapshot.t) (request : ElementWaitRequest.t)
    (deadline : N) : M C QueryError WaitEvaluation.t :=
  let revision := AccessibilitySnapshot.revision self in
  check_deadline deadline ;;;
  lift (map_err InvalidRequest (ElementWaitRequest.validate request)) ;;;
  lift (require_clean_graph self) ;;;
  reject_if (option_exists (fun after => AccessibilityRevision.get revision <? AccessibilityRevision.get after)
               (ElementWaitRequest.after_revision request) = true) FutureRevision ;;;
  selection <- wait_selection self request deadline ;;
  let '(selected, quantifier) := selection in
  let selected_count := as_u32 (Prelude.len selected) in
  let predicate := ElementWaitRequest.predicate request in
  satisfying <- (match selector_count_satisfied predicate selected_count with
                 | None => satisfying_of self predicate deadline selected
                 | Some _ => ret []
                 end) ;;
  let satisfying_count := as_u32 (Prelude.len satisfying) in
  let satisfied := aggregate_satisfied request quantifier selected_count satisfying_count in
  let after_boundary_met :=
    match ElementWaitRequest.after_revision request with
    | Some after => AccessibilityRevision.get after <? AccessibilityRevision.get revision
    | None => true
    end in
  check_deadline deadline ;;;
  ret (WaitEvaluation.mk revision (satisfied && after_boundary_met) selected_count satisfying_count
         (entries_at self (ElementWaitRequest.expansion request) satisfying) (graph_warnings (graph self))).

(** [AccessibilitySnapshot::evaluate_wait]. *)
Definition evaluate_wait (self : AccessibilitySnapshot.t) (request : ElementWaitRequest.t) :
    M C QueryError WaitEvaluation.t :=
  lift (map_err InvalidRequest (ElementWaitRequest.validate request)) ;;;
  deadline <- from_timeout_ms (QueryLimits.timeout_ms (ElementWaitRequest.limits request)) ;;
  evaluate_wait_with_deadline self request deadline.

(** [PreparedAccessibilityWait]; [AccessibilityCache::prepare_wait], [recheck_wait]. *)
Record PreparedAccessibilityWait := mkPreparedWait {
  wait_request : ElementWaitRequest.t;
  registered_at : AccessibilityRevision.t;
  prepared_generation : AtspiGeneration.t;
  initial : WaitEvaluation.t;
}.

Definition prepare_wait (cache : AccessibilityCache.t) (request : ElementWaitRequest.t) :
    M C QueryError PreparedAccessibilityWait :=
  evaluation <- evaluate_wait (snapshot_of cache) request ;;
  ret (mkPreparedWait request (AccessibilityCache.revision cache) (AccessibilityCache.atspi_generation cache)
         evaluation).

Definition recheck_wait (cache : AccessibilityCache.t) (prepared : PreparedAccessibilityWait) :
    M C QueryError WaitEvaluation.t :=
  reject_if (prepared_generation prepared <> AccessibilityCache.atspi_generation cache) ResyncRequired ;;;
  if decide (registered_at prepared = AccessibilityCache.revision cache) then ret (initial prepared)
  else evaluate_wait (snapshot_of cache) (wait_request prepared).
End Queries.
End ElementQueries.

(** ** [AccessibilityWaitRegistry] *)

(** [AccessibilityWaitRegistrationError]. *)
Inductive AccessibilityWaitRegistrationError := InvalidCapacity | CapacityExhausted | TokenExhausted.

Module AccessibilityWaitRegistry.
Section Registry.
(** The prepared waits, which the registry does not look into. *)
Context {prepared : Type}.

Record t := mk { maximum : N; next_token : N; pending : gmap N prepared }.

(** [new], [len], [register], [get], [remove], [clear]. *)
Definition new (maximum : N) : result t AccessibilityWaitRegistrationError :=
  try! ensure (maximum = 0) InvalidCapacity in Ok (mk maximum 0 ∅).
Definition len (self : t) : N := N.of_nat (size (pending self)).
Definition is_empty (self : t) : bool := bool_decide (pending self = ∅).
Definition register (wait : prepared) : M t AccessibilityWaitRegistrationError N :=
  self <- get ;;
  reject_if (maximum self <= len self) CapacityExhausted ;;;
  token <- lift (ok_or (checked_add_u64 (next_token self) 1) TokenExhausted) ;;
  modify (fun self => mk (maximum self) token (pending self)) ;;;
  modify (fun self => mk (maximum self) (next_token self) (<[token := wait]> (pending self))) ;;;
  ret token.
Definition get_wait (token : N) (self : t) : option prepared := pending self !! token.
Definition remove (token : N) (self : t) : t * option prepared :=
  (mk (maximum self) (next_token self) (delete token (pending self)), pending self !! token).
Definition clear (self : t) : t := mk (maximum self) (next_token self) ∅.
End Registry.
Arguments t : clear implicits.
End AccessibilityWaitRegistry.
