(* ===== verification/AccessibilityViewFacts.v ===== *)
(** * The graph of an accessibility view

    Facts on [AccessibilitySnapshot::build]: whatever the nodes claim about their parents,
    the graph built covers all of them, so every traversal visits each node once; when no
    warning was raised it is a forest whose edges are the declared parents, so traversals
    are the recursive ones. *)

From stdpp Require Import base numbers list option gmap strings sorting.
From Stdlib Require Import Lia.
From S2P Require Import Prelude Identity AccessibilityTypes Accessibility AccessibilityGraph AccessibilityViews.

Local Open Scope nat_scope.
Import AccessibilitySnapshot.

(** ** The index of the elements *)
Module IndexFacts.

Lemma zip_seq_snoc {A} (l : list A) x :
  zip (seq 0 (length (l ++ [x]))) (l ++ [x]) = zip (seq 0 (length l)) l ++ [(length l, x)].
Proof.
  rewrite length_app, seq_app. simpl. rewrite zip_with_app by by rewrite length_seq. done.
Qed.

Lemma index_nodes_snoc l x :
  index_nodes (l ++ [x]) = <[ElementSnapshot.element x := length l]> (index_nodes l).
Proof. unfold index_nodes. by rewrite zip_seq_snoc, fold_left_app. Qed.

Lemma index_nodes_Some l e i : index_nodes l !! e = Some i ->
  exists node, l !! i = Some node /\ ElementSnapshot.element node = e.
Proof.
  induction l as [| x l IH] using rev_ind; [intros [=] |]. rewrite index_nodes_snoc.
  intros [[<- <-] | [_ (node & Hi & He)%IH]]%lookup_insert_Some.
  - exists x. by rewrite list_lookup_middle.
  - exists node. split; [| done]. by apply lookup_app_l_Some.
Qed.

Lemma index_nodes_lt l e i : index_nodes l !! e = Some i -> i < length l.
Proof. intros (node & Hi & _)%index_nodes_Some. by eapply lookup_lt_Some. Qed.

(** Distinct elements are found where they are. *)
Lemma index_nodes_at l i node : NoDup (map ElementSnapshot.element l) -> l !! i = Some node ->
  index_nodes l !! ElementSnapshot.element node = Some i.
Proof.
  induction l as [| x l IH] using rev_ind; [done |]. rewrite map_app, index_nodes_snoc.
  intros (Hl & Hd & _)%NoDup_app [Hi | [Hlen Hx]]%lookup_app_Some.
  - rewrite lookup_insert_ne; [by apply IH |]. intros He. apply (Hd (ElementSnapshot.element node)).
    + apply list_elem_of_fmap. exists node. split; [done |]. by eapply list_elem_of_lookup_2.
    + rewrite <- He. by left.
  - apply list_lookup_singleton_Some in Hx as [Hi ->].
    rewrite lookup_insert_eq. f_equal. lia.
Qed.
End IndexFacts.

(** ** Placing the nodes *)
Module PlacementFacts.
Import IndexFacts.

Lemma push_warning_cons code message warnings : push_warning code message warnings <> [].
Proof.
  unfold push_warning. destruct warnings as [| w l]; [done |]. case_decide; [done |]. by case_decide.
Qed.

Lemma concat_alter (p c : nat) (children : list (list nat)) : p < length children ->
  concat (alter (fun siblings => siblings ++ [c]) p children) ≡ₚ c :: concat children.
Proof.
  revert p. induction children as [| x l IH]; intros [| p] Hp; simpl in *; try lia.
  - rewrite <- app_assoc. simpl. symmetry. apply Permutation_middle.
  - unfold alter in IH. rewrite IH by lia. symmetry. apply Permutation_middle.
Qed.

Lemma elem_of_alter (p q c d : nat) (children : list (list nat)) : p < length children ->
  d ∈ children_of (alter (fun siblings => siblings ++ [c]) p children) q <->
  d ∈ children_of children q \/ (q = p /\ d = c).
Proof.
  intros Hp. unfold children_of. destruct (decide (q = p)) as [-> | Hne].
  - rewrite list_lookup_alter_eq. destruct (lookup_lt_is_Some_2 children p Hp) as [x ->]. simpl.
    rewrite elem_of_app, list_elem_of_singleton. naive_solver.
  - rewrite list_lookup_alter_ne by done. naive_solver.
Qed.

Section Place.
Context (indices : gmap ElementRef.t nat) (count : nat).
Context (Hindices : forall e p, indices !! e = Some p -> p < count).

(** The parent a node is placed under. *)
Definition placed_under (entry : nat * ElementSnapshot.t) (parent : nat) : Prop :=
  ElementSnapshot.parent entry.2 ≫= (fun parent => indices !! parent) = Some parent /\ parent <> entry.1.

Record placed (entries : list (nat * ElementSnapshot.t)) (state : Placement.t) : Prop := {
  placed_length : length (Placement.children state) = count;
  placed_once : Placement.roots state ++ concat (Placement.children state) ≡ₚ map fst entries;
  placed_child p c : c ∈ children_of (Placement.children state) p <->
    exists entry, entry ∈ entries /\ entry.1 = c /\ placed_under entry p;
  placed_clean entry : Placement.warnings state = [] -> entry ∈ entries ->
    ElementSnapshot.parent entry.2 = None \/ exists p, placed_under entry p;
}.

Lemma placed_root entries state entry children roots warnings warnings' :
  state = Placement.mk children roots warnings -> placed entries state ->
  (forall p, ~ placed_under entry p) -> (warnings' = [] -> warnings = []) ->
  (warnings' = [] -> ElementSnapshot.parent entry.2 = None) ->
  placed (entries ++ [entry]) (Placement.mk children (roots ++ [entry.1]) warnings').
Proof.
  intros -> [Hlen Honce Hchild Hclean] Hnot Hw Hnone. simpl in *. split; simpl; [done | | |].
  - rewrite map_app, <- Honce. simpl. rewrite <- !app_assoc. f_equiv. apply Permutation_app_comm.
  - intros p c. rewrite Hchild. split; intros (e & He & Hc & Hp).
    + exists e. split; [apply elem_of_app; by left | done].
    + apply elem_of_app in He as [He | ->%list_elem_of_singleton]; [by exists e | by destruct (Hnot p)].
  - intros e He [Hin | ->%list_elem_of_singleton]%elem_of_app; [apply Hclean; auto | left; auto].
Qed.

Lemma place_node_placed entries state entry : placed entries state ->
  placed (entries ++ [entry]) (place_node indices state entry).
Proof.
  intros Hp. destruct entry as [index node], state as [children roots warnings]. unfold place_node.
  assert (forall w, w = push_warning "accessibility.orphan" "element parent is absent from the immutable snapshot" warnings \/
    w = push_warning "accessibility.self_parent" "element names itself as parent" warnings -> w <> []) as Hpush
    by (intros w [-> | ->]; apply push_warning_cons).
  destruct (ElementSnapshot.parent node ≫= _) as [p |] eqn:Hparent.
  - case_decide as Hne.
    + destruct Hp as [Hlen Honce Hchild Hclean]. simpl in *.
      assert (p < length children) as Hlt.
      { rewrite Hlen. destruct (ElementSnapshot.parent node); [| done]. by eapply Hindices. }
      assert (placed_under (index, node) p) as Hunder by done.
      split; simpl; [by rewrite length_alter | | |].
      * rewrite concat_alter, map_app by done. simpl. rewrite <- Honce, <- !Permutation_middle, app_nil_r. done.
      * intros q c. rewrite elem_of_alter, Hchild by done. split.
        -- intros [(e & He & ?) | [-> ->]]; [exists e | exists (index, node)];
             (split; [apply elem_of_app | done]); [by left | right; by left].
        -- intros (e & [He | ->%list_elem_of_singleton]%elem_of_app & Hc & Hq); [left; by exists e | right].
           destruct Hq as [Hq _]. simpl in *. split; congruence.
      * intros e He [Hin | ->%list_elem_of_singleton]%elem_of_app; [by apply Hclean |]. right. by exists p.
    + eapply (placed_root entries _ (index, node)); [reflexivity | done | | | ].
      * intros q [Hq Hn]. simpl in *. congruence.
      * intros H. by destruct (Hpush _ (or_intror eq_refl)).
      * intros H. by destruct (Hpush _ (or_intror eq_refl)).
  - eapply (placed_root entries _ (index, node)); [reflexivity | done | | | ].
    + intros q [Hq _]. simpl in *. congruence.
    + case_decide; [| done]. intros Hw. by destruct (Hpush _ (or_introl eq_refl)).
    + case_decide as Hn; [intros Hw; by destruct (Hpush _ (or_introl eq_refl)) |].
      intros _. simpl. destruct (ElementSnapshot.parent node); [by destruct Hn | done].
Qed.

Lemma place_all entries : placed entries
  (fold_left (place_node indices) entries (Placement.mk (replicate count []) [] [])).
Proof.
  induction entries as [| e l IH] using rev_ind.
  - split; simpl; [by rewrite length_replicate | | | by intros ? _ ?%not_elem_of_nil].
    + assert (forall n, concat (replicate n []) = @nil nat) as -> by (by induction n); done.
    + intros p c. unfold children_of. split; [| by intros (? & ?%not_elem_of_nil & _)].
      destruct (replicate count [] !! p) as [x |] eqn:Hx; [| by intros ?%not_elem_of_nil].
      apply lookup_replicate in Hx as [-> _]. by intros ?%not_elem_of_nil.
  - rewrite fold_left_app. by apply place_node_placed.
Qed.
End Place.
End PlacementFacts.

(** ** The roots *)
Module RootFacts.
Section Roots.
Context (children : list (list nat)).

(** The indices that some root reaches. *)
Definition reaches (roots : list nat) (index : nat) : Prop := exists r, r ∈ roots /\ descends children r index.

Record marked (roots reached : list nat) : Prop := {
  marked_once : NoDup reached;
  marked_closed : closed children reached;
  marked_reaches x : x ∈ reached <-> reaches roots x;
}.

Lemma mark_root roots reached root : marked roots reached ->
  marked (roots ++ [root]) (mark_reachable children root reached).
Proof.
  intros [Hnd Hcl Hx]. destruct (mark_spec children root reached Hnd Hcl) as (Hnd' & Hcl' & Hin).
  split; [done | done |]. intros x. rewrite Hin, Hx. unfold reaches. split.
  - intros [(r & Hr & Hd) | Hd]; [exists r | exists root]; (split; [apply elem_of_app | done]); [by left | right; by left].
  - intros (r & [Hr | ->%list_elem_of_singleton]%elem_of_app & Hd); [left; by exists r | by right].
Qed.

Lemma mark_roots roots :
  marked roots (fold_left (fun reached root => mark_reachable children root reached) roots []).
Proof.
  induction roots as [| r l IH] using rev_ind.
  - split; [constructor | by intros ? ? ?%not_elem_of_nil |].
    intros x. split; [by intros ?%not_elem_of_nil | by intros (? & ?%not_elem_of_nil & _)].
  - rewrite fold_left_app. by apply mark_root.
Qed.

Lemma adopt_spec candidates roots reached : marked roots reached ->
  (forall x, x ∈ roots -> x ∈ adopt children candidates roots reached) /\
  (forall x, x ∈ adopt children candidates roots reached -> x ∈ roots \/ x ∈ candidates) /\
  (forall x, x ∈ candidates -> reaches (adopt children candidates roots reached) x).
Proof.
  revert roots reached. induction candidates as [| c l IH]; intros roots reached Hm; simpl.
  { split_and!; [done | by left | by intros ? ?%not_elem_of_nil]. }
  case_decide as Hc.
  - destruct (IH roots reached Hm) as (Hkeep & Hfrom & Hall). split_and!; [done | |].
    + intros x [Hx | Hx]%Hfrom; [by left | right; by right].
    + intros x [-> | Hx]%elem_of_cons; [| auto].
      apply (marked_reaches _ _ Hm) in Hc as (r & Hr & Hd). exists r. auto.
  - destruct (IH _ _ (mark_root _ _ c Hm)) as (Hkeep & Hfrom & Hall). split_and!.
    + intros x Hx. apply Hkeep, elem_of_app. by left.
    + intros x [[Hx | ->%list_elem_of_singleton]%elem_of_app | Hx]%Hfrom; [by left | right; by left | right; by right].
    + intros x [-> | Hx]%elem_of_cons; [| auto]. exists c. split; [| constructor].
      apply Hkeep, elem_of_app. right. by left.
Qed.

(** A set of indices as large as the graph has them all. *)
Lemma marked_all roots reached : (forall i c, c ∈ children_of children i -> c < length children) ->
  (forall r, r ∈ roots -> r < length children) -> marked roots reached ->
  length reached = length children -> forall i, i < length children -> reaches roots i.
Proof.
  intros Hch Hr [Hnd _ Hx] Hlen i Hi. apply Hx.
  assert (reached ≡ₚ seq 0 (length children)) as ->; [| apply elem_of_seq; lia].
  apply submseteq_length_Permutation; [| by rewrite length_seq, Hlen].
  apply NoDup_submseteq; [done |]. intros x (r & Hroot & Hd)%Hx. apply elem_of_seq. split; [lia |].
  induction Hd; [by apply Hr | by eapply Hch].
Qed.
End Roots.
End RootFacts.

(** ** The graph built *)
Module BuildFacts.
Import IndexFacts PlacementFacts RootFacts.

Lemma sort_siblings_Permutation nodes siblings : sort_siblings nodes siblings ≡ₚ siblings.
Proof. apply merge_sort_Permutation. Qed.

Lemma children_of_sorted nodes children p :
  children_of (map (sort_siblings nodes) children) p ≡ₚ children_of children p.
Proof.
  unfold children_of. rewrite list_lookup_fmap. destruct (children !! p); simpl; [| done].
  apply sort_siblings_Permutation.
Qed.

Lemma concat_sorted nodes children : concat (map (sort_siblings nodes) children) ≡ₚ concat children.
Proof. induction children as [| x l IH]; simpl; [done |]. by rewrite IH, sort_siblings_Permutation. Qed.

Lemma metadata_warnings nodes entries warnings :
  fold_left (fun warnings (entry : nat * list nat) =>
      if metadata_conflict nodes entry.1 entry.2
      then push_warning "accessibility.parent_metadata_conflict"
             "child indices or declared parent child count are contradictory" warnings
      else warnings) entries warnings = [] -> warnings = [].
Proof.
  revert warnings. induction entries as [| e l IH]; intros warnings; simpl; [done |].
  case_match; intros Hl%IH; [by apply push_warning_cons in Hl | done].
Qed.

Section Build.
Context (desktop : DesktopId) (generation : DesktopGeneration) (atspi : AtspiGeneration.t).
Context (revision : AccessibilityRevision.t) (applications : list ApplicationRef.t).
Context (given : list ElementSnapshot.t).
#[local] Abbreviation view := (build desktop generation atspi revision applications given).
#[local] Abbreviation count := (length (nodes view)).

Lemma build_nodes : nodes view ≡ₚ given.
Proof. apply merge_sort_Permutation. Qed.

Lemma build_indices : indices view = index_nodes (nodes view).
Proof. done. Qed.

Lemma build_placed : placed (indices view) count (zip (seq 0 count) (nodes view)) (place_nodes (nodes view)).
Proof. apply place_all. intros e p. apply index_nodes_lt. Qed.

Lemma build_children : children view = map (sort_siblings (nodes view)) (Placement.children (place_nodes (nodes view))).
Proof. done. Qed.

Lemma build_length : length (children view) = count.
Proof. rewrite build_children, length_map. apply (placed_length _ _ _ _ build_placed). Qed.

Lemma zip_seq_lookup {A} (l : list A) i x : (i, x) ∈ zip (seq 0 (length l)) l <-> l !! i = Some x.
Proof.
  split.
  - intros (j & Hj)%list_elem_of_lookup. apply lookup_zip_Some in Hj as [Hs Hx].
    apply lookup_seq in Hs as [-> _]. done.
  - intros Hi. apply list_elem_of_lookup. exists i. apply lookup_zip_Some. split; [| done].
    apply lookup_seq. split; [done |]. by eapply lookup_lt_Some.
Qed.

(** The children of a node are those that name it as their parent. *)
Lemma build_child p c : c ∈ children_of (children view) p <->
  exists node, nodes view !! c = Some node /\
    ElementSnapshot.parent node ≫= (fun parent => indices view !! parent) = Some p /\ p <> c.
Proof.
  rewrite build_children, children_of_sorted, (placed_child _ _ _ _ build_placed). split.
  - intros ([i node] & Hin%zip_seq_lookup & <- & [Hp Hne]). by exists node.
  - intros (node & Hin & Hp & Hne). exists (c, node). split; [by apply zip_seq_lookup | done].
Qed.

Lemma build_child_lt p c : c ∈ children_of (children view) p -> c < length (children view).
Proof. intros (node & Hc & _)%build_child. rewrite build_length. by eapply lookup_lt_Some. Qed.

Lemma placement_once :
  Placement.roots (place_nodes (nodes view)) ++ concat (children view) ≡ₚ seq 0 (length (children view)).
Proof.
  rewrite build_length, build_children, concat_sorted, (placed_once _ _ _ _ build_placed).
  rewrite fst_zip by (rewrite length_seq; lia). done.
Qed.

#[local] Abbreviation placement_roots := (sort_siblings (nodes view) (Placement.roots (place_nodes (nodes view)))).

Lemma placement_root_lt r : r ∈ placement_roots -> r < length (children view).
Proof.
  rewrite sort_siblings_Permutation. intros Hr.
  assert (r ∈ seq 0 (length (children view))) as Hs by (rewrite <- placement_once; apply elem_of_app; by left).
  apply elem_of_seq in Hs. lia.
Qed.

(** Every node is a root of the view or under one. *)
Lemma build_covering : covering (children view) (roots view).
Proof.
  pose proof (mark_roots (children view) placement_roots) as Hm.
  assert (roots view = placement_roots /\ count = length
      (fold_left (fun reached root => mark_reachable (children view) root reached) placement_roots []) \/
    roots view = adopt (children view) (seq 0 count) placement_roots
      (fold_left (fun reached root => mark_reachable (children view) root reached) placement_roots [])) as [[Hr Hlen] | Hr].
  { unfold build. simpl. case_bool_decide as Hcyc; [by right | left]. split; [done |].
    by symmetry. }
  - rewrite Hr. split; [apply placement_root_lt | apply build_child_lt |].
    apply (marked_all _ _ _ build_child_lt placement_root_lt Hm). by rewrite build_length.
  - rewrite Hr. destruct (adopt_spec _ (seq 0 count) _ _ Hm) as (Hkeep & Hfrom & Hall). split; [| apply build_child_lt |].
    + intros r [Hp | Hs]%Hfrom; [by apply placement_root_lt |]. apply elem_of_seq in Hs. rewrite build_length. lia.
    + intros i Hi. apply Hall, elem_of_seq. rewrite build_length in Hi. lia.
Qed.

Section Clean.
Context (Hclean : AccessibilityViews.resync_required (graph view) = false).

Lemma clean_warnings : Placement.warnings (place_nodes (nodes view)) = [] /\ roots view = placement_roots.
Proof.
  revert Hclean. unfold build. simpl. intros Hd%bool_decide_eq_false. apply dec_stable in Hd.
  case_bool_decide; [by apply push_warning_cons in Hd |]. by apply metadata_warnings in Hd.
Qed.

Lemma clean_forest : forest (children view) (roots view).
Proof.
  unfold forest. destruct clean_warnings as [_ ->]. rewrite sort_siblings_Permutation. apply placement_once.
Qed.

(** The parent a node declares is in the view, and not the node itself. *)
Lemma clean_parent i node parent : nodes view !! i = Some node -> ElementSnapshot.parent node = Some parent ->
  exists p, indices view !! parent = Some p /\ i ∈ children_of (children view) p.
Proof.
  intros Hi Hp. destruct clean_warnings as [Hw _].
  destruct (placed_clean _ _ _ _ build_placed (i, node) Hw) as [Hn | (p & Hu & Hne)];
    [by apply zip_seq_lookup | simpl in *; congruence |]. simpl in *. exists p.
  rewrite Hp in Hu. split; [done |]. apply build_child. exists node. by rewrite Hp.
Qed.
End Clean.
End Build.
End BuildFacts.
