(* ===== verification/AccessibilityQueryFacts.v ===== *)
(** * What the queries over an accessibility view compute

    The loops of [AccessibilityQueries] against declarative readings: the indices of a
    scope, the matches of a selector, the order of a result. *)

From stdpp Require Import base numbers list option gmap strings sorting.
From Stdlib Require Import Lia.
From S2P Require Import Prelude Orderings Identity WindowTypes WindowQueries.
From S2P Require Import AccessibilityTypes Accessibility AccessibilityGraph AccessibilityViews.
From S2P Require Import AccessibilityQueries AccessibilityViewFacts.

Local Open Scope nat_scope.
Import AccessibilitySnapshot.
#[local] Abbreviation len := Prelude.len.

(** ** A view whose graph is clean *)
Record clean_view (self : AccessibilitySnapshot.t) : Prop := {
  clean_length : length (children self) = length (nodes self);
  clean_covering : covering (children self) (roots self);
  clean_is_forest : forest (children self) (roots self);
  clean_index e i : indices self !! e = Some i ->
    exists node, nodes self !! i = Some node /\ ElementSnapshot.element node = e;
  clean_edge p c : c ∈ children_of (children self) p <-> parent_index self c = Some p;
}.

Lemma build_clean desktop generation atspi revision applications given :
  let view := build desktop generation atspi revision applications given in
  AccessibilityViews.resync_required (graph view) = false -> clean_view view.
Proof.
  intros view Hclean. split.
  - apply BuildFacts.build_length.
  - apply BuildFacts.build_covering.
  - by apply BuildFacts.clean_forest.
  - intros e i. apply IndexFacts.index_nodes_Some.
  - intros p c. unfold parent_index. split.
    + intros (node & Hc & Hp & _)%BuildFacts.build_child. subst view. rewrite Hc. exact Hp.
    + intros Hp. destruct (nodes view !! c) as [node |] eqn:Hc; [| done].
      change (ElementSnapshot.parent node ≫= (fun e => indices view !! e) = Some p) in Hp.
      destruct (ElementSnapshot.parent node) as [e |] eqn:He; [| done].
      destruct (BuildFacts.clean_parent _ _ _ _ _ _ Hclean c node e Hc He) as (q & Hq & Hin).
      change (indices view !! e = Some p) in Hp. subst view. rewrite Hq in Hp. by injection Hp as <-.
Qed.

(** ** Runs that return *)
Lemma bind_returns {S E A B} (m : M S E A) (k : A -> M S E B) s s' b :
  bind m k s = (s', Ok b) <-> exists s1 a, m s = (s1, Ok a) /\ k a s1 = (s', Ok b).
Proof.
  unfold bind. split.
  - destruct (m s) as [s1 [a | e]]; [| done]. intros H. by exists s1, a.
  - intros (s1 & a & -> & H). done.
Qed.

Lemma lift_returns {S E A} (r : result A E) (s s' : S) a : lift r s = (s', Ok a) <-> s' = s /\ r = Ok a.
Proof. unfold lift. split; [intros [= -> ->] | intros [-> ->]]; done. Qed.

Lemma ret_returns {S E A} (x a : A) (s s' : S) : ret (E := E) x s = (s', Ok a) <-> s' = s /\ x = a.
Proof. unfold ret. split; [intros [= -> ->] | intros [-> ->]]; done. Qed.

Lemma reject_returns {S E} (P : Prop) `{Decision P} (e : E) (s s' : S) u :
  reject_if P e s = (s', Ok u) <-> s' = s /\ ~ P /\ u = tt.
Proof.
  unfold reject_if. case_decide; unfold fail, ret.
  - split; [intros [=] | intros (_ & ? & _)]; done.
  - split; [intros [= -> <-] | intros (-> & _ & ->)]; done.
Qed.

#[global] Opaque bind ret lift reject_if.

(** Takes a run that returned apart. *)
Ltac returned :=
  repeat match goal with
  | H : bind _ _ _ = (_, Ok _) |- _ =>
      let s := fresh "clock" in let a := fresh "a" in let H1 := fresh "Hrun" in
      apply bind_returns in H as (s & a & H1 & H)
  | H : lift _ _ = (_, Ok _) |- _ => apply lift_returns in H as [-> H]
  | H : ret _ _ = (_, Ok _) |- _ => apply ret_returns in H as [-> H]
  | H : reject_if _ _ _ = (_, Ok _) |- _ =>
      let Hn := fresh "Hnot" in apply reject_returns in H as (-> & Hn & ->)
  end.

(** ** Ancestors *)
Section Ancestors.
Context (self : AccessibilitySnapshot.t) (Hself : clean_view self) (window : WindowRef.t).
#[local] Abbreviation kids := (children self).
#[local] Abbreviation depth := (length (children self)).

(** The size of the tree under an index. *)
Definition weight (i : nat) : nat := length (preorder_of kids depth i).

Lemma weight_le i : weight i <= depth.
Proof.
  unfold weight. destruct (decide (i < depth)) as [Hi | Hi].
  - destruct (forest_shallow kids (roots self) (clean_is_forest _ Hself) (clean_covering _ Hself) i Hi) as [Hs Hnd].
    etrans; [apply (submseteq_length _ (seq 0 depth)) | by rewrite length_seq].
    apply NoDup_submseteq; [done |]. intros x Hx%elem_of_preorder_of; [| done]. apply elem_of_seq.
    split; [lia |]. by eapply descends_lt; [apply clean_covering | |].
  - destruct depth as [| d] eqn:Hd; [done |]. simpl. rewrite children_of_out by lia. simpl. lia.
Qed.

Lemma weight_parent p i : i ∈ children_of kids p -> weight i < weight p.
Proof.
  intros Hi. assert (p < depth) as Hp.
  { destruct (decide (p < depth)); [done |]. rewrite children_of_out in Hi by lia. by apply not_elem_of_nil in Hi. }
  apply preorder_of_length; [| done].
  by apply (forest_shallow kids (roots self) (clean_is_forest _ Hself) (clean_covering _ Hself)).
Qed.

Lemma weight_mono a b : descends kids a b -> weight b <= weight a.
Proof. induction 1 as [| p c Hd IH Hc]; [done |]. pose proof (weight_parent p c Hc). lia. Qed.

(** An ancestor of the window, or the index itself. *)
Definition under_correlated (i : nat) : Prop :=
  exists a, descends kids a i /\ correlated_at self window a = true.

Lemma climb_spec fuel p : depth < fuel + weight p ->
  (climb fuel self window (Some p) = Some false /\ under_correlated p) \/
  (climb fuel self window (Some p) = Some true /\ ~ under_correlated p).
Proof.
  revert p. induction fuel as [| fuel IH]; intros p Hfuel; [pose proof (weight_le p); lia |]. simpl.
  destruct (correlated_at self window p) eqn:Hp.
  { left. split; [done |]. exists p. split; [constructor | done]. }
  destruct (parent_index self p) as [q |] eqn:Hq.
  - apply (clean_edge _ Hself) in Hq. pose proof (weight_parent q p Hq).
    destruct (IH q) as [[-> (a & Ha & Hc)] | [-> Hn]]; [lia | left | right]; (split; [done |]).
    + exists a. split; [by eapply descends_child | done].
    + intros (a & Ha & Hc). apply Hn. exists a. split; [| done].
      inversion Ha as [| q' p' Hd Hin]; subst; [congruence |].
      by rewrite (forest_parent kids (roots self) (clean_is_forest _ Hself) q q' p).
  - right. split; [by destruct fuel |]. intros (a & Ha & Hc).
    inversion Ha as [| q' p' Hd Hin]; subst; [congruence |].
    apply (clean_edge _ Hself) in Hin. congruence.
Qed.

Lemma parent_descends i q : parent_index self i = Some q ->
  forall a, descends kids a i -> a = i \/ descends kids a q.
Proof.
  intros Hq%(clean_edge _ Hself) a Ha. inversion Ha as [| q' p' Hd Hin]; subst; [by left | right].
  by rewrite (forest_parent kids (roots self) (clean_is_forest _ Hself) q q' i).
Qed.

(** The climb comes to an end, and says whether no proper ancestor is correlated. *)
Lemma highest_spec i :
  (is_highest_window_correlated self i window = Some true /\ correlated_at self window i = true /\
    forall a, descends kids a i -> correlated_at self window a = true -> a = i) \/
  (is_highest_window_correlated self i window = Some false /\
    (correlated_at self window i = true -> exists q, i ∈ children_of kids q /\ under_correlated q)).
Proof.
  unfold is_highest_window_correlated. destruct (correlated_at self window i) eqn:Hi; [| by right].
  destruct (parent_index self i) as [q |] eqn:Hq.
  - pose proof Hq as Hin%(clean_edge _ Hself). pose proof (weight_parent q i Hin) as Hw.
    destruct (climb_spec (length (nodes self)) q) as [[-> Hu] | [-> Hn]].
    { rewrite <- (clean_length _ Hself). lia. }
    + right. split; [done |]. intros _. by exists q.
    + left. split_and!; [done.. |].
      intros a Ha Hc. destruct (parent_descends i q Hq a Ha) as [| Hd]; [done |].
      destruct Hn. by exists a.
  - left. split_and!; [by destruct (length (nodes self)) | done |].
    intros a Ha _. inversion Ha as [| q' p' Hd Hin]; subst; [done |].
    apply (clean_edge _ Hself) in Hin. congruence.
Qed.

(** Under a correlated node there is a highest one. *)
Lemma highest_exists i : under_correlated i -> i < depth ->
  exists h, is_highest_window_correlated self h window = Some true /\ descends kids h i.
Proof.
  intros Hu Hi. destruct (covering_reach _ _ (clean_covering _ Hself) i Hi) as (r & Hr & Hd). clear Hi.
  induction Hd as [| p c Hd IH Hc].
  - destruct Hu as (a & Ha & Hcor). assert (forall q, r ∉ children_of kids q) as Hroot
      by (intros q; by apply (forest_root kids (roots self) (clean_is_forest _ Hself))).
    assert (a = r) as -> by (inversion Ha as [| q' p' Hd Hin]; subst; [done |]; by apply Hroot in Hin).
    destruct (highest_spec r) as [[Hh _] | [_ (q & Hq & _)]]; [| done | by apply Hroot in Hq].
    exists r. split; [done | constructor].
  - assert (under_correlated p -> exists h, is_highest_window_correlated self h window = Some true /\ descends kids h c)
      as Hup by (intros (h & Hh & Hdesc)%IH; exists h; split; [done | by eapply descends_child]).
    destruct Hu as (a & Ha & Hcor). pose proof Hc as Hq%(clean_edge _ Hself).
    destruct (parent_descends c p Hq a Ha) as [-> | Hap]; [| apply Hup; by exists a].
    destruct (highest_spec c) as [[Hh _] | [_ (q & Hq' & Hu)]]; [exists c; split; [done | constructor] | done |].
    apply Hup. by rewrite <- (forest_parent kids (roots self) (clean_is_forest _ Hself) q p c).
Qed.
End Ancestors.

(** ** The indices of a scope *)
Definition in_scope (self : AccessibilitySnapshot.t) (scope : ElementScope.t) (i : nat) : Prop :=
  let kids := children self in
  match scope with
  | ElementScope.Desktop => i < length (nodes self)
  | ElementScope.Application application =>
      exists r, r ∈ roots self /\ ElementQueries.application_at self application r = true /\ descends kids r i
  | ElementScope.Window window =>
      exists a, correlated_at self window a = true /\ descends kids a i
  | ElementScope.Subtree root include_root =>
      exists r, indices self !! root = Some r /\ descends kids r i /\ (include_root = true \/ i <> r)
  | ElementScope.Children parent => exists p, indices self !! parent = Some p /\ i ∈ children_of kids p
  end.

Import ElementQueries.

(** The scope as a function: the indices descended from, and those reached. *)
Definition scope_starts (self : AccessibilitySnapshot.t) (scope : ElementScope.t) : list nat :=
  match scope with
  | ElementScope.Desktop => roots self
  | ElementScope.Application application =>
      filter (fun i => application_at self application i = true) (roots self)
  | ElementScope.Window window =>
      filter (fun i => default false (is_highest_window_correlated self i window) = true)
        (seq 0 (length (nodes self)))
  | ElementScope.Subtree root include_root =>
      match indices self !! root with
      | Some r => if include_root : bool then [r] else children_of (children self) r
      | None => []
      end
  | ElementScope.Children parent => []
  end.

Definition scope_list (self : AccessibilitySnapshot.t) (scope : ElementScope.t) : list nat :=
  match scope with
  | ElementScope.Children parent =>
      match indices self !! parent with Some p => children_of (children self) p | None => [] end
  | scope => visit (children self) on_top (work (children self) (scope_starts self scope)) (scope_starts self scope) []
  end.

Section Runs.
Context {C : Type} (instant_now : C -> C * N).

Lemma choose_roots_returns keep deadline candidates clock clock' chosen :
  choose_roots instant_now keep deadline candidates clock = (clock', Ok chosen) ->
  chosen = filter (fun i => keep i = true) candidates.
Proof.
  revert clock chosen. induction candidates as [| i l IH]; intros clock chosen; simpl; intros H; returned; [done |].
  apply IH in Hrun0. subst. rewrite filter_cons. by destruct (keep i).
Qed.

Lemma descend_returns fuel kids max_depth deadline stack seen clock clock' output :
  descend instant_now fuel kids max_depth deadline stack seen clock = (clock', Ok output) ->
  map fst output = visit kids on_top fuel (map fst stack) seen.
Proof.
  revert stack seen clock output. induction fuel as [| fuel IH]; intros [| [i d] stack] seen clock output;
    simpl; intros H; returned; subst; try done.
  case_decide; [by eapply IH |]. returned. subst. simpl. f_equal.
  apply IH in Hrun2. rewrite Hrun2, map_app. unfold on_top. do 2 f_equal.
  rewrite map_map. simpl. by rewrite map_id.
Qed.

Lemma scope_roots_starts self scope deadline clock clock' starts :
  scope_roots instant_now self scope deadline clock = (clock', Ok starts) ->
  starts = scope_starts self scope.
Proof.
  destruct scope as [| application | window | root include | parent]; simpl; intros H; returned;
    try done; try (by apply choose_roots_returns in H).
  apply ok_or_Ok in Hrun. by rewrite Hrun.
Qed.

Lemma scope_indices_list self scope max_depth deadline clock clock' scoped :
  scope_indices instant_now self scope max_depth deadline clock = (clock', Ok scoped) ->
  map fst scoped = scope_list self scope.
Proof.
  unfold scope_indices. intros H. returned.
  destruct scope as [| application | window | root include | parent]; returned;
    try (apply scope_roots_starts in Hrun0 as ->; apply descend_returns in H; rewrite map_map, map_id in H; done).
  subst. apply ok_or_Ok in Hrun0. simpl. by rewrite Hrun0, map_map, map_id.
Qed.
End Runs.

Section Scope.
Context (self : AccessibilitySnapshot.t) (Hself : clean_view self).
#[local] Abbreviation kids := (children self).

Lemma visit_reaches starts :
  NoDup (visit kids on_top (work kids starts) starts []) /\
  forall i, i ∈ visit kids on_top (work kids starts) starts [] <-> exists p, p ∈ starts /\ descends kids p i.
Proof.
  destruct (visit_spec kids on_top on_top_Permutation (work kids starts) starts []) as (Hnd & Hout & Hp & Hc).
  { unfold work. by rewrite debt_nil. }
  split; [done |]. intros i. split; [intros [_ Hi]%Hout; done |].
  intros (p & Hps & Hd). induction Hd as [| q c Hd IH Hqc].
  - by destruct (Hp p Hps) as [?%not_elem_of_nil |].
  - by destruct (Hc q c IH Hqc) as [?%not_elem_of_nil |].
Qed.

Lemma below_child r i : r < length kids ->
  (exists p, p ∈ children_of kids r /\ descends kids p i) <-> descends kids r i /\ i <> r.
Proof.
  intros Hr. split.
  - intros (p & Hp & Hd). split; [by eapply descends_step |]. intros ->.
    pose proof (weight_parent self Hself r p Hp).
    pose proof (weight_mono self Hself p r Hd). lia.
  - intros [Hd Hne]. induction Hd as [| p c Hd IH Hc]; [done |].
    destruct (decide (p = r)) as [-> | Hp]; [exists c; split; [done | constructor] |].
    destruct (IH Hp) as (q & Hq & Hqp). exists q. split; [done |]. by eapply descends_child.
Qed.

Lemma position_lt e r : indices self !! e = Some r -> r < length kids.
Proof. intros (n & Hn & _)%(clean_index _ Hself). rewrite (clean_length _ Hself). by eapply lookup_lt_Some. Qed.

Lemma correlated_lt window a : correlated_at self window a = true -> a < length kids.
Proof.
  unfold correlated_at. rewrite (clean_length _ Hself). destruct (nodes self !! a) eqn:Hn; [| done].
  intros _. by eapply lookup_lt_Some.
Qed.

(** The starts of a scope reach the indices in it. *)
Lemma scope_starts_spec scope : (forall parent, scope <> ElementScope.Children parent) ->
  forall i, (exists p, p ∈ scope_starts self scope /\ descends kids p i) <-> in_scope self scope i.
Proof.
  intros Hscope i. destruct scope as [| application | window | root include | parent]; [.. | by destruct (Hscope parent)]; simpl.
  - rewrite <- (clean_length _ Hself). split.
    + intros (p & Hp & Hd). eapply descends_lt; [apply clean_covering | | done]; [done |].
      by apply (covering_roots _ _ (clean_covering _ Hself)).
    + apply (covering_reach _ _ (clean_covering _ Hself)).
  - split.
    + intros (p & [Ha Hp]%list_elem_of_filter & Hd). by exists p.
    + intros (p & Hp & Ha & Hd). exists p. split; [| done]. by apply list_elem_of_filter.
  - split.
    + intros (p & [Ha _]%list_elem_of_filter & Hd).
      destruct (highest_spec self Hself window p) as [[_ [Hc _]] | [Hh _]]; [by exists p | by rewrite Hh in Ha].
    + intros (a & Hc & Hd). pose proof (correlated_lt window a Hc) as Hlt.
      destruct (highest_exists self Hself window i) as (h & Hh & Hhd); [by exists a | |].
      { by eapply descends_lt; [apply clean_covering | |]. }
      exists h. split; [| done]. apply list_elem_of_filter. rewrite Hh. split; [done |].
      apply elem_of_seq. rewrite <- (clean_length _ Hself). split; [lia |].
      destruct (highest_spec self Hself window h) as [[_ [Hcor _]] | [Hn _]]; [by eapply correlated_lt | congruence].
  - destruct (indices self !! root) as [r |] eqn:Hr.
    2: { split; [by intros (? & ?%not_elem_of_nil & _) | by intros (? & ? & _)]. }
    split.
    + destruct include; intros H; exists r; (split; [done |]).
      * destruct H as (p & ->%list_elem_of_singleton & Hd). auto.
      * apply below_child in H; [tauto | by eapply position_lt].
    + intros (q & [= <-] & Hd & Hi). destruct include.
      * exists r. split; [by left | done].
      * apply below_child; [by eapply position_lt |]. destruct Hi; [done | tauto].
Qed.

Lemma children_nodup p : NoDup (children_of kids p).
Proof.
  by apply (children_antichain kids (roots self) (clean_is_forest _ Hself) (clean_covering _ Hself) p).
Qed.

Lemma scope_list_spec scope :
  NoDup (scope_list self scope) /\ forall i, i ∈ scope_list self scope <-> in_scope self scope i.
Proof.
  assert ((forall parent, scope <> ElementScope.Children parent) ->
    let out := visit kids on_top (work kids (scope_starts self scope)) (scope_starts self scope) [] in
    NoDup out /\ forall i, i ∈ out <-> in_scope self scope i) as Hvisit.
  { intros Hscope. destruct (visit_reaches (scope_starts self scope)) as [Hnd Hin]. split; [done |].
    intros i. rewrite Hin. by apply scope_starts_spec. }
  destruct scope as [| application | window | root include | parent]; try (by apply Hvisit). clear Hvisit. simpl.
  destruct (indices self !! parent) as [p |] eqn:Hp.
  - split; [apply children_nodup |]. intros i. split; [by exists p | by intros (q & [= <-] & Hi)].
  - split; [constructor |]. intros i. split; [by intros ?%not_elem_of_nil | by intros (? & ? & _)].
Qed.
End Scope.

(** ** The meaning of a selector *)
Module ElementMeaning.
Import ElementEngine.
Section Meaning.
Context (to_lowercase : string -> string).
Context {nfa pikevm : Type} (nfa_build : string -> bool -> option nfa).
Context (pikevm_new : nfa -> option pikevm) (is_match : pikevm -> string -> bool).
#[local] Abbreviation fold := (ElementEngine.fold to_lowercase).

(** What a string match asks of a text. *)
Definition text_satisfies (matcher : ElementStringMatch.t) (text : string) : Prop :=
  match matcher with
  | ElementStringMatch.Exact value c => fold text c = fold value c
  | ElementStringMatch.Contains value c =>
      exists before after, bytes (fold text c) = before ++ bytes (fold value c) ++ after
  | ElementStringMatch.Prefix value c => exists after, bytes (fold text c) = bytes (fold value c) ++ after
  | ElementStringMatch.Suffix value c => exists before, bytes (fold text c) = before ++ bytes (fold value c)
  | ElementStringMatch.Regex pattern c =>
      exists n p, nfa_build pattern c = Some n /\ pikevm_new n = Some p /\ is_match p text = true
  end.

(** What a predicate asks of an element. *)
Definition predicate_satisfied (p : ElementPredicate.t) (node : ElementSnapshot.t) : Prop :=
  match p with
  | ElementPredicate.Name m => exists text, ElementSnapshot.name node = Some text /\ text_satisfies m text
  | ElementPredicate.Description m =>
      exists text, ElementSnapshot.description node = Some text /\ text_satisfies m text
  | ElementPredicate.AccessibleId m =>
      exists text, ElementSnapshot.accessible_id node = Some text /\ text_satisfies m text
  | ElementPredicate.Attribute name m =>
      exists a, a ∈ ElementSnapshot.attributes node /\ attribute_name a = name /\ text_satisfies m (attribute_value a)
  | ElementPredicate.Action m =>
      exists a, a ∈ ElementSnapshot.actions node /\ text_satisfies m (action_name a)
  | p => match_other p node = true
  end.

(** What a selector asks of an element, its scope apart: every predicate. *)
Definition satisfies (selector : ElementSelector.t) (node : ElementSnapshot.t) : Prop :=
  forall p, p ∈ ElementSelector.predicates selector -> predicate_satisfied p node.

Lemma element_text_spec matcher compiled text :
  compile_match to_lowercase nfa_build pikevm_new matcher = Ok compiled ->
  match_text to_lowercase is_match compiled text = true <-> text_satisfies matcher text.
Proof.
  destruct matcher as [v c | v c | v c | v c | pattern c]; simpl.
  - intros [= <-]. apply bool_decide_eq_true.
  - intros [= <-]. apply QueryFacts.contains_bytes_spec.
  - intros [= <-]. apply bool_decide_eq_true.
  - intros [= <-]. apply bool_decide_eq_true.
  - destruct (nfa_build pattern c) as [n |] eqn:Hn; simpl; [| done].
    destruct (pikevm_new n) as [p |] eqn:Hp; simpl; [| done]. intros [= <-]. simpl.
    naive_solver.
Qed.

Lemma existsb_elem {A} (f : A -> bool) l : existsb f l = true <-> exists x, x ∈ l /\ f x = true.
Proof. rewrite existsb_exists. by setoid_rewrite list_elem_of_In. Qed.

Lemma option_exists_spec {A} (f : A -> bool) o : option_exists f o = true <-> exists x, o = Some x /\ f x = true.
Proof. destruct o; simpl; naive_solver. Qed.

Lemma element_predicate_spec p compiled node :
  compile_predicate to_lowercase nfa_build pikevm_new p = Ok compiled ->
  match_predicate to_lowercase is_match compiled node = true <-> predicate_satisfied p node.
Proof.
  destruct p; simpl; try (intros [= <-]; done); intros (m & Hm & [= <-])%and_then_Ok; simpl;
    rewrite ?option_exists_spec, ?existsb_elem; try (by setoid_rewrite (element_text_spec _ _ _ Hm)).
  setoid_rewrite andb_true_iff. setoid_rewrite bool_decide_eq_true. by setoid_rewrite (element_text_spec _ _ _ Hm).
Qed.

Lemma element_matches_spec selector compiled node :
  compile to_lowercase nfa_build pikevm_new selector = Ok compiled ->
  matches to_lowercase is_match compiled node = true <-> satisfies selector node.
Proof.
  unfold compile, matches, satisfies. intros H%collect_Ok.
  induction H as [| p c ps cs Hp _ IH]; simpl; [by split; [intros _ ? ?%not_elem_of_nil |] |].
  rewrite andb_true_iff, IH, (element_predicate_spec _ _ _ Hp). split.
  - intros [Hsat Hall] q [-> | Hq]%elem_of_cons; auto.
  - intros Hall. split; [apply Hall; by left | intros q Hq; apply Hall; by right].
Qed.
End Meaning.
End ElementMeaning.

(** ** The scan *)
Section Scan.
Import ElementQueries ElementEngine.
Context (to_lowercase : string -> string) {pikevm : Type} (is_match : pikevm -> string -> bool).
Context {C : Type} (instant_now : C -> C * N).
Context (self : AccessibilitySnapshot.t) (compiled : list (CompiledPredicate (pikevm := pikevm))).

Definition matches_at (i : nat) : bool :=
  option_exists (matches to_lowercase is_match compiled) (nodes self !! i).

(** Every node of the scope is visited, within the budgets. *)
Lemma scan_returns limits deadline visited found scoped clock clock' visited' found' :
  (len found <= QueryLimits.max_matches limits)%N ->
  scan to_lowercase is_match instant_now self compiled limits deadline visited found scoped clock =
    (clock', Ok (visited', found')) ->
  visited' = (visited + len scoped)%N /\ found' = found ++ filter (fun i => matches_at i = true) (map fst scoped) /\
  (len found' <= QueryLimits.max_matches limits)%N.
Proof.
  revert visited found clock. induction scoped as [| [i d] scoped IH]; intros visited found clock Hf; simpl; intros H; returned.
  { injection H as <- <-. rewrite app_nil_r. unfold len. simpl. split_and!; [lia | done | done]. }
  apply ok_or_Ok in Hrun0. unfold checked_add_u32 in Hrun0. case_decide; [| done]. injection Hrun0 as <-.
  unfold matches_at at 1. rewrite filter_cons, len_cons. fold (matches_at i) in H |- *.
  destruct (matches_at i); returned; apply IH in H as (-> & -> & Hle).
  - rewrite <- app_assoc. split_and!; [lia | done | by rewrite <- app_assoc in Hle].
  - lia.
  - split_and!; [lia | done | done].
  - done.
Qed.
End Scan.

(** ** The order of a result *)
Module ElementOrderFacts.

Lemma total_ref : total_cmp compare_ref.
Proof.
  unfold compare_ref. apply total_then; [by apply (total_key (fun e => bus_str (ApplicationRef.unique_bus_name (ElementRef.application e)))), total_string |].
  apply total_then; [by apply (total_key (fun e => path_str (ElementRef.object_path e))), total_string |].
  by apply (total_key ElementRef.cache_sequence), total_N.
Qed.

Lemma total_optional_order {T} (cmp : T -> T -> comparison) reverse : total_cmp cmp ->
  total_cmp (fun a b => compare_optional_missing_last cmp a b reverse).
Proof.
  intros Hc. split.
  - intros [a |] [b |]; try done. simpl. destruct reverse; apply (total_opp _ Hc).
  - intros [a |] [b |] [c |]; try done. simpl. destruct reverse; [| apply (total_trans _ Hc)].
    apply (total_trans _ (total_swap _ Hc)).
Qed.

Lemma total_ordered order : total_cmp (compare_ordered order).
Proof.
  assert (forall reverse, total_cmp (fun a b => compare_optional (ElementSnapshot.name a) (ElementSnapshot.name b) reverse)) as Hname.
  { intros reverse. apply (total_key ElementSnapshot.name (fun a b => compare_optional a b reverse)).
    by apply total_optional_order, total_string. }
  assert (total_cmp (fun a b : ElementSnapshot.t => Eq)) as Heq by (by split).
  unfold compare_ordered. destruct order; apply total_then;
    try (by apply (total_key ElementSnapshot.element), total_ref); try done.
  - apply total_then; [| apply Hname].
    apply (total_key (fun n => ElementRole.position (AccessibilityTypes.role (ElementSnapshot.role n))) N.compare), total_N.
  - apply (total_key (fun n => path_str (ElementRef.object_path (ElementSnapshot.element n)))), total_string.
Qed.

Lemma order_indices_Permutation found nodes order children roots :
  order_indices found nodes order children roots ≡ₚ found.
Proof.
  destruct order; simpl; rewrite ?merge_sort_Permutation; try done.
  by rewrite <- Permutation_rev.
Qed.

(** The loop of [preorder_rank] stores the position of every index. *)
Definition rank_loop (m : N) (count : nat) (l : list nat) : list N :=
  fold_left (fun rank entry => <[entry.1 := N.of_nat entry.2]> rank) (zip l (seq 0 (length l)))
    (replicate count m).

Lemma rank_snoc m count l x : rank_loop m count (l ++ [x]) = <[x := N.of_nat (length l)]> (rank_loop m count l).
Proof.
  unfold rank_loop. rewrite length_app, seq_app. simpl.
  rewrite zip_with_app by by rewrite length_seq. by rewrite fold_left_app.
Qed.

Lemma rank_length m count l : length (rank_loop m count l) = count.
Proof.
  induction l as [| x l IH] using rev_ind; [by unfold rank_loop; simpl; rewrite length_replicate |].
  by rewrite rank_snoc, length_insert.
Qed.

Lemma rank_spec m count l k x : NoDup l -> (forall y, y ∈ l -> y < count) -> l !! k = Some x ->
  rank_loop m count l !! x = Some (N.of_nat k).
Proof.
  induction l as [| y l IH] using rev_ind; [done |]. rewrite rank_snoc. intros (Hnd & Hd & _)%NoDup_app Hlt.
  assert (y < count) as Hy by (apply Hlt, elem_of_app; right; by left).
  intros [Hk | [Hk Hx]]%lookup_app_Some.
  - rewrite list_lookup_insert_ne; [apply IH; [done | | done]; intros z Hz; apply Hlt, elem_of_app; by left |].
    intros ->. apply (Hd x); [by eapply list_elem_of_lookup_2 | by left].
  - apply list_lookup_singleton_Some in Hx as [Hx ->]. rewrite list_lookup_insert_eq by by rewrite rank_length.
    do 2 f_equal. lia.
Qed.

Section Ordered.
Context (self : AccessibilitySnapshot.t) (Hself : clean_view self).

(** In the order of the traversal, its reverse, or sorted. *)
Definition ordered (order : ElementOrder) (found : list nat) : Prop :=
  let traversal := filter (fun i => i ∈ found) (traversal_indices TraversePreorder self) in
  match order with
  | Preorder => found = traversal
  | ReversePreorder => found = rev traversal
  | order => Sorted.StronglySorted (fun i j => ordering_le (compare_at (nodes self) (compare_ordered order) i j)) found
  end.

#[local] Abbreviation kids := (children self).
#[local] Abbreviation order_list := (preorder (children self) (roots self)).

Lemma preorder_permutation : order_list ≡ₚ seq 0 (length (nodes self)).
Proof.
  rewrite <- (clean_length _ Hself). apply visit_all; [apply on_top_Permutation | by apply clean_covering].
Qed.

(** Positions in the preorder. *)
Definition rank_at (i : nat) : N :=
  default usize_max (preorder_rank (length (nodes self)) kids (roots self) !! i).

Lemma rank_at_position k i : order_list !! k = Some i -> rank_at i = N.of_nat k.
Proof.
  intros Hk. unfold rank_at. change (preorder_rank (length (nodes self)) kids (roots self)) with
    (rank_loop usize_max (length (nodes self)) order_list).
  rewrite (rank_spec _ _ _ k i); [done | | | done].
  - rewrite preorder_permutation. apply NoDup_seq.
  - intros y. rewrite preorder_permutation, elem_of_seq. lia.
Qed.

#[local] Abbreviation by_rank := (fun i j => Is_true (rank_at i <=? rank_at j)%N).

#[local] Instance by_rank_transitive : Transitive by_rank.
Proof. intros i j k. rewrite !Is_true_true, !N.leb_le. lia. Qed.
#[local] Instance by_rank_total : Total by_rank.
Proof. intros i j. rewrite !Is_true_true, !N.leb_le. lia. Qed.

Lemma positions_sorted (c : nat) l : (forall k i, l !! k = Some i -> rank_at i = N.of_nat (c + k)) ->
  Sorted.StronglySorted by_rank l.
Proof.
  revert c. induction l as [| i l IH]; intros c Hpos; constructor.
  - apply (IH (S c)). intros k j Hj. rewrite (Hpos (S k) j Hj). lia.
  - apply Forall_forall. intros j (k & Hk)%list_elem_of_lookup.
    rewrite (Hpos 0 i eq_refl), (Hpos (S k) j Hk), Is_true_true, N.leb_le. lia.
Qed.

Lemma StronglySorted_filter {A} (R : A -> A -> Prop) (P : A -> Prop) `{forall x, Decision (P x)} l :
  Sorted.StronglySorted R l -> Sorted.StronglySorted R (filter P l).
Proof.
  induction 1 as [| x l Hl IH Hall]; [constructor |]. rewrite filter_cons. case_decide; [| done].
  constructor; [done |]. apply Forall_forall. intros y [_ Hy]%list_elem_of_filter.
  by apply (proj1 (Forall_forall _ _) Hall).
Qed.

Lemma filter_found (l found : list nat) : NoDup l -> NoDup found -> (forall i, i ∈ found -> i ∈ l) ->
  filter (fun i => i ∈ found) l ≡ₚ found.
Proof.
  intros Hl Hf Hin. apply NoDup_Permutation; [by apply NoDup_filter | done |].
  intros i. rewrite list_elem_of_filter. naive_solver.
Qed.

Lemma filter_found_ext (l found found' : list nat) : found ≡ₚ found' ->
  filter (fun i => i ∈ found) l = filter (fun i => i ∈ found') l.
Proof. intros Hp. apply list_filter_iff. intros i. by rewrite Hp. Qed.

(** Sorting by rank is reading the traversal. *)
Lemma sort_by_rank found : NoDup found -> (forall i, i ∈ found -> i < length (nodes self)) ->
  merge_sort by_rank found = filter (fun i => i ∈ found) order_list.
Proof.
  intros Hnd Hlt. pose proof preorder_permutation as Hp.
  assert (NoDup order_list) as Ho by (rewrite Hp; apply NoDup_seq).
  assert (forall i, i ∈ found -> i ∈ order_list) as Hin.
  { intros i Hi%Hlt. rewrite Hp. apply elem_of_seq. lia. }
  apply (StronglySorted_unique_strong by_rank).
  - intros i j Hi [_ Hj]%list_elem_of_filter Hij Hji. rewrite merge_sort_Permutation in Hi.
    apply Hin, list_elem_of_lookup in Hi as [k Hk]. apply list_elem_of_lookup in Hj as [k' Hk'].
    rewrite (rank_at_position k i Hk), (rank_at_position k' j Hk'), Is_true_true, N.leb_le in Hij, Hji.
    assert (k = k') as -> by lia. congruence.
  - apply StronglySorted_merge_sort; apply _.
  - apply StronglySorted_filter, (positions_sorted 0). intros k i Hk. by apply rank_at_position.
  - rewrite merge_sort_Permutation. symmetry. by apply filter_found.
Qed.

Lemma order_indices_spec order found : NoDup found -> (forall i, i ∈ found -> i < length (nodes self)) ->
  order_indices found (nodes self) order kids (roots self) ≡ₚ found /\
  ordered order (order_indices found (nodes self) order kids (roots self)).
Proof.
  intros Hnd Hlt.
  destruct (decide (order = Preorder \/ order = ReversePreorder)) as [Hpre | Hother].
  - assert (order_indices found (nodes self) order kids (roots self) =
      if decide (order = ReversePreorder) then rev (merge_sort by_rank found) else merge_sort by_rank found) as ->
      by (by destruct Hpre as [-> | ->]).
    rewrite (sort_by_rank found Hnd Hlt). pose proof preorder_permutation as Hp.
    assert (filter (fun i => i ∈ found) order_list ≡ₚ found) as Hfound.
    { apply filter_found; [rewrite Hp; apply NoDup_seq | done |].
      intros i Hi%Hlt. rewrite Hp. apply elem_of_seq. lia. }
    destruct Hpre as [-> | ->]; simpl.
    + split; [done |]. by rewrite (filter_found_ext _ _ found Hfound).
    + split; [by rewrite <- Permutation_rev |].
      rewrite (filter_found_ext _ (rev _) found); [done |]. by rewrite <- Permutation_rev.
  - assert (order_indices found (nodes self) order kids (roots self) =
      merge_sort (fun i j => ordering_le (compare_at (nodes self) (compare_ordered order) i j)) found) as ->
      by (destruct order; first [done | exfalso; apply Hother; by auto]).
    split; [apply merge_sort_Permutation |].
    assert (Sorted.StronglySorted (fun i j => ordering_le (compare_at (nodes self) (compare_ordered order) i j))
      (merge_sort (fun i j => ordering_le (compare_at (nodes self) (compare_ordered order) i j)) found)) as Hs.
    { apply (sort_sorted (compare_at (nodes self) (compare_ordered order))); [| done].
      apply (total_key (fun i => nodes self !! i) (fun a b => compare_optional_missing_last (compare_ordered order) a b false)).
      apply total_optional_order, total_ordered. }
    destruct order; first [done | exfalso; apply Hother; by auto].
Qed.
End Ordered.
End ElementOrderFacts.
