(* ===== verification/AccessibilityPages.v ===== *)
(** * The results of accessibility queries

    The result of a selector over a view as one list, what every page of a query shows of
    it, that a query within its budgets answers, and what a caller who follows the
    continuations reads. *)

From stdpp Require Import base numbers list option gmap strings sorting.
From Stdlib Require Import Lia.
From S2P Require Import Prelude Orderings Identity WindowTypes WindowQueries.
From S2P Require Import AccessibilityTypes Accessibility AccessibilityGraph AccessibilityViews.
From S2P Require Import AccessibilityQueries AccessibilityViewFacts AccessibilityQueryFacts.

Local Open Scope N_scope.
Import AccessibilitySnapshot AccessibilityQueryError ElementEngine ElementQueries ElementOrderFacts.
#[local] Abbreviation len := Prelude.len.

Section Results.
Context (to_lowercase : string -> string).
Context {nfa pikevm : Type} (nfa_build : string -> bool -> option nfa).
Context (pikevm_new : nfa -> option pikevm) (is_match : pikevm -> string -> bool).
Context {fingerprint : Type} `{EqDecision fingerprint}.
Context (fingerprint_of : ElementSelector.t -> option fingerprint).
Context {C : Type} (instant_now : C -> C * N).

#[local] Abbreviation satisfies := (ElementMeaning.satisfies to_lowercase nfa_build pikevm_new is_match).
#[local] Abbreviation matches_at := (matches_at to_lowercase is_match).
#[local] Abbreviation query_at :=
  (query_with_deadline to_lowercase nfa_build pikevm_new is_match fingerprint_of instant_now).
#[local] Abbreviation continue_at :=
  (continue_query_with_deadline to_lowercase nfa_build pikevm_new is_match fingerprint_of instant_now).

(** The elements that a selector asks for, in its order. *)
Definition selected_in (self : AccessibilitySnapshot.t) (selector : ElementSelector.t) (result : list nat) : Prop :=
  exists found, NoDup found /\
    (forall i, i ∈ found <-> in_scope self (ElementSelector.scope selector) i /\
      exists node, nodes self !! i = Some node /\ satisfies selector node) /\
    ordered self (ElementSelector.order selector) found /\
    result = selected_match (ElementSelector.result_index selector) found.

(** ** The result as a function *)
Definition query_result (self : AccessibilitySnapshot.t) (selector : ElementSelector.t)
    (compiled : list (CompiledPredicate (pikevm := pikevm))) : list nat :=
  selected_match (ElementSelector.result_index selector)
    (order_indices (filter (fun i => matches_at self compiled i = true)
                      (scope_list self (ElementSelector.scope selector)))
       (nodes self) (ElementSelector.order selector) (children self) (roots self)).

(** What one call that returned has computed. *)
Definition page_of (result : list nat) (limit offset : N) : list nat :=
  take (N.to_nat limit) (drop (N.to_nat offset) result).

Definition next_of (result : list nat) (limit offset : N) : option N :=
  if decide (offset + limit < len result) then Some (offset + limit) else None.

Definition resume (self : AccessibilitySnapshot.t) (selector : ElementSelector.t) (expansion : Expansion.t)
    (f : fingerprint) (next : N) : Continuation.t fingerprint :=
  Continuation.mk (desktop_id self) (desktop_generation self) (atspi_generation self)
    (AccessibilitySnapshot.revision self) f (ElementSelector.order selector) expansion next.

Definition page_shown (self : AccessibilitySnapshot.t) (selector : ElementSelector.t) (expansion : Expansion.t)
    (f : fingerprint) (result : list nat) (visited limit offset : N) : QueryProjection.t fingerprint :=
  QueryProjection.mk (desktop_id self) (desktop_generation self) (atspi_generation self)
    (AccessibilitySnapshot.revision self) (entries_at self expansion (page_of result limit offset)) visited
    (len result) (next_of result limit offset)
    (resume self selector expansion f <$> next_of result limit offset) (graph_warnings (graph self)).

(** The slice between [offset] and the end of the page. *)
Lemma page_slice (result : list nat) limit offset : offset <= len result ->
  take (N.to_nat (N.min (offset + limit) (len result) - offset)) (drop (N.to_nat offset) result) =
    page_of result limit offset.
Proof.
  intros Hle. unfold page_of. destruct (N.le_gt_cases (offset + limit) (len result)) as [H | H].
  - rewrite N.min_l by done. do 2 f_equal. lia.
  - rewrite N.min_r by lia. unfold len in *.
    rewrite !take_ge; [done | rewrite length_drop; lia..].
Qed.

Lemma selected_match_len result_index found : len (selected_match result_index found) <= len found.
Proof.
  unfold selected_match, len. destruct result_index as [r |]; [| done].
  destruct (found !! N.to_nat r) as [x |] eqn:Hr; simpl; [| lia]. apply lookup_lt_Some in Hr. lia.
Qed.

Lemma query_result_len self selector compiled :
  len (query_result self selector compiled) <=
  len (filter (fun i => matches_at self compiled i = true) (scope_list self (ElementSelector.scope selector))).
Proof.
  unfold query_result. etrans; [apply selected_match_len |]. unfold len.
  by erewrite (Permutation_length (order_indices_Permutation _ _ _ _ _)).
Qed.

Lemma query_returns self selector expansion limits limit offset deadline clock clock' p :
  query_at self selector expansion limits limit offset deadline clock = (clock', Ok p) ->
  AccessibilityViews.resync_required (graph self) = false /\
  1 <= limit /\
  exists f compiled, fingerprint_of selector = Some f /\
    compile to_lowercase nfa_build pikevm_new selector = Ok compiled /\
    let result := query_result self selector compiled in
    (offset < len result \/ (offset = 0 /\ result = [])) /\ len result <= QueryLimits.max_matches limits /\
    p = page_shown self selector expansion f result (len (scope_list self (ElementSelector.scope selector))) limit offset.
Proof.
  unfold query_with_deadline. intros H. returned.
  rename a6 into f, a7 into compiled. destruct a10 as [visited found]. returned.
  repeat match goal with
  | Hx : accessibility_selector_fingerprint _ _ = Ok _ |- _ => apply ok_or_Ok in Hx
  | Hx : require_clean_graph _ = Ok _ |- _ => apply ensure_Ok in Hx
  | Hx : scope_indices _ _ _ _ _ _ = _ |- _ => apply scope_indices_list in Hx
  | Hx : scan _ _ _ _ _ _ _ _ _ _ _ = _ |- _ =>
      apply scan_returns in Hx as (-> & -> & Hmatches); [| unfold len; simpl; lia]
  | Hx : try_u32 _ _ = Ok _ |- _ => apply and_then_Ok in Hx as ([] & _ & [= <-])
  end.
  split; [by apply not_true_is_false |]. split; [lia |]. exists f, compiled. split; [done |]. split; [done |].
  match goal with Hx : map fst _ = _ |- _ => rewrite Hx in * end.
  assert (len (query_result self selector compiled) <= QueryLimits.max_matches limits) as Hlen
    by (etrans; [apply query_result_len | done]).
  change (selected_match _ _) with (query_result self selector compiled) in *.
  set (result := query_result self selector compiled) in *. simpl. subst p.
  assert (a7 = next_of result limit offset) as ->.
  { unfold next_of. revert Hrun12. repeat case_decide; try lia; [| by intros [= <-]].
    intros (n & (_ & _ & [= <-])%and_then_Ok & [= <-])%and_then_Ok. f_equal. lia. }
  split.
  - destruct (decide (offset < len result)) as [| Hge]; [by left | right].
    assert (offset = 0) as -> by (destruct (decide (offset = 0)); [done | exfalso; apply Hnot0; lia]).
    split; [done |]. destruct result; [done |]. rewrite len_cons in Hge. lia.
  - split; [done |]. rewrite page_slice by (destruct (decide (len result < offset)); [exfalso; auto | lia]).
    unfold page_shown. rewrite <- Hrun9. unfold len. by rewrite length_map.
Qed.

Lemma query_result_selected self selector compiled : clean_view self ->
  compile to_lowercase nfa_build pikevm_new selector = Ok compiled ->
  selected_in self selector (query_result self selector compiled).
Proof.
  clear fingerprint_of. intros Hself Hc. destruct (scope_list_spec self Hself (ElementSelector.scope selector)) as [Hnd Hin].
  set (matching := filter (fun i => matches_at self compiled i = true) (scope_list self (ElementSelector.scope selector))).
  assert (NoDup matching) as Hm by by apply NoDup_filter.
  assert (forall i, matches_at self compiled i = true <-> exists node, nodes self !! i = Some node /\ satisfies selector node) as Hmatch.
  { intros i. unfold AccessibilityQueryFacts.matches_at. rewrite ElementMeaning.option_exists_spec.
    by setoid_rewrite (ElementMeaning.element_matches_spec _ _ _ _ _ _ _ Hc). }
  destruct (order_indices_spec self Hself (ElementSelector.order selector) matching Hm) as [Hp Ho].
  { intros i [(node & Hi & _)%Hmatch _]%list_elem_of_filter. by eapply lookup_lt_Some. }
  exists (order_indices matching (nodes self) (ElementSelector.order selector) (children self) (roots self)).
  split_and!; [by rewrite Hp | | done | done].
  intros i. rewrite Hp. unfold matching. rewrite list_elem_of_filter, Hin, Hmatch. tauto.
Qed.

(** ** Following the continuations *)

(** A call that returned a page: the first of a query, or one that continues it. *)
Definition call (self : AccessibilitySnapshot.t) (selector : ElementSelector.t) (expansion : Expansion.t)
    (c : option (Continuation.t fingerprint)) (p : QueryProjection.t fingerprint) : Prop :=
  exists limits limit deadline clock clock',
    match c with
    | None => query_at self selector expansion limits limit 0 deadline clock
    | Some c => continue_at self selector limits limit c deadline clock
    end = (clock', Ok p).

(** What a caller reads who follows the continuations to the last page. *)
Inductive reads (self : AccessibilitySnapshot.t) (selector : ElementSelector.t) (expansion : Expansion.t) :
    option (Continuation.t fingerprint) -> list ElementSnapshotEntry -> Prop :=
  | reads_last c p : call self selector expansion c p -> QueryProjection.continuation p = None ->
      reads self selector expansion c (QueryProjection.elements p)
  | reads_on c p c' rest : call self selector expansion c p -> QueryProjection.continuation p = Some c' ->
      reads self selector expansion (Some c') rest ->
      reads self selector expansion c (QueryProjection.elements p ++ rest).

Lemma continue_returns self selector expansion limits limit f next deadline clock clock' p :
  continue_at self selector limits limit (resume self selector expansion f next) deadline clock = (clock', Ok p) ->
  exists clock1, query_at self selector expansion limits limit next deadline clock1 = (clock', Ok p).
Proof. unfold continue_query_with_deadline. intros H. returned. by eexists. Qed.

Lemma entries_at_app self expansion l k :
  entries_at self expansion (l ++ k) = entries_at self expansion l ++ entries_at self expansion k.
Proof. unfold entries_at, nodes_at. by rewrite omap_app, map_app. Qed.

Lemma page_split (result : list nat) limit offset :
  drop (N.to_nat offset) result = page_of result limit offset ++ drop (N.to_nat (offset + limit)) result.
Proof.
  unfold page_of. rewrite N2Nat.inj_add, <- drop_drop. by rewrite take_drop.
Qed.

Lemma page_last (result : list nat) limit offset : len result <= offset + limit ->
  page_of result limit offset = drop (N.to_nat offset) result.
Proof. intros H. unfold page_of. apply take_ge. rewrite length_drop. unfold len in H. lia. Qed.

Lemma reads_rest self selector expansion compiled f c entries :
  fingerprint_of selector = Some f -> compile to_lowercase nfa_build pikevm_new selector = Ok compiled ->
  reads self selector expansion c entries ->
  forall offset, match c with None => offset = 0 | Some c => c = resume self selector expansion f offset end ->
  entries = entries_at self expansion (drop (N.to_nat offset) (query_result self selector compiled)).
Proof.
  intros Hf Hc. assert (forall c p, call self selector expansion c p ->
    forall offset, match c with None => offset = 0 | Some c => c = resume self selector expansion f offset end ->
    exists visited limit, p = page_shown self selector expansion f (query_result self selector compiled) visited limit offset)
    as Hcall.
  { intros c' p (limits & limit & deadline & clock & clock' & H) offset Ho.
    assert (exists clock1, query_at self selector expansion limits limit offset deadline clock1 = (clock', Ok p)) as [clock1 Hq].
    { destruct c' as [c' |]; subst; [by eapply continue_returns | by eexists]. }
    apply query_returns in Hq as (_ & _ & f' & compiled' & Hf' & Hc' & _ & _ & ->).
    assert (f' = f) as -> by congruence. assert (compiled' = compiled) as -> by congruence. by eexists _, _. }
  induction 1 as [c p Hp Hn | c p c' rest Hp Hn Hrest IH]; intros offset Ho;
    destruct (Hcall c p Hp offset Ho) as (visited & limit & ->); unfold page_shown, next_of in *; simpl in *;
    case_decide as Hlt; simpl in Hn; try done.
  - rewrite page_last; [done | lia].
  - injection Hn as <-. rewrite (IH (offset + limit) eq_refl).
    by rewrite (page_split _ limit offset), entries_at_app.
Qed.
End Results.
