(* ===== verification/AccessibilityAnswers.v ===== *)
(** * Queries within their budgets answer

    While the clock stays before the deadline, every stage of a query returns when the
    scope, its depth and the matches are within the limits of the request: no budget is
    charged for more than what is there. *)

From stdpp Require Import base numbers list option gmap strings sorting.
From Stdlib Require Import Lia.
From S2P Require Import Prelude Orderings Identity WindowTypes WindowQueries.
From S2P Require Import AccessibilityTypes Accessibility AccessibilityGraph AccessibilityViews.
From S2P Require Import AccessibilityQueries AccessibilityViewFacts AccessibilityQueryFacts AccessibilityPages.

Local Open Scope N_scope.
Import AccessibilitySnapshot AccessibilityQueryError ElementEngine ElementQueries.
#[local] Abbreviation len := Prelude.len.

(** ** Runs that go on *)
Lemma bind_run {S E A B} (m : M S E A) (k : A -> M S E B) s s1 a : m s = (s1, Ok a) -> bind m k s = k a s1.
Proof. Transparent bind. unfold bind. by intros ->. Qed.
Lemma lift_run {S E A B} (r : result A E) (k : A -> M S E B) s a : r = Ok a -> bind (lift r) k s = k a s.
Proof. Transparent lift. by intros ->. Qed.
Lemma pass_run {S E B} (P : Prop) `{Decision P} (e : E) (k : unit -> M S E B) s : ~ P -> bind (reject_if P e) k s = k tt s.
Proof. Transparent reject_if ret. intros HP. unfold bind, reject_if. by rewrite decide_False. Qed.
Lemma reject_run {S E B} (P : Prop) `{Decision P} (e : E) (k : unit -> M S E B) s : P -> bind (reject_if P e) k s = (s, Err e).
Proof. Transparent bind reject_if fail. intros HP. unfold bind, reject_if, fail. by rewrite decide_True. Qed.
Lemma ret_run {S E A} (a : A) (s : S) : ret (E := E) a s = (s, Ok a).
Proof. Transparent ret. done. Qed.
#[global] Opaque bind lift reject_if ret.

Section Answers.
Context {C : Type} (instant_now : C -> C * N) (deadline : N).
Context (Hclock : forall clock, (instant_now clock).2 < deadline).

(** The clock after one reading. *)
Definition tick (clock : C) : C := (instant_now clock).1.

Lemma check_passes clock : check_deadline instant_now deadline clock = (tick clock, Ok tt).
Proof.
  Transparent bind ret reject_if. unfold check_deadline, clock_now, tick, bind, reject_if.
  pose proof (Hclock clock) as H. destruct (instant_now clock) as [c now]. simpl in *.
  rewrite decide_False by lia. done.
Qed.
#[local] Opaque bind ret reject_if.

Lemma check_run {B} (k : unit -> M C AccessibilityQueryError.t B) clock :
  bind (check_deadline instant_now deadline) k clock = k tt (tick clock).
Proof. apply bind_run, check_passes. Qed.

Lemma choose_roots_answers keep candidates clock :
  exists clock' chosen, choose_roots instant_now keep deadline candidates clock = (clock', Ok chosen).
Proof.
  revert clock. induction candidates as [| i l IH]; intros clock; simpl; [by eexists _, _; apply ret_run |].
  rewrite check_run. destruct (IH (tick clock)) as (c & chosen & H). rewrite (bind_run _ _ _ _ _ H). by eexists _, _; apply ret_run.
Qed.

(** A stack whose trees fit in the depth left. *)
Definition fits (children : list (list nat)) (max_depth : N) (entry : nat * N) : Prop :=
  exists k, shallow children k entry.1 /\ entry.2 + N.of_nat k <= max_depth + 1.

Lemma descend_answers fuel children max_depth stack seen clock : max_depth < 65535 ->
  Forall (fits children max_depth) stack ->
  exists clock' output, descend instant_now fuel children max_depth deadline stack seen clock = (clock', Ok output) /\
    Forall (fun entry => entry.2 <= max_depth) output.
Proof.
  intros Hmax. revert stack seen clock. induction fuel as [| fuel IH]; intros stack seen clock Hfit;
    [by eexists _, _; split; [apply ret_run | constructor] |].
  destruct stack as [| [i d] stack]; [by eexists _, _; split; [apply ret_run | constructor] |].
  apply Forall_cons in Hfit as [(k & Hs & Hd) Hfit]. simpl in Hs, Hd |- *. rewrite check_run.
  case_decide; [by apply IH |]. destruct k as [| k]; [done |].
  rewrite pass_run by lia.
  assert (checked_add_u16 d 1 = Some (d + 1)) as -> by (unfold checked_add_u16; rewrite decide_True; [done | lia]).
  rewrite (lift_run (ok_or (Some (d + 1)) _) _ _ (d + 1) eq_refl).
  destruct (IH (map (fun child => (child, d + 1)) (children_of children i) ++ stack) (i :: seen) (tick clock))
    as (c & output & Hout & Hle).
  { apply Forall_app. split; [| done]. apply Forall_fmap. eapply Forall_impl; [apply Hs |].
    intros j Hj. exists k. split; [done |]. simpl. lia. }
  rewrite (bind_run _ _ _ _ _ Hout). eexists _, _. split; [apply ret_run |].
  constructor; [simpl; lia | done].
Qed.

Section View.
Context (self : AccessibilitySnapshot.t).

(** The trees the scope descends into are not deeper than [max_depth]. *)
Definition scope_fits (scope : ElementScope.t) (max_depth : N) : Prop :=
  Forall (shallow (children self) (S (N.to_nat max_depth))) (scope_starts self scope).

(** The element a scope starts from is in the view. *)
Definition scope_found (scope : ElementScope.t) : Prop :=
  match scope with
  | ElementScope.Subtree root _ => is_Some (indices self !! root)
  | ElementScope.Children parent => is_Some (indices self !! parent)
  | _ => True
  end.

Lemma scope_indices_answers scope max_depth clock : 1 <= max_depth < 65535 -> scope_found scope ->
  scope_fits scope max_depth ->
  exists clock' scoped, scope_indices instant_now self scope max_depth deadline clock = (clock', Ok scoped) /\
    Forall (fun entry => entry.2 <= max_depth) scoped.
Proof.
  intros Hmax Hfound Hfits. unfold scope_indices. rewrite check_run.
  assert (forall clock1, (forall parent, scope <> ElementScope.Children parent) ->
    (exists clock2 starts, scope_roots instant_now self scope deadline clock1 = (clock2, Ok starts)) ->
    exists clock' scoped,
      (starts <- scope_roots instant_now self scope deadline ;;
       descend instant_now (work (children self) starts) (children self) max_depth deadline
         (map (fun index => (index, 0)) starts) []) clock1 = (clock', Ok scoped) /\
      Forall (fun entry => entry.2 <= max_depth) scoped) as Hgo.
  { intros clock1 Hother (c & starts & Hr). rewrite (bind_run _ _ _ _ _ Hr).
    apply scope_roots_starts in Hr as ->. apply descend_answers; [lia |].
    apply Forall_fmap. eapply Forall_impl; [apply Hfits |]. intros i Hi.
    exists (S (N.to_nat max_depth)). split; [done |]. simpl. lia. }
  destruct scope as [| application | window | root include | parent]; try apply Hgo; try done; simpl.
  - by eexists _, _; apply ret_run.
  - apply choose_roots_answers.
  - apply choose_roots_answers.
  - destruct Hfound as [r Hr]. simpl in Hr. unfold position_of. rewrite Hr.
    rewrite (lift_run (ok_or (Some r) _) _ _ r eq_refl). by eexists _, _; apply ret_run.
  - destruct Hfound as [r Hr]. simpl in Hr. unfold position_of. rewrite Hr.
    rewrite (lift_run (ok_or (Some r) _) _ _ r eq_refl), check_run. eexists _, _. split; [apply ret_run |].
    apply Forall_fmap, Forall_forall. intros i _. simpl. lia.
Qed.

Section Scan.
Context (to_lowercase : string -> string) {pikevm : Type} (is_match : pikevm -> string -> bool).
Context (compiled : list (CompiledPredicate (pikevm := pikevm))).
#[local] Abbreviation matches_at := (matches_at to_lowercase is_match self compiled).

Lemma scan_answers limits visited found scoped clock :
  QueryLimits.max_visited_nodes limits <= u32_max ->
  visited + len scoped <= QueryLimits.max_visited_nodes limits ->
  Forall (fun entry => entry.2 <= QueryLimits.max_depth limits) scoped ->
  len (found ++ filter (fun i => matches_at i = true) (map fst scoped)) <= QueryLimits.max_matches limits ->
  exists clock' scanned, scan to_lowercase is_match instant_now self compiled limits deadline visited found scoped clock =
    (clock', Ok scanned).
Proof.
  intros Hmax. revert visited found clock. induction scoped as [| [i d] scoped IH]; intros visited found clock Hv Hd Hm;
    simpl; [by eexists _, _; apply ret_run |].
  apply Forall_cons in Hd as [Hdi Hd]. rewrite len_cons in Hv. simpl in Hdi. rewrite check_run.
  assert (checked_add_u32 visited 1 = Some (visited + 1)) as ->
    by (unfold checked_add_u32; rewrite decide_True; [done | lia]).
  rewrite (lift_run (ok_or (Some (visited + 1)) _) _ _ (visited + 1) eq_refl), !pass_run by lia.
  fold (matches_at i). simpl in Hm. rewrite filter_cons in Hm.
  destruct (matches_at i) eqn:Hi; simpl in Hm.
  - rewrite pass_run.
    + apply IH; [lia | done |]. by rewrite <- app_assoc.
    + rewrite (len_app found [i]). rewrite len_app, len_cons in Hm. unfold len in *. simpl. lia.
  - apply IH; [lia | done | done].
Qed.
End Scan.
End View.

Section Query.
Context (to_lowercase : string -> string).
Context {nfa pikevm : Type} (nfa_build : string -> bool -> option nfa).
Context (pikevm_new : nfa -> option pikevm) (is_match : pikevm -> string -> bool).
Context {fingerprint : Type} `{EqDecision fingerprint}.
Context (fingerprint_of : ElementSelector.t -> option fingerprint).

(** The request is valid and addresses this view. *)
Record admissible (self : AccessibilitySnapshot.t) (selector : ElementSelector.t) (expansion : Expansion.t)
    (limits : QueryLimits.t) (limit : N) : Prop := {
  admissible_selector : ElementSelector.validate_for (desktop_id self) (desktop_generation self) selector = Ok tt;
  admissible_expansion : Expansion.validate expansion = Ok tt;
  admissible_limits : QueryLimits.validate limits = Ok tt;
  admissible_limit : 1 <= limit <= QueryLimits.max_matches limits;
  admissible_graph : AccessibilityViews.resync_required (graph self) = false;
  admissible_generation : require_selector_generation self selector = Ok tt;
}.

(** The scope, its depth and the matches are within the limits. *)
Record within_budget (self : AccessibilitySnapshot.t) (selector : ElementSelector.t) (limits : QueryLimits.t) : Prop := {
  budget_depth : scope_fits self (ElementSelector.scope selector) (QueryLimits.max_depth limits);
  budget_visited l : NoDup l -> (forall i, i ∈ l -> in_scope self (ElementSelector.scope selector) i) ->
    len l <= QueryLimits.max_visited_nodes limits;
  budget_matches l : NoDup l -> (forall i, i ∈ l -> in_scope self (ElementSelector.scope selector) i /\
      exists node, nodes self !! i = Some node /\
        ElementMeaning.satisfies to_lowercase nfa_build pikevm_new is_match selector node) ->
    len l <= QueryLimits.max_matches limits;
}.

Lemma limits_bounds limits : QueryLimits.validate limits = Ok tt ->
  1 <= QueryLimits.max_depth limits < 65535 /\ QueryLimits.max_visited_nodes limits <= u32_max /\
  QueryLimits.max_matches limits <= 1000.
Proof.
  intros H%ensure_Ok. unfold MAX_ACCESSIBILITY_QUERY_VISITED_NODES, MAX_ACCESSIBILITY_SELECTOR_DEPTH,
    MAX_ACCESSIBILITY_QUERY_MATCHES, u32_max in *. lia.
Qed.

Lemma generation_found self selector : require_selector_generation self selector = Ok tt ->
  scope_found self (ElementSelector.scope selector).
Proof.
  unfold require_selector_generation. intros (u & H & _)%and_then_Ok. destruct (ElementSelector.scope selector); try done;
    simpl; apply ensure_Ok in H; apply dec_stable in H; tauto.
Qed.

Lemma try_u32_pass {E} n (e : E) : n <= u32_max -> try_u32 n e = Ok n.
Proof. intros H. unfold try_u32. rewrite ensure_pass by lia. done. Qed.

Lemma query_answers self selector expansion limits limit offset clock f compiled :
  clean_view self -> admissible self selector expansion limits limit -> within_budget self selector limits ->
  fingerprint_of selector = Some f -> compile to_lowercase nfa_build pikevm_new selector = Ok compiled ->
  offset = 0 \/ offset < len (query_result to_lowercase is_match self selector compiled) ->
  exists clock' p, query_with_deadline to_lowercase nfa_build pikevm_new is_match fingerprint_of instant_now
    self selector expansion limits limit offset deadline clock = (clock', Ok p).
Proof.
  intros Hself [Hsel Hexp Hlim Hlimit Hgraph Hgen] [Hdepth Hvis Hmat] Hf Hc Ho.
  destruct (limits_bounds limits Hlim) as (Hd & Hv & Hm). unfold query_with_deadline.
  rewrite check_run, Hsel, Hexp, Hlim. rewrite !(lift_run (map_err _ (Ok tt)) _ _ tt eq_refl).
  rewrite pass_run by lia. unfold require_clean_graph. rewrite ensure_pass by by rewrite Hgraph.
  rewrite (lift_run (Ok tt) _ _ tt eq_refl), Hgen, (lift_run (Ok tt) _ _ tt eq_refl).
  unfold accessibility_selector_fingerprint. rewrite Hf, (lift_run (ok_or (Some f) _) _ _ f eq_refl).
  rewrite Hc, (lift_run (Ok compiled) _ _ compiled eq_refl), check_run.
  destruct (scope_indices_answers self (ElementSelector.scope selector) (QueryLimits.max_depth limits)
    (tick (tick clock)) Hd (generation_found _ _ Hgen) Hdepth) as (c1 & scoped & Hscoped & Hdepths).
  rewrite (bind_run _ _ _ _ _ Hscoped). apply scope_indices_list in Hscoped.
  destruct (scope_list_spec self Hself (ElementSelector.scope selector)) as [Hnd Hin].
  assert (len (filter (fun i => matches_at to_lowercase is_match self compiled i = true) (map fst scoped)) <=
    QueryLimits.max_matches limits) as Hmatch.
  { apply Hmat; [rewrite Hscoped; by apply NoDup_filter |].
    intros i [Hi Hs]%list_elem_of_filter. rewrite Hscoped in Hs. split; [by apply Hin |].
    apply ElementMeaning.option_exists_spec in Hi as (node & Hn & Hi). exists node. split; [done |].
    by eapply ElementMeaning.element_matches_spec. }
  destruct (scan_answers self to_lowercase is_match compiled limits 0 [] scoped c1 Hv) as (c2 & scanned & Hscan);
    [| done | done |].
  { assert (len scoped = len (map fst scoped)) as -> by (unfold len; by rewrite length_map).
    rewrite Hscoped. apply Hvis; [done |]. intros i. apply Hin. }
  rewrite (bind_run _ _ _ _ _ Hscan). destruct scanned as [visited found].
  apply scan_returns in Hscan as (_ & Hfound & _); [| unfold len; simpl; lia]. rewrite Hscoped in Hfound.
  simpl in Hfound. subst found. rewrite check_run.
  assert (len (query_result to_lowercase is_match self selector compiled) <= QueryLimits.max_matches limits) as Hlen
    by (etrans; [apply query_result_len | by rewrite <- Hscoped]).
  change (selected_match _ _) with (query_result to_lowercase is_match self selector compiled).
  set (result := query_result to_lowercase is_match self selector compiled) in *. unfold u32_max in *.
  rewrite pass_run by lia.
  destruct (decide (N.min (offset + limit) (len result) < len result)) as [Hlt | Hge].
  - rewrite (try_u32_pass (N.min (offset + limit) (len result))) by (unfold u32_max; lia).
    rewrite (lift_run (let? next := Ok _ in _) _ _ _ eq_refl), check_run.
    rewrite try_u32_pass by (unfold u32_max; lia). rewrite (lift_run (Ok _) _ _ _ eq_refl).
    by eexists _, _; apply ret_run.
  - rewrite (lift_run (Ok None) _ _ _ eq_refl), check_run.
    rewrite try_u32_pass by (unfold u32_max; lia). rewrite (lift_run (Ok _) _ _ _ eq_refl).
    by eexists _, _; apply ret_run.
Qed.
End Query.
End Answers.
