(* ===== verification/AccessibilityWaits.v ===== *)
(** * Views of the cache: what is shown of it, and the waits on it

    The nodes of the view of a reachable cache are its live elements, each at the position
    its reference leads to; what a query, a resolution or a wait hands out is a projection
    of them, which shows nothing of an element whose birth was protected; and a wait
    evaluates its predicate over the elements its target selects. *)

From stdpp Require Import base numbers list option gmap strings sorting.
From Stdlib Require Import Lia.
From S2P Require Import Prelude Orderings Identity WindowTypes WindowQueries.
From S2P Require Import AccessibilityTypes Accessibility AccessibilityIdentity AccessibilityGraph.
From S2P Require Import AccessibilityViews AccessibilityQueries AccessibilityViewFacts AccessibilityQueryFacts AccessibilityPages.

Local Open Scope N_scope.
Import AccessibilitySnapshot AccessibilityQueryError ElementEngine ElementQueries.
#[local] Abbreviation len := Prelude.len.

(** ** The view of a cache *)
Module CacheViewFacts.

Lemma snapshot_clean cache : AccessibilityViews.resync_required (graph (snapshot_of cache)) = false ->
  clean_view (snapshot_of cache).
Proof. apply build_clean. Qed.

Lemma snapshot_nodes cache : nodes (snapshot_of cache) ≡ₚ (map_to_list (AccessibilityCache.nodes cache)).*2.
Proof. unfold snapshot_of. rewrite BuildFacts.build_nodes. by rewrite btree_iter_Permutation. Qed.

Lemma elem_of_snapshot cache node :
  node ∈ nodes (snapshot_of cache) <-> exists k, AccessibilityCache.nodes cache !! k = Some node.
Proof.
  rewrite snapshot_nodes, list_elem_of_fmap. split.
  - intros ([k n] & -> & H%elem_of_map_to_list). by exists k.
  - intros [k H%elem_of_map_to_list]. by exists (k, node).
Qed.

Lemma snapshot_distinct cache : CacheInvariant.wf cache ->
  NoDup (map ElementSnapshot.element (nodes (snapshot_of cache))).
Proof.
  intros Hwf. eapply (NoDup_fmap_1 object_key). change (map ?f ?l) with (f <$> l). rewrite snapshot_nodes.
  assert (object_key <$> (ElementSnapshot.element <$> (map_to_list (AccessibilityCache.nodes cache)).*2) =
    (map_to_list (AccessibilityCache.nodes cache)).*1) as ->; [| apply NoDup_fst_map_to_list].
  rewrite <- !list_fmap_compose. apply list_fmap_ext. intros i [k node] Hi%list_elem_of_lookup_2%elem_of_map_to_list.
  simpl. by apply (CacheInvariant.wf_node _ Hwf).
Qed.

(** A reference leads to the position of its node. *)
Lemma snapshot_index cache i node : CacheInvariant.wf cache -> nodes (snapshot_of cache) !! i = Some node ->
  indices (snapshot_of cache) !! ElementSnapshot.element node = Some i.
Proof. intros Hwf Hi. apply IndexFacts.index_nodes_at; [by apply snapshot_distinct | done]. Qed.
End CacheViewFacts.

(** ** What is handed out *)
Section Handed.
Context (to_lowercase : string -> string).
Context {nfa pikevm : Type} (nfa_build : string -> bool -> option nfa).
Context (pikevm_new : nfa -> option pikevm) (is_match : pikevm -> string -> bool).
Context {fingerprint : Type} `{EqDecision fingerprint}.
Context (fingerprint_of : ElementSelector.t -> option fingerprint).
Context {C : Type} (instant_now : C -> C * N).

(** The answers that carry elements: pages, resolutions and wait evaluations. *)
Inductive hands_out (self : AccessibilitySnapshot.t) : ElementSnapshotEntry -> Prop :=
  | by_query selector expansion limits limit offset deadline clock clock' p entry :
      query_with_deadline to_lowercase nfa_build pikevm_new is_match fingerprint_of instant_now
        self selector expansion limits limit offset deadline clock = (clock', Ok p) ->
      entry ∈ QueryProjection.elements p -> hands_out self entry
  | by_continuation selector limits limit continuation deadline clock clock' p entry :
      continue_query_with_deadline to_lowercase nfa_build pikevm_new is_match fingerprint_of instant_now
        self selector limits limit continuation deadline clock = (clock', Ok p) ->
      entry ∈ QueryProjection.elements p -> hands_out self entry
  | by_reference element expansion entry :
      resolve_exact self element expansion = Ok entry -> hands_out self entry
  | by_selector selector expansion limits deadline clock clock' entry :
      resolve_exactly_one_with_deadline to_lowercase nfa_build pikevm_new is_match fingerprint_of instant_now
        self selector expansion limits deadline clock = (clock', Ok entry) -> hands_out self entry
  | by_wait request deadline clock clock' evaluation entry :
      evaluate_wait_with_deadline to_lowercase nfa_build pikevm_new is_match fingerprint_of instant_now
        self request deadline clock = (clock', Ok evaluation) ->
      entry ∈ WaitEvaluation.satisfying_elements evaluation -> hands_out self entry.

Lemma elem_of_entries self expansion indices entry : entry ∈ entries_at self expansion indices ->
  exists node, node ∈ nodes self /\ entry = project_entry expansion node.
Proof.
  unfold entries_at, nodes_at. intros (node & -> & (i & _ & Hi)%list_elem_of_omap)%list_elem_of_fmap.
  exists node. split; [by eapply list_elem_of_lookup_2 | done].
Qed.

Lemma query_hands self selector expansion limits limit offset deadline clock clock' p entry :
  query_with_deadline to_lowercase nfa_build pikevm_new is_match fingerprint_of instant_now
    self selector expansion limits limit offset deadline clock = (clock', Ok p) ->
  entry ∈ QueryProjection.elements p -> exists node, node ∈ nodes self /\ entry = project_entry expansion node.
Proof.
  intros (_ & _ & f & compiled & _ & _ & _ & _ & ->)%query_returns. apply elem_of_entries.
Qed.

(** Whatever is handed out is a projection of a node of the view. *)
Lemma handed_projection self entry : hands_out self entry ->
  exists expansion node, node ∈ nodes self /\ entry = project_entry expansion node.
Proof.
  intros [selector expansion limits limit offset deadline clock clock' p e H Hin
    | selector limits limit continuation deadline clock clock' p e H Hin
    | element expansion e H | selector expansion limits deadline clock clock' e H
    | request deadline clock clock' evaluation e H Hin].
  - exists expansion. by eapply query_hands.
  - unfold continue_query_with_deadline in H. returned. eexists. by eapply query_hands.
  - unfold resolve_exact in H. apply and_then_Ok in H as (i & _ & (node & Hn%ok_or_Ok & [= <-])%and_then_Ok).
    exists expansion, node. split; [by eapply list_elem_of_lookup_2 | done].
  - unfold resolve_exactly_one_with_deadline in H. returned. exists expansion. eapply query_hands; [done |].
    destruct (QueryProjection.total_matches _) as [| [| |]]; try done.
    apply ok_or_Ok in H. destruct (QueryProjection.elements _); [done |]. injection H as ->. by left.
  - unfold evaluate_wait_with_deadline in H. returned. destruct a3 as [selected quantifier]. returned.
    subst evaluation. simpl in Hin. apply elem_of_entries in Hin as (node & Hn & ->). by exists (ElementWaitRequest.expansion request), node.
Qed.
End Handed.

Lemma project_element expansion node :
  ElementSnapshot.element (project_snapshot expansion node) = ElementSnapshot.element node.
Proof.
  unfold project_snapshot, redact_protected. destruct expansion as [[] [] [] [] [] [] []]; cbn; by destruct (_ || _).
Qed.

(** A projection shows nothing of a sanitized snapshot. *)
Lemma project_sanitized expansion snapshot :
  CacheInvariant.sanitized snapshot -> CacheInvariant.sanitized (project_snapshot expansion snapshot).
Proof.
  intros (Hv & Ha & Ht). unfold project_snapshot.
  set (projected := if Expansion.component expansion then _ else _).
  assert (CacheInvariant.sanitized projected) as Hs.
  { subst projected. unfold CacheInvariant.sanitized, project_text, without_content.
    destruct expansion as [[] [] [] [] [] [] []]; cbn; rewrite ?Hv, ?Ha;
      (split_and!; [done | done |]); destruct (ElementSnapshot.text snapshot); cbn; tauto. }
  clearbody projected. destruct (_ || _); [| done].
  apply (CacheInvariant.redact_sanitized projected 0).
Qed.

(** ** What a wait evaluates *)
Section Waits.
Context (to_lowercase : string -> string).
Context {nfa pikevm : Type} (nfa_build : string -> bool -> option nfa).
Context (pikevm_new : nfa -> option pikevm) (is_match : pikevm -> string -> bool).
Context {fingerprint : Type} `{EqDecision fingerprint}.
Context (fingerprint_of : ElementSelector.t -> option fingerprint).
Context {C : Type} (instant_now : C -> C * N).
#[local] Abbreviation text_satisfies := (ElementMeaning.text_satisfies to_lowercase nfa_build pikevm_new is_match).

(** What a wait predicate asks of one element. *)
Definition wait_satisfied (predicate : ElementWaitPredicate.t) (node : ElementSnapshot.t) : Prop :=
  match predicate with
  | ElementWaitPredicate.Exists_ => True
  | ElementWaitPredicate.Gone | ElementWaitPredicate.SelectorCount _ _ => False
  | ElementWaitPredicate.State state value => state ∈ ElementSnapshot.states node <-> value = true
  | ElementWaitPredicate.Name m => exists text, ElementSnapshot.name node = Some text /\ text_satisfies m text
  | ElementWaitPredicate.Value minimum maximum =>
      exists value, ElementSnapshot.value node = Some value /\ in_f64_range (value_current value) minimum maximum = true
  | ElementWaitPredicate.Text_ m => exists text content, ElementSnapshot.text node = Some text /\
      TextSnapshot.content text = Some content /\ text_satisfies m (expose content)
  | ElementWaitPredicate.ChildCount minimum maximum =>
      exists count, ElementSnapshot.child_count node = Some count /\ in_u32_range count minimum maximum = true
  | ElementWaitPredicate.Geometry_ space rect => component_intersects node space rect = true
  end.

Lemma wait_predicate_spec node predicate b :
  wait_predicate_matches to_lowercase nfa_build pikevm_new is_match node predicate = Ok b ->
  b = true <-> wait_satisfied predicate node.
Proof.
  destruct predicate; simpl; try (intros [= <-]; rewrite ?ElementMeaning.option_exists_spec; done).
  - intros [= <-]. rewrite bool_decide_eq_true. case_bool_decide; destruct value; naive_solver.
  - intros (m & Hm & [= <-])%and_then_Ok. rewrite ElementMeaning.option_exists_spec.
    by setoid_rewrite (ElementMeaning.element_text_spec _ _ _ _ _ _ _ Hm).
  - intros (m & Hm & [= <-])%and_then_Ok. rewrite ElementMeaning.option_exists_spec.
    setoid_rewrite (ElementMeaning.element_text_spec _ _ _ _ _ _ _ Hm).
    setoid_rewrite bind_Some. naive_solver.
Qed.

Lemma satisfying_returns self predicate deadline selected clock clock' l :
  satisfying_of to_lowercase nfa_build pikevm_new is_match instant_now self predicate deadline selected clock =
    (clock', Ok l) ->
  sublist l selected /\
  forall i, i ∈ l <-> i ∈ selected /\ exists node, nodes self !! i = Some node /\ wait_satisfied predicate node.
Proof.
  revert clock l. induction selected as [| i selected IH]; intros clock l; simpl; intros H; returned; subst.
  { split; [constructor |]. intros i. split; [by intros ?%not_elem_of_nil | by intros [?%not_elem_of_nil _]]. }
  apply IH in Hrun2 as [Hsub Hin]. apply ok_or_Ok in Hrun0. apply wait_predicate_spec in Hrun1.
  assert (forall j, (exists node, nodes self !! j = Some node /\ wait_satisfied predicate node) -> j = i -> wait_satisfied predicate a0) as Hi
    by (intros j (node & Hn & Hw) ->; congruence).
  destruct a1; (split; [by constructor |]); intros j; rewrite ?elem_of_cons, Hin.
  - split; [intros [-> | [? ?]]; [split; [by left |] | by split; [right |]] | tauto].
    exists a0. split; [done | by apply Hrun1].
  - split; [intros [? ?]; by split; [right |] |]. intros [[-> | ?] Hw]; [| done].
    exfalso. assert (false = true); [| done]. apply Hrun1. by eapply Hi.
Qed.

(** What a wait asks of the elements selected, given which satisfy its predicate. *)
Definition wait_holds (request : ElementWaitRequest.t) (selected : list nat) (P : nat -> Prop) : Prop :=
  match ElementWaitRequest.target request, ElementWaitRequest.predicate request with
  | WaitReference _, ElementWaitPredicate.Exists_ => selected <> []
  | WaitReference _, ElementWaitPredicate.Gone => selected = []
  | WaitReference _, _ => exists i, i ∈ selected /\ P i
  | WaitSelector _ _, ElementWaitPredicate.SelectorCount minimum maximum =>
      minimum <= len selected /\ forall bound, maximum = Some bound -> len selected <= bound
  | WaitSelector _ ElementWaitQuantifier.Any, _ => exists i, i ∈ selected /\ P i
  | WaitSelector _ ElementWaitQuantifier.All, _ => selected <> [] /\ forall i, i ∈ selected -> P i
  | WaitSelector _ ElementWaitQuantifier.ExactlyOne, _ =>
      exists i, i ∈ selected /\ P i /\ forall j, j ∈ selected -> P j -> j = i
  | WaitSelector _ ElementWaitQuantifier.None_, _ => forall i, i ∈ selected -> ~ P i
  end.

(** The elements a wait is about. *)
Definition wait_selects (self : AccessibilitySnapshot.t) (request : ElementWaitRequest.t) (selected : list nat) : Prop :=
  match ElementWaitRequest.target request with
  | WaitReference element => NoDup selected /\
      forall i, i ∈ selected <-> exists node, nodes self !! i = Some node /\ ElementSnapshot.element node = element
  | WaitSelector selector _ =>
      selected_in to_lowercase nfa_build pikevm_new is_match self selector selected
  end.

Lemma selected_in_nodup self selector selected :
  selected_in to_lowercase nfa_build pikevm_new is_match self selector selected -> NoDup selected.
Proof.
  intros (found & Hnd & _ & _ & ->). unfold selected_match. destruct (ElementSelector.result_index selector); [| done].
  destruct (found !! _); simpl; [apply NoDup_singleton | constructor].
Qed.

Lemma entries_at_cons self expansion i l node : nodes self !! i = Some node ->
  entries_at self expansion (i :: l) = project_entry expansion node :: entries_at self expansion l.
Proof. intros Hi. unfold entries_at, nodes_at. simpl. by rewrite Hi. Qed.

Section Cache.
Context (cache : AccessibilityCache.t) (Hwf : CacheInvariant.wf cache).
#[local] Abbreviation self := (snapshot_of cache).

Lemma entry_positions expansion indices : (forall i, i ∈ indices -> is_Some (nodes self !! i)) ->
  omap (fun entry => AccessibilitySnapshot.indices self !! ElementSnapshot.element (snapshot entry))
    (entries_at self expansion indices) = indices.
Proof.
  induction indices as [| i l IH]; intros Hin; [done |].
  destruct (Hin i) as [node Hi]; [by left |]. rewrite (entries_at_cons _ _ _ _ _ Hi).
  cbn [omap list_omap project_entry snapshot]. rewrite project_element, (CacheViewFacts.snapshot_index cache i node Hwf Hi).
  f_equal. apply IH. intros j Hj. apply Hin. by right.
Qed.

Lemma wait_selection_returns request deadline clock clock' selected quantifier :
  AccessibilityViews.resync_required (graph self) = false ->
  QueryLimits.validate (ElementWaitRequest.limits request) = Ok tt ->
  wait_selection to_lowercase nfa_build pikevm_new is_match fingerprint_of instant_now self request deadline clock =
    (clock', Ok (selected, quantifier)) ->
  wait_selects self request selected /\ len selected <= 1000 /\
  match ElementWaitRequest.target request with
  | WaitReference _ => len selected <= 1
  | WaitSelector _ q => quantifier = q
  end.
Proof.
  intros Hclean Hlimits. pose proof (CacheViewFacts.snapshot_clean cache Hclean) as Hself.
  unfold wait_selection, wait_selects. destruct (ElementWaitRequest.target request) as [element | selector q];
    intros H; returned.
  - apply pair_equal_spec in H as [<- <-]. destruct (indices self !! element) as [i |] eqn:Hi;
      (split; [| unfold len; simpl; lia]).
    + change (option_list (Some i)) with [i]. split; [apply NoDup_singleton |]. intros j. rewrite list_elem_of_singleton. split.
      * intros ->. by apply (clean_index _ Hself).
      * intros (node & Hj & <-). rewrite (CacheViewFacts.snapshot_index cache j node Hwf Hj) in Hi. by injection Hi.
    + split; [constructor |]. intros j. split; [by intros ?%not_elem_of_nil |].
      intros (node & Hj & <-). by rewrite (CacheViewFacts.snapshot_index cache j node Hwf Hj) in Hi.
  - apply pair_equal_spec in H as [<- <-]. apply query_returns in Hrun as (_ & _ & f & compiled & Hf & Hc & _ & Hlen & ->).
    pose proof (query_result_selected _ _ _ is_match self selector compiled Hself Hc) as Hsel.
    unfold page_shown. cbn [QueryProjection.elements].
    rewrite page_last by (unfold len in *; lia). rewrite drop_0, entry_positions.
    + split; [done |]. split; [| done].
      apply ensure_Ok in Hlimits. unfold MAX_ACCESSIBILITY_QUERY_MATCHES in Hlimits. lia.
    + intros i Hi. destruct Hsel as (found & _ & Hfound & _ & Heq). rewrite Heq in Hi.
      assert (i ∈ found) as (_ & node & Hn & _)%Hfound; [| by rewrite Hn].
      unfold selected_match in Hi. destruct (ElementSelector.result_index selector); [| done].
      destruct (found !! N.to_nat n) as [x |] eqn:Hx; [| by apply not_elem_of_nil in Hi].
      apply list_elem_of_singleton in Hi as ->. by eapply list_elem_of_lookup_2.
Qed.

Section Counts.
Context (selected l : list nat) (P : nat -> Prop).
Context (Hnd : NoDup selected) (Hsub : sublist l selected) (Hl : forall i, i ∈ l <-> i ∈ selected /\ P i).

Lemma count_any : 0 < len l <-> exists i, i ∈ selected /\ P i.
Proof using Hnd Hsub Hl.
  setoid_rewrite <- Hl. unfold len. destruct l as [| i k]; simpl.
  - split; [lia | by intros (? & ?%not_elem_of_nil)].
  - split; [intros _; exists i; by left | lia].
Qed.

Lemma count_all : len l = len selected <-> forall i, i ∈ selected -> P i.
Proof using Hnd Hsub Hl.
  split.
  - intros Hlen i Hi. apply Hl. assert (l ≡ₚ selected) as ->; [| done].
    apply submseteq_length_Permutation; [by apply sublist_submseteq | unfold len in Hlen; lia].
  - intros Hall. unfold len. f_equal. apply Permutation_length, NoDup_Permutation; [by eapply sublist_NoDup | done |].
    intros i. rewrite Hl. naive_solver.
Qed.

Lemma count_one : len l = 1 <-> exists i, i ∈ selected /\ P i /\ forall j, j ∈ selected -> P j -> j = i.
Proof using Hnd Hsub Hl.
  pose proof (sublist_NoDup _ _ Hnd Hsub) as Hndl. unfold len. split.
  - destruct l as [| i [| j k]]; simpl; try lia. intros _. destruct (proj1 (Hl i)) as [Hi HPi]; [by left |].
    exists i. split_and!; [done | done |]. intros j Hj HPj.
    assert (j ∈ [i]) as ->%list_elem_of_singleton by by apply Hl. done.
  - intros (i & Hi & HPi & Hone). destruct l as [| j [| k rest]]; simpl; [| done |].
    + by assert (i ∈ []) as ?%not_elem_of_nil by by apply Hl.
    + assert (j = i /\ k = i) as [-> ->].
      { split; apply Hone; apply Hl; [by left | by left | right; by left | right; by left]. }
      apply NoDup_cons in Hndl as [Hn _]. destruct Hn. by left.
Qed.

Lemma count_none : len l = 0 <-> forall i, i ∈ selected -> ~ P i.
Proof using Hnd Hsub Hl.
  pose proof count_any as Hany. split.
  - intros Hlen i Hi HP. assert (0 < len l); [apply Hany; by exists i | lia].
  - intros Hno. destruct (decide (len l = 0)); [done |]. destruct (proj1 Hany) as (i & Hi & HP); [lia |].
    by destruct (Hno i Hi).
Qed.
End Counts.

Lemma as_u32_small n : n <= 1000 -> as_u32 n = n.
Proof. intros H. unfold as_u32. apply N.mod_small. lia. Qed.

(** The aggregate a wait computes from the two counts is the one it is asked for. *)
Lemma aggregate_spec request quantifier selected l (P : nat -> Prop) :
  NoDup selected -> len selected <= 1000 ->
  match ElementWaitRequest.target request with
  | WaitReference _ => len selected <= 1
  | WaitSelector _ q => quantifier = q
  end ->
  (selector_count_satisfied (ElementWaitRequest.predicate request) (len selected) = None -> sublist l selected) ->
  (selector_count_satisfied (ElementWaitRequest.predicate request) (len selected) <> None -> l = []) ->
  (forall i, i ∈ l <-> i ∈ selected /\ P i) ->
  aggregate_satisfied request quantifier (len selected) (as_u32 (len l)) = true <-> wait_holds request selected P.
Proof.
  intros Hnd Hlen Hq Hsub Hempty Hl. unfold aggregate_satisfied, wait_holds.
  assert (len selected = 1 <-> selected <> [] /\ len selected <= 1) as Hone
    by (destruct selected; unfold len; simpl; naive_solver lia).
  assert (len selected = 0 <-> selected = []) as Hzero by (destruct selected; unfold len; simpl; naive_solver lia).
  destruct (selector_count_satisfied (ElementWaitRequest.predicate request) (len selected)) as [b |] eqn:Hcount.
  - specialize (Hempty ltac:(done)). subst l.
    destruct (ElementWaitRequest.predicate request); try done. simpl in Hcount. injection Hcount as <-.
    destruct (ElementWaitRequest.target request) as [element | selector q]; simpl.
    + split; [done |]. intros (i & Hi & HP). by assert (i ∈ []) as ?%not_elem_of_nil by by apply Hl.
    + unfold in_u32_range. rewrite andb_true_iff, N.leb_le.
      assert (minimum <= len selected /\ (forall bound, maximum = Some bound -> len selected <= bound) <->
        minimum <= len selected /\ match maximum with Some bound => len selected <=? bound | None => true end = true) as Hrange.
      { destruct maximum as [bound |]; [rewrite N.leb_le |]; split; intros [Hmin Hmax]; (split; [done |]).
        - by apply Hmax.
        - by intros bound' [= <-].
        - done.
        - done. }
      by destruct q; rewrite Hrange.
  - specialize (Hsub eq_refl). rewrite as_u32_small by (apply sublist_length in Hsub; unfold len in *; lia).
    pose proof (count_any selected l P Hnd Hsub Hl) as Hany. pose proof (count_all selected l P Hnd Hsub Hl) as Hall.
    pose proof (count_one selected l P Hnd Hsub Hl) as Hexactly. pose proof (count_none selected l P Hnd Hsub Hl) as Hnone.
    assert (forall element, ElementWaitRequest.target request = WaitReference element ->
      len l = 1 <-> exists i, i ∈ selected /\ P i) as Href.
    { intros element He. rewrite He in Hq. rewrite <- Hany. apply sublist_length in Hsub. unfold len in *. lia. }
    destruct (ElementWaitRequest.target request) as [element | selector q] eqn:Ht; simpl in *.
    + specialize (Href element eq_refl).
      destruct (ElementWaitRequest.predicate request); simpl; rewrite bool_decide_eq_true; try done.
      rewrite Hone. tauto.
    + subst quantifier.
      assert (0 < len selected <-> selected <> []) as Hpos by (rewrite <- Hzero; lia).
      destruct (ElementWaitRequest.predicate request); try done; destruct q; simpl; rewrite bool_decide_eq_true; try done;
        by rewrite Hpos, Hall.
Qed.

Lemma wait_request_limits request u : ElementWaitRequest.validate request = Ok u ->
  QueryLimits.validate (ElementWaitRequest.limits request) = Ok tt.
Proof.
  unfold ElementWaitRequest.validate. intros (? & _ & H)%and_then_Ok. apply and_then_Ok in H as (? & _ & H).
  apply and_then_Ok in H as (? & _ & H). apply and_then_Ok in H as (? & _ & H).
  apply and_then_Ok in H as ([] & H & _). done.
Qed.

(** The predicate over the nodes of the view. *)
Definition satisfied_at (request : ElementWaitRequest.t) (i : nat) : Prop :=
  exists node, nodes self !! i = Some node /\ wait_satisfied (ElementWaitRequest.predicate request) node.

Lemma wait_evaluation_spec request deadline clock clock' evaluation :
  evaluate_wait_with_deadline to_lowercase nfa_build pikevm_new is_match fingerprint_of instant_now
    self request deadline clock = (clock', Ok evaluation) ->
  exists selected, wait_selects self request selected /\
    WaitEvaluation.selected_count evaluation = len selected /\
    WaitEvaluation.evaluated_revision evaluation = AccessibilityCache.revision cache /\
    (WaitEvaluation.predicate_satisfied evaluation = true <->
      wait_holds request selected (satisfied_at request) /\
      forall after, ElementWaitRequest.after_revision request = Some after ->
        AccessibilityRevision.get after < AccessibilityRevision.get (AccessibilityCache.revision cache)).
Proof.
  unfold evaluate_wait_with_deadline. intros H. returned. destruct a3 as [selected quantifier]. returned. subst evaluation.
  repeat match goal with
  | Hx : map_err _ _ = Ok _ |- _ => apply map_err_Ok in Hx
  | Hx : require_clean_graph _ = Ok _ |- _ => apply ensure_Ok, not_true_is_false in Hx
  end.
  match goal with Hx : ElementWaitRequest.validate _ = Ok _ |- _ => apply wait_request_limits in Hx as Hlimits end.
  match goal with Hx : wait_selection _ _ _ _ _ _ _ _ _ _ = _ |- _ =>
    apply wait_selection_returns in Hx as (Hsel & Hlen & Hq); [| done | done] end.
  exists selected. split; [done |]. cbn [WaitEvaluation.selected_count WaitEvaluation.evaluated_revision
    WaitEvaluation.predicate_satisfied].
  rewrite (as_u32_small (len selected) Hlen) in *. split; [done |]. split; [done |].
  assert (NoDup selected) as Hnd.
  { unfold wait_selects in Hsel. destruct (ElementWaitRequest.target request); [tauto | by eapply selected_in_nodup]. }
  rewrite andb_true_iff, (aggregate_spec request quantifier selected a2 (satisfied_at request) Hnd Hlen Hq).
  - f_equiv. change (AccessibilitySnapshot.revision self) with (AccessibilityCache.revision cache).
    destruct (ElementWaitRequest.after_revision request) as [after |]; [| by split].
    rewrite N.ltb_lt. split; [by intros H after' [= <-] | auto].
  - intros Hnone. rewrite Hnone in Hrun2. by apply satisfying_returns in Hrun2 as [? _].
  - intros Hsome. destruct (selector_count_satisfied _ _); [by returned | done].
  - intros i. destruct (selector_count_satisfied _ _) eqn:Hcount.
    + returned. subst a2. split; [by intros ?%not_elem_of_nil |]. intros [_ (node & _ & Hw)].
      by destruct (ElementWaitRequest.predicate request).
    + apply satisfying_returns in Hrun2 as [_ Hin]. apply Hin.
Qed.
End Cache.
End Waits.
