(* ===== verification/AccessibilityGuarantees.v ===== *)
(** * The guarantees of the accessibility model

    Theorems on the views of a cache: traversals, pages, resolutions and waits. *)

From stdpp Require Import base numbers list option gmap strings sorting.
From Stdlib Require Import Lia.
From S2P Require Import Prelude Orderings Identity WindowTypes WindowQueries.
From S2P Require Import AccessibilityTypes Accessibility AccessibilityIdentity AccessibilityGraph.
From S2P Require Import AccessibilityViews AccessibilityQueries AccessibilityViewFacts AccessibilityQueryFacts.
From S2P Require Import AccessibilityPages.
From S2P Require Import AccessibilityAnswers AccessibilityWaits.

Local Open Scope N_scope.
Import AccessibilitySnapshot AccessibilityQueryError ElementEngine ElementQueries.
#[local] Abbreviation len := Prelude.len.

(** Indices of a view hold nodes, each its own. *)
Lemma nodes_at_all (self : AccessibilitySnapshot.t) indices : indices ≡ₚ seq 0 (length (nodes self)) ->
  nodes_at self indices ≡ₚ nodes self.
Proof.
  unfold nodes_at. intros ->.
  assert (forall l pre, omap (fun i => (pre ++ l : list ElementSnapshot.t) !! i) (seq (length pre) (length l)) = l) as H.
  { clear. induction l as [| x l IH]; intros pre; [done |]. simpl. rewrite list_lookup_middle by done. f_equal.
    specialize (IH (pre ++ [x])). rewrite <- app_assoc, length_app, Nat.add_comm in IH. exact IH. }
  specialize (H (nodes self) []). simpl in H. by rewrite H.
Qed.

(** C39: every traversal of a view shows every live element of the cache exactly once, whatever
    the elements claim about their parents; and when no topology warning was raised the edges are
    the declared parents and the traversals are the recursive preorder, postorder and level order. *)
Theorem accessibility_traversals_exact (cache : AccessibilityCache.t) :
  let view := snapshot_of cache in
  (forall order, traverse order view ≡ₚ (map_to_list (AccessibilityCache.nodes cache)).*2) /\
  (AccessibilityViews.resync_required (graph view) = false ->
   (forall p c, c ∈ children_of (children view) p <-> parent_index view c = Some p) /\
   traverse TraversePreorder view =
     nodes_at view (flat_map (preorder_of (children view) (length (nodes view))) (roots view)) /\
   traverse TraversePostorder view =
     nodes_at view (flat_map (postorder_of (children view) (length (nodes view))) (roots view)) /\
   traverse TraverseBreadthFirst view =
     nodes_at view (level_order (children view) (length (nodes view)) (roots view))).
Proof.
  intros view. assert (covering (children view) (roots view)) as Hcov by apply BuildFacts.build_covering.
  assert (length (children view) = length (nodes view)) as Hlen by apply BuildFacts.build_length. split.
  - intros order. rewrite <- CacheViewFacts.snapshot_nodes. apply nodes_at_all. fold view. rewrite <- Hlen.
    assert (preorder (children view) (roots view) ≡ₚ seq 0 (length (children view))) as Hpre
      by (by apply visit_all; [apply on_top_Permutation |]).
    destruct order; [exact Hpre | | by apply visit_all; [apply at_back_Permutation |]].
    etrans; [| exact Hpre]. apply postorder_Permutation. apply (covering_children _ _ Hcov).
    apply (covering_roots _ _ Hcov).
  - intros Hclean. pose proof (CacheViewFacts.snapshot_clean cache Hclean) as Hself. fold view in Hself.
    pose proof (clean_is_forest _ Hself) as Hforest. split; [apply (clean_edge _ Hself) |].
    unfold traverse, traversal_indices. rewrite <- Hlen.
    by rewrite (forest_preorder _ _ Hforest), (forest_postorder _ _ Hforest), (forest_breadth_first _ _ Hforest).
Qed.

Section Theorems.
Context (to_lowercase : string -> string).
Context {nfa pikevm : Type} (nfa_build : string -> bool -> option nfa).
Context (pikevm_new : nfa -> option pikevm) (is_match : pikevm -> string -> bool).
Context {fingerprint : Type} `{EqDecision fingerprint}.
Context (fingerprint_of : ElementSelector.t -> option fingerprint).
Context {C : Type} (instant_now : C -> C * N).
#[local] Abbreviation satisfies := (ElementMeaning.satisfies to_lowercase nfa_build pikevm_new is_match).

(** Whoever follows the continuations of an accessibility query to the last page, with any
    page sizes and budgets, reads exactly the elements of the scope that satisfy the selector,
    each once and in the requested order, projected as asked. *)
Theorem accessibility_pages_exact (cache : AccessibilityCache.t) (selector : ElementSelector.t)
    (expansion : Expansion.t) (entries : list ElementSnapshotEntry) :
  reads to_lowercase nfa_build pikevm_new is_match fingerprint_of instant_now
    (snapshot_of cache) selector expansion None entries ->
  exists result, entries = entries_at (snapshot_of cache) expansion result /\
    selected_in to_lowercase nfa_build pikevm_new is_match (snapshot_of cache) selector result.
Proof.
  intros Hreads. assert (exists p, call to_lowercase nfa_build pikevm_new is_match fingerprint_of instant_now
    (snapshot_of cache) selector expansion None p) as (p & limits & limit & deadline & clock & clock' & Hcall)
    by (inversion Hreads as [c p Hcall | c p c' rest Hcall]; subst; by exists p).
  apply query_returns in Hcall as (Hclean & _ & f & compiled & Hf & Hc & _).
  exists (query_result to_lowercase is_match (snapshot_of cache) selector compiled). split.
  - exact (reads_rest _ _ _ _ _ _ _ _ _ _ _ _ _ Hf Hc Hreads 0 eq_refl).
  - apply query_result_selected; [by apply CacheViewFacts.snapshot_clean | done].
Qed.

(** C23: an admissible query whose scope, depth and matches are within its limits answers, while
    the clock stays before the deadline: with the page at the offset asked for, the count of all
    matches, and a continuation exactly when more is left. *)
Theorem accessibility_query_answers (cache : AccessibilityCache.t) (selector : ElementSelector.t)
    (expansion : Expansion.t) (limits : QueryLimits.t) (limit offset deadline : N) (clock : C)
    (f : fingerprint) (compiled : list (CompiledPredicate (pikevm := pikevm))) :
  let view := snapshot_of cache in
  (forall clock, (instant_now clock).2 < deadline) ->
  admissible view selector expansion limits limit ->
  within_budget to_lowercase nfa_build pikevm_new is_match view selector limits ->
  fingerprint_of selector = Some f -> compile to_lowercase nfa_build pikevm_new selector = Ok compiled ->
  let result := query_result to_lowercase is_match view selector compiled in
  offset = 0 \/ offset < len result ->
  selected_in to_lowercase nfa_build pikevm_new is_match view selector result /\
  exists clock' p,
    query_with_deadline to_lowercase nfa_build pikevm_new is_match fingerprint_of instant_now
      view selector expansion limits limit offset deadline clock = (clock', Ok p) /\
    QueryProjection.elements p = entries_at view expansion (page_of result limit offset) /\
    QueryProjection.total_matches p = len result /\
    QueryProjection.next_offset p = next_of result limit offset.
Proof.
  intros view Hclock Hadm Hbudget Hf Hc result Ho.
  pose proof (CacheViewFacts.snapshot_clean cache (admissible_graph _ _ _ _ _ Hadm)) as Hself.
  split; [by apply query_result_selected|].
  destruct (query_answers instant_now deadline Hclock to_lowercase nfa_build pikevm_new is_match fingerprint_of
    view selector expansion limits limit offset clock f compiled Hself Hadm Hbudget Hf Hc Ho) as (clock' & p & Hrun).
  exists clock', p. split; [done |]. apply query_returns in Hrun as (_ & _ & f' & compiled' & _ & Hc' & _ & _ & ->).
  by assert (compiled' = compiled) as -> by congruence.
Qed.

(** C5: an element that was protected when it was observed stays hidden: whatever is observed of
    it afterwards, no query, continuation, resolution or wait over any later view hands out its text,
    value or attributes, whatever expansion is asked for. *)
Theorem protected_elements_never_exposed (encoded : ElementSnapshot.t -> option N)
    (s s' : AccessibilityCache.t) (element : ElementRef.t) (node : ElementSnapshot.t)
    (entry : ElementSnapshotEntry) :
  CacheTrace.reachable encoded s -> AccessibilityCache.resolve_exact element s = Ok node ->
  snapshot_declares_protected node = true ->
  steps (CacheTrace.step encoded) s s' ->
  hands_out to_lowercase nfa_build pikevm_new is_match fingerprint_of instant_now (snapshot_of s') entry ->
  ElementSnapshot.element (snapshot entry) = element ->
  CacheInvariant.sanitized (snapshot entry).
Proof.
  intros Hs Hr Hp Hst (expansion & later & Hin & ->)%handed_projection He.
  pose proof (CacheInvariant.reachable_wf encoded s Hs) as Hwf.
  pose proof (CacheInvariant.steps_wf encoded s s' Hwf Hst) as Hwf'.
  apply CacheProgress.resolve_exact_Ok in Hr as (_ & Hk & Hnode).
  apply CacheViewFacts.elem_of_snapshot in Hin as (k & Hlater).
  destruct (CacheInvariant.wf_node _ Hwf' _ _ Hlater) as (Hkey & _).
  simpl in He. rewrite project_element in He. apply project_sanitized.
  assert (object_key element ∈ AccessibilityCache.protected_births s') as Hprot.
  { apply (CacheProgress.steps_protected encoded element s s' Hwf Hst).
    - by exists node.
    - by apply (CacheInvariant.wf_node _ Hwf _ _ Hk).
    - exists later. rewrite <- He, Hkey. done. }
  destruct (CacheInvariant.wf_protected _ Hwf' _ Hprot) as (stored & Hstored & Hsan).
  rewrite <- He, Hkey in Hstored. by assert (stored = later) as <- by congruence.
Qed.

(** C35: the check of a registered wait misses nothing: after any changes to the cache it either
    refuses because the connection was reset, or reports an evaluation of the state as it is now,
    even when it answers from the first check. *)
Theorem wait_recheck_exact (encoded : ElementSnapshot.t -> option N) (s s' : AccessibilityCache.t)
    (request : ElementWaitRequest.t) (clock0 clock1 clock2 clock3 : C) (prepared : PreparedAccessibilityWait)
    (answer : result WaitEvaluation.t AccessibilityQueryError.t) :
  let evaluate := evaluate_wait to_lowercase nfa_build pikevm_new is_match fingerprint_of instant_now in
  prepare_wait to_lowercase nfa_build pikevm_new is_match fingerprint_of instant_now s request clock0 =
    (clock1, Ok prepared) ->
  steps (CacheTrace.step encoded) s s' ->
  recheck_wait to_lowercase nfa_build pikevm_new is_match fingerprint_of instant_now s' prepared clock2 =
    (clock3, answer) ->
  if decide (AccessibilityCache.atspi_generation s' = AccessibilityCache.atspi_generation s)
  then exists clock clock', evaluate (snapshot_of s') request clock = (clock', answer)
  else answer = Err ResyncRequired.
Proof.
  intros evaluate Hprep Hst Hre. unfold prepare_wait in Hprep. returned. subst prepared.
  unfold recheck_wait in Hre. cbn [prepared_generation registered_at initial wait_request] in Hre.
  destruct (decide (AccessibilityCache.atspi_generation s' = AccessibilityCache.atspi_generation s)) as [Hgen | Hgen].
  - rewrite pass_run in Hre by (rewrite Hgen; intros Hn; by apply Hn).
    case_decide as Hrev; [| by exists clock2, clock3].
    rewrite ret_run in Hre. injection Hre as <- <-. exists clock0, clock.
    destruct (CacheProgress.steps_revision encoded s s' Hst) as [-> | Hlt]; [done |].
    unfold CacheEffects.revision_of in Hlt. rewrite Hrev in Hlt. lia.
  - rewrite reject_run in Hre by congruence. by injection Hre.
Qed.

(** A wait is evaluated as it is asked: over the elements its target names or selects, with
    the quantifier of the request, and only after the revision the caller has already seen. *)
Theorem accessibility_wait_exact (encoded : ElementSnapshot.t -> option N) (cache : AccessibilityCache.t)
    (request : ElementWaitRequest.t) (deadline : N) (clock clock' : C) (evaluation : WaitEvaluation.t) :
  CacheTrace.reachable encoded cache ->
  evaluate_wait_with_deadline to_lowercase nfa_build pikevm_new is_match fingerprint_of instant_now
    (snapshot_of cache) request deadline clock = (clock', Ok evaluation) ->
  exists selected, wait_selects to_lowercase nfa_build pikevm_new is_match (snapshot_of cache) request selected /\
    WaitEvaluation.selected_count evaluation = len selected /\
    (WaitEvaluation.predicate_satisfied evaluation = true <->
      wait_holds request selected (satisfied_at to_lowercase nfa_build pikevm_new is_match cache request) /\
      forall after, ElementWaitRequest.after_revision request = Some after ->
        AccessibilityRevision.get after < AccessibilityRevision.get (AccessibilityCache.revision cache)).
Proof.
  intros Hs H. apply wait_evaluation_spec in H as (selected & Hsel & Hcount & _ & Hsat);
    [by exists selected | by eapply CacheInvariant.reachable_wf].
Qed.

(** On a view without topology warnings the climb that looks for a higher correlated ancestor
    comes to an end, and finds exactly the topmost elements correlated with the window. *)
Theorem window_scope_climb_ends (cache : AccessibilityCache.t) (window : WindowRef.t) (i : nat) :
  let view := snapshot_of cache in
  AccessibilityViews.resync_required (graph view) = false ->
  exists highest, is_highest_window_correlated view i window = Some highest /\
    (highest = true <-> correlated_at view window i = true /\
       forall a, descends (children view) a i -> correlated_at view window a = true -> a = i).
Proof.
  intros view Hclean. pose proof (CacheViewFacts.snapshot_clean cache Hclean) as Hself. fold view in Hself.
  destruct (highest_spec view Hself window i) as [(Hh & Hc & Hall) | (Hh & Hlow)].
  - exists true. by split.
  - exists false. split; [done |]. split; [done |]. intros [Hc Hall].
    destruct (Hlow Hc) as (q & Hq & a & Ha & Hcor). exfalso.
    assert (a = i) as -> by (apply Hall; [by eapply descends_child | done]).
    pose proof (weight_parent view Hself q i Hq). pose proof (weight_mono view Hself i q Ha). lia.
Qed.
End Theorems.
