(* ===== verification/AccessibilityWitness.v ===== *)
(** * The accessibility theorems at a concrete cache

    One application with a window, a password field and a button; the field is observed again
    as an ordinary entry, and the button is removed and reappears at its path. *)

From stdpp Require Import base numbers list option gmap strings sorting.
From Stdlib Require Import Lia Ascii.
From S2P Require Import Prelude Orderings Identity Geometry Binary64 WindowTypes Windows WindowQueries.
From S2P Require Import AccessibilityTypes Accessibility AccessibilityIdentity AccessibilityGraph.
From S2P Require Import AccessibilityViews AccessibilityQueries AccessibilityViewFacts AccessibilityQueryFacts.
From S2P Require Import AccessibilityPages.
From S2P Require Import AccessibilityAnswers AccessibilityWaits AccessibilityGuarantees.

Local Open Scope N_scope.

Module AccessibilityWitness.
Import ElementEngine ElementQueries.
#[local] Abbreviation AccessCache := AccessibilityCache.t.

(** A toy engine: a pattern is a literal text, the case table leaves texts alone, and the
    clock stands still. *)
Definition to_lowercase (s : string) : string := s.
Definition nfa_build (pattern : string) (case_sensitive : bool) : option string := Some pattern.
Definition pikevm_new (n : string) : option string := Some n.
Definition is_match (p text : string) : bool := contains text p.
Definition fingerprint_of (s : ElementSelector.t) : option N := Some (Prelude.len (ElementSelector.predicates s)).
Definition instant_now (clock : unit) : unit * N := (clock, 5).
Definition encoded (s : ElementSnapshot.t) : option N := Some 1000.

Definition desktop : DesktopId := mkDesktopId 1.
Definition generation : DesktopGeneration := mkDesktopGeneration 2.
Definition atspi : AtspiGeneration.t := AtspiGeneration.mk 1.
Definition hash : AccessibilityIdentityHash :=
  mkAccessibilityHash (String.string_of_list_ascii (repeat (ascii_of_N 97) 64)).
Definition bus : AtspiBusName := mkBusName ":1.7".
Definition root_path : AtspiObjectPath := mkObjectPath "/root".
Definition application : ApplicationRef.t := ApplicationRef.mk desktop generation atspi bus root_path 1 hash.
Definition element (path : string) (sequence : N) : ElementRef.t :=
  ElementRef.mk desktop generation atspi application (mkObjectPath path) hash sequence.
Definition typed (content : string) : TextSnapshot.t :=
  TextSnapshot.mk 3 0 [] (Some (mkTextContent content)) false false.
Definition window : WindowRef.t := WindowWitness.first.

Definition observed (e : ElementRef.t) (parent : option ElementRef.t) (index : N) (kind : ElementRole.t)
    (name : string) (text : option TextSnapshot.t) (correlated : option WindowRef.t) : ElementSnapshot.t :=
  ElementSnapshot.mk e parent (Some index) None (mkRole kind None None) (Some name) None None None
    [ElementState.Visible] [] [] None text None [mkAttribute "id" name] []
    (mkWindowCorrelation correlated (if correlated then Strong else CorrelationNone) [] false)
    (AccessibilityRevision.mk 1) Complete false [].

Definition top : ElementRef.t := element "/w" 1.
Definition field : ElementRef.t := element "/w/p" 2.
Definition button : ElementRef.t := element "/w/b" 3.
Definition reborn : ElementRef.t := element "/w/b" 4.

Definition start : AccessCache :=
  AccessibilityCache.mk desktop generation atspi (AccessibilityRevision.mk 1) (AccessibilityModelLimits.mk 8 8)
    ∅ ∅ ∅ ∅ [] 0.

Definition history : list CacheTrace.op :=
  [CacheTrace.Register bus root_path hash;
   CacheTrace.Observe (observed top None 0 ElementRole.Window "main" None (Some window));
   CacheTrace.Observe (observed field (Some top) 0 ElementRole.PasswordText "secret" (Some (typed "abc")) None);
   CacheTrace.Observe (observed button (Some top) 1 ElementRole.Button "ok" None None)].
Definition later : list CacheTrace.op :=
  [CacheTrace.Observe (observed field (Some top) 0 ElementRole.Entry "secret" (Some (typed "abcd")) None);
   CacheTrace.Remove button].
Definition afterwards : list CacheTrace.op :=
  [CacheTrace.Observe (observed reborn (Some top) 1 ElementRole.Button "ok" None None)].

Definition run (os : list CacheTrace.op) (s : AccessCache) : AccessCache :=
  fold_left (fun s o => CacheTrace.apply encoded o s) os s.
Definition now : AccessCache := run history start.
Definition changed : AccessCache := run later now.
Definition final : AccessCache := run afterwards changed.

Lemma cache_run_steps os s : steps (CacheTrace.step encoded) s (run os s).
Proof.
  unfold run. induction os as [| o os IH] using rev_ind; [constructor |].
  rewrite fold_left_app. eapply steps_trans; [exact IH |]. by exists o.
Qed.

Lemma now_reachable : CacheTrace.reachable encoded now.
Proof.
  exists start. split; [| apply cache_run_steps].
  exists desktop, generation, atspi, (AccessibilityModelLimits.mk 8 8). by vm_compute.
Qed.

Definition desktop_selector : ElementSelector.t :=
  ElementSelector.mk ElementScope.Desktop
    [ElementPredicate.State ElementState.Visible true] ReversePreorder None.
Definition everything : Expansion.t := Expansion.mk true true true true true true true.
Definition supported : Expansion.t := Expansion.default.
Definition limits : QueryLimits.t := QueryLimits.default.
Definition compiled : list (CompiledPredicate (pikevm := string)) :=
  [CompiledOther (ElementPredicate.State ElementState.Visible true)].
Definition result : list nat := query_result to_lowercase is_match (snapshot_of now) desktop_selector compiled.
Definition page (limit offset : N) : QueryProjection.t N :=
  page_shown (snapshot_of now) desktop_selector supported 1 result 3 limit offset.

Lemma element_reference_never_revives_witness :
  exists snapshot, ElementSnapshot.element snapshot = button /\
    forall other, AccessibilityCache.resolve_exact button final <> Ok other.
Proof.
  destruct (AccessibilityCache.resolve_exact button now) as [snapshot |] eqn:Hr; [| vm_compute in Hr; discriminate Hr].
  exists snapshot.
  apply (element_reference_never_revives encoded now changed final button snapshot now_reachable Hr).
  - apply cache_run_steps.
  - intros other. by vm_compute.
  - apply cache_run_steps.
Defined.

Lemma revision_identifies_state_witness :
  AccessibilityRevision.get (AccessibilityCache.revision now) <=
    AccessibilityRevision.get (AccessibilityCache.revision changed) /\
  (AccessibilityCache.revision changed = AccessibilityCache.revision now -> changed = now).
Proof. apply (revision_identifies_state encoded now changed), cache_run_steps. Defined.

Lemma accessibility_cache_bounded_witness :
  let '(live, tombs) := AccessibilityCache.counts now in
  live <= 8 /\ tombs <= 8 /\ N.of_nat (size (AccessibilityCache.applications now)) <= 8.
Proof. exact (accessibility_cache_bounded encoded now now_reachable). Defined.

Lemma accessibility_traversals_exact_witness :
  AccessibilitySnapshot.traverse TraverseBreadthFirst (snapshot_of now) =
    AccessibilitySnapshot.nodes_at (snapshot_of now) [0%nat; 2%nat; 1%nat].
Proof.
  destruct (accessibility_traversals_exact now) as [_ Hclean].
  destruct Hclean as (_ & _ & _ & ->); by vm_compute.
Defined.

Lemma accessibility_pages_exact_witness :
  exists shown, QueryProjection.elements (page 2 0) ++ QueryProjection.elements (page 2 2) =
      entries_at (snapshot_of now) supported shown /\
    selected_in to_lowercase nfa_build pikevm_new is_match (snapshot_of now) desktop_selector shown.
Proof.
  apply (accessibility_pages_exact to_lowercase nfa_build pikevm_new is_match fingerprint_of instant_now
    now desktop_selector supported).
  eapply (reads_on _ _ _ _ _ _ _ _ _ None (page 2 0)).
  - exists limits, 2, 10, tt, tt. vm_compute. reflexivity.
  - vm_compute. reflexivity.
  - apply (reads_last _ _ _ _ _ _ _ _ _ _ (page 2 2)).
    + exists limits, 2, 10, tt, tt. vm_compute. reflexivity.
    + vm_compute. reflexivity.
Defined.

Lemma few_indices (l : list nat) : NoDup l -> (forall i, i ∈ l -> (i < 3)%nat) -> Prelude.len l <= 3.
Proof.
  intros Hnd Hl. assert (l ⊆+ seq 0 3) as Hsub%submseteq_length.
  - apply NoDup_submseteq; [done |]. intros i Hi%Hl. apply elem_of_seq. lia.
  - rewrite length_seq in Hsub. unfold Prelude.len. lia.
Qed.

Lemma accessibility_query_answers_witness :
  exists clock' p,
    query_with_deadline to_lowercase nfa_build pikevm_new is_match fingerprint_of instant_now
      (snapshot_of now) desktop_selector supported limits 2 0 10 tt = (clock', Ok p) /\
    QueryProjection.total_matches p = 3 /\ QueryProjection.next_offset p = Some 2.
Proof.
  destruct (accessibility_query_answers to_lowercase nfa_build pikevm_new is_match fingerprint_of instant_now
    now desktop_selector supported limits 2 0 10 tt 1 compiled) as (_ & clock' & p & Hrun & _ & Htotal & Hnext).
  - by vm_compute.
  - split; by vm_compute.
  - split.
    + vm_compute. repeat constructor.
    + intros l Hnd Hin. etrans; [apply few_indices; [done |] | by vm_compute].
      intros i Hi. exact (Hin i Hi).
    + intros l Hnd Hin. etrans; [apply few_indices; [done |] | by vm_compute].
      intros i Hi. exact (proj1 (Hin i Hi)).
  - by vm_compute.
  - by vm_compute.
  - by left.
  - exists clock', p. split; [exact Hrun |]. rewrite Htotal, Hnext.
    split; vm_compute; reflexivity.
Defined.

Lemma protected_elements_never_exposed_witness :
  exists entry, resolve_exact (snapshot_of changed) field everything = Ok entry /\
    CacheInvariant.sanitized (snapshot entry).
Proof.
  destruct (resolve_exact (snapshot_of changed) field everything) as [entry |] eqn:He; [| vm_compute in He; discriminate He].
  destruct (AccessibilityCache.resolve_exact field now) as [node |] eqn:Hr; [| vm_compute in Hr; discriminate Hr].
  exists entry. split; [done |].
  apply (protected_elements_never_exposed to_lowercase nfa_build pikevm_new is_match fingerprint_of instant_now
    encoded now changed field node entry now_reachable Hr).
  - vm_compute in Hr. injection Hr as <-. vm_compute. reflexivity.
  - apply cache_run_steps.
  - by eapply by_reference.
  - vm_compute in He. injection He as <-. vm_compute. reflexivity.
Defined.

(** A wait for an element with the button's name, registered before the button goes. *)
Definition waiting : ElementWaitRequest.t :=
  ElementWaitRequest.mk desktop generation
    (WaitSelector (ElementSelector.mk (ElementScope.Window window)
       [ElementPredicate.Name (ElementStringMatch.Exact "ok" true)] NameAscending None)
       ElementWaitQuantifier.ExactlyOne)
    ElementWaitPredicate.Exists_ None 1000 false supported limits.

Lemma wait_recheck_exact_witness :
  exists prepared answer,
    recheck_wait to_lowercase nfa_build pikevm_new is_match fingerprint_of instant_now changed prepared tt = (tt, answer) /\
    exists clock clock',
      evaluate_wait to_lowercase nfa_build pikevm_new is_match fingerprint_of instant_now
        (snapshot_of changed) waiting clock = (clock', answer).
Proof.
  destruct (prepare_wait to_lowercase nfa_build pikevm_new is_match fingerprint_of instant_now now waiting tt)
    as [[] [prepared |]] eqn:Hprep; [| vm_compute in Hprep; discriminate Hprep].
  destruct (recheck_wait to_lowercase nfa_build pikevm_new is_match fingerprint_of instant_now changed prepared tt)
    as [[] answer] eqn:Hre.
  exists prepared, answer. split; [exact Hre |].
  exact (wait_recheck_exact to_lowercase nfa_build pikevm_new is_match fingerprint_of instant_now encoded
    now changed waiting tt tt tt tt prepared answer Hprep (cache_run_steps later now) Hre).
Defined.

Lemma accessibility_wait_exact_witness :
  exists evaluation, WaitEvaluation.predicate_satisfied evaluation = true /\
    exists selected, wait_selects to_lowercase nfa_build pikevm_new is_match (snapshot_of now) waiting selected /\
      WaitEvaluation.selected_count evaluation = Prelude.len selected.
Proof.
  destruct (evaluate_wait_with_deadline to_lowercase nfa_build pikevm_new is_match fingerprint_of instant_now
    (snapshot_of now) waiting 10 tt) as [clock' [evaluation |]] eqn:Hrun; [| vm_compute in Hrun; discriminate Hrun].
  exists evaluation. split; [vm_compute in Hrun; injection Hrun as <- <-; vm_compute; reflexivity |].
  destruct (accessibility_wait_exact to_lowercase nfa_build pikevm_new is_match fingerprint_of instant_now
    encoded now waiting 10 tt clock' evaluation now_reachable Hrun) as (selected & Hsel & Hcount & _).
  exists selected. split; [exact Hsel | exact Hcount].
Defined.

Lemma window_scope_climb_ends_witness :
  exists highest, is_highest_window_correlated (snapshot_of now) 0 window = Some highest.
Proof.
  destruct (window_scope_climb_ends now window 0) as (highest & Hh & _); [by vm_compute |].
  exists highest. exact Hh.
Defined.
End AccessibilityWitness.
