(* ===== verification/AccessibilityCorrelation.v ===== *)
(** * Correlation of accessible elements with windows

    Models [xenoteer-core/src/accessibility_correlation.rs]: the normalization of titles and
    identities, the evidence that one live window offers for one accessible element, the
    choice of at most one window, and the test that lets a correlation gate a physical
    effect.  A Rust string is the list of its Unicode scalar values here, and
    [char::to_lowercase] is a parameter. *)

From stdpp Require Import base numbers list option gmap strings sorting.
From Stdlib Require Import Lia.
From S2P Require Import Prelude Identity Geometry WindowTypes AccessibilityTypes.

Local Open Scope N_scope.

Definition MAX_ACCESSIBILITY_CORRELATION_CANDIDATES : N := 128.
Definition MAX_ACCESSIBILITY_CORRELATION_RAW_STRING_BYTES : N := 1024.
Definition MAX_ACCESSIBILITY_CORRELATION_STRING_BYTES : N := 256.
Definition MAX_ACCESSIBILITY_CORRELATION_TOTAL_STRING_BYTES : N := 32 * 1024.
Definition MAX_ACCESSIBILITY_CORRELATION_OBSERVATION_AGE_MS : N := 60000.
Definition MAX_ACCESSIBILITY_CORRELATION_FOCUS_DELTA_MS : N := 10000.
Definition MAX_ACCESSIBILITY_CORRELATION_CREATION_DELTA_MS : N := 30000.

(** [AccessibilityCorrelationError]. *)
Module CorrelationError.
Inductive t :=
  | InvalidLimits | CandidateLimit | StringLimit | InvalidString | InvalidProcessEvidence
  | InvalidReference | ReferenceScope | InvalidGeometry | InvalidTime | StaleObservation
  | DuplicateWindow | ConflictingWindowBirth.
End CorrelationError.
#[local] Abbreviation Error := CorrelationError.t.
Import CorrelationError.

(** [AccessibilityCorrelationLimits]. *)
Module CorrelationLimits.
Record t := mk {
  max_candidates : N;
  max_total_string_bytes : N;
  max_observation_age_ms : N;
  max_focus_delta_ms : N;
  max_creation_delta_ms : N;
}.

Definition default : t := mk 64 (16 * 1024) 5000 750 2000.

Definition validate (self : t) : result unit Error :=
  ensure (max_candidates self = 0 \/
          MAX_ACCESSIBILITY_CORRELATION_CANDIDATES < max_candidates self \/
          max_total_string_bytes self = 0 \/
          MAX_ACCESSIBILITY_CORRELATION_TOTAL_STRING_BYTES < max_total_string_bytes self \/
          MAX_ACCESSIBILITY_CORRELATION_OBSERVATION_AGE_MS < max_observation_age_ms self \/
          MAX_ACCESSIBILITY_CORRELATION_FOCUS_DELTA_MS < max_focus_delta_ms self \/
          MAX_ACCESSIBILITY_CORRELATION_CREATION_DELTA_MS < max_creation_delta_ms self)
    InvalidLimits.
End CorrelationLimits.

(** ** Normalized text *)

(** [char::is_control]: the category Cc; [char::is_whitespace]: the property White_Space. *)
Definition is_control (c : N) : Prop := c <= 31 \/ 127 <= c <= 159.
Definition is_whitespace (c : N) : Prop :=
  9 <= c <= 13 \/ c = 32 \/ c = 133 \/ c = 160 \/ c = 5760 \/ 8192 <= c <= 8202 \/
  c = 8232 \/ c = 8233 \/ c = 8239 \/ c = 8287 \/ c = 12288.
#[export] Instance is_control_dec c : Decision (is_control c).
Proof. unfold is_control. apply _. Defined.
#[export] Instance is_whitespace_dec c : Decision (is_whitespace c).
Proof. unfold is_whitespace. apply _. Defined.

(** [char::len_utf8], [String::len]. *)
Definition len_utf8 (c : N) : N :=
  if decide (c < 128) then 1 else if decide (c < 2048) then 2 else if decide (c < 65536) then 3 else 4.
Definition text_bytes (text : list N) : N := sum_N (map len_utf8 text).

(** [NormalizedCorrelationText]. *)
Record NormalizedCorrelationText := mkNormalized { as_str : list N }.
#[export] Instance normalized_text_eq_dec : EqDecision NormalizedCorrelationText.
Proof. solve_decision. Defined.

Section Normalization.
Context (to_lowercase : N -> list N).

(** The loop of [NormalizedCorrelationText::new]. *)
Definition push_character (state : list N * bool) (character : N) : result (list N * bool) Error :=
  let '(normalized, pending_space) := state in
  try! ensure (is_control character /\ ~ is_whitespace character) InvalidString in
  if decide (is_whitespace character) then Ok (normalized, negb (bool_decide (normalized = [])))
  else
    let normalized := if pending_space : bool then normalized ++ [32] else normalized in
    let normalized := normalized ++ to_lowercase character in
    try! ensure (MAX_ACCESSIBILITY_CORRELATION_STRING_BYTES < text_bytes normalized) StringLimit in
    Ok (normalized, false).

(** [NormalizedCorrelationText::new]. *)
Definition new_normalized_text (value : list N) : result NormalizedCorrelationText Error :=
  try! ensure (MAX_ACCESSIBILITY_CORRELATION_RAW_STRING_BYTES < text_bytes value) StringLimit in
  let? state := try_fold push_character ([], false) value in
  try! ensure (fst state = []) InvalidString in
  Ok (mkNormalized (fst state)).
End Normalization.

(** ** The evidence *)

(** [AccessibilityCorrelationSubject]. *)
Module CorrelationSubject.
Record t := mk {
  application : ApplicationRef.t;
  element : ElementRef.t;
  process_id : option N;
  managed_process_id : option N;
  top_level_extents : option Rect.t;
  title : option NormalizedCorrelationText;
  application_identity : option NormalizedCorrelationText;
  toolkit_identity : option NormalizedCorrelationText;
  focused : bool;
  focus_changed_at : option MonotonicMillis.t;
  created_at : option MonotonicMillis.t;
  observed_at : MonotonicMillis.t;
  explicit_window : option WindowRef.t;
  client_leader : option WindowRef.t;
}.
End CorrelationSubject.

(** [AccessibilityWindowCandidate]. *)
Module WindowCandidate.
Record t := mk {
  window : WindowRef.t;
  live : bool;
  process_id : option N;
  managed_process_id : option N;
  top_level_extents : option Rect.t;
  title : option NormalizedCorrelationText;
  application_identity : option NormalizedCorrelationText;
  toolkit_identity : option NormalizedCorrelationText;
  focused : bool;
  focus_changed_at : option MonotonicMillis.t;
  created_at : option MonotonicMillis.t;
  observed_at : MonotonicMillis.t;
  client_leader : option WindowRef.t;
}.
#[export] Instance window_candidate_eq_dec : EqDecision t.
Proof. solve_decision. Defined.
End WindowCandidate.
Export (hints) WindowCandidate.

(** [evidence], [no_correlation]. *)
Definition new_evidence (signal : WindowCorrelationSignal) (matched : bool) (detail : string) :
    WindowCorrelationEvidence := mkCorrelationEvidence signal matched (Some detail).
Definition no_correlation (conflicting : bool) (evidence : list WindowCorrelationEvidence) :
    ElementWindowCorrelation := mkWindowCorrelation None CorrelationNone evidence conflicting.

(** [absolute_time_delta], [observations_are_close]. *)
Definition absolute_time_delta (left right : MonotonicMillis.t) : N :=
  if decide (left <= right) then right - left else left - right.
Definition observations_are_close (left right : MonotonicMillis.t) (limits : CorrelationLimits.t) : bool :=
  bool_decide (absolute_time_delta left right <= CorrelationLimits.max_focus_delta_ms limits).

(** *** Geometry *)
Inductive GeometryComparison := GeometryExact | GeometryStrong | GeometryWeak | GeometryMiss.

(** [Result::ok]. *)
Definition result_ok {A E} (r : result A E) : option A := match r with Ok a => Some a | Err _ => None end.

(** [rectangle_area], [intersection_area]. *)
Definition rectangle_area (rect : Rect.t) : option Z :=
  size ← result_ok (Rect.size rect); Some (Size.width size * Size.height size)%Z.

Definition intersection_area (left right : Rect.t) : option Z :=
  left_size ← result_ok (Rect.size left);
  right_size ← result_ok (Rect.size right);
  let left_x2 := (Rect.x left + Size.width left_size)%Z in
  let left_y2 := (Rect.y left + Size.height left_size)%Z in
  let right_x2 := (Rect.x right + Size.width right_size)%Z in
  let right_y2 := (Rect.y right + Size.height right_size)%Z in
  let width := (Z.min left_x2 right_x2 - Z.max (Rect.x left) (Rect.x right))%Z in
  let height := (Z.min left_y2 right_y2 - Z.max (Rect.y left) (Rect.y right))%Z in
  if decide (width <= 0 \/ height <= 0)%Z then None else Some (width * height)%Z.

(** [geometry_comparison]. *)
Definition geometry_comparison (left right : Rect.t) : GeometryComparison :=
  if decide (left = right) then GeometryExact
  else match intersection_area left right, rectangle_area left, rectangle_area right with
       | Some intersection, Some left_area, Some right_area =>
           let smaller := Z.min left_area right_area in
           if decide (smaller * 80 <= intersection * 100)%Z then GeometryStrong
           else if decide (smaller * 50 <= intersection * 100)%Z then GeometryWeak
           else GeometryMiss
       | _, _, _ => GeometryMiss
       end.

(** *** Identities *)
Record IdentityComparison := mkIdentityComparison {
  identity_matched : bool; identity_score : Z; identity_detail : string }.

(** [left.zip(right).map(|(left, right)| left == right)]. *)
Definition compare_both {A} `{EqDecision A} (expected actual : option A) : option bool :=
  match expected, actual with
  | Some expected, Some actual => Some (bool_decide (expected = actual))
  | _, _ => None
  end.

Definition identity_comparison (subject : CorrelationSubject.t) (candidate : WindowCandidate.t) :
    option IdentityComparison :=
  match compare_both (CorrelationSubject.application_identity subject)
          (WindowCandidate.application_identity candidate),
        compare_both (CorrelationSubject.toolkit_identity subject)
          (WindowCandidate.toolkit_identity candidate) with
  | None, None => None
  | Some true, Some true =>
      Some (mkIdentityComparison true 24 "application and toolkit identities matched")
  | Some true, None => Some (mkIdentityComparison true 18 "application identity matched")
  | None, Some true => Some (mkIdentityComparison true 18 "toolkit identity matched")
  | _, _ => Some (mkIdentityComparison false 0 "application or toolkit identity conflicted")
  end.

(** ** The score of a candidate *)

(** [CandidateScore]. *)
Module CandidateScore.
Record t := mk {
  score : Z;
  pid_match : bool;
  managed_match : bool;
  explicit_match : bool;
  strong_discriminators : N;
  geometry_or_focus_match : bool;
  conflict : bool;
  evidence : list WindowCorrelationEvidence;
  exact_geometry : bool;
  focus_match : bool;
  leader_match : bool;
}.

Definition start : t := mk 0 false false false 0 false false [] false false false.

(** [result.evidence.push(evidence(signal, matched, detail))]. *)
Definition push signal matched detail (s : t) : t :=
  mk (score s) (pid_match s) (managed_match s) (explicit_match s) (strong_discriminators s)
    (geometry_or_focus_match s) (conflict s) (evidence s ++ [new_evidence signal matched detail])
    (exact_geometry s) (focus_match s) (leader_match s).
(** [result.score += points], [result.conflict = true]. *)
Definition add (points : Z) (s : t) : t :=
  mk (score s + points) (pid_match s) (managed_match s) (explicit_match s) (strong_discriminators s)
    (geometry_or_focus_match s) (conflict s) (evidence s) (exact_geometry s) (focus_match s) (leader_match s).
Definition set_conflict (s : t) : t :=
  mk (score s) (pid_match s) (managed_match s) (explicit_match s) (strong_discriminators s)
    (geometry_or_focus_match s) true (evidence s) (exact_geometry s) (focus_match s) (leader_match s).
(** [result.strong_discriminators += 1], of a [u8] that at most four signals increment. *)
Definition discriminate (s : t) : t :=
  mk (score s) (pid_match s) (managed_match s) (explicit_match s) (strong_discriminators s + 1)
    (geometry_or_focus_match s) (conflict s) (evidence s) (exact_geometry s) (focus_match s) (leader_match s).
Definition set_explicit_match (s : t) : t :=
  mk (score s) (pid_match s) (managed_match s) true (strong_discriminators s)
    (geometry_or_focus_match s) (conflict s) (evidence s) (exact_geometry s) (focus_match s) (leader_match s).
Definition set_pid_match (s : t) : t :=
  mk (score s) true (managed_match s) (explicit_match s) (strong_discriminators s)
    (geometry_or_focus_match s) (conflict s) (evidence s) (exact_geometry s) (focus_match s) (leader_match s).
Definition set_managed_match (s : t) : t :=
  mk (score s) (pid_match s) true (explicit_match s) (strong_discriminators s)
    (geometry_or_focus_match s) (conflict s) (evidence s) (exact_geometry s) (focus_match s) (leader_match s).
Definition set_geometry_or_focus_match (s : t) : t :=
  mk (score s) (pid_match s) (managed_match s) (explicit_match s) (strong_discriminators s)
    true (conflict s) (evidence s) (exact_geometry s) (focus_match s) (leader_match s).
Definition set_exact_geometry (s : t) : t :=
  mk (score s) (pid_match s) (managed_match s) (explicit_match s) (strong_discriminators s)
    (geometry_or_focus_match s) (conflict s) (evidence s) true (focus_match s) (leader_match s).
Definition set_focus_match (s : t) : t :=
  mk (score s) (pid_match s) (managed_match s) (explicit_match s) (strong_discriminators s)
    (geometry_or_focus_match s) (conflict s) (evidence s) (exact_geometry s) true (leader_match s).
Definition set_leader_match (s : t) : t :=
  mk (score s) (pid_match s) (managed_match s) (explicit_match s) (strong_discriminators s)
    (geometry_or_focus_match s) (conflict s) (evidence s) (exact_geometry s) (focus_match s) true.
End CandidateScore.

Section Score.
Import CorrelationSubject CandidateScore.
Context (subject : CorrelationSubject.t) (candidate : WindowCandidate.t) (limits : CorrelationLimits.t).

(** The blocks of [score_candidate], in its order. *)
Definition score_explicit (s : CandidateScore.t) : CandidateScore.t :=
  match explicit_window subject with
  | Some explicit =>
      if decide (WindowCandidate.window candidate = explicit)
      then set_explicit_match (add 100 (push ExplicitCallerReference true "exact window reference matched" s))
      else set_conflict (add (-100) (push ExplicitCallerReference false "exact window reference differed" s))
  | None => s
  end.

Definition common_managed_group : bool :=
  match managed_process_id subject, WindowCandidate.managed_process_id candidate with
  | Some expected, Some actual => bool_decide (expected = actual)
  | _, _ => false
  end.

Definition score_process (s : CandidateScore.t) : CandidateScore.t :=
  match process_id subject, WindowCandidate.process_id candidate with
  | Some expected, Some actual =>
      if decide (expected = actual)
      then set_pid_match (add 60 (push SignalProcessId true "process identifier matched" s))
      else if common_managed_group
      then push SignalProcessId false "process identifiers differed within one managed group" s
      else set_conflict (add (-80) (push SignalProcessId false "process identifier conflicted" s))
  | _, _ => s
  end.

Definition score_managed (s : CandidateScore.t) : CandidateScore.t :=
  match managed_process_id subject, WindowCandidate.managed_process_id candidate with
  | Some expected, Some actual =>
      if decide (expected = actual)
      then set_managed_match (add 50 (push ManagedProcess true "managed process identifier matched" s))
      else set_conflict (add (-80) (push ManagedProcess false "managed process identifier conflicted" s))
  | _, _ => s
  end.

Definition score_extents (s : CandidateScore.t) : CandidateScore.t :=
  match top_level_extents subject, WindowCandidate.top_level_extents candidate with
  | Some expected, Some actual =>
      match geometry_comparison expected actual with
      | GeometryExact =>
          set_exact_geometry (set_geometry_or_focus_match (discriminate (add 40
            (push TopLevelExtents true "root-physical extents matched exactly" s))))
      | GeometryStrong =>
          set_geometry_or_focus_match (discriminate (add 30
            (push TopLevelExtents true "root-physical extents strongly overlapped" s)))
      | GeometryWeak => add 12 (push TopLevelExtents false "root-physical extents weakly overlapped" s)
      | GeometryMiss =>
          set_conflict (add (-40) (push TopLevelExtents false "root-physical extents conflicted" s))
      end
  | _, _ => s
  end.

Definition score_title (s : CandidateScore.t) : CandidateScore.t :=
  match title subject, WindowCandidate.title candidate with
  | Some expected, Some actual =>
      if decide (expected = actual)
      then add 5 (push SignalTitle true "normalized title matched" s)
      else push SignalTitle false "normalized title differed" s
  | _, _ => s
  end.

Definition score_identity (s : CandidateScore.t) : CandidateScore.t :=
  match identity_comparison subject candidate with
  | Some identity =>
      let s := push ToolkitIdentity (identity_matched identity) (identity_detail identity) s in
      if identity_matched identity then discriminate (add (identity_score identity) s)
      else set_conflict (add (-30) s)
  | None => s
  end.

Definition score_leader (s : CandidateScore.t) : CandidateScore.t :=
  match client_leader subject with
  | Some expected =>
      if decide (WindowCandidate.window candidate = expected \/
                 WindowCandidate.client_leader candidate = Some expected)
      then set_leader_match (discriminate (add 24
             (push SignalClientLeader true "exact client-leader group matched" s)))
      else set_conflict (add (-20) (push SignalClientLeader false "exact client-leader group conflicted" s))
  | None => s
  end.

Definition focus_transitions_match : bool :=
  WindowCandidate.focused candidate &&
  match focus_changed_at subject, WindowCandidate.focus_changed_at candidate with
  | Some left_at, Some right_at =>
      bool_decide (absolute_time_delta left_at right_at <= CorrelationLimits.max_focus_delta_ms limits)
  | _, _ => false
  end.

Definition score_focus (s : CandidateScore.t) : CandidateScore.t :=
  if focused subject then
    if focus_transitions_match
    then set_focus_match (set_geometry_or_focus_match (discriminate (add 24
           (push FocusTransition true "fresh focus transitions matched" s))))
    else
      let s := push FocusTransition false "focus evidence was absent or stale" s in
      if observations_are_close (observed_at subject) (WindowCandidate.observed_at candidate) limits &&
         negb (WindowCandidate.focused candidate)
      then set_conflict (add (-12) s) else s
  else s.

Definition score_creation (s : CandidateScore.t) : CandidateScore.t :=
  match created_at subject, WindowCandidate.created_at candidate with
  | Some left_at, Some right_at =>
      if decide (absolute_time_delta left_at right_at <= CorrelationLimits.max_creation_delta_ms limits)
      then add 8 (push CreationProximity true "creation observations were proximate" s)
      else push CreationProximity false "creation observations were not proximate" s
  | _, _ => s
  end.

(** [score_candidate]. *)
Definition score_candidate : CandidateScore.t :=
  score_creation (score_focus (score_leader (score_identity (score_title (score_extents
    (score_managed (score_process (score_explicit start)))))))).
End Score.

(** ** Validation *)
Definition validate_process_pair (process_id managed_process_id : option N) : result unit Error :=
  ensure (process_id = Some 0 \/ managed_process_id = Some 0) InvalidProcessEvidence.

(** [validate_rect]. *)
Definition validate_optional_rect (rect : option Rect.t) : result unit Error :=
  match rect with
  | Some rect => map_err (fun _ => InvalidGeometry) (Rect.validate rect)
  | None => Ok tt
  end.

(** [now.elapsed_since(observed_at).is_none_or(|age| age > limits.max_observation_age_ms)]. *)
Definition too_old (now observed_at : MonotonicMillis.t) (limits : CorrelationLimits.t) : bool :=
  match MonotonicMillis.elapsed_since now observed_at with
  | Some age => bool_decide (CorrelationLimits.max_observation_age_ms limits < age)
  | None => true
  end.

Definition validate_time_set (created_at focus_changed_at : option MonotonicMillis.t)
    (observed_at now : MonotonicMillis.t) (require_fresh : bool) (limits : CorrelationLimits.t) :
    result unit Error :=
  try! ensure (now < observed_at \/
               option_exists (fun created => bool_decide (observed_at < created)) created_at = true \/
               option_exists (fun changed => bool_decide (observed_at < changed)) focus_changed_at = true)
         InvalidTime in
  ensure (require_fresh = true /\ too_old now observed_at limits = true) StaleObservation.

Definition validate_optional_window (window : option WindowRef.t) (desktop : DesktopId)
    (generation : DesktopGeneration) : result unit Error :=
  match window with
  | None => Ok tt
  | Some window =>
      try! map_err (fun _ => InvalidReference) (WindowRef.validate_shape window) in
      ensure (WindowRef.desktop_id window <> desktop \/
              WindowRef.desktop_generation window <> generation) ReferenceScope
  end.

(** [[a, b, c].into_iter().flatten().map(|value| value.as_str().len()).sum()]. *)
Definition string_bytes (texts : list (option NormalizedCorrelationText)) : N :=
  sum_N (map (fun text => text_bytes (as_str text)) (omap id texts)).
Definition subject_string_bytes (subject : CorrelationSubject.t) : N :=
  string_bytes [CorrelationSubject.title subject; CorrelationSubject.application_identity subject;
                CorrelationSubject.toolkit_identity subject].
Definition candidate_string_bytes (candidate : WindowCandidate.t) : N :=
  string_bytes [WindowCandidate.title candidate; WindowCandidate.application_identity candidate;
                WindowCandidate.toolkit_identity candidate].

Definition validate_string_budget (subject : CorrelationSubject.t)
    (candidates : list WindowCandidate.t) (limits : CorrelationLimits.t) : result unit Error :=
  let? total := try_fold (fun total candidate =>
    let? total := ok_or (checked_add_u64 total (candidate_string_bytes candidate)) StringLimit in
    try! ensure (CorrelationLimits.max_total_string_bytes limits < total) StringLimit in Ok total)
    (subject_string_bytes subject) candidates in
  ensure (CorrelationLimits.max_total_string_bytes limits < total) StringLimit.

(** The iteration of [validate_inputs] for one candidate: its window, the windows and the
    live births seen so far, and its evidence. *)
Definition validate_candidate_window (subject : CorrelationSubject.t) (candidate : WindowCandidate.t) :
    result unit Error :=
  let window := WindowCandidate.window candidate in
  let application := CorrelationSubject.application subject in
  try! map_err (fun _ => InvalidReference) (WindowRef.validate_shape window) in
  ensure (WindowRef.desktop_id window <> ApplicationRef.desktop_id application \/
          WindowRef.desktop_generation window <> ApplicationRef.desktop_generation application)
    ReferenceScope.

Definition validate_candidate_evidence (subject : CorrelationSubject.t) (now : MonotonicMillis.t)
    (limits : CorrelationLimits.t) (candidate : WindowCandidate.t) : result unit Error :=
  let application := CorrelationSubject.application subject in
  try! validate_process_pair (WindowCandidate.process_id candidate)
         (WindowCandidate.managed_process_id candidate) in
  try! validate_optional_rect (WindowCandidate.top_level_extents candidate) in
  try! validate_time_set (WindowCandidate.created_at candidate) (WindowCandidate.focus_changed_at candidate)
         (WindowCandidate.observed_at candidate) now (WindowCandidate.live candidate) limits in
  validate_optional_window (WindowCandidate.client_leader candidate)
    (ApplicationRef.desktop_id application) (ApplicationRef.desktop_generation application).

Definition validate_candidate (subject : CorrelationSubject.t) (now : MonotonicMillis.t)
    (limits : CorrelationLimits.t) (seen : list WindowRef.t * gmap N WindowRef.t)
    (candidate : WindowCandidate.t) : result (list WindowRef.t * gmap N WindowRef.t) Error :=
  let '(exact_windows, live_xids) := seen in
  let window := WindowCandidate.window candidate in
  try! validate_candidate_window subject candidate in
  try! ensure (window ∈ exact_windows) DuplicateWindow in
  let? live_xids :=
    if WindowCandidate.live candidate then
      try! ensure (option_exists (fun previous => bool_decide (previous <> window))
                     (live_xids !! WindowRef.xid window) = true) ConflictingWindowBirth in
      Ok (<[WindowRef.xid window := window]> live_xids)
    else Ok live_xids in
  try! validate_candidate_evidence subject now limits candidate in
  Ok (window :: exact_windows, live_xids).

Definition validate_subject (subject : CorrelationSubject.t) (now : MonotonicMillis.t)
    (limits : CorrelationLimits.t) : result unit Error :=
  let application := CorrelationSubject.application subject in
  let desktop := ApplicationRef.desktop_id application in
  let generation := ApplicationRef.desktop_generation application in
  try! map_err (fun _ => InvalidReference) (ApplicationRef.validate application) in
  try! map_err (fun _ => InvalidReference) (ElementRef.validate (CorrelationSubject.element subject)) in
  try! ensure (ElementRef.application (CorrelationSubject.element subject) <> application)
         ReferenceScope in
  try! validate_process_pair (CorrelationSubject.process_id subject)
         (CorrelationSubject.managed_process_id subject) in
  try! validate_optional_rect (CorrelationSubject.top_level_extents subject) in
  try! validate_time_set (CorrelationSubject.created_at subject)
         (CorrelationSubject.focus_changed_at subject) (CorrelationSubject.observed_at subject)
         now true limits in
  try! validate_optional_window (CorrelationSubject.explicit_window subject) desktop generation in
  validate_optional_window (CorrelationSubject.client_leader subject) desktop generation.

(** [validate_inputs]. *)
Definition validate_inputs (subject : CorrelationSubject.t) (candidates : list WindowCandidate.t)
    (now : MonotonicMillis.t) (limits : CorrelationLimits.t) : result unit Error :=
  try! CorrelationLimits.validate limits in
  try! ensure (CorrelationLimits.max_candidates limits < len candidates) CandidateLimit in
  try! validate_subject subject now limits in
  try! try_fold (validate_candidate subject now limits) ([], ∅) candidates in
  validate_string_budget subject candidates limits.

(** ** The choice *)

(** [values.enumerate().filter(|(_, value)| test(value)).map(|(index, _)| index)]. *)
Definition positions {A} (test : A -> bool) (values : list A) : list nat :=
  map fst (filter (fun entry : nat * A => test entry.2 = true) (zip (seq 0 (length values)) values)).

(** [insert_unique_anchor]. *)
Definition insert_unique_anchor (values : list nat) (anchors : gset nat) : gset nat :=
  match values with
  | [value] => {[value]} ∪ anchors
  | _ => anchors
  end.

(** [anchor_conflict]; [position] finds the first index. *)
Definition anchor_conflict (subject : CorrelationSubject.t) (candidates : list WindowCandidate.t)
    (scores : list CandidateScore.t) : bool :=
  let anchors : gset nat :=
    match CorrelationSubject.explicit_window subject with
    | Some explicit =>
        match head (positions (fun candidate =>
                      bool_decide (WindowCandidate.window candidate = explicit)) candidates) with
        | Some index => {[index]}
        | None => ∅
        end
    | None => ∅
    end in
  let anchors := insert_unique_anchor (positions CandidateScore.pid_match scores) anchors in
  let anchors := insert_unique_anchor (positions CandidateScore.managed_match scores) anchors in
  let anchors := insert_unique_anchor (positions CandidateScore.exact_geometry scores) anchors in
  let anchors := insert_unique_anchor (positions CandidateScore.focus_match scores) anchors in
  let anchors := insert_unique_anchor (positions CandidateScore.leader_match scores) anchors in
  bool_decide (1 < size anchors)%nat.

(** [window_key] with the order of tuples, and the sort by it. *)
Definition compare_window_key (x y : WindowRef.t) : comparison :=
  then_with (N.compare (WindowRef.xid x) (WindowRef.xid y))
    (then_with (N.compare (WindowRef.observed_generation x) (WindowRef.observed_generation y))
       (String.compare (hash_str (WindowRef.identity_hash x)) (hash_str (WindowRef.identity_hash y)))).
Definition live_in_order (candidates : list WindowCandidate.t) : list WindowCandidate.t :=
  merge_sort (fun x y => ordering_le (compare_window_key (WindowCandidate.window x) (WindowCandidate.window y)))
    (filter (fun candidate => WindowCandidate.live candidate = true) candidates).

(** [scores.iter().map(|score| score.score).max()]. *)
Definition max_score (scores : list CandidateScore.t) : option Z :=
  match map CandidateScore.score scores with
  | [] => None
  | score :: scores => Some (fold_left Z.max scores score)
  end.

(** [candidate_pid_matches]. *)
Definition candidate_pid_matches (candidate : WindowCandidate.t) (expected : N) : bool :=
  bool_decide (WindowCandidate.process_id candidate = Some expected).

Section Choice.
Context (subject : CorrelationSubject.t) (ordered : list WindowCandidate.t).

Definition pid_universe_complete : bool :=
  bool_decide (CorrelationSubject.process_id subject <> None) &&
  forallb (fun candidate => bool_decide (WindowCandidate.process_id candidate <> None)) ordered.
Definition pid_match_count : N :=
  match CorrelationSubject.process_id subject with
  | Some pid => len (filter (fun candidate => candidate_pid_matches candidate pid = true) ordered)
  | None => 0
  end.
Definition managed_match_count : N :=
  match CorrelationSubject.managed_process_id subject with
  | Some pid => len (filter (fun candidate => WindowCandidate.managed_process_id candidate = Some pid) ordered)
  | None => 0
  end.

(** The confidence of the winner. *)
Definition confidence_of (score : CandidateScore.t) : WindowCorrelationConfidence :=
  let exact_process :=
    negb (CandidateScore.conflict score) && CandidateScore.pid_match score &&
    pid_universe_complete && bool_decide (pid_match_count = 1) in
  let discriminators := CandidateScore.strong_discriminators score in
  if CandidateScore.conflict score then Weak
  else if exact_process then ExactProcess
  else if CandidateScore.explicit_match score ||
          (CandidateScore.pid_match score && bool_decide (2 <= discriminators) &&
           CandidateScore.geometry_or_focus_match score) ||
          (CandidateScore.managed_match score && bool_decide (managed_match_count = 1) &&
           bool_decide (1 <= discriminators) && CandidateScore.geometry_or_focus_match score) ||
          (CandidateScore.managed_match score && bool_decide (1 < managed_match_count) &&
           bool_decide (2 <= discriminators) && CandidateScore.geometry_or_focus_match score) ||
          (negb (CandidateScore.pid_match score) && negb (CandidateScore.managed_match score) &&
           bool_decide (3 <= discriminators) && CandidateScore.geometry_or_focus_match score)
  then Strong else Weak.
End Choice.

(** The part of [correlate_accessibility_window] after the validation and the sort. *)
Definition choose_window (subject : CorrelationSubject.t) (ordered : list WindowCandidate.t)
    (limits : CorrelationLimits.t) : ElementWindowCorrelation :=
  let scores := map (fun candidate => score_candidate subject candidate limits) ordered in
  let scores :=
    if anchor_conflict subject ordered scores then map CandidateScore.set_conflict scores else scores in
  match max_score scores with
  | None => no_correlation false []
  | Some best_score =>
      if decide (best_score <= 0)%Z then no_correlation (existsb CandidateScore.conflict scores) []
      else
        match filter (fun entry : WindowCandidate.t * CandidateScore.t =>
                        CandidateScore.score entry.2 = best_score) (zip ordered scores) with
        | [(winner, score)] =>
            mkWindowCorrelation (Some (WindowCandidate.window winner)) (confidence_of subject ordered score)
              (CandidateScore.evidence score) (CandidateScore.conflict score)
        | _ => no_correlation true []
        end
  end.

(** [correlate_accessibility_window]. *)
Definition correlate_accessibility_window (subject : CorrelationSubject.t)
    (candidates : list WindowCandidate.t) (now : MonotonicMillis.t) (limits : CorrelationLimits.t) :
    result ElementWindowCorrelation Error :=
  try! validate_inputs subject candidates now limits in
  let ordered := live_in_order candidates in
  Ok (if decide (ordered = []) then no_correlation false []
      else
        match CorrelationSubject.explicit_window subject with
        | Some explicit =>
            if decide (explicit ∈ map WindowCandidate.window ordered)
            then choose_window subject ordered limits
            else no_correlation true
                   [new_evidence ExplicitCallerReference false "exact live window reference unavailable"]
        | None => choose_window subject ordered limits
        end).

(** [correlation_authorizes_physical_effect]. *)
Definition is_independent (signal : WindowCorrelationSignal) : bool :=
  match signal with
  | ManagedProcess | TopLevelExtents | SignalClientLeader | FocusTransition | ExplicitCallerReference => true
  | _ => false
  end.

Definition correlation_authorizes_physical_effect (correlation : ElementWindowCorrelation) : bool :=
  bool_decide (correlated_window correlation <> None) &&
  negb (conflicting_evidence correlation) &&
  existsb (fun evidence => matched evidence && is_independent (signal evidence))
    (correlation_evidence correlation) &&
  match correlation_confidence correlation with
  | Strong | ExactProcess => true
  | CorrelationNone | Weak => false
  end.
