(* ===== verification/CorrelationFacts.v ===== *)
(** * What the correlation of an element with a window decides

    [NormalizedCorrelationText::new] against its meaning; the score of a candidate as the sum
    of nine signals, the admission of the inputs as a condition that does not depend on
    their order, and the choice of the window. *)

From stdpp Require Import base numbers list option gmap strings sorting.
From Stdlib Require Import Lia.
From S2P Require Import Prelude Identity Geometry WindowTypes Orderings AccessibilityTypes AccessibilityCorrelation.

Local Open Scope N_scope.

(** The words of a text: its longest runs without white space; [word] has begun. *)
Fixpoint words_from (word text : list N) : list (list N) :=
  match text with
  | [] => if decide (word = []) then [] else [word]
  | c :: text =>
      if decide (is_whitespace c)
      then if decide (word = []) then words_from [] text else word :: words_from [] text
      else words_from (word ++ [c]) text
  end.
Definition words : list N -> list (list N) := words_from [].

(** With one space between the words. *)
Fixpoint joined (parts : list (list N)) : list N :=
  match parts with
  | [] => []
  | [part] => part
  | part :: parts => part ++ 32 :: joined parts
  end.

Section Text.
Context (to_lowercase : N -> list N).
(** Every character has a lower case. *)
Context (lower_some : forall c, to_lowercase c <> []).
#[local] Abbreviation lowered := (flat_map to_lowercase).

Definition normal_form (text : list N) : list N := joined (map lowered (words text)).

(** What is still to be appended once something was, and once a space is pending. *)
Fixpoint remainder (started pending : bool) (text : list N) : list N :=
  match text with
  | [] => []
  | c :: text =>
      if decide (is_whitespace c) then remainder started started text
      else (if pending then 32 :: to_lowercase c else to_lowercase c) ++ remainder true false text
  end.

Lemma words_from_nil_started word text : word <> [] -> words_from word text <> [].
Proof.
  revert word. induction text as [| c text IH]; intros word Hw; simpl; [by rewrite decide_False |].
  case_decide; [by rewrite decide_False |]. apply IH. by destruct word.
Qed.

Lemma remainder_words text :
  (forall word, word <> [] ->
     joined (map lowered (words_from word text)) = lowered word ++ remainder true false text) /\
  remainder true true text =
    match words_from [] text with [] => [] | _ => 32 :: joined (map lowered (words_from [] text)) end /\
  remainder false false text = joined (map lowered (words_from [] text)).
Proof.
  induction text as [| c text (IHa & IHb & IHc)]; simpl.
  { split_and!; [| done | done]. intros word Hw. rewrite decide_False by done. simpl. by rewrite app_nil_r. }
  destruct (decide (is_whitespace c)).
  - split_and!; [| done | done]. intros word Hw. rewrite decide_False by done. rewrite IHb.
    simpl. destruct (words_from [] text); [by rewrite app_nil_r | done].
  - assert (joined (map lowered (words_from [c] text)) = to_lowercase c ++ remainder true false text) as Hc.
    { rewrite IHa by done. simpl. by rewrite app_nil_r. }
    split_and!.
    + intros word Hw. rewrite IHa by (by destruct word). rewrite flat_map_app. simpl.
      by rewrite app_nil_r, app_assoc.
    + destruct (words_from [c] text) eqn:Hw; [by apply words_from_nil_started in Hw |]. by rewrite Hc.
    + done.
Qed.

Definition acceptable (text : list N) : Prop := forall c, c ∈ text -> is_control c -> is_whitespace c.

Lemma text_bytes_app a b : text_bytes (a ++ b) = text_bytes a + text_bytes b.
Proof. unfold text_bytes. by rewrite map_app, sum_N_app. Qed.

Lemma acceptable_cons c text :
  acceptable (c :: text) <-> (is_control c -> is_whitespace c) /\ acceptable text.
Proof. unfold acceptable. setoid_rewrite elem_of_cons. naive_solver. Qed.

(** The loop appends the remainder, unless a character is forbidden or the text too long. *)
Lemma push_characters normalized pending text :
  text_bytes normalized <= MAX_ACCESSIBILITY_CORRELATION_STRING_BYTES ->
  let final := normalized ++ remainder (negb (bool_decide (normalized = []))) pending text in
  match try_fold (push_character to_lowercase) (normalized, pending) text with
  | Ok state => fst state = final /\ acceptable text /\
                text_bytes final <= MAX_ACCESSIBILITY_CORRELATION_STRING_BYTES
  | Err _ => ~ (acceptable text /\ text_bytes final <= MAX_ACCESSIBILITY_CORRELATION_STRING_BYTES)
  end.
Proof.
  revert normalized pending. induction text as [| c text IH]; intros normalized pending Hn; cbn [try_fold remainder].
  { simpl. rewrite app_nil_r. split_and!; [done | by intros ? ?%elem_of_nil | done]. }
  assert (acceptable (c :: text) <-> (is_control c -> is_whitespace c) /\ acceptable text) as Hcons
    by apply acceptable_cons.
  unfold push_character at 1.
  destruct (decide (is_control c /\ ~ is_whitespace c)) as [Hbad | Hgood].
  { rewrite ensure_reject by done. simpl. tauto. }
  assert (is_control c -> is_whitespace c) as Hc.
  { intros Hc. destruct (decide (is_whitespace c)); tauto. }
  rewrite ensure_pass by done. cbn [and_then]. destruct (decide (is_whitespace c)) as [Hw | Hw].
  - cbn [and_then]. specialize (IH normalized (negb (bool_decide (normalized = []))) Hn). simpl in IH.
    destruct (try_fold _ _ text); simpl; tauto.
  - set (longer := (if pending then normalized ++ [32] else normalized) ++ to_lowercase c).
    assert (negb (bool_decide (longer = [])) = true) as Hstarted.
    { rewrite bool_decide_eq_false_2; [done |]. unfold longer. intros [_ ?]%app_nil. by eapply lower_some. }
    assert (normalized ++ (if pending then 32 :: to_lowercase c else to_lowercase c) ++ remainder true false text =
            longer ++ remainder true false text) as Heq.
    { unfold longer. destruct pending; by rewrite <- ?app_assoc. }
    rewrite Heq. destruct (decide (MAX_ACCESSIBILITY_CORRELATION_STRING_BYTES < text_bytes longer)) as [Hlong | Hfit].
    + rewrite ensure_reject by done. simpl. rewrite text_bytes_app. lia.
    + rewrite ensure_pass by done. cbn [and_then]. specialize (IH longer false). simpl in IH.
      rewrite Hstarted in IH. specialize (IH ltac:(lia)). destruct (try_fold _ _ text); simpl; tauto.
Qed.

(** A text is accepted exactly when it has at most 1024 bytes, no control character but
    white space, some word and a normal form of at most 256 bytes, the words folded to lower
    case with one space between them; and that is the result. *)
Theorem normalization_exact text t :
  new_normalized_text to_lowercase text = Ok t <->
  as_str t = normal_form text /\
  text_bytes text <= MAX_ACCESSIBILITY_CORRELATION_RAW_STRING_BYTES /\ acceptable text /\
  normal_form text <> [] /\ text_bytes (normal_form text) <= MAX_ACCESSIBILITY_CORRELATION_STRING_BYTES.
Proof.
  unfold new_normalized_text, normal_form, words. rewrite <- (proj2 (proj2 (remainder_words text))).
  pose proof (push_characters [] false text) as Hfold. simpl in Hfold.
  rewrite and_then_Ok. split.
  - intros ([] & Hraw%ensure_Ok & H). apply and_then_Ok in H as (state & Hs & H). rewrite Hs in Hfold.
    apply and_then_Ok in H as ([] & Hne%ensure_Ok & [= <-]). simpl.
    destruct Hfold as (Heq & ? & ?); [vm_compute; congruence |]. rewrite Heq in *. split_and!; (done || lia).
  - intros (Ht & Hraw & Hacc & Hne & Hlen). exists tt. rewrite ensure_pass by lia. split; [done |].
    destruct (try_fold _ _ text) as [state |]; [| by destruct Hfold; [vm_compute; congruence |]].
    destruct Hfold as (Heq & _); [vm_compute; congruence |]. cbn [and_then]. rewrite Heq.
    rewrite ensure_pass by done. simpl. destruct t. simpl in Ht. by rewrite Ht.
Qed.
End Text.

Lemma normalization_exact_witness :
  new_normalized_text (fun c => [c]) [32; 104; 105; 9; 32; 120] = Ok (mkNormalized [104; 105; 32; 120]).
Proof.
  apply (normalization_exact (fun c => [c]) (fun c => ltac:(discriminate))). split_and!.
  - reflexivity.
  - vm_compute. discriminate.
  - intros c Hc Hcontrol. repeat (apply elem_of_cons in Hc as [-> | Hc]);
      try (unfold is_whitespace; lia); try (unfold is_control in Hcontrol; lia). by apply elem_of_nil in Hc.
  - vm_compute. discriminate.
  - vm_compute. discriminate.
Defined.

(** ** Signals *)
Section Signals.
Import CorrelationSubject.
Context (subject : CorrelationSubject.t) (limits : CorrelationLimits.t) (c : WindowCandidate.t).

(** What it means that a signal of the subject agrees with a candidate. *)
Definition agrees (signal : WindowCorrelationSignal) : Prop :=
  match signal with
  | ExplicitCallerReference => explicit_window subject = Some (WindowCandidate.window c)
  | SignalProcessId => process_id subject <> None /\ process_id subject = WindowCandidate.process_id c
  | ManagedProcess =>
      managed_process_id subject <> None /\ managed_process_id subject = WindowCandidate.managed_process_id c
  | TopLevelExtents =>
      match top_level_extents subject, WindowCandidate.top_level_extents c with
      | Some expected, Some actual =>
          geometry_comparison expected actual = GeometryExact \/
          geometry_comparison expected actual = GeometryStrong
      | _, _ => False
      end
  | SignalTitle => title subject <> None /\ title subject = WindowCandidate.title c
  | ToolkitIdentity =>
      match identity_comparison subject c with
      | Some identity => identity_matched identity = true
      | None => False
      end
  | SignalClientLeader =>
      client_leader subject <> None /\
      (client_leader subject = Some (WindowCandidate.window c) \/
       client_leader subject = WindowCandidate.client_leader c)
  | FocusTransition => focused subject = true /\ focus_transitions_match subject c limits = true
  | CreationProximity =>
      match created_at subject, WindowCandidate.created_at c with
      | Some l, Some r => absolute_time_delta l r <= CorrelationLimits.max_creation_delta_ms limits
      | _, _ => False
      end
  end.

(** What it means that a signal contradicts the candidate. *)
Definition contradicts (signal : WindowCorrelationSignal) : Prop :=
  match signal with
  | ExplicitCallerReference =>
      explicit_window subject <> None /\ explicit_window subject <> Some (WindowCandidate.window c)
  | SignalProcessId =>
      process_id subject <> None /\ WindowCandidate.process_id c <> None /\
      process_id subject <> WindowCandidate.process_id c /\ ~ agrees ManagedProcess
  | ManagedProcess =>
      managed_process_id subject <> None /\ WindowCandidate.managed_process_id c <> None /\
      managed_process_id subject <> WindowCandidate.managed_process_id c
  | TopLevelExtents =>
      match top_level_extents subject, WindowCandidate.top_level_extents c with
      | Some expected, Some actual => geometry_comparison expected actual = GeometryMiss
      | _, _ => False
      end
  | ToolkitIdentity =>
      match identity_comparison subject c with
      | Some identity => identity_matched identity = false
      | None => False
      end
  | SignalClientLeader => client_leader subject <> None /\ ~ agrees SignalClientLeader
  | FocusTransition =>
      focused subject = true /\ focus_transitions_match subject c limits = false /\
      observations_are_close (observed_at subject) (WindowCandidate.observed_at c) limits &&
        negb (WindowCandidate.focused c) = true
  | SignalTitle | CreationProximity => False
  end.

(** The points of a signal. *)
Definition points (signal : WindowCorrelationSignal) : Z :=
  match signal with
  | ExplicitCallerReference =>
      match explicit_window subject with
      | Some explicit => if decide (WindowCandidate.window c = explicit) then 100 else -100
      | None => 0
      end
  | SignalProcessId =>
      match process_id subject, WindowCandidate.process_id c with
      | Some expected, Some actual =>
          if decide (expected = actual) then 60 else if common_managed_group subject c then 0 else -80
      | _, _ => 0
      end
  | ManagedProcess =>
      match managed_process_id subject, WindowCandidate.managed_process_id c with
      | Some expected, Some actual => if decide (expected = actual) then 50 else -80
      | _, _ => 0
      end
  | TopLevelExtents =>
      match top_level_extents subject, WindowCandidate.top_level_extents c with
      | Some expected, Some actual =>
          match geometry_comparison expected actual with
          | GeometryExact => 40 | GeometryStrong => 30 | GeometryWeak => 12 | GeometryMiss => -40
          end
      | _, _ => 0
      end
  | SignalTitle =>
      match title subject, WindowCandidate.title c with
      | Some expected, Some actual => if decide (expected = actual) then 5 else 0
      | _, _ => 0
      end
  | ToolkitIdentity =>
      match identity_comparison subject c with
      | Some identity => if identity_matched identity then identity_score identity else -30
      | None => 0
      end
  | SignalClientLeader =>
      match client_leader subject with
      | Some expected =>
          if decide (WindowCandidate.window c = expected \/ WindowCandidate.client_leader c = Some expected)
          then 24 else -20
      | None => 0
      end
  | FocusTransition =>
      if focused subject then
        if focus_transitions_match subject c limits then 24
        else if observations_are_close (observed_at subject) (WindowCandidate.observed_at c) limits &&
                negb (WindowCandidate.focused c) then -12 else 0
      else 0
  | CreationProximity =>
      match created_at subject, WindowCandidate.created_at c with
      | Some l, Some r =>
          if decide (absolute_time_delta l r <= CorrelationLimits.max_creation_delta_ms limits)%N then 8 else 0
      | _, _ => 0
      end
  end%Z.

Definition signals : list WindowCorrelationSignal :=
  [ExplicitCallerReference; SignalProcessId; ManagedProcess; TopLevelExtents; SignalTitle;
   ToolkitIdentity; SignalClientLeader; FocusTransition; CreationProximity].
Definition total_points : Z := fold_right Z.add 0%Z (map points signals).

(** What judging by one signal does to the score. *)
Record judged (g : WindowCorrelationSignal) (s s' : CandidateScore.t) : Prop := {
  judged_score : CandidateScore.score s' = (CandidateScore.score s + points g)%Z;
  judged_conflict : CandidateScore.conflict s' = true <-> CandidateScore.conflict s = true \/ contradicts g;
  judged_evidence :
    (exists matched detail, CandidateScore.evidence s' = CandidateScore.evidence s ++ [new_evidence g matched detail] /\
       (matched = true <-> agrees g)) \/
    (CandidateScore.evidence s' = CandidateScore.evidence s /\ ~ agrees g);
  judged_pid : CandidateScore.pid_match s' = true <->
    CandidateScore.pid_match s = true \/ (g = SignalProcessId /\ agrees g);
  judged_explicit : CandidateScore.explicit_match s' = true <->
    CandidateScore.explicit_match s = true \/ (g = ExplicitCallerReference /\ agrees g);
}.

(** A block in one of its cases: what it noted is what the definitions say. *)
Ltac judge :=
  split; simpl; unfold common_managed_group; repeat (case_decide || case_match); simplify_eq/=;
  first [ lia | by right; split; [done | naive_solver]
        | by left; eexists _, _; split; [done |]; naive_solver | naive_solver ].

Lemma judged_explicit_window s : judged ExplicitCallerReference s (score_explicit subject c s).
Proof. unfold score_explicit. judge. Qed.
Lemma judged_title s : judged SignalTitle s (score_title subject c s).
Proof. unfold score_title. judge. Qed.
Lemma judged_process s : judged SignalProcessId s (score_process subject c s).
Proof. unfold score_process. judge. Qed.
Lemma judged_managed s : judged ManagedProcess s (score_managed subject c s).
Proof. unfold score_managed. judge. Qed.
Lemma judged_extents s : judged TopLevelExtents s (score_extents subject c s).
Proof. unfold score_extents. judge. Qed.
Lemma judged_identity s : judged ToolkitIdentity s (score_identity subject c s).
Proof. unfold score_identity. judge. Qed.
Lemma judged_leader s : judged SignalClientLeader s (score_leader subject c s).
Proof. unfold score_leader. judge. Qed.
Lemma judged_focus s : judged FocusTransition s (score_focus subject c limits s).
Proof. unfold score_focus. judge. Qed.
Lemma judged_creation s : judged CreationProximity s (score_creation subject c limits s).
Proof. unfold score_creation. judge. Qed.

(** The final score, of the signals judged one after the other. *)
Record tallied (done : list WindowCorrelationSignal) (s : CandidateScore.t) : Prop := {
  tallied_score : CandidateScore.score s = fold_right Z.add 0%Z (map points done);
  tallied_conflict : CandidateScore.conflict s = true <-> exists g, g ∈ done /\ contradicts g;
  tallied_evidence g :
    (exists e, e ∈ CandidateScore.evidence s /\ signal e = g /\ matched e = true) <-> g ∈ done /\ agrees g;
  tallied_pid : CandidateScore.pid_match s = true <-> SignalProcessId ∈ done /\ agrees SignalProcessId;
  tallied_explicit :
    CandidateScore.explicit_match s = true <-> ExplicitCallerReference ∈ done /\ agrees ExplicitCallerReference;
}.

Lemma tallied_start : tallied [] CandidateScore.start.
Proof. split; simpl; set_solver. Qed.

Lemma tallied_step done g s s' : judged g s s' -> tallied done s -> tallied (done ++ [g]) s'.
Proof.
  intros [Hs Hc He Hp Hx] [Ts Tc Te Tp Tx]. split.
  - rewrite Hs, Ts, map_app, fold_right_app. simpl. generalize (points g).
    clear. intros n. induction done; simpl; lia.
  - rewrite Hc, Tc. setoid_rewrite elem_of_app. setoid_rewrite list_elem_of_singleton. naive_solver.
  - intros h. rewrite elem_of_app, list_elem_of_singleton. specialize (Te h).
    destruct He as [(m & d & He & Hm) | [He Hn]]; rewrite He.
    + setoid_rewrite elem_of_app. setoid_rewrite list_elem_of_singleton. split.
      * intros (e & [Hin | ->] & <- & Hmt); [split; [left |]; apply Te; eauto |]. simpl in *. naive_solver.
      * intros [[Hin | ->] Ha]; [destruct (proj2 Te) as (e & ? & ? & ?); eauto 8 |].
        exists (new_evidence g m d). simpl. naive_solver.
    + rewrite Te. naive_solver.
  - rewrite Hp, Tp, elem_of_app, list_elem_of_singleton. naive_solver.
  - rewrite Hx, Tx, elem_of_app, list_elem_of_singleton. naive_solver.
Qed.

Lemma score_candidate_tallied : tallied signals (score_candidate subject c limits).
Proof.
  change signals with
    ((((((((([] ++ [ExplicitCallerReference]) ++ [SignalProcessId]) ++ [ManagedProcess])
      ++ [TopLevelExtents]) ++ [SignalTitle]) ++ [ToolkitIdentity]) ++ [SignalClientLeader])
      ++ [FocusTransition]) ++ [CreationProximity]).
  unfold score_candidate.
  eapply tallied_step; [apply judged_creation |]. eapply tallied_step; [apply judged_focus |].
  eapply tallied_step; [apply judged_leader |]. eapply tallied_step; [apply judged_identity |].
  eapply tallied_step; [apply judged_title |]. eapply tallied_step; [apply judged_extents |].
  eapply tallied_step; [apply judged_managed |]. eapply tallied_step; [apply judged_process |].
  eapply tallied_step; [apply judged_explicit_window |]. apply tallied_start.
Qed.

Lemma elem_of_signals g : g ∈ signals.
Proof. destruct g; unfold signals; set_solver. Qed.

Lemma score_points : CandidateScore.score (score_candidate subject c limits) = total_points.
Proof. apply score_candidate_tallied. Qed.
Lemma score_conflict :
  CandidateScore.conflict (score_candidate subject c limits) = true <-> exists g, contradicts g.
Proof.
  rewrite (tallied_conflict _ _ score_candidate_tallied).
  split; intros [g Hg]; exists g; [apply Hg | split; [apply elem_of_signals | done]].
Qed.
Lemma score_evidence g :
  (exists e, e ∈ CandidateScore.evidence (score_candidate subject c limits) /\ signal e = g /\ matched e = true)
  <-> agrees g.
Proof. rewrite (tallied_evidence _ _ score_candidate_tallied). pose proof (elem_of_signals g). tauto. Qed.
Lemma score_pid :
  CandidateScore.pid_match (score_candidate subject c limits) = true <-> agrees SignalProcessId.
Proof. rewrite (tallied_pid _ _ score_candidate_tallied). pose proof (elem_of_signals SignalProcessId). tauto. Qed.
Lemma score_explicit_match :
  CandidateScore.explicit_match (score_candidate subject c limits) = true <-> agrees ExplicitCallerReference.
Proof.
  rewrite (tallied_explicit _ _ score_candidate_tallied).
  pose proof (elem_of_signals ExplicitCallerReference). tauto.
Qed.
End Signals.

(** ** Admission does not depend on the order of the candidates *)
Section Admission.
Context (subject : CorrelationSubject.t) (now : MonotonicMillis.t) (limits : CorrelationLimits.t).

(** The candidate alone is well formed. *)
Definition well_formed (c : WindowCandidate.t) : Prop :=
  validate_candidate_window subject c = Ok tt /\ validate_candidate_evidence subject now limits c = Ok tt.

(** The candidates are distinct, and no two of them are live with one XID. *)
Definition distinct (candidates : list WindowCandidate.t) : Prop :=
  NoDup (map WindowCandidate.window candidates) /\
  (forall a b, a ∈ candidates -> b ∈ candidates ->
     WindowCandidate.live a = true -> WindowCandidate.live b = true ->
     WindowRef.xid (WindowCandidate.window a) = WindowRef.xid (WindowCandidate.window b) ->
     WindowCandidate.window a = WindowCandidate.window b).

Lemma validate_candidate_Ok seen births c state :
  validate_candidate subject now limits (seen, births) c = Ok state <->
  well_formed c /\ WindowCandidate.window c ∉ seen /\
  (WindowCandidate.live c = true -> forall w,
     births !! WindowRef.xid (WindowCandidate.window c) = Some w -> w = WindowCandidate.window c) /\
  state = (WindowCandidate.window c :: seen,
           if WindowCandidate.live c
           then <[WindowRef.xid (WindowCandidate.window c) := WindowCandidate.window c]> births else births).
Proof.
  unfold well_formed, validate_candidate.
  destruct (validate_candidate_window subject c) as [[] |]; simpl; [| naive_solver].
  unfold ensure. destruct (decide (_ ∈ seen)); simpl; [naive_solver |].
  destruct (WindowCandidate.live c); simpl.
  - destruct (births !! _) as [w |]; simpl.
    + case_bool_decide as Hw; simpl; [naive_solver |]. subst w.
      destruct (validate_candidate_evidence _ _ _ _) as [[] |]; simpl; naive_solver.
    + destruct (validate_candidate_evidence _ _ _ _) as [[] |]; simpl; naive_solver.
  - destruct (validate_candidate_evidence _ _ _ _) as [[] |]; simpl; naive_solver.
Qed.

Lemma distinct_cons c candidates :
  distinct (c :: candidates) <->
  distinct candidates /\
  (forall d, d ∈ candidates -> WindowCandidate.window d <> WindowCandidate.window c) /\
  (forall d, d ∈ candidates -> WindowCandidate.live c = true -> WindowCandidate.live d = true ->
     WindowRef.xid (WindowCandidate.window d) <> WindowRef.xid (WindowCandidate.window c)).
Proof.
  unfold distinct. simpl. rewrite NoDup_cons. split.
  - intros [[Hn Hnd] Hx].
    assert (forall d, d ∈ candidates -> WindowCandidate.window d <> WindowCandidate.window c) as Hne.
    { intros d Hd Heq. apply Hn. rewrite <- Heq. by apply list_elem_of_fmap_2. }
    split_and!; [done | | done |].
    + intros a b Ha Hb. apply Hx; by right.
    + intros d Hd Hlc Hld Hxid. apply (Hne d Hd). apply Hx; [by right | by left | done..].
  - intros ([Hnd Hx] & Hne & Hb). split; [split; [| done] |].
    + intros (d & Heq & Hd)%list_elem_of_fmap. by apply (Hne d).
    + intros a b [-> | Ha]%elem_of_cons [-> | Hb']%elem_of_cons Hla Hlb Hxid; [done | | | by apply Hx].
      * by destruct (Hb b).
      * by destruct (Hb a).
Qed.

Lemma validate_candidates_Ok candidates seen births :
  (forall x w, births !! x = Some w -> w ∈ seen) ->
  is_ok (try_fold (validate_candidate subject now limits) (seen, births) candidates) = true <->
  Forall well_formed candidates /\ distinct candidates /\
  (forall c, c ∈ candidates -> WindowCandidate.window c ∉ seen) /\
  (forall c, c ∈ candidates -> WindowCandidate.live c = true ->
     births !! WindowRef.xid (WindowCandidate.window c) = None).
Proof.
  revert seen births. induction candidates as [| c candidates IH]; intros seen births Hb;
    cbn [try_fold].
  { split; [| done]. intros _. split_and!; [done | split; [constructor | set_solver] | set_solver..]. }
  rewrite Forall_cons, distinct_cons. setoid_rewrite elem_of_cons.
  assert (forall w, births !! WindowRef.xid (WindowCandidate.window c) = Some w ->
            WindowCandidate.window c ∉ seen -> w <> WindowCandidate.window c) as Hother.
  { intros w Hw%Hb Hn ->. done. }
  destruct (validate_candidate subject now limits (seen, births) c) as [state |] eqn:Hc; cbn [and_then].
  - apply validate_candidate_Ok in Hc as (Hwf & Hnew & Hbirth & ->).
    rewrite IH by (intros x w; destruct (WindowCandidate.live c); [rewrite lookup_insert_Some | ]; set_solver).
    assert (WindowCandidate.live c = true -> births !! WindowRef.xid (WindowCandidate.window c) = None) as Hc.
    { intros Hl. destruct (births !! _) as [w |]; [| done]. by destruct (Hother w); auto. }
    assert (forall d, (if WindowCandidate.live c
                 then <[WindowRef.xid (WindowCandidate.window c) := WindowCandidate.window c]> births
                 else births) !! WindowRef.xid (WindowCandidate.window d) = None <->
              births !! WindowRef.xid (WindowCandidate.window d) = None /\
              (WindowCandidate.live c = true ->
               WindowRef.xid (WindowCandidate.window d) <> WindowRef.xid (WindowCandidate.window c))) as Hd.
    { intros d. destruct (WindowCandidate.live c); [| by split; [split | intros []]].
      rewrite lookup_insert_None. split; intros [? Hne]; split; auto. by intros Heq; apply Hne. }
    setoid_rewrite Hd. setoid_rewrite not_elem_of_cons. split.
    + intros (Hf & Hdi & Hs & Hb'). split_and!; [done..| | | |].
      * intros d Hin. by apply Hs.
      * intros d Hin Hl Hld. by apply (Hb' d).
      * intros d [-> | Hin]; [done | by apply Hs].
      * intros d [-> | Hin] Hl; [by apply Hc | by apply (Hb' d)].
    + intros ([_ Hf] & (Hdi & Hne & Hx) & Hs & Hb'). split_and!; [done.. | |].
      * intros d Hin. split; [by apply Hne | apply Hs; by right].
      * intros d Hin Hl. split; [apply Hb'; [by right | done] |]. intros Hlc. by apply Hx.
  - split; [by intros |]. intros ([Hwf _] & _ & Hs & Hl). exfalso.
    assert (validate_candidate subject now limits (seen, births) c = Ok
      (WindowCandidate.window c :: seen,
       if WindowCandidate.live c
       then <[WindowRef.xid (WindowCandidate.window c) := WindowCandidate.window c]> births else births))
      as Hok; [| congruence].
    apply validate_candidate_Ok. split_and!; [done | by apply Hs; left | | done].
    intros Hlive w Hw. rewrite (Hl c) in Hw by auto. done.
Qed.

Definition all_bytes (candidates : list WindowCandidate.t) : N :=
  sum_N (map candidate_string_bytes candidates).

Lemma validate_string_budget_Ok candidates :
  CorrelationLimits.max_total_string_bytes limits <= u64_max ->
  validate_string_budget subject candidates limits = Ok tt <->
  subject_string_bytes subject + all_bytes candidates <= CorrelationLimits.max_total_string_bytes limits.
Proof.
  intros Hmax. unfold validate_string_budget, all_bytes.
  generalize (subject_string_bytes subject) as total.
  induction candidates as [| c candidates IH]; intros total; simpl.
  { rewrite ensure_Ok. lia. }
  unfold checked_add_u64. case_decide as Hle; simpl; [| split; [done | lia]].
  unfold ensure at 1. case_decide as Hlt; simpl; [split; [done | lia] |].
  rewrite IH. lia.
Qed.

(** The inputs are admitted. *)
Record admits (candidates : list WindowCandidate.t) : Prop := {
  admits_limits : CorrelationLimits.validate limits = Ok tt;
  admits_count : len candidates <= CorrelationLimits.max_candidates limits;
  admits_subject : validate_subject subject now limits = Ok tt;
  admits_candidates : Forall well_formed candidates;
  admits_distinct : distinct candidates;
  admits_bytes :
    subject_string_bytes subject + all_bytes candidates <= CorrelationLimits.max_total_string_bytes limits;
}.

Lemma validate_inputs_Ok candidates :
  validate_inputs subject candidates now limits = Ok tt <-> admits candidates.
Proof.
  unfold validate_inputs. rewrite and_then_Ok.
  assert (CorrelationLimits.validate limits = Ok tt ->
          CorrelationLimits.max_total_string_bytes limits <= u64_max) as Hbound.
  { unfold CorrelationLimits.validate, MAX_ACCESSIBILITY_CORRELATION_TOTAL_STRING_BYTES, u64_max.
    rewrite ensure_Ok. lia. }
  pose proof (validate_candidates_Ok candidates [] ∅) as Hfold.
  destruct (try_fold (validate_candidate subject now limits) ([], ∅) candidates) as [state |].
  - destruct Hfold as [Hfold _]; [set_solver |].
    destruct Hfold as (Hw & Hd & _); [done |]. split.
    + intros ([] & Hl & H). apply and_then_Ok in H as ([] & Hc%ensure_Ok & H).
      apply and_then_Ok in H as ([] & Hs & H). simpl in H.
      split; [done | lia | done.. | by apply validate_string_budget_Ok; auto].
    + intros [Hl Hc Hs _ _ Hb]. exists tt. split; [done |]. rewrite ensure_pass by lia. simpl.
      rewrite Hs. simpl. apply validate_string_budget_Ok; auto.
  - destruct Hfold as [_ Hfold]; [set_solver |]. split.
    + intros ([] & Hl & H). apply and_then_Ok in H as ([] & _ & H).
      apply and_then_Ok in H as ([] & _ & H). done.
    + intros [_ _ _ Hw Hd _]. assert (false = true) as [=]. apply Hfold. split_and!; [done.. | | ]; set_solver.
Qed.

#[export] Instance admits_Proper : Proper ((≡ₚ) ==> iff) admits.
Proof.
  assert (forall l k : list WindowCandidate.t, l ≡ₚ k -> admits l -> admits k) as Himp.
  { intros l k Hp [Hl Hc Hs Hw [Hnd Hx] Hb]. split; [done | | done | by rewrite <- Hp | split |].
    - unfold len in *. by rewrite <- Hp.
    - by rewrite <- Hp.
    - intros a b. rewrite <- Hp. apply Hx.
    - assert (all_bytes l = all_bytes k) as <-; [| done]. unfold all_bytes. clear -Hp.
      induction Hp; simpl; lia. }
  intros l k Hp. split; apply Himp; [done | by symmetry].
Qed.
End Admission.

(** ** The candidates considered *)
Lemma total_window_key :
  total_cmp (fun x y => compare_window_key (WindowCandidate.window x) (WindowCandidate.window y)).
Proof.
  apply (total_key WindowCandidate.window). unfold compare_window_key.
  apply total_then; [apply (total_key WindowRef.xid), total_N |].
  apply total_then; [apply (total_key WindowRef.observed_generation), total_N |].
  apply (total_key (fun w => hash_str (WindowRef.identity_hash w))), total_string.
Qed.

Lemma compare_window_key_xid x y : compare_window_key x y = Eq -> WindowRef.xid x = WindowRef.xid y.
Proof. unfold compare_window_key. destruct (N.compare_spec (WindowRef.xid x) (WindowRef.xid y)); done. Qed.

Lemma elem_of_live_in_order c candidates :
  c ∈ live_in_order candidates <-> c ∈ candidates /\ WindowCandidate.live c = true.
Proof. unfold live_in_order. rewrite merge_sort_Permutation, list_elem_of_filter. tauto. Qed.

Lemma distinct_window_inj candidates a b :
  distinct candidates -> a ∈ candidates -> b ∈ candidates ->
  WindowCandidate.window a = WindowCandidate.window b -> a = b.
Proof.
  intros [Hnd _] [i Hi]%list_elem_of_lookup [j Hj]%list_elem_of_lookup Heq.
  assert (i = j) as ->; [| congruence].
  apply (NoDup_lookup _ i j (WindowCandidate.window b) Hnd); rewrite list_lookup_fmap.
  - by rewrite Hi, <- Heq.
  - by rewrite Hj.
Qed.

Lemma NoDup_live_in_order candidates : distinct candidates -> NoDup (live_in_order candidates).
Proof.
  intros [Hnd _]. unfold live_in_order. rewrite merge_sort_Permutation.
  apply NoDup_filter. by apply NoDup_fmap_1 in Hnd.
Qed.

Lemma live_in_order_canonical candidates candidates' :
  distinct candidates -> candidates ≡ₚ candidates' ->
  live_in_order candidates = live_in_order candidates'.
Proof.
  intros Hd Hp. unfold live_in_order.
  apply (sort_canonical _ total_window_key _ (fun _ _ => iff_refl _)); [| by rewrite Hp].
  intros a b [Hla Ha]%list_elem_of_filter [Hlb Hb]%list_elem_of_filter Heq%compare_window_key_xid.
  apply (distinct_window_inj candidates); try done. by apply (proj2 Hd).
Qed.

(** ** The choice *)
Section Choose.
Context (subject : CorrelationSubject.t) (ordered : list WindowCandidate.t) (limits : CorrelationLimits.t).
#[local] Abbreviation total := (total_points subject limits).

(** The score of a candidate, with the conflict of the anchors. *)
Definition scored (c : WindowCandidate.t) : CandidateScore.t :=
  (if anchor_conflict subject ordered (map (fun c => score_candidate subject c limits) ordered)
   then CandidateScore.set_conflict else id) (score_candidate subject c limits).

Lemma scored_score c : CandidateScore.score (scored c) = total c.
Proof. unfold scored. rewrite <- score_points. by destruct (anchor_conflict _ _ _). Qed.

Lemma scored_calm c :
  CandidateScore.conflict (scored c) = false -> scored c = score_candidate subject c limits.
Proof. unfold scored. by destruct (anchor_conflict _ _ _). Qed.

Lemma scored_contradicted c g :
  contradicts subject limits c g -> CandidateScore.conflict (scored c) = true.
Proof.
  intros Hg. unfold scored. destruct (anchor_conflict _ _ _); [done |].
  apply score_conflict. by exists g.
Qed.

Lemma scored_evidence c : CandidateScore.evidence (scored c) =
  CandidateScore.evidence (score_candidate subject c limits).
Proof. unfold scored. by destruct (anchor_conflict _ _ _). Qed.

Lemma choose_window_scored :
  choose_window subject ordered limits =
    match max_score (map scored ordered) with
    | None => no_correlation false []
    | Some best =>
        if decide (best <= 0)%Z then no_correlation (existsb CandidateScore.conflict (map scored ordered)) []
        else match filter (fun c => total c = best) ordered with
             | [c] => mkWindowCorrelation (Some (WindowCandidate.window c))
                        (confidence_of subject ordered (scored c))
                        (CandidateScore.evidence (scored c)) (CandidateScore.conflict (scored c))
             | _ => no_correlation true []
             end
    end.
Proof.
  assert ((let scores := map (fun c => score_candidate subject c limits) ordered in
           if anchor_conflict subject ordered scores then map CandidateScore.set_conflict scores else scores)
          = map scored ordered) as Heq.
  { unfold scored. simpl. destruct (anchor_conflict _ _ _); [| done]. by rewrite map_map. }
  unfold choose_window. cbv zeta in Heq. rewrite Heq. clear Heq.
  destruct (max_score _) as [best |]; [| done]. case_decide; [done |].
  assert (forall l, filter (fun entry : WindowCandidate.t * CandidateScore.t =>
             CandidateScore.score entry.2 = best) (zip l (map scored l)) =
           map (fun c => (c, scored c)) (filter (fun c => total c = best) l)) as Hf.
  { induction l as [| c l IH]; [done |]. simpl. rewrite !filter_cons. simpl. rewrite scored_score.
    case_decide; simpl; by rewrite IH. }
  rewrite Hf. destruct (filter _ ordered) as [| c [|]]; done.
Qed.

Lemma max_score_Some best :
  max_score (map scored ordered) = Some best ->
  (forall c, c ∈ ordered -> (total c <= best)%Z) /\ exists c, c ∈ ordered /\ total c = best.
Proof.
  unfold max_score. rewrite map_map.
  assert (forall l acc, (forall c, c ∈ l -> (total c <= fold_left Z.max (map total l) acc)%Z) /\
            (acc <= fold_left Z.max (map total l) acc)%Z /\
            (fold_left Z.max (map total l) acc = acc \/ exists c, c ∈ l /\ total c = fold_left Z.max (map total l) acc))
    as Hfold.
  { induction l as [| c l IH]; intros acc; simpl; [split_and!; [set_solver | lia | by left] |].
    destruct (IH (Z.max acc (total c))) as (Hall & Hacc & Hat). split_and!; [| lia |].
    - intros d [-> | Hd]%elem_of_cons; [lia | by apply Hall].
    - destruct Hat as [-> | (d & Hd & Hdt)]; [| right; exists d; split; [by right | done]].
      destruct (Z.max_spec acc (total c)) as [[_ ->] | [_ ->]]; [right; exists c; split; [left | done] | by left]. }
  replace (map (fun c => CandidateScore.score (scored c)) ordered) with (map total ordered)
    by (apply map_ext; intros c; by rewrite scored_score).
  destruct ordered as [| c l]; [done |]. simpl. intros [= <-].
  destruct (Hfold l (total c)) as (Hall & Hacc & Hat). split.
  - intros d [-> | Hd]%elem_of_cons; [lia | by apply Hall].
  - destruct Hat as [-> | (d & Hd & Hdt)]; [exists c; split; [left | done] | exists d; split; [by right | done]].
Qed.

(** The best candidate: no other has as many points. *)
Definition best (c : WindowCandidate.t) : Prop :=
  c ∈ ordered /\ (0 < total c)%Z /\ forall d, d ∈ ordered -> d <> c -> (total d < total c)%Z.

Lemma choose_best c :
  NoDup ordered -> best c ->
  choose_window subject ordered limits =
    mkWindowCorrelation (Some (WindowCandidate.window c)) (confidence_of subject ordered (scored c))
      (CandidateScore.evidence (scored c)) (CandidateScore.conflict (scored c)).
Proof.
  intros Hnd (Hc & Hpos & Hmax). rewrite choose_window_scored.
  destruct (max_score (map scored ordered)) as [m |] eqn:Hm.
  2:{ unfold max_score in Hm. destruct ordered; [by inversion Hc | done]. }
  apply max_score_Some in Hm as (Hall & d & Hd & Hdm).
  assert (d = c) as ->.
  { destruct (decide (d = c)) as [| Hne]; [done |]. specialize (Hmax d Hd Hne). specialize (Hall c Hc). lia. }
  rewrite decide_False by lia.
  assert (filter (fun c => total c = m) ordered = [c]) as ->; [| done].
  apply Permutation_singleton_r. apply NoDup_Permutation; [by apply NoDup_filter | by apply NoDup_singleton |].
  intros d. rewrite list_elem_of_filter, list_elem_of_singleton. split; [| by intros ->].
  intros [Ht Hin]. destruct (decide (d = c)) as [| Hne]; [done |]. specialize (Hmax d Hin Hne). lia.
Qed.

Lemma choose_only_best w :
  correlated_window (choose_window subject ordered limits) = Some w ->
  exists c, best c /\ WindowCandidate.window c = w.
Proof.
  rewrite choose_window_scored. destruct (max_score _) as [m |] eqn:Hm; [| done].
  apply max_score_Some in Hm as [Hall _]. case_decide as Hpos; [done |].
  destruct (filter _ ordered) as [| c [|]] eqn:Hf; [done | | done]. intros [= <-].
  assert (forall d, d ∈ ordered /\ total d = m <-> d = c) as Hin.
  { intros d. rewrite <- (list_elem_of_singleton d c), <- Hf, list_elem_of_filter. tauto. }
  destruct (proj2 (Hin c) eq_refl) as [Hc Ht].
  exists c. split; [| done]. split_and!; [done | lia |]. intros d Hd Hne. specialize (Hall d Hd).
  destruct (decide (total d = m)) as [Htd | Htd]; [| lia]. destruct Hne. by apply Hin.
Qed.

(** The first claims of a confidence. *)
Lemma confidence_never_none s : confidence_of subject ordered s <> CorrelationNone.
Proof. unfold confidence_of. by repeat case_match. Qed.

Lemma exact_process_only c :
  confidence_of subject ordered (scored c) = ExactProcess -> c ∈ ordered ->
  exists pid, CorrelationSubject.process_id subject = Some pid /\ WindowCandidate.process_id c = Some pid /\
    forall d, d ∈ ordered -> d <> c -> exists other, WindowCandidate.process_id d = Some other /\ other <> pid.
Proof.
  intros Hc Hin. unfold confidence_of in Hc.
  destruct (CandidateScore.conflict (scored c)) eqn:Hconf; [done |]. simpl in Hc.
  destruct (CandidateScore.pid_match (scored c)) eqn:Hpid; [| by repeat case_match].
  rewrite (scored_calm c Hconf) in Hpid. apply score_pid in Hpid as [Hsome Heq].
  destruct (pid_universe_complete subject ordered) eqn:Hu; [| by simpl in Hc; repeat case_match].
  simpl in Hc. case_bool_decide as Hcount; [| by repeat case_match].
  unfold pid_match_count in Hcount.
  destruct (CorrelationSubject.process_id subject) as [pid |] eqn:Hs; [| done].
  exists pid. split_and!; [done | done |]. intros d Hd Hne.
  unfold pid_universe_complete in Hu. apply andb_prop in Hu as [_ Hu].
  rewrite forallb_forall in Hu. specialize (Hu d). rewrite <- list_elem_of_In in Hu.
  specialize (Hu Hd). apply bool_decide_eq_true in Hu.
  destruct (WindowCandidate.process_id d) as [other |] eqn:Ho; [| done].
  exists other. split; [done |]. intros ->.
  unfold len in Hcount. set (f := filter _ ordered) in Hcount.
  assert (c ∈ f /\ d ∈ f) as [Hcf Hdf].
  { unfold f, candidate_pid_matches. rewrite !list_elem_of_filter, !bool_decide_eq_true. by rewrite Ho, <- Heq. }
  destruct f as [| x [|]]; [by inversion Hcf | | simpl in Hcount; lia].
  apply list_elem_of_singleton in Hcf, Hdf. congruence.
Qed.
End Choose.
