(* ===== verification/ElementClick.v ===== *)
(** * Physical clicks on accessible elements

    Models [xenoteer-core/src/accessibility_click.rs]: the admission of a click on an element
    to a pixel of its window, and its revalidation at the head of the queue; with the policies
    of [xenoteer-protocol/src/accessibility_action.rs]. *)

From stdpp Require Import base numbers list option.
From Stdlib Require Import Lia.
From S2P Require Import Prelude Identity Geometry WindowTypes AccessibilityTypes.
From S2P Require Import AccessibilityCorrelation.

Local Open Scope Z_scope.

Definition MAX_ELEMENT_CLICK_OCCLUDERS : nat := 256.

(** [ElementClickPointPolicy]. *)
Inductive ElementClickPointPolicy :=
  | Center
  | InsetCenter (inset_pixels : Z)
  | Offset (offset : Point.t)
  | NearestVisible.

(** [ElementOcclusionPolicy], [OcclusionCheckResult]. *)
Inductive ElementOcclusionPolicy := Ignore | BestEffortReject | RequireUnoccluded.
Inductive OcclusionCheckResult := NotRequested | Clear | OccludedPoint | Inconclusive.
#[export] Instance occlusion_policy_eq_dec : EqDecision ElementOcclusionPolicy.
Proof. solve_decision. Defined.
#[export] Instance point_eq_dec : EqDecision Point.t.
Proof. solve_decision. Defined.

(** [ElementClickPlanError]. *)
Module ClickError.
Inductive t :=
  | InvalidElementReference | InvalidWindowReference | ReferenceScope | UnauthorizedCorrelation
  | InvalidMinimumCorrelation | CorrelationBelowMinimum | WindowBindingChanged | InvalidGeometry
  | NotVisible | InsetExhausted | PointOverflow | PointOutsideVisibleBounds | Occluded
  | OcclusionInconclusive | ElementBirthChanged | RevisionRegression | InvalidReadEpoch
  | ObservationNotFresh | GeometryChanged | InvalidOcclusionEpoch | OcclusionTargetChanged
  | MissingQueueHeadOcclusionSnapshot | OcclusionSnapshotNotFresh.
End ClickError.
#[local] Abbreviation Error := ClickError.t.
Import ClickError.

(** [ElementClickObservation]. *)
Module ClickObservation.
Record t := mk {
  element : ElementRef.t;
  revision : AccessibilityRevision.t;
  read_epoch : N;
  element_extents : Rect.t;
  root_bounds : Rect.t;
  correlated_client_bounds : option Rect.t;
  correlation : ElementWindowCorrelation;
}.
End ClickObservation.

(** [ElementClickOcclusionSnapshot]. *)
Module OcclusionSnapshot.
Record t := mk {
  target_window : WindowRef.t;
  stacking_epoch : N;
  rectangles_above : list Rect.t;
  stacking_complete : bool;
}.
End OcclusionSnapshot.

(** [ElementClickGeometryEvidence]. *)
Module ClickGeometry.
Record t := mk {
  element_extents : Rect.t;
  root_bounds : Rect.t;
  correlated_client_bounds : option Rect.t;
  visible_bounds : Rect.t;
}.
#[export] Instance click_geometry_eq_dec : EqDecision t.
Proof. solve_decision. Defined.
End ClickGeometry.
Export (hints) ClickGeometry.

(** [PhysicalElementClickPlan]. *)
Module ClickPlan.
Record t := mk {
  element : ElementRef.t;
  window : WindowRef.t;
  correlation : WindowCorrelationConfidence;
  minimum_correlation : WindowCorrelationConfidence;
  revision_before_queue : AccessibilityRevision.t;
  read_epoch_before_queue : N;
  explicit_window : option WindowRef.t;
  point_policy : ElementClickPointPolicy;
  occlusion_policy : ElementOcclusionPolicy;
  click_point : Point.t;
  geometry : ClickGeometry.t;
  occlusion_check : OcclusionCheckResult;
  occlusion_epoch_before_queue : option N;
}.
End ClickPlan.

(** [RevalidatedElementClick]. *)
Record RevalidatedElementClick := mkRevalidated {
  revalidated_correlation : WindowCorrelationConfidence;
  revision_after_queue : AccessibilityRevision.t;
  extents_after_queue : Rect.t;
  revalidated_occlusion : OcclusionCheckResult;
}.

(** ** Checks *)
Definition validate_read_epoch (read_epoch : N) : result unit Error :=
  ensure (read_epoch = 0%N) InvalidReadEpoch.

Definition validate_minimum_request (minimum : WindowCorrelationConfidence)
    (explicit_window : option WindowRef.t) : result unit Error :=
  ensure (minimum = CorrelationNone \/ (minimum = Weak /\ explicit_window = None))
    InvalidMinimumCorrelation.

Definition require_minimum_confidence (actual minimum : WindowCorrelationConfidence) : result unit Error :=
  let meets :=
    match minimum with
    | CorrelationNone => false
    | Weak => bool_decide (actual <> CorrelationNone)
    | Strong => match actual with Strong | ExactProcess => true | _ => false end
    | ExactProcess => bool_decide (actual = ExactProcess)
    end in
  ensure (meets = false) CorrelationBelowMinimum.

(** [validate_binding]; the check of a window of the binding, twice in the source. *)
Definition validate_bound_window (window : WindowRef.t) (element : ElementRef.t) : result unit Error :=
  try! map_err (fun _ => InvalidWindowReference) (WindowRef.validate_shape window) in
  ensure (WindowRef.desktop_id window <> ElementRef.desktop_id element \/
          WindowRef.desktop_generation window <> ElementRef.desktop_generation element) ReferenceScope.

Definition validate_binding (observation : ClickObservation.t) (explicit_window : option WindowRef.t) :
    result WindowRef.t Error :=
  let element := ClickObservation.element observation in
  let correlation := ClickObservation.correlation observation in
  try! map_err (fun _ => InvalidElementReference) (ElementRef.validate element) in
  try! ensure (correlation_authorizes_physical_effect correlation = false) UnauthorizedCorrelation in
  let? window := ok_or (correlated_window correlation) UnauthorizedCorrelation in
  try! validate_bound_window window element in
  try! match explicit_window with
       | Some explicit =>
           try! validate_bound_window explicit element in
           ensure (explicit <> window) WindowBindingChanged
       | None => Ok tt
       end in
  Ok window.

(** [validate_rect], [edges], [intersect]. *)
Definition validate_click_rect (rect : Rect.t) : result unit Error :=
  map_err (fun _ => InvalidGeometry) (Rect.validate rect).

(** [i64::checked_add]. *)
Definition i64_checked_add (a b : Z) : option Z :=
  if decide (- 2 ^ 63 <= a + b <= 2 ^ 63 - 1) then Some (a + b) else None.

Definition edges (rect : Rect.t) : result (Z * Z * Z * Z) Error :=
  try! validate_click_rect rect in
  let? size := map_err (fun _ => InvalidGeometry) (Rect.size rect) in
  let x1 := Point.x (Rect.origin rect) in
  let y1 := Point.y (Rect.origin rect) in
  let? x2 := ok_or (i64_checked_add x1 (Size.width size)) InvalidGeometry in
  let? y2 := ok_or (i64_checked_add y1 (Size.height size)) InvalidGeometry in
  Ok (x1, y1, x2, y2).

Definition click_intersect (l r : Rect.t) : result (option Rect.t) Error :=
  let? l := edges l in
  let? r := edges r in
  let '(left_x1, left_y1, left_x2, left_y2) := l in
  let '(right_x1, right_y1, right_x2, right_y2) := r in
  let x1 := Z.max left_x1 right_x1 in
  let y1 := Z.max left_y1 right_y1 in
  let x2 := Z.min left_x2 right_x2 in
  let y2 := Z.min left_y2 right_y2 in
  if decide (x2 <= x1 \/ y2 <= y1) then Ok None
  else
    let? x := ok_or (i32_try_from x1) InvalidGeometry in
    let? y := ok_or (i32_try_from y1) InvalidGeometry in
    let? width := ok_or (u32_try_from (x2 - x1)) InvalidGeometry in
    let? height := ok_or (u32_try_from (y2 - y1)) InvalidGeometry in
    let? rect := map_err (fun _ => InvalidGeometry) (Rect.new x y width height) in
    Ok (Some rect).

(** [derive_geometry]. *)
Definition derive_geometry (observation : ClickObservation.t) : result ClickGeometry.t Error :=
  let extents := ClickObservation.element_extents observation in
  let root := ClickObservation.root_bounds observation in
  let client := ClickObservation.correlated_client_bounds observation in
  try! validate_click_rect extents in
  try! validate_click_rect root in
  try! match client with Some client => validate_click_rect client | None => Ok tt end in
  let? visible := click_intersect extents root in
  let? visible := ok_or visible NotVisible in
  let? visible :=
    match client with
    | Some client => let? clipped := click_intersect visible client in ok_or clipped NotVisible
    | None => Ok visible
    end in
  Ok (ClickGeometry.mk extents root client visible).

(** [centered_pixel]: the division of [i64] truncates. *)
Definition centered_pixel (x1 y1 x2 y2 : Z) : Z * Z :=
  (x1 + Z.quot (x2 - x1 - 1) 2, y1 + Z.quot (y2 - y1 - 1) 2).

(** [Ord::clamp]. *)
Definition z_clamp (value low high : Z) : Z :=
  if decide (value < low) then low else if decide (high < value) then high else value.

(** [select_point]. *)
Definition select_point (policy : ElementClickPointPolicy) (element_extents visible_bounds : Rect.t) :
    result Point.t Error :=
  let? visible := edges visible_bounds in
  let? element := edges element_extents in
  let '(visible_x1, visible_y1, visible_x2, visible_y2) := visible in
  let '(element_x1, element_y1, element_x2, element_y2) := element in
  let? point :=
    match policy with
    | Center => Ok (centered_pixel visible_x1 visible_y1 visible_x2 visible_y2)
    | InsetCenter inset =>
        let x1 := visible_x1 + inset in
        let y1 := visible_y1 + inset in
        let x2 := visible_x2 - inset in
        let y2 := visible_y2 - inset in
        try! ensure (x2 <= x1 \/ y2 <= y1) InsetExhausted in
        Ok (centered_pixel x1 y1 x2 y2)
    | Offset offset =>
        let? x := ok_or (i64_checked_add element_x1 (Point.x offset)) PointOverflow in
        let? y := ok_or (i64_checked_add element_y1 (Point.y offset)) PointOverflow in
        try! ensure (~ i32 x \/ ~ i32 y) PointOverflow in
        Ok (x, y)
    | NearestVisible =>
        let '(center_x, center_y) := centered_pixel element_x1 element_y1 element_x2 element_y2 in
        Ok (z_clamp center_x visible_x1 (visible_x2 - 1), z_clamp center_y visible_y1 (visible_y2 - 1))
    end in
  let '(x, y) := point in
  try! ensure (x < visible_x1 \/ visible_x2 <= x \/ y < visible_y1 \/ visible_y2 <= y)
         PointOutsideVisibleBounds in
  let? x := ok_or (i32_try_from x) PointOverflow in
  let? y := ok_or (i32_try_from y) PointOverflow in
  Ok (Point.mk x y).

(** [contains]: the sums are of [i64]s and cannot overflow. *)
Definition rect_contains (rect : Rect.t) (point : Point.t) : bool :=
  match Rect.size rect with
  | Err _ => false
  | Ok size =>
      bool_decide (Rect.x rect <= Point.x point /\ Point.x point < Rect.x rect + Size.width size /\
                   Rect.y rect <= Point.y point /\ Point.y point < Rect.y rect + Size.height size)
  end.

(** [evaluate_occlusion]. *)
Definition occlusion_of (snapshot : OcclusionSnapshot.t) (point : Point.t) : result OcclusionCheckResult Error :=
  let rectangles := OcclusionSnapshot.rectangles_above snapshot in
  let examined := take MAX_ELEMENT_CLICK_OCCLUDERS rectangles in
  try! try_each validate_click_rect examined in
  Ok (if existsb (fun rectangle => rect_contains rectangle point) examined then OccludedPoint
      else if decide (MAX_ELEMENT_CLICK_OCCLUDERS < length rectangles)%nat then Inconclusive
      else if OcclusionSnapshot.stacking_complete snapshot then Clear
      else Inconclusive).

Definition evaluate_occlusion (point : Point.t) (policy : ElementOcclusionPolicy)
    (snapshot : option OcclusionSnapshot.t) (expected_window : WindowRef.t)
    (epoch_before_queue : option N) (require_snapshot : bool) : result OcclusionCheckResult Error :=
  if decide (policy = Ignore) then Ok NotRequested
  else
    let? result :=
      match snapshot with
      | None =>
          try! ensure (require_snapshot = true) MissingQueueHeadOcclusionSnapshot in
          Ok Inconclusive
      | Some snapshot =>
          try! ensure (OcclusionSnapshot.target_window snapshot <> expected_window) OcclusionTargetChanged in
          try! ensure (OcclusionSnapshot.stacking_epoch snapshot = 0%N) InvalidOcclusionEpoch in
          try! ensure (option_exists (fun before =>
                         bool_decide (OcclusionSnapshot.stacking_epoch snapshot <= before)%N)
                         epoch_before_queue = true) OcclusionSnapshotNotFresh in
          occlusion_of snapshot point
      end in
    match policy, result with
    | _, OccludedPoint => Err Occluded
    | RequireUnoccluded, Inconclusive => Err OcclusionInconclusive
    | _, result => Ok result
    end.

(** [plan_physical_element_click]. *)
Definition plan_physical_element_click (observation : ClickObservation.t) (explicit_window : option WindowRef.t)
    (minimum_correlation : WindowCorrelationConfidence) (point_policy : ElementClickPointPolicy)
    (occlusion_policy : ElementOcclusionPolicy) (occlusion : option OcclusionSnapshot.t) :
    result ClickPlan.t Error :=
  let confidence := correlation_confidence (ClickObservation.correlation observation) in
  try! validate_read_epoch (ClickObservation.read_epoch observation) in
  try! validate_minimum_request minimum_correlation explicit_window in
  let? window := validate_binding observation explicit_window in
  try! require_minimum_confidence confidence minimum_correlation in
  let? geometry := derive_geometry observation in
  let? click_point := select_point point_policy (ClickObservation.element_extents observation)
                        (ClickGeometry.visible_bounds geometry) in
  let? occlusion_check := evaluate_occlusion click_point occlusion_policy occlusion window None false in
  Ok (ClickPlan.mk (ClickObservation.element observation) window confidence minimum_correlation
        (ClickObservation.revision observation) (ClickObservation.read_epoch observation) explicit_window
        point_policy occlusion_policy click_point geometry occlusion_check
        (OcclusionSnapshot.stacking_epoch <$> occlusion)).

(** [revalidate_physical_element_click]. *)
Definition revalidate_physical_element_click (plan : ClickPlan.t) (observation : ClickObservation.t)
    (occlusion : option OcclusionSnapshot.t) : result RevalidatedElementClick Error :=
  let confidence := correlation_confidence (ClickObservation.correlation observation) in
  try! validate_read_epoch (ClickObservation.read_epoch observation) in
  try! ensure (ClickObservation.element observation <> ClickPlan.element plan) ElementBirthChanged in
  try! ensure (AccessibilityRevision.get (ClickObservation.revision observation) <
               AccessibilityRevision.get (ClickPlan.revision_before_queue plan))%N RevisionRegression in
  try! ensure (ClickObservation.read_epoch observation <= ClickPlan.read_epoch_before_queue plan)%N
         ObservationNotFresh in
  let? window := validate_binding observation (ClickPlan.explicit_window plan) in
  try! ensure (window <> ClickPlan.window plan) WindowBindingChanged in
  try! require_minimum_confidence confidence (ClickPlan.minimum_correlation plan) in
  let? geometry := derive_geometry observation in
  try! ensure (geometry <> ClickPlan.geometry plan) GeometryChanged in
  let? click_point := select_point (ClickPlan.point_policy plan) (ClickObservation.element_extents observation)
                        (ClickGeometry.visible_bounds geometry) in
  try! ensure (click_point <> ClickPlan.click_point plan) GeometryChanged in
  let? occlusion_check :=
    evaluate_occlusion click_point (ClickPlan.occlusion_policy plan) occlusion (ClickPlan.window plan)
      (ClickPlan.occlusion_epoch_before_queue plan)
      (negb (bool_decide (ClickPlan.occlusion_policy plan = Ignore))) in
  Ok (mkRevalidated confidence (ClickObservation.revision observation)
        (ClickObservation.element_extents observation) occlusion_check).
