(* ===== verification/ClickGuarantees.v ===== *)
(** * What correlations and clicks guarantee

    The theorems on the correlation of elements with windows and on physical clicks, and
    their instances on a concrete desktop. *)

From stdpp Require Import base numbers list option sorting gmap strings.
From Stdlib Require Import Lia Ascii.
From S2P Require Import Prelude Identity Geometry WindowTypes AccessibilityTypes AccessibilityCorrelation CorrelationFacts ElementClick.

Local Open Scope Z_scope.

(** ** Pixels *)

(** The fields are of their types, and the rectangle is valid; its pixels. *)
Definition rect_typed (r : Rect.t) : Prop :=
  i32 (Rect.x r) /\ i32 (Rect.y r) /\ u32 (Rect.width r) /\ u32 (Rect.height r).
Definition valid_rect (r : Rect.t) : Prop := rect_typed r /\ Rect.validate r = Ok tt.
Definition covers (r : Rect.t) (p : Point.t) : Prop :=
  Rect.x r <= Point.x p < Rect.x r + Rect.width r /\ Rect.y r <= Point.y p < Rect.y r + Rect.height r.

Lemma validate_rect_Ok r :
  rect_typed r ->
  Rect.validate r = Ok tt <->
  0 < Rect.width r /\ 0 < Rect.height r /\
  Rect.x r + Rect.width r - 1 <= 2 ^ 31 - 1 /\ Rect.y r + Rect.height r - 1 <= 2 ^ 31 - 1.
Proof.
  intros (_ & _ & [Hw _] & [Hh _]). unfold Rect.validate, Size.new, Size.validate. simpl.
  case_decide; simpl; [split; [done | lia] |]. case_decide; split; (done || lia).
Qed.

Lemma size_Ok r : 0 < Rect.width r -> 0 < Rect.height r -> Rect.size r = Ok (Size.mk (Rect.width r) (Rect.height r)).
Proof. intros. unfold Rect.size, Size.new, Size.validate. simpl. by rewrite decide_False by lia. Qed.

Lemma edges_Ok r :
  valid_rect r ->
  edges r = Ok (Rect.x r, Rect.y r, Rect.x r + Rect.width r, Rect.y r + Rect.height r).
Proof.
  intros [Ht Hv]. unfold edges, validate_click_rect. rewrite Hv. simpl.
  apply validate_rect_Ok in Hv; [| done]. destruct Ht as ([? ?] & [? ?] & _).
  rewrite size_Ok by lia. simpl. unfold i64_checked_add. rewrite !decide_True by lia. done.
Qed.

Lemma rect_contains_covers r p : 0 < Rect.width r -> 0 < Rect.height r -> rect_contains r p = true <-> covers r p.
Proof. intros. unfold rect_contains, covers. rewrite size_Ok by done. simpl. rewrite bool_decide_eq_true. lia. Qed.

(** The intersection of two rectangles has their common pixels. *)
Lemma click_intersect_spec l r :
  valid_rect l -> valid_rect r ->
  exists v, click_intersect l r = Ok v /\
  match v with
  | Some v => valid_rect v /\ forall p, covers v p <-> covers l p /\ covers r p
  | None => forall p, ~ (covers l p /\ covers r p)
  end.
Proof.
  intros Hl Hr. unfold click_intersect. rewrite (edges_Ok l Hl), (edges_Ok r Hr). cbn [and_then].
  destruct Hl as [Htl Hl], Hr as [Htr Hr]. apply validate_rect_Ok in Hl, Hr; [| done..].
  destruct Htl as ([? ?] & [? ?] & [? ?] & [? ?]), Htr as ([? ?] & [? ?] & [? ?] & [? ?]).
  case_decide as Hd.
  { exists None. split; [done |]. intros p. unfold covers. lia. }
  rewrite !i32_try_from_in, !u32_try_from_in by (unfold i32, u32; lia).
  cbn [and_then ok_or]. unfold Rect.new.
  match goal with |- context [Rect.validate ?rect] => set (v := rect) end.
  assert (rect_typed v) as Ht by (unfold rect_typed, i32, u32, v; simpl; lia).
  assert (Rect.validate v = Ok tt) as Hv by (apply validate_rect_Ok; [done | unfold v; simpl; lia]).
  rewrite Hv. simpl. exists (Some v). split; [done |]. split; [done |].
  intros p. unfold covers, v. simpl. lia.
Qed.

Lemma validate_click_rect_Ok r : validate_click_rect r = Ok tt <-> Rect.validate r = Ok tt.
Proof. unfold validate_click_rect. apply map_err_Ok. Qed.

(** ** The visible part of an element *)
Section Visible.
Context (observation : ClickObservation.t).
#[local] Abbreviation extents := (ClickObservation.element_extents observation).
#[local] Abbreviation root := (ClickObservation.root_bounds observation).
#[local] Abbreviation client := (ClickObservation.correlated_client_bounds observation).

Definition observation_typed : Prop :=
  rect_typed extents /\ rect_typed root /\ forall r, client = Some r -> rect_typed r.

(** A pixel of the element, within the root and the client. *)
Definition visible_pixel (p : Point.t) : Prop :=
  covers extents p /\ covers root p /\ forall r, client = Some r -> covers r p.

Definition rects_valid : Prop :=
  Rect.validate extents = Ok tt /\ Rect.validate root = Ok tt /\
  forall r, client = Some r -> Rect.validate r = Ok tt.

Lemma derive_geometry_spec :
  observation_typed ->
  match derive_geometry observation with
  | Ok g =>
      rects_valid /\ g = ClickGeometry.mk extents root client (ClickGeometry.visible_bounds g) /\
      valid_rect (ClickGeometry.visible_bounds g) /\
      forall p, covers (ClickGeometry.visible_bounds g) p <-> visible_pixel p
  | Err e => (e = ClickError.InvalidGeometry /\ ~ rects_valid) \/
             (e = ClickError.NotVisible /\ rects_valid /\ forall p, ~ visible_pixel p)
  end.
Proof.
  intros (Hte & Htr & Htc). unfold derive_geometry, rects_valid, visible_pixel.
  destruct (Rect.validate extents) as [[] |] eqn:He; unfold validate_click_rect; rewrite He; simpl.
  2:{ left. split; [done |]. by intros [? _]. }
  destruct (Rect.validate root) as [[] |] eqn:Hr; rewrite ?Hr; simpl.
  2:{ left. split; [done |]. by intros (_ & ? & _). }
  destruct (click_intersect_spec extents root) as (v & Hv & Hspec); [done.. |].
  destruct client as [r |] eqn:Hc; simpl.
  - destruct (Rect.validate r) as [[] |] eqn:Hcr; simpl.
    2:{ left. split; [done |]. intros (_ & _ & H). specialize (H r eq_refl). congruence. }
    rewrite Hv. simpl. destruct v as [v |]; simpl.
    2:{ right. split_and!; [done.. | by intros ? [= <-] |]. intros p (? & ? & _). by apply (Hspec p). }
    destruct Hspec as [Hvv Hspec].
    destruct (click_intersect_spec v r) as (u & Hu & Huspec); [done | split; [by apply Htc | done] |].
    rewrite Hu. simpl. destruct u as [u |]; simpl.
    + destruct Huspec as [Huv Huspec]. split_and!; [done.. | by intros ? [= <-] | done | done |].
      intros p. rewrite Huspec, Hspec. naive_solver.
    + right. split_and!; [done.. | by intros ? [= <-] |]. intros p (? & ? & H).
      apply (Huspec p). rewrite Hspec. auto.
  - rewrite Hv. simpl. destruct v as [v |]; simpl.
    + destruct Hspec as [Hvv Hspec]. split_and!; [done.. | done | done | done |].
      intros p. rewrite Hspec. naive_solver.
    + right. split_and!; [done.. |]. intros p (? & ? & _). by apply (Hspec p).
Qed.
End Visible.

(** ** The pixel of a policy *)

(** The upper left of the middle pixels. *)
Definition middle (r : Rect.t) : Point.t :=
  Point.mk (Rect.x r + (Rect.width r - 1) / 2) (Rect.y r + (Rect.height r - 1) / 2).

Definition policy_typed (policy : ElementClickPointPolicy) : Prop :=
  match policy with
  | InsetCenter inset => 0 <= inset < 2 ^ 16
  | Offset offset => i32 (Point.x offset) /\ i32 (Point.y offset)
  | _ => True
  end.

(** No other visible pixel is nearer to the target, on either axis. *)
Definition nearest (target p : Point.t) (visible : Rect.t) : Prop :=
  covers visible p /\
  forall q, covers visible q ->
    Z.abs (Point.x p - Point.x target) <= Z.abs (Point.x q - Point.x target) /\
    Z.abs (Point.y p - Point.y target) <= Z.abs (Point.y q - Point.y target).

Definition shifted (origin offset : Point.t) : Point.t :=
  Point.mk (Point.x origin + Point.x offset) (Point.y origin + Point.y offset).

(** What [select_point] answers, by the policy. *)
Definition selected (policy : ElementClickPointPolicy) (extents visible : Rect.t)
    (answer : result Point.t ClickError.t) : Prop :=
  match policy with
  | Center => answer = Ok (middle visible)
  | InsetCenter inset =>
      answer = if decide (2 * inset < Rect.width visible /\ 2 * inset < Rect.height visible)
               then Ok (middle visible) else Err ClickError.InsetExhausted
  | Offset offset =>
      let p := shifted (Rect.origin extents) offset in
      (covers visible p /\ answer = Ok p) \/
      (~ covers visible p /\
       answer = Err (if decide (i32 (Point.x p) /\ i32 (Point.y p))
                     then ClickError.PointOutsideVisibleBounds else ClickError.PointOverflow))
  | NearestVisible => exists p, answer = Ok p /\ nearest (middle extents) p visible
  end.

Lemma middle_covered r : valid_rect r -> covers r (middle r).
Proof.
  intros [Ht Hv]. apply validate_rect_Ok in Hv; [| done]. unfold covers, middle. simpl.
  pose proof (Z.div_pos (Rect.width r - 1) 2). pose proof (Z.div_pos (Rect.height r - 1) 2).
  pose proof (Z.div_le_upper_bound (Rect.width r - 1) 2 (Rect.width r - 1)).
  pose proof (Z.div_le_upper_bound (Rect.height r - 1) 2 (Rect.height r - 1)). lia.
Qed.

Lemma covered_typed r p : valid_rect r -> covers r p -> i32 (Point.x p) /\ i32 (Point.y p).
Proof.
  intros [Ht Hv]. apply validate_rect_Ok in Hv; [| done].
  destruct Ht as ([? ?] & [? ?] & _). unfold covers, i32. lia.
Qed.

Lemma z_clamp_between value low high : low <= high -> low <= z_clamp value low high <= high.
Proof. intros. unfold z_clamp. repeat case_decide; lia. Qed.

Lemma z_clamp_nearest value low high other :
  low <= other <= high -> Z.abs (z_clamp value low high - value) <= Z.abs (other - value).
Proof. intros. unfold z_clamp. repeat case_decide; lia. Qed.

(** The end of [select_point], for a pixel that was chosen. *)
Lemma admit_pixel r x y :
  valid_rect r ->
  (try! ensure (x < Rect.x r \/ Rect.x r + Rect.width r <= x \/ y < Rect.y r \/ Rect.y r + Rect.height r <= y)
          ClickError.PointOutsideVisibleBounds in
   let? x := ok_or (i32_try_from x) ClickError.PointOverflow in
   let? y := ok_or (i32_try_from y) ClickError.PointOverflow in
   Ok (Point.mk x y)) =
  if decide (covers r (Point.mk x y)) then Ok (Point.mk x y) else Err ClickError.PointOutsideVisibleBounds.
Proof.
  intros Hr. case_decide as Hc.
  - rewrite ensure_pass by (unfold covers in Hc; simpl in Hc; lia). cbn [and_then].
    destruct (covered_typed r _ Hr Hc) as [Hx Hy]. simpl in Hx, Hy.
    by rewrite !i32_try_from_in by done.
  - rewrite ensure_reject by (unfold covers in Hc; simpl in Hc; lia). done.
Qed.

Lemma select_point_spec policy extents visible :
  policy_typed policy -> valid_rect extents -> valid_rect visible ->
  selected policy extents visible (select_point policy extents visible).
Proof.
  intros Hp He Hv. unfold select_point. rewrite (edges_Ok _ Hv), (edges_Ok _ He). cbn [and_then].
  assert (0 < Rect.width visible /\ 0 < Rect.height visible /\ 0 < Rect.width extents /\ 0 < Rect.height extents)
    as (Hvw & Hvh & Hew & Heh).
  { destruct Hv as [Ht Hv], He as [Ht' He]. apply validate_rect_Ok in Hv, He; [| done..]. lia. }
  assert (forall x1 y1 w h, 0 < w -> 0 < h ->
            centered_pixel x1 y1 (x1 + w) (y1 + h) = (x1 + (w - 1) / 2, y1 + (h - 1) / 2)) as Hmid.
  { intros. unfold centered_pixel. rewrite !Z.quot_div_nonneg by lia. f_equal; do 2 f_equal; lia. }
  destruct policy as [| inset | offset |]; cbn [selected policy_typed and_then] in Hp |- *.
  - rewrite Hmid by done. cbn [and_then]. rewrite admit_pixel by done.
    apply decide_True. by apply middle_covered.
  - case_decide as Hin.
    + rewrite ensure_pass by lia. cbn [and_then].
      replace (Rect.x visible + Rect.width visible - inset)
        with (Rect.x visible + inset + (Rect.width visible - 2 * inset)) by lia.
      replace (Rect.y visible + Rect.height visible - inset)
        with (Rect.y visible + inset + (Rect.height visible - 2 * inset)) by lia.
      rewrite Hmid by lia. cbn [and_then]. rewrite admit_pixel by done.
      replace (Rect.width visible - 2 * inset - 1) with (Rect.width visible - 1 + (- inset) * 2) by lia.
      replace (Rect.height visible - 2 * inset - 1) with (Rect.height visible - 1 + (- inset) * 2) by lia.
      rewrite !Z.div_add by done.
      replace (Point.mk _ _) with (middle visible) by (unfold middle; f_equal; lia).
      apply decide_True. by apply middle_covered.
    + by rewrite ensure_reject by lia.
  - destruct He as [([? ?] & [? ?] & _) _], Hp as [[? ?] [? ?]].
    unfold i64_checked_add. rewrite !decide_True by lia. cbn [ok_or and_then].
    set (p := shifted _ _).
    change (Rect.x extents + Point.x offset) with (Point.x p).
    change (Rect.y extents + Point.y offset) with (Point.y p).
    destruct (decide (i32 (Point.x p) /\ i32 (Point.y p))) as [Ht | Ht].
    + rewrite ensure_pass by tauto. cbn [and_then]. rewrite admit_pixel by done.
      change (Point.mk (Point.x p) (Point.y p)) with p. case_decide; auto.
    + rewrite ensure_reject by (destruct (decide (i32 (Point.x p))); tauto). right. split; [| done].
      intros Hc. apply Ht. by apply (covered_typed visible).
  - rewrite Hmid by done. cbn [and_then]. rewrite admit_pixel by done.
    match goal with |- context [Point.mk ?x ?y] => set (p := Point.mk x y) end.
    assert (covers visible p) as Hc.
    { unfold covers, p. simpl.
      pose proof (z_clamp_between (Rect.x extents + (Rect.width extents - 1) / 2) (Rect.x visible)
                    (Rect.x visible + Rect.width visible - 1)).
      pose proof (z_clamp_between (Rect.y extents + (Rect.height extents - 1) / 2) (Rect.y visible)
                    (Rect.y visible + Rect.height visible - 1)). lia. }
    exists p. rewrite decide_True by done. split; [done |]. split; [done |].
    intros q Hq. unfold covers in Hq. unfold p, middle. simpl.
    split; apply z_clamp_nearest; lia.
Qed.

(** ** The correlation *)
Section Correlation.
Context (subject : CorrelationSubject.t) (now : MonotonicMillis.t) (limits : CorrelationLimits.t).
#[local] Abbreviation total := (total_points subject limits).

(** A live candidate with more points than any other. *)
Definition leading (candidates : list WindowCandidate.t) (c : WindowCandidate.t) : Prop :=
  c ∈ candidates /\ WindowCandidate.live c = true /\ 0 < total c /\
  forall d, d ∈ candidates -> WindowCandidate.live d = true -> d <> c -> total d < total c.

(** The window that the caller names, if any, is live. *)
Definition reference_available (candidates : list WindowCandidate.t) : Prop :=
  forall explicit, CorrelationSubject.explicit_window subject = Some explicit ->
    exists c, c ∈ candidates /\ WindowCandidate.live c = true /\ WindowCandidate.window c = explicit.

Lemma leading_best candidates c :
  leading candidates c <-> best subject (live_in_order candidates) limits c.
Proof.
  unfold leading, best. rewrite elem_of_live_in_order. setoid_rewrite elem_of_live_in_order. naive_solver.
Qed.

(** The two ways in which the correlation answers. *)
Lemma correlate_cases candidates r :
  correlate_accessibility_window subject candidates now limits = Ok r ->
  admits subject now limits candidates /\
  ((reference_available candidates /\ r = choose_window subject (live_in_order candidates) limits) \/
   (correlated_window r = None /\ correlation_confidence r = CorrelationNone /\
    (~ reference_available candidates \/ live_in_order candidates = []))).
Proof.
  unfold correlate_accessibility_window. intros ([] & Hv%validate_inputs_Ok & [= <-])%and_then_Ok.
  split; [done |]. unfold reference_available. case_decide as Hempty; [by right; auto |].
  destruct (CorrelationSubject.explicit_window subject) as [explicit |]; [| by left].
  assert (explicit ∈ map WindowCandidate.window (live_in_order candidates) <->
          exists c, c ∈ candidates /\ WindowCandidate.live c = true /\ WindowCandidate.window c = explicit) as Hin.
  { rewrite list_elem_of_fmap. setoid_rewrite elem_of_live_in_order. naive_solver. }
  case_decide as He.
  - left. split; [| done]. intros ? [= <-]. by apply Hin.
  - right. split_and!; [done.. |]. left. intros H. by apply He, Hin, H.
Qed.

Lemma correlate_window candidates r w :
  correlate_accessibility_window subject candidates now limits = Ok r ->
  correlated_window r = Some w <->
  reference_available candidates /\ exists c, leading candidates c /\ WindowCandidate.window c = w.
Proof.
  intros Hr. destruct (correlate_cases _ _ Hr) as [Hadm [[Havail ->] | (Hnone & _ & Hwhy)]].
  - split.
    + intros (c & Hc & Hw)%choose_only_best. split; [done |]. exists c. by rewrite leading_best.
    + intros (_ & c & Hc%leading_best & <-).
      rewrite (choose_best _ _ _ c); [done | | done]. by apply NoDup_live_in_order, (admits_distinct _ _ _ _ Hadm).
  - rewrite Hnone. split; [done |]. intros (Havail & c & Hc%leading_best & _).
    destruct Hwhy as [Hwhy | Hwhy]; [done |]. destruct Hc as [Hc _]. rewrite Hwhy in Hc. by inversion Hc.
Qed.

Lemma correlate_confidence candidates r :
  correlate_accessibility_window subject candidates now limits = Ok r ->
  correlated_window r = None <-> correlation_confidence r = CorrelationNone.
Proof.
  intros Hr. destruct (correlate_cases _ _ Hr) as [_ [[_ ->] | (-> & -> & _)]]; [| done].
  rewrite choose_window_scored. repeat case_match; simpl; try done.
  split; [done |]. by intros ?%confidence_never_none.
Qed.

(** The candidate behind a correlation. *)
Lemma correlate_winner candidates r w :
  correlate_accessibility_window subject candidates now limits = Ok r ->
  correlated_window r = Some w ->
  exists c, leading candidates c /\ WindowCandidate.window c = w /\ well_formed subject now limits c /\
    r = mkWindowCorrelation (Some w)
          (confidence_of subject (live_in_order candidates) (scored subject (live_in_order candidates) limits c))
          (CandidateScore.evidence (scored subject (live_in_order candidates) limits c))
          (CandidateScore.conflict (scored subject (live_in_order candidates) limits c)).
Proof.
  intros Hr Hw. destruct (correlate_cases _ _ Hr) as [Hadm [[_ ->] | (Hnone & _)]]; [| congruence].
  apply choose_only_best in Hw as (c & Hc & <-). exists c. split_and!; [by apply leading_best | done | |].
  - pose proof (proj1 Hc) as Hin. apply elem_of_live_in_order in Hin as [Hin _].
    by apply (proj1 (Forall_forall _ _) (admits_candidates _ _ _ _ Hadm)).
  - apply choose_best; [| done]. by apply NoDup_live_in_order, (admits_distinct _ _ _ _ Hadm).
Qed.

Lemma well_formed_fresh c :
  well_formed subject now limits c -> WindowCandidate.live c = true ->
  WindowRef.desktop_id (WindowCandidate.window c) = ApplicationRef.desktop_id (CorrelationSubject.application subject) /\
  WindowRef.desktop_generation (WindowCandidate.window c) =
    ApplicationRef.desktop_generation (CorrelationSubject.application subject) /\
  (WindowCandidate.observed_at c <= now)%N /\
  (now - WindowCandidate.observed_at c <= CorrelationLimits.max_observation_age_ms limits)%N.
Proof.
  intros [Hw He] Hlive. unfold validate_candidate_window in Hw.
  apply and_then_Ok in Hw as ([] & _ & Hw%ensure_Ok).
  unfold validate_candidate_evidence in He.
  apply and_then_Ok in He as ([] & _ & He). apply and_then_Ok in He as ([] & _ & He).
  apply and_then_Ok in He as ([] & Ht & _). rewrite Hlive in Ht. unfold validate_time_set in Ht.
  apply and_then_Ok in Ht as ([] & Hle%ensure_Ok & Hage%ensure_Ok).
  unfold too_old, MonotonicMillis.elapsed_since, checked_sub_u64 in Hage.
  split_and!; [by apply dec_stable; tauto.. | lia |].
  rewrite decide_True in Hage by lia. apply Decidable.not_and in Hage; [| by left].
  destruct Hage as [| Hage]; [done |]. apply not_true_is_false, bool_decide_eq_false in Hage. lia.
Qed.

(** What it takes for a correlation to gate an effect. *)
Record trustworthy (candidates : list WindowCandidate.t) (w : WindowRef.t) (c : WindowCandidate.t) : Prop := {
  trustworthy_leading : leading candidates c;
  trustworthy_window : WindowCandidate.window c = w;
  trustworthy_explicit explicit : CorrelationSubject.explicit_window subject = Some explicit -> explicit = w;
  trustworthy_generation :
    WindowRef.desktop_generation w = ApplicationRef.desktop_generation (CorrelationSubject.application subject);
  trustworthy_fresh :
    (WindowCandidate.observed_at c <= now /\
     now - WindowCandidate.observed_at c <= CorrelationLimits.max_observation_age_ms limits)%N;
  trustworthy_uncontradicted g : ~ contradicts subject limits c g;
  trustworthy_corroborated : exists g, is_independent g = true /\ agrees subject limits c g;
}.

Lemma authorized_trustworthy candidates r :
  correlate_accessibility_window subject candidates now limits = Ok r ->
  correlation_authorizes_physical_effect r = true ->
  exists w c, correlated_window r = Some w /\ trustworthy candidates w c.
Proof.
  intros Hr Ha. unfold correlation_authorizes_physical_effect in Ha.
  rewrite !andb_true_iff, bool_decide_eq_true, negb_true_iff in Ha. destruct Ha as [[[Hw Hcalm] Hev] _].
  destruct (correlated_window r) as [w |] eqn:Hrw; [| done]. exists w.
  destruct (correlate_winner _ _ _ Hr Hrw) as (c & Hlead & <- & Hwf & Heq).
  rewrite Heq in Hcalm, Hev. simpl in Hcalm, Hev.
  assert (forall g, ~ contradicts subject limits c g) as Hno.
  { intros g Hg%(scored_contradicted subject (live_in_order candidates) limits c). congruence. }
  destruct (well_formed_fresh c Hwf) as (_ & Hgen & Hpast & Hage); [apply Hlead |].
  exists c. split; [done |]. split; [done | done | | done | done | done |].
  - intros explicit He. destruct (decide (explicit = WindowCandidate.window c)) as [| Hne]; [done |].
    destruct (Hno ExplicitCallerReference). simpl. rewrite He. split; [done | congruence].
  - apply existsb_exists in Hev as (e & Hin & [Hm Hi]%andb_prop).
    exists (signal e). split; [done |]. apply score_evidence. exists e.
    rewrite <- (scored_evidence subject (live_in_order candidates)). by rewrite list_elem_of_In.
Qed.
End Correlation.

(** ** Occlusion *)

(** What the policy asks of the stacking evidence. *)
Definition unoccluded (policy : ElementOcclusionPolicy) (snapshot : option OcclusionSnapshot.t)
    (window : WindowRef.t) (p : Point.t) : Prop :=
  match policy with
  | Ignore => True
  | BestEffortReject =>
      forall s, snapshot = Some s -> OcclusionSnapshot.target_window s = window /\
        forall r, r ∈ take MAX_ELEMENT_CLICK_OCCLUDERS (OcclusionSnapshot.rectangles_above s) -> ~ covers r p
  | RequireUnoccluded =>
      exists s, snapshot = Some s /\ OcclusionSnapshot.target_window s = window /\
        OcclusionSnapshot.stacking_complete s = true /\
        forall r, r ∈ OcclusionSnapshot.rectangles_above s -> ~ covers r p
  end.

Definition stacking_typed (snapshot : option OcclusionSnapshot.t) : Prop :=
  forall s, snapshot = Some s -> Forall rect_typed (OcclusionSnapshot.rectangles_above s).

Lemma occlusion_of_spec s p result :
  Forall rect_typed (OcclusionSnapshot.rectangles_above s) -> occlusion_of s p = Ok result ->
  (result <> OccludedPoint ->
   forall r, r ∈ take MAX_ELEMENT_CLICK_OCCLUDERS (OcclusionSnapshot.rectangles_above s) -> ~ covers r p) /\
  (result = Clear -> OcclusionSnapshot.stacking_complete s = true /\
   forall r, r ∈ OcclusionSnapshot.rectangles_above s -> ~ covers r p).
Proof.
  intros Ht Ho. unfold occlusion_of in Ho. apply and_then_Ok in Ho as ([] & Hv%try_each_Ok & [= <-]).
  set (examined := take _ _) in *.
  assert (existsb (fun rectangle => rect_contains rectangle p) examined = false ->
          forall r, r ∈ examined -> ~ covers r p) as Hclear.
  { intros Hf r Hr Hc. apply not_true_iff_false in Hf. apply Hf. apply existsb_exists.
    exists r. rewrite <- list_elem_of_In. split; [done |].
    pose proof (proj1 (Forall_forall _ _) Hv r Hr) as Hok. apply validate_click_rect_Ok in Hok.
    assert (rect_typed r) as Hrt.
    { apply (proj1 (Forall_forall _ _) Ht). unfold examined in Hr.
      rewrite <- (take_drop MAX_ELEMENT_CLICK_OCCLUDERS (OcclusionSnapshot.rectangles_above s)).
      apply elem_of_app. by left. }
    apply validate_rect_Ok in Hok; [| done]. apply rect_contains_covers; tauto. }
  destruct (existsb _ examined) eqn:Hex; [done |]. split; [auto |].
  case_decide as Hlong; [done |]. destruct (OcclusionSnapshot.stacking_complete s); [| done].
  intros _. split; [done |]. intros r Hr. apply Hclear; [done |]. unfold examined.
  by rewrite take_ge by lia.
Qed.

Lemma evaluate_occlusion_spec p policy snapshot window before require result :
  stacking_typed snapshot ->
  evaluate_occlusion p policy snapshot window before require = Ok result ->
  unoccluded policy snapshot window p /\
  (policy <> Ignore -> require = true -> exists s, snapshot = Some s /\
     forall epoch, before = Some epoch -> (epoch < OcclusionSnapshot.stacking_epoch s)%N).
Proof.
  intros Ht He. unfold evaluate_occlusion in He. destruct (decide (policy = Ignore)) as [-> |]; [done |].
  apply and_then_Ok in He as (outcome & Ho & He). destruct snapshot as [s |].
  - apply and_then_Ok in Ho as ([] & Htarget%ensure_Ok & Ho). apply and_then_Ok in Ho as ([] & _ & Ho).
    apply and_then_Ok in Ho as ([] & Hbefore%ensure_Ok & Ho). apply dec_stable in Htarget.
    destruct (occlusion_of_spec s p outcome (Ht s eq_refl) Ho) as [Hexamined Hclear]. split.
    + destruct policy; [done | |]; simpl.
      * intros ? [= <-]. split; [done |]. apply Hexamined. by intros ->.
      * exists s. destruct outcome; try done; [| by destruct (Hclear eq_refl)].
        exfalso. revert Ho. unfold occlusion_of. intros ([] & _ & Ho)%and_then_Ok. by repeat case_match.
    + intros _ _. exists s. split; [done |]. intros epoch ->. simpl in Hbefore.
      rewrite bool_decide_eq_true in Hbefore. lia.
  - apply and_then_Ok in Ho as ([] & Hreq%ensure_Ok & [= <-]). split; [| by intros].
    by destruct policy.
Qed.

(** ** The steps that admission and revalidation share *)
Lemma validate_binding_Ok observation explicit w :
  validate_binding observation explicit = Ok w ->
  correlated_window (ClickObservation.correlation observation) = Some w /\
  correlation_authorizes_physical_effect (ClickObservation.correlation observation) = true /\
  (forall e, explicit = Some e -> e = w).
Proof.
  unfold validate_binding. intros ([] & _ & H)%and_then_Ok.
  apply and_then_Ok in H as ([] & Ha%ensure_Ok & H).
  apply and_then_Ok in H as (window & Hw%ok_or_Ok & H).
  apply and_then_Ok in H as ([] & _ & H). apply and_then_Ok in H as ([] & He & [= <-]).
  split_and!; [done | by apply not_false_is_true |]. intros e ->.
  apply and_then_Ok in He as ([] & _ & He%ensure_Ok). by apply dec_stable.
Qed.

Lemma selected_covered policy extents visible p :
  valid_rect visible -> selected policy extents visible (Ok p) -> covers visible p.
Proof.
  intros Hv. destruct policy; simpl.
  - intros [= ->]. by apply middle_covered.
  - case_decide; [| done]. intros [= ->]. by apply middle_covered.
  - intros [[Hc [= ->]] | [_ [=]]]. done.
  - by intros (? & [= <-] & Hn & _).
Qed.

Lemma aimed observation policy g p :
  observation_typed observation -> policy_typed policy ->
  derive_geometry observation = Ok g ->
  select_point policy (ClickObservation.element_extents observation) (ClickGeometry.visible_bounds g) = Ok p ->
  visible_pixel observation p /\
  selected policy (ClickObservation.element_extents observation) (ClickGeometry.visible_bounds g) (Ok p).
Proof.
  intros Ht Hp Hg Hs. pose proof (derive_geometry_spec observation Ht) as Hspec. rewrite Hg in Hspec.
  destruct Hspec as ((Hve & _) & _ & Hvis & Hcov).
  assert (valid_rect (ClickObservation.element_extents observation)) as He by exact (conj (proj1 Ht) Hve).
  pose proof (select_point_spec policy _ _ Hp He Hvis) as Hsel. rewrite Hs in Hsel. split; [| done].
  apply Hcov. by eapply selected_covered.
Qed.


(** ** The theorems *)

(** C37: the correlation of an element with a window does not depend on the order in which
    the candidate windows are supplied: a permutation of them is accepted exactly when they
    are, with the same result. *)
Theorem correlation_order_independent subject candidates candidates' now limits r :
  candidates ≡ₚ candidates' ->
  correlate_accessibility_window subject candidates now limits = Ok r <->
  correlate_accessibility_window subject candidates' now limits = Ok r.
Proof.
  intros Hp. unfold correlate_accessibility_window.
  rewrite !and_then_Ok.
  split; intros ([] & Hv%validate_inputs_Ok & H); exists tt.
  - rewrite (live_in_order_canonical _ _ (admits_distinct _ _ _ _ Hv) Hp) in H.
    split; [apply validate_inputs_Ok; by rewrite <- Hp | done].
  - symmetry in Hp. rewrite (live_in_order_canonical _ _ (admits_distinct _ _ _ _ Hv) Hp) in H.
    split; [apply validate_inputs_Ok; by rewrite <- Hp | done].
Qed.

(** An element is correlated with a window exactly when it is that of the live candidate
    with the most points, of which there must be some, and a window that the caller named is
    live; a tie gives no window. *)
Theorem correlation_is_unique_best subject candidates now limits r :
  correlate_accessibility_window subject candidates now limits = Ok r ->
  (forall w, correlated_window r = Some w <->
     reference_available subject candidates /\
     exists c, leading subject limits candidates c /\ WindowCandidate.window c = w) /\
  (correlated_window r = None <-> correlation_confidence r = CorrelationNone).
Proof.
  intros Hr. split; [intros w; by apply (correlate_window _ now) | by apply (correlate_confidence subject now limits candidates)].
Qed.

(** C19: a correlation that authorizes a physical effect names the window of a live candidate
    that was observed recently, that no signal contradicts and that the caller's own
    reference, if any, names; and more than its process identifier and its title agree. *)
Theorem authorized_correlation_sound subject candidates now limits r :
  correlate_accessibility_window subject candidates now limits = Ok r ->
  correlation_authorizes_physical_effect r = true ->
  exists w c, correlated_window r = Some w /\ trustworthy subject now limits candidates w c.
Proof. apply authorized_trustworthy. Qed.

(** An admitted click goes to a pixel of the element that lies within the root and the
    client, chosen as the policy says, in the window the element is correlated with; the
    correlation authorizes it, and the stacking evidence does not cover the pixel. *)
Theorem click_plan_sound observation explicit minimum policy occlusion_policy occlusion plan :
  observation_typed observation -> policy_typed policy -> stacking_typed occlusion ->
  plan_physical_element_click observation explicit minimum policy occlusion_policy occlusion = Ok plan ->
  ClickPlan.element plan = ClickObservation.element observation /\
  correlated_window (ClickObservation.correlation observation) = Some (ClickPlan.window plan) /\
  correlation_authorizes_physical_effect (ClickObservation.correlation observation) = true /\
  (forall w, explicit = Some w -> w = ClickPlan.window plan) /\
  visible_pixel observation (ClickPlan.click_point plan) /\
  selected policy (ClickObservation.element_extents observation)
    (ClickGeometry.visible_bounds (ClickPlan.geometry plan)) (Ok (ClickPlan.click_point plan)) /\
  unoccluded occlusion_policy occlusion (ClickPlan.window plan) (ClickPlan.click_point plan).
Proof.
  intros Ht Hp Hst H. unfold plan_physical_element_click in H.
  apply and_then_Ok in H as ([] & _ & H). apply and_then_Ok in H as ([] & _ & H).
  apply and_then_Ok in H as (w & (Hw & Ha & He)%validate_binding_Ok & H).
  apply and_then_Ok in H as ([] & _ & H). apply and_then_Ok in H as (g & Hg & H).
  apply and_then_Ok in H as (p & Hsel & H). apply and_then_Ok in H as (check & Ho & [= <-]). simpl.
  destruct (aimed observation policy g p Ht Hp Hg Hsel) as [Hvis Hselected].
  apply evaluate_occlusion_spec in Ho as [Ho _]; [| done]. split_and!; done.
Qed.


(** The visible part of an element has exactly its pixels within the root and the client,
    and the pixel of the policy is that of [selected]: the middle, the middle when the inset
    leaves room, the offset pixel when it is visible, or the nearest to the middle of the
    element. *)
Theorem click_point_exact observation policy :
  observation_typed observation -> policy_typed policy ->
  match derive_geometry observation with
  | Ok g =>
      (forall p, covers (ClickGeometry.visible_bounds g) p <-> visible_pixel observation p) /\
      selected policy (ClickObservation.element_extents observation) (ClickGeometry.visible_bounds g)
        (select_point policy (ClickObservation.element_extents observation) (ClickGeometry.visible_bounds g))
  | Err e => (e = ClickError.InvalidGeometry /\ ~ rects_valid observation) \/
             (e = ClickError.NotVisible /\ forall p, ~ visible_pixel observation p)
  end.
Proof.
  intros Ht Hp. pose proof (derive_geometry_spec observation Ht) as Hspec.
  destruct (derive_geometry observation) as [g | e]; [| tauto].
  destruct Hspec as ((Hve & _) & _ & Hvis & Hcov). split; [done |].
  by apply select_point_spec; [| exact (conj (proj1 Ht) Hve) |].
Qed.

(** The window of a click that is admitted on a correlation computed from live candidates
    is the window of one of them that the evidence does not contradict. *)
Theorem correlated_click_trustworthy subject candidates now limits observation explicit minimum policy
    occlusion_policy occlusion plan :
  correlate_accessibility_window subject candidates now limits =
    Ok (ClickObservation.correlation observation) ->
  plan_physical_element_click observation explicit minimum policy occlusion_policy occlusion = Ok plan ->
  exists c, trustworthy subject now limits candidates (ClickPlan.window plan) c.
Proof.
  intros Hr H. unfold plan_physical_element_click in H.
  apply and_then_Ok in H as ([] & _ & H). apply and_then_Ok in H as ([] & _ & H).
  apply and_then_Ok in H as (w & (Hw & Ha & _)%validate_binding_Ok & H).
  apply and_then_Ok in H as ([] & _ & H). do 3 apply and_then_Ok in H as (? & _ & H).
  injection H as <-. simpl.
  destruct (authorized_trustworthy _ _ _ _ _ Hr Ha) as (w' & c & Hw' & Hc).
  exists c. by replace w with w' by congruence.
Qed.

Local Open Scope N_scope.

Module ClickWitness.
Definition desktop : DesktopId := mkDesktopId 1.
Definition generation : DesktopGeneration := mkDesktopGeneration 2.
Definition hash : string := String.string_of_list_ascii (repeat (ascii_of_N 97) 64).
Definition application : ApplicationRef.t :=
  ApplicationRef.mk desktop generation (AtspiGeneration.mk 1) (mkBusName ":1.7") (mkObjectPath "/root") 1
    (mkAccessibilityHash hash).
Definition button : ElementRef.t :=
  ElementRef.mk desktop generation (AtspiGeneration.mk 1) application (mkObjectPath "/b")
    (mkAccessibilityHash hash) 3.
Definition window (xid : N) : WindowRef.t := WindowRef.mk desktop generation xid 1 (mkIdentityHash hash).

(** The element says it belongs to process 7, at these extents; so does the first window, and the second is of another process. *)
Definition extents : Rect.t := Rect.mk 10 10 300 200.
Definition subject : CorrelationSubject.t :=
  CorrelationSubject.mk application button (Some 7) None (Some extents) None None None false None None 100 None None.
Definition candidate (xid pid : N) (bounds : Rect.t) : WindowCandidate.t :=
  WindowCandidate.mk (window xid) true (Some pid) None (Some bounds) None None None false None None 90 None.
Definition first : WindowCandidate.t := candidate 1 7 extents.
Definition second : WindowCandidate.t := candidate 2 8 (Rect.mk 500 10 300 200).
Definition candidates : list WindowCandidate.t := [first; second].
Definition limits : CorrelationLimits.t := CorrelationLimits.default.
Definition none : ElementWindowCorrelation := no_correlation true [].
Definition correlation : ElementWindowCorrelation :=
  match correlate_accessibility_window subject candidates 100 limits with Ok r => r | Err _ => none end.

Definition observation (epoch : N) : ClickObservation.t :=
  ClickObservation.mk button (AccessibilityRevision.mk 4) epoch (Rect.mk 280 190 100 50) (Rect.mk 0 0 1920 1080)
    (Some extents)
    (mkWindowCorrelation (Some (window 1)) Strong [new_evidence TopLevelExtents true "exact"] false).
Definition stacking (epoch : N) : OcclusionSnapshot.t :=
  OcclusionSnapshot.mk (window 1) epoch [Rect.mk 500 10 300 200] true.
Definition planned (epoch : N) : result ClickPlan.t ClickError.t :=
  plan_physical_element_click (observation epoch) None Strong NearestVisible RequireUnoccluded (Some (stacking 5)).
Definition plan (epoch : N) : option ClickPlan.t := result_ok (planned epoch).
(** The same click on the correlation that was computed. *)
Definition correlated : ClickObservation.t :=
  ClickObservation.mk button (AccessibilityRevision.mk 4) 1 extents (Rect.mk 0 0 1920 1080) None correlation.

Example correlates : correlated_window correlation = Some (window 1).
Proof. vm_compute. reflexivity. Qed.
Example aims : match planned 1 with Ok plan => ClickPlan.click_point plan = Point.mk 309 209 | Err _ => False end.
Proof. vm_compute. reflexivity. Qed.

Lemma observation_is_typed epoch : observation_typed (observation epoch).
Proof.
  split_and!; [by vm_compute; repeat split.. |]. intros r [= <-]. by vm_compute; repeat split.
Qed.
Lemma stacking_is_typed epoch : stacking_typed (Some (stacking epoch)).
Proof. intros s [= <-]. constructor; [| constructor]. by vm_compute; repeat split. Qed.

Lemma correlation_order_independent_witness :
  correlate_accessibility_window subject [second; first] 100 limits = Ok correlation.
Proof.
  apply (correlation_order_independent subject [first; second] [second; first] 100 limits correlation).
  - apply Permutation_swap.
  - vm_compute. reflexivity.
Defined.

Lemma correlation_is_unique_best_witness :
  exists c, leading subject limits candidates c /\ WindowCandidate.window c = window 1.
Proof.
  assert (correlate_accessibility_window subject candidates 100 limits = Ok correlation) as Hr
    by (vm_compute; reflexivity).
  destruct (correlation_is_unique_best subject candidates 100 limits correlation Hr) as [Hw _].
  apply (Hw (window 1)). vm_compute. reflexivity.
Defined.

Lemma authorized_correlation_sound_witness :
  exists w c, correlated_window correlation = Some w /\ trustworthy subject 100 limits candidates w c.
Proof.
  apply (authorized_correlation_sound subject candidates 100 limits correlation); vm_compute; reflexivity.
Defined.

Lemma click_plan_sound_witness :
  exists p, plan 1 = Some p /\ visible_pixel (observation 1) (ClickPlan.click_point p).
Proof.
  destruct (planned 1) as [p | e] eqn:Hp; [| vm_compute in Hp; discriminate Hp].
  exists p. split; [unfold plan; rewrite Hp; reflexivity |].
  apply (click_plan_sound (observation 1) None Strong NearestVisible RequireUnoccluded (Some (stacking 5)) p
           (observation_is_typed 1) I (stacking_is_typed 5) Hp).
Defined.


Lemma click_point_exact_witness :
  select_point Center (Rect.mk 280 190 100 50) (Rect.mk 280 190 30 20) = Ok (Point.mk 294 199).
Proof.
  pose proof (click_point_exact (observation 1) Center (observation_is_typed 1) I) as H.
  vm_compute in H |- *. destruct H as [_ H]. exact H.
Defined.

Lemma correlated_click_trustworthy_witness :
  exists w c, trustworthy subject 100 limits candidates w c.
Proof.
  destruct (plan_physical_element_click correlated None Strong Center Ignore None) as [p | e] eqn:Hp;
    [| vm_compute in Hp; discriminate Hp].
  exists (ClickPlan.window p).
  apply (correlated_click_trustworthy subject candidates 100 limits correlated None Strong Center Ignore None p);
    [vm_compute; reflexivity | exact Hp].
Defined.
End ClickWitness.
