(* ===== verification/AtspiCache.v ===== *)
(** * The bounded cache of the AT-SPI adapter

    Models [xenoteer-atspi/src/cache.rs], with the classifications and the identity
    fingerprint of [semantic.rs] that it stores: object addresses, the normalization of the
    two cache signatures, and the cache that the adapter's actor owns, with its incremental
    mutations and its pages.  A [usize] has 64 bits; the sizes of the Rust types, which the
    byte accounting uses, and SHA-256 are parameters. *)

From stdpp Require Import base numbers list option gmap strings sorting.
From Stdlib Require Import Lia Ascii.
From S2P Require Import Prelude Binary64.

Local Open Scope N_scope.

Definition MAX_ADDRESS_BYTES : N := 4 * 1024.
Definition MAX_BUS_NAME_BYTES : N := 255.
Definition MAX_LEGACY_CHILDREN : N := 100000.
Definition MAX_MUTATION_ADDRESSES : N := 4096.
Definition MAX_SELECTION_RANGES : N := 256.

(** [str::len] of the bytes of a string; [saturating_add], [saturating_mul] of [usize]. *)
Definition byte_len (s : string) : N := N.of_nat (String.length s).
Definition saturating_add (a b : N) : N := N.min (a + b) u64_max.
Definition saturating_mul (a b : N) : N := N.min (a * b) u64_max.

(** [CacheError]. *)
Module CacheError.
Inductive t :=
  | InvalidLimit (what : string)
  | InvalidAddress (what : string)
  | Malformed (what : string)
  | GenerationExhausted (what : string)
  | LimitExceeded (resource : string) (actual max : N).
End CacheError.
#[local] Abbreviation Error := CacheError.t.
Import CacheError.

(** ** Addresses *)
Module ObjectAddress.
Record t := mk { bus_name : string; object_path : string }.
#[export] Instance object_address_eq_dec : EqDecision t.
Proof. solve_decision. Defined.
#[export] Instance object_address_countable : Countable t :=
  inj_countable' (fun '(mk b p) => (b, p)) (fun '(b, p) => mk b p) (fun '(mk _ _) => eq_refl).

(** The derived [Ord]. *)
Definition cmp (x y : t) : comparison :=
  then_with (String.compare (bus_name x) (bus_name y)) (String.compare (object_path x) (object_path y)).

(** [ObjectAddress::new]. *)
Definition new (bus path : string) : result t Error :=
  try! ensure (bus = ""%string \/ String.prefix ":" bus = false) (InvalidAddress "bus name is not unique") in
  try! ensure (path = ""%string \/ String.prefix "/" path = false)
         (InvalidAddress "object path is not absolute") in
  try! ensure (MAX_BUS_NAME_BYTES < byte_len bus \/ MAX_ADDRESS_BYTES < byte_len path)
         (LimitExceeded "object address bytes"
            (if decide (MAX_BUS_NAME_BYTES < byte_len bus) then byte_len bus else byte_len path)
            (if decide (MAX_BUS_NAME_BYTES < byte_len bus) then MAX_BUS_NAME_BYTES else MAX_ADDRESS_BYTES)) in
  Ok (mk bus path).
End ObjectAddress.
Export (hints) ObjectAddress.
#[local] Abbreviation Address := ObjectAddress.t.

(** ** Limits *)
Module CacheLimits.
Record t := mk {
  max_nodes : N; max_string_bytes : N; max_item_bytes : N; max_total_bytes : N;
  max_bootstrap_bytes : N; max_interfaces : N; max_states : N; max_children : N }.

Definition default : t :=
  mk 100000 (64 * 1024) (256 * 1024) (256 * 1024 * 1024) (128 * 1024 * 1024) 64 128 MAX_LEGACY_CHILDREN.

(** [CacheLimits::validate]. *)
Definition validate (self : t) : result t Error :=
  try! try_each (fun '(resource, value) => ensure (value = 0) (InvalidLimit resource))
         [("cached nodes"%string, max_nodes self); ("string bytes"%string, max_string_bytes self);
          ("cache item bytes"%string, max_item_bytes self); ("total cache bytes"%string, max_total_bytes self);
          ("cache bootstrap bytes"%string, max_bootstrap_bytes self); ("interfaces"%string, max_interfaces self);
          ("states"%string, max_states self); ("legacy children"%string, max_children self)] in
  try! ensure (MAX_LEGACY_CHILDREN < max_children self)
         (LimitExceeded "legacy children configuration" (max_children self) MAX_LEGACY_CHILDREN) in
  try! ensure (max_total_bytes self < max_item_bytes self)
         (Malformed "cache item byte limit exceeds total cache byte limit") in
  Ok self.
End CacheLimits.

(** ** Items *)

(** [TextProtection]. *)
Inductive TextProtection := Protected | Unprotected | UnknownProtection.
#[export] Instance text_protection_eq_dec : EqDecision TextProtection.
Proof. solve_decision. Defined.

(** [classify_text_protection]. *)
Definition classify_text_protection (role : N) : TextProtection :=
  if decide (role = 40) then Protected else if decide (role <= 129) then Unprotected else UnknownProtection.

(** [NormalizedCacheItem]. *)
Module CacheItem.
Record t := mk {
  object : Address; application : Address; parent : option Address;
  index_in_parent : option N; child_count : option N; legacy_children : list Address;
  interfaces : list string; name : string; description : string; role : N;
  text_protection : TextProtection; states : list N }.
#[export] Instance cache_item_eq_dec : EqDecision t.
Proof. solve_decision. Defined.
End CacheItem.
Export (hints) CacheItem.

(** [ModernCacheItem], [LegacyCacheItem]: [short_name] is the name, [name] the description. *)
Module ModernItem.
Record t := mk {
  object : Address; application : Address; parent : option Address;
  index_in_parent : Z; child_count : Z; interfaces : list string;
  short_name : string; role : N; name : string; states : list N }.
End ModernItem.
Module LegacyItem.
Record t := mk {
  object : Address; application : Address; parent : option Address;
  children : list Address; interfaces : list string;
  short_name : string; role : N; name : string; states : list N }.
End LegacyItem.

(** [application_root_has_external_parent]. *)
Definition application_root_has_external_parent (object application : Address) (parent : option Address) : bool :=
  bool_decide (object = application) &&
  match parent with
  | Some parent => bool_decide (ObjectAddress.bus_name parent <> ObjectAddress.bus_name application)
  | None => false
  end.

(** [usize::try_from] of an [i32]. *)
Definition usize_try_from (z : Z) : option N := if decide (0 <= z)%Z then Some (Z.to_N z) else None.

(** *** Live metadata *)
Record SelectionRange := mkSelectionRange { range_start : N; range_end : N }.
#[export] Instance selection_range_eq_dec : EqDecision SelectionRange.
Proof. solve_decision. Defined.
Record SemanticRect := mkSemanticRect { rect_x : Z; rect_y : Z; rect_width : Z; rect_height : Z }.
#[export] Instance semantic_rect_eq_dec : EqDecision SemanticRect.
Proof. solve_decision. Defined.
Record SemanticValue := mkSemanticValue {
  value_current : f64; value_minimum : f64; value_maximum : f64; value_minimum_increment : f64 }.
Record TextMetadata := mkTextMetadata {
  character_count : option N; caret_offset : option Z; selections : list SelectionRange }.
#[export] Instance text_metadata_eq_dec : EqDecision TextMetadata.
Proof. solve_decision. Defined.

(** [CachedLiveMetadata], with its [==]: numbers are compared as [f64]s. *)
Module LiveMetadata.
Record t := mk {
  bounds : option SemanticRect; value : option SemanticValue; text : option TextMetadata;
  selected_children : option N }.
Definition default : t := mk None None None None.

Definition value_eq (x y : option SemanticValue) : bool :=
  match x, y with
  | None, None => true
  | Some x, Some y =>
      F64.eq (value_current x) (value_current y) && F64.eq (value_minimum x) (value_minimum y) &&
      F64.eq (value_maximum x) (value_maximum y) && F64.eq (value_minimum_increment x) (value_minimum_increment y)
  | _, _ => false
  end.
Definition eq (x y : t) : bool :=
  bool_decide (bounds x = bounds y) && value_eq (value x) (value y) && bool_decide (text x = text y) &&
  bool_decide (selected_children x = selected_children y).
End LiveMetadata.

(** *** The identity fingerprint *)

(** [u64::to_le_bytes]. *)
Definition le_bytes (n : N) : list ascii :=
  map (fun i => ascii_of_N ((n / 256 ^ N.of_nat i) mod 256)) (seq 0 8).

(** The bytes that [IdentityFingerprint::from_parts] digests. *)
Definition field_bytes (field : string) : list ascii :=
  le_bytes (byte_len field) ++ String.list_ascii_of_string field.
Definition identity_fields (object application : Address) (parent : option Address) (name description : string) :
    list string :=
  [ObjectAddress.bus_name object; ObjectAddress.object_path object;
   ObjectAddress.bus_name application; ObjectAddress.object_path application;
   match parent with Some parent => ObjectAddress.bus_name parent | None => "" end;
   match parent with Some parent => ObjectAddress.object_path parent | None => "" end;
   name; description].
Definition identity_bytes (object application : Address) (parent : option Address) (index : option N)
    (name description : string) : list ascii :=
  flat_map field_bytes (identity_fields object application parent name description) ++
  le_bytes (default u64_max index).

(** ** Admission *)

(** [usize::MAX] and [size_of]: the sizes of the types that the accounting counts. *)
Record TypeSizes := mkTypeSizes {
  size_of_cached_node : N; size_of_object_address : N; size_of_string : N; size_of_selection_range : N }.

(** [validate_common]. *)
Definition validate_common (name description : string) (interfaces : list string) (states : list N)
    (limits : CacheLimits.t) : result unit Error :=
  try! try_each (fun '(resource, value) =>
         ensure (CacheLimits.max_string_bytes limits < byte_len value)
           (LimitExceeded resource (byte_len value) (CacheLimits.max_string_bytes limits)))
         [("accessible name"%string, name); ("accessible description"%string, description)] in
  try! ensure (CacheLimits.max_interfaces limits < len interfaces)
         (LimitExceeded "interfaces" (len interfaces) (CacheLimits.max_interfaces limits)) in
  try! ensure (CacheLimits.max_states limits < len states)
         (LimitExceeded "states" (len states) (CacheLimits.max_states limits)) in
  ensure (Exists (fun interface => CacheLimits.max_string_bytes limits < byte_len interface) interfaces)
    (LimitExceeded "interface name bytes" (fold_right N.max 0 (map byte_len interfaces))
       (CacheLimits.max_string_bytes limits)).

(** [validate_live_metadata]. *)
Definition validate_live_metadata (live : LiveMetadata.t) (limits : CacheLimits.t) : result unit Error :=
  try! ensure (match LiveMetadata.value live with
               | Some value =>
                   negb (F64.is_finite (value_current value)) || negb (F64.is_finite (value_minimum value)) ||
                   negb (F64.is_finite (value_maximum value)) || negb (F64.is_finite (value_minimum_increment value))
               | None => false
               end = true) (Malformed "non-finite live Value metadata") in
  match LiveMetadata.text live with
  | Some text =>
      try! ensure (MAX_SELECTION_RANGES < len (selections text) \/ CacheLimits.max_states limits < len (selections text))
             (LimitExceeded "live Text selection ranges" (len (selections text))
                (N.min MAX_SELECTION_RANGES (CacheLimits.max_states limits))) in
      try! match character_count text, caret_offset text with
           | None, None => ensure (selections text <> [])
               (Malformed "live Text metadata is partial or retained ranges without safe bounds")
           | Some _, Some _ => Ok tt
           | _, _ => Err (Malformed "live Text metadata is partial or retained ranges without safe bounds")
           end in
      match character_count text, caret_offset text with
      | Some count, Some caret =>
          ensure (caret < -1 \/ (0 <= caret /\ Z.of_N count < caret))%Z
            (Malformed "live Text caret is below -1 or exceeds character count")
      | _, _ => Ok tt
      end
  | None => Ok tt
  end.

Section Sizes.
Context (sizes : TypeSizes).
#[local] Infix "+s" := saturating_add (at level 50, left associativity).

(** [estimated_item_bytes]. *)
Definition estimated_item_bytes (item : CacheItem.t) : N :=
  let bytes :=
    size_of_cached_node sizes +s
    (byte_len (ObjectAddress.bus_name (CacheItem.object item)) +s
     byte_len (ObjectAddress.object_path (CacheItem.object item)) +s
     byte_len (ObjectAddress.bus_name (CacheItem.application item)) +s
     byte_len (ObjectAddress.object_path (CacheItem.application item)) +s
     byte_len (CacheItem.name item) +s byte_len (CacheItem.description item)) +s
    saturating_mul (len (CacheItem.states item)) 4 +s
    saturating_mul (len (CacheItem.interfaces item)) (size_of_string sizes) +s
    saturating_mul (len (CacheItem.legacy_children item)) (size_of_object_address sizes) in
  let bytes :=
    match CacheItem.parent item with
    | Some parent => bytes +s byte_len (ObjectAddress.bus_name parent) +s byte_len (ObjectAddress.object_path parent)
    | None => bytes
    end in
  let bytes := fold_left (fun bytes interface => bytes +s byte_len interface) (CacheItem.interfaces item) bytes in
  fold_left (fun bytes child =>
      bytes +s byte_len (ObjectAddress.bus_name child) +s byte_len (ObjectAddress.object_path child))
    (CacheItem.legacy_children item) bytes.

(** [estimated_live_metadata_bytes]. *)
Definition estimated_live_metadata_bytes (live : LiveMetadata.t) : N :=
  match LiveMetadata.text live with
  | Some text => saturating_mul (len (selections text)) (size_of_selection_range sizes)
  | None => 0
  end.

(** [validate_item_bytes], [validate_normalized_item]. *)
Definition validate_item_bytes (item : CacheItem.t) (limits : CacheLimits.t) : result N Error :=
  let bytes := estimated_item_bytes item in
  try! ensure (CacheLimits.max_item_bytes limits < bytes)
         (LimitExceeded "cache item bytes" bytes (CacheLimits.max_item_bytes limits)) in
  Ok bytes.

Definition validate_normalized_item (item : CacheItem.t) (limits : CacheLimits.t) : result unit Error :=
  try! validate_common (CacheItem.name item) (CacheItem.description item) (CacheItem.interfaces item)
         (CacheItem.states item) limits in
  try! ensure (CacheLimits.max_children limits < len (CacheItem.legacy_children item))
         (LimitExceeded "legacy children" (len (CacheItem.legacy_children item)) (CacheLimits.max_children limits)) in
  try! validate_item_bytes item limits in Ok tt.

(** [normalize_modern]: the parent of an application root that another connection owns, and
    of a menu that reports no index, is dropped. *)
Definition transient_menu_parent (item : ModernItem.t) : bool :=
  bool_decide (ModernItem.index_in_parent item = (-1)%Z) &&
  bool_decide (ModernItem.role item ∈ [8; 35; 45; 59]) &&
  bool_decide (ObjectAddress.bus_name (ModernItem.object item) =
               ObjectAddress.bus_name (ModernItem.application item)) &&
  match ModernItem.parent item with
  | Some parent =>
      bool_decide (ObjectAddress.bus_name parent = ObjectAddress.bus_name (ModernItem.application item)) &&
      bool_decide (parent <> ModernItem.object item)
  | None => false
  end.

Definition normalize_modern (item : ModernItem.t) (limits : CacheLimits.t) : result CacheItem.t Error :=
  try! ensure (ModernItem.index_in_parent item < -1)%Z (Malformed "negative child index") in
  try! ensure (ModernItem.child_count item < -1)%Z (Malformed "negative child count") in
  try! validate_common (ModernItem.short_name item) (ModernItem.name item) (ModernItem.interfaces item)
         (ModernItem.states item) limits in
  let detach_parent :=
    application_root_has_external_parent (ModernItem.object item) (ModernItem.application item)
      (ModernItem.parent item) || transient_menu_parent item in
  let normalized := {|
    CacheItem.object := ModernItem.object item;
    CacheItem.application := ModernItem.application item;
    CacheItem.parent := if detach_parent then None else ModernItem.parent item;
    CacheItem.index_in_parent := if detach_parent then None else usize_try_from (ModernItem.index_in_parent item);
    CacheItem.child_count := usize_try_from (ModernItem.child_count item);
    CacheItem.legacy_children := [];
    CacheItem.interfaces := ModernItem.interfaces item;
    CacheItem.name := ModernItem.short_name item;
    CacheItem.description := ModernItem.name item;
    CacheItem.role := ModernItem.role item;
    CacheItem.text_protection := classify_text_protection (ModernItem.role item);
    CacheItem.states := ModernItem.states item |} in
  try! validate_item_bytes normalized limits in Ok normalized.

(** [normalize_legacy]. *)
Definition normalize_legacy (item : LegacyItem.t) (limits : CacheLimits.t) : result CacheItem.t Error :=
  try! validate_common (LegacyItem.short_name item) (LegacyItem.name item) (LegacyItem.interfaces item)
         (LegacyItem.states item) limits in
  try! ensure (CacheLimits.max_children limits < len (LegacyItem.children item))
         (LimitExceeded "legacy children" (len (LegacyItem.children item)) (CacheLimits.max_children limits)) in
  let normalized := {|
    CacheItem.object := LegacyItem.object item;
    CacheItem.application := LegacyItem.application item;
    CacheItem.parent :=
      if application_root_has_external_parent (LegacyItem.object item) (LegacyItem.application item)
           (LegacyItem.parent item)
      then None else LegacyItem.parent item;
    CacheItem.index_in_parent := None;
    CacheItem.child_count := Some (len (LegacyItem.children item));
    CacheItem.legacy_children := LegacyItem.children item;
    CacheItem.interfaces := LegacyItem.interfaces item;
    CacheItem.name := LegacyItem.short_name item;
    CacheItem.description := LegacyItem.name item;
    CacheItem.role := LegacyItem.role item;
    CacheItem.text_protection := classify_text_protection (LegacyItem.role item);
    CacheItem.states := LegacyItem.states item |} in
  try! validate_item_bytes normalized limits in Ok normalized.

(** [mutation_addresses_fit]. *)
Definition mutation_addresses_fit (addresses : list Address) (max_bytes : N) : bool :=
  match try_fold (fun total address =>
            let? total := ok_or (checked_add_u64 total (size_of_object_address sizes)) tt in
            let? total := ok_or (checked_add_u64 total (byte_len (ObjectAddress.bus_name address))) tt in
            ok_or (checked_add_u64 total (byte_len (ObjectAddress.object_path address))) tt) 0 addresses with
  | Ok bytes => bool_decide (bytes <= max_bytes)
  | Err _ => false
  end.
End Sizes.

(** ** The cache *)

(** [CachedNode], [RefreshedCacheItem], [CachePage]. *)
Module CachedNode.
Record t := mk {
  item : CacheItem.t; application_generation : N; revision : N;
  identity_fingerprint : list ascii; live : LiveMetadata.t }.
End CachedNode.
Module Refreshed.
Record t := mk { item : CacheItem.t; live : LiveMetadata.t }.
End Refreshed.
Module CachePage.
Record t := mk {
  accessibility_generation : N; revision : N; event_overflow_epoch : N; after : option Address;
  nodes : list CachedNode.t; next_after : option Address; estimated_bytes : N }.
End CachePage.

(** [CacheEvent], [CacheMutationKind], [CacheMutationDetail], [CacheMutation]. *)
Module CacheEvent.
Inductive t :=
  | Upsert (item : CacheItem.t)
  | Remove (address : Address)
  | InvalidateApplication (bus_name : string)
  | ProtocolGap.
End CacheEvent.
Module MutationKind.
Inductive t := Upserted | Refreshed | Removed | ApplicationInvalidated | Unchanged | ResyncRequired.
End MutationKind.
Module MutationDetail.
Inductive t :=
  | Upserted (node : CachedNode.t)
  | Refreshed (node : CachedNode.t)
  | Removed (addresses : list Address)
  | ApplicationInvalidated (bus_name : string) (application_generation : N) (removed : list Address)
  | Unchanged
  | ResyncRequired.
End MutationDetail.
Module CacheMutation.
Record t := mk { revision : N; kind : MutationKind.t; detail : MutationDetail.t }.
End CacheMutation.

(** [BoundedCache]. *)
Module BoundedCache.
Record t := mk {
  limits : CacheLimits.t; nodes : gmap Address CachedNode.t;
  application_generations : gmap string N; revision : N; bytes : N }.

Definition set_nodes (nodes : gmap Address CachedNode.t) (self : t) : t :=
  mk (limits self) nodes (application_generations self) (revision self) (bytes self).
Definition set_application_generations (generations : gmap string N) (self : t) : t :=
  mk (limits self) (nodes self) generations (revision self) (bytes self).
Definition set_revision (revision : N) (self : t) : t :=
  mk (limits self) (nodes self) (application_generations self) revision (bytes self).
Definition set_bytes (bytes : N) (self : t) : t :=
  mk (limits self) (nodes self) (application_generations self) (revision self) bytes.

(** [BoundedCache::new], [len], [is_empty], [get], [application_generation]. *)
Definition new (limits : CacheLimits.t) : result t Error :=
  let? limits := CacheLimits.validate limits in Ok (mk limits ∅ ∅ 0 0).
Definition count (self : t) : N := N.of_nat (size (nodes self)).
Definition is_empty (self : t) : bool := bool_decide (nodes self = ∅).
Definition get_node (self : t) (address : Address) : option CachedNode.t := nodes self !! address.
Definition application_generation (self : t) (bus_name : string) : N :=
  default 1 (application_generations self !! bus_name).

(** [bump_revision]. *)
Definition bump_revision : M t Error N :=
  self <- get ;;
  next <- lift (ok_or (checked_add_u64 (revision self) 1) (GenerationExhausted "cache revision")) ;;
  modify (set_revision next) ;;;
  ret next.

Section Operations.
Context (sizes : TypeSizes) (sha256 : list ascii -> list ascii).

(** [NormalizedCacheItem::identity_fingerprint]. *)
Definition identity_fingerprint (item : CacheItem.t) : list ascii :=
  sha256 (identity_bytes (CacheItem.object item) (CacheItem.application item) (CacheItem.parent item)
            (CacheItem.index_in_parent item) (CacheItem.name item) (CacheItem.description item)).

(** [estimated_cached_node_bytes]. *)
Definition estimated_cached_node_bytes (node : CachedNode.t) : N :=
  saturating_add (estimated_item_bytes sizes (CachedNode.item node))
    (estimated_live_metadata_bytes sizes (CachedNode.live node)).

(** [recalculate_bytes]. *)
Definition recalculate_bytes : M t Error unit :=
  modify (fun self =>
    set_bytes (fold_left (fun total '(_, node) => saturating_add total (estimated_cached_node_bytes node))
                 (btree_iter ObjectAddress.cmp (nodes self)) 0) self).

(** *** Pages *)

(** The loop of [page]: what was taken, its bytes, and what is left of the iterator. *)
Fixpoint take_page (max_nodes max_bytes : N) (taken : list (Address * CachedNode.t)) (estimated_bytes : N)
    (eligible : list (Address * CachedNode.t)) :
    result (list (Address * CachedNode.t) * N * list (Address * CachedNode.t)) Error :=
  match eligible with
  | [] => Ok (taken, estimated_bytes, [])
  | (address, node) :: rest =>
      if decide (len taken < max_nodes) then
        let node_bytes := estimated_cached_node_bytes node in
        let? next_bytes := ok_or (checked_add_u64 estimated_bytes node_bytes)
                             (LimitExceeded "cache page bytes" u64_max max_bytes) in
        if decide (max_bytes < next_bytes) then
          match taken with
          | [] => Err (LimitExceeded "cache page bytes" node_bytes max_bytes)
          | _ => Ok (taken, estimated_bytes, eligible)
          end
        else take_page max_nodes max_bytes (taken ++ [(address, node)]) next_bytes rest
      else Ok (taken, estimated_bytes, eligible)
  end.

(** [after.is_none_or(|after| address > after)]. *)
Definition beyond (after : option Address) (address : Address) : bool :=
  match after with
  | Some after => bool_decide (ObjectAddress.cmp address after = Gt)
  | None => true
  end.

Definition page (self : t) (accessibility_generation : N) (after : option Address) (max_nodes max_bytes : N) :
    result CachePage.t Error :=
  try! ensure (max_nodes = 0 \/ max_bytes = 0) (InvalidLimit "cache page") in
  let eligible := filter (fun entry : Address * CachedNode.t => beyond after entry.1 = true)
                    (btree_iter ObjectAddress.cmp (nodes self)) in
  let? taken := take_page max_nodes max_bytes [] 0 eligible in
  let '(nodes, estimated_bytes, rest) := taken in
  Ok {| CachePage.accessibility_generation := accessibility_generation;
        CachePage.revision := revision self;
        CachePage.event_overflow_epoch := 0;
        CachePage.after := after;
        CachePage.nodes := map snd nodes;
        CachePage.next_after := match rest with [] => None | _ => fst <$> last nodes end;
        CachePage.estimated_bytes := estimated_bytes |}.

(** *** Replacement *)

Definition cached_node (self : t) (item : CacheItem.t) (revision : N) (live : LiveMetadata.t) : CachedNode.t :=
  {| CachedNode.item := item;
     CachedNode.application_generation :=
       application_generation self (ObjectAddress.bus_name (CacheItem.application item));
     CachedNode.revision := revision;
     CachedNode.identity_fingerprint := identity_fingerprint item;
     CachedNode.live := live |}.

(** [replace]. *)
Definition replace (items : list CacheItem.t) : M t Error N :=
  self <- get ;;
  reject_if (CacheLimits.max_nodes (limits self) < len items)
    (LimitExceeded "cached nodes" (len items) (CacheLimits.max_nodes (limits self))) ;;;
  reject_if (size (list_to_set (map CacheItem.object items) : gset Address) <> length items)
    (Malformed "duplicate object in cache bootstrap") ;;;
  total_bytes <- lift (try_fold (fun total_bytes item =>
      try! validate_normalized_item sizes item (limits self) in
      let? item_bytes := validate_item_bytes sizes item (limits self) in
      ok_or (checked_add_u64 total_bytes item_bytes)
        (LimitExceeded "total cache bytes" u64_max (CacheLimits.max_total_bytes (limits self)))) 0 items) ;;
  reject_if (CacheLimits.max_total_bytes (limits self) < total_bytes)
    (LimitExceeded "total cache bytes" total_bytes (CacheLimits.max_total_bytes (limits self))) ;;;
  revision <- bump_revision ;;
  modify (fun self =>
    set_nodes (fold_left (fun nodes item =>
        <[CacheItem.object item := cached_node self item revision LiveMetadata.default]> nodes) items ∅) self) ;;;
  modify (set_bytes total_bytes) ;;;
  ret revision.

(** *** Single nodes *)

(** [self.nodes.get(object).map(estimated_cached_node_bytes).unwrap_or(0)]. *)
Definition replaced_bytes (self : t) (object : Address) : N :=
  from_option estimated_cached_node_bytes 0 (nodes self !! object).

(** The total with the bytes of one object exchanged, and its checks. *)
Definition exchanged_bytes (self : t) (object : Address) (item_bytes : N) : result N Error :=
  let? total_bytes := ok_or (checked_add_u64 (bytes self - replaced_bytes self object) item_bytes)
      (LimitExceeded "total cache bytes" u64_max (CacheLimits.max_total_bytes (limits self))) in
  try! ensure (CacheLimits.max_total_bytes (limits self) < total_bytes)
         (LimitExceeded "total cache bytes" total_bytes (CacheLimits.max_total_bytes (limits self))) in
  Ok total_bytes.

(** The insertion of a node, and the node read back. *)
Definition insert_node (item : CacheItem.t) (live : LiveMetadata.t) (total_bytes : N) (disappeared : string) :
    M t Error CachedNode.t :=
  bump_revision ;;;
  modify (fun self =>
    set_nodes (<[CacheItem.object item := cached_node self item (revision self) live]> (nodes self)) self) ;;;
  modify (set_bytes total_bytes) ;;;
  self <- get ;;
  lift (ok_or (nodes self !! CacheItem.object item) (Malformed disappeared)).

(** [refresh]. *)
Definition unchanged_by (self : t) (item : CacheItem.t) (live : LiveMetadata.t) : bool :=
  match nodes self !! CacheItem.object item with
  | Some current =>
      bool_decide (CachedNode.item current = item) && LiveMetadata.eq (CachedNode.live current) live &&
      bool_decide (CachedNode.application_generation current =
                   application_generation self (ObjectAddress.bus_name (CacheItem.application item)))
  | None => false
  end.

Definition refresh (refreshed : Refreshed.t) : M t Error CacheMutation.t :=
  let item := Refreshed.item refreshed in
  let live := Refreshed.live refreshed in
  self <- get ;;
  lift (validate_normalized_item sizes item (limits self)) ;;;
  lift (validate_live_metadata live (limits self)) ;;;
  reject_if (nodes self !! CacheItem.object item = None)
    (Malformed "targeted refresh source is absent from cache") ;;;
  if unchanged_by self item live then
    ret (CacheMutation.mk (revision self) MutationKind.Unchanged MutationDetail.Unchanged)
  else
    item_bytes <- lift (validate_item_bytes sizes item (limits self)) ;;
    refreshed_bytes <- lift (ok_or (checked_add_u64 item_bytes (estimated_live_metadata_bytes sizes live))
        (LimitExceeded "refreshed cache item bytes" u64_max (CacheLimits.max_item_bytes (limits self)))) ;;
    reject_if (CacheLimits.max_item_bytes (limits self) < refreshed_bytes)
      (LimitExceeded "refreshed cache item bytes" refreshed_bytes (CacheLimits.max_item_bytes (limits self))) ;;;
    total_bytes <- lift (exchanged_bytes self (CacheItem.object item) refreshed_bytes) ;;
    node <- insert_node item live total_bytes "refreshed cache node disappeared" ;;
    self <- get ;;
    ret (CacheMutation.mk (revision self) MutationKind.Refreshed (MutationDetail.Refreshed node)).

(** [CacheEvent::Upsert]. *)
Definition upsert (item : CacheItem.t) : M t Error (MutationKind.t * MutationDetail.t) :=
  self <- get ;;
  lift (validate_normalized_item sizes item (limits self)) ;;;
  reject_if (nodes self !! CacheItem.object item = None /\ count self = CacheLimits.max_nodes (limits self))
    (LimitExceeded "cached nodes" (saturating_add (count self) 1) (CacheLimits.max_nodes (limits self))) ;;;
  item_bytes <- lift (validate_item_bytes sizes item (limits self)) ;;
  total_bytes <- lift (exchanged_bytes self (CacheItem.object item) item_bytes) ;;
  node <- insert_node item LiveMetadata.default total_bytes "upserted cache node disappeared" ;;
  ret (MutationKind.Upserted, MutationDetail.Upserted node).

(** *** Subtrees *)

(** The index of children that [remove_subtree] builds. *)
Definition children_index (nodes : gmap Address CachedNode.t) : gmap Address (list Address) :=
  fold_left (fun children '(key, node) =>
      match CacheItem.parent (CachedNode.item node) with
      | Some parent => <[parent := default [] (children !! parent) ++ [key]]> children
      | None => children
      end) (btree_iter ObjectAddress.cmp nodes) ∅.

(** Its worklist, whose last element is the head of [pending]. *)
Fixpoint mark_subtree (fuel : nat) (children : gmap Address (list Address)) (remove : gset Address)
    (pending : list Address) : option (gset Address) :=
  match fuel with
  | O => None
  | S fuel =>
      match pending with
      | [] => Some remove
      | current :: pending =>
          if decide (current ∈ remove) then mark_subtree fuel children remove pending
          else mark_subtree fuel children ({[current]} ∪ remove)
                 (rev (default [] (children !! current)) ++ pending)
      end
  end.

Definition subtree_fuel (self : t) : nat := size (nodes self) + 2.

Definition subtree (self : t) (address : Address) : gset Address :=
  default ∅ (mark_subtree (subtree_fuel self) (children_index (nodes self)) ∅ [address]).

(** The removed addresses, when they fit in a mutation. *)
Definition bounded_detail (self : t) (removed : list Address) (kind : MutationKind.t) (detail : MutationDetail.t) :
    MutationKind.t * MutationDetail.t :=
  if decide (MAX_MUTATION_ADDRESSES < len removed \/
             mutation_addresses_fit sizes removed (CacheLimits.max_item_bytes (limits self)) = false)
  then (MutationKind.ResyncRequired, MutationDetail.ResyncRequired)
  else (kind, detail).

(** [remove_subtree]. *)
Definition remove_subtree (address : Address) : M t Error (MutationKind.t * MutationDetail.t) :=
  self <- get ;;
  if decide (nodes self !! address = None) then ret (MutationKind.Unchanged, MutationDetail.Unchanged)
  else
    let remove := subtree self address in
    bump_revision ;;;
    modify (fun self => set_nodes (filter (fun entry => entry.1 ∉ remove) (nodes self)) self) ;;;
    recalculate_bytes ;;;
    let removed := btree_keys ObjectAddress.cmp (gset_to_gmap tt remove) in
    ret (bounded_detail self removed MutationKind.Removed (MutationDetail.Removed removed)).

(** *** Applications *)

Definition owned_by (bus_name : string) (node : CachedNode.t) : Prop :=
  ObjectAddress.bus_name (CacheItem.application (CachedNode.item node)) = bus_name \/
  ObjectAddress.bus_name (CacheItem.object (CachedNode.item node)) = bus_name.
#[local] Instance owned_by_dec bus_name node : Decision (owned_by bus_name node).
Proof. unfold owned_by. apply _. Defined.

Definition known_application (self : t) (bus_name : string) : bool :=
  bool_decide (is_Some (application_generations self !! bus_name)) ||
  existsb (fun '(_, node) => bool_decide (owned_by bus_name node)) (map_to_list (nodes self)).

(** [CacheEvent::InvalidateApplication]; [None] when the event returns early, unchanged. *)
Definition invalidate_application (bus_name : string) : M t Error (MutationKind.t * MutationDetail.t) :=
  self <- get ;;
  reject_if (bus_name = ""%string \/ String.prefix ":" bus_name = false \/ MAX_ADDRESS_BYTES < byte_len bus_name)
    (InvalidAddress "application bus name is not a bounded unique name") ;;;
  if negb (known_application self bus_name) then ret (MutationKind.Unchanged, MutationDetail.Unchanged)
  else
    reject_if (application_generations self !! bus_name = None /\
               N.of_nat (size (application_generations self)) = CacheLimits.max_nodes (limits self))
      (LimitExceeded "application generation tombstones"
         (saturating_add (N.of_nat (size (application_generations self))) 1)
         (CacheLimits.max_nodes (limits self))) ;;;
    generation <- lift (ok_or (checked_add_u64 (application_generation self bus_name) 1)
                          (GenerationExhausted "application")) ;;
    let removed := take (N.to_nat (MAX_MUTATION_ADDRESSES + 1))
        (map fst (filter (fun entry : Address * CachedNode.t => owned_by bus_name entry.2)
           (btree_iter ObjectAddress.cmp (nodes self)))) in
    bump_revision ;;;
    modify (fun self =>
      set_application_generations (<[bus_name := generation]> (application_generations self)) self) ;;;
    modify (fun self =>
      set_nodes (filter (fun entry => ~ owned_by bus_name entry.2) (nodes self)) self) ;;;
    recalculate_bytes ;;;
    ret (bounded_detail self removed MutationKind.ApplicationInvalidated
           (MutationDetail.ApplicationInvalidated bus_name generation removed)).

(** [apply]. *)
Definition apply (event : CacheEvent.t) : M t Error CacheMutation.t :=
  mutation <- match event with
    | CacheEvent.Upsert item => upsert item
    | CacheEvent.Remove address => remove_subtree address
    | CacheEvent.InvalidateApplication bus_name => invalidate_application bus_name
    | CacheEvent.ProtocolGap =>
        bump_revision ;;;
        modify (set_nodes ∅) ;;;
        modify (set_bytes 0) ;;;
        ret (MutationKind.ResyncRequired, MutationDetail.ResyncRequired)
    end ;;
  self <- get ;;
  ret (CacheMutation.mk (revision self) mutation.1 mutation.2).

(** [invalidate_all]. *)
Definition invalidate_all : M t Error N :=
  revision <- bump_revision ;;
  modify (set_nodes ∅) ;;;
  modify (set_application_generations ∅) ;;;
  modify (set_bytes 0) ;;;
  ret revision.
End Operations.
End BoundedCache.
