(* ===== verification/AtspiCacheFacts.v ===== *)
(** * What the operations of the AT-SPI cache do

    The bytes of the nodes, the outcome of each operation on success and the state it leaves
    on failure, the subtree that a removal marks, and the invariant of the cache with what
    each change of its nodes does to it. *)

From stdpp Require Import base numbers list option gmap strings sorting.
From Stdlib Require Import Lia Ascii.
From S2P Require Import Prelude Binary64 Orderings AtspiCache.

Local Open Scope N_scope.

(** ** The order of the addresses *)
Section Order.
Import ObjectAddress.

Lemma address_cmp_total : total_cmp cmp.
Proof. apply total_then; apply (total_key _ String.compare), total_string. Qed.

Lemma address_cmp_eq x y : cmp x y = Eq <-> x = y.
Proof.
  split; [| intros ->; apply (total_refl _ address_cmp_total)].
  destruct x as [b p], y as [b' p']. unfold cmp. simpl.
  destruct (String.compare b b') eqn:Hb; simpl; [| done..].
  intros Hp. by rewrite (String.compare_eq_iff _ _ Hb), (String.compare_eq_iff _ _ Hp).
Qed.

Lemma address_cmp_gt x y : cmp x y = Gt <-> cmp y x = Lt.
Proof. rewrite (total_opp _ address_cmp_total x y). by destruct (cmp x y). Qed.
End Order.

Import BoundedCache.

(** ** Outcomes

    [outcome s0 m s Q]: a success of [m] from [s] satisfies [Q]; a failure leaves [s0]. *)
Definition outcome {A} (s0 : t) (m : M t CacheError.t A) (s : t) (Q : A -> t -> Prop) : Prop :=
  match m s with
  | (s', Ok a) => Q a s'
  | (s', Err _) => s' = s0
  end.

Lemma outcome_bind {A B} s0 (m : M t CacheError.t A) (k : A -> M t CacheError.t B) s Q :
  outcome s0 m s (fun a s' => outcome s0 (k a) s' Q) -> outcome s0 (bind m k) s Q.
Proof. unfold outcome, bind. by destruct (m s) as [s' [a | e]]. Qed.
Lemma outcome_ret {A} s0 (a : A) s (Q : A -> t -> Prop) : Q a s -> outcome s0 (ret a) s Q.
Proof. done. Qed.
Lemma outcome_get s0 s (Q : t -> t -> Prop) : Q s s -> outcome s0 get s Q.
Proof. done. Qed.
Lemma outcome_modify s0 f s (Q : unit -> t -> Prop) : Q tt (f s) -> outcome s0 (modify f) s Q.
Proof. done. Qed.
Lemma outcome_lift {A} (r : result A CacheError.t) s (Q : A -> t -> Prop) :
  (forall a, r = Ok a -> Q a s) -> outcome s (lift r) s Q.
Proof. unfold outcome, lift. destruct r; auto. Qed.
Lemma outcome_reject (P : Prop) `{Decision P} (e : CacheError.t) s (Q : unit -> t -> Prop) :
  (~ P -> Q tt s) -> outcome s (reject_if P e) s Q.
Proof. unfold outcome, reject_if. case_decide; simpl; auto. Qed.
Lemma outcome_weaken {A} s0 (m : M t CacheError.t A) s (Q R : A -> t -> Prop) :
  outcome s0 m s Q -> (forall a s', Q a s' -> R a s') -> outcome s0 m s R.
Proof. unfold outcome. destruct (m s) as [s' [a | e]]; auto. Qed.
Lemma outcome_bump s (Q : N -> t -> Prop) :
  (revision s < u64_max -> Q (revision s + 1) (set_revision (revision s + 1) s)) -> outcome s bump_revision s Q.
Proof.
  intros HQ. unfold outcome, bump_revision. cbn [bind get lift modify ret].
  destruct (checked_add_u64 (revision s) 1) as [n |] eqn:Hn; cbn [ok_or]; [| done].
  apply checked_add_u64_Some in Hn as [-> Hn]. apply HQ. lia.
Qed.

Ltac outcome_step :=
  lazymatch goal with
  | |- outcome _ (bind _ _) _ _ => apply outcome_bind
  | |- outcome _ get _ _ => apply outcome_get
  | |- outcome _ (modify _) _ _ => apply outcome_modify
  | |- outcome _ (ret _) _ _ => apply outcome_ret
  | |- outcome ?s (lift _) ?s _ => apply outcome_lift; intros ?a ?Ha
  | |- outcome ?s (reject_if _ _) ?s _ => apply outcome_reject; intros ?HP
  | |- outcome ?s bump_revision ?s _ => apply outcome_bump; intros ?Hrev
  end.
Ltac outcomes := repeat outcome_step.

(** ** Saturating sums *)
Lemma saturating_add_min a b : saturating_add (N.min a u64_max) b = N.min (a + b) u64_max.
Proof. unfold saturating_add. lia. Qed.
Lemma saturating_add_exact a b : a + b <= u64_max -> saturating_add a b = a + b.
Proof. unfold saturating_add. lia. Qed.
Lemma saturating_add_le a b : saturating_add a b <= u64_max.
Proof. unfold saturating_add. lia. Qed.

Section Facts.
Context (sizes : TypeSizes) (sha256 : list ascii -> list ascii).
#[local] Abbreviation Address := ObjectAddress.t.
#[local] Abbreviation estimate := (estimated_cached_node_bytes sizes).

(** The bytes of all nodes, without saturation. *)
Definition total_bytes (m : gmap Address CachedNode.t) : N := sum_N (map (fun entry => estimate entry.2) (map_to_list m)).

Lemma total_bytes_empty : total_bytes ∅ = 0.
Proof. unfold total_bytes. by rewrite map_to_list_empty. Qed.

Lemma sum_N_Permutation l k : l ≡ₚ k -> sum_N l = sum_N k.
Proof. induction 1; simpl; lia. Qed.

Lemma total_bytes_insert_new m a n : m !! a = None -> total_bytes (<[a := n]> m) = total_bytes m + estimate n.
Proof.
  intros Ha. unfold total_bytes. rewrite (sum_N_Permutation _ (map (fun entry => estimate entry.2) ((a, n) :: map_to_list m))).
  - simpl. lia.
  - by rewrite map_to_list_insert.
Qed.

Lemma total_bytes_delete m a n : m !! a = Some n -> total_bytes m = total_bytes (delete a m) + estimate n.
Proof.
  intros Ha. rewrite <- (insert_delete_id m a n Ha) at 1. apply total_bytes_insert_new, lookup_delete_eq.
Qed.

Lemma total_bytes_insert m a n :
  total_bytes (<[a := n]> m) = total_bytes m - from_option estimate 0 (m !! a) + estimate n.
Proof.
  rewrite <- insert_delete_eq, total_bytes_insert_new by apply lookup_delete_eq.
  destruct (m !! a) as [o |] eqn:Ha; simpl.
  - rewrite (total_bytes_delete m a o Ha). lia.
  - rewrite delete_id by done. lia.
Qed.

Lemma total_bytes_replaced m a : from_option estimate 0 (m !! a) <= total_bytes m.
Proof.
  destruct (m !! a) as [o |] eqn:Ha; simpl; [| lia]. rewrite (total_bytes_delete m a o Ha). lia.
Qed.

Lemma total_bytes_filter (P : Address * CachedNode.t -> Prop) `{!forall x, Decision (P x)} m :
  total_bytes (filter P m) <= total_bytes m.
Proof.
  induction m as [| a n m Ha IH] using map_ind.
  - rewrite map_filter_empty. lia.
  - rewrite (total_bytes_insert_new m) by done. destruct (decide (P (a, n))) as [HP | HP].
    + rewrite map_filter_insert_True, total_bytes_insert_new by (done || rewrite map_lookup_filter, Ha; done). lia.
    + rewrite map_filter_insert_False, delete_id by done. lia.
Qed.

Lemma fold_saturating (l : list (Address * CachedNode.t)) z :
  z <= u64_max ->
  fold_left (fun total '(_, node) => saturating_add total (estimate node)) l z =
  N.min (z + sum_N (map (fun entry => estimate entry.2) l)) u64_max.
Proof.
  revert z. induction l as [| [a n] l IH]; intros z Hz; simpl; [lia |].
  rewrite IH by apply saturating_add_le. unfold saturating_add. lia.
Qed.

(** What [recalculate_bytes] computes. *)
Lemma recalculated_bytes (m : gmap Address CachedNode.t) :
  total_bytes m <= u64_max ->
  fold_left (fun total '(_, node) => saturating_add total (estimate node)) (btree_iter ObjectAddress.cmp m) 0 =
  total_bytes m.
Proof.
  intros Hm. rewrite fold_saturating by (unfold u64_max; lia). unfold total_bytes in *.
  rewrite (sum_N_Permutation _ (map (fun entry => estimate entry.2) (map_to_list m)))
    by (by rewrite btree_iter_Permutation). lia.
Qed.

Lemma estimated_item_le item : estimated_item_bytes sizes item <= u64_max.
Proof.
  unfold estimated_item_bytes.
  assert (forall (l : list Address) b, b <= u64_max ->
    fold_left (fun bytes child => saturating_add (saturating_add bytes (byte_len (ObjectAddress.bus_name child)))
      (byte_len (ObjectAddress.object_path child))) l b <= u64_max) as Hchildren.
  { induction l as [| c l IH]; intros b Hb; simpl; [done |]. apply IH, saturating_add_le. }
  assert (forall (l : list string) b, b <= u64_max ->
    fold_left (fun bytes interface => saturating_add bytes (byte_len interface)) l b <= u64_max) as Hinterfaces.
  { induction l as [| c l IH]; intros b Hb; simpl; [done |]. apply IH, saturating_add_le. }
  apply Hchildren, Hinterfaces. destruct (CacheItem.parent item); apply saturating_add_le.
Qed.

Lemma validate_item_bytes_Ok item l b :
  validate_item_bytes sizes item l = Ok b <->
  b = estimated_item_bytes sizes item /\ b <= CacheLimits.max_item_bytes l.
Proof.
  unfold validate_item_bytes. rewrite and_then_Ok. split.
  - intros ([] & Hb%ensure_Ok & [= <-]). split; [done | lia].
  - intros [-> Hb]. exists tt. split; [apply ensure_pass; lia | done].
Qed.

Lemma validated_item_bytes item l :
  validate_normalized_item sizes item l = Ok tt -> estimated_item_bytes sizes item <= CacheLimits.max_item_bytes l.
Proof.
  unfold validate_normalized_item. rewrite and_then_Ok. intros ([] & _ & H).
  apply and_then_Ok in H as ([] & _ & H). apply and_then_Ok in H as (b & H%validate_item_bytes_Ok & _).
  by destruct H as [-> H].
Qed.

(** A node with one object exchanged, after every check of its admission has passed. *)
Record exchange (s : t) (item : CacheItem.t) (live : LiveMetadata.t) (node : CachedNode.t) (s' : t) : Prop := {
  exchange_item : validate_normalized_item sizes item (limits s) = Ok tt;
  exchange_live : validate_live_metadata live (limits s) = Ok tt;
  exchange_bytes : estimate node <= CacheLimits.max_item_bytes (limits s);
  exchange_total : bytes s - replaced_bytes sizes s (CacheItem.object item) + estimate node <=
                   CacheLimits.max_total_bytes (limits s);
  exchange_revision : revision s < u64_max;
  exchange_node : node = cached_node sha256 s item (revision s + 1) live;
  exchange_after : s' = mk (limits s) (<[CacheItem.object item := node]> (nodes s)) (application_generations s)
                     (revision s + 1) (bytes s - replaced_bytes sizes s (CacheItem.object item) + estimate node) }.

Lemma exchanged_bytes_Ok s object b total :
  exchanged_bytes sizes s object b = Ok total ->
  total = bytes s - replaced_bytes sizes s object + b /\ total <= CacheLimits.max_total_bytes (limits s).
Proof.
  unfold exchanged_bytes. rewrite and_then_Ok. intros (x & Hx%ok_or_Ok & H).
  apply and_then_Ok in H as ([] & Hle%ensure_Ok & [= <-]). apply checked_add_u64_Some in Hx as [-> _].
  split; [done | lia].
Qed.

Lemma insert_node_outcome s item live total what :
  outcome s (insert_node sha256 item live total what) s (fun node s' =>
    revision s < u64_max /\ node = cached_node sha256 s item (revision s + 1) live /\
    s' = mk (limits s) (<[CacheItem.object item := node]> (nodes s)) (application_generations s) (revision s + 1) total).
Proof.
  unfold insert_node. outcomes. unfold outcome, lift. simpl.
  rewrite lookup_insert_eq. done.
Qed.

Lemma default_live_validates l : validate_live_metadata LiveMetadata.default l = Ok tt.
Proof. unfold validate_live_metadata. rewrite ensure_pass by done. done. Qed.

Lemma estimate_default s item r :
  estimate (cached_node sha256 s item r LiveMetadata.default) = estimated_item_bytes sizes item.
Proof.
  unfold estimated_cached_node_bytes. simpl. rewrite saturating_add_exact; rewrite N.add_0_r; [done |].
  apply estimated_item_le.
Qed.

Lemma upsert_outcome s item :
  outcome s (upsert sizes sha256 item) s (fun mutation s' =>
    exists node, mutation = (MutationKind.Upserted, MutationDetail.Upserted node) /\
      (nodes s !! CacheItem.object item = None -> count s <> CacheLimits.max_nodes (limits s)) /\
      exchange s item LiveMetadata.default node s').
Proof.
  unfold upsert. outcomes. destruct a.
  apply validate_item_bytes_Ok in Ha0 as [-> Hb]. apply exchanged_bytes_Ok in Ha1 as [-> Htotal].
  eapply outcome_weaken; [apply insert_node_outcome |]. intros node s' (Hrev & -> & ->).
  apply outcome_ret. eexists. split; [done |]. split; [intros H1 H2; apply HP; done |].
  split; rewrite ?estimate_default; auto using default_live_validates.
Qed.

(** A refresh reads the same node, or exchanges it. *)
Definition refreshes (s : t) (item : CacheItem.t) (live : LiveMetadata.t) (mutation : CacheMutation.t) (s' : t) :
    Prop :=
  is_Some (nodes s !! CacheItem.object item) /\
  if unchanged_by s item live
  then s' = s /\ mutation = CacheMutation.mk (revision s) MutationKind.Unchanged MutationDetail.Unchanged
  else exists node, exchange s item live node s' /\
    mutation = CacheMutation.mk (revision s + 1) MutationKind.Refreshed (MutationDetail.Refreshed node).

Lemma refresh_outcome s refreshed :
  outcome s (refresh sizes sha256 refreshed) s
    (refreshes s (Refreshed.item refreshed) (Refreshed.live refreshed)).
Proof.
  unfold refresh, refreshes. destruct refreshed as [item live].
  cbn [Refreshed.item Refreshed.live]. outcomes. destruct a, a0.
  assert (is_Some (nodes s !! CacheItem.object item)) as Hsome
    by (by rewrite <- not_eq_None_Some).
  destruct (unchanged_by s item live); outcomes; [done |].
  apply validate_item_bytes_Ok in Ha1 as [-> Hb]. apply ok_or_Ok, checked_add_u64_Some in Ha2 as [-> Hsum].
  apply exchanged_bytes_Ok in Ha3 as [-> Htotal].
  eapply outcome_weaken; [apply insert_node_outcome |]. intros node s' (Hrev & Hnode & ->).
  outcomes. split; [done |]. exists node. split; [| done].
  assert (estimate node = estimated_item_bytes sizes item + estimated_live_metadata_bytes sizes live) as He.
  { rewrite Hnode. by apply saturating_add_exact. }
  split; rewrite ?He; auto. by apply N.nlt_ge.
Qed.

(** A removal of the nodes that satisfy [P], with the bytes counted again. *)
Lemma remove_subtree_outcome s address :
  outcome s (remove_subtree sizes address) s (fun mutation s' =>
    match nodes s !! address with
    | None => mutation = (MutationKind.Unchanged, MutationDetail.Unchanged) /\ s' = s
    | Some _ =>
        let removed := btree_keys ObjectAddress.cmp (gset_to_gmap tt (subtree s address)) in
        let left := filter (fun entry : Address * CachedNode.t => entry.1 ∉ subtree s address) (nodes s) in
        mutation = bounded_detail sizes s removed MutationKind.Removed (MutationDetail.Removed removed) /\
        revision s < u64_max /\
        s' = mk (limits s) left (application_generations s) (revision s + 1)
               (fold_left (fun total '(_, node) => saturating_add total (estimate node))
                  (btree_iter ObjectAddress.cmp left) 0)
    end).
Proof.
  unfold remove_subtree, recalculate_bytes. outcomes.
  destruct (decide (nodes s !! address = None)) as [-> | Hn]; outcomes; [done |].
  destruct (nodes s !! address); done.
Qed.

(** What a valid invalidation of a known application does. *)
Record invalidates (s : t) (bus_name : string) (mutation : MutationKind.t * MutationDetail.t) (s' : t) : Prop := {
  invalidates_known : known_application s bus_name = true;
  invalidates_room : application_generations s !! bus_name = None ->
    N.of_nat (size (application_generations s)) <> CacheLimits.max_nodes (limits s);
  invalidates_revision : revision s < u64_max;
  invalidates_generation : application_generation s bus_name < u64_max;
  invalidates_mutation :
    let removed := take (N.to_nat (MAX_MUTATION_ADDRESSES + 1))
        (map fst (filter (fun entry : Address * CachedNode.t => owned_by bus_name entry.2)
           (btree_iter ObjectAddress.cmp (nodes s)))) in
    mutation = bounded_detail sizes s removed MutationKind.ApplicationInvalidated
      (MutationDetail.ApplicationInvalidated bus_name (application_generation s bus_name + 1) removed);
  invalidates_after :
    let left := filter (fun entry : Address * CachedNode.t => ~ owned_by bus_name entry.2) (nodes s) in
    s' = mk (limits s) left (<[bus_name := application_generation s bus_name + 1]> (application_generations s))
           (revision s + 1)
           (fold_left (fun total '(_, node) => saturating_add total (estimate node))
              (btree_iter ObjectAddress.cmp left) 0) }.

Lemma invalidate_application_outcome s bus_name :
  outcome s (invalidate_application sizes bus_name) s (fun mutation s' =>
    known_application s bus_name = false /\ mutation = (MutationKind.Unchanged, MutationDetail.Unchanged) /\ s' = s \/
    invalidates s bus_name mutation s').
Proof.
  unfold invalidate_application, recalculate_bytes. outcomes.
  destruct (known_application s bus_name) eqn:Hk; cbn [negb]; outcomes; [| by left].
  apply ok_or_Ok, checked_add_u64_Some in Ha as [-> Hg]. right. split; try done; [| lia].
  intros H1 H2. by apply HP0.
Qed.

End Facts.

#[local] Abbreviation Node := CachedNode.t.
#[local] Abbreviation Address := ObjectAddress.t.

Definition parent_of (n : Node) : option Address := CacheItem.parent (CachedNode.item n).

(** [a] is [root], or the parent links of the cached nodes lead from it to [root]. *)
Inductive descends (m : gmap Address Node) (root : Address) : Address -> Prop :=
  | descends_root : descends m root root
  | descends_child p a n :
      descends m root p -> m !! a = Some n -> parent_of n = Some p -> descends m root a.

(** ** The index of children *)
Definition children_in (l : list (Address * Node)) (p : Address) : list Address :=
  map fst (filter (fun entry : Address * Node => parent_of entry.2 = Some p) l).

Lemma children_index_lookup m p :
  default [] (children_index m !! p) = children_in (btree_iter ObjectAddress.cmp m) p.
Proof.
  unfold children_index. generalize (btree_iter ObjectAddress.cmp m) as l. intros l.
  change (children_in l p) with (default [] ((∅ : gmap Address (list Address)) !! p) ++ children_in l p).
  generalize (∅ : gmap Address (list Address)) as c.
  induction l as [| [a n] l IH]; intros c; cbn [fold_left].
  { unfold children_in. by rewrite app_nil_r. }
  rewrite IH. unfold children_in at 2. rewrite filter_cons. cbn [snd].
  fold (parent_of n). case_decide as Hp.
  - rewrite Hp, lookup_insert_eq. unfold children_in. cbn [map fst]. simpl. by rewrite <- app_assoc.
  - destruct (parent_of n) as [q |]; [| done]. rewrite lookup_insert_ne by congruence. done.
Qed.

Lemma elem_of_children_in m p a :
  a ∈ children_in (btree_iter ObjectAddress.cmp m) p <-> exists n, m !! a = Some n /\ parent_of n = Some p.
Proof.
  unfold children_in. rewrite list_elem_of_fmap. split.
  - intros ([a' n] & -> & Hin). apply list_elem_of_filter in Hin as [Hp Hin%elem_of_btree_iter]. eauto.
  - intros (n & Ha & Hp). exists (a, n). split; [done |]. apply list_elem_of_filter. by rewrite elem_of_btree_iter.
Qed.

Lemma elem_of_rev {A} (x : A) l : x ∈ rev l <-> x ∈ l.
Proof. by rewrite !list_elem_of_In, <- in_rev. Qed.

(** ** The worklist *)
Section Mark.
Context (m : gmap Address Node).
#[local] Abbreviation entries := (btree_iter ObjectAddress.cmp m).

Definition outside (remove : gset Address) (entry : Address * Node) : Prop :=
  match parent_of entry.2 with Some p => p ∉ remove | None => False end.
#[export] Instance outside_dec remove entry : Decision (outside remove entry).
Proof. unfold outside. destruct (parent_of entry.2); apply _. Defined.

(** The addresses that may still be pushed. *)
Definition left_to_push (remove : gset Address) (l : list (Address * Node)) : nat :=
  length (filter (outside remove) l).

Lemma left_to_push_mark remove current l :
  current ∉ remove ->
  left_to_push remove l = (left_to_push ({[current]} ∪ remove) l + length (children_in l current))%nat.
Proof.
  intros Hc. unfold left_to_push, children_in. rewrite length_map.
  induction l as [| [a n] l IH]; [done |]. rewrite !filter_cons.
  case_decide as H1; case_decide as H2; case_decide as H3; unfold outside in H1, H2; cbn [snd] in H1, H2, H3;
    cbn [length]; destruct (parent_of n) as [p |]; try congruence; try lia;
    try (injection H3 as ->); set_solver.
Qed.

Lemma mark_subtree_ends fuel remove pending :
  (length pending + left_to_push remove entries < fuel)%nat ->
  is_Some (mark_subtree fuel (children_index m) remove pending).
Proof.
  revert remove pending. induction fuel as [| fuel IH]; intros remove pending Hf; [lia |].
  destruct pending as [| current pending]; [by eexists |]. cbn [mark_subtree]. simpl in Hf.
  case_decide as Hc; apply IH; [lia |].
  rewrite children_index_lookup, length_app, length_rev. rewrite (left_to_push_mark remove current) in Hf by done.
  lia.
Qed.

(** Between two steps: what is marked descends from the root and has its children marked
    or pending. *)
Record marking (root : Address) (remove : gset Address) (pending : list Address) : Prop := {
  marking_root : root ∈ remove \/ root ∈ pending;
  marking_sound a : a ∈ remove \/ a ∈ pending -> descends m root a;
  marking_closed p a n : p ∈ remove -> m !! a = Some n -> parent_of n = Some p -> a ∈ remove \/ a ∈ pending }.

Lemma mark_subtree_marks fuel root remove pending marked :
  marking root remove pending ->
  mark_subtree fuel (children_index m) remove pending = Some marked ->
  forall a, a ∈ marked <-> descends m root a.
Proof.
  revert remove pending. induction fuel as [| fuel IH]; intros remove pending [Hr Hs Hc] Hm; [done |].
  destruct pending as [| current pending]; cbn [mark_subtree] in Hm.
  - injection Hm as <-. intros a. split; [by auto |]. intros Ha. induction Ha as [| p a n Hp IHp Ha Hn].
    + destruct Hr as [Hr | Hr]; [done | by apply not_elem_of_nil in Hr].
    + destruct (Hc p a n) as [H' | H']; [done.. | by apply not_elem_of_nil in H'].
  - assert (descends m root current) as Hd by (apply Hs; right; left).
    case_decide as Hin; eapply IH; [| exact Hm | | exact Hm]; split.
    + destruct Hr as [? | [-> | ?]%elem_of_cons]; auto.
    + intros a [? | ?]; apply Hs; [by left | right; by right].
    + intros p a n Hp Ha Hn. destruct (Hc p a n Hp Ha Hn) as [? | [-> | ?]%elem_of_cons]; auto.
    + rewrite elem_of_union, elem_of_singleton, elem_of_app.
      destruct Hr as [? | [-> | ?]%elem_of_cons]; auto.
    + intros a. rewrite elem_of_union, elem_of_singleton, elem_of_app, elem_of_rev, children_index_lookup,
        elem_of_children_in.
      intros [[-> | Ha] | [(n & Ha & Hn) | Ha]]; [done | by apply Hs; left | by eapply descends_child |].
      apply Hs. right. by right.
    + intros p a n Hp Ha Hn.
      rewrite elem_of_union, elem_of_singleton, elem_of_app, elem_of_rev, children_index_lookup, elem_of_children_in.
      apply elem_of_union in Hp as [->%elem_of_singleton | Hp]; [by eauto 6 |].
      destruct (Hc p a n Hp Ha Hn) as [? | [-> | ?]%elem_of_cons]; auto.
Qed.

End Mark.

Lemma subtree_ends s root : is_Some (mark_subtree (subtree_fuel s) (children_index (nodes s)) ∅ [root]).
Proof.
  apply mark_subtree_ends. unfold subtree_fuel, left_to_push. simpl.
  pose proof (length_filter (outside ∅) (btree_iter ObjectAddress.cmp (nodes s))) as Hle.
  rewrite btree_iter_Permutation in Hle at 2. rewrite length_map_to_list in Hle. lia.
Qed.

Lemma subtree_spec s root a : a ∈ subtree s root <-> descends (nodes s) root a.
Proof.
  unfold subtree. destruct (subtree_ends s root) as [marked Hm].
  rewrite Hm. simpl. eapply mark_subtree_marks, Hm. split; [right; left | |].
  - intros b [Hb | ->%list_elem_of_singleton]; [set_solver | constructor].
  - set_solver.
Qed.

Section Invariant.
Context (sizes : TypeSizes) (sha256 : list ascii -> list ascii).
#[local] Abbreviation estimate := (estimated_cached_node_bytes sizes).

(** A node as the cache [s] keeps it under [a]. *)
Record node_wf (s : t) (a : Address) (n : CachedNode.t) : Prop := {
  node_address : CacheItem.object (CachedNode.item n) = a;
  node_item : validate_normalized_item sizes (CachedNode.item n) (limits s) = Ok tt;
  node_live : validate_live_metadata (CachedNode.live n) (limits s) = Ok tt;
  node_bytes : estimate n <= CacheLimits.max_item_bytes (limits s);
  node_generation : CachedNode.application_generation n =
    application_generation s (ObjectAddress.bus_name (CacheItem.application (CachedNode.item n)));
  node_fingerprint : CachedNode.identity_fingerprint n = identity_fingerprint sha256 (CachedNode.item n);
  node_revision : CachedNode.revision n <= revision s }.

Record cache_wf (s : t) : Prop := {
  wf_limits : CacheLimits.validate (limits s) = Ok (limits s);
  wf_machine : CacheLimits.max_total_bytes (limits s) <= u64_max;
  wf_nodes : map_Forall (node_wf s) (nodes s);
  wf_count : count s <= CacheLimits.max_nodes (limits s);
  wf_bytes : bytes s = total_bytes sizes (nodes s);
  wf_total : bytes s <= CacheLimits.max_total_bytes (limits s);
  wf_tombstones : N.of_nat (size (application_generations s)) <= CacheLimits.max_nodes (limits s);
  wf_revision : revision s <= u64_max }.

(** *** Insertion *)
Lemma node_wf_cached s s' item live :
  limits s' = limits s -> application_generations s' = application_generations s ->
  revision s' = revision s + 1 ->
  validate_normalized_item sizes item (limits s) = Ok tt ->
  validate_live_metadata live (limits s) = Ok tt ->
  estimate (cached_node sha256 s item (revision s + 1) live) <= CacheLimits.max_item_bytes (limits s) ->
  node_wf s' (CacheItem.object item) (cached_node sha256 s item (revision s + 1) live).
Proof.
  intros Hl Hg Hr Hi Hv Hb. split; simpl; rewrite ?Hl, ?Hr; auto.
  unfold application_generation. by rewrite Hg.
Qed.

Lemma node_wf_later s s' a n :
  limits s' = limits s -> revision s <= revision s' ->
  application_generation s' (ObjectAddress.bus_name (CacheItem.application (CachedNode.item n))) =
  application_generation s (ObjectAddress.bus_name (CacheItem.application (CachedNode.item n))) ->
  node_wf s a n -> node_wf s' a n.
Proof. intros Hl Hr Hg []. split; rewrite ?Hl; auto; [congruence | lia]. Qed.

Lemma exchange_wf s item live node s' :
  cache_wf s -> (nodes s !! CacheItem.object item = None -> count s <> CacheLimits.max_nodes (limits s)) ->
  exchange sizes sha256 s item live node s' -> cache_wf s'.
Proof.
  intros [Hl Hm Hn Hc Hb Ht Hg Hr] Hroom [Hi Hv Hnode Htotal Hrev -> ->].
  split; cbn [limits nodes application_generations revision bytes]; auto; [| | | lia].
  - apply map_Forall_insert_2.
    + by apply node_wf_cached.
    + intros a n Ha%Hn. by eapply node_wf_later, Ha; simpl; [| lia |].
  - unfold count in *. cbn [nodes]. destruct (nodes s !! CacheItem.object item) eqn:Ho.
    + rewrite map_size_insert_Some by eauto. done.
    + rewrite map_size_insert_None by done. specialize (Hroom eq_refl). lia.
  - rewrite total_bytes_insert, Hb. done.
Qed.

(** *** Removal *)
Lemma removal_wf s (P : Address * CachedNode.t -> Prop) `{!forall x, Decision (P x)} generations :
  cache_wf s -> revision s < u64_max ->
  N.of_nat (size generations) <= CacheLimits.max_nodes (limits s) ->
  (forall a n, nodes s !! a = Some n -> P (a, n) ->
    application_generation (set_application_generations generations s)
      (ObjectAddress.bus_name (CacheItem.application (CachedNode.item n))) =
    application_generation s (ObjectAddress.bus_name (CacheItem.application (CachedNode.item n)))) ->
  cache_wf (mk (limits s) (filter P (nodes s)) generations (revision s + 1)
    (fold_left (fun total '(_, node) => saturating_add total (estimate node))
       (btree_iter ObjectAddress.cmp (filter P (nodes s))) 0)).
Proof.
  intros [Hl Hm Hn Hc Hb Ht Hg Hr] Hrev Hsize Hgen.
  pose proof (total_bytes_filter sizes P (nodes s)) as Hle.
  rewrite recalculated_bytes by lia.
  split; cbn [limits nodes application_generations revision bytes]; auto; [| | lia..].
  - intros a n Ha. apply map_lookup_filter_Some in Ha as [Ha HP].
    eapply node_wf_later, (Hn _ _ Ha); [done | simpl; lia | by apply (Hgen a)].
  - unfold count in *. cbn [nodes]. pose proof (map_size_filter P (nodes s)) as Hf. lia.
Qed.

Lemma cleared_wf s generations :
  cache_wf s -> revision s < u64_max -> N.of_nat (size generations) <= CacheLimits.max_nodes (limits s) ->
  cache_wf (mk (limits s) ∅ generations (revision s + 1) 0).
Proof.
  intros [Hl Hm Hn Hc Hb Ht Hg Hr] Hrev Hsize.
  split; cbn [limits nodes application_generations revision bytes]; auto; try lia.
  - apply map_Forall_empty.
  - unfold count. cbn [nodes]. rewrite map_size_empty. lia.
Qed.

(** *** Replacement *)
Definition insert_items (s : t) (r : N) (items : list CacheItem.t) (m : gmap Address CachedNode.t) :
    gmap Address CachedNode.t :=
  fold_left (fun nodes item =>
    <[CacheItem.object item := cached_node sha256 s item r LiveMetadata.default]> nodes) items m.

Lemma size_list_to_set_le (l : list Address) : (size (list_to_set l : gset Address) <= length l)%nat.
Proof.
  induction l as [| x l IH]; simpl.
  { change (size (∅ : gset Address) <= 0)%nat. rewrite size_empty. lia. }
  rewrite size_union_alt, size_singleton.
  assert (list_to_set l ∖ {[x]} ⊆ (list_to_set l : gset Address)) as Hle%subseteq_size by set_solver. lia.
Qed.

Lemma size_list_to_set_NoDup (l : list Address) : size (list_to_set l : gset Address) = length l -> NoDup l.
Proof.
  induction l as [| x l IH]; simpl; intros Hs; [constructor |].
  destruct (decide (x ∈ l)) as [Hx | Hx].
  - assert ({[x]} ∪ list_to_set l = (list_to_set l : gset Address)) as Hu.
    { apply set_eq. intros y. rewrite elem_of_union, elem_of_singleton, elem_of_list_to_set. naive_solver. }
    rewrite Hu in Hs. pose proof (size_list_to_set_le l) as Hle. exfalso. lia.
  - constructor; [done |]. apply IH.
    rewrite size_union, size_singleton in Hs; [lia |].
    intros y ->%elem_of_singleton Hy%elem_of_list_to_set. done.
Qed.

Lemma insert_items_facts s r items m :
  NoDup (map CacheItem.object items) -> (forall item, item ∈ items -> m !! CacheItem.object item = None) ->
  total_bytes sizes (insert_items s r items m) =
    total_bytes sizes m + sum_N (map (estimated_item_bytes sizes) items) /\
  size (insert_items s r items m) = (size m + length items)%nat /\
  (forall a n, insert_items s r items m !! a = Some n <->
     m !! a = Some n \/ exists item, item ∈ items /\ CacheItem.object item = a /\
       n = cached_node sha256 s item r LiveMetadata.default).
Proof.
  revert m. induction items as [| item items IH]; intros m Hnodup Hfresh.
  { simpl. split_and!; [lia | lia |]. intros a n. split; [eauto |]. intros [H | (item & Hin & _)]; [done | set_solver]. }
  simpl in Hnodup. apply NoDup_cons in Hnodup as [Hnew Hnodup].
  assert (m !! CacheItem.object item = None) as Hm by (apply Hfresh; set_solver).
  destruct (IH (<[CacheItem.object item := cached_node sha256 s item r LiveMetadata.default]> m)) as (Ht & Hs & Hl).
  { done. }
  { intros i Hi. rewrite lookup_insert_ne; [apply Hfresh; set_solver |]. intros Heq. apply Hnew.
    rewrite Heq. apply list_elem_of_In, in_map, list_elem_of_In, Hi. }
  cbn [insert_items fold_left] in *. unfold insert_items in *. split_and!.
  - rewrite Ht, total_bytes_insert_new by done. rewrite estimate_default. simpl. lia.
  - rewrite Hs, map_size_insert_None by done. simpl. lia.
  - intros a n. rewrite Hl. split.
    + intros [Ha | (i & Hi & Ho & ->)]; [| right; exists i; split; [set_solver | done]].
      apply lookup_insert_Some in Ha as [[<- <-] | [_ Ha]]; [right; exists item; split; [set_solver | done] | by left].
    + intros [Ha | (i & [-> | Hi]%elem_of_cons & <- & ->)].
      * left. apply lookup_insert_Some. right. split; [congruence | done].
      * left. by rewrite lookup_insert_eq.
      * right. eauto.
Qed.

(** The bytes of the items of a bootstrap, each of which is admitted. *)
Lemma bootstrap_total l items z r :
  try_fold (fun total_bytes item =>
      try! validate_normalized_item sizes item l in
      let? item_bytes := validate_item_bytes sizes item l in
      ok_or (checked_add_u64 total_bytes item_bytes)
        (CacheError.LimitExceeded "total cache bytes" u64_max (CacheLimits.max_total_bytes l))) z items = Ok r ->
  Forall (fun item => validate_normalized_item sizes item l = Ok tt) items /\
  r = z + sum_N (map (estimated_item_bytes sizes) items).
Proof.
  revert z. induction items as [| item items IH]; intros z; cbn [try_fold].
  { intros [= <-]. split; [constructor | simpl; lia]. }
  intros (z' & Hz & Hr)%and_then_Ok. apply IH in Hr as [Hall ->].
  apply and_then_Ok in Hz as ([] & Hv & Hz). apply and_then_Ok in Hz as (b & [-> _]%validate_item_bytes_Ok & Hz).
  apply ok_or_Ok, checked_add_u64_Some in Hz as [-> _]. split; [by constructor |]. simpl. lia.
Qed.

(** What a bootstrap that is admitted does. *)
Record replaces (s : t) (items : list CacheItem.t) (r : N) (s' : t) : Prop := {
  replaces_count : len items <= CacheLimits.max_nodes (limits s);
  replaces_objects : NoDup (map CacheItem.object items);
  replaces_items : Forall (fun item => validate_normalized_item sizes item (limits s) = Ok tt) items;
  replaces_total : sum_N (map (estimated_item_bytes sizes) items) <= CacheLimits.max_total_bytes (limits s);
  replaces_revision : r = revision s + 1 /\ revision s < u64_max;
  replaces_after : s' = mk (limits s) (insert_items s r items ∅) (application_generations s) r
                     (sum_N (map (estimated_item_bytes sizes) items)) }.

Lemma replace_outcome s items : outcome s (replace sizes sha256 items) s (replaces s items).
Proof.
  unfold replace. outcomes. apply bootstrap_total in Ha as [Hall ->]. rewrite N.add_0_l in *.
  split; auto; [by apply N.nlt_ge | apply size_list_to_set_NoDup; rewrite length_map; by apply dec_stable | by apply N.nlt_ge].
Qed.

Lemma replaces_wf s items r s' : cache_wf s -> replaces s items r s' -> cache_wf s'.
Proof.
  intros [Hl Hm Hn Hc Hb Ht Hg Hr] [Hcount Hnodup Hitems Htotal [-> Hrev] ->].
  destruct (insert_items_facts s (revision s + 1) items ∅ Hnodup) as (Htb & Hsz & Hlook).
  { intros item _. apply lookup_empty. }
  split; cbn [limits nodes application_generations revision bytes]; auto; try lia.
  - intros a n Ha. apply Hlook in Ha as [Ha | (item & Hin & <- & ->)]; [by rewrite lookup_empty in Ha |].
    rewrite Forall_forall in Hitems. specialize (Hitems _ Hin).
    apply node_wf_cached; auto using default_live_validates. rewrite estimate_default. by apply validated_item_bytes.
  - unfold count, len in *. cbn [nodes]. rewrite Hsz, map_size_empty. lia.
Qed.

End Invariant.
