(* ===== verification/AtspiGuarantees.v ===== *)
(** * What the AT-SPI cache guarantees

    Runs of the operations keep the invariant and number the states by their revision; a
    mutation tells a mirror exactly what changed; a removal takes a subtree; and pages read
    at one revision are, together, the cache of that revision. *)

From stdpp Require Import base numbers list option gmap strings sorting.
From Stdlib Require Import Lia Ascii.
From S2P Require Import Prelude Binary64 Orderings AtspiCache AtspiCacheFacts.

Local Open Scope N_scope.

Import BoundedCache.
#[local] Abbreviation Address := ObjectAddress.t.
#[local] Abbreviation Node := CachedNode.t.

(** What a mirror of the nodes does with a mutation; [None] when it must start again. *)
Definition mirror (detail : MutationDetail.t) (m : gmap Address Node) : option (gmap Address Node) :=
  match detail with
  | MutationDetail.Upserted n | MutationDetail.Refreshed n => Some (<[CacheItem.object (CachedNode.item n) := n]> m)
  | MutationDetail.Removed l | MutationDetail.ApplicationInvalidated _ _ l => Some (fold_right delete m l)
  | MutationDetail.Unchanged => Some m
  | MutationDetail.ResyncRequired => None
  end.

(** The kind that names a detail. *)
Definition kind_of (detail : MutationDetail.t) : MutationKind.t :=
  match detail with
  | MutationDetail.Upserted _ => MutationKind.Upserted
  | MutationDetail.Refreshed _ => MutationKind.Refreshed
  | MutationDetail.Removed _ => MutationKind.Removed
  | MutationDetail.ApplicationInvalidated _ _ _ => MutationKind.ApplicationInvalidated
  | MutationDetail.Unchanged => MutationKind.Unchanged
  | MutationDetail.ResyncRequired => MutationKind.ResyncRequired
  end.

Definition is_unchanged (detail : MutationDetail.t) : bool :=
  match detail with MutationDetail.Unchanged => true | _ => false end.

Lemma lookup_delete_all (l : list Address) (m : gmap Address Node) a :
  fold_right delete m l !! a = if decide (a ∈ l) then None else m !! a.
Proof.
  induction l as [| b l IH]; cbn [fold_right].
  - rewrite decide_False by apply not_elem_of_nil. done.
  - destruct (decide (a = b)) as [-> | Hab].
    + rewrite lookup_delete_eq, decide_True by left. done.
    + rewrite lookup_delete_ne, IH by done. destruct (decide (a ∈ l)).
      * by rewrite decide_True by (by right).
      * by rewrite decide_False by (rewrite elem_of_cons; naive_solver).
Qed.

Lemma delete_all_filter (P : Address * Node -> Prop) `{!forall x, Decision (P x)} (l : list Address)
    (m : gmap Address Node) :
  (forall a n, m !! a = Some n -> a ∈ l <-> ~ P (a, n)) -> fold_right delete m l = filter P m.
Proof.
  intros Hl. apply map_eq. intros a. rewrite lookup_delete_all, map_lookup_filter.
  destruct (m !! a) as [n |] eqn:Ha; simpl; [| by case_decide].
  specialize (Hl a n Ha). case_decide as Hin; case_guard as HP; simpl; naive_solver.
Qed.

Section Guarantees.
Context (sizes : TypeSizes) (sha256 : list ascii -> list ascii).

(** ** Mutations *)

(** What a mutation says of the states before and after it. *)
Record tells (s : t) (m : CacheMutation.t) (s' : t) : Prop := {
  tells_wf : cache_wf sizes sha256 s';
  tells_kind : CacheMutation.kind m = kind_of (CacheMutation.detail m);
  tells_revision : CacheMutation.revision m = revision s';
  tells_nodes : mirror (CacheMutation.detail m) (nodes s) = Some (nodes s') \/
                CacheMutation.detail m = MutationDetail.ResyncRequired;
  tells_change : if is_unchanged (CacheMutation.detail m)
                 then s' = s else revision s' = revision s + 1 }.

Lemma exchange_tells s item live node s' (detail : MutationDetail.t) :
  cache_wf sizes sha256 s ->
  (nodes s !! CacheItem.object item = None -> count s <> CacheLimits.max_nodes (limits s)) ->
  exchange sizes sha256 s item live node s' ->
  detail = MutationDetail.Upserted node \/ detail = MutationDetail.Refreshed node ->
  tells s (CacheMutation.mk (revision s + 1) (kind_of detail) detail) s'.
Proof.
  intros Hwf Hroom Hex Hd. pose proof (exchange_wf _ _ _ _ _ _ _ Hwf Hroom Hex) as Hwf'.
  destruct Hex as [_ _ _ _ _ Hnode ->]. split; cbn [CacheMutation.kind CacheMutation.detail CacheMutation.revision nodes revision]; auto.
  - left. rewrite Hnode in Hd |- *. by destruct Hd as [-> | ->].
  - by destruct Hd as [-> | ->].
Qed.

Lemma unchanged_tells s :
  cache_wf sizes sha256 s ->
  tells s (CacheMutation.mk (revision s) MutationKind.Unchanged MutationDetail.Unchanged) s.
Proof. intros Hwf. by split; auto. Qed.

(** A removal whose addresses are reported in full, or not at all. *)
Lemma removal_tells s (P : Address * Node -> Prop) `{!forall x, Decision (P x)} generations
    (removed : list Address) (detail : MutationDetail.t) mutation s' :
  cache_wf sizes sha256 s -> revision s < u64_max ->
  mutation = bounded_detail sizes s removed (kind_of detail) detail ->
  s' = mk (limits s) (filter P (nodes s)) generations (revision s + 1)
    (fold_left (fun total '(_, node) => saturating_add total (estimated_cached_node_bytes sizes node))
       (btree_iter ObjectAddress.cmp (filter P (nodes s))) 0) ->
  cache_wf sizes sha256 s' ->
  (len removed <= MAX_MUTATION_ADDRESSES -> mirror detail (nodes s) = Some (filter P (nodes s))) ->
  is_unchanged detail = false ->
  tells s (CacheMutation.mk (revision s') mutation.1 mutation.2) s'.
Proof.
  intros Hwf Hrev -> Hs' Hwf' Hmirror Hd. subst s'. unfold bounded_detail.
  split; cbn [CacheMutation.kind CacheMutation.detail CacheMutation.revision nodes revision]; auto;
    case_decide as Hb; cbn [fst snd]; auto.
  - left. apply Hmirror. apply N.nlt_ge. intros Hlong. apply Hb. by left.
  - done.
  - by rewrite Hd.
Qed.

Lemma removed_subtree_tells s address :
  cache_wf sizes sha256 s ->
  outcome s (remove_subtree sizes address) s
    (fun mutation s' => tells s (CacheMutation.mk (revision s') mutation.1 mutation.2) s').
Proof.
  intros Hwf. eapply outcome_weaken; [apply remove_subtree_outcome |]. intros mutation s' Ho.
  destruct (nodes s !! address) as [n |] eqn:Ha.
  - destruct Ho as (-> & Hrev & Hs').
    eapply (removal_tells s (fun entry => entry.1 ∉ subtree s address) _ _ (MutationDetail.Removed _)); eauto.
    + rewrite Hs'. apply removal_wf; auto. by destruct Hwf.
    + intros _. simpl. f_equal. apply delete_all_filter. intros a b _. rewrite elem_of_btree_keys. simpl.
      rewrite <- elem_of_dom, dom_gset_to_gmap. simpl.
      destruct (decide (a ∈ subtree s address)); naive_solver.
  - destruct Ho as [-> ->]. by apply unchanged_tells.
Qed.

Lemma invalidation_tells s bus_name mutation s' :
  cache_wf sizes sha256 s -> invalidates sizes s bus_name mutation s' ->
  tells s (CacheMutation.mk (revision s') mutation.1 mutation.2) s'.
Proof.
  intros Hwf [Hk Hroom Hrev Hgen Hm Hs']. pose proof (wf_tombstones _ _ _ Hwf) as Htomb.
  eapply (removal_tells s (fun entry => ~ owned_by bus_name entry.2) _ _ (MutationDetail.ApplicationInvalidated _ _ _));
    eauto.
  - rewrite Hs'. apply removal_wf; auto.
    + destruct (application_generations s !! bus_name) eqn:Hb.
      * rewrite map_size_insert_Some by eauto. done.
      * rewrite map_size_insert_None by done. specialize (Hroom eq_refl). lia.
    + intros a n Ha HP. unfold application_generation. cbn [application_generations set_application_generations].
      rewrite lookup_insert_ne; [done |]. intros Hb. apply HP. by left.
  - intros Hlen. simpl. f_equal. apply delete_all_filter. intros a n Ha.
    set (l := map fst _) in *. assert (take (N.to_nat (MAX_MUTATION_ADDRESSES + 1)) l = l) as ->.
    { apply take_ge. unfold len in Hlen. rewrite length_take in Hlen. lia. }
    unfold l. rewrite list_elem_of_fmap. split.
    + intros ([a' n'] & -> & Hin). apply list_elem_of_filter in Hin as [Ho Hin%elem_of_btree_iter].
      cbn [fst snd] in *. rewrite Ha in Hin. injection Hin as ->. auto.
    + intros Ho. exists (a, n). split; [done |]. apply list_elem_of_filter. rewrite elem_of_btree_iter.
      split; [| done]. by apply dec_stable.
Qed.

Lemma cleared_tells s :
  cache_wf sizes sha256 s -> revision s < u64_max ->
  tells s (CacheMutation.mk (revision s + 1) MutationKind.ResyncRequired MutationDetail.ResyncRequired)
    (mk (limits s) ∅ (application_generations s) (revision s + 1) 0).
Proof.
  intros Hwf Hrev. split; auto; [| done]. apply cleared_wf; auto. by destruct Hwf.
Qed.

Lemma apply_tells s event :
  cache_wf sizes sha256 s -> outcome s (apply sizes sha256 event) s (tells s).
Proof.
  intros Hwf. unfold apply. outcome_step.
  apply (outcome_weaken s _ s (fun mutation s' => tells s (CacheMutation.mk (revision s') mutation.1 mutation.2) s')).
  2: { intros mutation s' Ht. by outcomes. }
  destruct event as [item | address | bus_name |].
  - eapply outcome_weaken; [apply upsert_outcome |]. intros mutation s' (node & -> & Hroom & Hex).
    pose proof (exchange_tells s item _ node s' (MutationDetail.Upserted node) Hwf Hroom Hex (or_introl eq_refl)) as Ht.
    pose proof (tells_revision _ _ _ Ht) as Hr. simpl in Hr. by rewrite <- Hr.
  - by apply removed_subtree_tells.
  - eapply outcome_weaken; [apply invalidate_application_outcome |].
    intros mutation s' [(_ & -> & ->) | Ho]; [by apply unchanged_tells | by eapply invalidation_tells].
  - outcomes. by apply cleared_tells.
Qed.

Lemma refresh_tells s refreshed :
  cache_wf sizes sha256 s -> outcome s (refresh sizes sha256 refreshed) s (tells s).
Proof.
  intros Hwf. eapply outcome_weaken; [apply refresh_outcome |]. intros m s' [Hin Ho].
  destruct (unchanged_by s _ _).
  - destruct Ho as [-> ->]. by apply unchanged_tells.
  - destruct Ho as (node & Hex & ->).
    apply (exchange_tells s _ _ node s' (MutationDetail.Refreshed node) Hwf) in Hex; auto.
    intros Hnone. rewrite Hnone in Hin. by destruct Hin.
Qed.

(** ** Runs *)

(** One call of a method of the actor's cache, which may fail. *)
Inductive cache_step (s s' : t) : Prop :=
  | step_replace items : s' = fst (replace sizes sha256 items s) -> cache_step s s'
  | step_refresh refreshed : s' = fst (refresh sizes sha256 refreshed s) -> cache_step s s'
  | step_apply event : s' = fst (apply sizes sha256 event s) -> cache_step s s'
  | step_invalidate_all : s' = fst (invalidate_all s) -> cache_step s s'.

Definition cache_steps : t -> t -> Prop := steps cache_step.

Lemma outcome_after {A} (m : M t CacheError.t A) s (Q : A -> t -> Prop) :
  outcome s m s Q -> fst (m s) = s \/ exists a, Q a (fst (m s)).
Proof. unfold outcome. destruct (m s) as [s' [a | e]]; simpl; eauto. Qed.

Lemma tells_keeps s m s' :
  tells s m s' -> cache_wf sizes sha256 s' /\ (s' = s \/ revision s' = revision s + 1).
Proof. intros [Hwf _ _ _ Hc]. destruct (is_unchanged _); auto. Qed.

Lemma cache_step_keeps s s' :
  cache_wf sizes sha256 s -> cache_step s s' ->
  cache_wf sizes sha256 s' /\ (s' = s \/ revision s' = revision s + 1).
Proof.
  intros Hwf [items -> | refreshed -> | event -> | ->].
  - destruct (outcome_after _ _ _ (replace_outcome sizes sha256 s items)) as [-> | [r Hr]]; [auto |].
    split; [by eapply replaces_wf |]. destruct Hr as [_ _ _ _ [-> _] ->]. auto.
  - destruct (outcome_after _ _ _ (refresh_tells s refreshed Hwf)) as [-> | [m Hm]]; [auto |].
    by apply (tells_keeps _ m).
  - destruct (outcome_after _ _ _ (apply_tells s event Hwf)) as [-> | [m Hm]]; [auto |].
    by apply (tells_keeps _ m).
  - pose proof (outcome_bump s) as Hb. unfold invalidate_all, bind, modify, ret. unfold outcome in Hb.
    specialize (Hb (fun _ s' => s' = set_revision (revision s + 1) s /\ revision s < u64_max)).
    destruct (bump_revision s) as [s1 [r | e]]; cbn [fst]; [| rewrite Hb; auto].
    destruct Hb as [-> Hrev]; [done |]. split; [| by right].
    apply (cleared_wf sizes sha256 s ∅); auto. rewrite map_size_empty. lia.
Qed.

Lemma cache_steps_wf s s' : cache_steps s s' -> cache_wf sizes sha256 s -> cache_wf sizes sha256 s'.
Proof. apply steps_invariant. intros a b Ha Hab. by apply (cache_step_keeps a b Ha). Qed.

Lemma cache_steps_revision s s' :
  cache_steps s s' -> cache_wf sizes sha256 s -> revision s <= revision s' /\ (revision s' = revision s -> s' = s).
Proof.
  intros Hst. induction Hst as [s | s u s' Hst IH Hus]; intros Hwf; [split; [lia | done] |].
  destruct (IH Hwf) as [Hle Heq]. pose proof (cache_steps_wf _ _ Hst Hwf) as Hwf'.
  destruct (cache_step_keeps _ _ Hwf' Hus) as [_ [-> | Hr]]; [done |]. split; [lia |]. intros H. lia.
Qed.

Lemma new_wf limits0 s :
  CacheLimits.max_total_bytes limits0 <= u64_max -> new limits0 = Ok s -> cache_wf sizes sha256 s.
Proof.
  intros Hm Hnew. unfold new in Hnew. apply and_then_Ok in Hnew as (l & Hl & [= <-]).
  assert (l = limits0) as ->.
  { unfold CacheLimits.validate in Hl. repeat apply and_then_Ok in Hl as ([] & _ & Hl). by injection Hl. }
  split; cbn [limits nodes application_generations revision bytes]; auto; try (unfold u64_max; lia).
  - apply map_Forall_empty.
  - unfold count. cbn [nodes]. rewrite map_size_empty. lia.
  - rewrite map_size_empty. lia.
Qed.
End Guarantees.

(** ** The order of the iteration *)
Definition entry_lt (x y : Address * Node) : Prop := ObjectAddress.cmp x.1 y.1 = Lt.

Lemma strictly_sorted (l : list (Address * Node)) :
  Sorted.StronglySorted (fun x y : Address * Node => ordering_le (ObjectAddress.cmp x.1 y.1)) l -> NoDup l.*1 ->
  Sorted.StronglySorted entry_lt l.
Proof.
  induction 1 as [| x l Hl IH Hx]; simpl; intros Hd; [constructor |].
  apply NoDup_cons in Hd as [Hnew Hd]. constructor; [auto |].
  rewrite Forall_forall in Hx |- *. intros y Hy. unfold entry_lt. specialize (Hx y Hy). unfold ordering_le in Hx.
  destruct (ObjectAddress.cmp x.1 y.1) eqn:Hc; [| done | done].
  apply address_cmp_eq in Hc. exfalso. apply Hnew. rewrite Hc. by apply list_elem_of_fmap_2.
Qed.

Lemma iter_sorted (m : gmap Address Node) : Sorted.StronglySorted entry_lt (btree_iter ObjectAddress.cmp m).
Proof.
  apply strictly_sorted; [| apply NoDup_btree_keys].
  apply (sort_sorted (fun x y : Address * Node => ObjectAddress.cmp x.1 y.1)); [| done].
  apply (total_key fst), address_cmp_total.
Qed.

Lemma sorted_filter (P : Address * Node -> Prop) `{!forall x, Decision (P x)} l :
  Sorted.StronglySorted entry_lt l -> Sorted.StronglySorted entry_lt (filter P l).
Proof.
  induction 1 as [| x l Hl IH Hx]; [constructor |]. rewrite filter_cons. case_decide; [| done].
  constructor; [done |]. rewrite Forall_forall in Hx |- *. intros y Hy. apply Hx. by apply list_elem_of_filter in Hy as [_ Hy].
Qed.

Lemma beyond_trans after a b : beyond after a = true -> beyond (Some a) b = true -> beyond after b = true.
Proof.
  destruct after as [x |]; [| done]. unfold beyond. rewrite !bool_decide_eq_true, !address_cmp_gt.
  intros Hx Ha. apply (total_lt_l _ address_cmp_total x a b); [done | by rewrite Ha].
Qed.

(** What is beyond the last of a page is the rest. *)
Lemma beyond_last after l more rest a n :
  Sorted.StronglySorted entry_lt l ->
  filter (fun entry : Address * Node => beyond after entry.1 = true) l = more ++ rest ->
  last more = Some (a, n) ->
  filter (fun entry : Address * Node => beyond (Some a) entry.1 = true) l = rest.
Proof.
  intros Hl Hsplit Hlast.
  assert ((a, n) ∈ more) as Hin by (by apply last_Some_elem_of).
  assert (beyond after a = true) as Ha.
  { assert ((a, n) ∈ more ++ rest) as Hf by set_solver. rewrite <- Hsplit in Hf.
    by apply list_elem_of_filter in Hf as [? _]. }
  transitivity (filter (fun entry : Address * Node => beyond (Some a) entry.1 = true)
    (filter (fun entry : Address * Node => beyond after entry.1 = true) l)).
  { rewrite filter_filter_and. apply filter_ext. intros [b m] _. cbn [fst]. split; [| by intros [_ ?]].
    intros Hb. split; [| done]. by eapply beyond_trans. }
  rewrite Hsplit. pose proof (sorted_filter (fun entry : Address * Node => beyond after entry.1 = true) l Hl) as Hs.
  rewrite Hsplit in Hs. apply last_Some in Hlast as [init ->].
  assert (forall x, x ∈ rest -> entry_lt (a, n) x) as Hrest.
  { intros x Hx. apply (StronglySorted_app_1_elem_of _ _ _ _ _ Hs); [set_solver | done]. }
  assert (forall x, x ∈ init -> entry_lt x (a, n)) as Hinit.
  { intros x Hx. rewrite <- app_assoc in Hs. apply (StronglySorted_app_1_elem_of _ _ _ _ _ Hs); set_solver. }
  rewrite filter_app, (filter_none _ (init ++ [(a, n)])), filter_all; [done | |].
  - intros x Hx. specialize (Hrest x Hx). unfold beyond. by rewrite bool_decide_eq_true, address_cmp_gt.
  - intros x [Hx | ->%list_elem_of_singleton]%elem_of_app; unfold beyond; rewrite bool_decide_eq_true.
    + specialize (Hinit x Hx). unfold entry_lt in Hinit. simpl in Hinit. by rewrite Hinit.
    + simpl. by rewrite (total_refl _ address_cmp_total).
Qed.

Section Pages.
Context (sizes : TypeSizes) (sha256 : list ascii -> list ascii).
#[local] Abbreviation estimate := (estimated_cached_node_bytes sizes).

Definition entries_bytes (l : list (Address * Node)) : N := sum_N (map (fun entry => estimate entry.2) l).

(** The entries that a page may show. *)
Definition eligible (s : t) (after : option Address) : list (Address * Node) :=
  filter (fun entry : Address * Node => beyond after entry.1 = true) (btree_iter ObjectAddress.cmp (nodes s)).

(** ** One page *)
Lemma take_page_Ok max_nodes max_bytes taken b l taken' b' rest :
  take_page sizes max_nodes max_bytes taken b l = Ok (taken', b', rest) ->
  0 < max_nodes -> b <= max_bytes -> len taken <= max_nodes ->
  exists more, taken' = taken ++ more /\ l = more ++ rest /\ b' = b + entries_bytes more /\
    b' <= max_bytes /\ len taken' <= max_nodes /\ (rest <> [] -> taken' <> []).
Proof.
  revert taken b. induction l as [| [a n] l IH]; intros taken b Ht Hm Hb Hlen; cbn [take_page] in Ht.
  { injection Ht as <- <- <-. exists []. rewrite app_nil_r. unfold entries_bytes. simpl. split_and!; auto; lia. }
  assert (forall (P : taken <> []), exists more, taken = taken ++ more /\ (a, n) :: l = more ++ (a, n) :: l /\
    b = b + entries_bytes more /\ b <= max_bytes /\ len taken <= max_nodes /\ ((a, n) :: l <> [] -> taken <> [])) as Hstop.
  { intros Hne. exists []. rewrite app_nil_r. unfold entries_bytes. simpl. split_and!; auto; lia. }
  case_decide as Hroom.
  - apply and_then_Ok in Ht as (next & Hn%ok_or_Ok & Ht). apply checked_add_u64_Some in Hn as [-> _].
    case_decide as Hbytes.
    + destruct taken as [| e taken]; [done |]. injection Ht as <- <- <-. by apply Hstop.
    + apply IH in Ht as (more & -> & -> & -> & Hle & Hl & Hne); auto; [| lia |].
      * exists ((a, n) :: more). rewrite <- app_assoc in *. unfold entries_bytes in *. simpl. split_and!; auto; lia.
      * rewrite len_app, len_cons, len_nil. lia.
  - injection Ht as <- <- <-. apply Hstop. intros ->. rewrite len_nil in Hroom. lia.
Qed.

(** What a page says: a prefix of what is beyond [after], within its limits, and where the
    next page continues. *)
Record page_shows (s : t) (after : option Address) (max_nodes max_bytes : N) (p : CachePage.t)
    (more rest : list (Address * Node)) : Prop := {
  shows_split : eligible s after = more ++ rest;
  shows_nodes : CachePage.nodes p = map snd more;
  shows_bytes : CachePage.estimated_bytes p = entries_bytes more;
  shows_max_bytes : CachePage.estimated_bytes p <= max_bytes;
  shows_max_nodes : len more <= max_nodes;
  shows_progress : rest <> [] -> more <> [];
  shows_next : CachePage.next_after p = match rest with [] => None | _ => fst <$> last more end;
  shows_revision : CachePage.revision p = revision s }.

Lemma page_Ok s generation after max_nodes max_bytes p :
  page sizes s generation after max_nodes max_bytes = Ok p ->
  exists more rest, page_shows s after max_nodes max_bytes p more rest.
Proof.
  unfold page. rewrite and_then_Ok. intros ([] & Hpos%ensure_Ok & Hp).
  apply and_then_Ok in Hp as ([[taken b] rest] & Ht & [= <-]).
  apply take_page_Ok in Ht as (more & -> & Hsplit & -> & Hb & Hl & Hne); [| lia.. | rewrite len_nil; lia].
  exists more, rest. by split.
Qed.

Lemma page_shows_next s after max_nodes max_bytes p more rest a :
  page_shows s after max_nodes max_bytes p more rest -> CachePage.next_after p = Some a ->
  eligible s (Some a) = rest /\ rest <> [].
Proof.
  intros [Hsplit _ _ _ _ _ Hnext _] Ha. rewrite Hnext in Ha. destruct rest as [| e rest]; [done |].
  split; [| done]. apply fmap_Some in Ha as ([a' n] & Hlast & ->).
  eapply beyond_last; [apply iter_sorted | exact Hsplit | exact Hlast].
Qed.

(** ** Reading every page *)

(** The calls of a reader that continues at [next_after], each with limits of its own, while
    the actor works on the cache between them. *)
Inductive reads (generation : N) : t -> option Address -> list CachePage.t -> t -> Prop :=
  | reads_last s after max_nodes max_bytes p :
      page sizes s generation after max_nodes max_bytes = Ok p -> CachePage.next_after p = None ->
      reads generation s after [p] s
  | reads_next s after max_nodes max_bytes p a s1 ps s2 :
      page sizes s generation after max_nodes max_bytes = Ok p -> CachePage.next_after p = Some a ->
      cache_steps sizes sha256 s s1 -> reads generation s1 (Some a) ps s2 ->
      reads generation s after (p :: ps) s2.

Lemma reads_revision generation s after ps s' :
  reads generation s after ps s' -> cache_wf sizes sha256 s ->
  Forall (fun p => CachePage.revision p = revision s) ps ->
  s' = s /\ concat (map CachePage.nodes ps) = map snd (eligible s after).
Proof.
  induction 1 as [s after mn mb p Hp Hn | s after mn mb p a s1 ps s2 Hp Hn Hst Hr IH]; intros Hwf Hall.
  - split; [done |]. apply page_Ok in Hp as (more & rest & Hs). destruct Hs as [-> Hnodes _ _ _ Hpr Hnext _].
    simpl. rewrite app_nil_r, Hnodes. rewrite Hnext in Hn. destruct rest as [| e rest]; [by rewrite app_nil_r |].
    exfalso. apply (Hpr ltac:(done)). by apply last_None, (fmap_None fst).
  - apply Forall_cons in Hall as [Hp0 Hall].
    assert (s1 = s) as ->.
    { destruct (cache_steps_revision sizes sha256 s s1 Hst Hwf) as [_ Heq]. apply Heq.
      destruct Hr as [s1 after1 mn1 mb1 p1 Hp1 | s1 after1 mn1 mb1 p1 ? ? ? ? Hp1];
        apply Forall_cons in Hall as [Hr1 _]; apply page_Ok in Hp1 as (more & rest & Hs);
        by rewrite <- (shows_revision _ _ _ _ _ _ _ Hs). }
    destruct (IH Hwf Hall) as [-> Hc]. split; [done |].
    apply page_Ok in Hp as (more & rest & Hs).
    destruct (page_shows_next _ _ _ _ _ _ _ _ Hs Hn) as [Hrest _].
    simpl. rewrite Hc, Hrest, (shows_nodes _ _ _ _ _ _ _ Hs), (shows_split _ _ _ _ _ _ _ Hs). by rewrite map_app.
Qed.

(** ** The reader ends *)
Lemma take_page_succeeds max_nodes max_bytes taken b l :
  b + entries_bytes l <= u64_max ->
  (taken = [] -> b = 0) -> Forall (fun entry => estimate entry.2 <= max_bytes) l ->
  exists r, take_page sizes max_nodes max_bytes taken b l = Ok r.
Proof.
  unfold entries_bytes. revert taken b. induction l as [| [a n] l IH]; intros taken b Hsum Hb Hall; cbn [take_page]; [eauto |].
  simpl in Hsum. apply Forall_cons in Hall as [Hn Hall]. cbn [snd] in Hn.
  case_decide; [| eauto]. unfold checked_add_u64. rewrite decide_True by lia. cbn [ok_or and_then].
  case_decide as Hbytes.
  - destruct taken as [| e taken]; [exfalso; rewrite Hb in Hbytes by done; lia | eauto].
  - apply IH; [lia | | done]. intros H'. by apply app_nil in H' as [_ ?].
Qed.

Lemma eligible_bytes s after : entries_bytes (eligible s after) <= total_bytes sizes (nodes s).
Proof.
  unfold total_bytes, entries_bytes.
  rewrite (sum_N_Permutation (map _ (map_to_list (nodes s))) (map (fun entry => estimate entry.2)
    (btree_iter ObjectAddress.cmp (nodes s)))) by (by rewrite btree_iter_Permutation).
  unfold eligible. induction (btree_iter ObjectAddress.cmp (nodes s)) as [| e l IH]; [done |].
  rewrite filter_cons. case_decide; simpl; lia.
Qed.

Lemma reads_end generation s max_nodes max_bytes after :
  cache_wf sizes sha256 s -> 0 < max_nodes -> CacheLimits.max_item_bytes (limits s) <= max_bytes -> 0 < max_bytes ->
  exists ps, reads generation s after ps s.
Proof.
  intros Hwf Hm Hb Hb0. remember (length (eligible s after)) as k eqn:Hk. revert after Hk.
  induction k as [k IH] using lt_wf_ind. intros after ->.
  assert (exists p, page sizes s generation after max_nodes max_bytes = Ok p) as [p Hp].
  { unfold page. rewrite ensure_pass by lia. cbn [and_then]. fold (eligible s after).
    destruct (take_page_succeeds max_nodes max_bytes [] 0 (eligible s after)) as [[[taken b] rest] Ht].
    - pose proof (eligible_bytes s after) as He. pose proof (wf_bytes _ _ _ Hwf). pose proof (wf_total _ _ _ Hwf).
      pose proof (wf_machine _ _ _ Hwf). lia.
    - done.
    - apply Forall_forall. intros [a n] Hin. unfold eligible in Hin.
      apply list_elem_of_filter in Hin as [_ Hin%elem_of_btree_iter].
      pose proof (node_bytes _ _ _ _ _ (wf_nodes _ _ _ Hwf a n Hin)) as Hn. simpl. lia.
    - rewrite Ht. eauto. }
  destruct (CachePage.next_after p) as [a |] eqn:Hn; [| by exists [p]; eapply reads_last].
  pose proof (page_Ok _ _ _ _ _ _ Hp) as (more & rest & Hs).
  destruct (page_shows_next _ _ _ _ _ _ _ _ Hs Hn) as [Hrest Hne].
  destruct (IH (length (eligible s (Some a)))) with (after := Some a) as [ps Hps]; [| done |].
  - rewrite Hrest, (shows_split _ _ _ _ _ _ _ Hs), length_app.
    pose proof (shows_progress _ _ _ _ _ _ _ Hs Hne). destruct more; [done |]. simpl. lia.
  - exists (p :: ps). eapply reads_next; [done | done | apply steps_refl | done].
Qed.

End Pages.
