(* ===== verification/AtspiContract.v ===== *)
(** * The contract of the AT-SPI cache

    The theorems a client of the cache relies on, and their instances on a run with a small
    application, its dialog and button, and a second application. *)

From stdpp Require Import base numbers list option gmap strings sorting.
From Stdlib Require Import Lia Ascii.
From S2P Require Import Prelude Orderings AtspiCache AtspiCacheFacts AtspiGuarantees.

Local Open Scope N_scope.

Import BoundedCache.
#[local] Abbreviation Address := ObjectAddress.t.
#[local] Abbreviation Node := CachedNode.t.

(** ** The bytes of a fingerprint *)
Section Bytes.

Lemma N_digits k a b :
  (forall i, (i < k)%nat -> (a / 256 ^ N.of_nat i) mod 256 = (b / 256 ^ N.of_nat i) mod 256) ->
  a mod 256 ^ N.of_nat k = b mod 256 ^ N.of_nat k.
Proof.
  induction k as [| k IH]; intros Hd; [by rewrite !N.mod_1_r |].
  rewrite Nat2N.inj_succ, N.pow_succ_r', N.mul_comm, !N.Div0.mod_mul_r.
  rewrite (Hd k) by lia. f_equal. apply IH. intros i Hi. apply Hd. lia.
Qed.

Lemma le_bytes_inj a b : a <= u64_max -> b <= u64_max -> le_bytes a = le_bytes b -> a = b.
Proof.
  intros Ha Hb Heq. assert (a mod 256 ^ N.of_nat 8 = b mod 256 ^ N.of_nat 8) as Hm.
  { apply N_digits. intros i Hi. unfold le_bytes in Heq.
    apply (f_equal (fun l => l !! i)) in Heq. change (@map) with (@fmap list _) in Heq.
    rewrite !list_lookup_fmap, lookup_seq_lt in Heq by done. simpl in Heq. injection Heq as Heq.
    apply (f_equal N_of_ascii) in Heq.
    rewrite !N_ascii_embedding in Heq by (apply N.mod_lt; done). done. }
  rewrite !N.mod_small in Hm; [done | |]; unfold u64_max in *; simpl; lia.
Qed.

Lemma length_le_bytes a : length (le_bytes a) = 8%nat.
Proof. done. Qed.

Lemma length_list_ascii s : length (String.list_ascii_of_string s) = String.length s.
Proof. induction s as [| c s IH]; simpl; [done | by rewrite IH]. Qed.

Lemma field_bytes_inj f g l k :
  byte_len f <= u64_max -> byte_len g <= u64_max ->
  field_bytes f ++ l = field_bytes g ++ k -> f = g /\ l = k.
Proof.
  intros Hf Hg Heq. unfold field_bytes in Heq. rewrite <- !app_assoc in Heq.
  apply app_inj_1 in Heq as [Hlen Heq]; [| by rewrite !length_le_bytes].
  apply le_bytes_inj in Hlen; [| done..].
  apply app_inj_1 in Heq as [Hs ->].
  - split; [| done]. apply (f_equal String.string_of_list_ascii) in Hs.
    by rewrite !String.string_of_list_ascii_of_string in Hs.
  - rewrite !length_list_ascii. unfold byte_len in Hlen. lia.
Qed.

Lemma fields_bytes_inj fs gs l k :
  length fs = length gs -> Forall (fun f => byte_len f <= u64_max) fs -> Forall (fun g => byte_len g <= u64_max) gs ->
  flat_map field_bytes fs ++ l = flat_map field_bytes gs ++ k -> fs = gs /\ l = k.
Proof.
  revert gs. induction fs as [| f fs IH]; intros [| g gs] Hlen Hf Hg Heq; try done.
  apply Forall_cons in Hf as [Hf Hfs]. apply Forall_cons in Hg as [Hg Hgs].
  cbn [flat_map] in Heq. rewrite <- !app_assoc in Heq. apply field_bytes_inj in Heq as [-> Heq]; [| done..].
  simpl in Hlen. by destruct (IH gs ltac:(lia) Hfs Hgs Heq) as [-> ->].
Qed.

(** An address that [ObjectAddress::new] makes. *)
Definition made (a : Address) : Prop := ObjectAddress.new (ObjectAddress.bus_name a) (ObjectAddress.object_path a) = Ok a.

Lemma made_bounds a :
  made a -> ObjectAddress.bus_name a <> ""%string /\ byte_len (ObjectAddress.bus_name a) <= u64_max /\
  byte_len (ObjectAddress.object_path a) <= u64_max.
Proof.
  unfold made, ObjectAddress.new. intros H.
  apply and_then_Ok in H as ([] & Hb%ensure_Ok & H). apply and_then_Ok in H as ([] & _ & H).
  apply and_then_Ok in H as ([] & Hl%ensure_Ok & _).
  unfold MAX_BUS_NAME_BYTES, MAX_ADDRESS_BYTES, u64_max in *. split; [naive_solver | lia].
Qed.

(** The fields of an item that a fingerprint covers, as the adapter stores them. *)
Record storable (item : CacheItem.t) : Prop := {
  storable_object : made (CacheItem.object item);
  storable_application : made (CacheItem.application item);
  storable_parent : match CacheItem.parent item with Some p => made p | None => True end;
  storable_index : match CacheItem.index_in_parent item with Some i => i < u64_max | None => True end;
  storable_name : byte_len (CacheItem.name item) <= u64_max;
  storable_description : byte_len (CacheItem.description item) <= u64_max }.

Lemma storable_fields item :
  storable item ->
  Forall (fun f => byte_len f <= u64_max)
    (identity_fields (CacheItem.object item) (CacheItem.application item) (CacheItem.parent item)
       (CacheItem.name item) (CacheItem.description item)).
Proof.
  intros [Ho%made_bounds Ha%made_bounds Hp _ Hn Hd]. unfold identity_fields.
  repeat apply Forall_cons_2; try tauto; try (destruct (CacheItem.parent item) as [p |]; [apply made_bounds in Hp; tauto | done]).
  constructor.
Qed.
End Bytes.

(** The identity that a fingerprint stands for. *)
Definition identity (item : CacheItem.t) : Address * Address * option Address * option N * string * string :=
  (CacheItem.object item, CacheItem.application item, CacheItem.parent item, CacheItem.index_in_parent item,
   CacheItem.name item, CacheItem.description item).

Definition digested (item : CacheItem.t) : list ascii :=
  identity_bytes (CacheItem.object item) (CacheItem.application item) (CacheItem.parent item)
    (CacheItem.index_in_parent item) (CacheItem.name item) (CacheItem.description item).

Lemma optional_index_inj (i j : option N) :
  match i with Some n => n < u64_max | None => True end -> match j with Some n => n < u64_max | None => True end ->
  le_bytes (default u64_max i) = le_bytes (default u64_max j) -> i = j.
Proof.
  intros Hi Hj H. apply le_bytes_inj in H; destruct i, j; simpl in *; subst; try done; lia.
Qed.

(** C32: The bytes of an identity fingerprint are an encoding: two items whose bytes are the
    same have the same object, application, parent, index, name and description, so that
    fingerprints confuse two identities only where SHA-256 does. *)
Theorem identity_bytes_faithful x y :
  storable x -> storable y -> digested x = digested y -> identity x = identity y.
Proof.
  intros Hx Hy Heq. unfold digested, identity_bytes in Heq.
  apply fields_bytes_inj in Heq as [Hf Hi]; [| done | by apply storable_fields ..].
  apply optional_index_inj in Hi; [| apply Hx | apply Hy].
  unfold identity, identity_fields in *. rewrite Hi.
  destruct (CacheItem.object x) as [b1 p1], (CacheItem.object y) as [b2 p2].
  destruct (CacheItem.application x) as [b3 p3], (CacheItem.application y) as [b4 p4].
  pose proof (storable_parent _ Hx) as Hpx. pose proof (storable_parent _ Hy) as Hpy.
  destruct (CacheItem.parent x) as [[b5 p5] |], (CacheItem.parent y) as [[b6 p6] |];
    cbn [ObjectAddress.bus_name ObjectAddress.object_path] in Hf.
  - injection Hf as -> -> -> -> -> -> -> ->. done.
  - apply made_bounds in Hpx as [Hne _]. simpl in Hne. exfalso. apply Hne. by injection Hf.
  - apply made_bounds in Hpy as [Hne _]. simpl in Hne. exfalso. apply Hne. by injection Hf.
  - injection Hf as -> -> -> -> -> ->. done.
Qed.

(** ** Admission *)
Section Admission.
Context (sizes : TypeSizes).

(** What either normalization accepts is an item that the cache admits, with the object
    and the application of the wire item, protected exactly when its role is the password
    role, and without a parent on another connection above the root of an application. *)
Theorem normalized_items_admitted l item :
  (exists m, normalize_modern sizes m l = Ok item) \/ (exists m, normalize_legacy sizes m l = Ok item) ->
  validate_normalized_item sizes item l = Ok tt /\
  (CacheItem.text_protection item = Protected <-> CacheItem.role item = 40) /\
  application_root_has_external_parent (CacheItem.object item) (CacheItem.application item) (CacheItem.parent item) =
    false.
Proof.
  assert (forall role, classify_text_protection role = Protected <-> role = 40) as Hrole.
  { intros role. unfold classify_text_protection. repeat case_decide; split; try done; try lia. }
  intros [[m Hm] | [m Hm]].
  - unfold normalize_modern in Hm. apply and_then_Ok in Hm as ([] & _ & Hm). apply and_then_Ok in Hm as ([] & _ & Hm).
    apply and_then_Ok in Hm as ([] & Hv & Hm). apply and_then_Ok in Hm as (b & Hb & Hm).
    injection Hm as Hm. rewrite Hm in Hb. unfold validate_normalized_item. rewrite Hb, <- Hm. cbn [CacheItem.name
      CacheItem.description CacheItem.interfaces CacheItem.states CacheItem.legacy_children CacheItem.text_protection
      CacheItem.role CacheItem.object CacheItem.application CacheItem.parent]. rewrite Hv. cbn [and_then].
    rewrite ensure_pass by (rewrite len_nil; lia). split_and!; [done | apply Hrole |].
    destruct (application_root_has_external_parent _ _ (ModernItem.parent m)) eqn:He; cbn [orb];
      [unfold application_root_has_external_parent; by rewrite andb_false_r |].
    destruct (transient_menu_parent m); [unfold application_root_has_external_parent; by rewrite andb_false_r | done].
  - unfold normalize_legacy in Hm. apply and_then_Ok in Hm as ([] & Hv & Hm). apply and_then_Ok in Hm as ([] & Hc & Hm).
    apply and_then_Ok in Hm as (b & Hb & Hm). injection Hm as Hm. rewrite Hm in Hb. unfold validate_normalized_item.
    rewrite Hb, <- Hm. cbn [CacheItem.name
      CacheItem.description CacheItem.interfaces CacheItem.states CacheItem.legacy_children CacheItem.text_protection
      CacheItem.role CacheItem.object CacheItem.application CacheItem.parent]. rewrite Hv, Hc. cbn [and_then].
    split_and!; [done | apply Hrole |].
    destruct (application_root_has_external_parent _ _ (LegacyItem.parent m)) eqn:He; [| done].
    unfold application_root_has_external_parent. by rewrite andb_false_r.
Qed.
End Admission.

(** ** The cache *)
Section Cache.
Context (sizes : TypeSizes) (sha256 : list ascii -> list ascii).

(** C22: Whatever calls the actor makes, the cache it started with valid limits stays within
    them, its byte count is the bytes of its nodes, each node is stored under its own
    address with the generation that its application has now, and no two states of the
    run with the same revision differ. *)
Theorem atspi_cache_well_formed limits0 s0 s s' :
  CacheLimits.max_total_bytes limits0 <= u64_max -> new limits0 = Ok s0 ->
  cache_steps sizes sha256 s0 s -> cache_steps sizes sha256 s s' ->
  cache_wf sizes sha256 s /\ revision s <= revision s' /\ (revision s' = revision s -> s' = s).
Proof.
  intros Hm Hnew Hs Hs'. pose proof (cache_steps_wf _ _ _ _ Hs (new_wf sizes sha256 _ _ Hm Hnew)) as Hwf.
  split; [done |]. by apply (cache_steps_revision sizes sha256).
Qed.

(** The two calls that report a mutation. *)
Inductive MutatingCall :=
  | CallApply (event : CacheEvent.t)
  | CallRefresh (refreshed : Refreshed.t).
Definition run_call (call : MutatingCall) : M t CacheError.t CacheMutation.t :=
  match call with
  | CallApply event => apply sizes sha256 event
  | CallRefresh refreshed => refresh sizes sha256 refreshed
  end.

(** C15: A mutation is what a mirror needs: applied to the nodes before it, its detail gives
    the nodes after it, unless it asks for a resynchronization; its kind names its detail;
    it is unchanged exactly when the cache is, and otherwise carries the next revision.  A
    call that fails changes nothing. *)
Theorem atspi_mutation_mirrors s call s' r :
  cache_wf sizes sha256 s -> run_call call s = (s', r) ->
  match r with
  | Ok m => tells sizes sha256 s m s'
  | Err _ => s' = s
  end.
Proof.
  intros Hwf Hrun.
  assert (outcome s (run_call call) s (tells sizes sha256 s)) as Ho
    by (destruct call; [by apply apply_tells | by apply refresh_tells]).
  unfold outcome in Ho. by rewrite Hrun in Ho.
Qed.


End Cache.

Module AtspiWitness.
Definition sizes : TypeSizes := mkTypeSizes 400 48 24 8.
Definition sha256 (l : list ascii) : list ascii := take 32 l.
Definition limits0 : CacheLimits.t := CacheLimits.mk 4 64 2048 8192 8192 4 4 4.

Definition at_bus (bus path : string) : ObjectAddress.t := ObjectAddress.mk bus path.
Definition item_of (bus path : string) (parent : option ObjectAddress.t) (name : string) : CacheItem.t :=
  CacheItem.mk (at_bus bus path) (at_bus bus "/root") parent (Some 0) (Some 0) [] ["Accessible"%string] name "" 7
    Unprotected [1; 2].

Definition dialog := item_of ":1.5" "/dialog" (Some (at_bus ":1.5" "/root")) "Open".
Definition button := item_of ":1.5" "/button" (Some (at_bus ":1.5" "/dialog")) "OK".
Definition root := item_of ":1.5" "/root" None "app".
Definition other := item_of ":1.9" "/root" None "other".

Definition empty_cache : t := mk limits0 ∅ ∅ 0 0.
Definition full_cache : t := fst (replace sizes sha256 [button; root; other; dialog] empty_cache).
Definition later_cache : t :=
  fst (apply sizes sha256 (CacheEvent.Remove (at_bus ":1.5" "/dialog")) full_cache).

Lemma full_cache_wf : cache_wf sizes sha256 full_cache.
Proof.
  eapply cache_steps_wf; [| eapply (new_wf sizes sha256 limits0); [done | reflexivity]].
  eapply steps_trans; [apply steps_refl |]. by eapply step_replace.
Qed.

Lemma identity_bytes_faithful_witness :
  storable dialog /\ storable dialog /\ digested dialog = digested dialog /\ identity dialog = identity dialog.
Proof.
  assert (storable dialog) as Hd by (split; try reflexivity; done).
  split_and!; [done | done | reflexivity |]. by apply (identity_bytes_faithful dialog dialog).
Defined.

Definition menu : ModernItem.t :=
  ModernItem.mk (at_bus ":1.5" "/menu") (at_bus ":1.5" "/root") (Some (at_bus ":1.5" "/bar")) (-1) 3 [] "File" 35 "" [1].
Definition menu_item : CacheItem.t :=
  CacheItem.mk (at_bus ":1.5" "/menu") (at_bus ":1.5" "/root") None None (Some 3) [] [] "File" "" 35 Unprotected [1].

Lemma normalized_items_admitted_witness :
  normalize_modern sizes menu limits0 = Ok menu_item /\ validate_normalized_item sizes menu_item limits0 = Ok tt.
Proof.
  assert (normalize_modern sizes menu limits0 = Ok menu_item) as Hm by (vm_compute; reflexivity).
  split; [done |]. apply (normalized_items_admitted sizes limits0 menu_item). left. by exists menu.
Defined.

Lemma atspi_cache_well_formed_witness :
  cache_wf sizes sha256 full_cache /\ revision full_cache <= revision later_cache.
Proof.
  destruct (atspi_cache_well_formed sizes sha256 limits0 empty_cache full_cache later_cache) as (Hwf & Hle & _).
  - done.
  - reflexivity.
  - eapply steps_trans; [apply steps_refl |]. by eapply step_replace.
  - eapply steps_trans; [apply steps_refl |]. by eapply step_apply.
  - by split.
Defined.

Lemma atspi_mutation_mirrors_witness :
  exists m, run_call sizes sha256 (CallApply (CacheEvent.InvalidateApplication ":1.5")) full_cache = m /\
    size (nodes m.1) = 1%nat /\
    match m.2 with Ok n => tells sizes sha256 full_cache n m.1 | Err _ => False end.
Proof.
  eexists. split; [reflexivity |]. split; [vm_compute; reflexivity |].
  pose proof (atspi_mutation_mirrors sizes sha256 full_cache (CallApply (CacheEvent.InvalidateApplication ":1.5")))
    as Ht.
  destruct (run_call _ _ _ full_cache) as [s' [m | e]] eqn:Hrun; [apply (Ht s' (Ok m) full_cache_wf eq_refl) |].
  vm_compute in Hrun. discriminate.
Defined.



End AtspiWitness.
