(* ===== verification/PlaneTypes.v ===== *)
(** * The error type, page cursors and vocabulary of the accessibility plane

    Models the configuration and the cursor store of [xenoteerd/src/accessibility_plane.rs],
    with the error type of [xenoteer-server/src/accessibility.rs]: an opaque token stands for
    the continuation of a query, bound to the principal and to the request that opened it,
    used once, until it expires.  Then the maps from the raw numbers and names of AT-SPI to
    the roles, states and interfaces of the protocol, and the identity hashes.  An [Instant]
    is its nanoseconds; SHA-256, the JSON encoding of a request, the fresh tokens and the
    range of [Instant] are parameters. *)

From stdpp Require Import base numbers list option gmap strings sorting.
From Stdlib Require Import Lia Ascii.
From S2P Require Import Prelude Identity AccessibilityTypes Accessibility AccessibilityViews AtspiCache.

Local Open Scope N_scope.

(** [AccessibilityPlaneError]. *)
Module PlaneError.
Inductive t :=
  | InvalidRequest | PermissionDenied | NotFound
  | StaleReference (current_generation : option DesktopGeneration)
  | ResyncRequired (current_generation : option DesktopGeneration)
  | AmbiguousTarget | QueryLimitExceeded | ResourceExhausted | CapabilityUnavailable
  | UnsupportedByTarget | Internal.
End PlaneError.
Import PlaneError.

(** [map_model_error]. *)
Definition map_model_error (error : AccessibilityModelError.t) : PlaneError.t :=
  match error with
  | AccessibilityModelError.InvalidLimits | AccessibilityModelError.NilIdentifier
  | AccessibilityModelError.InvalidApplication _ | AccessibilityModelError.InvalidSnapshot _
  | AccessibilityModelError.InvalidReference _ | AccessibilityModelError.UnexpectedCacheSequence => InvalidRequest
  | AccessibilityModelError.StaleGeneration | AccessibilityModelError.StaleApplication
  | AccessibilityModelError.StaleReference | AccessibilityModelError.AlreadyRemoved => StaleReference None
  | AccessibilityModelError.ApplicationNotFound | AccessibilityModelError.NotFound => NotFound
  | AccessibilityModelError.ResyncRequired _ => ResyncRequired None
  | AccessibilityModelError.GenerationExhausted | AccessibilityModelError.SequenceExhausted
  | AccessibilityModelError.RevisionExhausted => Internal
  end.

(** [u64::to_be_bytes] and [str::as_bytes]. *)
Definition be_bytes (n : N) : list ascii := rev (le_bytes n).
Definition as_bytes (s : string) : list ascii := String.list_ascii_of_string s.

(** [CursorRequestKind], [CursorBinding], [CursorRecord]. *)
Inductive CursorRequestKind := CursorList | CursorQuery.
#[export] Instance cursor_kind_eq_dec : EqDecision CursorRequestKind.
Proof. solve_decision. Defined.
#[export] Instance query_limits_eq_dec : EqDecision QueryLimits.t.
Proof. solve_decision. Defined.

Module CursorBinding.
Record t := mk {
  digest : list ascii; kind : CursorRequestKind; order : ElementOrder; limit : N;
  expansion : Expansion.t; limits : QueryLimits.t }.
#[export] Instance cursor_binding_eq_dec : EqDecision t.
Proof. solve_decision. Defined.
End CursorBinding.
Export (hints) CursorBinding.

Module CursorRecord.
Record t := mk {
  principal : string; expires_at : N; binding : CursorBinding.t; continuation : Continuation.t (list ascii) }.
End CursorRecord.

(** [AccessibilityPlaneConfig]; durations in nanoseconds. *)
Definition ACCESSIBILITY_CURSOR_TTL_MS : N := 30000.
Definition MAX_ACCESSIBILITY_CURSORS_PER_PRINCIPAL : N := 64.
Definition MAX_ACCESSIBILITY_SNAPSHOT_NODES : N := 10000.
Definition DEFAULT_MAX_TOTAL_CURSORS : N := 4096.
Definition DEFAULT_MAX_PENDING_WAITS : N := 256.
Definition DEFAULT_MAX_PENDING_READS : N := 64.
Definition DEFAULT_MAX_BOOTSTRAP_BYTES : N := 128 * 1024 * 1024.
Definition from_millis (ms : N) : N := ms * 1000000.

Module PlaneConfig.
Record t := mk {
  model_limits : AccessibilityModelLimits.t; raw_cache_limits : CacheLimits.t; cursor_ttl : N;
  max_total_cursors : N; max_cursors_per_principal : N; max_pending_waits : N; max_pending_reads : N;
  max_bootstrap_bytes : N; max_nodes_per_query : N; max_selector_depth : N; max_query_matches : N;
  query_timeout_ms : N; max_snapshot_nodes : N; max_snapshot_bytes : N }.

(** [Default::default]. *)
Definition default : t :=
  mk AccessibilityModelLimits.default CacheLimits.default (from_millis ACCESSIBILITY_CURSOR_TTL_MS)
    DEFAULT_MAX_TOTAL_CURSORS MAX_ACCESSIBILITY_CURSORS_PER_PRINCIPAL DEFAULT_MAX_PENDING_WAITS
    DEFAULT_MAX_PENDING_READS DEFAULT_MAX_BOOTSTRAP_BYTES MAX_ACCESSIBILITY_QUERY_VISITED_NODES
    MAX_ACCESSIBILITY_SELECTOR_DEPTH MAX_ACCESSIBILITY_QUERY_MATCHES MAX_ACCESSIBILITY_QUERY_TIMEOUT_MS
    MAX_ACCESSIBILITY_SNAPSHOT_NODES MAX_ACCESSIBILITY_SNAPSHOT_BYTES.

(** The checks of [DaemonAccessibilityPlane::new]. *)
Definition validate (config : t) : result unit PlaneError.t :=
  ensure (is_ok (AccessibilityModelLimits.validate (model_limits config)) = false \/
          is_ok (CacheLimits.validate (raw_cache_limits config)) = false \/
          cursor_ttl config = 0 \/ from_millis ACCESSIBILITY_CURSOR_TTL_MS < cursor_ttl config \/
          max_total_cursors config = 0 \/ max_cursors_per_principal config = 0 \/
          max_total_cursors config < max_cursors_per_principal config \/
          max_pending_waits config = 0 \/ max_pending_reads config = 0 \/ max_bootstrap_bytes config = 0 \/
          max_nodes_per_query config = 0 \/
          MAX_ACCESSIBILITY_QUERY_VISITED_NODES < max_nodes_per_query config \/
          max_selector_depth config = 0 \/ MAX_ACCESSIBILITY_SELECTOR_DEPTH < max_selector_depth config \/
          max_query_matches config = 0 \/ MAX_ACCESSIBILITY_QUERY_MATCHES < max_query_matches config \/
          query_timeout_ms config = 0 \/ MAX_ACCESSIBILITY_QUERY_TIMEOUT_MS < query_timeout_ms config \/
          max_snapshot_nodes config = 0 \/ MAX_ACCESSIBILITY_SNAPSHOT_NODES < max_snapshot_nodes config \/
          max_nodes_per_query config < max_snapshot_nodes config \/
          max_snapshot_bytes config = 0 \/ MAX_ACCESSIBILITY_SNAPSHOT_BYTES < max_snapshot_bytes config)
    InvalidRequest.
End PlaneConfig.

Definition CURSOR_TOKEN_DIGEST_DOMAIN : list ascii :=
  as_bytes "xenoteer-daemon-accessibility-cursor-token-v1" ++ [Ascii.zero].

Abbreviation CursorStore := (gmap (list ascii) CursorRecord.t).

Section Cursors.
Context (sha256 : list ascii -> list ascii).

(** [cursor_token_digest]. *)
Definition cursor_token_digest (token : string) : list ascii :=
  sha256 (CURSOR_TOKEN_DIGEST_DOMAIN ++ be_bytes (byte_len token) ++ as_bytes token).

(** [request_binding_digest]. *)
Definition request_binding_digest (domain encoded : list ascii) : list ascii :=
  sha256 (as_bytes "xenoteer-daemon-accessibility-cursor" ++ [Ascii.zero] ++
          be_bytes (len domain) ++ domain ++ be_bytes (len encoded) ++ encoded).

(** [without_list_cursor], [list_cursor_binding]; [encode] is [serde_json::to_vec]. *)
Definition without_list_cursor (request : ElementListRequest.t) : ElementListRequest.t :=
  ElementListRequest.mk (ElementListRequest.desktop_id request) (ElementListRequest.desktop_generation request)
    (ElementListRequest.scope request) (ElementListRequest.order request) (ElementListRequest.limit request) None
    (ElementListRequest.expansion request) (ElementListRequest.limits request).

Definition list_cursor_binding (encode : ElementListRequest.t -> option (list ascii)) (request : ElementListRequest.t) :
    result CursorBinding.t PlaneError.t :=
  let request := without_list_cursor request in
  let? encoded := ok_or (encode request) Internal in
  Ok (CursorBinding.mk (request_binding_digest (as_bytes "list-v1") encoded) CursorList
        (ElementListRequest.order request) (ElementListRequest.limit request) (ElementListRequest.expansion request)
        (ElementListRequest.limits request)).

(** [without_query_cursor], [query_cursor_binding]. *)
Definition without_query_cursor (request : ElementQueryRequest.t) : ElementQueryRequest.t :=
  ElementQueryRequest.mk (ElementQueryRequest.desktop_id request) (ElementQueryRequest.desktop_generation request)
    (ElementQueryRequest.selector request) (ElementQueryRequest.limit request) None
    (ElementQueryRequest.expansion request) (ElementQueryRequest.limits request).

Definition query_cursor_binding (encode : ElementQueryRequest.t -> option (list ascii))
    (request : ElementQueryRequest.t) : result CursorBinding.t PlaneError.t :=
  let request := without_query_cursor request in
  let? encoded := ok_or (encode request) Internal in
  Ok (CursorBinding.mk (request_binding_digest (as_bytes "query-v1") encoded) CursorQuery
        (ElementSelector.order (ElementQueryRequest.selector request)) (ElementQueryRequest.limit request)
        (ElementQueryRequest.expansion request) (ElementQueryRequest.limits request)).

(** [purge_expired_cursors]. *)
Definition purge_expired_cursors (now : N) (store : CursorStore) : CursorStore :=
  filter (fun entry => now < CursorRecord.expires_at entry.2) store.

(** [consume_cursor], at the instant [now]. *)
Definition consume_cursor (now : N) (principal : string) (cursor : AccessibilityPageCursor)
    (binding : CursorBinding.t) : M CursorStore PlaneError.t (Continuation.t (list ascii)) :=
  modify (purge_expired_cursors now) ;;;
  let token_digest := cursor_token_digest (cursor_str cursor) in
  store <- get ;;
  record <- lift (ok_or (store !! token_digest) (StaleReference None)) ;;
  reject_if (CursorRecord.principal record <> principal) PermissionDenied ;;;
  modify (delete token_digest) ;;;
  reject_if (CursorRecord.expires_at record <= now) (StaleReference None) ;;;
  reject_if (CursorRecord.binding record <> binding) InvalidRequest ;;;
  ret (CursorRecord.continuation record).

(** [insert_cursor_digest]. *)
Definition insert_cursor_digest (token_digest : list ascii) (record : CursorRecord.t) (store : CursorStore) :
    CursorStore * bool :=
  match store !! token_digest with
  | None => (<[token_digest := record]> store, true)
  | Some _ => (store, false)
  end.

(** The loop of [issue_cursor] over the fresh tokens. *)
Fixpoint install_cursor (tokens : list string) (record : CursorRecord.t) :
    M CursorStore PlaneError.t (option AccessibilityPageCursor) :=
  match tokens with
  | [] => fail Internal
  | token :: tokens => fun store =>
      let '(store, inserted) := insert_cursor_digest (cursor_token_digest token) record store in
      if inserted then (store, map_err (fun _ => Internal) (let? cursor := new_page_cursor token in Ok (Some cursor)))
      else install_cursor tokens record store
  end.

(** [issue_cursor]; [tokens] are the tokens that its eight draws would give. *)
Definition issue_cursor (instant_add : N -> N -> option N) (now : N) (tokens : list string) (principal : string)
    (binding : CursorBinding.t) (continuation : option (Continuation.t (list ascii))) (config : PlaneConfig.t) :
    M CursorStore PlaneError.t (option AccessibilityPageCursor) :=
  match continuation with
  | None => ret None
  | Some continuation =>
      modify (purge_expired_cursors now) ;;;
      store <- get ;;
      reject_if (PlaneConfig.max_total_cursors config <= N.of_nat (size store) \/
                 PlaneConfig.max_cursors_per_principal config <=
                   N.of_nat (size (filter (fun entry : list ascii * CursorRecord.t =>
                     CursorRecord.principal entry.2 = principal) store))) ResourceExhausted ;;;
      expires_at <- lift (ok_or (instant_add now (PlaneConfig.cursor_ttl config)) Internal) ;;
      install_cursor (take 8 tokens) (CursorRecord.mk principal expires_at binding continuation)
  end.

(** [discard_page_cursor]. *)
Definition discard_page_cursor (cursor : option AccessibilityPageCursor) (store : CursorStore) : CursorStore :=
  match cursor with
  | Some cursor => delete (cursor_token_digest (cursor_str cursor)) store
  | None => store
  end.
End Cursors.

(** [map_role]. *)
Definition map_role (role : N) : ElementRole.t :=
  match role with
  | 2 => ElementRole.Alert
  | 6 => ElementRole.Canvas
  | 7 => ElementRole.CheckBox
  | 11 => ElementRole.ComboBox
  | 16 => ElementRole.Dialog
  | 23 | 69 => ElementRole.Window
  | 27 => ElementRole.Image
  | 29 => ElementRole.Label
  | 31 | 98 => ElementRole.List_
  | 32 => ElementRole.ListItem
  | 33 | 34 | 41 => ElementRole.Menu
  | 8 | 35 | 45 | 59 | 129 => ElementRole.MenuItem
  | 37 => ElementRole.Tab
  | 38 => ElementRole.TabList
  | 39 => ElementRole.Panel
  | 40 => ElementRole.PasswordText
  | 42 => ElementRole.ProgressBar
  | 43 => ElementRole.Button
  | 44 => ElementRole.RadioButton
  | 48 => ElementRole.ScrollBar
  | 51 => ElementRole.Slider
  | 52 => ElementRole.SpinButton
  | 55 | 66 | 90 | 92 => ElementRole.Table
  | 56 => ElementRole.TableCell
  | 60 => ElementRole.Terminal
  | 61 => ElementRole.Text
  | 62 => ElementRole.ToggleButton
  | 63 => ElementRole.Toolbar
  | 65 => ElementRole.Tree
  | 75 => ElementRole.Application
  | 79 => ElementRole.Entry
  | 82 | 93 | 94 | 95 | 96 => ElementRole.Document
  | 85 => ElementRole.Section_
  | 88 => ElementRole.Link
  | 91 => ElementRole.TreeItem
  | _ => ElementRole.Unknown
  end.

(** [map_state]. *)
Definition map_state (state : N) : option ElementState.t :=
  match state with
  | 1 => Some ElementState.Active
  | 3 => Some ElementState.Busy
  | 4 => Some ElementState.Checked
  | 6 => Some ElementState.Defunct
  | 7 => Some ElementState.Editable
  | 8 => Some ElementState.Enabled
  | 9 => Some ElementState.Expandable
  | 10 => Some ElementState.Expanded
  | 11 => Some ElementState.Focusable
  | 12 => Some ElementState.Focused
  | 16 => Some ElementState.Modal
  | 18 => Some ElementState.MultiSelectable
  | 19 => Some ElementState.Opaque_
  | 20 => Some ElementState.Pressed
  | 22 => Some ElementState.Selectable
  | 23 => Some ElementState.Selected
  | 24 => Some ElementState.Sensitive
  | 25 => Some ElementState.Showing
  | 26 => Some ElementState.SingleLine
  | 27 => Some ElementState.Stale
  | 28 => Some ElementState.Transient
  | 30 => Some ElementState.Visible
  | 32 => Some ElementState.Indeterminate
  | 33 => Some ElementState.Required
  | 40 => Some ElementState.Visited
  | 43 => Some ElementState.ReadOnly
  | _ => None
  end.

(** [raw_state_contains]: a bit of the state-set words. *)
Definition raw_state_contains (words : list N) (state : N) : bool :=
  match words !! N.to_nat (state / 32) with
  | Some word => N.testbit word (state mod 32)
  | None => false
  end.

(** [mapped_states]: the states of the words, in the order of their numbers. *)
Definition bits_of (entry : nat * N) : list ElementState.t :=
  omap (fun bit : nat =>
    if N.testbit entry.2 (N.of_nat bit)
    then let state := N.of_nat entry.1 * 32 + N.of_nat bit in
         if decide (state <= 4294967295) then map_state state else None
    else None) (seq 0 32).
Definition mapped_states (words : list N) : list ElementState.t :=
  flat_map bits_of (zip (seq 0 (length words)) words).

(** [map_interface]: by the last segment of the name, [rsplit('.').next()]. *)
Definition last_segment (interface : string) : string :=
  String.string_of_list_ascii (default [] (last (split_on "."%char (as_bytes interface)))).
Definition map_interface (interface : string) : option ElementInterface.t :=
  let segment := last_segment interface in
  if decide (segment = "Accessible"%string) then Some ElementInterface.Accessible
  else if decide (segment = "Action"%string) then Some ElementInterface.Action
  else if decide (segment = "Application"%string) then Some ElementInterface.Application
  else if decide (segment = "Collection"%string) then Some ElementInterface.Collection
  else if decide (segment = "Component"%string) then Some ElementInterface.Component
  else if decide (segment = "Document"%string) then Some ElementInterface.Document
  else if decide (segment = "EditableText"%string) then Some ElementInterface.EditableText
  else if decide (segment = "Hypertext"%string) then Some ElementInterface.Hypertext
  else if decide (segment = "Image"%string) then Some ElementInterface.Image
  else if decide (segment = "Selection"%string) then Some ElementInterface.Selection
  else if decide (segment = "Table"%string) then Some ElementInterface.Table
  else if decide (segment = "TableCell"%string) then Some ElementInterface.TableCell
  else if decide (segment = "Text"%string) then Some ElementInterface.Text
  else if decide (segment = "Value"%string) then Some ElementInterface.Value
  else None.

(** The derived [Ord] of states and interfaces compares the positions in the declaration. *)
Definition state_position (state : ElementState.t) : N :=
  match state with
  | ElementState.Active => 0 | ElementState.Busy => 1 | ElementState.Checked => 2 | ElementState.Defunct => 3
  | ElementState.Editable => 4 | ElementState.Enabled => 5 | ElementState.Expandable => 6
  | ElementState.Expanded => 7 | ElementState.Focusable => 8 | ElementState.Focused => 9
  | ElementState.Indeterminate => 10 | ElementState.Modal => 11 | ElementState.MultiSelectable => 12
  | ElementState.Opaque_ => 13 | ElementState.Pressed => 14 | ElementState.Protected => 15
  | ElementState.ReadOnly => 16 | ElementState.Required => 17 | ElementState.Selectable => 18
  | ElementState.Selected => 19 | ElementState.Sensitive => 20 | ElementState.Showing => 21
  | ElementState.SingleLine => 22 | ElementState.Stale => 23 | ElementState.Transient => 24
  | ElementState.Visible => 25 | ElementState.Visited => 26
  end.
Definition interface_position (interface : ElementInterface.t) : N :=
  match interface with
  | ElementInterface.Accessible => 0 | ElementInterface.Action => 1 | ElementInterface.Application => 2
  | ElementInterface.Collection => 3 | ElementInterface.Component => 4 | ElementInterface.Document => 5
  | ElementInterface.EditableText => 6 | ElementInterface.Hypertext => 7 | ElementInterface.Image => 8
  | ElementInterface.Selection => 9 | ElementInterface.Table => 10 | ElementInterface.TableCell => 11
  | ElementInterface.Text => 12 | ElementInterface.Value => 13
  end.

(** [sort_unstable] and [dedup]. *)
Fixpoint dedup {A} `{EqDecision A} (l : list A) : list A :=
  match l with
  | [] => []
  | x :: l =>
      match dedup l with
      | y :: rest => if decide (x = y) then y :: rest else x :: y :: rest
      | [] => [x]
      end
  end.
Definition sorted_set {A} `{EqDecision A} (position : A -> N) (l : list A) : list A :=
  dedup (merge_sort (fun x y => ordering_le (N.compare (position x) (position y))) l).

(** [nonempty]. *)
Definition nonempty (value : string) : option string := if decide (value = ""%string) then None else Some value.

(** [identity_hash]: the digest of the parts with their lengths, in lower-case hexadecimal. *)
Definition hex_digit (n : N) : ascii := ascii_of_N (if decide (n < 10) then 48 + n else 87 + n).
Definition hex_byte (byte : ascii) : list ascii :=
  [hex_digit (N_of_ascii byte / 16); hex_digit (N_of_ascii byte mod 16)].
Definition identity_hash (sha256 : list ascii -> list ascii) (parts : list (list ascii)) :
    result AccessibilityIdentityHash PlaneError.t :=
  let bytes := sha256 (flat_map (fun part => be_bytes (len part) ++ part) parts) in
  map_err (fun _ => PlaneError.Internal)
    (new_accessibility_hash (String.string_of_list_ascii (flat_map hex_byte bytes))).
