(* ===== verification/CursorGuarantees.v ===== *)
(** * What the page cursors guarantee

    Runs of the cursor store of the accessibility plane, with what was issued and redeemed:
    a cursor is redeemed by its principal, for its request, before it expires, and once. *)

From stdpp Require Import base numbers list option gmap strings.
From Stdlib Require Import Lia Ascii.
From S2P Require Import Prelude Identity AtspiCache AccessibilityTypes Accessibility AccessibilityViews PlaneTypes.

Local Open Scope N_scope.

Section Cursors.
Context (sha256 : list ascii -> list ascii) (instant_add : N -> N -> option N) (config : PlaneConfig.t).
#[local] Abbreviation digest c := (cursor_token_digest sha256 (cursor_str c)).
#[local] Abbreviation consume := (consume_cursor sha256).
#[local] Abbreviation issue := (issue_cursor sha256 instant_add).

Implicit Types (now : N) (principal : string) (c : AccessibilityPageCursor) (binding : CursorBinding.t)
  (d : list ascii) (r : CursorRecord.t) (s : CursorStore).

(** ** One call *)
Lemma lookup_purge now (s : CursorStore) d r :
  purge_expired_cursors now s !! d = Some r <-> s !! d = Some r /\ now < CursorRecord.expires_at r.
Proof. unfold purge_expired_cursors. apply map_lookup_filter_Some. Qed.

(** A record that was not redeemed, or not found. *)
Record redeems (s : CursorStore) (now : N) (principal : string) (c : AccessibilityPageCursor)
    (binding : CursorBinding.t) (k : Continuation.t (list ascii)) (r : CursorRecord.t) : Prop := {
  redeems_record : s !! digest c = Some r;
  redeems_time : now < CursorRecord.expires_at r;
  redeems_principal : CursorRecord.principal r = principal;
  redeems_binding : CursorRecord.binding r = binding;
  redeems_continuation : CursorRecord.continuation r = k }.

Lemma consume_spec now principal c binding s :
  let purged := purge_expired_cursors now s in
  consume now principal c binding s =
    match purged !! digest c with
    | None => (purged, Err (PlaneError.StaleReference None))
    | Some r =>
        if decide (CursorRecord.principal r <> principal) then (purged, Err PlaneError.PermissionDenied)
        else (delete (digest c) purged,
              if decide (CursorRecord.binding r <> binding) then Err PlaneError.InvalidRequest
              else Ok (CursorRecord.continuation r))
    end.
Proof.
  cbv zeta. unfold consume_cursor, bind, modify, get, lift, reject_if. cbn beta iota zeta.
  destruct (purge_expired_cursors now s !! digest c) as [r |] eqn:Hr; cbn; [| done].
  case_decide; [done |]. cbn. apply lookup_purge in Hr as [_ Hr].
  rewrite (decide_False (P := CursorRecord.expires_at r <= now)) by lia. cbn. by case_decide.
Qed.

Lemma consume_redeems now principal c binding s s' k :
  consume now principal c binding s = (s', Ok k) ->
  exists r, redeems s now principal c binding k r /\ s' = delete (digest c) (purge_expired_cursors now s).
Proof.
  rewrite consume_spec. cbv zeta. destruct (_ !! digest c) as [r |] eqn:Hr; [| done].
  case_decide as Hp; [done |]. case_decide as Hb; [done |]. intros [= <- <-].
  apply lookup_purge in Hr as [Hr Ht]. exists r. split; [| done].
  by split.
Qed.

Lemma consume_keeps now principal c binding s d r :
  fst (consume now principal c binding s) !! d = Some r -> s !! d = Some r.
Proof.
  rewrite consume_spec. cbv zeta. destruct (_ !! digest c); [case_decide |]; cbn [fst]; intros Hd;
    [| apply lookup_delete_Some in Hd as [_ Hd] |]; by apply lookup_purge in Hd as [Hd _].
Qed.

Lemma install_Ok tokens r s s' c :
  Forall (fun token => is_ok (new_page_cursor token) = true) tokens ->
  install_cursor sha256 tokens r s = (s', Ok (Some c)) ->
  s !! digest c = None /\ s' = <[digest c := r]> s.
Proof.
  intros Hall. induction Hall as [| token tokens Ht Hall IH]; cbn [install_cursor]; [done |].
  unfold insert_cursor_digest. destruct (s !! cursor_token_digest sha256 token) as [x |] eqn:Hx; [done |].
  unfold new_page_cursor in *. destruct (ensure _ _) as [[] | e]; [| done]. cbn. intros [= <- <-]. done.
Qed.

Lemma install_fails tokens r s s' e :
  Forall (fun token => is_ok (new_page_cursor token) = true) tokens ->
  install_cursor sha256 tokens r s = (s', Err e) -> s' = s.
Proof.
  intros Hall. induction Hall as [| token tokens Ht Hall IH]; cbn [install_cursor]; [by intros [= <- _] |].
  unfold insert_cursor_digest. destruct (s !! _) as [x |]; [done |].
  unfold new_page_cursor in *. destruct (ensure _ _) as [[] | e']; [| done]. done.
Qed.

Lemma install_some tokens r s : snd (install_cursor sha256 tokens r s) <> Ok None.
Proof.
  revert s. induction tokens as [| token tokens IH]; intros s; cbn [install_cursor]; [done |].
  destruct (insert_cursor_digest _ _ _) as [s1 [|]]; [| apply IH]. cbn [snd].
  unfold new_page_cursor. by destruct (ensure _ _) as [[] | e].
Qed.

(** What an issued cursor stands for. *)
Record issues (now : N) (principal : string) (binding : CursorBinding.t) (k : Continuation.t (list ascii))
    (s s' : CursorStore) (c : AccessibilityPageCursor) (r : CursorRecord.t) : Prop := {
  issues_fresh : purge_expired_cursors now s !! digest c = None;
  issues_store : s' = <[digest c := r]> (purge_expired_cursors now s);
  issues_record : r = CursorRecord.mk principal (CursorRecord.expires_at r) binding k;
  issues_expiry : instant_add now (PlaneConfig.cursor_ttl config) = Some (CursorRecord.expires_at r);
  issues_total : N.of_nat (size s') <= PlaneConfig.max_total_cursors config;
  issues_room : N.of_nat (size (filter (fun entry : list ascii * CursorRecord.t =>
      CursorRecord.principal entry.2 = principal) (purge_expired_cursors now s))) <
    PlaneConfig.max_cursors_per_principal config }.

Lemma issue_cases now tokens principal binding k s s' (r : result (option AccessibilityPageCursor) PlaneError.t) :
  Forall (fun token => is_ok (new_page_cursor token) = true) tokens ->
  issue now tokens principal binding (Some k) config s = (s', r) ->
  (exists c record, r = Ok (Some c) /\ issues now principal binding k s s' c record) \/
  (s' = purge_expired_cursors now s /\ exists e, r = Err e).
Proof.
  intros Hall. unfold issue_cursor. change (bind (modify ?f) ?k ?s) with (k tt (f s)). cbv beta.
  change (bind get ?k ?s) with (k s s). cbv beta. set (p := purge_expired_cursors now s).
  unfold bind at 1, reject_if. case_decide as Hfull; [intros [= <- <-]; eauto |]. cbn [ret].
  unfold bind at 1, lift. destruct (instant_add now _) as [expires |] eqn:He; cbn [ok_or]; [| intros [= <- <-]; eauto].
  set (record := CursorRecord.mk _ _ _ _). intros Hrun.
  assert (Forall (fun token => is_ok (new_page_cursor token) = true) (take 8 tokens)) as Hall' by by apply Forall_take.
  destruct r as [[c |] | e].
  - left. exists c, record. split; [done |]. destruct (install_Ok _ _ _ _ _ Hall' Hrun) as [Hn ->].
    split; [done | done | done | done | | fold p; lia]. rewrite map_size_insert_None by done. lia.
  - exfalso. apply (install_some (take 8 tokens) record p). by rewrite Hrun.
  - right. split; [| eauto]. by eapply install_fails.
Qed.

(** ** Runs *)
Inductive Event :=
  | Issued (c : AccessibilityPageCursor) (r : CursorRecord.t)
  | Redeemed (c : AccessibilityPageCursor) (principal : string) (binding : CursorBinding.t)
      (k : Continuation.t (list ascii)) (now : N).

Definition issued (principal : string) (binding : CursorBinding.t) (k : option (Continuation.t (list ascii)))
    (now : N) (r : result (option AccessibilityPageCursor) PlaneError.t) : list Event :=
  match r, k, instant_add now (PlaneConfig.cursor_ttl config) with
  | Ok (Some c), Some k, Some expires => [Issued c (CursorRecord.mk principal expires binding k)]
  | _, _, _ => []
  end.
Definition redeemed (principal : string) (c : AccessibilityPageCursor) (binding : CursorBinding.t) (now : N)
    (r : result (Continuation.t (list ascii)) PlaneError.t) : list Event :=
  match r with Ok k => [Redeemed c principal binding k now] | Err _ => [] end.

(** The store after the calls of the plane, with what they gave out, newest first. *)
Inductive cursor_run : list Event -> CursorStore -> Prop :=
  | run_new : cursor_run [] ∅
  | run_issue tr s now tokens principal binding k s' (r : result (option AccessibilityPageCursor) PlaneError.t) :
      cursor_run tr s -> Forall (fun token => is_ok (new_page_cursor token) = true) tokens ->
      issue now tokens principal binding k config s = (s', r) -> cursor_run (issued principal binding k now r ++ tr) s'
  | run_consume tr s now principal c binding s' (r : result (Continuation.t (list ascii)) PlaneError.t) :
      cursor_run tr s -> consume now principal c binding s = (s', r) ->
      cursor_run (redeemed principal c binding now r ++ tr) s'
  | run_discard tr s (c : option AccessibilityPageCursor) : cursor_run tr s -> cursor_run tr (discard_page_cursor sha256 c s)
  | run_change tr s : cursor_run tr s -> cursor_run tr ∅.

Definition is_issue (d : list ascii) (e : Event) : bool :=
  match e with Issued c _ => bool_decide (digest c = d) | _ => false end.
Definition is_redemption (d : list ascii) (e : Event) : bool :=
  match e with Redeemed c _ _ _ _ => bool_decide (digest c = d) | _ => false end.
Definition times (f : Event -> bool) (tr : list Event) : N := len (filter (fun e => f e = true) tr).

Lemma times_cons f e tr : times f (e :: tr) = (if f e then 1 else 0) + times f tr.
Proof. unfold times. rewrite filter_cons. destruct (f e); cbn [decide]; case_decide; try done. rewrite len_cons. lia. Qed.

Definition held_by (principal : string) (s : CursorStore) : N :=
  N.of_nat (size (filter (fun entry : list ascii * CursorRecord.t => CursorRecord.principal entry.2 = principal) s)).
Definition present (d : list ascii) (s : CursorStore) : N := if decide (is_Some (s !! d)) then 1 else 0.

(** The invariant of a run. *)
Record accounted (tr : list Event) (s : CursorStore) : Prop := {
  accounted_records : forall d r, s !! d = Some r -> exists c, Issued c r ∈ tr /\ digest c = d;
  accounted_redeemed : forall c principal binding k now, Redeemed c principal binding k now ∈ tr ->
    exists c' r, Issued c' r ∈ tr /\ digest c' = digest c /\ CursorRecord.principal r = principal /\
      CursorRecord.binding r = binding /\ CursorRecord.continuation r = k /\ now < CursorRecord.expires_at r;
  accounted_once : forall d, times (is_redemption d) tr + present d s <= times (is_issue d) tr;
  accounted_total : N.of_nat (size s) <= PlaneConfig.max_total_cursors config;
  accounted_principal : forall principal, held_by principal s <= PlaneConfig.max_cursors_per_principal config }.

Lemma present_Some d s r : s !! d = Some r -> present d s = 1.
Proof. intros Hd. unfold present. by rewrite Hd. Qed.
Lemma present_None d s : s !! d = None -> present d s = 0.
Proof. intros Hd. unfold present. by rewrite Hd. Qed.

Lemma present_subset d (s s' : CursorStore) : s' ⊆ s -> present d s' <= present d s.
Proof.
  intros Hsub. unfold present. case_decide as H'; case_decide as H; try lia.
  destruct H' as [r Hr]. exfalso. apply H. exists r.
  by eapply lookup_weaken.
Qed.

Lemma accounted_subset tr s s' : s' ⊆ s -> accounted tr s -> accounted tr s'.
Proof.
  intros Hsub [Hr Hc Ho Ht Hp]. split; [| done | | |].
  - intros d r Hd. eapply Hr, lookup_weaken; done.
  - intros d. specialize (Ho d). pose proof (present_subset d _ _ Hsub). lia.
  - apply map_subseteq_size in Hsub. lia.
  - intros principal. specialize (Hp principal). unfold held_by in *.
    apply (map_filter_subseteq_mono (fun entry : list ascii * CursorRecord.t => CursorRecord.principal entry.2 = principal))
      in Hsub. apply map_subseteq_size in Hsub. lia.
Qed.

Lemma accounted_issue tr s s' now principal binding k c r :
  issues now principal binding k s s' c r -> accounted tr s -> accounted (Issued c r :: tr) s'.
Proof.
  intros [Hf -> Hr _ Ht Hp] Ha. apply (accounted_subset _ _ (purge_expired_cursors now s)) in Ha;
    [| apply map_filter_subseteq]. set (p := purge_expired_cursors now s) in *.
  destruct Ha as [Hrec Hred Ho _ Hpr]. split.
  - intros d r' [[<- <-] | [_ Hd]]%lookup_insert_Some; [exists c; split; [by left | done] |].
    destruct (Hrec d r' Hd) as (c' & Hin & Hc'). exists c'. split; [by right | done].
  - intros c' P B k' t [? | Hin]%elem_of_cons; [done |].
    destruct (Hred _ _ _ _ _ Hin) as (c1 & r1 & Hin1 & H1). exists c1, r1. split; [by right | done].
  - intros d. specialize (Ho d). rewrite !times_cons. cbn [is_issue is_redemption].
    destruct (decide (digest c = d)) as [<- | Hne].
    + rewrite bool_decide_true by done. rewrite (present_None _ p) in Ho by done.
      rewrite (present_Some _ _ r) by apply lookup_insert_eq. lia.
    + rewrite bool_decide_false by done. unfold present in *. rewrite lookup_insert_ne by done. lia.
  - done.
  - intros principal'. specialize (Hpr principal'). unfold held_by in *.
    destruct (decide (CursorRecord.principal r = principal')) as [He | Hne].
    + rewrite map_filter_insert_True by done. assert (principal' = principal) as -> by (rewrite <- He, Hr; done).
      rewrite map_size_insert_None; [lia |]. rewrite map_lookup_filter_None. left. done.
    + rewrite map_filter_insert_False by done. rewrite delete_id by done. done.
Qed.

Lemma accounted_redeem tr s principal c binding k now r :
  redeems s now principal c binding k r -> accounted tr s ->
  accounted (Redeemed c principal binding k now :: tr) (delete (digest c) (purge_expired_cursors now s)).
Proof.
  intros [Hr Ht Hp Hb Hk] Ha. pose proof (accounted_once _ _ Ha) as Honce.
  destruct (accounted_records _ _ Ha _ _ Hr) as (c0 & Hin & Hc0).
  apply (accounted_subset _ _ (delete (digest c) (purge_expired_cursors now s))) in Ha as [Hrec Hred Ho Htot Hpr].
  2: { etrans; [apply delete_subseteq | apply map_filter_subseteq]. }
  split; [| | | done | done].
  - intros d r' Hd. destruct (Hrec d r' Hd) as (c' & Hin' & H'). exists c'. split; [by right | done].
  - intros c' P B k' t [[= -> -> -> -> ->] | Hin']%elem_of_cons.
    + exists c0, r. split; [by right | done].
    + destruct (Hred _ _ _ _ _ Hin') as (c1 & r1 & Hin1 & H1). exists c1, r1. split; [by right | done].
  - intros d. rewrite !times_cons. cbn [is_issue is_redemption].
    destruct (decide (digest c = d)) as [<- | Hne].
    + specialize (Honce (digest c)). rewrite (present_Some _ s r) in Honce by done.
      rewrite present_None by apply lookup_delete_eq. rewrite bool_decide_true by done. lia.
    + specialize (Ho d). rewrite bool_decide_false by done. lia.
Qed.

Lemma cursors_accounted tr s : cursor_run tr s -> accounted tr s.
Proof.
  induction 1 as [| tr s now tokens principal binding k s' r Hrun IH Hall Hi | tr s now principal c binding s' r Hrun IH Hc
    | tr s c Hrun IH | tr s Hrun IH].
  - split; [done | by intros ? ? ? ? ? ?%elem_of_nil | intros d | |].
    + unfold present. rewrite lookup_empty, decide_False by (by intros [? ?]). done.
    + rewrite map_size_empty. lia.
    + intros principal. unfold held_by. rewrite map_filter_empty, map_size_empty. lia.
  - destruct k as [k |].
    + destruct (issue_cases _ _ _ _ _ _ _ _ Hall Hi) as [(c & record & -> & Hs) | [-> [e ->]]].
      * unfold issued. rewrite (issues_expiry _ _ _ _ _ _ _ _ Hs), <- (issues_record _ _ _ _ _ _ _ _ Hs).
        by eapply accounted_issue.
      * apply (accounted_subset _ s); [apply map_filter_subseteq | done].
    + injection Hi as <- <-. done.
  - destruct r as [k | e]; cbn [redeemed app].
    + destruct (consume_redeems _ _ _ _ _ _ _ Hc) as (r & Hr & ->). by eapply accounted_redeem.
    + apply (accounted_subset _ s); [| done]. apply map_subseteq_spec. intros d r Hd.
      apply (consume_keeps now principal c binding). by rewrite Hc.
  - destruct c as [c |]; [| done]. apply (accounted_subset _ s); [apply delete_subseteq | done].
  - apply (accounted_subset _ s); [apply map_empty_subseteq | done].
Qed.

(** C17: In every run of the cursor store, each redemption is of a cursor that was issued to
    the same principal, for the same request and continuation, and not expired; no cursor is
    redeemed more often than it was issued; and the store stays within its bounds, in total
    and for each principal. *)
Theorem page_cursors_redeemed_once tr s :
  cursor_run tr s ->
  (forall c principal binding k now, Redeemed c principal binding k now ∈ tr ->
   exists c' r, Issued c' r ∈ tr /\ digest c' = digest c /\ CursorRecord.principal r = principal /\
     CursorRecord.binding r = binding /\ CursorRecord.continuation r = k /\ now < CursorRecord.expires_at r) /\
  (forall d, times (is_redemption d) tr <= times (is_issue d) tr) /\
  N.of_nat (size s) <= PlaneConfig.max_total_cursors config /\
  (forall principal, held_by principal s <= PlaneConfig.max_cursors_per_principal config).
Proof.
  intros Hrun. destruct (cursors_accounted _ _ Hrun) as [_ Hred Ho Ht Hp]. split_and!; [done | | done | done].
  intros d. specialize (Ho d). lia.
Qed.

(** C30: A cursor that was issued is redeemed, before it expires, by its principal with its
    request, and then no more; another principal is refused and does not burn it; another
    request burns it; and once it expired nobody redeems it. *)
Theorem issued_cursor_redeems now tokens principal binding k s s1 c :
  Forall (fun token => is_ok (new_page_cursor token) = true) tokens ->
  issue now tokens principal binding (Some k) config s = (s1, Ok (Some c)) ->
  exists expires, instant_add now (PlaneConfig.cursor_ttl config) = Some expires /\
  forall now' p b, let '(s2, r) := consume now' p c b s1 in
    if decide (expires <= now') then r = Err (PlaneError.StaleReference None) /\ s2 !! digest c = None
    else if decide (p = principal)
    then r = (if decide (b = binding) then Ok k else Err PlaneError.InvalidRequest) /\ s2 !! digest c = None
    else r = Err PlaneError.PermissionDenied /\ s2 !! digest c = s1 !! digest c.
Proof.
  intros Hall Hi. destruct (issue_cases _ _ _ _ _ _ _ _ Hall Hi) as [(c' & r & [= <-] & Hs) | [_ [e ?]]]; [| done].
  destruct Hs as [_ Hstore Hrec Hexp _ _]. exists (CursorRecord.expires_at r). split; [done |]. intros now' p b.
  rewrite consume_spec. cbv zeta. assert (s1 !! digest c = Some r) as Hlook by (by rewrite Hstore, lookup_insert_eq).
  case_decide as Ht.
  - assert (purge_expired_cursors now' s1 !! digest c = None) as ->.
    { apply map_lookup_filter_None. right. intros x Hx. rewrite Hlook in Hx. injection Hx as <-. simpl. lia. }
    split; [done |]. apply map_lookup_filter_None. right. intros x Hx. rewrite Hlook in Hx. injection Hx as <-. simpl. lia.
  - assert (purge_expired_cursors now' s1 !! digest c = Some r) as Hp by (apply lookup_purge; split; [done | lia]).
    rewrite Hp. assert (CursorRecord.principal r = principal) as Hpr by (by rewrite Hrec).
    assert (CursorRecord.binding r = binding) as Hbi by (by rewrite Hrec).
    assert (CursorRecord.continuation r = k) as Hk by (by rewrite Hrec).
    destruct (decide (p = principal)) as [-> | Hne].
    + rewrite decide_False by tauto. rewrite lookup_delete_eq. split; [| done].
      destruct (decide (b = binding)) as [-> | Hb]; [by rewrite decide_False, Hk by tauto |].
      rewrite decide_True; [done |]. congruence.
    + rewrite decide_True by congruence. by rewrite Hp.
Qed.
End Cursors.
