(* ===== verification/AccessibilityIngest.v ===== *)
(** * The ingestion of the accessibility plane

    Models the part of [xenoteerd/src/accessibility_plane.rs] that mirrors the actor's AT-SPI
    cache into the cache of the core: the pages of a bootstrap, the incremental mutations,
    the resynchronizations, the exact targets of actions and the window correlations.  Each
    operation holds the lock of the plane, so it is a step on its state; the value of the
    watch channel is part of the state.  SHA-256 and the JSON encoding are parameters. *)

From stdpp Require Import base numbers list option gmap strings sorting.
From Stdlib Require Import Lia Ascii.
From S2P Require Import Prelude Identity Geometry Binary64 WindowTypes AtspiCache AccessibilityTypes Accessibility.
From S2P Require Import AccessibilityViews AccessibilityCorrelation PlaneTypes.

Local Open Scope N_scope.
Import PlaneError.
#[local] Abbreviation Address := ObjectAddress.t.
#[local] Abbreviation Error := PlaneError.t.
#[local] Abbreviation len := Prelude.len.

(** ** Data *)

(** [ChangeSignal], [AccessibilityIngestKind], [AccessibilityEventMetadata],
    [AccessibilityIngestSource], [AccessibilityIngestEvent], [AccessibilitySourceResolution]. *)
Record ChangeSignal := mkSignal {
  signal_generation : AtspiGeneration.t; signal_revision : AccessibilityRevision.t }.

Module IngestKind.
Inductive t :=
  | BootstrapPending | Rebuilt | Upserted | Refreshed | Removed | ApplicationInvalidated | Unchanged
  | ResyncRequired | Correlated.
End IngestKind.

Record EventMetadata := mkMetadata {
  event_bounds : option Rect.t; event_value : option f64; event_caret_offset : option N;
  event_text_selection : option (N * N) }.

Module IngestSource.
Record t := mk { raw : Address; element : option ElementRef.t; metadata : EventMetadata }.
End IngestSource.

Module IngestEvent.
Record t := mk {
  desktop_id : DesktopId; desktop_generation : DesktopGeneration; kind : IngestKind.t;
  atspi_generation : AtspiGeneration.t; revision : AccessibilityRevision.t; cache_sequence : N;
  sources : list IngestSource.t }.
End IngestEvent.

Module SourceResolution.
Record t := mk {
  desktop_id : DesktopId; desktop_generation : DesktopGeneration; atspi_generation : AtspiGeneration.t;
  revision : AccessibilityRevision.t; cache_sequence : N; source : IngestSource.t }.
End SourceResolution.

(** [AccessibilityActionTargetEvidence]. *)
Module TargetEvidence.
Record t := mk {
  object : Address; application : Address; accessibility_generation : N; application_generation : N;
  source_revision : N; cache_revision : AccessibilityRevision.t; node_revision : N;
  current_element : ElementRef.t }.
#[export] Instance target_evidence_eq_dec : EqDecision t.
Proof. solve_decision. Defined.
End TargetEvidence.
Export (hints) TargetEvidence.

(** [AccessibilityCorrelationFence], [AccessibilityCorrelationAssignment],
    [AccessibilityCorrelationTarget], [InstalledWindowCorrelation]. *)
Module CorrelationFence.
Record t := mk {
  accessibility_generation : N; source_revision : N; cache_revision : AccessibilityRevision.t }.
End CorrelationFence.
Record CorrelationAssignment := mkAssignment {
  assigned_evidence : TargetEvidence.t; assigned_correlation : ElementWindowCorrelation }.
Module CorrelationTarget.
Record t := mk { evidence : TargetEvidence.t; snapshot : ElementSnapshot.t; application_name : option string }.
End CorrelationTarget.
Record InstalledWindowCorrelation := mkInstalled {
  installed_evidence : TargetEvidence.t; installed_correlation : ElementWindowCorrelation }.
#[export] Instance window_correlation_eq_dec : EqDecision ElementWindowCorrelation.
Proof. assert (EqDecision WindowCorrelationEvidence) by solve_decision. solve_decision. Defined.

(** [BootstrapAccumulator]. *)
Module Bootstrap.
Record t := mk {
  accessibility_generation : N; source_revision : N; nodes : gmap Address CachedNode.t; estimated_bytes : N;
  expected_after : option Address }.
End Bootstrap.

(** [PlaneState], with the value of the watch channel. *)
Module PlaneState.
Record t := mk {
  desktop_id : DesktopId;
  desktop_generation : DesktopGeneration;
  cache : AccessibilityCache.t;
  source_revision : option N;
  has_bootstrapped : bool;
  expected_actor_generation : option N;
  resync_pending : bool;
  bootstrap : option Bootstrap.t;
  raw_nodes : gmap Address CachedNode.t;
  raw_estimated_bytes : N;
  applications : gmap Address ApplicationRef.t;
  actor_application_generations : gmap string N;
  elements : gmap Address ElementRef.t;
  correlations : gmap Address InstalledWindowCorrelation;
  cursors : CursorStore;
  changes : ChangeSignal }.

Definition set_cache v (s : t) : t :=
  mk (desktop_id s) (desktop_generation s) v (source_revision s) (has_bootstrapped s)
    (expected_actor_generation s) (resync_pending s) (bootstrap s) (raw_nodes s) (raw_estimated_bytes s)
    (applications s) (actor_application_generations s) (elements s) (correlations s) (cursors s) (changes s).
Definition set_source_revision v (s : t) : t :=
  mk (desktop_id s) (desktop_generation s) (cache s) v (has_bootstrapped s) (expected_actor_generation s)
    (resync_pending s) (bootstrap s) (raw_nodes s) (raw_estimated_bytes s) (applications s)
    (actor_application_generations s) (elements s) (correlations s) (cursors s) (changes s).
Definition set_has_bootstrapped v (s : t) : t :=
  mk (desktop_id s) (desktop_generation s) (cache s) (source_revision s) v (expected_actor_generation s)
    (resync_pending s) (bootstrap s) (raw_nodes s) (raw_estimated_bytes s) (applications s)
    (actor_application_generations s) (elements s) (correlations s) (cursors s) (changes s).
Definition set_expected_actor_generation v (s : t) : t :=
  mk (desktop_id s) (desktop_generation s) (cache s) (source_revision s) (has_bootstrapped s) v
    (resync_pending s) (bootstrap s) (raw_nodes s) (raw_estimated_bytes s) (applications s)
    (actor_application_generations s) (elements s) (correlations s) (cursors s) (changes s).
Definition set_resync_pending v (s : t) : t :=
  mk (desktop_id s) (desktop_generation s) (cache s) (source_revision s) (has_bootstrapped s)
    (expected_actor_generation s) v (bootstrap s) (raw_nodes s) (raw_estimated_bytes s) (applications s)
    (actor_application_generations s) (elements s) (correlations s) (cursors s) (changes s).
Definition set_bootstrap v (s : t) : t :=
  mk (desktop_id s) (desktop_generation s) (cache s) (source_revision s) (has_bootstrapped s)
    (expected_actor_generation s) (resync_pending s) v (raw_nodes s) (raw_estimated_bytes s) (applications s)
    (actor_application_generations s) (elements s) (correlations s) (cursors s) (changes s).
Definition set_raw_nodes v (s : t) : t :=
  mk (desktop_id s) (desktop_generation s) (cache s) (source_revision s) (has_bootstrapped s)
    (expected_actor_generation s) (resync_pending s) (bootstrap s) v (raw_estimated_bytes s) (applications s)
    (actor_application_generations s) (elements s) (correlations s) (cursors s) (changes s).
Definition set_raw_estimated_bytes v (s : t) : t :=
  mk (desktop_id s) (desktop_generation s) (cache s) (source_revision s) (has_bootstrapped s)
    (expected_actor_generation s) (resync_pending s) (bootstrap s) (raw_nodes s) v (applications s)
    (actor_application_generations s) (elements s) (correlations s) (cursors s) (changes s).
Definition set_applications v (s : t) : t :=
  mk (desktop_id s) (desktop_generation s) (cache s) (source_revision s) (has_bootstrapped s)
    (expected_actor_generation s) (resync_pending s) (bootstrap s) (raw_nodes s) (raw_estimated_bytes s) v
    (actor_application_generations s) (elements s) (correlations s) (cursors s) (changes s).
Definition set_actor_application_generations v (s : t) : t :=
  mk (desktop_id s) (desktop_generation s) (cache s) (source_revision s) (has_bootstrapped s)
    (expected_actor_generation s) (resync_pending s) (bootstrap s) (raw_nodes s) (raw_estimated_bytes s)
    (applications s) v (elements s) (correlations s) (cursors s) (changes s).
Definition set_elements v (s : t) : t :=
  mk (desktop_id s) (desktop_generation s) (cache s) (source_revision s) (has_bootstrapped s)
    (expected_actor_generation s) (resync_pending s) (bootstrap s) (raw_nodes s) (raw_estimated_bytes s)
    (applications s) (actor_application_generations s) v (correlations s) (cursors s) (changes s).
Definition set_correlations v (s : t) : t :=
  mk (desktop_id s) (desktop_generation s) (cache s) (source_revision s) (has_bootstrapped s)
    (expected_actor_generation s) (resync_pending s) (bootstrap s) (raw_nodes s) (raw_estimated_bytes s)
    (applications s) (actor_application_generations s) (elements s) v (cursors s) (changes s).
Definition set_cursors v (s : t) : t :=
  mk (desktop_id s) (desktop_generation s) (cache s) (source_revision s) (has_bootstrapped s)
    (expected_actor_generation s) (resync_pending s) (bootstrap s) (raw_nodes s) (raw_estimated_bytes s)
    (applications s) (actor_application_generations s) (elements s) (correlations s) v (changes s).
Definition set_changes v (s : t) : t :=
  mk (desktop_id s) (desktop_generation s) (cache s) (source_revision s) (has_bootstrapped s)
    (expected_actor_generation s) (resync_pending s) (bootstrap s) (raw_nodes s) (raw_estimated_bytes s)
    (applications s) (actor_application_generations s) (elements s) (correlations s) (cursors s) v.

(** [DaemonAccessibilityPlane::new]. *)
Definition new (desktop : DesktopId) (generation : DesktopGeneration) (atspi : AtspiGeneration.t)
    (config : PlaneConfig.t) : result t Error :=
  try! PlaneConfig.validate config in
  let? cache := map_err map_model_error
      (AccessibilityCache.new desktop generation atspi (PlaneConfig.model_limits config)) in
  Ok (mk desktop generation cache None false (Some (AtspiGeneration.get atspi)) true None ∅ 0 ∅ ∅ ∅ ∅ ∅
        (mkSignal atspi (AccessibilityCache.revision cache))).
End PlaneState.

(** ** Admission of raw nodes *)
Section Ingest.
Context (sizes : TypeSizes) (sha256 : list ascii -> list ascii) (encoded : ElementSnapshot.t -> option N).
Import PlaneState.
#[local] Abbreviation Plane := PlaneState.t.

(** [checked_add] on [usize], failing with [ResourceExhausted]. *)
Definition add_bytes (bytes more : N) : result N Error := ok_or (checked_add_u64 bytes more) ResourceExhausted.
Definition mul_bytes (count size : N) : result N Error :=
  if decide (count * size <= u64_max) then Ok (count * size) else Err ResourceExhausted.

(** [checked_raw_node_bytes]. *)
Definition add_address (bytes : N) (address : Address) : result N Error :=
  let? bytes := add_bytes bytes (byte_len (ObjectAddress.bus_name address)) in
  add_bytes bytes (byte_len (ObjectAddress.object_path address)).

Definition checked_raw_node_bytes (node : CachedNode.t) : result N Error :=
  let item := CachedNode.item node in
  let? bytes := try_fold (fun bytes value => add_bytes bytes (byte_len value)) (size_of_cached_node sizes)
      [ObjectAddress.bus_name (CacheItem.object item); ObjectAddress.object_path (CacheItem.object item);
       ObjectAddress.bus_name (CacheItem.application item); ObjectAddress.object_path (CacheItem.application item);
       CacheItem.name item; CacheItem.description item] in
  let? state_bytes := mul_bytes (len (CacheItem.states item)) 4 in
  let? bytes := add_bytes bytes state_bytes in
  let? interface_bytes := mul_bytes (len (CacheItem.interfaces item)) (size_of_string sizes) in
  let? bytes := add_bytes bytes interface_bytes in
  let? children_bytes := mul_bytes (len (CacheItem.legacy_children item)) (size_of_object_address sizes) in
  let? bytes := add_bytes bytes children_bytes in
  let? bytes := match CacheItem.parent item with Some parent => add_address bytes parent | None => Ok bytes end in
  let? bytes := try_fold (fun bytes interface => add_bytes bytes (byte_len interface)) bytes
      (CacheItem.interfaces item) in
  let? bytes := try_fold add_address bytes (CacheItem.legacy_children item) in
  match LiveMetadata.text (CachedNode.live node) with
  | Some text =>
      let? selection_bytes := mul_bytes (len (selections text)) (size_of_selection_range sizes) in
      add_bytes bytes selection_bytes
  | None => Ok bytes
  end.

(** [validate_cached_node]. *)
Definition validate_cached_node (node : CachedNode.t) (maximum_revision : N) (limits : CacheLimits.t) :
    result N Error :=
  let item := CachedNode.item node in
  try! ensure (CachedNode.application_generation node = 0 \/ CachedNode.revision node = 0 \/
               maximum_revision < CachedNode.revision node \/
               ObjectAddress.bus_name (CacheItem.object item) <> ObjectAddress.bus_name (CacheItem.application item) \/
               CachedNode.identity_fingerprint node <> BoundedCache.identity_fingerprint sha256 item)
         InvalidRequest in
  try! ensure (CacheLimits.max_string_bytes limits < byte_len (CacheItem.name item) \/
               CacheLimits.max_string_bytes limits < byte_len (CacheItem.description item) \/
               CacheLimits.max_interfaces limits < len (CacheItem.interfaces item) \/
               CacheLimits.max_states limits < len (CacheItem.states item) \/
               CacheLimits.max_children limits < len (CacheItem.legacy_children item) \/
               Exists (fun interface => CacheLimits.max_string_bytes limits < byte_len interface)
                 (CacheItem.interfaces item)) ResourceExhausted in
  let? bytes := checked_raw_node_bytes node in
  try! ensure (CacheLimits.max_item_bytes limits < bytes) ResourceExhausted in
  Ok bytes.

(** [bootstrap_byte_limit]. *)
Definition bootstrap_byte_limit (config : PlaneConfig.t) : N :=
  N.min (N.min (PlaneConfig.max_bootstrap_bytes config)
               (CacheLimits.max_bootstrap_bytes (PlaneConfig.raw_cache_limits config)))
    (CacheLimits.max_total_bytes (PlaneConfig.raw_cache_limits config)).

(** [validate_cache_page]. *)
Definition object_of (node : CachedNode.t) : Address := CacheItem.object (CachedNode.item node).

Fixpoint strictly_increasing (nodes : list CachedNode.t) : bool :=
  match nodes with
  | first :: ((second :: _) as rest) =>
      bool_decide (ObjectAddress.cmp (object_of first) (object_of second) = Lt) && strictly_increasing rest
  | _ => true
  end.

(** Its fences: the first node is beyond [after], and the last is at [next_after]. *)
Definition starts_beyond (after : option Address) (nodes : list CachedNode.t) : bool :=
  match after with
  | Some after =>
      match head nodes with
      | Some first => bool_decide (ObjectAddress.cmp (object_of first) after = Gt)
      | None => false
      end
  | None => true
  end.
Definition ends_at (next_after : option Address) (nodes : list CachedNode.t) : bool :=
  match next_after with
  | Some after => match last nodes with Some final => bool_decide (object_of final = after) | None => false end
  | None => true
  end.

Definition validate_cache_page (page : CachePage.t) (config : PlaneConfig.t) : result N Error :=
  let byte_limit := bootstrap_byte_limit config in
  let nodes := CachePage.nodes page in
  try! ensure (byte_limit < CachePage.estimated_bytes page \/
               AccessibilityModelLimits.max_live_nodes (PlaneConfig.model_limits config) < len nodes \/
               CacheLimits.max_nodes (PlaneConfig.raw_cache_limits config) < len nodes) ResourceExhausted in
  try! ensure (CachePage.accessibility_generation page = 0 \/ strictly_increasing nodes = false \/
               starts_beyond (CachePage.after page) nodes = false \/
               ends_at (CachePage.next_after page) nodes = false) InvalidRequest in
  let? actual_bytes := try_fold (fun actual_bytes node =>
      let? node_bytes := validate_cached_node node (CachePage.revision page) (PlaneConfig.raw_cache_limits config) in
      add_bytes actual_bytes node_bytes) 0 nodes in
  try! ensure (byte_limit < actual_bytes) ResourceExhausted in
  try! ensure (actual_bytes <> CachePage.estimated_bytes page) InvalidRequest in
  Ok actual_bytes.

(** [prospective_raw_upsert_bytes]. *)
Definition prospective_raw_upsert_bytes (self : Plane) (node : CachedNode.t) (node_bytes maximum_total_bytes : N) :
    result N Error :=
  let? predecessor_bytes :=
    match raw_nodes self !! object_of node with
    | Some predecessor => checked_raw_node_bytes predecessor
    | None => Ok 0
    end in
  let? bytes := ok_or (checked_sub_u64 (raw_estimated_bytes self) predecessor_bytes) Internal in
  let? total_bytes := ok_or (checked_add_u64 bytes node_bytes) Internal in
  try! ensure (maximum_total_bytes < total_bytes) ResourceExhausted in
  Ok total_bytes.

(** [validate_authoritative_topology]. *)
Definition validate_authoritative_topology (nodes : gmap Address CachedNode.t) : result unit Error :=
  try_each (fun entry : Address * CachedNode.t =>
    let item := CachedNode.item entry.2 in
    match CacheItem.parent item with
    | None => Ok tt
    | Some parent =>
        let? parent_node := ok_or (nodes !! parent) (ResyncRequired None) in
        ensure (parent = CacheItem.object item \/
                CacheItem.application (CachedNode.item parent_node) <> CacheItem.application item)
          (ResyncRequired None)
    end) (btree_iter ObjectAddress.cmp nodes).

(** ** Normalization *)

(** [is_correlation_target]. *)
Definition is_correlation_target (node : CachedNode.t) : bool :=
  match map_role (CacheItem.role (CachedNode.item node)) with
  | ElementRole.Application | ElementRole.Window | ElementRole.Dialog => true
  | _ => false
  end.

(** [inherited_window_correlation]: the first installed correlation on the way up. *)
Definition uncorrelated : ElementWindowCorrelation := mkWindowCorrelation None CorrelationNone [] false.

Definition installed_at (self : Plane) (address : Address) : option ElementWindowCorrelation :=
  match correlations self !! address with
  | Some installed =>
      if decide (elements self !! address = Some (TargetEvidence.current_element (installed_evidence installed)))
      then Some (installed_correlation installed) else None
  | None => None
  end.

Fixpoint climb_correlation (fuel : nat) (self : Plane) (visited : list Address) (current : option Address) :
    ElementWindowCorrelation :=
  match fuel, current with
  | S fuel, Some address =>
      if decide (address ∈ visited) then uncorrelated
      else match installed_at self address with
           | Some correlation => correlation
           | None => climb_correlation fuel self (address :: visited)
                       (raw_nodes self !! address ≫= fun node => CacheItem.parent (CachedNode.item node))
           end
  | _, _ => uncorrelated
  end.

Definition climb_fuel (self : Plane) : nat := size (raw_nodes self) + 2.

Definition inherited_window_correlation (self : Plane) (node : CachedNode.t) : ElementWindowCorrelation :=
  climb_correlation (climb_fuel self) self [] (Some (object_of node)).

(** [u32::try_from], [i32::try_from] of the numbers of a node. *)
Definition u32_try_from (n : N) : option N := if decide (n <= 4294967295) then Some n else None.
Definition i32_try_from (n : N) : option Z := if decide (n <= 2147483647) then Some (Z.of_N n) else None.
Definition u32_of_i32 (z : Z) : option N := if decide (0 <= z)%Z then Some (Z.to_N z) else None.

Definition optional_u32 (value : option N) : result (option N) Error :=
  match value with
  | Some value => let? value := ok_or (u32_try_from value) InvalidRequest in Ok (Some value)
  | None => Ok None
  end.

(** The parts of [normalized_snapshot]. *)
Definition node_protected (node : CachedNode.t) : bool :=
  bool_decide (map_role (CacheItem.role (CachedNode.item node)) = ElementRole.PasswordText) ||
  negb (bool_decide (CacheItem.text_protection (CachedNode.item node) = Unprotected)).

Definition normalized_states (node : CachedNode.t) : list ElementState.t :=
  sorted_set state_position
    (mapped_states (CacheItem.states (CachedNode.item node)) ++
     if node_protected node then [ElementState.Protected] else []).

Definition normalized_interfaces (node : CachedNode.t) : list ElementInterface.t :=
  sorted_set interface_position (omap map_interface (CacheItem.interfaces (CachedNode.item node))).

Definition normalized_value (node : CachedNode.t) : option ElementValueSnapshot :=
  (fun value => mkValueSnapshot (AtspiCache.value_current value) (Some (AtspiCache.value_minimum value))
     (Some (AtspiCache.value_maximum value)) (Some (value_minimum_increment value)) None)
  <$> LiveMetadata.value (CachedNode.live node).

Definition normalized_range (range : SelectionRange) : result ElementTextRange Error :=
  let? start := ok_or (i32_try_from (AtspiCache.range_start range)) Internal in
  let? finish := ok_or (i32_try_from (AtspiCache.range_end range)) Internal in
  Ok (mkTextRange start finish).

Definition normalized_text (node : CachedNode.t) : result (option TextSnapshot.t) Error :=
  if decide (CacheItem.text_protection (CachedNode.item node) = UnknownProtection) then Ok None
  else match LiveMetadata.text (CachedNode.live node) with
       | None => Ok None
       | Some text =>
           let? count := ok_or (character_count text) Internal in
           let? count := ok_or (i32_try_from count) Internal in
           let? caret := ok_or (caret_offset text) Internal in
           let? selections := collect normalized_range (selections text) in
           Ok (Some (TextSnapshot.mk count caret selections None false (node_protected node)))
       end.

Definition normalized_component (node : CachedNode.t) : result (option ElementComponentSnapshot) Error :=
  match LiveMetadata.bounds (CachedNode.live node) with
  | None => Ok None
  | Some bounds =>
      let? width := ok_or (u32_of_i32 (rect_width bounds)) Internal in
      let? height := ok_or (u32_of_i32 (rect_height bounds)) Internal in
      let? extents :=
        if decide (width = 0 \/ height = 0) then Ok None
        else let? rect := map_err (fun _ => Internal)
                 (Rect.new (rect_x bounds) (rect_y bounds) (Z.of_N width) (Z.of_N height)) in
             Ok (Some rect) in
      Ok (Some (mkComponent AtspiScreen extents None None None))
  end.

(** [normalized_snapshot]. *)
Definition normalized_snapshot (self : Plane) (node : CachedNode.t) (element : ElementRef.t) :
    result ElementSnapshot.t Error :=
  let item := CachedNode.item node in
  let protected := node_protected node in
  let? text := normalized_text node in
  let? component := normalized_component node in
  let? index_in_parent := optional_u32 (CacheItem.index_in_parent item) in
  let? child_count := optional_u32 (CacheItem.child_count item) in
  Ok {| ElementSnapshot.element := element;
        ElementSnapshot.parent := CacheItem.parent item ≫= fun address => elements self !! address;
        ElementSnapshot.index_in_parent := index_in_parent;
        ElementSnapshot.child_count := child_count;
        ElementSnapshot.role := mkRole (map_role (CacheItem.role item)) None (Some (CacheItem.role item));
        ElementSnapshot.name := if protected then None else nonempty (CacheItem.name item);
        ElementSnapshot.description := if protected then None else nonempty (CacheItem.description item);
        ElementSnapshot.accessible_id := None;
        ElementSnapshot.locale := None;
        ElementSnapshot.states := normalized_states node;
        ElementSnapshot.interfaces := normalized_interfaces node;
        ElementSnapshot.actions := [];
        ElementSnapshot.value := normalized_value node;
        ElementSnapshot.text := text;
        ElementSnapshot.component := component;
        ElementSnapshot.attributes := [];
        ElementSnapshot.relations := [];
        ElementSnapshot.window_correlation := inherited_window_correlation self node;
        ElementSnapshot.revision := AccessibilityCache.revision (cache self);
        ElementSnapshot.completeness := Partial;
        ElementSnapshot.truncated := false;
        ElementSnapshot.warnings := [] |}.

(** ** The mirror of one node *)
Definition on_cache {A} (m : M AccessibilityCache.t AccessibilityModelError.t A) : M Plane Error A :=
  zoom cache set_cache map_model_error m.

(** [ensure_application]. *)
Definition application_hash (node : CachedNode.t) : result AccessibilityIdentityHash Error :=
  let application := CacheItem.application (CachedNode.item node) in
  identity_hash sha256
    [as_bytes "application-v1"; as_bytes (ObjectAddress.bus_name application);
     as_bytes (ObjectAddress.object_path application); be_bytes (CachedNode.application_generation node)].

Definition ensure_application (node : CachedNode.t) : M Plane Error ApplicationRef.t :=
  let application := CacheItem.application (CachedNode.item node) in
  let bus := ObjectAddress.bus_name application in
  self <- get ;;
  match actor_application_generations self !! bus with
  | Some generation => reject_if (generation <> CachedNode.application_generation node) (ResyncRequired None)
  | None => modify (fun self => set_actor_application_generations
              (<[bus := CachedNode.application_generation node]> (actor_application_generations self)) self)
  end ;;;
  expected_hash <- lift (application_hash node) ;;
  self <- get ;;
  match applications self !! application with
  | Some existing =>
      reject_if (ApplicationRef.identity_hash existing <> expected_hash) (ResyncRequired None) ;;;
      ret existing
  | None =>
      bus_name <- lift (map_err (fun _ => InvalidRequest) (new_bus_name bus)) ;;
      root <- lift (map_err (fun _ => InvalidRequest) (new_object_path (ObjectAddress.object_path application))) ;;
      registered <- on_cache (AccessibilityCache.register_application bus_name root expected_hash) ;;
      modify (fun self => set_applications (<[application := registered]> (applications self)) self) ;;;
      ret registered
  end.

(** [upsert_address]. *)
Definition object_hash (address : Address) (node : CachedNode.t) : result AccessibilityIdentityHash Error :=
  identity_hash sha256
    [as_bytes "object-v1"; as_bytes (ObjectAddress.bus_name address); as_bytes (ObjectAddress.object_path address);
     be_bytes (CachedNode.application_generation node)].

Definition element_for (address : Address) (node : CachedNode.t) (application : ApplicationRef.t) :
    M Plane Error ElementRef.t :=
  self <- get ;;
  match elements self !! address with
  | Some element =>
      reject_if (ElementRef.application element <> application) (ResyncRequired None) ;;; ret element
  | None =>
      path <- lift (map_err (fun _ => InvalidRequest) (new_object_path (ObjectAddress.object_path address))) ;;
      hash <- lift (object_hash address node) ;;
      element <- lift (map_err map_model_error
                   (AccessibilityCache.next_element_ref application path hash (cache self))) ;;
      modify (fun self => set_elements (<[address := element]> (elements self)) self) ;;;
      ret element
  end.

Definition upsert_address (address : Address) : M Plane Error unit :=
  self <- get ;;
  node <- lift (ok_or (raw_nodes self !! address) NotFound) ;;
  application <- ensure_application node ;;
  element <- element_for address node application ;;
  self <- get ;;
  snapshot <- lift (normalized_snapshot self node element) ;;
  on_cache (AccessibilityCache.observe encoded snapshot) ;;;
  ret tt.

(** [rebuild_all], [refresh_all_normalized_snapshots]. *)
Definition refresh_all_normalized_snapshots : M Plane Error unit :=
  self <- get ;; for_each upsert_address (btree_keys ObjectAddress.cmp (raw_nodes self)).

Definition rebuild_all : M Plane Error unit :=
  self <- get ;;
  let addresses := btree_keys ObjectAddress.cmp (raw_nodes self) in
  for_each upsert_address addresses ;;;
  for_each upsert_address addresses.

(** ** Mutations *)

(** [apply_upsert]. *)
Definition remove_element (address : Address) : M Plane Error unit :=
  self <- get ;;
  match elements self !! address with
  | Some element =>
      modify (fun self => set_elements (delete address (elements self)) self) ;;;
      on_cache (AccessibilityCache.remove element) ;;;
      ret tt
  | None => ret tt
  end.

Definition drop_correlation (address : Address) : M Plane Error unit :=
  modify (fun self => set_correlations (delete address (correlations self)) self).

Definition insert_raw (node : CachedNode.t) (total_bytes : N) : M Plane Error unit :=
  modify (fun self => set_raw_nodes (<[object_of node := node]> (raw_nodes self)) self) ;;;
  modify (set_raw_estimated_bytes total_bytes).

Definition apply_upsert (node : CachedNode.t) (total_bytes : N) : M Plane Error unit :=
  let address := object_of node in
  remove_element address ;;;
  drop_correlation address ;;;
  insert_raw node total_bytes ;;;
  upsert_address address ;;;
  self <- get ;;
  let children :=
    map fst (filter (fun entry : Address * CachedNode.t => CacheItem.parent (CachedNode.item entry.2) = Some address)
      (btree_iter ObjectAddress.cmp (raw_nodes self))) in
  for_each upsert_address children.

(** [apply_refresh]: the new parent must lead, without a cycle and within the application,
    to a root. *)
Fixpoint climb_ancestors (fuel : nat) (self : Plane) (address application : Address) (visited : list Address)
    (ancestor : option Address) : option (result unit Error) :=
  match fuel with
  | O => None
  | S fuel =>
      match ancestor with
      | None => Some (Ok tt)
      | Some parent =>
          if decide (parent = address \/ parent ∈ visited) then Some (Err (ResyncRequired None))
          else match raw_nodes self !! parent with
               | None => Some (Err (ResyncRequired None))
               | Some parent_node =>
                   if decide (CacheItem.application (CachedNode.item parent_node) <> application \/
                              elements self !! parent = None)
                   then Some (Err (ResyncRequired None))
                   else climb_ancestors fuel self address application (parent :: visited)
                          (CacheItem.parent (CachedNode.item parent_node))
               end
      end
  end.

Definition validate_ancestors (self : Plane) (node : CachedNode.t) : result unit Error :=
  default (Err Internal)
    (climb_ancestors (climb_fuel self) self (object_of node) (CacheItem.application (CachedNode.item node)) []
       (CacheItem.parent (CachedNode.item node))).

Definition apply_refresh (node : CachedNode.t) (total_bytes : N) : M Plane Error unit :=
  let address := object_of node in
  let item := CachedNode.item node in
  self <- get ;;
  predecessor <- lift (ok_or (raw_nodes self !! address) (ResyncRequired None)) ;;
  element <- lift (ok_or (elements self !! address) (ResyncRequired None)) ;;
  lift (map_err map_model_error (AccessibilityCache.resolve_exact element (cache self))) ;;;
  actor_application_generation <-
    lift (ok_or (actor_application_generations self !! ObjectAddress.bus_name (CacheItem.application item))
            (ResyncRequired None)) ;;
  reject_if (object_of predecessor <> address \/
             CacheItem.application (CachedNode.item predecessor) <> CacheItem.application item \/
             CachedNode.application_generation predecessor <> CachedNode.application_generation node \/
             actor_application_generation <> CachedNode.application_generation node) (ResyncRequired None) ;;;
  lift (validate_ancestors self node) ;;;
  let invalidates_correlation := is_correlation_target predecessor || is_correlation_target node in
  insert_raw node total_bytes ;;;
  if invalidates_correlation
  then drop_correlation address ;;; refresh_all_normalized_snapshots
  else upsert_address address.

(** [apply_removed]. *)
Definition remove_raw (address : Address) : M Plane Error unit :=
  self <- get ;;
  match raw_nodes self !! address with
  | Some node =>
      modify (fun self => set_raw_nodes (delete address (raw_nodes self)) self) ;;;
      node_bytes <- lift (checked_raw_node_bytes node) ;;
      self <- get ;;
      bytes <- lift (ok_or (checked_sub_u64 (raw_estimated_bytes self) node_bytes) Internal) ;;
      modify (set_raw_estimated_bytes bytes)
  | None => ret tt
  end.

Definition apply_removed (addresses : list Address) : M Plane Error unit :=
  for_each (fun address =>
    remove_raw address ;;;
    remove_element address ;;;
    drop_correlation address) addresses.

(** [apply_application_invalidation]. *)
Definition apply_application_invalidation (bus_name : string) : M Plane Error unit :=
  self <- get ;;
  removed_bytes <- lift (try_fold (fun bytes (entry : Address * CachedNode.t) =>
      let? node_bytes := checked_raw_node_bytes entry.2 in
      ok_or (checked_add_u64 bytes node_bytes) Internal) 0
      (filter (fun entry : Address * CachedNode.t => ObjectAddress.bus_name entry.1 = bus_name)
         (btree_iter ObjectAddress.cmp (raw_nodes self)))) ;;
  let gone := map snd (filter (fun entry : Address * ApplicationRef.t => ObjectAddress.bus_name entry.1 = bus_name)
                (btree_iter ObjectAddress.cmp (applications self))) in
  for_each (fun application => on_cache (AccessibilityCache.remove_application application)) gone ;;;
  modify (fun self => set_raw_nodes
    (filter (fun entry => ObjectAddress.bus_name entry.1 <> bus_name) (raw_nodes self)) self) ;;;
  self <- get ;;
  bytes <- lift (ok_or (checked_sub_u64 (raw_estimated_bytes self) removed_bytes) Internal) ;;
  modify (set_raw_estimated_bytes bytes) ;;;
  modify (fun self => set_elements
    (filter (fun entry => ObjectAddress.bus_name entry.1 <> bus_name) (elements self)) self) ;;;
  modify (fun self => set_correlations
    (filter (fun entry => ObjectAddress.bus_name entry.1 <> bus_name) (correlations self)) self) ;;;
  modify (fun self => set_applications
    (filter (fun entry => ObjectAddress.bus_name entry.1 <> bus_name) (applications self)) self).

(** ** Events *)

(** [event_cache_sequence]. *)
Definition event_cache_sequence (self : Plane) : N :=
  match map (fun entry => ElementRef.cache_sequence entry.2) (map_to_list (elements self)) with
  | [] => 1
  | sequences => fold_right N.max 0 sequences
  end.

Definition event_now (kind : IngestKind.t) (sources : list IngestSource.t) (self : Plane) : IngestEvent.t :=
  {| IngestEvent.desktop_id := desktop_id self;
     IngestEvent.desktop_generation := desktop_generation self;
     IngestEvent.kind := kind;
     IngestEvent.atspi_generation := AccessibilityCache.atspi_generation (cache self);
     IngestEvent.revision := AccessibilityCache.revision (cache self);
     IngestEvent.cache_sequence := event_cache_sequence self;
     IngestEvent.sources := sources |}.

(** [changed], [changed_with_sources]. *)
Definition changed_with_sources (kind : IngestKind.t) (sources : list IngestSource.t) :
    M Plane Error IngestEvent.t :=
  modify (set_cursors ∅) ;;;
  self <- get ;;
  modify (set_changes (mkSignal (AccessibilityCache.atspi_generation (cache self))
                        (AccessibilityCache.revision (cache self)))) ;;;
  ret (event_now kind sources self).
Definition changed (kind : IngestKind.t) : M Plane Error IngestEvent.t := changed_with_sources kind [].

(** [resolved_ingest_source]. *)
Definition event_metadata (snapshot : ElementSnapshot.t) : EventMetadata :=
  mkMetadata (ElementSnapshot.component snapshot ≫= extents)
    (AccessibilityTypes.value_current <$> ElementSnapshot.value snapshot)
    (ElementSnapshot.text snapshot ≫= fun text => u32_of_i32 (TextSnapshot.caret_offset text))
    (ElementSnapshot.text snapshot ≫= fun text =>
       head (TextSnapshot.selections text) ≫= fun selection =>
       u32_of_i32 (AccessibilityTypes.range_start selection) ≫= fun start =>
       u32_of_i32 (AccessibilityTypes.range_end selection) ≫= fun finish =>
       Some (start, finish - start)).

Definition resolved_ingest_source (self : Plane) (raw : Address) : result IngestSource.t Error :=
  let? element := ok_or (elements self !! raw) (ResyncRequired None) in
  let? snapshot := map_err map_model_error (AccessibilityCache.resolve_exact element (cache self)) in
  Ok (IngestSource.mk raw (Some element) (event_metadata snapshot)).

(** [force_resync], and with the announcement of it and an error. *)
Definition force_resync (self : Plane) : Plane :=
  let self := set_source_revision None self in
  let self := set_resync_pending true self in
  let self := set_bootstrap None self in
  let self := set_raw_nodes ∅ self in
  let self := set_raw_estimated_bytes 0 self in
  let self := set_applications ∅ self in
  let self := set_actor_application_generations ∅ self in
  let self := set_elements ∅ self in
  let self := set_correlations ∅ self in
  let self := set_cursors ∅ self in
  set_expected_actor_generation None self.

Definition resync_with {A} (error : Error) : M Plane Error A :=
  modify force_resync ;;;
  changed IngestKind.ResyncRequired ;;;
  fail error.
Definition resync_now {A} : M Plane Error A :=
  self <- get ;; resync_with (ResyncRequired (Some (desktop_generation self))).

(** [require_ready]. *)
Definition require_ready (self : Plane) : result unit Error :=
  ensure (resync_pending self = true \/ is_Some (bootstrap self)) (ResyncRequired None).

(** ** The bootstrap *)

(** The nodes of a page, accumulated. *)
Definition accumulate (config : PlaneConfig.t) (nodes : gmap Address CachedNode.t) (page : list CachedNode.t) :
    result (gmap Address CachedNode.t) Error :=
  try_fold (fun nodes node =>
    let inserted := <[object_of node := node]> nodes in
    try! ensure (is_Some (nodes !! object_of node) \/
                 AccessibilityModelLimits.max_live_nodes (PlaneConfig.model_limits config) <
                   N.of_nat (size inserted) \/
                 CacheLimits.max_nodes (PlaneConfig.raw_cache_limits config) < N.of_nat (size inserted))
           ResourceExhausted in
    Ok inserted) nodes page.

(** The installation of a complete copy. *)
Definition graph_needs_resync (self : Plane) : bool :=
  AccessibilityViews.resync_required (AccessibilitySnapshot.graph (snapshot_of (cache self))).

Definition install (config : PlaneConfig.t) (complete : Bootstrap.t) : M Plane Error IngestEvent.t :=
  modify (set_bootstrap None) ;;;
  modify (set_has_bootstrapped true) ;;;
  generation <- lift (map_err (fun _ => InvalidRequest)
                  (AtspiGeneration.new (Bootstrap.accessibility_generation complete))) ;;
  self <- get ;;
  fresh <- lift (map_err map_model_error
             (AccessibilityCache.new (desktop_id self) (desktop_generation self) generation
                (PlaneConfig.model_limits config))) ;;
  modify (set_cache fresh) ;;;
  modify (set_raw_nodes (Bootstrap.nodes complete)) ;;;
  modify (set_raw_estimated_bytes (Bootstrap.estimated_bytes complete)) ;;;
  modify (set_applications ∅) ;;;
  modify (set_actor_application_generations ∅) ;;;
  modify (set_elements ∅) ;;;
  self <- get ;;
  match validate_authoritative_topology (raw_nodes self) with
  | Err _ => resync_now
  | Ok _ => fun self =>
      match rebuild_all self with
      | (self, Err error) => resync_with error self
      | (self, Ok _) =>
          if graph_needs_resync self then resync_now self
          else (modify (set_source_revision (Some (Bootstrap.source_revision complete))) ;;;
                modify (set_resync_pending false) ;;;
                modify (set_expected_actor_generation None) ;;;
                changed IngestKind.Rebuilt) self
      end
  end.

(** [ingest_cache_page]. *)
Definition begins_bootstrap (self : Plane) (page : CachePage.t) : bool :=
  resync_pending self &&
  bool_decide (expected_actor_generation self = Some (CachePage.accessibility_generation page)) &&
  bool_decide (AtspiGeneration.get (AccessibilityCache.atspi_generation (cache self)) <=
               CachePage.accessibility_generation page).

Definition continues (accumulator : Bootstrap.t) (page : CachePage.t) : bool :=
  bool_decide (Bootstrap.accessibility_generation accumulator = CachePage.accessibility_generation page) &&
  bool_decide (Bootstrap.source_revision accumulator = CachePage.revision page) &&
  bool_decide (Bootstrap.expected_after accumulator = CachePage.after page) &&
  negb (bool_decide (is_Some (Bootstrap.expected_after accumulator)) && bool_decide (CachePage.nodes page = [])).

Definition accumulate_page (config : PlaneConfig.t) (accumulator : Bootstrap.t) (page : CachePage.t)
    (page_bytes : N) : result Bootstrap.t Error :=
  let? estimated_bytes := add_bytes (Bootstrap.estimated_bytes accumulator) page_bytes in
  try! ensure (bootstrap_byte_limit config < estimated_bytes) ResourceExhausted in
  let? nodes := accumulate config (Bootstrap.nodes accumulator) (CachePage.nodes page) in
  Ok (Bootstrap.mk (Bootstrap.accessibility_generation accumulator) (Bootstrap.source_revision accumulator) nodes
        estimated_bytes (CachePage.next_after page)).

Definition ingest_cache_page (config : PlaneConfig.t) (page : CachePage.t) : M Plane Error IngestEvent.t :=
  self <- get ;;
  match validate_cache_page page config with
  | Err error => if decide (is_Some (bootstrap self)) then resync_now else fail error
  | Ok page_bytes =>
      match bootstrap self with
      | None =>
          reject_if (begins_bootstrap self page = false) (StaleReference (Some (desktop_generation self))) ;;;
          modify (set_bootstrap (Some (Bootstrap.mk (CachePage.accessibility_generation page)
                                         (CachePage.revision page) ∅ 0 None))) ;;;
          modify (set_resync_pending true)
      | Some _ => ret tt
      end ;;;
      self <- get ;;
      accumulator <- lift (ok_or (bootstrap self) Internal) ;;
      if negb (continues accumulator page) then resync_now
      else match accumulate_page config accumulator page page_bytes with
           | Err error => resync_with error
           | Ok accumulator =>
               modify (set_bootstrap (Some accumulator)) ;;;
               match CachePage.next_after page with
               | Some _ => changed IngestKind.BootstrapPending
               | None => install config accumulator
               end
           end
  end.

(** ** Incremental mutations *)

(** What follows the application of a mutation: the new source revision, or a resync. *)
Definition conclude (revision : N) (applied : M Plane Error (IngestKind.t * list IngestSource.t)) :
    M Plane Error IngestEvent.t :=
  fun self =>
    match applied self with
    | (self, Err Internal) => resync_with Internal self
    | (self, Err _) => resync_now self
    | (self, Ok (kind, sources)) =>
        if graph_needs_resync self then resync_now self
        else (modify (set_source_revision (Some revision)) ;;; changed_with_sources kind sources) self
    end.

(** The admission of a node, and of the total with it. *)
Definition raw_admission (config : PlaneConfig.t) (self : Plane) (node : CachedNode.t) (revision : N) :
    result N Error :=
  let limits := PlaneConfig.raw_cache_limits config in
  let? node_bytes := validate_cached_node node revision limits in
  prospective_raw_upsert_bytes self node node_bytes (CacheLimits.max_total_bytes limits).

Definition with_source (kind : IngestKind.t) (address : Address) (applied : M Plane Error unit) :
    M Plane Error (IngestKind.t * list IngestSource.t) :=
  applied ;;;
  self <- get ;;
  source <- lift (resolved_ingest_source self address) ;;
  ret (kind, [source]).

Definition orphaned (self : Plane) (node : CachedNode.t) : bool :=
  match CacheItem.parent (CachedNode.item node) with
  | Some parent => bool_decide (parent = object_of node \/ raw_nodes self !! parent = None)
  | None => false
  end.

Definition ingest_upserted (config : PlaneConfig.t) (revision : N) (node : CachedNode.t) :
    M Plane Error IngestEvent.t :=
  self <- get ;;
  match raw_admission config self node revision with
  | Err _ => resync_now
  | Ok total_bytes =>
      if decide (CachedNode.revision node <> revision \/ orphaned self node = true) then resync_now
      else conclude revision (with_source IngestKind.Upserted (object_of node) (apply_upsert node total_bytes))
  end.

Definition ingest_refreshed (config : PlaneConfig.t) (revision : N) (node : CachedNode.t) :
    M Plane Error IngestEvent.t :=
  self <- get ;;
  match raw_admission config self node revision with
  | Err _ => resync_now
  | Ok total_bytes =>
      if decide (CachedNode.revision node <> revision) then resync_now
      else conclude revision (with_source IngestKind.Refreshed (object_of node) (apply_refresh node total_bytes))
  end.

Definition ingest_removed (revision : N) (addresses : list Address) : M Plane Error IngestEvent.t :=
  self <- get ;;
  if decide (addresses = [] \/ ~ NoDup addresses \/
             Exists (fun address => raw_nodes self !! address = None \/ elements self !! address = None) addresses)
  then resync_now
  else
    sources <- lift (collect (resolved_ingest_source self) addresses) ;;
    conclude revision (apply_removed addresses ;;; ret (IngestKind.Removed, sources)).

(** The addresses of an application, as the mirror has them. *)
Definition addresses_on (bus_name : string) (self : Plane) : gset Address :=
  dom (filter (fun entry : Address * CachedNode.t => ObjectAddress.bus_name entry.1 = bus_name) (raw_nodes self)).

Definition next_generation (self : Plane) (bus_name : string) : option N :=
  actor_application_generations self !! bus_name ≫= fun generation => checked_add_u64 generation 1.

Definition ingest_application_invalidated (revision : N) (bus_name : string) (application_generation : N)
    (removed : list Address) : M Plane Error IngestEvent.t :=
  self <- get ;;
  if decide (addresses_on bus_name self = ∅ \/ ~ NoDup removed \/ list_to_set removed <> addresses_on bus_name self \/
             next_generation self bus_name <> Some application_generation)
  then resync_now
  else
    sources <- lift (collect (resolved_ingest_source self) removed) ;;
    conclude revision
      (apply_application_invalidation bus_name ;;;
       modify (fun self => set_actor_application_generations
         (<[bus_name := application_generation]> (actor_application_generations self)) self) ;;;
       ret (IngestKind.ApplicationInvalidated, sources)).

(** [ingest_mutation]. *)
Definition nothing_happened (self : Plane) (previous_revision : N) (mutation : CacheMutation.t) : bool :=
  match CacheMutation.kind mutation, CacheMutation.detail mutation with
  | MutationKind.Unchanged, MutationDetail.Unchanged =>
      bool_decide (source_revision self = Some previous_revision) &&
      bool_decide (CacheMutation.revision mutation = previous_revision)
  | _, _ => false
  end.

Definition in_order (self : Plane) (previous_revision : N) (mutation : CacheMutation.t) : bool :=
  bool_decide (source_revision self = Some previous_revision) &&
  negb (bool_decide (CacheMutation.revision mutation = 0)) &&
  bool_decide (source_revision self ≫= (fun revision => checked_add_u64 revision 1) =
               Some (CacheMutation.revision mutation)).

Definition ingest_mutation (config : PlaneConfig.t) (accessibility_generation previous_revision : N)
    (mutation : CacheMutation.t) : M Plane Error IngestEvent.t :=
  self <- get ;;
  reject_if (resync_pending self = true \/ is_Some (bootstrap self))
    (ResyncRequired (Some (desktop_generation self))) ;;;
  reject_if (accessibility_generation <> AtspiGeneration.get (AccessibilityCache.atspi_generation (cache self)))
    (StaleReference (Some (desktop_generation self))) ;;;
  if nothing_happened self previous_revision mutation then ret (event_now IngestKind.Unchanged [] self)
  else if negb (in_order self previous_revision mutation) then resync_now
  else
    let revision := CacheMutation.revision mutation in
    match CacheMutation.kind mutation, CacheMutation.detail mutation with
    | MutationKind.Upserted, MutationDetail.Upserted node => ingest_upserted config revision node
    | MutationKind.Refreshed, MutationDetail.Refreshed node => ingest_refreshed config revision node
    | MutationKind.Removed, MutationDetail.Removed addresses => ingest_removed revision addresses
    | MutationKind.ApplicationInvalidated, MutationDetail.ApplicationInvalidated bus_name generation removed =>
        ingest_application_invalidated revision bus_name generation removed
    | MutationKind.ResyncRequired, MutationDetail.ResyncRequired =>
        modify force_resync ;;; changed IngestKind.ResyncRequired
    | _, _ => resync_now
    end.

(** [begin_resync]. *)
Definition begin_resync (actor_generation : N) : M Plane Error IngestEvent.t :=
  self <- get ;;
  reject_if (actor_generation <= AtspiGeneration.get (AccessibilityCache.atspi_generation (cache self)) \/
             match expected_actor_generation self with
             | Some expected => actor_generation <? expected
             | None => false
             end = true) (StaleReference (Some (desktop_generation self))) ;;;
  modify force_resync ;;;
  modify (set_expected_actor_generation (Some actor_generation)) ;;;
  changed IngestKind.ResyncRequired.

(** [ingest_application_invalidation]. *)
Definition ingest_application_invalidation (accessibility_generation cache_revision : N) (bus_name : string)
    (application_generation : N) : M Plane Error IngestEvent.t :=
  reject_if (application_generation = 0 \/ is_ok (new_bus_name bus_name) = false) InvalidRequest ;;;
  self <- get ;;
  lift (require_ready self) ;;;
  reject_if (accessibility_generation <> AtspiGeneration.get (AccessibilityCache.atspi_generation (cache self)) \/
             match source_revision self with
             | Some revision => cache_revision <? revision
             | None => false
             end = true) (StaleReference (Some (desktop_generation self))) ;;;
  if decide (source_revision self = Some cache_revision /\
             actor_application_generations self !! bus_name = Some application_generation /\
             addresses_on bus_name self = ∅)
  then ret (event_now IngestKind.Unchanged [] self)
  else resync_now.

(** [resolve_event_source]. *)
Definition resolve_event_source (self : Plane) (accessibility_generation source_revision0 : N) (raw : Address) :
    result SourceResolution.t Error :=
  try! require_ready self in
  try! ensure (accessibility_generation <> AtspiGeneration.get (AccessibilityCache.atspi_generation (cache self)))
         (StaleReference (Some (desktop_generation self))) in
  let? mirrored := ok_or (source_revision self) (ResyncRequired (Some (desktop_generation self))) in
  try! ensure (mirrored < source_revision0) (ResyncRequired (Some (desktop_generation self))) in
  let? source :=
    if decide (source_revision0 = mirrored /\ is_Some (elements self !! raw))
    then resolved_ingest_source self raw
    else Ok (IngestSource.mk raw None (mkMetadata None None None None)) in
  Ok {| SourceResolution.desktop_id := desktop_id self;
        SourceResolution.desktop_generation := desktop_generation self;
        SourceResolution.atspi_generation := AccessibilityCache.atspi_generation (cache self);
        SourceResolution.revision := AccessibilityCache.revision (cache self);
        SourceResolution.cache_sequence :=
          match IngestSource.element source with
          | Some element => ElementRef.cache_sequence element
          | None => event_cache_sequence self
          end;
        SourceResolution.source := source |}.

(** ** Targets and correlations *)

(** [resolve_action_target]. *)
Definition resolve_action_target (self : Plane) (element : ElementRef.t) : result TargetEvidence.t Error :=
  try! require_ready self in
  try! map_err map_model_error (AccessibilityCache.resolve_exact element (cache self)) in
  let? object := map_err (fun _ => InvalidRequest)
      (ObjectAddress.new (bus_str (ApplicationRef.unique_bus_name (ElementRef.application element)))
         (path_str (ElementRef.object_path element))) in
  let? current_element := ok_or (elements self !! object) (ResyncRequired None) in
  let? node := ok_or (raw_nodes self !! object) (ResyncRequired None) in
  let? source_revision := ok_or (source_revision self) (ResyncRequired None) in
  let application := CacheItem.application (CachedNode.item node) in
  let? generation := ok_or (actor_application_generations self !! ObjectAddress.bus_name application)
      (ResyncRequired None) in
  try! ensure (current_element <> element \/ object_of node <> object \/
               CachedNode.application_generation node <> generation \/ source_revision < CachedNode.revision node)
         (ResyncRequired None) in
  Ok {| TargetEvidence.object := object;
        TargetEvidence.application := application;
        TargetEvidence.accessibility_generation :=
          AtspiGeneration.get (AccessibilityCache.atspi_generation (cache self));
        TargetEvidence.application_generation := generation;
        TargetEvidence.source_revision := source_revision;
        TargetEvidence.cache_revision := AccessibilityCache.revision (cache self);
        TargetEvidence.node_revision := CachedNode.revision node;
        TargetEvidence.current_element := current_element |}.

(** [accessibility_correlation_fence]. *)
Definition accessibility_correlation_fence (self : Plane) : result CorrelationFence.t Error :=
  try! require_ready self in
  let? source_revision := ok_or (source_revision self) (ResyncRequired None) in
  Ok (CorrelationFence.mk (AtspiGeneration.get (AccessibilityCache.atspi_generation (cache self))) source_revision
        (AccessibilityCache.revision (cache self))).

(** [accessibility_correlation_targets_for_addresses] and the two target universes. *)
Definition target_at (self : Plane) (address : Address) : result CorrelationTarget.t Error :=
  let? element := ok_or (elements self !! address) (ResyncRequired None) in
  let? evidence := resolve_action_target self element in
  let? snapshot := map_err map_model_error (AccessibilityCache.resolve_exact element (cache self)) in
  Ok (CorrelationTarget.mk evidence snapshot
        (raw_nodes self !! TargetEvidence.application evidence ≫=
         fun application => nonempty (CacheItem.name (CachedNode.item application)))).

Definition targets_for_addresses (self : Plane) (addresses : list Address) : result (list CorrelationTarget.t) Error :=
  try! ensure (MAX_ACCESSIBILITY_CORRELATION_CANDIDATES < len addresses) ResourceExhausted in
  collect (target_at self) addresses.

Definition addresses_of (self : Plane) (eligible : CachedNode.t -> bool) : list Address :=
  map fst (filter (fun entry : Address * CachedNode.t => eligible entry.2 = true)
    (btree_iter ObjectAddress.cmp (raw_nodes self))).

Definition accessibility_correlation_targets (self : Plane) : result (list CorrelationTarget.t) Error :=
  targets_for_addresses self (addresses_of self is_correlation_target).

Definition below_application_root (node : CachedNode.t) : bool :=
  bool_decide (CacheItem.parent (CachedNode.item node) = Some (CacheItem.application (CachedNode.item node))).

Definition accessibility_explicit_correlation_targets (self : Plane) : result (list CorrelationTarget.t) Error :=
  targets_for_addresses self (addresses_of self (fun node => is_correlation_target node || below_application_root node)).

(** [replace_window_correlations]: one assignment, admitted at the fence. *)
Definition with_correlation (correlation : ElementWindowCorrelation) (s : ElementSnapshot.t) : ElementSnapshot.t :=
  ElementSnapshot.mk (ElementSnapshot.element s) (ElementSnapshot.parent s) (ElementSnapshot.index_in_parent s)
    (ElementSnapshot.child_count s) (ElementSnapshot.role s) (ElementSnapshot.name s)
    (ElementSnapshot.description s) (ElementSnapshot.accessible_id s) (ElementSnapshot.locale s)
    (ElementSnapshot.states s) (ElementSnapshot.interfaces s) (ElementSnapshot.actions s)
    (ElementSnapshot.value s) (ElementSnapshot.text s) (ElementSnapshot.component s)
    (ElementSnapshot.attributes s) (ElementSnapshot.relations s) correlation (ElementSnapshot.revision s)
    (ElementSnapshot.completeness s) (ElementSnapshot.truncated s) (ElementSnapshot.warnings s).

Definition other_desktop (self : Plane) (correlation : ElementWindowCorrelation) : bool :=
  match correlated_window correlation with
  | Some window =>
      negb (bool_decide (WindowRef.desktop_id window = desktop_id self)) ||
      negb (bool_decide (WindowRef.desktop_generation window = desktop_generation self))
  | None => false
  end.

Definition admit_assignment (self : Plane) (fence : CorrelationFence.t)
    (desired : gmap Address InstalledWindowCorrelation) (assignment : CorrelationAssignment) :
    result (gmap Address InstalledWindowCorrelation) Error :=
  let evidence := assigned_evidence assignment in
  let correlation := assigned_correlation assignment in
  try! ensure (TargetEvidence.accessibility_generation evidence <> CorrelationFence.accessibility_generation fence \/
               TargetEvidence.source_revision evidence <> CorrelationFence.source_revision fence \/
               TargetEvidence.cache_revision evidence <> CorrelationFence.cache_revision fence \/
               other_desktop self correlation = true) InvalidRequest in
  let? current := resolve_action_target self (TargetEvidence.current_element evidence) in
  try! ensure (current <> evidence) (StaleReference None) in
  let? snapshot := map_err map_model_error
      (AccessibilityCache.resolve_exact (TargetEvidence.current_element current) (cache self)) in
  try! map_err (fun _ => InvalidRequest) (ElementSnapshot.validate encoded (with_correlation correlation snapshot)) in
  let? target_node := ok_or (raw_nodes self !! TargetEvidence.object current) (ResyncRequired None) in
  try! ensure (is_correlation_target target_node = false \/ is_Some (desired !! TargetEvidence.object current))
         InvalidRequest in
  Ok (<[TargetEvidence.object current := mkInstalled current correlation]> desired).

Definition same_installed (installed desired : option InstalledWindowCorrelation) : bool :=
  match installed, desired with
  | Some installed, Some desired =>
      bool_decide (TargetEvidence.current_element (installed_evidence installed) =
                   TargetEvidence.current_element (installed_evidence desired)) &&
      bool_decide (installed_correlation installed = installed_correlation desired)
  | _, _ => false
  end.

Definition publicly_unchanged (self : Plane) (desired : gmap Address InstalledWindowCorrelation) : bool :=
  bool_decide (size desired = size (correlations self)) &&
  forallb (fun entry : Address * InstalledWindowCorrelation =>
    same_installed (correlations self !! entry.1) (Some entry.2)) (map_to_list desired).

Definition replace_window_correlations (fence : CorrelationFence.t) (assignments : list CorrelationAssignment) :
    M Plane Error IngestEvent.t :=
  reject_if (MAX_ACCESSIBILITY_CORRELATION_CANDIDATES < len assignments) ResourceExhausted ;;;
  self <- get ;;
  lift (require_ready self) ;;;
  reject_if (CorrelationFence.accessibility_generation fence <>
               AtspiGeneration.get (AccessibilityCache.atspi_generation (cache self)) \/
             Some (CorrelationFence.source_revision fence) <> source_revision self \/
             CorrelationFence.cache_revision fence <> AccessibilityCache.revision (cache self))
    (StaleReference None) ;;;
  desired <- lift (try_fold (admit_assignment self fence) ∅ assignments) ;;
  let unchanged := publicly_unchanged self desired in
  modify (set_correlations desired) ;;;
  if unchanged then self <- get ;; ret (event_now IngestKind.Unchanged [] self)
  else fun self =>
    match refresh_all_normalized_snapshots self with
    | (self, Err _) => resync_now self
    | (self, Ok _) => changed IngestKind.Correlated self
    end.
End Ingest.
