(* ===== verification/IngestFacts.v ===== *)
(** * What the ingestion does to the mirror

    The raw nodes of the plane change only where a mutation or a bootstrap says so: each
    call either leaves them, or applies exactly the mutation, or clears them and asks for a
    resynchronization. *)

From stdpp Require Import base numbers list option gmap strings sorting.
From Stdlib Require Import Lia Ascii.
From S2P Require Import Prelude Orderings AtspiCache AtspiCacheFacts AtspiGuarantees.
From S2P Require Import AccessibilityTypes Accessibility PlaneTypes AccessibilityIngest.

Local Open Scope N_scope.
Import PlaneState.
#[local] Abbreviation Address := ObjectAddress.t.
#[local] Abbreviation Plane := PlaneState.t.
#[local] Abbreviation Nodes := (gmap Address CachedNode.t).

(** The part of the state that says what is mirrored. *)
Definition Core : Type := Nodes * option N * bool * option Bootstrap.t.
Definition core (s : Plane) : Core := (raw_nodes s, source_revision s, resync_pending s, bootstrap s).
Definition with_raw (f : Nodes -> Nodes) (c : Core) : Core :=
  let '(raw, revision, pending, boot) := c in (f raw, revision, pending, boot).

(** [does m f]: where [m] succeeds, it changes the mirrored part as [f] does. *)
Definition does {A} (m : M Plane PlaneError.t A) (f : Core -> Core) : Prop :=
  forall s s' a, m s = (s', Ok a) -> core s' = f (core s).
#[local] Abbreviation framed m := (does m id).

Section Does.
Context {A B : Type}.
Implicit Types (m : M Plane PlaneError.t A).

Lemma does_ret (a : A) : framed (ret a).
Proof. intros s s' a' [= <- <-]. done. Qed.
Lemma does_lift (r : result A PlaneError.t) : framed (lift r).
Proof. intros s s' a H. unfold lift in H. by injection H as <- _. Qed.
Lemma does_get : framed get.
Proof. intros s s' a [= <- <-]. done. Qed.
Lemma does_reject (P : Prop) `{Decision P} (e : PlaneError.t) : framed (reject_if P e).
Proof. intros s s' a. unfold reject_if. case_decide; [done |]. intros [= <- _]. done. Qed.
Lemma does_modify f g : (forall s, core (f s) = g (core s)) -> does (modify f) g.
Proof. intros Hf s s' a [= <- _]. apply Hf. Qed.
Lemma does_bind m (k : A -> M Plane PlaneError.t B) f g :
  does m f -> (forall a, does (k a) g) -> does (bind m k) (fun c => g (f c)).
Proof.
  intros Hm Hk s s' b Hb. unfold bind in Hb. destruct (m s) as [s1 [a | e]] eqn:Hs; [| done].
  rewrite (Hk a s1 s' b Hb). by rewrite (Hm s s1 a Hs).
Qed.
Lemma framed_bind m (k : A -> M Plane PlaneError.t B) f :
  framed m -> (forall a, does (k a) f) -> does (bind m k) f.
Proof. intros Hm Hk. exact (does_bind m k id f Hm Hk). Qed.
Lemma framed_after m (k : A -> M Plane PlaneError.t B) f :
  does m f -> (forall a, framed (k a)) -> does (bind m k) f.
Proof. intros Hm Hk. exact (does_bind m k f id Hm Hk). Qed.
Lemma does_on_cache (m : M AccessibilityCache.t AccessibilityModelError.t A) : framed (on_cache m).
Proof.
  intros s s' a. unfold on_cache, zoom. destruct (m (cache s)) as [c r]. intros [= <- _]. done.
Qed.
End Does.

Lemma does_for_each {X} (f : X -> M Plane PlaneError.t unit) (g : X -> Core -> Core) l :
  (forall x, does (f x) (g x)) -> does (for_each f l) (fun c => fold_left (fun c x => g x c) l c).
Proof.
  intros Hf. induction l as [| x l IH]; cbn [for_each fold_left]; [apply does_ret |].
  by apply (does_bind (f x) (fun _ => for_each f l) (g x)).
Qed.
Lemma framed_for_each {X} (f : X -> M Plane PlaneError.t unit) l :
  (forall x, framed (f x)) -> framed (for_each f l).
Proof.
  intros Hf. induction l as [| x l IH]; cbn [for_each]; [apply does_ret |]. by apply framed_bind.
Qed.

Create HintDb framed discriminated.
#[export] Hint Resolve does_ret does_lift does_get does_reject does_on_cache framed_for_each : framed.

Ltac frame_step :=
  lazymatch goal with
  | |- does (bind get _) _ => apply framed_bind; [apply does_get | intros ?]
  | |- does (bind (modify _) _) id => apply framed_bind; [by apply does_modify | intros ?]
  | |- does (bind _ _) id => apply framed_bind; [| intros ?]
  | |- does (modify _) id => by apply does_modify
  | |- does (match ?x with _ => _ end) id => destruct x
  | |- does (if ?b then _ else _) id => destruct b
  | |- does _ id => solve [auto with framed nocore]
  end.
Ltac frame := repeat frame_step.

(** Runs the steps of a call that only read or set the state. *)
Ltac run_steps :=
  repeat (progress (change (bind (modify ?f) ?k ?s) with (k tt (f s)); change (bind get ?k ?s) with (k s s);
                    change (bind (lift (Ok ?a)) ?k ?s) with (k a s); cbv beta)).

Section Ingest.
Context (sizes : TypeSizes) (sha256 : list ascii -> list ascii) (encoded : ElementSnapshot.t -> option N).

Lemma framed_ensure_application node : framed (ensure_application sha256 node).
Proof. unfold ensure_application. frame. Qed.
Lemma framed_element_for address node application : framed (element_for sha256 address node application).
Proof. unfold element_for. frame. Qed.
#[local] Hint Resolve framed_ensure_application framed_element_for : framed.
Lemma framed_upsert_address address : framed (upsert_address sha256 encoded address).
Proof. unfold upsert_address. frame. Qed.
#[local] Hint Resolve framed_upsert_address : framed.
Lemma framed_refresh_all : framed (refresh_all_normalized_snapshots sha256 encoded).
Proof. unfold refresh_all_normalized_snapshots. frame. Qed.
Lemma framed_rebuild_all : framed (rebuild_all sha256 encoded).
Proof. unfold rebuild_all. frame. Qed.
Lemma framed_remove_element address : framed (remove_element address).
Proof. unfold remove_element. frame. Qed.
Lemma framed_drop_correlation address : framed (drop_correlation address).
Proof. unfold drop_correlation. frame. Qed.
#[local] Hint Resolve framed_refresh_all framed_rebuild_all framed_remove_element framed_drop_correlation : framed.

Lemma does_insert_raw node total : does (insert_raw node total) (with_raw <[object_of node := node]>).
Proof. unfold insert_raw. by apply framed_after; [apply does_modify | intros; apply does_modify]. Qed.

Lemma does_apply_upsert node total :
  does (apply_upsert sha256 encoded node total) (with_raw <[object_of node := node]>).
Proof.
  unfold apply_upsert. apply framed_bind; [auto with framed | intros _].
  apply framed_bind; [auto with framed | intros _].
  apply framed_after; [apply does_insert_raw | intros _]. frame.
Qed.

Lemma does_apply_refresh node total :
  does (apply_refresh sha256 encoded node total) (with_raw <[object_of node := node]>).
Proof.
  unfold apply_refresh. repeat (apply framed_bind; [solve [auto with framed nocore] | intros ?]).
  apply framed_after; [apply does_insert_raw | intros _]. frame.
Qed.

Lemma does_remove_raw address : does (remove_raw sizes address) (with_raw (delete address)).
Proof.
  intros s s' a. unfold remove_raw. change (bind get ?k s) with (k s s). cbv beta.
  destruct (raw_nodes s !! address) as [node |] eqn:Hn.
  - revert s' a. generalize s as s1. clear Hn s. 
    apply (framed_after (modify _) _ (with_raw (delete address))); [by apply does_modify | intros ?]. frame.
  - intros [= <- _]. unfold core, with_raw. by rewrite delete_id.
Qed.

Lemma delete_all_left (l : list Address) (m : Nodes) : fold_left (fun m a => delete a m) l m = fold_right delete m l.
Proof.
  revert m. induction l as [| a l IH]; intros m; cbn [fold_left fold_right]; [done |]. rewrite IH.
  clear IH. induction l as [| b l IH]; cbn [fold_right]; [done |]. by rewrite IH, delete_delete.
Qed.

Lemma does_apply_removed addresses :
  does (apply_removed sizes addresses) (with_raw (fun m => fold_right delete m addresses)).
Proof.
  assert (does (apply_removed sizes addresses) (fun c => fold_left (fun c x => with_raw (delete x) c) addresses c))
    as Hfold.
  { apply (does_for_each _ (fun x => with_raw (delete x))). intros b.
    apply framed_after; [apply does_remove_raw | intros _]. frame. }
  intros s s' a Hrun. rewrite (Hfold s s' a Hrun). unfold core, with_raw. rewrite <- delete_all_left.
  clear. generalize (raw_nodes s) as m. induction addresses as [| b l IH]; intros m; cbn [fold_left]; [done | apply IH].
Qed.

Lemma does_apply_application_invalidation bus_name :
  does (apply_application_invalidation sizes bus_name)
    (with_raw (filter (fun entry : Address * CachedNode.t => ObjectAddress.bus_name entry.1 <> bus_name))).
Proof.
  unfold apply_application_invalidation. apply framed_bind; [apply does_get | intros ?].
  apply framed_bind; [auto with framed | intros ?]. apply framed_bind; [apply framed_for_each; auto with framed | intros ?].
  apply framed_after; [by apply does_modify | intros ?]. frame.
Qed.

(** ** Outcomes *)
Definition cleared : Core := (∅, None, true, None).

Lemma core_changed kind sources s : core (fst (changed_with_sources kind sources s)) = core s.
Proof. done. Qed.
Lemma core_resync_with {A} (e : PlaneError.t) s : core (fst (resync_with (A := A) e s)) = cleared.
Proof. done. Qed.
Lemma core_resync_now {A} s : core (fst (resync_now (A := A) s)) = cleared.
Proof. done. Qed.

Lemma conclude_core revision applied f s :
  does applied (with_raw f) ->
  core (fst (conclude revision applied s)) = cleared \/
  core (fst (conclude revision applied s)) = (f (raw_nodes s), Some revision, resync_pending s, bootstrap s).
Proof.
  intros Ha. unfold conclude. destruct (applied s) as [s1 [[kind sources] | e]] eqn:Hs.
  - destruct (graph_needs_resync s1); [by left | right].
    pose proof (Ha s s1 _ Hs) as Hc. unfold core, with_raw in Hc. injection Hc as Hraw Hrev Hp Hb.
    change (core (fst (_ s1))) with (raw_nodes s1, Some revision, resync_pending s1, bootstrap s1). congruence.
  - left. by destruct e.
Qed.

Lemma does_with_source kind address applied f :
  does applied f -> does (with_source kind address applied) f.
Proof. intros Ha. unfold with_source. apply framed_after; [done | intros _]. frame. Qed.

(** What the ingestion of a mutation does to the mirror. *)
Inductive ingested (s : Plane) (previous : N) (m : CacheMutation.t) (s' : Plane) : Prop :=
  | ingested_kept : core s' = core s -> ingested s previous m s'
  | ingested_cleared : core s' = cleared -> ingested s previous m s'
  | ingested_applied raw :
      mirror (CacheMutation.detail m) (raw_nodes s) = Some raw ->
      core s = (raw_nodes s, Some previous, false, None) ->
      core s' = (raw, Some (CacheMutation.revision m), false, None) ->
      ingested s previous m s'.

Lemma filter_by_address (bus : string) (m : Nodes) (l : list Address) :
  list_to_set l = dom (filter (fun entry : Address * CachedNode.t => ObjectAddress.bus_name entry.1 = bus) m) ->
  filter (fun entry : Address * CachedNode.t => ObjectAddress.bus_name entry.1 <> bus) m = fold_right delete m l.
Proof.
  intros Hl. symmetry. apply delete_all_filter. intros a n Ha. cbn [fst].
  rewrite <- (elem_of_list_to_set (C := gset Address)), Hl, elem_of_dom, map_lookup_filter, Ha. simpl.
  split.
  - intros [x Hx]. case_guard as Hg; [tauto | done].
  - intros Hn. case_guard as Hg; [by eexists |]. exfalso. by apply Hn.
Qed.

Lemma ingest_mutation_core config generation previous m s :
  ingested s previous m (fst (ingest_mutation sizes sha256 encoded config generation previous m s)).
Proof.
  unfold ingest_mutation. change (bind get ?k s) with (k s s). cbv beta. unfold bind at 1, reject_if at 1.
  case_decide as Hready; [by apply ingested_kept |]. cbn [ret]. unfold bind at 1, reject_if at 1.
  case_decide; [by apply ingested_kept |]. cbn [ret].
  destruct (nothing_happened s previous m); [by apply ingested_kept |].
  destruct (in_order s previous m) eqn:Horder; cbn [negb]; [| by apply ingested_cleared].
  assert (core s = (raw_nodes s, Some previous, false, None)) as Hcore.
  { unfold in_order in Horder. apply andb_true_iff in Horder as [Horder _]. apply andb_true_iff in Horder as [Hrev _].
    apply bool_decide_eq_true in Hrev. unfold core. rewrite Hrev.
    destruct (resync_pending s); [exfalso; apply Hready; by left |].
    destruct (bootstrap s); [exfalso; apply Hready; right; by eexists |]. done. }
  assert (forall f applied, does applied (with_raw f) ->
    mirror (CacheMutation.detail m) (raw_nodes s) = Some (f (raw_nodes s)) ->
    ingested s previous m (fst (conclude (CacheMutation.revision m) applied s))) as Happly.
  { intros f applied Ha Hmirror. destruct (conclude_core (CacheMutation.revision m) applied f s Ha) as [Hc | Hc];
      [by apply ingested_cleared |]. eapply ingested_applied; [done | done |]. rewrite Hc.
    unfold core in Hcore. injection Hcore as _ -> ->. done. }
  destruct m as [revision kind detail]. cbn [CacheMutation.revision CacheMutation.kind CacheMutation.detail] in *.
  destruct kind, detail as [node | node | addresses | bus next removed | |]; try (by apply ingested_cleared).
  - unfold ingest_upserted. change (bind get ?k s) with (k s s). cbv beta.
    destruct (raw_admission _ _ _ _ _ _) as [total | e]; [| by apply ingested_cleared].
    case_decide; [by apply ingested_cleared |].
    eapply Happly; [apply does_with_source, does_apply_upsert | done].
  - unfold ingest_refreshed. change (bind get ?k s) with (k s s). cbv beta.
    destruct (raw_admission _ _ _ _ _ _) as [total | e]; [| by apply ingested_cleared].
    case_decide; [by apply ingested_cleared |].
    eapply Happly; [apply does_with_source, does_apply_refresh | done].
  - unfold ingest_removed. change (bind get ?k s) with (k s s). cbv beta.
    case_decide; [by apply ingested_cleared |]. unfold bind at 1, lift.
    destruct (collect _ _) as [sources | e]; [| by apply ingested_kept].
    eapply (Happly (fun m => fold_right delete m addresses)); [| done].
    apply framed_after; [apply does_apply_removed | intros _; apply does_ret].
  - unfold ingest_application_invalidated. change (bind get ?k s) with (k s s). cbv beta.
    case_decide as Hbad; [by apply ingested_cleared |]. unfold bind at 1, lift.
    destruct (collect _ _) as [sources | e]; [| by apply ingested_kept].
    eapply Happly.
    + apply framed_after; [apply does_apply_application_invalidation | intros _]. frame.
    + simpl. f_equal. symmetry. apply filter_by_address. apply dec_stable. tauto.
Qed.

(** ** Pages *)
Definition installed (complete : Bootstrap.t) (s s' : Plane) : Prop :=
  core s' = cleared \/ (resync_pending s' = resync_pending s /\ bootstrap s' = None) \/
  core s' = (Bootstrap.nodes complete, Some (Bootstrap.source_revision complete), false, None).

Lemma install_core config complete s : installed complete s (fst (install sha256 encoded config complete s)).
Proof.
  unfold install. run_steps.
  destruct (map_err _ (AtspiGeneration.new _)) as [generation | e]; [| by right; left].
  run_steps.
  destruct (map_err _ (AccessibilityCache.new _ _ _ _)) as [fresh | e]; [| by right; left].
  run_steps.
  set (s1 := set_elements ∅ _). destruct (validate_authoritative_topology (raw_nodes s1)); [| by left].
  destruct (rebuild_all sha256 encoded s1) as [s2 [u | e]] eqn:Hrun; [| by left].
  destruct (graph_needs_resync s2); [by left |]. right. right.
  pose proof (framed_rebuild_all s1 s2 u Hrun) as Hc. unfold core, id in Hc. injection Hc as Hraw _ _ Hb.
  run_steps. change (raw_nodes s2 = Bootstrap.nodes complete) in Hraw. unfold core. simpl. by rewrite Hraw, Hb.
Qed.

(** The accumulator that a page continues, or starts. *)
Definition opened (s : Plane) (p : CachePage.t) (acc : Bootstrap.t) : Prop :=
  bootstrap s = Some acc \/
  (bootstrap s = None /\ resync_pending s = true /\
   acc = Bootstrap.mk (CachePage.accessibility_generation p) (CachePage.revision p) ∅ 0 None).

(** What the ingestion of a page does to the mirror. *)
Inductive paged (config : PlaneConfig.t) (s : Plane) (p : CachePage.t) (s' : Plane) : Prop :=
  | paged_kept : core s' = core s -> paged config s p s'
  | paged_cleared : core s' = cleared -> paged config s p s'
  | paged_failed : (bootstrap s = None -> resync_pending s = true) ->
      (resync_pending s' = true \/ resync_pending s' = resync_pending s) -> bootstrap s' = None -> paged config s p s'
  | paged_more acc bytes acc' :
      opened s p acc -> continues acc p = true -> accumulate_page config acc p bytes = Ok acc' ->
      CachePage.next_after p <> None -> bootstrap s' = Some acc' ->
      (resync_pending s' = true \/ resync_pending s' = resync_pending s) -> paged config s p s'
  | paged_installed acc bytes acc' :
      opened s p acc -> continues acc p = true -> accumulate_page config acc p bytes = Ok acc' ->
      CachePage.next_after p = None ->
      core s' = (Bootstrap.nodes acc', Some (Bootstrap.source_revision acc'), false, None) -> paged config s p s'.

(** The call after the page is validated and the accumulator is open. *)
Definition continue_page (config : PlaneConfig.t) (p : CachePage.t) (bytes : N) (acc : Bootstrap.t) :
    M Plane PlaneError.t IngestEvent.t :=
  if negb (continues acc p) then resync_now
  else match accumulate_page config acc p bytes with
       | Err error => resync_with error
       | Ok acc =>
           modify (set_bootstrap (Some acc)) ;;;
           match CachePage.next_after p with
           | Some _ => changed IngestKind.BootstrapPending
           | None => install sha256 encoded config acc
           end
       end.

Lemma continue_page_paged config p bytes acc s s1 :
  opened s p acc -> (bootstrap s = None -> resync_pending s = true) ->
  resync_pending s1 = true \/ resync_pending s1 = resync_pending s ->
  paged config s p (fst (continue_page config p bytes acc s1)).
Proof.
  intros Hopen Hs Hs1. unfold continue_page. destruct (continues acc p) eqn:Hc; cbn [negb]; [| by apply paged_cleared].
  destruct (accumulate_page config acc p bytes) as [acc' | e] eqn:Ha; [| by apply paged_cleared].
  destruct (CachePage.next_after p) as [a |] eqn:Hn.
  - eapply paged_more; [done | done | done | by rewrite Hn | done | done].
  - unfold bind, modify.
    destruct (install_core config acc' (set_bootstrap (Some acc') s1)) as [Hi | [[Hp Hb] | Hi]].
    + by apply paged_cleared.
    + apply paged_failed; [done | by rewrite Hp | done].
    + by eapply paged_installed.
Qed.

Lemma ingest_cache_page_paged config p s :
  paged config s p (fst (ingest_cache_page sizes sha256 encoded config p s)).
Proof.
  unfold ingest_cache_page. change (bind get ?k s) with (k s s). cbv beta.
  destruct (validate_cache_page _ _ _ _) as [bytes | e].
  2: { case_decide; [by apply paged_cleared | by apply paged_kept]. }
  destruct (bootstrap s) as [acc |] eqn:Hb.
  - unfold bind at 1, ret. change (bind get ?k s) with (k s s). cbv beta. rewrite Hb.
    change (paged config s p (fst (continue_page config p bytes acc s))).
    apply continue_page_paged; [by left | by rewrite Hb | by right].
  - unfold bind at 1 2, reject_if at 1. case_decide as Hbegin; [by apply paged_kept |].
    apply not_false_is_true in Hbegin. unfold begins_bootstrap in Hbegin.
    apply andb_true_iff in Hbegin as [Hbegin _]. apply andb_true_iff in Hbegin as [Hpending _].
    cbn [ret]. unfold bind at 1, modify at 1. unfold modify at 1. unfold bind at 1, get at 1.
    set (fresh := Bootstrap.mk _ _ _ _ _). set (s1 := set_resync_pending true _).
    change (paged config s p (fst (continue_page config p bytes fresh s1))).
    apply continue_page_paged; [by right | done | by left].
Qed.

(** ** The other operations *)
Definition held (s s' : Plane) : Prop := core s' = core s \/ core s' = cleared.

Ltac past_guard :=
  match goal with
  | |- context [bind (reject_if ?P ?e) _ _] =>
      unfold bind at 1, reject_if at 1; case_decide; [by left |]; cbn [ret]; run_steps
  end.

Lemma begin_resync_core generation s : held s (fst (begin_resync generation s)).
Proof. unfold begin_resync. run_steps. past_guard. by right. Qed.

Lemma application_invalidation_core generation revision bus next s :
  held s (fst (ingest_application_invalidation generation revision bus next s)).
Proof.
  unfold ingest_application_invalidation. past_guard. destruct (require_ready s); [| by left]. run_steps. past_guard.
  case_decide; [by left | by right].
Qed.

Lemma replace_correlations_core fence assignments s :
  held s (fst (replace_window_correlations sha256 encoded fence assignments s)).
Proof.
  unfold replace_window_correlations. past_guard. destruct (require_ready s); [| by left]. run_steps. past_guard.
  destruct (try_fold _ _ _) as [desired | e]; [| by left]. run_steps.
  destruct (publicly_unchanged s desired); [by left |].
  destruct (refresh_all_normalized_snapshots _ _ _) as [s2 [u | e]] eqn:Hrun; [left | by right].
  by apply framed_refresh_all in Hrun.
Qed.

End Ingest.
