(* ===== verification/IngestGuarantees.v ===== *)
(** * The mirror and the actor

    The actor works on its cache and emits mutations and pages; the plane ingests what is
    delivered to it, which may be late, repeated, out of order or missing, and of any
    generation.  While it is ready, what it mirrors is the cache of the actor at one of the
    revisions that the actor had. *)

From stdpp Require Import base numbers list option gmap strings sorting.
From Stdlib Require Import Lia Ascii.
From S2P Require Import Prelude Orderings AtspiCache AtspiCacheFacts AtspiGuarantees AtspiContract.
From S2P Require Import AccessibilityTypes Accessibility PlaneTypes AccessibilityIngest IngestFacts.

Local Open Scope N_scope.
Import PlaneState.
#[local] Abbreviation Address := ObjectAddress.t.
#[local] Abbreviation Plane := PlaneState.t.
#[local] Abbreviation Nodes := (gmap Address CachedNode.t).
#[local] Abbreviation Actor := BoundedCache.t.

(** What the actor emits; [process_backend_event] sends the revision before a mutation. *)
Inductive Message :=
  | MutationMessage (previous : N) (m : CacheMutation.t)
  | PageMessage (p : CachePage.t).

(** The actor, with the states its cache had and what it emitted; and the plane. *)
Record Joint := mkJoint { history : list Actor; emitted : list Message; plane : Plane }.

Section Joint.
Context (sizes : TypeSizes) (sha256 : list ascii -> list ascii) (encoded : ElementSnapshot.t -> option N).
Context (config : PlaneConfig.t).

(** [page.event_overflow_epoch = ...], when the actor answers a request for a page. *)
Definition with_epoch (epoch : N) (p : CachePage.t) : CachePage.t :=
  CachePage.mk (CachePage.accessibility_generation p) (CachePage.revision p) epoch (CachePage.after p)
    (CachePage.nodes p) (CachePage.next_after p) (CachePage.estimated_bytes p).

Definition deliver (generation : N) (message : Message) (s : Plane) : Plane :=
  match message with
  | MutationMessage previous m => fst (ingest_mutation sizes sha256 encoded config generation previous m s)
  | PageMessage p => fst (ingest_cache_page sizes sha256 encoded config p s)
  end.

Inductive joint_step : Joint -> Joint -> Prop :=
  | actor_works s s' h log p :
      cache_step sizes sha256 s s' -> joint_step (mkJoint (s :: h) log p) (mkJoint (s' :: s :: h) log p)
  | actor_mutates call s s' m h log p :
      run_call sizes sha256 call s = (s', Ok m) -> CacheMutation.kind m <> MutationKind.Unchanged ->
      joint_step (mkJoint (s :: h) log p)
        (mkJoint (s' :: s :: h) (MutationMessage (CacheMutation.revision m - 1) m :: log) p)
  | actor_answers generation after max_nodes max_bytes epoch page0 s h log p :
      BoundedCache.page sizes s generation after max_nodes max_bytes = Ok page0 ->
      joint_step (mkJoint (s :: h) log p) (mkJoint (s :: h) (PageMessage (with_epoch epoch page0) :: log) p)
  | plane_ingests generation message h log p :
      message ∈ log -> joint_step (mkJoint h log p) (mkJoint h log (deliver generation message p))
  | plane_resyncs generation h log p :
      joint_step (mkJoint h log p) (mkJoint h log (fst (begin_resync generation p)))
  | plane_invalidates generation revision bus next h log p :
      joint_step (mkJoint h log p)
        (mkJoint h log (fst (ingest_application_invalidation generation revision bus next p)))
  | plane_correlates fence assignments h log p :
      joint_step (mkJoint h log p)
        (mkJoint h log (fst (replace_window_correlations sha256 encoded fence assignments p)))
  | plane_pages cursors h log p :
      joint_step (mkJoint h log p) (mkJoint h log (set_cursors cursors p)).

(** ** The invariant *)

(** Each revision of the actor is one state. *)
Record dated (h : list Actor) : Prop := {
  dated_wf : Forall (cache_wf sizes sha256) h;
  dated_latest : forall s h', h = s :: h' -> Forall (fun c => BoundedCache.revision c <= BoundedCache.revision s) h';
  dated_unique : forall c c', c ∈ h -> c' ∈ h -> BoundedCache.revision c = BoundedCache.revision c' -> c = c' }.

Definition justified (h : list Actor) (message : Message) : Prop :=
  match message with
  | MutationMessage previous m =>
      exists s s', s ∈ h /\ s' ∈ h /\ tells sizes sha256 s m s' /\ previous = BoundedCache.revision s /\
        CacheMutation.revision m = BoundedCache.revision s'
  | PageMessage p =>
      exists s more rest max_nodes max_bytes, s ∈ h /\
        page_shows sizes s (CachePage.after p) max_nodes max_bytes p more rest
  end.

(** What a bootstrap has accumulated: the nodes that are not beyond its last page. *)
Definition partial (h : list Actor) (acc : Bootstrap.t) : Prop :=
  exists s, s ∈ h /\ Bootstrap.source_revision acc = BoundedCache.revision s /\
    forall k n, Bootstrap.nodes acc !! k = Some n <->
      BoundedCache.nodes s !! k = Some n /\ (k, n) ∉ eligible s (Bootstrap.expected_after acc).

Record mirrors (h : list Actor) (s : Plane) : Prop := {
  mirrors_ready : resync_pending s = false ->
    exists c, c ∈ h /\ source_revision s = Some (BoundedCache.revision c) /\ raw_nodes s = BoundedCache.nodes c;
  mirrors_boot : forall acc, bootstrap s = Some acc -> resync_pending s = true /\ partial h acc }.

Definition sound (j : Joint) : Prop :=
  dated (history j) /\ Forall (justified (history j)) (emitted j) /\ mirrors (history j) (plane j).

(** *** The history *)
Lemma dated_grows s s' h :
  dated (s :: h) -> cache_wf sizes sha256 s' -> (s' = s \/ BoundedCache.revision s' = BoundedCache.revision s + 1) ->
  dated (s' :: s :: h).
Proof.
  intros [Hwf Hl Hu] Hwf' Hs. specialize (Hl s h eq_refl) as Hle. rewrite Forall_forall in Hle.
  assert (forall c, c ∈ s :: h -> BoundedCache.revision c <= BoundedCache.revision s) as Hall.
  { intros c [-> | Hc]%elem_of_cons; [lia | auto]. }
  split.
  - by constructor.
  - intros ? ? [= <- <-]. apply Forall_forall. intros c Hc. specialize (Hall c Hc). destruct Hs as [-> | ->]; lia.
  - destruct Hs as [-> | Hs].
    + intros c c' [-> | Hc]%elem_of_cons [-> | Hc']%elem_of_cons; auto; apply Hu; auto; left.
    + intros c c' [-> | Hc]%elem_of_cons [-> | Hc']%elem_of_cons; auto; intros Heq;
        [specialize (Hall c' Hc') | specialize (Hall c Hc)]; lia.
Qed.

Lemma justified_grows s h message : justified h message -> justified (s :: h) message.
Proof.
  destruct message as [previous m | p]; simpl; [intros (c & c' & Hc & Hc' & H) | intros (c & more & rest & mn & mb & Hc & H)].
  - exists c, c'. split_and!; [by right | by right | apply H ..].
  - exists c, more, rest, mn, mb. split; [by right | done].
Qed.

Lemma mirrors_grows s h p : mirrors h p -> mirrors (s :: h) p.
Proof.
  intros [Hr Hb]. split.
  - intros Hp. destruct (Hr Hp) as (c & Hc & H). exists c. split; [by right | done].
  - intros acc Hacc. destruct (Hb acc Hacc) as [Hp (c & Hc & H)]. split; [done |]. exists c. split; [by right | done].
Qed.

(** *** Calls that keep or clear the mirror *)
Lemma mirrors_kept h s s' : core s' = core s -> mirrors h s -> mirrors h s'.
Proof. unfold core. intros [= Hn Hr Hp Hb] [H1 H2]. by split; rewrite ?Hn, ?Hr, ?Hp, ?Hb. Qed.

Lemma mirrors_cleared h s' : core s' = cleared -> mirrors h s'.
Proof. unfold core, cleared. intros [= Hn Hr Hp Hb]. by split; rewrite ?Hn, ?Hr, ?Hp, ?Hb. Qed.

Lemma mirrors_held h s s' : held s s' -> mirrors h s -> mirrors h s'.
Proof. intros [H | H]; [by apply mirrors_kept | intros _; by apply mirrors_cleared]. Qed.

Lemma mirrors_at h s' c raw :
  c ∈ h -> core s' = (raw, Some (BoundedCache.revision c), false, None) -> raw = BoundedCache.nodes c -> mirrors h s'.
Proof. unfold core. intros Hc [= Hn Hr Hp Hb] Hraw. split; rewrite ?Hn, ?Hr, ?Hp, ?Hb; [eauto | done]. Qed.

(** *** Mutations *)
Lemma mirrors_mutation h s previous m s' :
  dated h -> justified h (MutationMessage previous m) -> ingested s previous m s' -> mirrors h s -> mirrors h s'.
Proof.
  intros Hd (c & c' & Hc & Hc' & Ht & Hprev & Hrev) [Hk | Hk | raw Hm Hs Hs'] Hmir;
    [by eapply mirrors_kept | by apply mirrors_cleared |].
  unfold core in Hs. injection Hs as Hr Hp Hb. destruct (mirrors_ready _ _ Hmir Hp) as (c0 & Hc0 & Hr0 & Hraw).
  assert (c0 = c) as ->.
  { apply (dated_unique _ Hd); [done | done |]. congruence. }
  rewrite Hrev in Hs'. eapply mirrors_at; [exact Hc' | exact Hs' |].
  rewrite Hraw in Hm. destruct (tells_nodes _ _ _ _ _ Ht) as [Hn | Hn].
  - rewrite Hn in Hm. by injection Hm as ->.
  - by rewrite Hn in Hm.
Qed.

(** *** Pages *)
Lemma accumulate_Ok nodes l nodes' :
  accumulate config nodes l = Ok nodes' ->
  forall k n, nodes' !! k = Some n <-> nodes !! k = Some n \/ (n ∈ l /\ object_of n = k).
Proof.
  revert nodes. induction l as [| x l IH]; intros nodes Ha; unfold accumulate in Ha; cbn [try_fold] in Ha.
  - injection Ha as ->. intros k n. rewrite elem_of_nil. naive_solver.
  - apply and_then_Ok in Ha as (m1 & Hm1 & Ha). apply and_then_Ok in Hm1 as ([] & Hfresh%ensure_Ok & [= <-]).
    intros k n. rewrite (IH _ Ha k n), elem_of_cons, lookup_insert_Some.
    assert (nodes !! object_of x = None) as Hnone by (apply eq_None_not_Some; tauto).
    split; [| naive_solver].
    intros [[[<- <-] | [Hne Hn]] | Hl]; naive_solver.
Qed.

Lemma accumulate_page_Ok acc p bytes acc' :
  accumulate_page config acc p bytes = Ok acc' ->
  Bootstrap.source_revision acc' = Bootstrap.source_revision acc /\
  Bootstrap.expected_after acc' = CachePage.next_after p /\
  forall k n, Bootstrap.nodes acc' !! k = Some n <->
    Bootstrap.nodes acc !! k = Some n \/ (n ∈ CachePage.nodes p /\ object_of n = k).
Proof.
  intros Ha. unfold accumulate_page in Ha. apply and_then_Ok in Ha as (b & _ & Ha).
  apply and_then_Ok in Ha as ([] & _ & Ha). apply and_then_Ok in Ha as (nodes & Hn & [= <-]).
  split_and!; [done | done |]. by apply accumulate_Ok.
Qed.

Lemma continues_true acc p :
  continues acc p = true ->
  Bootstrap.source_revision acc = CachePage.revision p /\ Bootstrap.expected_after acc = CachePage.after p.
Proof. unfold continues. rewrite !andb_true_iff, !bool_decide_eq_true. tauto. Qed.

Lemma elem_of_eligible s after k n :
  (k, n) ∈ eligible s after <-> BoundedCache.nodes s !! k = Some n /\ BoundedCache.beyond after k = true.
Proof. unfold eligible. rewrite list_elem_of_filter, elem_of_btree_iter. simpl. tauto. Qed.

Lemma NoDup_eligible s after : NoDup (eligible s after).
Proof. unfold eligible. apply NoDup_filter, (NoDup_fmap_1 fst), NoDup_btree_keys. Qed.

(** The nodes read up to a page, and the nodes left. *)
Lemma read_so_far s after mn mb p more rest acc acc' bytes :
  cache_wf sizes sha256 s -> page_shows sizes s after mn mb p more rest ->
  (forall k n, Bootstrap.nodes acc !! k = Some n <-> BoundedCache.nodes s !! k = Some n /\ (k, n) ∉ eligible s after) ->
  accumulate_page config acc p bytes = Ok acc' ->
  forall k n, Bootstrap.nodes acc' !! k = Some n <-> BoundedCache.nodes s !! k = Some n /\ (k, n) ∉ rest.
Proof.
  intros Hwf Hs Hacc Ha k n. destruct (accumulate_page_Ok _ _ _ _ Ha) as (_ & _ & ->).
  rewrite Hacc, (shows_nodes _ _ _ _ _ _ _ _ Hs). pose proof (shows_split _ _ _ _ _ _ _ _ Hs) as Hsplit.
  pose proof (elem_of_eligible s after k n) as Hel0. pose proof (NoDup_eligible s after) as Hd. rewrite Hsplit in Hd |- *. apply NoDup_app in Hd as (_ & Hdis & _).
  assert (forall e, e ∈ more -> BoundedCache.nodes s !! e.1 = Some e.2 /\ object_of e.2 = e.1) as Hin.
  { intros [k0 n0] He. assert ((k0, n0) ∈ eligible s after) as Hel by (rewrite Hsplit; set_solver).
    apply elem_of_eligible in Hel as [Hk _]. split; [done |]. by apply (node_address _ _ _ _ _ (wf_nodes _ _ _ Hwf k0 n0 Hk)). }
  change (@map) with (@fmap list _). rewrite list_elem_of_fmap. split.
  - intros [[Hk Hnin] | [([k0 n0] & -> & He) <-]]; [set_solver |].
    destruct (Hin _ He) as [Hk Ho]. simpl in *. rewrite Ho. split; [done |]. by apply Hdis.
  - intros [Hk Hnin]. rewrite Hsplit in Hel0. destruct (BoundedCache.beyond after k) eqn:Hb.
    2: { left. split; [done |]. rewrite Hel0. by intros [_ ?]. }
    right. assert ((k, n) ∈ more) as Hm by set_solver. destruct (Hin _ Hm) as [_ Ho]. split; [by exists (k, n) | done].
Qed.

(** What is read, page by page, is read from one state of the actor. *)
Lemma page_read h s p c mn mb more rest acc bytes acc' :
  dated h -> mirrors h s -> c ∈ h -> page_shows sizes c (CachePage.after p) mn mb p more rest ->
  opened s p acc -> continues acc p = true -> accumulate_page config acc p bytes = Ok acc' ->
  resync_pending s = true /\ Bootstrap.source_revision acc' = BoundedCache.revision c /\
  forall k n, Bootstrap.nodes acc' !! k = Some n <-> BoundedCache.nodes c !! k = Some n /\ (k, n) ∉ rest.
Proof.
  intros Hd Hmir Hc Hshow Hopen Hcont Hacc. destruct (continues_true _ _ Hcont) as [Hrev Hafter].
  assert (cache_wf sizes sha256 c) as Hwf by (pose proof (dated_wf _ Hd) as Hf; rewrite Forall_forall in Hf; auto).
  rewrite (shows_revision _ _ _ _ _ _ _ _ Hshow) in Hrev.
  destruct (accumulate_page_Ok _ _ _ _ Hacc) as (-> & _ & _).
  assert (resync_pending s = true /\ forall k n, Bootstrap.nodes acc !! k = Some n <->
    BoundedCache.nodes c !! k = Some n /\ (k, n) ∉ eligible c (CachePage.after p)) as [Hpend Hnodes].
  { destruct Hopen as [Hb | (Hb & Hpend & ->)].
    - destruct (mirrors_boot _ _ Hmir _ Hb) as [Hpend (c0 & Hc0 & Hrev0 & Hn)].
      assert (c0 = c) as -> by (apply (dated_unique _ Hd); [done | done | congruence]).
      rewrite <- Hafter. done.
    - split; [done |]. simpl in Hafter. rewrite <- Hafter. intros k n. cbn [Bootstrap.nodes].
      rewrite lookup_empty, elem_of_eligible. simpl. split; [done |]. intros [Hk Hno]. by destruct Hno. }
  split_and!; [done | done |]. by eapply read_so_far.
Qed.

(** The last page leaves nothing. *)
Lemma last_page_rest s after mn mb p more rest :
  page_shows sizes s after mn mb p more rest -> CachePage.next_after p = None -> rest = [].
Proof.
  intros Hshow Hn. rewrite (shows_next _ _ _ _ _ _ _ _ Hshow) in Hn. destruct rest as [| e rest]; [done | exfalso].
  apply (shows_progress _ _ _ _ _ _ _ _ Hshow ltac:(done)). by apply last_None, (fmap_None fst).
Qed.

Lemma mirrors_page h s p s' :
  dated h -> justified h (PageMessage p) -> paged config s p s' -> mirrors h s -> mirrors h s'.
Proof.
  intros Hd (c & more & rest & mn & mb & Hc & Hshow) Hp Hmir.
  destruct Hp as [Hk | Hk | Hboot Hpend Hb | acc bytes acc' Ho Hcont Hacc Hn Hb Hpend | acc bytes acc' Ho Hcont Hacc Hn Hcore].
  - by eapply mirrors_kept.
  - by apply mirrors_cleared.
  - assert (resync_pending s = true) as Hs.
    { destruct (bootstrap s) as [acc |] eqn:Hbs; [by apply (mirrors_boot _ _ Hmir acc) | by apply Hboot]. }
    split; [| by rewrite Hb]. intros Hp. destruct Hpend as [H | H]; congruence.
  - destruct (page_read h s p c mn mb more rest acc bytes acc') as (Hs & Hrev & Hnodes); [done.. |].
    assert (resync_pending s' = true) as Hs' by (destruct Hpend; congruence).
    split; [by rewrite Hs' |]. rewrite Hb. intros ? [= <-]. split; [done |]. exists c. split_and!; [done | done |].
    destruct (accumulate_page_Ok _ _ _ _ Hacc) as (_ & -> & _).
    destruct (CachePage.next_after p) as [a |] eqn:Hna; [| done].
    by destruct (page_shows_next _ _ _ _ _ _ _ _ _ Hshow Hna) as [-> _].
  - destruct (page_read h s p c mn mb more rest acc bytes acc') as (Hs & Hrev & Hnodes); [done.. |].
    rewrite Hrev in Hcore. eapply mirrors_at; [exact Hc | exact Hcore |].
    apply map_eq. intros k. apply option_eq. intros n.
    rewrite Hnodes, (last_page_rest _ _ _ _ _ _ _ Hshow Hn), elem_of_nil; tauto.
Qed.

(** *** Runs *)
Lemma joint_step_sound j j' : sound j -> joint_step j j' -> sound j'.
Proof.
  intros (Hd & Hj & Hm) Hstep.
  destruct Hstep as [s s' h log p Hs | call s s' m h log p Hrun Hkind | generation after mn mb epoch page0 s h log p Hpage
    | generation message h log p Hin | generation h log p | generation revision bus next h log p
    | fence assignments h log p | cursors h log p]; unfold sound in *; cbn [history emitted plane] in *.
  - pose proof (dated_wf _ Hd) as Hwf. apply Forall_cons in Hwf as [Hwf _].
    destruct (cache_step_keeps _ _ _ _ Hwf Hs) as [Hwf' Hs']. split_and!; [by apply dated_grows | | by apply mirrors_grows].
    eapply Forall_impl; [exact Hj |]. intros message. apply justified_grows.
  - pose proof (dated_wf _ Hd) as Hwf. apply Forall_cons in Hwf as [Hwf _].
    assert (tells sizes sha256 s m s') as Ht.
    { assert (outcome s (run_call sizes sha256 call) s (tells sizes sha256 s)) as Ho
        by (destruct call; [by apply apply_tells | by apply refresh_tells]).
      unfold outcome in Ho. by rewrite Hrun in Ho. }
    assert (BoundedCache.revision s' = BoundedCache.revision s + 1) as Hrev.
    { pose proof (tells_change _ _ _ _ _ Ht) as Hc. rewrite (tells_kind _ _ _ _ _ Ht) in Hkind.
      by destruct (CacheMutation.detail m). }
    split_and!; [apply dated_grows; [done | apply Ht | by right] | | by apply mirrors_grows].
    constructor; [| eapply Forall_impl; [exact Hj |]; intros message; apply justified_grows].
    exists s, s'. pose proof (tells_revision _ _ _ _ _ Ht) as Hr. split_and!; [by right; left | by left | done | lia | done].
  - split_and!; [done | | done]. constructor; [| done].
    destruct (page_Ok _ _ _ _ _ _ _ Hpage) as (more & rest & Hs). exists s, more, rest, mn, mb.
    split; [by left |]. assert (CachePage.after (with_epoch epoch page0) = after) as ->; [| by destruct Hs; split].
    unfold BoundedCache.page in Hpage. apply and_then_Ok in Hpage as ([] & _ & Hpage).
    apply and_then_Ok in Hpage as ([[taken b] r] & _ & [= <-]). done.
  - split_and!; [done | done |]. rewrite Forall_forall in Hj. specialize (Hj message Hin).
    destruct message as [previous m | p0]; cbn [deliver].
    + eapply mirrors_mutation; [done | done | apply ingest_mutation_core | done].
    + eapply mirrors_page; [done | done | apply ingest_cache_page_paged | done].
  - split_and!; [done | done |]. eapply mirrors_held; [apply begin_resync_core | done].
  - split_and!; [done | done |]. eapply mirrors_held; [apply application_invalidation_core | done].
  - split_and!; [done | done |]. eapply mirrors_held; [apply replace_correlations_core | done].
  - split_and!; [done | done |]. by apply (mirrors_kept h p).
Qed.

Definition joint_steps : Joint -> Joint -> Prop := steps joint_step.

(** C7: Whatever the actor does and whatever is delivered to the plane, in any order, any
    number of times, of any generation, or not at all: a plane that is ready mirrors exactly
    the cache the actor had at the revision the plane names. *)
Theorem plane_mirrors_actor desktop generation atspi limits0 s0 p0 j :
  CacheLimits.max_total_bytes limits0 <= u64_max -> BoundedCache.new limits0 = Ok s0 ->
  PlaneState.new desktop generation atspi config = Ok p0 ->
  joint_steps (mkJoint [s0] [] p0) j -> require_ready (plane j) = Ok tt ->
  exists c, c ∈ history j /\ source_revision (plane j) = Some (BoundedCache.revision c) /\
    raw_nodes (plane j) = BoundedCache.nodes c /\
    forall c', c' ∈ history j -> BoundedCache.revision c' = BoundedCache.revision c -> c' = c.
Proof.
  intros Hmax Hnew Hp0 Hrun Hready.
  assert (sound (mkJoint [s0] [] p0)) as H0.
  { unfold sound. cbn [history emitted plane]. pose proof (new_wf sizes sha256 _ _ Hmax Hnew) as Hwf.
    split_and!; [| constructor |].
    - split; [by constructor; [| constructor] | intros ? ? [= <- <-]; constructor |].
      intros c c' ->%list_elem_of_singleton ->%list_elem_of_singleton. done.
    - unfold PlaneState.new in Hp0. apply and_then_Ok in Hp0 as ([] & _ & Hp0).
      apply and_then_Ok in Hp0 as (c & _ & [= <-]). by split. }
  assert (sound j) as (Hd & _ & Hm).
  { revert H0. apply (steps_invariant joint_step sound); [intros a b; apply joint_step_sound | done]. }
  unfold require_ready in Hready. apply ensure_Ok in Hready.
  destruct (mirrors_ready _ _ Hm) as (c & Hc & Hr & Hn); [by destruct (resync_pending (plane j)); [exfalso; auto |] |].
  exists c. split_and!; [done | done | done |]. intros c' Hc' Heq. by apply (dated_unique _ Hd).
Qed.
End Joint.
