(* ===== verification/IngestPublication.v ===== *)
(** * What the plane publishes

    The mirror of the plane and the cache of the core stay linked: every mirrored node has
    one element, whose reference is current in the cache of the core and whose snapshot
    there is the normalization of the node, and the cache of the core has no other
    elements.  So in every run a plane that is ready has published exactly its mirror, and
    nothing that is protected. *)

From stdpp Require Import base numbers list option gmap strings sorting.
From Stdlib Require Import Lia Ascii.
From S2P Require Import Prelude Orderings AccessibilityTypes Accessibility AccessibilityIdentity AtspiCache AtspiCacheFacts.
From S2P Require Import AtspiGuarantees PlaneTypes AccessibilityIngest IngestFacts IngestGuarantees.

Local Open Scope N_scope.
Import PlaneState CacheEffects CacheEffectsFacts CacheDepartures.
#[local] Abbreviation Address := ObjectAddress.t.
#[local] Abbreviation Plane := PlaneState.t.
#[local] Abbreviation Core := AccessibilityCache.t.
#[local] Abbreviation core_nodes := AccessibilityCache.nodes.
#[local] Abbreviation core_applications := AccessibilityCache.applications.

(** ** Calls that succeed *)
Section Runs.
Context {S E A B : Type}.

Lemma bind_inv (m : M S E A) (k : A -> M S E B) s s' b :
  bind m k s = (s', Ok b) -> exists s1 a, m s = (s1, Ok a) /\ k a s1 = (s', Ok b).
Proof. unfold bind. destruct (m s) as [s1 [a | e]]; [eauto | done]. Qed.
Lemma lift_inv (r : result A E) (s s' : S) a : lift r s = (s', Ok a) -> s' = s /\ r = Ok a.
Proof. unfold lift. by intros [= -> ->]. Qed.
Lemma ok_or_inv (o : option A) (e : E) a : ok_or o e = Ok a -> o = Some a.
Proof. by destruct o; intros [= ->]. Qed.
Lemma map_err_inv {F} (f : E -> F) (r : result A E) a : map_err f r = Ok a -> r = Ok a.
Proof. by destruct r; intros [= ->]. Qed.
Lemma reject_inv (P : Prop) `{Decision P} (e : E) (s s' : S) u : reject_if P e s = (s', Ok u) -> s' = s /\ ~ P.
Proof. unfold reject_if. case_decide; [done |]. by intros [= ->]. Qed.
End Runs.

(** Inverts the hypothesis that a composed call succeeded. *)
Ltac run_inv H :=
  lazymatch type of H with
  | bind get _ ?s = _ => change (bind get ?k s) with (k s s) in H; cbv beta in H; run_inv H
  | bind (modify ?f) _ _ = _ =>
      change (bind (modify f) ?k ?s) with (k tt (f s)) in H; cbv beta in H; run_inv H
  | bind (lift _) _ _ = _ =>
      let s1 := fresh "s" in let a := fresh "a" in let Hm := fresh "Hm" in
      apply bind_inv in H as (s1 & a & Hm & H); apply lift_inv in Hm as [-> Hm]; run_inv H
  | bind (reject_if _ _) _ _ = _ =>
      let s1 := fresh "s" in let a := fresh "a" in let Hm := fresh "Hm" in
      apply bind_inv in H as (s1 & a & Hm & H); apply reject_inv in Hm as [-> Hm]; run_inv H
  | bind _ _ _ = _ =>
      let s1 := fresh "s" in let a := fresh "a" in let Hm := fresh "Hm" in
      apply bind_inv in H as (s1 & a & Hm & H); run_inv H
  | _ => idtac
  end.

(** ** Calls on the core *)
Section CoreCalls.
Context (encoded : ElementSnapshot.t -> option N).

(** The scope of the references of a cache. *)
Definition same_scope (c c' : Core) : Prop :=
  AccessibilityCache.desktop_id c' = AccessibilityCache.desktop_id c /\
  AccessibilityCache.desktop_generation c' = AccessibilityCache.desktop_generation c /\
  AccessibilityCache.atspi_generation c' = AccessibilityCache.atspi_generation c.

Lemma same_scope_trans c1 c2 c3 : same_scope c1 c2 -> same_scope c2 c3 -> same_scope c1 c3.
Proof. intros (H1 & H2 & H3) (H4 & H5 & H6). unfold same_scope. by rewrite H4, H5, H6. Qed.

Lemma in_scope_same c c' e :
  same_scope c c' -> in_scope c e -> owns c' (ElementRef.application e) -> in_scope c' e.
Proof. intros (Hd & Hg & Ha) (Hv & H1 & H2 & H3 & _) Ho. unfold in_scope. by rewrite Hd, Hg, Ha. Qed.

Lemma observe_Ok snapshot c c' r :
  AccessibilityCache.observe encoded snapshot c = (c', Ok r) ->
  in_scope c (ElementSnapshot.element snapshot) /\ same_scope c c' /\ core_applications c' = core_applications c /\
  exists protected, (snapshot_declares_protected snapshot = true -> protected = true) /\
    core_nodes c' = <[object_key (ElementSnapshot.element snapshot) :=
      ElementSnapshot.set_revision r (redact_protected protected snapshot)]> (core_nodes c).
Proof.
  unfold AccessibilityCache.observe. intros H. run_inv H. apply require_element_Ok in Hm0.
  set (refresh := AccessibilityCache.is_refresh snapshot c) in *.
  set (protected := snapshot_declares_protected snapshot || _) in *.
  set (red := redact_protected protected snapshot) in *.
  assert (ElementSnapshot.element red = ElementSnapshot.element snapshot) as Hel by apply redact_element.
  split; [done |]. run_inv H.
  assert (s = c) as ->.
  { destruct refresh; [by injection Hm2 |]. unfold AccessibilityCache.admit_birth in Hm2. run_inv Hm2. case_decide.
    - run_inv Hm2. done.
    - by injection Hm2. }
  assert (core_nodes s0 = core_nodes c \/ core_nodes s0 = delete (object_key (ElementSnapshot.element snapshot)) (core_nodes c))
    as Hn0.
  { destruct refresh; [injection Hm4 as <- _; by left |]. injection Hm4 as <- _. unfold AccessibilityCache.replace_birth. rewrite Hel.
    destruct (core_nodes c !! _); [by right | by left]. }
  assert (same_scope c s0 /\ core_applications s0 = core_applications c) as [Hs0 Ha0].
  { destruct refresh; [injection Hm4 as <- _; done |]. injection Hm4 as <- _. unfold AccessibilityCache.replace_birth.
    by destruct (core_nodes c !! _). }
  injection H as <- <-.
  assert (core_nodes s1 = <[object_key (ElementSnapshot.element snapshot) := ElementSnapshot.set_revision a3 red]> (core_nodes s0) /\
    same_scope s0 s1 /\ core_applications s1 = core_applications s0) as (Hn1 & Hs1 & Ha1).
  { destruct protected; injection Hm5 as <- _; done. }
  cbn [core_applications core_nodes AccessibilityCache.set_revision AccessibilityCache.applications AccessibilityCache.nodes].
  split_and!; [exact (same_scope_trans _ _ _ Hs0 Hs1) | by rewrite <- Ha0 |]. exists protected. split.
  - unfold protected. by intros ->.
  - rewrite Hn1. destruct Hn0 as [-> | ->]; [done | by rewrite insert_delete_eq].
Qed.

End CoreCalls.

Lemma remove_Ok e c c' tombstone :
  AccessibilityCache.remove e c = (c', Ok tombstone) ->
  same_scope c c' /\ core_applications c' = core_applications c /\ core_nodes c' = delete (object_key e) (core_nodes c).
Proof.
  unfold AccessibilityCache.remove. intros H. run_inv H. destruct (core_nodes c !! object_key e); [| done].
  run_inv H. by injection H as <- _.
Qed.

(** The cache keeps each element under its own key. *)
Definition keyed (c : Core) : Prop :=
  forall k snap, core_nodes c !! k = Some snap -> k = object_key (ElementSnapshot.element snap).

Lemma departed_nodes key c k :
  keyed c -> core_nodes (departed key c) !! k = if decide (ObjectKey.application k = key) then None else core_nodes c !! k.
Proof.
  intros Hk. unfold departed. rewrite remove_nodes_lookup.
  assert (k ∈ map object_key (AccessibilityCache.application_elements key c) <->
    ObjectKey.application k = key /\ is_Some (core_nodes c !! k)) as Hd.
  { rewrite list_elem_of_fmap. split.
    - intros (e & -> & (k' & sn & Hn & Ha & <-)%elem_of_application_elements). pose proof (Hk _ _ Hn) as He. subst k'. eauto.
    - intros [Ha [sn Hn]]. exists (ElementSnapshot.element sn). split; [by apply Hk |].
      apply elem_of_application_elements. eauto. }
  destruct (core_nodes c !! k) as [sn |]; repeat case_decide; try done; exfalso; naive_solver.
Qed.

Lemma remove_application_Ok application c c' u :
  keyed c -> AccessibilityCache.remove_application application c = (c', Ok u) ->
  same_scope c c' /\ core_applications c' = delete (application_key application) (core_applications c) /\
  forall k, core_nodes c' !! k =
    if decide (ObjectKey.application k = application_key application) then None else core_nodes c !! k.
Proof.
  intros Hk. unfold AccessibilityCache.remove_application. intros H. run_inv H.
  destruct (removal_revisions_cases (application_key application) c) as [(r & Hr & Hrm & _) | [e Hr]];
    rewrite Hr in Hm0; [| done]. injection Hm0 as <-. cbn [fst snd] in H. rewrite Hrm in H. injection H as <- _.
  destruct (remove_nodes_frame (AccessibilityCache.application_elements (application_key application) c)
    (AccessibilityRevision.mk (revision_of c + 1)) c) as (Hd & Hg & Ha & _ & _ & Happ & _).
  fold (departed (application_key application) c) in *. split_and!; [done | simpl; by rewrite Happ |].
  intros k. by apply departed_nodes.
Qed.

Lemma register_Ok bus root hash c c' application :
  keyed c -> core_applications c !! ApplicationKey.mk bus root = None ->
  AccessibilityCache.register_application bus root hash c = (c', Ok application) ->
  application_key application = ApplicationKey.mk bus root /\ same_scope c c' /\
  core_applications c' = <[ApplicationKey.mk bus root := application]> (core_applications c) /\
  forall k, core_nodes c' !! k =
    if decide (ObjectKey.application k = ApplicationKey.mk bus root) then None else core_nodes c !! k.
Proof.
  intros Hk Hnone. unfold AccessibilityCache.register_application, AccessibilityCache.replace_application.
  set (key := ApplicationKey.mk bus root) in *. intros H. run_inv H.
  unfold AccessibilityCache.same_instance in H. rewrite Hnone in H. run_inv H.
  assert (s = c) as ->.
  { case_decide; [run_inv Hm; done | by injection Hm]. }
  destruct (removal_revisions_cases key c) as [(r & Hr & Hrm & _) | [e Hr]]; rewrite Hr in Hm2; [| done].
  injection Hm2 as <-. cbn [fst snd] in H. rewrite Hrm in H. injection H as <- <-.
  destruct (remove_nodes_frame (AccessibilityCache.application_elements key c)
    (AccessibilityRevision.mk (revision_of c + 1)) c) as (Hd & Hg & Ha & _ & _ & Happ & _).
  fold (departed key c) in *. split_and!; [done | done | simpl; by rewrite Happ |].
  intros k. by apply departed_nodes.
Qed.

(** ** The link *)

(** The address that a key of the core stands for. *)
Definition application_address (k : ApplicationKey.t) : Address :=
  ObjectAddress.mk (bus_str (ApplicationKey.bus k)) (path_str (ApplicationKey.root k)).
Definition key_address (k : ObjectKey.t) : Address :=
  ObjectAddress.mk (bus_str (ApplicationKey.bus (ObjectKey.application k))) (path_str (ObjectKey.path k)).

(** A raw node where it belongs, in the connection of its application. *)
Definition placed (a : Address) (n : CachedNode.t) : Prop :=
  object_of n = a /\ ObjectAddress.bus_name a = ObjectAddress.bus_name (CacheItem.application (CachedNode.item n)).

(** A snapshot that the core keeps of a node: its normalization, redacted when the node is
    protected. *)
Definition published (n : CachedNode.t) (snapshot : ElementSnapshot.t) : Prop :=
  exists s protected revision normalized,
    normalized_snapshot s n (ElementSnapshot.element snapshot) = Ok normalized /\
    (snapshot_declares_protected normalized = true -> protected = true) /\
    snapshot = ElementSnapshot.set_revision revision (redact_protected protected normalized).

(** The link, except at the addresses of [X], whose snapshots may be of earlier nodes. *)
Record linked (X : gset Address) (s : Plane) : Prop := {
  linked_applications : forall a app, applications s !! a = Some app ->
    owns (cache s) app /\ application_address (application_key app) = a;
  linked_owned : forall k app, core_applications (cache s) !! k = Some app ->
    exists a, applications s !! a = Some app /\ application_key app = k;
  linked_references : forall a e, elements s !! a = Some e ->
    in_scope (cache s) e /\ is_live (cache s) e /\ key_address (object_key e) = a;
  linked_nodes : forall k snapshot, core_nodes (cache s) !! k = Some snapshot ->
    k = object_key (ElementSnapshot.element snapshot) /\
    exists a, elements s !! a = Some (ElementSnapshot.element snapshot);
  linked_published : forall a e, elements s !! a = Some e -> a ∉ X ->
    exists n snapshot, raw_nodes s !! a = Some n /\ core_nodes (cache s) !! object_key e = Some snapshot /\
      published n snapshot;
  linked_raw : forall a n, raw_nodes s !! a = Some n -> placed a n }.

Definition covered (s : Plane) : Prop := dom (elements s) = dom (raw_nodes s).

(** What the link depends on. *)
Definition same_links (s s' : Plane) : Prop :=
  cache s' = cache s /\ raw_nodes s' = raw_nodes s /\ applications s' = applications s /\ elements s' = elements s.

Lemma linked_same X s s' : same_links s s' -> linked X s -> linked X s'.
Proof. intros (Hc & Hr & Ha & He) []. split; rewrite ?Hc, ?Hr, ?Ha, ?He; auto. Qed.

Lemma linked_grows X Y s : X ⊆ Y -> linked X s -> linked Y s.
Proof. intros Hsub []. split; auto. Qed.

Lemma linked_shrinks X a s : elements s !! a = None -> linked (X ∪ {[a]}) s -> linked X s.
Proof.
  intros Hn []. split; auto. intros a' e He Ha. apply (linked_published0 a' e He).
  intros [? | ->%elem_of_singleton]%elem_of_union; [done |]. by rewrite Hn in He.
Qed.

Lemma linked_keyed X s : linked X s -> keyed (cache s).
Proof. intros Hl k snapshot Hk. by apply (linked_nodes _ _ Hl k snapshot). Qed.

(** Different addresses have elements with different keys. *)
Lemma linked_keys X s a a' e e' :
  linked X s -> elements s !! a = Some e -> elements s !! a' = Some e' -> object_key e = object_key e' -> a = a'.
Proof.
  intros Hl He He' Hk. destruct (linked_references _ _ Hl _ _ He) as (_ & _ & <-).
  destruct (linked_references _ _ Hl _ _ He') as (_ & _ & <-). by rewrite Hk.
Qed.

(** *** Nodes and their elements *)
Section Links.
Context (sizes : TypeSizes) (sha256 : list ascii -> list ascii) (encoded : ElementSnapshot.t -> option N).

Lemma on_cache_inv {A} (m : M Core AccessibilityModelError.t A) s s' a :
  on_cache m s = (s', Ok a) -> exists c, m (cache s) = (c, Ok a) /\ s' = set_cache c s.
Proof.
  unfold on_cache, zoom. destruct (m (cache s)) as [c r]. intros H. injection H as <- H.
  apply map_err_inv in H as ->. by exists c.
Qed.

Lemma bus_name_Ok value bus : new_bus_name value = Ok bus -> bus_str bus = value.
Proof.
  intros H. unfold new_bus_name, checked_string in H. apply and_then_Ok in H as (v & H & [= <-]).
  by apply and_then_Ok in H as ([] & _ & [= <-]).
Qed.
Lemma object_path_Ok value path : new_object_path value = Ok path -> path_str path = value.
Proof.
  intros H. unfold new_object_path, checked_string in H. apply and_then_Ok in H as (v & H & [= <-]).
  by apply and_then_Ok in H as ([] & _ & [= <-]).
Qed.

(** The application of a live element is registered under its key. *)
Lemma linked_application X s k snapshot :
  linked X s -> core_nodes (cache s) !! k = Some snapshot ->
  is_Some (core_applications (cache s) !! ObjectKey.application k).
Proof.
  intros Hl Hk. destruct (linked_nodes _ _ Hl _ _ Hk) as [-> [a He]].
  destruct (linked_references _ _ Hl _ _ He) as ((_ & _ & _ & _ & Ho) & _ & _). by eexists; exact Ho.
Qed.

(** A registration at a new address changes no element. *)
Lemma register_linked X s c address bus root hash app :
  linked X s -> applications s !! address = None -> application_address (ApplicationKey.mk bus root) = address ->
  AccessibilityCache.register_application bus root hash (cache s) = (c, Ok app) ->
  application_key app = ApplicationKey.mk bus root /\
  linked X (set_applications (<[address := app]> (applications s)) (set_cache c s)).
Proof.
  intros Hl Hnone Haddr Hreg. set (key := ApplicationKey.mk bus root) in *.
  assert (core_applications (cache s) !! key = None) as Hfresh.
  { destruct (core_applications (cache s) !! key) as [x |] eqn:Hx; [exfalso | done].
    destruct (linked_owned _ _ Hl _ _ Hx) as (a & Ha & Hk). destruct (linked_applications _ _ Hl _ _ Ha) as [_ Ha'].
    rewrite Hk, Haddr in Ha'. subst a. by rewrite Hnone in Ha. }
  destruct (register_Ok bus root hash (cache s) c app (linked_keyed _ _ Hl) Hfresh Hreg) as (Hkey & Hscope & Happ & Hn).
  assert (core_nodes c = core_nodes (cache s)) as Hnodes.
  { apply map_eq. intros k. rewrite Hn. case_decide as Hk; [| done].
    destruct (core_nodes (cache s) !! k) as [snapshot |] eqn:Hs; [exfalso | done].
    destruct (linked_application _ _ _ _ Hl Hs) as [x Hx]. rewrite Hk in Hx. unfold key in Hfresh. by rewrite Hfresh in Hx. }
  assert (forall x, owns (cache s) x -> owns c x) as Howns.
  { intros x Hx. unfold owns in *. rewrite Happ, lookup_insert_ne; [done |]. fold key. intros Hk. by rewrite <- Hk, Hfresh in Hx. }
  split; [done |]. split; cbn [applications cache elements raw_nodes set_applications set_cache].
  - intros a x [[<- <-] | [_ Ha]]%lookup_insert_Some.
    + split; [| by rewrite Hkey]. unfold owns. rewrite Happ, Hkey. apply lookup_insert_eq.
    + destruct (linked_applications _ _ Hl _ _ Ha) as [Ho ?]. split; [by apply Howns | done].
  - intros k x. rewrite Happ. fold key. intros [[<- <-] | [_ Hk]]%lookup_insert_Some.
    + exists address. split; [apply lookup_insert_eq | done].
    + destruct (linked_owned _ _ Hl _ _ Hk) as (a & Ha & Hx). exists a. split; [| done].
      rewrite lookup_insert_ne; [done |]. intros ->. by rewrite Hnone in Ha.
  - intros a e He. destruct (linked_references _ _ Hl _ _ He) as (Hs & Hlive & Hk). split_and!; [| | done].
    + eapply in_scope_same; [done | done |]. apply Howns. by destruct Hs as (_ & _ & _ & _ & ?).
    + unfold is_live in *. by rewrite Hnodes.
  - rewrite Hnodes. apply (linked_nodes _ _ Hl).
  - rewrite Hnodes. apply (linked_published _ _ Hl).
  - apply (linked_raw _ _ Hl).
Qed.

(** The application of a node. *)
Lemma ensure_application_Ok X n s s' app :
  linked X s -> ensure_application sha256 n s = (s', Ok app) ->
  linked X s' /\ raw_nodes s' = raw_nodes s /\ elements s' = elements s /\
  application_address (application_key app) = CacheItem.application (CachedNode.item n).
Proof.
  intros Hl H. unfold ensure_application in H. run_inv H.
  set (address := CacheItem.application (CachedNode.item n)) in *.
  assert (same_links s s0) as Hsame.
  { destruct (actor_application_generations s !! _); [apply reject_inv in Hm as [-> _]; done | by injection Hm as <- _]. }
  apply (linked_same _ _ _ Hsame) in Hl. destruct Hsame as (_ & <- & _ & <-).
  clear Hm s. rename s0 into s, Hm0 into Hhash.
  destruct (applications s !! address) as [existing |] eqn:Happ.
  { run_inv H. injection H as <- <-. split_and!; try done. by apply (linked_applications _ _ Hl). }
  run_inv H. injection H as <- <-. apply map_err_inv, bus_name_Ok in Hm. apply map_err_inv, object_path_Ok in Hm0.
  apply on_cache_inv in Hm1 as (c & Hreg & ->).
  assert (forall bus root, bus_str bus = ObjectAddress.bus_name address -> path_str root = ObjectAddress.object_path address ->
    application_address (ApplicationKey.mk bus root) = address) as Haddr.
  { intros bus root Hb Hr. unfold application_address. cbn [ApplicationKey.bus ApplicationKey.root]. rewrite Hb, Hr. by destruct address. }
  destruct (register_linked X s c address _ _ _ _ Hl Happ (Haddr _ _ Hm Hm0) Hreg) as [Hkey Hl'].
  split_and!; [done | done | done |]. rewrite Hkey. by apply Haddr.
Qed.

(** The element of an address, before it is observed. *)
Lemma element_for_Ok X a n app s s' e :
  linked X s -> placed a n -> application_address (application_key app) = CacheItem.application (CachedNode.item n) ->
  element_for sha256 a n app s = (s', Ok e) ->
  key_address (object_key e) = a /\
  ((elements s !! a = Some e /\ s' = s) \/ (elements s !! a = None /\ s' = set_elements (<[a := e]> (elements s)) s)).
Proof.
  intros Hl [_ Hbus] Happ H. unfold element_for in H. run_inv H. destruct (elements s !! a) as [e' |] eqn:He.
  - run_inv H. injection H as <- <-. destruct (linked_references _ _ Hl _ _ He) as (_ & _ & Hk). auto.
  - run_inv H. injection H as <- <-. apply map_err_inv, object_path_Ok in Hm. apply map_err_inv in Hm1.
    unfold AccessibilityCache.next_element_ref in Hm1. apply and_then_Ok in Hm1 as ([] & _ & Hm1).
    apply and_then_Ok in Hm1 as (sequence & _ & [= <-]). split; [| by right].
    apply (f_equal ObjectAddress.bus_name) in Happ. unfold key_address, application_address in *.
    cbn in Happ |- *. rewrite Happ, <- Hbus, Hm. by destruct a.
Qed.

Lemma normalized_element s n e snapshot : normalized_snapshot s n e = Ok snapshot -> ElementSnapshot.element snapshot = e.
Proof.
  unfold normalized_snapshot. intros H. apply and_then_Ok in H as (t & _ & H). apply and_then_Ok in H as (c & _ & H).
  apply and_then_Ok in H as (i & _ & H). apply and_then_Ok in H as (k & _ & [= <-]). done.
Qed.

(** The observation of the element of an address. *)
Lemma observed_linked X s c a n e snapshot r :
  linked X s -> raw_nodes s !! a = Some n -> key_address (object_key e) = a ->
  elements s !! a = Some e \/ elements s !! a = None ->
  (exists s0, normalized_snapshot s0 n e = Ok snapshot) ->
  AccessibilityCache.observe encoded snapshot (cache s) = (c, Ok r) ->
  linked (X ∖ {[a]}) (set_cache c (set_elements (<[a := e]> (elements s)) s)).
Proof.
  intros Hl Hn Hk Hold [s0 Hs0] Hobs. pose proof (normalized_element _ _ _ _ Hs0) as He.
  destruct (observe_Ok encoded _ _ _ _ Hobs) as (Hscope & Hsame & Happ & protected & Hprot & Hnodes). rewrite He in *.
  set (stored := ElementSnapshot.set_revision r (redact_protected protected snapshot)) in *.
  assert (ElementSnapshot.element stored = e) as Hstored.
  { unfold stored. cbn [ElementSnapshot.element ElementSnapshot.set_revision]. by rewrite redact_element. }
  assert (forall x, owns (cache s) x -> owns c x) as Howns by (intros x; unfold owns; by rewrite Happ).
  assert (forall x, in_scope (cache s) x -> in_scope c x) as Hin.
  { intros x Hx. eapply in_scope_same; [done | done |]. apply Howns. by destruct Hx as (_ & _ & _ & _ & ?). }
  assert (forall a' e', a' <> a -> elements s !! a' = Some e' -> object_key e' <> object_key e) as Hother.
  { intros a' e' Hne He' Heq. apply Hne. destruct (linked_references _ _ Hl _ _ He') as (_ & _ & <-). by rewrite Heq. }
  split; cbn [applications cache elements raw_nodes set_elements set_cache].
  - intros a' app Ha'. destruct (linked_applications _ _ Hl _ _ Ha') as [Ho ?]. split; [by apply Howns | done].
  - rewrite Happ. apply (linked_owned _ _ Hl).
  - intros a' e' [[<- <-] | [Hne He']]%lookup_insert_Some.
    + split_and!; [by apply Hin | | done]. exists stored. rewrite Hnodes, lookup_insert_eq. done.
    + destruct (linked_references _ _ Hl _ _ He') as (Hs & (sn & Hlive & Hsn) & Hk'). split_and!; [by apply Hin | | done].
      exists sn. rewrite Hnodes, lookup_insert_ne; [done |]. apply not_eq_sym. by eapply Hother; [apply not_eq_sym |].
  - intros k sn. rewrite Hnodes. intros [[<- <-] | [Hne Hsn]]%lookup_insert_Some.
    + rewrite Hstored. split; [done |]. exists a. apply lookup_insert_eq.
    + destruct (linked_nodes _ _ Hl _ _ Hsn) as [Hkey [a' He']]. split; [done |].
      destruct (decide (a' = a)) as [-> | Ha']; [| exists a'; by rewrite lookup_insert_ne].
      exfalso. destruct Hold as [Hold | Hold]; rewrite Hold in He'; [| done]. injection He' as He'. by rewrite He' in Hne.
  - intros a' e' [[<- <-] | [Hne He']]%lookup_insert_Some Hx.
    + exists n, stored. split_and!; [done | by rewrite Hnodes, lookup_insert_eq |].
      exists s0, protected, r, snapshot. rewrite Hstored. done.
    + destruct (linked_published _ _ Hl _ _ He') as (n' & sn & Hn' & Hsn & Hpub); [set_solver |].
      exists n', sn. split_and!; [done | | done]. rewrite Hnodes, lookup_insert_ne; [done |].
      apply not_eq_sym. by eapply Hother; [apply not_eq_sym |].
  - apply (linked_raw _ _ Hl).
Qed.

Lemma upsert_address_Ok X a s s' u :
  linked X s -> upsert_address sha256 encoded a s = (s', Ok u) ->
  linked (X ∖ {[a]}) s' /\ raw_nodes s' = raw_nodes s /\ dom (elements s') = {[a]} ∪ dom (elements s).
Proof.
  intros Hl H. unfold upsert_address in H. run_inv H. injection H as <- _. apply ok_or_inv in Hm.
  rename a0 into n, a1 into app, a2 into e, a3 into snapshot, a4 into r.
  destruct (ensure_application_Ok _ _ _ _ _ Hl Hm0) as (Hl0 & Hr0 & He0 & Happ).
  destruct (element_for_Ok _ _ _ _ _ _ _ Hl0 (linked_raw _ _ Hl _ _ Hm) Happ Hm1) as [Hk Hcase].
  apply on_cache_inv in Hm3 as (c & Hobs & ->).
  assert (cache s1 = cache s0 /\ raw_nodes s1 = raw_nodes s0) as [Hc1 Hr1] by (by destruct Hcase as [[_ ->] | [_ ->]]).
  rewrite Hc1 in Hobs.
  assert (linked (X ∖ {[a]}) (set_cache c (set_elements (<[a := e]> (elements s0)) s0))) as Hl1.
  { eapply observed_linked; [done | by rewrite Hr0 | done | | by eexists | done]. destruct Hcase as [[? _] | [? _]]; auto. }
  assert (elements s1 = <[a := e]> (elements s0)) as He1.
  { destruct Hcase as [[He ->] | [_ ->]]; [by rewrite insert_id | done]. }
  split_and!.
  - apply (linked_same _ (set_cache c (set_elements (<[a := e]> (elements s0)) s0))); [| done].
    split_and!; [done | done | | done]. by destruct Hcase as [[_ ->] | [_ ->]].
  - change (raw_nodes s1 = raw_nodes s). by rewrite Hr1, Hr0.
  - change (dom (elements s1) = {[a]} ∪ dom (elements s)). by rewrite He1, dom_insert_L, He0.
Qed.

(** *** Several nodes *)
Lemma upsert_all_Ok X l s s' u :
  linked X s -> for_each (upsert_address sha256 encoded) l s = (s', Ok u) ->
  linked (X ∖ list_to_set l) s' /\ raw_nodes s' = raw_nodes s /\ dom (elements s') = list_to_set l ∪ dom (elements s).
Proof.
  revert X s. induction l as [| a l IH]; intros X s Hl H; cbn [for_each] in H.
  - injection H as <- _. split_and!; [| done |]; cbn [list_to_set]; [by rewrite difference_empty_L | by rewrite union_empty_l_L].
  - run_inv H. destruct (upsert_address_Ok _ _ _ _ _ Hl Hm) as (Hl0 & Hr0 & He0).
    destruct (IH _ _ Hl0 H) as (Hl1 & -> & ->). cbn [list_to_set]. split_and!; [| done |].
    + by replace (X ∖ ({[a]} ∪ list_to_set l)) with ((X ∖ {[a]}) ∖ list_to_set l) by set_solver.
    + rewrite He0. set_solver.
Qed.

(** Linked at every address, and each node with an element. *)
Definition settled (s : Plane) : Prop := linked ∅ s /\ covered s.

Lemma settled_same s s' : same_links s s' -> settled s -> settled s'.
Proof.
  intros Hs [Hl Hc]. split; [by eapply linked_same |]. destruct Hs as (_ & Hr & _ & He). unfold covered. by rewrite Hr, He.
Qed.

Lemma elem_of_keys (m : gmap Address CachedNode.t) : list_to_set (btree_keys ObjectAddress.cmp m) = dom m.
Proof. apply set_eq. intros a. by rewrite elem_of_list_to_set, elem_of_btree_keys, elem_of_dom. Qed.

Lemma refresh_all_Ok X s s' u :
  linked X s -> X ⊆ dom (raw_nodes s) -> dom (elements s) ⊆ dom (raw_nodes s) ->
  refresh_all_normalized_snapshots sha256 encoded s = (s', Ok u) -> settled s'.
Proof.
  intros Hl HX He H. unfold refresh_all_normalized_snapshots in H. run_inv H.
  destruct (upsert_all_Ok _ _ _ _ _ Hl H) as (Hl' & Hr' & He'). rewrite elem_of_keys in Hl', He'. split.
  - by replace ∅ with (X ∖ dom (raw_nodes s)) by set_solver.
  - unfold covered. rewrite He', Hr'. set_solver.
Qed.

Lemma rebuild_all_Ok s s' u :
  linked ∅ s -> dom (elements s) = ∅ -> rebuild_all sha256 encoded s = (s', Ok u) -> settled s'.
Proof.
  intros Hl He H. unfold rebuild_all in H. run_inv H.
  destruct (upsert_all_Ok _ _ _ _ _ Hl Hm) as (Hl0 & Hr0 & He0). rewrite elem_of_keys in Hl0, He0.
  destruct (upsert_all_Ok _ _ _ _ _ Hl0 H) as (Hl1 & Hr1 & He1). rewrite elem_of_keys in Hl1, He1. split.
  - eapply linked_grows; [| done]. set_solver.
  - unfold covered. rewrite He1, He0, Hr1, Hr0. set_solver.
Qed.

(** *** Removals *)
Lemma remove_element_Ok X a s s' u :
  linked X s -> remove_element a s = (s', Ok u) ->
  linked X s' /\ raw_nodes s' = raw_nodes s /\ elements s' = delete a (elements s).
Proof.
  intros Hl H. unfold remove_element in H. run_inv H. destruct (elements s !! a) as [e |] eqn:He.
  2: { injection H as <- _. by rewrite delete_id. }
  run_inv H. injection H as <- _. apply on_cache_inv in Hm as (c & Hrm & ->).
  destruct (remove_Ok _ _ _ _ Hrm) as (Hsame & Happ & Hnodes). cbn [cache set_elements] in Hsame, Happ, Hnodes.
  split_and!; [| done | done].
  assert (forall x, owns (cache s) x -> owns c x) as Howns by (intros x; unfold owns; by rewrite Happ).
  assert (forall a' e', a <> a' -> elements s !! a' = Some e' -> object_key e <> object_key e') as Hother.
  { intros a' e' Hne He' Heq. apply Hne. by eapply linked_keys. }
  split; cbn [applications cache elements raw_nodes set_elements set_cache].
  - intros a' app Ha'. destruct (linked_applications _ _ Hl _ _ Ha') as [Ho ?]. split; [by apply Howns | done].
  - rewrite Happ. apply (linked_owned _ _ Hl).
  - intros a' e' [Hne He']%lookup_delete_Some.
    destruct (linked_references _ _ Hl _ _ He') as (Hs & (sn & Hlive & Hsn) & Hk'). split_and!; [| | done].
    + eapply in_scope_same; [done | done |]. apply Howns. by destruct Hs as (_ & _ & _ & _ & ?).
    + exists sn. rewrite Hnodes, lookup_delete_ne; [done |]. by eapply Hother.
  - intros k sn. rewrite Hnodes. intros [Hne Hsn]%lookup_delete_Some.
    destruct (linked_nodes _ _ Hl _ _ Hsn) as [Hkey [a' He']]. split; [done |]. exists a'.
    rewrite lookup_delete_ne; [done |]. intros <-. rewrite He in He'. injection He' as He'. by rewrite Hkey, He' in Hne.
  - intros a' e' [Hne He']%lookup_delete_Some Hx.
    destruct (linked_published _ _ Hl _ _ He' Hx) as (n & sn & Hn & Hsn & Hpub). exists n, sn. split_and!; [done | | done].
    rewrite Hnodes, lookup_delete_ne; [done |]. by eapply Hother.
  - apply (linked_raw _ _ Hl).
Qed.

Lemma insert_raw_Ok X n total s s' u :
  linked X s -> placed (object_of n) n -> insert_raw n total s = (s', Ok u) ->
  linked (X ∪ {[object_of n]}) s' /\ raw_nodes s' = <[object_of n := n]> (raw_nodes s) /\ elements s' = elements s.
Proof.
  intros Hl Hp H. unfold insert_raw in H. run_inv H. injection H as <- _. split_and!; [| done | done].
  split; cbn [applications cache elements raw_nodes set_raw_nodes set_raw_estimated_bytes]; try apply Hl.
  - intros a e He Hx. destruct (linked_published _ _ Hl _ _ He) as (n' & sn & Hn' & H); [set_solver |]. exists n', sn.
    rewrite lookup_insert_ne; [done | set_solver].
  - intros a n' [[<- <-] | [_ Ha]]%lookup_insert_Some; [done |]. by apply (linked_raw _ _ Hl).
Qed.

Lemma remove_raw_Ok X a s s' u :
  linked X s -> remove_raw sizes a s = (s', Ok u) ->
  linked (X ∪ {[a]}) s' /\ raw_nodes s' = delete a (raw_nodes s) /\ elements s' = elements s.
Proof.
  intros Hl H. unfold remove_raw in H. run_inv H. destruct (raw_nodes s !! a) as [n |] eqn:Hn.
  2: { injection H as <- _. rewrite delete_id by done. split_and!; [| done | done]. eapply linked_grows; [| done]. set_solver. }
  run_inv H. injection H as <- _. split_and!; [| done | done].
  split; cbn [applications cache elements raw_nodes set_raw_nodes set_raw_estimated_bytes]; try apply Hl.
  - intros a' e He Hx. destruct (linked_published _ _ Hl _ _ He) as (n' & sn & Hn' & H); [set_solver |]. exists n', sn.
    rewrite lookup_delete_ne; [done | set_solver].
  - intros a' n' [_ Ha]%lookup_delete_Some. by apply (linked_raw _ _ Hl).
Qed.

(** *** Mutations *)
Lemma with_children (a : Address) (R C : gset Address) :
  C ⊆ {[a]} ∪ R -> C ∪ ({[a]} ∪ (R ∖ {[a]})) = {[a]} ∪ R.
Proof. intros HC. apply set_eq. intros x. specialize (HC x). destruct (decide (x = a)); set_solver. Qed.

Lemma apply_upsert_Ok n total s s' u :
  settled s -> placed (object_of n) n -> apply_upsert sha256 encoded n total s = (s', Ok u) -> settled s'.
Proof.
  intros [Hl Hc] Hp H. unfold apply_upsert in H. run_inv H. set (at_ := object_of n) in *.
  destruct (remove_element_Ok _ _ _ _ _ Hl Hm) as (Hl0 & Hr0 & He0).
  assert (same_links s0 s1) as Hsame by (by injection Hm0 as <- _). apply (linked_same _ _ _ Hsame) in Hl0.
  destruct Hsame as (_ & Hr1 & _ & He1).
  destruct (insert_raw_Ok _ _ _ _ _ _ Hl0 Hp Hm1) as (Hl2 & Hr2 & He2). fold at_ in Hl2, Hr2.
  destruct (upsert_address_Ok _ _ _ _ _ Hl2 Hm2) as (Hl3 & Hr3 & He3).
  destruct (upsert_all_Ok _ _ _ _ _ Hl3 H) as (Hl4 & Hr4 & He4). split.
  - eapply linked_grows; [| done]. set_solver.
  - unfold covered. rewrite He4, Hr4, He3, Hr3, Hr2, He2, He1, Hr1, He0, Hr0, dom_insert_L, dom_delete_L.
    unfold covered in Hc. rewrite Hc. apply with_children. intros x. rewrite elem_of_list_to_set.
    change (@map) with (@fmap list _). rewrite list_elem_of_fmap.
    intros ([x' n'] & -> & [_ Hin]%list_elem_of_filter). apply elem_of_btree_iter in Hin.
    apply elem_of_dom_2 in Hin. by rewrite dom_insert_L in Hin.
Qed.

Lemma apply_refresh_Ok n total s s' u :
  settled s -> placed (object_of n) n -> apply_refresh sha256 encoded n total s = (s', Ok u) -> settled s'.
Proof.
  intros [Hl Hc] Hp H. unfold apply_refresh in H. run_inv H. set (at_ := object_of n) in *.
  apply ok_or_inv in Hm, Hm0.
  match goal with Hi : insert_raw _ _ _ = _ |- _ => rename Hi into Hins end.
  destruct (insert_raw_Ok _ _ _ _ _ _ Hl Hp Hins) as (Hl1 & Hr1 & He1). fold at_ in Hl1, Hr1.
  unfold covered in Hc.
  assert (dom (raw_nodes s0) = dom (raw_nodes s)) as Hdom.
  { rewrite Hr1, dom_insert_L. apply elem_of_dom_2 in Hm. set_solver. }
  destruct (is_correlation_target _ || _).
  - run_inv H. assert (same_links s0 s1) as Hsame.
    { match goal with Hd : drop_correlation _ _ = _ |- _ => by injection Hd as <- _ end. }
    apply (linked_same _ _ _ Hsame) in Hl1. destruct Hsame as (_ & Hr2 & _ & He2).
    eapply refresh_all_Ok; [exact Hl1 | | | exact H].
    + rewrite Hr2, Hdom. apply elem_of_dom_2 in Hm. set_solver.
    + rewrite Hr2, He2, Hdom, He1, Hc. done.
  - destruct (upsert_address_Ok _ _ _ _ _ Hl1 H) as (Hl2 & Hr2 & He2). split.
    + eapply linked_grows; [| done]. set_solver.
    + unfold covered. rewrite He2, Hr2, He1, Hdom, Hc. apply elem_of_dom_2 in Hm. set_solver.
Qed.

Lemma apply_removed_Ok l s s' u : settled s -> apply_removed sizes l s = (s', Ok u) -> settled s'.
Proof.
  revert s. induction l as [| a l IH]; intros s Hs H; unfold apply_removed in H; cbn [for_each] in H.
  { by injection H as <- _. }
  run_inv H. apply (IH s0); [| done]. clear H IH. destruct Hs as [Hl Hc]. run_inv Hm.
  destruct (remove_raw_Ok _ _ _ _ _ Hl Hm0) as (Hl1 & Hr1 & He1).
  destruct (remove_element_Ok _ _ _ _ _ Hl1 Hm1) as (Hl2 & Hr2 & He2).
  assert (same_links s2 s0) as Hsame by (by injection Hm as <- _).
  eapply settled_same; [exact Hsame |]. split.
  - apply (linked_shrinks _ a); [rewrite He2; apply lookup_delete_eq | done].
  - unfold covered in *. by rewrite He2, Hr2, He1, Hr1, !dom_delete_L, Hc.
Qed.

(** *** An application that leaves *)
Lemma remove_applications_Ok l s s' u :
  keyed (cache s) ->
  for_each (fun application => on_cache (AccessibilityCache.remove_application application)) l s = (s', Ok u) ->
  exists c, s' = set_cache c s /\ same_scope (cache s) c /\
    (forall k, core_applications c !! k =
       if decide (k ∈ map application_key l) then None else core_applications (cache s) !! k) /\
    (forall k, core_nodes c !! k =
       if decide (ObjectKey.application k ∈ map application_key l) then None else core_nodes (cache s) !! k).
Proof.
  revert s. induction l as [| app l IH]; intros s Hk H; cbn [for_each] in H.
  { injection H as <- _. exists (cache s). by destruct s. }
  run_inv H. apply on_cache_inv in Hm as (c & Hrm & ->).
  destruct (remove_application_Ok _ _ _ _ Hk Hrm) as (Hsame & Happ & Hn).
  apply IH in H as (c' & -> & Hsame' & Happ' & Hn').
  2: { intros k sn. cbn [cache set_cache]. rewrite Hn. case_decide; [done | apply Hk]. }
  cbn [cache set_cache] in *. exists c'. split_and!; [done | by eapply same_scope_trans | |]; intros k; cbn [map].
  - rewrite Happ', Happ. destruct (decide (k = application_key app)) as [-> | Hne].
    + rewrite lookup_delete_eq, (decide_True (P := _ ∈ _ :: _)) by (by left). by case_decide.
    + rewrite lookup_delete_ne by done. repeat case_decide; try done; exfalso; set_solver.
  - rewrite Hn', Hn. destruct (decide (ObjectKey.application k = application_key app)) as [-> | Hne].
    + rewrite (decide_True (P := _ ∈ _ :: _)) by (by left). by case_decide.
    + repeat case_decide; try done; exfalso; set_solver.
Qed.

(** The keys of the applications of a connection. *)
Definition leaving (bus : string) (s : Plane) : list ApplicationKey.t :=
  map application_key (map snd (filter (fun entry : Address * ApplicationRef.t => ObjectAddress.bus_name entry.1 = bus)
    (btree_iter ObjectAddress.cmp (applications s)))).

Lemma leaving_spec X s bus k app :
  linked X s -> core_applications (cache s) !! k = Some app -> k ∈ leaving bus s <-> bus_str (ApplicationKey.bus k) = bus.
Proof.
  intros Hl Hk. unfold leaving. change (@map) with (@fmap list _). rewrite list_elem_of_fmap. split.
  - intros (app' & -> & Hin). apply list_elem_of_fmap in Hin as ([a x] & -> & [Hb Hin]%list_elem_of_filter).
    apply elem_of_btree_iter in Hin. destruct (linked_applications _ _ Hl _ _ Hin) as [_ <-]. done.
  - intros Hb. destruct (linked_owned _ _ Hl _ _ Hk) as (a & Ha & Hkey). exists app. split; [done |].
    apply list_elem_of_fmap. exists (a, app). split; [done |]. apply list_elem_of_filter.
    rewrite elem_of_btree_iter. split; [| done]. destruct (linked_applications _ _ Hl _ _ Ha) as [_ <-]. by rewrite Hkey.
Qed.

Lemma lookup_other {A} bus (m : gmap Address A) a x :
  filter (fun entry : Address * A => ObjectAddress.bus_name entry.1 <> bus) m !! a = Some x <->
  m !! a = Some x /\ ObjectAddress.bus_name a <> bus.
Proof. apply map_lookup_filter_Some. Qed.

Lemma dom_other {A B} bus (m : gmap Address A) (m' : gmap Address B) :
  dom m = dom m' ->
  dom (filter (fun entry : Address * A => ObjectAddress.bus_name entry.1 <> bus) m) =
  dom (filter (fun entry : Address * B => ObjectAddress.bus_name entry.1 <> bus) m').
Proof.
  intros Hd. apply set_eq. intros a. assert (a ∈ dom m <-> a ∈ dom m') as Ha by (by rewrite Hd).
  rewrite !elem_of_dom in *. unfold is_Some in *. setoid_rewrite lookup_other. naive_solver.
Qed.

(** The state without a connection. *)
Definition without (bus : string) (c : Core) (s : Plane) : Plane :=
  set_applications (filter (fun entry => ObjectAddress.bus_name entry.1 <> bus) (applications s))
    (set_elements (filter (fun entry => ObjectAddress.bus_name entry.1 <> bus) (elements s))
       (set_raw_nodes (filter (fun entry => ObjectAddress.bus_name entry.1 <> bus) (raw_nodes s)) (set_cache c s))).

Lemma without_linked bus c s :
  linked ∅ s -> same_scope (cache s) c ->
  (forall k, core_applications c !! k = if decide (k ∈ leaving bus s) then None else core_applications (cache s) !! k) ->
  (forall k, core_nodes c !! k =
     if decide (ObjectKey.application k ∈ leaving bus s) then None else core_nodes (cache s) !! k) ->
  linked ∅ (without bus c s).
Proof.
  intros Hl Hscope Happ Hnodes.
  assert (forall x, owns (cache s) x -> bus_str (ApplicationKey.bus (application_key x)) <> bus -> owns c x) as Howns.
  { intros x Hx Hb. unfold owns in *. rewrite Happ, decide_False; [done |]. by rewrite (leaving_spec _ _ _ _ _ Hl Hx). }
  assert (forall a e, elements s !! a = Some e -> ObjectAddress.bus_name a <> bus ->
    owns (cache s) (ElementRef.application e) /\ bus_str (ApplicationKey.bus (application_key (ElementRef.application e))) <> bus)
    as Hstays.
  { intros a e He Hb. destruct (linked_references _ _ Hl _ _ He) as ((_ & _ & _ & _ & Ho) & _ & <-). done. }
  assert (forall a e sn, elements s !! a = Some e -> ObjectAddress.bus_name a <> bus ->
    core_nodes (cache s) !! object_key e = Some sn -> core_nodes c !! object_key e = Some sn) as Hkept.
  { intros a e sn He Hb Hn. rewrite Hnodes, decide_False; [done |].
    destruct (Hstays a e He Hb) as [Ho Hne]. by rewrite (leaving_spec _ _ _ _ _ Hl Ho). }
  split; unfold without; cbn [applications cache elements raw_nodes set_applications set_elements set_raw_nodes set_cache].
  - intros a app [Ha Hb]%lookup_other. destruct (linked_applications _ _ Hl _ _ Ha) as [Ho <-]. split; [| done].
    by apply Howns.
  - intros k app. rewrite Happ. case_decide as Hk; [done |]. intros Hx.
    rewrite (leaving_spec _ _ _ _ _ Hl Hx) in Hk. destruct (linked_owned _ _ Hl _ _ Hx) as (a & Ha & Hkey).
    exists a. split; [| done]. apply lookup_other. split; [done |].
    destruct (linked_applications _ _ Hl _ _ Ha) as [_ <-]. by rewrite Hkey.
  - intros a e [He Hb]%lookup_other. destruct (Hstays a e He Hb) as [Ho Hne].
    destruct (linked_references _ _ Hl _ _ He) as (Hs & (sn & Hsn & Hel) & Hk). split_and!; [| | done].
    + eapply in_scope_same; [done | done |]. by apply Howns.
    + exists sn. split; [by eapply Hkept | done].
  - intros k sn. rewrite Hnodes. case_decide as Hk; [done |]. intros Hsn.
    destruct (linked_nodes _ _ Hl _ _ Hsn) as [-> [a He]]. split; [done |]. exists a. apply lookup_other. split; [done |].
    destruct (linked_references _ _ Hl _ _ He) as ((_ & _ & _ & _ & Ho) & _ & Haddr).
    intros Hb. apply Hk. change (ObjectKey.application (object_key ?e)) with (application_key (ElementRef.application e)).
    rewrite (leaving_spec _ _ _ _ _ Hl Ho). by rewrite <- Hb, <- Haddr.
  - intros a e [He Hb]%lookup_other Hx. destruct (linked_published _ _ Hl _ _ He Hx) as (n & sn & Hn & Hsn & Hpub).
    exists n, sn. split_and!; [by apply lookup_other | by eapply Hkept | done].
  - intros a n [Ha _]%lookup_other. by apply (linked_raw _ _ Hl).
Qed.

Lemma apply_application_invalidation_Ok bus s s' u :
  settled s -> apply_application_invalidation sizes bus s = (s', Ok u) -> settled s'.
Proof.
  intros [Hl Hc] H. unfold apply_application_invalidation in H. run_inv H.
  destruct (remove_applications_Ok _ _ _ _ (linked_keyed _ _ Hl) Hm0) as (c & -> & Hscope & Happ & Hnodes).
  injection H as <- _. apply (settled_same (without bus c s)); [done |]. split; [by apply without_linked |].
  unfold covered, without. by apply dom_other.
Qed.
End Links.

Import PlaneState CacheEffects CacheEffectsFacts.

Section Publication.
Context (sizes : TypeSizes) (sha256 : list ascii -> list ascii) (encoded : ElementSnapshot.t -> option N).
Context (config : PlaneConfig.t).

Definition placed_nodes (m : gmap Address CachedNode.t) : Prop := forall a n, m !! a = Some n -> placed a n.

Lemma placed_empty : placed_nodes ∅.
Proof. intros a n. by rewrite lookup_empty. Qed.

(** The invariant: linked while ready, and fit to be linked while it starts. *)
Record publishes (s : Plane) : Prop := {
  publishes_ready : resync_pending s = false -> settled s;
  publishes_boot : forall acc, bootstrap s = Some acc -> placed_nodes (Bootstrap.nodes acc) }.

Lemma publishes_same s s' :
  same_links s s' -> resync_pending s' = resync_pending s -> bootstrap s' = bootstrap s -> publishes s -> publishes s'.
Proof.
  intros Hs Hp Hb [Hr Hboot]. split; rewrite ?Hp, ?Hb; [| done]. intros Hready. eapply settled_same; [done | auto].
Qed.

Lemma publishes_cleared s' : core s' = cleared -> publishes s'.
Proof. unfold core, cleared. intros [= Hn Hr Hp Hb]. by split; rewrite ?Hp, ?Hb. Qed.

Lemma publishes_settled s' : settled s' -> bootstrap s' = None -> publishes s'.
Proof. intros Hs Hb. split; [done |]. by rewrite Hb. Qed.

(** ** Mutations *)
Lemma conclude_publishes revision applied f s :
  does applied (with_raw f) -> bootstrap s = None ->
  (forall s1 x, applied s = (s1, Ok x) -> settled s1) -> publishes (fst (conclude revision applied s)).
Proof.
  intros Hdoes Hb Hs. unfold conclude. destruct (applied s) as [s1 [[kind sources] | e]] eqn:Hrun.
  2: { apply publishes_cleared. by destruct e. }
  destruct (graph_needs_resync s1); [by apply publishes_cleared |].
  apply publishes_settled; [apply (settled_same s1); [done | by eapply Hs] |].
  pose proof (Hdoes s s1 _ Hrun) as Hc. unfold core, with_raw in Hc. injection Hc as _ _ _ Hc. simpl. by rewrite Hc.
Qed.

Lemma with_source_inv kind address applied s s1 x :
  with_source kind address applied s = (s1, Ok x) -> applied s = (s1, Ok tt).
Proof. unfold with_source. intros H. run_inv H. injection H as <- _. by destruct a. Qed.

Lemma admitted_placed revision limits n b :
  validate_cached_node sizes sha256 n revision limits = Ok b -> placed (object_of n) n.
Proof.
  unfold validate_cached_node. intros H. apply and_then_Ok in H as ([] & H%ensure_Ok & _). split; [done |].
  apply dec_stable. unfold object_of. tauto.
Qed.

Lemma raw_admission_placed s n revision total :
  raw_admission sizes sha256 config s n revision = Ok total -> placed (object_of n) n.
Proof. unfold raw_admission. intros H. apply and_then_Ok in H as (b & H & _). by eapply admitted_placed. Qed.

Lemma mutation_publishes generation previous m s :
  publishes s -> publishes (fst (ingest_mutation sizes sha256 encoded config generation previous m s)).
Proof.
  intros Hpub. unfold ingest_mutation. run_steps. unfold bind at 1, reject_if at 1.
  case_decide as Hready; [done |]. cbn [ret]. unfold bind at 1, reject_if at 1. case_decide; [done |]. cbn [ret].
  destruct (nothing_happened s previous m); [done |].
  destruct (negb (in_order s previous m)); [by apply publishes_cleared |].
  assert (settled s) as Hs.
  { apply (publishes_ready _ Hpub). destruct (resync_pending s); [exfalso; auto | done]. }
  assert (bootstrap s = None) as Hb by (apply eq_None_not_Some; tauto).
  destruct m as [revision kind detail]. cbn [CacheMutation.revision CacheMutation.kind CacheMutation.detail] in *.
  destruct kind, detail as [node | node | addresses | bus next removed | |]; try (by apply publishes_cleared).
  - unfold ingest_upserted. run_steps.
    destruct (raw_admission _ _ _ _ _ _) as [total | e] eqn:Hadm; [| by apply publishes_cleared].
    case_decide; [by apply publishes_cleared |].
    eapply conclude_publishes; [apply does_with_source, does_apply_upsert | done |].
    intros s1 x Hrun. apply with_source_inv in Hrun. eapply apply_upsert_Ok; [done | by eapply raw_admission_placed | done].
  - unfold ingest_refreshed. run_steps.
    destruct (raw_admission _ _ _ _ _ _) as [total | e] eqn:Hadm; [| by apply publishes_cleared].
    case_decide; [by apply publishes_cleared |].
    eapply conclude_publishes; [apply does_with_source, does_apply_refresh | done |].
    intros s1 x Hrun. apply with_source_inv in Hrun. eapply apply_refresh_Ok; [done | by eapply raw_admission_placed | done].
  - unfold ingest_removed. run_steps. case_decide; [by apply publishes_cleared |]. unfold bind at 1, lift.
    destruct (collect _ _) as [sources | e]; [| done].
    eapply (conclude_publishes _ _ (fun m => fold_right delete m addresses)); [| done |].
    + apply framed_after; [apply does_apply_removed | intros _; apply does_ret].
    + intros s1 x Hrun. run_inv Hrun. injection Hrun as <- _. by eapply apply_removed_Ok.
  - unfold ingest_application_invalidated. run_steps. case_decide; [by apply publishes_cleared |]. unfold bind at 1, lift.
    destruct (collect _ _) as [sources | e]; [| done].
    eapply conclude_publishes; [| done |].
    + apply framed_after; [apply does_apply_application_invalidation | intros _]. frame.
    + intros s1 x Hrun. run_inv Hrun. injection Hrun as <- _. eapply (settled_same s0); [done |].
      by eapply apply_application_invalidation_Ok.
Qed.

(** ** Pages *)
Lemma try_fold_all {A B E} (f : B -> A -> result B E) (P : A -> Prop) l b0 b :
  (forall b x b', f b x = Ok b' -> P x) -> try_fold f b0 l = Ok b -> Forall P l.
Proof.
  intros Hf. revert b0. induction l as [| x l IH]; intros b0 H; cbn [try_fold] in H; [constructor |].
  apply and_then_Ok in H as (b1 & Hx & H). constructor; eauto.
Qed.

Lemma page_placed p b n :
  validate_cache_page sizes sha256 p config = Ok b -> n ∈ CachePage.nodes p -> placed (object_of n) n.
Proof.
  unfold validate_cache_page. intros H Hn. apply and_then_Ok in H as ([] & _ & H). apply and_then_Ok in H as ([] & _ & H).
  apply and_then_Ok in H as (bytes & H & _). eapply (try_fold_all _ (fun n => placed (object_of n) n)) in H.
  - rewrite Forall_forall in H. by apply H.
  - intros b0 x b1 Hx. cbv beta in Hx. apply and_then_Ok in Hx as (nb & Hx & _). by eapply admitted_placed.
Qed.

Lemma page_accumulated p b acc acc' :
  validate_cache_page sizes sha256 p config = Ok b -> accumulate_page config acc p b = Ok acc' ->
  placed_nodes (Bootstrap.nodes acc) -> placed_nodes (Bootstrap.nodes acc').
Proof.
  intros Hv Ha Hp a n Hn. destruct (accumulate_page_Ok _ _ _ _ _ Ha) as (_ & _ & Hnodes).
  apply Hnodes in Hn as [Hn | [Hin <-]]; [by apply Hp | by eapply page_placed].
Qed.

Lemma fresh_linked s : placed_nodes (raw_nodes s) -> applications s = ∅ -> elements s = ∅ ->
  AccessibilityCache.applications (cache s) = ∅ -> AccessibilityCache.nodes (cache s) = ∅ -> linked ∅ s.
Proof.
  intros Hp Ha He Hca Hcn. split; rewrite ?Ha, ?He, ?Hca, ?Hcn; try done; intros *; rewrite lookup_empty; done.
Qed.

Lemma install_publishes complete s :
  placed_nodes (Bootstrap.nodes complete) -> publishes s -> publishes (fst (install sha256 encoded config complete s)).
Proof.
  intros Hp Hpub. unfold install. run_steps.
  assert (publishes (set_has_bootstrapped true (set_bootstrap None s))) as H0.
  { split; [intros Hr; apply (settled_same s); [done | by apply (publishes_ready _ Hpub)] | done]. }
  destruct (map_err _ (AtspiGeneration.new _)) as [generation | e]; [| done]. run_steps.
  destruct (map_err map_model_error _) as [fresh | e] eqn:Hfresh; [| done]. run_steps.
  set (s1 := set_elements ∅ _). destruct (validate_authoritative_topology (raw_nodes s1)); [| by apply publishes_cleared].
  destruct (rebuild_all sha256 encoded s1) as [s2 [u | e]] eqn:Hrun; [| by apply publishes_cleared].
  destruct (graph_needs_resync s2); [by apply publishes_cleared |].
  assert (settled s2) as Hs.
  { eapply rebuild_all_Ok; [| | exact Hrun]; [| done]. apply map_err_inv in Hfresh. unfold AccessibilityCache.new in Hfresh.
    apply and_then_Ok in Hfresh as ([] & _ & Hfresh). apply and_then_Ok in Hfresh as (r & _ & Hfresh).
    apply and_then_Ok in Hfresh as (l & _ & [= <-]). by apply fresh_linked. }
  apply publishes_settled; [by apply (settled_same s2) |].
  pose proof (framed_rebuild_all sha256 encoded s1 s2 u Hrun) as Hc. unfold core, id in Hc. by injection Hc as _ _ _ Hc.
Qed.

Lemma page_publishes p s : publishes s -> publishes (fst (ingest_cache_page sizes sha256 encoded config p s)).
Proof.
  intros Hpub. unfold ingest_cache_page. run_steps. destruct (validate_cache_page _ _ _ _) as [b | e] eqn:Hv.
  2: { case_decide; [by apply publishes_cleared | done]. }
  assert (forall acc s1, placed_nodes (Bootstrap.nodes acc) -> publishes s1 ->
    publishes (fst (continue_page sha256 encoded config p b acc s1))) as Hcont.
  { intros acc s1 Hacc Hs1. unfold continue_page. destruct (negb _); [by apply publishes_cleared |].
    destruct (accumulate_page config acc p b) as [acc' | e] eqn:Ha; [| by apply publishes_cleared]. run_steps.
    assert (placed_nodes (Bootstrap.nodes acc')) as Hacc' by by eapply page_accumulated.
    assert (publishes (set_bootstrap (Some acc') s1)) as Hs2.
    { split; [intros Hr; apply (settled_same s1); [done | by apply (publishes_ready _ Hs1)] | by intros ? [= <-]]. }
    destruct (CachePage.next_after p); [by apply (publishes_same (set_bootstrap (Some acc') s1)) | by apply install_publishes]. }
  destruct (bootstrap s) as [acc |] eqn:Hb.
  - unfold bind at 1, ret. run_steps. rewrite Hb. apply (Hcont acc s); [by apply (publishes_boot _ Hpub) | done].
  - unfold bind at 1 2, reject_if at 1. case_decide; [done |]. cbn [ret]. run_steps.
    unfold modify at 1. cbn [ret]. run_steps. apply Hcont; [exact placed_empty |].
    split; [done |]. intros ? [= <-]. exact placed_empty.
Qed.

(** ** The other operations *)
Lemma resync_publishes generation s : publishes s -> publishes (fst (begin_resync generation s)).
Proof.
  intros Hpub. unfold begin_resync. run_steps. unfold bind at 1, reject_if. case_decide; [done | by apply publishes_cleared].
Qed.

Lemma invalidation_publishes generation revision bus next s :
  publishes s -> publishes (fst (ingest_application_invalidation generation revision bus next s)).
Proof.
  intros Hpub. unfold ingest_application_invalidation. unfold bind at 1, reject_if at 1. case_decide; [done |].
  cbn [ret]. run_steps. destruct (require_ready s); [| done]. run_steps. unfold bind at 1, reject_if. case_decide; [done |].
  cbn [ret]. case_decide; [done | by apply publishes_cleared].
Qed.

Lemma correlations_publishes fence assignments s :
  publishes s -> publishes (fst (replace_window_correlations sha256 encoded fence assignments s)).
Proof.
  intros Hpub. unfold replace_window_correlations. unfold bind at 1, reject_if at 1. case_decide; [done |].
  cbn [ret]. run_steps. destruct (require_ready s) as [u |] eqn:Hready; [| done]. run_steps. unfold bind at 1, reject_if.
  case_decide; [done |]. cbn [ret]. run_steps. destruct (try_fold _ _ _) as [desired | e]; [| done]. run_steps.
  destruct (publicly_unchanged s desired); [by apply (publishes_same s) |].
  destruct (refresh_all_normalized_snapshots _ _ _) as [s2 [v | e]] eqn:Hrun; [| by apply publishes_cleared].
  destruct u. apply ensure_Ok in Hready.
  assert (settled s) as [Hl Hc] by (apply (publishes_ready _ Hpub); by destruct (resync_pending s); [exfalso; auto |]).
  apply publishes_settled.
  - apply (settled_same s2); [done |]. eapply refresh_all_Ok; [| | | exact Hrun].
    + by apply (linked_same ∅ s).
    + set_solver.
    + unfold covered in Hc. simpl. by rewrite Hc.
  - apply framed_refresh_all in Hrun. unfold core, id in Hrun. injection Hrun as _ _ _ Hb. simpl. rewrite Hb. simpl.
    apply eq_None_not_Some. tauto.
Qed.

Lemma joint_step_publishes j j' : publishes (plane j) -> joint_step sizes sha256 encoded config j j' -> publishes (plane j').
Proof.
  intros Hp Hstep. destruct Hstep as [| | | generation message h log p Hin | | | |]; cbn [plane] in *; try done.
  - destruct message; cbn [deliver]; [by apply mutation_publishes | by apply page_publishes].
  - by apply resync_publishes.
  - by apply invalidation_publishes.
  - by apply correlations_publishes.
  - by apply (publishes_same p).
Qed.

Lemma resolve_linked X s a e :
  linked X s -> elements s !! a = Some e ->
  exists snapshot, AccessibilityCache.resolve_exact e (cache s) = Ok snapshot /\
    AccessibilityCache.nodes (cache s) !! object_key e = Some snapshot.
Proof.
  intros Hl He. destruct (linked_references _ _ Hl _ _ He) as (Hs & (sn & Hsn & Hel) & _).
  exists sn. split; [| done]. unfold AccessibilityCache.resolve_exact.
  assert (AccessibilityCache.require_element_scope e (cache s) = Ok tt) as -> by by apply require_element_Ok.
  cbn [and_then]. rewrite Hsn. by rewrite decide_True.
Qed.

Lemma ready_settled desktop generation atspi s0 p0 j :
  PlaneState.new desktop generation atspi config = Ok p0 ->
  joint_steps sizes sha256 encoded config (mkJoint [s0] [] p0) j -> require_ready (plane j) = Ok tt -> settled (plane j).
Proof.
  intros Hnew Hrun Hready.
  assert (publishes p0) as H0.
  { unfold PlaneState.new in Hnew. apply and_then_Ok in Hnew as ([] & _ & Hnew).
    apply and_then_Ok in Hnew as (c & _ & [= <-]). by split. }
  assert (publishes (plane j)) as Hp.
  { change p0 with (plane (mkJoint [s0] [] p0)) in H0. revert H0.
    apply (steps_invariant (joint_step sizes sha256 encoded config) (fun j => publishes (plane j)));
      [intros a b; apply joint_step_publishes | done]. }
  unfold require_ready in Hready. apply ensure_Ok in Hready.
  apply (publishes_ready _ Hp). by destruct (resync_pending (plane j)); [exfalso; auto |].
Qed.


(** ** Protection *)
Lemma elem_of_dedup {A} `{EqDecision A} (l : list A) x : x ∈ dedup l <-> x ∈ l.
Proof.
  induction l as [| y l IH]; [done |]. cbn [dedup]. rewrite elem_of_cons, <- IH.
  destruct (dedup l) as [| z rest]; [by rewrite list_elem_of_singleton, elem_of_nil; tauto |].
  case_decide; subst; rewrite !elem_of_cons; tauto.
Qed.

Lemma elem_of_sorted_set {A} `{EqDecision A} (position : A -> N) l x : x ∈ sorted_set position l <-> x ∈ l.
Proof. unfold sorted_set. by rewrite elem_of_dedup, merge_sort_Permutation. Qed.

(** What a snapshot of something protected shows. *)
Record hidden (snapshot : ElementSnapshot.t) : Prop := {
  hidden_declared : snapshot_declares_protected snapshot = true;
  hidden_name : ElementSnapshot.name snapshot = None;
  hidden_description : ElementSnapshot.description snapshot = None;
  hidden_value : ElementSnapshot.value snapshot = None;
  hidden_attributes : ElementSnapshot.attributes snapshot = [];
  hidden_content : forall text, ElementSnapshot.text snapshot = Some text ->
    TextSnapshot.content text = None /\ TextSnapshot.protected text = true }.

Lemma normalized_states_of s n e snapshot :
  normalized_snapshot s n e = Ok snapshot ->
  ElementSnapshot.states snapshot = normalized_states n /\
  ElementSnapshot.name snapshot = (if node_protected n then None else nonempty (CacheItem.name (CachedNode.item n))) /\
  ElementSnapshot.description snapshot =
    (if node_protected n then None else nonempty (CacheItem.description (CachedNode.item n))) /\
  forall text, ElementSnapshot.text snapshot = Some text -> TextSnapshot.content text = None.
Proof.
  unfold normalized_snapshot. intros H. apply and_then_Ok in H as (t & Ht & H). apply and_then_Ok in H as (c & _ & H).
  apply and_then_Ok in H as (i & _ & H). apply and_then_Ok in H as (k & _ & [= <-]). split_and!; [done | done | done |].
  cbn [ElementSnapshot.text]. intros text ->. unfold normalized_text in Ht. case_decide; [done |].
  destruct (LiveMetadata.text _); [| done]. repeat (apply and_then_Ok in Ht as (? & _ & Ht)). by injection Ht as <-.
Qed.

Lemma published_hidden n snapshot : published n snapshot -> node_protected n = true -> hidden snapshot.
Proof.
  intros (s & protected & r & normalized & Hn & Hp & Hs) Hprot.
  destruct (normalized_states_of _ _ _ _ Hn) as (Hstates & Hname & Hdesc & Htext). rewrite Hprot in Hname, Hdesc.
  assert (snapshot_declares_protected normalized = true) as Hd.
  { unfold snapshot_declares_protected. rewrite (bool_decide_true (ElementState.Protected ∈ _)); [by rewrite orb_true_r |].
    rewrite Hstates. unfold normalized_states. rewrite Hprot. apply elem_of_sorted_set, elem_of_app. right. by left. }
  rewrite (Hp Hd) in Hs. clear Hn Hp. subst snapshot. unfold redact_protected. split; try done.
  - unfold snapshot_declares_protected in *. cbn. destruct (ElementSnapshot.text normalized); [| done]. cbn. by rewrite orb_true_r.
  - cbn. intros text. destruct (ElementSnapshot.text normalized); [| done]. intros [= <-]. done.
Qed.

(** C12: What the accessibility tree marks as protected, or of a role whose protection is not
    known, is never shown: in every run, the published snapshot of such a mirrored node
    declares its protection and has no name, description, value, attributes or content. *)
Theorem protected_mirror_hidden desktop generation atspi s0 p0 j a n e snapshot :
  PlaneState.new desktop generation atspi config = Ok p0 ->
  joint_steps sizes sha256 encoded config (mkJoint [s0] [] p0) j -> require_ready (plane j) = Ok tt ->
  raw_nodes (plane j) !! a = Some n -> elements (plane j) !! a = Some e ->
  AccessibilityCache.resolve_exact e (cache (plane j)) = Ok snapshot ->
  node_protected n = true -> hidden snapshot.
Proof.
  intros Hnew Hrun Hready Hn He Hr Hprot. apply (published_hidden n); [| done].
  assert (settled (plane j)) as [Hl _] by by eapply ready_settled.
  destruct (linked_published _ _ Hl _ _ He) as (n' & sn & Hn' & Hk & Hpub); [set_solver |].
  destruct (resolve_linked _ _ _ _ Hl He) as (sn' & Hr' & Hk'). congruence.
Qed.
End Publication.
