(* ===== verification/PlaneWitness.v ===== *)
(** * The accessibility plane on a concrete run

    An actor with two small applications, one of which leaves; the plane that mirrors it; and
    a page cursor: the theorems on them at this run. *)

From stdpp Require Import base numbers list option gmap strings sorting.
From Stdlib Require Import Lia Ascii.
From S2P Require Import Prelude Identity AtspiCache AtspiCacheFacts AtspiGuarantees AtspiContract.
From S2P Require Import AccessibilityTypes Accessibility AccessibilityViews PlaneTypes CursorGuarantees AccessibilityIngest IngestFacts IngestGuarantees IngestPublication.
Local Open Scope N_scope.

Import AtspiWitness BoundedCache PlaneState.

Module PlaneWitness.
Definition encoded (s : ElementSnapshot.t) : option N := Some 100.
Definition config : PlaneConfig.t :=
  PlaneConfig.mk AccessibilityModelLimits.default limits0 (from_millis 30000) 8 2 4 4 65536 100 8 10 1000 50 65536.
Definition desktop : DesktopId := mkDesktopId 7.
Definition generation : DesktopGeneration := mkDesktopGeneration 2.
Definition atspi := AtspiGeneration.mk 3.
Definition core0 : AccessibilityCache.t :=
  AccessibilityCache.mk desktop generation atspi (AccessibilityRevision.mk 1) AccessibilityModelLimits.default ∅ ∅ ∅ ∅ [] 0.
Definition plane0 : PlaneState.t :=
  PlaneState.mk desktop generation core0 None false (Some 3) true None ∅ 0 ∅ ∅ ∅ ∅ ∅
    (mkSignal atspi (AccessibilityRevision.mk 1)).
Lemma plane0_new : PlaneState.new desktop generation atspi config = Ok plane0.
Proof. vm_compute. reflexivity. Qed.
Definition node_of (bus path : string) (parent : option ObjectAddress.t) (children : N) (name : string) : CacheItem.t :=
  CacheItem.mk (at_bus bus path) (at_bus bus "/root") parent (Some 0) (Some children) [] ["org.a11y.atspi.Accessible"%string]
    name "" 40 Protected [1; 2].
Definition items : list CacheItem.t :=
  [node_of ":1.5" "/button" (Some (at_bus ":1.5" "/dialog")) 0 "OK";
   node_of ":1.5" "/root" None 1 "app"; node_of ":1.9" "/root" None 0 "other";
   node_of ":1.5" "/dialog" (Some (at_bus ":1.5" "/root")) 1 "Open"].
Definition actor1 : BoundedCache.t := fst (replace sizes sha256 items empty_cache).
Definition page0 : CachePage.t :=
  match BoundedCache.page sizes actor1 3 None 8 8192 with Ok p => p | Err _ => CachePage.mk 0 0 0 None [] None 0 end.
Definition page1 : CachePage.t := with_epoch 0 page0.
Definition plane1 := fst (ingest_cache_page sizes sha256 encoded config page1 plane0).
Definition gone := CallApply (CacheEvent.InvalidateApplication ":1.9").
Definition actor2 := fst (run_call sizes sha256 gone actor1).
Definition mutation2 : CacheMutation.t :=
  match snd (run_call sizes sha256 gone actor1) with Ok m => m | Err _ => CacheMutation.mk 0 MutationKind.Unchanged MutationDetail.Unchanged end.
Definition plane2 := fst (ingest_mutation sizes sha256 encoded config 3 (CacheMutation.revision mutation2 - 1) mutation2 plane1).
Definition joint0 : Joint := mkJoint [empty_cache] [] plane0.
Definition joint1 : Joint := mkJoint [actor1; empty_cache] [] plane0.
Definition joint2 : Joint := mkJoint [actor1; empty_cache] [PageMessage page1] plane0.
Definition joint3 : Joint := mkJoint [actor1; empty_cache] [PageMessage page1] plane1.
Definition message2 : Message := MutationMessage (CacheMutation.revision mutation2 - 1) mutation2.
Definition joint4 : Joint := mkJoint [actor2; actor1; empty_cache] [message2; PageMessage page1] plane1.
Definition joint5 : Joint := mkJoint [actor2; actor1; empty_cache] [message2; PageMessage page1] plane2.

(** The actor bootstraps, answers for a page, and drops an application; the plane ingests
    the page and the mutation. *)
Lemma joint_run : joint_steps sizes sha256 encoded config (mkJoint [empty_cache] [] plane0) joint5.
Proof.
  apply (steps_trans joint0 joint4 joint5); [apply (steps_trans joint0 joint3 joint4);
    [apply (steps_trans joint0 joint2 joint3); [apply (steps_trans joint0 joint1 joint2);
    [apply (steps_trans joint0 joint0 joint1); [apply steps_refl |] |] |] |] |].
  - apply (actor_works sizes sha256 encoded config empty_cache actor1 [] [] plane0). by apply (step_replace _ _ _ _ items).
  - apply (actor_answers sizes sha256 encoded config 3 None 8 8192 0 page0 actor1 [empty_cache] [] plane0).
    vm_compute. reflexivity.
  - apply (plane_ingests sizes sha256 encoded config 3 (PageMessage page1) [actor1; empty_cache] [PageMessage page1] plane0).
    by left.
  - apply (actor_mutates sizes sha256 encoded config gone actor1 actor2 mutation2 [empty_cache] [PageMessage page1] plane1);
      vm_compute; [reflexivity | discriminate].
  - apply (plane_ingests sizes sha256 encoded config 3 message2 [actor2; actor1; empty_cache] [message2; PageMessage page1] plane1).
    by left.
Qed.

Lemma plane2_ready : require_ready (plane joint5) = Ok tt.
Proof. vm_compute. reflexivity. Qed.
Lemma plane2_revision : source_revision plane2 = Some (revision actor2).
Proof. vm_compute. reflexivity. Qed.

Lemma plane_mirrors_actor_witness :
  joint_steps sizes sha256 encoded config (mkJoint [empty_cache] [] plane0) joint5 /\
  source_revision plane2 = Some (revision actor2) /\ raw_nodes plane2 = nodes actor2.
Proof.
  split; [apply joint_run |].
  destruct (plane_mirrors_actor sizes sha256 encoded config desktop generation atspi limits0 empty_cache plane0 joint5)
    as (c & Hc & Hr & Hn & Hu); [done | reflexivity | apply plane0_new | apply joint_run | apply plane2_ready |].
  split; [apply plane2_revision |].
  assert (actor2 = c) as ->; [| done]. apply Hu; [by left |].
  change (source_revision (plane joint5)) with (source_revision plane2) in Hr. rewrite plane2_revision in Hr.
  exact (inj Some _ _ Hr).
Defined.

Definition dialog_address : ObjectAddress.t := at_bus ":1.5" "/dialog".


Lemma protected_mirror_hidden_witness :
  exists n e snapshot, raw_nodes plane2 !! dialog_address = Some n /\ CacheItem.name (CachedNode.item n) = "Open"%string /\
    elements plane2 !! dialog_address = Some e /\
    AccessibilityCache.resolve_exact e (cache plane2) = Ok snapshot /\ hidden snapshot.
Proof.
  destruct (raw_nodes plane2 !! dialog_address) as [n |] eqn:Hn; [| vm_compute in Hn; discriminate].
  destruct (elements plane2 !! dialog_address) as [e |] eqn:He; [| vm_compute in He; discriminate].
  destruct (AccessibilityCache.resolve_exact e (cache plane2)) as [snapshot | x] eqn:Hr.
  2: { vm_compute in He. injection He as <-. vm_compute in Hr. discriminate. }
  exists n, e, snapshot. split_and!; [done | | done | done |].
  - vm_compute in Hn. by injection Hn as <-.
  - apply (protected_mirror_hidden sizes sha256 encoded config desktop generation atspi empty_cache plane0 joint5
      dialog_address n e snapshot); [apply plane0_new | apply joint_run | apply plane2_ready | done | done | done |].
    vm_compute in Hn. by injection Hn as <-.
Defined.

(** ** A cursor *)
Definition instant_add (now ttl : N) : option N := checked_add_u64 now ttl.
Definition token : string := "0123456789abcdef0123456789abcdef".
Definition cursor : AccessibilityPageCursor := mkPageCursor token.
Definition binding : CursorBinding.t :=
  CursorBinding.mk [] CursorList Preorder 10 (Expansion.mk false false false false false false false) QueryLimits.default.
Definition continuation : Continuation.t (list ascii) :=
  Continuation.mk desktop generation atspi (AccessibilityRevision.mk 4) [] Preorder
    (Expansion.mk false false false false false false false) 10.
Definition issued_store : CursorStore :=
  fst (issue_cursor sha256 instant_add 5 [token] "alice" binding (Some continuation) config ∅).
Definition redeemed_store : CursorStore := fst (consume_cursor sha256 9 "alice" cursor binding issued_store).
Definition cursor_trace : list Event :=
  [Redeemed cursor "alice" binding continuation 9; Issued cursor (CursorRecord.mk "alice" 30000000005 binding continuation)].

Lemma tokens_valid : Forall (fun token => is_ok (new_page_cursor token) = true) [token].
Proof. repeat constructor. Qed.

Lemma page_cursors_redeemed_once_witness :
  cursor_run sha256 instant_add config cursor_trace redeemed_store /\
  exists c r, Issued c r ∈ cursor_trace /\ CursorRecord.principal r = "alice"%string.
Proof.
  assert (cursor_run sha256 instant_add config cursor_trace redeemed_store) as Hrun.
  { apply (run_consume sha256 instant_add config [Issued cursor (CursorRecord.mk "alice" 30000000005 binding continuation)]
      issued_store 9 "alice" cursor binding redeemed_store (Ok continuation)); [| vm_compute; reflexivity].
    apply (run_issue sha256 instant_add config [] ∅ 5 [token] "alice" binding (Some continuation) issued_store (Ok (Some cursor)));
      [constructor | apply tokens_valid | vm_compute; reflexivity]. }
  split; [done |]. destruct (page_cursors_redeemed_once sha256 instant_add config _ _ Hrun) as [Hr _].
  destruct (Hr cursor "alice"%string binding continuation 9) as (c & r & Hin & _ & Hp & _); [by left |]. by exists c, r.
Defined.

Lemma issued_cursor_redeems_witness :
  snd (consume_cursor sha256 9 "alice" cursor binding issued_store) = Ok continuation /\
  snd (consume_cursor sha256 9 "mallory" cursor binding issued_store) = Err PlaneError.PermissionDenied.
Proof.
  destruct (issued_cursor_redeems sha256 instant_add config 5 [token] "alice" binding continuation ∅ issued_store cursor)
    as (expires & He & Hc); [apply tokens_valid | vm_compute; reflexivity |].
  vm_compute in He. injection He as <-.
  pose proof (Hc 9 "alice"%string binding) as Ha. pose proof (Hc 9 "mallory"%string binding) as Hm.
  destruct (consume_cursor sha256 9 "alice" cursor binding issued_store) as [s1 r1].
  destruct (consume_cursor sha256 9 "mallory" cursor binding issued_store) as [s2 r2].
  split; [by destruct Ha as [-> _] | by destruct Hm as [-> _]].
Defined.
End PlaneWitness.
